(* ===== verification/_CoqProject ===== *)
-Q . S2P
Prelude.v
BTree.v
Text.v
Transcript.v
Wire.v
NetSel.v
Toml.v
Seccomp.v
Identity.v
Passphrase.v
Grants.v
Realm.v
Petitions.v
Input.v
Geometry.v
Constraint.v
Router.v
Uses.v
Picker.v
Delivery.v
Attention.v
Bucket.v
Capture.v
Enforcement.v
Messages.v
Terminals.v
Canvas.v
Png.v
Atlas.v
Paint.v
Lettering.v
Card.v
Consent.v
Grab.v
Scene.v
Designation.v
Chord.v
Clipboard.v
DeadMan.v
Ipc.v
Principal.v
Connection.v
ShimMessages.v
Protocol.v
Shim.v
ShimRun.v
Blank.v
Lock.v
LockCard.v
Status.v
Output.v
Rounds.v
Settle.v
Screens.v
Lifecycle.v
