(* ===== verification/Prelude.v ===== *)
(** * Vitrin OS: a verification library for the trusted core

    Vitrin OS runs confined applications, each in a _realm_ with its own shim,
    under a trusted core ([vitrind]). Agents ([principals]) connect to the core
    over a Unix socket, prove who they are, petition a human for authority and
    then use it: to see a realm's pixels, to move its pointer, to type, to
    arrange its window, to be handed a file, to launch another instance. The
    human can end it all by holding one key.

    This library models the parts of the core that decide: what a byte stream
    says, who a peer is, what a grant allows, when a human is asked and what the
    card they see says, whether a use goes through and what it then does, what
    the human's own gestures mean, what is on the screen, and how a realm ends. Definitions keep the source's names and its order of tests; every
    handler is a function from the state before to the state after and the
    outcome, so that all of it runs.

    ** The parts and their files

    A peer's bytes enter at the bottom and come out, at the top, as at most one
    effect on the world.

    - [Ipc] ([crates/vitrin-ipc/src/connection.rs]): a socket as two halves. The
      receiver cuts the stream into frames and gives each its file descriptor by
      position, poisoning itself on any violation; the sender parks what the
      socket will not take, within two caps. The kernel is a list of results.
    - [Wire] ([crates/vitrin-protocol/src/wire.rs]): the header and the argument
      codecs the generated message types are built from.
    - [Messages] ([crates/vitrin-protocol/src/generated/]): the messages themselves,
      each a codec of its arguments; a codec that keeps the laws of the class
      [Lawful] is encoded and decoded exactly. [Terminals] ([vitrin-protocol/src/terminals.rs])
      has the frames written without owning the descriptor they announce.
    - [Identity] ([crates/vitrin-core/src/identity.rs]): the identity grammar, the
      registry file and [StaticVerifier::verify].
    - [Toml] ([toml_subset.rs]): the line parser that the registry and the realm
      configuration share.
    - [NetSel] and [Grants] ([grants.rs]): network selectors; the grant table,
      its rows, their lives and its two queries.
    - [Realm] ([realm.rs], and the naming rules of [vitrin-ipc/src/paths.rs]):
      realm configuration, the audit of what it names, the registry and the
      minting of launch instances.
    - [Petitions] ([petitions.rs], and the buttons of [consent/mod.rs]): the queue
      of authority waiting for a human, and what the human's answer makes of it.
    - [Paint], [Atlas], [Lettering] ([paint/canvas.rs], [paint/atlas.rs],
      [paint/text.rs]): the drawing operations, the bitmap font, and text measured,
      wrapped, elided and drawn.
    - [Transcript] ([paint/script.rs], [paint/transcript.rs]): an untrusted name as
      it may be shown, and back.
    - [Card], [Consent], [Grab] ([consent/render.rs], [consent/mod.rs],
      [consent/grab.rs]): the card that asks, the surface that composes it over a
      view together with the session's trust band, and the grab that gives the
      human's pointer and keys to it, from the press to the decision it queues.
    - [Picker], [Delivery] ([picker/]): the file picker's keys, listings, resolution
      and navigation, over a kernel of files; and the descriptors a human chose,
      until both ends were told.
    - [Input], [Attention], [Chord] ([input/mod.rs], [attention.rs], [chord.rs]):
      input events and their origin, who is at the keyboard, the human's
      one-shot permission to move the focus, and the matcher of modifier chords.
    - [Uses], [Bucket], [Capture], [Enforcement] ([enforcement.rs],
      [capture.rs]): the chokepoint [enforce_use]. It asks [Grants] whether the
      row allows the use, [Petitions] whether a prompt is up, [Input] whether the
      human is at the realm, [Attention] for an exemption, [Bucket] for a token;
      then it spends, captures, actuates or hands over, and voices refusals.
    - [Geometry], [Constraint], [Router] ([view.rs], [scene/layout.rs],
      [input/constraint.rs], [input/mod.rs]): where a surface lies, what an app's
      ask to lock the pointer comes to, and the router that turns an event into
      what one realm's app is told, behind any hook that may consume it.
    - [Canvas], [Scene] ([scene/mod.rs], [scene/realms.rs], [test_pattern.rs]): the
      surface a realm committed, the bytes of the view composed of it and the
      damage between two frames.
    - [ShimMessages], [Shim], [ShimRun] ([shim.rs] and its messages): the server of a
      realm's shim, from a frame of bytes to the scene; [ShimRun] has its runs,
      their invariant and their accounts.
    - [Protocol] (the rest of [generated/]): the events a principal is sent, and the
      table of every message of the protocol, in both directions.
    - [Principal], [Connection] ([principal.rs]): the server of one connection.
      [handle_message] decodes a request, finds its object in the table and runs
      its handler, which calls [Petitions], [Grants] or [enforce_use]; a fault is
      told once and kills the server; deliveries answer petitions; teardown
      returns what was held. [Principal] has the code and what each handler does;
      [Connection] has runs of it and their invariants.
    - [Passphrase], [Lock], [LockCard] ([lock/passphrase.rs], [lock/gate.rs],
      [lock/mod.rs], [lock/render.rs]): the file that says what opens the lock, the
      gate every event passes first, and the card over the view.
    - [Blank], [Status], [Output] ([backend/blank.rs], [status/], [backend/mod.rs]): the
      idle cover, the strip with the time and the battery, and the order in which
      all of it is laid over a realm's view.
    - [Rounds], [Settle], [Screens] ([session.rs]): the session's turns, which join the
      parts above over one runtime. [Rounds] has the runtime and the turn of
      consent; [Settle] has the turn of the picker, the two halves of a delivery, the
      sweep, and what a closing connection, a dying realm and a lock leave of
      a designation; [Screens] has the turns of the lock and of the blank.
    - [Lifecycle] ([lifecycle.rs], [DisconnectReason] of [vitrin-ipc/src/event_loop.rs]):
      the life of a realm's process, its one death and the shutdown ladder.
    - [Seccomp] ([crates/vitrin-realm-init/src/seccomp.rs]): the table of system
      calls a realm is denied, its compilation to a filter and its installation.
    - [Png] ([crates/vitrin-png/src/lib.rs]): the encoder of screenshots.
    - [Designation] ([designation.rs]): the ledger of file-picker questions that
      admitted uses opened, each owed exactly one answer.
    - [Clipboard] ([clipboard.rs]): the one clipboard slot, moved between realms
      only by the human's chords.
    - [DeadMan] ([deadman.rs]): the hold-to-revoke switch, from the key press to
      the revocation of every grant.

    Three files are shared: this one, [BTree] ([BTreeMap] with integer keys, whose
    order the core relies on) and [Text] (Rust's strings as scalar values, with
    their UTF-8 encoding and the searching and splitting the parsers use).

    ** How code is represented

    Machine integers are [Z] with the code's saturating, wrapping, checked and
    narrowing operations written out; a theorem that needs a width says so. Time
    is nanoseconds since an arbitrary origin and never read by a definition: as
    in the code, the caller passes [now]. A [Result] is [result], a [Vec] a list,
    a [BTreeMap] with integer keys a [btree] in ascending order, other maps and
    sets stdpp's. Mutation is explicit state passing, in [Enforcement] and
    [Principal] through a state and error monad. What is outside the source is a parameter: the kernel's
    answers on a socket, file status and directories, processes and signals, the
    memfd, the BLAKE3 digest and Argon2, which characters the embedded fonts cover
    and what the rasterizer draws of them, and in [UseEnv] and [Rounds] the event
    loop's callbacks, which are arbitrary functions on the rest of the world. What
    is required of them is a named hypothesis or a class ([BpfMachine] of [Seccomp])
    and a witness gives an instance.

    Recursion is structural almost everywhere. Where a loop needs fuel it is
    given enough, and the theorems are about the fuelled result: the array
    parser of [Toml] takes one more than the text's length and never runs out; the dead-man switch's denial loop takes
    the number of pending petitions and empties the queue; the reader of [Ipc] takes one more than the number of
    frames and reaches the end of the stream. The turns of [Rounds] and [Settle] take one more than the
    decisions, the steps or the obligations they drain, and [designation_turns_return]
    and [consent_round_refines] say that this is enough; the wait of [Lifecycle] takes the
    number of polls its grace admits, and [shutdown_ladder_ends] says it never runs
    out; the lossy decoding of [Terminals] takes one more than the bytes. There a
    result of [None] would be a panic or a loop out of fuel, and the theorems exclude it.

    ** What the theorems show

    - _Mediation_ ([Enforcement], [Grants], [Bucket]). A use the table does not
      allow, or that comes while a prompt is up, while the human is there or
      without a token, has no effect but at most one event. An admitted one has
      exactly its effect and spends exactly what it must. A single-use row is
      used once. A dead row stays dead. Refusals tell a stranger nothing, and do
      not become a channel. The rate limit holds over any sequence of uses.
    - _The connection_ ([Principal], [Connection]). Every handler refines one
      abstract step relation, and whatever a peer sends leaves through one door:
      its own facet at the chokepoint, its own petition, or nothing. Over any run
      the object table is well formed and bounded; only the verifier binds; a
      fault is final; a petition is resolved once and its rate is bounded; nothing
      a connection held outlives it.
    - _Consent_ ([Petitions], [Grab], [Card], [Rounds]). The queue is bounded, admission is all or nothing,
      a petition is resolved once, and a human can only narrow. A decision is made
      only by the human's own press and release on a button of the card that is up, past its guard;
      the card up is the card of the petition it decides, it offers every choice and
      fits what is asked; an undisturbed click on a choice decides it. A turn of the session is a
      run of the grab, and changes the grants by no more than that decision.
    - _What a human is asked to trust_ ([Output], [Transcript], [Atlas], [Png]). Whatever a
      realm draws, the trust band is the session's; a blanked or locked output does
      not depend on any realm; a hostile name is shown injectively, in characters
      that may be drawn; a screenshot reads back pixel for pixel.
    - _The lock_ ([Lock], [Passphrase], [Blank], [Screens]). While it is up no event reaches
      an application; it opens by its passphrase, and only by it; what is typed is
      always text. The screen shows what the lock is; the cover falls exactly on an idle session.
    - _The human's hand_ ([DeadMan], [Chord], [Clipboard], [Attention], [Input]).
      A gesture is made by physical keys only, means one thing, happens once, and
      the keys of it reach no application. The held key ends every delegation and
      seals the table; a tap of it reaches the application unchanged.
    - _What an app is told_ ([Router], [Constraint]). No app hears an end without its
      beginning, and while no hook keeps back the end of a thing the seat holds, app
      and seat agree; moving the seat leaves nothing of the human behind; an agent
      reaches only its own realm; a verdict on a pointer lock is the lock's state.
    - _What is shown_ ([Canvas], [Scene], [Shim], [ShimRun]). Composition never fails and
      is the painting it stands for; damage misses nothing; a committed buffer is
      shown pixel by pixel; whatever a shim sends, the server stays in bounds,
      gives back every buffer once and owes every commit one frame.
    - _Obligations_ ([Designation], [Delivery], [Picker], [Settle], [Terminals]). Every question put has one answer, and an
      answer is judged when it is redeemed. The picker stays beneath its root, hands
      over what it shows, and designates nothing the human did not confirm. Over any run of
      the session an admitted designation is waiting, in flight or in the journal
      once; every turn returns; the frames that tell it decode as their messages.
    - _The end of a realm_ ([Lifecycle]). A realm dies once, takes with it everything it
      held and nothing of another's; the ladder asks before it kills and always ends,
      with the process reaped exactly when the kernel answers the wait for it.
    - _The filter_ ([Seccomp]). The compiled filter answers as its table says on every
      system call, and an installation reported as successful is in force.
    - _The boundary_ ([Ipc], [Wire], [Messages], [Protocol], [Identity], [Toml], [NetSel], [Realm]).
      Framing and descriptor matching are exact for a compliant peer and account
      for everything a hostile one sends; sending is exact and bounded; encodings
      are canonical; the verifier binds exactly what is registered; a
      configuration that loads satisfies the rules it is read for; minted names
      are fresh.

    ** What is not modelled

    What a connection sends is kept in [Principal] as the event and its arguments; its
    bytes are what [Protocol] has of that message. Of [session.rs], the launch and layout turns, the
    delivery of seat events, the cache of views, start-up, and the registration of
    event sources are glue between the parts above and the event loop, as [main.rs],
    [listener.rs] and the rest of [event_loop.rs] are. The backends (DRM, winit,
    headless) and the import of device buffers put pixels on a device through
    libraries that are not part of the source; the recorder's formatting, the
    notices, the screenshot's file, the backlight and the change of virtual terminal
    end in a system call each; the keymap and the seat's injectors are lookups
    in a keymap of libxkbcommon; the cursor is drawn from theme files. Spawning,
    the rest of the realm's helper and the isolation probes are sequences of system calls
    whose meaning is the kernel's. The code generator, the [xtask] checks, tests,
    fixtures and the mock shim are not part of the running program; the shim itself
    is C outside the workspace. Scripted consent is compiled for tests only.
    Display texts are left out: an error is its variant and its data. *)

From stdpp Require Export base list gmap sorting.
From stdpp Require Export strings.
From Stdlib Require Export ZArith Lia.
Open Scope Z_scope.

(* ------------------------------------------------------------------------ *)
(** ** Results *)

(** Rust's [Result<A, E>]. *)
Inductive result (A E : Type) : Type :=
| Ok (a : A)
| Err (e : E).
Arguments Ok {A E} _.
Arguments Err {A E} _.

#[export] Instance result_eq_dec `{EqDecision A, EqDecision E} :
  EqDecision (result A E).
Proof. solve_decision. Defined.

Definition is_ok {A E} (r : result A E) : bool :=
  match r with Ok _ => true | Err _ => false end.

(** The [?] operator. *)
Definition rbind {A B E} (r : result A E) (k : A -> result B E) : result B E :=
  match r with Ok a => k a | Err e => Err e end.

(** [Option::ok_or]. *)
Definition ok_or {A E} (o : option A) (e : E) : result A E :=
  match o with Some a => Ok a | None => Err e end.

Declare Scope rust_scope.
Delimit Scope rust_scope with rust.
Notation "'let?' x ':=' e 'in' k" := (rbind e (fun x => k))
  (at level 10, x pattern, e at level 100, k at level 200) : rust_scope.
Open Scope rust_scope.

Lemma rbind_ok {A B E} (r : result A E) (k : A -> result B E) b :
  rbind r k = Ok b <-> exists a, r = Ok a /\ k a = Ok b.
Proof. destruct r; simpl; split; [eauto | intros (? & ? & ?) | | intros (? & ? & ?)]; by simplify_eq. Qed.

Lemma ok_or_ok {A E} (o : option A) (e : E) a : ok_or o e = Ok a <-> o = Some a.
Proof. destruct o; simpl; split; by intros; simplify_eq. Qed.

(** [Option::is_some_and]. *)
Definition is_some_and {A} (o : option A) (f : A -> bool) : bool :=
  match o with Some a => f a | None => false end.

(* ------------------------------------------------------------------------ *)
(** ** Machine integers *)

Definition u8_max : Z := 255.
Definition u16_max : Z := 65535.
Definition u32_max : Z := 4294967295.
Definition u64_max : Z := 18446744073709551615.

Definition is_u8 (z : Z) : Prop := 0 <= z <= u8_max.
Definition is_u16 (z : Z) : Prop := 0 <= z <= u16_max.
Definition is_u32 (z : Z) : Prop := 0 <= z <= u32_max.
Definition is_u64 (z : Z) : Prop := 0 <= z <= u64_max.

(** [wrapping_add], and plain [+] in a release build. *)
Definition u32_wrapping_add (a b : Z) : Z := (a + b) mod (u32_max + 1).
Definition u64_wrapping_add (a b : Z) : Z := (a + b) mod (u64_max + 1).
(** [u32::saturating_add]. *)
Definition u32_saturating_add (a b : Z) : Z := Z.min u32_max (a + b).

(** [div_ceil] on unsigned integers. *)
Definition div_ceil (a b : Z) : Z := (a + b - 1) / b.

(** The greatest element of a subset test on bit masks: every bit of [b] is a
    bit of [a]. *)
Definition mask_contains (a b : Z) : bool := Z.land a b =? b.

Lemma u64_wrapping_add_small a b :
  0 <= a -> 0 <= b -> a + b <= u64_max -> u64_wrapping_add a b = a + b.
Proof. intros. unfold u64_wrapping_add. apply Z.mod_small. lia. Qed.

Lemma div_ceil_spec a b : 0 < b -> a <= b * div_ceil a b < a + b.
Proof.
  intros Hb. unfold div_ceil.
  pose proof (Z.mul_div_le (a + b - 1) b Hb).
  pose proof (Z.mul_succ_div_gt (a + b - 1) b Hb). lia.
Qed.

Lemma div_ceil_pos a b : 0 < a -> 0 < b -> 0 < div_ceil a b.
Proof. intros. pose proof (div_ceil_spec a b). nia. Qed.

Lemma mask_contains_refl a : mask_contains a a = true.
Proof. unfold mask_contains. rewrite Z.land_diag. apply Z.eqb_refl. Qed.

Lemma mask_contains_trans a b c :
  mask_contains a b = true -> mask_contains b c = true -> mask_contains a c = true.
Proof.
  unfold mask_contains. rewrite !Z.eqb_eq. intros H1 H2.
  rewrite <- H2, Z.land_assoc, H1. done.
Qed.

Lemma mask_contains_spec a b :
  mask_contains a b = true <->
  forall i, Z.testbit b i = true -> Z.testbit a i = true.
Proof.
  unfold mask_contains. rewrite Z.eqb_eq. split.
  - intros H i Hi. rewrite <- H, Z.land_spec in Hi.
    by apply andb_prop in Hi as [? _].
  - intros H. apply Z.bits_inj. intros i. rewrite Z.land_spec.
    specialize (H i). destruct (Z.testbit b i); [by rewrite H | by rewrite andb_false_r].
Qed.

(* ------------------------------------------------------------------------ *)
(** ** Time

    [Instant] and [Duration] are nanosecond counts. [Instant]'s representable
    range is the one of Linux's [Timespec], a signed 64-bit second count;
    [Duration]'s is an unsigned one. *)

Abbreviation Instant := Z (only parsing).
Abbreviation Duration := Z (only parsing).

Definition nanos_per_sec : Z := 1000000000.
Definition instant_max : Z := 9223372036854775808 * nanos_per_sec - 1.

Definition from_secs (s : Z) : Duration := s * nanos_per_sec.
Definition from_millis (ms : Z) : Duration := ms * 1000000.

(** [Instant::checked_add]. *)
Definition checked_add (i : Instant) (d : Duration) : option Instant :=
  if i + d <=? instant_max then Some (i + d) else None.

(** [Instant::saturating_duration_since]. *)
Definition since (later earlier : Instant) : Duration := Z.max 0 (later - earlier).

Lemma checked_add_Some i d t : checked_add i d = Some t <-> t = i + d /\ i + d <= instant_max.
Proof. unfold checked_add. destruct (Z.leb_spec (i + d) instant_max); split; intros; simplify_eq; try (by destruct_and!); f_equal; lia. Qed.

(* ------------------------------------------------------------------------ *)
(** ** Lists *)

Lemma omap_ext_In {A B} (f g : A -> option B) (l : list A) :
  (forall x, In x l -> f x = g x) -> omap f l = omap g l.
Proof.
  induction l as [|x l IH]; intros H; simpl; [done|].
  rewrite H by (by left).
  assert (omap f l = omap g l) as Hl by (apply IH; intros y Hy; apply H; by right).
  unfold omap in Hl. by rewrite Hl.
Qed.

(* ------------------------------------------------------------------------ *)
(** ** Tactics and hints *)

(** Case analysis on the scrutinee of a [match] or an [if] of the goal or of a
    hypothesis, keeping the equation, and discarding impossible branches. *)
Ltac case_on :=
  match goal with
  | H : context [match ?x with _ => _ end] |- _ => destruct x eqn:?; simplify_eq/=
  | |- context [match ?x with _ => _ end] => destruct x eqn:?; simplify_eq/=
  end.
Ltac cases := repeat (case_on; try done).

(** Turn boolean tests into the propositions they decide. *)
Ltac unbool :=
  repeat match goal with
  | H : (_ && _)%bool = true |- _ => apply andb_prop in H; destruct H
  | H : (_ || _)%bool = false |- _ => apply orb_false_elim in H; destruct H
  | H : negb _ = true |- _ => apply negb_true_iff in H
  | H : negb _ = false |- _ => apply negb_false_iff in H
  | H : (_ =? _) = true |- _ => apply Z.eqb_eq in H
  | H : (_ =? _) = false |- _ => apply Z.eqb_neq in H
  | H : (_ <=? _) = true |- _ => apply Z.leb_le in H
  | H : (_ <=? _) = false |- _ => apply Z.leb_gt in H
  | H : (_ <? _) = true |- _ => apply Z.ltb_lt in H
  | H : (_ <? _) = false |- _ => apply Z.ltb_ge in H
  | H : bool_decide _ = true |- _ => apply bool_decide_eq_true in H
  | H : bool_decide _ = false |- _ => apply bool_decide_eq_false in H
  end.

Create HintDb vitrin.
#[export] Hint Resolve mask_contains_refl : vitrin.
