(* ===== verification/BTree.v ===== *)
(** * Ordered maps

    [std::collections::BTreeMap] keyed by an integer id: an association list in
    ascending key order. The order is part of the model because the core relies
    on it: [keys().next()] is the oldest pending petition, "last seen" in an
    iteration is the newest grant, and the ids a sweep reports are ascending. *)

From S2P Require Import Prelude.

Record btree (V : Type) : Type := BT { bt_entries : list (Z * V) }.
Arguments BT {V} _.
Arguments bt_entries {V} _.

#[export] Instance btree_eq_dec `{EqDecision V} : EqDecision (btree V).
Proof. solve_decision. Defined.

Section ops.
Context {V : Type}.
Implicit Types (m : btree V) (l : list (Z * V)).

Fixpoint get_list l (k : Z) : option V :=
  match l with
  | [] => None
  | (k', v) :: l => if k =? k' then Some v else get_list l k
  end.

Fixpoint insert_list l (k : Z) (v : V) : list (Z * V) :=
  match l with
  | [] => [(k, v)]
  | (k', v') :: l' =>
      if k <? k' then (k, v) :: l
      else if k =? k' then (k, v) :: l'
      else (k', v') :: insert_list l' k v
  end.

(** [BTreeMap::new]. *)
Definition bt_empty : btree V := BT [].
(** [get]. *)
Definition bt_get m k : option V := get_list (bt_entries m) k.
(** [insert]. *)
Definition bt_insert m k v : btree V := BT (insert_list (bt_entries m) k v).
(** [retain]. *)
Definition bt_retain m (p : Z -> V -> bool) : btree V :=
  BT (List.filter (fun kv => p kv.1 kv.2) (bt_entries m)).
(** [remove], without the removed value. *)
Definition bt_remove m k : btree V := bt_retain m (fun k' _ => negb (k =? k')).
(** A pass of [iter_mut]. *)
Definition bt_update m (f : Z -> V -> V) : btree V :=
  BT (List.map (fun kv => (kv.1, f kv.1 kv.2)) (bt_entries m)).
(** [get_mut(&k)] followed by an assignment through the reference. *)
Definition bt_set m k (f : V -> V) : btree V :=
  bt_update m (fun k' v => if k =? k' then f v else v).
(** [len]. *)
Definition bt_len m : Z := Z.of_nat (length (bt_entries m)).
(** [keys], [values]. *)
Definition bt_keys m : list Z := List.map fst (bt_entries m).
Definition bt_values m : list V := List.map snd (bt_entries m).
(** [keys().next()]. *)
Definition bt_first m : option Z := head (bt_keys m).
(** [iter().filter(..).map(|(k, _)| k).collect()]. *)
Definition bt_select m (p : Z -> V -> bool) : list Z :=
  List.map fst (List.filter (fun kv => p kv.1 kv.2) (bt_entries m)).
(** [values().any(..)]. *)
Definition bt_any m (p : V -> bool) : bool := existsb p (bt_values m).

(** [values().filter(..).count()]. *)
Definition bt_count m (p : V -> bool) : Z :=
  Z.of_nat (List.length (List.filter p (bt_values m))).

(** [ids.into_iter().filter_map(|id| m.remove(&id)).collect()]. *)
Fixpoint remove_each (ids : list Z) m : list V * btree V :=
  match ids with
  | [] => ([], m)
  | id :: ids =>
      let '(vs, m') := remove_each ids (bt_remove m id) in
      (match bt_get m id with Some v => v :: vs | None => vs end, m')
  end.

(** The order invariant. *)
Definition bt_wf m : Prop := StronglySorted Z.lt (bt_keys m).
End ops.
Arguments bt_empty {V}.

#[export] Instance bt_lookup {V} : Lookup Z V (btree V) := fun k m => bt_get m k.
#[export] Instance bt_insert_inst {V} : Insert Z V (btree V) := fun k v m => bt_insert m k v.
#[export] Instance bt_delete {V} : Delete Z (btree V) := fun k m => bt_remove m k.

Section theory.
Context {V : Type}.
Implicit Types (m : btree V) (l : list (Z * V)).

Lemma bt_lookup_empty k : (bt_empty : btree V) !! k = None.
Proof. done. Qed.

(** *** Lookups after each operation *)

Lemma bt_lookup_insert m k k' v :
  <[k:=v]> m !! k' = if k' =? k then Some v else m !! k'.
Proof.
  unfold lookup, bt_lookup, insert, bt_insert_inst, bt_get, bt_insert. simpl.
  induction (bt_entries m) as [|[k0 v0] l IH]; simpl; [by destruct (k' =? k)|].
  destruct (Z.ltb_spec k k0); simpl; [done|].
  destruct (Z.eqb_spec k k0); simpl.
  - subst. by destruct (k' =? k0).
  - rewrite IH. destruct (Z.eqb_spec k' k0), (Z.eqb_spec k' k); try done; lia.
Qed.

Lemma bt_lookup_insert_eq m k v : <[k:=v]> m !! k = Some v.
Proof. by rewrite bt_lookup_insert, Z.eqb_refl. Qed.

Lemma bt_lookup_insert_ne m k k' v : k <> k' -> <[k:=v]> m !! k' = m !! k'.
Proof. intros. rewrite bt_lookup_insert. destruct (Z.eqb_spec k' k); [lia|done]. Qed.

Lemma bt_lookup_remove m k k' :
  delete k m !! k' = if k' =? k then None else m !! k'.
Proof.
  unfold lookup, bt_lookup, delete, bt_delete, bt_get, bt_remove, bt_retain. simpl.
  induction (bt_entries m) as [|[k0 v0] l IH]; simpl; [by destruct (k' =? k)|].
  destruct (Z.eqb_spec k k0); simpl.
  - subst. rewrite IH. by destruct (k' =? k0).
  - rewrite IH. destruct (Z.eqb_spec k' k0), (Z.eqb_spec k' k); try done; lia.
Qed.

Lemma bt_lookup_remove_eq m k : delete k m !! k = None.
Proof. by rewrite bt_lookup_remove, Z.eqb_refl. Qed.

Lemma bt_lookup_remove_ne m k k' : k <> k' -> delete k m !! k' = m !! k'.
Proof. intros. rewrite bt_lookup_remove. destruct (Z.eqb_spec k' k); [lia|done]. Qed.

Lemma bt_lookup_update m f k : bt_update m f !! k = f k <$> m !! k.
Proof.
  unfold lookup, bt_lookup, bt_get, bt_update. simpl.
  induction (bt_entries m) as [|[k0 v0] l IH]; simpl; [done|].
  destruct (Z.eqb_spec k k0); simpl; by subst.
Qed.

Lemma bt_lookup_set m k k' f :
  bt_set m k f !! k' = if k =? k' then f <$> m !! k' else m !! k'.
Proof.
  unfold bt_set. rewrite bt_lookup_update.
  destruct (k =? k'); [done|]. by destruct (m !! k').
Qed.

Lemma bt_lookup_set_eq m k f : bt_set m k f !! k = f <$> m !! k.
Proof. by rewrite bt_lookup_set, Z.eqb_refl. Qed.

Lemma bt_lookup_set_ne m k k' f : k <> k' -> bt_set m k f !! k' = m !! k'.
Proof. intros. rewrite bt_lookup_set. destruct (Z.eqb_spec k k'); [lia|done]. Qed.

(** *** Keys and order *)

Lemma bt_keys_update m f : bt_keys (bt_update m f) = bt_keys m.
Proof. unfold bt_keys, bt_update. simpl. by rewrite List.map_map. Qed.

Lemma bt_keys_set m k f : bt_keys (bt_set m k f) = bt_keys m.
Proof. apply bt_keys_update. Qed.

Lemma insert_list_keys_In l k v k' :
  In k' (List.map fst (insert_list l k v)) <-> k' = k \/ In k' (List.map fst l).
Proof.
  induction l as [|[k0 v0] l IH]; simpl; [intuition|].
  destruct (Z.ltb_spec k k0); simpl; [intuition|].
  destruct (Z.eqb_spec k k0); simpl; [subst; intuition|].
  rewrite IH. intuition.
Qed.

Lemma bt_wf_empty : bt_wf (bt_empty : btree V).
Proof. constructor. Qed.

Lemma bt_wf_insert m k v : bt_wf m -> bt_wf (<[k:=v]> m).
Proof.
  unfold bt_wf, bt_keys, insert, bt_insert_inst, bt_insert. simpl.
  induction (bt_entries m) as [|[k0 v0] l IH]; simpl; intros Hs;
    [repeat constructor|].
  apply StronglySorted_inv in Hs as [Hs Hall].
  rewrite List.Forall_forall in Hall.
  destruct (Z.ltb_spec k k0); simpl.
  - constructor; [constructor; [done|by apply List.Forall_forall]|].
    apply List.Forall_forall. intros x [<-|Hx]; [done|].
    specialize (Hall x Hx). lia.
  - destruct (Z.eqb_spec k k0); simpl; subst.
    + constructor; [done|by apply List.Forall_forall].
    + constructor; [by apply IH|]. apply List.Forall_forall.
      intros x [->|Hx]%insert_list_keys_In; [lia|by apply Hall].
Qed.

Lemma bt_wf_retain m p : bt_wf m -> bt_wf (bt_retain m p).
Proof.
  unfold bt_wf, bt_keys, bt_retain. simpl.
  induction (bt_entries m) as [|[k0 v0] l IH]; simpl; intros Hs; [constructor|].
  apply StronglySorted_inv in Hs as [Hs Hall].
  destruct (p k0 v0); simpl; [|by apply IH].
  constructor; [by apply IH|]. rewrite List.Forall_forall in Hall |- *.
  intros x ([? ?] & <- & [Hx _]%List.filter_In)%List.in_map_iff.
  apply Hall, List.in_map_iff. eauto.
Qed.

Lemma bt_wf_remove m k : bt_wf m -> bt_wf (delete k m).
Proof. apply bt_wf_retain. Qed.

Lemma bt_wf_update m f : bt_wf m -> bt_wf (bt_update m f).
Proof. unfold bt_wf. by rewrite bt_keys_update. Qed.

Lemma bt_wf_set m k f : bt_wf m -> bt_wf (bt_set m k f).
Proof. apply bt_wf_update. Qed.

(** *** Entries and lookups *)

Lemma bt_lookup_In m k v : m !! k = Some v -> In (k, v) (bt_entries m).
Proof.
  unfold lookup, bt_lookup, bt_get.
  induction (bt_entries m) as [|[k0 v0] l IH]; simpl; [done|].
  destruct (Z.eqb_spec k k0); intros; simplify_eq; auto.
Qed.

Lemma bt_In_lookup m k v : bt_wf m -> In (k, v) (bt_entries m) <-> m !! k = Some v.
Proof.
  intros Hwf. split; [|apply bt_lookup_In].
  unfold lookup, bt_lookup, bt_get. unfold bt_wf, bt_keys in Hwf.
  induction (bt_entries m) as [|[k0 v0] l IH]; simpl in *; [done|].
  apply StronglySorted_inv in Hwf as [Hs Hall]. intros [?|Hin]; simplify_eq.
  - by rewrite Z.eqb_refl.
  - destruct (Z.eqb_spec k k0); [|by auto]. subst.
    rewrite List.Forall_forall in Hall. exfalso.
    apply (Z.lt_irrefl k0), Hall, List.in_map_iff. by exists (k0, v).
Qed.

Lemma bt_values_In m v : bt_wf m -> In v (bt_values m) <-> exists k, m !! k = Some v.
Proof.
  intros Hwf. unfold bt_values. rewrite List.in_map_iff. split.
  - intros ([k ?] & <- & Hin). exists k. by apply bt_In_lookup.
  - intros [k Hk]. exists (k, v). split; [done|by apply bt_lookup_In].
Qed.

Lemma bt_keys_In m k : In k (bt_keys m) <-> is_Some (m !! k).
Proof.
  unfold bt_keys, lookup, bt_lookup, bt_get.
  induction (bt_entries m) as [|[k0 v0] l IH]; simpl.
  - split; [done|by intros [? ?]].
  - destruct (Z.eqb_spec k k0); subst; [by intuition eauto|].
    rewrite IH. intuition congruence.
Qed.

Lemma bt_lookup_retain m p k :
  bt_wf m -> bt_retain m p !! k = v ← m !! k; if p k v then Some v else None.
Proof.
  intros Hwf. apply option_eq. intros v.
  rewrite <- bt_In_lookup by (by apply bt_wf_retain).
  unfold bt_retain at 1. simpl. rewrite List.filter_In, bt_In_lookup by done. simpl.
  destruct (m !! k) as [v'|]; simpl.
  - destruct (p k v') eqn:Hp; split; intros; destruct_and?; simplify_eq; try done; congruence.
  - by split; intros; destruct_and?.
Qed.

Lemma bt_any_spec m p :
  bt_wf m -> bt_any m p = true <-> exists k v, m !! k = Some v /\ p v = true.
Proof.
  intros Hwf. unfold bt_any. rewrite existsb_exists. split.
  - intros (v & Hv & Hp). apply bt_values_In in Hv as [k Hk]; eauto.
  - intros (k & v & Hk & Hp). exists v. split; [|done]. apply bt_values_In; eauto.
Qed.

Lemma bt_any_false m p :
  bt_wf m -> bt_any m p = false <-> forall k v, m !! k = Some v -> p v = false.
Proof.
  intros Hwf. rewrite <- not_true_iff_false, bt_any_spec by done. split.
  - intros H k v Hk. destruct (p v) eqn:?; [|done]. exfalso. eauto.
  - intros H (k & v & Hk & Hp). apply H in Hk. congruence.
Qed.

Lemma bt_select_In m p k :
  bt_wf m -> In k (bt_select m p) <-> exists v, m !! k = Some v /\ p k v = true.
Proof.
  intros Hwf. unfold bt_select. rewrite List.in_map_iff. split.
  - intros ([? v] & <- & [Hin Hp]%List.filter_In). exists v.
    by apply bt_In_lookup in Hin.
  - intros (v & Hk & Hp). exists (k, v). split; [done|].
    apply List.filter_In. split; [by apply bt_In_lookup|done].
Qed.

Lemma bt_select_sorted m p : bt_wf m -> StronglySorted Z.lt (bt_select m p).
Proof. apply bt_wf_retain. Qed.

Lemma bt_first_spec m k :
  bt_wf m -> bt_first m = Some k ->
  is_Some (m !! k) /\ forall k', is_Some (m !! k') -> k <= k'.
Proof.
  intros Hwf Hf. unfold bt_first in Hf. split.
  - apply bt_keys_In. destruct (bt_keys m); simplify_eq/=; auto.
  - intros k' Hk'. apply bt_keys_In in Hk'. unfold bt_wf in Hwf.
    destruct (bt_keys m) as [|k0 ks]; simplify_eq/=.
    apply StronglySorted_inv in Hwf as [_ Hall].
    destruct Hk' as [->|Hin]; [lia|].
    rewrite List.Forall_forall in Hall. apply Z.lt_le_incl. auto.
Qed.

Lemma bt_first_None m : bt_first m = None <-> m = bt_empty.
Proof.
  unfold bt_first, bt_keys. destruct m as [[|[k v] l]]; simpl; split; done.
Qed.

(** *** Size *)

Lemma bt_len_nonneg m : 0 <= bt_len m.
Proof. unfold bt_len. lia. Qed.

Lemma bt_len_insert_fresh m k v : m !! k = None -> bt_len (<[k:=v]> m) = bt_len m + 1.
Proof.
  unfold bt_len, lookup, bt_lookup, bt_get, insert, bt_insert_inst, bt_insert. simpl.
  induction (bt_entries m) as [|[k0 v0] l IH]; simpl; [done|].
  destruct (Z.eqb_spec k k0); [done|]. intros H. specialize (IH H).
  destruct (k <? k0); simpl; lia.
Qed.

Lemma bt_len_retain m p : bt_len (bt_retain m p) <= bt_len m.
Proof. unfold bt_len, bt_retain. simpl. pose proof (List.filter_length_le (fun kv => p kv.1 kv.2) (bt_entries m)). lia. Qed.

Lemma bt_len_remove_Some m k : is_Some (m !! k) -> bt_len (delete k m) < bt_len m.
Proof.
  intros Hk. apply bt_keys_In in Hk.
  unfold bt_len, delete, bt_delete, bt_remove, bt_retain. simpl. unfold bt_keys in Hk.
  apply Nat2Z.inj_lt. induction (bt_entries m) as [|[k0 v0] l IH]; simpl in *; [done|].
  destruct (Z.eqb_spec k k0); simpl.
  - pose proof (List.filter_length_le (fun kv : Z * V => negb (k =? kv.1)) l). lia.
  - destruct Hk as [?|Hk]; [lia|]. specialize (IH Hk). lia.
Qed.

Lemma bt_len_update m f : bt_len (bt_update m f) = bt_len m.
Proof. unfold bt_len, bt_update. simpl. by rewrite List.length_map. Qed.
(** *** Counting *)

Lemma bt_insert_fresh_perm m k v :
  m !! k = None -> Permutation (bt_entries (<[k:=v]> m)) ((k, v) :: bt_entries m).
Proof.
  unfold lookup, bt_lookup, bt_get, insert, bt_insert_inst, bt_insert. simpl.
  induction (bt_entries m) as [|[k0 v0] l IH]; simpl; [done|].
  destruct (Z.eqb_spec k k0); [done|]. intros H.
  destruct (k <? k0); [done|]. rewrite IH by done. constructor.
Qed.

Lemma filter_perm {A} (f : A -> bool) (xs ys : list A) :
  Permutation xs ys -> List.length (List.filter f xs) = List.length (List.filter f ys).
Proof.
  induction 1; simpl; [done| | |congruence].
  - destruct (f x); simpl; congruence.
  - destruct (f x), (f y); done.
Qed.

Lemma bt_count_insert_fresh m k v p :
  m !! k = None -> bt_count (<[k:=v]> m) p = bt_count m p + (if p v then 1 else 0).
Proof.
  intros Hk. unfold bt_count, bt_values.
  rewrite (filter_perm p _ _ (Permutation_map snd (bt_insert_fresh_perm m k v Hk))). simpl.
  destruct (p v); simpl; lia.
Qed.

Lemma bt_count_insert_same m k v w p :
  bt_wf m -> m !! k = Some w -> p v = p w -> bt_count (<[k:=v]> m) p = bt_count m p.
Proof.
  unfold bt_count, bt_values, bt_wf, bt_keys, lookup, bt_lookup, bt_get, insert, bt_insert_inst, bt_insert.
  simpl. intros Hwf Hk Hp. induction (bt_entries m) as [|[k0 v0] l IH]; simpl in *; [done|].
  apply StronglySorted_inv in Hwf as [Hwf Hall].
  destruct (Z.eqb_spec k k0) as [->|Hne]; simplify_eq.
  - rewrite Z.ltb_irrefl. simpl. by rewrite Hp; destruct (p w).
  - assert (k0 < k) as Hlt.
    { rewrite List.Forall_forall in Hall. apply Hall. clear -Hk.
      induction l as [|[k1 v1] l IH]; simpl in *; [done|].
      destruct (Z.eqb_spec k k1); [by left|right; auto]. }
    destruct (Z.ltb_spec k k0); [lia|]. simpl. specialize (IH Hwf Hk).
    destruct (p v0); simpl; lia.
Qed.

Lemma bt_count_retain m p q : bt_count (bt_retain m q) p <= bt_count m p.
Proof.
  unfold bt_count, bt_values, bt_retain. simpl.
  induction (bt_entries m) as [|[k v] l IH]; simpl; [lia|].
  destruct (q k v), (p v) eqn:Hp; simpl; rewrite ?Hp; simpl; lia.
Qed.

Lemma bt_count_remove m p k : bt_count (delete k m) p <= bt_count m p.
Proof. apply bt_count_retain. Qed.

Lemma bt_count_update m p f :
  (forall k v, p (f k v) = p v) -> bt_count (bt_update m f) p = bt_count m p.
Proof.
  intros Hf. unfold bt_count, bt_values, bt_update. simpl.
  induction (bt_entries m) as [|[k v] l IH]; simpl; [done|].
  rewrite Hf. destruct (p v); simpl; lia.
Qed.

Lemma bt_count_zero m p : bt_any m p = false -> bt_count m p = 0.
Proof.
  unfold bt_any, bt_count. induction (bt_values m) as [|v l IH]; simpl; [done|].
  intros [-> H]%orb_false_elim. auto.
Qed.

Lemma bt_count_pos m p k v : m !! k = Some v -> p v = true -> 1 <= bt_count m p.
Proof.
  intros Hk Hp. unfold bt_count, bt_values. apply bt_lookup_In in Hk.
  induction (bt_entries m) as [|[k0 v0] l IH]; simpl in *; [done|].
  destruct Hk as [?|Hk]; simplify_eq/=.
  - rewrite Hp. simpl. lia.
  - specialize (IH Hk). destruct (p v0); simpl; lia.
Qed.

Lemma bt_count_two m p k v k' v' :
  m !! k = Some v -> m !! k' = Some v' -> p v = true -> p v' = true -> k <> k' ->
  2 <= bt_count m p.
Proof.
  intros Hk Hk' Hp Hp' Hne. apply bt_lookup_In in Hk, Hk'. unfold bt_count, bt_values.
  assert (forall k1 v1 l, In (k1, v1) l -> p v1 = true ->
    (1 <= List.length (List.filter p (List.map snd l)))%nat) as Hone.
  { intros k1 v1 l Hin Hp1. induction l as [|[k0 v0] l IH]; simpl in *; [done|].
    destruct Hin as [?|Hin]; simplify_eq/=; [rewrite Hp1; simpl; lia|].
    specialize (IH Hin). destruct (p v0); simpl; lia. }
  induction (bt_entries m) as [|[k0 v0] l IH]; simpl in *; [done|].
  destruct Hk as [?|Hk], Hk' as [?|Hk']; simplify_eq/=.
  - rewrite Hp. simpl. specialize (Hone _ _ _ Hk' Hp'). lia.
  - rewrite Hp'. simpl. specialize (Hone _ _ _ Hk Hp). lia.
  - specialize (IH Hk Hk'). destruct (p v0); simpl; lia.
Qed.

Lemma bt_len_count m : bt_len m = bt_count m (fun _ => true).
Proof.
  unfold bt_len, bt_count, bt_values. f_equal.
  induction (bt_entries m); simpl; congruence.
Qed.

(** *** Removing many *)

Lemma bt_remove_perm m k v :
  bt_wf m -> m !! k = Some v -> Permutation (bt_entries m) ((k, v) :: bt_entries (delete k m)).
Proof.
  unfold bt_wf, bt_keys, lookup, bt_lookup, bt_get, delete, bt_delete, bt_remove, bt_retain. simpl.
  induction (bt_entries m) as [|[k0 v0] l IH]; simpl; intros Hs Hk; [done|].
  apply StronglySorted_inv in Hs as [Hs Hall]. rewrite List.Forall_forall in Hall.
  destruct (Z.eqb_spec k k0); simpl.
  - simplify_eq. constructor.
    assert (List.filter (fun kv : Z * V => negb (k0 =? kv.1)) l = l) as ->; [|done].
    assert (forall k1 v1, In (k1, v1) l -> k0 <> k1) as Hne.
    { intros k1 v1 Hin. assert (k0 < k1); [|lia]. apply Hall, List.in_map_iff. by exists (k1, v1). }
    clear -Hne. induction l as [|[k1 v1] l IH]; simpl; [done|].
    rewrite (proj2 (Z.eqb_neq k0 k1)) by (apply (Hne k1 v1); by left). simpl.
    f_equal. apply IH. intros k2 v2 Hin. apply (Hne k2 v2). by right.
  - etransitivity; [apply perm_skip, IH; done|apply perm_swap].
Qed.

Lemma bt_remove_None m k : m !! k = None -> delete k m = m.
Proof.
  unfold lookup, bt_lookup, bt_get, delete, bt_delete, bt_remove, bt_retain.
  destruct m as [l]. simpl. intros Hk. f_equal. induction l as [|[k0 v0] l IH]; simpl in *; [done|].
  destruct (Z.eqb_spec k k0); [done|]. simpl. f_equal. auto.
Qed.

Lemma remove_each_wf ids m : bt_wf m -> bt_wf (remove_each ids m).2.
Proof.
  revert m. induction ids as [|id ids IH]; intros m Hwf; simpl; [done|].
  specialize (IH (delete id m) (bt_wf_remove _ _ Hwf)).
  change (bt_remove m id) with (delete id m). by destruct (remove_each ids (delete id m)).
Qed.

(** Nothing is lost: the values removed and the values left are the values. *)
Lemma remove_each_perm ids m :
  bt_wf m -> Permutation (bt_values m) ((remove_each ids m).1 ++ bt_values (remove_each ids m).2).
Proof.
  revert m. induction ids as [|id ids IH]; intros m Hwf; simpl; [done|].
  specialize (IH (delete id m) (bt_wf_remove _ _ Hwf)).
  change (bt_remove m id) with (delete id m). change (bt_get m id) with (m !! id).
  destruct (m !! id) as [v|] eqn:Hk.
  - assert (Permutation (bt_values m) (v :: bt_values (delete id m))) as ->
      by (unfold bt_values; rewrite (bt_remove_perm m id v) by done; done).
    rewrite IH. by destruct (remove_each ids (delete id m)).
  - rewrite (bt_remove_None m id Hk) in *. by destruct (remove_each ids m).
Qed.

Lemma remove_each_lookup ids m k :
  (remove_each ids m).2 !! k = if decide (k ∈ ids) then None else m !! k.
Proof.
  revert m. induction ids as [|id ids IH]; intros m; simpl; [done|].
  specialize (IH (delete id m)). change (bt_remove m id) with (delete id m).
  destruct (remove_each ids (delete id m)) as [vs m'] eqn:Hr. simpl in *. rewrite IH, bt_lookup_remove.
  destruct (Z.eqb_spec k id) as [->|Hne].
  - rewrite (decide_True (P := id ∈ id :: ids)) by (by left). by destruct (decide (id ∈ ids)).
  - destruct (decide (k ∈ ids)); [by rewrite decide_True by (by right)|].
    rewrite decide_False; [done|]. by intros [?|?]%elem_of_cons.
Qed.

Lemma remove_each_In ids m v :
  NoDup ids -> In v (remove_each ids m).1 <-> exists k, In k ids /\ m !! k = Some v.
Proof.
  revert m. induction ids as [|id ids IH]; intros m Hnd; simpl; [naive_solver|].
  apply NoDup_cons in Hnd as [Hni Hnd]. specialize (IH (delete id m) Hnd).
  change (bt_remove m id) with (delete id m). change (bt_get m id) with (m !! id).
  assert (In v (remove_each ids (delete id m)).1 <-> exists k, In k ids /\ m !! k = Some v) as IH'.
  { rewrite IH. split; intros (k & Hin & Hk); exists k; (split; [done|]).
    - rewrite bt_lookup_remove in Hk. by destruct (k =? id).
    - rewrite bt_lookup_remove_ne; [done|]. intros ->. by apply Hni, list_elem_of_In. }
  destruct (remove_each ids (delete id m)) as [vs m']. simpl in *.
  destruct (m !! id) as [w|] eqn:Hk; simpl; rewrite IH'; naive_solver.
Qed.
End theory.

#[export] Hint Resolve bt_wf_empty bt_wf_insert bt_wf_remove bt_wf_update bt_wf_set
  bt_wf_retain : vitrin.
Create Rewrite HintDb bt.
#[export] Hint Rewrite @bt_lookup_insert_eq @bt_lookup_remove_eq @bt_lookup_set_eq
  @bt_lookup_update : bt.
