(* ===== verification/Text.v ===== *)
(** * Text

    Rust's [str] as its sequence of Unicode scalar values, the UTF-8 encoding
    that its byte-level operations ([len], [as_bytes], [from_utf8]) observe, the
    character classes and the searching and splitting functions of the standard
    library that the core uses. *)

From S2P Require Import Prelude.

(** A [str] is the list of its [char]s, a [&[u8]] a list of bytes. *)
Definition Str := list Z.
Definition Bytes := list Z.

(** A literal of the source. *)
Definition str (s : string) : Str :=
  List.map (fun a => Z.of_N (Ascii.N_of_ascii a)) (String.list_ascii_of_string s).

(** The Unicode scalar values. *)
Definition is_char (c : Z) : Prop := 0 <= c < 55296 \/ 57344 <= c <= 1114111.
Definition is_charb (c : Z) : bool :=
  ((0 <=? c) && (c <? 55296)) || ((57344 <=? c) && (c <=? 1114111)).
Definition is_str (s : Str) : Prop := Forall is_char s.
Definition is_bytes (bs : Bytes) : Prop := Forall is_u8 bs.

Lemma is_charb_spec c : is_charb c = true <-> is_char c.
Proof. unfold is_charb, is_char. rewrite orb_true_iff, !andb_true_iff, !Z.leb_le, Z.ltb_lt. lia. Qed.

(* ------------------------------------------------------------------------ *)
(** ** UTF-8 *)

Module Utf8.
Definition encode_char (c : Z) : Bytes :=
  if c <? 128 then [c]
  else if c <? 2048 then [192 + c / 64; 128 + c mod 64]
  else if c <? 65536 then [224 + c / 4096; 128 + c / 64 mod 64; 128 + c mod 64]
  else [240 + c / 262144; 128 + c / 4096 mod 64; 128 + c / 64 mod 64; 128 + c mod 64].

(** [as_bytes]. *)
Fixpoint encode (s : Str) : Bytes :=
  match s with [] => [] | c :: s => encode_char c ++ encode s end.

Definition is_cont (b : Z) : bool := (128 <=? b) && (b <? 192).

Definition cons_opt (c : Z) (o : option Str) : option Str :=
  match o with Some s => Some (c :: s) | None => None end.

(** [std::str::from_utf8]: shortest forms only, no surrogate, nothing above
    U+10FFFF. *)
Fixpoint decode (bs : Bytes) : option Str :=
  match bs with
  | [] => Some []
  | b0 :: r0 =>
      if b0 <? 128 then cons_opt b0 (decode r0)
      else match r0 with
      | [] => None
      | b1 :: r1 =>
          if b0 <? 224 then
            let c := (b0 - 192) * 64 + (b1 - 128) in
            if (128 <=? c) && is_cont b1 then cons_opt c (decode r1) else None
          else match r1 with
          | [] => None
          | b2 :: r2 =>
              if b0 <? 240 then
                let c := (b0 - 224) * 4096 + (b1 - 128) * 64 + (b2 - 128) in
                if (2048 <=? c) && is_charb c && is_cont b1 && is_cont b2
                then cons_opt c (decode r2) else None
              else match r2 with
              | [] => None
              | b3 :: r3 =>
                  let c := (b0 - 240) * 262144 + (b1 - 128) * 4096
                           + (b2 - 128) * 64 + (b3 - 128) in
                  if (65536 <=? c) && is_charb c && is_cont b1 && is_cont b2 && is_cont b3
                  then cons_opt c (decode r3) else None
              end
          end
      end
  end.

Ltac zdiv := Z.to_euclidean_division_equations; lia.

Lemma encode_app s t : encode (s ++ t) = encode s ++ encode t.
Proof. induction s as [|c s IH]; simpl; [done|]. by rewrite IH, <- app_assoc. Qed.

Lemma encode_char_u8 c : is_char c -> is_bytes (encode_char c).
Proof.
  unfold is_char, encode_char, is_bytes, is_u8, u8_max. intros H.
  repeat case_match; unbool; repeat constructor; zdiv.
Qed.

Lemma encode_u8 s : is_str s -> is_bytes (encode s).
Proof.
  induction 1; simpl; [constructor|]. apply Forall_app. split; [|done].
  by apply encode_char_u8.
Qed.

Lemma encode_char_nonempty c : (1 <= List.length (encode_char c))%nat.
Proof. unfold encode_char. repeat case_match; simpl; lia. Qed.

Lemma zero_in_encode s : is_str s -> In 0 (encode s) -> In 0 s.
Proof.
  induction 1 as [|c s Hc Hs IH]; simpl; [done|]. intros [H|H]%in_app_or; [|auto].
  left. unfold is_char in Hc. revert H. unfold encode_char.
  repeat case_match; unbool; simpl; intuition zdiv.
Qed.

Lemma encode_zero s : In 0 s -> In 0 (encode s).
Proof.
  induction s as [|c s IH]; simpl; [done|]. intros [->|H]; apply in_or_app; [left|by right; auto].
  by left.
Qed.

Ltac decide_ltb :=
  repeat match goal with
  | |- context [?a <? ?b] =>
      first [ replace (a <? b) with true by (symmetry; apply Z.ltb_lt; zdiv)
            | replace (a <? b) with false by (symmetry; apply Z.ltb_ge; zdiv) ]
  | |- context [?a <=? ?b] =>
      first [ replace (a <=? b) with true by (symmetry; apply Z.leb_le; zdiv)
            | replace (a <=? b) with false by (symmetry; apply Z.leb_gt; zdiv) ]
  end.

Lemma decode_encode_char c bs : is_char c -> decode (encode_char c ++ bs) = cons_opt c (decode bs).
Proof.
  intros H. pose proof (proj2 (is_charb_spec c) H) as Hb. unfold is_char in H.
  unfold encode_char. repeat case_match; unbool; simpl.
  - by decide_ltb.
  - unfold is_cont. decide_ltb. simpl. f_equal. zdiv.
  - replace ((224 + c / 4096 - 224) * 4096 + (128 + c / 64 mod 64 - 128) * 64 + (128 + c mod 64 - 128)) with c by zdiv.
    rewrite Hb. unfold is_cont. by decide_ltb.
  - replace ((240 + c / 262144 - 240) * 262144 + (128 + c / 4096 mod 64 - 128) * 4096 + (128 + c / 64 mod 64 - 128) * 64 + (128 + c mod 64 - 128)) with c by zdiv.
    rewrite Hb. unfold is_cont. by decide_ltb.
Qed.

(** Decoding inverts encoding. *)
Lemma decode_encode s : is_str s -> decode (encode s) = Some s.
Proof.
  induction 1 as [|c s Hc Hs IH]; [done|]. cbn [encode].
  by rewrite decode_encode_char, IH.
Qed.

Lemma cons_opt_Some c o s : cons_opt c o = Some s -> exists s', o = Some s' /\ s = c :: s'.
Proof. destruct o; simpl; intros; simplify_eq. eauto. Qed.

(** A successful decoding yields scalar values and is canonical. *)
Lemma decode_sound bs : is_bytes bs -> forall s, decode bs = Some s -> is_str s /\ encode s = bs.
Proof.
  remember (List.length bs) as n eqn:Hn. revert bs Hn.
  induction n as [n IH] using (well_founded_induction lt_wf).
  intros bs -> Hbs s. unfold is_bytes in Hbs.
  assert (Hrec : forall (k : nat) c rest s,
    (List.length rest < List.length bs)%nat -> is_bytes rest -> is_char c ->
    cons_opt c (decode rest) = Some s ->
    is_str s /\ encode s = encode_char c ++ rest).
  { intros _ c rest s' Hlt Hr Hc (s'' & Hd & ->)%cons_opt_Some.
    destruct (IH _ Hlt rest eq_refl Hr s'' Hd) as [Hs <-].
    split; [by constructor|done]. }
  clear IH. unfold is_u8, u8_max in Hbs.
  destruct bs as [|b0 r0]; simpl; [intros; simplify_eq; by split; [constructor|]|].
  inversion_clear Hbs as [|? ? Hb0 Hr0].
  case_match; unbool.
  { intros (Hs & He)%(Hrec 0%nat); [|simpl; lia|done|unfold is_char; lia].
    split; [done|]. rewrite He. unfold encode_char. by decide_ltb. }
  destruct r0 as [|b1 r1]; [done|]. inversion_clear Hr0 as [|? ? Hb1 Hr1].
  case_match; unbool.
  { case_match; unbool; [|done]. unfold is_cont in *; unbool.
    intros (Hs & He)%(Hrec 0%nat); [|simpl; lia|done|unfold is_char; lia].
    split; [done|]. rewrite He. unfold encode_char. decide_ltb. simpl.
    repeat f_equal; zdiv. }
  destruct r1 as [|b2 r2]; [done|]. inversion_clear Hr1 as [|? ? Hb2 Hr2].
  case_match; unbool.
  { case_match; unbool; [|done]. unfold is_cont in *; unbool.
    intros (Hs & He)%(Hrec 0%nat); [|simpl; lia|done|by apply is_charb_spec].
    split; [done|]. rewrite He. unfold encode_char. decide_ltb. simpl.
    repeat f_equal; zdiv. }
  destruct r2 as [|b3 r3]; [done|]. inversion_clear Hr2 as [|? ? Hb3 Hr3].
  case_match; unbool; [|done]. unfold is_cont in *; unbool.
  intros (Hs & He)%(Hrec 0%nat); [|simpl; lia|done|by apply is_charb_spec].
  split; [done|]. rewrite He. unfold encode_char. decide_ltb. simpl.
  repeat f_equal; zdiv.
Qed.
End Utf8.

(** A character is a leading byte and continuation bytes. *)
Lemma encode_char_lead c :
  is_char c -> exists b cs, Utf8.encode_char c = b :: cs /\ Utf8.is_cont b = false /\ Forall (fun b => Utf8.is_cont b = true) cs.
Proof.
  intros Hc. unfold Utf8.encode_char.
  assert (forall z, Utf8.is_cont (128 + z mod 64) = true) as Hcont.
  { intros z. pose proof (Z.mod_pos_bound z 64). unfold Utf8.is_cont. rewrite andb_true_iff, Z.leb_le, Z.ltb_lt. lia. }
  assert (forall z, 192 <= z -> Utf8.is_cont z = false) as Hlead.
  { intros z Hz. unfold Utf8.is_cont. rewrite andb_false_iff, Z.ltb_ge. by right. }
  assert (0 <= c) by (unfold is_char in Hc; lia).
  destruct (Z.ltb_spec c 128); [exists c, []; split; [done|split; [|done]]; unfold Utf8.is_cont; rewrite andb_false_iff, Z.leb_gt; by left|].
  destruct (Z.ltb_spec c 2048); [|destruct (Z.ltb_spec c 65536)];
    (do 2 eexists; split; [reflexivity|]; split; [apply Hlead|repeat constructor; apply Hcont]).
  all: match goal with |- _ <= _ + ?c / ?d => assert (0 <= c / d) by (apply Z.div_pos; lia); lia end.
Qed.

(** [str::len], a byte count. *)
Definition str_len (s : Str) : Z := Z.of_nat (List.length (Utf8.encode s)).

Lemma str_len_nonneg s : 0 <= str_len s.
Proof. unfold str_len. lia. Qed.

Lemma str_len_app s t : str_len (s ++ t) = str_len s + str_len t.
Proof. unfold str_len. rewrite Utf8.encode_app, List.length_app. lia. Qed.

Lemma str_len_zero s : str_len s = 0 <-> s = [].
Proof.
  destruct s as [|c s]; [done|]. split; [|done]. unfold str_len. cbn [Utf8.encode].
  rewrite List.length_app. pose proof (Utf8.encode_char_nonempty c). lia.
Qed.

(* ------------------------------------------------------------------------ *)
(** ** Character classes *)

(** A [char] literal of the source. *)
Definition ch (s : string) : Z := match str s with c :: _ => c | [] => 0 end.

Definition between (lo hi c : Z) : bool := (lo <=? c) && (c <=? hi).
Definition is_ascii_lowercase : Z -> bool := between 97 122.
Definition is_ascii_uppercase : Z -> bool := between 65 90.
Definition is_ascii_digit : Z -> bool := between 48 57.
Definition is_ascii_alphanumeric (c : Z) : bool :=
  is_ascii_lowercase c || is_ascii_uppercase c || is_ascii_digit c.
Definition is_ascii_hexdigit (c : Z) : bool :=
  is_ascii_digit c || between 97 102 c || between 65 70 c.

(** Membership of a [char] in a string pattern, [s.contains(c)]. *)
Definition contains_char (s : Str) (c : Z) : bool := existsb (Z.eqb c) s.

(** [char::is_whitespace]: the code points with the property White_Space. *)
Definition is_whitespace (c : Z) : bool :=
  between 9 13 c || (c =? 32) || (c =? 133) || (c =? 160) || (c =? 5760)
  || between 8192 8202 c || (c =? 8232) || (c =? 8233) || (c =? 8239)
  || (c =? 8287) || (c =? 12288).

(** [char::is_control]: general category Cc. *)
Definition is_control (c : Z) : bool := between 0 31 c || between 127 159 c.

(* ------------------------------------------------------------------------ *)
(** ** Searching and splitting *)

Definition str_eqb (s t : Str) : bool := bool_decide (s = t).

Fixpoint strip_prefix (p s : Str) : option Str :=
  match p, s with
  | [], _ => Some s
  | a :: p, b :: s => if a =? b then strip_prefix p s else None
  | _ :: _, [] => None
  end.
Definition starts_with (p s : Str) : bool := bool_decide (is_Some (strip_prefix p s)).
Definition strip_suffix (p s : Str) : option Str :=
  reverse <$> strip_prefix (reverse p) (reverse s).
Definition ends_with (p s : Str) : bool := bool_decide (is_Some (strip_suffix p s)).

(** [split_once]: at the first occurrence of a pattern. *)
Fixpoint split_once (p s : Str) : option (Str * Str) :=
  match strip_prefix p s with
  | Some r => Some ([], r)
  | None =>
      match s with
      | [] => None
      | c :: s => match split_once p s with Some (l, r) => Some (c :: l, r) | None => None end
      end
  end.
(** [s.contains(p)]. *)
Definition contains_str (p s : Str) : bool := bool_decide (is_Some (split_once p s)).

(** [rsplit_once] at a [char]. *)
Fixpoint rsplit_once (c : Z) (s : Str) : option (Str * Str) :=
  match s with
  | [] => None
  | d :: s =>
      match rsplit_once c s with
      | Some (l, r) => Some (d :: l, r)
      | None => if d =? c then Some ([], s) else None
      end
  end.

(** [split] at a [char], collected. *)
Fixpoint split_char (c : Z) (s : Str) : list Str :=
  match s with
  | [] => [[]]
  | d :: s =>
      if d =? c then [] :: split_char c s
      else match split_char c s with
      | [] => [[d]]
      | w :: ws => (d :: w) :: ws
      end
  end.

(** [trim_start], [trim]. *)
Fixpoint trim_start (s : Str) : Str :=
  match s with [] => [] | c :: s' => if is_whitespace c then trim_start s' else s end.
Definition trim_end (s : Str) : Str := reverse (trim_start (reverse s)).
Definition trim (s : Str) : Str := trim_end (trim_start s).

Lemma str_eqb_eq s t : str_eqb s t = true <-> s = t.
Proof. apply bool_decide_eq_true. Qed.

Lemma strip_prefix_Some p s r : strip_prefix p s = Some r <-> s = p ++ r.
Proof.
  revert s. induction p as [|a p IH]; intros s; simpl.
  - split; intros; by simplify_eq.
  - destruct s as [|b s]; [done|]. destruct (Z.eqb_spec a b).
    + rewrite IH. split; intros; simplify_eq; done.
    + split; intros; simplify_eq.
Qed.

Lemma strip_suffix_Some p s l : strip_suffix p s = Some l <-> s = l ++ p.
Proof.
  unfold strip_suffix. rewrite fmap_Some. split.
  - intros (r & Hr & ->). apply strip_prefix_Some in Hr.
    rewrite <- (reverse_involutive s), Hr, reverse_app, !reverse_involutive. done.
  - intros ->. exists (reverse l). rewrite reverse_involutive. split; [|done].
    apply strip_prefix_Some, reverse_app.
Qed.

Lemma split_once_Some p s l r : split_once p s = Some (l, r) -> s = l ++ p ++ r.
Proof.
  revert l. induction s as [|c s IH]; intros l; simpl.
  - destruct (strip_prefix p []) eqn:Hs; intros; simplify_eq.
    by apply strip_prefix_Some in Hs.
  - destruct (strip_prefix p (c :: s)) eqn:Hs; intros; simplify_eq.
    + by apply strip_prefix_Some in Hs.
    + destruct (split_once p s) as [[l' r']|]; simplify_eq. simpl. f_equal. auto.
Qed.

Lemma rsplit_once_None c s : rsplit_once c s = None <-> ~ In c s.
Proof.
  induction s as [|d s IH]; simpl; [by split; [intros _ []|]|].
  destruct (rsplit_once c s) as [[l r]|].
  - split; [done|]. intros Hn. exfalso.
    enough (Some (l, r) = None) by done. apply IH. tauto.
  - destruct (Z.eqb_spec d c).
    + split; [done|]. intros Hn. exfalso. auto.
    + split; [|done]. intros _ [?|?]; [done|]. by apply IH.
Qed.

Lemma rsplit_once_Some c s l r :
  rsplit_once c s = Some (l, r) <-> s = l ++ c :: r /\ ~ In c r.
Proof.
  revert l r. induction s as [|d s IH]; intros l r; simpl.
  - split; [done|]. intros [H _]. by destruct l.
  - destruct (rsplit_once c s) as [[l' r']|] eqn:Hs.
    + destruct (proj1 (IH l' r') eq_refl) as [-> Hr].
      split; [intros; by simplify_eq|]. intros [H Hn].
      destruct l as [|d' l]; simplify_eq/=.
      * exfalso. apply Hn, in_or_app. right. by left.
      * assert (Some (l', r') = Some (l, r)) as Heq by (apply IH; done). by simplify_eq.
    + apply rsplit_once_None in Hs as Hn.
      assert (forall l0, s = l0 ++ c :: r -> False) as Hno.
      { intros l0 ->. apply Hn, in_or_app. right. by left. }
      destruct (Z.eqb_spec d c).
      * subst. split; [intros; by simplify_eq|]. intros [H Hr].
        destruct l as [|d' l]; simplify_eq/=; [done|]. exfalso. by eapply Hno.
      * split; [done|]. intros [H Hr]. destruct l as [|d' l]; simplify_eq/=.
        exfalso. by eapply Hno.
Qed.

(* ------------------------------------------------------------------------ *)
(** ** Decimal integers *)

(** [to_string] on an unsigned integer; twenty digits hold a [u64]. *)
Fixpoint digits (fuel : nat) (n : Z) : Str :=
  match fuel with
  | O => []
  | S fuel => if n <? 10 then [48 + n] else digits fuel (n / 10) ++ [48 + n mod 10]
  end.
Definition to_string (n : Z) : Str := digits 20 n.

(** [str::parse] at an unsigned type of maximum [max]: an optional leading
    [+], then decimal digits, with checked arithmetic. *)
Fixpoint parse_digits (max acc : Z) (s : Str) : option Z :=
  match s with
  | [] => Some acc
  | c :: s =>
      if is_ascii_digit c then
        let acc := acc * 10 + (c - 48) in
        if acc <=? max then parse_digits max acc s else None
      else None
  end.
Definition parse_unsigned (max : Z) (s : Str) : option Z :=
  match s with
  | [] => None
  | c :: ds =>
      if (c =? 43) then (match ds with [] => None | _ => parse_digits max 0 ds end)
      else parse_digits max 0 s
  end.

Lemma parse_digits_app max acc s t :
  parse_digits max acc (s ++ t) = (a ← parse_digits max acc s; parse_digits max a t).
Proof.
  revert acc. induction s as [|c s IH]; intros acc; simpl; [done|].
  destruct (is_ascii_digit c); [|done]. by case_match.
Qed.

Lemma digit_char d : 0 <= d < 10 -> is_ascii_digit (48 + d) = true.
Proof. intros. apply andb_true_intro. rewrite !Z.leb_le. lia. Qed.

Lemma digits_all fuel n c : 0 <= n -> In c (digits fuel n) -> is_ascii_digit c = true.
Proof.
  revert n. induction fuel as [|fuel IH]; simpl; intros n Hn; [done|].
  destruct (Z.ltb_spec n 10).
  - intros [<-|[]]. by apply digit_char.
  - intros [Hc|[<-|[]]]%in_app_or.
    + apply (IH (n / 10)); [|done]. by apply Z.div_pos.
    + apply digit_char, Z.mod_pos_bound. lia.
Qed.

Lemma parse_digits_digits fuel n max :
  0 <= n <= max -> n < 10 ^ Z.of_nat fuel -> parse_digits max 0 (digits fuel n) = Some n.
Proof.
  revert n. induction fuel as [|fuel IH]; intros n Hn Hf; [simpl in *; f_equal; lia|].
  rewrite Nat2Z.inj_succ, Z.pow_succ_r in Hf by lia. cbn [digits].
  destruct (Z.ltb_spec n 10).
  - cbn [parse_digits]. rewrite digit_char by lia. cbn zeta.
    replace (0 * 10 + (48 + n - 48)) with n by lia. by rewrite (proj2 (Z.leb_le n max)) by lia.
  - pose proof (Z.div_mod n 10). pose proof (Z.mod_pos_bound n 10).
    rewrite parse_digits_app, IH; [|nia|apply Z.div_lt_upper_bound; lia].
    cbn [parse_digits mbind option_bind]. rewrite digit_char by lia. cbn zeta.
    replace (n / 10 * 10 + (48 + n mod 10 - 48)) with n by lia.
    by rewrite (proj2 (Z.leb_le n max)) by lia.
Qed.

Lemma digits_nonempty fuel n : digits (S fuel) n <> [].
Proof. simpl. destruct (n <? 10); [done|]. by destruct (digits fuel (n / 10)). Qed.

(** Parsing inverts printing. *)
Lemma parse_to_string max n :
  0 <= n <= max -> max <= u64_max -> parse_unsigned max (to_string n) = Some n.
Proof.
  intros Hn Hm. unfold parse_unsigned.
  assert (parse_digits max 0 (to_string n) = Some n) as Hp.
  { apply parse_digits_digits; [done|]. unfold u64_max in Hm. simpl. lia. }
  destruct (to_string n) as [|c ds] eqn:Hs.
  { by apply digits_nonempty in Hs. }
  destruct (Z.eqb_spec c 43); [|done]. subst. exfalso.
  assert (is_ascii_digit 43 = true) by (apply (digits_all 20 n); [lia|fold (to_string n); rewrite Hs; by left]).
  done.
Qed.

Lemma to_string_digits n c : 0 <= n -> In c (to_string n) -> is_ascii_digit c = true.
Proof. apply digits_all. Qed.

Lemma parse_digits_bound max acc s n :
  0 <= acc <= max -> parse_digits max acc s = Some n -> 0 <= n <= max.
Proof.
  revert acc. induction s as [|c s IH]; simpl; intros acc Ha H; [by simplify_eq|].
  repeat case_match; try done. unfold is_ascii_digit, between in *. unbool.
  eapply IH; [|done]. lia.
Qed.

Lemma parse_unsigned_bound max s n :
  0 <= max -> parse_unsigned max s = Some n -> 0 <= n <= max.
Proof.
  intros Hm. unfold parse_unsigned. repeat case_match; try done;
    intros; by eapply parse_digits_bound; [|done].
Qed.

(** *** Splitting at the first occurrence, and into words *)

Lemma strip_prefix_head a p c s : a <> c -> strip_prefix (a :: p) (c :: s) = None.
Proof. intros. simpl. by rewrite (proj2 (Z.eqb_neq a c)). Qed.

Lemma split_once_first a p l r :
  ~ In a l -> split_once (a :: p) (l ++ (a :: p) ++ r) = Some (l, r).
Proof.
  induction l as [|c l IH]; intros Hn.
  - change ([] ++ (a :: p) ++ r) with (a :: (p ++ r)).
    cbn [split_once]. by rewrite (proj2 (strip_prefix_Some (a :: p) (a :: (p ++ r)) r)).
  - simpl in Hn. change ((c :: l) ++ (a :: p) ++ r) with (c :: (l ++ (a :: p) ++ r)).
    cbn [split_once]. rewrite strip_prefix_head by intuition. rewrite IH by tauto. done.
Qed.

Lemma split_once_char a s l r : split_once [a] s = Some (l, r) -> s = l ++ a :: r /\ ~ In a l.
Proof.
  revert l. induction s as [|c s IH]; intros l; cbn [split_once]; [done|].
  destruct (Z.eqb_spec a c) as [->|Hne].
  - simpl. rewrite Z.eqb_refl. intros. simplify_eq. split; [done|intros []].
  - rewrite strip_prefix_head by done.
    destruct (split_once [a] s) as [[l' r']|]; [|done]. intros. simplify_eq.
    destruct (IH l' eq_refl) as [-> Hn]. split; [done|]. simpl. intuition congruence.
Qed.

(** Words joined by a separator. *)
Definition join (c : Z) (ws : list Str) : Str :=
  match ws with [] => [] | w :: ws => w ++ concat (List.map (cons c) ws) end.

Lemma split_char_nonempty c s : split_char c s <> [].
Proof. destruct s as [|d s]; simpl; [done|]. case_match; [done|]. by case_match. Qed.

Lemma join_cons c w ws : ws <> [] -> join c (w :: ws) = w ++ c :: join c ws.
Proof. by destruct ws. Qed.

Lemma join_split_char c s : join c (split_char c s) = s.
Proof.
  induction s as [|d s IH]; [done|]. cbn [split_char].
  pose proof (split_char_nonempty c s). destruct (Z.eqb_spec d c); subst.
  - rewrite join_cons by done. by rewrite IH.
  - destruct (split_char c s) as [|w ws]; [done|]. simpl in *. by rewrite IH.
Qed.

Lemma split_char_words c s : Forall (fun w => ~ In c w) (split_char c s).
Proof.
  induction s as [|d s IH]; simpl; [constructor; [intros []|constructor]|].
  destruct (Z.eqb_spec d c); [constructor; [intros []|done]|].
  destruct IH as [|w ws Hw Hws]; constructor; try done; simpl; intuition.
Qed.

Lemma split_char_app c w s : ~ In c w -> split_char c (w ++ c :: s) = w :: split_char c s.
Proof.
  induction w as [|d w IH]; simpl; intros Hn; [by rewrite Z.eqb_refl|].
  rewrite (proj2 (Z.eqb_neq d c)) by (intros ->; auto). by rewrite IH by auto.
Qed.

Lemma split_char_word c w : ~ In c w -> split_char c w = [w].
Proof.
  induction w as [|d w IH]; simpl; intros Hn; [done|].
  rewrite (proj2 (Z.eqb_neq d c)) by (intros ->; auto). by rewrite IH by auto.
Qed.

Lemma split_char_join c ws :
  ws <> [] -> Forall (fun w => ~ In c w) ws -> split_char c (join c ws) = ws.
Proof.
  intros Hne Hws. induction Hws as [|w ws Hw Hws IH]; [done|].
  destruct ws as [|w' ws].
  - simpl. rewrite app_nil_r. by apply split_char_word.
  - rewrite join_cons by done. rewrite split_char_app by done. by rewrite IH.
Qed.
