(* ===== verification/Transcript.v ===== *)
(** * File names as a human is shown them

    [crates/vitrin-core/src/paint/script.rs], which characters may be drawn, and
    [crates/vitrin-core/src/paint/transcript.rs], a file name's bytes made into
    what the picker draws: [encode] and its inverse [decode]. Which characters
    the embedded faces cover is a parameter. *)

From stdpp Require Import sorting.
From S2P Require Import Prelude Text.

(* ------------------------------------------------------------------------ *)
(** ** Scripts *)

Inductive Group : Type := Latin | Greek | Cyrillic | Japanese.
Inductive Route : Type := Vector | Atlas | Escape.

#[export] Instance Group_eq_dec : EqDecision Group.
Proof. solve_decision. Defined.
#[export] Instance Route_eq_dec : EqDecision Route.
Proof. solve_decision. Defined.

(** The derived order of [Group]. *)
Definition group_rank (g : Group) : nat :=
  match g with Latin => 0 | Greek => 1 | Cyrillic => 2 | Japanese => 3 end.
Definition group_le (g h : Group) : Prop := (group_rank g <= group_rank h)%nat.
#[export] Instance group_le_dec : RelDecision group_le.
Proof. intros g h. unfold group_le. apply _. Defined.

Definition DENIED_APPEARANCE : list Z := [160; 173; 272; 393; 406; 451; 894; 1216].

(** The punctuation [group_of] names, also what separates the words of a name. *)
Definition neutral_punctuation : Str := str " .-_+~()[]&',!@#$%^={};".

Definition group_of (c : Z) : option Group :=
  if between 48 57 c || contains_char neutral_punctuation c then None
  else if between 65 90 c || between 97 122 c then Some Latin
  else if between 192 591 c then Some Latin
  else if between 880 1023 c then Some Greek
  else if between 1024 1279 c then Some Cyrillic
  else if between 12352 12543 c || between 19968 40959 c then Some Japanese
  else None.

Definition permitted (groups : list Group) : bool :=
  match groups with
  | [] | [_] | [Latin; Japanese] | [Japanese; Latin] => true
  | _ => false
  end.

Definition is_denied_class (c : Z) : bool :=
  existsb (fun r => between r.1 r.2 c)
    [(768, 879); (1155, 1161); (6832, 6911); (8400, 8447);
     (173, 173); (1564, 1564); (8203, 8207); (8234, 8238); (8288, 8303); (65279, 65279);
     (160, 160); (5760, 5760); (8192, 8202); (8232, 8232); (8233, 8233); (8239, 8239); (8287, 8287);
     (12288, 12288);
     (55296, 57343); (57344, 63743)].

Definition is_word_separator (c : Z) : bool := contains_char neutral_punctuation c.

(* ------------------------------------------------------------------------ *)
(** ** UTF-8, as far as it is valid *)

Inductive Utf8Step : Type :=
| StepEnd
| StepChar (c : Z) (rest : Bytes)
| StepBad (error_len : option nat).

(** The second byte a three- or four-byte form allows. *)
Definition second_of_three (b0 b1 : Z) : bool :=
  if b0 =? 224 then between 160 191 b1 else if b0 =? 237 then between 128 159 b1 else Utf8.is_cont b1.
Definition second_of_four (b0 b1 : Z) : bool :=
  if b0 =? 240 then between 144 191 b1 else if b0 =? 244 then between 128 143 b1 else Utf8.is_cont b1.

(** One character off the front, or what [Utf8Error] says of the failure. *)
Definition utf8_step (bs : Bytes) : Utf8Step :=
  match bs with
  | [] => StepEnd
  | b0 :: r0 =>
      if b0 <? 128 then StepChar b0 r0
      else if between 194 223 b0 then
        match r0 with
        | [] => StepBad None
        | b1 :: r1 =>
            if negb (Utf8.is_cont b1) then StepBad (Some 1%nat)
            else StepChar ((b0 - 192) * 64 + (b1 - 128)) r1
        end
      else if between 224 239 b0 then
        match r0 with
        | [] => StepBad None
        | b1 :: r1 =>
            if negb (second_of_three b0 b1) then StepBad (Some 1%nat)
            else match r1 with
            | [] => StepBad None
            | b2 :: r2 =>
                if negb (Utf8.is_cont b2) then StepBad (Some 2%nat)
                else StepChar ((b0 - 224) * 4096 + (b1 - 128) * 64 + (b2 - 128)) r2
            end
        end
      else if between 240 244 b0 then
        match r0 with
        | [] => StepBad None
        | b1 :: r1 =>
            if negb (second_of_four b0 b1) then StepBad (Some 1%nat)
            else match r1 with
            | [] => StepBad None
            | b2 :: r2 =>
                if negb (Utf8.is_cont b2) then StepBad (Some 2%nat)
                else match r2 with
                | [] => StepBad None
                | b3 :: r3 =>
                    if negb (Utf8.is_cont b3) then StepBad (Some 3%nat)
                    else StepChar ((b0 - 240) * 262144 + (b1 - 128) * 4096 + (b2 - 128) * 64 + (b3 - 128)) r3
                end
            end
        end
      else StepBad (Some 1%nat)
  end.

(** [std::str::from_utf8]: the characters of the longest valid prefix, what is
    left of the bytes, and, unless all of them were valid, [error_len]. *)
Fixpoint from_utf8 (fuel : nat) (bs : Bytes) : Str * Bytes * option (option nat) :=
  match fuel with
  | O => ([], bs, None)
  | S fuel =>
      match utf8_step bs with
      | StepEnd => ([], [], None)
      | StepBad e => ([], bs, Some e)
      | StepChar c rest =>
          let '(cs, remains, e) := from_utf8 fuel rest in (c :: cs, remains, e)
      end
  end.

(* ------------------------------------------------------------------------ *)
(** ** The transcript *)

Definition SIGIL : Z := 92.

Inductive Class : Type := Ascii | Native | Escaped.
#[export] Instance Class_eq_dec : EqDecision Class.
Proof. solve_decision. Defined.

Record Transcript : Type := {
  tr_text : Str;
  tr_runs : list (Z * Z * Class);
  tr_groups : list Group }.

Inductive Item : Type := Scalar (c : Z) | RawByte (b : Z).

(** Pass 1. *)
Fixpoint items_loop (fuel : nat) (rest : Bytes) : list Item :=
  match fuel with
  | O => []
  | S fuel =>
      match rest with
      | [] => []
      | _ =>
          match from_utf8 (S (length rest)) rest with
          | (cs, _, None) => List.map Scalar cs
          | (cs, bad_rest, Some error_len) =>
              let bad := Nat.max 1 (default (length bad_rest) error_len) in
              List.map Scalar cs ++ List.map RawByte (take bad bad_rest)
                ++ items_loop fuel (drop bad bad_rest)
          end
      end
  end.
Definition items_of (name : Bytes) : list Item := items_loop (S (length name)) name.

(** [{:02X}], [{:04X}] and [{:06X}] of a number that has that many digits. *)
Definition hex_upper (v : Z) : Z := if v <? 10 then 48 + v else 55 + v.
Fixpoint hex_pad (digits : nat) (v : Z) : Str :=
  match digits with
  | O => []
  | S digits => hex_pad digits (v / 16) ++ [hex_upper (v mod 16)]
  end.

(** The entries of [counts], a group with how many and where first. *)
Fixpoint count_in (g : Group) (i : nat) (counts : list (Group * nat * nat)) : list (Group * nat * nat) :=
  match counts with
  | [] => [(g, 1%nat, i)]
  | (cg, n, first) :: rest =>
      if bool_decide (cg = g) then (cg, S n, first) :: rest else (cg, n, first) :: count_in g i rest
  end.

(** [max_by] of the count, then of the earlier first appearance. *)
Definition survivor_cmp (a b : Group * nat * nat) : comparison :=
  match Nat.compare a.1.2 b.1.2 with Eq => Nat.compare b.2 a.2 | o => o end.
Fixpoint max_by_from (best : Group * nat * nat) (l : list (Group * nat * nat)) : Group * nat * nat :=
  match l with
  | [] => best
  | x :: l => max_by_from (match survivor_cmp best x with Gt => best | _ => x end) l
  end.
Definition max_by (l : list (Group * nat * nat)) : option (Group * nat * nat) :=
  match l with [] => None | x :: l => Some (max_by_from x l) end.

Section transcript.
(** Whether the embedded face has a glyph, and whether the bitmap atlas has one. *)
Context (face_covers atlas_covers : Z -> bool).

Definition route (c : Z) : Route :=
  if bool_decide (c ∈ DENIED_APPEARANCE) then Escape
  else if is_control c || is_denied_class c then Escape
  else
    let in_vector_script :=
      between 32 126 c || between 161 591 c || between 880 1023 c || between 1024 1279 c in
    if in_vector_script && face_covers c then Vector
    else if bool_decide (group_of c = Some Japanese) && atlas_covers c then Atlas
    else Escape.

(** The character an index of a word votes with. *)
Definition vote (items : list Item) (i : nat) : option Group :=
  match items !! i with
  | Some (Scalar c) => if bool_decide (route c = Vector) then group_of c else None
  | _ => None
  end.

Definition word_counts (items : list Item) (word : list nat) : list (Group * nat * nat) :=
  fold_left (fun counts i => match vote items i with Some g => count_in g i counts | None => counts end) word [].

Definition survivor (counts : list (Group * nat * nat)) : option Group :=
  let distinct := merge_sort group_le (List.map (fun e => e.1.1) counts) in
  if permitted distinct then None else (fun e => e.1.1) <$> max_by counts.

Definition drawn_in_word (kept : option Group) (c : Z) : bool :=
  bool_decide (route c = Vector)
  && match kept, group_of c with
     | Some s, Some g => bool_decide (s = g)
     | _, _ => true
     end.

(** The closure [settle]; the word it clears is the caller's. *)
Definition settle (items : list Item) (word : list nat) (drawable : list bool) : list bool :=
  let kept := survivor (word_counts items word) in
  fold_left (fun drawable i =>
    match items !! i with
    | Some (Scalar c) => <[i := drawn_in_word kept c]> drawable
    | _ => drawable
    end) word drawable.

Definition is_separator (item : Item) : bool :=
  match item with Scalar c => is_word_separator c | RawByte _ => true end.

(** Pass 2, one index. *)
Definition vote_step (items : list Item) (s : list nat * list bool) (i : nat) : list nat * list bool :=
  let '(word, drawable) := s in
  match items !! i with
  | None => s
  | Some item =>
      if is_separator item then
        let drawable := settle items word drawable in
        ([], match item with
             | Scalar c => <[i := bool_decide (route c = Vector)]> drawable
             | RawByte _ => drawable
             end)
      else (word ++ [i], drawable)
  end.
Definition drawable_of (items : list Item) : list bool :=
  let '(word, drawable) :=
    fold_left (vote_step items) (seq 0 (length items)) ([], replicate (length items) false) in
  settle items word drawable.

(** Pass 3, one item: what is pushed, and its class. *)
Definition push_item (item : Item) (drawn : bool) : Str * Class :=
  match item with
  | RawByte b => ([SIGIL] ++ str "x{" ++ hex_pad 2 b ++ str "}", Escaped)
  | Scalar c =>
      if c =? SIGIL then ([SIGIL; SIGIL], Escaped)
      else if drawn then ([c], if c <? 128 then Ascii else Native)
      else if c <=? 65535 then ([SIGIL] ++ str "u{" ++ hex_pad 4 c ++ str "}", Escaped)
      else ([SIGIL] ++ str "u{" ++ hex_pad 6 c ++ str "}", Escaped)
  end.

(** [BTreeSet<Group>]: ascending, without duplicates. *)
Fixpoint group_insert (g : Group) (l : list Group) : list Group :=
  match l with
  | [] => [g]
  | h :: l => if bool_decide (g = h) then h :: l
              else if (group_rank g <? group_rank h)%nat then g :: h :: l else h :: group_insert g l
  end.

(** The last run grows when its class goes on. *)
Definition push_run (start end_ : Z) (class : Class) (runs : list (Z * Z * Class)) : list (Z * Z * Class) :=
  match last runs with
  | Some (a, _, c) =>
      if bool_decide (c = class) then take (length runs - 1) runs ++ [(a, end_, c)]
      else runs ++ [(start, end_, class)]
  | None => runs ++ [(start, end_, class)]
  end.

Definition push_step (t : Transcript) (it : Item * bool) : Transcript :=
  let '(pushed, class) := push_item it.1 it.2 in
  let start := str_len (tr_text t) in
  let text := tr_text t ++ pushed in
  let groups := match it with
    | (Scalar c, true) =>
        if c =? SIGIL then tr_groups t
        else match group_of c with Some g => group_insert g (tr_groups t) | None => tr_groups t end
    | _ => tr_groups t
    end in
  {| tr_text := text; tr_runs := push_run start (str_len text) class (tr_runs t); tr_groups := groups |}.

Definition encode (name : Bytes) : Transcript :=
  let items := items_of name in
  fold_left push_step (zip items (drawable_of items)) {| tr_text := []; tr_runs := []; tr_groups := [] |}.
End transcript.

(** [braced]: the digits and what follows the brace. *)
Fixpoint braced_digits (digits : Str) (chars : Str) : option (Str * Str) :=
  match chars with
  | [] => None
  | c :: chars =>
      if c =? 125 then Some (digits, chars)
      else if is_ascii_digit c || between 65 70 c then braced_digits (digits ++ [c]) chars
      else None
  end.
Definition braced (chars : Str) : option (Str * Str) :=
  match chars with
  | c :: chars => if c =? 123 then braced_digits [] chars else None
  | [] => None
  end.

(** [from_str_radix] at 16 of the digits [braced] lets through. *)
Definition hex_digit_value (c : Z) : option Z :=
  if is_ascii_digit c then Some (c - 48) else if between 65 70 c then Some (c - 55) else None.
Fixpoint radix16 (max acc : Z) (s : Str) : option Z :=
  match s with
  | [] => Some acc
  | c :: s =>
      d ← hex_digit_value c;
      let acc := acc * 16 + d in
      if max <? acc then None else radix16 max acc s
  end.

Fixpoint decode_loop (fuel : nat) (out : Bytes) (chars : Str) : option Bytes :=
  match fuel with
  | O => None
  | S fuel =>
      match chars with
      | [] => Some out
      | c :: chars =>
          if negb (c =? SIGIL) then decode_loop fuel (out ++ Utf8.encode_char c) chars
          else match chars with
          | [] => None
          | c :: chars =>
              if c =? SIGIL then decode_loop fuel (out ++ [92]) chars
              else if c =? 120 then
                match braced chars with
                | None => None
                | Some (digits, chars) =>
                    if negb (length digits =? 2)%nat then None
                    else match radix16 255 0 digits with
                         | None => None
                         | Some b => decode_loop fuel (out ++ [b]) chars
                         end
                end
              else if c =? 117 then
                match braced chars with
                | None => None
                | Some (digits, chars) =>
                    if negb (length digits =? 4)%nat && negb (length digits =? 6)%nat then None
                    else match radix16 u32_max 0 digits with
                         | None => None
                         | Some cp =>
                             if (length digits =? 6)%nat && (cp <=? 65535) then None
                             else if is_charb cp then decode_loop fuel (out ++ Utf8.encode_char cp) chars
                             else None
                         end
                end
              else None
          end
      end
  end.
Definition decode (text : Str) : option Bytes := decode_loop (S (length text)) [] text.

(* ------------------------------------------------------------------------ *)
(** ** The bytes of the items *)

Definition item_bytes (it : Item) : Bytes :=
  match it with Scalar c => Utf8.encode_char c | RawByte b => [b] end.
Definition item_ok (it : Item) : Prop :=
  match it with Scalar c => is_char c | RawByte b => is_u8 b end.

Lemma utf8_step_char bs c rest :
  is_bytes bs -> utf8_step bs = StepChar c rest ->
  is_char c /\ bs = Utf8.encode_char c ++ rest.
Proof.
  unfold utf8_step, second_of_three, second_of_four, Utf8.is_cont, between, is_bytes, is_u8, u8_max, is_char.
  intros Hb Hs. repeat (case_match; try done); simplify_eq;
    repeat match goal with H : Forall _ (_ :: _) |- _ => inversion_clear H end; unbool;
    (split; [lia|]); unfold Utf8.encode_char; Utf8.decide_ltb; simpl; repeat f_equal; Utf8.zdiv.
Qed.

Lemma utf8_step_end bs : utf8_step bs = StepEnd -> bs = [].
Proof. unfold utf8_step. by repeat case_match. Qed.

Lemma from_utf8_spec fuel bs cs rest e :
  is_bytes bs -> (length bs < fuel)%nat -> from_utf8 fuel bs = (cs, rest, e) ->
  is_str cs /\ bs = Utf8.encode cs ++ rest /\ (e = None <-> rest = []).
Proof.
  revert bs cs rest e. induction fuel as [|fuel IH]; intros bs cs rest e Hb Hf; simpl; [lia|].
  destruct (utf8_step bs) as [|c r|k] eqn:Hs.
  - apply utf8_step_end in Hs as ->. intros [= <- <- <-]. by split_and!; [constructor|..].
  - apply utf8_step_char in Hs as [Hc ->]; [|done].
    apply Forall_app in Hb as [_ Hr]. pose proof (Utf8.encode_char_nonempty c) as Hne.
    rewrite length_app in Hf. destruct (from_utf8 fuel r) as [[cs1 rest1] e1] eqn:H1.
    destruct (IH r cs1 rest1 e1 Hr ltac:(lia) H1) as (Hcs & -> & He).
    intros [= <- <- <-]. split_and!; [by constructor| |done]. simpl. by rewrite <- app_assoc.
  - intros [= <- <- <-]. split_and!; [constructor|done|]. split; [done|]. intros ->. done.
Qed.

Lemma scalar_bytes cs : concat (List.map item_bytes (List.map Scalar cs)) = Utf8.encode cs.
Proof. induction cs as [|c cs IH]; simpl; [done|]. by rewrite IH. Qed.
Lemma raw_bytes bs : concat (List.map item_bytes (List.map RawByte bs)) = bs.
Proof. induction bs as [|b bs IH]; simpl; [done|]. by rewrite IH. Qed.

Lemma items_loop_spec fuel rest :
  is_bytes rest -> (length rest < fuel)%nat ->
  Forall item_ok (items_loop fuel rest) /\ concat (List.map item_bytes (items_loop fuel rest)) = rest.
Proof.
  revert rest. induction fuel as [|fuel IH]; intros rest Hb Hf; [lia|]. cbn [items_loop].
  destruct rest as [|b0 r0]; [by split; [constructor|]|]. set (rest := b0 :: r0) in *.
  destruct (from_utf8 (S (length rest)) rest) as [[cs bad] e] eqn:Hu.
  destruct (from_utf8_spec _ rest cs bad e Hb (Nat.lt_succ_diag_r _) Hu) as (Hcs & Hr & He).
  assert (Forall item_ok (List.map Scalar cs)) as Hok by (by apply List.Forall_map).
  destruct e as [error_len|].
  - assert (bad <> []) as Hne by (intros Hnil; by apply He in Hnil).
    set (k := Nat.max 1 _). rewrite Hr in Hb. apply Forall_app in Hb as [_ Hbad].
    destruct (IH (drop k bad)) as [IHok IHb]; [by apply Forall_drop| |].
    { rewrite Hr, length_app in Hf. rewrite length_drop. destruct bad; [done|]. simpl in *. lia. }
    split.
    + apply Forall_app. split; [done|]. apply Forall_app. split; [|done].
      apply List.Forall_map. by apply Forall_take.
    + rewrite !List.map_app, !concat_app, scalar_bytes, raw_bytes, IHb, take_drop. done.
  - split; [done|]. rewrite scalar_bytes, Hr, (proj1 He eq_refl). by rewrite app_nil_r.
Qed.

Lemma items_of_ok name : is_bytes name -> Forall item_ok (items_of name).
Proof. intros Hb. apply items_loop_spec; [done|lia]. Qed.
Lemma items_of_bytes name : is_bytes name -> concat (List.map item_bytes (items_of name)) = name.
Proof. intros Hb. apply items_loop_spec; [done|lia]. Qed.

(* ------------------------------------------------------------------------ *)
(** ** Hex digits *)

Lemma hex_upper_value v : 0 <= v < 16 ->
  hex_digit_value (hex_upper v) = Some v
  /\ (is_ascii_digit (hex_upper v) || between 65 70 (hex_upper v)) = true /\ hex_upper v <> 125.
Proof.
  intros H. unfold hex_digit_value, hex_upper, is_ascii_digit, between.
  destruct (Z.ltb_spec v 10); Utf8.decide_ltb; cbn [andb orb];
    (split_and!; [f_equal; lia|done|lia]).
Qed.

Lemma hex_pad_length n v : length (hex_pad n v) = n.
Proof. revert v. induction n; intros v; simpl; [done|]. rewrite length_app, IHn. simpl. lia. Qed.

Lemma radix16_app max acc s t :
  radix16 max acc (s ++ t) = a ← radix16 max acc s; radix16 max a t.
Proof.
  revert acc. induction s as [|c s IH]; intros acc; simpl; [done|].
  destruct (hex_digit_value c); simpl; [|done]. case_match; [done|]. apply IH.
Qed.

Lemma radix16_pad n v max :
  0 <= v -> v < 16 ^ Z.of_nat n -> v <= max -> radix16 max 0 (hex_pad n v) = Some v.
Proof.
  revert v. induction n as [|n IH]; intros v H0 Hn Hm; simpl.
  - simpl in Hn. f_equal. lia.
  - rewrite Nat2Z.inj_succ, Z.pow_succ_r in Hn by lia.
    rewrite radix16_app, IH by Utf8.zdiv. simpl.
    destruct (hex_upper_value (v mod 16)) as (-> & _); [Utf8.zdiv|]. simpl.
    replace (v / 16 * 16 + v mod 16) with v by Utf8.zdiv.
    by rewrite (proj2 (Z.ltb_ge _ _)) by lia.
Qed.

Lemma braced_digits_pad n v acc rest :
  0 <= v -> braced_digits acc (hex_pad n v ++ 125 :: rest) = Some (acc ++ hex_pad n v, rest).
Proof.
  revert v acc rest.
  assert (forall ds acc rest, Forall (fun c => (is_ascii_digit c || between 65 70 c) = true /\ c <> 125) ds ->
    braced_digits acc (ds ++ 125 :: rest) = Some (acc ++ ds, rest)) as Hgen.
  { induction ds as [|c ds IH]; intros acc rest; simpl; [by rewrite app_nil_r|].
    intros [[Hc Hn] Hds]%Forall_cons. rewrite (proj2 (Z.eqb_neq c 125)) by done. rewrite Hc.
    rewrite IH by done. by rewrite <- app_assoc. }
  intros v acc rest Hv. apply Hgen. revert v Hv. clear Hgen.
  induction n as [|n IH]; intros v Hv; simpl; [constructor|].
  apply Forall_app. split; [apply IH; Utf8.zdiv|]. constructor; [|constructor].
  apply hex_upper_value. Utf8.zdiv.
Qed.

(* ------------------------------------------------------------------------ *)
(** ** Decoding inverts encoding *)

Section properties.
Context (face_covers atlas_covers : Z -> bool).

Lemma decode_item it drawn fuel out rest :
  item_ok it ->
  decode_loop (S fuel) out ((push_item it drawn).1 ++ rest) = decode_loop fuel (out ++ item_bytes it) rest.
Proof.
  intros Hok. destruct it as [c|b]; cbn [item_ok item_bytes] in *.
  - cbn [push_item]. destruct (c =? SIGIL) eqn:Hs; [apply Z.eqb_eq in Hs as ->; done|].
    destruct drawn; [cbn [fst app decode_loop]; by rewrite Hs|].
    assert (0 <= c <= u32_max /\ c <= 1114111) as [Hc Hmax] by (unfold is_char, u32_max in *; lia).
    assert (forall n, (n = 4 \/ n = 6)%nat -> c < 16 ^ Z.of_nat n -> (n = 6%nat -> 65535 < c) ->
      decode_loop (S fuel) out (([SIGIL] ++ str "u{" ++ hex_pad n c ++ str "}") ++ rest)
        = decode_loop fuel (out ++ Utf8.encode_char c) rest) as Hu.
    { intros n Hn Hlt H6. rewrite <- !app_assoc.
      change ([SIGIL] ++ str "u{" ++ hex_pad n c ++ str "}" ++ rest)
        with (92 :: 117 :: 123 :: hex_pad n c ++ 125 :: rest).
      cbn [decode_loop Z.eqb SIGIL Pos.eqb negb braced].
      rewrite braced_digits_pad, app_nil_l, hex_pad_length, radix16_pad by lia.
      rewrite (proj2 (is_charb_spec c)) by done.
      destruct Hn as [-> | ->]; cbn [Nat.eqb negb andb]; [done|].
      by rewrite (proj2 (Z.leb_gt _ _)) by auto. }
    destruct (Z.leb_spec c 65535); cbn [fst]; apply Hu; lia.
  - cbn [push_item fst]. rewrite <- !app_assoc. unfold is_u8, u8_max in Hok.
    change ([SIGIL] ++ str "x{" ++ hex_pad 2 b ++ str "}" ++ rest)
      with (92 :: 120 :: 123 :: hex_pad 2 b ++ 125 :: rest).
    cbn [decode_loop Z.eqb SIGIL Pos.eqb negb braced].
    rewrite braced_digits_pad, app_nil_l, hex_pad_length, radix16_pad by lia. done.
Qed.

(** What pass 3 writes, item by item. *)
Definition rendered (its : list (Item * bool)) : Str := concat (List.map (fun it => (push_item it.1 it.2).1) its).

Lemma encode_text_from its t :
  tr_text (fold_left push_step its t) = tr_text t ++ rendered its.
Proof.
  unfold rendered. revert t. induction its as [|it its IH]; intros t; simpl; [by rewrite app_nil_r|].
  rewrite IH. unfold push_step. destruct (push_item it.1 it.2) as [pushed class]. simpl. by rewrite <- app_assoc.
Qed.

Lemma push_item_nonempty it drawn : (1 <= length (push_item it drawn).1)%nat.
Proof. destruct it, drawn; simpl; repeat case_match; simpl; lia. Qed.

Lemma rendered_length its : (length its <= length (rendered its))%nat.
Proof.
  unfold rendered. induction its as [|it its IH]; simpl; [lia|]. rewrite length_app.
  pose proof (push_item_nonempty it.1 it.2). lia.
Qed.

Lemma decode_rendered its fuel out :
  Forall item_ok (List.map fst its) -> (length its < fuel)%nat ->
  decode_loop fuel out (rendered its) = Some (out ++ concat (List.map item_bytes (List.map fst its))).
Proof.
  unfold rendered. revert fuel out. induction its as [|[it drawn] its IH]; intros fuel out Hok Hf; simpl in *;
    (destruct fuel as [|fuel]; [lia|]).
  - simpl. by rewrite app_nil_r.
  - apply Forall_cons in Hok as [Hit Hok]. rewrite decode_item by done. rewrite IH by (done || lia).
    by rewrite <- app_assoc.
Qed.

(* ------------------------------------------------------------------------ *)
(** ** The vote of a word *)

Definition tally (items : list Item) (g : Group) (word : list nat) : nat :=
  length (filter (fun i => vote face_covers atlas_covers items i = Some g) word).
Definition first_vote (items : list Item) (g : Group) (word : list nat) : option nat :=
  head (filter (fun i => vote face_covers atlas_covers items i = Some g) word).

Lemma first_vote_none items g word : first_vote items g word = None -> tally items g word = 0%nat.
Proof. unfold first_vote, tally. by destruct (filter _ word). Qed.

Fixpoint entry_of (g : Group) (counts : list (Group * nat * nat)) : option (nat * nat) :=
  match counts with
  | [] => None
  | (h, n, first) :: counts => if bool_decide (h = g) then Some (n, first) else entry_of g counts
  end.

Lemma entry_of_count_in g i h counts :
  entry_of h (count_in g i counts) =
    if bool_decide (h = g)
    then Some (match entry_of g counts with Some (n, f) => (S n, f) | None => (1%nat, i) end)
    else entry_of h counts.
Proof.
  induction counts as [|[[c n] f] counts IH]; simpl.
  - by repeat case_bool_decide; subst.
  - repeat case_bool_decide; subst; simpl; repeat case_bool_decide; subst; try done.
Qed.

Definition groups_of (counts : list (Group * nat * nat)) : list Group := List.map (fun e => e.1.1) counts.

Lemma count_in_groups g i counts :
  groups_of (count_in g i counts) =
    if bool_decide (g ∈ groups_of counts) then groups_of counts else groups_of counts ++ [g].
Proof.
  unfold groups_of. induction counts as [|[[c n] f] counts IH]; simpl; [done|].
  destruct (decide (c = g)) as [->|Hc].
  - rewrite (bool_decide_true (g = g)) by done. simpl. by rewrite bool_decide_true by left.
  - rewrite (bool_decide_false (c = g)) by done. simpl. rewrite IH. case_bool_decide as Hg.
    + by rewrite bool_decide_true by (by right).
    + rewrite bool_decide_false; [done|]. by inversion 1.
Qed.

(** [counts] is a list of the groups that vote, each once, with the tally and the
    first of its votes. *)
Definition counted (items : list Item) (word : list nat) (counts : list (Group * nat * nat)) : Prop :=
  NoDup (groups_of counts)
  /\ forall g, entry_of g counts =
       (fun first => (tally items g word, first)) <$> first_vote items g word.

Lemma word_counts_snoc items word i :
  word_counts face_covers atlas_covers items (word ++ [i]) =
    match vote face_covers atlas_covers items i with
    | Some g => count_in g i (word_counts face_covers atlas_covers items word)
    | None => word_counts face_covers atlas_covers items word
    end.
Proof. unfold word_counts. by rewrite fold_left_app. Qed.

Lemma head_app_or {A} (l k : list A) : head (l ++ k) = match head l with Some x => Some x | None => head k end.
Proof. by destruct l. Qed.

Lemma word_counts_counted items word : counted items word (word_counts face_covers atlas_covers items word).
Proof.
  induction word as [|i word [Hnd He]] using rev_ind.
  { split; [constructor|done]. }
  rewrite word_counts_snoc. unfold counted, tally, first_vote in *.
  destruct (vote face_covers atlas_covers items i) as [g|] eqn:Hv.
  - split.
    + rewrite count_in_groups. case_bool_decide as Hin; [done|].
      apply NoDup_app. split_and!; [done| |apply NoDup_singleton].
      intros h Hh ->%list_elem_of_singleton. done.
    + intros h. rewrite entry_of_count_in, filter_app, !He, head_app_or, filter_cons, Hv.
      case_bool_decide as Hh; [subst; rewrite decide_True by done|rewrite decide_False by naive_solver].
      * rewrite filter_nil. destruct (filter _ word) as [|j js] eqn:Hf; simpl; [done|].
        rewrite length_app. simpl. do 3 f_equal. lia.
      * rewrite filter_nil, app_nil_r. by destruct (filter _ word).
  - split; [done|]. intros h. rewrite filter_app, filter_cons, Hv, decide_False by done.
    by rewrite filter_nil, app_nil_r.
Qed.

Lemma entry_of_elem g n f counts :
  NoDup (groups_of counts) -> (g, n, f) ∈ counts <-> entry_of g counts = Some (n, f).
Proof.
  unfold groups_of. induction counts as [|[[c m] e] counts IH]; simpl; intros Hnd.
  - split; [by inversion 1|done].
  - apply NoDup_cons in Hnd as [Hc Hnd]. rewrite elem_of_cons, IH by done.
    case_bool_decide as Hg; [|naive_solver]. subst. split; [|naive_solver].
    intros [[= <- <-]|He]; [done|]. exfalso. apply Hc.
    apply IH in He; [|done]. by apply (list_elem_of_fmap_2 (fun e : Group * nat * nat => e.1.1)) in He.
Qed.

(** [a] won over [b]: more votes, or as many and an earlier first one. *)
Definition beats (a b : Group * nat * nat) : Prop :=
  (b.1.2 < a.1.2)%nat \/ (a.1.2 = b.1.2 /\ (a.2 <= b.2)%nat).

Lemma max_by_spec l best :
  max_by l = Some best -> best ∈ l /\ forall e, e ∈ l -> beats best e.
Proof.
  assert (forall l b, (max_by_from b l = b \/ max_by_from b l ∈ l) /\ beats (max_by_from b l) b
            /\ forall e, e ∈ l -> beats (max_by_from b l) e) as Hfrom.
  { clear. induction l as [|x l IH]; intros b; simpl.
    - split_and!; [by left|right; lia|by inversion 1].
    - set (m := match survivor_cmp b x with Gt => b | _ => x end).
      assert ((m = b \/ m = x) /\ beats m b /\ beats m x) as (Hm & Hb & Hx).
      { unfold m, survivor_cmp, beats. destruct (Nat.compare_spec b.1.2 x.1.2);
          [destruct (Nat.compare_spec x.2 b.2)|..]; (split; [tauto|lia]). }
      destruct (IH m) as (Hin & Hmm & Hl). unfold beats in *. split_and!; [|lia|].
      + destruct Hin as [-> |]; [destruct Hm as [-> | ->]; [by left|right; by left]|right; by right].
      + intros e [-> |He]%elem_of_cons; [lia|by apply Hl]. }
  destruct l as [|x l]; simpl; [done|]. intros [= <-]. destruct (Hfrom l x) as (Hin & Hx & Hl). split.
  - destruct Hin as [-> |]; [by left|by right].
  - intros e [-> |He]%elem_of_cons; [done|by apply Hl].
Qed.

Lemma vector_group c g : route face_covers atlas_covers c = Vector -> group_of c = Some g -> g <> Japanese.
Proof.
  unfold route. case_bool_decide; [done|]. case_match; [done|]. cbv zeta.
  destruct (_ && face_covers c) eqn:Hv; [|case_match; done]. intros _ Hg ->.
  apply andb_prop in Hv as [Hv _]. revert Hg. unfold group_of.
  repeat (case_match; [done|]). case_match; [|done]. unfold between in *. unbool. intros _. lia.
Qed.

Lemma vote_scalar items i g : vote face_covers atlas_covers items i = Some g <->
  exists c, items !! i = Some (Scalar c) /\ route face_covers atlas_covers c = Vector /\ group_of c = Some g.
Proof.
  unfold vote. destruct (items !! i) as [[c|]|]; [|naive_solver|naive_solver].
  case_bool_decide; naive_solver.
Qed.

Lemma counts_group items word g :
  g ∈ groups_of (word_counts face_covers atlas_covers items word) <->
  exists i, i ∈ word /\ vote face_covers atlas_covers items i = Some g.
Proof.
  destruct (word_counts_counted items word) as [Hnd He]. specialize (He g).
  unfold first_vote in He. set (counts := word_counts _ _ items word) in *.
  assert (g ∈ groups_of counts <-> is_Some (entry_of g counts)) as ->.
  { clear. unfold groups_of. induction counts as [|[[c n] f] counts IH]; simpl.
    - split; [by inversion 1|by intros [? ?]].
    - rewrite elem_of_cons, IH. case_bool_decide; subst; [naive_solver|]. naive_solver. }
  rewrite He. destruct (filter _ word) as [|i l] eqn:Hf; simpl.
  - split; [by intros [? ?]|]. intros (i & Hi & Hv).
    assert (i ∈ filter (fun i => vote face_covers atlas_covers items i = Some g) word) as Hin
      by (by apply list_elem_of_filter).
    rewrite Hf in Hin. by inversion Hin.
  - split; [|done]. intros _. exists i.
    assert (i ∈ filter (fun i => vote face_covers atlas_covers items i = Some g) word) as [? ?]%list_elem_of_filter
      by (rewrite Hf; by left). done.
Qed.

(** What [survivor] decides: nothing when the word votes for one group at most,
    the group with most votes otherwise. *)
Lemma survivor_spec items word :
  match survivor (word_counts face_covers atlas_covers items word) with
  | None => forall i j g h, i ∈ word -> j ∈ word -> vote face_covers atlas_covers items i = Some g ->
      vote face_covers atlas_covers items j = Some h -> g = h
  | Some s => (exists i, i ∈ word /\ vote face_covers atlas_covers items i = Some s)
      /\ forall g, (tally items g word < tally items s word)%nat
           \/ (tally items g word = tally items s word
               /\ (first_vote items g word = None \/
                   exists a b, first_vote items s word = Some a /\ first_vote items g word = Some b /\ (a <= b)%nat))
  end.
Proof.
  pose proof (counts_group items word) as Hgs. destruct (word_counts_counted items word) as [Hnd He].
  set (counts := word_counts _ _ items word) in *. unfold survivor. fold (groups_of counts).
  pose proof (merge_sort_Permutation group_le (groups_of counts)) as Hp.
  destruct (permitted _) eqn:Hperm.
  - intros i j g h Hi Hj Hg Hh.
    assert (g ∈ merge_sort group_le (groups_of counts) /\ h ∈ merge_sort group_le (groups_of counts)) as [Hgi Hhi].
    { rewrite Hp. split; apply Hgs; eauto. }
    apply vote_scalar in Hg as (? & _ & Hr & Hg). apply vote_scalar in Hh as (? & _ & Hr' & Hh).
    pose proof (vector_group _ _ Hr Hg). pose proof (vector_group _ _ Hr' Hh).
    unfold permitted in Hperm. repeat case_match; try done; subst; rewrite ?elem_of_cons, ?elem_of_nil in *; naive_solver.
  - destruct (max_by counts) as [best|] eqn:Hb; simpl.
    + apply max_by_spec in Hb as [Hin Hbeats]. destruct best as [[s n] f]. simpl.
      pose proof Hin as Hs. apply entry_of_elem in Hs; [|done]. rewrite He in Hs.
      apply fmap_Some in Hs as (f' & Hf & [= -> ->]).
      split; [apply Hgs; by apply (list_elem_of_fmap_2 (fun e : Group * nat * nat => e.1.1)) in Hin|].
      intros g. pose proof (He g) as Heg. destruct (first_vote items g word) as [b|] eqn:Hfg; simpl in Heg.
      * apply entry_of_elem in Heg; [|done]. apply Hbeats in Heg. unfold beats in Heg. simpl in Heg.
        destruct Heg as [|[Ht Hle]]; [by left|]. right. split; [done|]. right. eauto.
      * assert (tally items g word = 0%nat) as ->
          by (by apply first_vote_none).
        destruct (tally items s word) as [|k]; [|left; lia]. right. split; [done|by left].
    + by destruct counts.
Qed.

(* ------------------------------------------------------------------------ *)
(** ** The words of a name *)

Definition sep_at (items : list Item) (i : nat) : bool :=
  match items !! i with Some it => is_separator it | None => true end.
(** [from, to) is a word: no separator in it, and none could be added. *)
Definition is_word (items : list Item) (from to : nat) : Prop :=
  (forall i, from <= i < to -> sep_at items i = false)%nat
  /\ (from = 0%nat \/ sep_at items (from - 1) = true) /\ sep_at items to = true.

Lemma settle_fold_length (items : list Item) kept word d :
  length (fold_left (fun drawable j => match items !! j with
     | Some (Scalar c) => <[j:=drawn_in_word face_covers atlas_covers kept c]> drawable
     | _ => drawable end) word d) = length d.
Proof.
  revert d. induction word as [|j word IH]; intros d; simpl; [done|]. rewrite IH.
  by destruct (items !! j) as [[]|]; rewrite ?length_insert.
Qed.

Lemma settle_lookup items word d i :
  settle face_covers atlas_covers items word d !! i =
    match items !! i with
    | Some (Scalar c) =>
        if decide (i ∈ word /\ (i < length d)%nat)
        then Some (drawn_in_word face_covers atlas_covers
                     (survivor (word_counts face_covers atlas_covers items word)) c)
        else d !! i
    | _ => d !! i
    end.
Proof.
  unfold settle. generalize (survivor (word_counts face_covers atlas_covers items word)). intros kept. revert d.
  induction word as [|k word IH] using rev_ind; intros d; simpl.
  { by destruct (items !! i) as [[c|]|]. }
  rewrite fold_left_app. simpl. specialize (IH d).
  pose proof (settle_fold_length items kept word d) as Hlen.
  set (d1 := fold_left _ word d) in *. destruct (decide (k = i)) as [->|Hki].
  - destruct (items !! i) as [[c|]|] eqn:Hi; [|done..]. destruct (decide (i < length d)%nat) as [Hl|Hl].
    + rewrite list_lookup_insert_eq by lia. rewrite decide_True; [done|]. split; [set_solver|done].
    + rewrite list_insert_ge, IH by lia. by rewrite !decide_False by tauto.
  - assert ((match items !! k with Some (Scalar c) => <[k:=drawn_in_word face_covers atlas_covers kept c]> d1
             | _ => d1 end) !! i = d1 !! i) as ->.
    { destruct (items !! k) as [[c|]|]; [|done..]. by rewrite list_lookup_insert_ne. }
    rewrite IH. destruct (items !! i) as [[c|]|]; try done.
    destruct (decide (i ∈ word /\ (i < length d)%nat)) as [[Hw Hl]|Hn].
    + rewrite decide_True; [done|]. split; [set_solver|done].
    + rewrite decide_False; [done|]. intros [[Hw|Hw]%elem_of_app Hl]; [by apply Hn|]. set_solver.
Qed.

Lemma settle_length items word d : length (settle face_covers atlas_covers items word d) = length d.
Proof. apply settle_fold_length. Qed.

(** The fate of one item, by the word it is in. *)
Definition settled (items : list Item) (d : list bool) (i : nat) : Prop :=
  match items !! i with
  | Some (RawByte _) => d !! i = Some false
  | Some (Scalar c) =>
      if is_word_separator c then d !! i = Some (bool_decide (route face_covers atlas_covers c = Vector))
      else exists from to, is_word items from to /\ (from <= i < to)%nat
        /\ d !! i = Some (drawn_in_word face_covers atlas_covers
                            (survivor (word_counts face_covers atlas_covers items (seq from (to - from)))) c)
  | None => True
  end.

(** Where the loop stands before index [n]. *)
Definition vote_inv (items : list Item) (n : nat) (s : list nat * list bool) : Prop :=
  exists from, (from <= n)%nat /\ s.1 = seq from (n - from) /\ length s.2 = length items
    /\ (forall i, from <= i < n -> sep_at items i = false)%nat
    /\ (from = 0%nat \/ sep_at items (from - 1) = true)
    /\ (forall i, (i < from)%nat -> settled items s.2 i)
    /\ (forall i, (from <= i < length items)%nat -> s.2 !! i = Some false).

(** Settling the word that ends at [n]. *)
Lemma settle_inv items n from d :
  (from <= n)%nat -> (n <= length items)%nat -> length d = length items ->
  (forall i, from <= i < n -> sep_at items i = false)%nat ->
  (from = 0%nat \/ sep_at items (from - 1) = true) -> sep_at items n = true ->
  (forall i, (i < from)%nat -> settled items d i) ->
  (forall i, (from <= i < length items)%nat -> d !! i = Some false) ->
  let d' := settle face_covers atlas_covers items (seq from (n - from)) d in
  (forall i, (i < n)%nat -> settled items d' i)
  /\ (forall i, (n <= i < length items)%nat -> d' !! i = Some false).
Proof.
  intros Hfn Hnl Hlen Hword Hfrom Hto Hdone Hrest d'. split.
  - intros i Hi. destruct (decide (i < from)%nat) as [Hlt|Hge].
    + specialize (Hdone i Hlt). unfold settled, d' in *. rewrite settle_lookup.
      destruct (items !! i) as [[c|]|]; try done.
      rewrite decide_False; [done|]. rewrite elem_of_seq. lia.
    + unfold settled, d'. pose proof (Hword i ltac:(lia)) as Hi'. unfold sep_at in Hi'. rewrite settle_lookup.
      destruct (items !! i) as [[c|]|] eqn:Hit; [|done..]. simpl in Hi'. rewrite Hi'.
      exists from, n. split_and!; [done|lia|lia|].
      rewrite decide_True; [done|]. rewrite elem_of_seq. lia.
  - intros i Hi. unfold d'. rewrite settle_lookup. destruct (items !! i) as [[c|]|]; [|apply Hrest; lia..].
    rewrite decide_False; [apply Hrest; lia|]. rewrite elem_of_seq. lia.
Qed.

Lemma vote_step_inv items n s :
  (n < length items)%nat -> vote_inv items n s ->
  vote_inv items (S n) (vote_step face_covers atlas_covers items s n).
Proof.
  destruct s as [word d]. intros Hn (from & Hfn & Hw & Hlen & Hword & Hfrom & Hdone & Hrest). simpl in *. subst word.
  unfold vote_step. destruct (items !! n) as [it|] eqn:Hit; [|apply lookup_ge_None in Hit; lia].
  destruct (is_separator it) eqn:Hsep.
  - assert (sep_at items n = true) as Hto by (unfold sep_at; by rewrite Hit).
    destruct (settle_inv items n from d) as [Hd' Hr']; [done|lia|done..|].
    set (d1 := settle _ _ items _ d) in *. assert (length d1 = length items) as Hl1 by (by apply (eq_trans (settle_length _ _ _))).
    exists (S n). simpl. rewrite Nat.sub_diag, Nat.sub_0_r.
    split_and!; [lia|done| |intros; lia|by right| |].
    + destruct it; rewrite ?length_insert; done.
    + intros i Hi. destruct (decide (i = n)) as [->|Hin].
      * unfold settled. rewrite Hit. destruct it as [c|b]; simpl in *; [|apply Hr'; lia].
        rewrite Hsep. by rewrite list_lookup_insert_eq by lia.
      * specialize (Hd' i ltac:(lia)). unfold settled in *. destruct it as [c|b]; [|done].
        rewrite list_lookup_insert_ne by done. done.
    + intros i Hi. destruct it as [c|b]; [|apply Hr'; lia].
      rewrite list_lookup_insert_ne by lia. apply Hr'; lia.
  - exists from. simpl. split_and!; [lia| |done| |done|done|done].
    + replace (S n - from)%nat with (S (n - from)) by lia. rewrite seq_S. do 2 f_equal. lia.
    + intros i Hi. destruct (decide (i = n)) as [->|]; [|apply Hword; lia]. unfold sep_at. by rewrite Hit.
Qed.

Lemma drawable_settled items :
  length (drawable_of face_covers atlas_covers items) = length items
  /\ forall i, settled items (drawable_of face_covers atlas_covers items) i.
Proof.
  assert (forall n, (n <= length items)%nat -> vote_inv items n
    (fold_left (vote_step face_covers atlas_covers items) (seq 0 n) ([], replicate (length items) false))) as Hinv.
  { induction n as [|n IH]; intros Hn.
    - exists 0%nat. simpl. split_and!; [lia|done|apply length_replicate|intros; lia|by left|intros; lia|].
      intros i Hi. apply lookup_replicate. split; [done|lia].
    - rewrite seq_S, fold_left_app. simpl. apply vote_step_inv; [lia|]. apply IH. lia. }
  specialize (Hinv _ (Nat.le_refl _)). unfold drawable_of.
  destruct (fold_left _ _ _) as [word d]. destruct Hinv as (from & Hfn & Hw & Hlen & Hword & Hfrom & Hdone & Hrest).
  simpl in *. subst word. split; [by rewrite settle_length|].
  assert (sep_at items (length items) = true) as Hto by (unfold sep_at; by rewrite lookup_ge_None_2).
  destruct (settle_inv items (length items) from d) as [Hd' _]; [done|lia|done..|].
  intros i. destruct (decide (i < length items)%nat) as [Hi|Hi]; [by apply Hd'|].
  unfold settled. by rewrite lookup_ge_None_2 by lia.
Qed.

Lemma is_word_unique items a b c d i :
  is_word items a b -> is_word items c d -> (a <= i < b)%nat -> (c <= i < d)%nat -> a = c /\ b = d.
Proof.
  intros (Hab & Ha & Hb) (Hcd & Hc & Hd) Hi Hi'. split.
  - destruct (Nat.lt_trichotomy a c) as [Hlt|[|Hlt]]; [|done|].
    + destruct Hc as [|Hc]; [lia|]. rewrite Hab in Hc; [done|lia].
    + destruct Ha as [|Ha]; [lia|]. rewrite Hcd in Ha; [done|lia].
  - destruct (Nat.lt_trichotomy b d) as [Hlt|[|Hlt]]; [|done|].
    + rewrite Hcd in Hb; [done|lia].
    + rewrite Hab in Hd; [done|lia].
Qed.

(** In a word, what is drawn is decided by the word's survivor. *)
Lemma drawn_in items from to i c :
  is_word items from to -> (from <= i < to)%nat -> items !! i = Some (Scalar c) ->
  drawable_of face_covers atlas_covers items !! i =
    Some (drawn_in_word face_covers atlas_covers
            (survivor (word_counts face_covers atlas_covers items (seq from (to - from)))) c).
Proof.
  intros Hw Hi Hit. destruct (drawable_settled items) as [_ Hs]. specialize (Hs i). unfold settled in Hs.
  rewrite Hit in Hs. pose proof (proj1 Hw i Hi) as Hsep. unfold sep_at in Hsep. rewrite Hit in Hsep. simpl in Hsep.
  rewrite Hsep in Hs. destruct Hs as (f & t & Hw' & Hi' & Hd).
  by destruct (is_word_unique items from to f t i) as [-> ->].
Qed.

Lemma drawn_vector items i :
  drawable_of face_covers atlas_covers items !! i = Some true ->
  exists c, items !! i = Some (Scalar c) /\ route face_covers atlas_covers c = Vector.
Proof.
  intros Hd. destruct (drawable_settled items) as [Hlen Hs]. specialize (Hs i). unfold settled in Hs.
  apply lookup_lt_Some in Hd as Hi. rewrite Hlen in Hi. apply lookup_lt_is_Some in Hi as [it Hit]. rewrite Hit in Hs.
  destruct it as [c|b]; [|congruence]. exists c. split; [done|]. destruct (is_word_separator c).
  - rewrite Hs in Hd. injection Hd as Hd. by apply bool_decide_eq_true in Hd.
  - destruct Hs as (? & ? & _ & _ & Hs). rewrite Hs in Hd. injection Hd as Hd. unfold drawn_in_word in Hd.
    apply andb_prop in Hd as [Hd _]. by apply bool_decide_eq_true in Hd.
Qed.

Lemma group_insert_elem g h l : h ∈ group_insert g l <-> h = g \/ h ∈ l.
Proof.
  induction l as [|k l IH]; simpl; [rewrite list_elem_of_singleton; set_solver|].
  case_bool_decide as Hg; [subst; rewrite elem_of_cons; naive_solver|].
  case_match; rewrite !elem_of_cons, ?IH; naive_solver.
Qed.

Lemma encode_groups_from its t g :
  Forall (fun it => it.2 = true -> exists c, it.1 = Scalar c) its ->
  g ∈ tr_groups (fold_left push_step its t) <->
  g ∈ tr_groups t \/ exists c, (Scalar c, true) ∈ its /\ group_of c = Some g.
Proof.
  revert t. induction its as [|[it drawn] its IH]; intros t; simpl.
  - intros _. split; [by left|]. intros [|(c & Hin & _)]; [done|]. inversion Hin.
  - intros [Hit Hits]%Forall_cons. rewrite IH by done. clear IH. unfold push_step. cbn [fst snd].
    destruct (push_item it drawn) as [pushed class]. cbn [tr_groups]. simpl in Hit.
    transitivity ((g ∈ tr_groups t \/ exists c, it = Scalar c /\ drawn = true /\ group_of c = Some g)
                  \/ exists c, (Scalar c, true) ∈ its /\ group_of c = Some g).
    + f_equiv. destruct it as [c|b]; [destruct drawn|]; [|naive_solver..].
      destruct (c =? SIGIL) eqn:Hs.
      * apply Z.eqb_eq in Hs as ->. split; [by left|]. intros [|(? & [= <-] & _ & Hg)]; done.
      * destruct (group_of c) as [h|] eqn:Hg; [rewrite group_insert_elem|]; naive_solver.
    + setoid_rewrite elem_of_cons. naive_solver.
Qed.

Lemma zip_drawn items g :
  (exists c, (Scalar c, true) ∈ zip items (drawable_of face_covers atlas_covers items) /\ group_of c = Some g) <->
  exists i, drawable_of face_covers atlas_covers items !! i = Some true
    /\ vote face_covers atlas_covers items i = Some g.
Proof.
  split.
  - intros (c & Hin & Hg). apply list_elem_of_lookup_1 in Hin as [i Hi].
    apply lookup_zip_with_Some in Hi as (it & d & [= <- <-] & Hit & Hd). exists i. split; [done|].
    apply vote_scalar. destruct (drawn_vector items i Hd) as (c' & Hc' & Hr). rewrite Hit in Hc'. injection Hc' as <-. eauto.
  - intros (i & Hd & Hv). apply vote_scalar in Hv as (c & Hit & Hr & Hg). exists c. split; [|done].
    apply list_elem_of_lookup. exists i. apply lookup_zip_with_Some. eauto.
Qed.

Lemma in_seq from to i : i ∈ seq from (to - from) <-> (from <= i < to)%nat.
Proof. rewrite elem_of_seq. lia. Qed.

Lemma word_around items i : sep_at items i = false -> exists from to, is_word items from to /\ (from <= i < to)%nat.
Proof.
  unfold sep_at. intros Hsep. destruct (items !! i) as [[c|b]|] eqn:Hit; [|done..].
  destruct (drawable_settled items) as [_ Hs]. specialize (Hs i). unfold settled in Hs. rewrite Hit in Hs.
  simpl in Hsep. rewrite Hsep in Hs. naive_solver.
Qed.

Lemma word_drawn_group items from to i j g h :
  is_word items from to -> (from <= i < to)%nat -> (from <= j < to)%nat ->
  drawable_of face_covers atlas_covers items !! i = Some true ->
  drawable_of face_covers atlas_covers items !! j = Some true ->
  vote face_covers atlas_covers items i = Some g -> vote face_covers atlas_covers items j = Some h -> g = h.
Proof.
  intros Hw Hi Hj Hdi Hdj Hvi Hvj. pose proof (survivor_spec items (seq from (to - from))) as Hsv.
  apply vote_scalar in Hvi as (c & Hci & Hri & Hgi). apply vote_scalar in Hvj as (c' & Hcj & Hrj & Hgj).
  rewrite (drawn_in items from to i c) in Hdi by done. rewrite (drawn_in items from to j c') in Hdj by done.
  destruct (survivor _) as [s|].
  - unfold drawn_in_word in *. rewrite Hgi in Hdi. rewrite Hgj in Hdj.
    injection Hdi as [_ ->%bool_decide_eq_true]%andb_prop. by injection Hdj as [_ ->%bool_decide_eq_true]%andb_prop.
  - apply (Hsv i j); [by apply in_seq..| |]; apply vote_scalar; eauto.
Qed.

Lemma word_escaped_minority items from to i c :
  is_word items from to -> (from <= i < to)%nat -> items !! i = Some (Scalar c) ->
  route face_covers atlas_covers c = Vector ->
  drawable_of face_covers atlas_covers items !! i = Some false ->
  exists g s, group_of c = Some g /\ s <> g
    /\ (tally items g (seq from (to - from)) <= tally items s (seq from (to - from)))%nat
    /\ exists j, (from <= j < to)%nat /\ vote face_covers atlas_covers items j = Some s
         /\ drawable_of face_covers atlas_covers items !! j = Some true.
Proof.
  intros Hw Hi Hc Hr Hd. pose proof (survivor_spec items (seq from (to - from))) as Hsv.
  rewrite (drawn_in items from to i c) in Hd by done.
  destruct (survivor _) as [s|] eqn:Hs; unfold drawn_in_word in Hd; rewrite bool_decide_true in Hd by done; [|done].
  destruct (group_of c) as [g|] eqn:Hg; [|done]. injection Hd as Hne%bool_decide_eq_false.
  destruct Hsv as [(j & Hj & Hvj) Ht]. exists g, s. split_and!; [done|congruence| |].
  - destruct (Ht g) as [|[]]; lia.
  - exists j. apply in_seq in Hj. split; [done|]. split; [done|]. apply vote_scalar in Hvj as (c' & Hc' & Hr' & Hg').
    rewrite (drawn_in items from to j c'), Hs by done. unfold drawn_in_word. rewrite Hg'.
    by rewrite !bool_decide_true by done.
Qed.

(** No word of a file name is shown in two scripts. What is shown is the
    items of the name, each drawn as itself or transcribed; only a character of
    the embedded face that is neither a control, an invisible nor a
    look-alike is drawn; and within one word - the items between two separators,
    and every item is in one - the characters drawn are of one script at most.
    Nothing more is transcribed than that takes: a character the face has
    gives way only to a script of its own word with at least as many characters in it,
    which is drawn. The scripts named beside the row are those of the
    characters drawn. *)
Theorem transcript_one_script (name : Bytes) :
  let items := items_of name in
  let drawn := drawable_of face_covers atlas_covers items in
  let shown := encode face_covers atlas_covers name in
  tr_text shown = rendered (zip items drawn)
  /\ (forall i, drawn !! i = Some true ->
        exists c, items !! i = Some (Scalar c) /\ route face_covers atlas_covers c = Vector)
  /\ (forall g, g ∈ tr_groups shown <->
        exists i, drawn !! i = Some true /\ vote face_covers atlas_covers items i = Some g)
  /\ (forall i, sep_at items i = false -> exists from to, is_word items from to /\ (from <= i < to)%nat)
  /\ forall from to, is_word items from to ->
      (forall i j g h, (from <= i < to)%nat -> (from <= j < to)%nat ->
         drawn !! i = Some true -> drawn !! j = Some true ->
         vote face_covers atlas_covers items i = Some g -> vote face_covers atlas_covers items j = Some h -> g = h)
      /\ forall i c, (from <= i < to)%nat -> items !! i = Some (Scalar c) ->
           route face_covers atlas_covers c = Vector -> drawn !! i = Some false ->
           exists g s, group_of c = Some g /\ s <> g
             /\ (tally items g (seq from (to - from)) <= tally items s (seq from (to - from)))%nat
             /\ exists j, (from <= j < to)%nat /\ vote face_covers atlas_covers items j = Some s
                  /\ drawn !! j = Some true.
Proof.
  intros items drawn shown. split_and!.
  - unfold shown, encode. by rewrite encode_text_from.
  - apply drawn_vector.
  - intros g. unfold shown, encode. fold items drawn. rewrite encode_groups_from; cbn [tr_groups].
    + unfold drawn. rewrite zip_drawn. split; [|by right]. intros [Hg|]; [by inversion Hg|done].
    + apply Forall_lookup_2. intros i [it d] Hi. apply lookup_zip_with_Some in Hi as (? & ? & [= -> ->] & Hit & Hd).
      simpl. intros ->. apply drawn_vector in Hd as (c & Hc & _). exists c. congruence.
  - apply word_around.
  - intros from to Hw. split; [intros i j g h; by apply word_drawn_group|intros i c; by apply word_escaped_minority].
Qed.

Lemma transcript_decodes (name : Bytes) :
  is_bytes name -> decode (tr_text (encode face_covers atlas_covers name)) = Some name.
Proof.
  intros Hn. unfold encode. rewrite encode_text_from. cbn [tr_text app].
  destruct (drawable_settled (items_of name)) as [Hlen _].
  assert (List.map fst (zip (items_of name) (drawable_of face_covers atlas_covers (items_of name))) = items_of name) as Hfst
    by (apply fst_zip; lia).
  unfold decode. rewrite decode_rendered.
  - rewrite Hfst. by rewrite items_of_bytes.
  - rewrite Hfst. by apply items_of_ok.
  - pose proof (rendered_length (zip (items_of name) (drawable_of face_covers atlas_covers (items_of name)))). lia.
Qed.

(** C26: two file names are never shown alike. Whatever bytes a name holds,
    decoding what is shown gives the name back; so names shown with one text are
    one name. *)
Theorem transcript_roundtrip (name : Bytes) (Hname : is_bytes name) :
  decode (tr_text (encode face_covers atlas_covers name)) = Some name
  /\ forall other, is_bytes other ->
       tr_text (encode face_covers atlas_covers other) = tr_text (encode face_covers atlas_covers name) -> other = name.
Proof.
  split; [by apply transcript_decodes|]. intros other Ho Heq. apply (inj Some).
  by rewrite <- (transcript_decodes other), <- (transcript_decodes name), Heq.
Qed.

(* ------------------------------------------------------------------------ *)
(** ** Runs *)

(** The ranges of consecutive pieces of text. *)
Fixpoint offsets (start : Z) (pieces : list (Str * Class)) : list (Z * Z * Class) :=
  match pieces with
  | [] => []
  | (s, c) :: pieces => (start, start + str_len s, c) :: offsets (start + str_len s) pieces
  end.
Definition pieces_text (pieces : list (Str * Class)) : Str := concat (List.map fst pieces).

Definition piece_ok (p : Str * Class) : Prop :=
  p.1 <> [] /\
  match p.2 with
  | Ascii => Forall (fun c => c < 128 /\ c <> SIGIL /\ route face_covers atlas_covers c = Vector) p.1
  | Native => Forall (fun c => 128 <= c /\ route face_covers atlas_covers c = Vector) p.1
  | Escaped => Forall (fun c => 0 <= c < 128) p.1 /\ head p.1 = Some SIGIL
  end.

(** No two neighbours are of one class. *)
Fixpoint alternating (pieces : list (Str * Class)) : Prop :=
  match pieces with
  | p :: (q :: _) as rest => p.2 <> q.2 /\ alternating rest
  | _ => True
  end.

Lemma offsets_app start ps qs :
  offsets start (ps ++ qs) = offsets start ps ++ offsets (start + str_len (pieces_text ps)) qs.
Proof.
  revert start. induction ps as [|[s c] ps IH]; intros start; simpl.
  - by rewrite Z.add_0_r.
  - rewrite IH. unfold pieces_text. simpl. rewrite str_len_app. by rewrite Z.add_assoc.
Qed.

Lemma alternating_snoc ps p :
  alternating (ps ++ [p]) <-> alternating ps /\ (forall q, last ps = Some q -> q.2 <> p.2).
Proof.
  induction ps as [|a ps IH]; simpl; [naive_solver|]. destruct ps as [|b ps]; simpl in *; [naive_solver|].
  rewrite IH. simpl. naive_solver.
Qed.

Lemma push_run_pieces ps s class :
  exists ps', push_run (str_len (pieces_text ps)) (str_len (pieces_text ps ++ s)) class (offsets 0 ps) = offsets 0 ps'
    /\ pieces_text ps' = pieces_text ps ++ s
    /\ (Forall piece_ok ps -> piece_ok (s, class) -> Forall piece_ok ps')
    /\ (alternating ps -> alternating ps').
Proof.
  unfold push_run. destruct ps as [|[t c] ps] using rev_ind; [|clear IHps].
  - exists [(s, class)]. simpl. unfold pieces_text. simpl. rewrite app_nil_r. by split_and!; auto.
  - rewrite offsets_app, last_app, length_app. cbn [offsets last length].
    assert (pieces_text (ps ++ [(t, c)]) = pieces_text ps ++ t) as Ht.
    { unfold pieces_text. rewrite List.map_app, concat_app. simpl. by rewrite app_nil_r. }
    rewrite !Ht, <- app_assoc. case_bool_decide as Hc; [subst c|].
    + exists (ps ++ [(t ++ s, class)]). rewrite offsets_app, take_app_le, take_ge by lia. split_and!.
      * cbn [offsets]. by rewrite !str_len_app, !Z.add_assoc.
      * unfold pieces_text. rewrite List.map_app, concat_app. simpl. by rewrite app_nil_r.
      * intros [Hps [Hp _]%Forall_cons]%Forall_app Hs. apply Forall_app. split; [done|]. constructor; [|constructor].
        destruct Hp as [Hne Hp], Hs as [_ Hs]. cbn [fst snd] in *. split; [by destruct t|].
        destruct class; cbn [fst snd]; [by apply Forall_app..|]. destruct Hp as [Hp Hh], Hs as [Hs _].
        split; [by apply Forall_app|]. by destruct t.
      * rewrite !alternating_snoc. naive_solver.
    + exists ((ps ++ [(t, c)]) ++ [(s, class)]). rewrite !offsets_app. cbn [offsets app]. split_and!.
      * by rewrite Ht, !Z.add_0_l, !str_len_app, !Z.add_assoc.
      * unfold pieces_text. rewrite !List.map_app, !concat_app. simpl. by rewrite !app_nil_r, app_assoc.
      * intros Hps Hs. apply Forall_app. split; [done|by constructor].
      * intros Ha. apply alternating_snoc. split; [done|]. rewrite last_snoc. by intros q [= <-].
Qed.

Lemma hex_pad_ascii n v : 0 <= v -> Forall (fun c => 0 <= c < 128) (hex_pad n v).
Proof.
  revert v. induction n as [|n IH]; intros v Hv; simpl; [constructor|].
  apply Forall_app. split; [apply IH; Utf8.zdiv|]. constructor; [|constructor].
  unfold hex_upper. case_match; unbool; Utf8.zdiv.
Qed.

Lemma push_item_piece it drawn :
  item_ok it -> (drawn = true -> exists c, it = Scalar c /\ route face_covers atlas_covers c = Vector) ->
  piece_ok (push_item it drawn).
Proof.
  intros Hok Hd. unfold push_item, piece_ok. destruct it as [c|b]; cbn [item_ok] in *.
  - destruct (Z.eqb_spec c SIGIL) as [|Hs]; [split; [done|]; split; [repeat constructor; done|done]|].
    destruct drawn.
    + destruct (Hd eq_refl) as (? & [= <-] & Hr).
      destruct (Z.ltb_spec c 128); (split; [done|]); cbn; repeat constructor; done.
    + assert (0 <= c) by (unfold is_char in Hok; lia).
      case_match; (split; [done|]); (split; [|done]); cbn [fst]; rewrite !Forall_app;
        split_and!; try (repeat constructor; done); by apply hex_pad_ascii.
  - unfold is_u8 in Hok. split; [done|]. split; [|done]. cbn [fst]. rewrite !Forall_app.
    split_and!; try (repeat constructor; done). apply hex_pad_ascii. lia.
Qed.

Lemma encode_runs_from its t ps :
  Forall (fun it => item_ok it.1 /\ (it.2 = true -> exists c, it.1 = Scalar c /\ route face_covers atlas_covers c = Vector)) its ->
  tr_text t = pieces_text ps -> tr_runs t = offsets 0 ps -> Forall piece_ok ps -> alternating ps ->
  exists ps', let t' := fold_left push_step its t in
    tr_text t' = pieces_text ps' /\ tr_runs t' = offsets 0 ps' /\ Forall piece_ok ps' /\ alternating ps'.
Proof.
  revert t ps. induction its as [|it its IH]; intros t ps Hits Ht Hr Hok Ha; simpl; [by exists ps|].
  apply Forall_cons in Hits as [[Hit Hd] Hits]. pose proof (push_item_piece it.1 it.2 Hit Hd) as Hp.
  destruct (push_item it.1 it.2) as [pushed class] eqn:Hpi.
  destruct (push_run_pieces ps pushed class) as (ps1 & Hr1 & Ht1 & Hok1 & Ha1).
  apply (IH _ ps1); [done| | |auto|auto]; unfold push_step; rewrite Hpi; cbn [tr_text tr_runs]; rewrite Ht.
  - done.
  - by rewrite Hr.
Qed.

(** The runs the renderer tints tile what is shown. The text falls into
    pieces, none empty and no two neighbours of one class, and the runs are their
    byte ranges in order, the first from 0 and the last to the end; a run marked as
    ASCII or native is of characters the face draws as themselves, on that side of
    the ASCII border and never the escape sign; a run marked as escaped begins
    with the sign and is ASCII. *)
Theorem transcript_runs_tile (name : Bytes) (Hname : is_bytes name) :
  let shown := encode face_covers atlas_covers name in
  exists pieces, tr_text shown = pieces_text pieces /\ tr_runs shown = offsets 0 pieces
    /\ Forall piece_ok pieces /\ alternating pieces.
Proof.
  apply (encode_runs_from _ _ []); [|done|done|constructor|done].
  apply Forall_lookup_2. intros i [it d] Hi. apply lookup_zip_with_Some in Hi as (? & ? & [= -> ->] & Hit & Hd). split.
  - pose proof (items_of_ok name Hname) as Hok. by eapply Forall_lookup_1 in Hok.
  - simpl. intros ->. apply drawn_vector in Hd as (c & Hc & Hr). exists c. split; [congruence|done].
Qed.
End properties.

(* ------------------------------------------------------------------------ *)
(** ** Concrete names *)

Definition ascii_latin_cyrillic (c : Z) : bool := between 32 126 c || between 161 591 c || between 1024 1279 c.
Definition no_atlas (_ : Z) : bool := false.
Definition show (name : Bytes) : Transcript := encode ascii_latin_cyrillic no_atlas name.

(** [resume.pdf] with a Cyrillic [e], and the same name spelling the escape out. *)
Definition spoofed : Bytes := Utf8.encode ([114; 1077] ++ str "sume.pdf").
Definition spelled : Bytes := Utf8.encode (str "r\u{0435}sume.pdf").

Example spoofed_shown : tr_text (show spoofed) = str "r\u{0435}sume.pdf" /\ tr_groups (show spoofed) = [Latin].
Proof. by vm_compute. Qed.
Example spelled_shown : tr_text (show spelled) = str "r\\u{0435}sume.pdf".
Proof. by vm_compute. Qed.
(** An override, a byte that is not text and a Cyrillic stem. *)
Example mixed_shown :
  tr_text (show ([128] ++ Utf8.encode [8238; 1086; 46; 116])) = str "\x{80}\u{202E}" ++ [1086] ++ str ".t"
  /\ tr_runs (show ([128] ++ Utf8.encode [8238; 1086; 46; 116])) = [(0, 14, Escaped); (14, 16, Native); (16, 18, Ascii)].
Proof. by vm_compute. Qed.
(** A Japanese name the atlas covers whole is transcribed all the same. *)
Example japanese_is_transcribed :
  tr_text (encode ascii_latin_cyrillic (fun _ => true) (Utf8.encode [35542; 25991])) = str "\u{8AD6}\u{6587}".
Proof. by vm_compute. Qed.

Lemma spoofed_bytes : is_bytes spoofed.
Proof.
  apply Utf8.encode_u8, List.Forall_forall. intros c Hc. apply is_charb_spec. revert c Hc.
  apply List.forallb_forall. by vm_compute.
Qed.

Lemma transcript_roundtrip_witness :
  tr_text (show spoofed) = str "r\u{0435}sume.pdf" /\ decode (tr_text (show spoofed)) = Some spoofed
  /\ tr_text (show spelled) <> tr_text (show spoofed).
Proof.
  destruct (transcript_roundtrip ascii_latin_cyrillic no_atlas spoofed spoofed_bytes) as [Hd _].
  split; [by vm_compute|]. split; [exact Hd|]. by vm_compute.
Defined.

Lemma transcript_runs_tile_witness :
  exists pieces, tr_runs (show spoofed) = offsets 0 pieces /\ tr_runs (show spoofed) = [(0, 1, Ascii); (1, 9, Escaped); (9, 17, Ascii)].
Proof.
  destruct (transcript_runs_tile ascii_latin_cyrillic no_atlas spoofed spoofed_bytes) as (pieces & _ & Hr & _).
  exists pieces. split; [exact Hr|]. by vm_compute.
Defined.
