(* ===== verification/Wire.v ===== *)
(** * The wire codec

    [crates/vitrin-protocol/src/wire.rs]: the 8-byte frame header, the scalar
    arguments and the length-prefixed, NUL-free, zero-padded string argument.
    Encoders append to an output buffer, [None] being their panic; decoders
    read a buffer at a cursor and return the value with the new cursor. *)

From S2P Require Import Prelude Text.

Definition HEADER_LEN : Z := 8.

Inductive DecodeError : Type :=
| Truncated (needed available : Z)
| InvalidUtf8
| EmbeddedNul
| StringTooLong (max actual : Z)
| MalformedPadding
| SizeMismatch (declared actual : Z)
| OpcodeMismatch (expected actual : Z)
| NullObject
| InvalidEnumValue (interface enum_name : Str) (value : Z)
| InvalidBitfieldValue (interface enum_name : Str) (value : Z)
| FdCountMismatch (expected actual : Z)
| TrailingBytes (consumed total : Z).

#[export] Instance DecodeError_eq_dec : EqDecision DecodeError.
Proof. solve_decision. Defined.

(** [Vec::len], [&bytes[a..b]]. *)
Definition blen (bs : Bytes) : Z := Z.of_nat (List.length bs).
Definition slice (bs : Bytes) (a b : Z) : Bytes :=
  take (Z.to_nat (b - a)) (drop (Z.to_nat a) bs).

(** [to_le_bytes] and [from_le_bytes]. *)
Fixpoint to_le (n : nat) (v : Z) : Bytes :=
  match n with O => [] | S n => v mod 256 :: to_le n (v / 256) end.
Fixpoint from_le (bs : Bytes) : Z :=
  match bs with [] => 0 | b :: bs => b + 256 * from_le bs end.

(** A two's complement reading, the [as i32] and [as u32] casts. *)
Definition as_i32 (v : Z) : Z := if v <? 2147483648 then v else v - 4294967296.
Definition as_u32 (v : Z) : Z := v mod 4294967296.

(** [usize::checked_add] on the 64-bit targets of the crate. *)
Definition usize_checked_add (a b : Z) : option Z :=
  if a + b <=? u64_max then Some (a + b) else None.

Record FrameHeader : Type := {
  object_id : Z;
  size : Z;
  opcode : Z;
  fd_count : Z }.

Definition header_decode (bytes : Bytes) : result FrameHeader DecodeError :=
  if blen bytes <? HEADER_LEN then Err (Truncated HEADER_LEN (blen bytes))
  else Ok {| object_id := from_le (slice bytes 0 4);
             size := from_le (slice bytes 4 6);
             opcode := from_le (slice bytes 6 7);
             fd_count := from_le (slice bytes 7 8) |}.

Definition encode_with_placeholder_size (h : FrameHeader) (out : Bytes) : Bytes :=
  out ++ to_le 4 (object_id h) ++ to_le 2 0 ++ [opcode h] ++ [fd_count h].

Definition patch_size (out : Bytes) : option Bytes :=
  if blen out <=? u16_max then
    if 6 <=? blen out then Some (take 4 out ++ to_le 2 (blen out) ++ drop 6 out)
    else None
  else None.

Definition write_uint (out : Bytes) (v : Z) : Bytes := out ++ to_le 4 v.
Definition write_int (out : Bytes) (v : Z) : Bytes := out ++ to_le 4 (as_u32 v).

Definition read_uint (bytes : Bytes) (pos : Z) : result (Z * Z) DecodeError :=
  let finish := pos + 4 in
  if blen bytes <? finish then Err (Truncated finish (blen bytes))
  else Ok (from_le (slice bytes pos finish), finish).
Definition read_int (bytes : Bytes) (pos : Z) : result (Z * Z) DecodeError :=
  let? (v, pos) := read_uint bytes pos in Ok (as_i32 v, pos).

Definition pad_len (len : Z) : Z := (4 - len mod 4) mod 4.

Definition write_string (out : Bytes) (s : Str) (max_bytes : Z) : option Bytes :=
  let bytes := Utf8.encode s in
  if blen bytes <=? max_bytes then
    Some (write_uint out (blen bytes) ++ bytes
          ++ repeat 0 (Z.to_nat (pad_len (blen bytes))))
  else None.

Definition read_string (bytes : Bytes) (pos max_bytes : Z)
    : result (Str * Z) DecodeError :=
  let? (len, pos) := read_uint bytes pos in
  if max_bytes <? len then Err (StringTooLong max_bytes len) else
  let? finish := ok_or (usize_checked_add pos len) (Truncated u64_max (blen bytes)) in
  if blen bytes <? finish then Err (Truncated finish (blen bytes)) else
  let raw := slice bytes pos finish in
  if existsb (Z.eqb 0) raw then Err EmbeddedNul else
  let? s := ok_or (Utf8.decode raw) InvalidUtf8 in
  let pos := finish in
  let? padded_end := ok_or (usize_checked_add pos (pad_len len))
                           (Truncated u64_max (blen bytes)) in
  if blen bytes <? padded_end then Err (Truncated padded_end (blen bytes)) else
  if existsb (fun b => negb (b =? 0)) (slice bytes pos padded_end)
  then Err MalformedPadding else
  Ok (s, padded_end).

(* ------------------------------------------------------------------------ *)
(** ** Buffers *)

Lemma blen_nonneg bs : 0 <= blen bs.
Proof. unfold blen. lia. Qed.

Lemma blen_app a b : blen (a ++ b) = blen a + blen b.
Proof. unfold blen. rewrite List.length_app. lia. Qed.

Lemma blen_slice bs a b : 0 <= a <= b -> b <= blen bs -> blen (slice bs a b) = b - a.
Proof. unfold blen, slice. intros. rewrite length_take, length_drop. lia. Qed.

(** The slice at the middle of a concatenation. *)
Lemma slice_mid pre mid suf a b :
  a = blen pre -> b = blen pre + blen mid -> slice (pre ++ mid ++ suf) a b = mid.
Proof.
  unfold slice, blen. intros -> ->. rewrite Nat2Z.id, drop_app_length.
  replace (Z.to_nat _) with (List.length mid) by lia. apply take_app_length.
Qed.

Lemma slice_app bs a b c :
  0 <= a <= b -> b <= c -> slice bs a b ++ slice bs b c = slice bs a c.
Proof.
  intros. unfold slice.
  replace (Z.to_nat (c - a)) with (Z.to_nat (b - a) + Z.to_nat (c - b))%nat by lia.
  replace (drop (Z.to_nat b) bs) with (drop (Z.to_nat (b - a)) (drop (Z.to_nat a) bs)).
  - by rewrite take_take_drop.
  - rewrite drop_drop. f_equal. lia.
Qed.

Lemma slice_u8 bs a b : is_bytes bs -> is_bytes (slice bs a b).
Proof. intros. by apply Forall_take, Forall_drop. Qed.

Lemma length_to_le n v : List.length (to_le n v) = n.
Proof. revert v. induction n; simpl; auto. Qed.

Lemma blen_to_le n v : blen (to_le n v) = Z.of_nat n.
Proof. unfold blen. by rewrite length_to_le. Qed.

Lemma from_to_le n v : 0 <= v < 256 ^ Z.of_nat n -> from_le (to_le n v) = v.
Proof.
  revert v. induction n as [|n IH]; intros v Hv; [simpl in *; lia|].
  rewrite Nat2Z.inj_succ, Z.pow_succ_r in Hv by lia. cbn [to_le from_le].
  rewrite IH; [|split; [apply Z.div_pos; lia|apply Z.div_lt_upper_bound; lia]].
  pose proof (Z.div_mod v 256). lia.
Qed.

Lemma to_from_le bs : is_bytes bs -> to_le (List.length bs) (from_le bs) = bs.
Proof.
  unfold is_bytes, is_u8, u8_max. induction 1 as [|b bs Hb Hbs IH]; [done|].
  cbn [List.length from_le to_le].
  replace ((b + 256 * from_le bs) mod 256) with b.
  - replace ((b + 256 * from_le bs) / 256) with (from_le bs); [by rewrite IH|].
    rewrite Z.mul_comm, Z.div_add, Z.div_small by lia. lia.
  - rewrite Z.mul_comm, Z.mod_add, Z.mod_small by lia. done.
Qed.

Lemma from_le_bound bs : is_bytes bs -> 0 <= from_le bs < 256 ^ blen bs.
Proof.
  unfold is_bytes, is_u8, u8_max, blen. induction 1; cbn [from_le List.length]; [simpl; lia|].
  rewrite Nat2Z.inj_succ, Z.pow_succ_r by lia. lia.
Qed.

Lemma pad_len_bound len : 0 <= pad_len len < 4.
Proof. apply Z.mod_pos_bound. lia. Qed.

Lemma pad_len_aligned len : (len + pad_len len) mod 4 = 0.
Proof. unfold pad_len. Z.to_euclidean_division_equations. lia. Qed.

(* ------------------------------------------------------------------------ *)
(** ** Inversion of the decoders *)

Lemma read_uint_Ok bytes pos v pos' :
  read_uint bytes pos = Ok (v, pos') ->
  pos' = pos + 4 /\ pos' <= blen bytes /\ v = from_le (slice bytes pos pos').
Proof. unfold read_uint. destruct (Z.ltb_spec (blen bytes) (pos + 4)); intros; simplify_eq. auto. Qed.

Lemma read_uint_at pre v suf :
  is_u32 v -> read_uint (pre ++ to_le 4 v ++ suf) (blen pre) = Ok (v, blen pre + 4).
Proof.
  unfold is_u32, u32_max. intros Hv. unfold read_uint. rewrite !blen_app, blen_to_le.
  rewrite (proj2 (Z.ltb_ge _ _)) by (pose proof (blen_nonneg suf); lia).
  rewrite slice_mid by (rewrite ?blen_to_le; lia). rewrite from_to_le by (simpl; lia). done.
Qed.

Lemma usize_checked_add_Some a b c :
  usize_checked_add a b = Some c <-> c = a + b /\ a + b <= u64_max.
Proof. unfold usize_checked_add. destruct (Z.leb_spec (a + b) u64_max); split; intros; destruct_and?; simplify_eq; auto; lia. Qed.

(** The shape of an accepted string. *)
Lemma read_string_Ok bytes pos max s pos' :
  read_string bytes pos max = Ok (s, pos') ->
  exists len,
    len = from_le (slice bytes pos (pos + 4)) /\ len <= max /\
    pos' = pos + 4 + len + pad_len len /\ pos' <= blen bytes /\
    Utf8.decode (slice bytes (pos + 4) (pos + 4 + len)) = Some s /\
    existsb (Z.eqb 0) (slice bytes (pos + 4) (pos + 4 + len)) = false /\
    existsb (fun b => negb (b =? 0)) (slice bytes (pos + 4 + len) pos') = false.
Proof.
  unfold read_string. intros ([len p] & (-> & Hle & ->)%read_uint_Ok & H)%rbind_ok.
  case_match; [done|]. unbool. apply rbind_ok in H as (fin & Hfin & H).
  apply ok_or_ok, usize_checked_add_Some in Hfin as [-> _].
  case_match; [done|]. case_match; [done|]. unbool.
  apply rbind_ok in H as (s0 & Hs%ok_or_ok & H).
  apply rbind_ok in H as (pe & [-> _]%ok_or_ok%usize_checked_add_Some & H).
  case_match; [done|]. case_match; [done|]. unbool. simplify_eq.
  eexists. split; [done|]. auto 10.
Qed.

Lemma all_zero_repeat bs :
  existsb (fun b => negb (b =? 0)) bs = false -> bs = repeat 0 (List.length bs).
Proof.
  induction bs as [|b bs IH]; simpl; intros H; [done|]. unbool. subst.
  f_equal. auto.
Qed.

Lemma existsb_repeat_zero n : existsb (fun b => negb (b =? 0)) (repeat 0 n) = false.
Proof. by induction n. Qed.

(* ------------------------------------------------------------------------ *)
(** ** Round trips *)

(** What [write_string] appends, [read_string] reads back: at the place it
    was written, whatever precedes and follows it, the decoder returns the same
    string and leaves the cursor exactly at the end, and the appended argument
    keeps the 4-byte alignment. [write_string] itself succeeds exactly within
    its documented bound. *)
Theorem wire_string_round_trip (pre suf out : Bytes) (s : Str) (max : Z)
  (Hs : is_str s) (Hnul : ~ In 0 s) (Hmax : is_u32 max)
  (Hw : write_string pre s max = Some out)
  (Hfit : blen (out ++ suf) <= u64_max) :
  read_string (out ++ suf) (blen pre) max = Ok (s, blen out)
  /\ (blen out - blen pre) mod 4 = 0 /\ str_len s <= max.
Proof.
  unfold write_string in Hw. case_match; [|done]. unbool. simplify_eq.
  unfold write_uint in *. set (b := Utf8.encode s) in *.
  set (z := repeat 0 (Z.to_nat (pad_len (blen b)))) in *.
  pose proof (blen_nonneg b) as Hb. pose proof (pad_len_bound (blen b)) as Hp.
  assert (blen z = pad_len (blen b)) as Hz by (unfold z; unfold blen at 1; rewrite repeat_length; lia).
  assert (is_u32 (blen b)) as Hu by (unfold is_u32 in *; lia).
  rewrite <- !app_assoc in *. pose proof (blen_nonneg suf).
  assert (blen (pre ++ to_le 4 (blen b) ++ b ++ z ++ suf)
          = blen pre + 4 + blen b + pad_len (blen b) + blen suf) as Hlen.
  { rewrite !blen_app, blen_to_le, Hz. lia. }
  split; [|split; [|done]].
  - unfold read_string. rewrite read_uint_at by done. cbn [rbind].
    rewrite (proj2 (Z.ltb_ge _ _)) by lia.
    unfold usize_checked_add. rewrite (proj2 (Z.leb_le _ u64_max)) by lia. cbn [ok_or rbind].
    rewrite (proj2 (Z.ltb_ge _ _)) by lia.
    assert (slice (pre ++ to_le 4 (blen b) ++ b ++ z ++ suf) (blen pre + 4) (blen pre + 4 + blen b) = b) as ->.
    { rewrite (app_assoc pre). apply slice_mid; rewrite !blen_app, blen_to_le; lia. }
    assert (existsb (Z.eqb 0) b = false) as ->.
    { apply not_true_iff_false. rewrite existsb_exists. intros (x & Hx & <-%Z.eqb_eq).
      by apply Hnul, Utf8.zero_in_encode. }
    unfold b at 1. rewrite Utf8.decode_encode by done. cbn [ok_or rbind].
    rewrite (proj2 (Z.leb_le _ u64_max)) by lia. cbn [ok_or rbind].
    rewrite (proj2 (Z.ltb_ge _ _)) by lia.
    assert (slice (pre ++ to_le 4 (blen b) ++ b ++ z ++ suf) (blen pre + 4 + blen b)
              (blen pre + 4 + blen b + pad_len (blen b)) = z) as ->.
    { rewrite !(app_assoc pre), (app_assoc (pre ++ _)).
      apply slice_mid; rewrite !blen_app, ?blen_to_le; lia. }
    unfold z at 1. rewrite existsb_repeat_zero. do 2 f_equal.
    rewrite !blen_app, blen_to_le. lia.
  - rewrite !blen_app, blen_to_le, Hz.
    replace (blen pre + (Z.of_nat 4 + (blen b + pad_len (blen b))) - blen pre)
      with ((blen b + pad_len (blen b)) + 1 * 4) by lia.
    rewrite Z.mod_add by lia. apply pad_len_aligned.
Qed.

Lemma string_back (pre suf out : Bytes) (s : Str) (max : Z)
  (Hs : is_str s) (Hnul : ~ In 0 s) (Hmax : is_u32 max)
  (Hw : write_string pre s max = Some out)
  (Hfit : blen (out ++ suf) <= u64_max) :
  read_string (out ++ suf) (blen pre) max = Ok (s, blen out).
Proof. by apply wire_string_round_trip. Qed.

Lemma wire_string_round_trip_witness :
  write_string [9] (str "hello") 64 = Some ([9] ++ to_le 4 5 ++ str "hello" ++ [0;0;0]) /\
  read_string (([9] ++ to_le 4 5 ++ str "hello" ++ [0;0;0]) ++ [7]) (blen [9]) 64
    = Ok (str "hello", 13).
Proof.
  split; [vm_compute; reflexivity|].
  refine (proj1 (wire_string_round_trip [9] [7] _ (str "hello") 64 _ _ _ _ _)).
  - repeat constructor; unfold is_char; lia.
  - vm_compute. intuition discriminate.
  - unfold is_u32, u32_max. lia.
  - vm_compute. reflexivity.
  - vm_compute. discriminate.
Defined.

Lemma string_canonical (bytes : Bytes) (pos pos' max : Z) (s : Str)
  (Hb : is_bytes bytes) (Hpos : 0 <= pos)
  (Hr : read_string bytes pos max = Ok (s, pos')) :
  write_string [] s max = Some (slice bytes pos pos')
  /\ is_str s /\ ~ In 0 s /\ pos <= pos' /\ pos' <= blen bytes.
Proof.
  apply read_string_Ok in Hr as (len & Hlen & Hmax & -> & Hend & Hd & Hnul & Hz).
  pose proof (pad_len_bound len) as Hp.
  pose proof (from_le_bound _ (slice_u8 bytes pos (pos + 4) Hb)) as Hle.
  rewrite <- Hlen in Hle.
  destruct (Utf8.decode_sound _ (slice_u8 _ _ _ Hb) _ Hd) as [Hs He].
  assert (blen (Utf8.encode s) = len) as Hel by (rewrite He, blen_slice; lia).
  unfold write_string. rewrite Hel, (proj2 (Z.leb_le _ _)) by done.
  split; [|split; [done|split; [|split; [lia|done]]]].
  - f_equal. unfold write_uint. rewrite app_nil_l, He.
    set (fin := pos + 4 + len + pad_len len) in *.
    rewrite <- (slice_app bytes pos (pos + 4) fin) by (unfold fin; lia).
    rewrite <- (slice_app bytes (pos + 4) (pos + 4 + len) fin) by (unfold fin; lia).
    apply f_equal2; [|apply f_equal].
    + rewrite Hlen. rewrite <- (to_from_le (slice bytes pos (pos + 4))) at 2
        by (by apply slice_u8).
      f_equal. pose proof (blen_slice bytes pos (pos + 4)). unfold blen in *. lia.
    + apply all_zero_repeat in Hz. rewrite Hz. f_equal.
      pose proof (blen_slice bytes (pos + 4 + len) fin). unfold fin in *.
      unfold blen in *. lia.
  - intros Hin. apply not_true_iff_false in Hnul. apply Hnul, existsb_exists.
    exists 0. split; [|done]. rewrite <- He. by apply Utf8.encode_zero.
Qed.

(** The string encoding is canonical. Whatever bytes [read_string] accepts,
    the bytes it consumed are exactly the ones [write_string] produces for the
    string it returned: no overlong UTF-8, no NUL, no nonzero or missing padding
    passes, so no two distinct byte sequences decode to the same argument. *)
Theorem wire_string_canonical (bytes : Bytes) (pos pos' max : Z) (s : Str)
  (Hb : is_bytes bytes) (Hpos : 0 <= pos)
  (Hr : read_string bytes pos max = Ok (s, pos')) :
  write_string [] s max = Some (slice bytes pos pos')
  /\ is_str s /\ ~ In 0 s /\ pos' <= blen bytes.
Proof.
  destruct (string_canonical bytes pos pos' max s Hb Hpos Hr) as (? & ? & ? & _ & ?). done.
Qed.

Lemma wire_string_canonical_witness :
  write_string [] (str "ab") 8 = Some (slice (to_le 4 2 ++ str "ab" ++ [0;0]) 0 8).
Proof.
  refine (proj1 (wire_string_canonical _ 0 8 8 (str "ab") _ _ _)).
  - repeat constructor; unfold is_u8, u8_max; vm_compute; discriminate.
  - lia.
  - vm_compute. reflexivity.
Defined.

(** The frame header round-trips. A header whose fields have their wire
    widths, encoded with the placeholder size, followed by a body and patched,
    decodes to the same object, opcode and descriptor count with the whole
    frame's length as its size, and the body is untouched; patching panics
    exactly on a frame above the 65535-byte limit. *)
Theorem wire_header_round_trip (h : FrameHeader) (body : Bytes)
  (Hid : is_u32 (object_id h)) (Hop : is_u8 (opcode h)) (Hfd : is_u8 (fd_count h)) :
  match patch_size (encode_with_placeholder_size h [] ++ body) with
  | Some frame =>
      header_decode frame = Ok {| object_id := object_id h; size := 8 + blen body;
                                  opcode := opcode h; fd_count := fd_count h |}
      /\ drop 8 frame = body /\ 8 + blen body <= u16_max
  | None => u16_max < 8 + blen body
  end.
Proof.
  unfold encode_with_placeholder_size, patch_size. simpl app.
  pose proof (blen_nonneg body) as Hb.
  set (out := _ :: _). assert (blen out = 8 + blen body) as Hout
    by (unfold out, blen; simpl; lia).
  rewrite Hout. destruct (Z.leb_spec (8 + blen body) u16_max); [|done].
  rewrite (proj2 (Z.leb_le _ _)) by lia.
  split; [|done].
  pose (fr := take 4 out ++ to_le 2 (8 + blen body) ++ drop 6 out).
  change (header_decode fr = Ok {| object_id := object_id h; size := 8 + blen body;
            opcode := opcode h; fd_count := fd_count h |}).
  unfold header_decode. assert (blen fr = 8 + blen body) as ->
    by (unfold fr, out, blen; simpl; lia).
  rewrite (proj2 (Z.ltb_ge _ _)) by (unfold HEADER_LEN; lia).
  assert (slice fr 0 4 = to_le 4 (object_id h)) as -> by done.
  assert (slice fr 4 6 = to_le 2 (8 + blen body)) as -> by done.
  assert (slice fr 6 7 = [opcode h]) as -> by done.
  assert (slice fr 7 8 = [fd_count h]) as -> by done.
  unfold is_u32, u32_max, is_u8, u8_max, u16_max in *.
  rewrite !from_to_le by (simpl; lia). simpl from_le. do 2 f_equal; lia.
Qed.

Lemma wire_header_round_trip_witness :
  patch_size (encode_with_placeholder_size
    {| object_id := 42; size := 0; opcode := 3; fd_count := 1 |} [] ++ [9;9;9;9])
  = Some ([42;0;0;0;12;0;3;1] ++ [9;9;9;9]) /\
  header_decode ([42;0;0;0;12;0;3;1] ++ [9;9;9;9])
    = Ok {| object_id := 42; size := 12; opcode := 3; fd_count := 1 |}.
Proof.
  split; [vm_compute; reflexivity|].
  refine (proj1 (wire_header_round_trip
    {| object_id := 42; size := 0; opcode := 3; fd_count := 1 |} [9;9;9;9] _ _ _));
    unfold is_u32, is_u8, u32_max, u8_max; simpl; lia.
Defined.
