(* ===== verification/NetSel.v ===== *)
(** * The [net:HOST:PORT] selector

    [NetSelector] and [ResourceRef] of [crates/vitrin-core/src/grants.rs]: the
    wildcard-free grammar of an egress resource, its re-serialization and the
    exact-match containment rule. The IPv6 literal parser and [u16::parse] it
    calls are the standard library's. *)

From S2P Require Import Prelude Text.

(* ------------------------------------------------------------------------ *)
(** ** [Ipv6Addr::from_str] *)

Module Ipv6.
(** A parser of the standard library's [core::net::parser]: it leaves its
    input unchanged when it fails. *)
Definition parser (A : Type) := Str -> option (A * Str).

Definition hex_digit (radix c : Z) : option Z :=
  let d := if is_ascii_digit c then Some (c - 48)
           else if between 97 122 c then Some (c - 87)
           else if between 65 90 c then Some (c - 55) else None in
  match d with Some d => if d <? radix then Some d else None | None => None end.

(** The digit loop of [read_number]: [None] when a digit overflows the type
    or exceeds [max_digits]. *)
Fixpoint read_digits (radix max max_digits acc count : Z) (s : Str)
    : option (Z * Z * Str) :=
  match s with
  | [] => Some (acc, count, [])
  | c :: s' =>
      match hex_digit radix c with
      | None => Some (acc, count, s)
      | Some d =>
          let acc := acc * radix + d in
          let count := count + 1 in
          if max <? acc then None
          else if max_digits <? count then None
          else read_digits radix max max_digits acc count s'
      end
  end.

Definition read_number (radix max max_digits : Z) (allow_zero_prefix : bool)
    : parser Z := fun s =>
  let has_leading_zero := match s with c :: _ => c =? 48 | [] => false end in
  match read_digits radix max max_digits 0 0 s with
  | None => None
  | Some (v, count, rest) =>
      if count =? 0 then None
      else if negb allow_zero_prefix && has_leading_zero && (1 <? count) then None
      else Some (v, rest)
  end.

Definition read_given_char (c : Z) : parser unit := fun s =>
  match s with d :: s => if d =? c then Some (tt, s) else None | [] => None end.

Definition read_separator {A} (sep : Z) (index : nat) (p : parser A) : parser A := fun s =>
  match index with
  | O => p s
  | S _ => match read_given_char sep s with Some (_, s) => p s | None => None end
  end.

Fixpoint read_octets (index n : nat) : parser (list Z) := fun s =>
  match n with
  | O => Some ([], s)
  | S n =>
      match read_separator 46 index (read_number 10 255 3 false) s with
      | None => None
      | Some (o, s) =>
          match read_octets (S index) n s with
          | None => None
          | Some (os, s) => Some (o :: os, s)
          end
      end
  end.
Definition read_ipv4_addr : parser (list Z) := read_octets 0 4.

(** [read_groups] on a slice of [i + left] groups, at index [i]: the groups
    read, and whether they end with an embedded IPv4 address. *)
Fixpoint read_groups (i left : nat) (s : Str) : list Z * bool * Str :=
  match left with
  | O => ([], false, s)
  | S left' =>
      let group :=
        match read_separator 58 i (read_number 16 65535 4 true) s with
        | Some (g, s) =>
            let '(gs, v4, s) := read_groups (S i) left' s in (g :: gs, v4, s)
        | None => ([], false, s)
        end in
      match left' with
      | O => group
      | S _ =>
          match read_separator 58 i read_ipv4_addr s with
          | Some ([a; b; c; d], s) => ([a * 256 + b; c * 256 + d], true, s)
          | _ => group
          end
      end
  end.

Definition read_ipv6_addr : parser (list Z) := fun s =>
  let '(head, head_ipv4, s) := read_groups 0 8 s in
  if (List.length head =? 8)%nat then Some (head, s)
  else if head_ipv4 then None
  else match read_given_char 58 s with
  | None => None
  | Some (_, s) =>
      match read_given_char 58 s with
      | None => None
      | Some (_, s) =>
          let limit := (8 - (List.length head + 1))%nat in
          let '(tail, _, s) := read_groups 0 limit s in
          Some (head ++ repeat 0 (8 - List.length head - List.length tail) ++ tail, s)
      end
  end.

Definition parse (s : Str) : option (list Z) :=
  match read_ipv6_addr s with Some (a, []) => Some a | _ => None end.

Example loopback : parse (str "::1") = Some [0;0;0;0;0;0;0;1].
Proof. vm_compute. reflexivity. Qed.
Example documentation :
  parse (str "2001:db8::ff00:42:8329") = Some [8193;3512;0;0;0;65280;66;33577].
Proof. vm_compute. reflexivity. Qed.
Example mapped : parse (str "::ffff:192.0.2.1") = Some [0;0;0;0;0;65535;49152;513].
Proof. vm_compute. reflexivity. Qed.
Example too_short : parse (str "1:2:3") = None.
Proof. vm_compute. reflexivity. Qed.
Example octal : parse (str "::01.2.3.4") = None.
Proof. vm_compute. reflexivity. Qed.
End Ipv6.

(* ------------------------------------------------------------------------ *)
(** ** The selector *)

Inductive NetHost : Type :=
| Plain (h : Str)
| V6 (h : Str).

Record NetSelector : Type := NetSel { nhost : NetHost; nport : Z }.

Inductive NetSelectorError : Type :=
| NotANetSelector
| MalformedHostPort
| BadPort
| ForbiddenHostSyntax
| MalformedIpv6.

Inductive ResourceRef : Type :=
| WholeRealm
| Net (n : NetSelector).

#[export] Instance NetHost_eq_dec : EqDecision NetHost.
Proof. solve_decision. Defined.
#[export] Instance NetSelector_eq_dec : EqDecision NetSelector.
Proof. solve_decision. Defined.
#[export] Instance ResourceRef_eq_dec : EqDecision ResourceRef.
Proof. solve_decision. Defined.

Definition covers (self target : ResourceRef) : bool :=
  match self, target with
  | WholeRealm, WholeRealm => true
  | Net held, Net want => bool_decide (held = want)
  | WholeRealm, Net _ | Net _, WholeRealm => false
  end.

Definition PREFIX : Str := str "net:".

(** [NonZeroU16::from_str]. *)
Definition parse_nonzero_u16 (s : Str) : option Z :=
  match parse_unsigned u16_max s with
  | Some p => if p =? 0 then None else Some p
  | None => None
  end.

Definition forbidden_host_char (c : Z) : bool :=
  (c =? ch "*") || (c =? ch "/") || (c =? ch ",") || (c =? ch "[")
  || is_whitespace c || is_control c.

Definition parse_host (host_part : Str) : result NetHost NetSelectorError :=
  match strip_prefix (str "[") host_part with
  | Some inner =>
      let? inner := ok_or (strip_suffix (str "]") inner) MalformedIpv6 in
      match Ipv6.parse inner with
      | None => Err MalformedIpv6
      | Some _ => Ok (V6 inner)
      end
  | None =>
      if contains_char host_part (ch ":") || contains_char host_part (ch "]")
      then Err MalformedIpv6
      else if existsb forbidden_host_char host_part then Err ForbiddenHostSyntax
      else if starts_with (str ".") host_part || ends_with (str ".") host_part
              || contains_str (str "..") host_part
      then Err ForbiddenHostSyntax
      else Ok (Plain host_part)
  end.

Definition parse (selector : Str) : result NetSelector NetSelectorError :=
  let? rest := ok_or (strip_prefix PREFIX selector) NotANetSelector in
  let? (host_part, port_part) := ok_or (rsplit_once (ch ":") rest) MalformedHostPort in
  if bool_decide (host_part = []) then Err MalformedHostPort else
  let? port := ok_or (parse_nonzero_u16 port_part) BadPort in
  if negb (str_eqb port_part (to_string port)) then Err BadPort else
  let? host := parse_host host_part in
  Ok (NetSel host port).

Definition host_to_wire (h : NetHost) : Str :=
  match h with Plain h => h | V6 h => str "[" ++ h ++ str "]" end.

Definition to_wire (self : NetSelector) : Str :=
  match nhost self with
  | Plain h => PREFIX ++ h ++ str ":" ++ to_string (nport self)
  | V6 h => PREFIX ++ str "[" ++ h ++ str "]" ++ str ":" ++ to_string (nport self)
  end.

(** The selectors that exist: the ones built by [parse]. *)
Definition netsel_wf (n : NetSelector) : Prop :=
  0 < nport n <= u16_max /\ parse_host (host_to_wire (nhost n)) = Ok (nhost n)
  /\ host_to_wire (nhost n) <> [].

Lemma to_wire_eq n :
  to_wire n = PREFIX ++ host_to_wire (nhost n) ++ str ":" ++ to_string (nport n).
Proof. unfold to_wire. destruct (nhost n); simpl; [done|]. by rewrite <- app_assoc. Qed.

Lemma parse_host_to_wire hp h : parse_host hp = Ok h -> host_to_wire h = hp.
Proof.
  unfold parse_host. destruct (strip_prefix (str "[") hp) as [inner|] eqn:Hp.
  - intros (i & Hi & H)%rbind_ok. apply ok_or_ok, strip_suffix_Some in Hi.
    apply strip_prefix_Some in Hp. case_match; simplify_eq. done.
  - repeat case_match; intros; by simplify_eq.
Qed.

Lemma parse_nonzero_u16_Some s p :
  parse_nonzero_u16 s = Some p -> 0 < p <= u16_max.
Proof.
  unfold parse_nonzero_u16. destruct (parse_unsigned u16_max s) as [q|] eqn:Hq; [|done].
  apply parse_unsigned_bound in Hq; [|done]. case_match; intros; unbool; simplify_eq; lia.
Qed.

Lemma parse_nonzero_u16_to_string p :
  0 < p <= u16_max -> parse_nonzero_u16 (to_string p) = Some p.
Proof.
  intros. unfold parse_nonzero_u16. rewrite parse_to_string by (unfold u16_max, u64_max in *; lia).
  by rewrite (proj2 (Z.eqb_neq _ _)) by lia.
Qed.

(** What an accepted selector is made of. *)
Lemma parse_Ok s n :
  parse s = Ok n <->
  exists hp, s = PREFIX ++ hp ++ str ":" ++ to_string (nport n) /\ hp <> [] /\
    0 < nport n <= u16_max /\ parse_host hp = Ok (nhost n).
Proof.
  unfold parse. split.
  - intros (rest & Hr%ok_or_ok%strip_prefix_Some & H)%rbind_ok.
    apply rbind_ok in H as ([hp pp] & Hs%ok_or_ok%rsplit_once_Some & H).
    case_bool_decide; [done|].
    apply rbind_ok in H as (port & Hport%ok_or_ok & H).
    case_match eqn:He; [done|]. apply negb_false_iff, str_eqb_eq in He.
    apply rbind_ok in H as (h & Hh & H). simplify_eq/=. destruct Hs as [-> _].
    exists hp. split; [done|]. apply parse_nonzero_u16_Some in Hport. auto.
  - intros (hp & -> & Hne & Hport & Hh).
    rewrite (proj2 (strip_prefix_Some PREFIX _ _)) by done. cbn [ok_or rbind].
    rewrite (proj2 (rsplit_once_Some (ch ":") _ hp (to_string (nport n)))); cycle 1.
    { split; [done|]. intros Hin%to_string_digits; [done|lia]. }
    cbn [ok_or rbind]. rewrite bool_decide_false by done.
    rewrite parse_nonzero_u16_to_string by done. cbn [ok_or rbind].
    rewrite (proj2 (str_eqb_eq _ _)) by done. simpl. rewrite Hh. simpl. by destruct n.
Qed.

(* ------------------------------------------------------------------------ *)
(** ** The alphabet of an IPv6 literal *)

Definition literal_char (c : Z) : bool := is_ascii_hexdigit c || (c =? 58) || (c =? 46).

(** The input consumed between two parser states is made of literal characters. *)
Definition consumed (s r : Str) : Prop :=
  exists u, s = u ++ r /\ forallb literal_char u = true.

Lemma consumed_refl s : consumed s s.
Proof. by exists []. Qed.

Lemma consumed_trans s r q : consumed s r -> consumed r q -> consumed s q.
Proof.
  intros (u & -> & Hu) (v & -> & Hv). exists (u ++ v).
  rewrite app_assoc. split; [done|]. rewrite forallb_app, Hu. done.
Qed.

Lemma consumed_cons c s r : literal_char c = true -> consumed s r -> consumed (c :: s) r.
Proof. intros Hc (u & -> & Hu). exists (c :: u). simpl. by rewrite Hc. Qed.

#[local] Hint Resolve consumed_refl : core.

Lemma hex_digit_literal radix c d :
  radix <= 16 -> Ipv6.hex_digit radix c = Some d -> literal_char c = true.
Proof.
  unfold Ipv6.hex_digit, literal_char, is_ascii_hexdigit, is_ascii_digit, between. intros Hr H.
  rewrite !orb_true_iff, !andb_true_iff, !Z.leb_le, !Z.eqb_eq.
  repeat (case_match; simplify_eq); unbool; lia.
Qed.

Lemma read_digits_consumed radix max md acc n s v m r :
  radix <= 16 -> Ipv6.read_digits radix max md acc n s = Some (v, m, r) -> consumed s r.
Proof.
  intros Hr. revert acc n. induction s as [|c s IH]; simpl; intros acc n H; [by simplify_eq|].
  destruct (Ipv6.hex_digit radix c) eqn:Hc; [|by simplify_eq].
  do 2 (case_match; [done|]). apply consumed_cons; eauto using hex_digit_literal.
Qed.

Lemma read_number_consumed radix max md z s v r :
  radix <= 16 -> Ipv6.read_number radix max md z s = Some (v, r) -> consumed s r.
Proof.
  unfold Ipv6.read_number. intros Hr H. repeat case_match; simplify_eq.
  all: eauto using read_digits_consumed.
Qed.

Lemma read_given_char_consumed c s x r :
  literal_char c = true -> Ipv6.read_given_char c s = Some (x, r) -> consumed s r.
Proof.
  unfold Ipv6.read_given_char. intros Hc H. repeat case_match; unbool; simplify_eq.
  by apply consumed_cons.
Qed.

Lemma read_separator_consumed {A} c i (p : Ipv6.parser A) s x r :
  literal_char c = true ->
  (forall s x r, p s = Some (x, r) -> consumed s r) ->
  Ipv6.read_separator c i p s = Some (x, r) -> consumed s r.
Proof.
  unfold Ipv6.read_separator. intros Hc Hp H. repeat case_match; simplify_eq; eauto.
  eapply consumed_trans; [by eapply read_given_char_consumed|]; eauto.
Qed.

Lemma read_octets_consumed n i s x r :
  Ipv6.read_octets i n s = Some (x, r) -> consumed s r.
Proof.
  revert i s x. induction n as [|n IH]; cbn [Ipv6.read_octets]; intros i s x H;
    [by simplify_eq|].
  destruct (Ipv6.read_separator _ _ _ s) as [[o s1]|] eqn:Ho; [|done].
  destruct (Ipv6.read_octets (S i) n s1) as [[os s2]|] eqn:Hos; simplify_eq.
  eapply consumed_trans; [|by eapply IH].
  refine (read_separator_consumed _ _ _ _ _ _ _ _ Ho); [done|].
  intros ???. apply read_number_consumed. lia.
Qed.

Lemma read_groups_consumed n i s gs v4 r :
  Ipv6.read_groups i n s = (gs, v4, r) -> consumed s r.
Proof.
  revert i s gs v4 r. induction n as [|n IH]; cbn [Ipv6.read_groups]; intros i s gs v4 r H;
    [by simplify_eq|].
  assert (forall gs v4 r,
    match Ipv6.read_separator 58 i (Ipv6.read_number 16 65535 4 true) s with
    | Some (g, s) => let '(gs, v4, s) := Ipv6.read_groups (S i) n s in (g :: gs, v4, s)
    | None => ([], false, s)
    end = (gs, v4, r) -> consumed s r) as Hg.
  { intros gs' v4' r' Hm.
    destruct (Ipv6.read_separator _ _ _ s) as [[g s1]|] eqn:Ho; [|by simplify_eq].
    destruct (Ipv6.read_groups (S i) n s1) as [[gs1 v41] s2] eqn:Hgs; simplify_eq.
    eapply consumed_trans; [|by eapply IH].
    refine (read_separator_consumed _ _ _ _ _ _ _ _ Ho); [done|].
    intros ???. apply read_number_consumed. lia. }
  destruct n; [by eapply Hg|].
  destruct (Ipv6.read_separator 58 i Ipv6.read_ipv4_addr s) as [[os s']|] eqn:Ho; [|by eapply Hg].
  apply read_separator_consumed in Ho; [|done|intros ???; apply read_octets_consumed].
  destruct os as [|a [|b [|c [|d [|]]]]]; try (by eapply Hg). by simplify_eq.
Qed.

Lemma ipv6_parse_literal s a : Ipv6.parse s = Some a -> forallb literal_char s = true.
Proof.
  unfold Ipv6.parse. intros H. repeat case_match; simplify_eq.
  enough (consumed s []) as (u & -> & Hu) by (by rewrite app_nil_r).
  match goal with H : Ipv6.read_ipv6_addr s = _ |- _ => unfold Ipv6.read_ipv6_addr in H end.
  repeat case_match; simplify_eq.
  - by eapply read_groups_consumed.
  - eapply consumed_trans; [by eapply read_groups_consumed|].
    do 2 (eapply consumed_trans; [by eapply (read_given_char_consumed 58)|]).
    by eapply read_groups_consumed.
Qed.

(* ------------------------------------------------------------------------ *)
(** ** Properties *)

(** The selector grammar round-trips in both directions: a string parses to
    a selector exactly when that selector is one a parse can build and
    re-serializes to that very string. The string the human was shown and the
    one the row stores are the same. *)
Theorem netsel_round_trip (s : Str) (n : NetSelector) :
  parse s = Ok n <-> netsel_wf n /\ to_wire n = s.
Proof.
  rewrite parse_Ok, to_wire_eq. unfold netsel_wf. split.
  - intros (hp & -> & Hne & Hport & Hh). rewrite (parse_host_to_wire hp) by done. auto.
  - intros [(Hport & Hh & Hne) <-]. eauto.
Qed.

Lemma existsb_false {A} (f : A -> bool) l x : existsb f l = false -> In x l -> f x = false.
Proof.
  intros H Hin. destruct (f x) eqn:Hf; [|done]. rewrite <- H. symmetry.
  apply existsb_exists. eauto.
Qed.

(** A selector cannot name a set of endpoints. Whatever string parses, its
    port is one nonzero 16-bit number, and its host has no wildcard, CIDR
    slash, list comma, whitespace or control character and no empty label in
    any position, or is an IPv6 literal; and the authority it confers covers
    the use of another selector only when the two strings are equal, and never
    crosses between the whole realm and an endpoint. *)
Theorem netsel_wildcard_free (s t : Str) (n m : NetSelector)
  (Hs : parse s = Ok n) (Ht : parse t = Ok m) :
  0 < nport n <= u16_max
  /\ match nhost n with
     | Plain h =>
         h <> [] /\ (forall c, In c h -> forbidden_host_char c = false /\ c <> ch ":")
         /\ starts_with (str ".") h = false /\ ends_with (str ".") h = false
         /\ contains_str (str "..") h = false
     | V6 h => is_Some (Ipv6.parse h) /\ forallb literal_char h = true
     end
  /\ (covers (Net n) (Net m) = true <-> s = t)
  /\ covers WholeRealm (Net n) = false /\ covers (Net n) WholeRealm = false.
Proof.
  apply netsel_round_trip in Hs as [Hn Hs]. apply netsel_round_trip in Ht as [Hm Ht].
  split; [apply Hn|]. split; [|split; [|done]].
  - destruct Hn as (_ & Hh & Hne). destruct (nhost n) as [h|h]; simpl in *.
    + unfold parse_host in Hh. destruct (strip_prefix (str "[") h) as [inner|].
      { apply rbind_ok in Hh as (? & _ & Hh). case_match; simplify_eq. }
      repeat (case_match; simplify_eq). unbool.
      split; [done|]. split; [|auto].
      intros c Hin. split; [by eapply existsb_false|]. intros ->.
      match goal with H : contains_char h (ch ":") = false |- _ =>
        apply (existsb_false _ _ (ch ":")) in H; [done|done] end.
    + unfold parse_host in Hh. simpl in Hh.
      apply rbind_ok in Hh as (i & Hi%ok_or_ok%strip_suffix_Some & Hh).
      apply (inj (fun l => l ++ [93])) in Hi. subst i.
      destruct (Ipv6.parse h) eqn:Hp; [|done]. split; [done|].
      by eapply ipv6_parse_literal.
  - simpl. rewrite bool_decide_eq_true. split; [by intros ->; subst|].
    intros ->. rewrite <- Ht in Hs.
    assert (parse (to_wire n) = Ok n /\ parse (to_wire m) = Ok m) as [H1 H2]
      by (split; by apply netsel_round_trip).
    rewrite Hs, H2 in H1. by simplify_eq.
Qed.

Lemma netsel_wildcard_free_witness :
  covers (Net (NetSel (Plain (str "a.example")) 443))
         (Net (NetSel (V6 (str "::1")) 8443)) = true
  <-> str "net:a.example:443" = str "net:[::1]:8443".
Proof.
  refine (proj1 (proj2 (proj2 (netsel_wildcard_free (str "net:a.example:443")
    (str "net:[::1]:8443") _ _ _ _)))); vm_compute; reflexivity.
Defined.

(** The comment above the port check says that [u16]'s parser refuses a leading
    plus sign; it accepts it, and the canonical-spelling check is what refuses. *)
Example plus_is_parsed : parse_unsigned u16_max (str "+443") = Some 443.
Proof. vm_compute. reflexivity. Qed.
Example plus_is_refused : parse (str "net:h:+443") = Err BadPort.
Proof. vm_compute. reflexivity. Qed.
