(* ===== verification/Toml.v ===== *)
(** * The TOML subset

    [crates/vitrin-core/src/toml_subset.rs]: table headers, strings with two
    escapes, arrays of strings, booleans and integers, as the principal
    registry and the realm files write them. The constructors of [SubsetDetail]
    stand for the message texts of the source. *)

From S2P Require Import Prelude Text.

Inductive SubsetDetail : Type :=
| ExpectedArray
| ExpectedCommaOrBracket
| ExpectedBoolean
| ExpectedInteger
| LeadingZeros
| IntegerOverflow
| ExpectedString
| BadEscape
| ControlInString
| UnterminatedString
| TrailingContent (what : Str).

Record SubsetError : Type := SubsetErrorAt { se_line : Z; se_detail : SubsetDetail }.

Definition quote_char : Z := 34.
Definition backslash : Z := 92.

(** [trailing_blank]: only whitespace, or a comment after it, may follow. *)
Definition blank_or_comment (rest : Str) : bool :=
  match trim_start rest with [] => true | c :: _ => c =? ch "#" end.
Definition trailing_blank (rest : Str) (line : Z) (what : string)
    : result unit SubsetError :=
  if blank_or_comment rest then Ok tt
  else Err (SubsetErrorAt line (TrailingContent (str what))).

Definition table_header (line : Str) : option (Str * Str) :=
  match strip_prefix (str "[[") line with
  | None => None
  | Some rest =>
      match split_once (str "]]") rest with
      | None => None
      | Some (name, after) =>
          if forallb (fun c => is_ascii_alphanumeric c || (c =? ch "_")) name
             && negb (bool_decide (name = []))
          then Some (str "[[" ++ name ++ str "]]", after)
          else None
      end
  end.

(** The loop of [scan_basic_string], after the opening quote. *)
Fixpoint scan_loop (line : Z) (chars : Str) (out : Str) (escaped : bool)
    : result (Str * Str) SubsetError :=
  match chars with
  | [] => Err (SubsetErrorAt line UnterminatedString)
  | c :: chars =>
      if escaped then
        if (c =? backslash) || (c =? quote_char)
        then scan_loop line chars (out ++ [c]) false
        else Err (SubsetErrorAt line BadEscape)
      else if c =? backslash then scan_loop line chars out true
      else if c =? quote_char then Ok (out, chars)
      else if is_control c then Err (SubsetErrorAt line ControlInString)
      else scan_loop line chars (out ++ [c]) false
  end.

Definition scan_basic_string (value : Str) (line : Z) : result (Str * Str) SubsetError :=
  match value with
  | c :: chars =>
      if c =? quote_char then scan_loop line chars [] false
      else Err (SubsetErrorAt line ExpectedString)
  | [] => Err (SubsetErrorAt line ExpectedString)
  end.

Definition basic_string (value : Str) (line : Z) : result Str SubsetError :=
  let? (parsed, rest) := scan_basic_string value line in
  let? _ := trailing_blank rest line "string value" in
  Ok parsed.

(** The loop of [string_array]; [None] is an exhausted fuel. *)
Fixpoint array_loop (fuel : nat) (line : Z) (rest : Str) (out : list Str)
    : option (result (list Str) SubsetError) :=
  match fuel with
  | O => None
  | S fuel =>
      match strip_prefix (str "]") rest with
      | Some after => Some (let? _ := trailing_blank after line "array value" in Ok out)
      | None =>
          let element rest :=
            match scan_basic_string rest line with
            | Err e => Some (Err e)
            | Ok (element, after) =>
                array_loop fuel line (trim_start after) (out ++ [element])
            end in
          match out with
          | [] => element rest
          | _ =>
              match strip_prefix (str ",") rest with
              | None => Some (Err (SubsetErrorAt line ExpectedCommaOrBracket))
              | Some rest =>
                  let rest := trim_start rest in
                  match strip_prefix (str "]") rest with
                  | Some after =>
                      Some (let? _ := trailing_blank after line "array value" in Ok out)
                  | None => element rest
                  end
              end
          end
      end
  end.

Definition string_array_fuel (fuel : nat) (value : Str) (line : Z)
    : option (result (list Str) SubsetError) :=
  match strip_prefix (str "[") value with
  | None => Some (Err (SubsetErrorAt line ExpectedArray))
  | Some rest => array_loop fuel line (trim_start rest) []
  end.

(** [string_array], with as much fuel as the value has characters; the last
    branch is never taken ([toml_array_total_round_trip]). *)
Definition string_array (value : Str) (line : Z) : result (list Str) SubsetError :=
  match string_array_fuel (S (List.length value)) value line with
  | Some r => r
  | None => Err (SubsetErrorAt line ExpectedArray)
  end.

Definition boolean (value : Str) (line : Z) : result bool SubsetError :=
  match strip_prefix (str "true") value with
  | Some rest => let? _ := trailing_blank rest line "boolean value" in Ok true
  | None =>
      match strip_prefix (str "false") value with
      | Some rest => let? _ := trailing_blank rest line "boolean value" in Ok false
      | None => Err (SubsetErrorAt line ExpectedBoolean)
      end
  end.

(** The split at the first character that is not a digit. *)
Fixpoint span_digits (s : Str) : Str * Str :=
  match s with
  | c :: s' =>
      if is_ascii_digit c then let '(d, r) := span_digits s' in (c :: d, r) else ([], s)
  | [] => ([], [])
  end.

Definition integer (value : Str) (line : Z) : result Z SubsetError :=
  let '(digits, rest) := span_digits value in
  if bool_decide (digits = []) then Err (SubsetErrorAt line ExpectedInteger) else
  if (1 <? str_len digits) && starts_with (str "0") digits
  then Err (SubsetErrorAt line LeadingZeros) else
  let? _ := trailing_blank rest line "integer value" in
  ok_or (parse_unsigned u32_max digits) (SubsetErrorAt line IntegerOverflow).

(* ------------------------------------------------------------------------ *)
(** ** The quoted form of a string *)

Definition escape_char (c : Z) : Str :=
  if (c =? backslash) || (c =? quote_char) then [backslash; c] else [c].
Fixpoint escape (s : Str) : Str :=
  match s with [] => [] | c :: s => escape_char c ++ escape s end.
Definition quoted (s : Str) : Str := quote_char :: escape s ++ [quote_char].

Definition no_control (s : Str) : bool := forallb (fun c => negb (is_control c)) s.

Lemma scan_loop_escape line s rest out :
  no_control s = true ->
  scan_loop line (escape s ++ quote_char :: rest) out false = Ok (out ++ s, rest).
Proof.
  unfold no_control. revert out. induction s as [|c s IH]; intros out; simpl.
  - intros _. by rewrite app_nil_r.
  - intros [Hc Hs]%andb_prop. unfold escape_char.
    destruct ((c =? backslash) || (c =? quote_char))%bool eqn:Hq; simpl; rewrite ?Hq.
    + rewrite IH by done. by rewrite <- app_assoc.
    + apply orb_false_elim in Hq as [-> ->]. apply negb_true_iff in Hc. rewrite Hc, IH by done.
      by rewrite <- app_assoc.
Qed.

Lemma scan_loop_Ok line chars out s rest :
  scan_loop line chars out false = Ok (s, rest) ->
  exists t, s = out ++ t /\ chars = escape t ++ quote_char :: rest /\ no_control t = true.
Proof.
  remember (List.length chars) as n eqn:Hn. revert chars out Hn.
  induction n as [n IH] using (well_founded_induction lt_wf). intros chars out -> H.
  assert (forall c chars', (List.length chars' < List.length chars)%nat ->
    chars = escape_char c ++ chars' -> is_control c = false ->
    scan_loop line chars' (out ++ [c]) false = Ok (s, rest) ->
    exists t, s = out ++ t /\ chars = escape t ++ quote_char :: rest /\ no_control t = true)
    as Hstep.
  { intros c chars' Hlt -> Hc Hl. destruct (IH _ Hlt chars' _ eq_refl Hl) as (t & -> & -> & Ht).
    exists (c :: t). unfold no_control in *. simpl. rewrite <- !app_assoc, Hc. done. }
  destruct chars as [|c chars]; simpl in H; [done|].
  destruct (Z.eqb_spec c backslash); [subst|].
  - destruct chars as [|d chars]; simpl in H; [done|].
    destruct ((d =? backslash) || (d =? quote_char))%bool eqn:Hd; [|done].
    eapply (Hstep d chars); [simpl; lia| | |done].
    + unfold escape_char. by rewrite Hd.
    + apply orb_prop in Hd as [->%Z.eqb_eq| ->%Z.eqb_eq]; done.
  - destruct (Z.eqb_spec c quote_char); [subst|].
    + simplify_eq. exists []. by rewrite app_nil_r.
    + destruct (is_control c) eqn:Hc; [done|].
      eapply (Hstep c chars); [simpl; lia| |done|done]. unfold escape_char.
      rewrite (proj2 (Z.eqb_neq c _)), (proj2 (Z.eqb_neq c _)) by done. done.
Qed.

(** A scan succeeds exactly on the quoted form of a control-free string, which
    is therefore the only spelling of that string. *)
Lemma scan_basic_string_iff value line s rest :
  scan_basic_string value line = Ok (s, rest) <->
  value = quoted s ++ rest /\ no_control s = true.
Proof.
  unfold scan_basic_string, quoted. split.
  - destruct value as [|c chars]; [done|]. destruct (Z.eqb_spec c quote_char); [subst|done].
    intros (t & -> & -> & Ht)%scan_loop_Ok. simpl. by rewrite <- app_assoc.
  - intros [-> Hs]. simpl. rewrite <- app_assoc. simpl. by rewrite scan_loop_escape.
Qed.

Lemma escape_len s : (List.length s <= List.length (escape s))%nat.
Proof.
  induction s as [|c s IH]; simpl; [lia|]. rewrite List.length_app.
  unfold escape_char. case_match; simpl; lia.
Qed.

Lemma trim_start_len s : (List.length (trim_start s) <= List.length s)%nat.
Proof. induction s as [|c s IH]; simpl; [lia|]. case_match; simpl; lia. Qed.

Lemma scan_shorter value line s rest :
  scan_basic_string value line = Ok (s, rest) -> (List.length rest < List.length value)%nat.
Proof.
  intros [-> _]%scan_basic_string_iff. unfold quoted. simpl. rewrite !List.length_app. simpl. lia.
Qed.

(** The loop of [string_array] ends: as much fuel as characters is enough. *)
Lemma array_loop_total fuel line rest out :
  (List.length rest < fuel)%nat -> is_Some (array_loop fuel line rest out).
Proof.
  revert rest out. induction fuel as [|fuel IH]; intros rest out Hf; [lia|]. cbn [array_loop].
  destruct (strip_prefix (str "]") rest); [done|].
  assert (forall r, (List.length r <= List.length rest)%nat -> is_Some
    (match scan_basic_string r line with
     | Err e => Some (Err e)
     | Ok (element, after) => array_loop fuel line (trim_start after) (out ++ [element])
     end)) as Hel.
  { intros r Hr. destruct (scan_basic_string r line) as [[el after]|e] eqn:Hs; [|done].
    apply scan_shorter in Hs. apply IH. pose proof (trim_start_len after). lia. }
  destruct out as [|o out]; [by apply Hel|].
  destruct (strip_prefix (str ",") rest) as [r|] eqn:Hr; [|done].
  apply strip_prefix_Some in Hr as ->.
  destruct (strip_prefix (str "]") (trim_start r)); [done|]. apply Hel.
  pose proof (trim_start_len r). simpl. lia.
Qed.

(** A printed array: elements separated by a comma and a space. *)
Fixpoint array_tail (l : list Str) : Str :=
  match l with
  | [] => str "]"
  | s :: l => str ", " ++ quoted s ++ array_tail l
  end.
Definition print_array (l : list Str) : Str :=
  str "[" ++ match l with [] => str "]" | s :: l => quoted s ++ array_tail l end.

Lemma trim_start_quoted s r : trim_start (quoted s ++ r) = quoted s ++ r.
Proof. done. Qed.

Lemma trim_start_array_tail l : trim_start (array_tail l) = array_tail l.
Proof. by destruct l. Qed.

Lemma array_loop_tail fuel line l out :
  (List.length (array_tail l) < fuel)%nat -> out <> [] -> forallb no_control l = true ->
  array_loop fuel line (array_tail l) out = Some (Ok (out ++ l)).
Proof.
  revert fuel out. induction l as [|s l IH]; intros fuel out Hf Hne Hl.
  - destruct fuel; [simpl in Hf; lia|]. simpl. by rewrite app_nil_r.
  - simpl in Hl. apply andb_prop in Hl as [Hs Hl].
    destruct fuel as [|fuel]; [lia|]. destruct out as [|o out]; [done|].
    cbn [array_loop]. cbn [array_tail] in *.
    change (strip_prefix (str "]") (str ", " ++ quoted s ++ array_tail l)) with (@None Str).
    change (strip_prefix (str ",") (str ", " ++ quoted s ++ array_tail l))
      with (Some (str " " ++ quoted s ++ array_tail l)). cbv iota.
    change (trim_start (str " " ++ quoted s ++ array_tail l)) with (quoted s ++ array_tail l).
    change (strip_prefix (str "]") (quoted s ++ array_tail l)) with (@None Str). cbv iota.
    rewrite (proj2 (scan_basic_string_iff _ line s (array_tail l))) by done.
    rewrite trim_start_array_tail, IH; [by rewrite <- app_assoc| |by destruct out|done].
    rewrite !List.length_app in Hf. change (List.length (str ", ")) with 2%nat in Hf. lia.
Qed.

(* ------------------------------------------------------------------------ *)
(** ** Properties *)

(** String values have one spelling each. [basic_string] accepts exactly the
    double-quoted form of a string without control characters, in which only
    the backslash and the quote are escaped, followed by blanks or a comment,
    and returns that string. *)
Theorem toml_string_exact (value : Str) (line : Z) (s : Str) :
  basic_string value line = Ok s <->
  exists rest, value = quoted s ++ rest /\ no_control s = true
               /\ blank_or_comment rest = true.
Proof.
  unfold basic_string, trailing_blank. split.
  - intros ([p rest] & Hs%scan_basic_string_iff & H)%rbind_ok. destruct Hs as [-> Hc].
    case_match eqn:Hb; simplify_eq/=. eauto.
  - intros (rest & -> & Hc & Hb).
    rewrite (proj2 (scan_basic_string_iff _ _ s rest)) by done. cbn [rbind].
    by rewrite Hb.
Qed.

(** The array parser returns on every input, with as much fuel as the value
    has characters, and reads back the array it is given: printing any list of
    control-free strings and parsing the result yields that list. *)
Theorem toml_array_total_round_trip (value : Str) (line : Z) (l : list Str)
  (Hl : forallb no_control l = true) :
  is_Some (string_array_fuel (S (List.length value)) value line) /\
  string_array (print_array l) line = Ok l.
Proof.
  split.
  - unfold string_array_fuel. destruct (strip_prefix (str "[") value) as [r|] eqn:Hv; [|done].
    apply strip_prefix_Some in Hv as ->. apply array_loop_total.
    pose proof (trim_start_len r). simpl. lia.
  - unfold string_array.
    enough (string_array_fuel (S (List.length (print_array l))) (print_array l) line
            = Some (Ok l)) as -> by done.
    unfold string_array_fuel, print_array. destruct l as [|s l]; [done|].
    simpl in Hl. apply andb_prop in Hl as [Hs Hl].
    rewrite (proj2 (strip_prefix_Some (str "[") _ (quoted s ++ array_tail l))) by done.
    rewrite trim_start_quoted. set (n := List.length _). cbn [array_loop].
    change (strip_prefix (str "]") (quoted s ++ array_tail l)) with (@None Str). cbv iota.
    rewrite (proj2 (scan_basic_string_iff _ line s (array_tail l))) by done.
    rewrite trim_start_array_tail, array_loop_tail; [done| |done|done].
    unfold n. rewrite !List.length_app. change (List.length (str "[")) with 1%nat. lia.
Qed.

Lemma toml_array_total_round_trip_witness :
  string_array (str "[7, 8]") 1 = Err (SubsetErrorAt 1 ExpectedString) /\
  string_array (print_array [str "a"; str "b"]) 1 = Ok [str "a"; str "b"].
Proof.
  split; [vm_compute; reflexivity|].
  exact (proj2 (toml_array_total_round_trip (str "[]") 1 [str "a"; str "b"] eq_refl)).
Defined.
