(* ===== verification/Seccomp.v ===== *)
(** * The realm's system-call filter

    [crates/vitrin-realm-init/src/seccomp.rs] on x86_64: the table of denied system
    calls, its compiler to classic BPF and its installation. The kernel that runs
    the filter is [BpfMachine]: one equation per opcode the compiler emits. [None]
    of a definition is a panic. *)

From S2P Require Import Prelude Text.

(* ------------------------------------------------------------------------ *)
(** ** The table *)

Inductive EscapeClass : Type :=
| MaliciousAppInAShim | RansomwarePayloadInARealm | ReachableServiceLateralEscape | HijackedPromptInjectedAgent
| MaliciousAgentClient | MaliciousRelyingApp | ImpersonatingDaemon | CompromisedShim.
Inductive Predicate : Type :=
| Always
| ArgNotIn (arg : Z) (allowed : list Z).
Record Row : Type := {
  ro_name : Str;
  ro_nr : Z;
  ro_class : EscapeClass;
  ro_errno : Z;
  ro_predicate : Predicate }.

(** [libc]'s numbers. *)
Definition EPERM : Z := 1.
Definition ENOSYS : Z := 38.
Definition EAFNOSUPPORT : Z := 97.
Definition E2BIG : Z := 7.
Definition EACCES : Z := 13.

(** AF_UNSPEC, AF_UNIX, AF_INET, AF_INET6, AF_NETLINK. *)
Definition ALLOWED_SOCKET_FAMILIES : list Z := [0; 1; 2; 10; 16].
Definition ALLOWED_PERSONALITIES : list Z := [0; 4294967295].
Definition ROW_COUNT : Z := 13.

Definition deny (name : string) (nr : Z) (class : EscapeClass) (errno : Z) : Row :=
  {| ro_name := str name; ro_nr := nr; ro_class := class; ro_errno := errno; ro_predicate := Always |}.
Definition ROWS : list Row := [
  deny "keyctl" 250 ReachableServiceLateralEscape EPERM;
  deny "add_key" 248 ReachableServiceLateralEscape EPERM;
  deny "request_key" 249 ReachableServiceLateralEscape EPERM;
  deny "io_uring_setup" 425 CompromisedShim ENOSYS;
  {| ro_name := str "socket_family"; ro_nr := 41; ro_class := ReachableServiceLateralEscape; ro_errno := EAFNOSUPPORT;
     ro_predicate := ArgNotIn 0 ALLOWED_SOCKET_FAMILIES |};
  deny "ptrace" 101 CompromisedShim EPERM;
  deny "perf_event_open" 298 CompromisedShim EPERM;
  deny "bpf" 321 CompromisedShim EPERM;
  deny "userfaultfd" 323 CompromisedShim EPERM;
  {| ro_name := str "personality"; ro_nr := 135; ro_class := CompromisedShim; ro_errno := EPERM;
     ro_predicate := ArgNotIn 0 ALLOWED_PERSONALITIES |};
  deny "mbind" 237 CompromisedShim ENOSYS;
  deny "set_mempolicy" 238 CompromisedShim ENOSYS;
  deny "move_pages" 279 CompromisedShim ENOSYS ].

(* ------------------------------------------------------------------------ *)
(** ** The compiler *)

Record Insn : Type := { in_code : Z; in_jt : Z; in_jf : Z; in_k : Z }.

Definition LD_ABS_W : Z := 32.
Definition JEQ_K : Z := 21.
Definition JGE_K : Z := 53.
Definition JA : Z := 5.
Definition RET_K : Z := 6.
Definition OFF_NR : Z := 0.
Definition OFF_ARCH : Z := 4.
Definition OFF_ARGS : Z := 16.
Definition RET_KILL_PROCESS : Z := 2147483648.
Definition RET_ERRNO : Z := 327680.
Definition RET_ALLOW : Z := 2147418112.
Definition RET_DATA : Z := 65535.
Definition NATIVE_ARCH : Z := 3221225534.
Definition X32_SYSCALL_BIT : Z := 1073741824.

Inductive Label : Type := Fall | Skip (n : Z) | LAllow | LKill | LErrno (e : Z).
Record Draft : Type := { dr_code : Z; dr_jt : Label; dr_jf : Label; dr_k : Z }.
Inductive CompileError : Type := JumpTooFar | TooLong.

Definition as_u32 (z : Z) : Z := z mod 4294967296.
Definition load (k : Z) : Draft := {| dr_code := LD_ABS_W; dr_jt := Fall; dr_jf := Fall; dr_k := k |}.
Definition jeq (jt jf : Label) (k : Z) : Draft := {| dr_code := JEQ_K; dr_jt := jt; dr_jf := jf; dr_k := k |}.

Definition prologue : list Draft :=
  [load OFF_ARCH; jeq Fall LKill NATIVE_ARCH; load OFF_NR;
   {| dr_code := JGE_K; dr_jt := LKill; dr_jf := Fall; dr_k := X32_SYSCALL_BIT |}].
Definition is_always (row : Row) : bool := match ro_predicate row with Always => true | _ => false end.
Definition simple_rows (rows : list Row) : list Draft :=
  List.map (fun row => jeq (LErrno (ro_errno row)) Fall (as_u32 (ro_nr row))) (List.filter is_always rows).

(** The block of one argument predicate, past the reload of the number. *)
Definition block (row : Row) (arg : Z) (allowed : list Z) : list Draft :=
  let base := OFF_ARGS + arg * 8 in
  [load (base + 4); jeq Fall (LErrno (ro_errno row)) 0; load base]
  ++ List.map (fun value => jeq LAllow Fall value) allowed
  ++ [{| dr_code := JA; dr_jt := LErrno (ro_errno row); dr_jf := Fall; dr_k := 0 |}].
Fixpoint arg_blocks (rows : list Row) (first_block : bool) : result (list Draft) CompileError :=
  match rows with
  | [] => Ok []
  | row :: rows =>
      match ro_predicate row with
      | Always => arg_blocks rows first_block
      | ArgNotIn arg allowed =>
          let rest := Z.of_nat (length allowed) + 4 in
          if 255 <? rest then Err JumpTooFar
          else
            let? others := arg_blocks rows false in
            Ok ((if first_block then [] else [load OFF_NR]) ++ jeq Fall (Skip rest) (as_u32 (ro_nr row)) :: block row arg allowed ++ others)
      end
  end.
Definition draft (rows : list Row) : result (list Draft) CompileError :=
  let? blocks := arg_blocks rows true in Ok (prologue ++ simple_rows rows ++ blocks).

(** The errors denied with, each once. *)
Definition push_errno (errnos : list Z) (row : Row) : list Z :=
  if existsb (Z.eqb (ro_errno row)) errnos then errnos else errnos ++ [ro_errno row].
Definition errnos_of (rows : list Row) : list Z := fold_left push_errno rows [].
Fixpoint index_of (e : Z) (l : list Z) : option Z :=
  match l with
  | [] => None
  | x :: l => if x =? e then Some 0 else i ← index_of e l; Some (i + 1)
  end.

(** Where a label leads; [None] at a label the table has no place for. *)
Definition target_of (errnos : list Z) (body_len : Z) (label : Label) (at_ : Z) : option Z :=
  match label with
  | LAllow => Some body_len
  | LErrno e => i ← index_of e errnos; Some (body_len + 1 + i)
  | LKill => Some (body_len + 1 + Z.of_nat (length errnos))
  | Fall | Skip _ => Some (at_ + 1)
  end.
(** [resolve]. *)
Definition resolve (errnos : list Z) (body_len : Z) (label : Label) (at_ : Z) : option (result Z CompileError) :=
  match label with
  | Fall => Some (Ok 0)
  | Skip n => Some (Ok n)
  | _ => target ← target_of errnos body_len label at_;
         let d := target - at_ - 1 in
         if d <? 0 then None else Some (if 255 <? d then Err JumpTooFar else Ok d)
  end.
Definition resolve_draft (errnos : list Z) (body_len : Z) (d : Draft) (at_ : Z) : option (result Insn CompileError) :=
  if dr_code d =? JA then
    target ← target_of errnos body_len (dr_jt d) at_;
    let k := target - at_ - 1 in
    if k <? 0 then None else Some (Ok {| in_code := dr_code d; in_jt := 0; in_jf := 0; in_k := as_u32 k |})
  else
    rt ← resolve errnos body_len (dr_jt d) at_;
    match rt with
    | Err e => Some (Err e)
    | Ok jt =>
        rf ← resolve errnos body_len (dr_jf d) at_;
        match rf with
        | Err e => Some (Err e)
        | Ok jf => Some (Ok {| in_code := dr_code d; in_jt := jt; in_jf := jf; in_k := dr_k d |})
        end
    end.
Fixpoint resolve_all (errnos : list Z) (body_len : Z) (body : list Draft) (at_ : Z) : option (result (list Insn) CompileError) :=
  match body with
  | [] => Some (Ok [])
  | d :: body =>
      r ← resolve_draft errnos body_len d at_;
      match r with
      | Err e => Some (Err e)
      | Ok insn =>
          rest ← resolve_all errnos body_len body (at_ + 1);
          Some (let? insns := rest in Ok (insn :: insns))
      end
  end.

Definition ret (k : Z) : Insn := {| in_code := RET_K; in_jt := 0; in_jf := 0; in_k := k |}.
Definition errno_value (e : Z) : Z := Z.lor RET_ERRNO (Z.land (as_u32 e) RET_DATA).
Definition tail (errnos : list Z) : list Insn :=
  ret RET_ALLOW :: List.map (fun e => ret (errno_value e)) errnos ++ [ret RET_KILL_PROCESS].

Definition compile (rows : list Row) : option (result (list Insn) CompileError) :=
  match draft rows with
  | Err e => Some (Err e)
  | Ok body =>
      let errnos := errnos_of rows in
      resolved ← resolve_all errnos (Z.of_nat (length body)) body 0;
      match resolved with
      | Err e => Some (Err e)
      | Ok insns =>
          let out := insns ++ tail errnos in
          Some (if 4096 <? Z.of_nat (length out) then Err TooLong else Ok out)
      end
  end.

(* ------------------------------------------------------------------------ *)
(** ** Installing it *)

Record Enforced : Type := { en_rows : Z; en_instructions : Z }.

(** What the kernel answers: the reading of the no-new-privileges bit, and what
    the two calls that take a filter make of the program, an [errno] or nothing. *)
Record KernelAnswers : Type := {
  ka_no_new_privs : Z;
  ka_seccomp : list Insn -> option Z;
  ka_prctl : list Insn -> option Z }.

Definition verify_no_new_privs (k : KernelAnswers) : result unit Z :=
  if negb (ka_no_new_privs k =? 1) then Err EACCES else Ok tt.
(** [install]; the program the kernel took, if it took one. *)
Definition install (k : KernelAnswers) (prog : list Insn) : result unit Z * option (list Insn) :=
  match ka_seccomp k prog with
  | None => (Ok tt, Some prog)
  | Some first =>
      if negb (first =? ENOSYS) then (Err first, None)
      else match ka_prctl k prog with
           | None => (Ok tt, Some prog)
           | Some e => (Err e, None)
           end
  end.
(** [apply], and the filter in force after it. *)
Definition apply_filter (k : KernelAnswers) : option (result Enforced Z * option (list Insn)) :=
  match verify_no_new_privs k with
  | Err e => Some (Err e, None)
  | Ok _ =>
      compiled ← compile ROWS;
      match compiled with
      | Err _ => Some (Err E2BIG, None)
      | Ok prog =>
          let '(r, taken) := install k prog in
          Some (let? _ := r in Ok {| en_rows := Z.of_nat (length ROWS); en_instructions := as_u32 (Z.of_nat (length prog)) |}, taken)
      end
  end.

(* ------------------------------------------------------------------------ *)
(** ** The machine that runs it *)

(** [struct seccomp_data]: little endian, six 64-bit arguments. *)
Record SeccompData : Type := { sd_nr : Z; sd_arch : Z; sd_args : list Z }.
Definition low32 (v : Z) : Z := v mod 4294967296.
Definition high32 (v : Z) : Z := v / 4294967296.

(** The kernel's interpreter of a filter, from an instruction and an
    accumulator; its answer, or none where it has none. *)
Class BpfMachine : Type := {
  bpf_exec : list Insn -> SeccompData -> nat -> Z -> option Z;
  bpf_load_nr : forall prog d pc acc insn, prog !! pc = Some insn -> in_code insn = LD_ABS_W -> in_k insn = OFF_NR ->
    bpf_exec prog d pc acc = bpf_exec prog d (S pc) (sd_nr d);
  bpf_load_arch : forall prog d pc acc insn, prog !! pc = Some insn -> in_code insn = LD_ABS_W -> in_k insn = OFF_ARCH ->
    bpf_exec prog d pc acc = bpf_exec prog d (S pc) (sd_arch d);
  bpf_load_low : forall prog d pc acc insn i v, prog !! pc = Some insn -> in_code insn = LD_ABS_W ->
    sd_args d !! i = Some v -> in_k insn = OFF_ARGS + Z.of_nat i * 8 ->
    bpf_exec prog d pc acc = bpf_exec prog d (S pc) (low32 v);
  bpf_load_high : forall prog d pc acc insn i v, prog !! pc = Some insn -> in_code insn = LD_ABS_W ->
    sd_args d !! i = Some v -> in_k insn = OFF_ARGS + Z.of_nat i * 8 + 4 ->
    bpf_exec prog d pc acc = bpf_exec prog d (S pc) (high32 v);
  bpf_jeq : forall prog d pc acc insn, prog !! pc = Some insn -> in_code insn = JEQ_K ->
    bpf_exec prog d pc acc = bpf_exec prog d (S pc + Z.to_nat (if acc =? in_k insn then in_jt insn else in_jf insn)) acc;
  bpf_jge : forall prog d pc acc insn, prog !! pc = Some insn -> in_code insn = JGE_K ->
    bpf_exec prog d pc acc = bpf_exec prog d (S pc + Z.to_nat (if in_k insn <=? acc then in_jt insn else in_jf insn)) acc;
  bpf_ja : forall prog d pc acc insn, prog !! pc = Some insn -> in_code insn = JA ->
    bpf_exec prog d pc acc = bpf_exec prog d (S pc + Z.to_nat (in_k insn)) acc;
  bpf_ret : forall prog d pc acc insn, prog !! pc = Some insn -> in_code insn = RET_K ->
    bpf_exec prog d pc acc = Some (in_k insn) }.

(* ------------------------------------------------------------------------ *)
(** ** What the table means *)

Definition answers (nr : Z) (always : bool) (row : Row) : bool := Bool.eqb (is_always row) always && (as_u32 (ro_nr row) =? nr).
Definition arg_of (d : SeccompData) (arg : Z) : Z := nth (Z.to_nat arg) (sd_args d) 0.

(** A call of another architecture, or of the x32 table, is killed. A row without
    a predicate comes before one with; the first that names the call decides it,
    a predicate by the whole 64-bit argument. What no row names is allowed. *)
Definition verdict (rows : list Row) (d : SeccompData) : Z :=
  if negb (sd_arch d =? NATIVE_ARCH) then RET_KILL_PROCESS
  else if X32_SYSCALL_BIT <=? sd_nr d then RET_KILL_PROCESS
  else match List.find (answers (sd_nr d) true) rows with
       | Some row => errno_value (ro_errno row)
       | None =>
           match List.find (answers (sd_nr d) false) rows with
           | Some row =>
               match ro_predicate row with
               | ArgNotIn arg allowed =>
                   if existsb (Z.eqb (arg_of d arg)) allowed then RET_ALLOW else errno_value (ro_errno row)
               | Always => RET_ALLOW
               end
           | None => RET_ALLOW
           end
       end.

Definition data_ok (d : SeccompData) : Prop :=
  is_u32 (sd_nr d) /\ is_u32 (sd_arch d) /\ length (sd_args d) = 6%nat /\ Forall is_u64 (sd_args d).
(** A predicate is on one of the six arguments, over 32-bit values. *)
Definition row_ok (row : Row) : Prop :=
  match ro_predicate row with Always => True | ArgNotIn arg allowed => 0 <= arg < 6 /\ Forall is_u32 allowed end.

(* ------------------------------------------------------------------------ *)
(** ** Labels are resolved *)

Lemma index_of_Some e l i : index_of e l = Some i -> 0 <= i < Z.of_nat (length l) /\ l !! Z.to_nat i = Some e.
Proof.
  revert i. induction l as [|x l IH]; intros i; cbn [index_of]; [done|]. destruct (Z.eqb_spec x e) as [->|].
  - intros [= <-]. simpl. split; [lia|done].
  - intros (j & Hj & [= <-])%bind_Some. apply IH in Hj as [Hb Hl]. split; [simpl; lia|].
    replace (Z.to_nat (j + 1)) with (S (Z.to_nat j)) by lia. done.
Qed.

Lemma resolve_all_spec errnos n body at_ insns :
  resolve_all errnos n body at_ = Some (Ok insns) ->
  length insns = length body
  /\ forall i d, body !! i = Some d -> exists insn, insns !! i = Some insn /\ resolve_draft errnos n d (at_ + Z.of_nat i) = Some (Ok insn).
Proof.
  revert at_ insns. induction body as [|d body IH]; intros at_ insns; cbn [resolve_all].
  - intros [= <-]. done.
  - intros ([insn|e] & Hd & H)%bind_Some; [|done]. apply bind_Some in H as ([rest|e] & Hr & H); [|done]. injection H as <-.
    destruct (IH _ _ Hr) as [Hlen Hall]. split; [simpl; lia|]. intros [|i] d' Hi; simpl in Hi.
    + simplify_eq. exists insn. split; [done|]. by rewrite Z.add_0_r.
    + destruct (Hall i d' Hi) as (x & Hx & Hres). exists x. split; [done|]. rewrite <- Hres. f_equal. lia.
Qed.

Section machine.
Context {M : BpfMachine} (errnos : list Z) (body : list Draft) (insns : list Insn).
Context (Hres : resolve_all errnos (Z.of_nat (length body)) body 0 = Some (Ok insns)).
Let prog := insns ++ tail errnos.

(** Where control goes at a label. *)
Definition goto (d : SeccompData) (label : Label) (at_ : nat) (acc : Z) : option Z :=
  match label with
  | Fall => bpf_exec prog d (S at_) acc
  | Skip n => bpf_exec prog d (S at_ + Z.to_nat n) acc
  | LAllow => Some RET_ALLOW
  | LKill => Some RET_KILL_PROCESS
  | LErrno e => Some (errno_value e)
  end.

Lemma insns_length : length insns = length body.
Proof using Hres. by apply resolve_all_spec in Hres as [? _]. Qed.
Lemma tail_lookup i insn : tail errnos !! i = Some insn -> prog !! (length body + i)%nat = Some insn.
Proof using Hres. intros H. unfold prog. rewrite lookup_app_r by (rewrite insns_length; lia). rewrite insns_length. by replace (length body + i - length body)%nat with i by lia. Qed.
Lemma ret_exec d i k acc : tail errnos !! i = Some (ret k) -> bpf_exec prog d (length body + i) acc = Some k.
Proof using Hres. intros H. by rewrite (bpf_ret _ _ _ _ (ret k)) by (done || by apply tail_lookup). Qed.

Lemma tail_S i : tail errnos !! S i = (List.map (fun e => ret (errno_value e)) errnos ++ [ret RET_KILL_PROCESS]) !! i.
Proof using. done. Qed.

(** The code at the place a label leads to, but for the next instruction. *)
Lemma land_exec d label at_ acc target :
  target_of errnos (Z.of_nat (length body)) label at_ = Some target ->
  match label with
  | LAllow | LKill | LErrno _ => bpf_exec prog d (Z.to_nat target) acc = goto d label 0 acc
  | _ => True
  end.
Proof using Hres.
  destruct label as [|n| | |e]; cbn [target_of]; [done|done|..].
  - intros [= <-]. rewrite Nat2Z.id, <- (Nat.add_0_r (length body)). by apply ret_exec.
  - intros [= <-]. replace (Z.to_nat _) with (length body + (S (length errnos)))%nat by lia. apply ret_exec.
    rewrite tail_S.
    rewrite lookup_app_r by (rewrite List.length_map; lia). rewrite List.length_map. by replace (length errnos - length errnos)%nat with 0%nat by lia.
  - intros (i & Hi%index_of_Some & [= <-])%bind_Some. destruct Hi as [Hb Hl].
    replace (Z.to_nat _) with (length body + (S (Z.to_nat i)))%nat by lia. apply ret_exec.
    rewrite tail_S.
    assert (List.map (fun e => ret (errno_value e)) errnos !! Z.to_nat i = Some (ret (errno_value e))) as Hm
      by (change @List.map with @map; by rewrite list_lookup_fmap, Hl).
    by apply lookup_app_l_Some.
Qed.

Lemma resolve_exec d label at_ acc n :
  resolve errnos (Z.of_nat (length body)) label (Z.of_nat at_) = Some (Ok n) ->
  bpf_exec prog d (S at_ + Z.to_nat n) acc = goto d label at_ acc.
Proof using Hres.
  destruct label as [|m| | |e]; cbn [resolve].
  { intros [= <-]. cbn [goto]. f_equal. lia. }
  { by intros [= <-]. }
  all: intros (t & Ht & H)%bind_Some; destruct (t - Z.of_nat at_ - 1 <? 0) eqn:H0; [done|];
    destruct (255 <? _) eqn:H1; [done|]; injection H as <-; unbool;
    replace (S at_ + _)%nat with (Z.to_nat t) by lia; exact (land_exec d _ _ acc t Ht).
Qed.

(** The instruction a draft came to. *)
Lemma draft_at at_ dr :
  body !! at_ = Some dr -> exists insn, prog !! at_ = Some insn
    /\ resolve_draft errnos (Z.of_nat (length body)) dr (Z.of_nat at_) = Some (Ok insn).
Proof using Hres.
  intros Hb. destruct (resolve_all_spec _ _ _ _ _ Hres) as [_ Hall]. destruct (Hall at_ dr Hb) as (insn & Hi & Hr).
  exists insn. split; [by apply lookup_app_l_Some|]. by rewrite <- Hr.
Qed.
(** Its jumps, when it is not an unconditional one. *)
Lemma branch_at at_ dr :
  body !! at_ = Some dr -> dr_code dr <> JA -> exists insn, prog !! at_ = Some insn /\ in_code insn = dr_code dr /\ in_k insn = dr_k dr
    /\ (forall d acc, bpf_exec prog d (S at_ + Z.to_nat (in_jt insn)) acc = goto d (dr_jt dr) at_ acc)
    /\ (forall d acc, bpf_exec prog d (S at_ + Z.to_nat (in_jf insn)) acc = goto d (dr_jf dr) at_ acc).
Proof using Hres.
  intros Hb Hja. destruct (draft_at at_ dr Hb) as (insn & Hi & Hr). exists insn. split; [done|]. unfold resolve_draft in Hr.
  destruct (Z.eqb_spec (dr_code dr) JA); [done|]. apply bind_Some in Hr as ([jt|] & Ht & Hr); [|done].
  apply bind_Some in Hr as ([jf|] & Hf & Hr); [|done]. injection Hr as <-. split_and!; try done; intros; by apply resolve_exec.
Qed.

Lemma load_at at_ dr d acc w (Hb : body !! at_ = Some dr) (Hc : dr_code dr = LD_ABS_W) :
  (forall insn, prog !! at_ = Some insn -> in_code insn = LD_ABS_W -> in_k insn = dr_k dr -> bpf_exec prog d at_ acc = bpf_exec prog d (S at_) w) ->
  bpf_exec prog d at_ acc = bpf_exec prog d (S at_) w.
Proof using Hres.
  intros H. destruct (branch_at at_ dr Hb) as (insn & Hi & Hc' & Hk & _); [by rewrite Hc|]. apply (H insn); [done|congruence|done].
Qed.
Lemma load_nr_at at_ d acc : body !! at_ = Some (load OFF_NR) -> bpf_exec prog d at_ acc = bpf_exec prog d (S at_) (sd_nr d).
Proof using Hres. intros H. eapply load_at; [exact H|done|]. intros insn ???. by eapply bpf_load_nr. Qed.
Lemma load_arch_at at_ d acc : body !! at_ = Some (load OFF_ARCH) -> bpf_exec prog d at_ acc = bpf_exec prog d (S at_) (sd_arch d).
Proof using Hres. intros H. eapply load_at; [exact H|done|]. intros insn ???. by eapply bpf_load_arch. Qed.
Lemma jeq_at at_ d acc jt jf k :
  body !! at_ = Some (jeq jt jf k) -> bpf_exec prog d at_ acc = goto d (if acc =? k then jt else jf) at_ acc.
Proof using Hres.
  intros H. destruct (branch_at at_ _ H) as (insn & Hi & Hc & Hk & Ht & Hf); [done|].
  rewrite (bpf_jeq _ _ _ _ insn) by done. rewrite Hk. cbn [jeq dr_k]. destruct (acc =? k); [apply Ht|apply Hf].
Qed.
Lemma jge_at at_ d acc jt jf k :
  body !! at_ = Some {| dr_code := JGE_K; dr_jt := jt; dr_jf := jf; dr_k := k |} ->
  bpf_exec prog d at_ acc = goto d (if k <=? acc then jt else jf) at_ acc.
Proof using Hres.
  intros H. destruct (branch_at at_ _ H) as (insn & Hi & Hc & Hk & Ht & Hf); [done|].
  rewrite (bpf_jge _ _ _ _ insn) by done. rewrite Hk. cbn [dr_k]. destruct (k <=? acc); [apply Ht|apply Hf].
Qed.
Lemma ja_at at_ d acc e :
  body !! at_ = Some {| dr_code := JA; dr_jt := LErrno e; dr_jf := Fall; dr_k := 0 |} -> Z.of_nat (length body) < 1000000 ->
  Z.of_nat (length errnos) < 1000000 -> bpf_exec prog d at_ acc = Some (errno_value e).
Proof using Hres.
  intros H Hsmall Herr. destruct (draft_at at_ _ H) as (insn & Hi & Hr). unfold resolve_draft in Hr. cbn [dr_code dr_jt] in Hr.
  rewrite Z.eqb_refl in Hr. apply bind_Some in Hr as (t & Ht & Hr). destruct (t - Z.of_nat at_ - 1 <? 0) eqn:H0; [done|]. injection Hr as <-. unbool.
  rewrite (bpf_ja _ _ _ _ _ Hi) by done. cbn [in_k].
  assert (t <= Z.of_nat (length body) + 1000001) as Hle.
  { cbn [target_of] in Ht. apply bind_Some in Ht as (i & [Hi' _]%index_of_Some & [= <-]). lia. }
  unfold as_u32. rewrite Z.mod_small by lia. replace (S at_ + _)%nat with (Z.to_nat t) by lia. exact (land_exec d (LErrno e) _ acc t Ht).
Qed.

(** A load of an argument's half. *)
Lemma load_arg_at at_ d acc i v (high : bool) :
  sd_args d !! i = Some v -> body !! at_ = Some (load (OFF_ARGS + Z.of_nat i * 8 + if high then 4 else 0)) ->
  bpf_exec prog d at_ acc = bpf_exec prog d (S at_) (if high then high32 v else low32 v).
Proof using Hres.
  intros Hv H. eapply load_at; [exact H|done|]. intros insn Hi Hc Hk. unfold load in Hk. cbn [dr_k] in Hk.
  destruct high; [by eapply bpf_load_high|]. apply (bpf_load_low _ _ _ _ insn i v); [done..|lia].
Qed.

(** *** The segments of the body *)

Lemma simple_exec pre rows post d nr :
  body = pre ++ simple_rows rows ++ post ->
  bpf_exec prog d (length pre) nr
  = match List.find (answers nr true) rows with
    | Some row => Some (errno_value (ro_errno row))
    | None => bpf_exec prog d (length (pre ++ simple_rows rows)) nr
    end.
Proof using Hres.
  intros Hb. revert pre Hb. unfold simple_rows. induction rows as [|row rows IH]; intros pre Hb; cbn [List.find].
  { by rewrite app_nil_r. }
  unfold answers at 1. cbn [List.filter] in *. destruct (is_always row) eqn:Ha; cbn [Bool.eqb andb]; [|by apply IH].
  cbn [List.map app] in Hb |- *. rewrite (jeq_at (length pre) d nr (LErrno (ro_errno row)) Fall (as_u32 (ro_nr row)))
    by (rewrite Hb; by apply list_lookup_middle).
  rewrite Z.eqb_sym. destruct (as_u32 (ro_nr row) =? nr); cbn [goto]; [done|].
  specialize (IH (pre ++ [jeq (LErrno (ro_errno row)) Fall (as_u32 (ro_nr row))])).
  rewrite <- app_assoc in IH. specialize (IH Hb). rewrite length_app, Nat.add_1_r, <- app_assoc in IH. exact IH.
Qed.

Lemma allowed_exec pre allowed post d acc :
  body = pre ++ List.map (fun value => jeq LAllow Fall value) allowed ++ post ->
  bpf_exec prog d (length pre) acc
  = if existsb (Z.eqb acc) allowed then Some RET_ALLOW
    else bpf_exec prog d (length (pre ++ List.map (fun value => jeq LAllow Fall value) allowed)) acc.
Proof using Hres.
  revert pre. induction allowed as [|v allowed IH]; intros pre Hb; cbn [List.map existsb]; [by rewrite app_nil_r|].
  rewrite (jeq_at (length pre) d acc LAllow Fall v) by (rewrite Hb; by apply list_lookup_middle).
  destruct (acc =? v); cbn [goto orb]; [done|].
  specialize (IH (pre ++ [jeq LAllow Fall v])). rewrite <- app_assoc in IH. specialize (IH Hb).
  rewrite length_app, Nat.add_1_r, <- app_assoc in IH. exact IH.
Qed.
End machine.

Lemma split_u64 v : is_u64 v -> 0 <= low32 v < 4294967296 /\ 0 <= high32 v /\ v = high32 v * 4294967296 + low32 v.
Proof. unfold is_u64, u64_max, low32, high32. intros H. pose proof (Z.mod_pos_bound v 4294967296). pose proof (Z.div_pos v 4294967296). pose proof (Z.div_mod v 4294967296). lia. Qed.
(** A 64-bit value among 32-bit ones: its high half is zero, its low half among them. *)
Lemma arg_in v allowed :
  is_u64 v -> Forall is_u32 allowed -> existsb (Z.eqb v) allowed = (high32 v =? 0) && existsb (Z.eqb (low32 v)) allowed.
Proof.
  intros Hv Hall. pose proof (split_u64 v Hv) as (H1 & H2 & H3). induction Hall as [|a l Ha _ IH]; cbn [existsb]; [by rewrite andb_false_r|].
  rewrite IH. unfold is_u32, u32_max in Ha. destruct (Z.eqb_spec (high32 v) 0) as [H0|H0]; cbn [andb].
  - f_equal. destruct (Z.eqb_spec v a), (Z.eqb_spec (low32 v) a); lia.
  - destruct (Z.eqb_spec v a); [lia|done].
Qed.

Lemma block_length row arg allowed : length (block row arg allowed) = (length allowed + 4)%nat.
Proof. unfold block. rewrite !length_app, List.length_map. simpl. lia. Qed.

Section blocks.
Context {M : BpfMachine} (errnos : list Z) (body : list Draft) (insns : list Insn).
Context (Hres : resolve_all errnos (Z.of_nat (length body)) body 0 = Some (Ok insns)).
Context (Hbody : Z.of_nat (length body) < 1000000) (Herrnos : Z.of_nat (length errnos) < 1000000).
Let prog := insns ++ tail errnos.

Lemma block_exec pre row arg allowed post d acc :
  body = pre ++ block row arg allowed ++ post -> data_ok d -> 0 <= arg < 6 -> Forall is_u32 allowed ->
  bpf_exec prog d (length pre) acc
  = Some (if existsb (Z.eqb (arg_of d arg)) allowed then RET_ALLOW else errno_value (ro_errno row)).
Proof using Hres Hbody Herrnos.
  intros Hb (_ & _ & Hsix & Hu) Harg Hall. unfold block in Hb. cbn [app] in Hb.
  assert (exists v, sd_args d !! Z.to_nat arg = Some v) as [v Hv] by (apply lookup_lt_is_Some; lia).
  assert (arg_of d arg = v) as -> by (unfold arg_of; by apply nth_lookup_Some).
  assert (is_u64 v) as Hv64 by (by eapply Forall_lookup_1). rewrite (arg_in v allowed Hv64 Hall).
  rewrite (load_arg_at errnos body insns Hres (length pre) d acc (Z.to_nat arg) v true Hv)
    by (rewrite Hb, Z2Nat.id by lia; by apply list_lookup_middle).
  rewrite (cons_middle _ pre) in Hb. rewrite app_assoc in Hb.
  replace (S (length pre)) with (length (pre ++ [load (OFF_ARGS + arg * 8 + 4)])) by (rewrite length_app; simpl; lia).
  set (pre1 := pre ++ [load (OFF_ARGS + arg * 8 + 4)]) in *.
  rewrite (jeq_at errnos body insns Hres (length pre1) d (high32 v) Fall (LErrno (ro_errno row)) 0)
    by (rewrite Hb; by apply list_lookup_middle).
  destruct (high32 v =? 0); cbn [goto andb]; [|done].
  rewrite (cons_middle _ pre1), app_assoc in Hb.
  replace (S (length pre1)) with (length (pre1 ++ [jeq Fall (LErrno (ro_errno row)) 0])) by (rewrite length_app; simpl; lia).
  set (pre2 := pre1 ++ [jeq Fall (LErrno (ro_errno row)) 0]) in *.
  rewrite (load_arg_at errnos body insns Hres (length pre2) d (high32 v) (Z.to_nat arg) v false Hv)
    by (rewrite Hb, Z2Nat.id, Z.add_0_r by lia; by apply list_lookup_middle).
  rewrite (cons_middle _ pre2), app_assoc in Hb.
  replace (S (length pre2)) with (length (pre2 ++ [load (OFF_ARGS + arg * 8)])) by (rewrite length_app; simpl; lia).
  set (pre3 := pre2 ++ [load (OFF_ARGS + arg * 8)]) in *. rewrite <- (app_assoc (List.map _ _)) in Hb.
  rewrite (allowed_exec errnos body insns Hres pre3 allowed _ d (low32 v) Hb).
  destruct (existsb _ allowed); [done|]. rewrite app_assoc in Hb.
  apply (ja_at errnos body insns Hres); [|done|done]. rewrite Hb. by apply list_lookup_middle.
Qed.

(** The answer of the first argument predicate that names the call. *)
Definition arg_verdict (d : SeccompData) (rows : list Row) : Z :=
  match List.find (answers (sd_nr d) false) rows with
  | Some row =>
      match ro_predicate row with
      | ArgNotIn arg allowed => if existsb (Z.eqb (arg_of d arg)) allowed then RET_ALLOW else errno_value (ro_errno row)
      | Always => RET_ALLOW
      end
  | None => RET_ALLOW
  end.

Lemma blocks_exec rows d : data_ok d -> Forall row_ok rows ->
  forall pre first_block blocks acc, arg_blocks rows first_block = Ok blocks -> body = pre ++ blocks ->
    (first_block = true -> acc = sd_nr d) ->
    bpf_exec prog d (length pre) acc = Some (arg_verdict d rows).
Proof using Hres Hbody Herrnos.
  intros Hd Hrows. induction Hrows as [|row rows Hrow _ IH]; intros pre first_block blocks acc Hbl Hb Hacc; cbn [arg_blocks] in Hbl.
  - injection Hbl as <-. rewrite app_nil_r in Hb. rewrite <- Hb, <- (Nat.add_0_r (length body)).
    apply (ret_exec errnos body insns Hres). done.
  - unfold arg_verdict. cbn [List.find]. unfold row_ok in Hrow. unfold answers at 1, is_always.
    destruct (ro_predicate row) as [|arg allowed] eqn:Hp; [by eapply IH|]. destruct Hrow as [Harg Hall].
    destruct (255 <? _); [done|]. apply rbind_ok in Hbl as (others & Ho & [= <-]). cbn [Bool.eqb andb].
    set (reload := if first_block then [] else [load OFF_NR]) in Hb. rewrite app_assoc in Hb.
    assert (bpf_exec prog d (length pre) acc = bpf_exec prog d (length (pre ++ reload)) (sd_nr d)) as ->.
    { unfold reload in *. destruct first_block; [by rewrite app_nil_r, Hacc|].
      rewrite (load_nr_at errnos body insns Hres) by (rewrite Hb, <- app_assoc; by apply list_lookup_middle).
      by rewrite length_app, Nat.add_1_r. }
    set (pre1 := pre ++ reload) in *.
    rewrite (jeq_at errnos body insns Hres (length pre1) d (sd_nr d) Fall (Skip (Z.of_nat (length allowed) + 4)) (as_u32 (ro_nr row)))
      by (rewrite Hb; by apply list_lookup_middle).
    rewrite (cons_middle _ pre1), app_assoc in Hb. rewrite Z.eqb_sym.
    destruct (as_u32 (ro_nr row) =? sd_nr d); cbn [goto].
    + rewrite Hp. replace (S (length pre1)) with (length (pre1 ++ [jeq Fall (Skip (Z.of_nat (length allowed) + 4)) (as_u32 (ro_nr row))]))
        by (rewrite length_app; simpl; lia).
      exact (block_exec _ row arg allowed others d (sd_nr d) Hb Hd Harg Hall).
    + change (load _ :: jeq _ _ _ :: load _ :: _ ++ others) with (block row arg allowed ++ others) in Hb.
      rewrite app_assoc in Hb. etransitivity; [|exact (IH _ false others (sd_nr d) Ho Hb ltac:(done))]. f_equal.
      rewrite !length_app, block_length. simpl. lia.
Qed.

Lemma body_exec rows d : draft rows = Ok body -> data_ok d -> Forall row_ok rows ->
  bpf_exec prog d 0 0 = Some (verdict rows d).
Proof using Hres Hbody Herrnos.
  intros Hdraft Hd Hrows. unfold draft in Hdraft. apply rbind_ok in Hdraft as (blocks & Hbl & [= Hb]). symmetry in Hb.
  change (body = prologue ++ simple_rows rows ++ blocks) in Hb.
  assert (forall i dr, prologue !! i = Some dr -> body !! i = Some dr) as Hpro by (intros i dr H; rewrite Hb; by apply lookup_app_l_Some).
  rewrite (load_arch_at errnos body insns Hres) by (by apply Hpro).
  rewrite (jeq_at errnos body insns Hres _ _ _ Fall LKill NATIVE_ARCH) by (by apply Hpro).
  unfold verdict. destruct (sd_arch d =? NATIVE_ARCH); cbn [goto negb]; [|done].
  rewrite (load_nr_at errnos body insns Hres) by (by apply Hpro).
  rewrite (jge_at errnos body insns Hres _ _ _ LKill Fall X32_SYSCALL_BIT) by (by apply Hpro).
  destruct (X32_SYSCALL_BIT <=? sd_nr d); cbn [goto]; [done|].
  change 4%nat with (length prologue). rewrite (simple_exec errnos body insns Hres prologue rows blocks d (sd_nr d) Hb).
  destruct (List.find (answers (sd_nr d) true) rows); [done|].
  rewrite app_assoc in Hb. exact (blocks_exec rows d Hd Hrows _ true blocks (sd_nr d) Hbl Hb ltac:(done)).
Qed.
End blocks.

(** A program compiled is short. *)
Lemma compile_ok rows prog :
  compile rows = Some (Ok prog) ->
  exists body insns, draft rows = Ok body /\ prog = insns ++ tail (errnos_of rows)
    /\ resolve_all (errnos_of rows) (Z.of_nat (length body)) body 0 = Some (Ok insns)
    /\ Z.of_nat (length body) + Z.of_nat (length (errnos_of rows)) + 2 = Z.of_nat (length prog) /\ Z.of_nat (length prog) <= 4096.
Proof.
  unfold compile. destruct (draft rows) as [body|e]; [|done]. intros ([insns|e] & Hres & H)%bind_Some; [|done].
  destruct (Z.ltb_spec 4096 (Z.of_nat (length (insns ++ tail (errnos_of rows))))) as [|Hle]; [done|]. simplify_eq.
  exists body, insns. destruct (resolve_all_spec _ _ _ _ _ Hres) as [Hlen _]. split_and!; try done.
  rewrite length_app, Hlen. unfold tail. simpl. rewrite length_app, List.length_map. simpl. lia.
Qed.

(** Compiling never panics: every label a draft has leads somewhere later. *)
Lemma push_errno_in e rows l : e ∈ l \/ (exists row, row ∈ rows /\ ro_errno row = e) -> e ∈ fold_left push_errno rows l.
Proof.
  revert l. induction rows as [|row rows IH]; intros l [H|(r & Hr & He)]; cbn [fold_left]; [done|by apply elem_of_nil in Hr|..].
  - apply IH. left. unfold push_errno. destruct (existsb _ l); [done|]. apply elem_of_app. by left.
  - apply elem_of_cons in Hr as [->|Hr]; [|apply IH; right; eauto]. apply IH. left. unfold push_errno.
    destruct (existsb (Z.eqb (ro_errno row)) l) eqn:Hx.
    + apply existsb_exists in Hx as (x & Hx & Heq%Z.eqb_eq). rewrite <- He, Heq. by apply list_elem_of_In.
    + rewrite <- He. apply elem_of_app. right. by apply list_elem_of_singleton.
Qed.
Lemma index_of_In e l : e ∈ l -> exists i, index_of e l = Some i /\ 0 <= i.
Proof.
  induction l as [|x l IH]; cbn [index_of]; [by intros ?%elem_of_nil|]. intros H. destruct (Z.eqb_spec x e); [by exists 0|].
  apply elem_of_cons in H as [->|H]; [done|]. destruct (IH H) as (i & -> & Hi). cbn [mbind option_bind]. exists (i + 1). split; [done|lia].
Qed.

Definition label_ok (rows : list Row) (l : Label) : Prop := forall e, l = LErrno e -> exists row, row ∈ rows /\ ro_errno row = e.
Definition draft_ok (rows : list Row) (d : Draft) : Prop :=
  label_ok rows (dr_jt d) /\ label_ok rows (dr_jf d).

Lemma target_total rows body_len l at_ :
  label_ok rows l -> at_ < body_len -> exists t, target_of (errnos_of rows) body_len l at_ = Some t /\ at_ < t.
Proof.
  intros Hl Hat. destruct l as [|n| | |e]; cbn [target_of]; [exists (at_ + 1); split; [done|lia]..| | |].
  - exists body_len. split; [done|lia].
  - eexists. split; [done|lia].
  - destruct (index_of_In e (errnos_of rows)) as (i & -> & Hi); [apply push_errno_in; right; by apply Hl|].
    cbn [mbind option_bind]. eexists. split; [done|lia].
Qed.
Lemma resolve_total rows body_len l at_ :
  label_ok rows l -> at_ < body_len -> exists r, resolve (errnos_of rows) body_len l at_ = Some r.
Proof.
  intros Hl Hat. destruct l as [|n| | |e]; cbn [resolve]; [by eexists..| | |];
    (edestruct (target_total rows body_len _ at_ Hl Hat) as (t & -> & Ht); cbn [mbind option_bind];
     destruct (Z.ltb_spec (t - at_ - 1) 0); [lia|by eexists]).
Qed.
Lemma resolve_all_total rows body_len body at_ :
  Forall (draft_ok rows) body -> at_ + Z.of_nat (length body) <= body_len ->
  exists r, resolve_all (errnos_of rows) body_len body at_ = Some r.
Proof.
  intros Hall. revert at_. induction Hall as [|d body [Ht Hf] _ IH]; intros at_ Hlen; cbn [resolve_all]; [by eexists|].
  simpl in Hlen. assert (exists r, resolve_draft (errnos_of rows) body_len d at_ = Some r) as [r ->].
  { unfold resolve_draft. destruct (dr_code d =? JA).
    - destruct (target_total rows body_len _ at_ Ht ltac:(lia)) as (t & -> & Hlt). cbn [mbind option_bind].
      destruct (Z.ltb_spec (t - at_ - 1) 0); [lia|by eexists].
    - destruct (resolve_total rows body_len _ at_ Ht ltac:(lia)) as ([|] & ->); cbn [mbind option_bind]; [|by eexists].
      destruct (resolve_total rows body_len _ at_ Hf ltac:(lia)) as ([|] & ->); by eexists. }
  cbn [mbind option_bind]. destruct r; [|by eexists]. destruct (IH (at_ + 1) ltac:(lia)) as [r ->]. by eexists.
Qed.

Lemma draft_ok_all rows body : draft rows = Ok body -> Forall (draft_ok rows) body.
Proof.
  assert (forall jt jf k c, label_ok rows jt -> label_ok rows jf -> draft_ok rows {| dr_code := c; dr_jt := jt; dr_jf := jf; dr_k := k |}) as Hd
    by (intros; by split).
  assert (label_ok rows Fall /\ label_ok rows LKill /\ label_ok rows LAllow /\ forall n, label_ok rows (Skip n)) as (Hf & Hk & Ha & Hs) by done.
  intros (blocks & Hbl & [= <-])%rbind_ok. change (Forall (draft_ok rows) (prologue ++ simple_rows rows ++ blocks)).
  rewrite !Forall_app. split_and!.
  - unfold prologue, load, jeq. repeat (constructor; [by apply Hd|]). constructor.
  - unfold simple_rows. apply Forall_forall. intros d Hin. apply list_elem_of_In, List.in_map_iff in Hin as (row & <- & [Hrow _]%List.filter_In).
    apply Hd; [|done]. intros e [= <-]. exists row. split; [by apply list_elem_of_In|done].
  - assert (forall rows', (forall r, r ∈ rows' -> r ∈ rows) -> forall first blocks, arg_blocks rows' first = Ok blocks -> Forall (draft_ok rows) blocks)
      as H; [|by eapply (H rows)]. clear blocks Hbl. intros rows' Hin.
    induction rows' as [|row rows' IH]; intros first blocks Hbl; cbn [arg_blocks] in Hbl; [by simplify_eq|].
    destruct (ro_predicate row) as [|arg allowed]; [eapply IH; [|done]; intros r Hr; apply Hin; by right|].
    destruct (255 <? _); [done|]. apply rbind_ok in Hbl as (others & Ho & [= <-]).
    assert (label_ok rows (LErrno (ro_errno row))) as He by (intros e [= <-]; exists row; split; [apply Hin; by left|done]).
    apply Forall_app. split; [destruct first; [done|constructor; [by apply Hd|done]]|].
    constructor; [by apply Hd|]. change (Forall (draft_ok rows) (block row arg allowed ++ others)).
    apply Forall_app. split; [|eapply IH; [|exact Ho]; intros r Hr; apply Hin; by right].
    unfold block, load, jeq. rewrite !Forall_app. split_and!; [repeat (constructor; [by apply Hd|]); constructor| |constructor; [by apply Hd|done]].
    apply Forall_forall. intros d Hd'. apply list_elem_of_In, List.in_map_iff in Hd' as (v & <- & _). by apply Hd.
Qed.

Lemma compile_total rows : exists r, compile rows = Some r.
Proof.
  unfold compile. destruct (draft rows) as [body|e] eqn:Hd; [|by eexists].
  destruct (resolve_all_total rows (Z.of_nat (length body)) body 0) as ([insns|e] & ->); [by apply draft_ok_all|lia|by eexists..].
Qed.

Section exact.
Context {M : BpfMachine}.

Lemma compiled_exec rows prog d :
  compile rows = Some (Ok prog) -> Forall row_ok rows -> data_ok d -> bpf_exec prog d 0 0 = Some (verdict rows d).
Proof.
  intros Hc Hrows Hd. destruct (compile_ok rows prog Hc) as (body & insns & Hdraft & -> & Hres & Hlen & Hle).
  apply (body_exec (errnos_of rows) body insns Hres); [lia|lia|done|done|done].
Qed.

(** C10: the filter means its table. Whatever table is given, the compiler ends
    without a panic: with a program of at most 4096 instructions, or saying that a
    jump or the program is too long. And the kernel, run on the program for any
    system call, answers what the table means: killed when the call is of another
    architecture or of the x32 table; denied with the first matching row's error;
    a predicate decided by all 64 bits of its argument; otherwise allowed. No
    jump lands beside its block, and no row hides another. *)
Theorem seccomp_compile_exact (rows : list Row) (Hrows : Forall row_ok rows) :
  exists r, compile rows = Some r
    /\ forall prog, r = Ok prog ->
         Z.of_nat (length prog) <= 4096 /\ forall d, data_ok d -> bpf_exec prog d 0 0 = Some (verdict rows d).
Proof.
  destruct (compile_total rows) as [r Hr]. exists r. split; [done|]. intros prog ->. split; [|intros d Hd; by apply compiled_exec].
  by destruct (compile_ok rows prog Hr) as (? & ? & _ & _ & _ & _ & ?).
Qed.
End exact.

(* ------------------------------------------------------------------------ *)
(** ** The shipped table *)

Lemma ROWS_ok : Forall row_ok ROWS.
Proof.
  unfold ROWS. repeat (apply Forall_cons; split; [first [done|split; [lia|by repeat constructor]]|]). apply Forall_nil_2.
Qed.

(** The calls denied whatever their arguments, with their errors. *)
Definition DENIED : list (Z * Z) :=
  [(250, EPERM); (248, EPERM); (249, EPERM); (101, EPERM); (298, EPERM); (321, EPERM); (323, EPERM);
   (425, ENOSYS); (237, ENOSYS); (238, ENOSYS); (279, ENOSYS)].
Definition shipped (d : SeccompData) : Z :=
  if negb (sd_arch d =? NATIVE_ARCH) || (X32_SYSCALL_BIT <=? sd_nr d) then RET_KILL_PROCESS
  else match List.find (fun p => p.1 =? sd_nr d) DENIED with
       | Some p => errno_value p.2
       | None =>
           if sd_nr d =? 41 then if bool_decide (arg_of d 0 ∈ ALLOWED_SOCKET_FAMILIES) then RET_ALLOW else errno_value EAFNOSUPPORT
           else if sd_nr d =? 135 then if bool_decide (arg_of d 0 ∈ ALLOWED_PERSONALITIES) then RET_ALLOW else errno_value EPERM
           else RET_ALLOW
       end.

Lemma existsb_elem v l : existsb (Z.eqb v) l = bool_decide (v ∈ l).
Proof.
  destruct (existsb (Z.eqb v) l) eqn:H; symmetry.
  - apply bool_decide_eq_true. apply existsb_exists in H as (x & Hx & ->%Z.eqb_eq). by apply list_elem_of_In.
  - apply bool_decide_eq_false. intros Hin%list_elem_of_In. assert (existsb (Z.eqb v) l = true) by (apply existsb_exists; exists v; by rewrite Z.eqb_refl).
    congruence.
Qed.

Lemma shipped_verdict d : verdict ROWS d = shipped d.
Proof.
  unfold verdict, shipped. destruct (negb _); [done|]. destruct (X32_SYSCALL_BIT <=? sd_nr d); [done|]. cbn [orb].
  generalize (sd_nr d) as nr. intros nr.
  destruct (decide (nr ∈ [250; 248; 249; 425; 101; 298; 321; 323; 237; 238; 279])) as [Hin|Hout].
  - repeat (apply elem_of_cons in Hin as [->|Hin]; [by vm_compute|]). by apply elem_of_nil in Hin.
  - assert (List.find (answers nr true) ROWS = None) as ->.
    { rewrite !not_elem_of_cons in Hout. destruct_and!. unfold ROWS, deny, answers, is_always. cbn [List.find ro_predicate ro_nr Bool.eqb andb].
      unfold as_u32. rewrite !Z.mod_small by lia. by rewrite !(proj2 (Z.eqb_neq _ _)) by congruence. }
    assert (List.find (fun p => p.1 =? nr) DENIED = None) as ->.
    { rewrite !not_elem_of_cons in Hout. destruct_and!. unfold DENIED. cbn [List.find fst].
      by rewrite !(proj2 (Z.eqb_neq _ _)) by congruence. }
    unfold ROWS, deny, answers, is_always. cbn [List.find ro_predicate ro_nr Bool.eqb andb].
    change (as_u32 41) with 41. change (as_u32 135) with 135. rewrite (Z.eqb_sym 41), (Z.eqb_sym 135).
    destruct (nr =? 41); cbn [ro_predicate ro_errno]; [by rewrite existsb_elem|].
    destruct (nr =? 135); cbn [ro_predicate ro_errno]; [by rewrite existsb_elem|done].
Qed.

Lemma ROWS_compile : exists prog, compile ROWS = Some (Ok prog) /\ length prog = 38%nat.
Proof. eexists. split; [vm_compute; reflexivity|reflexivity]. Qed.

Section shipped.
Context {M : BpfMachine}.

(** C11: what a realm's app cannot ask of the kernel. When the installation reports
    success, the earlier step's no-new-privileges bit was read as set and the
    kernel took a program, and that program denies exactly the shipped table: the
    keyring calls, ptrace, perf events, BPF and userfaultfd as not permitted,
    io_uring and the memory-policy setters as not implemented, sockets but of the
    five families, personalities but the two harmless ones, everything of another
    architecture or of the x32 table killed, and every other call allowed. When it
    reports anything else, no filter is in force and the error says so. *)
Theorem seccomp_apply_exact (k : KernelAnswers) :
  exists r taken, apply_filter k = Some (r, taken)
    /\ match r with
       | Ok en => exists prog, taken = Some prog /\ ka_no_new_privs k = 1
           /\ (ka_seccomp k prog = None \/ (ka_seccomp k prog = Some ENOSYS /\ ka_prctl k prog = None))
           /\ en_rows en = ROW_COUNT /\ en_instructions en = Z.of_nat (length prog)
           /\ forall d, data_ok d -> bpf_exec prog d 0 0 = Some (shipped d)
       | Err e => taken = None
       end.
Proof.
  destruct ROWS_compile as (prog & Hc & Hlen). unfold apply_filter, verify_no_new_privs.
  destruct (Z.eqb_spec (ka_no_new_privs k) 1) as [Hnnp|]; cbn [negb]; [|by eexists _, _].
  rewrite Hc. cbn [mbind option_bind].
  assert (forall d, data_ok d -> bpf_exec prog d 0 0 = Some (shipped d)) as Hexec.
  { intros d Hd. rewrite <- shipped_verdict. by apply compiled_exec; [|apply ROWS_ok|]. }
  assert (as_u32 (Z.of_nat (length prog)) = Z.of_nat (length prog)) as Hn by by rewrite Hlen.
  unfold install. destruct (ka_seccomp k prog) as [first|] eqn:Hs; cbn [rbind].
  - destruct (Z.eqb_spec first ENOSYS) as [->|]; cbn [negb rbind]; [|by eexists _, _].
    destruct (ka_prctl k prog) as [e|] eqn:Hp; cbn [rbind]; [by eexists _, _|].
    eexists _, _. split; [reflexivity|]. exists prog. cbn [en_rows en_instructions]. split_and!; [done|done|by right|done|done|exact Hexec].
  - eexists _, _. split; [reflexivity|]. exists prog. cbn [en_rows en_instructions]. split_and!; [done|done|by left|done|done|exact Hexec].
Qed.
End shipped.

(* ------------------------------------------------------------------------ *)
(** ** A machine *)

Definition load_word (d : SeccompData) (k : Z) : option Z :=
  if k =? OFF_NR then Some (sd_nr d)
  else if k =? OFF_ARCH then Some (sd_arch d)
  else if k <? OFF_ARGS then None
  else
    v ← sd_args d !! Z.to_nat ((k - OFF_ARGS) / 8);
    if (k - OFF_ARGS) mod 8 =? 0 then Some (low32 v)
    else if (k - OFF_ARGS) mod 8 =? 4 then Some (high32 v) else None.
Fixpoint bpf_run (fuel : nat) (prog : list Insn) (d : SeccompData) (pc : nat) (acc : Z) : option Z :=
  match fuel, prog !! pc with
  | S fuel, Some insn =>
      if in_code insn =? LD_ABS_W then w ← load_word d (in_k insn); bpf_run fuel prog d (S pc) w
      else if in_code insn =? JEQ_K then bpf_run fuel prog d (S pc + Z.to_nat (if acc =? in_k insn then in_jt insn else in_jf insn)) acc
      else if in_code insn =? JGE_K then bpf_run fuel prog d (S pc + Z.to_nat (if in_k insn <=? acc then in_jt insn else in_jf insn)) acc
      else if in_code insn =? JA then bpf_run fuel prog d (S pc + Z.to_nat (in_k insn)) acc
      else if in_code insn =? RET_K then Some (in_k insn) else None
  | _, _ => None
  end.

(** Jumps go forward, so what is left of the program is fuel enough. *)
Lemma bpf_run_fuel prog d m n pc acc :
  (length prog - pc <= m)%nat -> (length prog - pc <= n)%nat -> bpf_run m prog d pc acc = bpf_run n prog d pc acc.
Proof.
  revert n pc acc. induction m as [|m IH]; intros n pc acc Hm Hn; cbn [bpf_run].
  - destruct n; [done|]. cbn [bpf_run]. by rewrite lookup_ge_None_2 by lia.
  - destruct (prog !! pc) as [insn|] eqn:Hi; [|destruct n; cbn [bpf_run]; by rewrite ?Hi].
    apply lookup_lt_Some in Hi as Hlt. destruct n as [|n]; [lia|]. cbn [bpf_run]. rewrite Hi.
    repeat case_match; try done; try (apply IH; lia).
    destruct (load_word d (in_k insn)); cbn [mbind option_bind]; [apply IH; lia|done].
Qed.
Lemma bpf_run_step prog d pc acc insn :
  prog !! pc = Some insn ->
  bpf_run (length prog - pc) prog d pc acc
  = if in_code insn =? LD_ABS_W then w ← load_word d (in_k insn); bpf_run (length prog - S pc) prog d (S pc) w
    else if in_code insn =? RET_K then Some (in_k insn)
    else
      let jump := if in_code insn =? JEQ_K then Some (if acc =? in_k insn then in_jt insn else in_jf insn)
                  else if in_code insn =? JGE_K then Some (if in_k insn <=? acc then in_jt insn else in_jf insn)
                  else if in_code insn =? JA then Some (in_k insn) else None in
      match jump with
      | Some j => bpf_run (length prog - (S pc + Z.to_nat j)) prog d (S pc + Z.to_nat j) acc
      | None => None
      end.
Proof.
  intros Hi. apply lookup_lt_Some in Hi as Hlt. replace (length prog - pc)%nat with (S (length prog - S pc)) by lia.
  cbn [bpf_run]. rewrite Hi. cbv zeta. destruct (in_code insn =? LD_ABS_W); [done|].
  destruct (Z.eqb_spec (in_code insn) JEQ_K) as [Hc|]; [rewrite Hc; apply bpf_run_fuel; lia|].
  destruct (Z.eqb_spec (in_code insn) JGE_K) as [Hc|]; [rewrite Hc; apply bpf_run_fuel; lia|].
  destruct (Z.eqb_spec (in_code insn) JA) as [Hc|]; [rewrite Hc; apply bpf_run_fuel; lia|].
  by destruct (in_code insn =? RET_K).
Qed.

Lemma load_word_arg d i v : sd_args d !! i = Some v ->
  load_word d (OFF_ARGS + Z.of_nat i * 8) = Some (low32 v) /\ load_word d (OFF_ARGS + Z.of_nat i * 8 + 4) = Some (high32 v).
Proof.
  intros Hv. assert (forall h, h = 0 \/ h = 4 -> load_word d (OFF_ARGS + Z.of_nat i * 8 + h) = Some (if h =? 0 then low32 v else high32 v)) as H.
  { intros h Hh. unfold load_word. rewrite (proj2 (Z.eqb_neq (OFF_ARGS + _ + _) OFF_NR)), (proj2 (Z.eqb_neq (OFF_ARGS + _ + _) OFF_ARCH)),
      (proj2 (Z.ltb_ge (OFF_ARGS + _ + _) OFF_ARGS)) by (unfold OFF_ARGS, OFF_NR, OFF_ARCH; lia).
    replace (OFF_ARGS + Z.of_nat i * 8 + h - OFF_ARGS) with (h + Z.of_nat i * 8) by lia.
    rewrite Z.div_add, Z.mod_add by done. by destruct Hh as [->| ->]; [change (0 / 8) with 0|change (4 / 8) with 0]; rewrite Z.add_0_l, Nat2Z.id, Hv. }
  split; [rewrite <- (Z.add_0_r (OFF_ARGS + _))|]; rewrite H by lia; done.
Qed.

#[export] Program Instance bpf_reference : BpfMachine := {| bpf_exec prog d pc acc := bpf_run (length prog - pc) prog d pc acc |}.
Next Obligation. intros prog d pc acc insn Hi Hc Hk. cbv beta; rewrite (bpf_run_step prog d pc acc insn Hi), Hc, Hk. done. Qed.
Next Obligation. intros prog d pc acc insn Hi Hc Hk. cbv beta. by rewrite (bpf_run_step prog d pc acc insn Hi), Hc, Hk. Qed.
Next Obligation.
  intros prog d pc acc insn i v Hi Hc Hv Hk. cbv beta; rewrite (bpf_run_step prog d pc acc insn Hi), Hc, Hk.
  by destruct (load_word_arg d i v Hv) as [-> _].
Qed.
Next Obligation.
  intros prog d pc acc insn i v Hi Hc Hv Hk. cbv beta; rewrite (bpf_run_step prog d pc acc insn Hi), Hc, Hk.
  by destruct (load_word_arg d i v Hv) as [_ ->].
Qed.
Next Obligation. intros prog d pc acc insn Hi Hc. cbv beta. by rewrite (bpf_run_step prog d pc acc insn Hi), Hc. Qed.
Next Obligation. intros prog d pc acc insn Hi Hc. cbv beta. by rewrite (bpf_run_step prog d pc acc insn Hi), Hc. Qed.
Next Obligation. intros prog d pc acc insn Hi Hc. cbv beta. by rewrite (bpf_run_step prog d pc acc insn Hi), Hc. Qed.
Next Obligation. intros prog d pc acc insn Hi Hc. cbv beta. by rewrite (bpf_run_step prog d pc acc insn Hi), Hc. Qed.

(** A socket to the hypervisor, AF_VSOCK, from inside a realm. *)
Definition demo_vsock : SeccompData := {| sd_nr := 41; sd_arch := NATIVE_ARCH; sd_args := [40; 1; 0; 0; 0; 0] |}.
Lemma seccomp_compile_exact_witness :
  exists prog, compile ROWS = Some (Ok prog) /\ bpf_exec (BpfMachine := bpf_reference) prog demo_vsock 0 0 = Some (errno_value EAFNOSUPPORT).
Proof.
  destruct (seccomp_compile_exact (M := bpf_reference) ROWS ROWS_ok) as (r & Hc & Hall).
  destruct ROWS_compile as (prog & Hp & _). rewrite Hp in Hc. injection Hc as <-.
  exists prog. split; [exact Hp|]. destruct (Hall prog eq_refl) as [_ H].
  rewrite (H demo_vsock); [reflexivity|]. by repeat constructor.
Defined.
(** On a kernel with only the older call. *)
Definition demo_kernel : KernelAnswers := {| ka_no_new_privs := 1; ka_seccomp _ := Some ENOSYS; ka_prctl _ := None |}.
Definition demo_keyctl : SeccompData := {| sd_nr := 250; sd_arch := NATIVE_ARCH; sd_args := [11; 0; 0; 0; 0; 0] |}.
Lemma seccomp_apply_exact_witness :
  exists en prog, apply_filter demo_kernel = Some (Ok en, Some prog)
    /\ bpf_exec (BpfMachine := bpf_reference) prog demo_keyctl 0 0 = Some (errno_value EPERM).
Proof.
  destruct (seccomp_apply_exact (M := bpf_reference) demo_kernel) as (r & taken & H & Hr).
  destruct r as [en|e].
  - destruct Hr as (prog & -> & _ & _ & _ & _ & Hexec). exists en, prog. split; [exact H|].
    rewrite (Hexec demo_keyctl); [reflexivity|]. by repeat constructor.
  - exfalso. destruct ROWS_compile as (prog & Hp & _). unfold apply_filter in H. rewrite Hp in H. cbn in H. discriminate H.
Defined.
