(* ===== verification/Identity.v ===== *)
(** * Principal identity

    [crates/vitrin-core/src/identity.rs]: the identity grammar, the principal
    registry file, its load-time checks, and the static-token verifier that
    binds a connection to an identity. The constructors of [IdentityShapeError],
    [ParseDetail] and [InvalidDetail] stand for the message texts. Reading the
    file ([StaticVerifier::load]) is I/O; the text, the file's status and the
    effective uid are arguments here. *)

From S2P Require Import Prelude Text Toml.

Definition MAX_IDENTITY_BYTES : Z := 2048.
Definition STATIC_TOKEN_SCHEME : Str := str "static-token".
Definition MIN_TOKEN_BYTES : Z := 16.
Definition DECOY_TOKEN : Bytes := repeat 0 64.

(** [PrincipalIdentity], a validated string. *)
Definition PrincipalIdentity := Str.

Inductive IdentityShapeError : Type :=
| IdEmpty
| IdTooLong
| IdNotAUri
| IdBadScheme
| IdNoPath
| IdEmptyTrustDomain
| IdEmptyPath
| IdEmptySegment
| IdForbiddenChar.

Definition scheme_char (c : Z) : bool :=
  is_ascii_lowercase c || is_ascii_digit c || contains_char (str "+.-") c.
Definition scheme_ok (scheme : Str) : bool :=
  match scheme with
  | c :: rest => is_ascii_lowercase c && forallb scheme_char rest
  | [] => false
  end.
Definition body_char (c : Z) : bool :=
  is_ascii_alphanumeric c || contains_char (str "._/-") c.

(** [PrincipalIdentity::parse]. *)
Definition identity_parse (s : Str) : result PrincipalIdentity IdentityShapeError :=
  if bool_decide (s = []) then Err IdEmpty else
  if MAX_IDENTITY_BYTES <? str_len s then Err IdTooLong else
  let? (scheme, rest) := ok_or (split_once (str "://") s) IdNotAUri in
  if negb (scheme_ok scheme) then Err IdBadScheme else
  let? (authority, path) := ok_or (split_once (str "/") rest) IdNoPath in
  if bool_decide (authority = []) then Err IdEmptyTrustDomain else
  if bool_decide (path = []) then Err IdEmptyPath else
  if existsb (fun w => bool_decide (w = [])) (split_char (ch "/") path)
  then Err IdEmptySegment else
  if negb (forallb body_char rest) then Err IdForbiddenChar else
  Ok s.

(* ------------------------------------------------------------------------ *)
(** ** The registry *)

Record StaticPrincipal : Type := {
  sp_identity : PrincipalIdentity;
  sp_token : Bytes;
  sp_uid : option Z }.

Record StaticVerifier : Type := {
  sv_rows : list StaticPrincipal;
  sv_required_uid : Z }.

Inductive ParseDetail : Type :=
| MalformedTableHeader
| TrailingAfterHeader
| NotAPrincipalTable
| KeyOutsideTable
| ExpectedKeyValue
| DuplicateKey (key : Str)
| UnknownKey (key : Str)
| BadIdentity (identity : Str) (e : IdentityShapeError)
| Subset (d : SubsetDetail).

Inductive InvalidDetail : Type :=
| NoPrincipals
| TokenTooShort (identity : PrincipalIdentity)
| UnsatisfiablePin (identity : PrincipalIdentity) (pin required_uid : Z)
| DuplicateIdentity (identity : PrincipalIdentity)
| MissingIdentity
| MissingToken (identity : PrincipalIdentity).

Inductive InsecureDetail : Type :=
| NotRegularFile
| ForeignOwner (st_uid euid : Z)
| OpenMode (mode : Z).

Inductive RegistryError : Type :=
| Insecure (detail : InsecureDetail)
| Parse (line : Z) (detail : ParseDetail)
| Invalid (detail : InvalidDetail).

(** The loop of [StaticVerifier::from_rows], over the rows before and after the
    current one. *)
Fixpoint check_rows (seen rows : list StaticPrincipal) (required_uid : Z)
    : result unit RegistryError :=
  match rows with
  | [] => Ok tt
  | row :: rest =>
      if Z.of_nat (List.length (sp_token row)) <? MIN_TOKEN_BYTES
      then Err (Invalid (TokenTooShort (sp_identity row)))
      else if is_some_and (sp_uid row) (fun pin => negb (pin =? required_uid))
      then Err (Invalid (UnsatisfiablePin (sp_identity row)
                           (default 0 (sp_uid row)) required_uid))
      else if existsb (fun r => str_eqb (sp_identity r) (sp_identity row)) seen
      then Err (Invalid (DuplicateIdentity (sp_identity row)))
      else check_rows (seen ++ [row]) rest required_uid
  end.

Definition from_rows (rows : list StaticPrincipal) (required_uid : Z)
    : result StaticVerifier RegistryError :=
  if bool_decide (List.length rows = 0%nat) then Err (Invalid NoPrincipals) else
  let? _ := check_rows [] rows required_uid in
  Ok {| sv_rows := rows; sv_required_uid := required_uid |}.

(** [check_registry_security], on the status of the opened file. *)
Record Stat : Type := { st_mode : Z; st_uid : Z }.
Definition S_IFMT : Z := 61440.
Definition S_IFREG : Z := 32768.
Definition check_registry_security (st : Stat) (euid : Z) : result unit RegistryError :=
  if negb (Z.land (st_mode st) S_IFMT =? S_IFREG) then Err (Insecure NotRegularFile) else
  if negb (st_uid st =? euid) then Err (Insecure (ForeignOwner (st_uid st) euid)) else
  let mode := Z.land (st_mode st) 511 in
  if negb (Z.land mode 63 =? 0) then Err (Insecure (OpenMode mode)) else
  Ok tt.

Record RawRow : Type := {
  raw_identity : option (Str * Z);
  raw_token : option Str;
  raw_uid : option Z }.
Definition raw_default : RawRow :=
  {| raw_identity := None; raw_token := None; raw_uid := None |}.

(** [str::lines]: a final line break opens no line, a carriage return before a
    break belongs to it. *)
Definition strip_cr (l : Str) : Str := default l (strip_suffix [13] l).
Fixpoint lines_aux (cur s : Str) : list Str :=
  match s with
  | [] => match cur with [] => [] | _ => [cur] end
  | c :: s => if c =? 10 then strip_cr cur :: lines_aux [] s else lines_aux (cur ++ [c]) s
  end.
Definition lines (s : Str) : list Str := lines_aux [] s.

Definition from_subset {A} (r : result A SubsetError) : result A RegistryError :=
  match r with
  | Ok a => Ok a
  | Err e => Err (Parse (se_line e) (Subset (se_detail e)))
  end.

(** One [key = value] line, applied to the last row. *)
Definition parse_key (row : RawRow) (line : Str) (line_no : Z)
    : result RawRow RegistryError :=
  let? (key, value) := ok_or (split_once (str "=") line) (Parse line_no ExpectedKeyValue) in
  let key := trim key in
  let value := trim_start value in
  if str_eqb key (str "identity") then
    if bool_decide (is_Some (raw_identity row))
    then Err (Parse line_no (DuplicateKey key)) else
    let? v := from_subset (basic_string value line_no) in
    Ok {| raw_identity := Some (v, line_no); raw_token := raw_token row;
          raw_uid := raw_uid row |}
  else if str_eqb key (str "token") then
    if bool_decide (is_Some (raw_token row))
    then Err (Parse line_no (DuplicateKey key)) else
    let? v := from_subset (basic_string value line_no) in
    Ok {| raw_identity := raw_identity row; raw_token := Some v; raw_uid := raw_uid row |}
  else if str_eqb key (str "uid") then
    if bool_decide (is_Some (raw_uid row))
    then Err (Parse line_no (DuplicateKey key)) else
    let? v := from_subset (integer value line_no) in
    Ok {| raw_identity := raw_identity row; raw_token := raw_token row; raw_uid := Some v |}
  else Err (Parse line_no (UnknownKey key)).

(** One line of the file. The rows are kept last first. *)
Definition parse_line (raw_rows : list RawRow) (raw_line : Str) (line_no : Z)
    : result (list RawRow) RegistryError :=
  let line := trim raw_line in
  if bool_decide (line = []) || starts_with (str "#") line then Ok raw_rows
  else if starts_with (str "[") line then
    let? (header, rest) := ok_or (table_header line) (Parse line_no MalformedTableHeader) in
    if negb (blank_or_comment rest) then Err (Parse line_no TrailingAfterHeader) else
    if negb (str_eqb header (str "[[principal]]"))
    then Err (Parse line_no NotAPrincipalTable)
    else Ok (raw_default :: raw_rows)
  else
    match raw_rows with
    | [] => Err (Parse line_no KeyOutsideTable)
    | row :: others =>
        let? row := parse_key row line line_no in Ok (row :: others)
    end.

Fixpoint parse_lines (raw_rows : list RawRow) (ls : list Str) (idx : Z)
    : result (list RawRow) RegistryError :=
  match ls with
  | [] => Ok raw_rows
  | l :: ls => let? raw_rows := parse_line raw_rows l (idx + 1) in parse_lines raw_rows ls (idx + 1)
  end.

(** The second pass: a complete row becomes a principal. *)
Definition finish_row (row : RawRow) : result StaticPrincipal RegistryError :=
  let? (identity_str, line) := ok_or (raw_identity row) (Invalid MissingIdentity) in
  let? identity :=
    match identity_parse identity_str with
    | Ok i => Ok i
    | Err e => Err (Parse line (BadIdentity identity_str e))
    end in
  let? token := ok_or (raw_token row) (Invalid (MissingToken identity)) in
  Ok {| sp_identity := identity; sp_token := Utf8.encode token; sp_uid := raw_uid row |}.

Fixpoint finish_rows (raw_rows : list RawRow) : result (list StaticPrincipal) RegistryError :=
  match raw_rows with
  | [] => Ok []
  | row :: rest =>
      let? p := finish_row row in
      let? ps := finish_rows rest in
      Ok (p :: ps)
  end.

Definition parse_registry (text : Str) : result (list StaticPrincipal) RegistryError :=
  let? raw_rows := parse_lines [] (lines text) 0 in
  finish_rows (reverse raw_rows).

(** [StaticVerifier::load], past the two reads. *)
Definition load (st : Stat) (text : Str) (euid : Z) : result StaticVerifier RegistryError :=
  let? _ := check_registry_security st euid in
  let? rows := parse_registry text in
  from_rows rows euid.

(* ------------------------------------------------------------------------ *)
(** ** Verification *)

Record PresentedCredential : Type := {
  claimed_identity : Str;
  credential_type : Str;
  credential : Bytes;
  peer_uid : Z }.

Inductive RejectionCause : Type :=
| UnsupportedScheme (presented : Str)
| UnknownIdentity
| BadToken
| PeerCredMismatch (required_uid peer_uid : Z).

Inductive VerifyOutcome : Type :=
| Bound (identity : PrincipalIdentity)
| Rejected (cause : RejectionCause)
| Unavailable (detail : Str).

#[export] Instance RejectionCause_eq_dec : EqDecision RejectionCause.
Proof. solve_decision. Defined.
#[export] Instance VerifyOutcome_eq_dec : EqDecision VerifyOutcome.
Proof. solve_decision. Defined.

Definition constant_time_eq (presented expected : Bytes) : bool :=
  if negb (List.length presented =? List.length expected)%nat then
    let burn := fold_left (fun acc b => Z.lor acc (Z.lxor b 165)) presented 0 in
    match burn with _ => false end
  else
    let diff := fold_left (fun acc p => Z.lor acc (Z.lxor p.1 p.2))
                  (List.combine presented expected) 0 in
    diff =? 0.

(** The scan over every row: the last one with the claimed identity. *)
Definition matched_row (rows : list StaticPrincipal) (claimed : Str) : option StaticPrincipal :=
  fold_left (fun m row => if str_eqb (sp_identity row) claimed then Some row else m) rows None.

Definition verify (self : StaticVerifier) (presented : PresentedCredential) : VerifyOutcome :=
  let scheme_ok := str_eqb (credential_type presented) STATIC_TOKEN_SCHEME in
  let matched := matched_row (sv_rows self) (claimed_identity presented) in
  let expected := match matched with Some r => sp_token r | None => DECOY_TOKEN end in
  let token_ok := constant_time_eq (credential presented) expected
                  && bool_decide (is_Some matched) in
  let row_uid := match matched with Some r => sp_uid r | None => None end in
  let uid_required :=
    if peer_uid presented =? sv_required_uid self
    then default (sv_required_uid self) row_uid
    else sv_required_uid self in
  let uid_ok := (peer_uid presented =? sv_required_uid self)
                && match row_uid with None => true | Some u => peer_uid presented =? u end in
  if negb scheme_ok then Rejected (UnsupportedScheme (credential_type presented)) else
  match matched with
  | None => Rejected UnknownIdentity
  | Some row =>
      if negb token_ok then Rejected BadToken else
      if negb uid_ok then Rejected (PeerCredMismatch uid_required (peer_uid presented)) else
      Bound (sp_identity row)
  end.

(* ------------------------------------------------------------------------ *)
(** ** The comparison *)

Lemma lor_fold_zero l acc :
  0 <= acc -> Forall (fun p : Z * Z => 0 <= p.1 /\ 0 <= p.2) l ->
  fold_left (fun acc p => Z.lor acc (Z.lxor p.1 p.2)) l acc = 0 <->
  acc = 0 /\ Forall (fun p => p.1 = p.2) l.
Proof.
  intros Ha Hl. revert acc Ha. induction Hl as [|[a b] l [H1 H2] Hl IH]; simpl; intros acc Ha.
  - split; [auto|by intros []].
  - assert (0 <= Z.lxor a b) by (apply Z.lxor_nonneg; tauto).
    rewrite IH by (by apply Z.lor_nonneg). rewrite Z.lor_eq_0_iff, Z.lxor_eq_0_iff.
    rewrite Forall_cons. simpl. tauto.
Qed.

Lemma combine_equal (l k : Bytes) :
  List.length l = List.length k ->
  Forall (fun p : Z * Z => p.1 = p.2) (List.combine l k) <-> l = k.
Proof.
  revert k. induction l as [|a l IH]; intros [|b k] H; simplify_eq/=; [by split|].
  rewrite Forall_cons, IH by done. simpl. split; [intros []; congruence|intros; by simplify_eq].
Qed.

Lemma combine_nonneg (l k : Bytes) :
  is_bytes l -> is_bytes k ->
  Forall (fun p : Z * Z => 0 <= p.1 /\ 0 <= p.2) (List.combine l k).
Proof.
  unfold is_bytes, is_u8. intros Hl. revert k. induction Hl as [|a l Ha Hl IH]; intros k Hk;
    [constructor|]. destruct Hk as [|b k Hb Hk]; constructor; [simpl; lia|auto].
Qed.

Lemma constant_time_eq_spec l k :
  is_bytes l -> is_bytes k -> constant_time_eq l k = true <-> l = k.
Proof.
  intros Hl Hk. unfold constant_time_eq.
  destruct (Nat.eqb_spec (List.length l) (List.length k)) as [He|He]; simpl.
  - rewrite Z.eqb_eq, lor_fold_zero by (done || by apply combine_nonneg).
    rewrite combine_equal by done. tauto.
  - split; [done|]. by intros ->.
Qed.

(* ------------------------------------------------------------------------ *)
(** ** The rows of a loaded verifier *)

(** What [from_rows] checks of a registry. *)
Definition registry_wf (rows : list StaticPrincipal) (required_uid : Z) : Prop :=
  rows <> [] /\ NoDup (sp_identity <$> rows) /\
  Forall (fun r => MIN_TOKEN_BYTES <= Z.of_nat (List.length (sp_token r))
                   /\ (sp_uid r = None \/ sp_uid r = Some required_uid)) rows.

Lemma check_rows_Ok seen rows uid :
  check_rows seen rows uid = Ok tt <->
  Forall (fun r => MIN_TOKEN_BYTES <= Z.of_nat (List.length (sp_token r))
                   /\ (sp_uid r = None \/ sp_uid r = Some uid)) rows
  /\ Forall (fun r => ~ In (sp_identity r) (sp_identity <$> seen)) rows
  /\ NoDup (sp_identity <$> rows).
Proof.
  revert seen. induction rows as [|row rows IH]; intros seen; simpl.
  - split; [repeat split; constructor|done].
  - rewrite !Forall_cons, NoDup_cons, list_elem_of_In.
    destruct (Z.ltb_spec (Z.of_nat (List.length (sp_token row))) MIN_TOKEN_BYTES);
      [split; [done|lia]|].
    assert (is_some_and (sp_uid row) (fun pin => negb (pin =? uid)) = true <->
            ~ (sp_uid row = None \/ sp_uid row = Some uid)) as Hpin.
    { destruct (sp_uid row) as [pin|]; simpl; [|by intuition].
      destruct (Z.eqb_spec pin uid); simpl; split; intros; intuition congruence. }
    destruct (is_some_and _ _) eqn:Hp; [split; [done|tauto]|]. clear Hp.
    assert (sp_uid row = None \/ sp_uid row = Some uid) as Hok.
    { destruct (decide (sp_uid row = None)); [by left|]. right.
      destruct (decide (sp_uid row = Some uid)); [done|].
      exfalso. enough (false = true) by done. apply Hpin. tauto. }
    assert (existsb (fun r => str_eqb (sp_identity r) (sp_identity row)) seen = true <->
            In (sp_identity row) (sp_identity <$> seen)) as Hdup.
    { rewrite existsb_exists, <- list_elem_of_In, list_elem_of_fmap. split.
      - intros (r & Hr & He%str_eqb_eq). exists r. by rewrite list_elem_of_In.
      - intros (r & Hr & Hin%list_elem_of_In). exists r. split; [done|]. by apply str_eqb_eq. }
    destruct (existsb _ seen) eqn:Hex; [split; [done|tauto]|].
    rewrite IH, fmap_app. simpl.
    assert (Forall (fun r => ~ In (sp_identity r)
              ((sp_identity <$> seen) ++ [sp_identity row])) rows <->
            Forall (fun r => ~ In (sp_identity r) (sp_identity <$> seen)) rows
            /\ ~ In (sp_identity row) (sp_identity <$> rows)) as ->.
    { rewrite <- list_elem_of_In, list_elem_of_fmap, !List.Forall_forall. setoid_rewrite in_app_iff.
      simpl. split.
      - intros Hf. split; [intros r Hr ?; by apply (Hf r); [|left]|].
        intros (r & He & Hr%list_elem_of_In). apply (Hf r Hr). auto.
      - intros [Hf Hn] r Hr [?|[He|[]]]; [by eapply Hf|]. apply Hn.
        exists r. by rewrite list_elem_of_In. }
    intuition congruence.
Qed.

Lemma from_rows_Ok rows uid v :
  from_rows rows uid = Ok v <->
  registry_wf rows uid /\ v = {| sv_rows := rows; sv_required_uid := uid |}.
Proof.
  unfold from_rows, registry_wf. case_bool_decide as Hl.
  - destruct rows; [|done]. split; [done|]. by intros [[] _].
  - assert (rows <> []) by (by destruct rows).
    destruct (check_rows [] rows uid) as [[]|e] eqn:Hc; simpl.
    + apply check_rows_Ok in Hc as (H1 & _ & H2). split; intros; destruct_and?; simplify_eq; auto.
    + split; [done|]. intros ((_ & H2 & H1) & _).
      assert (check_rows [] rows uid = Ok tt) as Hk; [|by rewrite Hk in Hc].
      apply check_rows_Ok. split; [done|split; [|done]].
      apply List.Forall_forall. simpl. tauto.
Qed.

Lemma matched_row_fold rows claimed r m :
  NoDup (sp_identity <$> rows) ->
  fold_left (fun m row => if str_eqb (sp_identity row) claimed then Some row else m) rows m
    = Some r <->
  (In r rows /\ sp_identity r = claimed)
  \/ (m = Some r /\ ~ In claimed (List.map sp_identity rows)).
Proof.
  revert m. induction rows as [|row rows IH]; simpl; intros m Hnd; [tauto|].
  apply NoDup_cons in Hnd as [Hni Hnd]. rewrite IH by done.
  rewrite list_elem_of_In in Hni. change (sp_identity <$> rows) with (List.map sp_identity rows) in Hni.
  destruct (str_eqb (sp_identity row) claimed) eqn:He.
  - apply str_eqb_eq in He. subst. split; [intros [[? ?]|[? ?]]; simplify_eq; tauto|].
    intros [[[->|Hin] Hr]|[_ Hn]]; [right; auto|left; auto|exfalso; auto].
  - assert (sp_identity row <> claimed) by (intros Hc%str_eqb_eq; congruence).
    intuition congruence.
Qed.

Lemma matched_row_Some rows claimed r :
  NoDup (sp_identity <$> rows) ->
  matched_row rows claimed = Some r <-> In r rows /\ sp_identity r = claimed.
Proof. intros. unfold matched_row. rewrite matched_row_fold by done. intuition done. Qed.

(** The verifier binds a connection to an identity exactly when the scheme
    is the static-token scheme, the registry has a row of that identity, the
    presented bytes equal that row's token, and the kernel-reported uid is the
    required one (and the row's pin, when it has one). No credential whatever
    binds an identity without a row, and every binding token has at least
    [MIN_TOKEN_BYTES] bytes. *)
Theorem identity_verify_exact (rows : list StaticPrincipal) (uid : Z) (v : StaticVerifier)
  (c : PresentedCredential) (p : PrincipalIdentity)
  (Hv : from_rows rows uid = Ok v)
  (Hb : is_bytes (credential c)) (Hrb : Forall (fun r => is_bytes (sp_token r)) rows) :
  (verify v c = Bound p <->
   credential_type c = STATIC_TOKEN_SCHEME /\ p = claimed_identity c /\
   peer_uid c = uid /\
   exists row, In row rows /\ sp_identity row = p /\ sp_token row = credential c)
  /\ (verify v c = Bound p -> MIN_TOKEN_BYTES <= Z.of_nat (List.length (credential c))).
Proof.
  apply from_rows_Ok in Hv as [(Hne & Hnd & Hrows) ->].
  assert (verify {| sv_rows := rows; sv_required_uid := uid |} c = Bound p <->
   credential_type c = STATIC_TOKEN_SCHEME /\ p = claimed_identity c /\
   peer_uid c = uid /\
   exists row, In row rows /\ sp_identity row = p /\ sp_token row = credential c) as Hiff.
  { unfold verify. simpl.
    destruct (str_eqb (credential_type c) STATIC_TOKEN_SCHEME) eqn:Hs; simpl; cycle 1.
    { split; [done|]. intros (He%str_eqb_eq & _). congruence. }
    apply str_eqb_eq in Hs.
    destruct (matched_row rows (claimed_identity c)) as [row|] eqn:Hm; cycle 1.
    { split; [done|]. intros (_ & -> & _ & row & Hin & Hid & _).
      assert (matched_row rows (claimed_identity c) = Some row) as Hk
        by (by apply matched_row_Some). congruence. }
    apply matched_row_Some in Hm as [Hin Hid]; [|done].
    rewrite List.Forall_forall in Hrows, Hrb. destruct (Hrows row Hin) as [_ Hpin].
    rewrite bool_decide_true by done. rewrite andb_true_r.
    pose proof (constant_time_eq_spec (credential c) (sp_token row) Hb (Hrb row Hin)) as Hct.
    assert (forall row', In row' rows -> sp_identity row' = claimed_identity c -> row' = row) as Huniq.
    { intros row' Hin' Hid'. enough (Some row' = Some row) by congruence.
      transitivity (matched_row rows (claimed_identity c)); [symmetry|]; by apply matched_row_Some. }
    destruct (constant_time_eq _ _); simpl; cycle 1.
    { split; [done|]. intros (_ & -> & _ & row' & Hin' & Hid' & Ht).
      rewrite (Huniq row') in Ht by done. enough (false = true) by done. by apply Hct. }
    assert ((peer_uid c =? uid) && match sp_uid row with None => true | Some u => peer_uid c =? u end
            = (peer_uid c =? uid))%bool as ->.
    { destruct Hpin as [->| ->]; [by rewrite andb_true_r|by rewrite andb_diag]. }
    destruct (Z.eqb_spec (peer_uid c) uid); simpl; [|by split; [done|intros (_ & _ & ? & _)]].
    split; [|by intros (_ & -> & _); rewrite Hid].
    intros [= <-]. repeat split; [done|done|done|]. exists row. repeat split; [done|].
    symmetry. by apply Hct. }
  split; [done|]. intros (_ & _ & _ & row & Hin & _ & <-)%Hiff.
  rewrite List.Forall_forall in Hrows. by apply Hrows.
Qed.

Lemma identity_verify_exact_witness :
  let row := {| sp_identity := str "vitrin://local/agent/demo";
                sp_token := str "0123456789abcdef"; sp_uid := None |} in
  verify {| sv_rows := [row]; sv_required_uid := 1000 |}
    {| claimed_identity := str "vitrin://local/agent/demo";
       credential_type := str "static-token"; credential := str "0123456789abcdef";
       peer_uid := 1000 |} = Bound (str "vitrin://local/agent/demo").
Proof.
  intros row.
  refine (proj2 (proj1 (identity_verify_exact [row] 1000 _ _ _ _ _ _)) _).
  - vm_compute. reflexivity.
  - repeat constructor; unfold is_u8, u8_max; vm_compute; discriminate.
  - repeat constructor; unfold is_u8, u8_max; vm_compute; discriminate.
  - split; [reflexivity|]. split; [reflexivity|]. split; [reflexivity|].
    exists row. split; [by left|]. split; reflexivity.
Defined.

(* ------------------------------------------------------------------------ *)
(** ** The identity grammar *)

(** A character of a trust domain or of a path segment. *)
Definition segment_char (c : Z) : bool := body_char c && negb (c =? ch "/").
Definition segment (w : Str) : Prop := w <> [] /\ forallb segment_char w = true.

(** [scheme://trust-domain/segment/...]. *)
Definition identity_shape (s : Str) : Prop :=
  str_len s <= MAX_IDENTITY_BYTES /\
  exists scheme authority segs,
    s = scheme ++ str "://" ++ authority ++ str "/" ++ join (ch "/") segs /\
    scheme_ok scheme = true /\ segment authority /\ segs <> [] /\ Forall segment segs.

Lemma scheme_no_colon scheme : scheme_ok scheme = true -> ~ In 58 scheme.
Proof.
  destruct scheme as [|c cs]; simpl; [done|]. intros [Hc Hcs]%andb_prop [->|Hin]; [done|].
  by apply (proj1 (forallb_forall _ _) Hcs) in Hin.
Qed.

Lemma segment_no_slash w : forallb segment_char w = true -> ~ In 47 w.
Proof. intros Hw Hin. by apply (proj1 (forallb_forall _ _) Hw) in Hin. Qed.

Lemma forallb_segment w :
  forallb segment_char w = true <-> forallb body_char w = true /\ ~ In 47 w.
Proof.
  split.
  - intros Hw. split; [|by apply segment_no_slash].
    apply forallb_forall. intros c Hc. apply (proj1 (forallb_forall _ _) Hw) in Hc.
    by apply andb_prop in Hc as [].
  - intros [Hw Hn]. apply forallb_forall. intros c Hc. apply andb_true_intro.
    split; [by apply (proj1 (forallb_forall _ _) Hw)|]. apply negb_true_iff, Z.eqb_neq.
    intros ->. by apply Hn.
Qed.

Lemma forallb_join (f : Z -> bool) c ws :
  f c = true -> forallb f (join c ws) = true <-> Forall (fun w => forallb f w = true) ws.
Proof.
  intros Hc. destruct ws as [|w ws]; [by split|]. simpl. rewrite forallb_app, andb_true_iff, Forall_cons.
  apply and_iff_compat_l. induction ws as [|v ws IH]; simpl; [by split|].
  rewrite Hc. cbn [andb]. rewrite forallb_app, andb_true_iff, Forall_cons, IH. done.
Qed.

(** An identity is accepted exactly when it has the documented shape: at
    most 2048 bytes, a lowercase scheme, a nonempty trust domain and a nonempty
    path of nonempty segments, all over the narrow ASCII alphabet; and the
    accepted identity is the presented string, unchanged. *)
Theorem identity_parse_exact (s p : Str) :
  identity_parse s = Ok p <-> p = s /\ identity_shape s.
Proof.
  unfold identity_parse. split.
  - case_bool_decide; [done|]. case_match eqn:Hl; [done|]. apply Z.ltb_ge in Hl.
    intros ([scheme rest] & Hs%ok_or_ok%split_once_Some & H')%rbind_ok.
    case_match eqn:Hsch; [done|]. apply negb_false_iff in Hsch.
    apply rbind_ok in H' as ([auth path] & Ha%ok_or_ok%split_once_char & H').
    destruct Ha as [-> Hna]. do 2 (case_bool_decide; [done|]).
    case_match eqn:Hseg; [done|]. case_match eqn:Hbody; [done|]. apply negb_false_iff in Hbody.
    simplify_eq. split; [done|]. split; [done|].
    exists scheme, auth, (split_char (ch "/") path). rewrite join_split_char.
    rewrite forallb_app in Hbody. simpl in Hbody. apply andb_prop in Hbody as [Hba Hbp].
    split; [done|]. split; [done|]. split; [split; [done|by apply forallb_segment]|].
    split; [apply split_char_nonempty|].
    pose proof (split_char_words (ch "/") path) as Hw.
    rewrite <- (join_split_char (ch "/") path), forallb_join in Hbp by done.
    rewrite List.Forall_forall in Hw, Hbp |- *. intros w Hin. split.
    + intros ->. apply not_true_iff_false in Hseg. apply Hseg, existsb_exists. by exists [].
    + apply forallb_segment. split; [by apply Hbp|by apply Hw].
  - intros (-> & Hl & scheme & auth & segs & -> & Hsch & [Hane Ha] & Hne & Hsegs).
    rewrite bool_decide_false by (by destruct scheme).
    rewrite (proj2 (Z.ltb_ge _ _)) by done.
    change (str "://") with (58 :: [47; 47]) at 1.
    rewrite split_once_first by (by apply scheme_no_colon). cbn [ok_or rbind].
    rewrite Hsch. simpl negb. cbv iota.
    apply forallb_segment in Ha as [Hba Hna].
    change (str "/") with [47] at 1. rewrite (split_once_first 47 [] auth) by done.
    cbn [ok_or rbind]. rewrite bool_decide_false by done.
    assert (Forall (fun w => ~ In (ch "/") w) segs) as Hns.
    { eapply Forall_impl; [exact Hsegs|]. intros w [_ Hw]. by apply segment_no_slash. }
    assert (join (ch "/") segs <> []) as Hjne.
    { destruct Hsegs as [|w ws [Hw _]]; [done|]. simpl. by destruct w. }
    rewrite bool_decide_false by done. rewrite split_char_join by done.
    assert (existsb (fun w : list Z => bool_decide (w = [])) segs = false) as ->.
    { apply not_true_iff_false. rewrite existsb_exists. intros (w & Hin & ->%bool_decide_eq_true).
      rewrite List.Forall_forall in Hsegs. by destruct (Hsegs [] Hin). }
    rewrite !forallb_app, Hba. simpl.
    assert (forallb body_char (join (ch "/") segs) = true) as Hj; [|by rewrite Hj].
    apply forallb_join; [done|].
    eapply Forall_impl; [exact Hsegs|]. intros w [_ Hw]. by apply forallb_segment in Hw as [].
Qed.
