(* ===== verification/Passphrase.v ===== *)
(** * The lock's passphrase file

    [crates/vitrin-core/src/lock/passphrase.rs]: one line of text that says what
    the lock screen's passphrase derives to. Argon2 is code of another crate: its
    parameter check and its derivation are arguments, [None] an error of
    theirs. A parse is [None] where the code panics. *)

From S2P Require Import Prelude Text Identity.

Definition MAGIC : Str := str "vitrin-lock-v1".
Definition KDF : Str := str "argon2id".
Definition SALT_LEN : nat := 16.
Definition DIGEST_LEN : nat := 32.
Definition DEFAULT_MEMORY_KIB : Z := 19456.
Definition DEFAULT_TIME_COST : Z := 2.
Definition DEFAULT_PARALLELISM : Z := 1.
Definition MAX_MEMORY_KIB : Z := 1048576.
Definition MAX_TIME_COST : Z := 10.
Definition MAX_PARALLELISM : Z := 4.
Definition MIN_MEMORY_KIB : Z := 8.
Definition MIN_TIME_COST : Z := 1.
Definition MAX_ATTEMPT_BYTES : Z := 512.

Inductive PassphraseError : Type :=
| PassNotAbsolute | PassIo | PassInsecure | PassMalformed (detail : string).
#[export] Instance PassphraseError_eq_dec : EqDecision PassphraseError.
Proof. solve_decision. Defined.

Record PassphraseFile : Type := {
  pf_memory_kib : Z; pf_time_cost : Z; pf_parallelism : Z; pf_salt : Bytes; pf_digest : Bytes }.
#[export] Instance PassphraseFile_eq_dec : EqDecision PassphraseFile.
Proof. solve_decision. Defined.

(** A computation that may panic, or be refused. *)
Definition outcome (A : Type) : Type := option (result A PassphraseError).
Definition obind {A B} (r : outcome A) (k : A -> outcome B) : outcome B :=
  match r with None => None | Some (Err e) => Some (Err e) | Some (Ok a) => k a end.
Notation "'let!' x ':=' e 'in' k" := (obind e (fun x => k))
  (at level 200, x name, right associativity) : rust_scope.

Definition bad {A} (detail : string) : result A PassphraseError := Err (PassMalformed detail).

(** [str::split_whitespace]. *)
Fixpoint split_ws_aux (cur s : Str) : list Str :=
  match s with
  | [] => match cur with [] => [] | _ => [cur] end
  | c :: s =>
      if is_whitespace c
      then match cur with [] => split_ws_aux [] s | _ => cur :: split_ws_aux [] s end
      else split_ws_aux (cur ++ [c]) s
  end.
Definition split_whitespace (s : Str) : list Str := split_ws_aux [] s.

Definition parse_param (field prefix : Str) : result Z PassphraseError :=
  match v ← strip_prefix prefix field; parse_unsigned u32_max v with
  | Some n => Ok n
  | None => bad "malformed KDF parameter"
  end.

Definition hex_value (b : Z) : option Z :=
  if between 48 57 b then Some (b - 48)
  else if between 97 102 b then Some (b - 87)
  else if between 65 70 b then Some (b - 55)
  else None.

(** [u8::from_str_radix] at 16, on the two bytes of a slice: a leading [+] is a sign. *)
Definition hex_byte (a b : Z) : option Z :=
  if a =? 43 then hex_value b
  else h ← hex_value a; l ← hex_value b; Some (h * 16 + l).

(** [is_char_boundary]. *)
Definition is_boundary (bs : list Z) (i : nat) : bool :=
  match bs !! i with
  | Some b => negb (Utf8.is_cont b)
  | None => (i =? length bs)%nat
  end.

Fixpoint hex_bytes (n i : nat) (bs : list Z) : outcome Bytes :=
  match n with
  | O => Some (Ok [])
  | S n =>
      match bs !! (i * 2)%nat, bs !! (i * 2 + 1)%nat with
      | Some a, Some b =>
          if is_boundary bs (i * 2) && is_boundary bs (i * 2 + 2) then
            match hex_byte a b with
            | None => Some (bad "malformed hex field")
            | Some v => let! rest := hex_bytes n (S i) bs in Some (Ok (v :: rest))
            end
          else None
      | _, _ => None
      end
  end.

Definition parse_hex (n : nat) (field : Str) : outcome Bytes :=
  if negb (str_len field =? Z.of_nat n * 2) then Some (bad "malformed hex field")
  else hex_bytes n 0 (Utf8.encode field).

Definition hex_digit (v : Z) : Z := if v <? 10 then 48 + v else 87 + v.
Definition to_hex (bytes : Bytes) : Str := flat_map (fun b => [hex_digit (b / 16); hex_digit (b mod 16)]) bytes.

(** The fields of a line, taken one by one. *)
Definition next_field (what : string) (fields : list Str) : outcome (Str * list Str) :=
  match fields with
  | [] => Some (bad what)
  | f :: fields => Some (Ok (f, fields))
  end.

Section argon2.
(** [Params::new] accepts, and [hash_password_into] at those parameters. *)
Context (argon2_params : Z -> Z -> Z -> bool)
        (argon2_hash : Z -> Z -> Z -> Bytes -> Bytes -> option Bytes).

(** The one line of the file, field by field. *)
Definition pass_line (fields : list Str) : outcome PassphraseFile :=
  let! r := next_field "missing format tag" fields in
  if negb (str_eqb r.1 MAGIC) then Some (bad "not a vitrin-lock-v1 file") else
  let! r := next_field "missing kdf name" r.2 in
  if negb (str_eqb r.1 KDF) then Some (bad "this core hashes lock passphrases with argon2id only") else
  let! r := next_field "missing m=" r.2 in
  let! memory_kib := Some (parse_param r.1 (str "m=")) in
  let! r := next_field "missing t=" r.2 in
  let! time_cost := Some (parse_param r.1 (str "t=")) in
  let! r := next_field "missing p=" r.2 in
  let! parallelism := Some (parse_param r.1 (str "p=")) in
  let! r := next_field "missing salt" r.2 in
  let! salt := parse_hex SALT_LEN r.1 in
  let! r := next_field "missing digest" r.2 in
  let! digest := parse_hex DIGEST_LEN r.1 in
  if negb (bool_decide (r.2 = [])) then Some (bad "trailing data after the digest")
  else if negb (between MIN_MEMORY_KIB MAX_MEMORY_KIB memory_kib)
  then Some (bad "m= is outside the accepted range (8..=1048576 KiB)")
  else if negb (between MIN_TIME_COST MAX_TIME_COST time_cost)
  then Some (bad "t= is outside the accepted range (1..=10)")
  else if negb (between 1 MAX_PARALLELISM parallelism)
  then Some (bad "p= is outside the accepted range (1..=4)")
  else if negb (argon2_params memory_kib time_cost parallelism)
  then Some (bad "the parameters are not a valid Argon2 configuration")
  else Some (Ok {| pf_memory_kib := memory_kib; pf_time_cost := time_cost; pf_parallelism := parallelism;
                   pf_salt := salt; pf_digest := digest |}).

Definition pass_parse (text : Str) : outcome PassphraseFile :=
  match List.filter (fun l => negb (bool_decide (l = [])) && negb (starts_with (str "#") l))
          (List.map trim (lines text)) with
  | [] => Some (bad "the file has no hash line")
  | _ :: _ :: _ => Some (bad "more than one hash line; the file holds exactly one")
  | [line] => pass_line (split_whitespace line)
  end.

Definition pass_verify (f : PassphraseFile) (attempt : Bytes) : bool :=
  if negb (argon2_params (pf_memory_kib f) (pf_time_cost f) (pf_parallelism f)) then false
  else match argon2_hash (pf_memory_kib f) (pf_time_cost f) (pf_parallelism f) attempt (pf_salt f) with
       | None => false
       | Some derived => bool_decide (derived = pf_digest f)
       end.

(** [hash_line], at the salt the kernel drew. *)
Definition hash_line (salt passphrase : Bytes) : option Str :=
  if negb (argon2_params DEFAULT_MEMORY_KIB DEFAULT_TIME_COST DEFAULT_PARALLELISM) then None
  else
    digest ← argon2_hash DEFAULT_MEMORY_KIB DEFAULT_TIME_COST DEFAULT_PARALLELISM passphrase salt;
    Some (MAGIC ++ str " " ++ KDF ++ str " m=" ++ to_string DEFAULT_MEMORY_KIB ++ str " t="
          ++ to_string DEFAULT_TIME_COST ++ str " p=" ++ to_string DEFAULT_PARALLELISM
          ++ str " " ++ to_hex salt ++ str " " ++ to_hex digest).

(** What [fstat] says of the open file. *)
Record PassStat : Type := { ps_regular : bool; ps_uid : Z; ps_mode : Z }.
Definition pass_check_security (euid : Z) (st : option PassStat) : result unit PassphraseError :=
  match st with
  | None => Err PassIo
  | Some st =>
      if negb (ps_regular st) then Err PassInsecure
      else if negb (ps_uid st =? euid) then Err PassInsecure
      else let mode := Z.land (ps_mode st) 511 in
           if negb (Z.land mode 63 =? 0) then Err PassInsecure else Ok tt
  end.

(** [load]: whether the path is absolute, whether it opens, what [fstat] says and the
    bytes a read gives. *)
Definition pass_load (absolute opens : bool) (euid : Z) (st : option PassStat) (contents : option Bytes)
    : outcome PassphraseFile :=
  if negb absolute then Some (Err PassNotAbsolute)
  else if negb opens then Some (Err PassIo)
  else let! _ := Some (pass_check_security euid st) in
       match c ← contents; Utf8.decode c with
       | None => Some (Err PassIo)
       | Some text => pass_parse text
       end.
End argon2.

(** [wipe]. *)
Definition wipe (buf : Bytes) : Bytes := replicate (length buf) 0.

(* ------------------------------------------------------------------------ *)
(** ** The text of a line *)

Definition plain (c : Z) : Prop := is_whitespace c = false.
(** A word of a line: ASCII, and no white space. *)
Definition word (w : Str) : Prop := w <> [] /\ Forall plain w.

Lemma split_ws_word cur w s :
  Forall plain w -> split_ws_aux cur (w ++ s) = split_ws_aux (cur ++ w) s.
Proof.
  intros Hw. revert cur. induction Hw as [|c w Hc _ IH]; intros cur; simpl; [by rewrite app_nil_r|].
  rewrite Hc, IH. by rewrite <- app_assoc.
Qed.

Lemma split_whitespace_cons w s : word w -> split_whitespace (w ++ 32 :: s) = w :: split_whitespace s.
Proof.
  intros [Hne Hw]. unfold split_whitespace. rewrite split_ws_word by done. simpl. by destruct w.
Qed.
Lemma split_whitespace_last w : word w -> split_whitespace w = [w].
Proof.
  intros [Hne Hw]. unfold split_whitespace. rewrite <- (app_nil_r w) at 1. rewrite split_ws_word by done.
  simpl. by destruct w.
Qed.

Lemma lines_one s : s <> [] -> ~ In 10 s -> lines s = [s].
Proof.
  intros Hne Hn. unfold lines. assert (forall cur, (cur ++ s)%list <> [] -> lines_aux cur s = [cur ++ s]) as H.
  { clear Hne. induction s as [|c s IH]; intros cur Hc; simpl; [rewrite app_nil_r in *; by destruct cur|].
    rewrite (proj2 (Z.eqb_neq c 10)) by (intros ->; apply Hn; by left).
    rewrite IH; [by rewrite <- app_assoc|intros Hin; apply Hn; by right|by destruct cur]. }
  by apply (H []).
Qed.

Lemma trim_plain c s d : plain c -> plain d -> trim (c :: s ++ [d]) = c :: s ++ [d].
Proof.
  intros Hc Hd. unfold trim, trim_end. simpl. rewrite Hc.
  rewrite reverse_cons, reverse_app. simpl. rewrite Hd.
  change (d :: reverse s ++ [c]) with (reverse [d] ++ reverse s ++ [c]).
  by rewrite app_assoc, <- reverse_app, <- reverse_cons, reverse_involutive.
Qed.

(* ------------------------------------------------------------------------ *)
(** ** Hexadecimal *)

Lemma nibbles :
  forallb (fun v => bool_decide (hex_value (hex_digit v) = Some v) && negb (is_whitespace (hex_digit v))
     && (hex_digit v <? 128) && (43 <? hex_digit v)) (List.map Z.of_nat (seq 0 16)) = true.
Proof. vm_compute. reflexivity. Qed.

Lemma nibble v : 0 <= v < 16 ->
  hex_value (hex_digit v) = Some v /\ plain (hex_digit v) /\ 43 < hex_digit v < 128.
Proof.
  intros Hv. pose proof nibbles as Hn. rewrite List.forallb_forall in Hn. specialize (Hn v).
  rewrite !andb_true_iff, bool_decide_eq_true, negb_true_iff, !Z.ltb_lt in Hn.
  destruct Hn as [[[??]?]?]; [|done].
  apply List.in_map_iff. exists (Z.to_nat v). rewrite List.in_seq. lia.
Qed.

Lemma byte_nibbles b : is_u8 b -> 0 <= b / 16 < 16 /\ 0 <= b mod 16 < 16.
Proof. unfold is_u8, u8_max. intros H. split; [split; [apply Z.div_pos; lia|apply Z.div_lt_upper_bound; lia]|apply Z.mod_pos_bound; lia]. Qed.

Lemma to_hex_spec bytes :
  is_bytes bytes -> Forall plain (to_hex bytes) /\ Forall (fun c => 43 < c < 128) (to_hex bytes)
  /\ length (to_hex bytes) = (2 * length bytes)%nat.
Proof.
  induction 1 as [|b bytes Hb _ (IH1 & IH2 & IH3)]; [done|]. destruct (byte_nibbles b Hb) as [Hh Hl].
  destruct (nibble _ Hh) as (_ & ? & ?), (nibble _ Hl) as (_ & ? & ?). simpl.
  split; [by repeat apply Forall_cons_2|]. split; [by repeat apply Forall_cons_2|]. fold (to_hex bytes). lia.
Qed.

Lemma encode_ascii s : Forall (fun c => 43 < c < 128) s -> Utf8.encode s = s.
Proof.
  induction 1 as [|c s Hc _ IH]; [done|]. cbv beta in Hc. simpl. rewrite IH. unfold Utf8.encode_char.
  by rewrite (proj2 (Z.ltb_lt c 128)) by lia.
Qed.

Lemma boundary_ascii bs i : Forall (fun c => 43 < c < 128) bs -> (i <= length bs)%nat -> is_boundary bs i = true.
Proof.
  intros Hbs Hi. unfold is_boundary. destruct (bs !! i) as [b|] eqn:Hb.
  - eapply Forall_lookup_1 in Hb; [|exact Hbs]. cbv beta in Hb. unfold Utf8.is_cont.
    apply negb_true_iff, andb_false_iff. left. apply Z.leb_gt. lia.
  - apply lookup_ge_None in Hb. apply Nat.eqb_eq. lia.
Qed.

Lemma hex_bytes_to_hex pre bytes i bs :
  is_bytes bytes -> length pre = (i * 2)%nat -> bs = pre ++ to_hex bytes ->
  Forall (fun c => 43 < c < 128) bs -> hex_bytes (length bytes) i bs = Some (Ok bytes).
Proof.
  intros Hb. revert pre i. induction Hb as [|b bytes Hb Hbs IH]; intros pre i Hl Heq Ha; [done|].
  simpl length. cbn [hex_bytes]. simpl in Heq. fold (to_hex bytes) in Heq.
  pose proof (proj2 (proj2 (to_hex_spec bytes Hbs))) as Hlen.
  assert (length bs = (i * 2 + 2 + 2 * length bytes)%nat) as Hbl by (rewrite Heq, length_app; simpl; lia).
  assert (bs !! (i * 2)%nat = Some (hex_digit (b / 16))) as -> by (rewrite Heq, lookup_app_r by lia; by rewrite Hl, Nat.sub_diag).
  assert (bs !! (i * 2 + 1)%nat = Some (hex_digit (b mod 16))) as ->
    by (rewrite Heq, lookup_app_r by lia; rewrite Hl; by replace (i * 2 + 1 - i * 2)%nat with 1%nat by lia).
  rewrite !boundary_ascii by (done || lia). cbn [andb].
  destruct (byte_nibbles b Hb) as [Hh Hll]. destruct (nibble _ Hh) as (Hv1 & _ & ?), (nibble _ Hll) as (Hv2 & _ & ?).
  unfold hex_byte. rewrite (proj2 (Z.eqb_neq _ 43)) by lia. rewrite Hv1, Hv2. cbn [mbind option_bind].
  rewrite (IH (pre ++ [hex_digit (b / 16); hex_digit (b mod 16)])); [| |by rewrite <- app_assoc|done].
  - simpl. by rewrite (Z.mul_comm _ 16), <- Z.div_mod by lia.
  - rewrite length_app, Hl. simpl. lia.
Qed.

Lemma parse_hex_to_hex n bytes : is_bytes bytes -> length bytes = n -> parse_hex n (to_hex bytes) = Some (Ok bytes).
Proof.
  intros Hb Hl. destruct (to_hex_spec bytes Hb) as (_ & Ha & Hlen). unfold parse_hex, str_len.
  rewrite encode_ascii by done. rewrite (proj2 (Z.eqb_eq _ _)) by lia. cbn [negb]. rewrite <- Hl.
  by apply (hex_bytes_to_hex []).
Qed.

Lemma hex_bytes_length n i bs out : hex_bytes n i bs = Some (Ok out) -> length out = n.
Proof.
  revert i out. induction n as [|n IH]; intros i out; simpl; [by intros [= <-]|].
  repeat case_match; try done. unfold obind. repeat case_match; try done. intros [= <-]. simpl. f_equal. by eapply IH.
Qed.
Lemma parse_hex_length n field out : parse_hex n field = Some (Ok out) -> length out = n.
Proof. unfold parse_hex. case_match; [done|]. apply hex_bytes_length. Qed.

(* ------------------------------------------------------------------------ *)
(** ** Properties *)

Lemma obind_ok {A B} (r : outcome A) (k : A -> outcome B) b :
  obind r k = Some (Ok b) <-> exists a, r = Some (Ok a) /\ k a = Some (Ok b).
Proof. destruct r as [[a|e]|]; simpl; naive_solver. Qed.

Lemma default_fields :
  split_whitespace (MAGIC ++ str " ") = [MAGIC]
  /\ parse_param (str "m=" ++ to_string DEFAULT_MEMORY_KIB) (str "m=") = Ok DEFAULT_MEMORY_KIB
  /\ parse_param (str "t=" ++ to_string DEFAULT_TIME_COST) (str "t=") = Ok DEFAULT_TIME_COST
  /\ parse_param (str "p=" ++ to_string DEFAULT_PARALLELISM) (str "p=") = Ok DEFAULT_PARALLELISM.
Proof. vm_compute. repeat split. Qed.

Lemma hash_line_fields h1 h2 :
  word h1 -> word h2 ->
  split_whitespace (MAGIC ++ str " " ++ KDF ++ str " m=" ++ to_string DEFAULT_MEMORY_KIB ++ str " t="
     ++ to_string DEFAULT_TIME_COST ++ str " p=" ++ to_string DEFAULT_PARALLELISM ++ str " " ++ h1 ++ str " " ++ h2)
  = [MAGIC; KDF; str "m=" ++ to_string DEFAULT_MEMORY_KIB; str "t=" ++ to_string DEFAULT_TIME_COST;
     str "p=" ++ to_string DEFAULT_PARALLELISM; h1; h2].
Proof.
  intros H1 H2.
  change (str " ") with [32]. change (str " m=") with (32 :: str "m="). change (str " t=") with (32 :: str "t=").
  change (str " p=") with (32 :: str "p="). cbn [app].
  assert (forall w, forallb (fun c => negb (is_whitespace c)) w = true -> w <> [] -> word w) as Hword.
  { intros w Hf Hne. split; [done|]. apply List.Forall_forall. rewrite List.forallb_forall in Hf.
    intros c Hc. by apply negb_true_iff, Hf. }
  rewrite (app_assoc (str "m=")), (app_assoc (str "t=")), (app_assoc (str "p=")).
  do 5 rewrite split_whitespace_cons by (by apply Hword).
  rewrite split_whitespace_cons by assumption. by rewrite split_whitespace_last by assumption.
Qed.

Lemma hex_word bytes : is_bytes bytes -> bytes <> [] -> word (to_hex bytes).
Proof.
  intros Hb Hne. destruct (to_hex_spec bytes Hb) as (Hp & _ & Hl). split; [|done].
  intros He. rewrite He in Hl. by destruct bytes.
Qed.

Lemma pass_line_fields params salt d :
  is_bytes salt -> length salt = SALT_LEN -> is_bytes d -> length d = DIGEST_LEN ->
  params DEFAULT_MEMORY_KIB DEFAULT_TIME_COST DEFAULT_PARALLELISM = true ->
  pass_line params [MAGIC; KDF; str "m=" ++ to_string DEFAULT_MEMORY_KIB; str "t=" ++ to_string DEFAULT_TIME_COST;
     str "p=" ++ to_string DEFAULT_PARALLELISM; to_hex salt; to_hex d]
  = Some (Ok {| pf_memory_kib := DEFAULT_MEMORY_KIB; pf_time_cost := DEFAULT_TIME_COST;
                pf_parallelism := DEFAULT_PARALLELISM; pf_salt := salt; pf_digest := d |}).
Proof.
  intros Hs Hsl Hd Hdl Hp. unfold pass_line, next_field. destruct default_fields as (_ & Hm & Ht & Hpp).
  cbn [obind fst snd]. change (str_eqb MAGIC MAGIC) with true. change (str_eqb KDF KDF) with true. cbn [negb].
  rewrite Hm. cbn [obind fst snd]. rewrite Ht. cbn [obind fst snd]. rewrite Hpp. cbn [obind fst snd].
  rewrite parse_hex_to_hex by done. cbn [obind fst snd]. rewrite parse_hex_to_hex by done. cbn [obind fst snd].
  rewrite Hp. reflexivity.
Qed.

(** A line of text that begins and ends in a plain character, and has no break. *)
Lemma pass_parse_line params c s d :
  plain c -> plain d -> c <> 35 -> ~ In 10 (c :: s ++ [d]) ->
  pass_parse params (c :: s ++ [d]) = pass_line params (split_whitespace (c :: s ++ [d])).
Proof.
  intros Hc Hd Hh Hn. unfold pass_parse. rewrite lines_one by done. cbn [List.map]. rewrite trim_plain by done.
  cbn [List.filter]. rewrite bool_decide_false by done.
  assert (starts_with (str "#") (c :: s ++ [d]) = false) as ->; [|done].
  unfold starts_with. change (str "#") with [35]. cbn [strip_prefix]. rewrite (proj2 (Z.eqb_neq 35 c)) by lia.
  apply bool_decide_eq_false. by intros [? ?].
Qed.

Lemma word_no_break w : word w -> ~ In 10 w.
Proof. intros [_ Hw] Hin. rewrite List.Forall_forall in Hw. by specialize (Hw 10 Hin). Qed.

(** A passphrase the core hashed is a passphrase the core accepts. Take any
    Argon2 that yields digests of the length it is asked for. A line hashed from
    a passphrase at a fresh salt reads back as a verifier with that
    salt, and the verifier accepts an attempt exactly when it derives what
    the passphrase derived; in particular it accepts the passphrase itself. *)
Theorem passphrase_roundtrip (params : Z -> Z -> Z -> bool) (hash : Z -> Z -> Z -> Bytes -> Bytes -> option Bytes)
  (salt passphrase : Bytes) (line : Str)
  (Hlen : forall m t p a s d, hash m t p a s = Some d -> length d = DIGEST_LEN /\ is_bytes d)
  (Hsalt : length salt = SALT_LEN /\ is_bytes salt)
  (Hline : hash_line params hash salt passphrase = Some line) :
  exists f, pass_parse params line = Some (Ok f) /\ pf_salt f = salt
    /\ pass_verify params hash f passphrase = true
    /\ forall attempt, pass_verify params hash f attempt = true <->
         hash DEFAULT_MEMORY_KIB DEFAULT_TIME_COST DEFAULT_PARALLELISM attempt salt
         = hash DEFAULT_MEMORY_KIB DEFAULT_TIME_COST DEFAULT_PARALLELISM passphrase salt.
Proof.
  destruct Hsalt as [Hsl Hsb]. unfold hash_line in Hline.
  destruct (params _ _ _) eqn:Hp; [|done]. cbn [negb] in Hline.
  destruct (hash _ _ _ passphrase salt) as [d|] eqn:Hd; [|done]. cbn [mbind option_bind] in Hline.
  apply (inj Some) in Hline as <-. destruct (Hlen _ _ _ _ _ _ Hd) as [Hdl Hdb].
  set (f := {| pf_memory_kib := DEFAULT_MEMORY_KIB; pf_time_cost := DEFAULT_TIME_COST;
     pf_parallelism := DEFAULT_PARALLELISM; pf_salt := salt; pf_digest := d |}).
  assert (word (to_hex salt)) as Hws by (apply hex_word; [done|by intros ->]).
  assert (word (to_hex d)) as Hwd by (apply hex_word; [done|by intros ->]).
  exists f.
  assert (forall attempt, pass_verify params hash f attempt = true <->
     hash DEFAULT_MEMORY_KIB DEFAULT_TIME_COST DEFAULT_PARALLELISM attempt salt = Some d) as Hv.
  { intros attempt. unfold pass_verify. cbn [pf_memory_kib pf_time_cost pf_parallelism pf_salt pf_digest f].
    rewrite Hp. cbn [negb]. destruct (hash _ _ _ attempt salt); [|done]. rewrite bool_decide_eq_true. naive_solver. }
  split; [|split; [done|split; [by apply Hv|done]]].
  destruct (exists_last (proj1 Hwd)) as (w & x & Hx).
  pose proof (hash_line_fields (to_hex salt) (to_hex d) Hws Hwd) as Hf.
  pose proof (pass_parse_line params 118) as Hpl.
  set (t := str "itrin-lock-v1 argon2id m=19456 t=2 p=1 ").
  assert (MAGIC ++ str " " ++ KDF ++ str " m=" ++ to_string DEFAULT_MEMORY_KIB ++ str " t="
     ++ to_string DEFAULT_TIME_COST ++ str " p=" ++ to_string DEFAULT_PARALLELISM ++ str " " ++ to_hex salt ++ str " " ++ to_hex d
     = 118 :: (t ++ to_hex salt ++ str " " ++ w) ++ [x]) as He.
  { rewrite Hx, <- !app_assoc. generalize (to_hex salt) as h, (w ++ [x]) as h'. reflexivity. }
  rewrite He in Hf |- *.
  assert (Forall plain (w ++ [x])) as Hwx by (rewrite <- Hx; apply Hwd). apply Forall_app in Hwx as [_ Hwx].
  rewrite Hpl; [| |by inversion Hwx|done|].
  - rewrite Hf. by apply pass_line_fields.
  - reflexivity.
  - pose proof (word_no_break _ Hws). pose proof (word_no_break _ Hwd).
    assert (~ In 10 (118 :: t)) as Ht by (vm_compute; intros Hin; destruct_or?; done).
    rewrite <- !app_assoc, (app_comm_cons t). intros Hin.
    rewrite <- Hx in Hin. apply in_app_or in Hin as [?|[?|Hin]%in_app_or]; [done..|].
    apply in_app_or in Hin as [Hin|?]; [|done]. by destruct Hin as [?|[]].
Qed.

Definition sample_hash (_ _ _ : Z) (a _ : Bytes) : option Bytes :=
  Some (replicate 31 0 ++ [Z.of_nat (length a) mod 256]).
Definition sample_line : Str :=
  default [] (hash_line (fun _ _ _ => true) sample_hash (replicate 16 7) (str "correct horse")).

Lemma passphrase_roundtrip_witness :
  exists f,
    hash_line (fun _ _ _ => true) sample_hash (replicate 16 7) (str "correct horse") = Some sample_line
    /\ pass_parse (fun _ _ _ => true) sample_line = Some (Ok f)
    /\ pass_verify (fun _ _ _ => true) sample_hash f (str "correct horse") = true.
Proof.
  destruct (passphrase_roundtrip (fun _ _ _ => true) sample_hash (replicate 16 7) (str "correct horse") sample_line)
    as (f & Hf & _ & Hv & _).
  - intros m t p a s d Hd%(inj Some). subst d. split; [done|]. apply Forall_app. split; [by repeat constructor|].
    constructor; [|constructor]. unfold is_u8, u8_max. pose proof (Z.mod_pos_bound (Z.of_nat (length a)) 256). lia.
  - split; [done|by repeat constructor].
  - vm_compute. reflexivity.
  - exists f. split; [vm_compute; reflexivity|]. split; [exact Hf|exact Hv].
Defined.

Lemma pass_line_ok params fields f :
  pass_line params fields = Some (Ok f) ->
  MIN_MEMORY_KIB <= pf_memory_kib f <= MAX_MEMORY_KIB /\ MIN_TIME_COST <= pf_time_cost f <= MAX_TIME_COST
  /\ 1 <= pf_parallelism f <= MAX_PARALLELISM /\ params (pf_memory_kib f) (pf_time_cost f) (pf_parallelism f) = true
  /\ length (pf_salt f) = SALT_LEN /\ length (pf_digest f) = DIGEST_LEN.
Proof.
  unfold pass_line. intros H.
  repeat match type of H with
  | obind _ _ = Some (Ok _) => apply obind_ok in H as ([? ?] & ? & H) || apply obind_ok in H as (? & ? & H); cbn [fst snd] in H
  | (if negb ?b then _ else _) = _ => destruct b eqn:?; cbn [negb] in H; [|discriminate]
  end.
  simplify_eq. unfold between in *. unbool. cbn [pf_memory_kib pf_time_cost pf_parallelism pf_salt pf_digest].
  repeat match goal with Hh : parse_hex _ _ = Some (Ok _) |- _ => apply parse_hex_length in Hh end.
  repeat match goal with |- _ /\ _ => split end; done || lia.
Qed.

(** A passphrase file the session comes up with can be trusted and used. It
    was named by an absolute path, is a regular file of the core's own user that
    neither its group nor anyone else may read or write, and holds UTF-8 text;
    its costs are within the bounds, so that no attempt can exhaust the machine,
    its parameters are ones Argon2 takes, so that no attempt fails for them, and
    its salt and digest have their full length. *)
Theorem passphrase_load_checked (params : Z -> Z -> Z -> bool) (absolute opens : bool) (euid : Z)
  (st : option PassStat) (contents : option Bytes) (f : PassphraseFile)
  (Hload : pass_load params absolute opens euid st contents = Some (Ok f)) :
  absolute = true /\ opens = true
  /\ (exists s, st = Some s /\ ps_regular s = true /\ ps_uid s = euid
        /\ forall i, 0 <= i < 6 -> Z.testbit (ps_mode s) i = false)
  /\ (exists bytes text, contents = Some bytes /\ Utf8.decode bytes = Some text)
  /\ MIN_MEMORY_KIB <= pf_memory_kib f <= MAX_MEMORY_KIB /\ MIN_TIME_COST <= pf_time_cost f <= MAX_TIME_COST
  /\ 1 <= pf_parallelism f <= MAX_PARALLELISM /\ params (pf_memory_kib f) (pf_time_cost f) (pf_parallelism f) = true
  /\ length (pf_salt f) = SALT_LEN /\ length (pf_digest f) = DIGEST_LEN.
Proof.
  unfold pass_load in Hload. destruct absolute; [|done]. destruct opens; [|done]. cbn [negb] in Hload.
  apply obind_ok in Hload as ([] & [= Hsec] & Hload).
  destruct contents as [bytes|]; [|done]. cbn [mbind option_bind] in Hload.
  destruct (Utf8.decode bytes) as [text|] eqn:Hd; [|done].
  split; [done|split; [done|split; [|split; [by exists bytes, text|]]]].
  - unfold pass_check_security in Hsec. destruct st as [s|]; [|done]. exists s. split; [done|].
    destruct (ps_regular s); [|done]. cbn [negb] in Hsec. destruct (Z.eqb_spec (ps_uid s) euid); [|done]. cbn [negb] in Hsec.
    split; [done|split; [done|]]. destruct (Z.eqb_spec (Z.land (Z.land (ps_mode s) 511) 63) 0) as [Hz|]; [|done].
    intros i Hi. pose proof (f_equal (fun z => Z.testbit z i) Hz) as Hb. cbv beta in Hb.
    rewrite !Z.land_spec, Z.bits_0 in Hb.
    assert (Z.testbit 511 i = true /\ Z.testbit 63 i = true) as [H1 H2].
    { assert (i = 0 \/ i = 1 \/ i = 2 \/ i = 3 \/ i = 4 \/ i = 5) as Hc by lia. by destruct_or!; subst. }
    rewrite H1, H2, !andb_true_r in Hb. exact Hb.
  - unfold pass_parse in Hload. destruct (List.filter _ _) as [|line [|]]; [done| |done]. by apply pass_line_ok in Hload.
Qed.

Definition sample_file : PassphraseFile :=
  {| pf_memory_kib := 8; pf_time_cost := 1; pf_parallelism := 1;
     pf_salt := replicate 16 7; pf_digest := replicate 32 0 |}.
Definition sample_text : Bytes :=
  str "vitrin-lock-v1 argon2id m=8 t=1 p=1 07070707070707070707070707070707 0000000000000000000000000000000000000000000000000000000000000000".

Lemma passphrase_load_checked_witness :
  pass_load (fun _ _ _ => true) true true 1000 (Some {| ps_regular := true; ps_uid := 1000; ps_mode := 33152 |})
    (Some sample_text) = Some (Ok sample_file)
  /\ exists bytes text, Some sample_text = Some bytes /\ Utf8.decode bytes = Some text.
Proof.
  assert (pass_load (fun _ _ _ => true) true true 1000 (Some {| ps_regular := true; ps_uid := 1000; ps_mode := 33152 |})
    (Some sample_text) = Some (Ok sample_file)) as Hl by (vm_compute; reflexivity).
  split; [exact Hl|]. exact (proj1 (proj2 (proj2 (proj2 (passphrase_load_checked _ _ _ _ _ _ _ Hl))))).
Defined.

(** A salt whose even offset falls inside a character: the slice panics, where
    a malformed field is refused. *)
Example parse_hex_panics :
  parse_hex 2 (str "0" ++ [233] ++ str "0") = None /\ parse_hex 2 (str "0g00") = Some (bad "malformed hex field").
Proof. vm_compute. split; reflexivity. Qed.
(** A sign is taken for a hexadecimal digit. *)
Example parse_hex_sign : parse_hex 2 (str "+7+f") = Some (Ok [7; 15]).
Proof. vm_compute. reflexivity. Qed.
