(* ===== verification/Grants.v ===== *)
(** * The grant table

    [crates/vitrin-core/src/grants.rs]: the rows of authority, their liveness,
    the two queries of the enforcement chokepoint, expiry, revocation and the
    dead-man seal. A [GrantId] is a [u64]; [self.next_id += 1] wraps in a
    release build, which the freshness theorems bound by the table's age. *)

From S2P Require Import Prelude BTree Text NetSel Identity.

Abbreviation GrantId := Z (only parsing).
Definition RealmId := Str.

(** *** Verbs *)

Definition OBSERVE : Z := 1.
Definition ACTUATE_POINTER : Z := 2.
Definition ACTUATE_TEXT : Z := 4.
Definition OBSERVE_CURSOR : Z := 8.
Definition LAYOUT_ARRANGE : Z := 16.
Definition LAYOUT_FOCUS : Z := 32.
Definition DESIGNATE_FILE : Z := 64.
Definition EGRESS : Z := 128.
Definition REALM_LAUNCH : Z := 512.
Definition VALID_MASK : Z := 767.
Definition SERVED_VERB_BITS : Z :=
  Z.lor 1 (Z.lor 2 (Z.lor 4 (Z.lor 16 (Z.lor 32 (Z.lor 64 512))))).
Definition UNSERVED_VERB_BITS : Z := Z.ldiff VALID_MASK SERVED_VERB_BITS.

(** *** Row fields *)

Inductive PersistenceRung : Type := Once | WhileRunning.
Inductive WirePersistence : Type := WOnce | WWhileRunning | WUntilRevoked | WAlways.
Inductive Issuer : Type := HumanConsent | AutoApprovePolicy.

#[export] Instance PersistenceRung_eq_dec : EqDecision PersistenceRung.
Proof. solve_decision. Defined.
#[export] Instance Issuer_eq_dec : EqDecision Issuer.
Proof. solve_decision. Defined.

Definition rung_rank (r : PersistenceRung) : Z :=
  match r with Once => 0 | WhileRunning => 1 end.
Definition narrows (self requested : PersistenceRung) : bool :=
  rung_rank self <=? rung_rank requested.
Definition rung_try_from (wire : WirePersistence) : result PersistenceRung WirePersistence :=
  match wire with
  | WOnce => Ok Once
  | WWhileRunning => Ok WhileRunning
  | WUntilRevoked | WAlways => Err wire
  end.
Definition rung_to_wire (r : PersistenceRung) : WirePersistence :=
  match r with Once => WOnce | WhileRunning => WWhileRunning end.

(** The columns no row can fill yet have the empty type. *)
Record Constraints : Type := {
  expiry : option Duration;
  max_event_rate : Z;
  focus_condition : option Empty_set;
  one_shot : option bool }.

Record GrantRow : Type := {
  grant_id : GrantId;
  principal_id : PrincipalIdentity;
  realm_id : RealmId;
  resource_ref : ResourceRef;
  verbs : Z;
  constraints : Constraints;
  persistence : PersistenceRung;
  provenance_ref : option Empty_set;
  parent_grant_id : option GrantId;
  pinned_addrs : option Empty_set;
  issued_at : Instant;
  issuer : Issuer }.

Record GrantSpec : Type := {
  gs_principal_id : PrincipalIdentity;
  gs_realm_id : RealmId;
  gs_resource_ref : ResourceRef;
  gs_verbs : Z;
  gs_expiry : option Duration;
  gs_max_event_rate : Z;
  gs_persistence : PersistenceRung;
  gs_issuer : Issuer }.

Inductive InsertError : Type := EmptyVerbs | ExpiryUnrepresentable.

Record Allowed : Type := { al_grant_id : GrantId; al_max_event_rate : Z }.

(** Ordered by severity, the derived [Ord]. *)
Inductive RefusalReason : Type := NotGranted | Expired | Revoked.
Definition severity (r : RefusalReason) : Z :=
  match r with NotGranted => 0 | Expired => 1 | Revoked => 2 end.
(** [Option<RefusalReason>::max], [None] below every reason. *)
Definition max_refusal (a b : option RefusalReason) : option RefusalReason :=
  match a, b with
  | None, _ => b
  | _, None => a
  | Some x, Some y => if severity x <=? severity y then b else a
  end.

#[export] Instance RefusalReason_eq_dec : EqDecision RefusalReason.
Proof. solve_decision. Defined.
#[export] Instance Allowed_eq_dec : EqDecision Allowed.
Proof. solve_decision. Defined.

Inductive GrantState : Type := GActive | GRevoked | GExpired | GSpent.
Inductive Liveness : Type := LActive | LSpent | LExpired | LRevoked.

#[export] Instance GrantState_eq_dec : EqDecision GrantState.
Proof. solve_decision. Defined.
#[export] Instance Liveness_eq_dec : EqDecision Liveness.
Proof. solve_decision. Defined.

(** *** Entries *)

Record Entry : Type := {
  row : GrantRow;
  deadline : option Instant;
  liveness : Liveness }.

Definition set_liveness (l : Liveness) (e : Entry) : Entry :=
  {| row := row e; deadline := deadline e; liveness := l |}.

Definition passed (e : Entry) (now : Instant) : bool :=
  is_some_and (deadline e) (fun d => d <=? now).

Definition refusal_for (e : Entry) (verb : Z) (now : Instant) : option RefusalReason :=
  if negb (mask_contains (verbs (row e)) verb) then Some NotGranted
  else if bool_decide (liveness e = LRevoked) then Some Revoked
  else if passed e now then Some Expired
  else match liveness e with
  | LSpent | LExpired => Some Expired
  | _ => None
  end.

Definition state_at (e : Entry) (now : Instant) : GrantState :=
  match liveness e with
  | LRevoked => GRevoked
  | l =>
      if passed e now then GExpired
      else match l with
      | LExpired => GExpired
      | LSpent => GSpent
      | _ => GActive
      end
  end.

(** *** The table *)

Record GrantTable : Type := {
  entries : btree Entry;
  next_id : Z;
  dead_man_sealed : bool }.

Definition table_new : GrantTable :=
  {| entries := bt_empty; next_id := 1; dead_man_sealed := false |}.

Definition with_entries (t : GrantTable) (es : btree Entry) : GrantTable :=
  {| entries := es; next_id := next_id t; dead_man_sealed := dead_man_sealed t |}.

Definition seal_dead_man (t : GrantTable) : GrantTable :=
  {| entries := entries t; next_id := next_id t; dead_man_sealed := true |}.

(** [GrantTable::insert]: the row is born revoked in a sealed table. *)
Definition row_of_spec (id : GrantId) (spec : GrantSpec) (issued : Instant) : GrantRow :=
  {| grant_id := id;
     principal_id := gs_principal_id spec;
     realm_id := gs_realm_id spec;
     resource_ref := gs_resource_ref spec;
     verbs := gs_verbs spec;
     constraints := {| expiry := gs_expiry spec;
                       max_event_rate := gs_max_event_rate spec;
                       focus_condition := None; one_shot := None |};
     persistence := gs_persistence spec;
     provenance_ref := None;
     parent_grant_id := None;
     pinned_addrs := None;
     issued_at := issued;
     issuer := gs_issuer spec |}.

Definition insert (t : GrantTable) (spec : GrantSpec) (issued : Instant)
    : result GrantId InsertError * GrantTable :=
  if gs_verbs spec =? 0 then (Err EmptyVerbs, t) else
  let insert_with dl :=
    let id := next_id t in
    let l := if dead_man_sealed t then LRevoked else LActive in
    let e := {| row := row_of_spec id spec issued; deadline := dl; liveness := l |} in
    (Ok id, {| entries := <[id := e]> (entries t);
               next_id := u64_wrapping_add (next_id t) 1;
               dead_man_sealed := dead_man_sealed t |}) in
  match gs_expiry spec with
  | Some ex =>
      match checked_add issued ex with
      | Some d => insert_with (Some d)
      | None => (Err ExpiryUnrepresentable, t)
      end
  | None => insert_with None
  end.

(** [GrantTable::check_use]: the scan, then the consumption of the choice. *)
Definition row_matches (r : GrantRow) (principal : PrincipalIdentity) (realm : RealmId)
    (resource : ResourceRef) : bool :=
  str_eqb (principal_id r) principal && str_eqb (realm_id r) realm
  && covers (resource_ref r) resource.

Definition replaces (chosen : option (GrantId * PersistenceRung)) (r : GrantRow) : bool :=
  match chosen with
  | None => true
  | Some (_, Once) => true
  | Some (_, WhileRunning) => bool_decide (persistence r = WhileRunning)
  end.

Fixpoint check_use_loop (es : list (Z * Entry)) (principal : PrincipalIdentity)
    (realm : RealmId) (resource : ResourceRef) (verb : Z) (now : Instant)
    (refusal : option RefusalReason) (chosen : option (GrantId * PersistenceRung))
    : option RefusalReason * option (GrantId * PersistenceRung) :=
  match es with
  | [] => (refusal, chosen)
  | (id, e) :: es =>
      let continue := check_use_loop es principal realm resource verb now in
      if negb (row_matches (row e) principal realm resource) then continue refusal chosen
      else match refusal_for e verb now with
      | Some reason => continue (max_refusal refusal (Some reason)) chosen
      | None =>
          if replaces chosen (row e)
          then continue refusal (Some (id, persistence (row e)))
          else continue refusal chosen
      end
  end.

Definition check_use (t : GrantTable) (principal : PrincipalIdentity) (realm : RealmId)
    (resource : ResourceRef) (verb : Z) (now : Instant)
    : result Allowed RefusalReason * GrantTable :=
  if verb =? 0 then (Err NotGranted, t) else
  let '(refusal, chosen) :=
    check_use_loop (bt_entries (entries t)) principal realm resource verb now None None in
  match chosen with
  | Some (id, rung) =>
      let es := match rung with
                | Once => bt_set (entries t) id (set_liveness LSpent)
                | WhileRunning => entries t
                end in
      match entries t !! id with
      | Some e =>
          (Ok {| al_grant_id := id; al_max_event_rate := max_event_rate (constraints (row e)) |},
           with_entries t es)
      | None => (Err NotGranted, t) (* the [expect]: the id was just observed *)
      end
  | None => (Err (default NotGranted refusal), t)
  end.

Definition realm_of (t : GrantTable) (g : GrantId) : option RealmId :=
  (fun e => realm_id (row e)) <$> entries t !! g.

Definition any_live_holder_of (t : GrantTable) (verb : Z) (now : Instant) : bool :=
  bt_any (entries t) (fun e =>
    mask_contains (verbs (row e)) verb && bool_decide (state_at e now = GActive)).

Definition holds_verb (t : GrantTable) (principal : PrincipalIdentity) (verb : Z)
    (now : Instant) : bool :=
  bt_any (entries t) (fun e =>
    str_eqb (principal_id (row e)) principal && mask_contains (verbs (row e)) verb
    && bool_decide (state_at e now = GActive)).

Definition check_use_grant (t : GrantTable) (g : GrantId) (principal : PrincipalIdentity)
    (verb : Z) (now : Instant) : result Allowed RefusalReason :=
  if verb =? 0 then Err NotGranted else
  match entries t !! g with
  | None => Err NotGranted
  | Some e =>
      if negb (str_eqb (principal_id (row e)) principal) then Err NotGranted
      else match refusal_for e verb now with
      | Some reason => Err reason
      | None => Ok {| al_grant_id := g;
                      al_max_event_rate := max_event_rate (constraints (row e)) |}
      end
  end.

Definition commit_use (t : GrantTable) (g : GrantId) : bool * GrantTable :=
  match entries t !! g with
  | Some e =>
      if bool_decide (persistence (row e) = Once) && bool_decide (liveness e = LActive)
      then (true, with_entries t (bt_set (entries t) g (set_liveness LSpent)))
      else (false, t)
  | None => (false, t)
  end.

Definition is_due (now : Instant) (e : Entry) : bool :=
  bool_decide (liveness e = LActive) && passed e now.
Definition expire_due (t : GrantTable) (now : Instant) : list GrantId * GrantTable :=
  (bt_select (entries t) (fun _ e => is_due now e),
   with_entries t (bt_update (entries t)
     (fun _ e => if is_due now e then set_liveness LExpired e else e))).

Definition revoke (t : GrantTable) (g : GrantId) : bool * GrantTable :=
  match entries t !! g with
  | Some e =>
      if bool_decide (liveness e = LRevoked) then (false, t)
      else (true, with_entries t (bt_set (entries t) g (set_liveness LRevoked)))
  | None => (false, t)
  end.

Definition to_revoke (principal : PrincipalIdentity) (e : Entry) : bool :=
  str_eqb (principal_id (row e)) principal && negb (bool_decide (liveness e = LRevoked)).
Definition revoke_principal (t : GrantTable) (principal : PrincipalIdentity)
    : list GrantId * GrantTable :=
  (bt_select (entries t) (fun _ e => to_revoke principal e),
   with_entries t (bt_update (entries t)
     (fun _ e => if to_revoke principal e then set_liveness LRevoked e else e))).

Definition remove (t : GrantTable) (g : GrantId) : bool * GrantTable :=
  (bool_decide (is_Some (entries t !! g)), with_entries t (delete g (entries t))).

Definition get (t : GrantTable) (g : GrantId) (now : Instant) : option (GrantRow * GrantState) :=
  (fun e => (row e, state_at e now)) <$> entries t !! g.

Definition rows (t : GrantTable) (now : Instant) : list (GrantRow * GrantState) :=
  (fun e => (row e, state_at e now)) <$> bt_values (entries t).

(* ------------------------------------------------------------------------ *)
(** ** One row *)

(** How a stored liveness may change: an active row dies, and a revocation is
    final. *)
Definition live_le (l l' : Liveness) : bool :=
  bool_decide (l = l') || bool_decide (l = LActive) || bool_decide (l' = LRevoked).

Lemma live_le_refl l : live_le l l = true.
Proof. unfold live_le. by rewrite bool_decide_true. Qed.

Lemma live_le_trans l1 l2 l3 :
  live_le l1 l2 = true -> live_le l2 l3 = true -> live_le l1 l3 = true.
Proof. destruct l1, l2, l3; by vm_compute. Qed.

Lemma live_le_active l : live_le LActive l = true.
Proof. by destruct l. Qed.
Lemma live_le_revoked l : live_le l LRevoked = true.
Proof. by destruct l. Qed.
#[export] Hint Resolve live_le_refl live_le_active live_le_revoked : vitrin.

Lemma refusal_for_None e verb now :
  refusal_for e verb now = None <->
  mask_contains (verbs (row e)) verb = true /\ state_at e now = GActive.
Proof.
  unfold refusal_for, state_at.
  destruct (mask_contains _ _), (liveness e), (passed e now); simpl; intuition discriminate.
Qed.

Lemma state_active e now :
  state_at e now = GActive <-> liveness e = LActive /\ passed e now = false.
Proof. unfold state_at. destruct (liveness e), (passed e now); intuition discriminate. Qed.

Lemma passed_mono e now now' : now <= now' -> passed e now = true -> passed e now' = true.
Proof. unfold passed. destruct (deadline e); simpl; [|done]. rewrite !Z.leb_le. lia. Qed.

(** The refusal of a row, by its state. *)
Lemma refusal_for_state e verb now :
  mask_contains (verbs (row e)) verb = true ->
  refusal_for e verb now =
    match state_at e now with
    | GActive => None
    | GRevoked => Some Revoked
    | GExpired | GSpent => Some Expired
    end.
Proof.
  intros Hc. unfold refusal_for, state_at. rewrite Hc.
  by destruct (liveness e), (passed e now).
Qed.

(* ------------------------------------------------------------------------ *)
(** ** The scan of [check_use] *)

Section scan.
Context (principal : PrincipalIdentity) (realm : RealmId) (resource : ResourceRef).
Context (verb : Z) (now : Instant).

Definition matching (e : Entry) : Prop :=
  row_matches (row e) principal realm resource = true.
Definition candidate (e : Entry) : Prop :=
  matching e /\ refusal_for e verb now = None.

(** The documented preference: an unlimited rung before a single-use one, the
    newest of equals. *)
Definition preferred (id : GrantId) (rung : PersistenceRung) (id' : GrantId)
    (rung' : PersistenceRung) : Prop :=
  match rung, rung' with
  | WhileRunning, Once => True
  | Once, WhileRunning => False
  | _, _ => id' <= id
  end.

Definition chosen_inv (pre : list (Z * Entry)) (ch : option (GrantId * PersistenceRung)) :=
  match ch with
  | None => forall id e, In (id, e) pre -> ~ candidate e
  | Some (id, rung) =>
      (exists e, In (id, e) pre /\ candidate e /\ rung = persistence (row e)) /\
      forall id' e', In (id', e') pre -> candidate e' ->
        preferred id rung id' (persistence (row e'))
  end.

Definition refusal_inv (pre : list (Z * Entry)) (r : option RefusalReason) :=
  match r with
  | None => forall id e, In (id, e) pre -> matching e -> refusal_for e verb now = None
  | Some s =>
      (exists id e, In (id, e) pre /\ matching e /\ refusal_for e verb now = Some s) /\
      forall id e s', In (id, e) pre -> matching e -> refusal_for e verb now = Some s' ->
        severity s' <= severity s
  end.

Lemma refusal_inv_skip pre id e r :
  refusal_inv pre r -> (matching e -> refusal_for e verb now = None) ->
  refusal_inv (pre ++ [(id, e)]) r.
Proof.
  intros Hr He. destruct r as [s|]; simpl in *.
  - destruct Hr as [(i & e' & Hin & Hm & Hs) Hmax]. split.
    + exists i, e'. split; [apply in_or_app; auto|done].
    + intros i0 e0 s0 [Hin0|[[= <- <-]|[]]]%in_app_or Hm0 Hs0; [eauto|].
      by rewrite He in Hs0.
  - intros i0 e0 [Hin0|[[= <- <-]|[]]]%in_app_or Hm0; eauto.
Qed.

Lemma refusal_inv_add pre id e r s :
  refusal_inv pre r -> matching e -> refusal_for e verb now = Some s ->
  refusal_inv (pre ++ [(id, e)]) (max_refusal r (Some s)).
Proof.
  intros Hr Hm Hs. unfold max_refusal.
  assert (In (id, e) (pre ++ [(id, e)])) by (apply in_or_app; right; by left).
  destruct r as [s0|]; simpl in *.
  - destruct Hr as [(i & e' & Hin & Hm' & Hs') Hmax].
    destruct (Z.leb_spec (severity s0) (severity s)); (split;
      [|intros i1 e1 s1 [Hin1|[[= <- <-]|[]]]%in_app_or Hm1 Hs1;
        [specialize (Hmax _ _ _ Hin1 Hm1 Hs1)|rewrite Hs in Hs1; simplify_eq]; lia]).
    + eauto.
    + exists i, e'. split; [apply in_or_app; by left|done].
  - split; [eauto|]. intros i1 e1 s1 [Hin1|[[= <- <-]|[]]]%in_app_or Hm1 Hs1.
    + by rewrite (Hr i1 e1) in Hs1.
    + rewrite Hs in Hs1. by simplify_eq.
Qed.

Lemma chosen_inv_skip pre id e ch :
  chosen_inv pre ch -> ~ candidate e -> chosen_inv (pre ++ [(id, e)]) ch.
Proof.
  intros Hc He. destruct ch as [[i rung]|]; simpl in *.
  - destruct Hc as [(e' & Hin & Hcand & Hr) Hp]. split.
    + exists e'. split; [apply in_or_app; auto|done].
    + intros i1 e1 [Hin1|[[= <- <-]|[]]]%in_app_or Hc1; [eauto|done].
  - intros i1 e1 [Hin1|[[= <- <-]|[]]]%in_app_or; eauto.
Qed.

Lemma chosen_inv_add pre id e ch :
  (forall id' e', In (id', e') pre -> id' < id) ->
  chosen_inv pre ch -> candidate e ->
  chosen_inv (pre ++ [(id, e)])
    (if replaces ch (row e) then Some (id, persistence (row e)) else ch).
Proof.
  intros Hlt Hc He.
  assert (In (id, e) (pre ++ [(id, e)])) as Hlast by (apply in_or_app; right; by left).
  destruct (replaces ch (row e)) eqn:Hrep.
  - simpl. split; [eauto|]. intros i1 e1 [Hin1|[[= <- <-]|[]]]%in_app_or Hc1.
    + pose proof (Hlt _ _ Hin1). unfold preferred.
      destruct ch as [[i []]|]; simpl in *.
      * destruct Hc as [_ Hp]. specialize (Hp _ _ Hin1 Hc1).
        destruct (persistence (row e)), (persistence (row e1)); simpl in *; (done || lia).
      * apply bool_decide_eq_true in Hrep. rewrite Hrep.
        destruct (persistence (row e1)); (done || lia).
      * by destruct (Hc _ _ Hin1).
    + unfold preferred. destruct (persistence (row e)); lia.
  - destruct ch as [[i []]|]; simpl in Hrep; [done| |done].
    apply bool_decide_eq_false in Hrep. destruct Hc as [(e' & Hin & Hcand & Hr) Hp]. split.
    + exists e'. split; [apply in_or_app; auto|done].
    + intros i1 e1 [Hin1|[[= <- <-]|[]]]%in_app_or Hc1; [eauto|].
      unfold preferred. by destruct (persistence (row e)).
Qed.

Lemma check_use_loop_inv pre es r ch r' ch' :
  StronglySorted Z.lt (List.map fst (pre ++ es)) ->
  refusal_inv pre r -> chosen_inv pre ch ->
  check_use_loop es principal realm resource verb now r ch = (r', ch') ->
  refusal_inv (pre ++ es) r' /\ chosen_inv (pre ++ es) ch'.
Proof.
  revert pre r ch. induction es as [|[id e] es IH]; intros pre r ch Hs Hr Hc Hl; simpl in Hl.
  - rewrite app_nil_r. by simplify_eq.
  - replace (pre ++ (id, e) :: es) with ((pre ++ [(id, e)]) ++ es) in * by (by rewrite <- app_assoc).
    assert (forall id' e', In (id', e') pre -> id' < id) as Hlt.
    { intros id' e' Hin. rewrite <- app_assoc, List.map_app in Hs. simpl in Hs.
      apply StronglySorted_app_1_elem_of with (x1 := id') (x2 := id) in Hs; [done| |].
      - apply list_elem_of_In, List.in_map_iff. by exists (id', e').
      - by left. }
    destruct (row_matches (row e) principal realm resource) eqn:Hm; simpl in Hl; cycle 1.
    { eapply IH; [done| | |done].
      - apply refusal_inv_skip; [done|]. unfold matching. by rewrite Hm.
      - apply chosen_inv_skip; [done|]. intros [Hm' _]. unfold matching in Hm'. congruence. }
    destruct (refusal_for e verb now) as [s|] eqn:Hf.
    { eapply IH; [done| | |done].
      - by apply refusal_inv_add.
      - apply chosen_inv_skip; [done|]. intros [_ Hn]. congruence. }
    assert (candidate e) as Hcand by done.
    pose proof (chosen_inv_add pre id e ch Hlt Hc Hcand) as Hadd.
    destruct (replaces ch (row e)); (eapply IH; [done|by apply refusal_inv_skip|done|done]).
Qed.
End scan.

(* ------------------------------------------------------------------------ *)
(** ** The table as a transition system *)

(** What every row of a table satisfies. *)
Definition entry_wf (id : GrantId) (e : Entry) : Prop :=
  grant_id (row e) = id /\ verbs (row e) <> 0 /\
  deadline e = (fun ex => issued_at (row e) + ex) <$> expiry (constraints (row e)).

Record table_wf (t : GrantTable) : Prop := {
  twf_sorted : bt_wf (entries t);
  twf_next : 1 <= next_id t;
  twf_ids : forall id e, entries t !! id = Some e -> 1 <= id < next_id t;
  twf_rows : forall id e, entries t !! id = Some e -> entry_wf id e }.

Inductive TableOp : Type :=
| OpInsert (spec : GrantSpec) (now : Instant)
| OpCheckUse (principal : PrincipalIdentity) (realm : RealmId) (resource : ResourceRef)
    (verb : Z) (now : Instant)
| OpCommitUse (g : GrantId)
| OpExpireDue (now : Instant)
| OpRevoke (g : GrantId)
| OpRevokePrincipal (principal : PrincipalIdentity)
| OpRemove (g : GrantId)
| OpSeal.

Definition table_step (t : GrantTable) (op : TableOp) : GrantTable :=
  match op with
  | OpInsert spec now => (insert t spec now).2
  | OpCheckUse p r res v now => (check_use t p r res v now).2
  | OpCommitUse g => (commit_use t g).2
  | OpExpireDue now => (expire_due t now).2
  | OpRevoke g => (revoke t g).2
  | OpRevokePrincipal p => (revoke_principal t p).2
  | OpRemove g => (remove t g).2
  | OpSeal => seal_dead_man t
  end.

Definition table_run (t : GrantTable) (ops : list TableOp) : GrantTable :=
  fold_left table_step ops t.

(** The outcome of an insertion. *)
Definition spec_ok (spec : GrantSpec) (now : Instant) : Prop :=
  gs_verbs spec <> 0 /\
  match gs_expiry spec with Some ex => now + ex <= instant_max | None => True end.

Definition new_entry (t : GrantTable) (spec : GrantSpec) (now : Instant) : Entry :=
  {| row := row_of_spec (next_id t) spec now;
     deadline := (fun ex => now + ex) <$> gs_expiry spec;
     liveness := if dead_man_sealed t then LRevoked else LActive |}.

Lemma insert_spec t spec now :
  (spec_ok spec now /\
   insert t spec now =
     (Ok (next_id t), {| entries := <[next_id t := new_entry t spec now]> (entries t);
                         next_id := u64_wrapping_add (next_id t) 1;
                         dead_man_sealed := dead_man_sealed t |}))
  \/ (~ spec_ok spec now /\ exists err, insert t spec now = (Err err, t)).
Proof.
  unfold insert, spec_ok, new_entry. destruct (Z.eqb_spec (gs_verbs spec) 0);
    [right; split; [tauto|eauto]|].
  destruct (gs_expiry spec) as [ex|]; simpl; [|left; done].
  destruct (checked_add now ex) as [d|] eqn:Hd.
  - apply checked_add_Some in Hd as [-> Hd]. left. done.
  - right. split; [|eauto]. intros [_ Hle].
    assert (checked_add now ex = Some (now + ex)) by (by apply checked_add_Some). congruence.
Qed.

(** The operations that only rewrite livenesses: every row stays, unchanged but
    for a legal liveness change. *)
Definition relive (t t' : GrantTable) : Prop :=
  next_id t' = next_id t /\ dead_man_sealed t' = dead_man_sealed t /\
  bt_keys (entries t') = bt_keys (entries t) /\
  forall g, match entries t !! g with
            | Some e => exists l, entries t' !! g = Some (set_liveness l e)
                                  /\ live_le (liveness e) l = true
            | None => entries t' !! g = None
            end.

Lemma set_liveness_id e : set_liveness (liveness e) e = e.
Proof. by destruct e. Qed.

Lemma relive_refl t : relive t t.
Proof.
  repeat split. intros g. destruct (entries t !! g) as [e|]; [|done].
  exists (liveness e). rewrite set_liveness_id. auto with vitrin.
Qed.

Lemma relive_update t f :
  (forall e, exists l, f e = set_liveness l e /\ live_le (liveness e) l = true) ->
  relive t (with_entries t (bt_update (entries t) (fun _ e => f e))).
Proof.
  intros Hf. repeat split; simpl; [apply bt_keys_update|]. intros g.
  rewrite bt_lookup_update. destruct (entries t !! g) as [e|]; simpl; [|done].
  destruct (Hf e) as (l & -> & Hl). eauto.
Qed.

Lemma relive_set t g l :
  (forall e, entries t !! g = Some e -> live_le (liveness e) l = true) ->
  relive t (with_entries t (bt_set (entries t) g (set_liveness l))).
Proof.
  intros Hl. repeat split; simpl; [apply bt_keys_set|]. intros g'.
  rewrite bt_lookup_set. destruct (Z.eqb_spec g g'); [subst|].
  - destruct (entries t !! g') as [e|] eqn:He; simpl; eauto.
  - destruct (entries t !! g') as [e|] eqn:He; [|done].
    exists (liveness e). rewrite set_liveness_id. auto with vitrin.
Qed.

(** The candidate chosen by the scan is an active row of the table. *)
Lemma check_use_scan t principal realm resource verb now r ch :
  bt_wf (entries t) ->
  check_use_loop (bt_entries (entries t)) principal realm resource verb now None None = (r, ch) ->
  refusal_inv principal realm resource verb now (bt_entries (entries t)) r
  /\ chosen_inv principal realm resource verb now (bt_entries (entries t)) ch.
Proof.
  intros Hwf Hl. refine (check_use_loop_inv _ _ _ _ _ [] _ None None _ _ Hwf _ _ Hl);
    by intros ?? [].
Qed.

Lemma check_use_relive t principal realm resource verb now :
  bt_wf (entries t) -> relive t (check_use t principal realm resource verb now).2.
Proof.
  intros Hwf. unfold check_use. destruct (verb =? 0); [apply relive_refl|].
  destruct (check_use_loop _ _ _ _ _ _ _ _) as [r ch] eqn:Hl.
  apply check_use_scan in Hl as [_ Hc]; [|done].
  destruct ch as [[id rung]|]; [|apply relive_refl].
  destruct Hc as [(e & Hin & [_ Hcand] & ->) _]. apply bt_In_lookup in Hin; [|done].
  rewrite Hin. simpl. destruct (persistence (row e)); [|apply (relive_refl t)].
  apply relive_set. intros e' He'. simplify_eq.
  apply refusal_for_None in Hcand as [_ [-> _]%state_active]. done.
Qed.

(** Every operation but an insertion, a removal and the seal only kills rows. *)
Lemma table_step_relive t op :
  bt_wf (entries t) ->
  match op with
  | OpInsert _ _ | OpRemove _ | OpSeal => True
  | _ => relive t (table_step t op)
  end.
Proof.
  intros Hwf. destruct op as [|p r res v now|g|now|g|p| |]; simpl; try done.
  - by apply check_use_relive.
  - unfold commit_use. destruct (entries t !! g) as [e|] eqn:He; [|apply relive_refl].
    destruct (bool_decide _ && bool_decide _)%bool eqn:Hc; [|apply relive_refl].
    unbool. apply relive_set. intros e' He'. simplify_eq.
    match goal with H : liveness _ = _ |- _ => rewrite H end. done.
  - apply relive_update. intros e. unfold is_due. case_match eqn:Hd; unbool.
    + exists LExpired. split; [done|].
      match goal with H : liveness _ = _ |- _ => rewrite H end. done.
    + exists (liveness e). rewrite set_liveness_id. auto with vitrin.
  - unfold revoke. destruct (entries t !! g) as [e|]; [|apply relive_refl].
    case_bool_decide; [apply relive_refl|]. apply relive_set. auto with vitrin.
  - apply relive_update. intros e. case_match.
    + exists LRevoked. auto with vitrin.
    + exists (liveness e). rewrite set_liveness_id. auto with vitrin.
Qed.

Lemma relive_lookup t t' g e' :
  relive t t' -> entries t' !! g = Some e' ->
  exists e l, entries t !! g = Some e /\ e' = set_liveness l e /\ live_le (liveness e) l = true.
Proof.
  intros (_ & _ & _ & H) He'. specialize (H g). destruct (entries t !! g) as [e|].
  - destruct H as (l & H & Hl). rewrite H in He'. simplify_eq. eauto.
  - congruence.
Qed.

Lemma relive_wf t t' : relive t t' -> table_wf t -> table_wf t'.
Proof.
  intros Hrl [Hs Hn Hi Hr]. pose proof Hrl as (Hnext & _ & Hk & _).
  split.
  - unfold bt_wf. by rewrite Hk.
  - by rewrite Hnext.
  - intros id e' He'. destruct (relive_lookup _ _ _ _ Hrl He') as (e & l & He & _).
    rewrite Hnext. eauto.
  - intros id e' He'. destruct (relive_lookup _ _ _ _ Hrl He') as (e & l & He & -> & _).
    exact (Hr _ _ He).
Qed.

Lemma table_new_wf : table_wf table_new.
Proof. split; simpl; [apply bt_wf_empty|lia|done|done]. Qed.

Lemma table_step_wf t op : table_wf t -> next_id t < u64_max -> table_wf (table_step t op).
Proof.
  intros Hwf Hn. pose proof Hwf as [Hs H1 Hi Hr].
  pose proof (table_step_relive t op Hs) as Hrel.
  destruct op as [spec now| | | | | |g|]; try (by eapply relive_wf); simpl.
  - destruct (insert_spec t spec now) as [[[Hv Hex] ->]|[_ [err ->]]]; [simpl|done].
    assert (u64_wrapping_add (next_id t) 1 = next_id t + 1) as Hw
      by (apply u64_wrapping_add_small; lia).
    split; simpl.
    + auto with vitrin.
    + lia.
    + intros id e He. rewrite bt_lookup_insert in He.
      destruct (Z.eqb_spec id (next_id t)); [lia|]. specialize (Hi _ _ He). lia.
    + intros id e He. rewrite bt_lookup_insert in He.
      destruct (Z.eqb_spec id (next_id t)); [|by apply Hr].
      simplify_eq. unfold entry_wf, new_entry. simpl. done.
  - split; simpl; auto with vitrin; intros id e He;
      rewrite bt_lookup_remove in He; destruct (id =? g); try done; eauto.
  - by destruct t.
Qed.

(** The age of the table: each step mints at most one id. *)
Lemma table_step_next t op :
  table_wf t -> next_id t < u64_max -> next_id t <= next_id (table_step t op) <= next_id t + 1.
Proof.
  intros Hwf Hn. pose proof Hwf as [Hs H1 Hi Hr].
  pose proof (table_step_relive t op Hs) as Hrel.
  destruct op as [spec now| | | | | |g|]; try (unfold relive in Hrel; destruct_and!; lia); simpl; try lia.
  destruct (insert_spec t spec now) as [[_ ->]|[_ [err ->]]]; simpl; [|lia].
  rewrite u64_wrapping_add_small; lia.
Qed.

Lemma table_run_wf ops t :
  table_wf t -> next_id t + Z.of_nat (List.length ops) <= u64_max ->
  table_wf (table_run t ops)
  /\ next_id t <= next_id (table_run t ops) <= next_id t + Z.of_nat (List.length ops).
Proof.
  revert t. induction ops as [|op ops IH]; intros t Hwf Hn; simpl in *; [split; [done|lia]|].
  pose proof (table_step_next t op Hwf ltac:(lia)).
  destruct (IH (table_step t op)) as [Hwf' Hb]; [by apply table_step_wf; [|lia]|lia|].
  split; [done|lia].
Qed.

(** The fate of a row over any run: it stays as it is but for its liveness,
    which only moves towards death, or it is removed for good. *)
Lemma table_step_entry t op g e' :
  table_wf t -> g < next_id t -> entries (table_step t op) !! g = Some e' ->
  exists e l, entries t !! g = Some e /\ e' = set_liveness l e /\ live_le (liveness e) l = true.
Proof.
  intros [Hs _ _ _] Hg He'. pose proof (table_step_relive t op Hs) as Hrel.
  assert (entries t !! g = Some e' -> exists e l, entries t !! g = Some e /\
            e' = set_liveness l e /\ live_le (liveness e) l = true) as Hsame.
  { intros. exists e', (liveness e'). rewrite set_liveness_id. auto with vitrin. }
  destruct op as [spec now| | | | | |g0|]; try (by eapply relive_lookup); simpl in He'.
  - destruct (insert_spec t spec now) as [[_ Hi]|[_ [err Hi]]]; rewrite Hi in He'; simpl in He'; [|auto].
    rewrite bt_lookup_insert_ne in He' by lia. auto.
  - rewrite bt_lookup_remove in He'. destruct (g =? g0); [done|auto].
  - auto.
Qed.

Lemma table_run_entry ops t g e' :
  table_wf t -> next_id t + Z.of_nat (List.length ops) <= u64_max -> g < next_id t ->
  entries (table_run t ops) !! g = Some e' ->
  exists e l, entries t !! g = Some e /\ e' = set_liveness l e /\ live_le (liveness e) l = true.
Proof.
  revert t. induction ops as [|op ops IH]; intros t Hwf Hn Hg He'; simpl in *.
  { exists e', (liveness e'). rewrite set_liveness_id. auto with vitrin. }
  pose proof (table_step_next t op Hwf ltac:(lia)).
  destruct (IH (table_step t op)) as (e1 & l1 & He1 & -> & Hl1);
    [by apply table_step_wf; [|lia]|lia|lia|done|].
  destruct (table_step_entry t op g e1 Hwf Hg He1) as (e & l & He & -> & Hl).
  exists e, l1. split; [done|split; [done|]]. simpl in Hl1. by eapply live_le_trans.
Qed.

(** A dead row stays dead, at every later time and after every run. *)
Lemma dead_forever l e now now' :
  state_at e now <> GActive -> now <= now' -> live_le (liveness e) l = true ->
  state_at (set_liveness l e) now' <> GActive.
Proof.
  intros Hd Hle Hl [Hl' Hp]%state_active. simpl in Hl'. subst. apply Hd, state_active. split.
  - by destruct (liveness e).
  - destruct (passed e now) eqn:Hpe; [|done]. rewrite <- Hp. symmetry.
    by apply (passed_mono e now).
Qed.

Lemma check_use_grant_Ok t g principal verb now a :
  check_use_grant t g principal verb now = Ok a <->
  verb <> 0 /\ exists e, entries t !! g = Some e /\ principal_id (row e) = principal /\
    mask_contains (verbs (row e)) verb = true /\ state_at e now = GActive /\
    a = {| al_grant_id := g; al_max_event_rate := max_event_rate (constraints (row e)) |}.
Proof.
  unfold check_use_grant. destruct (Z.eqb_spec verb 0); [split; [done|tauto]|].
  destruct (entries t !! g) as [e|] eqn:He; cycle 1.
  { split; [done|]. by intros (_ & e & ? & _). }
  destruct (str_eqb (principal_id (row e)) principal) eqn:Hp; simpl; cycle 1.
  { split; [done|]. intros (_ & e' & [= <-] & Hp'%str_eqb_eq & _). congruence. }
  apply str_eqb_eq in Hp. destruct (refusal_for e verb now) as [s|] eqn:Hr.
  - split; [done|]. intros (_ & e' & [= <-] & _ & Hm & Ha & _).
    assert (refusal_for e verb now = None) by (by apply refusal_for_None). congruence.
  - apply refusal_for_None in Hr as [Hm Ha]. split; [intros [= <-]; eauto 10|].
    by intros (_ & e' & [= <-] & _ & _ & _ & ->).
Qed.

(** *** An expiry sweep and the queries *)

Lemma expire_due_entry t now g :
  entries (expire_due t now).2 !! g =
  (fun e => if is_due now e then set_liveness LExpired e else e) <$> entries t !! g.
Proof. apply bt_lookup_update. Qed.

Lemma is_due_refusal now now' e verb :
  now <= now' ->
  refusal_for (if is_due now e then set_liveness LExpired e else e) verb now'
  = refusal_for e verb now'.
Proof.
  intros Hle. destruct (is_due now e) eqn:Hd; [|done]. unfold is_due in Hd. unbool.
  match goal with H : passed e now = true |- _ => apply (passed_mono e now now') in H as Hp; [|done] end.
  unfold refusal_for, passed in *. simpl.
  match goal with H : liveness e = _ |- _ => rewrite H end.
  rewrite Hp. by destruct (mask_contains _ _).
Qed.

Lemma is_due_state now now' e :
  now <= now' ->
  state_at (if is_due now e then set_liveness LExpired e else e) now' = state_at e now'.
Proof.
  intros Hle. destruct (is_due now e) eqn:Hd; [|done]. unfold is_due in Hd. unbool.
  match goal with H : passed e now = true |- _ => apply (passed_mono e now now') in H as Hp; [|done] end.
  unfold state_at, passed in *. simpl.
  match goal with H : liveness e = _ |- _ => rewrite H end. by rewrite Hp.
Qed.

Lemma is_due_row now e :
  row (if is_due now e then set_liveness LExpired e else e) = row e.
Proof. by destruct (is_due now e). Qed.

(** The sweep seen by the scan of [check_use]: same refusal, same choice. *)
Lemma expire_due_scan es principal realm resource verb now now' r ch :
  now <= now' ->
  check_use_loop (List.map (fun kv : Z * Entry =>
      (kv.1, if is_due now kv.2 then set_liveness LExpired kv.2 else kv.2)) es)
    principal realm resource verb now' r ch
  = check_use_loop es principal realm resource verb now' r ch.
Proof.
  intros Hle. revert r ch. induction es as [|[id e] es IH]; intros r ch; simpl; [done|].
  rewrite is_due_row, is_due_refusal by done. repeat case_match; auto.
Qed.

(** *** Counting uses *)

Lemma commit_use_spends t g t' :
  commit_use t g = (true, t') ->
  exists e, entries t !! g = Some e /\ persistence (row e) = Once /\ liveness e = LActive /\
    t' = with_entries t (bt_set (entries t) g (set_liveness LSpent)).
Proof.
  unfold commit_use. destruct (entries t !! g) as [e|]; [|done].
  destruct (bool_decide _ && bool_decide _)%bool eqn:Hc; [|done]. unbool. intros [= <-]. eauto.
Qed.

(* ------------------------------------------------------------------------ *)
(** ** Properties *)

(** C28: the chokepoint query admits a use exactly when the named row exists,
    belongs to the asking principal, confers the verb and is active at that
    time; and when a row of the principal does confer the verb, the refusal
    names its death, a revocation before an expiry. *)
Theorem grants_check_use_grant_exact (t : GrantTable) (g : Z)
  (principal : PrincipalIdentity) (verb : Z) (now : Z) :
  (forall a, check_use_grant t g principal verb now = Ok a <->
     verb <> 0 /\ exists e, entries t !! g = Some e /\ principal_id (row e) = principal /\
       mask_contains (verbs (row e)) verb = true /\ state_at e now = GActive /\
       a = {| al_grant_id := g; al_max_event_rate := max_event_rate (constraints (row e)) |})
  /\ (forall e, entries t !! g = Some e -> principal_id (row e) = principal -> verb <> 0 ->
       mask_contains (verbs (row e)) verb = true ->
       match state_at e now with
       | GActive => is_ok (check_use_grant t g principal verb now) = true
       | GRevoked => check_use_grant t g principal verb now = Err Revoked
       | GExpired | GSpent => check_use_grant t g principal verb now = Err Expired
       end).
Proof.
  split; [intros a; apply check_use_grant_Ok|].
  intros e He Hp Hv Hm. unfold check_use_grant.
  rewrite (proj2 (Z.eqb_neq _ _)), He by done.
  rewrite (proj2 (str_eqb_eq _ _)) by done. simpl.
  rewrite refusal_for_state by done. by destruct (state_at e now).
Qed.

(** The principal-keyed query selects as documented. When some matching row
    admits the use, the answer is an admitting row, an unlimited one if there
    is any and the newest of its rung, and it is consumed exactly when it is
    single-use; when none does, the table is untouched and the refusal is the
    most severe one among the matching rows, [NotGranted] when there is none. *)
Theorem grants_check_use_selects (t : GrantTable) (principal : PrincipalIdentity)
  (realm : RealmId) (resource : ResourceRef) (verb now : Z)
  (Hwf : table_wf t) (Hverb : verb <> 0) :
  match check_use t principal realm resource verb now with
  | (Ok a, t') =>
      exists e, entries t !! al_grant_id a = Some e
        /\ candidate principal realm resource verb now e
        /\ al_max_event_rate a = max_event_rate (constraints (row e))
        /\ (forall id' e', entries t !! id' = Some e' ->
              candidate principal realm resource verb now e' ->
              preferred (al_grant_id a) (persistence (row e)) id' (persistence (row e')))
        /\ (forall g, entries t' !! g =
              if (g =? al_grant_id a) && bool_decide (persistence (row e) = Once)
              then Some (set_liveness LSpent e) else entries t !! g)
  | (Err reason, t') =>
      t' = t
      /\ (forall id e, entries t !! id = Some e ->
            ~ candidate principal realm resource verb now e)
      /\ (forall id e s, entries t !! id = Some e -> matching principal realm resource e ->
            refusal_for e verb now = Some s -> severity s <= severity reason)
      /\ ((exists id e, entries t !! id = Some e /\ matching principal realm resource e
             /\ refusal_for e verb now = Some reason)
          \/ reason = NotGranted)
  end.
Proof.
  pose proof (twf_sorted _ Hwf) as Hs.
  unfold check_use. rewrite (proj2 (Z.eqb_neq _ _)) by done.
  destruct (check_use_loop _ _ _ _ _ _ _ _) as [r ch] eqn:Hl.
  apply check_use_scan in Hl as [Hr Hc]; [|done].
  destruct ch as [[id rung]|].
  - destruct Hc as [(e & Hin & Hcand & ->) Hpref]. apply bt_In_lookup in Hin; [|done].
    rewrite Hin. simpl. exists e. split; [done|]. split; [done|]. split; [done|]. split.
    + intros id' e' He' Hc'. eapply Hpref; [|done]. by apply bt_In_lookup.
    + intros g. destruct (persistence (row e)) eqn:Hp; simpl.
      * rewrite bt_lookup_set, Z.eqb_sym, andb_true_r.
        destruct (Z.eqb_spec g id); [subst; by rewrite Hin|done].
      * by rewrite andb_false_r.
  - split; [done|]. split; [intros id e He; apply (Hc id e); by apply bt_In_lookup|].
    destruct r as [s|]; simpl.
    + destruct Hr as [(id & e & Hin & Hm & Hre) Hmax].
      split; [intros id' e' s' He'; apply (Hmax id' e'); by apply bt_In_lookup|].
      left. exists id, e. split; [by apply bt_In_lookup|done].
    + split; [|by right]. intros id e s He Hm Hre. simpl in Hr.
      rewrite (Hr id e) in Hre; [done|by apply bt_In_lookup|done].
Qed.

Definition demo_spec (v : Z) (r : PersistenceRung) : GrantSpec :=
  {| gs_principal_id := str "vitrin://local/agent/demo"; gs_realm_id := str "realm-0";
     gs_resource_ref := WholeRealm; gs_verbs := v; gs_expiry := Some (from_secs 60);
     gs_max_event_rate := 20; gs_persistence := r; gs_issuer := HumanConsent |}.

Definition demo_table : GrantTable :=
  table_run table_new [OpInsert (demo_spec 3 WhileRunning) 0; OpInsert (demo_spec 1 Once) 0].

Lemma demo_table_wf : table_wf demo_table.
Proof. apply table_run_wf; [apply table_new_wf|vm_compute; discriminate]. Qed.

Lemma grants_check_use_selects_witness :
  exists e, entries demo_table !! 1 = Some e
    /\ (check_use demo_table (str "vitrin://local/agent/demo") (str "realm-0") WholeRealm 1 5).1
       = Ok {| al_grant_id := 1; al_max_event_rate := 20 |}
    /\ candidate (str "vitrin://local/agent/demo") (str "realm-0") WholeRealm 1 5 e.
Proof.
  destruct (grants_check_use_selects demo_table (str "vitrin://local/agent/demo")
    (str "realm-0") WholeRealm 1 5 demo_table_wf ltac:(lia)) as (e & He & Hc & _).
  exists e. split; [exact He|]. split; [vm_compute; reflexivity|exact Hc].
Defined.

(** The proactive expiry sweep is advisory. At the sweep's time and ever
    after, both queries and every liveness report answer over the swept table
    exactly as over the unswept one, for every principal, verb and resource;
    the sweep reports, in ascending order, exactly the rows that were stored
    active past their deadline, and a second sweep reports none. *)
Theorem grants_expire_due_advisory (t : GrantTable) (now now' : Z)
  (Hwf : table_wf t) (Hle : now <= now') :
  let t' := (expire_due t now).2 in
  (forall g principal verb,
     check_use_grant t' g principal verb now' = check_use_grant t g principal verb now')
  /\ (forall principal realm resource verb,
        (check_use t' principal realm resource verb now').1
        = (check_use t principal realm resource verb now').1)
  /\ (forall g, get t' g now' = get t g now')
  /\ (forall g, In g (expire_due t now).1 <->
        exists e, entries t !! g = Some e /\ liveness e = LActive /\ passed e now = true)
  /\ StronglySorted Z.lt (expire_due t now).1
  /\ (expire_due t' now).1 = [].
Proof.
  pose proof (twf_sorted _ Hwf) as Hs. intros t'.
  assert (forall g, entries t' !! g =
    (fun e => if is_due now e then set_liveness LExpired e else e) <$> entries t !! g) as Hlk
    by apply expire_due_entry.
  split; [|split; [|split; [|split; [|split]]]].
  - intros g p verb. unfold check_use_grant. rewrite Hlk.
    destruct (entries t !! g) as [e|]; simpl; [|done].
    by rewrite is_due_row, is_due_refusal.
  - intros p realm res verb. unfold check_use. destruct (verb =? 0); [done|].
    unfold t', expire_due at 1. simpl. rewrite expire_due_scan by done.
    destruct (check_use_loop _ _ _ _ _ _ _ _) as [r [[id rung]|]]; [|done].
    change (bt_update (entries t) _) with (entries t'). rewrite Hlk.
    destruct (entries t !! id) as [e|]; simpl; [|done]. by rewrite is_due_row.
  - intros g. unfold get. rewrite Hlk. destruct (entries t !! g) as [e|]; simpl; [|done].
    by rewrite is_due_row, is_due_state.
  - intros g. simpl. rewrite bt_select_In by done. unfold is_due. split.
    + intros (e & He & Hd). unbool. eauto.
    + intros (e & He & Hl & Hp). exists e. by rewrite Hl, Hp.
  - by apply bt_select_sorted.
  - destruct (expire_due t' now).1 as [|g gs] eqn:Hsel; [done|]. exfalso.
    assert (In g (expire_due t' now).1) as Hin by (rewrite Hsel; by left).
    simpl in Hin. apply bt_select_In in Hin as (e & He & Hd); [|by apply bt_wf_update].
    rewrite Hlk in He. destruct (entries t !! g) as [e0|]; simplify_eq/=.
    destruct (is_due now e0) eqn:Hd0; [|congruence]. unfold is_due in Hd. by unbool.
Qed.

Lemma grants_expire_due_advisory_witness :
  0 <= from_secs 61 /\
  check_use_grant (expire_due demo_table (from_secs 61)).2 1 (str "vitrin://local/agent/demo") 1
    (from_secs 62) = Err Expired.
Proof.
  split; [vm_compute; discriminate|].
  transitivity (check_use_grant demo_table 1 (str "vitrin://local/agent/demo") 1 (from_secs 62)).
  - destruct (grants_expire_due_advisory demo_table (from_secs 61) (from_secs 62) demo_table_wf
      ltac:(vm_compute; discriminate)) as [Hq _]. exact (Hq 1 _ 1).
  - vm_compute. reflexivity.
Defined.

(** Death is final. Once a row is not active, whether revoked, past its
    deadline or spent, no sequence of operations on the table, insertions
    included, makes its id answer a use again at any later time: the id is
    never reused and no liveness returns. A revoked row that was not removed
    keeps answering [Revoked] for every verb it conferred. *)
Theorem grants_death_final (t : GrantTable) (ops : list TableOp) (g now now' : Z) (e : Entry)
  (principal : PrincipalIdentity) (verb : Z)
  (Hwf : table_wf t) (Hage : next_id t + Z.of_nat (List.length ops) <= u64_max)
  (He : entries t !! g = Some e) (Hdead : state_at e now <> GActive) (Hle : now <= now') :
  is_ok (check_use_grant (table_run t ops) g principal verb now') = false
  /\ (state_at e now = GRevoked -> is_Some (entries (table_run t ops) !! g) ->
      mask_contains (verbs (row e)) verb = true -> verb <> 0 ->
      check_use_grant (table_run t ops) g (principal_id (row e)) verb now' = Err Revoked).
Proof.
  assert (g < next_id t) as Hg by (apply (twf_ids _ Hwf) in He; lia).
  pose proof (table_run_entry ops t g) as Hrun. split.
  - destruct (check_use_grant _ _ _ _ _) as [a|] eqn:Hc; [|done]. exfalso.
    apply check_use_grant_Ok in Hc as (_ & e' & He' & _ & _ & Ha & _).
    destruct (Hrun e' Hwf Hage Hg He') as (e0 & l & He0 & -> & Hl). simplify_eq.
    by apply (dead_forever l e now now').
  - intros Hrev [e' He'] Hm Hv.
    destruct (Hrun e' Hwf Hage Hg He') as (e0 & l & He0 & -> & Hl). simplify_eq.
    assert (liveness e = LRevoked) as Hlr.
    { unfold state_at in Hrev. by destruct (liveness e), (passed e now). }
    assert (l = LRevoked) as -> by (rewrite Hlr in Hl; by destruct l).
    unfold check_use_grant. rewrite (proj2 (Z.eqb_neq _ _)), He' by done.
    rewrite (proj2 (str_eqb_eq _ _)) by done. simpl.
    unfold refusal_for. simpl. by rewrite Hm.
Qed.

Lemma grants_death_final_witness :
  let t := (revoke demo_table 1).2 in
  check_use_grant (table_run t [OpExpireDue 7; OpInsert (demo_spec 1 Once) 8]) 1
    (str "vitrin://local/agent/demo") 1 9 = Err Revoked.
Proof.
  intros t. destruct (entries t !! 1) as [e|] eqn:He; [|vm_compute in He; discriminate].
  assert (table_wf t) as Hwf by (apply (table_step_wf demo_table (OpRevoke 1)); [apply demo_table_wf|vm_compute; reflexivity]).
  assert (state_at e 6 = GRevoked) as Hst by (vm_compute in He; injection He as <-; vm_compute; reflexivity).
  assert (principal_id (row e) = str "vitrin://local/agent/demo") as <-
    by (vm_compute in He; injection He as <-; vm_compute; reflexivity).
  refine (proj2 (grants_death_final t [OpExpireDue 7; OpInsert (demo_spec 1 Once) 8] 1 6 9 e
            (str "x") 1 Hwf _ He _ _) Hst _ _ _).
  - vm_compute. discriminate.
  - rewrite Hst. discriminate.
  - lia.
  - vm_compute. eauto.
  - vm_compute in He. injection He as <-. vm_compute. reflexivity.
  - lia.
Defined.
