(* ===== verification/Realm.v ===== *)
(** * Realms

    [crates/vitrin-core/src/realm.rs] and the naming rules of
    [crates/vitrin-ipc/src/paths.rs]: the realm configuration file, the
    validation of ids, environment names and bind sources, the audit of the
    spawn target, and the registry of realms with its state changes and the
    minting of launch instances. The registry's [BTreeMap<RealmId, Realm>] is a
    [gmap]; its order only chooses which of several faults a message names.
    File status is an argument; opening and canonicalizing are I/O. *)

From S2P Require Import Prelude Text Toml Identity Grants.

Definition MAX_REALMS : Z := 16.
Definition WELL_KNOWN_REALM_ID : RealmId := str "realm-0".
Definition MAX_INSTANCE_SUFFIX : Z := 1 + 20.
Definition MAX_DECLARED_ID_BYTES : Z := 64 - MAX_INSTANCE_SUFFIX.

(* ------------------------------------------------------------------------ *)
(** ** Names in the runtime directory *)

Definition CORE_SOCKET_NAME : Str := str "core.sock".
Definition LOCK_SUFFIX : Str := str ".lock".

Definition runtime_names_claimed_by (id : RealmId) : list Str := [id; id ++ LOCK_SUFFIX].
Definition reserved_runtime_names : list Str :=
  [CORE_SOCKET_NAME; CORE_SOCKET_NAME ++ LOCK_SUFFIX].

Definition realm_id_char (c : Z) : bool :=
  is_ascii_alphanumeric c || (c =? ch "-") || (c =? ch "_") || (c =? ch ".").
(** [paths::validate_realm_id]. *)
Definition validate_transport_realm_id (id : Str) : bool :=
  negb (bool_decide (id = [])) && (str_len id <=? 64)
  && negb (str_eqb id (str ".")) && negb (str_eqb id (str ".."))
  && forallb realm_id_char id.

Definition looks_like_an_instance_id (id : Str) : bool :=
  let stem := default id (strip_suffix (str ".lock") id) in
  match rsplit_once (ch ".") stem with
  | None => false
  | Some (prefix, tail) =>
      negb (bool_decide (prefix = [])) && negb (bool_decide (tail = []))
      && forallb is_ascii_digit tail
  end.

Inductive IdDetail : Type := IllegalId | InstanceShaped | DeclaredTooLong.
Definition validate_realm_id (id : Str) : result unit IdDetail :=
  if negb (validate_transport_realm_id id) then Err IllegalId
  else if looks_like_an_instance_id id then Err InstanceShaped
  else if MAX_DECLARED_ID_BYTES <? str_len id then Err DeclaredTooLong
  else Ok tt.

(* ------------------------------------------------------------------------ *)
(** ** The configuration *)

Record SpawnConfig : Type := {
  sc_command : Str;
  sc_args : list Str;
  sc_env_allow : list Str;
  sc_binds : list Str }.

(** [SpawnConfig::inherited_env], against the core's environment. *)
Definition inherited_env (sc : SpawnConfig) (lookup : Str -> option Str) : list (Str * Str) :=
  omap (fun name => (fun value => (name, value)) <$> lookup name) (sc_env_allow sc).

(** [AuditedCommand]: the command of an audited configuration. *)
Definition AuditedCommand := Str.
Definition audited_command (sc : SpawnConfig) : AuditedCommand := sc_command sc.

Definition RESERVED_ENV : list Str :=
  [str "HOME"; str "DISPLAY"; str "WAYLAND_DISPLAY"; str "WAYLAND_SOCKET";
   str "XAUTHORITY"; str "XDG_RUNTIME_DIR"].
Definition reserved_env (name : Str) : bool := existsb (fun r => str_eqb r name) RESERVED_ENV.

Definition is_ascii_alphabetic (c : Z) : bool := is_ascii_lowercase c || is_ascii_uppercase c.
Definition is_env_name (name : Str) : bool :=
  match name with
  | c :: cs =>
      (is_ascii_alphabetic c || (c =? ch "_"))
      && forallb (fun c => is_ascii_alphanumeric c || (c =? ch "_")) cs
  | [] => false
  end.

(** [Path::is_absolute], and the components by which [Path]s are compared. *)
Definition is_absolute (p : Str) : bool := starts_with (str "/") p.
Definition components (p : Str) : bool * list Str :=
  (is_absolute p,
   List.filter (fun w => negb (bool_decide (w = [])) && negb (str_eqb w (str ".")))
     (split_char (ch "/") p)).
Definition path_eqb (p q : Str) : bool := bool_decide (components p = components q).

Record RealmSpec : Type := {
  rs_id : RealmId;
  rs_spawn : SpawnConfig;
  rs_autostart : bool }.

Inductive RealmParseDetail : Type :=
| RMalformedTableHeader
| RTrailingAfterHeader
| RSecondPicker
| RUnknownTable (header : Str)
| RExpectedKeyValue
| RKeyOutsideTable
| RDuplicateKey (key : Str)
| RUnknownKey (key : Str)
| RPickerWithoutRoot
| RRelativeRoot (root : Str)
| RBadId (d : IdDetail)
| REmptyCommand
| RRelativeCommand (command : Str)
| RBadEnvName (name : Str)
| RReservedEnv (name : Str)
| RDuplicateEnv (name : Str)
| RRelativeBind (entry : Str)
| RBroadBind (entry : Str)
| RDuplicateBind (entry : Str)
| RSubset (d : SubsetDetail).

Inductive ErrorKind : Type :=
| KInsecure
| KParse (line : Z) (detail : RealmParseDetail)
| KTooManyRealms (found : Z)
| KNoRealm
| KMissingCommand (id : RealmId)
| KDuplicateId (id : RealmId)
| KNoAutostart
| KNoWellKnownRealm
| KReservedName
| KNameCollision.

Record RawRealm : Type := {
  rr_id : option (Str * Z);
  rr_command : option (Str * Z);
  rr_args : option (list Str);
  rr_env_allow : option (list Str * Z);
  rr_binds : option (list Str * Z);
  rr_autostart : option bool }.
Definition raw_realm_default : RawRealm :=
  {| rr_id := None; rr_command := None; rr_args := None; rr_env_allow := None;
     rr_binds := None; rr_autostart := None |}.

Record RawPicker : Type := { rp_root : option (Str * Z); rp_line_no : Z }.

Inductive Table : Type := TNone | TRealm | TPicker.

(** The state of the line loop: the realms last first, the picker, and the open
    table. *)
Record ParseState : Type := {
  ps_raw : list RawRealm;
  ps_picker : option RawPicker;
  ps_current : Table }.

Definition kerr {A} (line : Z) (d : RealmParseDetail) : result A ErrorKind := Err (KParse line d).
Definition ksub {A} (r : result A SubsetError) : result A ErrorKind :=
  match r with
  | Ok a => Ok a
  | Err e => kerr (se_line e) (RSubset (se_detail e))
  end.
(** A key that may be given once. *)
Definition fresh_key {A} (field : option A) (key : Str) (line_no : Z) : result unit ErrorKind :=
  match field with Some _ => kerr line_no (RDuplicateKey key) | None => Ok tt end.

Definition parse_picker_key (p : RawPicker) (key value : Str) (line_no : Z)
    : result RawPicker ErrorKind :=
  if str_eqb key (str "root") then
    let? _ := fresh_key (rp_root p) key line_no in
    let? v := ksub (basic_string value line_no) in
    Ok {| rp_root := Some (v, line_no); rp_line_no := rp_line_no p |}
  else kerr line_no (RUnknownKey key).

Definition parse_realm_key (r : RawRealm) (key value : Str) (line_no : Z)
    : result RawRealm ErrorKind :=
  if str_eqb key (str "id") then
    let? _ := fresh_key (rr_id r) key line_no in
    let? v := ksub (basic_string value line_no) in
    Ok {| rr_id := Some (v, line_no); rr_command := rr_command r; rr_args := rr_args r;
          rr_env_allow := rr_env_allow r; rr_binds := rr_binds r;
          rr_autostart := rr_autostart r |}
  else if str_eqb key (str "command") then
    let? _ := fresh_key (rr_command r) key line_no in
    let? v := ksub (basic_string value line_no) in
    Ok {| rr_id := rr_id r; rr_command := Some (v, line_no); rr_args := rr_args r;
          rr_env_allow := rr_env_allow r; rr_binds := rr_binds r;
          rr_autostart := rr_autostart r |}
  else if str_eqb key (str "args") then
    let? _ := fresh_key (rr_args r) key line_no in
    let? v := ksub (string_array value line_no) in
    Ok {| rr_id := rr_id r; rr_command := rr_command r; rr_args := Some v;
          rr_env_allow := rr_env_allow r; rr_binds := rr_binds r;
          rr_autostart := rr_autostart r |}
  else if str_eqb key (str "env_allow") then
    let? _ := fresh_key (rr_env_allow r) key line_no in
    let? v := ksub (string_array value line_no) in
    Ok {| rr_id := rr_id r; rr_command := rr_command r; rr_args := rr_args r;
          rr_env_allow := Some (v, line_no); rr_binds := rr_binds r;
          rr_autostart := rr_autostart r |}
  else if str_eqb key (str "binds") then
    let? _ := fresh_key (rr_binds r) key line_no in
    let? v := ksub (string_array value line_no) in
    Ok {| rr_id := rr_id r; rr_command := rr_command r; rr_args := rr_args r;
          rr_env_allow := rr_env_allow r; rr_binds := Some (v, line_no);
          rr_autostart := rr_autostart r |}
  else if str_eqb key (str "autostart") then
    let? _ := fresh_key (rr_autostart r) key line_no in
    let? v := ksub (boolean value line_no) in
    Ok {| rr_id := rr_id r; rr_command := rr_command r; rr_args := rr_args r;
          rr_env_allow := rr_env_allow r; rr_binds := rr_binds r;
          rr_autostart := Some v |}
  else kerr line_no (RUnknownKey key).

Definition parse_config_line (st : ParseState) (raw_line : Str) (line_no : Z)
    : result ParseState ErrorKind :=
  let line := trim raw_line in
  if bool_decide (line = []) || starts_with (str "#") line then Ok st
  else if starts_with (str "[") line then
    let? (header, rest) := ok_or (table_header line) (KParse line_no RMalformedTableHeader) in
    if negb (blank_or_comment rest) then kerr line_no RTrailingAfterHeader
    else if str_eqb header (str "[[realm]]") then
      Ok {| ps_raw := raw_realm_default :: ps_raw st; ps_picker := ps_picker st;
            ps_current := TRealm |}
    else if str_eqb header (str "[[picker]]") then
      match ps_picker st with
      | Some _ => kerr line_no RSecondPicker
      | None => Ok {| ps_raw := ps_raw st;
                      ps_picker := Some {| rp_root := None; rp_line_no := line_no |};
                      ps_current := TPicker |}
      end
    else kerr line_no (RUnknownTable header)
  else
    let? (key, value) := ok_or (split_once (str "=") line) (KParse line_no RExpectedKeyValue) in
    let key := trim key in
    let value := trim_start value in
    match ps_current st, ps_picker st with
    | TPicker, Some p =>
        let? p := parse_picker_key p key value line_no in
        Ok {| ps_raw := ps_raw st; ps_picker := Some p; ps_current := TPicker |}
    | _, _ =>
        match ps_raw st with
        | [] => kerr line_no RKeyOutsideTable
        | r :: rs =>
            let? r := parse_realm_key r key value line_no in
            Ok {| ps_raw := r :: rs; ps_picker := ps_picker st; ps_current := ps_current st |}
        end
    end.

Fixpoint parse_config_lines (st : ParseState) (ls : list Str) (idx : Z)
    : result ParseState ErrorKind :=
  match ls with
  | [] => Ok st
  | l :: ls => let? st := parse_config_line st l (idx + 1) in parse_config_lines st ls (idx + 1)
  end.

Fixpoint validate_env (names : list Str) (line : Z) (env_allow : list Str)
    : result (list Str) ErrorKind :=
  match names with
  | [] => Ok env_allow
  | name :: names =>
      if negb (is_env_name name) then kerr line (RBadEnvName name)
      else if reserved_env name then kerr line (RReservedEnv name)
      else if existsb (str_eqb name) env_allow then kerr line (RDuplicateEnv name)
      else validate_env names line (env_allow ++ [name])
  end.

Fixpoint validate_binds (paths : list Str) (line : Z) (binds : list Str)
    : result (list Str) ErrorKind :=
  match paths with
  | [] => Ok binds
  | entry :: paths =>
      if negb (is_absolute entry) then kerr line (RRelativeBind entry)
      else if path_eqb entry (str "/") || path_eqb entry (str "/home")
      then kerr line (RBroadBind entry)
      else if existsb (path_eqb entry) binds then kerr line (RDuplicateBind entry)
      else validate_binds paths line (binds ++ [entry])
  end.

Definition validate_realm (raw : RawRealm) : result RealmSpec ErrorKind :=
  let? id :=
    match rr_id raw with
    | Some (text, line) =>
        match validate_realm_id text with
        | Ok _ => Ok text
        | Err d => kerr line (RBadId d)
        end
    | None => Ok WELL_KNOWN_REALM_ID
    end in
  let? (command, command_line) := ok_or (rr_command raw) (KMissingCommand id) in
  if bool_decide (command = []) then kerr command_line REmptyCommand else
  if negb (is_absolute command) then kerr command_line (RRelativeCommand command) else
  let? env_allow :=
    match rr_env_allow raw with
    | Some (names, line) => validate_env names line []
    | None => Ok []
    end in
  let? binds :=
    match rr_binds raw with
    | Some (paths, line) => validate_binds paths line []
    | None => Ok []
    end in
  Ok {| rs_id := id;
        rs_spawn := {| sc_command := command; sc_args := default [] (rr_args raw);
                       sc_env_allow := env_allow; sc_binds := binds |};
        rs_autostart := default true (rr_autostart raw) |}.

Fixpoint validate_realms (raws : list RawRealm) : result (list RealmSpec) ErrorKind :=
  match raws with
  | [] => Ok []
  | raw :: raws =>
      let? spec := validate_realm raw in
      let? specs := validate_realms raws in
      Ok (spec :: specs)
  end.

Definition parse_config (text : Str) : result (list RealmSpec * option Str) ErrorKind :=
  let? st := parse_config_lines {| ps_raw := []; ps_picker := None; ps_current := TNone |}
               (lines text) 0 in
  let raw := reverse (ps_raw st) in
  let n := Z.of_nat (List.length raw) in
  if MAX_REALMS <? n then Err (KTooManyRealms n) else
  let? picker_root :=
    match ps_picker st with
    | None => Ok None
    | Some {| rp_root := None; rp_line_no := line |} => kerr line RPickerWithoutRoot
    | Some {| rp_root := Some (root, line) |} =>
        if negb (is_absolute root) then kerr line (RRelativeRoot root) else Ok (Some root)
    end in
  let? specs := validate_realms raw in
  Ok (specs, picker_root).

(* ------------------------------------------------------------------------ *)
(** ** Security audits, on file status *)

Definition check_config_security (st : Stat) (euid : Z) : result unit ErrorKind :=
  if negb (Z.land (st_mode st) S_IFMT =? S_IFREG) then Err KInsecure else
  if negb (st_uid st =? euid) then Err KInsecure else
  let mode := Z.land (st_mode st) 511 in
  if negb (Z.land mode 18 =? 0) then Err KInsecure else
  Ok tt.

(** [untrusted_writer]: whether some fault is reported. *)
Definition untrusted_writer (uid raw_mode euid : Z) (sticky_tolerated : bool) : bool :=
  if negb (uid =? 0) && negb (uid =? euid) then true else
  let mode := Z.land raw_mode 4095 in
  let sticky := negb (Z.land mode 512 =? 0) in
  negb (Z.land mode 18 =? 0) && negb (sticky_tolerated && sticky).

(** [audit_spawn_target], on the resolved target and its ancestors. *)
Fixpoint audit_ancestors (dirs : list Stat) (euid : Z) : result unit ErrorKind :=
  match dirs with
  | [] => Ok tt
  | st :: dirs =>
      if untrusted_writer (st_uid st) (st_mode st) euid true then Err KInsecure
      else audit_ancestors dirs euid
  end.
Definition audit_spawn_target (target : Stat) (dirs : list Stat) (euid : Z)
    : result unit ErrorKind :=
  if negb (Z.land (st_mode target) S_IFMT =? S_IFREG) then Err KInsecure else
  if untrusted_writer (st_uid target) (st_mode target) euid false then Err KInsecure else
  audit_ancestors dirs euid.

(* ------------------------------------------------------------------------ *)
(** ** The registry *)

Inductive RealmState : Type := Configured | Template | Running (pid : Z) | Exited (pid : Z).

#[export] Instance RealmState_eq_dec : EqDecision RealmState.
Proof. solve_decision. Defined.

Record Realm : Type := {
  r_id : RealmId;
  r_spawn : SpawnConfig;
  r_state : RealmState;
  r_template : option RealmId }.

Definition template_root (r : Realm) : RealmId := default (r_id r) (r_template r).
Definition occupies_capacity (r : Realm) : bool :=
  match r_state r with Exited _ => false | _ => true end.
Definition admits_petitions (r : Realm) : bool :=
  match r_state r with
  | Configured => true
  | Template => true
  | Running _ => true
  | Exited _ => false
  end.

Record RealmRegistry : Type := {
  realms : gmap RealmId Realm;
  next_instance : Z;
  picker_root : option Str }.

(** The loop of [from_specs]. *)
Fixpoint insert_specs (specs : list RealmSpec) (m : gmap RealmId Realm)
    : result (gmap RealmId Realm) ErrorKind :=
  match specs with
  | [] => Ok m
  | spec :: specs =>
      let realm := {| r_id := rs_id spec; r_spawn := rs_spawn spec;
                      r_state := if rs_autostart spec then Configured else Template;
                      r_template := None |} in
      match m !! rs_id spec with
      | Some _ => Err (KDuplicateId (rs_id spec))
      | None => insert_specs specs (<[rs_id spec := realm]> m)
      end
  end.

Definition map_any (m : gmap RealmId Realm) (p : RealmId -> Realm -> bool) : bool :=
  existsb (fun kv => p kv.1 kv.2) (map_to_list m).

(** A name is claimed twice when some list of claims meets another's. *)
Definition claims_meet (a b : list Str) : bool :=
  existsb (fun n => existsb (str_eqb n) b) a.
Definition reject_runtime_name_collisions (m : gmap RealmId Realm) : result unit ErrorKind :=
  if map_any m (fun id _ => claims_meet (runtime_names_claimed_by id) reserved_runtime_names)
  then Err KReservedName
  else if map_any m (fun id _ => map_any m (fun id' _ =>
            negb (str_eqb id id')
            && claims_meet (runtime_names_claimed_by id) (runtime_names_claimed_by id')))
  then Err KNameCollision
  else Ok tt.

Definition from_specs (specs : list RealmSpec) : result RealmRegistry ErrorKind :=
  if bool_decide (List.length specs = 0%nat) then Err KNoRealm else
  let n := Z.of_nat (List.length specs) in
  if MAX_REALMS <? n then Err (KTooManyRealms n) else
  let? m := insert_specs specs ∅ in
  if negb (map_any m (fun _ r => negb (bool_decide (r_state r = Template))))
  then Err KNoAutostart else
  if negb (bool_decide (is_Some (m !! WELL_KNOWN_REALM_ID))) then Err KNoWellKnownRealm else
  let? _ := reject_runtime_name_collisions m in
  Ok {| realms := m; next_instance := 1; picker_root := None |}.

(** [RealmRegistry::load], past the reads and the spawn-target audits. *)
Definition load_registry (st : Stat) (text : Str) (euid : Z) : result RealmRegistry ErrorKind :=
  let? _ := check_config_security st euid in
  let? (specs, root) := parse_config text in
  let? reg := from_specs specs in
  Ok {| realms := realms reg; next_instance := next_instance reg; picker_root := root |}.

Definition with_realms (reg : RealmRegistry) (m : gmap RealmId Realm) : RealmRegistry :=
  {| realms := m; next_instance := next_instance reg; picker_root := picker_root reg |}.

Definition resolve_for_petition (reg : RealmRegistry) (name : Str) : option RealmId :=
  match realms reg !! name with
  | Some r => if admits_petitions r then Some (r_id r) else None
  | None => None
  end.

Definition registry_get (reg : RealmRegistry) (name : Str) : option Realm := realms reg !! name.

Definition set_state (s : RealmState) (r : Realm) : Realm :=
  {| r_id := r_id r; r_spawn := r_spawn r; r_state := s; r_template := r_template r |}.

Definition mark_state (reg : RealmRegistry) (id : RealmId) (s : RealmState)
    : bool * RealmRegistry :=
  match realms reg !! id with
  | Some r => (true, with_realms reg (<[id := set_state s r]> (realms reg)))
  | None => (false, reg)
  end.
Definition mark_running (reg : RealmRegistry) (id : RealmId) (pid : Z) : bool * RealmRegistry :=
  mark_state reg id (Running pid).
Definition mark_exited (reg : RealmRegistry) (id : RealmId) (pid : Z) : bool * RealmRegistry :=
  mark_state reg id (Exited pid).

Definition capacity_used (reg : RealmRegistry) : Z :=
  Z.of_nat (List.length (List.filter (fun kv => occupies_capacity kv.2)
                           (map_to_list (realms reg)))).

(** A minted id: the root's, a dot, and a number of the session's counter. *)
Definition instance_name (root : RealmId) (n : Z) : RealmId := root ++ str "." ++ to_string n.

Definition mint_instance (reg : RealmRegistry) (template : RealmId)
    : option (RealmId * RealmRegistry) :=
  match realms reg !! template with
  | None => None
  | Some r =>
      let n := next_instance reg in
      let n' := Z.min u64_max (n + 1) in
      Some (instance_name (template_root r) n,
            {| realms := realms reg; next_instance := n'; picker_root := picker_root reg |})
  end.

Definition instance_of (reg : RealmRegistry) (template id : RealmId) : option Realm :=
  match realms reg !! template with
  | None => None
  | Some parent =>
      Some {| r_id := id; r_spawn := r_spawn parent; r_state := Configured;
              r_template := Some (template_root parent) |}
  end.

Definition insert_instance (reg : RealmRegistry) (template id : RealmId)
    : bool * RealmRegistry :=
  match instance_of reg template id with
  | None => (false, reg)
  | Some r => (true, with_realms reg (<[r_id r := r]> (realms reg)))
  end.

Definition remove_instance (reg : RealmRegistry) (id : RealmId) : RealmRegistry :=
  with_realms reg (delete id (realms reg)).

(* ------------------------------------------------------------------------ *)
(** ** Ids *)

Definition declared_ok (id : RealmId) : Prop := validate_realm_id id = Ok tt.
(** An id the registry has minted while its counter was below [next]. *)
Definition minted_ok (next : Z) (id : RealmId) : Prop :=
  exists root n, declared_ok root /\ 1 <= n < next /\ id = instance_name root n.

Lemma declared_ok_spec id :
  declared_ok id <-> validate_transport_realm_id id = true
    /\ looks_like_an_instance_id id = false /\ str_len id <= MAX_DECLARED_ID_BYTES.
Proof.
  unfold declared_ok, validate_realm_id.
  destruct (validate_transport_realm_id id), (looks_like_an_instance_id id); simpl;
    try (by split; [|intros (? & ? & ?)]).
  destruct (Z.ltb_spec MAX_DECLARED_ID_BYTES (str_len id)).
  - split; [done|intros (_ & _ & ?); lia].
  - by split.
Qed.

Lemma transport_spec id :
  validate_transport_realm_id id = true <->
  id <> [] /\ str_len id <= 64 /\ id <> str "." /\ id <> str ".."
  /\ forallb realm_id_char id = true.
Proof.
  unfold validate_transport_realm_id.
  rewrite !andb_true_iff, !negb_true_iff, bool_decide_eq_false, Z.leb_le.
  rewrite <- !not_true_iff_false, !str_eqb_eq. tauto.
Qed.

Lemma to_string_snoc n : 0 <= n -> exists ds d, to_string n = ds ++ [d] /\ is_ascii_digit d = true.
Proof.
  intros Hn. assert (to_string n <> []) as Hne by apply digits_nonempty.
  destruct (exists_last Hne) as (ds & d & Hd). exists ds, d. split; [done|].
  apply (to_string_digits n); [done|]. rewrite Hd. apply in_or_app. right. by left.
Qed.

Lemma minted_not_lock root n x : 0 <= n -> instance_name root n <> x ++ LOCK_SUFFIX.
Proof.
  intros Hn Heq. destruct (to_string_snoc n Hn) as (ds & d & Hd & Hdig).
  unfold instance_name in Heq. rewrite Hd in Heq. rewrite !app_assoc in Heq.
  change LOCK_SUFFIX with (str ".loc" ++ [107]) in Heq. rewrite app_assoc in Heq.
  apply app_inj_tail in Heq as [_ ->]. done.
Qed.

Lemma rsplit_instance root n :
  0 <= n -> rsplit_once (ch ".") (instance_name root n) = Some (root, to_string n).
Proof.
  intros Hn. apply rsplit_once_Some. split; [done|].
  intros Hin%to_string_digits; done.
Qed.

Lemma instance_name_inj root n root' n' :
  0 <= n <= u64_max -> 0 <= n' <= u64_max ->
  instance_name root n = instance_name root' n' -> root = root' /\ n = n'.
Proof.
  intros Hn Hn' Heq. pose proof (rsplit_instance root n ltac:(lia)) as H1.
  rewrite Heq, rsplit_instance in H1 by lia. injection H1 as -> Hs. split; [done|].
  pose proof (parse_to_string u64_max n Hn ltac:(lia)) as Hp.
  rewrite <- Hs, parse_to_string in Hp by lia. congruence.
Qed.

Lemma instance_shaped root n :
  root <> [] -> 0 <= n ->
  looks_like_an_instance_id (instance_name root n) = true
  /\ looks_like_an_instance_id (instance_name root n ++ LOCK_SUFFIX) = true.
Proof.
  intros Hne Hn.
  assert (forall stem, stem = instance_name root n ->
    match rsplit_once (ch ".") stem with
    | None => false
    | Some (prefix, tail) =>
        negb (bool_decide (prefix = [])) && negb (bool_decide (tail = []))
        && forallb is_ascii_digit tail
    end = true) as Hstem.
  { intros stem ->. rewrite rsplit_instance by done.
    rewrite !bool_decide_false by (done || apply digits_nonempty). simpl.
    apply forallb_forall. intros c Hc. by apply (to_string_digits n). }
  unfold looks_like_an_instance_id. split; apply Hstem.
  - destruct (strip_suffix (str ".lock") (instance_name root n)) as [x|] eqn:Hs; [|done].
    apply strip_suffix_Some in Hs. by apply minted_not_lock in Hs.
  - by rewrite (proj2 (strip_suffix_Some (str ".lock") _ (instance_name root n))).
Qed.

Lemma declared_nonempty id : declared_ok id -> id <> [].
Proof. intros (Ht & _)%declared_ok_spec. by apply transport_spec in Ht as []. Qed.

(** A declared id is neither a minted one nor a minted one's lock. *)
Lemma declared_not_minted id root n :
  declared_ok id -> root <> [] -> 0 <= n ->
  id <> instance_name root n /\ id <> instance_name root n ++ LOCK_SUFFIX.
Proof.
  intros (_ & Hl & _)%declared_ok_spec Hne Hn.
  destruct (instance_shaped root n Hne Hn). split; intros ->; congruence.
Qed.

Lemma ascii_len s : Forall (fun c => 0 <= c < 128) s -> str_len s = Z.of_nat (List.length s).
Proof.
  unfold str_len. induction 1 as [|c s Hc Hs IH]; [done|]. cbn [Utf8.encode List.length].
  rewrite List.length_app. unfold Utf8.encode_char. rewrite (proj2 (Z.ltb_lt c 128)) by lia.
  simpl. lia.
Qed.

Lemma digit_ascii c : is_ascii_digit c = true -> 0 <= c < 128.
Proof. unfold is_ascii_digit, between. intros H. unbool. lia. Qed.

Lemma to_string_len n : 0 <= n -> str_len (to_string n) <= 20.
Proof.
  intros Hn. rewrite ascii_len.
  - unfold to_string. enough (forall k m, (List.length (digits k m) <= k)%nat) as H
      by (specialize (H 20%nat n); lia).
    clear. induction k as [|k IH]; intros m; simpl; [lia|]. case_match; simpl; [lia|].
    rewrite List.length_app. simpl. specialize (IH (m / 10)). lia.
  - apply List.Forall_forall. intros c Hc. apply digit_ascii. by apply (to_string_digits n).
Qed.

(** Every minted id is a legal realm id of the wire and of the file system. *)
Lemma minted_legal root n :
  declared_ok root -> 0 <= n -> validate_transport_realm_id (instance_name root n) = true.
Proof.
  intros Hd Hn. pose proof (declared_nonempty _ Hd) as Hne.
  apply declared_ok_spec in Hd as (Ht & _ & Hlen). apply transport_spec in Ht as (_ & _ & _ & _ & Hc).
  destruct (to_string_snoc n Hn) as (ds & d & Hds & Hd).
  assert (forall x, instance_name root n = x ++ [46] -> False) as Hdot.
  { intros x Heq. unfold instance_name in Heq. rewrite Hds, !app_assoc in Heq.
    apply app_inj_tail in Heq as [_ ->]. done. }
  apply transport_spec. split; [|split; [|split; [|split]]].
  - unfold instance_name. by destruct root.
  - unfold instance_name. rewrite !str_len_app.
    pose proof (to_string_len n Hn). change (str_len (str ".")) with 1.
    unfold MAX_DECLARED_ID_BYTES, MAX_INSTANCE_SUFFIX in *. lia.
  - intros Heq. by apply (Hdot []).
  - intros Heq. by apply (Hdot [46]).
  - unfold instance_name. rewrite !forallb_app, Hc. simpl. apply forallb_forall.
    intros c Hin%to_string_digits; [|done]. unfold realm_id_char, is_ascii_alphanumeric.
    rewrite Hin. by rewrite !orb_true_r.
Qed.

(* ------------------------------------------------------------------------ *)
(** ** Claimed names *)

Definition names_disjoint (id id' : RealmId) : Prop :=
  forall x, In x (runtime_names_claimed_by id) -> In x (runtime_names_claimed_by id') -> False.
Definition not_reserved (id : RealmId) : Prop :=
  forall x, In x (runtime_names_claimed_by id) -> In x reserved_runtime_names -> False.

Lemma claims_meet_false a b :
  claims_meet a b = false <-> forall x, In x a -> In x b -> False.
Proof.
  unfold claims_meet. rewrite <- not_true_iff_false, existsb_exists. split.
  - intros H x Ha Hb. apply H. exists x. split; [done|]. apply existsb_exists.
    exists x. split; [done|]. by apply str_eqb_eq.
  - intros H (x & Ha & (y & Hb & ->%str_eqb_eq)%existsb_exists). eauto.
Qed.

Lemma names_disjoint_spec id id' :
  id <> id' -> id <> id' ++ LOCK_SUFFIX -> id' <> id ++ LOCK_SUFFIX -> names_disjoint id id'.
Proof.
  intros H1 H2 H3 x. unfold runtime_names_claimed_by. simpl.
  intros [<-|[<-|[]]] [Heq|[Heq|[]]]; [done|done|done|].
  apply app_inv_tail in Heq. done.
Qed.

Lemma names_disjoint_sym id id' : names_disjoint id id' -> names_disjoint id' id.
Proof. intros H x H1 H2. eauto. Qed.

Lemma map_any_false m p :
  map_any m p = false <-> forall id r, m !! id = Some r -> p id r = false.
Proof.
  unfold map_any. rewrite <- not_true_iff_false, existsb_exists. split.
  - intros H id r Hm. destruct (p id r) eqn:Hp; [|done]. exfalso. apply H. exists (id, r).
    split; [|done]. by apply list_elem_of_In, elem_of_map_to_list.
  - intros H ([id r] & Hin & Hp). apply list_elem_of_In, elem_of_map_to_list in Hin.
    apply H in Hin. simpl in Hp. congruence.
Qed.

(** What the registry keeps true of its realms. *)
Record registry_wf (reg : RealmRegistry) : Prop := {
  rwf_next : 1 <= next_instance reg <= u64_max;
  rwf_id : forall id r, realms reg !! id = Some r -> r_id r = id;
  rwf_ok : forall id r, realms reg !! id = Some r ->
             declared_ok id \/ minted_ok (next_instance reg) id;
  rwf_root : forall id r, realms reg !! id = Some r -> declared_ok (template_root r);
  rwf_reserved : forall id r, realms reg !! id = Some r -> not_reserved id;
  rwf_names : forall id r id' r', realms reg !! id = Some r -> realms reg !! id' = Some r' ->
                id <> id' -> names_disjoint id id' }.

Lemma minted_not_reserved root n : 0 <= n -> not_reserved (instance_name root n).
Proof.
  intros Hn x. unfold runtime_names_claimed_by, reserved_runtime_names. simpl.
  assert (instance_name root n <> CORE_SOCKET_NAME) as Hcore.
  { intros Heq. destruct (to_string_snoc n Hn) as (ds & d & Hds & Hd).
    unfold instance_name in Heq. rewrite Hds, !app_assoc in Heq.
    change CORE_SOCKET_NAME with (str "core.soc" ++ [107]) in Heq.
    apply app_inj_tail in Heq as [_ ->]. done. }
  intros [<-|[<-|[]]] [Heq|[Heq|[]]].
  - auto.
  - symmetry in Heq. exact (minted_not_lock root n CORE_SOCKET_NAME Hn Heq).
  - symmetry in Heq. change (instance_name root n ++ LOCK_SUFFIX = CORE_SOCKET_NAME) in Heq.
    assert (strip_suffix LOCK_SUFFIX CORE_SOCKET_NAME = Some (instance_name root n)) as Hs
      by (by apply strip_suffix_Some).
    by vm_compute in Hs.
  - change (CORE_SOCKET_NAME ++ LOCK_SUFFIX = instance_name root n ++ LOCK_SUFFIX) in Heq.
    apply app_inv_tail in Heq. auto.
Qed.

(* ------------------------------------------------------------------------ *)
(** ** The registry's life *)

(** One change of the registry. Only an id that was minted can be inserted: the
    type [MintedRealmId] has no other constructor. *)
Inductive registry_step (reg : RealmRegistry) : RealmRegistry -> Prop :=
| step_mint template id reg' :
    mint_instance reg template = Some (id, reg') -> registry_step reg reg'
| step_insert template id :
    minted_ok (next_instance reg) id -> registry_step reg (insert_instance reg template id).2
| step_remove id : registry_step reg (remove_instance reg id)
| step_running id pid : registry_step reg (mark_running reg id pid).2
| step_exited id pid : registry_step reg (mark_exited reg id pid).2.

(** The registries a session can reach from its configuration. *)
Inductive registry_reachable : RealmRegistry -> Prop :=
| reach_init specs reg :
    Forall (fun s => declared_ok (rs_id s)) specs -> from_specs specs = Ok reg ->
    registry_reachable reg
| reach_step reg reg' :
    registry_reachable reg -> registry_step reg reg' -> registry_reachable reg'.

Lemma insert_specs_Ok specs m m' :
  insert_specs specs m = Ok m' ->
  (forall id r, m !! id = Some r -> m' !! id = Some r) /\
  forall id r, m' !! id = Some r -> m !! id = Some r \/
    exists s, In s specs /\ rs_id s = id /\ r_id r = id /\ r_template r = None.
Proof.
  revert m. induction specs as [|s specs IH]; intros m; simpl; [intros [= <-]; auto|].
  destruct (m !! rs_id s) eqn:Hm; [done|]. intros H. destruct (IH _ H) as [H1 H2]. split.
  - intros id r Hr. apply H1. rewrite lookup_insert_ne; [done|]. intros <-. congruence.
  - intros id r Hr. destruct (H2 id r Hr) as [Hr'|(s' & ? & ? & ?)]; [|eauto 6].
    destruct (decide (id = rs_id s)) as [->|Hne].
    + rewrite lookup_insert_eq in Hr'. simplify_eq. right. exists s. auto.
    + rewrite lookup_insert_ne in Hr' by done. auto.
Qed.

Lemma from_specs_wf specs reg :
  Forall (fun s => declared_ok (rs_id s)) specs -> from_specs specs = Ok reg -> registry_wf reg.
Proof.
  intros Hd Hf. rewrite List.Forall_forall in Hd. unfold from_specs in Hf.
  case_bool_decide; [done|]. case_match; [done|].
  apply rbind_ok in Hf as (m & Hm & Hf). apply insert_specs_Ok in Hm as [_ Hm].
  do 2 (case_match; [done|]). apply rbind_ok in Hf as ([] & Hrej & Hf). simplify_eq.
  unfold reject_runtime_name_collisions in Hrej.
  destruct (map_any m (fun id _ => claims_meet _ _)) eqn:Hres; [done|].
  match type of Hrej with context [map_any m ?p] => destruct (map_any m p) eqn:Hcol end; [done|]. clear Hrej.
  assert (forall id r, m !! id = Some r -> declared_ok id /\ r_id r = id /\ r_template r = None) as Hall.
  { intros id r Hr. destruct (Hm id r Hr) as [Hx|(s & Hin & <- & ? & ?)]; [by rewrite lookup_empty in Hx|]. auto. }
  split; simpl.
  - unfold u64_max. lia.
  - intros id r Hr. by apply Hall.
  - intros id r Hr. left. by apply (Hall id r).
  - intros id r Hr. destruct (Hall id r Hr) as (? & Hi & Ht).
    unfold template_root. by rewrite Ht, Hi.
  - intros id r Hr. rewrite map_any_false in Hres. specialize (Hres id r Hr).
    exact (proj1 (claims_meet_false _ _) Hres).
  - intros id r id' r' Hr Hr' Hne. rewrite map_any_false in Hcol. specialize (Hcol id r Hr).
    cbn beta in Hcol. rewrite map_any_false in Hcol. specialize (Hcol id' r' Hr'). cbn beta in Hcol.
    apply andb_false_iff in Hcol as [Hc|Hc].
    + apply negb_false_iff, str_eqb_eq in Hc. done.
    + exact (proj1 (claims_meet_false _ _) Hc).
Qed.

Lemma minted_ok_mono n n' id : n <= n' -> minted_ok n id -> minted_ok n' id.
Proof. intros Hle (root & k & Hd & Hk & ->). exists root, k. split; [done|split; [lia|done]]. Qed.

(** A minted id meets no name of a realm of the registry but itself. *)
Lemma minted_disjoint reg id id' r' :
  registry_wf reg -> minted_ok (next_instance reg) id -> realms reg !! id' = Some r' ->
  id <> id' -> names_disjoint id id'.
Proof.
  intros [Hn _ Hok _ _ _] (root & n & Hd & Hb & ->) Hr' Hne.
  pose proof (declared_nonempty _ Hd) as Hroot.
  apply names_disjoint_spec; [done|by apply minted_not_lock; lia|].
  destruct (Hok id' r' Hr') as [Hdecl|(root' & n' & Hd' & Hb' & ->)].
  - by apply (declared_not_minted id' root n); [| |lia].
  - apply minted_not_lock. lia.
Qed.

Lemma registry_wf_shrink reg m :
  registry_wf reg ->
  (forall id r, m !! id = Some r -> exists r0, realms reg !! id = Some r0 /\
     r_id r = r_id r0 /\ template_root r = template_root r0) ->
  registry_wf (with_realms reg m).
Proof.
  intros [Hn Hid Hok Hroot Hres Hnm] Hsub. split; simpl; [done|..].
  - intros id r Hr. destruct (Hsub id r Hr) as (r0 & Hr0 & -> & _). eauto.
  - intros id r Hr. destruct (Hsub id r Hr) as (r0 & Hr0 & _). eauto.
  - intros id r Hr. destruct (Hsub id r Hr) as (r0 & Hr0 & _ & ->). eauto.
  - intros id r Hr. destruct (Hsub id r Hr) as (r0 & Hr0 & _). eauto.
  - intros id r id' r' Hr Hr' Hne. destruct (Hsub id r Hr) as (r0 & Hr0 & _).
    destruct (Hsub id' r' Hr') as (r1 & Hr1 & _). eauto.
Qed.

Lemma mark_state_wf reg id s : registry_wf reg -> registry_wf (mark_state reg id s).2.
Proof.
  intros Hwf. unfold mark_state. destruct (realms reg !! id) as [r|] eqn:Hr; [|done].
  apply registry_wf_shrink; [done|]. intros id' r' Hr'.
  destruct (decide (id = id')) as [<-|Hne].
  - rewrite lookup_insert_eq in Hr'. simplify_eq. eauto.
  - rewrite lookup_insert_ne in Hr' by done. eauto.
Qed.

Lemma insert_instance_wf reg template id :
  registry_wf reg -> minted_ok (next_instance reg) id ->
  registry_wf (insert_instance reg template id).2.
Proof.
  intros Hwf Hm. unfold insert_instance, instance_of.
  destruct (realms reg !! template) as [p|] eqn:Hp; [|done]. simpl.
  pose proof Hwf as [Hn Hid Hok Hroot Hres Hnm].
  assert (forall x rx, (<[id:={| r_id := id; r_spawn := r_spawn p; r_state := Configured;
      r_template := Some (template_root p) |}]> (realms reg)) !! x = Some rx ->
      (x = id /\ r_id rx = id /\ template_root rx = template_root p)
      \/ (x <> id /\ realms reg !! x = Some rx)) as Hcase.
  { intros x rx Hx. destruct (decide (x = id)) as [->|Hne].
    - rewrite lookup_insert_eq in Hx. simplify_eq. by left.
    - rewrite lookup_insert_ne in Hx by done. by right. }
  split; simpl; [done|..].
  - intros x rx [(-> & ? & _)|[_ ?]]%Hcase; eauto.
  - intros x rx [(-> & _)|[_ ?]]%Hcase; eauto.
  - intros x rx [(-> & _ & ->)|[_ ?]]%Hcase; eauto.
  - intros x rx [(-> & _)|[_ ?]]%Hcase; [|eauto].
    destruct Hm as (root & n & _ & ? & ->). apply minted_not_reserved. lia.
  - intros x rx y ry [(-> & _)|[? ?]]%Hcase [(-> & _)|[? ?]]%Hcase Hne; [done| | |eauto].
    + by eapply minted_disjoint.
    + apply names_disjoint_sym. eapply minted_disjoint; eauto.
Qed.

Lemma registry_step_wf reg reg' : registry_wf reg -> registry_step reg reg' -> registry_wf reg'.
Proof.
  intros Hwf Hs. destruct Hs as [template id reg' Hm|template id Hid|id|id pid|id pid].
  - unfold mint_instance in Hm. destruct (realms reg !! template) as [r|]; [|done]. simplify_eq.
    destruct Hwf as [Hn Hid Hok Hroot Hres Hnm]. split; simpl; try done; [lia|].
    intros i r0 Hr0. destruct (Hok i r0 Hr0); [by left|right]. eapply minted_ok_mono; [|done]. lia.
  - by apply insert_instance_wf.
  - apply registry_wf_shrink; [done|]. intros i r [_ Hi]%lookup_delete_Some. eauto.
  - by apply mark_state_wf.
  - by apply mark_state_wf.
Qed.

Lemma registry_reachable_wf reg : registry_reachable reg -> registry_wf reg.
Proof. induction 1; eauto using from_specs_wf, registry_step_wf. Qed.

(* ------------------------------------------------------------------------ *)
(** ** Properties *)

(** A launch instance never collides. In every registry a session can reach
    from a validated configuration by minting, inserting and removing instances
    and by realms starting and exiting, as long as the counter has not reached
    its last value, the id [mint_instance] returns is a legal realm id, names no
    realm the registry holds, and the two names it claims in the runtime
    directory (its own and its lock file's) are claimed by no other realm and
    are not the core's own socket or lock. *)
Theorem realm_mint_fresh (reg reg' : RealmRegistry) (template id : RealmId)
  (Hreach : registry_reachable reg) (Hcount : next_instance reg < u64_max)
  (Hmint : mint_instance reg template = Some (id, reg')) :
  validate_transport_realm_id id = true
  /\ realms reg' !! id = None
  /\ minted_ok (next_instance reg') id
  /\ not_reserved id
  /\ (forall id' r', realms reg' !! id' = Some r' -> names_disjoint id id').
Proof.
  pose proof (registry_reachable_wf _ Hreach) as Hwf.
  assert (registry_step reg reg') as Hstep by (by eapply step_mint).
  pose proof (registry_step_wf _ _ Hwf Hstep) as Hwf'.
  unfold mint_instance in Hmint. destruct (realms reg !! template) as [r|] eqn:Hr; [|done].
  simplify_eq. simpl in *.
  pose proof Hwf as [Hn Hid Hok Hroot _ _].
  pose proof (Hroot template r Hr) as Hd. set (n := next_instance reg) in *.
  assert (minted_ok (Z.min u64_max (n + 1)) (instance_name (template_root r) n)) as Hm.
  { exists (template_root r), n. split; [done|split; [lia|done]]. }
  assert (realms reg !! instance_name (template_root r) n = None) as Hfresh.
  { destruct (realms reg !! instance_name (template_root r) n) as [r0|] eqn:Hr0; [|done]. exfalso.
    destruct (Hok _ _ Hr0) as [Hdecl|(root' & n' & Hd' & Hb' & Heq)].
    - destruct (declared_not_minted _ (template_root r) n Hdecl); [by apply declared_nonempty|lia|congruence].
    - apply instance_name_inj in Heq; lia. }
  split; [apply minted_legal; [done|lia]|]. split; [done|split; [done|]].
  split; [apply minted_not_reserved; lia|].
  intros id' r' Hr'. eapply (minted_disjoint _ _ _ _ Hwf'); [done|done|]. congruence.
Qed.

Definition demo_spawn : SpawnConfig :=
  {| sc_command := str "/usr/bin/true"; sc_args := []; sc_env_allow := []; sc_binds := [] |}.
Definition demo_specs : list RealmSpec :=
  [{| rs_id := str "realm-0"; rs_spawn := demo_spawn; rs_autostart := true |}].

Lemma realm_mint_fresh_witness :
  exists reg reg',
    from_specs demo_specs = Ok reg /\
    mint_instance reg (str "realm-0") = Some (str "realm-0.1", reg') /\
    validate_transport_realm_id (str "realm-0.1") = true.
Proof.
  destruct (from_specs demo_specs) as [reg|] eqn:Hf; [|by vm_compute in Hf].
  assert (Hm : exists reg', mint_instance reg (str "realm-0") = Some (str "realm-0.1", reg')).
  { vm_compute in Hf. injection Hf as <-. vm_compute. eauto. }
  destruct Hm as [reg' Hm]. exists reg, reg'. split; [done|split; [done|]].
  refine (proj1 (realm_mint_fresh reg reg' (str "realm-0") _ _ _ Hm)).
  - apply (reach_init demo_specs); [|done]. repeat constructor.
  - vm_compute in Hf. injection Hf as <-. vm_compute. reflexivity.
Defined.

Lemma validate_env_Ok names line out r :
  validate_env names line out = Ok r ->
  r = out ++ names /\
  Forall (fun n => is_env_name n = true /\ reserved_env n = false) names /\
  (NoDup out -> NoDup r).
Proof.
  revert out. induction names as [|n names IH]; intros out; simpl.
  - intros [= <-]. rewrite app_nil_r. auto.
  - destruct (is_env_name n) eqn:Hn; simpl; [|done].
    destruct (reserved_env n) eqn:Hr; [done|].
    destruct (existsb (str_eqb n) out) eqn:Hd; [done|].
    intros (-> & Hf & Hnd)%IH. rewrite <- app_assoc in *. simpl in *.
    split; [done|split; [by constructor|]]. intros Ho. apply Hnd.
    apply NoDup_app. split; [done|split; [|apply NoDup_singleton]].
    intros x Hx Hxn%list_elem_of_singleton. subst x. apply not_true_iff_false in Hd. apply Hd.
    apply existsb_exists. exists n. rewrite <- list_elem_of_In. split; [done|]. by apply str_eqb_eq.
Qed.

(** Bind sources that are compared by their components. *)
Fixpoint distinct_paths (l : list Str) : Prop :=
  match l with
  | [] => True
  | p :: l => (forall q, In q l -> path_eqb p q = false) /\ distinct_paths l
  end.

Lemma path_eqb_sym p q : path_eqb p q = path_eqb q p.
Proof. unfold path_eqb. by apply bool_decide_ext. Qed.

Lemma distinct_paths_snoc l p :
  distinct_paths l -> (forall q, In q l -> path_eqb q p = false) -> distinct_paths (l ++ [p]).
Proof.
  induction l as [|q l IH]; simpl; [intros; by split; [intros ? []|]|]. intros [H1 H2] H. split; [|by apply IH; auto].
  intros x [Hx|[<-|[]]]%in_app_or; auto.
Qed.

Definition bind_ok (b : Str) : Prop :=
  is_absolute b = true /\ path_eqb b (str "/") = false /\ path_eqb b (str "/home") = false.

Lemma validate_binds_Ok paths line out r :
  validate_binds paths line out = Ok r ->
  r = out ++ paths /\ Forall bind_ok paths /\ (distinct_paths out -> distinct_paths r).
Proof.
  revert out. induction paths as [|p paths IH]; intros out; simpl.
  - intros [= <-]. rewrite app_nil_r. auto.
  - destruct (is_absolute p) eqn:Ha; simpl; [|done].
    destruct (path_eqb p (str "/") || path_eqb p (str "/home"))%bool eqn:Hb; [done|].
    destruct (existsb (path_eqb p) out) eqn:Hd; [done|]. unbool.
    intros (-> & Hf & Hnd)%IH. rewrite <- app_assoc in *. simpl in *.
    split; [done|split; [by constructor|]]. intros Ho. apply Hnd, distinct_paths_snoc; [done|].
    intros q Hq. rewrite path_eqb_sym. destruct (path_eqb p q) eqn:He; [|done].
    rewrite <- Hd. symmetry. apply existsb_exists. eauto.
Qed.

(** What holds of a realm the configuration file declares. *)
Definition spec_validated (s : RealmSpec) : Prop :=
  let sp := rs_spawn s in
  declared_ok (rs_id s)
  /\ sc_command sp <> [] /\ is_absolute (sc_command sp) = true
  /\ Forall (fun n => is_env_name n = true /\ reserved_env n = false) (sc_env_allow sp)
  /\ NoDup (sc_env_allow sp)
  /\ Forall bind_ok (sc_binds sp) /\ distinct_paths (sc_binds sp).

Lemma well_known_ok : declared_ok WELL_KNOWN_REALM_ID.
Proof. reflexivity. Qed.

Lemma validate_realm_Ok raw s : validate_realm raw = Ok s -> spec_validated s.
Proof.
  unfold validate_realm. intros (id & Hid & H)%rbind_ok.
  assert (declared_ok id) as Hd.
  { destruct (rr_id raw) as [[text line]|]; [|simplify_eq; apply well_known_ok].
    destruct (validate_realm_id text) as [[]|] eqn:Hv; simplify_eq. done. }
  apply rbind_ok in H as ([command line] & _ & H). case_bool_decide; [done|].
  destruct (is_absolute command) eqn:Ha; [|done]. simpl in H.
  apply rbind_ok in H as (env & He & H). apply rbind_ok in H as (binds & Hb & H). simplify_eq.
  unfold spec_validated. simpl.
  assert (Forall (fun n => is_env_name n = true /\ reserved_env n = false) env /\ NoDup env) as [? ?].
  { destruct (rr_env_allow raw) as [[names l]|]; [|simplify_eq; split; constructor].
    apply validate_env_Ok in He as (-> & ? & Hnd). split; [done|]. apply Hnd. constructor. }
  assert (Forall bind_ok binds /\ distinct_paths binds) as [? ?].
  { destruct (rr_binds raw) as [[paths l]|]; [|simplify_eq; split; constructor].
    apply validate_binds_Ok in Hb as (-> & ? & Hnd). split; [done|]. by apply Hnd. }
  auto 10.
Qed.

Lemma validate_realms_Ok raws specs :
  validate_realms raws = Ok specs ->
  Forall spec_validated specs /\ List.length specs = List.length raws.
Proof.
  revert specs. induction raws as [|raw raws IH]; simpl; intros specs H; [by simplify_eq|].
  apply rbind_ok in H as (s & Hs & H). apply rbind_ok in H as (ss & Hss & H). simplify_eq.
  destruct (IH ss Hss) as [? Hl]. apply validate_realm_Ok in Hs. simpl. rewrite Hl. by split; [constructor|].
Qed.

(** Whatever configuration text is accepted, it declares at most
    [MAX_REALMS] realms; each has a legal id that is not instance-shaped, a
    nonempty absolute command, environment names that are well-formed, distinct
    and none the core decides itself, and absolute, distinct bind sources none
    of which is the root or [/home] in any spelling; the picker root is
    absolute; and a registry built from it starts in the reachable set. *)
Theorem realm_config_validated (text : Str) (specs : list RealmSpec) (root : option Str)
  (Hok : parse_config text = Ok (specs, root)) :
  Forall spec_validated specs
  /\ Z.of_nat (List.length specs) <= MAX_REALMS
  /\ (forall r, root = Some r -> is_absolute r = true)
  /\ (forall reg, from_specs specs = Ok reg -> registry_reachable reg).
Proof.
  unfold parse_config in Hok. apply rbind_ok in Hok as (st & _ & H).
  case_match eqn:Hn; [done|]. apply Z.ltb_ge in Hn.
  apply rbind_ok in H as (pr & Hpr & H). apply rbind_ok in H as (ss & Hss & H). simplify_eq.
  apply validate_realms_Ok in Hss as [Hv Hl].
  split; [done|split; [by rewrite Hl|split]].
  - intros r ->. destruct (ps_picker st) as [[[[r0 l]|] l0]|]; [|done|done].
    destruct (is_absolute r0) eqn:Ha; simplify_eq/=. done.
  - intros reg Hreg. apply (reach_init specs); [|done].
    eapply Forall_impl; [exact Hv|]. by intros s [? _].
Qed.

(** A one-line file: the break is the character 10. *)
Definition demo_text : Str :=
  str "[[realm]]" ++ [10] ++ str "command = " ++ quoted (str "/bin/app") ++ [10]
  ++ str "binds = " ++ print_array [str "/usr/share"; str "/opt/"] ++ [10].

Lemma realm_config_validated_witness :
  match parse_config demo_text with
  | Ok (specs, root) => root = None /\ specs <> [] /\ Forall spec_validated specs
  | Err _ => False
  end.
Proof.
  destruct (parse_config demo_text) as [[specs root]|] eqn:Hp; [|by vm_compute in Hp].
  split; [by vm_compute in Hp; simplify_eq|]. split; [by vm_compute in Hp; simplify_eq|].
  exact (proj1 (realm_config_validated demo_text specs root Hp)).
Defined.
