(* ===== verification/Petitions.v ===== *)
(** * Petitions

    [crates/vitrin-core/src/petitions.rs], with the prompt content and choices
    of [crates/vitrin-core/src/consent/mod.rs]: admission, the human decision,
    expiry and withdrawal. The scripted-consent resolver exists only in test
    builds and is not modelled. *)

From S2P Require Import Prelude BTree Text NetSel Identity Grants Realm.

Abbreviation ConnectionId := Z (only parsing).
Abbreviation PetitionId := Z (only parsing).

Inductive ConsentPolicy : Type := Interactive | AutoApprove.

(** The outcomes the petition flow produces. *)
Inductive Outcome : Type :=
| Denied | TimedOut | Unavailable | Unsupported | LayoutHeld | Busy.

#[export] Instance Outcome_eq_dec : EqDecision Outcome.
Proof. solve_decision. Defined.

Record PetitionConfig : Type := {
  consent_timeout : Duration;
  max_pending_per_identity : Z;
  max_pending_global : Z;
  default_max_event_rate : Z }.
Definition config_default : PetitionConfig :=
  {| consent_timeout := from_secs 120; max_pending_per_identity := 4;
     max_pending_global := 16; default_max_event_rate := 20 |}.

Record PetitionRequest : Type := {
  rq_connection : ConnectionId;
  rq_identity : PrincipalIdentity;
  rq_realm_name : Str;
  rq_grant_wire_id : Z;
  rq_consent_wire_id : Z;
  rq_resource : Str;
  rq_verbs : Z;
  rq_expiry_ms : Z;
  rq_max_event_rate : Z;
  rq_persistence : WirePersistence;
  rq_flags : Z }.

Record Requested : Type := {
  q_verbs : Z;
  q_persistence : PersistenceRung;
  q_expiry_ms : Z;
  q_max_event_rate : Z }.

Record PendingPetition : Type := {
  pp_connection : ConnectionId;
  pp_identity : PrincipalIdentity;
  pp_realm : RealmId;
  pp_grant_wire_id : Z;
  pp_consent_wire_id : Z;
  pp_requested : Requested;
  pp_deadline : Instant;
  pp_prompt_shown : bool;
  pp_launch_command : option AuditedCommand }.

Record EffectiveAuthority : Type := {
  ea_verbs : Z;
  ea_persistence : PersistenceRung;
  ea_expiry_ms : Z;
  ea_max_event_rate : Z }.

Record ApprovedGrant : Type := {
  ag_identity : PrincipalIdentity;
  ag_realm : RealmId;
  ag_effective : EffectiveAuthority;
  ag_issuer : Issuer }.

(** [ApprovedGrant::insert_row]. *)
Definition spec_of_approved (g : ApprovedGrant) : GrantSpec :=
  {| gs_principal_id := ag_identity g;
     gs_realm_id := ag_realm g;
     gs_resource_ref := WholeRealm;
     gs_verbs := ea_verbs (ag_effective g);
     gs_expiry := if ea_expiry_ms (ag_effective g) =? 0 then None
                  else Some (from_millis (ea_expiry_ms (ag_effective g)));
     gs_max_event_rate := ea_max_event_rate (ag_effective g);
     gs_persistence := ea_persistence (ag_effective g);
     gs_issuer := ag_issuer g |}.
Definition insert_row (g : ApprovedGrant) (grants : GrantTable) (now : Instant)
    : result GrantId InsertError * GrantTable :=
  Grants.insert grants (spec_of_approved g) now.

Inductive Verdict : Type :=
| Granted (grant : ApprovedGrant)
| Declined (outcome : Outcome).

Record Resolution : Type := {
  rs_connection : ConnectionId;
  rs_grant_wire_id : Z;
  rs_consent_wire_id : Z;
  rs_emit_closed : bool;
  rs_verdict : Verdict }.

Inductive Admission : Type :=
| Resolved (r : Resolution)
| Pending (petition : PetitionId).

Inductive Choice : Type := Allow (rung : PersistenceRung) | Deny.
Inductive HumanDecisionError : Type := NotPending | WouldWiden.

#[export] Instance Choice_eq_dec : EqDecision Choice.
Proof. solve_decision. Defined.

(** [PromptContent]; the picker's [panel] is not part of a consent prompt. *)
Record PromptContent : Type := {
  pc_principal : PrincipalIdentity;
  pc_realm : RealmId;
  pc_verbs : Z;
  pc_persistence : PersistenceRung;
  pc_expiry_ms : Z;
  pc_command : option AuditedCommand }.

Definition ALL_RUNGS : list PersistenceRung := [Once; WhileRunning].
Definition choices (c : PromptContent) : list Choice :=
  List.map Allow (List.filter (fun r => narrows r (pc_persistence c)) ALL_RUNGS) ++ [Deny].

Record PetitionRegistry : Type := {
  policy : ConsentPolicy;
  config : PetitionConfig;
  pending : btree PendingPetition;
  next_petition_id : Z;
  next_connection_id : Z }.

Definition registry_new (p : ConsentPolicy) (c : PetitionConfig) : PetitionRegistry :=
  {| policy := p; config := c; pending := bt_empty; next_petition_id := 1;
     next_connection_id := 1 |}.

Definition with_pending (reg : PetitionRegistry) (m : btree PendingPetition)
    : PetitionRegistry :=
  {| policy := policy reg; config := config reg; pending := m;
     next_petition_id := next_petition_id reg; next_connection_id := next_connection_id reg |}.

Definition register_connection (reg : PetitionRegistry) : ConnectionId * PetitionRegistry :=
  (next_connection_id reg,
   {| policy := policy reg; config := config reg; pending := pending reg;
      next_petition_id := next_petition_id reg;
      next_connection_id := u64_wrapping_add (next_connection_id reg) 1 |}).

Definition of_identity (identity : PrincipalIdentity) (p : PendingPetition) : bool :=
  str_eqb (pp_identity p) identity.
Definition pending_for_identity (reg : PetitionRegistry) (identity : PrincipalIdentity) : Z :=
  bt_count (pending reg) (of_identity identity).

Definition resolve_rate (reg : PetitionRegistry) (requested : Z) : Z :=
  if requested =? 0 then default_max_event_rate (config reg) else requested.

Definition wants_layout (p : PendingPetition) : bool :=
  mask_contains (q_verbs (pp_requested p)) LAYOUT_ARRANGE.

Definition effective_of (q : Requested) (rung : PersistenceRung) : EffectiveAuthority :=
  {| ea_verbs := q_verbs q; ea_persistence := rung; ea_expiry_ms := q_expiry_ms q;
     ea_max_event_rate := q_max_event_rate q |}.

(** [PetitionRegistry::petition_admit]. *)
Definition declined (req : PetitionRequest) (outcome : Outcome) : Admission :=
  Resolved {| rs_connection := rq_connection req; rs_grant_wire_id := rq_grant_wire_id req;
              rs_consent_wire_id := rq_consent_wire_id req; rs_emit_closed := false;
              rs_verdict := Declined outcome |}.

(** The part of [petition_admit] past the checks. *)
Definition admit_checked (reg : PetitionRegistry) (req : PetitionRequest) (now : Instant)
    (realms : RealmRegistry) (realm : RealmId) (rung : PersistenceRung)
    : Admission * PetitionRegistry :=
  let requested := {| q_verbs := rq_verbs req; q_persistence := rung;
                      q_expiry_ms := rq_expiry_ms req;
                      q_max_event_rate := resolve_rate reg (rq_max_event_rate req) |} in
  match policy reg with
  | AutoApprove =>
      (Resolved {| rs_connection := rq_connection req; rs_grant_wire_id := rq_grant_wire_id req;
                   rs_consent_wire_id := rq_consent_wire_id req; rs_emit_closed := true;
                   rs_verdict := Granted
                     {| ag_identity := rq_identity req; ag_realm := realm;
                        ag_effective := effective_of requested (q_persistence requested);
                        ag_issuer := AutoApprovePolicy |} |}, reg)
  | Interactive =>
      let petition := next_petition_id reg in
      let launch_command :=
        if mask_contains (q_verbs requested) REALM_LAUNCH
        then (fun r => audited_command (r_spawn r)) <$> registry_get realms realm
        else None in
      let deadline := default now (checked_add now (consent_timeout (config reg))) in
      let p := {| pp_connection := rq_connection req; pp_identity := rq_identity req;
                  pp_realm := realm; pp_grant_wire_id := rq_grant_wire_id req;
                  pp_consent_wire_id := rq_consent_wire_id req; pp_requested := requested;
                  pp_deadline := deadline; pp_prompt_shown := false;
                  pp_launch_command := launch_command |} in
      (Pending petition,
       {| policy := policy reg; config := config reg; pending := <[petition := p]> (pending reg);
          next_petition_id := u64_wrapping_add petition 1;
          next_connection_id := next_connection_id reg |})
  end.

Definition petition_admit (reg : PetitionRegistry) (req : PetitionRequest) (now : Instant)
    (realms : RealmRegistry) (layout_arrange_held : bool) : Admission * PetitionRegistry :=
  match resolve_for_petition realms (rq_realm_name req) with
  | None => (declined req Unavailable, reg)
  | Some realm =>
      if negb (rq_flags req =? 0) then (declined req Unsupported, reg) else
      if negb (Z.land (rq_verbs req) UNSERVED_VERB_BITS =? 0)
      then (declined req Unsupported, reg) else
      match rung_try_from (rq_persistence req) with
      | Err _ => (declined req Unsupported, reg)
      | Ok rung =>
          if negb (bool_decide (rq_resource req = [])) then (declined req Unsupported, reg) else
          if mask_contains (rq_verbs req) LAYOUT_ARRANGE
             && (layout_arrange_held || bt_any (pending reg) wants_layout)
          then (declined req LayoutHeld, reg) else
          if (max_pending_per_identity (config reg) <=? pending_for_identity reg (rq_identity req))
             || (max_pending_global (config reg) <=? bt_len (pending reg))
          then (declined req Busy, reg) else
          admit_checked reg req now realms realm rung
      end
  end.

(** The resolution of a pending petition. *)
Definition resolution_of (p : PendingPetition) (v : Verdict) : Resolution :=
  {| rs_connection := pp_connection p; rs_grant_wire_id := pp_grant_wire_id p;
     rs_consent_wire_id := pp_consent_wire_id p; rs_emit_closed := true; rs_verdict := v |}.

(** [expire_due]. *)
Definition petition_due (now : Instant) (p : PendingPetition) : bool := pp_deadline p <=? now.
Fixpoint expire_loop (due : list PetitionId) (m : btree PendingPetition)
    : list Resolution * btree PendingPetition :=
  match due with
  | [] => ([], m)
  | id :: due =>
      match m !! id with
      | Some p =>
          let '(rs, m) := expire_loop due (delete id m) in
          (resolution_of p (Declined TimedOut) :: rs, m)
      | None => expire_loop due m (* the [expect]: the id was just observed *)
      end
  end.
Definition expire_due (reg : PetitionRegistry) (now : Instant)
    : list Resolution * PetitionRegistry :=
  let due := bt_select (pending reg) (fun _ p => petition_due now p) in
  let '(rs, m) := expire_loop due (pending reg) in
  (rs, with_pending reg m).

Definition withdraw_connection (reg : PetitionRegistry) (c : ConnectionId)
    : Z * PetitionRegistry :=
  let m := bt_retain (pending reg) (fun _ p => negb (pp_connection p =? c)) in
  (bt_len (pending reg) - bt_len m, with_pending reg m).

Definition pending_total (reg : PetitionRegistry) : Z := bt_len (pending reg).

Definition set_shown (b : bool) (p : PendingPetition) : PendingPetition :=
  {| pp_connection := pp_connection p; pp_identity := pp_identity p; pp_realm := pp_realm p;
     pp_grant_wire_id := pp_grant_wire_id p; pp_consent_wire_id := pp_consent_wire_id p;
     pp_requested := pp_requested p; pp_deadline := pp_deadline p; pp_prompt_shown := b;
     pp_launch_command := pp_launch_command p |}.
Definition mark_prompt (reg : PetitionRegistry) (id : PetitionId) (b : bool)
    : bool * PetitionRegistry :=
  match pending reg !! id with
  | Some _ => (true, with_pending reg (bt_set (pending reg) id (set_shown b)))
  | None => (false, reg)
  end.
Definition mark_prompt_shown (reg : PetitionRegistry) (id : PetitionId) := mark_prompt reg id true.
Definition mark_prompt_hidden (reg : PetitionRegistry) (id : PetitionId) := mark_prompt reg id false.

Definition pending_deadline (reg : PetitionRegistry) (id : PetitionId) : option Instant :=
  pp_deadline <$> pending reg !! id.
Definition front_pending (reg : PetitionRegistry) : option PetitionId := bt_first (pending reg).

Definition prompt_content (reg : PetitionRegistry) (id : PetitionId) : option PromptContent :=
  (fun p => {| pc_principal := pp_identity p; pc_realm := pp_realm p;
               pc_verbs := q_verbs (pp_requested p);
               pc_persistence := q_persistence (pp_requested p);
               pc_expiry_ms := q_expiry_ms (pp_requested p);
               pc_command := pp_launch_command p |}) <$> pending reg !! id.

Definition pending_route (reg : PetitionRegistry) (id : PetitionId) : option (ConnectionId * Z) :=
  (fun p => (pp_connection p, pp_consent_wire_id p)) <$> pending reg !! id.

Definition prompt_up_for (reg : PetitionRegistry) (identity : PrincipalIdentity) : bool :=
  bt_any (pending reg) (fun p => pp_prompt_shown p && str_eqb (pp_identity p) identity).

(** [finish], on an entry its caller has just looked up. *)
Definition finish (reg : PetitionRegistry) (id : PetitionId) (p : PendingPetition)
    (approved : option EffectiveAuthority) (issuer : Issuer) : Resolution * PetitionRegistry :=
  (resolution_of p
     match approved with
     | Some effective => Granted {| ag_identity := pp_identity p; ag_realm := pp_realm p;
                                    ag_effective := effective; ag_issuer := issuer |}
     | None => Declined Denied
     end,
   with_pending reg (delete id (pending reg))).

Definition resolve_human (reg : PetitionRegistry) (id : PetitionId) (choice : Choice)
    : result Resolution HumanDecisionError * PetitionRegistry :=
  match pending reg !! id with
  | None => (Err NotPending, reg)
  | Some p =>
      match choice with
      | Deny =>
          let '(r, reg) := finish reg id p None HumanConsent in (Ok r, reg)
      | Allow rung =>
          if negb (narrows rung (q_persistence (pp_requested p))) then (Err WouldWiden, reg)
          else
            let '(r, reg) :=
              finish reg id p (Some (effective_of (pp_requested p) rung)) HumanConsent in
            (Ok r, reg)
      end
  end.

(* ------------------------------------------------------------------------ *)
(** ** The invariant *)

(** A configuration the registry can run with; the default is one. *)
Definition config_ok (c : PetitionConfig) : Prop :=
  0 <= consent_timeout c /\ 0 <= max_pending_per_identity c /\ 0 <= max_pending_global c
  /\ 1 <= default_max_event_rate c <= u32_max.

Definition request_ok (req : PetitionRequest) : Prop :=
  is_u32 (rq_expiry_ms req) /\ is_u32 (rq_max_event_rate req)
  /\ 1 <= rq_verbs req <= VALID_MASK.

(** What holds of every pending petition. *)
Definition pending_ok (p : PendingPetition) : Prop :=
  Z.land (q_verbs (pp_requested p)) UNSERVED_VERB_BITS = 0
  /\ 1 <= q_verbs (pp_requested p) <= VALID_MASK
  /\ is_u32 (q_expiry_ms (pp_requested p))
  /\ 1 <= q_max_event_rate (pp_requested p) <= u32_max.

Record petitions_wf (reg : PetitionRegistry) : Prop := {
  pwf_config : config_ok (config reg);
  pwf_sorted : bt_wf (pending reg);
  pwf_next : 1 <= next_petition_id reg;
  pwf_ids : forall id p, pending reg !! id = Some p -> 1 <= id < next_petition_id reg;
  pwf_ok : forall id p, pending reg !! id = Some p -> pending_ok p;
  pwf_identity : forall i, pending_for_identity reg i <= max_pending_per_identity (config reg);
  pwf_global : bt_len (pending reg) <= max_pending_global (config reg);
  pwf_layout : bt_count (pending reg) wants_layout <= 1 }.

Lemma registry_new_wf p c : config_ok c -> petitions_wf (registry_new p c).
Proof.
  intros Hc. pose proof Hc as (H0 & H1 & H2 & H3). split; simpl; try done.
  - apply bt_wf_empty.
Qed.

(** A registry whose pending petitions only shrink keeps the invariant. *)
Lemma petitions_wf_retain reg q :
  petitions_wf reg -> petitions_wf (with_pending reg (bt_retain (pending reg) q)).
Proof.
  intros [Hc Hs Hn Hi Hok Hid Hg Hl].
  assert (forall id p, bt_retain (pending reg) q !! id = Some p -> pending reg !! id = Some p) as Hsub.
  { intros id p. rewrite bt_lookup_retain by done. destruct (pending reg !! id); simpl; [|done].
    case_match; intros; by simplify_eq. }
  split; simpl; eauto with vitrin.
  - intros i. etrans; [apply bt_count_retain|apply Hid].
  - etrans; [apply bt_len_retain|done].
  - etrans; [apply bt_count_retain|done].
Qed.

Lemma petitions_wf_delete reg id :
  petitions_wf reg -> petitions_wf (with_pending reg (delete id (pending reg))).
Proof. apply petitions_wf_retain. Qed.

Lemma petitions_wf_mark reg id b :
  petitions_wf reg -> petitions_wf (mark_prompt reg id b).2.
Proof.
  intros [Hc Hs Hn Hi Hok Hid Hg Hl]. unfold mark_prompt.
  destruct (pending reg !! id) as [p0|] eqn:Hp; [|done]. simpl.
  assert (forall i p, bt_set (pending reg) id (set_shown b) !! i = Some p ->
    exists p', pending reg !! i = Some p' /\ (p = p' \/ p = set_shown b p')) as Hsub.
  { intros i p. rewrite bt_lookup_set. destruct (id =? i); [|eauto].
    destruct (pending reg !! i); simpl; [|done]. intros. simplify_eq. eauto. }
  assert (forall f : PendingPetition -> bool, (forall p, f (set_shown b p) = f p) ->
    bt_count (bt_set (pending reg) id (set_shown b)) f = bt_count (pending reg) f) as Hcount.
  { intros f Hf. apply bt_count_update. intros k v. by destruct (id =? k). }
  split; simpl; auto with vitrin.
  - intros i p (p' & Hp' & _)%Hsub. eauto.
  - intros i p (p' & Hp' & [->| ->])%Hsub; [eauto|]. exact (Hok i p' Hp').
  - intros i. unfold pending_for_identity. simpl. rewrite Hcount by done. apply Hid.
  - unfold bt_set. by rewrite bt_len_update.
  - by rewrite Hcount.
Qed.

(** The checks a petition must pass, as [petition_admit] makes them. *)
Definition admissible (reg : PetitionRegistry) (req : PetitionRequest)
    (realms : RealmRegistry) (held : bool) (realm : RealmId) (rung : PersistenceRung) : Prop :=
  resolve_for_petition realms (rq_realm_name req) = Some realm
  /\ rq_flags req = 0
  /\ Z.land (rq_verbs req) UNSERVED_VERB_BITS = 0
  /\ rung_try_from (rq_persistence req) = Ok rung
  /\ rq_resource req = []
  /\ (mask_contains (rq_verbs req) LAYOUT_ARRANGE = true ->
        held = false /\ bt_any (pending reg) wants_layout = false)
  /\ pending_for_identity reg (rq_identity req) < max_pending_per_identity (config reg)
  /\ bt_len (pending reg) < max_pending_global (config reg).

(** [petition_admit] declines, leaving the registry alone, or passes every check. *)
Lemma admit_cases reg req now realms held :
  (exists o, petition_admit reg req now realms held = (declined req o, reg)
     /\ forall realm rung, ~ admissible reg req realms held realm rung)
  \/ (exists realm rung, admissible reg req realms held realm rung /\
       petition_admit reg req now realms held = admit_checked reg req now realms realm rung).
Proof.
  unfold petition_admit, admissible.
  destruct (resolve_for_petition realms (rq_realm_name req)) as [realm|] eqn:Hr; cycle 1.
  { left. exists Unavailable. split; [done|]. by intros ?? (? & _). }
  destruct (Z.eqb_spec (rq_flags req) 0); simpl; cycle 1.
  { left. exists Unsupported. split; [done|]. by intros ?? (_ & ? & _). }
  destruct (Z.eqb_spec (Z.land (rq_verbs req) UNSERVED_VERB_BITS) 0); simpl; cycle 1.
  { left. exists Unsupported. split; [done|]. by intros ?? (_ & _ & ? & _). }
  destruct (rung_try_from (rq_persistence req)) as [rung|] eqn:Hg; cycle 1.
  { left. exists Unsupported. split; [done|]. by intros ?? (_ & _ & _ & ? & _). }
  case_bool_decide as Hres; simpl; cycle 1.
  { left. exists Unsupported. split; [done|]. intros ?? (_ & _ & _ & _ & ? & _); congruence. }
  destruct (mask_contains (rq_verbs req) LAYOUT_ARRANGE
            && (held || bt_any (pending reg) wants_layout))%bool eqn:Hlay.
  { left. exists LayoutHeld. split; [done|]. intros ?? (_ & _ & _ & _ & _ & Hl & _).
    apply andb_prop in Hlay as [Hm Ho]. destruct (Hl Hm) as [-> H']. by rewrite H' in Ho. }
  destruct ((max_pending_per_identity (config reg) <=? pending_for_identity reg (rq_identity req))
            || (max_pending_global (config reg) <=? bt_len (pending reg)))%bool eqn:Hcap.
  { left. exists Busy. split; [done|]. intros ?? (_ & _ & _ & _ & _ & _ & H1 & H2).
    apply orb_prop in Hcap as [Hc|Hc]; unbool; lia. }
  right. exists realm, rung. split; [|done]. unbool.
  assert (mask_contains (rq_verbs req) LAYOUT_ARRANGE = true ->
          held = false /\ bt_any (pending reg) wants_layout = false) as Hl.
  { intros Hm. rewrite Hm in Hlay. simpl in Hlay. by apply orb_false_elim in Hlay. }
  auto 10.
Qed.

Lemma resolve_rate_ok reg req :
  config_ok (config reg) -> request_ok req ->
  1 <= resolve_rate reg (rq_max_event_rate req) <= u32_max.
Proof.
  intros (_ & _ & _ & Hd) (_ & Hu & _). unfold resolve_rate, is_u32 in *.
  destruct (Z.eqb_spec (rq_max_event_rate req) 0); lia.
Qed.

Lemma admit_checked_wf reg req now realms held realm rung :
  petitions_wf reg -> next_petition_id reg < u64_max -> request_ok req ->
  admissible reg req realms held realm rung ->
  petitions_wf (admit_checked reg req now realms realm rung).2.
Proof.
  intros Hwf Hn Hreq (_ & _ & Hserved & _ & _ & Hlay & Hci & Hcg).
  pose proof Hwf as [Hc Hs H1 Hi Hok Hid Hg Hl].
  unfold admit_checked. destruct (policy reg); [|done]. simpl.
  set (p := {| pp_connection := _ |}).
  assert (pending reg !! next_petition_id reg = None) as Hfresh.
  { destruct (pending reg !! next_petition_id reg) eqn:Hp; [|done]. apply Hi in Hp. lia. }
  assert (u64_wrapping_add (next_petition_id reg) 1 = next_petition_id reg + 1) as Hw
    by (apply u64_wrapping_add_small; lia).
  split; simpl; auto with vitrin.
  - lia.
  - intros id q. rewrite bt_lookup_insert. destruct (Z.eqb_spec id (next_petition_id reg)); [lia|].
    intros Hq%Hi. lia.
  - intros id q. rewrite bt_lookup_insert. destruct (Z.eqb_spec id (next_petition_id reg)); [|eauto].
    intros [= <-]. unfold pending_ok. simpl. destruct (resolve_rate_ok reg req Hc Hreq).
    destruct Hreq as (? & ? & ?). auto.
  - intros i. unfold pending_for_identity. simpl. rewrite bt_count_insert_fresh by done.
    destruct (of_identity i p) eqn:Hp; [|specialize (Hid i); unfold pending_for_identity in Hid; lia].
    apply str_eqb_eq in Hp. simpl in Hp. subst i. unfold pending_for_identity in Hci. lia.
  - rewrite bt_len_insert_fresh by done. lia.
  - rewrite bt_count_insert_fresh by done.
    destruct (wants_layout p) eqn:Hp; [|lia]. destruct (Hlay Hp) as [_ Hany].
    rewrite bt_count_zero by done. lia.
Qed.

Lemma admit_wf reg req now realms held :
  petitions_wf reg -> next_petition_id reg < u64_max -> request_ok req ->
  petitions_wf (petition_admit reg req now realms held).2.
Proof.
  intros Hwf Hn Hreq.
  destruct (admit_cases reg req now realms held) as [(o & -> & _)|(realm & rung & Ha & ->)]; [done|].
  by eapply admit_checked_wf.
Qed.

(** *** The sweep *)

Lemma expire_loop_spec due m :
  (forall id, In id due -> is_Some (m !! id)) -> NoDup due ->
  expire_loop due m =
    (omap (fun id => (fun p => resolution_of p (Declined TimedOut)) <$> m !! id) due,
     bt_retain m (fun id _ => negb (existsb (Z.eqb id) due))).
Proof.
  revert m. induction due as [|id due IH]; intros m Hin Hnd; simpl.
  - f_equal. unfold bt_retain. destruct m as [l]. f_equal. simpl.
    clear. induction l as [|kv l IHl]; simpl; [done|]. by f_equal.
  - apply NoDup_cons in Hnd as [Hni Hnd]. rewrite list_elem_of_In in Hni.
    destruct (Hin id (or_introl eq_refl)) as [p Hp]. rewrite Hp.
    assert (forall id', In id' due -> delete id m !! id' = m !! id') as Hsame.
    { intros id' Hid'. apply bt_lookup_remove_ne. intros ->. done. }
    rewrite IH; [|intros id' Hid'; rewrite Hsame by done; apply Hin; by right|done].
    simpl. f_equal; [f_equal|].
    + apply omap_ext_In. intros id' Hid'. by rewrite Hsame.
    + unfold bt_retain, delete, bt_delete, bt_remove, bt_retain. simpl. f_equal.
      clear. induction (bt_entries m) as [|[k v] l IH]; simpl; [done|].
      rewrite (Z.eqb_sym k id). destruct (Z.eqb_spec id k); simpl; [done|].
      destruct (existsb (Z.eqb k) due); simpl; congruence.
Qed.

Lemma select_NoDup {V} (m : btree V) p : bt_wf m -> NoDup (bt_select m p).
Proof.
  intros Hwf. apply (bt_select_sorted m p) in Hwf.
  induction Hwf as [|k l Hs IH Hall]; constructor; [|done].
  rewrite list_elem_of_In. intros Hin. rewrite List.Forall_forall in Hall.
  specialize (Hall _ Hin). lia.
Qed.

Lemma expire_due_eq reg now :
  bt_wf (pending reg) ->
  expire_due reg now =
    (omap (fun id => (fun p => resolution_of p (Declined TimedOut)) <$> pending reg !! id)
       (bt_select (pending reg) (fun _ p => petition_due now p)),
     with_pending reg (bt_retain (pending reg) (fun _ p => negb (petition_due now p)))).
Proof.
  intros Hwf. unfold expire_due. rewrite expire_loop_spec.
  - f_equal. f_equal. unfold bt_retain. f_equal. apply List.filter_ext_in.
    intros [k v] Hin. simpl. f_equal. apply bt_In_lookup in Hin; [|done].
    destruct (petition_due now v) eqn:Hd.
    + apply existsb_exists. exists k. split; [|apply Z.eqb_refl].
      apply bt_select_In; eauto.
    + apply not_true_iff_false. rewrite existsb_exists. intros (k' & Hk' & <-%Z.eqb_eq).
      apply bt_select_In in Hk' as (v' & Hv' & Hd'); [|done]. congruence.
  - intros id (v & Hv & _)%bt_select_In; [eauto|done].
  - by apply select_NoDup.
Qed.

(* ------------------------------------------------------------------------ *)
(** ** The registry as a transition system *)

Inductive PetitionOp : Type :=
| POpAdmit (req : PetitionRequest) (now : Instant) (realms : RealmRegistry) (held : bool)
| POpResolve (id : PetitionId) (choice : Choice)
| POpExpire (now : Instant)
| POpWithdraw (c : ConnectionId)
| POpMark (id : PetitionId) (b : bool)
| POpRegister.

Definition op_ok (op : PetitionOp) : Prop :=
  match op with POpAdmit req _ _ _ => request_ok req | _ => True end.

Definition petition_step (reg : PetitionRegistry) (op : PetitionOp) : PetitionRegistry :=
  match op with
  | POpAdmit req now realms held => (petition_admit reg req now realms held).2
  | POpResolve id choice => (resolve_human reg id choice).2
  | POpExpire now => (expire_due reg now).2
  | POpWithdraw c => (withdraw_connection reg c).2
  | POpMark id b => (mark_prompt reg id b).2
  | POpRegister => (register_connection reg).2
  end.
Definition petition_run (reg : PetitionRegistry) (ops : list PetitionOp) : PetitionRegistry :=
  fold_left petition_step ops reg.

Lemma resolve_human_cases reg id choice :
  (exists err, resolve_human reg id choice = (Err err, reg)) \/
  (exists r, resolve_human reg id choice = (Ok r, with_pending reg (delete id (pending reg)))).
Proof.
  unfold resolve_human. destruct (pending reg !! id) as [p|]; [|eauto].
  destruct choice as [rung|]; simpl; [|eauto].
  destruct (narrows rung (q_persistence (pp_requested p))); simpl; eauto.
Qed.

Lemma petition_step_wf reg op :
  petitions_wf reg -> next_petition_id reg < u64_max -> op_ok op ->
  petitions_wf (petition_step reg op).
Proof.
  intros Hwf Hn Hok. destruct op as [req now realms held|id choice|now|c|id b|]; simpl.
  - by apply admit_wf.
  - destruct (resolve_human_cases reg id choice) as [[err ->]|[r ->]]; [done|].
    by apply petitions_wf_delete.
  - rewrite expire_due_eq by (by apply pwf_sorted). by apply petitions_wf_retain.
  - by apply petitions_wf_retain.
  - by apply petitions_wf_mark.
  - by destruct Hwf.
Qed.

Lemma petition_step_next reg op :
  1 <= next_petition_id reg < u64_max ->
  next_petition_id reg <= next_petition_id (petition_step reg op) <= next_petition_id reg + 1.
Proof.
  intros Hn. destruct op as [req now realms held|id choice|now|c|id b|]; simpl; try lia.
  - destruct (admit_cases reg req now realms held) as [(o & -> & _)|(realm & rung & Ha & ->)];
      [simpl; lia|].
    unfold admit_checked. destruct (policy reg); simpl; [|lia].
    rewrite u64_wrapping_add_small; lia.
  - destruct (resolve_human_cases reg id choice) as [[err ->]|[r ->]]; simpl; lia.
  - unfold expire_due. destruct (expire_loop _ _). simpl. lia.
  - unfold mark_prompt. case_match; simpl; lia.
Qed.

Lemma petition_run_wf ops reg :
  petitions_wf reg -> Forall op_ok ops ->
  next_petition_id reg + Z.of_nat (List.length ops) <= u64_max ->
  petitions_wf (petition_run reg ops)
  /\ next_petition_id reg <= next_petition_id (petition_run reg ops)
       <= next_petition_id reg + Z.of_nat (List.length ops).
Proof.
  revert reg. induction ops as [|op ops IH]; intros reg Hwf Hok Hn; simpl in *; [split; [done|lia]|].
  apply Forall_cons in Hok as [Hop Hok]. pose proof (pwf_next _ Hwf).
  pose proof (petition_step_next reg op ltac:(lia)).
  destruct (IH (petition_step reg op)) as [Hwf' Hb];
    [by apply petition_step_wf; [|lia|]|done|lia|]. split; [done|lia].
Qed.

(** What a step does to the entry of an id already handed out. *)
Lemma petition_step_entry reg op id p :
  petitions_wf reg -> next_petition_id reg < u64_max -> id < next_petition_id reg ->
  pending (petition_step reg op) !! id = Some p ->
  exists p0, pending reg !! id = Some p0 /\ (p = p0 \/ exists b, p = set_shown b p0).
Proof.
  intros Hwf Hn Hid Hp. pose proof (pwf_sorted _ Hwf) as Hs.
  destruct op as [req now realms held|id' choice|now|c|id' b|]; simpl in Hp.
  - destruct (admit_cases reg req now realms held) as [(o & Ha & _)|(realm & rung & _ & Ha)];
      rewrite Ha in Hp; [eauto|].
    unfold admit_checked in Hp. destruct (policy reg); simpl in Hp; [|eauto].
    rewrite bt_lookup_insert_ne in Hp by lia. eauto.
  - destruct (resolve_human_cases reg id' choice) as [[err Hr]|[r Hr]]; rewrite Hr in Hp; [eauto|].
    simpl in Hp. rewrite bt_lookup_remove in Hp. destruct (id =? id'); [done|eauto].
  - rewrite expire_due_eq in Hp by done. simpl in Hp. rewrite bt_lookup_retain in Hp by done.
    destruct (pending reg !! id); simpl in Hp; [|done]. case_match; simplify_eq. eauto.
  - rewrite bt_lookup_retain in Hp by done.
    destruct (pending reg !! id); simpl in Hp; [|done]. case_match; simplify_eq. eauto.
  - unfold mark_prompt in Hp. destruct (pending reg !! id') eqn:Hp'; [|eauto]. simpl in Hp.
    rewrite bt_lookup_set in Hp. destruct (id' =? id); [|eauto].
    destruct (pending reg !! id) eqn:Hq; simpl in Hp; [|done]. simplify_eq. eauto.
  - eauto.
Qed.

(** A petition that left the registry is gone for good. *)
Lemma petition_gone ops reg id :
  petitions_wf reg -> Forall op_ok ops ->
  next_petition_id reg + Z.of_nat (List.length ops) <= u64_max ->
  id < next_petition_id reg -> pending reg !! id = None ->
  pending (petition_run reg ops) !! id = None.
Proof.
  revert reg. induction ops as [|op ops IH]; intros reg Hwf Hok Hn Hid Hnone; simpl in *; [done|].
  apply Forall_cons in Hok as [Hop Hok]. pose proof (pwf_next _ Hwf).
  pose proof (petition_step_next reg op ltac:(lia)).
  apply IH; [by apply petition_step_wf; [|lia|]|done|lia|lia|].
  destruct (pending (petition_step reg op) !! id) as [p|] eqn:Hp; [|done].
  destruct (petition_step_entry reg op id p Hwf ltac:(lia) Hid Hp) as (p0 & Hp0 & _). congruence.
Qed.

Lemma resolve_human_Ok reg id choice r reg' :
  resolve_human reg id choice = (Ok r, reg') <->
  exists p, pending reg !! id = Some p /\ reg' = with_pending reg (delete id (pending reg)) /\
    match choice with
    | Deny => r = resolution_of p (Declined Denied)
    | Allow rung =>
        narrows rung (q_persistence (pp_requested p)) = true /\
        r = resolution_of p (Granted
              {| ag_identity := pp_identity p; ag_realm := pp_realm p;
                 ag_effective := effective_of (pp_requested p) rung;
                 ag_issuer := HumanConsent |})
    end.
Proof.
  unfold resolve_human. destruct (pending reg !! id) as [p|]; cycle 1.
  { split; [done|]. by intros (? & ? & _). }
  destruct choice as [rung|]; simpl.
  - destruct (narrows rung (q_persistence (pp_requested p))) eqn:Hn; simpl.
    + split; [intros [= <- <-]; eauto|]. by intros (p' & [= <-] & -> & _ & ->).
    + split; [done|]. intros (p' & [= <-] & _ & Hn' & _). congruence.
  - split; [intros [= <- <-]; eauto|]. by intros (p' & [= <-] & -> & ->).
Qed.

(* ------------------------------------------------------------------------ *)
(** ** Properties *)

(** The consent queue is bounded and honest in every reachable registry: at
    most four petitions per identity and sixteen overall under the default
    configuration, at most one pending petition naming [layout_arrange], and no
    pending petition names a verb this core does not serve, an empty verb set
    or an unlimited rate. *)
Theorem petitions_bounded (p : ConsentPolicy) (c : PetitionConfig) (ops : list PetitionOp)
  (Hc : config_ok c) (Hok : Forall op_ok ops)
  (Hage : 1 + Z.of_nat (List.length ops) <= u64_max) :
  (forall i, pending_for_identity (petition_run (registry_new p c) ops) i
     <= max_pending_per_identity (config (petition_run (registry_new p c) ops)))
  /\ bt_len (pending (petition_run (registry_new p c) ops))
     <= max_pending_global (config (petition_run (registry_new p c) ops))
  /\ bt_count (pending (petition_run (registry_new p c) ops)) wants_layout <= 1
  /\ (forall id q, pending (petition_run (registry_new p c) ops) !! id = Some q ->
        Z.land (q_verbs (pp_requested q)) UNSERVED_VERB_BITS = 0
        /\ 1 <= q_verbs (pp_requested q) <= VALID_MASK
        /\ 1 <= q_max_event_rate (pp_requested q) <= u32_max).
Proof.
  destruct (petition_run_wf ops (registry_new p c)) as [Hwf _];
    [by apply registry_new_wf|done|done|].
  split; [apply pwf_identity, Hwf|]. split; [apply pwf_global, Hwf|].
  split; [apply pwf_layout, Hwf|]. intros id q Hq. destruct (pwf_ok _ Hwf id q Hq) as (? & ? & _ & ?).
  auto.
Qed.

(** Admission is all or nothing. A petition is declined exactly when some
    check fails, and then the registry is unchanged; otherwise an interactive
    registry holds it pending under a new id with exactly what was asked (the
    rate resolved, the requested rung, no prompt shown), every other petition
    untouched, and an auto-approving one grants exactly what was asked without
    holding it. *)
Theorem petitions_admit_exact (reg : PetitionRegistry) (req : PetitionRequest) (now : Z)
  (realms : RealmRegistry) (held : bool) (Hwf : petitions_wf reg) :
  match petition_admit reg req now realms held with
  | (Pending id, reg') =>
      policy reg = Interactive /\ id = next_petition_id reg /\ pending reg !! id = None
      /\ exists realm rung p, admissible reg req realms held realm rung
         /\ pending reg' !! id = Some p
         /\ (forall id', id' <> id -> pending reg' !! id' = pending reg !! id')
         /\ pp_identity p = rq_identity req /\ pp_realm p = realm
         /\ pp_connection p = rq_connection req /\ pp_prompt_shown p = false
         /\ pp_requested p = {| q_verbs := rq_verbs req; q_persistence := rung;
                                q_expiry_ms := rq_expiry_ms req;
                                q_max_event_rate := resolve_rate reg (rq_max_event_rate req) |}
         /\ now <= pp_deadline p
  | (Resolved r, reg') =>
      reg' = reg
      /\ match rs_verdict r with
         | Declined o => (forall realm rung, ~ admissible reg req realms held realm rung)
                         /\ rs_emit_closed r = false
         | Granted g =>
             policy reg = AutoApprove /\ ag_issuer g = AutoApprovePolicy
             /\ ag_identity g = rq_identity req
             /\ exists rung, admissible reg req realms held (ag_realm g) rung
                /\ ag_effective g = {| ea_verbs := rq_verbs req; ea_persistence := rung;
                     ea_expiry_ms := rq_expiry_ms req;
                     ea_max_event_rate := resolve_rate reg (rq_max_event_rate req) |}
         end
  end.
Proof.
  destruct (admit_cases reg req now realms held) as [(o & -> & Hno)|(realm & rung & Ha & ->)].
  { simpl. auto. }
  unfold admit_checked. destruct (policy reg) eqn:Hpol; simpl.
  - split; [done|]. split; [done|]. split.
    { destruct (pending reg !! next_petition_id reg) eqn:Hp; [|done].
      apply (pwf_ids _ Hwf) in Hp. lia. }
    exists realm, rung. eexists. split; [done|]. split; [apply bt_lookup_insert_eq|].
    split; [intros id' Hne; by apply bt_lookup_insert_ne|].
    simpl. repeat split. destruct (pwf_config _ Hwf) as (Ht & _).
    destruct (checked_add now _) as [d|] eqn:Hd; simpl; [|lia].
    apply checked_add_Some in Hd as [-> _]. lia.
  - split; [done|]. split; [done|]. split; [done|]. split; [done|]. eauto.
Qed.

Definition demo_registry : PetitionRegistry :=
  petition_run (registry_new Interactive config_default) [POpRegister].
Definition demo_request (v : Z) (r : WirePersistence) : PetitionRequest :=
  {| rq_connection := 1; rq_identity := str "vitrin://local/agent/demo";
     rq_realm_name := str "realm-0"; rq_grant_wire_id := 7; rq_consent_wire_id := 8;
     rq_resource := []; rq_verbs := v; rq_expiry_ms := 0; rq_max_event_rate := 0;
     rq_persistence := r; rq_flags := 0 |}.
Definition demo_realms : RealmRegistry :=
  match from_specs demo_specs with
  | Ok r => r
  | Err _ => {| realms := ∅; next_instance := 1; picker_root := None |}
  end.

Lemma config_default_ok : config_ok config_default.
Proof. unfold config_ok. simpl. unfold from_secs, nanos_per_sec, u32_max. lia. Qed.

Lemma demo_request_ok v r : 1 <= v <= VALID_MASK -> request_ok (demo_request v r).
Proof. intros. unfold request_ok, is_u32. simpl. unfold u32_max. lia. Qed.

Lemma petitions_bounded_witness :
  bt_len (pending (petition_run (registry_new Interactive config_default)
    [POpAdmit (demo_request 3 WOnce) 0 demo_realms false])) <= 16.
Proof.
  refine (proj1 (proj2 (petitions_bounded Interactive config_default
    [POpAdmit (demo_request 3 WOnce) 0 demo_realms false] config_default_ok _ _))).
  - constructor; [|constructor]. apply demo_request_ok. unfold VALID_MASK. lia.
  - vm_compute. discriminate.
Defined.

Lemma petitions_admit_exact_witness :
  match petition_admit (registry_new Interactive config_default) (demo_request 3 WOnce) 0 demo_realms false with
  | (Pending id, reg') => id = 1 /\ is_Some (pending reg' !! 1)
  | _ => False
  end.
Proof.
  pose proof (petitions_admit_exact (registry_new Interactive config_default)
    (demo_request 3 WOnce) 0 demo_realms false (registry_new_wf _ _ config_default_ok)) as H.
  destruct (petition_admit _ _ _ _ _) as [[r|id] reg'] eqn:Ha; [by vm_compute in Ha|].
  destruct H as (_ & -> & _ & realm & rung & p & _ & Hp & _). split; [reflexivity|].
  exists p. exact Hp.
Defined.

(** The buttons of a prompt are exactly the decisions it accepts. For a
    pending petition, a choice is drawn on its prompt if and only if
    [resolve_human] takes it; no button does nothing, and no undrawn choice,
    in particular no longer-lived rung, is accepted. *)
Theorem petitions_buttons_exact (reg : PetitionRegistry) (id : Z) (c : PromptContent)
  (choice : Choice) (Hc : prompt_content reg id = Some c) :
  In choice (choices c) <-> is_ok (resolve_human reg id choice).1 = true.
Proof.
  unfold prompt_content, resolve_human in *. destruct (pending reg !! id) as [p|]; [|done].
  simplify_eq/=. unfold choices. simpl pc_persistence.
  destruct choice as [[]|], (q_persistence (pp_requested p)); vm_compute; intuition discriminate.
Qed.

Definition demo_pending : PetitionRegistry :=
  (petition_admit demo_registry (demo_request 3 WOnce) 0 demo_realms false).2.

Lemma petitions_buttons_exact_witness :
  is_ok (resolve_human demo_pending 1 (Allow WhileRunning)).1 <> true
  /\ In (Allow Once) (choices {| pc_principal := str "vitrin://local/agent/demo";
        pc_realm := str "realm-0"; pc_verbs := 3; pc_persistence := Once;
        pc_expiry_ms := 0; pc_command := None |}).
Proof.
  assert (prompt_content demo_pending 1 = Some {| pc_principal := str "vitrin://local/agent/demo";
        pc_realm := str "realm-0"; pc_verbs := 3; pc_persistence := Once;
        pc_expiry_ms := 0; pc_command := None |}) as Hc by (vm_compute; reflexivity).
  split.
  - intros H. apply (petitions_buttons_exact demo_pending 1 _ (Allow WhileRunning) Hc) in H.
    vm_compute in H. intuition discriminate.
  - apply (petitions_buttons_exact demo_pending 1 _ (Allow Once) Hc). vm_compute. reflexivity.
Defined.

(** A human decision resolves exactly once and never widens. It answers the
    petition's own connection and wire ids; a grant carries the petitioner's
    identity, realm, verbs, lifetime and rate unchanged with a rung no
    longer-lived than the one asked for; other petitions are untouched; and in
    no later state of the registry can that petition be decided again, expire,
    or be drawn. *)
Theorem petitions_resolve_once (reg reg' : PetitionRegistry) (id : Z) (choice choice' : Choice)
  (r : Resolution) (ops : list PetitionOp)
  (Hwf : petitions_wf reg) (Hr : resolve_human reg id choice = (Ok r, reg'))
  (Hok : Forall op_ok ops) (Hage : next_petition_id reg + Z.of_nat (List.length ops) <= u64_max) :
  (exists p, pending reg !! id = Some p
     /\ rs_connection r = pp_connection p /\ rs_grant_wire_id r = pp_grant_wire_id p
     /\ rs_consent_wire_id r = pp_consent_wire_id p
     /\ match rs_verdict r with
        | Granted g =>
            ag_identity g = pp_identity p /\ ag_realm g = pp_realm p
            /\ ag_issuer g = HumanConsent
            /\ ea_verbs (ag_effective g) = q_verbs (pp_requested p)
            /\ ea_expiry_ms (ag_effective g) = q_expiry_ms (pp_requested p)
            /\ ea_max_event_rate (ag_effective g) = q_max_event_rate (pp_requested p)
            /\ narrows (ea_persistence (ag_effective g)) (q_persistence (pp_requested p)) = true
            /\ choice = Allow (ea_persistence (ag_effective g))
        | Declined o => o = Denied /\ choice = Deny
        end)
  /\ (forall id', id' <> id -> pending reg' !! id' = pending reg !! id')
  /\ resolve_human (petition_run reg' ops) id choice' = (Err NotPending, petition_run reg' ops)
  /\ prompt_content (petition_run reg' ops) id = None.
Proof.
  apply resolve_human_Ok in Hr as (p & Hp & -> & Hr). split; [|split].
  - exists p. split; [done|]. destruct choice; [destruct Hr as [Hn ->]|subst r]; simpl; by repeat split.
  - intros id' Hne. by apply bt_lookup_remove_ne.
  - assert (pending (petition_run (with_pending reg (delete id (pending reg))) ops) !! id = None) as Hg.
    { apply petition_gone; [by apply petitions_wf_delete|done|done| |apply bt_lookup_remove_eq].
      apply (pwf_ids _ Hwf) in Hp. simpl. lia. }
    unfold resolve_human, prompt_content. rewrite Hg. done.
Qed.

Lemma demo_pending_wf : petitions_wf demo_pending.
Proof.
  apply admit_wf; [|vm_compute; reflexivity|apply demo_request_ok; unfold VALID_MASK; lia].
  apply petition_run_wf; [apply registry_new_wf, config_default_ok| |vm_compute; discriminate].
  repeat constructor.
Qed.

Lemma petitions_resolve_once_witness :
  let reg' := (resolve_human demo_pending 1 (Allow Once)).2 in
  resolve_human (petition_run reg' [POpExpire 5]) 1 Deny
    = (Err NotPending, petition_run reg' [POpExpire 5]).
Proof.
  intros reg'.
  destruct (resolve_human demo_pending 1 (Allow Once)) as [[r|e] rg] eqn:Hr;
    [|by vm_compute in Hr].
  refine (proj1 (proj2 (proj2 (petitions_resolve_once demo_pending rg 1 (Allow Once) Deny r
    [POpExpire 5] demo_pending_wf Hr _ _)))).
  - repeat constructor.
  - vm_compute. discriminate.
Defined.

(** The expiry sweep times out exactly the petitions whose deadline has come
    (at the deadline itself included), oldest first, each once, on its own
    connection, with its consent surface closed; every other petition is
    untouched, none left is due, and sweeping again yields nothing. *)
Theorem petitions_expire_exact (reg : PetitionRegistry) (now : Z) (Hwf : petitions_wf reg) :
  match expire_due reg now with
  | (rs, reg') =>
      (forall id, pending reg' !! id =
         match pending reg !! id with
         | Some p => if pp_deadline p <=? now then None else Some p
         | None => None
         end)
      /\ rs = omap (fun id => (fun p => resolution_of p (Declined TimedOut)) <$> pending reg !! id)
                (bt_select (pending reg) (fun _ p => pp_deadline p <=? now))
      /\ List.length rs = List.length (bt_select (pending reg) (fun _ p => pp_deadline p <=? now))
      /\ StronglySorted Z.lt (bt_select (pending reg) (fun _ p => pp_deadline p <=? now))
      /\ (expire_due reg' now).1 = []
  end.
Proof.
  pose proof (pwf_sorted _ Hwf) as Hs. rewrite expire_due_eq by done. unfold petition_due.
  assert (forall id, bt_retain (pending reg) (fun _ p => negb (pp_deadline p <=? now)) !! id =
         match pending reg !! id with
         | Some p => if pp_deadline p <=? now then None else Some p
         | None => None
         end) as Hlk.
  { intros id. rewrite bt_lookup_retain by done. destruct (pending reg !! id) as [p|]; simpl; [|done].
    by destruct (pp_deadline p <=? now). }
  split; [done|]. split; [done|]. split; [|split; [by apply bt_select_sorted|]].
  - assert (forall due, (forall id, In id due -> is_Some (pending reg !! id)) ->
      List.length (omap (fun id => (fun p => resolution_of p (Declined TimedOut)) <$> pending reg !! id) due)
      = List.length due) as Hlen.
    { induction due as [|id due IH]; intros Hin; simpl; [done|].
      destruct (Hin id (or_introl eq_refl)) as [p Hp]. rewrite Hp. simpl. f_equal.
      apply IH. intros id' Hid'. apply Hin. by right. }
    apply Hlen. intros id (p & Hp & _)%bt_select_In; [eauto|done].
  - rewrite expire_due_eq by (by apply bt_wf_retain). simpl.
    destruct (bt_select _ _) as [|id due] eqn:Hsel; [done|]. exfalso.
    assert (In id (bt_select (bt_retain (pending reg) (fun _ p => negb (pp_deadline p <=? now)))
              (fun _ p => petition_due now p))) as Hin by (rewrite Hsel; by left).
    apply bt_select_In in Hin as (p & Hp & Hd); [|by apply bt_wf_retain].
    rewrite Hlk in Hp. unfold petition_due in Hd.
    destruct (pending reg !! id) as [q|]; [|done].
    destruct (pp_deadline q <=? now) eqn:Hq; simplify_eq. congruence.
Qed.

Lemma petitions_expire_exact_witness :
  (expire_due (expire_due demo_pending (from_secs 120)).2 (from_secs 120)).1 = []
  /\ List.length (expire_due demo_pending (from_secs 120)).1 = 1%nat.
Proof.
  split; [|vm_compute; reflexivity].
  pose proof (petitions_expire_exact demo_pending (from_secs 120) demo_pending_wf) as H.
  destruct (expire_due demo_pending (from_secs 120)) as [rs reg'].
  exact (proj2 (proj2 (proj2 (proj2 H)))).
Defined.
