(* ===== verification/Input.v ===== *)
(** * Input vocabulary and physical presence

    The event types, the layout-invariant keysym table and the physical-presence
    record of [crates/vitrin-core/src/input/mod.rs]. An [f64] is the Standard
    Library's [spec_float] at binary64. *)

From Stdlib Require Import SpecFloat.
From S2P Require Import Prelude Text Grants.

(* ------------------------------------------------------------------------ *)
(** ** Floats *)

Definition f64 := spec_float.
Definition f64_of_int (z : Z) : f64 := binary_normalize 53 1024 z 0 false.
Definition f64_lt : f64 -> f64 -> bool := SFltb.
(** [f64::clamp]: a NaN stays a NaN. *)
Definition f64_clamp (x lo hi : f64) : f64 :=
  if f64_lt x lo then lo else if f64_lt hi x then hi else x.

#[export] Instance f64_eq_dec : EqDecision f64.
Proof. solve_decision. Defined.

(* ------------------------------------------------------------------------ *)
(** ** Events *)

Inductive Origin : Type := Physical | Emulated.
Inductive KeyState : Type := KReleased | KPressed.
Inductive ButtonState : Type := BReleased | BPressed.
Inductive Axis : Type := Vertical | Horizontal.
Inductive GestureKind : Type := Swipe | Pinch.
Inductive GestureState : Type := Completed | Cancelled.

#[export] Instance Origin_eq_dec : EqDecision Origin.
Proof. solve_decision. Defined.
#[export] Instance KeyState_eq_dec : EqDecision KeyState.
Proof. solve_decision. Defined.
#[export] Instance ButtonState_eq_dec : EqDecision ButtonState.
Proof. solve_decision. Defined.

(** [KeySource]: a device key by its scancode, or an event with no device. *)
Inductive KeySource : Type := Device (scancode : Z) | NoDevice.
Inductive KeyPairing : Type := PairScancode (scancode : Z) | PairKeysym (keysym : Z).
Definition pairing (s : KeySource) (keysym : Z) : KeyPairing :=
  match s with Device c => PairScancode c | NoDevice => PairKeysym keysym end.

#[export] Instance KeySource_eq_dec : EqDecision KeySource.
Proof. solve_decision. Defined.
#[export] Instance KeyPairing_eq_dec : EqDecision KeyPairing.
Proof. solve_decision. Defined.

Inductive SeatInputKind : Type :=
| Motion (x y : f64)
| Button (button : Z) (state : ButtonState)
| Scroll (axis : Axis) (value120 : Z)
| Key (source : KeySource) (keysym : Z) (state : KeyState)
| TextInput (text : Str)
| RelativeMotion (dx dy dx_unaccel dy_unaccel : f64)
| GestureBegin (kind : GestureKind) (fingers : Z)
| GestureSwipeUpdate (dx dy : f64)
| GesturePinchUpdate (dx dy scale rotation : f64)
| GestureEnd (kind : GestureKind) (state : GestureState).

Record SeatInput : Type := { si_origin : Origin; si_kind : SeatInputKind }.
Definition physical (k : SeatInputKind) : SeatInput := {| si_origin := Physical; si_kind := k |}.
Definition emulated (k : SeatInputKind) : SeatInput := {| si_origin := Emulated; si_kind := k |}.

(** What a hook says of an event. *)
Inductive Gate : Type := Deliver | Consume.

#[export] Instance Gate_eq_dec : EqDecision Gate.
Proof. solve_decision. Defined.

(* ------------------------------------------------------------------------ *)
(** ** Keysyms no layout moves *)

Definition keysym_table : list (Z * Z) :=
  [(1, 65307); (14, 65288); (15, 65289); (28, 65293); (29, 65507); (42, 65505);
   (54, 65506); (56, 65513); (57, 32); (58, 65509)]
  ++ List.map (fun i => (59 + i, 65470 + i)) [0;1;2;3;4;5;6;7;8;9]
  ++ [(87, 65480); (88, 65481); (96, 65421); (97, 65508); (99, 65377); (100, 65514);
      (102, 65360); (103, 65362); (104, 65365); (105, 65361); (106, 65363); (107, 65367);
      (108, 65364); (109, 65366); (110, 65379); (111, 65535); (125, 65515); (126, 65516);
      (113, 269025042); (114, 269025041); (115, 269025043); (163, 269025047);
      (164, 269025044); (165, 269025046); (166, 269025045); (224, 269025027);
      (225, 269025026); (248, 269025202)].

Fixpoint assoc (t : list (Z * Z)) (k : Z) : option Z :=
  match t with
  | [] => None
  | (k', v) :: t => if k =? k' then Some v else assoc t k
  end.

Definition invariant_keysym (evdev_code : Z) : option Z := assoc keysym_table evdev_code.
Definition keysym_is_intakeable (keysym : Z) : bool :=
  existsb (fun code => bool_decide (invariant_keysym code = Some keysym))
    (List.map Z.of_nat (seq 0 256)).

(* ------------------------------------------------------------------------ *)
(** ** Physical presence *)

Definition PHYSICAL_HOLD_WINDOW : Duration := from_millis 500.
Definition PHYSICAL_HOLD_CEILING : Duration := from_secs 60.

Record PhysicalPresence : Type := {
  held_buttons : list Z;
  last_activity : option Instant }.
Definition presence_default : PhysicalPresence :=
  {| held_buttons := []; last_activity := None |}.

(** [Vec::remove] at the first position of a value. *)
Fixpoint remove_first (b : Z) (l : list Z) : list Z :=
  match l with
  | [] => []
  | x :: l => if x =? b then l else x :: remove_first b l
  end.

Definition presence_note (p : PhysicalPresence) (origin : Origin) (kind : SeatInputKind)
    (now : Instant) : PhysicalPresence :=
  match origin with
  | Emulated => p
  | Physical =>
      let held :=
        if is_some_and (last_activity p) (fun at_ => PHYSICAL_HOLD_CEILING <=? since now at_)
        then [] else held_buttons p in
      let held :=
        match kind with
        | Button b BPressed => held ++ [b]
        | Button b BReleased => remove_first b held
        | _ => held
        end in
      {| held_buttons := held; last_activity := Some now |}
  end.

Definition within (p : PhysicalPresence) (now : Instant) (window : Duration) : bool :=
  is_some_and (last_activity p) (fun at_ => since now at_ <? window).
Definition presence_owns (p : PhysicalPresence) (now : Instant) : bool :=
  (negb (bool_decide (held_buttons p = [])) && within p now PHYSICAL_HOLD_CEILING)
  || within p now PHYSICAL_HOLD_WINDOW.

(** [PhysicalPresenceMap]. *)
Abbreviation PresenceMap := (gmap RealmId PhysicalPresence) (only parsing).

Definition map_note (m : PresenceMap) (realm : option RealmId) (origin : Origin)
    (kind : SeatInputKind) (now : Instant) : PresenceMap :=
  match origin, realm with
  | Emulated, _ => m
  | _, None => m
  | Physical, Some r =>
      <[r := presence_note (default presence_default (m !! r)) origin kind now]> m
  end.

Definition owns_target (m : PresenceMap) (realm : option RealmId) (now : Instant) : bool :=
  match realm with
  | None => false
  | Some r => is_some_and (m !! r) (fun p => presence_owns p now)
  end.

Definition forget (m : PresenceMap) (realm : RealmId) : PresenceMap := delete realm m.

(* ------------------------------------------------------------------------ *)
(** ** What presence records *)

Record Noted : Type := {
  n_realm : option RealmId; n_origin : Origin; n_kind : SeatInputKind; n_at : Instant }.

Definition note_event (m : PresenceMap) (e : Noted) : PresenceMap :=
  map_note m (n_realm e) (n_origin e) (n_kind e) (n_at e).
Definition note_run (m : PresenceMap) (es : list Noted) : PresenceMap := fold_left note_event es m.

Definition touches (r : RealmId) (e : Noted) : Prop :=
  n_realm e = Some r /\ n_origin e = Physical.

Lemma note_event_other m e r : ~ touches r e -> note_event m e !! r = m !! r.
Proof.
  unfold touches, note_event, map_note. intros Hn.
  destruct (n_origin e); [|done]. destruct (n_realm e) as [r'|]; [|done].
  apply lookup_insert_ne. intros ->. auto.
Qed.

Lemma note_event_touch m e r :
  touches r e ->
  exists p, note_event m e !! r = Some p /\ last_activity p = Some (n_at e).
Proof.
  unfold touches, note_event, map_note. intros [H1 H2]. rewrite H1, H2. cbv iota.
  eexists. split; [apply lookup_insert_eq|done].
Qed.

#[export] Instance touches_dec r e : Decision (touches r e).
Proof. unfold touches. apply _. Defined.

(** The activity a run leaves on a realm is its last touching event's. *)
Lemma note_run_last es m r p t :
  note_run m es !! r = Some p -> last_activity p = Some t ->
  (exists e, In e es /\ touches r e /\ n_at e = t)
  \/ (m !! r = Some p /\ forall e, In e es -> ~ touches r e).
Proof.
  revert m. induction es as [|e es IH]; intros m Hp Ht; simpl in *; [right; auto|].
  destruct (IH _ Hp Ht) as [(e' & ? & ?)|[Hm Hn]]; [left; eauto|].
  destruct (decide (touches r e)) as [Htc|Htc].
  - left. destruct (note_event_touch m e r Htc) as (q & Hq & Hl). exists e. split; [auto|].
    split; [done|]. congruence.
  - right. rewrite note_event_other in Hm by done. split; [done|]. intros e' [<-|?]; auto.
Qed.

Definition ordered (es : list Noted) : Prop := StronglySorted (fun a b => n_at a <= n_at b) es.

Lemma note_run_recent es m r e :
  ordered es -> In e es -> touches r e ->
  exists p t, note_run m es !! r = Some p /\ last_activity p = Some t /\ n_at e <= t.
Proof.
  revert m. induction es as [|e0 es IH]; intros m Ho Hin Ht; simpl in *; [done|].
  apply StronglySorted_inv in Ho as [Ho Hall]. rewrite List.Forall_forall in Hall.
  destruct Hin as [->|Hin]; [|by apply IH].
  destruct (note_event_touch m e r Ht) as (q & Hq & Hl).
  assert (forall es m', (forall x, In x es -> n_at e <= n_at x) ->
    (exists q t, m' !! r = Some q /\ last_activity q = Some t /\ n_at e <= t) ->
    exists p t, note_run m' es !! r = Some p /\ last_activity p = Some t /\ n_at e <= t) as Hgo.
  { clear -r e. induction es as [|x es IH]; intros m' Hx Hq; simpl; [done|].
    apply IH; [intros y Hy; apply Hx; by right|]. destruct (decide (touches r x)) as [Htc|Htc].
    - destruct (note_event_touch m' x r Htc) as (p & Hp & Hl). exists p, (n_at x).
      split; [done|split; [done|]]. apply Hx. by left.
    - by rewrite note_event_other. }
  apply Hgo; [auto|]. exists q, (n_at e). split; [done|split; [done|lia]].
Qed.

(* ------------------------------------------------------------------------ *)
(** ** Properties *)

(** Presence is what the human recently did, realm by realm. Over any
    time-ordered trace of events from an empty record, a realm is owned only if
    some physical event reached that very realm less than the hold ceiling
    ago; it is owned whenever one did within the hold window; and emulated
    events and events of other realms never change the answer. *)
Theorem presence_sound_complete (es : list Noted) (r : RealmId) (now : Z)
  (Hord : ordered es) :
  (owns_target (note_run ∅ es) (Some r) now = true ->
     exists e, In e es /\ touches r e /\ now - n_at e < PHYSICAL_HOLD_CEILING)
  /\ (forall e, In e es -> touches r e -> now - n_at e < PHYSICAL_HOLD_WINDOW ->
        owns_target (note_run ∅ es) (Some r) now = true)
  /\ (forall e m, ~ touches r e ->
        owns_target (note_event m e) (Some r) now = owns_target m (Some r) now)
  /\ owns_target (note_run ∅ es) None now = false.
Proof.
  split; [|split; [|split; [|done]]].
  - unfold owns_target. destruct (note_run ∅ es !! r) as [p|] eqn:Hp; simpl; [|done].
    unfold presence_owns, within. destruct (last_activity p) as [t|] eqn:Ht; simpl;
      [|by rewrite andb_false_r].
    intros Ho. assert (now - t < PHYSICAL_HOLD_CEILING) as Hlt.
    { unfold PHYSICAL_HOLD_CEILING, PHYSICAL_HOLD_WINDOW, from_secs, from_millis,
        nanos_per_sec, since in *.
      apply orb_prop in Ho as [Ho|Ho]; unbool; lia. }
    destruct (note_run_last es ∅ r p t Hp Ht) as [(e & ? & ? & <-)|[Hm _]]; [eauto|].
    by rewrite lookup_empty in Hm.
  - intros e Hin Ht Hlt. destruct (note_run_recent es ∅ r e Hord Hin Ht) as (p & t & Hp & Hl & Hle).
    unfold owns_target. rewrite Hp. simpl. unfold presence_owns, within. rewrite Hl. simpl.
    apply orb_true_intro. right. apply Z.ltb_lt.
    unfold PHYSICAL_HOLD_WINDOW, from_millis, since in *. lia.
  - intros e m Hn. unfold owns_target. by rewrite note_event_other.
Qed.

Lemma presence_sound_complete_witness :
  owns_target (note_run ∅
    [{| n_realm := Some (str "realm-0"); n_origin := Physical;
        n_kind := Button 272 BPressed; n_at := 0 |}]) (Some (str "realm-0")) (from_millis 499) = true.
Proof.
  refine (proj1 (proj2 (presence_sound_complete
    [{| n_realm := Some (str "realm-0"); n_origin := Physical;
        n_kind := Button 272 BPressed; n_at := 0 |}] (str "realm-0") (from_millis 499) _))
    _ (or_introl eq_refl) _ _).
  - repeat constructor.
  - split; reflexivity.
  - vm_compute. reflexivity.
Defined.
