(* ===== verification/Geometry.v ===== *)
(** * Where a surface is

    [crates/vitrin-core/src/view.rs], [scene/layout.rs], the two functions of
    [input/mod.rs] that turn a point of the output into a point of a surface, and
    [crates/vitrin-protocol/src/fixed.rs]. Arithmetic on [f64] is the Standard
    Library's specification of binary64, rounding to nearest even. *)

From Stdlib Require Import SpecFloat.
From S2P Require Import Prelude Text Grants Input.

Definition f64_add : f64 -> f64 -> f64 := SFadd 53 1024.
Definition f64_sub : f64 -> f64 -> f64 := SFsub 53 1024.
Definition f64_mul : f64 -> f64 -> f64 := SFmul 53 1024.
Definition f64_le : f64 -> f64 -> bool := SFleb.

Definition i32_min : Z := -2147483648.
Definition i32_max : Z := 2147483647.

(** [x.round() as i32]: half away from zero, then the saturating cast. *)
Definition round_to_i32 (x : f64) : Z :=
  match x with
  | S754_zero _ | S754_nan => 0
  | S754_infinity s => if s then i32_min else i32_max
  | S754_finite s m e =>
      let a := if 0 <=? e then Z.pos m * 2 ^ e else (Z.pos m + 2 ^ (-e - 1)) / 2 ^ (-e) in
      Z.max i32_min (Z.min i32_max (if s then - a else a))
  end.

(** [Fixed]: its bits. *)
Definition Fixed := Z.
Definition from_f64 (v : f64) : Fixed := round_to_i32 (f64_mul v (f64_of_int 256)).

(** ** The view *)

Definition TRUST_BAND_HEIGHT : Z := 8.
Definition STRIP_TOP : Z := TRUST_BAND_HEIGHT.

Record ViewGeometry : Type := { output : Z * Z; strip_h : Z }.
Record Placement : Type := { pl_x : Z; pl_y : Z }.

Definition reserved_top (g : ViewGeometry) : Z :=
  let reserved := u32_saturating_add STRIP_TOP (strip_h g) in
  if (output g).2 <? reserved then (output g).2 else reserved.
Definition usable (g : ViewGeometry) : Z * Z := ((output g).1, (output g).2 - reserved_top g).

(** [layout::place]; the division is Rust's, toward zero. *)
Definition layout_place (view surface : Z * Z) : Placement :=
  {| pl_x := Z.quot (view.1 - surface.1) 2; pl_y := Z.quot (view.2 - surface.2) 2 |}.
Definition view_place (g : ViewGeometry) (surface : Z * Z) : Placement :=
  let p := layout_place (usable g) surface in
  {| pl_x := pl_x p; pl_y := pl_y p + reserved_top g |}.

(** ** Points *)

Definition surface_local (point : f64 * f64) (view : ViewGeometry) (surface : Z * Z) : f64 * f64 :=
  let placement := view_place view surface in
  (f64_sub point.1 (f64_of_int (pl_x placement)), f64_sub point.2 (f64_of_int (pl_y placement))).

Definition inside (p : f64 * f64) (surface : Z * Z) : bool :=
  f64_le (f64_of_int 0) p.1 && f64_le (f64_of_int 0) p.2
  && f64_lt p.1 (f64_of_int surface.1) && f64_lt p.2 (f64_of_int surface.2).

(** ** Bounds *)

Definition view_ok (g : ViewGeometry) : Prop :=
  is_u32 (output g).1 /\ is_u32 (output g).2 /\ is_u32 (strip_h g).

Lemma reserved_top_bounds g :
  view_ok g -> 0 <= reserved_top g <= (output g).2 /\ (reserved_top g < STRIP_TOP -> reserved_top g = (output g).2).
Proof.
  unfold view_ok, is_u32, u32_max, reserved_top, u32_saturating_add, STRIP_TOP, TRUST_BAND_HEIGHT.
  intros (Hw & Hh & Hs). destruct (Z.ltb_spec (output g).2 (Z.min u32_max (8 + strip_h g))); unfold u32_max in *; lia.
Qed.

(** A surface that fits what the client gets lies below the reserved rows and
    within the output. *)
Lemma place_fits g surface :
  view_ok g -> 0 <= surface.1 <= (usable g).1 -> 0 <= surface.2 <= (usable g).2 ->
  let p := view_place g surface in
  0 <= pl_x p /\ pl_x p + surface.1 <= (output g).1
  /\ reserved_top g <= pl_y p /\ pl_y p + surface.2 <= (output g).2.
Proof.
  intros Hg Hw Hh. destruct (reserved_top_bounds g Hg) as [Hr _]. unfold view_place, layout_place, usable in *.
  simpl in *. rewrite !Z.quot_div_nonneg by lia.
  pose proof (Z.div_mod ((output g).1 - surface.1) 2). pose proof (Z.mod_pos_bound ((output g).1 - surface.1) 2).
  pose proof (Z.div_mod ((output g).2 - reserved_top g - surface.2) 2).
  pose proof (Z.mod_pos_bound ((output g).2 - reserved_top g - surface.2) 2). lia.
Qed.

(** The fixed-point encoding always fits the wire. *)
Lemma from_f64_bounds v : i32_min <= from_f64 v <= i32_max.
Proof.
  unfold from_f64, round_to_i32. unfold i32_min, i32_max.
  destruct (f64_mul v _) as [|[]| |]; cbv zeta; lia.
Qed.
