(* ===== verification/Constraint.v ===== *)
(** * Pointer constraints

    [crates/vitrin-core/src/input/constraint.rs]: an app's ask to lock or confine
    the pointer is a record of its realm, re-judged against the presentation at
    every reconciliation, and every change of the judgement is a verdict owed to
    the realm's shim. The map is a [BTreeMap]: reconciliation goes in ascending
    order of the realm's id. *)

From S2P Require Import Prelude Text Grants Input Geometry.

(** ** Order of realm ids *)

Fixpoint str_le (a b : Str) : bool :=
  match a, b with
  | [], _ => true
  | _ :: _, [] => false
  | x :: a, y :: b => if x <? y then true else if x =? y then str_le a b else false
  end.
Definition key_le {A} (a b : RealmId * A) : Prop := Is_true (str_le a.1 b.1).
#[export] Instance key_le_dec {A} : RelDecision (@key_le A).
Proof. intros a b. unfold key_le. apply _. Defined.

(** The iteration of a [BTreeMap<RealmId, A>]. *)
Definition in_order {A} (m : gmap RealmId A) : list (RealmId * A) := merge_sort key_le (map_to_list m).

Lemma in_order_perm {A} (m : gmap RealmId A) : in_order m ≡ₚ map_to_list m.
Proof. apply merge_sort_Permutation. Qed.

Lemma in_order_In {A} (m : gmap RealmId A) k v : (k, v) ∈ in_order m <-> m !! k = Some v.
Proof. rewrite (in_order_perm m). apply elem_of_map_to_list. Qed.

Lemma in_order_NoDup {A} (m : gmap RealmId A) : NoDup (in_order m).*1.
Proof. rewrite (in_order_perm m). apply NoDup_fst_map_to_list. Qed.

(** ** Data *)

Inductive PointerConstraintKind : Type := CNone | CLock | CConfine.
Inductive PointerConstraintLifetime : Type := Oneshot | Persistent.
Inductive PointerConstraintStatus : Type := CInactive | CActive | CWithdrawn | CRefused | CSuperseded.

#[export] Instance PointerConstraintKind_eq_dec : EqDecision PointerConstraintKind.
Proof. solve_decision. Defined.
#[export] Instance PointerConstraintLifetime_eq_dec : EqDecision PointerConstraintLifetime.
Proof. solve_decision. Defined.
#[export] Instance PointerConstraintStatus_eq_dec : EqDecision PointerConstraintStatus.
Proof. solve_decision. Defined.

Record Region : Type := { rg_x : Z; rg_y : Z; rg_width : Z; rg_height : Z }.
Definition is_whole_surface (r : Region) : bool := (rg_width r =? 0) && (rg_height r =? 0).
Definition contains (r : Region) (p : f64 * f64) : bool :=
  let x0 := f64_of_int (rg_x r) in
  let y0 := f64_of_int (rg_y r) in
  f64_le x0 p.1 && f64_le y0 p.2
  && f64_lt p.1 (f64_add x0 (f64_of_int (rg_width r)))
  && f64_lt p.2 (f64_add y0 (f64_of_int (rg_height r))).

Record PointerConstraintAsk : Type := {
  ask_serial : Z;
  ask_surface : option Z;
  ask_kind : PointerConstraintKind;
  ask_lifetime : PointerConstraintLifetime;
  ask_region : Region }.

Record CRecord : Type := {
  cr_serial : Z;
  cr_kind : PointerConstraintKind;
  cr_lifetime : PointerConstraintLifetime;
  cr_region : Region;
  cr_state : PointerConstraintStatus;
  cr_reported : option PointerConstraintStatus }.

Record CVerdict : Type := { cv_realm : RealmId; cv_serial : Z; cv_state : PointerConstraintStatus }.

Record OutputGates : Type := { overlay_up : bool; og_active : bool; dark : bool }.
Record PresentationGates : Type := {
  pg_focused : option RealmId;
  pg_output : OutputGates;
  pg_surface : option (Z * Z);
  pg_view : ViewGeometry;
  pg_pointer : option (f64 * f64) }.

(** [live_state]. *)
Definition live_state (g : PresentationGates) (realm : RealmId) (r : CRecord) : PointerConstraintStatus :=
  if negb (bool_decide (pg_focused g = Some realm)) then CInactive else
  if negb (og_active (pg_output g)) then CInactive else
  if dark (pg_output g) then CInactive else
  if overlay_up (pg_output g) then CInactive else
  match pg_surface g with
  | None => CInactive
  | Some surface =>
      match pg_pointer g with
      | None => CInactive
      | Some pointer =>
          let p := surface_local pointer (pg_view g) surface in
          if negb (inside p surface) then CInactive else
          if negb (is_whole_surface (cr_region r)) && negb (contains (cr_region r) p) then CInactive
          else CActive
      end
  end.

(** ** The table *)

Record ConstraintTable : Type := { ct_records : gmap RealmId CRecord; repaint_owed : bool }.
Definition constraints_new : ConstraintTable := {| ct_records := ∅; repaint_owed := false |}.

Definition is_active (t : ConstraintTable) (realm : RealmId) : bool :=
  is_some_and (ct_records t !! realm) (fun r => bool_decide (cr_state r = CActive)).

Definition c_withdraw (t : ConstraintTable) (realm : RealmId) : option CVerdict * ConstraintTable :=
  match ct_records t !! realm with
  | None => (None, t)
  | Some r =>
      (Some {| cv_realm := realm; cv_serial := cr_serial r; cv_state := CWithdrawn |},
       {| ct_records := delete realm (ct_records t); repaint_owed := true |})
  end.

Definition c_ask (t : ConstraintTable) (realm : RealmId) (ask : PointerConstraintAsk)
    : list CVerdict * ConstraintTable :=
  if bool_decide (ask_kind ask = CNone) then
    let '(v, t) := c_withdraw t realm in (option_list v, t)
  else
  match ask_surface ask with
  | None => ([{| cv_realm := realm; cv_serial := ask_serial ask; cv_state := CRefused |}], t)
  | Some _ =>
      let record := {| cr_serial := ask_serial ask; cr_kind := ask_kind ask;
                       cr_lifetime := ask_lifetime ask; cr_region := ask_region ask;
                       cr_state := CInactive; cr_reported := None |} in
      (match ct_records t !! realm with
       | Some superseded =>
           [{| cv_realm := realm; cv_serial := cr_serial superseded; cv_state := CSuperseded |}]
       | None => []
       end,
       {| ct_records := <[realm := record]> (ct_records t); repaint_owed := true |})
  end.

Definition withdraw_all (t : ConstraintTable) : list CVerdict * ConstraintTable :=
  (List.map (fun kr => {| cv_realm := kr.1; cv_serial := cr_serial kr.2; cv_state := CWithdrawn |})
     (in_order (ct_records t)),
   {| ct_records := ∅; repaint_owed := true |}).

Definition c_forget (t : ConstraintTable) (realm : RealmId) : bool * ConstraintTable :=
  match ct_records t !! realm with
  | None => (false, t)
  | Some _ => (true, {| ct_records := delete realm (ct_records t); repaint_owed := true |})
  end.

Definition take_repaint_owed (t : ConstraintTable) : bool * ConstraintTable :=
  (repaint_owed t, {| ct_records := ct_records t; repaint_owed := false |}).

(** One turn of the loop of [reconcile]: the record, the verdict owed, and whether
    a one-shot just ended. *)
Definition judge (g : PresentationGates) (realm : RealmId) (r : CRecord)
    : CRecord * option CVerdict * bool :=
  let now := live_state g realm r in
  let set_reported o :=
    {| cr_serial := cr_serial r; cr_kind := cr_kind r; cr_lifetime := cr_lifetime r;
       cr_region := cr_region r; cr_state := now; cr_reported := o |} in
  if bool_decide (cr_reported r = Some now) then (set_reported (cr_reported r), None, false) else
  let ending_oneshot :=
    bool_decide (cr_lifetime r = Oneshot) && bool_decide (cr_reported r = Some CActive)
    && negb (bool_decide (now = CActive)) in
  let state := if ending_oneshot then CWithdrawn else now in
  (set_reported (Some state),
   Some {| cv_realm := realm; cv_serial := cr_serial r; cv_state := state |}, ending_oneshot).

Fixpoint reconcile_loop (g : PresentationGates) (l : list (RealmId * CRecord)) (t : ConstraintTable)
    : list CVerdict * list RealmId * ConstraintTable :=
  match l with
  | [] => ([], [], t)
  | (realm, r) :: l =>
      let '(r, v, ending) := judge g realm r in
      let t := {| ct_records := <[realm := r]> (ct_records t);
                  repaint_owed := repaint_owed t || bool_decide (is_Some v) |} in
      let '(owed, done, t) := reconcile_loop g l t in
      (option_list v ++ owed, (if ending : bool then realm :: done else done), t)
  end.

Definition reconcile (g : PresentationGates) (t : ConstraintTable) : list CVerdict * ConstraintTable :=
  let '(owed, oneshot_done, t) := reconcile_loop g (in_order (ct_records t)) t in
  (owed, {| ct_records := fold_left (fun m realm => delete realm m) oneshot_done (ct_records t);
            repaint_owed := repaint_owed t |}).

(** [hides_human_sprite]. *)
Definition hides_human_sprite (t : ConstraintTable) (g : PresentationGates) : bool :=
  match pg_focused g with
  | None => false
  | Some realm =>
      match ct_records t !! realm with
      | None => false
      | Some r => bool_decide (cr_state r = CActive) && bool_decide (live_state g realm r = CActive)
      end
  end.

(* ------------------------------------------------------------------------ *)
(** ** Reconciliation *)

Lemma reconcile_loop_spec g l t :
  NoDup l.*1 ->
  let '(owed, done, t') := reconcile_loop g l t in
  owed = omap (fun kr => (judge g kr.1 kr.2).1.2) l
  /\ (forall k, k ∈ done <-> exists r, (k, r) ∈ l /\ (judge g k r).2 = true)
  /\ (forall k, k ∉ l.*1 -> ct_records t' !! k = ct_records t !! k)
  /\ (forall k r, (k, r) ∈ l -> ct_records t' !! k = Some (judge g k r).1.1).
Proof.
  revert t. induction l as [|[k0 r0] l IH]; intros t Hnd; simpl.
  - split; [done|]. split; [|split; [done|by intros ? ? ?%elem_of_nil]].
    intros k. split; [by intros ?%elem_of_nil|by intros (? & ?%elem_of_nil & _)].
  - apply NoDup_cons in Hnd as [Hni Hnd]. simpl in Hni.
    destruct (judge g k0 r0) as [[r' v] ending] eqn:Hj. set (t1 := Build_ConstraintTable _ _).
    specialize (IH t1 Hnd). destruct (reconcile_loop g l t1) as [[owed done] t'].
    destruct IH as (-> & Hdone & Hout & Hin). split; [by destruct v|]. split; [|split].
    + intros k. assert (k ∈ (if ending then k0 :: done else done) <-> (k = k0 /\ ending = true) \/ k ∈ done)
        as -> by (destruct ending; rewrite ?elem_of_cons; naive_solver).
      rewrite Hdone. setoid_rewrite elem_of_cons. split.
      * intros [[-> ->]|(r & Hr & He)]; [exists r0; rewrite Hj; auto|eauto].
      * intros (r & [[= -> ->]|Hr] & He); [left; by rewrite Hj in He|right; eauto].
    + intros k Hk. rewrite elem_of_cons in Hk. rewrite Hout by naive_solver. unfold t1. simpl.
      rewrite lookup_insert_ne; naive_solver.
    + intros k r [[= -> ->]|Hr]%elem_of_cons; [|by apply Hin].
      rewrite Hout by done. unfold t1. simpl. by rewrite lookup_insert_eq, Hj.
Qed.

Lemma delete_each_lookup {A} (ks : list RealmId) (m : gmap RealmId A) k :
  fold_left (fun m realm => delete realm m) ks m !! k = if decide (k ∈ ks) then None else m !! k.
Proof.
  revert m. induction ks as [|k0 ks IH]; intros m; simpl; [done|]. rewrite IH.
  destruct (decide (k ∈ ks)); [by rewrite decide_True by (by right)|].
  destruct (decide (k = k0)) as [->|Hne]; [by rewrite decide_True, lookup_delete_eq by (by left)|].
  rewrite lookup_delete_ne by done. rewrite decide_False; [done|]. by intros [?|?]%elem_of_cons.
Qed.

(** What reconciliation makes of each record, and the verdicts it owes. *)
Lemma reconcile_lookup g t k :
  ct_records (reconcile g t).2 !! k =
  r ← ct_records t !! k; if (judge g k r).2 then None else Some (judge g k r).1.1.
Proof.
  unfold reconcile. pose proof (reconcile_loop_spec g (in_order (ct_records t)) t (in_order_NoDup _)) as Hs.
  destruct (reconcile_loop g _ t) as [[owed done] t']. destruct Hs as (_ & Hdone & Hout & Hin). simpl.
  rewrite delete_each_lookup. destruct (ct_records t !! k) as [r|] eqn:Hk; simpl.
  - pose proof (proj2 (in_order_In (ct_records t) k r) Hk) as Hr. rewrite (Hin _ _ Hr).
    destruct (judge g k r).2 eqn:Hj.
    + rewrite decide_True; [done|]. apply Hdone. eauto.
    + rewrite decide_False; [done|]. intros (r' & Hr' & Hj')%Hdone.
      apply in_order_In in Hr'. congruence.
  - assert (k ∉ (in_order (ct_records t)).*1) as Hni.
    { intros ([k' r] & -> & Hr)%list_elem_of_fmap. apply in_order_In in Hr. simpl in Hk. congruence. }
    rewrite Hout by done. by case_decide.
Qed.

Lemma reconcile_owed g t v :
  v ∈ (reconcile g t).1 <-> exists r, ct_records t !! cv_realm v = Some r /\ (judge g (cv_realm v) r).1.2 = Some v.
Proof.
  unfold reconcile. pose proof (reconcile_loop_spec g (in_order (ct_records t)) t (in_order_NoDup _)) as Hs.
  destruct (reconcile_loop g _ t) as [[owed done] t']. destruct Hs as (-> & _). simpl.
  rewrite list_elem_of_omap. split.
  - intros ([k r] & Hin & Hj). apply in_order_In in Hin. simpl in *.
    assert (cv_realm v = k) as -> by (unfold judge in Hj; case_bool_decide; by simplify_eq/=). eauto.
  - intros (r & Hr & Hj). exists (cv_realm v, r). split; [by apply in_order_In|done].
Qed.

Lemma judge_realm g k r v : (judge g k r).1.2 = Some v -> cv_realm v = k /\ cv_serial v = cr_serial r.
Proof. unfold judge. case_bool_decide; intros; by simplify_eq/=. Qed.

Lemma reconcile_realms g t : NoDup (List.map cv_realm (reconcile g t).1).
Proof.
  unfold reconcile. pose proof (reconcile_loop_spec g (in_order (ct_records t)) t (in_order_NoDup _)) as Hs.
  destruct (reconcile_loop g _ t) as [[owed done] t']. destruct Hs as (-> & _). simpl.
  pose proof (in_order_NoDup (ct_records t)) as Hnd.
  induction (in_order (ct_records t)) as [|[k r] l IH]; simpl; [constructor|].
  apply NoDup_cons in Hnd as [Hni Hnd]. specialize (IH Hnd). simpl in Hni.
  destruct (judge g k r).1.2 as [v|] eqn:Hj; simpl; [|done]. constructor; [|done].
  rewrite (proj1 (judge_realm _ _ _ _ Hj)). intros Hin.
  apply list_elem_of_In, in_map_iff in Hin as (w & Hw & Hin).
  apply list_elem_of_In, list_elem_of_omap in Hin as ([k' r'] & Hkr & Hj').
  apply judge_realm in Hj' as [Hk' _]. simpl in Hk'. apply Hni, list_elem_of_fmap.
  exists (k', r'). split; [simpl; congruence|done].
Qed.

(* ------------------------------------------------------------------------ *)
(** ** What an app has been told *)

(** What the shim of a realm knows of its constraint: the serial in force, and
    the last verdict heard on it. *)
Definition Told := option (Z * option PointerConstraintStatus).
Definition told (t : ConstraintTable) (realm : RealmId) : Told :=
  (fun r => (cr_serial r, cr_reported r)) <$> ct_records t !! realm.

(** Hearing a verdict. *)
Definition hear (realm : RealmId) (x : Told) (v : CVerdict) : Told :=
  if negb (bool_decide (cv_realm v = realm)) then x else
  match cv_state v with
  | CWithdrawn | CSuperseded => None
  | CRefused => x
  | CInactive | CActive => Some (cv_serial v, Some (cv_state v))
  end.

(** When hearing it makes sense: it is about the serial in force, and news. *)
Definition news (x : Told) (v : CVerdict) : Prop :=
  match cv_state v with
  | CRefused => True
  | CWithdrawn | CSuperseded => exists last, x = Some (cv_serial v, last)
  | CInactive | CActive => exists last, x = Some (cv_serial v, last) /\ last <> Some (cv_state v)
  end.

Inductive ConstraintOp : Type :=
| CoAsk (realm : RealmId) (ask : PointerConstraintAsk)
| CoWithdraw (realm : RealmId)
| CoWithdrawAll
| CoForget (realm : RealmId)
| CoReconcile (g : PresentationGates)
| CoRepaint.

Definition constraint_step (t : ConstraintTable) (op : ConstraintOp) : list CVerdict * ConstraintTable :=
  match op with
  | CoAsk realm ask => c_ask t realm ask
  | CoWithdraw realm => let '(v, t) := c_withdraw t realm in (option_list v, t)
  | CoWithdrawAll => withdraw_all t
  | CoForget realm => ([], (c_forget t realm).2)
  | CoReconcile g => reconcile g t
  | CoRepaint => ([], (take_repaint_owed t).2)
  end.
Definition constraint_run (ops : list ConstraintOp) : ConstraintTable :=
  fold_left (fun t op => (constraint_step t op).2) ops constraints_new.

(** An accepted ask is in force with nothing heard; a realm forgotten is gone
    with its shim. *)
Definition settle (realm : RealmId) (op : ConstraintOp) (x : Told) : Told :=
  match op with
  | CoAsk r ask =>
      if bool_decide (r = realm) && negb (bool_decide (ask_kind ask = CNone))
         && bool_decide (is_Some (ask_surface ask))
      then Some (ask_serial ask, None) else x
  | CoForget r => if bool_decide (r = realm) then None else x
  | _ => x
  end.

(** A record is active exactly when its app was last told so. *)
Definition record_wf (r : CRecord) : Prop :=
  (cr_state r = CActive <-> cr_reported r = Some CActive)
  /\ cr_reported r <> Some CWithdrawn /\ cr_reported r <> Some CSuperseded
  /\ cr_reported r <> Some CRefused.
Definition constraints_wf (t : ConstraintTable) : Prop := map_Forall (fun _ => record_wf) (ct_records t).

Lemma live_state_cases g k r : live_state g k r = CActive \/ live_state g k r = CInactive.
Proof. unfold live_state. repeat case_match; auto. Qed.

Lemma judge_wf g k r : record_wf r -> (judge g k r).2 = false -> record_wf (judge g k r).1.1.
Proof.
  unfold judge, record_wf. intros Hr. destruct (live_state_cases g k r) as [-> | ->];
    repeat case_bool_decide; simpl; intros; naive_solver.
Qed.

Lemma constraint_step_wf t op : constraints_wf t -> constraints_wf (constraint_step t op).2.
Proof.
  intros Hwf. destruct op as [realm ask|realm| |realm|g|]; simpl.
  - unfold c_ask, c_withdraw. case_bool_decide.
    + destruct (ct_records t !! realm); [|done]. by apply map_Forall_delete.
    + destruct (ask_surface ask); [|done]. simpl. by apply map_Forall_insert_2.
  - unfold c_withdraw. destruct (ct_records t !! realm); [|done]. by apply map_Forall_delete.
  - apply map_Forall_empty.
  - unfold c_forget. destruct (ct_records t !! realm); [|done]. by apply map_Forall_delete.
  - intros k r Hk. rewrite reconcile_lookup in Hk. apply bind_Some in Hk as (r0 & Hr0 & Hk).
    destruct (judge g k r0).2 eqn:Hj; [done|]. injection Hk as <-. apply judge_wf; [by eapply Hwf|done].
  - done.
Qed.

Lemma constraint_run_wf ops : constraints_wf (constraint_run ops).
Proof.
  unfold constraint_run. assert (constraints_wf constraints_new) as H by apply map_Forall_empty.
  revert H. generalize constraints_new. induction ops as [|op ops IH]; intros t Ht; simpl; [done|].
  apply IH. by apply constraint_step_wf.
Qed.

(** The verdicts of one step about one realm: none, or one that is news. *)
Definition verdicts_for (realm : RealmId) (owed : list CVerdict) : list CVerdict :=
  List.filter (fun v => bool_decide (cv_realm v = realm)) owed.

Lemma verdicts_for_one realm owed :
  NoDup (List.map cv_realm owed) ->
  verdicts_for realm owed = [] \/ exists v, verdicts_for realm owed = [v] /\ v ∈ owed /\ cv_realm v = realm.
Proof.
  induction owed as [|v owed IH]; simpl; intros Hnd; [by left|].
  apply NoDup_cons in Hnd as [Hni Hnd]. case_bool_decide as Hv.
  - right. exists v. split; [|split; [by left|done]].
    destruct (IH Hnd) as [->|(w & _ & Hw & Hr)]; [done|].
    exfalso. apply Hni. rewrite Hv, <-Hr. apply list_elem_of_In, in_map. by apply list_elem_of_In.
  - destruct (IH Hnd) as [->|(w & -> & Hw & Hr)]; [by left|right]. exists w. split; [done|]. split; [by right|done].
Qed.

Lemma hear_others realm x owed :
  fold_left (hear realm) owed x = fold_left (hear realm) (verdicts_for realm owed) x.
Proof.
  revert x. induction owed as [|v owed IH]; intros x; simpl; [done|]. rewrite IH. unfold hear at 2.
  case_bool_decide as Hv; simpl; [|done]. unfold hear. by rewrite bool_decide_true.
Qed.

(** One step, for one realm. *)
Definition tells (realm : RealmId) (t : ConstraintTable) (op : ConstraintOp) : Prop :=
  let '(owed, t') := constraint_step t op in
  (verdicts_for realm owed = []
   \/ exists v, verdicts_for realm owed = [v] /\ news (told t realm) v)
  /\ told t' realm = settle realm op (fold_left (hear realm) owed (told t realm)).

Lemma withdraw_tells realm r0 t :
  let '(v, t') := c_withdraw t r0 in
  (verdicts_for realm (option_list v) = []
   \/ exists w, verdicts_for realm (option_list v) = [w] /\ news (told t realm) w)
  /\ told t' realm = fold_left (hear realm) (option_list v) (told t realm).
Proof.
  unfold c_withdraw, told. destruct (ct_records t !! r0) as [r|] eqn:Hr; simpl; [|by split; [left|]].
  unfold hear. simpl. case_bool_decide as Heq; simpl.
  - subst r0. rewrite Hr, lookup_delete_eq. split; [|done]. right. eexists. split; [done|].
    unfold news. simpl. by eexists.
  - rewrite lookup_delete_ne by done. by split; [left|].
Qed.

Lemma ask_tells realm r0 ask t : tells realm t (CoAsk r0 ask).
Proof.
  unfold tells. simpl. unfold c_ask. case_bool_decide as Hk.
  - pose proof (withdraw_tells realm r0 t) as Hw. destruct (c_withdraw t r0) as [v t'].
    by rewrite andb_false_r.
  - rewrite andb_true_r. destruct (ask_surface ask) as [sf|]; simpl.
    + rewrite andb_true_r. unfold told. simpl. case_bool_decide as Heq.
      * subst r0. rewrite lookup_insert_eq. simpl.
        destruct (ct_records t !! realm) as [r|] eqn:Hr; simpl; (split; [|done]); [|by left].
        rewrite bool_decide_true by done. right. eexists. split; [done|]. unfold news. simpl. by eexists.
      * rewrite lookup_insert_ne by done. destruct (ct_records t !! r0) as [r|]; simpl; [|by split; [left|]].
        unfold hear. simpl. rewrite bool_decide_false by done. by split; [left|].
    + rewrite andb_false_r. unfold hear. simpl. case_bool_decide; (split; [|done]); [right|by left].
      by eexists.
Qed.

Lemma withdraw_all_tells realm t : tells realm t CoWithdrawAll.
Proof.
  unfold tells. simpl. unfold told. cbn [ct_records]. rewrite lookup_empty, hear_others. simpl.
  set (owed := List.map _ _).
  assert (NoDup (List.map cv_realm owed)) as Hnd
    by (unfold owed; rewrite List.map_map; exact (in_order_NoDup (ct_records t))).
  destruct (verdicts_for_one realm owed Hnd) as [Hno|(v & Hone & Hv & Hr)].
  - rewrite Hno. split; [by left|]. simpl. destruct (ct_records t !! realm) as [r|] eqn:Hr; [exfalso|done].
    assert (Build_CVerdict realm (cr_serial r) CWithdrawn ∈ owed) as Hin.
    { apply list_elem_of_In, in_map_iff. exists (realm, r). split; [done|].
      by apply list_elem_of_In, in_order_In. }
    apply list_elem_of_In in Hin. assert (In (Build_CVerdict realm (cr_serial r) CWithdrawn) (verdicts_for realm owed)) as Hf
      by (apply List.filter_In; split; [done|by rewrite bool_decide_true]). by rewrite Hno in Hf.
  - rewrite Hone. apply list_elem_of_In, in_map_iff in Hv as ([k r] & <- & Hv). simpl in Hr. subst k.
    apply list_elem_of_In, in_order_In in Hv. rewrite Hv. simpl. unfold hear. simpl.
    rewrite bool_decide_true by done. split; [|done]. right. eexists. split; [done|].
    unfold news. simpl. by eexists.
Qed.

Lemma reconcile_tells realm g t : constraints_wf t -> tells realm t (CoReconcile g).
Proof.
  intros Hwf. unfold tells. simpl. pose proof (reconcile_lookup g t realm) as Hl.
  pose proof (reconcile_owed g t) as Howed. pose proof (reconcile_realms g t) as Hnd.
  destruct (reconcile g t) as [owed t']. simpl in *. rewrite hear_others. unfold told. rewrite Hl.
  destruct (verdicts_for_one realm owed Hnd) as [Hno|(v & Hone & Hv & Hr)].
  - rewrite Hno. split; [by left|]. destruct (ct_records t !! realm) as [r|] eqn:Hr; simpl; [|done].
    destruct (judge g realm r).1.2 as [v|] eqn:Hj.
    + pose proof (judge_realm _ _ _ _ Hj) as [Hvr _].
      assert (v ∈ owed) as Hin by (apply Howed; rewrite Hvr; eauto).
      assert (In v (verdicts_for realm owed)) as Hf
        by (apply List.filter_In; rewrite bool_decide_true by done; by apply list_elem_of_In in Hin).
      by rewrite Hno in Hf.
    + unfold judge in *. by case_bool_decide; simplify_eq/=.
  - rewrite Hone. apply Howed in Hv as (r & Hrec & Hj). rewrite Hr in Hrec, Hj. rewrite Hrec. simpl.
    unfold hear. rewrite bool_decide_true by done. simpl. specialize (Hwf _ _ Hrec) as (_ & _).
    unfold judge in *. case_bool_decide as Hrep; simplify_eq/=.
    pose proof (f_equal cv_state Hj) as Hst. pose proof (f_equal cv_serial Hj) as Hser.
    simpl in Hst, Hser. clear Hj Howed Hl.
    destruct (bool_decide (cr_lifetime r = Oneshot) && _ && _) eqn:He; simpl;
      [|destruct (live_state_cases g (cv_realm v) r) as [Hs|Hs]; rewrite Hs in *];
      rewrite <-Hst, <-?Hser; (split; [|done]); right; exists v; (split; [done|]); unfold news;
      rewrite <-Hst, <-Hser; by eexists.
Qed.

Lemma constraint_tells realm t op : constraints_wf t -> tells realm t op.
Proof.
  intros Hwf. destruct op as [r ask|r| |r|g|].
  - apply ask_tells.
  - unfold tells. simpl. pose proof (withdraw_tells realm r t) as Hw. by destruct (c_withdraw t r).
  - apply withdraw_all_tells.
  - unfold tells. simpl. split; [by left|]. unfold c_forget, told. case_bool_decide as Heq.
    + subst r. destruct (ct_records t !! realm) eqn:Hr; simpl; [by rewrite lookup_delete_eq|by rewrite Hr].
    + destruct (ct_records t !! r); simpl; [by rewrite lookup_delete_ne|done].
  - by apply reconcile_tells.
  - by split; [left|].
Qed.

(* ------------------------------------------------------------------------ *)
(** ** Properties *)

(** An app knows exactly where its pointer lock stands. After any history of
    asks, withdrawals, deaths and reconciliations, a further operation owes a
    realm at most one verdict; that verdict is about the ask in force and is
    news; and what the realm's shim knows by hearing it is exactly what the
    table holds. The table counts a constraint as active exactly when that is
    the last thing its app was told; and after a reconciliation only the focused
    realm can be active, on a lit, active output with no overlay over it and the
    human's pointer inside its surface. *)
Theorem constraint_told_exact (ops : list ConstraintOp) (op : ConstraintOp) (realm : RealmId) :
  let t := constraint_run ops in
  let '(owed, t') := constraint_step t op in
  (verdicts_for realm owed = []
   \/ exists v, verdicts_for realm owed = [v] /\ news (told t realm) v)
  /\ told t' realm = settle realm op (fold_left (hear realm) owed (told t realm))
  /\ (is_active t' realm = true <-> exists serial, told t' realm = Some (serial, Some CActive))
  /\ match op with
     | CoReconcile g =>
         is_active t' realm = true ->
         pg_focused g = Some realm /\ og_active (pg_output g) = true /\ dark (pg_output g) = false
         /\ overlay_up (pg_output g) = false
         /\ exists surface pointer, pg_surface g = Some surface /\ pg_pointer g = Some pointer
              /\ inside (surface_local pointer (pg_view g) surface) surface = true
     | _ => True
     end.
Proof.
  intros t. pose proof (constraint_run_wf ops) as Hwf. fold t in Hwf.
  pose proof (constraint_tells realm t op Hwf) as Htells. unfold tells in Htells.
  pose proof (constraint_step_wf t op Hwf) as Hwf'.
  assert (forall t2, constraints_wf t2 -> is_active t2 realm = true <->
    exists serial, told t2 realm = Some (serial, Some CActive)) as Hact.
  { intros t2 H2. unfold is_active, told. destruct (ct_records t2 !! realm) as [r|] eqn:Hr; simpl;
      [|split; [done|by intros [? ?]]].
    destruct (H2 _ _ Hr) as [Hiff _]. rewrite bool_decide_eq_true, Hiff. split; [intros ->; eauto|].
    intros [serial Hs]. by injection Hs. }
  destruct (constraint_step t op) as [owed t'] eqn:Hstep. simpl in Hwf'.
  destruct Htells as [Hone Htold]. split; [done|]. split; [done|]. split; [by apply Hact|].
  destruct op as [| | | |g|]; try done. simpl in Hstep. intros Ha.
  unfold is_active in Ha. assert (t' = (reconcile g t).2) as -> by (by rewrite Hstep).
  rewrite reconcile_lookup in Ha. destruct (ct_records t !! realm) as [r|]; simpl in Ha; [|done].
  destruct (judge g realm r).2; [done|]. simpl in Ha. apply bool_decide_eq_true in Ha.
  assert (live_state g realm r = CActive) as Hl by (unfold judge in Ha; by case_bool_decide).
  unfold live_state in Hl. repeat case_match; try done; unbool.
  repeat match goal with H : ?b = false |- _ => rewrite ?H; clear H end.
  eauto 20.
Qed.

(** A lock is asked for, granted as the pointer is over the surface, and ended by
    the focus moving away. *)
Example constraint_story :
  let g f := {| pg_focused := Some f; pg_output := {| overlay_up := false; og_active := true; dark := false |};
                pg_surface := Some (100, 100); pg_view := {| output := (200, 200); strip_h := 0 |};
                pg_pointer := Some (f64_of_int 100, f64_of_int 100) |} in
  let ask := {| ask_serial := 7; ask_surface := Some 3; ask_kind := CLock; ask_lifetime := Oneshot;
                ask_region := {| rg_x := 0; rg_y := 0; rg_width := 0; rg_height := 0 |} |} in
  let t1 := constraint_run [CoAsk (str "a") ask; CoReconcile (g (str "a"))] in
  is_active t1 (str "a") = true
  /\ (constraint_step t1 (CoReconcile (g (str "b")))).1
     = [{| cv_realm := str "a"; cv_serial := 7; cv_state := CWithdrawn |}].
Proof. by vm_compute. Qed.
