(* ===== verification/Router.v ===== *)
(** * The input router

    [RealmSeat] and [InputRouter] of [crates/vitrin-core/src/input/mod.rs]: one
    funnel for the human's events, which follow the bound realm, and for an
    agent's, which follow its grant. The router notes presence, asks the hook,
    reconciles what is held and turns an event into a delivery to the realm's
    shim. *)

From S2P Require Import Prelude Text Grants Input Geometry Constraint.

(* ------------------------------------------------------------------------ *)
(** ** Hooks *)

(** [PreemptionHook]: what sees every event and may keep it from the realm. *)
Class PreemptionHook (H : Type) : Type := {
  hk_observe : H -> SeatInput -> H;
  hk_gate : H -> SeatInput -> Gate * H }.

(** [NoopHook]. *)
Definition noop_hook : PreemptionHook unit :=
  {| hk_observe := fun h _ => h; hk_gate := fun h _ => (Deliver, h) |}.
#[export] Existing Instance noop_hook.

(** [ConsumingGate] and [GateOnlyHook]. *)
Class ConsumingGate (G : Type) : Type := { judge_input : G -> SeatInput -> Gate * G }.
Definition gate_only_hook {G H} `{ConsumingGate G} `{PreemptionHook H} : PreemptionHook (G * H) :=
  {| hk_observe := fun h input => (h.1, hk_observe h.2 input);
     hk_gate := fun h input =>
       match judge_input h.1 input with
       | (Consume, g) => (Consume, (g, h.2))
       | (Deliver, g) => let '(r, i) := hk_gate h.2 input in (r, (g, i))
       end |}.
#[export] Existing Instance gate_only_hook.

(* ------------------------------------------------------------------------ *)
(** ** A seat *)

Record HeldKey : Type := { hd_pairing : KeyPairing; hd_keysym : Z; hd_origin : Origin }.
Record InFlightGesture : Type := { ig_kind : GestureKind; ig_origin : Origin }.

Record RealmSeat : Type := {
  st_pointer : option (f64 * f64);
  st_human_pointer : option (f64 * f64);
  st_agent_pointer : option (f64 * f64);
  st_pressed : list (Z * Origin);
  st_pressed_keys : list HeldKey;
  st_gesture : option InFlightGesture }.
Definition seat_default : RealmSeat :=
  {| st_pointer := None; st_human_pointer := None; st_agent_pointer := None;
     st_pressed := []; st_pressed_keys := []; st_gesture := None |}.

#[export] Instance GestureKind_eq_dec : EqDecision GestureKind.
Proof. solve_decision. Defined.

Definition set_pressed (l : list (Z * Origin)) (s : RealmSeat) : RealmSeat :=
  {| st_pointer := st_pointer s; st_human_pointer := st_human_pointer s;
     st_agent_pointer := st_agent_pointer s; st_pressed := l;
     st_pressed_keys := st_pressed_keys s; st_gesture := st_gesture s |}.
Definition set_pressed_keys (l : list HeldKey) (s : RealmSeat) : RealmSeat :=
  {| st_pointer := st_pointer s; st_human_pointer := st_human_pointer s;
     st_agent_pointer := st_agent_pointer s; st_pressed := st_pressed s;
     st_pressed_keys := l; st_gesture := st_gesture s |}.
Definition set_gesture (g : option InFlightGesture) (s : RealmSeat) : RealmSeat :=
  {| st_pointer := st_pointer s; st_human_pointer := st_human_pointer s;
     st_agent_pointer := st_agent_pointer s; st_pressed := st_pressed s;
     st_pressed_keys := st_pressed_keys s; st_gesture := g |}.
(** The pointer, and the last point of the event's origin. *)
Definition set_pointer (o : Origin) (p : f64 * f64) (s : RealmSeat) : RealmSeat :=
  {| st_pointer := Some p;
     st_human_pointer := match o with Physical => Some p | Emulated => st_human_pointer s end;
     st_agent_pointer := match o with Emulated => Some p | Physical => st_agent_pointer s end;
     st_pressed := st_pressed s; st_pressed_keys := st_pressed_keys s; st_gesture := st_gesture s |}.

(** [position] and [remove]: the first element that satisfies a test. *)
Fixpoint remove_where {A} (f : A -> bool) (l : list A) : option (A * list A) :=
  match l with
  | [] => None
  | x :: l =>
      if f x then Some (x, l)
      else match remove_where f l with Some (y, l) => Some (y, x :: l) | None => None end
  end.

Definition release_pressed (button : Z) (s : RealmSeat) : bool * RealmSeat :=
  match remove_where (fun b => b.1 =? button) (st_pressed s) with
  | Some (_, l) => (true, set_pressed l s)
  | None => (false, s)
  end.
Definition release_pressed_key (p : KeyPairing) (s : RealmSeat) : option Z * RealmSeat :=
  match remove_where (fun e => bool_decide (hd_pairing e = p)) (st_pressed_keys s) with
  | Some (e, l) => (Some (hd_keysym e), set_pressed_keys l s)
  | None => (None, s)
  end.

Definition pointer_over_surface (s : RealmSeat) (view : ViewGeometry) (surface : option (Z * Z)) : bool :=
  match st_pointer s, surface with
  | Some pointer, Some surface => inside (surface_local pointer view surface) surface
  | _, _ => false
  end.

(* ------------------------------------------------------------------------ *)
(** ** Deliveries *)

Inductive SeatDeliveryKind : Type :=
| DMotion (x y : Fixed)
| DButton (button : Z) (state : ButtonState)
| DScroll (axis : Axis) (value120 : Z)
| DKey (keysym : Z) (state : KeyState)
| DText (text : Str)
| DRelativeMotion (dx dy dx_unaccel dy_unaccel : Fixed)
| DGestureBegin (kind : GestureKind) (fingers : Z)
| DGestureSwipeUpdate (dx dy : Fixed)
| DGesturePinchUpdate (dx dy scale rotation : Fixed)
| DGestureEnd (kind : GestureKind) (state : GestureState).
Record SeatDelivery : Type := { sd_origin : Origin; sd_kind : SeatDeliveryKind }.

(** What a consumed event still does to the seat. *)
Definition reconcile_consumed (kind : SeatInputKind) (s : RealmSeat) : RealmSeat :=
  match kind with
  | Button button BReleased => (release_pressed button s).2
  | Key source keysym KReleased => (release_pressed_key (pairing source keysym) s).2
  | GestureEnd _ _ => set_gesture None s
  | _ => s
  end.

(** The [match] on the event that ends [route_into]. *)
Definition deliver_kind (origin : Origin) (kind : SeatInputKind) (frozen : bool) (view : ViewGeometry)
    (surface : option (Z * Z)) (s : RealmSeat) : option SeatDeliveryKind * RealmSeat :=
  let over := negb (bool_decide (st_pressed s = [])) || pointer_over_surface s view surface in
  match kind with
  | Key source keysym KPressed =>
      let e := {| hd_pairing := pairing source keysym; hd_keysym := keysym; hd_origin := origin |} in
      (Some (DKey keysym KPressed), set_pressed_keys (st_pressed_keys s ++ [e]) s)
  | Key source keysym KReleased =>
      let '(pressed, s) := release_pressed_key (pairing source keysym) s in
      ((fun k => DKey k KReleased) <$> pressed, s)
  | TextInput text => (Some (DText text), s)
  | Motion x y =>
      if frozen then (None, s) else
      match surface with
      | None => (None, s)
      | Some surface =>
          let p := surface_local (x, y) view surface in
          if bool_decide (st_pressed s = []) && negb (inside p surface) then (None, s)
          else (Some (DMotion (from_f64 p.1) (from_f64 p.2)), s)
      end
  | Button button BPressed =>
      if negb over then (None, s)
      else (Some (DButton button BPressed), set_pressed (st_pressed s ++ [(button, origin)]) s)
  | Button button BReleased =>
      let '(held, s) := release_pressed button s in
      if held : bool then (Some (DButton button BReleased), s) else (None, s)
  | Scroll axis value120 => if negb over then (None, s) else (Some (DScroll axis value120), s)
  | RelativeMotion dx dy ux uy =>
      if negb over then (None, s)
      else (Some (DRelativeMotion (from_f64 dx) (from_f64 dy) (from_f64 ux) (from_f64 uy)), s)
  | GestureBegin k fingers =>
      if negb over then (None, s) else
      match st_gesture s with
      | Some _ => (None, s)
      | None => (Some (DGestureBegin k fingers),
                 set_gesture (Some {| ig_kind := k; ig_origin := origin |}) s)
      end
  | GestureSwipeUpdate dx dy =>
      if bool_decide (ig_kind <$> st_gesture s = Some Swipe)
      then (Some (DGestureSwipeUpdate (from_f64 dx) (from_f64 dy)), s) else (None, s)
  | GesturePinchUpdate dx dy scale rotation =>
      if bool_decide (ig_kind <$> st_gesture s = Some Pinch)
      then (Some (DGesturePinchUpdate (from_f64 dx) (from_f64 dy) (from_f64 scale) (from_f64 rotation)), s)
      else (None, s)
  | GestureEnd _ state =>
      match st_gesture s with
      | None => (None, s)
      | Some live => (Some (DGestureEnd (ig_kind live) state), set_gesture None s)
      end
  end.

(* ------------------------------------------------------------------------ *)
(** ** The router *)

Record InputRouter (H : Type) : Type := {
  rt_hook : H;
  rt_presence : PresenceMap;
  rt_now : Instant;
  rt_bound : option RealmId;
  rt_seats : gmap RealmId RealmSeat;
  rt_constraints : ConstraintTable }.
Arguments rt_hook {H} _.
Arguments rt_presence {H} _.
Arguments rt_now {H} _.
Arguments rt_bound {H} _.
Arguments rt_seats {H} _.
Arguments rt_constraints {H} _.
Arguments Build_InputRouter {H} _ _ _ _ _ _.

Section router.
Context {H : Type} `{!PreemptionHook H}.
Implicit Types (r : InputRouter H).

Definition router_new (presence : PresenceMap) (now : Instant) (hook : H) : InputRouter H :=
  Build_InputRouter hook presence now None ∅ constraints_new.

Definition with_seats (m : gmap RealmId RealmSeat) r : InputRouter H :=
  Build_InputRouter (rt_hook r) (rt_presence r) (rt_now r) (rt_bound r) m (rt_constraints r).
Definition with_bound (b : option RealmId) r : InputRouter H :=
  Build_InputRouter (rt_hook r) (rt_presence r) (rt_now r) b (rt_seats r) (rt_constraints r).
Definition with_presence (p : PresenceMap) r : InputRouter H :=
  Build_InputRouter (rt_hook r) p (rt_now r) (rt_bound r) (rt_seats r) (rt_constraints r).
Definition with_hook (h : H) r : InputRouter H :=
  Build_InputRouter h (rt_presence r) (rt_now r) (rt_bound r) (rt_seats r) (rt_constraints r).
Definition with_constraints (c : ConstraintTable) r : InputRouter H :=
  Build_InputRouter (rt_hook r) (rt_presence r) (rt_now r) (rt_bound r) (rt_seats r) c.

Definition observe_at (now : Instant) r : InputRouter H :=
  Build_InputRouter (rt_hook r) (rt_presence r) now (rt_bound r) (rt_seats r) (rt_constraints r).

(** [seat_mut], and a write through it. *)
Definition seat_of r (realm : RealmId) : RealmSeat := default seat_default (rt_seats r !! realm).
Definition put_seat (realm : RealmId) (s : RealmSeat) r : InputRouter H :=
  with_seats (<[realm := s]> (rt_seats r)) r.

(** A motion the human makes while the realm's constraint is active. *)
Definition is_frozen (realm : option RealmId) (input : SeatInput) r : bool :=
  bool_decide (si_origin input = Physical)
  && match si_kind input with Motion _ _ => true | _ => false end
  && is_some_and realm (is_active (rt_constraints r)).

(** A motion moves the pointer before anything else sees it. *)
Definition pointed (realm : option RealmId) (input : SeatInput) r : InputRouter H :=
  match realm, is_frozen realm input r, si_kind input with
  | Some realm, false, Motion x y =>
      put_seat realm (set_pointer (si_origin input) (x, y) (seat_of r realm)) r
  | _, _, _ => r
  end.

(** [route_into]. *)
Definition route_into (realm : option RealmId) (input : SeatInput) (view : ViewGeometry)
    (surface : option (Z * Z)) r : option SeatDelivery * InputRouter H :=
  let frozen := is_frozen realm input r in
  let r := pointed realm input r in
  let r := with_presence (map_note (rt_presence r) realm (si_origin input) (si_kind input) (rt_now r)) r in
  let r := with_hook (hk_observe (rt_hook r) input) r in
  let '(gate, h) := hk_gate (rt_hook r) input in
  let r := with_hook h r in
  match gate with
  | Consume =>
      (None, match realm with
             | Some realm =>
                 match rt_seats r !! realm with
                 | Some s => put_seat realm (reconcile_consumed (si_kind input) s) r
                 | None => r
                 end
             | None => r
             end)
  | Deliver =>
      match realm with
      | None => (None, r)
      | Some realm =>
          let '(d, s) := deliver_kind (si_origin input) (si_kind input) frozen view surface (seat_of r realm) in
          ((fun k => {| sd_origin := si_origin input; sd_kind := k |}) <$> d, put_seat realm s r)
      end
  end.

Definition route_physical (input : SeatInput) (view : ViewGeometry) (surface : option (Z * Z)) r
    : option SeatDelivery * InputRouter H := route_into (rt_bound r) input view surface r.
Definition route_emulated (realm : RealmId) (input : SeatInput) (view : ViewGeometry)
    (surface : option (Z * Z)) r : option SeatDelivery * InputRouter H :=
  route_into (Some realm) input view surface r.

(** *** Losing the seat *)

Definition release_physical_keys (realm : RealmId) r : list SeatDelivery * InputRouter H :=
  match rt_seats r !! realm with
  | None => ([], r)
  | Some s =>
      let physical e := bool_decide (hd_origin e = Physical) in
      (List.map (fun e => {| sd_origin := hd_origin e; sd_kind := DKey (hd_keysym e) KReleased |})
         (List.filter physical (st_pressed_keys s)),
       put_seat realm (set_pressed_keys (List.filter (fun e => negb (physical e)) (st_pressed_keys s)) s) r)
  end.

Definition release_physical_buttons (realm : RealmId) r : list SeatDelivery * InputRouter H :=
  match rt_seats r !! realm with
  | None => ([], r)
  | Some s =>
      let physical b := bool_decide ((b : Z * Origin).2 = Physical) in
      (List.map (fun b => {| sd_origin := b.2; sd_kind := DButton b.1 BReleased |})
         (List.filter physical (st_pressed s)),
       put_seat realm (set_pressed (List.filter (fun b => negb (physical b)) (st_pressed s)) s) r)
  end.

Definition end_physical_gesture (realm : RealmId) r : list SeatDelivery * InputRouter H :=
  match rt_seats r !! realm with
  | None => ([], r)
  | Some s =>
      match st_gesture s with
      | None => ([], r)
      | Some live =>
          if negb (bool_decide (ig_origin live = Physical)) then ([], r) else
          ([{| sd_origin := ig_origin live; sd_kind := DGestureEnd (ig_kind live) Cancelled |}],
           put_seat realm (set_gesture None s) r)
      end
  end.

Definition forget_presence_of (realm : RealmId) r : InputRouter H :=
  with_presence (forget (rt_presence r) realm) r.

Definition bind_to (realm : RealmId) r : option (RealmId * list SeatDelivery) * InputRouter H :=
  if bool_decide (rt_bound r = Some realm) then (None, r) else
  let bound := rt_bound r in
  let r := with_bound (Some realm) r in
  match bound with
  | None => (None, r)
  | Some losing =>
      let '(keys, r) := release_physical_keys losing r in
      let '(buttons, r) := release_physical_buttons losing r in
      let '(gesture, r) := end_physical_gesture losing r in
      (Some (losing, keys ++ buttons ++ gesture), forget_presence_of losing r)
  end.

Definition reset_for (realm : RealmId) r : bool * InputRouter H :=
  let had_seat := bool_decide (is_Some (rt_seats r !! realm)) in
  let r := with_seats (delete realm (rt_seats r)) r in
  let was_bound := bool_decide (rt_bound r = Some realm) in
  let r := if was_bound then with_bound None r else r in
  let r := forget_presence_of realm r in
  let '(had_constraint, c) := c_forget (rt_constraints r) realm in
  (had_seat || was_bound || had_constraint, with_constraints c r).

Definition agent_pointer (realm : RealmId) r : option (f64 * f64) :=
  s ← rt_seats r !! realm; st_agent_pointer s.
Definition human_pointer (realm : RealmId) r : option (f64 * f64) :=
  s ← rt_seats r !! realm; st_human_pointer s.
End router.

(* ------------------------------------------------------------------------ *)
(** ** What an app believes is held *)

(** The keys and buttons down and the gesture under way, as the deliveries to a
    shim tell it. *)
Record AppView : Type := {
  av_keys : list Z;
  av_buttons : list Z;
  av_gesture : option GestureKind }.
Definition view_empty : AppView := {| av_keys := []; av_buttons := []; av_gesture := None |}.

Definition app_hear (v : AppView) (d : SeatDeliveryKind) : AppView :=
  match d with
  | DKey k KPressed => {| av_keys := av_keys v ++ [k]; av_buttons := av_buttons v; av_gesture := av_gesture v |}
  | DKey k KReleased =>
      {| av_keys := remove_first k (av_keys v); av_buttons := av_buttons v; av_gesture := av_gesture v |}
  | DButton b BPressed => {| av_keys := av_keys v; av_buttons := av_buttons v ++ [b]; av_gesture := av_gesture v |}
  | DButton b BReleased =>
      {| av_keys := av_keys v; av_buttons := remove_first b (av_buttons v); av_gesture := av_gesture v |}
  | DGestureBegin k _ => {| av_keys := av_keys v; av_buttons := av_buttons v; av_gesture := Some k |}
  | DGestureEnd _ _ => {| av_keys := av_keys v; av_buttons := av_buttons v; av_gesture := None |}
  | _ => v
  end.

(** A delivery that ends or continues something is about something begun. *)
Definition paired (v : AppView) (d : SeatDeliveryKind) : Prop :=
  match d with
  | DKey k KReleased => k ∈ av_keys v
  | DButton b BReleased => b ∈ av_buttons v
  | DGestureSwipeUpdate _ _ => av_gesture v = Some Swipe
  | DGesturePinchUpdate _ _ _ _ => av_gesture v = Some Pinch
  | DGestureEnd k _ => av_gesture v = Some k
  | _ => True
  end.
Fixpoint all_paired (v : AppView) (ds : list SeatDeliveryKind) : Prop :=
  match ds with [] => True | d :: ds => paired v d /\ all_paired (app_hear v d) ds end.

(** The seat against the view: everything the seat holds, the app holds; exactly
    so when [exact] is set. *)
Definition holds (exact : bool) (seat app : list Z) : Prop :=
  if exact then seat ≡ₚ app else seat ⊆+ app.
Record tracks (exact : bool) (s : RealmSeat) (v : AppView) : Prop := {
  tk_keys : holds exact (List.map hd_keysym (st_pressed_keys s)) (av_keys v);
  tk_buttons : holds exact (List.map fst (st_pressed s)) (av_buttons v);
  tk_gesture : if exact then av_gesture v = ig_kind <$> st_gesture s
               else forall g, st_gesture s = Some g -> av_gesture v = Some (ig_kind g) }.

Lemma holds_press b l m x : holds b l m -> holds b (l ++ [x]) (m ++ [x]).
Proof. unfold holds. destruct b; intros Hl; [by rewrite Hl|by apply submseteq_app]. Qed.

Lemma holds_release b l l' m x :
  holds b l m -> l ≡ₚ x :: l' -> x ∈ m /\ holds b l' (remove_first x m).
Proof.
  intros Hl Hp. assert (x ∈ m) as Hin.
  { unfold holds in Hl. destruct b; [rewrite <-Hl|eapply elem_of_submseteq; [|exact Hl]];
      rewrite Hp; by left. }
  split; [done|]. assert (m ≡ₚ x :: remove_first x m) as Hm.
  { clear -Hin. induction m as [|y m IH]; [by apply elem_of_nil in Hin|]. simpl.
    destruct (Z.eqb_spec y x) as [->|Hne]; [done|]. apply elem_of_cons in Hin as [?|Hin]; [congruence|].
    rewrite (IH Hin) at 1. constructor. }
  revert Hm. generalize (remove_first x m). intros m' Hm. unfold holds in *. destruct b.
  - apply (Permutation_cons_inv (a := x)). by rewrite <-Hp, <-Hm.
  - rewrite Hp, Hm in Hl. apply submseteq_cons_l in Hl as (k & Hk & Hs).
    apply Permutation_cons_inv in Hk. by rewrite Hk.
Qed.

Lemma holds_lose l l' m x : holds false l m -> l ≡ₚ x :: l' -> holds false l' m.
Proof.
  unfold holds. intros Hl Hp. rewrite Hp in Hl. etransitivity; [|exact Hl]. apply submseteq_cons. done.
Qed.

Lemma remove_where_perm {A} (f : A -> bool) l x l' :
  remove_where f l = Some (x, l') -> f x = true /\ l ≡ₚ x :: l'.
Proof.
  revert l'. induction l as [|y l IH]; intros l'; simpl; [done|].
  destruct (f y) eqn:Hf; [intros [= <- <-]; done|].
  destruct (remove_where f l) as [[z l0]|]; [|done]. intros [= <- <-].
  destruct (IH l0 eq_refl) as [Hx Hp]. split; [done|]. rewrite Hp. constructor.
Qed.

(** *** One event *)

Lemma release_pressed_tracks ex b s v :
  tracks ex s v ->
  let '(held, s') := release_pressed b s in
  if held : bool then b ∈ av_buttons v /\ tracks ex s' (app_hear v (DButton b BReleased)) else s' = s.
Proof.
  intros [H1 H2 H3]. unfold release_pressed.
  destruct (remove_where _ (st_pressed s)) as [[[b' o] l]|] eqn:Hr; [|done].
  apply remove_where_perm in Hr as [Hb Hp]. simpl in Hb. apply Z.eqb_eq in Hb. subst b'.
  apply (Permutation_map fst) in Hp. simpl in Hp.
  destruct (holds_release _ _ _ _ _ H2 Hp) as [Hin Hh]. split; [done|]. by split.
Qed.

Lemma release_key_tracks ex p s v :
  tracks ex s v ->
  let '(k, s') := release_pressed_key p s in
  match k with
  | Some k => k ∈ av_keys v /\ tracks ex s' (app_hear v (DKey k KReleased))
  | None => s' = s
  end.
Proof.
  intros [H1 H2 H3]. unfold release_pressed_key.
  destruct (remove_where _ (st_pressed_keys s)) as [[e l]|] eqn:Hr; [|done].
  apply remove_where_perm in Hr as [_ Hp]. apply (Permutation_map hd_keysym) in Hp. simpl in Hp.
  destruct (holds_release _ _ _ _ _ H1 Hp) as [Hin Hh]. split; [done|]. by split.
Qed.

Lemma deliver_tracks ex origin kind frozen view surface s v :
  tracks ex s v ->
  let '(d, s') := deliver_kind origin kind frozen view surface s in
  match d with
  | Some k => paired v k /\ tracks ex s' (app_hear v k)
  | None => s' = s
  end.
Proof.
  intros Ht. pose proof Ht as [H1 H2 H3]. unfold deliver_kind.
  destruct kind as [x y|b [|]|a z|src k [|]|text|dx dy ux uy|g n|dx dy|dx dy sc ro|g gs]; cbv zeta.
  - destruct frozen; [done|]. destruct surface; [|done]. by destruct (bool_decide _ && _).
  - pose proof (release_pressed_tracks ex b s v Ht) as Hr. by destruct (release_pressed b s) as [[] s'].
  - destruct (negb _); [done|]. split; [done|]. split; [done| |done]. simpl.
    rewrite List.map_app. by apply holds_press.
  - by destruct (negb _).
  - pose proof (release_key_tracks ex (pairing src k) s v Ht) as Hr.
    by destruct (release_pressed_key _ s) as [[k'|] s'].
  - split; [done|]. split; [|done|done]. simpl. rewrite List.map_app. by apply holds_press.
  - done.
  - by destruct (negb _).
  - destruct (negb _); [done|]. destruct (st_gesture s); [done|]. split; [done|]. split; [done|done|].
    simpl. destruct ex; [done|]. by intros ? [= <-].
  - case_bool_decide as Hg; [|done]. split; [|done]. simpl.
    destruct (st_gesture s) as [live|]; [|done]. destruct ex; [exact (eq_trans H3 Hg)|].
    rewrite (H3 live eq_refl). by injection Hg as ->.
  - case_bool_decide as Hg; [|done]. split; [|done]. simpl.
    destruct (st_gesture s) as [live|]; [|done]. destruct ex; [exact (eq_trans H3 Hg)|].
    rewrite (H3 live eq_refl). by injection Hg as ->.
  - destruct (st_gesture s) as [live|]; [|done]. split; [simpl; destruct ex; [exact H3|by apply H3]|].
    split; [done|done|]. simpl. by destruct ex.
Qed.

(** An event that ends something the app may hold. *)
(** An event that ends something the seat holds. *)
Definition held_end (kind : SeatInputKind) (s : RealmSeat) : bool :=
  match kind with
  | Button button BReleased => existsb (fun b => b.1 =? button) (st_pressed s)
  | Key source keysym KReleased => existsb (fun e => bool_decide (hd_pairing e = pairing source keysym)) (st_pressed_keys s)
  | GestureEnd _ _ => is_some_and (st_gesture s) (fun _ => true)
  | _ => false
  end.

Lemma remove_where_none {A} (f : A -> bool) l : existsb f l = false -> remove_where f l = None.
Proof. induction l as [|x l IH]; cbn; [done|]. intros [-> Hl]%orb_false_iff. by rewrite IH. Qed.
Lemma reconcile_nothing kind s : held_end kind s = false -> reconcile_consumed kind s = s.
Proof.
  destruct kind as [| ? [|]| | ? ? [|]| | | | | |]; cbn; try done.
  - intros Hn. unfold release_pressed. by rewrite (remove_where_none _ _ Hn).
  - intros Hn. unfold release_pressed_key. by rewrite (remove_where_none _ _ Hn).
  - unfold set_gesture. destruct (st_gesture s) eqn:Hg; [done|]. intros _. rewrite <-Hg. by destruct s.
Qed.

Lemma consumed_tracks ex kind s v :
  (ex = true -> held_end kind s = false) -> tracks ex s v -> tracks ex (reconcile_consumed kind s) v.
Proof.
  intros He Ht. destruct ex; [by rewrite (reconcile_nothing _ _ (He eq_refl))|]. pose proof Ht as [H1 H2 H3].
  destruct kind as [| ? [|]| | ? ? [|]| | | | | |]; simpl in *; try done.
  - unfold release_pressed. destruct (remove_where _ (st_pressed s)) as [[b l]|] eqn:Hr; [|done].
    apply remove_where_perm in Hr as [_ Hp]. apply (Permutation_map fst) in Hp.
    split; [done|by eapply holds_lose|done].
  - unfold release_pressed_key. destruct (remove_where _ (st_pressed_keys s)) as [[e l]|] eqn:Hr; [|done].
    apply remove_where_perm in Hr as [_ Hp]. apply (Permutation_map hd_keysym) in Hp.
    split; [by eapply holds_lose|done|done].
Qed.

(** *** Letting go *)

Lemma keys_split {A} (f : A -> bool) (l : list A) :
  l ≡ₚ List.filter f l ++ List.filter (fun x => negb (f x)) l.
Proof.
  induction l as [|x l IH]; simpl; [done|]. destruct (f x); simpl; [by rewrite <-IH|].
  by rewrite <-Permutation_middle, <-IH.
Qed.

Lemma hear_key_releases ex ks rest v :
  holds ex (ks ++ rest) (av_keys v) ->
  let ds := List.map (fun k => DKey k KReleased) ks in
  all_paired v ds
  /\ holds ex rest (av_keys (fold_left app_hear ds v))
  /\ av_buttons (fold_left app_hear ds v) = av_buttons v
  /\ av_gesture (fold_left app_hear ds v) = av_gesture v.
Proof.
  revert v. induction ks as [|k ks IH]; intros v Hh; simpl; [done|].
  destruct (holds_release ex ((k :: ks) ++ rest) (ks ++ rest) _ k Hh) as [Hin Hh']; [done|].
  destruct (IH (app_hear v (DKey k KReleased)) Hh') as (? & ? & ? & ?). by repeat split.
Qed.

Lemma hear_button_releases ex bs rest v :
  holds ex (bs ++ rest) (av_buttons v) ->
  let ds := List.map (fun b => DButton b BReleased) bs in
  all_paired v ds
  /\ holds ex rest (av_buttons (fold_left app_hear ds v))
  /\ av_keys (fold_left app_hear ds v) = av_keys v
  /\ av_gesture (fold_left app_hear ds v) = av_gesture v.
Proof.
  revert v. induction bs as [|k bs IH]; intros v Hh; simpl; [done|].
  destruct (holds_release ex ((k :: bs) ++ rest) (bs ++ rest) _ k Hh) as [Hin Hh']; [done|].
  destruct (IH (app_hear v (DButton k BReleased)) Hh') as (? & ? & ? & ?). by repeat split.
Qed.

Section tracking.
Context {H : Type} `{!PreemptionHook H}.
Implicit Types (r : InputRouter H).

Definition kinds (ds : list SeatDelivery) : list SeatDeliveryKind := List.map sd_kind ds.

(** What an operation that answers with deliveries to one realm does to it. *)
Definition speaks ex realm r v (out : list SeatDelivery * InputRouter H) : Prop :=
  all_paired v (kinds out.1)
  /\ tracks ex (seat_of out.2 realm) (fold_left app_hear (kinds out.1) v)
  /\ forall other, other <> realm -> seat_of out.2 other = seat_of r other.

Lemma seat_of_put realm s r other :
  seat_of (put_seat realm s r) other = if decide (other = realm) then s else seat_of r other.
Proof.
  unfold seat_of, put_seat. simpl. destruct (decide (other = realm)) as [->|Hne].
  - by rewrite lookup_insert_eq.
  - by rewrite lookup_insert_ne.
Qed.

Lemma speaks_nothing ex realm r v r' :
  tracks ex (seat_of r realm) v -> (forall other, seat_of r' other = seat_of r other) ->
  speaks ex realm r v ([], r').
Proof. intros Ht Hs. split; [done|]. simpl. by rewrite Hs. Qed.

Lemma speaks_then ex realm r v ds r1 out :
  speaks ex realm r v (ds, r1) -> speaks ex realm r1 (fold_left app_hear (kinds ds) v) out ->
  speaks ex realm r v (ds ++ out.1, out.2).
Proof.
  intros (Hp1 & _ & Ho1) (Hp2 & Ht2 & Ho2). unfold speaks, kinds in *. simpl in *.
  rewrite List.map_app, fold_left_app. split; [|split; [done|intros o Ho; by rewrite Ho2, Ho1]].
  clear -Hp1 Hp2. revert v Hp1 Hp2. induction ds as [|d ds IH]; intros v Hp1 Hp2; simpl in *; [done|].
  split; [by apply Hp1|]. apply IH; [by apply Hp1|done].
Qed.

Lemma release_keys_speaks ex realm r v :
  tracks ex (seat_of r realm) v -> speaks ex realm r v (release_physical_keys realm r).
Proof.
  intros Ht. unfold release_physical_keys. destruct (rt_seats r !! realm) as [s|] eqn:Hs;
    [|by apply speaks_nothing].
  assert (seat_of r realm = s) as Hseat by (unfold seat_of; by rewrite Hs). rewrite Hseat in Ht.
  destruct Ht as [H1 H2 H3]. set (f := fun e => bool_decide (hd_origin e = Physical)).
  assert (holds ex (List.map hd_keysym (List.filter f (st_pressed_keys s))
    ++ List.map hd_keysym (List.filter (fun x => negb (f x)) (st_pressed_keys s))) (av_keys v)) as Hh.
  { rewrite <-List.map_app. pose proof (keys_split f (st_pressed_keys s)) as Hp.
    apply (Permutation_map hd_keysym) in Hp. unfold holds in *. destruct ex; by rewrite <-Hp. }
  apply hear_key_releases in Hh as (Hp & Hk & Hb & Hg).
  assert (kinds (List.map (fun e => {| sd_origin := hd_origin e; sd_kind := DKey (hd_keysym e) KReleased |})
            (List.filter f (st_pressed_keys s)))
          = List.map (fun k => DKey k KReleased) (List.map hd_keysym (List.filter f (st_pressed_keys s)))) as Hds
    by (unfold kinds; by rewrite !List.map_map).
  unfold speaks. cbn [fst snd]. rewrite Hds. split; [done|]. split.
  - rewrite seat_of_put, decide_True by done. split; simpl; [done|by rewrite Hb|by rewrite Hg].
  - intros other Hne. by rewrite seat_of_put, decide_False.
Qed.

Lemma release_buttons_speaks ex realm r v :
  tracks ex (seat_of r realm) v -> speaks ex realm r v (release_physical_buttons realm r).
Proof.
  intros Ht. unfold release_physical_buttons. destruct (rt_seats r !! realm) as [s|] eqn:Hs;
    [|by apply speaks_nothing].
  assert (seat_of r realm = s) as Hseat by (unfold seat_of; by rewrite Hs). rewrite Hseat in Ht.
  destruct Ht as [H1 H2 H3]. set (f := fun b => bool_decide ((b : Z * Origin).2 = Physical)).
  assert (holds ex (List.map fst (List.filter f (st_pressed s))
    ++ List.map fst (List.filter (fun x => negb (f x)) (st_pressed s))) (av_buttons v)) as Hh.
  { rewrite <-List.map_app. pose proof (keys_split f (st_pressed s)) as Hp.
    apply (Permutation_map fst) in Hp. unfold holds in *. destruct ex; by rewrite <-Hp. }
  apply hear_button_releases in Hh as (Hp & Hk & Hb & Hg).
  assert (kinds (List.map (fun b => {| sd_origin := b.2; sd_kind := DButton b.1 BReleased |})
            (List.filter f (st_pressed s)))
          = List.map (fun b => DButton b BReleased) (List.map fst (List.filter f (st_pressed s)))) as Hds
    by (unfold kinds; by rewrite !List.map_map).
  unfold speaks. cbn [fst snd]. rewrite Hds. split; [done|]. split.
  - rewrite seat_of_put, decide_True by done. split; simpl; [by rewrite Hb|done|by rewrite Hg].
  - intros other Hne. by rewrite seat_of_put, decide_False.
Qed.

Lemma end_gesture_speaks ex realm r v :
  tracks ex (seat_of r realm) v -> speaks ex realm r v (end_physical_gesture realm r).
Proof.
  intros Ht. unfold end_physical_gesture. destruct (rt_seats r !! realm) as [s|] eqn:Hs;
    [|by apply speaks_nothing].
  destruct (st_gesture s) as [live|] eqn:Hg; [|by apply speaks_nothing].
  case_bool_decide; simpl; [|by apply speaks_nothing].
  assert (seat_of r realm = s) as Hseat by (unfold seat_of; by rewrite Hs). rewrite Hseat in Ht.
  destruct Ht as [H1 H2 H3]. unfold speaks. simpl. split; [|split].
  - split; [|done]. destruct ex; [by rewrite H3, Hg|by apply H3].
  - rewrite seat_of_put, decide_True by done. split; simpl; [done|done|by destruct ex].
  - intros other Hne. by rewrite seat_of_put, decide_False.
Qed.

(** An event for [realm] ends something the seat of [R] holds there, and the hook
    keeps it back. *)
Definition kept_back (R : RealmId) (realm : option RealmId) (input : SeatInput) r : bool :=
  bool_decide (realm = Some R) && held_end (si_kind input) (seat_of r R)
  && match (hk_gate (hk_observe (rt_hook r) input) input).1 with Consume => true | Deliver => false end.

Lemma set_pointer_tracks ex o p s v : tracks ex s v -> tracks ex (set_pointer o p s) v.
Proof. by intros [H1 H2 H3]. Qed.

Lemma pointed_cases realm input r :
  pointed realm input r = r
  \/ exists R p, realm = Some R
       /\ pointed realm input r = put_seat R (set_pointer (si_origin input) p (seat_of r R)) r.
Proof.
  unfold pointed. destruct realm as [R|]; [|by left].
  destruct (is_frozen _ _ _); [by left|]. destruct (si_kind input); eauto.
Qed.

Lemma pointed_seat ex realm input r v R :
  tracks ex (seat_of r R) v -> tracks ex (seat_of (pointed realm input r) R) v.
Proof.
  intros Ht. destruct (pointed_cases realm input r) as [->|(R' & p & _ & ->)]; [done|].
  rewrite seat_of_put. case_decide as Heq; [|done]. subst. by apply set_pointer_tracks.
Qed.

Lemma pointed_other realm input r R :
  realm <> Some R -> seat_of (pointed realm input r) R = seat_of r R.
Proof.
  intros Hne. destruct (pointed_cases realm input r) as [->|(R' & p & -> & ->)]; [done|].
  rewrite seat_of_put. by rewrite decide_False by congruence.
Qed.

Lemma route_into_hook realm input r :
  rt_hook (pointed realm input r) = rt_hook r.
Proof. by destruct (pointed_cases realm input r) as [->|(R' & p & _ & ->)]. Qed.

Lemma pointed_held_end realm input r kind R :
  held_end kind (seat_of (pointed realm input r) R) = held_end kind (seat_of r R).
Proof.
  destruct (pointed_cases realm input r) as [->|(R' & p & _ & ->)]; [done|]. rewrite seat_of_put. by case_decide; subst.
Qed.

Lemma route_into_tracks ex realm input view surface r v R :
  (ex = true -> kept_back R realm input r = false) -> tracks ex (seat_of r R) v ->
  let '(d, r') := route_into realm input view surface r in
  match realm, d with
  | Some R', Some d =>
      if decide (R = R') then paired v (sd_kind d) /\ tracks ex (seat_of r' R) (app_hear v (sd_kind d))
      else tracks ex (seat_of r' R) v
  | None, Some _ => False
  | _, None => tracks ex (seat_of r' R) v
  end.
Proof.
  intros He Ht. unfold route_into. cbv zeta. pose proof (pointed_seat ex realm input r v R Ht) as Hp.
  unfold kept_back in He. rewrite <-(route_into_hook realm input r), <-(pointed_held_end realm input r) in He.
  set (frozen := is_frozen realm input r). clearbody frozen. set (r1 := pointed realm input r) in *.
  clearbody r1. cbn [rt_hook with_presence with_hook].
  destruct (hk_gate (hk_observe (rt_hook r1) input) input) as [g h] eqn:Hg.
  set (r2 := with_hook h _). assert (forall R, seat_of r2 R = seat_of r1 R) as Hs2 by done.
  assert (rt_seats r2 = rt_seats r1) as Hseats by done. clearbody r2. destruct g.
  - destruct realm as [R'|]; [|by rewrite Hs2].
    destruct (decide (R = R')) as [->|Hne].
    + rewrite <-Hs2 in Hp. pose proof (deliver_tracks ex (si_origin input) (si_kind input) frozen view surface _ v Hp) as Hd.
      destruct (deliver_kind _ _ _ _ _ _) as [[k|] s]; simpl.
      * destruct (decide (R' = R')); [|done]. by rewrite seat_of_put, decide_True.
      * rewrite seat_of_put, decide_True by done. by rewrite Hd.
    + destruct (deliver_kind _ _ _ _ _ _) as [[k|] s]; simpl; rewrite ?decide_False by done;
        rewrite seat_of_put, decide_False by done; by rewrite Hs2.
  - cbn [fst] in He. rewrite andb_true_r in He. destruct realm as [R'|]; [|by rewrite Hs2]. destruct (rt_seats r2 !! R') as [s|] eqn:Hs; [|by rewrite Hs2].
    rewrite seat_of_put. destruct (decide (R = R')) as [<-|]; [|by rewrite Hs2].
    assert (seat_of r1 R = s) as <- by (rewrite <-Hs2; unfold seat_of; by rewrite Hs).
    apply consumed_tracks; [|done]. by rewrite bool_decide_true in He by done.
Qed.
End tracking.

(* ------------------------------------------------------------------------ *)
(** ** Runs *)

Section runs.
Context {H : Type} `{!PreemptionHook H}.
Implicit Types (r : InputRouter H).

(** Whatever the core asks of a router. *)
Inductive RouterOp : Type :=
| RPhysical (input : SeatInput) (view : ViewGeometry) (surface : option (Z * Z))
| REmulated (realm : RealmId) (input : SeatInput) (view : ViewGeometry) (surface : option (Z * Z))
| RBind (realm : RealmId)
| RReset (realm : RealmId)
| RReleaseKeys (realm : RealmId)
| RReleaseButtons (realm : RealmId)
| REndGesture (realm : RealmId)
| RConstraint (op : ConstraintOp)
| RObserve (now : Instant)
| RHook (f : H -> H).

Definition log_of (realm : option RealmId) (d : option SeatDelivery) : list (RealmId * SeatDelivery) :=
  match realm, d with Some realm, Some d => [(realm, d)] | _, _ => [] end.
Definition log_all (realm : RealmId) (ds : list SeatDelivery) : list (RealmId * SeatDelivery) :=
  List.map (fun d => (realm, d)) ds.

Definition router_step (op : RouterOp) r : list (RealmId * SeatDelivery) * InputRouter H :=
  match op with
  | RPhysical input view surface =>
      let '(d, r') := route_physical input view surface r in (log_of (rt_bound r) d, r')
  | REmulated realm input view surface =>
      let '(d, r') := route_emulated realm input view surface r in (log_of (Some realm) d, r')
  | RBind realm =>
      let '(owed, r') := bind_to realm r in
      (match owed with Some (losing, ds) => log_all losing ds | None => [] end, r')
  | RReset realm => ([], (reset_for realm r).2)
  | RReleaseKeys realm => let '(ds, r') := release_physical_keys realm r in (log_all realm ds, r')
  | RReleaseButtons realm => let '(ds, r') := release_physical_buttons realm r in (log_all realm ds, r')
  | REndGesture realm => let '(ds, r') := end_physical_gesture realm r in (log_all realm ds, r')
  | RConstraint op => ([], with_constraints (constraint_step (rt_constraints r) op).2 r)
  | RObserve now => ([], observe_at now r)
  | RHook f => ([], with_hook (f (rt_hook r)) r)
  end.

(** What a realm's shim hears of a log; its view dies with it. *)
Definition said (realm : RealmId) (log : list (RealmId * SeatDelivery)) : list SeatDeliveryKind :=
  List.map (fun e => sd_kind e.2) (List.filter (fun e => bool_decide (e.1 = realm)) log).
Definition outlive (realm : RealmId) (op : RouterOp) (v : AppView) : AppView :=
  match op with RReset R => if decide (R = realm) then view_empty else v | _ => v end.

Fixpoint router_run (realm : RealmId) (ops : list RouterOp) r (v : AppView) : InputRouter H * AppView :=
  match ops with
  | [] => (r, v)
  | op :: ops =>
      let '(log, r') := router_step op r in
      router_run realm ops r' (outlive realm op (fold_left app_hear (said realm log) v))
  end.

(** Along a history the hook keeps back no end of anything [realm]'s seat holds. *)
Definition keeps_back (realm : RealmId) (op : RouterOp) r : bool :=
  match op with
  | RPhysical input _ _ => kept_back realm (rt_bound r) input r
  | REmulated R input _ _ => kept_back realm (Some R) input r
  | _ => false
  end.
Fixpoint ends_pass (realm : RealmId) (ops : list RouterOp) r : bool :=
  match ops with
  | [] => true
  | op :: ops => negb (keeps_back realm op r) && ends_pass realm ops (router_step op r).2
  end.

Lemma said_all realm R ds :
  said realm (log_all R ds) = if decide (R = realm) then kinds ds else [].
Proof.
  unfold said, log_all, kinds. induction ds as [|d ds IH]; simpl; [by case_decide|].
  case_decide as Heq.
  - rewrite bool_decide_true by done. simpl. by f_equal.
  - rewrite bool_decide_false by done. done.
Qed.

(** A step keeps the seat and the view together. *)
Lemma speaks_tracks ex realm R r v out :
  tracks ex (seat_of r realm) v -> (R = realm -> speaks ex R r v out) ->
  (R <> realm -> forall v', tracks ex (seat_of r R) v' -> speaks ex R r v' out) ->
  (exists v', tracks ex (seat_of r R) v') ->
  all_paired v (said realm (log_all R out.1))
  /\ tracks ex (seat_of out.2 realm) (fold_left app_hear (said realm (log_all R out.1)) v).
Proof.
  intros Ht Hsame Hdiff [v' Hv']. rewrite said_all. destruct (decide (R = realm)) as [->|Hne].
  - destruct (Hsame eq_refl) as (? & ? & _). done.
  - split; [done|]. destruct (Hdiff Hne v' Hv') as (_ & _ & Ho). simpl. by rewrite Ho.
Qed.

Lemma some_view ex s : exists v, tracks ex s v.
Proof.
  exists {| av_keys := List.map hd_keysym (st_pressed_keys s); av_buttons := List.map fst (st_pressed s);
            av_gesture := ig_kind <$> st_gesture s |}.
  split; simpl; [unfold holds; by destruct ex..|]. destruct ex; [done|]. by intros g ->.
Qed.

Lemma bind_speaks ex realm losing r v :
  rt_bound r = Some losing -> losing <> realm -> tracks ex (seat_of r losing) v ->
  exists ds r', bind_to realm r = (Some (losing, ds), r') /\ speaks ex losing r v (ds, r').
Proof.
  intros Hb Hne Ht. unfold bind_to. rewrite Hb, bool_decide_false by congruence. cbv zeta.
  set (r0 := with_bound (Some realm) r).
  assert (forall R, seat_of r0 R = seat_of r R) as H0 by done.
  pose proof (release_keys_speaks ex losing r0 v Ht) as H1.
  destruct (release_physical_keys losing r0) as [ks r1]. pose proof H1 as (_ & Ht1 & _).
  pose proof (release_buttons_speaks ex losing r1 _ Ht1) as H2.
  destruct (release_physical_buttons losing r1) as [bs r2]. pose proof H2 as (_ & Ht2 & _).
  pose proof (end_gesture_speaks ex losing r2 _ Ht2) as H3.
  destruct (end_physical_gesture losing r2) as [gs r3].
  eexists _, _. split; [reflexivity|].
  pose proof (speaks_then ex losing r0 v ks r1 (bs ++ gs, r3) H1
    (speaks_then ex losing r1 _ bs r2 (gs, r3) H2 H3)) as (Hp & Ht' & Ho). simpl in *.
  split; [done|]. split; [exact Ht'|exact Ho].
Qed.

Lemma router_step_tracks ex realm op r v :
  (ex = true -> keeps_back realm op r = false) -> tracks ex (seat_of r realm) v ->
  let '(log, r') := router_step op r in
  all_paired v (said realm log)
  /\ tracks ex (seat_of r' realm) (outlive realm op (fold_left app_hear (said realm log) v)).
Proof.
  intros He Ht.
  assert (forall R input view surface, (ex = true -> kept_back realm R input r = false) ->
    let '(d, r') := route_into R input view surface r in
    all_paired v (said realm (log_of R d))
    /\ tracks ex (seat_of r' realm) (fold_left app_hear (said realm (log_of R d)) v)) as Hroute.
  { intros R input view surface Hk.
    pose proof (route_into_tracks ex R input view surface r v realm Hk Ht) as Hr.
    destruct (route_into R input view surface r) as [[d|] r'], R as [R|]; try done. simpl.
    unfold said. simpl. destruct (decide (realm = R)) as [->|Hne].
    - rewrite bool_decide_true by done. simpl. tauto.
    - rewrite bool_decide_false by congruence. done. }
  destruct op as [input view surface|R input view surface|R|R|R|R|R|op|now|f]; simpl; try by split.
  - unfold route_physical. pose proof (Hroute (rt_bound r) input view surface He) as Hr.
    by destruct (route_into _ _ _ _ r).
  - unfold route_emulated. pose proof (Hroute (Some R) input view surface He) as Hr.
    by destruct (route_into _ _ _ _ r).
  - destruct (rt_bound r) as [losing|] eqn:Hb; cycle 1.
    { unfold bind_to. rewrite Hb. rewrite bool_decide_false by done. by split. }
    destruct (decide (losing = R)) as [->|Hne].
    { unfold bind_to. rewrite Hb, bool_decide_true by done. by split. }
    destruct (decide (losing = realm)) as [->|Hr].
    + destruct (bind_speaks ex R realm r v Hb Hne Ht) as (ds & r' & -> & Hp & Htr & _).
      rewrite said_all, decide_True by done. done.
    + destruct (some_view ex (seat_of r losing)) as [v' Hv'].
      destruct (bind_speaks ex R losing r v' Hb Hne Hv') as (ds & r' & -> & _ & _ & Ho).
      rewrite said_all, decide_False by done. simpl. split; [done|]. simpl in Ho. by rewrite Ho.
  - split; [done|]. unfold reset_for. destruct (c_forget _ R) as [b c]. unfold seat_of.
    assert (rt_seats (with_constraints c (forget_presence_of R
      (if bool_decide (rt_bound r = Some R) then with_bound None (with_seats (delete R (rt_seats r)) r)
       else with_seats (delete R (rt_seats r)) r))) = delete R (rt_seats r)) as Hs by (by case_bool_decide).
    destruct (decide (R = realm)) as [->|Hne].
    + simpl in *. case_bool_decide; simpl; rewrite lookup_delete_eq; simpl; by destruct ex.
    + simpl in *. case_bool_decide; simpl; by rewrite lookup_delete_ne.
  - pose proof (speaks_tracks ex realm R r v (release_physical_keys R r) Ht) as Hs.
    destruct (release_physical_keys R r) as [ds r'] eqn:Hr. apply Hs;
      [intros ->; rewrite <-Hr; by apply release_keys_speaks|
       intros _ v' Hv'; rewrite <-Hr; by apply release_keys_speaks|apply some_view].
  - pose proof (speaks_tracks ex realm R r v (release_physical_buttons R r) Ht) as Hs.
    destruct (release_physical_buttons R r) as [ds r'] eqn:Hr. apply Hs;
      [intros ->; rewrite <-Hr; by apply release_buttons_speaks|
       intros _ v' Hv'; rewrite <-Hr; by apply release_buttons_speaks|apply some_view].
  - pose proof (speaks_tracks ex realm R r v (end_physical_gesture R r) Ht) as Hs.
    destruct (end_physical_gesture R r) as [ds r'] eqn:Hr. apply Hs;
      [intros ->; rewrite <-Hr; by apply end_gesture_speaks|
       intros _ v' Hv'; rewrite <-Hr; by apply end_gesture_speaks|apply some_view].
Qed.

Lemma router_run_tracks ex realm ops r v :
  (ex = true -> ends_pass realm ops r = true) -> tracks ex (seat_of r realm) v ->
  let '(r', v') := router_run realm ops r v in tracks ex (seat_of r' realm) v'.
Proof.
  revert r v. induction ops as [|op ops IH]; intros r v He Ht; simpl; [done|]. cbn [ends_pass] in He.
  assert (ex = true -> keeps_back realm op r = false) as Hop by (intros Hex; specialize (He Hex); by apply andb_true_iff in He as [?%negb_true_iff _]).
  pose proof (router_step_tracks ex realm op r v Hop Ht) as Hs.
  destruct (router_step op r) as [log r']. apply IH; [|apply Hs]. intros Hex. specialize (He Hex). by apply andb_true_iff in He as [_ ?].
Qed.
End runs.
Arguments RouterOp : clear implicits.

(* ------------------------------------------------------------------------ *)
(** ** Whose events *)

Section origins.
Context {H : Type} `{!PreemptionHook H}.
Implicit Types (r : InputRouter H).

Lemma route_into_frame realm input view surface r :
  let '(d, r') := route_into realm input view surface r in
  (forall e, d = Some e -> sd_origin e = si_origin input)
  /\ rt_bound r' = rt_bound r /\ rt_constraints r' = rt_constraints r /\ rt_now r' = rt_now r
  /\ rt_presence r' = map_note (rt_presence r) realm (si_origin input) (si_kind input) (rt_now r)
  /\ (forall R, realm <> Some R -> rt_seats r' !! R = rt_seats r !! R).
Proof.
  unfold route_into. cbv zeta. set (frozen := is_frozen realm input r). clearbody frozen.
  assert (rt_bound (pointed realm input r) = rt_bound r
    /\ rt_constraints (pointed realm input r) = rt_constraints r
    /\ rt_now (pointed realm input r) = rt_now r /\ rt_presence (pointed realm input r) = rt_presence r
    /\ forall R, realm <> Some R -> rt_seats (pointed realm input r) !! R = rt_seats r !! R) as (Hb & Hc & Hn & Hp & Hs).
  { destruct (pointed_cases realm input r) as [->|(R & p & -> & ->)]; [done|].
    repeat split; try done. intros R' Hne. simpl. by rewrite lookup_insert_ne by congruence. }
  set (r1 := pointed realm input r) in *. clearbody r1. cbn [rt_hook with_presence with_hook].
  rewrite <-Hb, <-Hc, <-Hn, <-Hp. clear Hb Hc Hn Hp.
  assert (forall R, realm <> Some R -> forall r2, rt_seats r2 = rt_seats r1 \/
    (exists R' s, realm = Some R' /\ rt_seats r2 = <[R' := s]> (rt_seats r1)) ->
    rt_seats r2 !! R = rt_seats r !! R) as Hseats.
  { intros R Hne r2 [->|(R' & s & Heq & ->)]; [by apply Hs|].
    rewrite lookup_insert_ne by congruence. by apply Hs. }
  destruct (hk_gate (hk_observe (rt_hook r1) input) input) as [[] h].
  - destruct realm as [R|]; [|by repeat split; intros; try apply Hseats; auto].
    destruct (deliver_kind _ _ _ _ _ _) as [d s]. split; [by destruct d; intros ? [= <-]|].
    repeat split; try done. intros R' Hne. apply Hseats; [done|]. right. exists R, s. done.
  - split; [done|]. destruct realm as [R|]; [|by repeat split; intros; apply Hseats; auto].
    destruct (rt_seats _ !! R) as [s|]; (repeat split; try done); intros R' Hne; apply Hseats; auto.
    right. by eexists _, _.
Qed.
End origins.

(** What letting go of one realm's seat leaves alone. *)
Definition untouched {H} (realm : RealmId) (r r' : InputRouter H) : Prop :=
  (forall R, R <> realm -> seat_of r' R = seat_of r R)
  /\ rt_bound r' = rt_bound r /\ rt_presence r' = rt_presence r /\ rt_now r' = rt_now r
  /\ rt_constraints r' = rt_constraints r.

Lemma untouched_trans {H} realm (r1 r2 r3 : InputRouter H) :
  untouched realm r1 r2 -> untouched realm r2 r3 -> untouched realm r1 r3.
Proof.
  intros (A1 & A2 & A3 & A4 & A5) (B1 & B2 & B3 & B4 & B5).
  split; [intros R Hne; by rewrite B1, A1|]. by rewrite B2, B3, B4, B5.
Qed.

Lemma put_untouched {H} realm s (r : InputRouter H) : untouched realm r (put_seat realm s r).
Proof. split; [|done]. intros R Hne. by rewrite seat_of_put, decide_False. Qed.

Lemma release_keys_spec {H} realm (r : InputRouter H) :
  let human e := bool_decide (hd_origin e = Physical) in
  let s := seat_of r realm in
  let '(ds, r') := release_physical_keys realm r in
  ds = List.map (fun e => {| sd_origin := hd_origin e; sd_kind := DKey (hd_keysym e) KReleased |})
         (List.filter human (st_pressed_keys s))
  /\ seat_of r' realm = set_pressed_keys (List.filter (fun e => negb (human e)) (st_pressed_keys s)) s
  /\ untouched realm r r'.
Proof.
  cbv zeta. unfold release_physical_keys, seat_of at 1 3 4. destruct (rt_seats r !! realm) as [s|] eqn:Hs.
  - split; [done|]. split; [by rewrite seat_of_put, decide_True|apply put_untouched].
  - split; [done|]. split; [unfold seat_of; by rewrite Hs|done].
Qed.

Lemma release_buttons_spec {H} realm (r : InputRouter H) :
  let human b := bool_decide ((b : Z * Origin).2 = Physical) in
  let s := seat_of r realm in
  let '(ds, r') := release_physical_buttons realm r in
  ds = List.map (fun b => {| sd_origin := b.2; sd_kind := DButton b.1 BReleased |})
         (List.filter human (st_pressed s))
  /\ seat_of r' realm = set_pressed (List.filter (fun b => negb (human b)) (st_pressed s)) s
  /\ untouched realm r r'.
Proof.
  cbv zeta. unfold release_physical_buttons, seat_of at 1 3 4. destruct (rt_seats r !! realm) as [s|] eqn:Hs.
  - split; [done|]. split; [by rewrite seat_of_put, decide_True|apply put_untouched].
  - split; [done|]. split; [unfold seat_of; by rewrite Hs|done].
Qed.

Lemma end_gesture_spec {H} realm (r : InputRouter H) :
  let s := seat_of r realm in
  let mine := match st_gesture s with
              | Some g => if bool_decide (ig_origin g = Physical) then Some g else None
              | None => None end in
  let '(ds, r') := end_physical_gesture realm r in
  ds = match mine with
       | Some g => [{| sd_origin := ig_origin g; sd_kind := DGestureEnd (ig_kind g) Cancelled |}]
       | None => [] end
  /\ seat_of r' realm = set_gesture (match mine with Some _ => None | None => st_gesture s end) s
  /\ untouched realm r r'.
Proof.
  cbv zeta. unfold end_physical_gesture, seat_of at 1 3 4 5. destruct (rt_seats r !! realm) as [s|] eqn:Hs; simpl.
  - destruct (st_gesture s) as [g|] eqn:Hg; [case_bool_decide; simpl|].
    + split; [done|]. split; [by rewrite seat_of_put, decide_True|apply put_untouched].
    + split; [done|]. split; [|done]. unfold seat_of. rewrite Hs. simpl. rewrite <-Hg. by destruct s.
    + split; [done|]. split; [|done]. unfold seat_of. rewrite Hs. simpl. rewrite <-Hg. by destruct s.
  - split; [done|]. split; [|done]. unfold seat_of. by rewrite Hs.
Qed.

(** The seat a delivery is judged against. *)
Lemma route_into_delivered {H : Type} `{!PreemptionHook H} realm input view surface (r r' : InputRouter H) e :
  route_into (Some realm) input view surface r = (Some e, r') ->
  exists s', deliver_kind (si_origin input) (si_kind input) (is_frozen (Some realm) input r) view surface
    (seat_of (pointed (Some realm) input r) realm) = (Some (sd_kind e), s').
Proof.
  unfold route_into. cbv zeta. set (frozen := is_frozen (Some realm) input r). clearbody frozen.
  set (r1 := pointed (Some realm) input r). clearbody r1. cbn [rt_hook with_presence with_hook].
  destruct (hk_gate (hk_observe (rt_hook r1) input) input) as [[] h]; [|done].
  change (seat_of (with_hook h _) realm) with (seat_of r1 realm).
  destruct (deliver_kind _ _ _ _ _ _) as [[k|] s]; intros [= <- <-]. by exists s.
Qed.

(** Events that only the app under the pointer may hear. *)
Definition needs_pointer (d : SeatDeliveryKind) : bool :=
  match d with
  | DMotion _ _ | DButton _ BPressed | DScroll _ _ | DRelativeMotion _ _ _ _ | DGestureBegin _ _ => true
  | _ => false
  end.

Lemma deliver_guard origin kind frozen view surface s k s' :
  deliver_kind origin kind frozen view surface s = (Some k, s') -> needs_pointer k = true ->
  (forall x y, kind = Motion x y -> frozen = false /\ st_pointer s = Some (x, y)) ->
  st_pressed s <> [] \/ pointer_over_surface s view surface = true.
Proof.
  intros Hd Hk Hm. destruct (decide (st_pressed s = [])) as [He|]; [right|by left].
  assert (negb (bool_decide (st_pressed s = [])) = false) as Hno by (by rewrite bool_decide_true).
  unfold deliver_kind in Hd. cbv zeta in Hd. rewrite Hno in Hd. cbn [orb] in Hd.
  destruct kind as [x y|b [|]|a z|src kk [|]|text|dx dy ux uy|g n|dx dy|dx dy sc ro|g gs].
  - destruct (Hm x y eq_refl) as [-> Hp]. destruct surface as [sf|]; [|done].
    rewrite bool_decide_true in Hd by done. unfold pointer_over_surface. rewrite Hp.
    destruct (inside _ sf) eqn:Hi; [done|]. by simpl in Hd.
  - destruct (release_pressed b s) as [[] ?]; by simplify_eq.
  - by destruct (pointer_over_surface s view surface).
  - by destruct (pointer_over_surface s view surface).
  - destruct (release_pressed_key _ s) as [[] ?]; by simplify_eq/=.
  - by simplify_eq/=.
  - by simplify_eq/=.
  - by destruct (pointer_over_surface s view surface).
  - by destruct (pointer_over_surface s view surface).
  - by destruct (bool_decide (ig_kind <$> _ = _)); simplify_eq/=.
  - by destruct (bool_decide (ig_kind <$> _ = _)); simplify_eq/=.
  - destruct (st_gesture s); by simplify_eq/=.
Qed.

(* ------------------------------------------------------------------------ *)
(** ** Properties *)

Section properties.
Context {H : Type} `{!PreemptionHook H}.

(** C39: an app is never told of an end without its beginning. Take any hook and
    any history of a router: events of the human and of agents, bindings of the
    seat, resets, releases, pointer constraints. Follow what one realm's shim has
    been told is down since the realm last started: every further delivery that
    releases a key or a button, or continues or ends a gesture, is about one it
    was told began and not told ended; and everything the router counts as held
    the app knows to be down. The other half holds of histories, not of hooks: if in
    the history the hook kept back no end of a thing the realm's seat then held, the
    two agree exactly, and nothing is latched in the app that the router has let go.
    (A hook that does keep one back leaves the app with what it was told is down.) *)
Theorem router_paired (presence : PresenceMap) (now : Z) (hook : H) (realm : RealmId)
  (ops : list (RouterOp H)) (op : RouterOp H) :
  let '(r, v) := router_run realm ops (router_new presence now hook) view_empty in
  all_paired v (said realm (router_step op r).1)
  /\ tracks false (seat_of r realm) v
  /\ (ends_pass realm ops (router_new presence now hook) = true -> tracks true (seat_of r realm) v).
Proof.
  assert (forall ex, tracks ex (seat_of (router_new presence now hook) realm) view_empty) as H0
    by (intros ex; unfold seat_of; simpl; rewrite lookup_empty; simpl; split; by destruct ex).
  pose proof (router_run_tracks false realm ops _ _ ltac:(done) (H0 false)) as Hf.
  pose proof (fun He => router_run_tracks true realm ops _ _ He (H0 true)) as Ht.
  destruct (router_run realm ops _ view_empty) as [r v]. split; [|split; [done|]].
  - pose proof (router_step_tracks false realm op r v ltac:(done) Hf) as Hs.
    destruct (router_step op r). apply Hs.
  - intros He. apply Ht. by intros _.
Qed.

(** Moving the seat leaves nothing of the human behind. When the human's
    input is bound to another realm, the realm that loses it is owed, in this
    order, a release for each key and each button the human holds in it and the
    cancellation of the human's gesture, and holds none of them afterwards;
    what an agent holds there stays held; the human is no longer present there;
    no other realm's seat, no pointer and no constraint changes. *)
Theorem router_bind_clean (r : InputRouter H) (realm losing : RealmId)
  (Hbound : rt_bound r = Some losing) (Hother : losing <> realm) :
  let s := seat_of r losing in
  let human e := bool_decide (hd_origin e = Physical) in
  let human_button b := bool_decide ((b : Z * Origin).2 = Physical) in
  let human_gesture := match st_gesture s with
                       | Some g => if bool_decide (ig_origin g = Physical) then Some g else None
                       | None => None end in
  exists r',
    bind_to realm r =
      (Some (losing,
         List.map (fun e => {| sd_origin := hd_origin e; sd_kind := DKey (hd_keysym e) KReleased |})
           (List.filter human (st_pressed_keys s))
         ++ List.map (fun b => {| sd_origin := b.2; sd_kind := DButton b.1 BReleased |})
              (List.filter human_button (st_pressed s))
         ++ match human_gesture with
            | Some g => [{| sd_origin := ig_origin g; sd_kind := DGestureEnd (ig_kind g) Cancelled |}]
            | None => [] end), r')
    /\ rt_bound r' = Some realm
    /\ seat_of r' losing =
         set_gesture (match human_gesture with Some _ => None | None => st_gesture s end)
           (set_pressed (List.filter (fun b => negb (human_button b)) (st_pressed s))
             (set_pressed_keys (List.filter (fun e => negb (human e)) (st_pressed_keys s)) s))
    /\ owns_target (rt_presence r') (Some losing) (rt_now r') = false
    /\ (forall R, R <> losing -> rt_presence r' !! R = rt_presence r !! R /\ seat_of r' R = seat_of r R)
    /\ rt_constraints r' = rt_constraints r.
Proof.
  cbv zeta. unfold bind_to. rewrite Hbound, bool_decide_false by congruence.
  set (r0 := with_bound (Some realm) r).
  assert (forall R, seat_of r0 R = seat_of r R) as H0 by done.
  pose proof (release_keys_spec losing r0) as Hk.
  destruct (release_physical_keys losing r0) as [ks r1]. destruct Hk as (-> & Hk & Hk1).
  pose proof (release_buttons_spec losing r1) as Hb.
  destruct (release_physical_buttons losing r1) as [bs r2]. destruct Hb as (-> & Hb & Hb1).
  pose proof (end_gesture_spec losing r2) as Hg.
  destruct (end_physical_gesture losing r2) as [gs r3]. destruct Hg as (-> & Hg & Hg1).
  rewrite Hb, Hk, H0 in Hg. rewrite Hk, H0 in Hb. rewrite H0 in Hk. rewrite Hb, Hk. simpl in Hg. simpl.
  assert (untouched losing r0 r3) as (Hs & Hb3 & Hp3 & _ & Hc3)
    by (eapply untouched_trans; [exact Hk1|by eapply untouched_trans]).
  eexists. split; [reflexivity|]. split; [exact Hb3|]. split; [exact Hg|].
  split; [unfold owns_target, forget_presence_of, forget; simpl; by rewrite lookup_delete_eq|].
  split; [|exact Hc3].
  intros R Hne. unfold forget_presence_of, forget. simpl. rewrite lookup_delete_ne by done. rewrite Hp3. split; [done|]. exact (Hs R Hne).
Qed.

(** An event reaches only whom it concerns. An agent's event touches the seat
    of the realm its grant names and no other, leaves the human's pointer there,
    the human's presence, the binding and the constraints as they were, and is
    delivered as emulated. In any realm, a motion, a press, a scroll or the start
    of a gesture reaches the app only while a button is held there or with the
    pointer over the app's surface; and while the realm's pointer constraint is
    active, the human's motion neither moves its pointer nor reaches it. *)
Theorem router_confined (r : InputRouter H) (realm : RealmId) (input : SeatInput)
  (view : ViewGeometry) (surface : option (Z * Z)) :
  (si_origin input = Emulated ->
   let '(d, r') := route_emulated realm input view surface r in
   (forall e, d = Some e -> sd_origin e = Emulated)
   /\ rt_bound r' = rt_bound r /\ rt_presence r' = rt_presence r
   /\ rt_constraints r' = rt_constraints r
   /\ forall R, R <> realm -> rt_seats r' !! R = rt_seats r !! R)
  /\ (forall e r', route_into (Some realm) input view surface r = (Some e, r') ->
      needs_pointer (sd_kind e) = true ->
      let s := seat_of (pointed (Some realm) input r) realm in
      st_pressed s <> [] \/ pointer_over_surface s view surface = true)
  /\ (forall x y, si_origin input = Physical -> si_kind input = Motion x y ->
      is_active (rt_constraints r) realm = true ->
      let '(d, r') := route_into (Some realm) input view surface r in
      d = None /\ seat_of r' realm = seat_of r realm).
Proof.
  split; [|split].
  - intros He. unfold route_emulated. pose proof (route_into_frame (Some realm) input view surface r) as Hf.
    destruct (route_into _ _ _ _ r) as [d r']. destruct Hf as (Ho & Hb & Hc & _ & Hp & Hs).
    rewrite He in Ho, Hp. repeat split; try done. intros R Hne. apply Hs. congruence.
  - intros e r' Hr Hn s. apply route_into_delivered in Hr as (s' & Hd). eapply deliver_guard; [exact Hd|done|].
    intros x y Hk. destruct (is_frozen (Some realm) input r) eqn:Hfz.
    + unfold deliver_kind in Hd. by rewrite Hk in Hd.
    + split; [done|]. unfold s, pointed. rewrite Hfz, Hk, seat_of_put, decide_True by done. done.
  - intros x y Ho Hk Ha.
    assert (is_frozen (Some realm) input r = true) as Hfz
      by (unfold is_frozen; rewrite Ho, Hk; simpl; by rewrite Ha).
    unfold route_into. cbv zeta. unfold pointed. rewrite Hfz. cbn [rt_hook with_presence with_hook].
    destruct (hk_gate _ input) as [[] h]; rewrite Hk; simpl; [by rewrite seat_of_put, decide_True by done|].
    split; [done|]. destruct (rt_seats r !! realm) as [s|] eqn:Hs; [|done].
    rewrite seat_of_put, decide_True by done. unfold seat_of. by rewrite Hs.
Qed.
End properties.

(** A key held by the human, and a button by an agent, as the seat moves. *)
Definition demo_router : InputRouter unit :=
  let view := {| output := (200, 200); strip_h := 0 |} in
  (router_run (str "a")
    [RBind (str "a");
     RPhysical (physical (Key (Device 30) 97 KPressed)) view (Some (100, 100));
     REmulated (str "a") (emulated (Motion (f64_of_int 100) (f64_of_int 100))) view (Some (100, 100));
     REmulated (str "a") (emulated (Button 272 BPressed)) view (Some (100, 100))]
    (router_new ∅ 0 tt) view_empty).1.
Example demo_router_holds :
  List.map hd_keysym (st_pressed_keys (seat_of demo_router (str "a"))) = [97]
  /\ st_pressed (seat_of demo_router (str "a")) = [(272, Emulated)].
Proof. by vm_compute. Qed.

Lemma router_bind_clean_witness :
  exists r', bind_to (str "b") demo_router
    = (Some (str "a", [{| sd_origin := Physical; sd_kind := DKey 97 KReleased |}]), r')
  /\ rt_bound r' = Some (str "b").
Proof.
  destruct (router_bind_clean demo_router (str "b") (str "a") ltac:(vm_compute; reflexivity) ltac:(discriminate))
    as (r' & Hr & Hb & _).
  exists r'. split; [|exact Hb]. rewrite Hr. vm_compute. reflexivity.
Defined.
