(* ===== verification/Uses.v ===== *)
(** * Uses

    [UseKind] of [crates/vitrin-core/src/enforcement.rs], the classes of uses
    the chokepoint distinguishes, and [AskedFor] of
    [crates/vitrin-core/src/designation.rs]. *)

From S2P Require Import Prelude Text Grants Input.

Inductive AskedFor : Type := AskFile (write : bool) | AskDir.
Inductive LayoutMode : Type := Fullscreen | Windowed.
Inductive LayoutAct : Type :=
| Focus (realm : RealmId)
| Arrange (realm : RealmId) (mode : LayoutMode).

Inductive UseKind : Type :=
| Capture
| Pointer (k : SeatInputKind)
| TextUse (k : SeatInputKind)
| Launch
| LayoutFocus
| LayoutArrange (mode : LayoutMode)
| Designate (ask : AskedFor)
| Egress.

Definition verb_of (k : UseKind) : Z :=
  match k with
  | Capture => OBSERVE
  | Pointer _ => ACTUATE_POINTER
  | TextUse _ => ACTUATE_TEXT
  | Launch => REALM_LAUNCH
  | LayoutFocus => LAYOUT_FOCUS
  | LayoutArrange _ => LAYOUT_ARRANGE
  | Designate _ => DESIGNATE_FILE
  | Egress => Grants.EGRESS
  end.

Definition coalescible (k : UseKind) : bool :=
  match k with Capture | Launch | Designate _ | Egress => false | _ => true end.

Definition refused_by_a_vacant_realm (k : UseKind) : bool :=
  match k with Launch | Designate _ | Egress => false | _ => true end.

Definition contends_for_attention (k : UseKind) : bool :=
  match k with
  | Pointer _ | TextUse _ | LayoutFocus | LayoutArrange _ => true
  | _ => false
  end.

Definition names_a_realm (k : UseKind) : bool :=
  contends_for_attention k || match k with Launch | Designate _ => true | _ => false end.

Definition is_layout (k : UseKind) : bool :=
  match k with LayoutFocus | LayoutArrange _ => true | _ => false end.

Definition delivered_through_the_seat (k : UseKind) : bool :=
  match k with Pointer _ | TextUse _ => true | _ => false end.

(** Each use names one verb the wire defines. *)
Lemma verb_of_valid k : mask_contains VALID_MASK (verb_of k) = true /\ verb_of k <> 0.
Proof. destruct k; by split. Qed.
