(* ===== verification/Picker.v ===== *)
(** * The file picker

    [crates/vitrin-core/src/picker/]: [keys.rs], what a key asks of the picker;
    [resolve.rs], one component at a time through [openat2]; [listing.rs], rows
    that must not look alike; [session.rs], the directory a human walks and what
    they choose there; [delivery.rs], descriptors waiting to be handed over.

    The kernel is a world [W] that every call reads and changes: the source
    asks it through [openat2], [dup] and a directory stream. *)

From stdpp Require Import sorting.
From S2P Require Import Prelude BTree Text Identity Grants Petitions Uses Transcript.

(* ------------------------------------------------------------------------ *)
(** ** Keys *)

Inductive Motion : Type := Up | Down | Out | In | PageUp | PageDown | First | Last.
Inductive PickerStep : Type :=
| Move (m : Motion)
| FocusNext
| FocusPrev
| Filter (c : Z)
| FilterBackspace
| Confirm.

Definition XK_BACKSPACE : Z := 65288.
Definition XK_TAB : Z := 65289.
Definition XK_RETURN : Z := 65293.
Definition XK_ESCAPE : Z := 65307.
Definition XK_HOME : Z := 65360.
Definition XK_LEFT : Z := 65361.
Definition XK_UP : Z := 65362.
Definition XK_RIGHT : Z := 65363.
Definition XK_DOWN : Z := 65364.
Definition XK_PAGE_UP : Z := 65365.
Definition XK_PAGE_DOWN : Z := 65366.
Definition XK_END : Z := 65367.
Definition XK_KP_ENTER : Z := 65421.
Definition XK_ISO_LEFT_TAB : Z := 65056.
Definition XK_UNICODE_BASE : Z := 16777216.

Section keys.
Context (face_covers atlas_covers : Z -> bool).

Definition picker_printable (keysym : Z) : option Z :=
  let scalar :=
    if between 32 126 keysym || between 160 255 keysym then Some keysym
    else if XK_UNICODE_BASE <=? keysym then Some (keysym - XK_UNICODE_BASE)
    else None in
  c ← scalar;
  if is_charb c then
    if bool_decide (route face_covers atlas_covers c = Vector) then Some c else None
  else None.

Definition key_decode (keysym : Z) : option PickerStep :=
  if keysym =? XK_ESCAPE then None
  else if keysym =? XK_UP then Some (Move Up)
  else if keysym =? XK_DOWN then Some (Move Down)
  else if keysym =? XK_LEFT then Some (Move Out)
  else if keysym =? XK_RIGHT then Some (Move In)
  else if keysym =? XK_PAGE_UP then Some (Move PageUp)
  else if keysym =? XK_PAGE_DOWN then Some (Move PageDown)
  else if keysym =? XK_HOME then Some (Move First)
  else if keysym =? XK_END then Some (Move Last)
  else if (keysym =? XK_RETURN) || (keysym =? XK_KP_ENTER) then Some Confirm
  else if keysym =? XK_TAB then Some FocusNext
  else if keysym =? XK_ISO_LEFT_TAB then Some FocusPrev
  else if keysym =? XK_BACKSPACE then Some FilterBackspace
  else Filter <$> picker_printable keysym.
End keys.

(* ------------------------------------------------------------------------ *)
(** ** Listings *)

Definition MAX_TAG : nat := 999.

Record Row : Type := { rw_name : Bytes; rw_transcript : Transcript; rw_tag : option Str }.
Record Listing : Type := { li_rows : list Row }.
Inductive ListingError : Type := Unseparable (alike : nat).

Section listing.
Context {D : Type} `{EqDecision D}.
(** The digest of a row's rasterized name field, and [str::to_lowercase]. *)
Context (face_covers atlas_covers : Z -> bool) (rasterize : Transcript -> D) (to_lowercase : Str -> Str).

Fixpoint group_push (d : D) (i : nat) (groups : list (D * list nat)) : list (D * list nat) :=
  match groups with
  | [] => [(d, [i])]
  | (e, members) :: rest =>
      if bool_decide (e = d) then (e, members ++ [i]) :: rest else (e, members) :: group_push d i rest
  end.

Definition head_index (g : list nat) : nat := default 0%nat (head g).
Definition head_le (g h : list nat) : Prop := (head_index g <= head_index h)%nat.
#[export] Instance head_le_dec : RelDecision head_le.
Proof. intros g h. unfold head_le. apply _. Defined.

Definition set_tag (tag : Str) (r : Row) : Row :=
  {| rw_name := rw_name r; rw_transcript := rw_transcript r; rw_tag := Some tag |}.

(** The marks of one group of rows that look alike. *)
Fixpoint tag_group (n : nat) (group : list nat) (rows : list Row) : list Row :=
  match group with
  | [] => rows
  | i :: group => tag_group (S n) group (alter (set_tag (str "#" ++ to_string (Z.of_nat (n + 1)))) i rows)
  end.

Fixpoint tag_groups (collided : list (list nat)) (rows : list Row) : result (list Row) ListingError :=
  match collided with
  | [] => Ok rows
  | g :: collided =>
      if (MAX_TAG <? length g)%nat then Err (Unseparable (length g))
      else tag_groups collided (tag_group 0 g rows)
  end.

(** The groups come out of a [HashMap] in some order, which sorting by the first
    index fixes. *)
Definition collided_groups (rows : list Row) : list (list nat) :=
  let groups := fold_left (fun groups i =>
    match rows !! i with
    | Some row => group_push (rasterize (rw_transcript row)) i groups
    | None => groups
    end) (seq 0 (length rows)) [] in
  merge_sort head_le (filter (fun g => (1 < length g)%nat) (List.map snd groups)).

Definition listing_build (names : list Bytes) : result Listing ListingError :=
  let rows := List.map (fun name =>
    {| rw_name := name; rw_transcript := Transcript.encode face_covers atlas_covers name; rw_tag := None |}) names in
  match tag_groups (collided_groups rows) rows with
  | Ok rows => Ok {| li_rows := rows |}
  | Err e => Err e
  end.

Definition listing_filter (l : Listing) (query : Str) : list nat :=
  match query with
  | [] => seq 0 (length (li_rows l))
  | _ =>
      let needle := to_lowercase query in
      List.filter (fun i =>
        match li_rows l !! i with
        | Some row => contains_str needle (to_lowercase (tr_text (rw_transcript row)))
        | None => false
        end) (seq 0 (length (li_rows l)))
  end.
End listing.

(* ------------------------------------------------------------------------ *)
(** ** Resolution *)

Inductive EffectiveMode : Type := ReadOnly | ReadWrite.
#[export] Instance EffectiveMode_eq_dec : EqDecision EffectiveMode.
Proof. solve_decision. Defined.
Inductive Errno : Type := ENOSYS | ELOOP | EXDEV | ENOENT | ENOTDIR | OtherErrno (code : Z).
Inductive ResolveError : Type := Unsupported | Contained | Missing | Denied.

Definition resolve_error_from_errno (e : Errno) : ResolveError :=
  match e with
  | ENOSYS => Unsupported
  | ELOOP | EXDEV => Contained
  | ENOENT | ENOTDIR => Missing
  | OtherErrno _ => Denied
  end.
(** [session.rs]'s own reading of an error of the directory stream. *)
Definition resolve_error_of (e : Errno) : ResolveError :=
  match e with ENOENT | ENOTDIR => Missing | _ => Denied end.

Record OFlags : Type := { of_rdwr : bool; of_directory : bool; of_cloexec : bool }.
Record ResolveFlags : Type := { rf_no_symlinks : bool; rf_beneath : bool; rf_no_magiclinks : bool }.
Definition RESOLVE : ResolveFlags := {| rf_no_symlinks := true; rf_beneath := true; rf_no_magiclinks := true |}.

Definition oflags (m : EffectiveMode) : OFlags :=
  {| of_rdwr := bool_decide (m = ReadWrite); of_directory := false; of_cloexec := false |}.
Definition directory_flags : OFlags := {| of_rdwr := false; of_directory := true; of_cloexec := true |}.

Inductive FileType : Type := Directory | UnknownType | OtherType.

(** What the kernel answers; every call may change the world. *)
Record Kernel (W Fd : Type) : Type := {
  k_openat2 : W -> Fd -> Bytes -> OFlags -> ResolveFlags -> result Fd Errno * W;
  k_dup : W -> Fd -> option Fd * W;
  k_read_dir : W -> Fd -> result (list (result (Bytes * FileType) Errno)) Errno * W }.
Arguments k_openat2 {W Fd} _ _ _ _ _ _.
Arguments k_dup {W Fd} _ _ _.
Arguments k_read_dir {W Fd} _ _ _.

Section kernel.
Context {W Fd : Type} (K : Kernel W Fd).

(** The parents of a path, each opened from the one before. *)
Fixpoint resolve_parents (w : W) (at_ : Fd) (components : list Bytes) : result Fd ResolveError * W :=
  match components with
  | [] => (Ok at_, w)
  | c :: components =>
      let '(r, w) := k_openat2 K w at_ c directory_flags RESOLVE in
      match r with
      | Err e => (Err (resolve_error_from_errno e), w)
      | Ok next => resolve_parents w next components
      end
  end.

Definition resolve (w : W) (root : Fd) (components : list Bytes) (mode : EffectiveMode) (directory : bool)
    : result Fd ResolveError * W :=
  match last components with
  | None => (Err Missing, w)
  | Some final =>
      let '(r, w) := resolve_parents w root (take (length components - 1) components) in
      match r with
      | Err e => (Err e, w)
      | Ok at_ =>
          let flags :=
            if directory then directory_flags
            else {| of_rdwr := of_rdwr (oflags mode); of_directory := false; of_cloexec := true |} in
          let '(r, w) := k_openat2 K w at_ final flags RESOLVE in
          (match r with Err e => Err (resolve_error_from_errno e) | Ok fd => Ok fd end, w)
      end
  end.

Definition probe (w : W) (root : Fd) : result unit ResolveError * W :=
  let '(r, w) := k_openat2 K w root (Utf8.encode (str "."))
                   {| of_rdwr := false; of_directory := true; of_cloexec := false |} RESOLVE in
  (match r with Err e => Err (resolve_error_from_errno e) | Ok _ => Ok tt end, w).

(* ------------------------------------------------------------------------ *)
(** ** The session *)

Definition MAX_ENTRIES : nat := 8192.
Definition PANEL_ROWS : nat := 8.

Inductive Focus : Type := FListing | FCancel | FConfirm.
Inductive Applied : Type := Unchanged | Changed | Confirmed | Cancelled.
Inductive PickerError : Type :=
| Unreadable (e : ResolveError)
| TooManyEntries (n : nat)
| Indistinguishable (e : ListingError).

Record Entry : Type := { en_name : Bytes; en_dir : bool }.

Record Chosen : Type := {
  ch_dir : Fd; ch_name : Bytes; ch_mode : EffectiveMode; ch_directory : bool; ch_shown_path : list Bytes }.

Record PickerSession : Type := {
  pk_id : Z;
  pk_ask : AskedFor;
  pk_root : Fd;
  pk_here : Fd;
  pk_path : list Bytes;
  pk_entries : list Entry;
  pk_listing : Listing;
  pk_shown : list nat;
  pk_cursor : nat;
  pk_query : Str;
  pk_focus : Focus }.

Record PanelRow : Type := { pr_name : Transcript; pr_tag : option Transcript }.
Record PanelContent : Type := {
  pn_rows : list PanelRow; pn_highlight : option Z; pn_offset : Z; pn_total : Z; pn_query : Transcript }.
Record PickerContent : Type := {
  pkc_principal : PrincipalIdentity; pkc_realm : RealmId; pkc_ask : AskedFor;
  pkc_location : Transcript; pkc_panel : PanelContent; pkc_focus : Focus }.

Definition set_focus (f : Focus) (s : PickerSession) : PickerSession :=
  {| pk_id := pk_id s; pk_ask := pk_ask s; pk_root := pk_root s; pk_here := pk_here s; pk_path := pk_path s;
     pk_entries := pk_entries s; pk_listing := pk_listing s; pk_shown := pk_shown s; pk_cursor := pk_cursor s;
     pk_query := pk_query s; pk_focus := f |}.
Definition set_cursor (c : nat) (s : PickerSession) : PickerSession :=
  {| pk_id := pk_id s; pk_ask := pk_ask s; pk_root := pk_root s; pk_here := pk_here s; pk_path := pk_path s;
     pk_entries := pk_entries s; pk_listing := pk_listing s; pk_shown := pk_shown s; pk_cursor := c;
     pk_query := pk_query s; pk_focus := pk_focus s |}.
Definition set_query (q : Str) (s : PickerSession) : PickerSession :=
  {| pk_id := pk_id s; pk_ask := pk_ask s; pk_root := pk_root s; pk_here := pk_here s; pk_path := pk_path s;
     pk_entries := pk_entries s; pk_listing := pk_listing s; pk_shown := pk_shown s; pk_cursor := pk_cursor s;
     pk_query := q; pk_focus := pk_focus s |}.
Definition set_place (here : Fd) (path : list Bytes) (entries : list Entry) (l : Listing) (s : PickerSession)
    : PickerSession :=
  {| pk_id := pk_id s; pk_ask := pk_ask s; pk_root := pk_root s; pk_here := here; pk_path := path;
     pk_entries := entries; pk_listing := l; pk_shown := pk_shown s; pk_cursor := pk_cursor s;
     pk_query := []; pk_focus := pk_focus s |}.

(** The order of byte strings. *)
Fixpoint bytes_cmp (a b : list Z) : comparison :=
  match a, b with
  | [], [] => Eq
  | [], _ => Lt
  | _, [] => Gt
  | x :: a, y :: b => match x ?= y with Eq => bytes_cmp a b | o => o end
  end.
Definition entry_le (a b : Entry) : Prop := bytes_cmp (en_name a) (en_name b) <> Gt.
#[export] Instance entry_le_dec : RelDecision entry_le.
Proof. intros a b. unfold entry_le. destruct (bytes_cmp _ _); solve_decision. Defined.

Definition dot : Bytes := [46].
Definition dot_dot : Bytes := [46; 46].

(** The stream's entries, one by one. *)
Fixpoint read_loop (w : W) (dir : Fd) (stream : list (result (Bytes * FileType) Errno)) (out : list Entry)
    : result (list Entry) PickerError * W :=
  match stream with
  | [] => (Ok out, w)
  | Err e :: _ => (Err (Unreadable (resolve_error_of e)), w)
  | Ok (name, ty) :: stream =>
      if bool_decide (name = dot) || bool_decide (name = dot_dot) then read_loop w dir stream out
      else if (MAX_ENTRIES <=? length out)%nat then (Err (TooManyEntries (MAX_ENTRIES + 1)), w)
      else
        let '(is_dir, w) :=
          match ty with
          | Directory => (true, w)
          | UnknownType =>
              let '(r, w) := resolve w dir [name] ReadOnly true in
              (match r with Ok _ => true | Err _ => false end, w)
          | OtherType => (false, w)
          end in
        read_loop w dir stream (out ++ [{| en_name := name; en_dir := is_dir |}])
  end.

Definition read_entries (w : W) (dir : Fd) : result (list Entry) PickerError * W :=
  let '(r, w) := k_read_dir K w dir in
  match r with
  | Err e => (Err (Unreadable (resolve_error_of e)), w)
  | Ok stream =>
      let '(r, w) := read_loop w dir stream [] in
      (match r with Ok out => Ok (merge_sort entry_le out) | Err e => Err e end, w)
  end.

Context {D : Type} `{EqDecision D}.
Context (face_covers atlas_covers : Z -> bool) (rasterize : Transcript -> D) (to_lowercase : Str -> Str).

Definition read_and_build (w : W) (dir : Fd) : result (list Entry * Listing) PickerError * W :=
  let '(r, w) := read_entries w dir in
  match r with
  | Err e => (Err e, w)
  | Ok entries =>
      (match listing_build face_covers atlas_covers rasterize (List.map en_name entries) with
       | Ok l => Ok (entries, l)
       | Err e => Err (Indistinguishable e)
       end, w)
  end.

Definition picker_open (w : W) (id : Z) (ask : AskedFor) (root : Fd) : result PickerSession PickerError * W :=
  let '(root_fd, w) := k_dup K w root in
  match root_fd with
  | None => (Err (Unreadable Denied), w)
  | Some root_fd =>
      let '(here, w) := k_dup K w root in
      match here with
      | None => (Err (Unreadable Denied), w)
      | Some here =>
          let '(r, w) := read_and_build w here in
          match r with
          | Err e => (Err e, w)
          | Ok (entries, l) =>
              (Ok {| pk_id := id; pk_ask := ask; pk_root := root_fd; pk_here := here; pk_path := [];
                     pk_entries := entries; pk_listing := l; pk_shown := listing_filter to_lowercase l [];
                     pk_cursor := 0; pk_query := []; pk_focus := FListing |}, w)
          end
      end
  end.

Definition selected (s : PickerSession) : option Entry :=
  row ← pk_shown s !! pk_cursor s;
  r ← li_rows (pk_listing s) !! row;
  List.find (fun e => bool_decide (en_name e = rw_name r)) (pk_entries s).

Definition chosen (w : W) (s : PickerSession) : option Chosen * W :=
  match selected s with
  | None => (None, w)
  | Some entry =>
      let directory := match pk_ask s with AskDir => true | AskFile _ => false end in
      let mode := match pk_ask s with AskFile true => ReadWrite | AskFile false | AskDir => ReadOnly end in
      let '(dir, w) := k_dup K w (pk_here s) in
      (match dir with
       | None => None
       | Some dir => Some {| ch_dir := dir; ch_name := en_name entry; ch_mode := mode;
                             ch_directory := directory; ch_shown_path := pk_path s |}
       end, w)
  end.

Fixpoint joined (components : list Bytes) : Bytes :=
  match components with
  | [] => []
  | [c] => c
  | c :: rest => c ++ 47 :: joined rest
  end.

Definition panel (s : PickerSession) : PanelContent :=
  let window := PANEL_ROWS in
  let offset := (pk_cursor s - (window - 1))%nat in
  let rows := omap (fun row => li_rows (pk_listing s) !! row) (take window (drop offset (pk_shown s))) in
  let rows := List.map (fun r =>
    {| pr_name := rw_transcript r;
       pr_tag := (fun tag => Transcript.encode face_covers atlas_covers (Utf8.encode tag)) <$> rw_tag r |}) rows in
  {| pn_highlight := match rows with [] => None | _ => Some (Z.of_nat (pk_cursor s - offset) mod 65536) end;
     pn_rows := rows;
     pn_offset := Z.of_nat offset mod 4294967296;
     pn_total := Z.of_nat (length (pk_shown s)) mod 4294967296;
     pn_query := Transcript.encode face_covers atlas_covers (Utf8.encode (pk_query s)) |}.

Definition card (s : PickerSession) (principal : PrincipalIdentity) (realm : RealmId) : PickerContent :=
  {| pkc_principal := principal; pkc_realm := realm; pkc_ask := pk_ask s;
     pkc_location := Transcript.encode face_covers atlas_covers (joined (pk_path s));
     pkc_panel := panel s; pkc_focus := pk_focus s |}.

Definition refilter (s : PickerSession) : PickerSession :=
  let shown := listing_filter to_lowercase (pk_listing s) (pk_query s) in
  {| pk_id := pk_id s; pk_ask := pk_ask s; pk_root := pk_root s; pk_here := pk_here s; pk_path := pk_path s;
     pk_entries := pk_entries s; pk_listing := pk_listing s; pk_shown := shown;
     pk_cursor := Nat.min (pk_cursor s) (length shown - 1); pk_query := pk_query s; pk_focus := pk_focus s |}.

Definition descend (w : W) (s : PickerSession) (name : Bytes) : Applied * PickerSession * W :=
  let '(r, w) := resolve w (pk_here s) [name] ReadOnly true in
  match r with
  | Err _ => (Unchanged, s, w)
  | Ok next =>
      let '(r, w) := read_and_build w next in
      match r with
      | Err _ => (Unchanged, s, w)
      | Ok (entries, l) =>
          (Changed, set_cursor 0 (refilter (set_place next (pk_path s ++ [name]) entries l s)), w)
      end
  end.

Definition ascend (w : W) (s : PickerSession) : Applied * PickerSession * W :=
  match last (pk_path s) with
  | None => (Unchanged, s, w)
  | Some left_name =>
      let walk := take (length (pk_path s) - 1) (pk_path s) in
      let '(next, w) :=
        match walk with
        | [] => k_dup K w (pk_root s)
        | _ => let '(r, w) := resolve w (pk_root s) walk ReadOnly true in
               (match r with Ok fd => Some fd | Err _ => None end, w)
        end in
      match next with
      | None => (Unchanged, s, w)
      | Some next =>
          let '(r, w) := read_and_build w next in
          match r with
          | Err _ => (Unchanged, s, w)
          | Ok (entries, l) =>
              let s := refilter (set_place next walk entries l s) in
              let position := list_find (fun row =>
                (rw_name <$> li_rows (pk_listing s) !! row) = Some left_name) (pk_shown s) in
              (Changed, set_cursor (default 0%nat (fst <$> position)) s, w)
          end
      end
  end.

Definition move_by (w : W) (s : PickerSession) (motion : Motion) : Applied * PickerSession * W :=
  let in_listing := match pk_focus s with FListing => true | _ => false end in
  let walks := match motion with Out | In => true | _ => false end in
  if negb in_listing && negb walks then (Unchanged, s, w)
  else
    let last := (length (pk_shown s) - 1)%nat in
    let moved cursor :=
      (if (cursor =? pk_cursor s)%nat then Unchanged else Changed, set_cursor cursor s, w) in
    match motion with
    | Up => moved (pk_cursor s - 1)%nat
    | Down => moved (Nat.min (pk_cursor s + 1) last)
    | PageUp => moved (pk_cursor s - 8)%nat
    | PageDown => moved (Nat.min (pk_cursor s + 8) last)
    | First => moved 0%nat
    | Last => moved last
    | Out => ascend w s
    | In =>
        match selected s with
        | None => (Unchanged, s, w)
        | Some entry => if negb (en_dir entry) then (Unchanged, s, w) else descend w s (en_name entry)
        end
    end.

Definition confirm (w : W) (s : PickerSession) : Applied * PickerSession * W :=
  match selected s with
  | None => (Unchanged, s, w)
  | Some entry =>
      match pk_ask s, en_dir entry with
      | AskFile _, true => descend w s (en_name entry)
      | AskFile _, false => (Confirmed, s, w)
      | AskDir, true => (Confirmed, s, w)
      | AskDir, false => (Unchanged, s, w)
      end
  end.

Definition picker_apply (w : W) (s : PickerSession) (step : PickerStep) : Applied * PickerSession * W :=
  match step with
  | FocusNext =>
      (Changed, set_focus (match pk_focus s with FListing => FConfirm | FConfirm => FCancel | FCancel => FListing end) s, w)
  | FocusPrev =>
      (Changed, set_focus (match pk_focus s with FListing => FCancel | FCancel => FConfirm | FConfirm => FListing end) s, w)
  | Filter c => (Changed, refilter (set_query (pk_query s ++ [c]) s), w)
  | FilterBackspace =>
      match pk_query s with
      | [] => (Unchanged, s, w)
      | q => (Changed, refilter (set_query (removelast q) s), w)
      end
  | Move motion => move_by w s motion
  | Confirm =>
      match pk_focus s with
      | FCancel => (Cancelled, s, w)
      | FListing | FConfirm => confirm w s
      end
  end.
End kernel.

(* ------------------------------------------------------------------------ *)
(** ** Rows that look alike are marked apart *)

Section listing_lemmas.
Context {D : Type} `{EqDecision D}.
Context (face_covers atlas_covers : Z -> bool) (rasterize : Transcript -> D).

Notation row_of := (fun name =>
  {| rw_name := name; rw_transcript := Transcript.encode face_covers atlas_covers name; rw_tag := None |}).

Fixpoint members_of (d : D) (groups : list (D * list nat)) : list nat :=
  match groups with [] => [] | (e, m) :: groups => if bool_decide (e = d) then m else members_of d groups end.

Lemma members_of_push d i e groups :
  members_of e (group_push d i groups) = members_of e groups ++ if bool_decide (e = d) then [i] else [].
Proof.
  induction groups as [|[c m] groups IH]; simpl.
  - by repeat case_bool_decide; subst.
  - destruct (decide (c = d)) as [->|Hc].
    + rewrite (bool_decide_true (d = d)) by done. simpl. destruct (decide (d = e)) as [->|He].
      * by rewrite !bool_decide_true by done.
      * by rewrite !bool_decide_false, app_nil_r by congruence.
    + rewrite (bool_decide_false (c = d)) by done. simpl. destruct (decide (c = e)) as [->|He].
      * by rewrite bool_decide_true, bool_decide_false, app_nil_r by congruence.
      * by rewrite (bool_decide_false (c = e)) by done.
Qed.

Lemma group_push_keys (d : D) i groups :
  List.map fst (group_push d i groups) =
    if bool_decide (d ∈ List.map fst groups) then List.map fst groups else List.map fst groups ++ [d].
Proof.
  induction groups as [|[c m] groups IH]; simpl; [done|]. destruct (decide (c = d)) as [->|Hc].
  - rewrite (bool_decide_true (d = d)) by done. simpl. by rewrite bool_decide_true by left.
  - rewrite (bool_decide_false (c = d)) by done. simpl. rewrite IH. case_bool_decide as Hd.
    + by rewrite bool_decide_true by (by right).
    + rewrite bool_decide_false; [done|]. by inversion 1.
Qed.

Definition alike (rows : list Row) (d : D) (i : nat) : Prop :=
  exists r, rows !! i = Some r /\ rasterize (rw_transcript r) = d.
#[export] Instance alike_dec rows d i : Decision (alike rows d i).
Proof.
  destruct (rows !! i) as [r|] eqn:Hr.
  - destruct (decide (rasterize (rw_transcript r) = d)); [left; by exists r|right; intros (? & ? & ?); congruence].
  - right. intros (? & ? & ?). congruence.
Defined.

(** The groups of the indices below [n]. *)
Definition groups_upto (rows : list Row) (n : nat) : list (D * list nat) :=
  fold_left (fun groups i =>
    match rows !! i with
    | Some row => group_push (rasterize (rw_transcript row)) i groups
    | None => groups
    end) (seq 0 n) [].

Lemma groups_upto_spec rows n :
  NoDup (List.map fst (groups_upto rows n))
  /\ forall d, members_of d (groups_upto rows n) = filter (alike rows d) (seq 0 n).
Proof.
  induction n as [|n [Hnd Hm]]; [split; [constructor|done]|].
  unfold groups_upto in *. rewrite seq_S, fold_left_app. cbn [fold_left Nat.add].
  set (gs := fold_left _ (seq 0 n) []) in *. destruct (rows !! n) as [row|] eqn:Hr.
  - split.
    + rewrite group_push_keys. case_bool_decide as Hin; [done|]. apply NoDup_app.
      split_and!; [done| |apply NoDup_singleton]. by intros e He ->%list_elem_of_singleton.
    + intros d. rewrite members_of_push, Hm, filter_app, filter_cons, filter_nil. f_equal.
      case_bool_decide as Hd; [rewrite decide_True; [done|by exists row]|rewrite decide_False; [done|]].
      intros (? & ? & ?). congruence.
  - split; [done|]. intros d. rewrite Hm, filter_app, filter_cons, filter_nil, decide_False, app_nil_r; [done|].
    intros (? & ? & _). congruence.
Qed.

Lemma members_of_elem d m groups :
  NoDup (List.map fst groups) -> (d, m) ∈ groups -> members_of d groups = m.
Proof.
  induction groups as [|[e k] groups IH]; simpl; [by inversion 2|]. intros [He Hnd]%NoDup_cons.
  intros [[= -> ->]|Hin]%elem_of_cons; [by rewrite bool_decide_true by done|].
  case_bool_decide as Hed; [|by apply IH]. subst. exfalso. apply He.
  by apply (list_elem_of_fmap_2 fst) in Hin.
Qed.

Lemma members_of_nonempty d groups : members_of d groups <> [] -> (d, members_of d groups) ∈ groups.
Proof.
  induction groups as [|[e k] groups IH]; simpl; [done|]. case_bool_decide as He; [subst; intros _; by left|].
  intros Hne. right. by apply IH.
Qed.

(** The groups that need marks: the classes of two or more rows that look alike. *)
Lemma collided_spec rows g :
  g ∈ collided_groups rasterize rows <->
  exists d, g = filter (alike rows d) (seq 0 (length rows)) /\ (1 < length g)%nat.
Proof.
  unfold collided_groups. fold (groups_upto rows (length rows)).
  destruct (groups_upto_spec rows (length rows)) as [Hnd Hm].
  rewrite merge_sort_Permutation, list_elem_of_filter. split.
  - intros [Hlen ([d m] & Hg & Hin)%list_elem_of_fmap_1]. simpl in Hg. subst m. exists d. split; [|done].
    rewrite <- Hm. symmetry. by apply members_of_elem.
  - intros (d & Hg & Hlen). split; [done|]. rewrite <- Hm in Hg.
    apply (list_elem_of_fmap_2' snd _ (d, g)); [|done]. rewrite Hg. apply members_of_nonempty.
    rewrite <- Hg. destruct g; [simpl in Hlen; lia|done].
Qed.

Lemma collided_disjoint rows g h i :
  g ∈ collided_groups rasterize rows -> h ∈ collided_groups rasterize rows -> i ∈ g -> i ∈ h -> g = h.
Proof.
  intros (d & -> & _)%collided_spec (e & -> & _)%collided_spec.
  intros [(r & Hr & <-) _]%list_elem_of_filter [(r' & Hr' & <-) _]%list_elem_of_filter. rewrite Hr in Hr'. by injection Hr' as <-.
Qed.

Lemma collided_NoDup rows : NoDup (collided_groups rasterize rows).
Proof.
  unfold collided_groups. fold (groups_upto rows (length rows)).
  destruct (groups_upto_spec rows (length rows)) as [Hnd Hm].
  rewrite merge_sort_Permutation. set (gs := groups_upto rows (length rows)) in *.
  assert (forall d m, (d, m) ∈ gs -> m = filter (alike rows d) (seq 0 (length rows))) as Hgs.
  { intros d m Hin. rewrite <- Hm. symmetry. by apply members_of_elem. }
  clearbody gs. clear Hm. induction gs as [|[d m] gs IH]; simpl; [constructor|].
  apply NoDup_cons in Hnd as [Hd Hnd]. rewrite filter_cons. specialize (IH Hnd (fun d m Hin => Hgs d m (list_elem_of_further _ _ _ Hin))).
  case_decide as Hlen; [|done]. apply NoDup_cons. split; [|done].
  intros [_ ([e m'] & Hm' & Hin)%list_elem_of_fmap_1]%list_elem_of_filter. simpl in Hm'. subst m'.
  pose proof (Hgs d m ltac:(by left)) as H1. pose proof (Hgs e m ltac:(by right)) as H2.
  destruct m as [|i m]; [simpl in Hlen; lia|].
  assert (i ∈ i :: m) as Hi by left. pose proof Hi as Hi'. rewrite H1 in Hi. rewrite H2 in Hi'.
  apply list_elem_of_filter in Hi as [(r & Hr & <-) _]. apply list_elem_of_filter in Hi' as [(r' & Hr' & <-) _].
  apply Hd. rewrite Hr in Hr'. injection Hr' as <-. by apply (list_elem_of_fmap_2 fst) in Hin.
Qed.

Definition mark (n : nat) : Str := str "#" ++ to_string (Z.of_nat (n + 1)).

Lemma tag_group_lookup n g rows i :
  NoDup g ->
  (i ∉ g -> tag_group n g rows !! i = rows !! i)
  /\ forall k, g !! k = Some i -> tag_group n g rows !! i = set_tag (mark (n + k)) <$> rows !! i.
Proof.
  revert n rows. induction g as [|j g IH]; intros n rows Hnd; [by split|]. cbn [tag_group].
  apply NoDup_cons in Hnd as [Hj Hnd]. fold (mark n). destruct (IH (S n) (alter (set_tag (mark n)) j rows) Hnd) as [IHn IHk].
  split.
  - intros [Hij Hig]%not_elem_of_cons. rewrite IHn by done. by apply list_lookup_alter_ne.
  - intros [|k]; cbn [lookup list_lookup].
    + intros Hk. injection Hk as ->. rewrite IHn by done. rewrite list_lookup_alter_eq. by rewrite Nat.add_0_r.
    + intros Hk. rewrite (IHk k Hk), list_lookup_alter_ne; [by replace (S n + k)%nat with (n + S k)%nat by lia|].
      intros ->. by apply list_elem_of_lookup_2 in Hk.
Qed.

Lemma tag_groups_lookup gs rows rows' :
  NoDup gs -> Forall NoDup gs -> (forall g h i, g ∈ gs -> h ∈ gs -> i ∈ g -> i ∈ h -> g = h) ->
  tag_groups gs rows = Ok rows' ->
  (forall i, (forall g, g ∈ gs -> i ∉ g) -> rows' !! i = rows !! i)
  /\ forall g k i, g ∈ gs -> g !! k = Some i ->
       (length g <= MAX_TAG)%nat /\ rows' !! i = set_tag (mark k) <$> rows !! i.
Proof.
  revert rows. induction gs as [|g gs IH]; intros rows Hnd Hnds Hdis; simpl.
  - intros [= <-]. split; [done|]. intros g k i Hg. inversion Hg.
  - apply NoDup_cons in Hnd as [Hg Hnd]. apply Forall_cons in Hnds as [Hgnd Hnds].
    destruct (Nat.ltb_spec MAX_TAG (length g)) as [|Hlen]; [done|]. intros Ht.
    destruct (IH (tag_group 0 g rows)) as [IHn IHk]; [done|done| |done|].
    { intros; eapply Hdis; try done; by right. }
    assert (forall i, i ∈ g -> forall h, h ∈ gs -> i ∉ h) as Hsep.
    { intros i Hi h Hh Hih. apply Hg. by rewrite (Hdis g h i ltac:(by left) ltac:(by right) Hi Hih). }
    split.
    + intros i Hi. rewrite IHn by (intros h Hh; apply Hi; by right).
      apply tag_group_lookup; [done|]. apply Hi. by left.
    + intros h k i [->|Hh]%elem_of_cons Hk.
      * split; [done|]. rewrite IHn by (apply Hsep; by apply list_elem_of_lookup_2 in Hk).
        by apply (tag_group_lookup 0 g rows i Hgnd).
      * destruct (IHk h k i Hh Hk) as [Hl ->]. split; [done|]. f_equal.
        apply tag_group_lookup; [done|]. intros Hig. apply list_elem_of_lookup_2 in Hk. by apply (Hsep i Hig h).
Qed.

Lemma tag_groups_err gs rows n :
  tag_groups gs rows = Err (Unseparable n) -> exists g, g ∈ gs /\ length g = n /\ (MAX_TAG < n)%nat.
Proof.
  revert rows. induction gs as [|g gs IH]; intros rows; simpl; [done|].
  destruct (Nat.ltb_spec MAX_TAG (length g)) as [Hlen|].
  - intros [= <-]. exists g. split; [by left|done].
  - intros (h & Hh & Hn)%IH. exists h. split; [by right|done].
Qed.

Lemma mark_inj m n : Z.of_nat m < u32_max -> Z.of_nat n < u32_max -> mark m = mark n -> m = n.
Proof.
  unfold mark. intros Hm Hn Heq. apply app_inv_head in Heq.
  assert (parse_unsigned u32_max (to_string (Z.of_nat (m + 1))) = parse_unsigned u32_max (to_string (Z.of_nat (n + 1))))
    as Hp by (by rewrite Heq).
  rewrite !parse_to_string in Hp by (unfold u32_max, u64_max in *; lia). injection Hp as Hp. lia.
Qed.
End listing_lemmas.

Lemma mark_short n : (n < MAX_TAG)%nat -> str_len (mark n) <= 4.
Proof.
  intros Hn. apply Z.leb_le. revert n Hn.
  assert (forall n, List.In n (seq 0 MAX_TAG) -> (str_len (mark n) <=? 4) = true) as Hall.
  { apply List.forallb_forall. by vm_compute. }
  intros n Hn. apply Hall, List.in_seq. lia.
Qed.

Section listing_property.
Context {D : Type} `{EqDecision D}.
Context (face_covers atlas_covers : Z -> bool) (rasterize : Transcript -> D).

Definition plain_row (name : Bytes) : Row :=
  {| rw_name := name; rw_transcript := Transcript.encode face_covers atlas_covers name; rw_tag := None |}.

(** The row at an index: the name's, with a mark exactly when it is in a group. *)
Lemma listing_build_rows names l i :
  listing_build face_covers atlas_covers rasterize names = Ok l ->
  let gs := collided_groups rasterize (List.map plain_row names) in
  (li_rows l !! i = plain_row <$> names !! i /\ forall g, g ∈ gs -> i ∉ g)
  \/ exists g k, g ∈ gs /\ g !! k = Some i /\ (length g <= MAX_TAG)%nat
       /\ li_rows l !! i = (fun name => set_tag (mark k) (plain_row name)) <$> names !! i.
Proof.
  intros Hl gs. unfold listing_build in Hl. cbv zeta in Hl. fold plain_row in Hl. fold gs in Hl.
  destruct (tag_groups gs (List.map plain_row names)) as [rows|] eqn:Ht; [|done]. injection Hl as <-. cbn [li_rows].
  apply tag_groups_lookup in Ht as [Hn Hk]; [|apply collided_NoDup| |apply collided_disjoint].
  2:{ apply Forall_forall. intros g (d & -> & _)%collided_spec. apply NoDup_filter, NoDup_seq. }
  destruct (decide (Exists (fun g => i ∈ g) gs)) as [(g & Hg & Hig)%Exists_exists|Hnone].
  - right. apply list_elem_of_lookup in Hig as [k Hk']. exists g, k.
    destruct (Hk g k i Hg Hk') as [Hlen ->]. split_and!; [done..|]. rewrite list_lookup_fmap. by destruct (names !! i).
  - left. assert (forall g, g ∈ gs -> i ∉ g) as Hno.
    { intros g Hg Hig. apply Hnone, Exists_exists. eauto. }
    split; [|done]. rewrite Hn by done. apply list_lookup_fmap.
Qed.

(** What every row shows. *)
Lemma listing_build_row names l i r :
  listing_build face_covers atlas_covers rasterize names = Ok l -> li_rows l !! i = Some r ->
  names !! i = Some (rw_name r) /\ rw_transcript r = Transcript.encode face_covers atlas_covers (rw_name r).
Proof.
  intros Hl Hr. destruct (listing_build_rows names l i Hl) as [[Hi _]|(g & k & _ & _ & _ & Hi)];
    rewrite Hi in Hr; apply fmap_Some in Hr as (name & Hn & ->); done.
Qed.

Lemma listing_build_names names l :
  listing_build face_covers atlas_covers rasterize names = Ok l -> List.map rw_name (li_rows l) = names.
Proof.
  intros Hl. apply list_eq. intros i. rewrite list_lookup_fmap.
  destruct (listing_build_rows names l i Hl) as [[-> _]|(g & k & _ & _ & _ & ->)]; by destruct (names !! i).
Qed.

Lemma plain_alike names d i :
  alike rasterize (List.map plain_row names) d i <->
  exists name, names !! i = Some name /\ rasterize (Transcript.encode face_covers atlas_covers name) = d.
Proof.
  unfold alike. setoid_rewrite list_lookup_fmap. split.
  - intros (r & Hr & Hd). apply fmap_Some in Hr as (name & Hn & ->). eauto.
  - intros (name & -> & Hd). eexists. split; [done|]. done.
Qed.

(** Two rows that look alike are in one group. *)
Lemma group_of_two names i j ni nj :
  i <> j -> names !! i = Some ni -> names !! j = Some nj ->
  rasterize (Transcript.encode face_covers atlas_covers ni) = rasterize (Transcript.encode face_covers atlas_covers nj) ->
  exists g, g ∈ collided_groups rasterize (List.map plain_row names) /\ i ∈ g /\ j ∈ g.
Proof.
  intros Hij Hi Hj Heq. set (rows := List.map plain_row names).
  set (d := rasterize (Transcript.encode face_covers atlas_covers ni)).
  assert (forall k nk, names !! k = Some nk -> rasterize (Transcript.encode face_covers atlas_covers nk) = d ->
    k ∈ filter (alike rasterize rows d) (seq 0 (length rows))) as Hin.
  { intros k nk Hk Hd. apply list_elem_of_filter. split; [apply plain_alike; eauto|].
    apply elem_of_seq. apply lookup_lt_Some in Hk. unfold rows. rewrite length_map. lia. }
  exists (filter (alike rasterize rows d) (seq 0 (length rows))).
  pose proof (Hin i ni Hi eq_refl) as Hgi. pose proof (Hin j nj Hj (eq_sym Heq)) as Hgj. split; [|done].
  apply collided_spec. exists d. split; [done|].
  destruct (filter _ _) as [|a [|b l]]; [by inversion Hgi| |simpl; lia].
  apply list_elem_of_singleton in Hgi. apply list_elem_of_singleton in Hgj. congruence.
Qed.

(** A row of a group has another like it. *)
Lemma group_partner names g k i :
  g ∈ collided_groups rasterize (List.map plain_row names) -> g !! k = Some i ->
  exists j nj, j <> i /\ names !! j = Some nj /\ forall ni, names !! i = Some ni ->
    rasterize (Transcript.encode face_covers atlas_covers nj) = rasterize (Transcript.encode face_covers atlas_covers ni).
Proof.
  intros (d & Hg & Hlen)%collided_spec Hk. set (rows := List.map plain_row names) in *.
  assert (NoDup g) as Hnd by (rewrite Hg; apply NoDup_filter, NoDup_seq).
  set (k' := if decide (k = 0%nat) then 1%nat else 0%nat).
  destruct (lookup_lt_is_Some_2 g k') as [j Hj]; [unfold k'; case_decide; lia|].
  assert (k <> k') as Hkk by (unfold k'; case_decide; lia).
  assert (forall m x, g !! m = Some x -> alike rasterize rows d x) as Hal.
  { intros m x Hx%list_elem_of_lookup_2. rewrite Hg in Hx. by apply list_elem_of_filter in Hx as [? _]. }
  destruct (proj1 (plain_alike names d j) (Hal _ _ Hj)) as (nj & Hnj & Hdj).
  destruct (proj1 (plain_alike names d i) (Hal _ _ Hk)) as (n & Hn & Hd).
  exists j, nj. split_and!; [|done|].
  - intros ->. apply Hkk. by apply (NoDup_lookup g k k' i).
  - intros ni Hni. rewrite Hn in Hni. injection Hni as <-. congruence.
Qed.

(** No two rows of one listing look alike. A listing of some names has a
    row for each, in order, showing the name's transcript; two rows whose drawn
    pixels are the same carry different marks of at most four characters, and a
    row that looks like no other carries none. The listing is refused exactly when
    some thousand names or more would all look the same. *)
Theorem listing_rows_distinct (names : list Bytes) :
  match listing_build face_covers atlas_covers rasterize names with
  | Ok l =>
      List.map rw_name (li_rows l) = names
      /\ (forall i r, li_rows l !! i = Some r -> rw_transcript r = Transcript.encode face_covers atlas_covers (rw_name r))
      /\ (forall i j r q, i <> j -> li_rows l !! i = Some r -> li_rows l !! j = Some q ->
            rasterize (rw_transcript r) = rasterize (rw_transcript q) ->
            exists a b, rw_tag r = Some a /\ rw_tag q = Some b /\ a <> b)
      /\ (forall i r a, li_rows l !! i = Some r -> rw_tag r = Some a ->
            str_len a <= 4 /\ exists j q, j <> i /\ li_rows l !! j = Some q /\ rasterize (rw_transcript q) = rasterize (rw_transcript r))
  | Err (Unseparable n) =>
      (999 < n)%nat /\ exists g d, NoDup g /\ length g = n /\ forall i, i ∈ g ->
        exists name, names !! i = Some name /\ rasterize (Transcript.encode face_covers atlas_covers name) = d
  end.
Proof.
  destruct (listing_build face_covers atlas_covers rasterize names) as [l|[n]] eqn:Hl.
  - pose proof (fun i r => listing_build_row names l i r Hl) as Hrow.
    pose proof (fun i => listing_build_rows names l i Hl) as Hrows. cbv zeta in Hrows.
    split; [by apply listing_build_names|]. split; [intros i r Hr; by apply (Hrow i)|]. split.
    + intros i j r q Hij Hr Hq Heq. destruct (Hrow i r Hr) as [Hni Hti]. destruct (Hrow j q Hq) as [Hnj Htj].
      destruct (group_of_two names i j (rw_name r) (rw_name q)) as (g & Hg & Hig & Hjg); [done..|congruence|].
      destruct (Hrows i) as [[_ Hno]|(g1 & k1 & Hg1 & Hk1 & Hl1 & Hi)]; [by destruct (Hno g)|].
      destruct (Hrows j) as [[_ Hno]|(g2 & k2 & Hg2 & Hk2 & Hl2 & Hj)]; [by destruct (Hno g)|].
      rewrite Hr, Hni in Hi. rewrite Hq, Hnj in Hj. injection Hi as ->. injection Hj as ->.
      exists (mark k1), (mark k2). split_and!; [done..|]. intros Hm.
      assert (g1 = g2) as <-.
      { apply list_elem_of_lookup_2 in Hk1, Hk2.
        transitivity g; [by apply (collided_disjoint rasterize (List.map plain_row names) g1 g i)|].
        by apply (collided_disjoint rasterize (List.map plain_row names) g g2 j). }
      apply lookup_lt_Some in Hk1 as ?. apply lookup_lt_Some in Hk2 as ?. unfold MAX_TAG in *.
      apply mark_inj in Hm; [congruence|unfold u32_max; lia..].
    + intros i r a Hr Ha. destruct (Hrow i r Hr) as [Hni Hti].
      destruct (Hrows i) as [[Hi _]|(g & k & Hg & Hk & Hlen & Hi)]; rewrite Hr, Hni in Hi; injection Hi as Hi;
        rewrite Hi in Ha; [done|]. injection Ha as <-.
      apply lookup_lt_Some in Hk as Hkl. split; [apply mark_short; lia|].
      destruct (group_partner names g k i Hg Hk) as (j & nj & Hji & Hnj & Hd).
      destruct (lookup_lt_is_Some_2 (li_rows l) j) as [q Hq].
      { apply lookup_lt_Some in Hnj. rewrite <- (listing_build_names names l Hl) in Hnj. by rewrite length_map in Hnj. }
      exists j, q. split_and!; [done..|]. destruct (Hrow j q Hq) as [Hnq ->]. rewrite Hti.
      rewrite Hnj in Hnq. injection Hnq as <-. apply Hd. done.
  - unfold listing_build in Hl. cbv zeta in Hl. fold plain_row in Hl.
    destruct (tag_groups _ _) as [|e] eqn:Ht; [done|]. injection Hl as ->.
    apply tag_groups_err in Ht as (g & Hg & <- & Hlen). split; [done|].
    apply collided_spec in Hg as (d & -> & _). exists (filter (alike rasterize (List.map plain_row names) d) (seq 0 (length (List.map plain_row names)))), d.
    split_and!; [apply NoDup_filter, NoDup_seq|done|]. intros i [Hi _]%list_elem_of_filter. by apply plain_alike.
Qed.
End listing_property.

(* ------------------------------------------------------------------------ *)
(** ** A session *)

Section session.
Context {W Fd : Type} (K : Kernel W Fd).
Context {D : Type} `{EqDecision D}.
Context (face_covers atlas_covers : Z -> bool) (rasterize : Transcript -> D) (to_lowercase : Str -> Str).

(** A name a directory can hold. *)
Definition file_name (name : Bytes) : Prop := is_bytes name /\ name <> [] /\ 47 ∉ name /\ 0 ∉ name.
(** One the picker may walk into: a name, and neither [.] nor [..]. *)
Definition component (name : Bytes) : Prop := file_name name /\ name <> dot /\ name <> dot_dot.

(** What POSIX says of a directory stream. *)
Definition names_are_names : Prop := forall w dir stream w' name ty,
  k_read_dir K w dir = (Ok stream, w') -> Ok (name, ty) ∈ stream -> file_name name.

(** The descriptors that lie beneath a root: the root itself, a duplicate, and
    what [openat2] opens in one under the picker's flags, a component at a time. *)
Inductive reached (root : Fd) : list Bytes -> Fd -> Prop :=
| reached_root : reached root [] root
| reached_dup path fd fd' w w' : reached root path fd -> k_dup K w fd = (Some fd', w') -> reached root path fd'
| reached_open path fd fd' name w w' : reached root path fd -> component name ->
    k_openat2 K w fd name directory_flags RESOLVE = (Ok fd', w') -> reached root (path ++ [name]) fd'.

Definition run_picker (w : W) (s : PickerSession) (steps : list PickerStep) : PickerSession * W :=
  fold_left (fun sw step => let '(_, s, w) := picker_apply K face_covers atlas_covers rasterize to_lowercase sw.2 sw.1 step in (s, w))
    steps (s, w).

Record picker_ok (root : Fd) (s : PickerSession) : Prop := {
  pok_root : reached root [] (pk_root s);
  pok_here : reached root (pk_path s) (pk_here s);
  pok_path : Forall component (pk_path s);
  pok_names : Forall (fun e => component (en_name e)) (pk_entries s);
  pok_listing : listing_build face_covers atlas_covers rasterize (List.map en_name (pk_entries s)) = Ok (pk_listing s);
  pok_shown : pk_shown s = listing_filter to_lowercase (pk_listing s) (pk_query s);
  pok_cursor : (pk_cursor s <= length (pk_shown s) - 1)%nat }.

Lemma resolve_parents_reached root components w w' path at_ fd :
  reached root path at_ -> Forall component components ->
  resolve_parents K w at_ components = (Ok fd, w') -> reached root (path ++ components) fd.
Proof.
  revert w path at_. induction components as [|c cs IH]; intros w path at_ Hr Hc; simpl.
  - intros [= <- _]. by rewrite app_nil_r.
  - apply Forall_cons in Hc as [Hc Hcs]. destruct (k_openat2 K w at_ c _ _) as [[next|e] w1] eqn:Ho; [|done].
    intros Hp. rewrite (app_assoc path [c] cs : path ++ c :: cs = (path ++ [c]) ++ cs).
    eapply IH; [|done..]. by eapply reached_open.
Qed.

Lemma resolve_reached root components w w' path at_ fd :
  reached root path at_ -> Forall component components ->
  resolve K w at_ components ReadOnly true = (Ok fd, w') -> reached root (path ++ components) fd.
Proof.
  intros Hr Hc. unfold resolve. destruct (last components) as [final|] eqn:Hl; [|done].
  apply last_Some in Hl as [parents ->]. apply Forall_app in Hc as [Hp [Hf _]%Forall_cons].
  rewrite length_app, take_app_length' by (simpl; lia).
  destruct (resolve_parents K w at_ parents) as [[at'|e] w1] eqn:Hpar; [|done].
  destruct (k_openat2 K w1 at' final _ _) as [[next|e] w2] eqn:Ho; [|done]. intros [= <- _].
  rewrite app_assoc. eapply reached_open; [|done..]. by eapply resolve_parents_reached.
Qed.

Lemma read_loop_names w dir stream out r w' :
  (forall name ty, Ok (name, ty) ∈ stream -> file_name name) ->
  Forall (fun e => component (en_name e)) out ->
  read_loop K w dir stream out = (Ok r, w') -> Forall (fun e => component (en_name e)) r.
Proof.
  revert w out. induction stream as [|[[name ty]|e] stream IH]; intros w out Hs Hout; simpl; [by intros [= <- _]| |done].
  assert (forall n t, Ok (n, t) ∈ stream -> file_name n) as Hs' by (intros n t Hn; eapply Hs; by right).
  destruct (bool_decide (name = dot)) eqn:Hd; [by apply IH|]. destruct (bool_decide (name = dot_dot)) eqn:Hdd; [by apply IH|].
  apply bool_decide_eq_false in Hd, Hdd. cbn [orb]. case_match; [done|].
  destruct (match ty with Directory => _ | UnknownType => _ | OtherType => _ end) as [is_dir w1].
  apply IH; [done|]. apply Forall_app. split; [done|]. constructor; [|constructor]. cbn [en_name].
  split; [|done]. eapply Hs. by left.
Qed.

Lemma read_and_build_ok (Hnames : names_are_names) w dir entries l w' :
  read_and_build K face_covers atlas_covers rasterize w dir = (Ok (entries, l), w') ->
  Forall (fun e => component (en_name e)) entries
  /\ listing_build face_covers atlas_covers rasterize (List.map en_name entries) = Ok l.
Proof.
  unfold read_and_build, read_entries. destruct (k_read_dir K w dir) as [[stream|e] w1] eqn:Hr; [|done].
  destruct (read_loop K w1 dir stream []) as [[out|e] w2] eqn:Hl; [|done].
  destruct (listing_build _ _ _ _) as [l'|e] eqn:Hb; [|done]. intros [= <- <- _]. split; [|done].
  apply read_loop_names in Hl; [|intros name ty; by eapply Hnames|constructor].
  by rewrite merge_sort_Permutation.
Qed.

Lemma listing_filter_rows l q :
  Forall (fun row => (row < length (li_rows l))%nat) (listing_filter to_lowercase l q).
Proof.
  apply Forall_forall. intros row Hin. unfold listing_filter in Hin. destruct q.
  - apply elem_of_seq in Hin. lia.
  - apply list_elem_of_In, List.filter_In in Hin as [Hin _]. apply List.in_seq in Hin. lia.
Qed.

(** A change of place: everything shown is of the new directory. *)
Lemma set_place_ok (Hnames : names_are_names) root w dir entries l w' path s cursor :
  picker_ok root s -> reached root path dir -> Forall component path ->
  read_and_build K face_covers atlas_covers rasterize w dir = (Ok (entries, l), w') ->
  let s1 := refilter to_lowercase (set_place dir path entries l s) in
  (cursor <= length (pk_shown s1) - 1)%nat -> picker_ok root (set_cursor cursor s1).
Proof.
  intros [] Hr Hp Hb s1 Hc. apply read_and_build_ok in Hb as [Hn Hl]; [|done]. by split.
Qed.

Lemma refilter_ok root s q : picker_ok root s -> picker_ok root (refilter to_lowercase (set_query q s)).
Proof. intros []. split; try done. cbn. lia. Qed.

Lemma set_cursor_ok root s c :
  picker_ok root s -> (c <= length (pk_shown s) - 1)%nat -> picker_ok root (set_cursor c s).
Proof. intros []. by split. Qed.

Lemma descend_ok (Hnames : names_are_names) root w s name :
  picker_ok root s -> component name ->
  picker_ok root (descend K face_covers atlas_covers rasterize to_lowercase w s name).1.2.
Proof.
  intros Hs Hc. unfold descend. destruct (resolve _ _ _ _ _ _) as [[next|e] w1] eqn:Hr; [|done].
  destruct (read_and_build _ _ _ _ w1 next) as [[[entries l]|e] w2] eqn:Hb; [|done]. cbn [fst snd].
  eapply set_place_ok; [done..| | |done|lia].
  - eapply resolve_reached; [apply Hs|by constructor|done].
  - apply Forall_app. split; [apply Hs|by constructor].
Qed.

Lemma ascend_ok (Hnames : names_are_names) root w s :
  picker_ok root s -> picker_ok root (ascend K face_covers atlas_covers rasterize to_lowercase w s).1.2.
Proof.
  intros Hs. unfold ascend. destruct (last (pk_path s)) as [final|] eqn:Hl; [|done].
  apply last_Some in Hl as [walk Hw]. rewrite Hw, length_app, take_app_length' by (simpl; lia).
  pose proof (pok_path _ _ Hs) as Hp. rewrite Hw in Hp. apply Forall_app in Hp as [Hp _].
  set (m := match walk with [] => k_dup K w (pk_root s) | _ => _ end).
  assert (forall next w1, m = (Some next, w1) -> reached root walk next) as Hm.
  { unfold m. intros next w1. destruct walk as [|c cs].
    - intros Hd. eapply reached_dup; [apply Hs|done].
    - destruct (resolve _ _ _ _ _ _) as [[fd|e] w2] eqn:Hr; [|done]. intros [= <- _].
      apply (resolve_reached root (c :: cs) w w2 [] (pk_root s)); [apply Hs|done..]. }
  destruct m as [[next|] w1]; [|done]. specialize (Hm next w1 eq_refl).
  destruct (read_and_build _ _ _ _ w1 next) as [[[entries l]|e] w2] eqn:Hb; [|done]. cbn [fst snd].
  eapply set_place_ok; [done..|].
  destruct (list_find _ _) as [[i row]|] eqn:Hf; simpl; [|lia].
  apply list_find_Some in Hf as (Hi & _). apply lookup_lt_Some in Hi. simpl in *. lia.
Qed.

Lemma selected_component root s entry : picker_ok root s -> selected s = Some entry -> component (en_name entry).
Proof.
  intros Hs Hsel. unfold selected in Hsel. destruct (pk_shown s !! pk_cursor s); [|done]. simpl in Hsel.
  destruct (li_rows (pk_listing s) !! n); [|done]. simpl in Hsel. apply List.find_some in Hsel as [Hin _].
  apply list_elem_of_In in Hin. pose proof (pok_names _ _ Hs) as Hn. rewrite Forall_forall in Hn. by apply Hn.
Qed.

Lemma picker_apply_ok (Hnames : names_are_names) root w s step :
  picker_ok root s -> picker_ok root (picker_apply K face_covers atlas_covers rasterize to_lowercase w s step).1.2.
Proof.
  intros Hs. destruct step as [m| | |c| |]; cbn [picker_apply].
  - unfold move_by. destruct (negb _ && negb _); [done|].
    pose proof (pok_cursor _ _ Hs) as Hcur.
    destruct m; cbn [fst snd]; try (apply set_cursor_ok; [done|lia]); [by apply ascend_ok|].
    destruct (selected s) as [entry|] eqn:Hsel; [|done]. destruct (negb _); [done|].
    apply descend_ok; [done..|]. by eapply selected_component.
  - by destruct Hs.
  - by destruct Hs.
  - by apply refilter_ok.
  - destruct (pk_query s); [done|]. by apply refilter_ok.
  - destruct (pk_focus s); [|done|]; unfold confirm;
      (destruct (selected s) as [entry|] eqn:Hsel; [|done]);
      destruct (pk_ask s), (en_dir entry); try done;
      (apply descend_ok; [done..|]; by eapply selected_component).
Qed.

Lemma run_picker_ok (Hnames : names_are_names) root steps w s :
  picker_ok root s -> picker_ok root (run_picker w s steps).1.
Proof.
  unfold run_picker. revert w s. induction steps as [|step steps IH]; intros w s Hs; simpl; [done|].
  pose proof (picker_apply_ok Hnames root w s step Hs) as Ha.
  destruct (picker_apply _ _ _ _ _ w s step) as [[a s1] w1]. by apply IH.
Qed.

Lemma picker_open_ok (Hnames : names_are_names) w id ask root s w' :
  picker_open K face_covers atlas_covers rasterize to_lowercase w id ask root = (Ok s, w') -> picker_ok root s.
Proof.
  unfold picker_open. destruct (k_dup K w root) as [[root_fd|] w1] eqn:H1; [|done].
  destruct (k_dup K w1 root) as [[here|] w2] eqn:H2; [|done].
  destruct (read_and_build _ _ _ _ w2 here) as [[[entries l]|e] w3] eqn:Hb; [|done].
  apply read_and_build_ok in Hb as [Hn Hl]; [|done]. intros [= <- _].
  split; cbn; try done; try lia; (eapply reached_dup; [constructor|done]).
Qed.

Lemma omap_total {A B} (f : A -> option B) l :
  Forall (fun x => is_Some (f x)) l -> length (omap f l) = length l /\ forall h, omap f l !! h = x ← l !! h; f x.
Proof.
  induction 1 as [|x l [y Hy] Hl [IHlen IH]]; [done|]. cbn [omap list_omap]. rewrite Hy. split.
  - simpl. by rewrite IHlen.
  - intros [|h]; simpl; [done|]. apply IH.
Qed.

Lemma panel_rows root s h :
  picker_ok root s ->
  let offset := (pk_cursor s - (PANEL_ROWS - 1))%nat in
  pn_rows (panel face_covers atlas_covers s) !! h =
    (if (h <? PANEL_ROWS)%nat then
       row ← pk_shown s !! (offset + h)%nat; r ← li_rows (pk_listing s) !! row;
       Some {| pr_name := rw_transcript r;
               pr_tag := (fun tag => Transcript.encode face_covers atlas_covers (Utf8.encode tag)) <$> rw_tag r |}
     else None)
  /\ length (pn_rows (panel face_covers atlas_covers s)) = Nat.min PANEL_ROWS (length (pk_shown s) - offset).
Proof.
  intros Hs offset. cbn [panel pn_rows]. fold offset.
  destruct (omap_total (fun row => li_rows (pk_listing s) !! row) (take PANEL_ROWS (drop offset (pk_shown s)))) as [Hlen Hlk].
  { apply Forall_take, Forall_drop. rewrite (pok_shown _ _ Hs).
    eapply Forall_impl; [apply listing_filter_rows|]. intros row Hrow. by apply lookup_lt_is_Some. }
  split.
  - rewrite list_lookup_fmap, Hlk. destruct (Nat.ltb_spec h PANEL_ROWS).
    + rewrite lookup_take_lt, lookup_drop by done. destruct (pk_shown s !! _) as [row|]; simpl; [|done].
      by destruct (li_rows (pk_listing s) !! row).
    + by rewrite lookup_take_ge by lia.
  - rewrite length_map, Hlen, length_take, length_drop. lia.
Qed.

Lemma selected_spec root s :
  picker_ok root s ->
  (pk_shown s = [] /\ selected s = None)
  \/ exists e row r, pk_shown s <> [] /\ selected s = Some e /\ pk_shown s !! pk_cursor s = Some row
       /\ li_rows (pk_listing s) !! row = Some r /\ rw_name r = en_name e
       /\ rw_transcript r = Transcript.encode face_covers atlas_covers (en_name e).
Proof.
  intros Hs. unfold selected. pose proof (pok_cursor _ _ Hs) as Hcur.
  destruct (pk_shown s) as [|x shown] eqn:Hsh; [by left|]. right. rewrite <- Hsh in *.
  destruct (lookup_lt_is_Some_2 (pk_shown s) (pk_cursor s)) as [row Hrow]; [rewrite Hsh in *; simpl in *; lia|].
  rewrite Hrow. simpl. pose proof (listing_filter_rows (pk_listing s) (pk_query s)) as Hf.
  rewrite <- (pok_shown _ _ Hs) in Hf. pose proof (Forall_lookup_1 _ _ _ _ Hf Hrow) as Hlt. cbv beta in Hlt.
  destruct (lookup_lt_is_Some_2 _ _ Hlt) as [r Hr]. rewrite Hr. simpl.
  destruct (listing_build_row _ _ _ _ _ _ _ (pok_listing _ _ Hs) Hr) as [Hname Htr].
  destruct (List.find _ (pk_entries s)) as [e|] eqn:Hfind.
  - apply List.find_some in Hfind as [_ Heq%bool_decide_eq_true]. exists e, row, r.
    rewrite Heq. split_and!; [by rewrite Hsh|done..].
  - exfalso. rewrite list_lookup_fmap in Hname. apply fmap_Some in Hname as (e & He & Hn).
    apply list_elem_of_lookup_2, list_elem_of_In in He. apply (List.find_none _ _ Hfind) in He.
    by apply bool_decide_eq_false in He.
Qed.

Lemma picker_apply_ask w s step :
  pk_ask (picker_apply K face_covers atlas_covers rasterize to_lowercase w s step).1.2 = pk_ask s.
Proof.
  assert (forall w s name, pk_ask (descend K face_covers atlas_covers rasterize to_lowercase w s name).1.2 = pk_ask s) as Hd.
  { intros. unfold descend. destruct (resolve _ _ _ _ _ _) as [[]]; [|done]. by destruct (read_and_build _ _ _ _ _ _) as [[[]|]]. }
  destruct step as [m| | |c| |]; cbn [picker_apply]; try done.
  - unfold move_by. destruct (negb _ && negb _); [done|]. destruct m; try done.
    + unfold ascend. destruct (last _); [|done]. destruct (match take _ _ with [] => _ | _ => _ end) as [[]]; [|done].
      by destruct (read_and_build _ _ _ _ _ _) as [[[]|]].
    + destruct (selected s) as [e|]; [|done]. by destruct (negb _).
  - by destruct (pk_query s).
  - destruct (pk_focus s); [|done|]; unfold confirm; (destruct (selected s) as [e|]; [|done]);
      destruct (pk_ask s) eqn:Ha, (en_dir e); rewrite ?Hd; done.
Qed.

Lemma run_picker_ask steps w s : pk_ask (run_picker w s steps).1 = pk_ask s.
Proof.
  unfold run_picker. revert w s. induction steps as [|step steps IH]; intros w s; simpl; [done|].
  pose proof (picker_apply_ask w s step) as Ha. destruct (picker_apply _ _ _ _ _ w s step) as [[a s1] w1].
  by rewrite IH.
Qed.

Lemma picker_open_ask w id ask root s w' :
  picker_open K face_covers atlas_covers rasterize to_lowercase w id ask root = (Ok s, w') -> pk_ask s = ask.
Proof.
  unfold picker_open. destruct (k_dup K w root) as [[?|] ?]; [|done]. destruct (k_dup K _ root) as [[?|] ?]; [|done].
  destruct (read_and_build _ _ _ _ _ _) as [[[? ?]|?] ?]; [|done]. by intros [= <- _].
Qed.

Lemma joined_join path : joined path = join 47 path.
Proof.
  induction path as [|c [|d path] IH]; [done|cbn; by rewrite ?app_nil_r|].
  rewrite join_cons by done. rewrite <- IH. done.
Qed.

(** The location names one path. *)
Lemma joined_inj p q : Forall component p -> Forall component q -> joined p = joined q -> p = q.
Proof.
  assert (forall p, Forall component p -> p <> [] -> split_char 47 (joined p) = p) as Hsplit.
  { intros r Hr Hne. rewrite joined_join. apply split_char_join; [done|].
    eapply Forall_impl; [done|]. intros c [(_ & _ & Hc & _) _] Hin. apply Hc. by apply list_elem_of_In. }
  assert (forall p, Forall component p -> joined p = [] -> p = []) as Hnil.
  { intros [|c [|d r]] Hr; [done| |]; apply Forall_cons in Hr as [[(_ & Hc & _) _] _]; cbn [joined]; [done|].
    by destruct c. }
  intros Hp Hq Heq. destruct p as [|c p]; [symmetry; by apply Hnil|].
  destruct q as [|d q]; [by apply Hnil|]. rewrite <- (Hsplit (c :: p)), <- (Hsplit (d :: q)) by done. by rewrite Heq.
Qed.

Lemma joined_bytes p : Forall component p -> is_bytes (joined p).
Proof.
  induction p as [|c [|d p] IH]; intros Hp; [constructor|by apply Forall_cons in Hp as [[[? _] _] _]|].
  apply Forall_cons in Hp as [[[Hc _] _] Hp]. apply Forall_app. split; [done|]. constructor; [done|by apply IH].
Qed.


Lemma panel_highlight root s e :
  picker_ok root s -> selected s = Some e ->
  exists h row, pn_highlight (panel face_covers atlas_covers s) = Some (Z.of_nat h)
    /\ pn_rows (panel face_covers atlas_covers s) !! h = Some row
    /\ pr_name row = Transcript.encode face_covers atlas_covers (en_name e).
Proof.
  intros Hs Hsel. destruct (selected_spec root s Hs) as [[_ Hn]|(e' & row & r & Hne & He & Hrow & Hr & Hname & Htr)]; [congruence|].
  rewrite Hsel in He. injection He as <-. set (offset := (pk_cursor s - (PANEL_ROWS - 1))%nat).
  exists (pk_cursor s - offset)%nat.
  destruct (panel_rows root s (pk_cursor s - offset)%nat Hs) as [Hrows Hlen]. fold offset in Hrows, Hlen.
  assert (pk_cursor s - offset < PANEL_ROWS)%nat as Hlt by (unfold offset, PANEL_ROWS; lia).
  rewrite (proj2 (Nat.ltb_lt _ _) Hlt) in Hrows.
  replace (offset + (pk_cursor s - offset))%nat with (pk_cursor s) in Hrows by (unfold offset; lia).
  rewrite Hrow in Hrows. simpl in Hrows. rewrite Hr in Hrows. simpl in Hrows.
  eexists. split; [|split; [exact Hrows|done]].
  unfold panel in Hrows |- *. cbn [pn_rows pn_highlight] in *. fold offset in Hrows |- *.
  destruct (List.map _ _) as [|p ps]; [done|]. f_equal. apply Z.mod_small. unfold PANEL_ROWS in Hlt. lia.
Qed.

Lemma panel_no_highlight root s :
  picker_ok root s -> selected s = None -> pn_highlight (panel face_covers atlas_covers s) = None.
Proof.
  intros Hs Hsel. destruct (selected_spec root s Hs) as [[Hn _]|(e' & row & r & Hne & He & _)]; [|congruence].
  destruct (panel_rows root s 0 Hs) as [_ Hlen].
  assert (length (pn_rows (panel face_covers atlas_covers s)) = 0%nat) as H0 by (rewrite Hlen, Hn; simpl; lia).
  apply nil_length_inv in H0. unfold panel in *. cbn [pn_rows pn_highlight] in *. by rewrite H0.
Qed.

Lemma confirm_confirmed w s s' w' :
  picker_apply K face_covers atlas_covers rasterize to_lowercase w s Confirm = (Confirmed, s', w') ->
  s' = s /\ w' = w /\ pk_focus s <> FCancel
  /\ exists e, selected s = Some e /\ en_dir e = match pk_ask s with AskDir => true | AskFile _ => false end.
Proof.
  cbn [picker_apply]. destruct (pk_focus s) eqn:Hf; [|done|]; unfold confirm;
    (destruct (selected s) as [e|] eqn:Hsel; [|done]);
    (destruct (pk_ask s) as [write|] eqn:Ha, (en_dir e) eqn:Hd; try (intros [= <- <-]; naive_solver));
    unfold descend; (destruct (resolve _ _ _ _ _ _) as [[]]; [|done]);
    by destruct (read_and_build _ _ _ _ _ _) as [[[]|]].
Qed.

(** C25: the picker hands over what it showed. Whatever keys are pressed and
    however the file system behaves: the card names the directory the human is
    in, and no other path; the panel draws at most eight rows; a row is
    highlighted exactly when something is selected, and what it shows decodes to the
    name selected. When the human confirms, nothing has moved, the entry
    selected is of the kind asked for, and what is chosen is that name, with no more
    access than was asked, in a duplicate of the very descriptor of the directory
    the human is in, which is the directory the card names: it was reached from the
    picker's root by opening the components of the path shown, one at a time. *)
Theorem picker_designates_what_it_shows (root : Fd) (w w0 : W) (id : Z) (ask : AskedFor) (s0 : PickerSession)
  (steps : list PickerStep) (principal : PrincipalIdentity) (realm : RealmId)
  (Hnames : names_are_names)
  (Hopen : picker_open K face_covers atlas_covers rasterize to_lowercase w id ask root = (Ok s0, w0)) :
  let '(s, w') := run_picker w0 s0 steps in
  let shown := card face_covers atlas_covers s principal realm in
  (exists bytes, Transcript.decode (tr_text (pkc_location shown)) = Some bytes
     /\ forall path, Forall component path -> joined path = bytes <-> path = pk_path s)
  /\ (length (pn_rows (pkc_panel shown)) <= 8)%nat
  /\ match selected s with
     | None => pn_highlight (pkc_panel shown) = None
     | Some e => exists h row, pn_highlight (pkc_panel shown) = Some (Z.of_nat h)
         /\ pn_rows (pkc_panel shown) !! h = Some row /\ Transcript.decode (tr_text (pr_name row)) = Some (en_name e)
     end
  /\ forall s1 w1, picker_apply K face_covers atlas_covers rasterize to_lowercase w' s Confirm = (Confirmed, s1, w1) ->
       s1 = s /\ w1 = w' /\ exists e, selected s = Some e
         /\ en_dir e = match ask with AskDir => true | AskFile _ => false end
         /\ forall ch w2, chosen K w1 s1 = (Some ch, w2) ->
              k_dup K w1 (pk_here s) = (Some (ch_dir ch), w2) /\ reached root (pk_path s) (ch_dir ch)
              /\ ch_name ch = en_name e /\ ch_shown_path ch = pk_path s /\ ch_directory ch = en_dir e
              /\ (ch_mode ch = ReadWrite <-> ask = AskFile true).
Proof.
  pose proof (run_picker_ok Hnames root steps w0 s0 (picker_open_ok Hnames _ _ _ _ _ _ Hopen)) as Hs.
  pose proof (run_picker_ask steps w0 s0) as Ha. rewrite (picker_open_ask _ _ _ _ _ _ Hopen) in Ha.
  destruct (run_picker w0 s0 steps) as [s w']. cbn [fst] in Hs, Ha. cbn zeta.
  pose proof (pok_path _ _ Hs) as Hp. split_and!.
  - exists (joined (pk_path s)). split; [apply transcript_decodes; by apply joined_bytes|].
    intros path Hpath. split; [|by intros ->]. by apply joined_inj.
  - destruct (panel_rows root s 0 Hs) as [_ Hlen]. cbn [card pkc_panel]. rewrite Hlen. unfold PANEL_ROWS. lia.
  - cbn [card pkc_panel]. destruct (selected s) as [e|] eqn:Hsel; [|by eapply panel_no_highlight].
    destruct (panel_highlight root s e Hs Hsel) as (h & row & Hh & Hrow & Hn). exists h, row. split_and!; [done..|].
    rewrite Hn. apply transcript_decodes. by apply (selected_component root s e).
  - intros s1 w1 (-> & -> & _ & e & Hsel & Hd)%confirm_confirmed. split_and!; [done..|]. exists e.
    split; [done|]. rewrite Ha in Hd. split; [done|].
    intros ch w2. unfold chosen. rewrite Hsel, Ha. destruct (k_dup K w' (pk_here s)) as [[dir|] w3] eqn:Hdup; [|done].
    intros [= <- <-]. cbn. split_and!; [done|eapply reached_dup; [apply Hs|done]|done..| |]; by destruct ask as [[]|].
Qed.

(** The picker never leaves the tree it was given. After any keys, over a
    file system that may change or lie at every call, the directory the human
    is in was reached from the picker's root by opening the components of the path
    one at a time, each a plain name - not [.], not [..], without a slash -
    beneath the one before and through no symbolic link; and so is the directory
    the choice is opened in. *)
Theorem picker_confined (root : Fd) (w w0 : W) (id : Z) (ask : AskedFor) (s0 : PickerSession)
  (steps : list PickerStep)
  (Hnames : names_are_names)
  (Hopen : picker_open K face_covers atlas_covers rasterize to_lowercase w id ask root = (Ok s0, w0)) :
  let '(s, w') := run_picker w0 s0 steps in
  reached root (pk_path s) (pk_here s) /\ Forall component (pk_path s)
  /\ forall ch w2, chosen K w' s = (Some ch, w2) -> reached root (pk_path s) (ch_dir ch) /\ component (ch_name ch).
Proof.
  pose proof (run_picker_ok Hnames root steps w0 s0 (picker_open_ok Hnames _ _ _ _ _ _ Hopen)) as Hs.
  destruct (run_picker w0 s0 steps) as [s w']. cbn [fst] in Hs. split_and!; [apply Hs..|].
  intros ch w2. unfold chosen. destruct (selected s) as [e|] eqn:Hsel; [|done].
  destruct (k_dup K w' (pk_here s)) as [[dir|] w3] eqn:Hdup; [|done]. intros [= <- _]. cbn.
  split; [eapply reached_dup; [apply Hs|done]|]. by eapply selected_component.
Qed.
End session.

(* ------------------------------------------------------------------------ *)
(** ** A small file system *)

Definition a_txt : Bytes := Utf8.encode (str "a.txt").
Definition docs : Bytes := Utf8.encode (str "docs").
Definition tree (path : list Bytes) : option (list (Bytes * FileType)) :=
  if bool_decide (path = []) then Some [(dot, Directory); (docs, Directory); (a_txt, OtherType)]
  else if bool_decide (path = [docs]) then Some [(dot_dot, Directory); (a_txt, OtherType)] else None.
(** A descriptor is the path it was opened at; the world counts the calls. *)
Definition small_kernel : Kernel nat (list Bytes) := {|
  k_openat2 := fun w fd name _ _ =>
    (match tree (fd ++ [name]) with Some _ => Ok (fd ++ [name]) | None => Err ENOENT end, S w);
  k_dup := fun w fd => (Some fd, S w);
  k_read_dir := fun w fd =>
    (match tree fd with Some l => Ok (List.map Ok l) | None => Err ENOTDIR end, S w) |}.


Lemma small_kernel_names : names_are_names small_kernel.
Proof.
  assert (forall name, forallb (fun b => between 1 255 b && negb (b =? 47)) name = true -> name <> [] -> file_name name) as Hb.
  { intros name Hall Hne. rewrite List.forallb_forall in Hall. split_and!; [|done|..].
    - apply List.Forall_forall. intros b Hb. specialize (Hall b Hb). unfold between in Hall. unbool. unfold is_u8, u8_max. lia.
    - intros Hin%list_elem_of_In%Hall. done.
    - intros Hin%list_elem_of_In%Hall. done. }
  intros w dir stream w' name ty. cbn. unfold tree. repeat case_bool_decide; intros Hs; try done;
    injection Hs as <- _; intros Hin; cbn [List.map] in Hin;
    repeat (apply elem_of_cons in Hin as [Hin|Hin]; [injection Hin as -> _; by apply Hb|]); by inversion Hin.
Qed.

Definition all_faces (_ : Z) : bool := true.
Definition small_open : result (PickerSession (Fd := list Bytes)) PickerError * nat :=
  picker_open small_kernel all_faces no_atlas tr_text id 0%nat 1 (AskFile false) [].
Definition small_steps : list PickerStep := [Move Down; Move In].

Lemma picker_designates_what_it_shows_witness :
  exists s0 w0, small_open = (Ok s0, w0)
  /\ let s := (run_picker small_kernel all_faces no_atlas tr_text id w0 s0 small_steps).1 in
     pk_path s = [docs] /\ (en_name <$> selected s) = Some a_txt
     /\ exists h row, pn_highlight (panel all_faces no_atlas s) = Some (Z.of_nat h)
          /\ pn_rows (panel all_faces no_atlas s) !! h = Some row
          /\ Transcript.decode (tr_text (pr_name row)) = Some a_txt.
Proof.
  destruct small_open as [[s0|e] w0] eqn:Hopen; [|by vm_compute in Hopen].
  exists s0, w0. split; [done|].
  pose proof (picker_designates_what_it_shows small_kernel all_faces no_atlas tr_text id [] 0%nat w0 1 (AskFile false) s0
    small_steps [] [] small_kernel_names Hopen) as Hshow.
  assert (pk_path (run_picker small_kernel all_faces no_atlas tr_text id w0 s0 small_steps).1 = [docs]
    /\ (en_name <$> selected (run_picker small_kernel all_faces no_atlas tr_text id w0 s0 small_steps).1) = Some a_txt) as [Hp Hsel].
  { clear Hshow. vm_compute in Hopen. injection Hopen as <- <-. by vm_compute. }
  destruct (run_picker _ _ _ _ _ w0 s0 small_steps) as [s w']. cbn [fst] in *. cbn zeta in Hshow |- *.
  split; [exact Hp|]. split; [exact Hsel|]. destruct Hshow as (_ & _ & Hh & _).
  destruct (selected s) as [e|]; [|done]. injection Hsel as <-. exact Hh.
Defined.

Lemma picker_confined_witness :
  exists s0 w0, small_open = (Ok s0, w0)
  /\ let s := (run_picker small_kernel all_faces no_atlas tr_text id w0 s0 small_steps).1 in
     pk_here s = [docs] /\ reached small_kernel [] [docs] (pk_here s).
Proof.
  destruct small_open as [[s0|e] w0] eqn:Hopen; [|by vm_compute in Hopen].
  exists s0, w0. split; [done|].
  pose proof (picker_confined small_kernel all_faces no_atlas tr_text id [] 0%nat w0 1 (AskFile false) s0
    small_steps small_kernel_names Hopen) as Hc.
  assert (pk_path (run_picker small_kernel all_faces no_atlas tr_text id w0 s0 small_steps).1 = [docs]
    /\ pk_here (run_picker small_kernel all_faces no_atlas tr_text id w0 s0 small_steps).1 = [docs]) as [Hp Hh].
  { clear Hc. vm_compute in Hopen. injection Hopen as <- <-. by vm_compute. }
  destruct (run_picker _ _ _ _ _ w0 s0 small_steps) as [s w']. cbn [fst] in *. cbn zeta in Hc |- *.
  destruct Hc as (Hr & _). rewrite Hp in Hr. split; [exact Hh|exact Hr].
Defined.

(** Two look-alikes in one listing are marked; a name that looks like no other is not. *)
Example marks :
  (List.map rw_tag <$> match listing_build all_faces no_atlas (fun t => length (tr_text t)) [a_txt; docs; rev a_txt] with
                       | Ok l => Some (li_rows l) | Err _ => None end)
  = Some [Some (str "#1"); None; Some (str "#2")].
Proof. by vm_compute. Qed.
(** A query of two scripts is drawn transcribed, and a backslash doubled. *)
Example query_is_transcribed :
  key_decode all_faces no_atlas 16778293 = Some (Filter 1077) /\ key_decode all_faces no_atlas 92 = Some (Filter 92)
  /\ tr_text (Transcript.encode all_faces no_atlas (Utf8.encode [114; 1077])) = str "r\u{0435}"
  /\ tr_text (Transcript.encode all_faces no_atlas (Utf8.encode [92])) = str "\\".
Proof. by vm_compute. Qed.
