(* ===== verification/Delivery.v ===== *)
(** * Designations in flight

    [crates/vitrin-core/src/picker/delivery.rs]: descriptors a human has chosen,
    held until both the agent that asked and the shim of the realm have been
    told, or until the attempt is abandoned. *)

From S2P Require Import Prelude BTree Text Identity Grants Petitions Uses.

Definition DELIVERY_DEADLINE : Duration := from_secs 2.

Inductive Half : Type := Owed | Sent | Failed.
#[export] Instance Half_eq_dec : EqDecision Half.
Proof. solve_decision. Defined.
Inductive Abandoned : Type := NoTurn | ConnectionGone | RealmDied | SendFailed.
#[export] Instance Abandoned_eq_dec : EqDecision Abandoned.
Proof. solve_decision. Defined.

Section delivery.
Context {Fd : Type}.

Record InFlight : Type := {
  if_id : Z;
  if_fd : Fd;
  if_dev_ino : Z * Z;
  if_ask : AskedFor;
  if_grant : GrantId;
  if_principal : PrincipalIdentity;
  if_connection : ConnectionId;
  if_realm : RealmId;
  if_name : Bytes;
  if_facet_id : Z;
  if_grant_wire_id : Z;
  if_agent : Half;
  if_shim : Half;
  if_deadline : Instant }.

Definition settled (e : InFlight) : bool := negb (bool_decide (if_agent e = Owed)) && negb (bool_decide (if_shim e = Owed)).

Abbreviation DeliveryTable := (btree InFlight) (only parsing).

(** The assertion that the id is new is a debug one. *)
Definition park (e : InFlight) (t : DeliveryTable) : DeliveryTable := <[if_id e := e]> t.
(** [get_mut], and what the caller does to the entry. *)
Definition delivery_update (id : Z) (f : InFlight -> InFlight) (t : DeliveryTable) : DeliveryTable := bt_set t id f.
Definition take_any (id : Z) (t : DeliveryTable) : option InFlight * DeliveryTable := (t !! id, delete id t).
Definition take_settled (id : Z) (t : DeliveryTable) : option InFlight * DeliveryTable :=
  match t !! id with
  | Some e => if settled e then (Some e, delete id t) else (None, t)
  | None => (None, t)
  end.
Definition delivery_outstanding (t : DeliveryTable) : Z := bt_len t.

Definition owed_by_connection (connection : ConnectionId) (t : DeliveryTable) : option Z :=
  if_id <$> List.find (fun e => (if_connection e =? connection) && bool_decide (if_agent e = Owed)) (bt_values t).
Definition owed_by_realm (realm : RealmId) (t : DeliveryTable) : option Z :=
  if_id <$> List.find (fun e => str_eqb (if_realm e) realm && bool_decide (if_agent e = Sent) && bool_decide (if_shim e = Owed))
              (bt_values t).

(** The sweeps collect the ids, then remove them one by one. *)
Definition abandon (why : Abandoned) (p : InFlight -> bool) (t : DeliveryTable)
    : list (InFlight * Abandoned) * DeliveryTable :=
  let due := bt_select t (fun _ e => p e) in
  let '(out, t) := remove_each due t in (List.map (fun e => (e, why)) out, t).
Definition delivery_expire_due (now : Instant) := abandon NoTurn (fun e => if_deadline e <=? now).
Definition delivery_withdraw_principal (who : PrincipalIdentity) := abandon ConnectionGone (fun e => str_eqb (if_principal e) who).
Definition delivery_withdraw_by_id (c : ConnectionId) := abandon ConnectionGone (fun e => if_connection e =? c).
Definition delivery_forget_realm (realm : RealmId) := abandon RealmDied (fun e => str_eqb (if_realm e) realm).

(* ------------------------------------------------------------------------ *)
(** ** Runs *)

Inductive DeliveryOp : Type :=
| DPark (e : InFlight)
| DHalves (id : Z) (agent shim : option Half)
| DTakeAny (id : Z)
| DTakeSettled (id : Z)
| DExpire (now : Instant)
| DWithdrawPrincipal (who : PrincipalIdentity)
| DWithdraw (c : ConnectionId)
| DForget (realm : RealmId).

(** What the core does through [get_mut]: it settles halves. *)
Definition set_halves (agent shim : option Half) (e : InFlight) : InFlight :=
  {| if_id := if_id e; if_fd := if_fd e; if_dev_ino := if_dev_ino e; if_ask := if_ask e; if_grant := if_grant e;
     if_principal := if_principal e; if_connection := if_connection e; if_realm := if_realm e; if_name := if_name e;
     if_facet_id := if_facet_id e; if_grant_wire_id := if_grant_wire_id e;
     if_agent := default (if_agent e) agent; if_shim := default (if_shim e) shim; if_deadline := if_deadline e |}.

(** What leaves the table. *)
Definition delivery_step (t : DeliveryTable) (op : DeliveryOp) : list InFlight * DeliveryTable :=
  match op with
  | DPark e => ([], park e t)
  | DHalves id agent shim => ([], delivery_update id (set_halves agent shim) t)
  | DTakeAny id => let '(e, t) := take_any id t in (option_list e, t)
  | DTakeSettled id => let '(e, t) := take_settled id t in (option_list e, t)
  | DExpire now => let '(l, t) := delivery_expire_due now t in (List.map fst l, t)
  | DWithdrawPrincipal who => let '(l, t) := delivery_withdraw_principal who t in (List.map fst l, t)
  | DWithdraw c => let '(l, t) := delivery_withdraw_by_id c t in (List.map fst l, t)
  | DForget realm => let '(l, t) := delivery_forget_realm realm t in (List.map fst l, t)
  end.

Definition parks (op : DeliveryOp) : list Z := match op with DPark e => [if_id e] | _ => [] end.

Fixpoint delivery_run (t : DeliveryTable) (ops : list DeliveryOp) : list InFlight * DeliveryTable :=
  match ops with
  | [] => ([], t)
  | op :: ops => let '(o1, t) := delivery_step t op in let '(o2, t) := delivery_run t ops in (o1 ++ o2, t)
  end.

(** The ids of a run are the ledger's, each minted once. *)
Fixpoint fresh_parks (t : DeliveryTable) (ops : list DeliveryOp) : Prop :=
  match ops with
  | [] => True
  | op :: ops => (forall e, op = DPark e -> t !! if_id e = None) /\ fresh_parks (delivery_step t op).2 ops
  end.

Record delivery_wf (t : DeliveryTable) : Prop := {
  dwf_sorted : bt_wf t;
  dwf_ids : forall id e, t !! id = Some e -> if_id e = id }.

Definition held_ids (t : DeliveryTable) : list Z := bt_keys t.

Lemma held_ids_values t : delivery_wf t -> List.map if_id (bt_values t) = held_ids t.
Proof.
  intros [Hs Hids]. unfold held_ids, bt_keys, bt_values. rewrite List.map_map. apply List.map_ext_in.
  intros [id e] Hin. simpl. apply Hids. by apply bt_In_lookup.
Qed.

Lemma abandon_spec why p t :
  delivery_wf t ->
  delivery_wf (abandon why p t).2
  /\ Permutation (held_ids t) (List.map (fun x => if_id x.1) (abandon why p t).1 ++ held_ids (abandon why p t).2)
  /\ (forall e w, In (e, w) (abandon why p t).1 <-> w = why /\ t !! if_id e = Some e /\ p e = true)
  /\ forall id e, (abandon why p t).2 !! id = Some e <-> t !! id = Some e /\ p e = false.
Proof.
  intros Hwf. destruct Hwf as [Hs Hids]. unfold abandon. set (due := bt_select t (fun _ e => p e)).
  pose proof (remove_each_perm due t Hs) as Hp. pose proof (remove_each_wf due t Hs) as Hs'.
  assert (NoDup due) as Hnd by (apply select_NoDup; done).
  pose proof (fun k => remove_each_lookup due t k) as Hlk. pose proof (fun v => remove_each_In due t v Hnd) as Hin.
  assert (forall k, In k due <-> exists e, t !! k = Some e /\ p e = true) as Hdue by (intros; by apply bt_select_In).
  destruct (remove_each due t) as [out m]. simpl in *.
  assert (forall id e, m !! id = Some e <-> t !! id = Some e /\ p e = false) as Hleft.
  { intros id e. rewrite Hlk. destruct (decide (id ∈ due)) as [Hd|Hd].
    - split; [done|]. intros [Ht Hpe]. apply list_elem_of_In, Hdue in Hd as (e' & Ht' & Hp'). congruence.
    - split; [|tauto]. intros Ht. split; [done|]. destruct (p e) eqn:Hpe; [|done]. exfalso.
      apply Hd, list_elem_of_In, Hdue. eauto. }
  assert (delivery_wf m) as Hm by (split; [done|]; intros id e [Ht _]%Hleft; by apply Hids).
  split_and!; [done| | |done].
  - rewrite <- (held_ids_values t) by done. rewrite <- (held_ids_values m) by done.
    rewrite List.map_map. cbn [fst]. rewrite <- List.map_app. by apply Permutation_map.
  - intros e w. rewrite List.in_map_iff. split.
    + intros (x & [= <- <-] & Hx). apply Hin in Hx as (k & Hk & Ht). apply Hdue in Hk as (e' & Ht' & Hpe).
      assert (e' = x) as -> by congruence. by rewrite (Hids _ _ Ht).
    + intros (-> & Ht & Hpe). exists e. split; [done|]. apply Hin. exists (if_id e). split; [|done]. apply Hdue. eauto.
Qed.

Lemma delivery_delete_wf id t : delivery_wf t -> delivery_wf (delete id t).
Proof.
  intros [Hs Hids]. split; [by apply bt_wf_remove|]. intros k e. rewrite bt_lookup_remove. destruct (k =? id); [done|]. apply Hids.
Qed.

Lemma held_delete id t e : delivery_wf t -> t !! id = Some e -> Permutation (held_ids t) (if_id e :: held_ids (delete id t)).
Proof.
  intros [Hs Hids] He. rewrite (Hids id e He). unfold held_ids, bt_keys.
  exact (Permutation_map fst (bt_remove_perm t id e Hs He)).
Qed.

(** One step: what was held and what came in is what left and what stays. *)
Lemma delivery_step_accounts t op :
  delivery_wf t -> (forall e, op = DPark e -> t !! if_id e = None) ->
  delivery_wf (delivery_step t op).2
  /\ Permutation (held_ids t ++ parks op) (List.map if_id (delivery_step t op).1 ++ held_ids (delivery_step t op).2).
Proof.
  intros Hwf Hfresh.
  assert (forall why p, let r := abandon why p t in delivery_wf r.2
    /\ Permutation (held_ids t ++ []) (List.map if_id (List.map fst r.1) ++ held_ids r.2)) as Hab.
  { intros why p. destruct (abandon_spec why p t Hwf) as (Hw & Hp & _). split; [done|].
    by rewrite app_nil_r, List.map_map. }
  destruct op as [e|id agent shim|id|id|now|who|c|realm]; cbn [parks delivery_step fst snd].
  - pose proof Hwf as [Hs Hids]. specialize (Hfresh e eq_refl). split.
    + split; [by apply bt_wf_insert|]. intros id e'. unfold park. rewrite bt_lookup_insert.
      destruct (Z.eqb_spec id (if_id e)); [intros [= <-]; done|apply Hids].
    + cbn [fst snd List.map app]. unfold held_ids, bt_keys, park.
      rewrite (Permutation_map fst (bt_insert_fresh_perm t (if_id e) e Hfresh)). simpl. by rewrite Permutation_app_comm.
  - pose proof Hwf as [Hs Hids]. cbn [fst snd List.map app]. rewrite app_nil_r. unfold delivery_update, held_ids. split.
    + split; [by apply bt_wf_set|]. intros k e. rewrite bt_lookup_set. destruct (id =? k); [|apply Hids].
      intros (e' & He' & ->)%fmap_Some. cbn. by apply Hids.
    + by rewrite bt_keys_set.
  - unfold take_any. cbn [fst snd]. split; [by apply delivery_delete_wf|]. rewrite app_nil_r.
    destruct (t !! id) as [e|] eqn:He; simpl; [by apply held_delete|by rewrite bt_remove_None].
  - unfold take_settled. rewrite app_nil_r. destruct (t !! id) as [e|] eqn:He; [|done].
    destruct (settled e); [|done]. cbn. split; [by apply delivery_delete_wf|by apply held_delete].
  - unfold delivery_expire_due. destruct (Hab NoTurn (fun e => if_deadline e <=? now)). by destruct (abandon _ _ t).
  - unfold delivery_withdraw_principal. destruct (Hab ConnectionGone (fun e => str_eqb (if_principal e) who)). by destruct (abandon _ _ t).
  - unfold delivery_withdraw_by_id. destruct (Hab ConnectionGone (fun e => if_connection e =? c)). by destruct (abandon _ _ t).
  - unfold delivery_forget_realm. destruct (Hab RealmDied (fun e => str_eqb (if_realm e) realm)). by destruct (abandon _ _ t).
Qed.

(** A descriptor parked leaves the table once and no other way: over any run
    from the empty table whose ids are fresh, the ids that left and the ids still
    held are the ids parked. *)
Theorem delivery_accounts (ops : list DeliveryOp) (Hfresh : fresh_parks bt_empty ops) :
  let '(out, t) := delivery_run bt_empty ops in
  Permutation (concat (List.map parks ops)) (List.map if_id out ++ held_ids t)
  /\ forall now e, e ∈ bt_values (delivery_expire_due now t).2 -> now < if_deadline e.
Proof.
  assert (forall t, delivery_wf t -> fresh_parks t ops ->
    let '(out, t') := delivery_run t ops in
    delivery_wf t' /\ Permutation (held_ids t ++ concat (List.map parks ops)) (List.map if_id out ++ held_ids t')) as Hrun.
  { clear Hfresh. induction ops as [|op ops IH]; intros t Hwf; simpl; [by rewrite app_nil_r|].
    intros [Hf Hfs]. destruct (delivery_step_accounts t op Hwf Hf) as [Hw1 Hp1].
    destruct (delivery_step t op) as [o1 t1]. simpl in *. specialize (IH t1 Hw1 Hfs).
    destruct (delivery_run t1 ops) as [o2 t2]. destruct IH as [Hw2 Hp2]. split; [done|].
    rewrite app_assoc, Hp1, <- app_assoc, Hp2, List.map_app, <- app_assoc. done. }
  assert (delivery_wf bt_empty) as H0 by (split; [apply bt_wf_empty|done]).
  specialize (Hrun bt_empty H0 Hfresh). destruct (delivery_run bt_empty ops) as [out t].
  destruct Hrun as [Hw Hp]. split; [done|]. intros now e He.
  destruct (abandon_spec NoTurn (fun e => if_deadline e <=? now) t Hw) as ([Hs' _] & _ & _ & Hl).
  apply list_elem_of_In, bt_values_In in He as [id He]; [|done]. apply Hl in He as [_ He]. by apply Z.leb_gt in He.
Qed.
End delivery.
