(* ===== verification/Attention.v ===== *)
(** * The attention signal

    [crates/vitrin-core/src/attention.rs]: the key a human presses to let one
    layout use through their own presence, and the one-second, single-claim
    window it opens. Time comparisons use [saturating_duration_since]. *)

From stdpp Require Import gmap.
From S2P Require Import Prelude Text Identity Grants Input Uses.

Definition DEFAULT_CHORD : Str := str "super".
Definition ATTENTION_WINDOW : Duration := from_secs 1.
Definition EXEMPT_VERBS : list Z := [LAYOUT_FOCUS; LAYOUT_ARRANGE].

Record AttentionChord : Type := { ac_name : Str; ac_evdev : Z; ac_keysym : Z }.
Inductive AttentionChordError : Type := UnknownChord | NotIntakeable.

Definition ATTENTION_VOCABULARY : list AttentionChord :=
  [{| ac_name := str "super"; ac_evdev := 125; ac_keysym := 65515 |};
   {| ac_name := str "rsuper"; ac_evdev := 126; ac_keysym := 65516 |}].

Definition chord_parse (name : Str) : result AttentionChord AttentionChordError :=
  match List.find (fun c => str_eqb (ac_name c) name) ATTENTION_VOCABULARY with
  | None => Err UnknownChord
  | Some c =>
      if negb (keysym_is_intakeable (ac_keysym c)) then Err NotIntakeable
      else if negb (bool_decide (invariant_keysym (ac_evdev c) = Some (ac_keysym c)))
      then Err NotIntakeable
      else Ok c
  end.

(** An exemption names the principal it was derived for. *)
Record Exemption : Type := { ex_principal : PrincipalIdentity }.

Record OpenWindow : Type := { w_at : Instant; w_delivered_to : gset Str }.

Record AttentionSignal : Type := {
  sig_chord : AttentionChord;
  sig_pending : option Instant;
  sig_open : option OpenWindow }.

Definition signal_new (c : AttentionChord) : AttentionSignal :=
  {| sig_chord := c; sig_pending := None; sig_open := None |}.

Definition attention_gate (s : AttentionSignal) (input : SeatInput) (now : Instant)
    : Gate * AttentionSignal :=
  match si_origin input, si_kind input with
  | Physical, Key _ keysym state =>
      if negb (keysym =? ac_keysym (sig_chord s)) then (Deliver, s)
      else (Consume,
            match state with
            | KPressed => {| sig_chord := sig_chord s; sig_pending := Some now;
                             sig_open := sig_open s |}
            | KReleased => s
            end)
  | _, _ => (Deliver, s)
  end.

Definition take_pending (s : AttentionSignal) : option Instant * AttentionSignal :=
  (sig_pending s, {| sig_chord := sig_chord s; sig_pending := None; sig_open := sig_open s |}).

Definition open_window (s : AttentionSignal) (at_ : Instant) (delivered_to : gset Str)
    : AttentionSignal :=
  {| sig_chord := sig_chord s; sig_pending := sig_pending s;
     sig_open := Some {| w_at := at_; w_delivered_to := delivered_to |} |}.

Definition exempt (s : AttentionSignal) (principal : PrincipalIdentity) (kind : UseKind)
    (now : Instant) : option Exemption :=
  if negb (is_layout kind) then None else
  match sig_open s with
  | None => None
  | Some w =>
      if ATTENTION_WINDOW <=? since now (w_at w) then None
      else if bool_decide ((principal : Str) ∈ w_delivered_to w)
      then Some {| ex_principal := principal |}
      else None
  end.

Definition claim (s : AttentionSignal) (e : Exemption) : PrincipalIdentity * AttentionSignal :=
  (ex_principal e,
   {| sig_chord := sig_chord s; sig_pending := sig_pending s; sig_open := None |}).

Definition clear (s : AttentionSignal) : AttentionSignal :=
  {| sig_chord := sig_chord s; sig_pending := None; sig_open := None |}.

Definition is_open (s : AttentionSignal) (now : Instant) : bool :=
  is_some_and (sig_open s) (fun w => since now (w_at w) <? ATTENTION_WINDOW).

(** [AttentionHook::gate]: what the signal does not take goes to the next hook. *)
Definition attention_hook {I : Type} (inner : I -> SeatInput -> Gate * I)
    (s : AttentionSignal) (i : I) (input : SeatInput) (now : Instant)
    : Gate * AttentionSignal * I :=
  match attention_gate s input now with
  | (Consume, s) => (Consume, s, i)
  | (Deliver, s) => let '(g, i) := inner i input in (g, s, i)
  end.

(* ------------------------------------------------------------------------ *)
(** ** Windows *)

Lemma exempt_Some s principal kind now e :
  exempt s principal kind now = Some e <->
  is_layout kind = true /\ exists w, sig_open s = Some w /\
    since now (w_at w) < ATTENTION_WINDOW /\ (principal : Str) ∈ w_delivered_to w /\
    e = {| ex_principal := principal |}.
Proof.
  unfold exempt. destruct (is_layout kind); simpl; [|split; [done|by intros []]].
  destruct (sig_open s) as [w|]; [|split; [done|by intros (_ & ? & ? & _)]].
  destruct (Z.leb_spec ATTENTION_WINDOW (since now (w_at w))).
  - split; [done|]. intros (_ & ? & [= <-] & ? & _). lia.
  - case_bool_decide.
    + split; [intros [= <-]; eauto 10|]. by intros (_ & ? & [= <-] & _ & _ & ->).
    + split; [done|]. by intros (_ & ? & [= <-] & _ & ? & _).
Qed.

(** What the outside can do to a signal between two openings. *)
Inductive SignalOp : Type :=
| SGate (input : SeatInput) (now : Instant)
| STake
| SClaim (e : Exemption)
| SClear.

Definition signal_step (s : AttentionSignal) (op : SignalOp) : AttentionSignal :=
  match op with
  | SGate input now => (attention_gate s input now).2
  | STake => (take_pending s).2
  | SClaim e => (claim s e).2
  | SClear => clear s
  end.
Definition signal_run (s : AttentionSignal) (ops : list SignalOp) : AttentionSignal :=
  fold_left signal_step ops s.

Lemma signal_step_open s op : sig_open (signal_step s op) = sig_open s \/ sig_open (signal_step s op) = None.
Proof.
  destruct op as [[o k] now| | |]; simpl; auto. left.
  unfold attention_gate. simpl. destruct o; [|done]. destruct k; try done.
  destruct (negb _); [done|]. by destruct state.
Qed.

Lemma signal_run_closed ops s : sig_open s = None -> sig_open (signal_run s ops) = None.
Proof.
  revert s. induction ops as [|op ops IH]; intros s Hs; simpl; [done|].
  apply IH. destruct (signal_step_open s op) as [->| ->]; done.
Qed.

(** One press of the attention key lets at most one layout use past the
    human's presence. An exemption exists only for a layout use of a principal
    the press was delivered to, within the window of that press; once one is
    claimed, no principal gets another for any use, whatever keys are pressed,
    taken or cleared, until a new window is opened; and an agent's own
    (emulated) key events neither consume nor arm anything. *)
Theorem attention_single_claim (s : AttentionSignal) (principal principal' : PrincipalIdentity)
  (kind kind' : UseKind) (now now' : Z) (e : Exemption) (ops : list SignalOp)
  (He : exempt s principal kind now = Some e) :
  is_layout kind = true
  /\ In (verb_of kind) EXEMPT_VERBS
  /\ (exists w, sig_open s = Some w /\ now - w_at w < ATTENTION_WINDOW
        /\ (principal : Str) ∈ w_delivered_to w)
  /\ exempt (signal_run (claim s e).2 ops) principal' kind' now' = None
  /\ (forall k, attention_gate s (emulated k) now = (Deliver, s)).
Proof.
  apply exempt_Some in He as (Hl & w & Ho & Ht & Hd & ->).
  split; [done|]. split; [destruct kind; simpl in *; try done; auto|].
  split; [exists w; unfold since in Ht; split; [done|split; [lia|done]]|].
  split; [|done].
  destruct (exempt (signal_run _ ops) principal' kind' now') as [e'|] eqn:He'; [|done].
  apply exempt_Some in He' as (_ & w' & Ho' & _).
  by rewrite signal_run_closed in Ho'.
Qed.

Lemma attention_single_claim_witness :
  let s := open_window (signal_new {| ac_name := str "super"; ac_evdev := 125; ac_keysym := 65515 |})
             0 {[ str "vitrin://local/agent/wm" ]} in
  let e := {| ex_principal := str "vitrin://local/agent/wm" |} in
  exempt s (str "vitrin://local/agent/wm") LayoutFocus (from_millis 999) = Some e /\
  exempt (signal_run (claim s e).2 []) (str "vitrin://local/agent/wm") LayoutFocus (from_millis 999)
    = None.
Proof.
  intros s e.
  assert (He : exempt s (str "vitrin://local/agent/wm") LayoutFocus (from_millis 999) = Some e)
    by (vm_compute; reflexivity).
  split; [exact He|].
  exact (proj1 (proj2 (proj2 (proj2 (attention_single_claim s _ (str "vitrin://local/agent/wm")
    LayoutFocus LayoutFocus _ (from_millis 999) e [] He))))).
Defined.

(** The vocabulary is usable on every build: each of its names parses. *)
Example vocabulary_parses :
  List.map (fun c => is_ok (chord_parse (ac_name c))) ATTENTION_VOCABULARY = [true; true].
Proof. vm_compute. reflexivity. Qed.
