(* ===== verification/Bucket.v ===== *)
(** * The token bucket

    [TokenBucket] of [crates/vitrin-core/src/enforcement.rs]: its u128 and u64
    arithmetic with the narrowing casts written out, the rate it enforces and
    the retry hint it gives. *)

From S2P Require Import Prelude.

Definition NANOS_PER_SEC : Z := 1000000000.
Definition interval_ns (rate : Z) : Z := div_ceil NANOS_PER_SEC rate.

(** The casts [as u32] and [as u64]. *)
Definition as_u32 (z : Z) : Z := z mod (u32_max + 1).
Definition as_u64 (z : Z) : Z := z mod (u64_max + 1).

Record TokenBucket : Type := { tokens : Z; anchor : Instant }.

Definition bucket_full (rate : Z) (now : Instant) : TokenBucket :=
  {| tokens := rate; anchor := now |}.

(** The refill at the head of [take]. *)
Definition bucket_refill (rate : Z) (now : Instant) (b : TokenBucket) : TokenBucket :=
  let interval := interval_ns rate in
  let elapsed := since now (anchor b) in
  let credit := elapsed / interval in
  if 0 <? credit then
    let total := tokens b + credit in
    if rate <=? total then {| tokens := rate; anchor := now |}
    else {| tokens := as_u32 total; anchor := anchor b + as_u64 (credit * interval) |}
  else b.

Definition bucket_take (rate : Z) (now : Instant) (b : TokenBucket)
    : result unit Z * TokenBucket :=
  let b := bucket_refill rate now b in
  if 0 <? tokens b then (Ok tt, {| tokens := tokens b - 1; anchor := anchor b |})
  else
    let next_token_at := anchor b + as_u64 (interval_ns rate) in
    let wait := since next_token_at now in
    let ms := as_u32 (Z.min u32_max (Z.max 1 (div_ceil wait 1000000))) in
    (Err ms, b).

(* ------------------------------------------------------------------------ *)
(** ** Refilling *)

Definition bucket_wf (rate : Z) (b : TokenBucket) : Prop := 0 <= tokens b <= rate.

(** Times that do not go back, from a first one to a last one. *)
Fixpoint monotone (from : Z) (times : list Z) (T : Z) : Prop :=
  match times with
  | [] => from <= T
  | t :: ts => from <= t /\ monotone t ts T
  end.

Lemma monotone_le from times T : monotone from times T -> from <= T.
Proof.
  revert from. induction times as [|t ts IH]; simpl; intros from; [done|].
  intros [? ?%IH]. lia.
Qed.

Section bucket.
Context (rate : Z) (Hrate : 1 <= rate <= u32_max).
Let I := interval_ns rate.

Lemma interval_bounds : 1 <= I <= NANOS_PER_SEC.
Proof.
  unfold I, interval_ns. pose proof (div_ceil_spec NANOS_PER_SEC rate ltac:(lia)).
  unfold NANOS_PER_SEC in *. nia.
Qed.

(** The rate is honoured: [rate] tokens take at least a second to come back. *)
Lemma interval_rate : NANOS_PER_SEC <= rate * I.
Proof. unfold I, interval_ns. pose proof (div_ceil_spec NANOS_PER_SEC rate ltac:(lia)). lia. Qed.

Lemma refill_wf now b : bucket_wf rate b -> bucket_wf rate (bucket_refill rate now b).
Proof.
  intros Hb. unfold bucket_refill. fold I. pose proof interval_bounds.
  unfold bucket_wf in *. destruct (Z.ltb_spec 0 (since now (anchor b) / I)); [|done].
  destruct (Z.leb_spec rate (tokens b + since now (anchor b) / I)); simpl; [lia|].
  unfold as_u32. rewrite Z.mod_small; lia.
Qed.

(** The refilled bucket in closed form: the casts lose nothing. *)
Lemma refill_eq now b :
  bucket_wf rate b ->
  bucket_refill rate now b =
    if rate <=? tokens b + since now (anchor b) / I
    then {| tokens := rate; anchor := if 0 <? since now (anchor b) / I then now else anchor b |}
    else {| tokens := tokens b + since now (anchor b) / I;
            anchor := anchor b + since now (anchor b) / I * I |}.
Proof.
  intros Hb. unfold bucket_refill. fold I. pose proof interval_bounds.
  unfold bucket_wf in *. assert (0 <= since now (anchor b)) by (unfold since; lia).
  assert (0 <= since now (anchor b) / I) by (apply Z.div_pos; lia).
  destruct (Z.ltb_spec 0 (since now (anchor b) / I)).
  - destruct (Z.leb_spec rate (tokens b + since now (anchor b) / I)); [done|].
    f_equal; unfold as_u32, as_u64; [apply Z.mod_small; lia|].
    rewrite Z.mod_small; [lia|]. unfold NANOS_PER_SEC, u32_max, u64_max in *. nia.
  - replace (since now (anchor b) / I) with 0 by lia. rewrite Z.add_0_r.
    destruct b as [k a]. simpl in *.
    destruct (Z.leb_spec rate k); f_equal; lia.
Qed.

Lemma refill_anchor now b :
  bucket_wf rate b -> anchor b <= now -> anchor b <= anchor (bucket_refill rate now b) <= now.
Proof.
  intros Hb Ha. rewrite refill_eq by done. pose proof interval_bounds.
  assert (since now (anchor b) = now - anchor b) as -> by (unfold since; lia).
  pose proof (Z.mul_div_le (now - anchor b) I ltac:(lia)).
  assert (0 <= (now - anchor b) / I) by (apply Z.div_pos; lia).
  case_match; simpl; [case_match; lia|nia].
Qed.

(** After a refill less than one interval of credit is left over. *)
Lemma refill_residue now b :
  bucket_wf rate b -> anchor b <= now -> now - anchor (bucket_refill rate now b) < I.
Proof.
  intros Hb Ha. rewrite refill_eq by done. pose proof interval_bounds.
  assert (since now (anchor b) = now - anchor b) as -> by (unfold since; lia).
  pose proof (Z.mul_succ_div_gt (now - anchor b) I ltac:(lia)).
  destruct (rate <=? _); simpl; [|lia].
  destruct (Z.ltb_spec 0 ((now - anchor b) / I)); simpl; [lia|].
  assert (0 <= (now - anchor b) / I) by (apply Z.div_pos; lia). nia.
Qed.

(** The potential of a bucket up to a time: what it can still admit by then. *)
Definition potential (T : Z) (b : TokenBucket) : Z := tokens b + (T - anchor b) / I.

Lemma refill_potential now T b :
  bucket_wf rate b -> anchor b <= now <= T ->
  potential T (bucket_refill rate now b) <= potential T b.
Proof.
  intros Hb Ha. unfold potential. rewrite refill_eq by done. pose proof interval_bounds.
  assert (since now (anchor b) = now - anchor b) as -> by (unfold since; lia).
  set (c := (now - anchor b) / I).
  assert (0 <= c) by (apply Z.div_pos; lia).
  assert (c + (T - (anchor b + c * I)) / I = (T - anchor b) / I) as Hc.
  { replace (T - anchor b) with (T - (anchor b + c * I) + c * I) by lia.
    rewrite Z.div_add by lia. lia. }
  pose proof (Z.mul_div_le (now - anchor b) I ltac:(lia)) as Hm. fold c in Hm.
  destruct (Z.leb_spec rate (tokens b + c)); simpl; [|lia].
  destruct (Z.ltb_spec 0 c); simpl; [|unfold bucket_wf in Hb; lia].
  assert ((T - now) / I <= (T - (anchor b + c * I)) / I) by (apply Z.div_le_mono; nia). lia.
Qed.

(* ------------------------------------------------------------------------ *)
(** ** Sequences of uses *)

(** The takes at a list of times: how many were admitted, and the bucket left. *)
Fixpoint take_run (times : list Z) (b : TokenBucket) : Z * TokenBucket :=
  match times with
  | [] => (0, b)
  | t :: ts =>
      let '(r, b) := bucket_take rate t b in
      let '(n, b) := take_run ts b in
      ((if is_ok r then 1 else 0) + n, b)
  end.

Lemma take_wf now b : bucket_wf rate b -> bucket_wf rate (bucket_take rate now b).2.
Proof.
  intros Hb%(refill_wf now). unfold bucket_take.
  destruct (Z.ltb_spec 0 (tokens (bucket_refill rate now b))); [|done].
  unfold bucket_wf in *. simpl. lia.
Qed.

Lemma take_anchor now b :
  bucket_wf rate b -> anchor b <= now -> anchor b <= anchor (bucket_take rate now b).2 <= now.
Proof.
  intros Hb Ha. pose proof (refill_anchor now b Hb Ha). unfold bucket_take.
  by destruct (0 <? tokens (bucket_refill rate now b)).
Qed.

Lemma take_potential now T b :
  bucket_wf rate b -> anchor b <= now <= T ->
  (if is_ok (bucket_take rate now b).1 then 1 else 0) + potential T (bucket_take rate now b).2
  <= potential T b.
Proof.
  intros Hb Ha. pose proof (refill_potential now T b Hb Ha). unfold bucket_take.
  destruct (0 <? tokens (bucket_refill rate now b)); simpl; [|lia].
  unfold potential in *. simpl. lia.
Qed.

(** What a bucket in any state can admit from a use on. *)
Lemma take_potential_any now T b :
  bucket_wf rate b -> anchor b <= now <= T ->
  (if is_ok (bucket_take rate now b).1 then 1 else 0) + potential T (bucket_take rate now b).2
  <= rate + (T - now) / I + 1.
Proof.
  intros Hb Ha. pose proof (refill_wf now b Hb) as Hw. pose proof interval_bounds.
  pose proof (refill_residue now b Hb ltac:(lia)) as Hres.
  assert ((T - anchor (bucket_refill rate now b)) / I <= (T - now) / I + 1)
    by (rewrite <- Z.div_add by lia; apply Z.div_le_mono; lia).
  unfold bucket_wf in Hw. unfold bucket_take.
  destruct (0 <? tokens (bucket_refill rate now b)); unfold potential; simpl; lia.
Qed.

Lemma take_run_potential times from T b :
  bucket_wf rate b -> anchor b <= from -> monotone from times T ->
  (take_run times b).1 <= potential T b.
Proof.
  revert from b. induction times as [|t ts IH]; intros from b Hb Ha Hm; simpl in *.
  - unfold potential, bucket_wf in *. pose proof interval_bounds.
    assert (0 <= (T - anchor b) / I) by (apply Z.div_pos; lia). lia.
  - destruct Hm as [Hft Hm]. pose proof (monotone_le _ _ _ Hm).
    pose proof (take_potential t T b Hb ltac:(lia)) as Hp.
    pose proof (take_wf t b Hb) as Hw. pose proof (take_anchor t b Hb ltac:(lia)) as Han.
    destruct (bucket_take rate t b) as [r b1]. simpl in *.
    specialize (IH t b1 Hw ltac:(lia) Hm).
    destruct (take_run ts b1) as [n b2]. simpl in *. lia.
Qed.
End bucket.

(* ------------------------------------------------------------------------ *)
(** ** Properties *)

(** C34: the bucket enforces its rate. Starting full at the first use, uses at
    any times that do not go back are admitted at most [rate] times plus once
    per elapsed interval, an interval being at least [1/rate] seconds; and in
    any window that starts at a use of a bucket in any state, at most [rate]
    plus the intervals of the window plus one are. *)
Theorem bucket_rate_bound (rate t0 T : Z) (times : list Z) (b : TokenBucket)
  (Hrate : 1 <= rate <= u32_max) (Hb : bucket_wf rate b) (Hanchor : anchor b <= t0)
  (Htimes : monotone t0 times T) :
  (take_run rate times (bucket_full rate t0)).1 <= rate + (T - t0) / interval_ns rate
  /\ (take_run rate (t0 :: times) b).1 <= rate + (T - t0) / interval_ns rate + 1
  /\ NANOS_PER_SEC <= rate * interval_ns rate.
Proof.
  pose proof (interval_bounds rate Hrate) as HI.
  split; [|split; [|by apply interval_rate]].
  - apply (take_run_potential rate Hrate times t0 T (bucket_full rate t0)); [|simpl; lia|done].
    unfold bucket_wf. simpl. lia.
  - pose proof (monotone_le _ _ _ Htimes).
    pose proof (take_potential_any rate Hrate t0 T b Hb ltac:(lia)) as Hp.
    pose proof (take_wf rate Hrate t0 b Hb) as Hw.
    pose proof (take_anchor rate Hrate t0 b Hb Hanchor) as Ha.
    pose proof (take_run_potential rate Hrate times t0 T (bucket_take rate t0 b).2 Hw
      ltac:(lia) Htimes) as Hr.
    cbn [take_run]. destruct (bucket_take rate t0 b) as [r b1]. simpl in *.
    destruct (take_run rate times b1) as [n b2]. simpl in *. lia.
Qed.

Example bucket_rate_bound_witness :
  monotone 0 [0; 0; 0; 500000000; 500000001; 1000000000] 1000000000
  /\ (take_run 2 [0; 0; 0; 500000000; 500000001; 1000000000] (bucket_full 2 0)).1 = 4
  /\ (take_run 2 [0; 0; 0; 500000000; 500000001; 1000000000] (bucket_full 2 0)).1
     <= 2 + (1000000000 - 0) / interval_ns 2.
Proof.
  split; [vm_compute; repeat split; discriminate|]. split; [by vm_compute|].
  destruct (bucket_rate_bound 2 0 1000000000 [0; 0; 0; 500000000; 500000001; 1000000000]
    (bucket_full 2 0)) as [H _]; [unfold u32_max; lia|unfold bucket_wf; simpl; lia|simpl; lia
    |vm_compute; repeat split; discriminate|exact H].
Defined.

(** A refused use gets a hint it can rely on. At any time
    the bucket either spends a token or refuses with a hint of
    between one and a thousand milliseconds; after a refusal a
    use at any time from [now] plus the hint on is admitted, and one a
    millisecond or more earlier is refused again. *)
Theorem bucket_retry_hint (rate now ms : Z) (b b' : TokenBucket)
  (Hrate : 1 <= rate <= u32_max) (Hb : bucket_wf rate b) (Hanchor : anchor b <= now)
  (Hrefused : bucket_take rate now b = (Err ms, b')) :
  1 <= ms <= 1000
  /\ (forall later, now + from_millis ms <= later -> (bucket_take rate later b').1 = Ok tt)
  /\ (forall early, now <= early <= now + from_millis (ms - 1) - 1 ->
        is_ok (bucket_take rate early b').1 = false).
Proof.
  pose proof (interval_bounds rate Hrate) as HI.
  pose proof (refill_wf rate Hrate now b Hb) as Hw.
  pose proof (refill_anchor rate Hrate now b Hb Hanchor) as Ha.
  pose proof (refill_residue rate Hrate now b Hb Hanchor) as Hres.
  unfold bucket_take in Hrefused. set (b1 := bucket_refill rate now b) in *.
  destruct (Z.ltb_spec 0 (tokens b1)) as [|Hempty]; [done|].
  injection Hrefused as <- <-.
  set (iv := interval_ns rate) in *. change NANOS_PER_SEC with 1000000000 in *.
  assert (as_u64 iv = iv) as -> by (apply Z.mod_small; unfold u64_max; lia).
  assert (since (anchor b1 + iv) now = anchor b1 + iv - now) as -> by (unfold since; lia).
  pose proof (div_ceil_spec (anchor b1 + iv - now) 1000000 ltac:(lia)) as Hc.
  set (c := div_ceil (anchor b1 + iv - now) 1000000) in *.
  assert (1 <= c <= 1000) by lia.
  assert (as_u32 (u32_max `min` (1 `max` c)) = c) as ->
    by (unfold as_u32; rewrite Z.mod_small; unfold u32_max; lia).
  unfold bucket_wf in Hw.
  assert (tokens b1 = 0) as H0 by lia.
  split; [lia|]. unfold from_millis. split; intros t Ht.
  - unfold bucket_take.
    destruct (Z.ltb_spec 0 (tokens (bucket_refill rate t b1))) as [|Hno]; [done|exfalso].
    rewrite refill_eq in Hno by (unfold bucket_wf; lia). fold iv in Hno.
    assert (since t (anchor b1) = t - anchor b1) as Hs by (unfold since; lia).
    rewrite Hs, H0 in Hno. assert (1 <= (t - anchor b1) / iv) by (apply Z.div_le_lower_bound; lia).
    destruct (Z.leb_spec rate (0 + (t - anchor b1) / iv)); simpl in *; lia.
  - assert (bucket_refill rate t b1 = b1) as Hsame.
    { unfold bucket_refill. fold iv. rewrite Z.div_small; [done|]. unfold since. lia. }
    unfold bucket_take. rewrite Hsame, H0. done.
Qed.

Example bucket_retry_hint_witness :
  let b := {| tokens := 0; anchor := 0 |} in
  bucket_take 4 100 b = (Err 250, b)
  /\ (bucket_take 4 (100 + 250000000) b).1 = Ok tt
  /\ is_ok (bucket_take 4 (100 + 248999999) b).1 = false.
Proof.
  intros b. split; [by vm_compute|].
  destruct (bucket_retry_hint 4 100 250 b b) as (_ & Hlater & Hearly);
    [unfold u32_max; lia|unfold bucket_wf; simpl; lia|simpl; lia|by vm_compute|].
  split; [apply Hlater|apply Hearly]; unfold from_millis; lia.
Defined.
