(* ===== verification/Capture.v ===== *)
(** * Capturing a realm's view

    [crates/vitrin-core/src/capture.rs]: the checks on a readback, the pixel
    conversion and the frame an admitted capture sends. The sealed memfd and the
    digest of the pixels come from the operating system and a hash crate, so
    they are parameters. *)

From S2P Require Import Prelude.

Definition BYTES_PER_PIXEL : Z := 4.

(** [usize] and [u32] products, which wrap in a release build. *)
Definition usize_mul (a b : Z) : Z := (a * b) mod (u64_max + 1).
Definition u32_mul (a b : Z) : Z := (a * b) mod (u32_max + 1).

Record RealmViewFrame : Type := { rgba : list Z; v_width : Z; v_height : Z }.

Inductive CaptureError (IoErr : Type) : Type :=
| MisSizedReadback (got expected : Z)
| DegenerateView (width height : Z)
| Memfd (e : IoErr).
Arguments MisSizedReadback {IoErr} _ _.
Arguments DegenerateView {IoErr} _ _.
Arguments Memfd {IoErr} _.

(** The frame event: its descriptor and its geometry; the format is always
    XRGB8888 and the flags are empty. *)
Record FrameReady (Fd : Type) : Type := {
  fr_fd : Fd; fr_width : Z; fr_height : Z; fr_stride : Z }.
Arguments fr_fd {Fd} _.
Arguments fr_width {Fd} _.
Arguments fr_height {Fd} _.
Arguments fr_stride {Fd} _.

(** Whole pixels are converted; the bytes of a trailing partial one stay zero. *)
Fixpoint rgba_to_xrgb8888 (px : list Z) : list Z :=
  match px with
  | r :: g :: b :: _ :: px => b :: g :: r :: 255 :: rgba_to_xrgb8888 px
  | rest => List.map (fun _ => 0) rest
  end.

Fixpoint rgba_to_rgb (px : list Z) : list Z :=
  match px with
  | r :: g :: b :: _ :: px => r :: g :: b :: rgba_to_rgb px
  | _ => []
  end.

Definition expected_len (w h : Z) : Z := usize_mul (usize_mul w h) BYTES_PER_PIXEL.

Definition render_frame {Fd IoErr Digest : Type} (memfd : list Z -> result Fd IoErr)
    (digest : list Z -> Digest) (view : RealmViewFrame)
    : result (FrameReady Fd * Digest) (CaptureError IoErr) :=
  if (v_width view =? 0) || (v_height view =? 0)
  then Err (DegenerateView (v_width view) (v_height view)) else
  let expected := expected_len (v_width view) (v_height view) in
  if negb (Z.of_nat (length (rgba view)) =? expected)
  then Err (MisSizedReadback (Z.of_nat (length (rgba view))) expected) else
  let pixels := rgba_to_xrgb8888 (rgba view) in
  match memfd pixels with
  | Err e => Err (Memfd e)
  | Ok fd =>
      Ok ({| fr_fd := fd; fr_width := v_width view; fr_height := v_height view;
             fr_stride := u32_mul (v_width view) BYTES_PER_PIXEL |}, digest pixels)
  end.

(** [render_screenshot]: the same checks, three bytes per pixel, an encoder. *)
Definition render_screenshot {IoErr Digest : Type} (encode_rgb : Z -> Z -> list Z -> list Z)
    (digest : list Z -> Digest) (view : RealmViewFrame)
    : result (list Z * Digest) (CaptureError IoErr) :=
  if (v_width view =? 0) || (v_height view =? 0)
  then Err (DegenerateView (v_width view) (v_height view)) else
  let expected := expected_len (v_width view) (v_height view) in
  if negb (Z.of_nat (length (rgba view)) =? expected)
  then Err (MisSizedReadback (Z.of_nat (length (rgba view))) expected) else
  let png := encode_rgb (v_width view) (v_height view) (rgba_to_rgb (rgba view)) in
  Ok (png, digest png).

(** [live_view] of the chokepoint. *)
Definition live_view (v : option RealmViewFrame) : option RealmViewFrame :=
  match v with
  | Some v => if (0 <? v_width v) && (0 <? v_height v) then Some v else None
  | None => None
  end.

(* ------------------------------------------------------------------------ *)
(** ** Pixels *)

(** Induction four bytes at a time. *)
Lemma pixel_ind (P : list Z -> Prop) :
  (forall l, (length l < 4)%nat -> P l) ->
  (forall r g b a l, P l -> P (r :: g :: b :: a :: l)) -> forall l, P l.
Proof.
  intros Hs Hc l. remember (length l) as n eqn:Hn. revert l Hn.
  induction n as [n IH] using lt_wf_ind. intros l ->.
  destruct l as [|r [|g [|b [|a l]]]]; try (apply Hs; simpl; lia).
  apply Hc. apply (IH (length l)); simpl; lia.
Qed.

Lemma xrgb_length px : length (rgba_to_xrgb8888 px) = length px.
Proof.
  induction px as [l Hl|r g b a l IH] using pixel_ind; [|simpl; lia].
  destruct l as [|? [|? [|? [|? ?]]]]; simpl in *; lia.
Qed.

(** Each pixel of the frame is its source's, in the wire's order. *)
Lemma xrgb_pixel (i : nat) px r g b a :
  px !! (4 * i)%nat = Some r -> px !! (4 * i + 1)%nat = Some g ->
  px !! (4 * i + 2)%nat = Some b -> px !! (4 * i + 3)%nat = Some a ->
  let out := rgba_to_xrgb8888 px in
  out !! (4 * i)%nat = Some b /\ out !! (4 * i + 1)%nat = Some g
  /\ out !! (4 * i + 2)%nat = Some r /\ out !! (4 * i + 3)%nat = Some 255.
Proof.
  revert i. induction px as [l Hl|r0 g0 b0 a0 l IH] using pixel_ind; intros i H0 H1 H2 H3.
  - apply lookup_lt_Some in H3. lia.
  - destruct i as [|i]; [simpl in *; by simplify_eq|].
    replace (4 * S i)%nat with (S (S (S (S (4 * i))))) in * by lia. simpl in *. by apply IH.
Qed.

Lemma expected_len_small w h :
  0 <= w <= u32_max -> 0 <= h <= u32_max -> w * h * 4 <= u64_max -> expected_len w h = w * h * 4.
Proof.
  intros. unfold expected_len, usize_mul, BYTES_PER_PIXEL.
  rewrite (Z.mod_small (w * h)) by (unfold u64_max in *; nia). apply Z.mod_small.
  unfold u64_max in *; nia.
Qed.

(* ------------------------------------------------------------------------ *)
(** ** Properties *)

(** A frame is exactly the view. Of a view whose rows fit the stride field,
    a capture yields a frame exactly when the view has pixels, the readback has
    four bytes for each and the memfd is made, and each failure names its
    cause. The frame has the view's geometry; its memfd holds
    [stride * height] bytes and at each pixel the source's blue, green and red
    followed by 255, whatever the source's alpha. *)
Theorem capture_frame_exact {Fd IoErr Digest : Type} (memfd : list Z -> result Fd IoErr)
  (digest : list Z -> Digest) (view : RealmViewFrame)
  (Hw : 0 <= v_width view) (Hh : 0 <= v_height view <= u32_max)
  (Hstride : v_width view * 4 <= u32_max) :
  match render_frame memfd digest view with
  | Ok (f, d) =>
      0 < v_width view /\ 0 < v_height view
      /\ Z.of_nat (length (rgba view)) = v_width view * v_height view * 4
      /\ fr_width f = v_width view /\ fr_height f = v_height view
      /\ fr_stride f = v_width view * 4
      /\ exists bytes, memfd bytes = Ok (fr_fd f) /\ d = digest bytes
           /\ Z.of_nat (length bytes) = fr_stride f * fr_height f
           /\ forall i r g b a,
                rgba view !! (4 * i)%nat = Some r -> rgba view !! (4 * i + 1)%nat = Some g ->
                rgba view !! (4 * i + 2)%nat = Some b -> rgba view !! (4 * i + 3)%nat = Some a ->
                bytes !! (4 * i)%nat = Some b /\ bytes !! (4 * i + 1)%nat = Some g
                /\ bytes !! (4 * i + 2)%nat = Some r /\ bytes !! (4 * i + 3)%nat = Some 255
  | Err (DegenerateView w h) =>
      w = v_width view /\ h = v_height view /\ (w = 0 \/ h = 0)
  | Err (MisSizedReadback got expected) =>
      got = Z.of_nat (length (rgba view)) /\ expected = v_width view * v_height view * 4
      /\ got <> expected
  | Err (Memfd e) => exists bytes, memfd bytes = Err e /\ length bytes = length (rgba view)
  end.
Proof.
  unfold render_frame, u32_mul, BYTES_PER_PIXEL.
  rewrite expected_len_small by (unfold u32_max, u64_max in *; nia).
  rewrite (Z.mod_small (v_width view * 4)) by (unfold u32_max in *; lia).
  destruct (Z.eqb_spec (v_width view) 0); simpl; [auto|].
  destruct (Z.eqb_spec (v_height view) 0); simpl; [auto|].
  destruct (Z.eqb_spec (Z.of_nat (length (rgba view))) (v_width view * v_height view * 4)) as [Hl|];
    simpl; [|done].
  destruct (memfd (rgba_to_xrgb8888 (rgba view))) as [fd|e] eqn:Hm; simpl.
  - split; [lia|]. split; [lia|]. do 4 (split; [done|]).
    exists (rgba_to_xrgb8888 (rgba view)). split; [done|]. split; [done|].
    rewrite xrgb_length. split; [lia|]. intros i r g b a. apply xrgb_pixel.
  - exists (rgba_to_xrgb8888 (rgba view)). by rewrite xrgb_length.
Qed.

Example capture_frame_exact_witness :
  render_frame (fun b => @Ok (list Z) unit b) (fun b => b)
    {| rgba := [1; 2; 3; 4; 5; 6; 7; 8]; v_width := 2; v_height := 1 |}
  = Ok ({| fr_fd := [3; 2; 1; 255; 7; 6; 5; 255]; fr_width := 2; fr_height := 1; fr_stride := 8 |},
        [3; 2; 1; 255; 7; 6; 5; 255])
  /\ 8 = 2 * 1 * 4.
Proof.
  pose proof (capture_frame_exact (fun b => @Ok (list Z) unit b) (fun b => b)
    {| rgba := [1; 2; 3; 4; 5; 6; 7; 8]; v_width := 2; v_height := 1 |}
    ltac:(simpl; lia) ltac:(simpl; unfold u32_max; lia) ltac:(simpl; unfold u32_max; lia)) as H.
  split; [by vm_compute|]. vm_compute in H. exact (proj1 (proj2 (proj2 H))).
Defined.
