(* ===== verification/Enforcement.v ===== *)
(** * The enforcement chokepoint

    [crates/vitrin-core/src/enforcement.rs]: [Chokepoint::enforce_use], the one
    door every use of a granted verb goes through, and [voice_refusal]. What the
    chokepoint mutates is a record threaded through a state and error monad; the
    kernel's callbacks and the transport are functions on the rest of the world,
    a type parameter. *)

From stdpp Require Import gmap.
From S2P Require Import Prelude BTree Text Identity Grants Realm Petitions Input Uses Attention Bucket Capture.

Definition PICKER_DEADLINE : Duration := from_secs 90.

Abbreviation DesignationId := Z (only parsing).

(** The wire's refusal codes. *)
Inductive Refusal : Type :=
| RefNotGranted | RefExpired | RefRevoked | RefRateLimited | RefPreempted | RefConsentHeld
| RefNoSurface | RefInternal | RefCapacity.
#[export] Instance Refusal_eq_dec : EqDecision Refusal.
Proof. solve_decision. Defined.

Definition refusal_to_wire (r : Refusal) : Z :=
  match r with
  | RefNotGranted => 0 | RefExpired => 1 | RefRevoked => 2 | RefRateLimited => 3
  | RefPreempted => 4 | RefConsentHeld => 5 | RefNoSurface => 6 | RefInternal => 7
  | RefCapacity => 8
  end.

Definition refusal_of_reason (r : RefusalReason) : Refusal :=
  match r with NotGranted => RefNotGranted | Expired => RefExpired | Revoked => RefRevoked end.

Record UseRequest : Type := {
  facet_id : Z;
  grant_wire_id : Z;
  grant_row : option GrantId;
  principal : PrincipalIdentity;
  kind : UseKind }.

Inductive DesignateRefusal : Type := Unavailable | Answered.
Inductive LaunchRefusal : Type := LCapacity | LInternal.

Record DesignateAsk : Type := {
  da_realm : RealmId; da_principal : PrincipalIdentity; da_grant : GrantId;
  da_facet_id : Z; da_grant_wire_id : Z; da_ask : AskedFor; da_spent_once : bool;
  da_deadline : Instant }.
Record LaunchAsk : Type := {
  la_template : RealmId; la_principal : PrincipalIdentity; la_grant : GrantId }.

Record ObservedFrame (Digest : Type) : Type := {
  of_width : Z; of_height : Z; of_stride : Z; of_bytes : Z; of_digest : Digest }.
Arguments of_width {Digest} _.
Arguments of_height {Digest} _.
Arguments of_stride {Digest} _.
Arguments of_bytes {Digest} _.
Arguments of_digest {Digest} _.

Inductive UseOutcome (Digest : Type) : Type :=
| UseAdmitted (grant : GrantId) (frame : option (ObservedFrame Digest)) (spent_once : bool)
    (attention_claimed : bool)
| Owed (grant : GrantId) (designation : DesignationId) (expires_in_ms : Z) (spent_once : bool)
    (attention_claimed : bool)
| Refused (code : Refusal) (voiced : bool).
Arguments UseAdmitted {Digest} _ _ _ _.
Arguments Owed {Digest} _ _ _ _ _.
Arguments Refused {Digest} _ _.

Record UseAdmission : Type := {
  ad_grant : GrantId; ad_spent_once : bool; ad_attention_claimed : bool }.

Definition admission {Digest} (o : UseOutcome Digest) : option UseAdmission :=
  match o with
  | UseAdmitted g _ s a | Owed g _ _ s a =>
      Some {| ad_grant := g; ad_spent_once := s; ad_attention_claimed := a |}
  | Refused _ _ => None
  end.

Record Refuse : Type := { code : Refusal; retry_after_ms : Z }.
Definition refuse_code (c : Refusal) : Refuse := {| code := c; retry_after_ms := 0 |}.
Definition rate_limited (ms : Z) : Refuse := {| code := RefRateLimited; retry_after_ms := ms |}.

Record GrantUseState : Type := {
  bucket : option TokenBucket;
  muted_pairs : gset (Z * Z);
  rate_muted_until : option Instant }.
Definition use_state_default : GrantUseState :=
  {| bucket := None; muted_pairs := ∅; rate_muted_until := None |}.
Definition clear_mutes (st : GrantUseState) : GrantUseState :=
  {| bucket := bucket st; muted_pairs := ∅; rate_muted_until := None |}.

Record Chokepoint : Type := { states : gmap Z GrantUseState }.
Definition chokepoint_new : Chokepoint := {| states := ∅ |}.
(** [self.states.entry(id).or_default()], and a write through it. *)
Definition state_of (ck : Chokepoint) (id : Z) : GrantUseState :=
  default use_state_default (states ck !! id).
Definition set_state_of (ck : Chokepoint) (id : Z) (st : GrantUseState) : Chokepoint :=
  {| states := <[id := st]> (states ck) |}.

Definition clamp_to_view (k : SeatInputKind) (view : option RealmViewFrame) : SeatInputKind :=
  match k, view with
  | Motion x y, Some v =>
      Motion (f64_clamp x (f64_of_int 0) (f64_of_int (v_width v - 1)))
             (f64_clamp y (f64_of_int 0) (f64_of_int (v_height v - 1)))
  | k, _ => k
  end.

(* ------------------------------------------------------------------------ *)
(** ** The chokepoint *)

Section chokepoint.
(** The world the callbacks act on, the transport's error, and the types of a
    memfd, its error and a digest. *)
Context {W X Fd IoErr Digest : Type}.

(** What the chokepoint sends. *)
Inductive UseEvent : Type :=
| ERefused (grant_wire_id : Z) (verb : Z) (code : Refusal) (retry_after_ms : Z)
| ELaunched (facet_id : Z) (realm : RealmId)
| EFrameReady (facet_id : Z) (frame : FrameReady Fd).

Record UseEnv : Type := {
  realm_view : option RealmViewFrame;
  presence : PresenceMap;
  physical_realm : option RealmId;
  actuations : RealmId -> SeatInput -> W -> W;
  grant_realm : option RealmId;
  layout : LayoutAct -> W -> W;
  launch : LaunchAsk -> W -> result RealmId LaunchRefusal * W;
  designate : DesignateAsk -> W -> result DesignationId DesignateRefusal * W;
  memfd : list Z -> result Fd IoErr;
  digest_of : list Z -> Digest;
  send : UseEvent -> W -> result unit X * W }.

(** What a use may change. *)
Record St : Type := {
  ck : Chokepoint;
  grants : GrantTable;
  attention : AttentionSignal;
  world : W }.

Definition M (A : Type) : Type := St -> result A X * St.
Definition ret {A} (a : A) : M A := fun s => (Ok a, s).
Definition bind {A B} (m : M A) (k : A -> M B) : M B :=
  fun s => match m s with
           | (Ok a, s) => k a s
           | (Err e, s) => (Err e, s)
           end.
Local Notation "x <-- m ;; k" := (bind m (fun x => k)) (at level 100, m at next level, right associativity).

Definition set_ck (c : Chokepoint) (s : St) : St :=
  {| ck := c; grants := grants s; attention := attention s; world := world s |}.
Definition set_world (w : W) (s : St) : St :=
  {| ck := ck s; grants := grants s; attention := attention s; world := w |}.
(** Calls out of the chokepoint. *)
Definition do_send (env : UseEnv) (e : UseEvent) : M unit :=
  fun s => let '(r, w) := send env e (world s) in (r, set_world w s).
Definition act (f : W -> W) : M unit := fun s => (Ok tt, set_world (f (world s)) s).
Definition ask {A E} (f : W -> result A E * W) : M (result A E) :=
  fun s => let '(r, w) := f (world s) in (Ok r, set_world w s).

(** [voice_refusal]. *)
Definition voiced_retry (r : Refuse) : Z :=
  if bool_decide (code r = RefRateLimited) then Z.max 1 (retry_after_ms r) else 0.

(** Whether the refusal is suppressed, and the marks it leaves. *)
Definition mute (st : GrantUseState) (verb : Z) (r : Refuse) (now : Instant)
    : bool * GrantUseState :=
  if bool_decide (code r = RefRateLimited) then
    let muted := is_some_and (rate_muted_until st) (fun until => now <? until) in
    (muted,
     if muted then st
     else {| bucket := bucket st; muted_pairs := muted_pairs st;
             rate_muted_until := Some (now + from_millis (voiced_retry r)) |})
  else
    let pair := (verb, refusal_to_wire (code r)) in
    (bool_decide (pair ∈ muted_pairs st),
     {| bucket := bucket st; muted_pairs := {[pair]} ∪ muted_pairs st;
        rate_muted_until := rate_muted_until st |}).

Definition voice_refusal (env : UseEnv) (wire : Z) (verb : Z) (r : Refuse) (coal : bool)
    (now : Instant) : M bool :=
  fun s =>
    let '(suppressed, s) :=
      if coal then
        let '(m, st) := mute (state_of (ck s) wire) verb r now in
        (m, set_ck (set_state_of (ck s) wire st) s)
      else (false, s) in
    if suppressed then (Ok false, s)
    else (_ <-- do_send env (ERefused wire verb (code r) (voiced_retry r)) ;; ret true) s.

(** The contention rules of [enforce_use], for the uses they apply to. *)
Definition contention (req : UseRequest) (petitions : PetitionRegistry) (env : UseEnv)
    (att : AttentionSignal) (now : Instant) : result (option Exemption) Refuse :=
  if negb (contends_for_attention (kind req)) then Ok None else
  let preempted_by :=
    if delivered_through_the_seat (kind req) then grant_realm env else physical_realm env in
  if prompt_up_for petitions (principal req) then Err (refuse_code RefConsentHeld)
  else if owns_target (presence env) preempted_by now then
    match exempt att (principal req) (kind req) now with
    | None => Err (refuse_code RefPreempted)
    | Some e => Ok (Some e)
    end
  else Ok None.

(** The block labelled ['decide]: the decision, the exemption it leans on, and
    the token it took. *)
Definition decide_use (req : UseRequest) (petitions : PetitionRegistry) (env : UseEnv)
    (now : Instant) (s : St) : result (Allowed * option Exemption) Refuse * Chokepoint :=
  match grant_row req with
  | None => (Err (refuse_code RefNotGranted), ck s)
  | Some row =>
      match check_use_grant (grants s) row (principal req) (verb_of (kind req)) now with
      | Err reason => (Err (refuse_code (refusal_of_reason reason)), ck s)
      | Ok allowed =>
          if refused_by_a_vacant_realm (kind req)
             && negb (bool_decide (is_Some (live_view (realm_view env))))
          then (Err (refuse_code RefNoSurface), ck s)
          else match contention req petitions env (attention s) now with
          | Err r => (Err r, ck s)
          | Ok exemption =>
              let st := state_of (ck s) (grant_wire_id req) in
              let rate := al_max_event_rate allowed in
              let '(r, b) := bucket_take rate now (default (bucket_full rate now) (bucket st)) in
              (match r with Ok _ => Ok (allowed, exemption) | Err ms => Err (rate_limited ms) end,
               set_state_of (ck s) (grant_wire_id req)
                 {| bucket := Some b; muted_pairs := muted_pairs st;
                    rate_muted_until := rate_muted_until st |})
          end
      end
  end.

(** The consumption that follows an admission: the row, the exemption, the
    grant's mutes. *)
Definition commit (req : UseRequest) (allowed : Allowed) (exemption : option Exemption) (s : St)
    : bool * bool * St :=
  let '(spent_once, g) := commit_use (grants s) (al_grant_id allowed) in
  let '(claimed, a) :=
    match exemption with
    | Some e => (true, (claim (attention s) e).2)
    | None => (false, attention s)
    end in
  let c := match states (ck s) !! grant_wire_id req with
           | Some st => set_state_of (ck s) (grant_wire_id req) (clear_mutes st)
           | None => ck s
           end in
  (spent_once, claimed, {| ck := c; grants := g; attention := a; world := world s |}).

Definition refuse_after (req : UseRequest) (env : UseEnv) (now : Instant) (c : Refusal)
    (coal : bool) : M (UseOutcome Digest) :=
  voiced <-- voice_refusal env (grant_wire_id req) (verb_of (kind req)) (refuse_code c) coal now ;;
  ret (Refused c voiced).

Definition observed (f : FrameReady Fd) (d : Digest) : ObservedFrame Digest :=
  {| of_width := fr_width f; of_height := fr_height f; of_stride := fr_stride f;
     of_bytes := (fr_stride f * fr_height f) mod (u64_max + 1); of_digest := d |}.

(** The [match req.kind] that performs an admitted use. *)
Definition perform (req : UseRequest) (env : UseEnv) (now : Instant) (allowed : Allowed)
    (spent_once attention_claimed : bool) : M (UseOutcome Digest) :=
  let grant := al_grant_id allowed in
  let coal := coalescible (kind req) in
  let admitted frame := ret (UseAdmitted grant frame spent_once attention_claimed) in
  match kind req with
  | Capture =>
      match match live_view (realm_view env) with
            | Some view => render_frame (memfd env) (digest_of env) view
            | None => Err (DegenerateView 0 0)
            end with
      | Ok (frame, digest) =>
          _ <-- do_send env (EFrameReady (facet_id req) frame) ;;
          admitted (Some (observed frame digest))
      | Err _ => refuse_after req env now RefInternal false
      end
  | Pointer k | TextUse k =>
      match grant_realm env with
      | None => refuse_after req env now RefInternal coal
      | Some realm =>
          let k := clamp_to_view k (live_view (realm_view env)) in
          _ <-- act (actuations env realm (emulated k)) ;; admitted None
      end
  | LayoutFocus =>
      match grant_realm env with
      | None => refuse_after req env now RefInternal coal
      | Some realm => _ <-- act (layout env (Focus realm)) ;; admitted None
      end
  | LayoutArrange mode =>
      match grant_realm env with
      | None => refuse_after req env now RefInternal coal
      | Some realm => _ <-- act (layout env (Arrange realm mode)) ;; admitted None
      end
  | Launch =>
      match grant_realm env with
      | None => refuse_after req env now RefInternal false
      | Some realm =>
          r <-- ask (launch env {| la_template := realm; la_principal := principal req;
                                   la_grant := grant |}) ;;
          match r with
          | Ok minted =>
              _ <-- do_send env (ELaunched (facet_id req) minted) ;; admitted None
          | Err LCapacity => refuse_after req env now RefCapacity false
          | Err LInternal => refuse_after req env now RefInternal false
          end
      end
| Egress => refuse_after req env now RefInternal false
  | Designate asked =>
      match grant_realm env with
      | None => refuse_after req env now RefInternal false
      | Some realm =>
          r <-- ask (designate env
                 {| da_realm := realm; da_principal := principal req; da_grant := grant;
                    da_facet_id := facet_id req; da_grant_wire_id := grant_wire_id req;
                    da_ask := asked; da_spent_once := spent_once;
                    da_deadline := now + PICKER_DEADLINE |}) ;;
          match r with
          | Ok designation =>
              ret (Owed grant designation (Z.min u32_max (PICKER_DEADLINE / 1000000))
                     spent_once attention_claimed)
          | Err Answered => admitted None
          | Err Unavailable => refuse_after req env now RefInternal false
          end
      end
  end.

Definition enforce_use (req : UseRequest) (petitions : PetitionRegistry) (env : UseEnv)
    (now : Instant) : M (UseOutcome Digest) :=
  fun s =>
    let '(decision, c) := decide_use req petitions env now s in
    let s := set_ck c s in
    match decision with
    | Err refuse =>
        (voiced <-- voice_refusal env (grant_wire_id req) (verb_of (kind req)) refuse
                      (coalescible (kind req)) now ;;
         ret (Refused (code refuse) voiced)) s
    | Ok (allowed, exemption) =>
        let '(spent_once, attention_claimed, s) := commit req allowed exemption s in
        perform req env now allowed spent_once attention_claimed s
    end.

(* ------------------------------------------------------------------------ *)
(** ** One use *)

(** What a use of a row needs, in the order the chokepoint asks. *)
Record use_admissible (req : UseRequest) (petitions : PetitionRegistry) (env : UseEnv)
    (now : Instant) (s : St) (row : GrantId) (exemption : option Exemption) : Prop := {
  ua_row : grant_row req = Some row;
  ua_live : exists e, entries (grants s) !! row = Some e
              /\ principal_id (Grants.row e) = principal req
              /\ mask_contains (verbs (Grants.row e)) (verb_of (kind req)) = true
              /\ state_at e now = GActive;
  ua_view : refused_by_a_vacant_realm (kind req) = true ->
              exists v, realm_view env = Some v /\ 0 < v_width v /\ 0 < v_height v;
  ua_prompt : contends_for_attention (kind req) = true ->
              prompt_up_for petitions (principal req) = false;
  ua_presence : contends_for_attention (kind req) = true ->
              owns_target (presence env)
                (if delivered_through_the_seat (kind req) then grant_realm env
                 else physical_realm env) now = true ->
              is_layout (kind req) = true /\ exemption <> None;
  ua_exemption : forall e, exemption = Some e ->
              exempt (attention s) (principal req) (kind req) now = Some e;
  ua_token : forall e, entries (grants s) !! row = Some e ->
              let rate := max_event_rate (constraints (Grants.row e)) in
              let b := bucket (state_of (ck s) (grant_wire_id req)) in
              (bucket_take rate now (default (bucket_full rate now) b)).1 = Ok tt }.

Lemma live_view_Some v w : live_view v = Some w <-> v = Some w /\ 0 < v_width w /\ 0 < v_height w.
Proof.
  unfold live_view. destruct v as [v|]; [|split; [done|by intros [? _]]].
  destruct (Z.ltb_spec 0 (v_width v)), (Z.ltb_spec 0 (v_height v)); simpl;
    (split; [intros; simplify_eq; done|intros ([= <-] & ? & ?); (done || lia)]).
Qed.

Lemma contention_Ok req petitions env att now ex :
  contention req petitions env att now = Ok ex ->
  (contends_for_attention (kind req) = true -> prompt_up_for petitions (principal req) = false)
  /\ (contends_for_attention (kind req) = true ->
      owns_target (presence env) (if delivered_through_the_seat (kind req) then grant_realm env
        else physical_realm env) now = true -> is_layout (kind req) = true /\ ex <> None)
  /\ (forall e, ex = Some e -> exempt att (principal req) (kind req) now = Some e).
Proof.
  unfold contention. destruct (contends_for_attention (kind req)); simpl; [|by intros [= <-]].
  destruct (prompt_up_for petitions (principal req)); [done|].
  destruct (owns_target _ _ _); [|by intros [= <-]].
  destruct (exempt att (principal req) (kind req) now) as [e|] eqn:He; [|done].
  intros [= <-]. apply exempt_Some in He as Hl. destruct Hl as [Hl _].
  split; [done|]. split; [done|]. by intros e' [= <-].
Qed.

Lemma contention_Err req petitions env att now r :
  contention req petitions env att now = Err r ->
  r = refuse_code RefConsentHeld \/ r = refuse_code RefPreempted.
Proof.
  unfold contention. destruct (contends_for_attention (kind req)); simpl; [|done].
  destruct (prompt_up_for petitions (principal req)); [intros [= <-]; auto|].
  destruct (owns_target _ _ _); [|done].
  destruct (exempt att (principal req) (kind req) now); [done|]. intros [= <-]. auto.
Qed.

Lemma decide_Ok req petitions env now s a ex c :
  decide_use req petitions env now s = (Ok (a, ex), c) ->
  use_admissible req petitions env now s (al_grant_id a) ex
  /\ exists st b, c = set_state_of (ck s) (grant_wire_id req) st /\ bucket st = Some b
       /\ muted_pairs st = muted_pairs (state_of (ck s) (grant_wire_id req)).
Proof.
  unfold decide_use. destruct (grant_row req) as [row|] eqn:Hrow; [|done].
  destruct (check_use_grant _ _ _ _ _) as [al|] eqn:Hc; [|done].
  apply check_use_grant_Ok in Hc as (_ & e & He & Hp & Hm & Ha & ->).
  destruct (refused_by_a_vacant_realm (kind req) && _)%bool eqn:Hv; [done|].
  destruct (contention _ _ _ _ _) as [ex'|] eqn:Hk; [|done].
  destruct (bucket_take _ _ _) as [[[]|?] b] eqn:Hb; [|done]. intros [= <- <- <-]. split; [|eauto].
  apply contention_Ok in Hk as (? & ? & ?). split; eauto.
  - intros Href. rewrite Href in Hv.
    simpl in Hv. apply negb_false_iff, bool_decide_eq_true in Hv as [v Hv].
    apply live_view_Some in Hv. eauto.
  - simpl. intros e' He'. simplify_eq. simpl in Hb. by rewrite Hb.
Qed.

Lemma decide_Err req petitions env now s r c :
  decide_use req petitions env now s = (Err r, c) ->
  (code r = RefRateLimited /\ 1 <= retry_after_ms r)
  \/ (code r <> RefRateLimited /\ retry_after_ms r = 0).
Proof.
  unfold decide_use. destruct (grant_row req) as [row|]; [|intros [= <- _]; by right].
  destruct (check_use_grant _ _ _ _ _) as [al|[]]; [|intros [= <- _]; by right..].
  destruct (refused_by_a_vacant_realm (kind req) && _)%bool; [intros [= <- _]; by right|].
  destruct (contention _ _ _ _ _) as [ex'|r'] eqn:Hk;
    [|intros [= <- _]; by destruct (contention_Err _ _ _ _ _ _ Hk) as [->| ->]; right].
  destruct (bucket_take _ _ _) as [[?|ms] b] eqn:Hb; [done|]. intros [= <- _]. left.
  split; [done|]. simpl. unfold bucket_take in Hb.
  destruct (0 <? _); [done|]. injection Hb as <- _. unfold as_u32, u32_max.
  rewrite Z.mod_small by lia. lia.
Qed.

(** The effect of voicing a refusal. *)
Lemma voice_refusal_effect env wire verb r coal now s res s' :
  voice_refusal env wire verb r coal now s = (res, s') ->
  grants s' = grants s /\ attention s' = attention s
  /\ ((res = Ok false /\ coal = true /\ world s' = world s)
      \/ (res <> Ok false /\ world s' = (send env (ERefused wire verb (code r) (voiced_retry r)) (world s)).2)).
Proof.
  unfold voice_refusal, do_send, bind, ret. destruct coal; simpl.
  - destruct (mute _ _ _ _) as [m st]. destruct m; simpl.
    + intros [= <- <-]. simpl. repeat split; by left.
    + destruct (send _ _ _) as [[?|?] w]; intros [= <- <-]; simpl; repeat split; by right.
  - destruct (send _ _ _) as [[?|?] w]; intros [= <- <-]; simpl; repeat split; by right.
Qed.

Lemma refuse_after_effect req env now c coal s res s' :
  refuse_after req env now c coal s = (res, s') ->
  grants s' = grants s /\ attention s' = attention s
  /\ match res with Ok o => exists v, o = Refused c v | Err _ => True end.
Proof.
  unfold refuse_after, bind. destruct (voice_refusal _ _ _ _ _ _ s) as [[v|x] s1] eqn:Hv;
    apply voice_refusal_effect in Hv as (? & ? & _); intros [= <- <-]; eauto.
Qed.

(** Performing a use touches neither the grants nor the signal, and ends in the
    admission it was given or in a refusal. *)
Definition performed (a : Allowed) (sp cl : bool) (s : St)
    (out : result (UseOutcome Digest) X * St) : Prop :=
  grants out.2 = grants s /\ attention out.2 = attention s
  /\ match out.1 with
     | Ok o => admission o = Some {| ad_grant := al_grant_id a; ad_spent_once := sp;
                                     ad_attention_claimed := cl |}
               \/ exists c v, o = Refused c v
     | Err _ => True
     end.

Lemma refuse_after_performed req env now a sp cl c coal s0 s :
  grants s0 = grants s -> attention s0 = attention s ->
  performed a sp cl s (refuse_after req env now c coal s0).
Proof.
  intros Hg Ha. destruct (refuse_after _ _ _ _ _ s0) as [res s'] eqn:Hr.
  apply refuse_after_effect in Hr as (H1 & H2 & H3). unfold performed. simpl.
  rewrite H1, H2. split; [done|split; [done|]]. destruct res; [|done].
  destruct H3 as [v ->]. eauto.
Qed.

Lemma perform_performed req env now a sp cl s :
  performed a sp cl s (perform req env now a sp cl s).
Proof.
  unfold perform, bind, ret, act, ask, do_send.
  destruct (kind req); cases; try (by apply refuse_after_performed); unfold performed; simpl; auto.
Qed.

Lemma commit_spec req a ex s sp cl s' :
  commit req a ex s = (sp, cl, s') ->
  sp = (commit_use (grants s) (al_grant_id a)).1
  /\ grants s' = (commit_use (grants s) (al_grant_id a)).2
  /\ cl = bool_decide (ex <> None)
  /\ attention s' = match ex with Some e => (claim (attention s) e).2 | None => attention s end
  /\ world s' = world s.
Proof.
  unfold commit. destruct (commit_use _ _) as [b g]. destruct ex; intros; by simplify_eq/=.
Qed.

(** A use is refused by the decision or performed after the consumption. *)
Lemma enforce_use_cases req petitions env now s out :
  enforce_use req petitions env now s = out ->
  (exists r c, decide_use req petitions env now s = (Err r, c)
     /\ grants out.2 = grants s /\ attention out.2 = attention s
     /\ voice_refusal env (grant_wire_id req) (verb_of (kind req)) r (coalescible (kind req)) now
          (set_ck c s)
        = (match out.1 with Ok (Refused _ v) => Ok v | Ok _ => Ok false | Err x => Err x end, out.2)
     /\ (match out.1 with Ok o => exists v, o = Refused (code r) v | Err _ => True end))
  \/ (exists a ex c sp cl s1, decide_use req petitions env now s = (Ok (a, ex), c)
     /\ commit req a ex (set_ck c s) = (sp, cl, s1)
     /\ out = perform req env now a sp cl s1).
Proof.
  unfold enforce_use. destruct (decide_use _ _ _ _ _) as [[[a ex]|r] c].
  - destruct (commit _ _ _ _) as [[sp cl] s1] eqn:Hc. intros <-. right. eauto 10.
  - unfold bind, ret. destruct (voice_refusal _ _ _ _ _ _ _) as [[v|x] s1] eqn:Hv; intros <-;
      left; exists r, c; pose proof (voice_refusal_effect _ _ _ _ _ _ _ _ _ Hv) as (? & ? & _);
      simpl; eauto 10.
Qed.

(** The grants after a use: as they were, or one row committed. *)
Lemma enforce_use_grants req petitions env now s :
  let out := enforce_use req petitions env now s in
  (grants out.2 = grants s
   /\ match out.1 with Ok o => admission o = None | Err _ => True end)
  \/ (exists row, grants out.2 = table_step (grants s) (OpCommitUse row)
      /\ (exists ex, use_admissible req petitions env now s row ex)
      /\ match out.1 with
         | Ok o => forall ad, admission o = Some ad ->
             ad_grant ad = row /\ ad_spent_once ad = (commit_use (grants s) row).1
         | Err _ => True
         end).
Proof.
  intros out. destruct (enforce_use_cases _ _ _ _ _ out eq_refl)
    as [(r & c & _ & Hg & _ & _ & Ho)|(a & ex & c & sp & cl & s1 & Hd & Hc & ->)].
  - left. split; [done|]. destruct out.1; [|done]. by destruct Ho as [v ->].
  - right. apply decide_Ok in Hd as [Hadm _]. apply commit_spec in Hc as (Hsp & Hg & _).
    simpl in Hsp, Hg. subst sp. exists (al_grant_id a).
    pose proof (perform_performed req env now a (commit_use (grants s) (al_grant_id a)).1 cl s1)
      as (Hg' & _ & Ho).
    split; [by rewrite Hg', Hg|]. split; [eauto|].
    destruct (perform _ _ _ _ _ _ s1).1; [|done]. intros ad Had.
    destruct Ho as [Ho|(? & ? & ->)]; [|done]. rewrite Ho in Had. by simplify_eq.
Qed.

End chokepoint.


(* ------------------------------------------------------------------------ *)
(** ** Sequences of uses *)

Section runs.
Context {W X Fd IoErr Digest : Type}.
Implicit Types (s : @St W) (env : @UseEnv W X Fd IoErr Digest).

(** Uses by any principals on any facets, interleaved with any operations of the
    grant table. *)
Inductive Step : Type :=
| SUse (req : UseRequest) (petitions : PetitionRegistry)
    (env : @UseEnv W X Fd IoErr Digest) (now : Instant)
| STable (op : TableOp).

Definition step (s : @St W) (st : Step) : option (result (UseOutcome Digest) X) * @St W :=
  match st with
  | SUse req petitions env now =>
      let '(r, s) := enforce_use req petitions env now s in (Some r, s)
  | STable op =>
      (None, {| ck := ck s; grants := table_step (grants s) op; attention := attention s;
                world := world s |})
  end.

(** The outcomes of a run, in order, and the state it ends in. *)
Fixpoint run (steps : list Step) (s : @St W) : list (result (UseOutcome Digest) X) * @St W :=
  match steps with
  | [] => ([], s)
  | st :: steps =>
      let '(r, s) := step s st in
      let '(rs, s) := run steps s in
      (match r with Some r => r :: rs | None => rs end, s)
  end.

Definition admits (g : GrantId) (r : result (UseOutcome Digest) X) : bool :=
  match r with
  | Ok o => is_some_and (admission o) (fun ad => ad_grant ad =? g)
  | Err _ => false
  end.
Definition admissions (g : GrantId) (rs : list (result (UseOutcome Digest) X)) : Z :=
  Z.of_nat (length (List.filter (admits g) rs)).

(** The grants take a table step, or stay. *)
Lemma step_grants s st :
  grants (step s st).2 = grants s \/ exists op, grants (step s st).2 = table_step (grants s) op.
Proof.
  destruct st as [req p env now|op]; simpl; [|eauto].
  destruct (enforce_use req p env now s) as [r s1] eqn:He.
  destruct (enforce_use_grants req p env now s) as [[Hg _]|(row & Hg & _)];
    rewrite He in Hg; [by left|right; by exists (OpCommitUse row)].
Qed.

(** An admission under a row: it was active, and a single-use one is spent. *)
Lemma step_admits s st g r :
  (step s st).1 = Some r -> admits g r = true ->
  exists e, entries (grants s) !! g = Some e /\ liveness e = LActive
  /\ (persistence (row e) = Once ->
      entries (grants (step s st).2) !! g = Some (set_liveness LSpent e)).
Proof.
  destruct st as [req p env now|op]; simpl; [|done].
  destruct (enforce_use req p env now s) as [r1 s1] eqn:He. simpl.
  destruct (enforce_use_grants req p env now s) as [[_ Ho]|(row & Hg & (ex & Hadm) & Ho)];
    rewrite He in *; simpl in *; intros [= ->] Hr; destruct r as [o|]; try done; simpl in Hr;
    destruct (admission o) as [ad|] eqn:Had; simpl in *; try done.
  specialize (Ho ad eq_refl). destruct Ho as [Hrow _]. unbool. subst row. subst g.
  destruct (ua_live _ _ _ _ _ _ _ Hadm) as (e & Hlk & _ & _ & Hact).
  apply state_active in Hact as [Hl _]. exists e. split; [done|]. split; [done|].
  intros Honce. rewrite Hg. unfold commit_use. rewrite Hlk.
  rewrite !bool_decide_true by done. simpl. by rewrite bt_lookup_set_eq, Hlk.
Qed.

Section once.
Context (g : GrantId).

(** A single-use row, while and after it is in the table; and a dead one. *)
Definition once_row (s : @St W) (n : nat) : Prop :=
  table_wf (grants s) /\ next_id (grants s) + Z.of_nat n <= u64_max
  /\ g < next_id (grants s)
  /\ forall e, entries (grants s) !! g = Some e -> persistence (row e) = Once.
Definition dead_row (s : @St W) : Prop :=
  forall e, entries (grants s) !! g = Some e -> liveness e <> LActive.

Lemma step_once_row s st n : once_row s (S n) -> once_row (step s st).2 n.
Proof.
  intros (Hwf & Hage & Hg & Ho).
  destruct (step_grants s st) as [Heq|[op Heq]]; unfold once_row; rewrite Heq.
  - split; [done|]. split; [lia|done].
  - pose proof (table_step_next _ op Hwf ltac:(lia)).
    split; [apply table_step_wf; [done|lia]|]. split; [lia|]. split; [lia|].
    intros e He. destruct (table_step_entry _ _ _ _ Hwf Hg He) as (e0 & l & He0 & -> & _).
    simpl. by apply Ho.
Qed.

Lemma step_dead_row s st n : once_row s (S n) -> dead_row s -> dead_row (step s st).2.
Proof.
  intros (Hwf & _ & Hg & _) Hd e He.
  destruct (step_grants s st) as [Heq|[op Heq]]; rewrite Heq in He; [by apply Hd|].
  destruct (table_step_entry _ _ _ _ Hwf Hg He) as (e0 & l & He0 & -> & Hl). simpl.
  specialize (Hd _ He0). by destruct (liveness e0), l.
Qed.

Lemma run_cons st steps s :
  run (st :: steps) s =
  (match (step s st).1 with Some r => r :: (run steps (step s st).2).1
   | None => (run steps (step s st).2).1 end, (run steps (step s st).2).2).
Proof. simpl. destruct (step s st) as [r s1]. simpl. by destruct (run steps s1). Qed.

Lemma run_once steps s :
  once_row s (length steps) ->
  0 <= admissions g (run steps s).1 <= 1
  /\ (dead_row s -> admissions g (run steps s).1 = 0).
Proof.
  unfold admissions. revert s. induction steps as [|st steps IH]; intros s Ho; [simpl; lia|].
  rewrite run_cons. cbn [fst snd].
  pose proof (step_once_row s st _ Ho) as Ho'. destruct (IH _ Ho') as [IH1 IH2].
  destruct (step s st).1 as [r|] eqn:Hr; [|split; [done|]; intros Hd; apply IH2;
    by eapply step_dead_row].
  cbn [List.filter]. destruct (admits g r) eqn:Ha; [|split; [done|]; intros Hd; apply IH2;
    by eapply step_dead_row].
  destruct (step_admits s st g r Hr Ha) as (e & He & Hl & Hsp).
  assert (dead_row (step s st).2) as Hd.
  { intros e' He'. rewrite Hsp in He'; [by simplify_eq|]. by apply Ho. }
  specialize (IH2 Hd). cbn [length]. split; [lia|]. intros Hdead. by destruct (Hdead e).
Qed.
End once.

(** *** What mutes a refusal *)

Definition marks (c : Chokepoint) (wire : Z) : gset (Z * Z) * option Instant :=
  (muted_pairs (state_of c wire), rate_muted_until (state_of c wire)).

Lemma state_of_set c w st w' :
  state_of (set_state_of c w st) w' = if decide (w' = w) then st else state_of c w'.
Proof.
  unfold state_of, set_state_of. simpl. destruct (decide (w' = w)) as [->|Hne].
  - by rewrite lookup_insert_eq.
  - by rewrite lookup_insert_ne.
Qed.

Lemma decide_marks req p env now s wire :
  marks (decide_use req p env now s).2 wire = marks (ck s) wire.
Proof.
  unfold decide_use. destruct (grant_row req); [|done].
  destruct (check_use_grant _ _ _ _ _); [|done].
  destruct (refused_by_a_vacant_realm (kind req) && _)%bool; [done|].
  destruct (contention _ _ _ _ _); [|done].
  destruct (bucket_take _ _ _) as [r b]. unfold marks. cbn [snd]. rewrite state_of_set.
  by destruct (decide (wire = grant_wire_id req)) as [->|].
Qed.

Lemma voice_refusal_ck env wire verb r coal now s :
  ck (voice_refusal env wire verb r coal now s).2
  = if coal then set_state_of (ck s) wire (mute (state_of (ck s) wire) verb r now).2 else ck s.
Proof.
  unfold voice_refusal, do_send, bind, ret. destruct coal; simpl.
  - destruct (mute _ _ _ _) as [[] st]; simpl; [done|]. by destruct (send _ _ _) as [[] w].
  - by destruct (send _ _ _) as [[] w].
Qed.

(** A use leaves the state of every other grant alone. *)
Lemma enforce_use_other req p env now s wire :
  wire <> grant_wire_id req ->
  marks (ck (enforce_use req p env now s).2) wire = marks (ck s) wire.
Proof.
  intros Hne. rewrite <- (decide_marks req p env now s wire).
  assert (forall c st, marks (set_state_of c (grant_wire_id req) st) wire = marks c wire) as Hset.
  { intros c st. unfold marks. rewrite state_of_set. by rewrite decide_False. }
  assert (forall r coal s0, marks (ck (voice_refusal env (grant_wire_id req) (verb_of (kind req))
            r coal now s0).2) wire = marks (ck s0) wire) as Hv.
  { intros. rewrite voice_refusal_ck. destruct coal; [apply Hset|done]. }
  assert (forall c coal s0, marks (ck (refuse_after req env now c coal s0).2) wire
            = marks (ck s0) wire) as Hr.
  { intros c coal s0. unfold refuse_after, bind, ret. rewrite <- (Hv (refuse_code c) coal s0).
    by destruct (voice_refusal _ _ _ _ _ _ s0) as [[] ?]. }
  unfold enforce_use. destruct (decide_use _ _ _ _ _) as [[[a ex]|r] c]; simpl.
  - destruct (commit _ _ _ _) as [[sp cl] s1] eqn:Hc.
    assert (marks (ck s1) wire = marks c wire) as <-.
    { unfold commit in Hc. destruct (commit_use _ _), ex; simplify_eq/=; case_match; auto. }
    unfold perform, bind, ret, act, ask, do_send.
    destruct (kind req); cases; simpl; rewrite ?Hr; done.
  - unfold bind, ret. pose proof (Hv r (coalescible (kind req)) (set_ck c s)) as H.
    simpl in H. rewrite <- H. clear H.
    by destruct (voice_refusal _ _ _ _ _ _ _) as [[] ?].
Qed.

(** A refusal is muted: by its pair, or until a time for the rate refusals. *)
Definition muted (wire verb : Z) (c : Refusal) (until : Instant) (s : @St W) : Prop :=
  if bool_decide (c = RefRateLimited)
  then exists u, (marks (ck s) wire).2 = Some u /\ until <= u
  else (verb, refusal_to_wire c) ∈ (marks (ck s) wire).1.

Lemma mute_keeps wire verb c until s env verb' r coal now :
  muted wire verb c until s ->
  muted wire verb c until (voice_refusal env wire verb' r coal now s).2.
Proof.
  unfold muted, marks. rewrite voice_refusal_ck. intros Hm. destruct coal; [|done].
  rewrite state_of_set, decide_True by done. simpl in *. unfold mute.
  case_bool_decide; case_bool_decide; simpl; try done.
  - destruct Hm as (u & Hu & Hle). rewrite Hu. simpl.
    destruct (Z.ltb_spec now u); simpl; [eauto|]. eexists. split; [done|].
    unfold voiced_retry, from_millis. rewrite bool_decide_true by done. lia.
  - by destruct (is_some_and _ _).
  - set_solver.
Qed.

(** Voicing a refusal mutes it, and a muted one is not voiced. *)
Lemma voiced_mutes wire verb r env now s s' :
  voice_refusal env wire verb r true now s = (Ok true, s') ->
  muted wire verb (code r) (now + from_millis (retry_after_ms r)) s'.
Proof.
  intros Hv. assert (ck s' = (set_state_of (ck s) wire (mute (state_of (ck s) wire) verb r now).2))
    as Hck by (rewrite <- (voice_refusal_ck env wire verb r true now s), Hv; done).
  unfold muted, marks. rewrite Hck, state_of_set, decide_True by done. simpl.
  unfold voice_refusal, mute in *. destruct (bool_decide (code r = RefRateLimited)) eqn:Hc; simpl.
  - destruct (is_some_and _ _); [done|]. simpl. eexists. split; [done|].
    unfold voiced_retry, from_millis. rewrite Hc. lia.
  - set_solver.
Qed.

Lemma muted_silent wire verb r until env now s :
  muted wire verb (code r) until s -> (code r = RefRateLimited -> now < until) ->
  exists s', voice_refusal env wire verb r true now s = (Ok false, s') /\ world s' = world s.
Proof.
  unfold muted, marks, voice_refusal, mute. intros Hm Ht. simpl in Hm.
  destruct (bool_decide (code r = RefRateLimited)) eqn:Hc.
  - destruct Hm as (u & -> & Hle). apply bool_decide_eq_true in Hc. specialize (Ht Hc).
    simpl. rewrite (proj2 (Z.ltb_lt now u)) by lia. eauto.
  - rewrite bool_decide_true by done. eauto.
Qed.

(** A step that does not admit a use through the wire grant keeps it muted. *)
Definition quiet_step (wire : Z) (s : @St W) (st : Step) : Prop :=
  match st with
  | SUse req p env now =>
      grant_wire_id req = wire -> is_ok (decide_use req p env now s).1 = false
  | STable _ => True
  end.

Fixpoint quiet (wire : Z) (steps : list Step) (s : @St W) : Prop :=
  match steps with
  | [] => True
  | st :: steps => quiet_step wire s st /\ quiet wire steps (step s st).2
  end.

Lemma step_muted wire verb c until s st :
  quiet_step wire s st -> muted wire verb c until s -> muted wire verb c until (step s st).2.
Proof.
  destruct st as [req p env now|op]; simpl; [|done]. intros Hq Hm.
  assert (forall x, (let '(r, s0) := enforce_use req p env now s in (Some r, s0)).2 = x ->
            (enforce_use req p env now s).2 = x) as Hx by (by destruct (enforce_use _ _ _ _ _)).
  rewrite <- (Hx _ eq_refl). clear Hx.
  destruct (decide (wire = grant_wire_id req)) as [->|Hne]; cycle 1.
  { unfold muted. by rewrite enforce_use_other. }
  specialize (Hq eq_refl). pose proof (decide_marks req p env now s (grant_wire_id req)) as Hmk.
  unfold enforce_use. destruct (decide_use _ _ _ _ _) as [[?|r] c0]; [done|]. simpl in Hmk.
  unfold bind, ret.
  assert (muted (grant_wire_id req) verb c until (set_ck c0 s)) as Hm'
    by (unfold muted; change (ck (set_ck c0 s)) with c0; by rewrite Hmk).
  apply (mute_keeps _ _ _ _ _ env (verb_of (kind req)) r (coalescible (kind req)) now) in Hm'.
  by destruct (voice_refusal _ _ _ _ _ _ _) as [[] ?].
Qed.

Lemma run_muted wire verb c until steps s :
  quiet wire steps s -> muted wire verb c until s -> muted wire verb c until (run steps s).2.
Proof.
  revert s. induction steps as [|st steps IH]; intros s; [done|]. intros [Hq Hqs] Hm.
  rewrite run_cons. simpl. apply IH; [done|]. by apply step_muted.
Qed.

End runs.

(* ------------------------------------------------------------------------ *)
(** ** Properties *)

Section properties.
Context {W X Fd IoErr Digest : Type}.
Implicit Types (s : @St W) (env : @UseEnv W X Fd IoErr Digest).

(** C1: complete mediation. Whatever a use asks, unless it names an active row
    of its own principal that confers its verb, the realm has a live view if
    the use needs one, the rate limit has a token for it and, where the use
    contends for attention, no prompt is up for the principal and no human owns
    the target without an exemption, the use has no effect: the grants and the
    attention signal are untouched, the outcome is a refusal or a transport
    error, and the only thing done to the world is at most one [refused] event
    naming that use, with a retry hint exactly when it is a rate refusal. *)
Theorem enforce_mediation (req : UseRequest) (petitions : PetitionRegistry)
  (env : @UseEnv W X Fd IoErr Digest) (now : Z) (s : @St W) :
  let '(r, s') := enforce_use req petitions env now s in
  (exists row ex, use_admissible req petitions env now s row ex)
  \/ (grants s' = grants s /\ attention s' = attention s
      /\ (forall o, r = Ok o -> exists c v, o = Refused c v)
      /\ (world s' = world s \/
          exists c ms,
            world s' = (send env (ERefused (grant_wire_id req) (verb_of (kind req)) c ms) (world s)).2
            /\ (ms <> 0 <-> c = RefRateLimited))).
Proof.
  destruct (enforce_use req petitions env now s) as [r s'] eqn:He.
  destruct (enforce_use_cases _ _ _ _ _ _ He)
    as [(rf & c & Hd & Hg & Ha & Hv & Ho)|(a & ex & c & sp & cl & s1 & Hd & _ & _)]; cycle 1.
  { left. apply decide_Ok in Hd as [Hd _]. eauto. }
  right. simpl in *. split; [done|]. split; [done|]. split.
  { intros o ->. destruct Ho as [v ->]. eauto. }
  apply voice_refusal_effect in Hv as (_ & _ & [(_ & _ & Hw)|[_ Hw]]); [by left|right].
  exists (code rf), (voiced_retry rf). split; [done|]. unfold voiced_retry.
  case_bool_decide; [split; [done|lia]|done].
Qed.

(** C2: an admitted use does exactly what it says. When the chokepoint reports
    an admission, the use was admissible under the reported row; the row, and
    only it, is committed and the report says whether that spent it; the
    attention window is consumed exactly when the report says it was claimed;
    and the world sees exactly the one effect of the use's kind, on the grant's
    own realm: an emulated, view-clamped input, a layout act, one launch and
    its event, one frame of the live view, or one designation. An egress is
    never admitted. *)
Theorem enforce_admitted_exact (req : UseRequest) (petitions : PetitionRegistry)
  (env : @UseEnv W X Fd IoErr Digest) (now : Z) (s s' : @St W) (o : UseOutcome Digest)
  (ad : UseAdmission)
  (Huse : enforce_use req petitions env now s = (Ok o, s')) (Had : admission o = Some ad) :
  (exists ex, use_admissible req petitions env now s (ad_grant ad) ex
     /\ ad_attention_claimed ad = bool_decide (ex <> None)
     /\ attention s' = match ex with Some e => (claim (attention s) e).2 | None => attention s end)
  /\ (ad_spent_once ad, grants s') = commit_use (grants s) (ad_grant ad)
  /\ match kind req with
     | Pointer k | TextUse k => exists realm, grant_realm env = Some realm
         /\ world s' = actuations env realm
              (emulated (clamp_to_view k (live_view (realm_view env)))) (world s)
     | LayoutFocus => exists realm, grant_realm env = Some realm
         /\ world s' = layout env (Focus realm) (world s)
     | LayoutArrange mode => exists realm, grant_realm env = Some realm
         /\ world s' = layout env (Arrange realm mode) (world s)
     | Launch => exists realm minted w, grant_realm env = Some realm
         /\ launch env {| la_template := realm; la_principal := principal req;
                          la_grant := ad_grant ad |} (world s) = (Ok minted, w)
         /\ send env (ELaunched (facet_id req) minted) w = (Ok tt, world s')
     | Capture => exists view f d, live_view (realm_view env) = Some view
         /\ render_frame (memfd env) (digest_of env) view = Ok (f, d)
         /\ send env (EFrameReady (facet_id req) f) (world s) = (Ok tt, world s')
     | Designate asked => exists realm r, grant_realm env = Some realm
         /\ designate env
              {| da_realm := realm; da_principal := principal req; da_grant := ad_grant ad;
                 da_facet_id := facet_id req; da_grant_wire_id := grant_wire_id req;
                 da_ask := asked; da_spent_once := ad_spent_once ad;
                 da_deadline := now + PICKER_DEADLINE |} (world s) = (r, world s')
         /\ r <> Err Unavailable
     | Egress => False
     end.
Proof.
  destruct (enforce_use_cases _ _ _ _ _ _ Huse)
    as [(rf & c & _ & _ & _ & _ & [v Ho])|(a & ex & c & sp & cl & s1 & Hd & Hc & Hp)];
    [by subst o|].
  apply decide_Ok in Hd as [Hadm _]. apply commit_spec in Hc as (Hsp & Hg & Hcl & Hat & Hw).
  simpl in Hsp, Hg, Hat, Hw.
  pose proof (perform_performed req env now a sp cl s1) as (Hg' & Ha' & Ho). rewrite <- Hp in *.
  simpl in Hg', Ha', Ho. destruct Ho as [Ho|(? & ? & ->)]; [|done].
  rewrite Ho in Had. injection Had as <-. simpl. split; [|split].
  - exists ex. by rewrite Ha', Hat, Hcl.
  - rewrite Hg', Hg, Hsp. by destruct (commit_use _ _).
  - symmetry in Hp. rewrite <- Hw. clear -Hp Ho. unfold perform in Hp.
    unfold bind, ret, act, ask, do_send in Hp.
    assert (forall c coal s0, refuse_after req env now c coal s0 = (Ok o, s') -> False) as Hno.
    { intros c coal s0 Hr. apply refuse_after_effect in Hr as (_ & _ & [v ->]). done. }
    destruct (kind req); cases; try (by edestruct Hno); simplify_eq/=;
      repeat match goal with u : unit |- _ => destruct u end; eauto 10.
Qed.

(** A single-use grant is used once. Over any sequence of uses by any
    principals through any facets, interleaved with any operations of the grant
    table, at most one use is admitted under a row of the [Once] rung; none is
    if the row is already dead, and the use that is admitted reports spending
    it. *)
Theorem enforce_once (steps : list (@Step W X Fd IoErr Digest)) (s : @St W) (g : Z) (e : Entry)
  (Hwf : table_wf (grants s))
  (Hage : next_id (grants s) + Z.of_nat (length steps) <= u64_max)
  (He : entries (grants s) !! g = Some e) (Honce : persistence (row e) = Once) :
  admissions g (run steps s).1 <= 1
  /\ (liveness e <> LActive -> admissions g (run steps s).1 = 0)
  /\ (forall req petitions (env : @UseEnv W X Fd IoErr Digest) now o s' ad,
        enforce_use req petitions env now s = (Ok o, s') ->
        admission o = Some ad -> ad_grant ad = g -> ad_spent_once ad = true).
Proof.
  assert (once_row g s (length steps)) as Ho.
  { split; [done|]. split; [done|]. split; [apply (twf_ids _ Hwf) in He; lia|].
    intros e' He'. by simplify_eq. }
  destruct (run_once g steps s Ho) as [H1 H2]. split; [lia|]. split.
  { intros Hl. apply H2. intros e' He'. by simplify_eq. }
  intros req p env now o s' ad Hu Had <-.
  destruct (enforce_use_grants req p env now s) as [[_ Hn]|(row & _ & (ex & Hadm) & Hr)];
    rewrite Hu in *; simpl in *; [congruence|].
  destruct (Hr ad Had) as [Hrow ->]. subst row.
  destruct (ua_live _ _ _ _ _ _ _ Hadm) as (e' & Hlk & _ & _ & Hact). simplify_eq.
  apply state_active in Hact as [Hl _].
  unfold commit_use. rewrite He. by rewrite !bool_decide_true.
Qed.

(** C35: a principal without authority learns nothing. Two uses of the same
    request that the grant table refuses for the same reason, or that name no
    row, come to the same outcome, leave the chokepoint in the same state and
    send the same bytes, whatever the human is doing, whatever prompt is up,
    whatever any realm shows, whatever the attention key did and whatever else
    the two tables hold. *)
Theorem enforce_no_oracle (req : UseRequest) (petitions1 petitions2 : PetitionRegistry)
  (env1 env2 : @UseEnv W X Fd IoErr Digest) (now : Z) (s1 s2 : @St W) (reason : RefusalReason)
  (Hsend : send env1 = send env2) (Hck : ck s1 = ck s2) (Hworld : world s1 = world s2)
  (H1 : forall row, grant_row req = Some row ->
          check_use_grant (grants s1) row (principal req) (verb_of (kind req)) now = Err reason)
  (H2 : forall row, grant_row req = Some row ->
          check_use_grant (grants s2) row (principal req) (verb_of (kind req)) now = Err reason) :
  let '(r1, s1') := enforce_use req petitions1 env1 now s1 in
  let '(r2, s2') := enforce_use req petitions2 env2 now s2 in
  r1 = r2 /\ ck s1' = ck s2' /\ world s1' = world s2'.
Proof.
  assert (exists c, forall p env s, (forall row, grant_row req = Some row ->
      check_use_grant (grants s) row (principal req) (verb_of (kind req)) now = Err reason) ->
    @decide_use W X Fd IoErr Digest req p env now s = (Err (refuse_code c), ck s)) as [c Hd].
  { unfold decide_use. destruct (grant_row req) as [row|].
    - exists (refusal_of_reason reason). intros p env s H. by rewrite (H row).
    - by exists RefNotGranted. }
  unfold enforce_use. rewrite !Hd by done.
  unfold bind, ret, voice_refusal, do_send. simpl. rewrite Hck.
  destruct (coalescible (kind req)); simpl.
  - destruct (mute _ _ _ _) as [[] st]; simpl; [done|]. unfold bind. simpl. rewrite Hsend, Hworld.
    by destruct (send env2 _ _) as [[] w].
  - unfold bind. simpl. rewrite Hsend, Hworld. by destruct (send env2 _ _) as [[] w].
Qed.

(** Refusals are coalesced, and never lost. Once a refusal of a coalescible
    use has been voiced on a grant, then as long as no use is admitted through
    that grant, whatever else happens, a later refusal of the same verb with
    the same code is silent: nothing at all is sent. A rate refusal is silent,
    whatever its verb, until the hint it gave has run out. And a use whose
    requester waits for an answer is always answered: its refusals are voiced
    each time. *)
Theorem enforce_refusals_coalesce
  (req1 req2 : UseRequest) (p1 p2 : PetitionRegistry) (env1 env2 : @UseEnv W X Fd IoErr Digest)
  (now1 now2 : Z) (steps : list (@Step W X Fd IoErr Digest)) (s0 s1 s3 : @St W)
  (r1 r2 : Refuse) (c1 c2 : Chokepoint) (res : result (UseOutcome Digest) X)
  (Hd1 : decide_use req1 p1 env1 now1 s0 = (Err r1, c1))
  (Hu1 : enforce_use req1 p1 env1 now1 s0 = (Ok (Refused (code r1) true), s1))
  (Hc1 : coalescible (kind req1) = true)
  (Hquiet : quiet (grant_wire_id req1) steps s1)
  (Hwire : grant_wire_id req2 = grant_wire_id req1)
  (Hd2 : decide_use req2 p2 env2 now2 (run steps s1).2 = (Err r2, c2))
  (Hcode : code r2 = code r1)
  (Hu2 : enforce_use req2 p2 env2 now2 (run steps s1).2 = (res, s3)) :
  (coalescible (kind req2) = true ->
   (if bool_decide (code r1 = RefRateLimited)
    then now2 < now1 + from_millis (retry_after_ms r1)
    else verb_of (kind req2) = verb_of (kind req1)) ->
   res = Ok (Refused (code r1) false) /\ world s3 = world (run steps s1).2)
  /\ (coalescible (kind req2) = false ->
      forall c v, res = Ok (Refused c v) -> v = true).
Proof.
  unfold enforce_use, bind in Hu1, Hu2. rewrite Hd1, Hc1 in Hu1. rewrite Hd2, Hwire in Hu2.
  set (wire := grant_wire_id req1) in *. set (s2 := (run steps s1).2) in *. split.
  - intros Hc2 Htime. rewrite Hc2 in Hu2.
    destruct (voice_refusal _ _ _ r1 _ _ _) as [[v|] s1'] eqn:Hv1; [|done].
    unfold ret in Hu1. injection Hu1 as -> ->. apply voiced_mutes in Hv1.
    apply (run_muted _ _ _ _ steps) in Hv1; [|done]. fold s2 in Hv1.
    assert (marks c2 wire = marks (ck s2) wire) as Hmk
      by (rewrite <- (decide_marks req2 p2 env2 now2 s2 wire), Hd2; done).
    destruct (muted_silent wire (verb_of (kind req2)) r2
      (now1 + from_millis (retry_after_ms r1)) env2 now2 (set_ck c2 s2)) as (s' & Hv2 & Hw).
    + unfold muted in *. change (ck (set_ck c2 s2)) with c2. rewrite Hmk, Hcode.
      case_bool_decide; [done|]. by rewrite Htime.
    + rewrite Hcode. intros Hr. by rewrite bool_decide_true in Htime.
    + rewrite Hv2 in Hu2. unfold ret in Hu2. rewrite <- Hcode. by simplify_eq.
  - intros Hc2 c v ->. rewrite Hc2 in Hu2.
    destruct (voice_refusal _ _ _ r2 _ _ _) as [[v'|] s1'] eqn:Hv2; [|done].
    unfold ret in Hu2. injection Hu2 as _ -> _.
    apply voice_refusal_effect in Hv2 as (_ & _ & [(_ & ? & _)|[Hne _]]); [done|].
    destruct v; [done|]. by destruct Hne.
Qed.
End properties.

(* ------------------------------------------------------------------------ *)
(** ** A concrete session *)

(** A world that is the log of what was done to it. *)
Inductive Effect : Type :=
| EfEvent (e : @UseEvent (list Z))
| EfInput (realm : RealmId) (input : SeatInput)
| EfLayout (a : LayoutAct)
| EfLaunch (a : LaunchAsk)
| EfDesignate (a : DesignateAsk).

Definition demo_env : @UseEnv (list Effect) unit (list Z) unit (list Z) :=
  {| realm_view := Some {| rgba := [1; 2; 3; 4]; v_width := 1; v_height := 1 |};
     presence := ∅;
     physical_realm := Some (str "realm-0");
     actuations := fun r i w => w ++ [EfInput r i];
     grant_realm := Some (str "realm-0");
     layout := fun a w => w ++ [EfLayout a];
     launch := fun a w => (Err LCapacity, w ++ [EfLaunch a]);
     designate := fun a w => (Ok 1, w ++ [EfDesignate a]);
     memfd := fun b => Ok b;
     digest_of := fun b => b;
     send := fun e w => (Ok tt, w ++ [EfEvent e]) |}.

Definition demo_use (row : option GrantId) (k : UseKind) : UseRequest :=
  {| facet_id := 8; grant_wire_id := 7; grant_row := row;
     principal := str "vitrin://local/agent/demo"; kind := k |}.

Definition demo_signal : AttentionSignal :=
  signal_new {| ac_name := str "super"; ac_evdev := 125; ac_keysym := 65515 |}.
Definition demo_state : @St (list Effect) :=
  {| ck := chokepoint_new; grants := demo_table; attention := demo_signal; world := [] |}.

Definition demo_button : UseKind := Pointer (Button 272 BPressed).

Lemma enforce_admitted_exact_witness :
  exists s', enforce_use (demo_use (Some 1) demo_button) demo_registry demo_env 5 demo_state
    = (Ok (UseAdmitted 1 None false false), s')
  /\ (exists ex, use_admissible (demo_use (Some 1) demo_button) demo_registry demo_env 5
        demo_state 1 ex)
  /\ world s' = [EfInput (str "realm-0") (emulated (Button 272 BPressed))].
Proof.
  destruct (enforce_use (demo_use (Some 1) demo_button) demo_registry demo_env 5 demo_state)
    as [r s'] eqn:Hu.
  assert (r = Ok (UseAdmitted 1 None false false)) as ->
    by (apply (f_equal fst) in Hu; vm_compute in Hu; by rewrite <- Hu).
  exists s'. split; [done|].
  destruct (enforce_admitted_exact _ _ _ _ _ _ _
    {| ad_grant := 1; ad_spent_once := false; ad_attention_claimed := false |} Hu eq_refl)
    as ((ex & Hex & _) & _ & (realm & Hr & Hw)).
  split; [by exists ex|]. injection Hr as <-. exact Hw.
Defined.

Lemma enforce_once_witness :
  let steps := [SUse (demo_use (Some 2) Capture) demo_registry demo_env 5;
                STable (OpExpireDue 6);
                SUse (demo_use (Some 2) Capture) demo_registry demo_env 7] in
  admissions 2 (run steps demo_state).1 = 1 /\ admissions 2 (run steps demo_state).1 <= 1.
Proof.
  intros steps. split; [by vm_compute|].
  destruct (entries demo_table !! 2) as [e|] eqn:He; [|vm_compute in He; discriminate].
  apply (enforce_once steps demo_state 2 e demo_table_wf).
  - vm_compute. discriminate.
  - exact He.
  - vm_compute in He. injection He as <-. reflexivity.
Defined.

Lemma enforce_no_oracle_witness :
  let held := {| realm_view := None; presence := note_run ∅
                   [{| n_realm := Some (str "realm-0"); n_origin := Physical;
                       n_kind := Button 272 BPressed; n_at := 0 |}];
                 physical_realm := Some (str "realm-0"); actuations := actuations demo_env;
                 grant_realm := None; layout := layout demo_env; launch := launch demo_env;
                 designate := designate demo_env; memfd := memfd demo_env;
                 digest_of := digest_of demo_env; send := send demo_env |} in
  (enforce_use (demo_use (Some 2) demo_button) demo_registry demo_env 5 demo_state).1
  = (enforce_use (demo_use (Some 2) demo_button) demo_pending held 5 demo_state).1.
Proof.
  intros held.
  pose proof (enforce_no_oracle (demo_use (Some 2) demo_button) demo_registry demo_pending
    demo_env held 5 demo_state demo_state NotGranted eq_refl eq_refl eq_refl) as H.
  destruct (enforce_use (demo_use (Some 2) demo_button) demo_registry demo_env 5 demo_state).
  destruct (enforce_use (demo_use (Some 2) demo_button) demo_pending held 5 demo_state).
  apply H; intros row [= <-]; vm_compute; reflexivity.
Defined.

Lemma enforce_refusals_coalesce_witness :
  let use := demo_use (Some 9) demo_button in
  exists s1 s3,
    enforce_use use demo_registry demo_env 5 demo_state = (Ok (Refused RefNotGranted true), s1)
    /\ enforce_use use demo_registry demo_env 6 s1 = (Ok (Refused RefNotGranted false), s3)
    /\ world s3 = [EfEvent (ERefused 7 2 RefNotGranted 0)].
Proof.
  intros use.
  destruct (enforce_use use demo_registry demo_env 5 demo_state) as [r1 s1] eqn:Hu1.
  destruct (enforce_use use demo_registry demo_env 6 s1) as [r3 s3] eqn:Hu3.
  assert (Hr1 : r1 = Ok (Refused RefNotGranted true))
    by (apply (f_equal fst) in Hu1; vm_compute in Hu1; by rewrite <- Hu1).
  assert (Hw1 : world s1 = [EfEvent (ERefused 7 2 RefNotGranted 0)])
    by (apply (f_equal (fun o => world o.2)) in Hu1; exact (eq_sym Hu1)).
  assert (Hg1 : grants s1 = demo_table)
    by (apply (f_equal (fun o => grants o.2)) in Hu1; exact (eq_sym Hu1)).
  subst r1. exists s1, s3. split; [done|].
  destruct (enforce_refusals_coalesce use use demo_registry demo_registry demo_env demo_env 5 6 []
    demo_state s1 s3 (refuse_code RefNotGranted) (refuse_code RefNotGranted) (ck demo_state) (ck s1)
    r3) as [H _]; try done.
  - unfold decide_use. simpl. by rewrite Hg1.
  - destruct (H eq_refl eq_refl) as [-> Hw]. split; [done|]. exact (eq_trans Hw Hw1).
Defined.
