(* ===== verification/Messages.v ===== *)
(** * The requests of a principal

    The generated message types under [crates/vitrin-protocol/src/generated/]
    that a principal sends: their fields, encoders and decoders. Every one has
    the same shape, which the generator stamps out: four checks of the header,
    the arguments in order, no byte left. Here the shape is written once, over a
    _codec_ for the arguments, and a message is its opcode and its codec. An
    interface, [Lawful], says what a codec owes; the arguments of each message
    discharge it, and [frame_exact] is about every lawful codec at once; [Protocol] has
    the table of the messages and the theorem about each of them. No request carries
    a descriptor. *)

From S2P Require Import Prelude Text Wire Grants Input Uses.

(* ------------------------------------------------------------------------ *)
(** ** Argument codecs *)

(** How a value is appended to a buffer ([None] is a panic) and read at a
    cursor. *)
Record codec (A : Type) : Type := {
  put : Bytes -> A -> option Bytes;
  fetch : Bytes -> Z -> result (A * Z) DecodeError }.
Arguments put {A} _ _ _.
Arguments fetch {A} _ _ _.

Definition c_uint : codec Z :=
  {| put := fun out v => Some (write_uint out v); fetch := read_uint |}.
Definition c_int : codec Z :=
  {| put := fun out v => Some (write_int out v); fetch := read_int |}.
Definition c_str (max : Z) : codec Str :=
  {| put := fun out s => write_string out s max; fetch := fun bytes pos => read_string bytes pos max |}.
Definition c_unit : codec unit :=
  {| put := fun out _ => Some out; fetch := fun _ pos => Ok (tt, pos) |}.
(** A field whose [u32] is checked: an enum or a bit mask. *)
Definition c_checked {A} (to_wire : A -> Z) (from_wire : Z -> result A DecodeError) : codec A :=
  {| put := fun out a => Some (write_uint out (to_wire a));
     fetch := fun bytes pos =>
       let? (v, pos) := read_uint bytes pos in
       let? a := from_wire v in Ok (a, pos) |}.
Definition c_pair {A B} (ca : codec A) (cb : codec B) : codec (A * B) :=
  {| put := fun out ab => out ← put ca out ab.1; put cb out ab.2;
     fetch := fun bytes pos =>
       let? (a, pos) := fetch ca bytes pos in
       let? (b, pos) := fetch cb bytes pos in Ok ((a, b), pos) |}.
(** A [struct] as the tuple of its fields. *)
Definition c_struct {A B} (build : A -> B) (fields : B -> A) (c : codec A) : codec B :=
  {| put := fun out b => put c out (fields b);
     fetch := fun bytes pos => let? (a, pos) := fetch c bytes pos in Ok (build a, pos) |}.
Infix "⊗" := c_pair (at level 40, left associativity).

(* ------------------------------------------------------------------------ *)
(** ** Frames *)

Section frame.
Context {F A : Type}.

Definition u8_of_bool (b : bool) : Z := if b then 1 else 0.

(** [encode]. *)
Definition encode_frame (OPCODE : Z) (HAS_FD : bool) (c : codec A) (oid : Z) (m : A) : option Bytes :=
  let h := {| object_id := oid; size := 0; opcode := OPCODE; fd_count := u8_of_bool HAS_FD |} in
  out ← put c (encode_with_placeholder_size h []) m;
  patch_size out.

(** [decode]. *)
Definition decode_frame (OPCODE : Z) (HAS_FD : bool) (c : codec A) (bytes : Bytes) (fd : option F)
    : result (Z * A) DecodeError :=
  let has := bool_decide (is_Some fd) in
  if negb (Bool.eqb has HAS_FD) then Err (FdCountMismatch (u8_of_bool HAS_FD) (u8_of_bool has)) else
  let? header := header_decode bytes in
  if negb (opcode header =? OPCODE) then Err (OpcodeMismatch OPCODE (opcode header)) else
  if negb (size header =? blen bytes) then Err (SizeMismatch (size header) (blen bytes)) else
  if negb (fd_count header =? u8_of_bool HAS_FD)
  then Err (FdCountMismatch (u8_of_bool HAS_FD) (fd_count header)) else
  let? (m, pos) := fetch c bytes HEADER_LEN in
  if negb (pos =? blen bytes) then Err (TrailingBytes pos (blen bytes)) else
  Ok (object_id header, m).
End frame.

(* ------------------------------------------------------------------------ *)
(** ** Enums *)

Definition persistence_to_wire (p : WirePersistence) : Z :=
  match p with WOnce => 0 | WWhileRunning => 1 | WUntilRevoked => 2 | WAlways => 3 end.
Definition persistence_from_wire (v : Z) : result WirePersistence DecodeError :=
  if v =? 0 then Ok WOnce else if v =? 1 then Ok WWhileRunning else if v =? 2 then Ok WUntilRevoked
  else if v =? 3 then Ok WAlways
  else Err (InvalidEnumValue (str "vitrin_grant") (str "persistence") v).

Definition verb_from_bits (v : Z) : result Z DecodeError :=
  if negb (Z.land v (Z.lxor VALID_MASK u32_max) =? 0)
  then Err (InvalidBitfieldValue (str "vitrin_grant") (str "verb") v) else Ok v.

Definition button_to_wire (s : ButtonState) : Z := match s with BReleased => 0 | BPressed => 1 end.
Definition button_from_wire (v : Z) : result ButtonState DecodeError :=
  if v =? 0 then Ok BReleased else if v =? 1 then Ok BPressed
  else Err (InvalidEnumValue (str "vitrin_actuator_pointer") (str "button_state") v).

Definition axis_to_wire (a : Axis) : Z := match a with Vertical => 0 | Horizontal => 1 end.
Definition axis_from_wire (v : Z) : result Axis DecodeError :=
  if v =? 0 then Ok Vertical else if v =? 1 then Ok Horizontal
  else Err (InvalidEnumValue (str "vitrin_actuator_pointer") (str "axis") v).

(** [vitrin_layout_arrange::Mode]; the core's own [LayoutMode] has the same values. *)
Definition layout_mode_to_wire (m : LayoutMode) : Z := match m with Windowed => 0 | Fullscreen => 1 end.
Definition layout_mode_from_wire (v : Z) : result LayoutMode DecodeError :=
  if v =? 0 then Ok Windowed else if v =? 1 then Ok Fullscreen
  else Err (InvalidEnumValue (str "vitrin_layout_arrange") (str "mode") v).

Inductive FileMode : Type := Read | ReadWrite.
Definition file_mode_to_wire (m : FileMode) : Z := match m with Read => 0 | ReadWrite => 1 end.
Definition file_mode_from_wire (v : Z) : result FileMode DecodeError :=
  if v =? 0 then Ok Read else if v =? 1 then Ok ReadWrite
  else Err (InvalidEnumValue (str "vitrin_powerbox") (str "mode") v).

(* ------------------------------------------------------------------------ *)
(** ** The messages *)

Record Hello : Type := {
  hello_version : Z; hello_principal : Z; hello_identity : Str; hello_credential_type : Str;
  hello_credential : Str }.
Definition c_hello : codec Hello :=
  c_struct (fun '(v, p, i, t, c) => Build_Hello v p i t c)
    (fun h => (hello_version h, hello_principal h, hello_identity h, hello_credential_type h,
               hello_credential h))
    (c_uint ⊗ c_uint ⊗ c_str 2048 ⊗ c_str 32 ⊗ c_str 32768).

Record RequestGrant : Type := {
  rg_grant : Z; rg_consent : Z; rg_view : Z; rg_pointer : Z; rg_text : Z; rg_resource : Str;
  rg_verbs : Z; rg_expiry_ms : Z; rg_max_event_rate : Z; rg_persistence : WirePersistence;
  rg_flags : Z }.
Definition c_request_grant : codec RequestGrant :=
  c_struct
    (fun '(g, c, v, p, t, r, vb, e, m, per, f) => Build_RequestGrant g c v p t r vb e m per f)
    (fun r => (rg_grant r, rg_consent r, rg_view r, rg_pointer r, rg_text r, rg_resource r,
               rg_verbs r, rg_expiry_ms r, rg_max_event_rate r, rg_persistence r, rg_flags r))
    (c_uint ⊗ c_uint ⊗ c_uint ⊗ c_uint ⊗ c_uint ⊗ c_str 256
     ⊗ c_checked (fun v => v) verb_from_bits ⊗ c_uint ⊗ c_uint
     ⊗ c_checked persistence_to_wire persistence_from_wire ⊗ c_uint).

(** The requests whose fields the core reads as they are: a new id, a point, a
    text, a mode, nothing. *)
Definition c_sync : codec Z := c_uint.
Definition c_get_realm : codec (Z * Str) := c_uint ⊗ c_str 64.
Definition c_get_launcher : codec Z := c_uint.
Definition c_get_layout_focus : codec Z := c_uint.
Definition c_get_layout_arrange : codec Z := c_uint.
Definition c_get_powerbox : codec Z := c_uint.
Definition c_get_egress : codec Z := c_uint.
Definition c_capture_frame : codec unit := c_unit.
Definition c_launch : codec unit := c_unit.
Definition c_focus : codec unit := c_unit.
Definition c_request_dir : codec unit := c_unit.
Definition c_move : codec (Z * Z) := c_int ⊗ c_int.
Definition c_button : codec (Z * ButtonState) := c_uint ⊗ c_checked button_to_wire button_from_wire.
Definition c_scroll : codec (Axis * Z) := c_checked axis_to_wire axis_from_wire ⊗ c_int.
Definition c_type : codec Str := c_str 4096.
Definition c_set_fullscreen : codec LayoutMode := c_checked layout_mode_to_wire layout_mode_from_wire.
Definition c_request_file : codec FileMode := c_checked file_mode_to_wire file_mode_from_wire.
Definition c_request_connect : codec (Str * Z) := c_str 253 ⊗ c_uint.

(* ------------------------------------------------------------------------ *)
(** ** What a codec owes *)

(** Putting appends; what was put is fetched back, wherever it stands; and what
    is fetched is exactly what would have been put. *)
Class Lawful {A} (c : codec A) := {
  valid : A -> Prop;
  put_app pre a : put c pre a = (mid ← put c [] a; Some (pre ++ mid));
  fetch_put pre mid suf a :
    valid a -> put c [] a = Some mid -> blen (pre ++ mid ++ suf) <= u64_max ->
    fetch c (pre ++ mid ++ suf) (blen pre) = Ok (a, blen pre + blen mid);
  put_fetch bytes pos pos' a :
    is_bytes bytes -> 0 <= pos -> pos <= blen bytes -> fetch c bytes pos = Ok (a, pos') ->
    valid a /\ pos <= pos' <= blen bytes /\ put c [] a = Some (slice bytes pos pos') }.

Lemma slice_nil bs a : slice bs a a = [].
Proof. unfold slice. by rewrite Z.sub_diag. Qed.

Lemma to_le_slice bs pos :
  is_bytes bs -> 0 <= pos -> pos + 4 <= blen bs ->
  to_le 4 (from_le (slice bs pos (pos + 4))) = slice bs pos (pos + 4)
  /\ is_u32 (from_le (slice bs pos (pos + 4))).
Proof.
  intros Hb Hp Hl. pose proof (slice_u8 bs pos (pos + 4) Hb) as Hs.
  pose proof (blen_slice bs pos (pos + 4) ltac:(lia) Hl) as Hlen.
  pose proof (from_le_bound _ Hs) as Hbd. rewrite Hlen in Hbd.
  replace (pos + 4 - pos) with 4 in Hbd by lia. split; [|unfold is_u32, u32_max; simpl in Hbd; lia].
  rewrite <- (to_from_le _ Hs) at 2. f_equal. unfold blen in Hlen. lia.
Qed.

(** Every field of four bytes. *)
Lemma read_uint_spec bytes pos v pos' :
  is_bytes bytes -> 0 <= pos -> read_uint bytes pos = Ok (v, pos') ->
  is_u32 v /\ pos <= pos' <= blen bytes /\ to_le 4 v = slice bytes pos pos'.
Proof.
  intros Hb Hp (-> & Hl & ->)%read_uint_Ok. destruct (to_le_slice bytes pos Hb Hp Hl) as [-> Hu].
  split; [done|split; [lia|done]].
Qed.

#[export] Instance c_uint_lawful : Lawful c_uint.
Proof.
  refine {| valid := is_u32 |}.
  - done.
  - intros pre mid suf a Ha [= <-] _. cbn [fetch c_uint]. unfold write_uint.
    rewrite app_nil_l, read_uint_at, blen_to_le by done. done.
  - intros bytes pos pos' v Hb Hp _ Hr. simpl in *.
    destruct (read_uint_spec bytes pos v pos' Hb Hp Hr) as (? & ? & ?). split; [done|split; [done|]].
    by f_equal.
Defined.

Lemma as_i32_u32 v : - 2147483648 <= v <= 2147483647 -> as_i32 (as_u32 v) = v /\ is_u32 (as_u32 v).
Proof.
  unfold as_i32, as_u32, is_u32, u32_max. intros Hv.
  destruct (Z.ltb_spec (v mod 4294967296) 2147483648); split;
    Z.to_euclidean_division_equations; lia.
Qed.

Lemma as_u32_i32 v : is_u32 v -> as_u32 (as_i32 v) = v /\ - 2147483648 <= as_i32 v <= 2147483647.
Proof.
  unfold as_i32, as_u32, is_u32, u32_max. intros Hv.
  destruct (Z.ltb_spec v 2147483648); split; (lia || Z.to_euclidean_division_equations; lia).
Qed.

#[export] Instance c_int_lawful : Lawful c_int.
Proof.
  refine {| valid := fun v => - 2147483648 <= v <= 2147483647 |}.
  - done.
  - intros pre mid suf a Ha [= <-] _. destruct (as_i32_u32 a Ha) as [Hr Hu].
    cbn [fetch c_int]. unfold read_int, write_int. rewrite app_nil_l, read_uint_at by done.
    cbn [rbind]. by rewrite Hr, blen_to_le.
  - intros bytes pos pos' v Hb Hp _ Hr. simpl in *. unfold read_int in Hr.
    apply rbind_ok in Hr as ([u p] & Hr & [= <- <-]).
    destruct (read_uint_spec bytes pos u p Hb Hp Hr) as (Hu & ? & Hs).
    destruct (as_u32_i32 u Hu) as [Hb' ?]. split; [done|split; [done|]].
    unfold write_int. by rewrite Hb', Hs.
Defined.

#[export] Instance c_unit_lawful : Lawful c_unit.
Proof.
  refine {| valid := fun _ => True |}.
  - intros pre []. simpl. by rewrite app_nil_r.
  - intros pre mid suf [] _ [= <-] _. simpl. by rewrite Z.add_0_r.
  - intros bytes pos pos' [] _ Hp Hl [= <-]. split; [done|split; [lia|]]. simpl. by rewrite slice_nil.
Defined.

Lemma c_str_lawful max : is_u32 max -> Lawful (c_str max).
Proof.
  intros Hmax. refine {| valid := fun s => is_str s /\ ~ In 0 s |}.
  - intros pre s. simpl. unfold write_string. case_match; [|done]. simpl.
    unfold write_uint. by rewrite <- !app_assoc.
  - intros pre mid suf s [Hs Hn] Hp Hfit. simpl in *.
    assert (write_string pre s max = Some (pre ++ mid)) as Hw.
    { unfold write_string in *. case_match; [|done]. simplify_eq. unfold write_uint.
      by rewrite <- !app_assoc. }
    rewrite app_assoc in Hfit.
    pose proof (string_back pre suf _ s max Hs Hn Hmax Hw Hfit) as Hr.
    by rewrite <- app_assoc, blen_app in Hr.
  - intros bytes pos pos' s Hb Hp _ Hr. simpl in *.
    destruct (string_canonical bytes pos pos' max s Hb Hp Hr) as (Hw & ? & ? & ? & ?).
    split; [done|]. split; [lia|done].
Defined.
#[export] Hint Extern 0 (Lawful (c_str _)) => apply c_str_lawful; split; by compute : typeclass_instances.

#[export] Instance c_pair_lawful {A B} (ca : codec A) (cb : codec B) :
  Lawful ca -> Lawful cb -> Lawful (ca ⊗ cb).
Proof.
  intros LA LB. refine {| valid := fun ab => valid ab.1 /\ valid ab.2 |}.
  - intros pre [a b]. simpl. rewrite (put_app pre a). destruct (put ca [] a) as [ma|]; [|done]. simpl.
    rewrite (put_app (pre ++ ma) b), (put_app ma b). destruct (put cb [] b); [|done]. simpl.
    by rewrite app_assoc.
  - intros pre mid suf [a b] [Ha Hb] Hput Hfit. simpl in *.
    destruct (put ca [] a) as [ma|] eqn:Hma; [|done]. simpl in Hput.
    rewrite put_app in Hput. destruct (put cb [] b) as [mb|] eqn:Hmb; [|done]. simpl in Hput.
    simplify_eq. rewrite <- (app_assoc ma) in *.
    rewrite (fetch_put pre ma (mb ++ suf) a Ha Hma Hfit). simpl.
    rewrite (app_assoc pre) in *. rewrite <- blen_app.
    rewrite (fetch_put (pre ++ ma) mb suf b Hb Hmb Hfit). simpl. rewrite !blen_app. do 2 f_equal. lia.
  - intros bytes pos pos' [a b] Hbs Hp Hl Hf. simpl in *.
    apply rbind_ok in Hf as ([a' p1] & Ha & Hf). apply rbind_ok in Hf as ([b' p2] & Hb & [= <- <- <-]).
    destruct (put_fetch bytes pos p1 a' Hbs Hp Hl Ha) as (? & ? & Hpa).
    destruct (put_fetch bytes p1 p2 b' Hbs ltac:(lia) ltac:(lia) Hb) as (? & ? & Hpb).
    split; [done|split; [lia|]]. simpl. rewrite Hpa. simpl. rewrite put_app, Hpb. simpl.
    by rewrite slice_app by lia.
Defined.

(** A checked field: what is accepted is what is written. *)
Class Checked {A} (to_wire : A -> Z) (from_wire : Z -> result A DecodeError) := {
  from_to v a : is_u32 v -> from_wire v = Ok a -> to_wire a = v }.

#[export] Instance c_checked_lawful {A} (to_wire : A -> Z) from_wire :
  Checked to_wire from_wire -> Lawful (c_checked to_wire from_wire).
Proof.
  intros HC. refine {| valid := fun a => is_u32 (to_wire a) /\ from_wire (to_wire a) = Ok a |}.
  - done.
  - intros pre mid suf a [Hu Hf] [= <-] _. cbn [fetch c_checked]. unfold write_uint.
    rewrite app_nil_l, read_uint_at by done. cbn [rbind]. rewrite Hf, blen_to_le. done.
  - intros bytes pos pos' a Hb Hp _ Hr. simpl in *.
    apply rbind_ok in Hr as ([v p] & Hr & Hf). apply rbind_ok in Hf as (a' & Hf & [= <- <-]).
    destruct (read_uint_spec bytes pos v p Hb Hp Hr) as (Hu & ? & Hs).
    pose proof (from_to v a' Hu Hf) as Ht. split; [by rewrite Ht|split; [done|]].
    unfold write_uint. by rewrite Ht, Hs.
Defined.

Lemma c_struct_lawful {A B} (build : A -> B) (fields : B -> A) (c : codec A) :
  (forall b, build (fields b) = b) -> (forall a, fields (build a) = a) ->
  Lawful c -> Lawful (c_struct build fields c).
Proof.
  intros Hbf Hfb L. refine {| valid := fun b => valid (fields b) |}.
  - intros pre b. apply (put_app (c := c)).
  - intros pre mid suf b Hv Hp Hfit. simpl in *. rewrite (fetch_put pre mid suf _ Hv Hp Hfit). simpl.
    by rewrite Hbf.
  - intros bytes pos pos' b Hb Hp Hl Hf. simpl in *. apply rbind_ok in Hf as ([a p] & Hf & [= <- <-]).
    rewrite Hfb. by apply put_fetch.
Defined.

(* ------------------------------------------------------------------------ *)
(** ** Every message keeps the laws *)

Ltac checked := split; intros v a; unfold is_u32; intros _; repeat case_match; intros; simplify_eq; unbool; simpl; lia.

#[export] Instance persistence_checked : Checked persistence_to_wire persistence_from_wire.
Proof. unfold persistence_from_wire. checked. Qed.
#[export] Instance button_checked : Checked button_to_wire button_from_wire.
Proof. unfold button_from_wire. checked. Qed.
#[export] Instance axis_checked : Checked axis_to_wire axis_from_wire.
Proof. unfold axis_from_wire. checked. Qed.
#[export] Instance layout_mode_checked : Checked layout_mode_to_wire layout_mode_from_wire.
Proof. unfold layout_mode_from_wire. checked. Qed.
#[export] Instance file_mode_checked : Checked file_mode_to_wire file_mode_from_wire.
Proof. unfold file_mode_from_wire. checked. Qed.
#[export] Instance verb_checked : Checked (fun v => v) verb_from_bits.
Proof. split. intros v a _. unfold verb_from_bits. case_match; intros; by simplify_eq. Qed.

#[export] Instance c_hello_lawful : Lawful c_hello.
Proof. apply c_struct_lawful; [by intros []|by intros [[[[] ?] ?] ?]|apply _]. Defined.
#[export] Instance c_request_grant_lawful : Lawful c_request_grant.
Proof. apply c_struct_lawful; [by intros []|by intros [[[[[[[[[[] ?] ?] ?] ?] ?] ?] ?] ?] ?]|apply _]. Defined.
#[export] Instance c_sync_lawful : Lawful c_sync := _.
#[export] Instance c_get_launcher_lawful : Lawful c_get_launcher := _.
#[export] Instance c_get_layout_focus_lawful : Lawful c_get_layout_focus := _.
#[export] Instance c_get_layout_arrange_lawful : Lawful c_get_layout_arrange := _.
#[export] Instance c_get_powerbox_lawful : Lawful c_get_powerbox := _.
#[export] Instance c_get_egress_lawful : Lawful c_get_egress := _.
#[export] Instance c_capture_frame_lawful : Lawful c_capture_frame := _.
#[export] Instance c_launch_lawful : Lawful c_launch := _.
#[export] Instance c_focus_lawful : Lawful c_focus := _.
#[export] Instance c_request_dir_lawful : Lawful c_request_dir := _.
#[export] Instance c_get_realm_lawful : Lawful c_get_realm := _.
#[export] Instance c_move_lawful : Lawful c_move := _.
#[export] Instance c_button_lawful : Lawful c_button := _.
#[export] Instance c_scroll_lawful : Lawful c_scroll := _.
#[export] Instance c_type_lawful : Lawful c_type.
Proof. unfold c_type. apply _. Defined.
#[export] Instance c_set_fullscreen_lawful : Lawful c_set_fullscreen := _.
#[export] Instance c_request_file_lawful : Lawful c_request_file := _.
#[export] Instance c_request_connect_lawful : Lawful c_request_connect := _.

(* ------------------------------------------------------------------------ *)
(** ** Frames, exactly *)

Section frames.
Context {F A : Type} (c : codec A) `{!Lawful c}.

(** What an encoder makes. *)
Lemma encode_frame_Some op has oid m bytes :
  encode_frame op has c oid m = Some bytes <->
  exists body, put c [] m = Some body /\ blen body + 8 <= u16_max
    /\ bytes = to_le 4 oid ++ to_le 2 (blen body + 8) ++ [op] ++ [u8_of_bool has] ++ body.
Proof.
  unfold encode_frame, encode_with_placeholder_size. simpl object_id. simpl opcode. simpl fd_count.
  rewrite put_app. destruct (put c [] m) as [body|]; cbn [mbind option_bind]; cycle 1.
  { split; [done|by intros (? & ? & _)]. }
  set (out := ([] ++ to_le 4 oid ++ to_le 2 0 ++ [op] ++ [u8_of_bool has]) ++ body).
  assert (blen out = blen body + 8) as Hlen
    by (unfold out; rewrite !blen_app, !blen_to_le; unfold blen; simpl; lia).
  unfold patch_size. rewrite Hlen. pose proof (blen_nonneg body).
  destruct (Z.leb_spec (blen body + 8) u16_max); cycle 1.
  { split; [done|]. intros (b & [= <-] & ? & _). lia. }
  rewrite (proj2 (Z.leb_le 6 _)) by lia.
  assert (take 4 out = to_le 4 oid) as ->.
  { unfold out. rewrite app_nil_l, <- !app_assoc. apply (take_app_length (to_le 4 oid)). }
  assert (drop 6 out = [op] ++ [u8_of_bool has] ++ body) as ->.
  { unfold out. rewrite app_nil_l, <- !app_assoc. rewrite (app_assoc (to_le 4 oid)).
    apply (drop_app_length (to_le 4 oid ++ to_le 2 0)). }
  split; [intros [= <-]; by exists body|by intros (? & [= <-] & _ & ->)].
Qed.

(** The header an encoder writes. *)
Lemma header_decode_frame oid n op has body :
  is_u32 oid -> is_u16 n -> is_u8 op ->
  header_decode (to_le 4 oid ++ to_le 2 n ++ [op] ++ [u8_of_bool has] ++ body)
  = Ok {| object_id := oid; size := n; opcode := op; fd_count := u8_of_bool has |}.
Proof.
  unfold is_u32, is_u16, is_u8, u32_max, u16_max, u8_max. intros Ho Hn Hop.
  unfold header_decode. rewrite !blen_app, !blen_to_le.
  pose proof (blen_nonneg body). rewrite (proj2 (Z.ltb_ge _ HEADER_LEN))
    by (unfold HEADER_LEN; unfold blen; simpl; lia).
  f_equal. f_equal.
  - etransitivity; [apply (f_equal from_le), (slice_mid [] (to_le 4 oid)); by rewrite ?blen_to_le|].
    apply from_to_le. simpl. lia.
  - rewrite (slice_mid (to_le 4 oid) (to_le 2 n) ([op] ++ [u8_of_bool has] ++ body) 4 6) by (rewrite ?blen_to_le; lia).
    apply from_to_le. simpl. lia.
  - rewrite (app_assoc (to_le 4 oid)).
    rewrite (slice_mid (to_le 4 oid ++ to_le 2 n) [op] ([u8_of_bool has] ++ body) 6 7)
      by (rewrite ?blen_app, ?blen_to_le; unfold blen; simpl; lia). simpl. lia.
  - rewrite (app_assoc (to_le 4 oid)), (app_assoc (to_le 4 oid ++ to_le 2 n)).
    rewrite (slice_mid ((to_le 4 oid ++ to_le 2 n) ++ [op]) [u8_of_bool has] body 7 8)
      by (rewrite ?blen_app, ?blen_to_le; unfold blen; simpl; lia). simpl. lia.
Qed.

(** A buffer of at least a header, by its header. *)
Lemma frame_split bytes h :
  is_bytes bytes -> header_decode bytes = Ok h -> size h = blen bytes ->
  8 <= blen bytes <= u16_max /\ is_u32 (object_id h)
  /\ bytes = to_le 4 (object_id h) ++ to_le 2 (blen bytes) ++ [opcode h] ++ [fd_count h]
            ++ slice bytes 8 (blen bytes).
Proof.
  intros Hb Hd Hs. unfold header_decode, HEADER_LEN in Hd.
  destruct (Z.ltb_spec (blen bytes) 8); [done|]. simplify_eq.
  cbn [object_id size opcode fd_count] in *.
  assert (forall a b, 0 <= a <= b -> b <= blen bytes ->
    to_le (Z.to_nat (b - a)) (from_le (slice bytes a b)) = slice bytes a b) as Hle.
  { intros a b ? ?. pose proof (to_from_le _ (slice_u8 bytes a b Hb)) as Ht.
    pose proof (blen_slice bytes a b ltac:(lia) ltac:(lia)) as Hl. unfold blen in Hl.
    by replace (Z.to_nat (b - a)) with (List.length (slice bytes a b)) by lia. }
  assert (forall a, 0 <= a -> a + 1 <= blen bytes ->
    [from_le (slice bytes a (a + 1))] = slice bytes a (a + 1)) as Hone.
  { intros a ? ?. rewrite <- (Hle a (a + 1)) at 2 by lia.
    pose proof (from_le_bound _ (slice_u8 bytes a (a + 1) Hb)) as Hbd.
    rewrite blen_slice in Hbd by lia. replace (a + 1 - a) with 1 in * by lia. simpl in *.
    f_equal. symmetry. apply Z.mod_small. lia. }
  pose proof (from_le_bound _ (slice_u8 bytes 4 6 Hb)) as H6. rewrite blen_slice in H6 by lia.
  pose proof (from_le_bound _ (slice_u8 bytes 0 4 Hb)) as H4. rewrite blen_slice in H4 by lia.
  split; [unfold u16_max; simpl in H6; lia|]. split; [unfold is_u32, u32_max; simpl in H4; lia|].
  pose proof (Hle 0 4 ltac:(lia) ltac:(lia)) as E4. change (Z.to_nat (4 - 0)) with 4%nat in E4.
  pose proof (Hle 4 6 ltac:(lia) ltac:(lia)) as E6. change (Z.to_nat (6 - 4)) with 2%nat in E6.
  pose proof (Hone 6 ltac:(lia) ltac:(lia)) as E7. pose proof (Hone 7 ltac:(lia) ltac:(lia)) as E8.
  change (6 + 1) with 7 in E7. change (7 + 1) with 8 in E8. rewrite <- Hs at 1. rewrite E4, E6, E7, E8.
  rewrite !slice_app by lia. unfold slice, blen. simpl. rewrite drop_0, take_ge; [done|lia].
Qed.

Lemma frame_exact op has bytes (fd : option F) oid m :
  is_bytes bytes -> is_u8 op ->
  decode_frame op has c bytes fd = Ok (oid, m) <->
  bool_decide (is_Some fd) = has /\ is_u32 oid /\ valid m /\ encode_frame op has c oid m = Some bytes.
Proof.
  intros Hb Hop. rewrite encode_frame_Some. unfold decode_frame. split.
  - destruct (Bool.eqb (bool_decide (is_Some fd)) has) eqn:He; [|done]. simpl.
    intros (h & Hh & H)%rbind_ok. repeat (case_match; [done|]). unbool.
    apply rbind_ok in H as ([m' pos] & Hf & H). case_match; [done|]. unbool. simplify_eq.
    apply Bool.eqb_prop in He. destruct (frame_split bytes h Hb Hh ltac:(done)) as (Hl & Ho & Hbytes).
    unfold HEADER_LEN in *.
    destruct (put_fetch bytes 8 (blen bytes) m Hb ltac:(lia) ltac:(lia) Hf) as (Hv & _ & Hput).
    split; [done|split; [done|split; [done|]]]. exists (slice bytes 8 (blen bytes)).
    rewrite blen_slice by lia. split; [done|split; [lia|]].
    replace (blen bytes - 8 + 8) with (blen bytes) by lia. by rewrite H2 in Hbytes.
  - intros (<- & Ho & Hv & body & Hput & Hl & ->). rewrite eqb_reflx. cbn [negb].
    pose proof (blen_nonneg body).
    rewrite header_decode_frame by (unfold is_u16; lia || done). cbn [rbind opcode size fd_count object_id].
    set (bytes' := to_le 4 oid ++ _).
    assert (blen bytes' = blen body + 8) as Hlen
      by (unfold bytes'; rewrite !blen_app, !blen_to_le; unfold blen; simpl; lia).
    rewrite Hlen, !Z.eqb_refl. cbn [negb].
    assert (bytes' = (to_le 4 oid ++ to_le 2 (blen body + 8) ++ [op]
      ++ [u8_of_bool (bool_decide (is_Some fd))]) ++ body ++ []) as Hsp
      by (unfold bytes'; by rewrite app_nil_r, <- !app_assoc).
    set (pre := to_le 4 oid ++ to_le 2 (blen body + 8) ++ [op] ++ _) in Hsp.
    assert (blen pre = HEADER_LEN) as Hpre
      by (unfold pre; rewrite !blen_app, !blen_to_le; unfold blen; simpl; done).
    rewrite Hsp at 1. rewrite <- Hpre.
    rewrite (fetch_put pre body [] m Hv Hput).
    + cbn [rbind]. rewrite Hpre. unfold HEADER_LEN. replace (8 + blen body) with (blen body + 8) by lia.
      by rewrite Z.eqb_refl.
    + rewrite <- Hsp, Hlen. unfold u16_max, u64_max in *. lia.
Qed.
End frames.
