(* ===== verification/Terminals.v ===== *)
(** * The frames that end a designation

    [crates/vitrin-protocol/src/terminals.rs]: the frames written without owning
    the descriptor they announce, and the name a file is announced by. The
    messages are those of [generated/vitrin_powerbox.rs] and
    [generated/vitrin_shim_session.rs], as codecs. *)

From S2P Require Import Prelude Text Transcript Wire Passphrase Messages.

(* ------------------------------------------------------------------------ *)
(** ** The messages *)

(** [vitrin_powerbox.refusal] and [.kind]. *)
Inductive Refusal : Type := RefCancelled | RefTimedOut | RefBusy | RefUnresolvable.
#[export] Instance Refusal_eq_dec : EqDecision Refusal.
Proof. solve_decision. Defined.
Definition refusal_to_wire (r : Refusal) : Z :=
  match r with RefCancelled => 0 | RefTimedOut => 1 | RefBusy => 2 | RefUnresolvable => 3 end.
Definition refusal_from_wire (v : Z) : result Refusal DecodeError :=
  if v =? 0 then Ok RefCancelled else if v =? 1 then Ok RefTimedOut else if v =? 2 then Ok RefBusy
  else if v =? 3 then Ok RefUnresolvable
  else Err (InvalidEnumValue (str "vitrin_powerbox") (str "refusal") v).

Inductive FileKind : Type := KindFile | KindDirectory.
Definition file_kind_to_wire (k : FileKind) : Z := match k with KindFile => 0 | KindDirectory => 1 end.
Definition file_kind_from_wire (v : Z) : result FileKind DecodeError :=
  if v =? 0 then Ok KindFile else if v =? 1 then Ok KindDirectory
  else Err (InvalidEnumValue (str "vitrin_powerbox") (str "kind") v).

(** The id, the kind, the mode and the name. *)
Definition c_designated : codec (Z * FileKind * FileMode * Str) :=
  c_uint ⊗ c_checked file_kind_to_wire file_kind_from_wire ⊗ c_checked file_mode_to_wire file_mode_from_wire ⊗ c_str 255.
Definition c_designation : codec (Z * FileKind * FileMode * Str) :=
  c_uint ⊗ c_checked file_kind_to_wire file_kind_from_wire ⊗ c_checked file_mode_to_wire file_mode_from_wire ⊗ c_str 255.
Definition c_refused : codec Refusal := c_checked refusal_to_wire refusal_from_wire.

(* ------------------------------------------------------------------------ *)
(** ** The name *)

Definition NAME_MAX : nat := 255.

(** [String::from_utf8_lossy]: what [Utf8Error] calls invalid is one U+FFFD. *)
Fixpoint lossy (fuel : nat) (bs : Bytes) : Str :=
  match fuel with
  | O => []
  | S fuel =>
      match utf8_step bs with
      | StepEnd => []
      | StepChar c rest => c :: lossy fuel rest
      | StepBad (Some n) => 65533 :: lossy fuel (drop n bs)
      | StepBad None => [65533]
      end
  end.
Definition from_utf8_lossy (bs : Bytes) : Str := lossy (S (length bs)) bs.

(** The last boundary at or below [cut]. *)
Fixpoint cut_back (cut : nat) (bs : Bytes) : nat :=
  match cut with
  | O => O
  | S c => if is_boundary bs cut then cut else cut_back c bs
  end.

(** [None] is [truncate]'s panic off a boundary. *)
Definition display_name (raw : Bytes) : option Str :=
  let name := from_utf8_lossy raw in
  let bytes := Utf8.encode name in
  if (NAME_MAX <? length bytes)%nat then Utf8.decode (take (cut_back NAME_MAX bytes) bytes) else Some name.

(* ------------------------------------------------------------------------ *)
(** ** The frames *)

Definition powerbox_designated_frame (object_id designation_id : Z) (kind : FileKind) (mode : FileMode) (name : Str) : option Bytes :=
  let out := encode_with_placeholder_size {| Wire.object_id := object_id; Wire.size := 0; Wire.opcode := 0; Wire.fd_count := 1 |} [] in
  let out := write_uint out designation_id in
  let out := write_uint out (file_kind_to_wire kind) in
  let out := write_uint out (file_mode_to_wire mode) in
  out ← write_string out name (Z.of_nat NAME_MAX);
  patch_size out.

Definition powerbox_refusal_frame (object_id : Z) (code : Refusal) : option Bytes :=
  let out := encode_with_placeholder_size {| Wire.object_id := object_id; Wire.size := 0; Wire.opcode := 1; Wire.fd_count := 0 |} [] in
  patch_size (write_uint out (refusal_to_wire code)).

Definition shim_designation_frame (object_id designation_id : Z) (kind : FileKind) (mode : FileMode) (name : Str) : option Bytes :=
  let out := encode_with_placeholder_size {| Wire.object_id := object_id; Wire.size := 0; Wire.opcode := 4; Wire.fd_count := 1 |} [] in
  let out := write_uint out designation_id in
  let out := write_uint out (file_kind_to_wire kind) in
  let out := write_uint out (file_mode_to_wire mode) in
  out ← write_string out name (Z.of_nat NAME_MAX);
  patch_size out.

(* ------------------------------------------------------------------------ *)
(** ** Cutting between characters *)

#[export] Instance refusal_checked : Checked refusal_to_wire refusal_from_wire.
Proof. unfold refusal_from_wire. checked. Qed.
#[export] Instance file_kind_checked : Checked file_kind_to_wire file_kind_from_wire.
Proof. unfold file_kind_from_wire. checked. Qed.
#[export] Instance c_designated_lawful : Lawful c_designated := _.
#[export] Instance c_designation_lawful : Lawful c_designation := _.
#[export] Instance c_refused_lawful : Lawful c_refused := _.

Lemma lossy_str fuel bs : is_bytes bs -> is_str (lossy fuel bs).
Proof.
  assert (is_char 65533) as Hbad by (unfold is_char; lia).
  revert bs. induction fuel as [|fuel IH]; intros bs Hb; [constructor|]. cbn [lossy].
  destruct (utf8_step bs) as [|c rest|[n|]] eqn:Hs; [constructor| | |by repeat constructor].
  - apply utf8_step_char in Hs as [Hc ->]; [|done]. apply Forall_app in Hb as [_ Hr]. constructor; [done|by apply IH].
  - constructor; [done|]. apply IH. by apply Forall_drop.
Qed.

(** A boundary of a string's bytes is between two characters of it. *)
Lemma boundary_splits s : is_str s -> forall i, is_boundary (Utf8.encode s) i = true ->
  exists a b, s = a ++ b /\ take i (Utf8.encode s) = Utf8.encode a.
Proof.
  induction 1 as [|c s Hc Hs IH]; intros i Hi; [exists [], []; by destruct i|].
  destruct i as [|i]; [exists [], (c :: s); done|].
  destruct (encode_char_lead c Hc) as (b & cs & He & _ & Hcs). cbn [Utf8.encode] in *. rewrite He in *.
  destruct (decide (S i < length (b :: cs))%nat) as [Hlt|Hge].
  - unfold is_boundary in Hi. rewrite lookup_app_l in Hi by done. cbn [length] in Hlt.
    destruct ((b :: cs) !! S i) as [x|] eqn:Hx; [|apply lookup_ge_None in Hx; cbn in Hx; lia]. cbn in Hx.
    rewrite Forall_lookup in Hcs. by rewrite (Hcs _ _ Hx) in Hi.
  - destruct (IH (S i - length (b :: cs))%nat) as (a & r & -> & Ht).
    + unfold is_boundary in *. rewrite lookup_app_r in Hi by lia. case_match; [done|].
      apply Nat.eqb_eq in Hi. rewrite length_app in Hi. apply Nat.eqb_eq. lia.
    + exists (c :: a), r. split; [done|]. rewrite take_app, take_ge by lia. rewrite Ht. cbn [Utf8.encode]. by rewrite He.
Qed.

Lemma cut_back_spec bs cut : (cut_back cut bs <= cut)%nat /\ (cut_back cut bs = 0%nat \/ is_boundary bs (cut_back cut bs) = true).
Proof.
  induction cut as [|c [IH1 IH2]]; cbn [cut_back]; [by split; [lia|left]|].
  destruct (is_boundary bs (S c)) eqn:Hb; [by split; [lia|right]|]. split; [lia|done].
Qed.

(** The name is a prefix of the whole one, of at most 255 bytes, and the whole one
    if that fits. *)
Lemma display_name_spec raw : is_bytes raw ->
  exists name rest, display_name raw = Some name /\ is_str name /\ from_utf8_lossy raw = name ++ rest
    /\ blen (Utf8.encode name) <= 255 /\ (blen (Utf8.encode (from_utf8_lossy raw)) <= 255 -> rest = []).
Proof.
  intros Hb. pose proof (lossy_str (S (length raw)) raw Hb) as Hs. unfold display_name. fold (from_utf8_lossy raw) in Hs.
  set (whole := from_utf8_lossy raw) in *. unfold NAME_MAX, blen. destruct (Nat.ltb_spec 255 (length (Utf8.encode whole))) as [Hlong|Hshort].
  - destruct (cut_back_spec (Utf8.encode whole) 255) as [Hle Hat].
    set (cut := cut_back 255 (Utf8.encode whole)) in *. clearbody cut.
    assert (exists a b, whole = a ++ b /\ take cut (Utf8.encode whole) = Utf8.encode a) as (a & b & Hab & Ht).
    { destruct Hat as [->|Hat]; [exists [], whole; done|]. by apply boundary_splits. }
    assert (is_str a) as Ha by (rewrite Hab in Hs; by apply Forall_app in Hs as [? _]).
    exists a, b. rewrite Ht. split_and!; [by apply Utf8.decode_encode|done|done| |lia].
    rewrite <- Ht, length_take. lia.
  - exists whole, []. split_and!; [done|done|by rewrite app_nil_r|lia|done].
Qed.

Lemma lossy_no_nul fuel bs : is_bytes bs -> ~ In 0 bs -> ~ In 0 (lossy fuel bs).
Proof.
  revert bs. induction fuel as [|fuel IH]; intros bs Hb Hn; [by intros []|]. cbn [lossy].
  destruct (utf8_step bs) as [|c rest|[n|]] eqn:Hs; [by intros []| | |by intros [|[]]].
  - apply utf8_step_char in Hs as [Hc ->]; [|done]. apply Forall_app in Hb as [_ Hr].
    intros [->|Hin]; [by apply Hn; left|]. revert Hin. apply IH; [done|]. intros Hin. apply Hn, List.in_app_iff. by right.
  - intros [|Hin]; [done|]. revert Hin. apply IH; [by apply Forall_drop|]. intros Hin. apply Hn. rewrite <- (take_drop n bs). apply List.in_app_iff. by right.
Qed.

Lemma to_le_is_bytes n v : is_bytes (to_le n v).
Proof. revert v. induction n as [|n IH]; intros v; [constructor|]. constructor; [|apply IH]. pose proof (Z.mod_pos_bound v 256). unfold is_u8, u8_max. lia. Qed.

(** What a designation's two frames come to. *)
Lemma announced_bytes op oid id kind mode name :
  is_u8 op -> is_str name -> blen (Utf8.encode name) <= 255 ->
  exists bytes, encode_frame op true c_designated oid (id, kind, mode, name) = Some bytes /\ is_bytes bytes.
Proof.
  intros Hop Hs Hlen. pose proof (blen_nonneg (Utf8.encode name)) as H0. pose proof (pad_len_bound (blen (Utf8.encode name))) as Hpad.
  set (body := to_le 4 id ++ to_le 4 (file_kind_to_wire kind) ++ to_le 4 (file_mode_to_wire mode) ++ to_le 4 (blen (Utf8.encode name))
    ++ Utf8.encode name ++ repeat 0 (Z.to_nat (pad_len (blen (Utf8.encode name))))).
  exists (to_le 4 oid ++ to_le 2 (blen body + 8) ++ [op] ++ [1] ++ body). rewrite encode_frame_Some. split.
  - exists body. split_and!; [|unfold body; rewrite !blen_app, !blen_to_le; unfold blen; rewrite repeat_length; unfold blen, u16_max in *; lia|done].
    cbn [c_designated c_pair put c_uint c_checked c_str fst snd mbind option_bind]. unfold write_string. destruct (Z.leb_spec (blen (Utf8.encode name)) 255); [|lia].
    unfold body, write_uint. by rewrite <- !app_assoc.
  - unfold body, is_bytes. repeat (apply Forall_app; split); try apply to_le_is_bytes; try (by apply Utf8.encode_u8);
      try (constructor; [|constructor]); try done. apply List.Forall_forall. intros x Hx. apply List.repeat_spec in Hx as ->. unfold is_u8, u8_max. lia.
  - apply _.
Qed.

(** C32: whatever bytes a file's name is made of, a designation can be announced, and
    is announced as what it is. The name shown is a prefix of the name read as
    text, cut between characters to at most 255 bytes, and all of it if it fits;
    the agent's frame and the realm's are written without a panic, are the ones
    the generated encoder writes, and each decodes, with its descriptor, to the
    object, id, kind, mode and name; without a descriptor it is refused. *)
Theorem designated_frames_exact {F : Type} (raw : Bytes) (object_id id : Z) (kind : FileKind) (mode : FileMode) (fd : F)
  (Hraw : is_bytes raw) (Hnul : ~ In 0 raw) (Hobject : is_u32 object_id) (Hid : is_u32 id) :
  exists name rest agent realm,
    display_name raw = Some name /\ from_utf8_lossy raw = name ++ rest
    /\ blen (Utf8.encode name) <= 255 /\ (blen (Utf8.encode (from_utf8_lossy raw)) <= 255 -> rest = [])
    /\ powerbox_designated_frame object_id id kind mode name = Some agent
    /\ shim_designation_frame object_id id kind mode name = Some realm
    /\ decode_frame 0 true c_designated agent (Some fd) = Ok (object_id, (id, kind, mode, name))
    /\ decode_frame 4 true c_designation realm (Some fd) = Ok (object_id, (id, kind, mode, name))
    /\ decode_frame (F := F) 0 true c_designated agent None = Err (FdCountMismatch 1 0).
Proof.
  destruct (display_name_spec raw Hraw) as (name & rest & Hname & Hs & Hwhole & Hlen & Hfit).
  assert (~ In 0 name) as Hn.
  { intros Hin. apply (lossy_no_nul (S (length raw)) raw Hraw Hnul). fold (from_utf8_lossy raw). rewrite Hwhole. apply List.in_app_iff. by left. }
  destruct (announced_bytes 0 object_id id kind mode name ltac:(unfold is_u8, u8_max; lia) Hs Hlen) as (agent & Ha & Hba).
  destruct (announced_bytes 4 object_id id kind mode name ltac:(unfold is_u8, u8_max; lia) Hs Hlen) as (realm & Hr & Hbr).
  assert (valid (c := c_designated) (id, kind, mode, name)) as Hv.
  { split; [|by split]. split; [split; [done|]|]; (split; [unfold is_u32, u32_max; destruct kind, mode; simpl; lia|by destruct kind, mode]). }
  exists name, rest, agent, realm. split_and!; [done..|apply Ha|apply Hr| | |reflexivity].
  - refine (proj2 (frame_exact _ 0 true agent (Some fd) object_id _ Hba _) _); [unfold is_u8, u8_max; lia|].
    split_and!; [by rewrite bool_decide_true|done|exact Hv|done].
  - refine (proj2 (frame_exact _ 4 true realm (Some fd) object_id _ Hbr _) _); [unfold is_u8, u8_max; lia|].
    split_and!; [by rewrite bool_decide_true|done|exact Hv|done].
Qed.

(** A name of a hundred invalid bytes is cut to 85 replacement characters. *)
Lemma designated_frames_exact_witness :
  display_name (repeat 255 100) = Some (repeat 65533 85)
  /\ exists agent, powerbox_designated_frame 20 1 KindFile Read (repeat 65533 85) = Some agent.
Proof.
  assert (display_name (repeat 255 100) = Some (repeat 65533 85)) as Hd by (by vm_compute).
  destruct (designated_frames_exact (repeat 255 100) 20 1 KindFile Read tt) as (name & rest & agent & realm & H & _ & _ & _ & Ha & _);
    [apply List.Forall_forall; intros x Hx; apply List.repeat_spec in Hx as ->; unfold is_u8, u8_max; lia
    |intros Hx; by apply List.repeat_spec in Hx|unfold is_u32, u32_max; lia..|].
  rewrite Hd in H. injection H as <-. split; [exact Hd|]. by exists agent.
Defined.
