(* ===== verification/Canvas.v ===== *)
(** * Pixel buffers

    What [crates/vitrin-core/src/scene/mod.rs] and [test_pattern.rs] do to a
    buffer of RGBA bytes: checked slices, fills and copies, and the pattern an
    empty output shows. A pixel buffer is its bytes; [None] is a panic: a slice
    out of range or a subtraction below zero. A step is described by the bytes it
    puts where, and a whole buffer by the painting it equals. *)

From S2P Require Import Prelude Capture.

(** ** Slices *)

Local Open Scope nat_scope.

(** [out[from..to].copy_from_slice(src)]. *)
Definition copy_into (from to : nat) (src out : list Z) : option (list Z) :=
  if (from <=? to) && (to <=? length out) && (length src =? to - from)
  then Some (list_inserts from src out) else None.
(** [src[from..to]]. *)
Definition sub_slice (from to : nat) (src : list Z) : option (list Z) :=
  if (from <=? to) && (to <=? length src) then Some (take (to - from) (drop from src)) else None.
(** [a - b] on [usize]. *)
Definition usize_sub (a b : nat) : option nat := if b <=? a then Some (a - b) else None.
(** [for i in from..to]. *)
Fixpoint for_range {A} (n from : nat) (f : nat -> A -> option A) (a : A) : option A :=
  match n with O => Some a | S n => a ← f from a; for_range n (S from) f a end.

Local Close Scope nat_scope.

(** ** The test pattern *)

Definition BARS_HEIGHT_PCT : Z := 70.
Definition CHECKER_CELL : Z := 16.
Definition MARKER : Z := 24.
Definition BARS : list (list Z) :=
  [[255; 255; 255; 255]; [255; 255; 0; 255]; [0; 255; 255; 255]; [0; 255; 0; 255];
   [255; 0; 255; 255]; [255; 0; 0; 255]; [0; 0; 255; 255]; [32; 32; 32; 255]].
Definition CHECKER_LIGHT : list Z := [170; 170; 170; 255].
Definition CHECKER_DARK : list Z := [51; 51; 51; 255].
Definition MARKER_TOP_LEFT : list Z := [255; 0; 0; 255].
Definition MARKER_TOP_RIGHT : list Z := [0; 255; 0; 255].
Definition MARKER_BOTTOM_LEFT : list Z := [0; 0; 255; 255].
Definition MARKER_BOTTOM_RIGHT : list Z := [255; 255; 255; 255].

(** [pixel]; the subtraction and the product are [u32] and wrap. *)
Definition pattern_pixel (x y width height : Z) : option (list Z) :=
  let marker := Z.max (Z.min (Z.min MARKER (width / 4)) (height / 4)) 1 in
  let left := x <? marker in
  let right := (width - marker) mod (u32_max + 1) <=? x in
  let top := y <? marker in
  let bottom := (height - marker) mod (u32_max + 1) <=? y in
  if left && top then Some MARKER_TOP_LEFT
  else if right && top then Some MARKER_TOP_RIGHT
  else if left && bottom then Some MARKER_BOTTOM_LEFT
  else if right && bottom then Some MARKER_BOTTOM_RIGHT
  else
    let bars_height := u32_mul height BARS_HEIGHT_PCT / 100 in
    if y <? bars_height then BARS !! Z.to_nat (x * 8 / width)
    else if (x / CHECKER_CELL + y / CHECKER_CELL) mod 2 =? 0 then Some CHECKER_LIGHT
    else Some CHECKER_DARK.

(** [render]. *)
Definition render_pattern (width height : Z) : option (list Z) :=
  for_range (Z.to_nat height) 0 (fun y =>
    for_range (Z.to_nat width) 0 (fun x pixels =>
      rgba ← pattern_pixel (Z.of_nat x) (Z.of_nat y) width height;
      let offset := ((y * Z.to_nat width + x) * 4)%nat in
      copy_into offset (offset + 4) rgba pixels))
    (replicate (Z.to_nat (usize_mul (usize_mul width height) BYTES_PER_PIXEL)) 0).

(** ** The matte *)

Definition LETTERBOX_RGBA : list Z := [15; 15; 20; 255].

Fixpoint matte (n : nat) : list Z :=
  match n with O => [] | S n => LETTERBOX_RGBA ++ matte n end.
(** Every whole pixel of [out[from..to]] set to the matte. *)
Definition fill_matte (from to : nat) (out : list Z) : option (list Z) :=
  px ← sub_slice from to out;
  let n := (length px / 4)%nat in
  copy_into from (from + 4 * n) (matte n) out.
(* ------------------------------------------------------------------------ *)
(** ** Writes

    A step that writes part of a buffer is described by the bytes it puts
    where: a patch. *)

Section writes.
Local Open Scope nat_scope.

Definition writes (P : nat -> option Z) (out out' : list Z) : Prop :=
  length out' = length out
  /\ forall j, j < length out -> out' !! j = match P j with Some v => Some v | None => out !! j end.

(** A step that runs on every buffer of [len] bytes, and writes [P]. *)
Definition puts (len : nat) (P : nat -> option Z) (f : list Z -> option (list Z)) : Prop :=
  forall out, length out = len -> exists out', f out = Some out' /\ writes P out out'.

Definition span (from to : nat) (byte : nat -> option Z) (j : nat) : option Z :=
  if decide (from <= j < to) then byte (j - from) else None.
Definition over (P Q : nat -> option Z) (j : nat) : option Z :=
  match Q j with Some v => Some v | None => P j end.

Lemma puts_then len P Q f g :
  puts len P f -> puts len Q g -> puts len (over P Q) (fun out => out ← f out; g out).
Proof.
  intros Hf Hg out Hl. destruct (Hf out Hl) as (o1 & -> & Hl1 & H1).
  destruct (Hg o1 ltac:(lia)) as (o2 & Ho2 & Hl2 & H2). exists o2. split; [done|].
  split; [lia|]. intros j Hj. rewrite H2, H1 by lia. unfold over. by destruct (Q j).
Qed.

Lemma puts_ext len P Q f : puts len P f -> (forall j, j < len -> P j = Q j) -> puts len Q f.
Proof.
  intros Hf Hext out Hl. destruct (Hf out Hl) as (o & Ho & Hlo & Hw). exists o. split; [done|].
  split; [done|]. intros j Hj. rewrite <- Hext by lia. by apply Hw.
Qed.

Lemma copy_into_puts len from to src :
  from <= to <= len -> length src = to - from -> puts len (span from to (fun k => src !! k)) (copy_into from to src).
Proof.
  intros Hr Hs out Hl. unfold copy_into.
  rewrite (proj2 (Nat.leb_le from to)), (proj2 (Nat.leb_le to (length out))), (proj2 (Nat.eqb_eq _ _) Hs) by lia.
  eexists. split; [done|]. split; [by rewrite length_inserts|]. intros j Hj. unfold span. case_decide as Hd.
  - rewrite list_lookup_inserts by lia. destruct (src !! (j - from)) eqn:He; [done|].
    apply lookup_ge_None in He. lia.
  - destruct (decide (j < from)); [by rewrite list_lookup_inserts_lt|by rewrite list_lookup_inserts_ge by lia].
Qed.

Lemma length_matte n : length (matte n) = 4 * n.
Proof. induction n; simpl in *; lia. Qed.
Lemma lookup_matte n k : k < 4 * n -> matte n !! k = LETTERBOX_RGBA !! (k mod 4).
Proof.
  revert k. induction n as [|n IH]; intros k Hk; [lia|].
  change (matte (S n)) with (LETTERBOX_RGBA ++ matte n). destruct (decide (k < 4)).
  - rewrite lookup_app_l by done. by rewrite Nat.mod_small.
  - rewrite lookup_app_r by (simpl; lia). simpl length. rewrite IH by lia. f_equal.
    replace k with (k - 4 + 1 * 4) at 2 by lia. by rewrite Nat.Div0.mod_add.
Qed.

Lemma fill_matte_puts len from n :
  from + 4 * n <= len ->
  puts len (span from (from + 4 * n) (fun k => LETTERBOX_RGBA !! (k mod 4))) (fill_matte from (from + 4 * n)).
Proof.
  intros Hn out Hl. unfold fill_matte, sub_slice.
  rewrite (proj2 (Nat.leb_le from _)), (proj2 (Nat.leb_le (from + 4 * n) (length out))) by lia. cbn [andb mbind option_bind].
  rewrite length_take, length_drop.
  replace ((from + 4 * n - from) `min` (length out - from)) with (n * 4) by lia. rewrite Nat.div_mul by done.
  revert out Hl. eapply puts_ext; [apply copy_into_puts; [lia|rewrite length_matte; lia]|].
  intros j _. unfold span. case_decide; [|done].
  apply lookup_matte. lia.
Qed.

(** A loop each turn of which writes the bytes whose key it is. *)
Lemma for_range_puts len (P : nat -> nat -> option Z) (key : nat -> nat) n from f :
  (forall i, from <= i < from + n -> puts len (P i) (f i)) ->
  (forall i j, P i j <> None -> key j = i) ->
  puts len (fun j => if decide (from <= key j < from + n) then P (key j) j else None) (for_range n from f).
Proof.
  revert from. induction n as [|n IH]; intros from Hf Hk.
  - intros out Hl. exists out. split; [done|]. split; [done|]. intros j _. by rewrite decide_False by lia.
  - eapply puts_ext; [eapply (puts_then len _ _ (f from) (for_range n (S from) f)); [apply Hf; lia|apply IH; [|exact Hk]]|].
    + intros i Hi. apply Hf. lia.
    + intros j _. unfold over. destruct (decide (key j = from)) as [He|Hne].
      * rewrite decide_False by lia. by rewrite decide_True, He by lia.
      * destruct (P from j) eqn:HP; [by rewrite (Hk from j) in Hne by congruence|].
        destruct (decide (S from <= key j < S from + n)).
        { rewrite decide_True by lia. by destruct (P (key j) j). }
        by rewrite decide_False by lia.
Qed.
End writes.

(** ** Painting *)

(** The reference: every pixel of the view in turn, each four bytes. *)
Definition paint (w h : nat) (f : nat -> nat -> list Z) : list Z :=
  flat_map (fun y => flat_map (fun x => f x y) (seq 0 w)) (seq 0 h).

Section painting.
Local Open Scope nat_scope.

Lemma flat_map_seq n m from (g : nat -> list Z) :
  (forall i, length (g i) = n) ->
  length (flat_map g (seq from m)) = m * n
  /\ forall i r, i < m -> r < n -> flat_map g (seq from m) !! (i * n + r) = g (from + i) !! r.
Proof.
  intros Hg. revert from. induction m as [|m IH]; intros from; simpl; [split; [done|lia]|].
  destruct (IH (S from)) as [Hl Hk]. rewrite length_app, Hl, Hg. split; [done|]. intros i r Hi Hr.
  destruct i as [|i]; simpl.
  - rewrite lookup_app_l by (rewrite Hg; lia). by rewrite Nat.add_0_r.
  - rewrite lookup_app_r by (rewrite Hg; nia). rewrite Hg.
    replace (n + i * n + r - n) with (i * n + r) by lia. rewrite Hk by lia. f_equal. f_equal. lia.
Qed.

Lemma paint_spec w h f :
  (forall x y, length (f x y) = 4) ->
  length (paint w h f) = h * w * 4
  /\ forall x y c, x < w -> y < h -> c < 4 -> paint w h f !! ((y * w + x) * 4 + c) = f x y !! c.
Proof.
  intros Hf. unfold paint.
  destruct (flat_map_seq (w * 4) h 0 (fun y => flat_map (fun x => f x y) (seq 0 w))) as [Hl Hk].
  { intros y. by destruct (flat_map_seq 4 w 0 (fun x => f x y)). }
  split; [lia|]. intros x y c Hx Hy Hc.
  replace ((y * w + x) * 4 + c) with (y * (w * 4) + (x * 4 + c)) by lia. rewrite Hk by lia. simpl.
  destruct (flat_map_seq 4 w 0 (fun x => f x y)) as [_ Hk2]; [done|]. by rewrite Hk2.
Qed.

(** A buffer that holds a painting's bytes is the painting. *)
Lemma paint_eq w h f out :
  (forall x y, length (f x y) = 4) -> length out = h * w * 4 ->
  (forall x y c, x < w -> y < h -> c < 4 -> out !! ((y * w + x) * 4 + c) = f x y !! c) -> out = paint w h f.
Proof.
  intros Hf Hl Hk. destruct (paint_spec w h f Hf) as [Hpl Hpk]. apply list_eq_same_length with (n := h * w * 4); [done|done|].
  intros j a b Hj Ha Hb.
  assert (w <> 0) by nia. pose proof (Nat.div_mod j (w * 4)). pose proof (Nat.mod_upper_bound j (w * 4)).
  set (y := j / (w * 4)) in *. set (k := j mod (w * 4)) in *.
  pose proof (Nat.div_mod k 4). pose proof (Nat.mod_upper_bound k 4).
  set (x := k / 4) in *. set (c := k mod 4) in *.
  assert (y < h) by (apply Nat.Div0.div_lt_upper_bound; lia). assert (x < w) by (apply Nat.Div0.div_lt_upper_bound; lia).
  assert (j = (y * w + x) * 4 + c) as Hjj by lia. rewrite Hjj in Ha, Hb.
  rewrite Hk in Ha by lia. rewrite Hpk in Hb by lia. congruence.
Qed.
End painting.

(* ------------------------------------------------------------------------ *)
(** ** The pattern *)

Lemma usize_len w h :
  0 <= w -> 0 <= h -> w * h * BYTES_PER_PIXEL <= u64_max ->
  Z.to_nat (usize_mul (usize_mul w h) BYTES_PER_PIXEL) = (Z.to_nat h * Z.to_nat w * 4)%nat.
Proof.
  intros Hw Hh Hf. unfold usize_mul, BYTES_PER_PIXEL in *. assert (0 <= w * h) by nia.
  rewrite (Z.mod_small (w * h)) by (unfold u64_max in *; lia). rewrite Z.mod_small by (unfold u64_max in *; lia).
  rewrite Z2Nat.inj_mul, Z2Nat.inj_mul by lia. simpl. lia.
Qed.

Definition pattern (width height : Z) (x y : nat) : list Z :=
  default LETTERBOX_RGBA (pattern_pixel (Z.of_nat x) (Z.of_nat y) width height).
Lemma pattern_ok x y width height :
  0 <= x < width -> 0 <= y < height -> exists r g b, pattern_pixel x y width height = Some [r; g; b; 255].
Proof.
  intros Hx Hy. unfold pattern_pixel. cbv zeta. repeat case_match; try (by do 3 eexists).
  assert (0 <= x * 8 / width < 8) by (split; [apply Z.div_pos; lia|apply Z.div_lt_upper_bound; lia]).
  assert (exists k, Z.to_nat (x * 8 / width) = k /\ (k < 8)%nat) as (k & -> & Hk) by (eexists; split; [done|lia]).
  do 8 (destruct k as [|k]; [by do 3 eexists|]). lia.
Qed.

Lemma length_pattern w h x y : length (pattern w h x y) = 4%nat.
Proof.
  unfold pattern, pattern_pixel. cbv zeta. repeat case_match; try done.
  destruct (BARS !! _) as [l|] eqn:He; [|done]. apply list_elem_of_lookup_2 in He.
  by repeat (apply elem_of_cons in He as [->|He]; [done|]); apply elem_of_nil in He.
Qed.

Lemma row_div vw x y c : (x < vw -> c < 4 -> ((y * vw + x) * 4 + c) / (vw * 4) = y)%nat.
Proof. intros Hx Hc. symmetry. apply (Nat.div_unique _ _ _ (x * 4 + c)); nia. Qed.

Lemma render_row_puts width height (y : nat) len :
  0 <= width -> Z.of_nat y < height -> (S y * (Z.to_nat width * 4) <= len)%nat ->
  puts len (fun j => if decide (0 <= j / 4 - y * Z.to_nat width < 0 + Z.to_nat width)%nat then
      span ((y * Z.to_nat width + (j / 4 - y * Z.to_nat width)) * 4)
           ((y * Z.to_nat width + (j / 4 - y * Z.to_nat width + 1)) * 4)
           (fun k => pattern width height (j / 4 - y * Z.to_nat width) y !! k) j else None)%nat
    (for_range (Z.to_nat width) 0 (fun x pixels =>
      rgba ← pattern_pixel (Z.of_nat x) (Z.of_nat y) width height;
      let offset := ((y * Z.to_nat width + x) * 4)%nat in
      copy_into offset (offset + 4) rgba pixels)).
Proof.
  intros Hw Hy Hlen.
  apply (for_range_puts len (fun x => span ((y * Z.to_nat width + x) * 4) ((y * Z.to_nat width + (x + 1)) * 4)
    (fun k => pattern width height x y !! k))%nat (fun j => j / 4 - y * Z.to_nat width)%nat).
  - intros x Hx. unfold pattern.
    destruct (pattern_ok (Z.of_nat x) (Z.of_nat y) width height) as (r & g & b & Hp); [lia..|]. rewrite Hp. cbn [mbind option_bind default from_option id].
    replace ((y * Z.to_nat width + (x + 1)) * 4)%nat with ((y * Z.to_nat width + x) * 4 + 4)%nat by lia.
    apply copy_into_puts; [nia|simpl; lia].
  - intros x j. unfold span. case_decide as Hd; [|done]. intros _.
    assert (j / 4 = y * Z.to_nat width + x)%nat as ->; [|lia].
    symmetry. apply (Nat.div_unique _ _ _ (j - (y * Z.to_nat width + x) * 4)); lia.
Qed.

Lemma render_pattern_exact w h :
  0 <= w -> 0 <= h -> w * h * BYTES_PER_PIXEL <= u64_max ->
  render_pattern w h = Some (paint (Z.to_nat w) (Z.to_nat h) (pattern w h)).
Proof.
  intros Hw Hh Hf. unfold render_pattern. rewrite usize_len by done. set (vw := Z.to_nat w). set (vh := Z.to_nat h).
  destruct (for_range_puts (vh * vw * 4)%nat
    (fun y j => if decide (y * vw * 4 <= j < S y * vw * 4)%nat then pattern w h (j / 4 - y * vw)%nat y !! (j mod 4)%nat else None)
    (fun j => j / (vw * 4))%nat vh 0 (fun y =>
      for_range vw 0 (fun x pixels =>
        rgba ← pattern_pixel (Z.of_nat x) (Z.of_nat y) w h;
        let offset := ((y * vw + x) * 4)%nat in
        copy_into offset (offset + 4) rgba pixels))) with (replicate (vh * vw * 4)%nat 0) as (out & Ho & Hl & Hwr).
  - intros y Hy. eapply puts_ext; [apply render_row_puts; unfold vw, vh in *; nia|].
    intros j Hj. fold vw. pose proof (Nat.div_mod j 4). pose proof (Nat.mod_upper_bound j 4).
    destruct (decide (y * vw * 4 <= j < S y * vw * 4)%nat) as [Hin|Hout].
    + rewrite decide_True by lia. unfold span. rewrite decide_True by lia. f_equal. lia.
    + destruct (decide _) as [Hd|]; [|done]. unfold span. rewrite decide_False; [done|]. intros [H1 H2]. apply Hout. nia.
  - intros y j. case_decide as Hd; [|done]. intros _. symmetry. apply (Nat.div_unique _ _ _ (j - y * vw * 4)%nat); nia.
  - by rewrite length_replicate.
  - etrans; [exact Ho|]. f_equal. rewrite length_replicate in Hl, Hwr. apply paint_eq; [apply length_pattern|done|].
    intros x y c Hx Hy Hc. rewrite Hwr by nia. rewrite row_div by done. rewrite decide_True by lia. rewrite decide_True by nia.
    assert (((y * vw + x) * 4 + c) / 4 = y * vw + x)%nat as -> by (symmetry; apply (Nat.div_unique _ _ _ c); lia).
    assert (((y * vw + x) * 4 + c) mod 4 = c)%nat as -> by (symmetry; apply (Nat.mod_unique _ _ (y * vw + x)%nat); lia).
    replace (y * vw + x - y * vw)%nat with x by lia.
    destruct (pattern w h x y !! c) eqn:He; [done|]. apply lookup_ge_None in He. rewrite length_pattern in He. lia.
Qed.

