(* ===== verification/Png.v ===== *)
(** * The PNG writer

    [crates/vitrin-png/src/lib.rs]: an 8-bit truecolour PNG of stored blocks, and
    the reader of such files it is checked against: chunks with their checksums,
    stored blocks with theirs, unfiltered rows. [None] of an encoder is a panic. *)

From S2P Require Import Prelude Text Wire Canvas.

(* ------------------------------------------------------------------------ *)
(** ** The writer *)

Definition SIGNATURE : Bytes := [137; 80; 78; 71; 13; 10; 26; 10].
(** [to_be_bytes] of a [u32]. *)
Definition to_be4 (v : Z) : Bytes := rev (to_le 4 v).

(** [filtered_scanlines], from row [y]. *)
Fixpoint scanlines_from (row : nat) (rgb : Bytes) (rows y : nat) : option Bytes :=
  match rows with
  | O => Some []
  | S rows =>
      line ← sub_slice (y * row) (y * row + row) rgb;
      rest ← scanlines_from row rgb rows (S y);
      Some (0 :: line ++ rest)
  end.
Definition filtered_scanlines (width height : Z) (rgb : Bytes) : option Bytes :=
  scanlines_from (Z.to_nat (width * 3)) rgb (Z.to_nat height) 0.

Definition ADLER_MOD : Z := 65521.
Fixpoint adler_loop (data : Bytes) (a b : Z) : Z * Z :=
  match data with
  | [] => (a, b)
  | x :: data => let a := (a + x) mod ADLER_MOD in adler_loop data a ((b + a) mod ADLER_MOD)
  end.
Definition adler32 (data : Bytes) : Z := let '(a, b) := adler_loop data 1 0 in Z.lor (Z.shiftl b 16) a.

(** The loop of [zlib_stored]; its fuel is the bytes left. *)
Fixpoint stored_blocks (fuel : nat) (data : Bytes) (pos : nat) : option Bytes :=
  let len := Nat.min (length data - pos) (Z.to_nat 65535) in
  let is_final := (length data <=? pos + len)%nat in
  payload ← sub_slice pos (pos + len) data;
  let len16 := Z.of_nat len in
  let block := (if is_final then 1 else 0) :: to_le 2 len16 ++ to_le 2 (Z.lxor len16 65535) ++ payload in
  if is_final then Some block
  else match fuel with
       | O => None
       | S fuel => rest ← stored_blocks fuel data (pos + len); Some (block ++ rest)
       end.
Definition zlib_stored (data : Bytes) : option Bytes :=
  blocks ← stored_blocks (length data) data 0;
  Some ([120; 1] ++ blocks ++ to_be4 (adler32 data)).

Definition CRC_POLY : Z := 3988292384.
Definition crc_new : Z := 4294967295.
Definition crc_step (s : Z) : Z :=
  let mask := (- Z.land s 1) mod 4294967296 in Z.lxor (Z.shiftr s 1) (Z.land CRC_POLY mask).
Definition crc_byte (s b : Z) : Z := Nat.iter 8 crc_step (Z.lxor s b).
Definition crc_update (bytes : Bytes) (s : Z) : Z := fold_left crc_byte bytes s.
Definition crc_finish (s : Z) : Z := Z.lxor s 4294967295.

Definition write_chunk (kind data : Bytes) : Bytes :=
  to_be4 (Z.of_nat (length data) mod 4294967296) ++ kind ++ data
  ++ to_be4 (crc_finish (crc_update data (crc_update kind crc_new))).

Definition IHDR : Bytes := [73; 72; 68; 82].
Definition IDAT : Bytes := [73; 68; 65; 84].
Definition IEND : Bytes := [73; 69; 78; 68].
Definition encode_rgb (width height : Z) (rgb : Bytes) : option Bytes :=
  let ihdr := to_be4 width ++ to_be4 height ++ [8; 2; 0; 0; 0] in
  raw ← filtered_scanlines width height rgb;
  idat ← zlib_stored raw;
  Some (SIGNATURE ++ write_chunk IHDR ihdr ++ write_chunk IDAT idat ++ write_chunk IEND []).

(* ------------------------------------------------------------------------ *)
(** ** A reader *)

(** The checksum as a register fed one bit of the message at a time. *)
Definition lfsr (s : Z) (bit : bool) : Z :=
  Z.lxor (Z.shiftr s 1) (if xorb (Z.testbit s 0) bit then CRC_POLY else 0).
Definition bits_of (b : Z) : list bool := List.map (fun i => Z.testbit b (Z.of_nat i)) (seq 0 8).
Definition crc_reference (message : Bytes) : Z :=
  Z.lxor (fold_left lfsr (flat_map bits_of message) 4294967295) 4294967295.

(** The two sums of the other one, without a reduction on the way. *)
Definition sum_list (l : list Z) : Z := fold_right Z.add 0 l.
Fixpoint weighted (l : list Z) : Z := match l with [] => 0 | x :: l => Z.of_nat (S (length l)) * x + weighted l end.
Definition adler_reference (data : Bytes) : Z :=
  (Z.of_nat (length data) + weighted data) mod ADLER_MOD * 65536 + (1 + sum_list data) mod ADLER_MOD.

Definition split_exact (n : nat) (bs : Bytes) : option (Bytes * Bytes) :=
  if (n <=? length bs)%nat then Some (take n bs, drop n bs) else None.
Definition from_be (bs : Bytes) : Z := from_le (rev bs).

Definition read_chunk (kind bs : Bytes) : option (Bytes * Bytes) :=
  '(len, bs) ← split_exact 4 bs;
  '(name, bs) ← split_exact 4 bs;
  '(data, bs) ← split_exact (Z.to_nat (from_be len)) bs;
  '(crc, bs) ← split_exact 4 bs;
  if bool_decide (name = kind) && (from_be crc =? crc_reference (kind ++ data)) then Some (data, bs) else None.

Fixpoint read_blocks (fuel : nat) (bs : Bytes) : option (Bytes * Bytes) :=
  match fuel, bs with
  | S fuel, head :: bs =>
      '(len, bs) ← split_exact 2 bs;
      '(inverse, bs) ← split_exact 2 bs;
      '(payload, bs) ← split_exact (Z.to_nat (from_le len)) bs;
      if negb (from_le len + from_le inverse =? 65535) then None
      else if head =? 1 then Some (payload, bs)
      else if head =? 0 then '(more, bs) ← read_blocks fuel bs; Some (payload ++ more, bs)
      else None
  | _, _ => None
  end.
Definition read_zlib (bs : Bytes) : option Bytes :=
  '(header, bs) ← split_exact 2 bs;
  '(data, bs) ← read_blocks (length bs) bs;
  if bool_decide (header = [120; 1]) && bool_decide (length bs = 4%nat) && (from_be bs =? adler_reference data) then Some data else None.

Fixpoint read_rows (row rows : nat) (bs : Bytes) : option Bytes :=
  match rows with
  | O => match bs with [] => Some [] | _ => None end
  | S rows =>
      match bs with
      | 0 :: bs => '(line, bs) ← split_exact row bs; rest ← read_rows row rows bs; Some (line ++ rest)
      | _ => None
      end
  end.

(** The dimensions and the pixels of a file. *)
Definition read_png (bs : Bytes) : option (Z * Z * Bytes) :=
  '(signature, bs) ← split_exact 8 bs;
  '(ihdr, bs) ← read_chunk IHDR bs;
  '(w, r) ← split_exact 4 ihdr;
  '(h, r) ← split_exact 4 r;
  '(idat, bs) ← read_chunk IDAT bs;
  '(empty, bs) ← read_chunk IEND bs;
  raw ← read_zlib idat;
  pixels ← read_rows (Z.to_nat (from_be w * 3)) (Z.to_nat (from_be h)) raw;
  if bool_decide (signature = SIGNATURE) && bool_decide (r = [8; 2; 0; 0; 0]) && bool_decide (empty = []) && bool_decide (bs = [])
  then Some (from_be w, from_be h, pixels) else None.

(* ------------------------------------------------------------------------ *)
(** ** Pieces *)

Lemma split_exact_app n a b : length a = n -> split_exact n (a ++ b) = Some (a, b).
Proof.
  intros <-. unfold split_exact. rewrite length_app. destruct (Nat.leb_spec (length a) (length a + length b)); [|lia].
  by rewrite take_app_length, drop_app_length.
Qed.
Lemma to_be4_length v : length (to_be4 v) = 4%nat.
Proof. unfold to_be4. by rewrite length_rev, length_to_le. Qed.
Lemma from_to_be4 v : is_u32 v -> from_be (to_be4 v) = v.
Proof. intros Hv. unfold from_be, to_be4. rewrite rev_involutive. apply from_to_le. unfold is_u32, u32_max in Hv. simpl. lia. Qed.

(** *** The checksum of a chunk *)

Lemma crc_step_eq s : crc_step s = Z.lxor (Z.shiftr s 1) (if Z.testbit s 0 then CRC_POLY else 0).
Proof.
  unfold crc_step. cbv zeta. f_equal. change 1 with (Z.ones 1). rewrite Z.land_ones by done. change (2 ^ 1) with 2.
  rewrite Zmod_odd, Z.bit0_odd. by destruct (Z.odd s).
Qed.
Lemma crc_step_lxor s x : crc_step (Z.lxor s x) = Z.lxor (lfsr s (Z.testbit x 0)) (Z.shiftr x 1).
Proof.
  rewrite crc_step_eq. unfold lfsr. rewrite Z.lxor_spec, Z.shiftr_lxor, !Z.lxor_assoc. f_equal. apply Z.lxor_comm.
Qed.
Lemma crc_bits n s x :
  Nat.iter n crc_step (Z.lxor s x)
  = Z.lxor (fold_left lfsr (List.map (fun i => Z.testbit x (Z.of_nat i)) (seq 0 n)) s) (Z.shiftr x (Z.of_nat n)).
Proof.
  induction n as [|n IH]; [cbn [Nat.iter seq List.map fold_left]; by rewrite Z.shiftr_0_r|].
  rewrite Nat.iter_succ, IH, crc_step_lxor, seq_S, List.map_app, fold_left_app. cbn [List.map fold_left Nat.add].
  rewrite Z.shiftr_spec, Z.shiftr_shiftr by lia. do 2 f_equal. f_equal. lia.
Qed.
Lemma crc_byte_eq s b : is_u8 b -> crc_byte s b = fold_left lfsr (bits_of b) s.
Proof.
  unfold is_u8, u8_max. intros Hb. unfold crc_byte. rewrite crc_bits, (Z.shiftr_div_pow2 b), Z.div_small, Z.lxor_0_r by (simpl; lia). done.
Qed.
Lemma crc_update_eq bytes s : is_bytes bytes -> crc_update bytes s = fold_left lfsr (flat_map bits_of bytes) s.
Proof.
  unfold crc_update. intros Hb. revert s. induction Hb as [|b bytes Hb _ IH]; intros s; [done|].
  cbn [fold_left flat_map]. by rewrite fold_left_app, crc_byte_eq, IH.
Qed.
Lemma crc_exact kind data : is_bytes kind -> is_bytes data ->
  crc_finish (crc_update data (crc_update kind crc_new)) = crc_reference (kind ++ data).
Proof.
  intros Hk Hd. unfold crc_finish, crc_reference. rewrite !crc_update_eq, flat_map_app, fold_left_app by done. done.
Qed.
Lemma u32_bound x : 0 <= x -> (forall i, 32 <= i -> Z.testbit x i = false) -> is_u32 x.
Proof.
  intros H0 H. unfold is_u32, u32_max. assert (x = x mod 2 ^ 32) as ->; [|pose proof (Z.mod_pos_bound x (2 ^ 32)); lia].
  apply Z.bits_inj'. intros n Hn. destruct (Z_lt_ge_dec n 32).
  - by rewrite Z.mod_pow2_bits_low.
  - rewrite Z.mod_pow2_bits_high by lia. apply H. lia.
Qed.
Lemma crc_reference_u32 message : is_u32 (crc_reference message).
Proof.
  assert (forall bits s, is_u32 s -> is_u32 (fold_left lfsr bits s)) as H.
  { intros bits. induction bits as [|b bits IH]; intros s Hs; [done|]. apply IH. unfold lfsr, is_u32, u32_max in *.
    assert (0 <= Z.shiftr s 1 < 2 ^ 32) by (rewrite Z.shiftr_div_pow2 by done; change (2 ^ 1) with 2; Z.to_euclidean_division_equations; lia).
    assert (forall y, 0 <= y < 2 ^ 32 -> 0 <= Z.lxor (Z.shiftr s 1) y <= 4294967295) as Hy; [|destruct (xorb _ _); apply Hy; done].
    intros y Hy. apply u32_bound; [apply Z.lxor_nonneg; lia|]. intros i Hi. rewrite Z.lxor_spec.
    rewrite <- (Z.mod_small (Z.shiftr s 1) (2 ^ 32)), <- (Z.mod_small y (2 ^ 32)) by lia. by rewrite !Z.mod_pow2_bits_high by lia. }
  unfold crc_reference. specialize (H (flat_map bits_of message) 4294967295 ltac:(done)). unfold is_u32, u32_max in H.
  apply u32_bound; [apply Z.lxor_nonneg; lia|]. intros i Hi. rewrite Z.lxor_spec.
  rewrite <- (Z.mod_small (fold_left _ _ _) (2 ^ 32)), <- (Z.mod_small 4294967295 (2 ^ 32)) by lia. by rewrite !Z.mod_pow2_bits_high by lia.
Qed.

Lemma read_write_chunk kind data rest :
  is_bytes kind -> is_bytes data -> length kind = 4%nat -> is_u32 (Z.of_nat (length data)) ->
  read_chunk kind (write_chunk kind data ++ rest) = Some (data, rest).
Proof.
  intros Hk Hd H4 Hlen. unfold read_chunk, write_chunk. rewrite <- !app_assoc, crc_exact by done.
  rewrite split_exact_app by apply to_be4_length. cbn [mbind option_bind].
  rewrite split_exact_app by done. cbn [mbind option_bind].
  assert (Z.of_nat (length data) mod 4294967296 = Z.of_nat (length data)) as -> by (unfold is_u32, u32_max in Hlen; rewrite Z.mod_small by lia; lia).
  rewrite from_to_be4, Nat2Z.id, split_exact_app by done. cbn [mbind option_bind].
  rewrite split_exact_app by apply to_be4_length. cbn [mbind option_bind].
  rewrite from_to_be4, bool_decide_true, Z.eqb_refl by (done || apply crc_reference_u32). done.
Qed.

(** *** The checksum of the stream *)

Lemma adler_loop_spec data a b : 0 <= a < ADLER_MOD -> 0 <= b < ADLER_MOD ->
  adler_loop data a b = ((a + sum_list data) mod ADLER_MOD, (b + Z.of_nat (length data) * a + weighted data) mod ADLER_MOD).
Proof.
  unfold ADLER_MOD. revert a b. induction data as [|x data IH]; intros a b Ha Hb; cbn [adler_loop sum_list fold_right weighted length]; unfold ADLER_MOD in *.
  - change (Z.of_nat 0) with 0. rewrite Z.mul_0_l, !Z.mod_small by lia. f_equal; lia.
  - rewrite IH by (apply Z.mod_pos_bound; lia). fold (sum_list data). f_equal.
    + rewrite Zplus_mod_idemp_l. f_equal. lia.
    + rewrite <- Z.add_assoc, Zplus_mod_idemp_l. pose proof (Z.div_mod (a + x) 65521 ltac:(done)) as Hq.
      set (q := (a + x) / 65521) in *. replace ((a + x) mod 65521) with (a + x - 65521 * q) by lia.
      assert (forall u v k, u = v + k * 65521 -> u mod 65521 = v mod 65521) as Hmod by (intros u v k ->; by apply Z.mod_add).
      apply (Hmod _ _ (- (Z.of_nat (S (length data)) * q))). rewrite ?Zpos_P_of_succ_nat, ?Nat2Z.inj_succ. unfold Z.succ. ring.
Qed.
Lemma lor_low b a : 0 <= a < 65536 -> Z.lor (Z.shiftl b 16) a = b * 65536 + a.
Proof.
  intros Ha. rewrite <- Z.lxor_lor, <- Z.add_nocarry_lxor.
  - rewrite Z.shiftl_mul_pow2 by done. done.
  - apply Z.bits_inj'. intros n Hn. rewrite Z.land_spec, Z.bits_0. destruct (Z_lt_ge_dec n 16); [by rewrite Z.shiftl_spec_low|].
    rewrite <- (Z.mod_small a (2 ^ 16)) by lia. by rewrite Z.mod_pow2_bits_high, andb_false_r by lia.
  - apply Z.bits_inj'. intros n Hn. rewrite Z.land_spec, Z.bits_0. destruct (Z_lt_ge_dec n 16); [by rewrite Z.shiftl_spec_low|].
    rewrite <- (Z.mod_small a (2 ^ 16)) by lia. by rewrite Z.mod_pow2_bits_high, andb_false_r by lia.
Qed.
Lemma adler_exact data : adler32 data = adler_reference data /\ is_u32 (adler32 data).
Proof.
  unfold adler32. rewrite adler_loop_spec by done. rewrite Z.add_0_l, Z.mul_1_r.
  pose proof (Z.mod_pos_bound (1 + sum_list data) ADLER_MOD ltac:(done)).
  pose proof (Z.mod_pos_bound (Z.of_nat (length data) + weighted data) ADLER_MOD ltac:(done)). unfold ADLER_MOD in *.
  rewrite lor_low by lia. split; [done|]. unfold is_u32, u32_max. lia.
Qed.

(** *** Stored blocks *)

Lemma inverse16 x : 0 <= x <= 65535 -> Z.lxor x 65535 = 65535 - x.
Proof.
  intros Hx. change 65535 with (Z.ones 16). assert (Z.log2 x < 16).
  { destruct (Z.eq_dec x 0) as [->|]; [done|]. apply Z.log2_lt_pow2; lia. }
  rewrite Z.sub_nocarry_ldiff by (apply Z.ldiff_ones_r_low; lia). rewrite Z.ldiff_ones_l_low by lia. done.
Qed.

(** One block and what follows it. *)
Lemma read_block final len payload rest more :
  Z.of_nat len <= 65535 -> length payload = len ->
  read_blocks (S more) (((if final : bool then 1 else 0) :: to_le 2 (Z.of_nat len) ++ to_le 2 (Z.lxor (Z.of_nat len) 65535) ++ payload) ++ rest)
  = if final then Some (payload, rest) else '(tail, rest) ← read_blocks more rest; Some (payload ++ tail, rest).
Proof.
  intros Hlen Hp. cbn [app read_blocks]. rewrite <- !app_assoc.
  rewrite split_exact_app by apply length_to_le. cbn [mbind option_bind].
  rewrite split_exact_app by apply length_to_le. cbn [mbind option_bind].
  rewrite inverse16, !from_to_le by (simpl; lia). rewrite Nat2Z.id, split_exact_app by done. cbn [mbind option_bind].
  replace (Z.of_nat len + (65535 - Z.of_nat len)) with 65535 by lia. by destruct final.
Qed.

Lemma to_le_bytes n v : 0 <= v -> is_bytes (to_le n v).
Proof.
  revert v. induction n as [|n IH]; intros v Hv; cbn [to_le]; constructor.
  - pose proof (Z.mod_pos_bound v 256). unfold is_u8, u8_max. lia.
  - apply IH, Z.div_pos; lia.
Qed.
Lemma to_be4_bytes v : 0 <= v -> is_bytes (to_be4 v).
Proof. intros Hv. by apply Forall_rev, to_le_bytes. Qed.

Lemma stored_read fuel data pos :
  is_bytes data -> (pos <= length data)%nat -> (length data - pos <= fuel)%nat ->
  exists blocks, stored_blocks fuel data pos = Some blocks /\ is_bytes blocks
    /\ (length data - pos < length blocks)%nat
    /\ 65535 * (Z.of_nat (length blocks) - Z.of_nat (length data - pos)) <= 5 * Z.of_nat (length data - pos) + 327675
    /\ forall rest more, (length data - pos < more)%nat -> read_blocks more (blocks ++ rest) = Some (drop pos data, rest).
Proof.
  intros Hdata. revert pos. induction fuel as [|fuel IH]; intros pos Hpos Hfuel; cbn [stored_blocks]; cbv zeta;
    set (len := Nat.min (length data - pos) (Z.to_nat 65535));
    assert (Z.of_nat len <= 65535 /\ (pos + len <= length data)%nat) as [Hlen Hend] by lia;
    assert (sub_slice pos (pos + len) data = Some (take len (drop pos data))) as Hslice
      by (unfold sub_slice; rewrite (proj2 (Nat.leb_le _ _)), (proj2 (Nat.leb_le _ _)) by lia; cbn [andb]; do 2 f_equal; lia);
    assert (length (take len (drop pos data)) = len) as Htake by (rewrite length_take, length_drop; lia);
    assert (is_bytes (to_le 2 (Z.of_nat len) ++ to_le 2 (Z.lxor (Z.of_nat len) 65535) ++ take len (drop pos data))) as Hbytes
      by (rewrite inverse16 by lia; unfold is_bytes; rewrite !Forall_app; split_and!; [apply to_le_bytes; lia..|by apply Forall_take, Forall_drop]);
    rewrite Hslice; cbn [mbind option_bind].
  - rewrite (proj2 (Nat.leb_le _ _)) by lia. eexists. split; [reflexivity|]. split; [constructor; [done|exact Hbytes]|].
    split; [cbn [length]; lia|]. split; [cbn [length]; rewrite !length_app, !length_to_le, Htake; lia|].
    intros rest [|more] Hmore; [lia|]. rewrite (read_block true) by done. f_equal. f_equal. apply take_ge. rewrite length_drop. lia.
  - destruct (Nat.leb_spec (length data) (pos + len)) as [Hfinal|Hmid].
    + eexists. split; [reflexivity|]. split; [constructor; [done|exact Hbytes]|].
      split; [cbn [length]; rewrite !length_app, Htake; lia|]. split; [cbn [length]; rewrite !length_app, !length_to_le, Htake; lia|].
      intros rest [|more] Hmore; [lia|]. rewrite (read_block true) by done. f_equal. f_equal. apply take_ge. rewrite length_drop. lia.
    + destruct (IH (pos + len)%nat) as (blocks & -> & Hb & Hlow & Hhigh & Hread); [lia..|]. cbn [mbind option_bind].
      eexists. split; [reflexivity|]. split; [constructor; [done|by apply Forall_app]|].
      split; [cbn [length app]; rewrite !length_app, Htake; lia|].
      split; [cbn [length app]; rewrite !length_app, !length_to_le, Htake; lia|].
      intros rest [|more] Hmore; [lia|]. rewrite <- app_assoc, (read_block false), Hread by (done || lia). cbn [mbind option_bind].
      by rewrite <- drop_drop, take_drop.
Qed.

Lemma zlib_read data :
  is_bytes data -> exists idat, zlib_stored data = Some idat /\ is_bytes idat /\ read_zlib idat = Some data
    /\ 65535 * (Z.of_nat (length idat) - Z.of_nat (length data)) <= 5 * Z.of_nat (length data) + 720885.
Proof.
  intros Hdata. destruct (stored_read (length data) data 0) as (blocks & Hs & Hb & Hlow & Hhigh & Hread); [done|lia..|].
  rewrite Nat.sub_0_r in *. unfold zlib_stored. rewrite Hs. cbn [mbind option_bind]. destruct (adler_exact data) as [Ha Hu].
  eexists. split; [reflexivity|]. split; [|split].
  - unfold is_bytes. rewrite !Forall_app. split_and!; [by repeat constructor|done|]. apply to_be4_bytes. apply Hu.
  - unfold read_zlib. rewrite (split_exact_app 2 [120; 1]) by done. cbn [mbind option_bind].
    rewrite Hread by (rewrite length_app; lia). cbn [mbind option_bind].
    rewrite from_to_be4, Ha, Z.eqb_refl, !bool_decide_true by (done || apply to_be4_length). done.
  - rewrite !length_app, to_be4_length. cbn [length]. lia.
Qed.

(** *** Rows *)

Lemma rows_read row rgb rows y :
  ((y + rows) * row = length rgb)%nat ->
  exists raw, scanlines_from row rgb rows y = Some raw /\ length raw = (rows * (row + 1))%nat
    /\ (is_bytes rgb -> is_bytes raw) /\ read_rows row rows raw = Some (drop (y * row) rgb).
Proof.
  revert y. induction rows as [|rows IH]; intros y Hlen; cbn [scanlines_from read_rows].
  - eexists. split_and!; [done|done|constructor|]. by rewrite drop_ge by lia.
  - assert (sub_slice (y * row) (y * row + row) rgb = Some (take row (drop (y * row) rgb))) as ->.
    { unfold sub_slice. rewrite (proj2 (Nat.leb_le _ _)), (proj2 (Nat.leb_le _ _)) by nia. cbn [andb]. do 2 f_equal. lia. }
    cbn [mbind option_bind]. destruct (IH (S y) ltac:(lia)) as (raw & -> & Hraw & Hb & Hread). cbn [mbind option_bind].
    assert (length (take row (drop (y * row) rgb)) = row) as Htake by (rewrite length_take, length_drop; nia).
    eexists. split_and!; [done|cbn [length]; rewrite length_app, Htake; lia| |].
    + intros Hrgb. constructor; [done|]. apply Forall_app. split; [by apply Forall_take, Forall_drop|by apply Hb].
    + cbn [read_rows]. rewrite split_exact_app by done. cbn [mbind option_bind]. rewrite Hread. cbn [mbind option_bind]. f_equal.
      replace (S y * row)%nat with (y * row + row)%nat by lia. by rewrite <- drop_drop, take_drop.
Qed.

(** A file of three chunks is read. *)
Lemma read_file width height c1 c2 c3 idat raw rgb :
  is_u32 width -> is_u32 height ->
  (forall rest, read_chunk IHDR (c1 ++ rest) = Some (to_be4 width ++ to_be4 height ++ [8; 2; 0; 0; 0], rest)) ->
  (forall rest, read_chunk IDAT (c2 ++ rest) = Some (idat, rest)) -> read_chunk IEND c3 = Some ([], []) ->
  read_zlib idat = Some raw -> read_rows (Z.to_nat (width * 3)) (Z.to_nat height) raw = Some rgb ->
  read_png (SIGNATURE ++ c1 ++ c2 ++ c3) = Some (width, height, rgb).
Proof.
  intros Hw Hh H1 H2 H3 Hz Hrows. unfold read_png.
  rewrite split_exact_app by reflexivity. cbn [mbind option_bind]. rewrite H1. cbn [mbind option_bind].
  rewrite split_exact_app by apply to_be4_length. cbn [mbind option_bind].
  rewrite split_exact_app by apply to_be4_length. cbn [mbind option_bind].
  rewrite H2. cbn [mbind option_bind]. rewrite H3. cbn [mbind option_bind].
  rewrite Hz. cbn [mbind option_bind]. rewrite !from_to_be4, Hrows by done. cbn [mbind option_bind].
  rewrite !bool_decide_true by reflexivity. reflexivity.
Qed.
Lemma read_end : read_chunk IEND (write_chunk IEND []) = Some ([], []).
Proof. by vm_compute. Qed.

(** C18: a picture written is the picture read. For any picture of a width, a
    height and three bytes a pixel that fits one chunk, the encoder leaves a file
    and does not run off the pixels; a reader of the format, which checks the
    signature, the header, both checksums by their definitions, the inverted
    lengths of the blocks and the filter of each row, finds nothing wrong with it
    and reads back that width, that height and those pixels, and the end of the
    file where the file ends. *)
Theorem png_round_trip (width height : Z) (rgb : Bytes)
  (Hw : is_u32 width) (Hh : is_u32 height) (Hrgb : is_bytes rgb)
  (Hlen : Z.of_nat (length rgb) = width * height * 3) (Hsize : height * (width * 3 + 1) <= 4294639600) :
  exists file, encode_rgb width height rgb = Some file /\ read_png file = Some (width, height, rgb).
Proof.
  pose proof Hw as Hw'. pose proof Hh as Hh'. unfold is_u32, u32_max in Hw', Hh'.
  destruct (rows_read (Z.to_nat (width * 3)) rgb (Z.to_nat height) 0) as (raw & Hraw & Hrl & Hrb & Hrr); [nia|].
  destruct (zlib_read raw (Hrb Hrgb)) as (idat & Hz & Hib & Hzr & Hzl).
  assert (Z.of_nat (length raw) = height * (width * 3 + 1)) as Hrz by nia.
  unfold encode_rgb, filtered_scanlines. rewrite Hraw. cbn [mbind option_bind]. rewrite Hz. cbn [mbind option_bind].
  eexists. split; [reflexivity|]. apply (read_file _ _ _ _ _ idat raw); [done|done| | |exact read_end|done|exact Hrr].
  - intros rest. apply read_write_chunk; [by repeat constructor| |done|by rewrite !length_app, !to_be4_length].
    unfold is_bytes. rewrite !Forall_app. split_and!; [apply to_be4_bytes; apply Hw|apply to_be4_bytes; apply Hh|by repeat constructor].
  - intros rest. apply read_write_chunk; [by repeat constructor|done|done|unfold is_u32, u32_max; lia].
Qed.

Lemma png_round_trip_witness :
  exists file, encode_rgb 2 1 [255; 0; 0; 1; 2; 3] = Some file /\ read_png file = Some (2, 1, [255; 0; 0; 1; 2; 3]).
Proof. apply (png_round_trip 2 1 [255; 0; 0; 1; 2; 3]); [done|done|by repeat constructor|reflexivity|done]. Defined.
