(* ===== verification/Atlas.v ===== *)
(** * The bitmap atlas

    [crates/vitrin-core/src/paint/atlas.rs]: the file of pre-rasterized glyphs, its
    index and the structural check over it. The embedded file is a parameter. *)

From S2P Require Import Prelude Text Wire Canvas.

(** [PX], as the bits of an [f32]: 14.0. *)
Definition PX_BITS : Z := 1096810496.
Definition ATLAS_MAGIC : Bytes := Utf8.encode (str "VITRIN-ATLAS-01" ++ [10]).
Definition HEADER_LEN : nat := 28.
Definition RECORD_LEN : nat := 20.
Definition BLOCKS : list (Z * Z) := [(12353, 12447); (12448, 12543); (19968, 40845)].

Record Rendered : Type := {
  rd_xmin : Z; rd_ymin : Z; rd_width : nat; rd_height : nat; rd_advance : Z; rd_coverage : list Z }.
Record Atlas : Type := { at_records : list Z; at_blob : list Z; at_count : nat }.

Definition read_u32 (bytes : list Z) (at_ : nat) : option Z := from_le <$> sub_slice at_ (at_ + 4) bytes.
Definition read_u16 (bytes : list Z) (at_ : nat) : option Z := from_le <$> sub_slice at_ (at_ + 2) bytes.
Definition u16_as_i16 (v : Z) : Z := if v <? 32768 then v else v - 65536.
Definition usize_max : Z := u64_max.
Definition checked_usize (v : Z) : option Z := if v <=? usize_max then Some v else None.

Definition parse (bytes : list Z) : option Atlas :=
  if (length bytes <? HEADER_LEN)%nat || negb (bool_decide (take 16 bytes = ATLAS_MAGIC)) then None
  else
    px_bits ← read_u32 bytes 16;
    if negb (px_bits =? PX_BITS) then None
    else
      count ← read_u32 bytes 20;
      blob_len ← read_u32 bytes 24;
      index_len ← checked_usize (count * Z.of_nat RECORD_LEN);
      a ← checked_usize (Z.of_nat HEADER_LEN + index_len);
      total ← checked_usize (a + blob_len);
      if negb (total =? Z.of_nat (length bytes)) then None
      else
        let cut := (HEADER_LEN + Z.to_nat index_len)%nat in
        records ← sub_slice HEADER_LEN cut bytes;
        blob ← sub_slice cut (length bytes) bytes;
        Some {| at_records := records; at_blob := blob; at_count := Z.to_nat count |}.

Definition codepoint_at (a : Atlas) (i : nat) : option Z := read_u32 (at_records a) (i * RECORD_LEN).

Definition rendered_at (a : Atlas) (i : nat) : option Rendered :=
  let at_ := (i * RECORD_LEN)%nat in
  offset ← read_u32 (at_records a) (at_ + 4);
  width ← read_u16 (at_records a) (at_ + 8);
  height ← read_u16 (at_records a) (at_ + 10);
  xmin ← read_u16 (at_records a) (at_ + 12);
  ymin ← read_u16 (at_records a) (at_ + 14);
  advance ← read_u32 (at_records a) (at_ + 16);
  len ← checked_usize (width * height);
  to ← checked_usize (offset + len);
  coverage ← sub_slice (Z.to_nat offset) (Z.to_nat to) (at_blob a);
  Some {| rd_xmin := u16_as_i16 xmin; rd_ymin := u16_as_i16 ymin; rd_width := Z.to_nat width;
          rd_height := Z.to_nat height; rd_advance := advance; rd_coverage := coverage |}.

(** The binary search; every turn narrows the range. *)
Fixpoint find_loop (fuel : nat) (a : Atlas) (cp : Z) (lo hi : nat) : option nat :=
  match fuel with
  | O => None
  | S fuel =>
      if (lo <? hi)%nat then
        let mid := (lo + (hi - lo) / 2)%nat in
        c ← codepoint_at a mid;
        match c ?= cp with
        | Lt => find_loop fuel a cp (mid + 1)%nat hi
        | Gt => find_loop fuel a cp lo mid
        | Eq => Some mid
        end
      else None
  end.
Definition find (a : Atlas) (cp : Z) : option nat := find_loop (S (at_count a)) a cp 0 (at_count a).

Definition in_blocks (cp : Z) : bool := existsb (fun b => between b.1 b.2 cp) BLOCKS.
Definition covers (a : Atlas) (c : Z) : bool :=
  if negb (in_blocks c) then false else bool_decide (is_Some (find a c)).
Definition glyph (a : Atlas) (c : Z) (px_bits : Z) : option Rendered :=
  if negb (px_bits =? PX_BITS) then None
  else if negb (in_blocks c) then None
  else i ← find a c; rendered_at a i.
Definition codepoints (a : Atlas) : list Z :=
  omap (fun i => c ← codepoint_at a i; if is_charb c then Some c else None) (seq 0 (at_count a)).

(** The messages of [validate], by their kind. *)
Inductive AtlasFailure : Type :=
| DoesNotParse
| NoGlyphs
| Truncated (i : nat)
| NotAscending (i : nat)
| NotScalar (i : nat)
| OutsideBlocks (i : nat)
| NotTiled (i : nat)
| BadAdvance (i : nat)
| BlobLeftover.

(** An [f32] by its bits: finite, and not below zero. *)
Definition usable_advance (bits : Z) : bool :=
  negb (Z.land (Z.shiftr bits 23) 255 =? 255) && ((bits <? 2147483648) || (bits =? 2147483648)).

Fixpoint validate_loop (a : Atlas) (n i : nat) (previous : option Z) (expected : Z) : list AtlasFailure * Z :=
  match n with
  | O => ([], expected)
  | S n =>
      match codepoint_at a i with
      | None => ([Truncated i], expected)
      | Some cp =>
          let order := if is_some_and previous (fun prev => cp <=? prev) then [NotAscending i] else [] in
          let scalar := if is_charb cp then [] else [NotScalar i] in
          let blocks := if in_blocks cp then [] else [OutsideBlocks i] in
          let at_ := (i * RECORD_LEN)%nat in
          match read_u32 (at_records a) (at_ + 4), read_u16 (at_records a) (at_ + 8), read_u16 (at_records a) (at_ + 10) with
          | Some offset, Some w, Some h =>
              let tiled := if offset =? expected then [] else [NotTiled i] in
              let advance :=
                match read_u32 (at_records a) (at_ + 16) with
                | Some bits => if usable_advance bits then [] else [BadAdvance i]
                | None => [BadAdvance i]
                end in
              let '(rest, expected) := validate_loop a n (S i) (Some cp) (offset + w * h) in
              (order ++ scalar ++ blocks ++ tiled ++ advance ++ rest, expected)
          | _, _, _ => (order ++ scalar ++ blocks ++ [Truncated i], expected)
          end
      end
  end.

Definition validate (bytes : list Z) : list AtlasFailure :=
  match parse bytes with
  | None => [DoesNotParse]
  | Some a =>
      if (at_count a =? 0)%nat then [NoGlyphs]
      else
        let '(failures, expected) := validate_loop a (at_count a) 0 None 0 in
        failures ++ (if expected =? Z.of_nat (length (at_blob a)) then [] else [BlobLeftover])
  end.

(* ------------------------------------------------------------------------ *)
(** ** A valid atlas *)

Definition record_ok (a : Atlas) (i : nat) (cp : Z) (from to : Z) : Prop :=
  codepoint_at a i = Some cp /\ is_char cp /\ in_blocks cp = true
  /\ exists w h bits,
       read_u32 (at_records a) (i * RECORD_LEN + 4) = Some from /\ read_u16 (at_records a) (i * RECORD_LEN + 8) = Some w
       /\ read_u16 (at_records a) (i * RECORD_LEN + 10) = Some h /\ to = from + w * h
       /\ read_u32 (at_records a) (i * RECORD_LEN + 16) = Some bits /\ usable_advance bits = true.

(** What no failure from record [i] on means: ascending codepoints, each glyph
    where the one before ended. *)
Inductive tiles (a : Atlas) : nat -> nat -> option Z -> Z -> Z -> Prop :=
| tiles_nil i prev pos : tiles a 0 i prev pos pos
| tiles_cons n i prev pos cp next end_ :
    (forall p, prev = Some p -> p < cp) -> record_ok a i cp pos next ->
    tiles a n (S i) (Some cp) next end_ -> tiles a (S n) i prev pos end_.

Lemma validate_loop_tiles a n i prev pos end_ :
  validate_loop a n i prev pos = ([], end_) -> tiles a n i prev pos end_.
Proof.
  revert i prev pos. induction n as [|n IH]; intros i prev pos; cbn [validate_loop].
  - intros [= <-]. constructor.
  - destruct (codepoint_at a i) as [cp|] eqn:Hcp; [|done].
    destruct (read_u32 _ (i * RECORD_LEN + 4)) as [offset|] eqn:Ho;
      [|by destruct (is_some_and _ _), (is_charb cp), (in_blocks cp)].
    destruct (read_u16 _ (i * RECORD_LEN + 8)) as [w|] eqn:Hw;
      [|by destruct (is_some_and _ _), (is_charb cp), (in_blocks cp)].
    destruct (read_u16 _ (i * RECORD_LEN + 10)) as [h|] eqn:Hh;
      [|by destruct (is_some_and _ _), (is_charb cp), (in_blocks cp)].
    destruct (validate_loop a n (S i) (Some cp) _) as [rest e] eqn:Hr.
    destruct (is_some_and prev _) eqn:Hp; [done|]. destruct (is_charb cp) eqn:Hc; [|done].
    destruct (in_blocks cp) eqn:Hb; [|done]. destruct (Z.eqb_spec offset pos) as [->|]; [|done].
    destruct (read_u32 _ (i * RECORD_LEN + 16)) as [bits|] eqn:Hbits; [|done].
    destruct (usable_advance bits) eqn:Hu; [|done]. cbn [app]. intros [= -> ->].
    apply (tiles_cons a n i prev pos cp (pos + w * h)).
    + intros p ->. simpl in Hp. by apply Z.leb_gt in Hp.
    + split; [done|]. apply is_charb_spec in Hc. split_and!; [done..|]. exists w, h, bits. by split_and!.
    + by apply IH.
Qed.

Lemma tiles_record a n i prev pos end_ k :
  tiles a n i prev pos end_ -> (i <= k < i + n)%nat -> exists cp from to, record_ok a k cp from to.
Proof.
  induction 1 as [i prev pos|n i prev pos cp next end_ Hp Hr Ht IH]; [lia|]. intros Hk.
  destruct (decide (k = i)) as [->|]; [eauto|]. apply IH. lia.
Qed.

(** The index is strictly ascending. *)
Lemma tiles_ascending a n i prev pos end_ :
  tiles a n i prev pos end_ ->
  (forall k cp p, (i <= k < i + n)%nat -> codepoint_at a k = Some cp -> prev = Some p -> p < cp)
  /\ forall k l cp cp', (i <= k < l)%nat -> (l < i + n)%nat -> codepoint_at a k = Some cp -> codepoint_at a l = Some cp' -> cp < cp'.
Proof.
  induction 1 as [i prev pos|n i prev pos cp next end_ Hp Hr Ht [IHp IHa]]; [split; intros; lia|].
  destruct Hr as (Hcp & _). split.
  - intros k c p Hk Hc ->. specialize (Hp p eq_refl). destruct (decide (k = i)) as [->|]; [congruence|].
    specialize (IHp k c cp ltac:(lia) Hc eq_refl). lia.
  - intros k l c c' Hkl Hl Hc Hc'. destruct (decide (k = i)) as [->|].
    + assert (c = cp) as -> by congruence. apply (IHp l c' cp); [lia|done..].
    + apply (IHa k l c c'); [lia|lia|done..].
Qed.

Section search.
Context (a : Atlas).
Hypothesis (Hall : forall k, (k < at_count a)%nat -> is_Some (codepoint_at a k)).
Hypothesis (Hasc : forall k l cp cp', (k < l < at_count a)%nat ->
  codepoint_at a k = Some cp -> codepoint_at a l = Some cp' -> cp < cp').

Lemma codepoint_le k l cp cp' : (k <= l < at_count a)%nat ->
  codepoint_at a k = Some cp -> codepoint_at a l = Some cp' -> cp <= cp'.
Proof using Hasc.
  intros Hk Hc Hc'. destruct (decide (k = l)) as [->|]; [assert (cp = cp') by congruence; lia|].
  apply Z.lt_le_incl, (Hasc k l); [lia|done..].
Qed.

Lemma find_loop_spec fuel cp lo hi :
  (hi <= at_count a)%nat -> (hi - lo < fuel)%nat ->
  (forall k c, (k < lo)%nat -> codepoint_at a k = Some c -> c < cp) ->
  (forall k c, (hi <= k < at_count a)%nat -> codepoint_at a k = Some c -> cp < c) ->
  forall i, find_loop fuel a cp lo hi = Some i <-> (i < at_count a)%nat /\ codepoint_at a i = Some cp.
Proof using Hall Hasc.
  revert lo hi. induction fuel as [|fuel IH]; intros lo hi Hhi Hf Hlo Hhis i; [lia|]. cbn [find_loop].
  destruct (Nat.ltb_spec lo hi) as [Hlt|Hge].
  - set (mid := (lo + (hi - lo) / 2)%nat).
    assert (lo <= mid < hi)%nat as Hmid.
    { unfold mid. pose proof (Nat.div_lt (hi - lo) 2). lia. }
    clearbody mid. destruct (Hall mid) as [c Hc]; [lia|]. rewrite Hc. simpl.
    destruct (Z.compare_spec c cp) as [->|Hlt'|Hgt].
    + split; [intros [= <-]; split; [lia|done]|]. intros [Hi Hci]. f_equal.
      destruct (Nat.lt_trichotomy mid i) as [H|[|H]]; [|done|].
      * pose proof (Hasc mid i cp cp ltac:(lia) Hc Hci). lia.
      * pose proof (Hasc i mid cp cp ltac:(lia) Hci Hc). lia.
    + apply IH; [done|lia| |done]. intros k c' Hk Hc'.
      pose proof (codepoint_le k mid c' c ltac:(lia) Hc' Hc). lia.
    + apply IH; [lia|lia|done|]. intros k c' Hk Hc'.
      pose proof (codepoint_le mid k c c' ltac:(lia) Hc Hc'). lia.
  - split; [done|]. intros [Hi Hci]. destruct (Nat.lt_ge_cases i lo) as [Hl|Hl].
    + specialize (Hlo i cp Hl Hci). lia.
    + specialize (Hhis i cp ltac:(lia) Hci). lia.
Qed.

Lemma find_spec cp i : find a cp = Some i <-> (i < at_count a)%nat /\ codepoint_at a i = Some cp.
Proof using Hall Hasc. apply find_loop_spec; [done|lia|intros; lia|intros; lia]. Qed.
End search.

Lemma sub_slice_Some from to (src l : list Z) :
  sub_slice from to src = Some l <-> (from <= to <= length src)%nat /\ l = take (to - from) (drop from src).
Proof.
  unfold sub_slice. destruct (Nat.leb_spec from to), (Nat.leb_spec to (length src)); cbn [andb]; naive_solver lia.
Qed.

Lemma read_le_nonneg (bytes : list Z) at_ n v :
  is_bytes bytes -> from_le <$> sub_slice at_ (at_ + n) bytes = Some v -> 0 <= v < 256 ^ Z.of_nat n.
Proof.
  intros Hb Hv. apply fmap_Some in Hv as (l & [Hl ->]%sub_slice_Some & ->).
  replace (at_ + n - at_)%nat with n by lia. set (s := take n (drop at_ bytes)).
  assert (length s = n) as Hn by (unfold s; rewrite length_take, length_drop; lia).
  assert (is_bytes s) as Hs by (by apply Forall_take, Forall_drop).
  apply from_le_bound in Hs. unfold blen in Hs. by rewrite Hn in Hs.
Qed.

Lemma read_in_range (bytes : list Z) at_ n m k v :
  from_le <$> sub_slice at_ (at_ + n) bytes = Some v -> (k + m <= at_ + n)%nat ->
  is_Some (from_le <$> sub_slice k (k + m) bytes).
Proof.
  intros (l & [Hl _]%sub_slice_Some & _)%fmap_Some Hk. apply fmap_is_Some. eexists. apply sub_slice_Some. split; [lia|done].
Qed.

(** Every record of a tiling has its glyph, and the glyphs are the blob. *)
Lemma tiles_coverage a n i prev pos end_ :
  is_bytes (at_records a) -> Z.of_nat (length (at_blob a)) <= usize_max ->
  tiles a n i prev pos end_ -> 0 <= pos -> end_ = Z.of_nat (length (at_blob a)) ->
  pos <= end_ /\ exists rs, length rs = n
    /\ (forall k, (k < n)%nat -> exists r, rs !! k = Some r /\ rendered_at a (i + k) = Some r
          /\ length (rd_coverage r) = (rd_width r * rd_height r)%nat)
    /\ concat (List.map rd_coverage rs) = drop (Z.to_nat pos) (at_blob a).
Proof.
  intros Hb Hmax. induction 1 as [i prev pos|n i prev pos cp next end_ Hp Hr Ht IH]; intros H0 Hend.
  { split; [lia|]. exists []. split_and!; [done|intros; lia|]. simpl. rewrite drop_ge; [done|]. lia. }
  destruct Hr as (_ & _ & _ & w & h & bits & Ho & Hw & Hh & -> & Hbits & _).
  pose proof (read_le_nonneg _ _ _ _ Hb Hw) as Hwr. pose proof (read_le_nonneg _ _ _ _ Hb Hh) as Hhr.
  assert (0 <= w * h) as Hwh by nia. destruct (IH ltac:(lia) Hend) as (Hle & rs & Hlen & Hrs & Hcat).
  split; [lia|].
  destruct (read_in_range _ _ 4 2 (i * RECORD_LEN + 12) _ Hbits) as [xmin Hx]; [lia|].
  destruct (read_in_range _ _ 4 2 (i * RECORD_LEN + 14) _ Hbits) as [ymin Hy]; [lia|].
  set (cov := take (Z.to_nat (w * h)) (drop (Z.to_nat pos) (at_blob a))).
  set (r := {| rd_xmin := u16_as_i16 xmin; rd_ymin := u16_as_i16 ymin; rd_width := Z.to_nat w;
               rd_height := Z.to_nat h; rd_advance := bits; rd_coverage := cov |}).
  exists (r :: rs). split_and!.
  - simpl. lia.
  - intros [|k] Hk.
    + exists r. split; [done|]. rewrite Nat.add_0_r. split.
      * unfold rendered_at. rewrite Ho, Hw, Hh. unfold read_u16. rewrite Hx, Hy. rewrite Hbits.
        cbn [mbind option_bind]. unfold checked_usize.
        rewrite (proj2 (Z.leb_le (w * h) _)) by lia. cbn [mbind option_bind].
        rewrite (proj2 (Z.leb_le (pos + w * h) _)) by lia. cbn [mbind option_bind].
        rewrite (proj2 (sub_slice_Some _ _ _ cov)); [done|]. split; [lia|]. unfold cov. f_equal. lia.
      * cbn. unfold cov. rewrite length_take, length_drop. nia.
    + destruct (Hrs k ltac:(lia)) as (r' & Hr' & Hren & Hl). exists r'.
      replace (i + S k)%nat with (S i + k)%nat by lia. done.
  - cbn [List.map concat rd_coverage r]. rewrite Hcat. unfold cov.
    replace (Z.to_nat (pos + w * h)) with (Z.to_nat pos + Z.to_nat (w * h))%nat by lia.
    rewrite <- drop_drop. apply take_drop.
Qed.

Lemma parse_spec bytes a :
  is_bytes bytes -> parse bytes = Some a ->
  is_bytes (at_records a) /\ Z.of_nat (length (at_blob a)) <= usize_max
  /\ bytes = take HEADER_LEN bytes ++ at_records a ++ at_blob a /\ length (at_records a) = (at_count a * RECORD_LEN)%nat.
Proof.
  intros Hb. unfold parse. destruct (_ || _) eqn:Hh; [done|]. apply orb_false_elim in Hh as [Hlen%Nat.ltb_ge _].
  destruct (read_u32 bytes 16) as [px|]; cbn [mbind option_bind negb]; [|done]. destruct (negb (px =? PX_BITS)); [done|].
  destruct (read_u32 bytes 20) as [count|] eqn:Hc; cbn [mbind option_bind negb]; [|done]. destruct (read_u32 bytes 24) as [blen|]; cbn [mbind option_bind negb]; [|done].
  pose proof (read_le_nonneg _ _ _ _ Hb Hc) as Hc0. unfold checked_usize.
  destruct (Z.leb_spec (count * Z.of_nat RECORD_LEN) usize_max); cbn [mbind option_bind negb]; [|done].
  destruct (Z.leb_spec (Z.of_nat HEADER_LEN + count * Z.of_nat RECORD_LEN) usize_max); cbn [mbind option_bind negb]; [|done].
  destruct (Z.leb_spec (Z.of_nat HEADER_LEN + count * Z.of_nat RECORD_LEN + blen) usize_max); cbn [mbind option_bind negb]; [|done].
  destruct (Z.eqb_spec (Z.of_nat HEADER_LEN + count * Z.of_nat RECORD_LEN + blen) (Z.of_nat (length bytes))) as [Ht|]; cbn [mbind option_bind negb]; [|done].
  set (cut := (HEADER_LEN + Z.to_nat (count * Z.of_nat RECORD_LEN))%nat).
  destruct (sub_slice HEADER_LEN cut bytes) as [records|] eqn:Hr; cbn [mbind option_bind negb]; [|done].
  destruct (sub_slice cut (length bytes) bytes) as [blob|] eqn:Hbl; cbn [mbind option_bind negb]; [|done]. intros [= <-]. cbn.
  apply sub_slice_Some in Hr as [Hr ->]. apply sub_slice_Some in Hbl as [Hbl ->]. split_and!.
  - by apply Forall_take, Forall_drop.
  - rewrite length_take, length_drop. lia.
  - rewrite (take_ge (drop cut bytes)) by (rewrite length_drop; lia).
    replace (drop cut bytes) with (drop (cut - HEADER_LEN) (drop HEADER_LEN bytes)).
    + by rewrite !take_drop.
    + rewrite drop_drop. f_equal. lia.
  - rewrite length_take, length_drop. unfold cut, RECORD_LEN in *. lia.
Qed.

Section validated.
Context (bytes : list Z) (Hbytes : is_bytes bytes) (Hvalid : validate bytes = []).

Lemma validated_tiles :
  exists a, parse bytes = Some a /\ at_count a <> 0%nat
    /\ tiles a (at_count a) 0 None 0 (Z.of_nat (length (at_blob a))).
Proof using Hvalid.
  unfold validate in Hvalid. destruct (parse bytes) as [a|]; [|done]. exists a. split; [done|].
  destruct (Nat.eqb_spec (at_count a) 0) as [|Hne]; [done|]. split; [done|].
  destruct (validate_loop a (at_count a) 0 None 0) as [failures e] eqn:Hl.
  apply app_eq_nil in Hvalid as [-> He]. destruct (Z.eqb_spec e (Z.of_nat (length (at_blob a)))) as [->|]; [|done].
  by apply validate_loop_tiles.
Qed.
End validated.

(** An atlas that passes the check serves every glyph it declares. It
    parses, and the header, the index and the coverage account for all of its
    bytes; the search finds a codepoint exactly where the index has it, in at most one
    place; every record has its glyph, of exactly its width times its
    height, and the glyphs in order are the coverage, with no byte that is
    nobody's; a character is covered exactly when the index lists it, and then
    at the atlas's size it has its glyph. *)
Theorem atlas_valid_serves (bytes : list Z) (Hbytes : is_bytes bytes) (Hvalid : validate bytes = []) :
  exists a, parse bytes = Some a
    /\ bytes = take HEADER_LEN bytes ++ at_records a ++ at_blob a
    /\ (forall cp i, find a cp = Some i <-> (i < at_count a)%nat /\ codepoint_at a i = Some cp)
    /\ (exists rs, length rs = at_count a
         /\ (forall i, (i < at_count a)%nat -> exists r, rs !! i = Some r /\ rendered_at a i = Some r
               /\ length (rd_coverage r) = (rd_width r * rd_height r)%nat)
         /\ concat (List.map rd_coverage rs) = at_blob a)
    /\ (forall c, covers a c = true <-> c ∈ codepoints a)
    /\ forall c, covers a c = true -> is_Some (glyph a c PX_BITS).
Proof.
  destruct (validated_tiles bytes Hvalid) as (a & Hp & Hne & Ht). exists a. split; [done|].
  destruct (parse_spec bytes a Hbytes Hp) as (Hrec & Hmax & Hcut & _).
  pose proof (fun k => tiles_record a _ _ _ _ _ k Ht) as Hrecord. destruct (tiles_ascending a _ _ _ _ _ Ht) as [_ Hasc].
  assert (forall cp i, find a cp = Some i <-> (i < at_count a)%nat /\ codepoint_at a i = Some cp) as Hfind.
  { intros cp i. apply find_spec.
    - intros k Hk. destruct (Hrecord k ltac:(lia)) as (c & from & to & Hc & _). by exists c.
    - intros k l c c' Hk. apply (Hasc k l c c'); lia. }
  destruct (tiles_coverage a _ _ _ _ _ Hrec Hmax Ht (Z.le_refl 0) eq_refl) as (_ & rs & Hlen & Hrs & Hcat).
  assert (forall c, covers a c = true <-> exists i, find a c = Some i) as Hcov.
  { intros c. unfold covers. split.
    - destruct (in_blocks c); [|done]. cbn [negb]. by intros [i Hi]%bool_decide_eq_true; exists i.
    - intros [i Hi]. pose proof Hi as [Hlt Hc]%Hfind. destruct (Hrecord i ltac:(lia)) as (cp & from & to & Hcp & _ & Hb & _).
      assert (cp = c) as -> by congruence. rewrite Hb. cbn [negb]. apply bool_decide_eq_true. by exists i. }
  split_and!; [done|done| | |].
  - exists rs. by split_and!.
  - intros c. rewrite Hcov. unfold codepoints. rewrite list_elem_of_omap. split.
    + intros (i & Hi). apply Hfind in Hi as [Hlt Hc]. exists i. split; [apply elem_of_seq; lia|]. rewrite Hc. simpl.
      destruct (Hrecord i ltac:(lia)) as (cp & from & to & Hcp & Hch & _). assert (cp = c) as -> by congruence.
      by rewrite (proj2 (is_charb_spec c) Hch).
    + intros (i & Hi & Hc). apply elem_of_seq in Hi. exists i. apply Hfind. split; [lia|].
      destruct (codepoint_at a i) as [c'|]; simpl in Hc; [|done]. destruct (is_charb c'); [congruence|done].
  - intros c Hc. pose proof Hc as [i Hi]%Hcov. unfold glyph. unfold covers in Hc.
    destruct (in_blocks c); [|done]. cbn [negb Z.eqb PX_BITS Pos.eqb]. rewrite Hi. simpl.
    apply Hfind in Hi as [Hlt _]. destruct (Hrs i Hlt) as (r & _ & Hr & _). simpl in Hr. by rewrite Hr.
Qed.

(** A small atlas: two kana of two pixels and one, and one ideograph of none. *)
Definition small_atlas : list Z :=
  ATLAS_MAGIC ++ to_le 4 PX_BITS ++ to_le 4 3 ++ to_le 4 3
  ++ (to_le 4 12354 ++ to_le 4 0 ++ to_le 2 2 ++ to_le 2 1 ++ to_le 2 0 ++ to_le 2 65535 ++ to_le 4 PX_BITS)
  ++ (to_le 4 12356 ++ to_le 4 2 ++ to_le 2 1 ++ to_le 2 1 ++ to_le 2 0 ++ to_le 2 0 ++ to_le 4 PX_BITS)
  ++ (to_le 4 35542 ++ to_le 4 3 ++ to_le 2 0 ++ to_le 2 7 ++ to_le 2 0 ++ to_le 2 0 ++ to_le 4 0)
  ++ [10; 20; 30].

Lemma atlas_valid_serves_witness :
  validate small_atlas = []
  /\ exists a, parse small_atlas = Some a /\ at_count a = 3%nat /\ is_Some (glyph a 12356 PX_BITS).
Proof.
  assert (validate small_atlas = []) as Hv by (by vm_compute).
  assert (is_bytes small_atlas) as Hb.
  { apply List.Forall_forall. intros b Hin. assert (forallb (fun b => between 0 255 b) small_atlas = true) as Hall by (by vm_compute).
    rewrite List.forallb_forall in Hall. specialize (Hall b Hin). unfold between in Hall. unbool. unfold is_u8, u8_max. lia. }
  split; [exact Hv|].
  destruct (atlas_valid_serves small_atlas Hb Hv) as (a & Hp & _ & _ & _ & _ & Hg). exists a.
  split; [exact Hp|]. assert (at_count a = 3%nat /\ covers a 12356 = true) as [Hc Hcov].
  { clear - Hp. vm_compute in Hp. injection Hp as <-. by vm_compute. }
  split; [exact Hc|]. apply Hg. exact Hcov.
Defined.
(** A codepoint out of order is reported. *)
Example atlas_unsorted :
  validate (take 28 small_atlas ++ take 20 (drop 48 small_atlas) ++ take 20 (drop 28 small_atlas) ++ drop 68 small_atlas)
  = [NotTiled 0; NotAscending 1; NotTiled 1; NotTiled 2].
Proof. by vm_compute. Qed.
