(* ===== verification/Paint.v ===== *)
(** * Drawing

    [crates/vitrin-core/src/paint/canvas.rs] and [centered] of
    [paint/mod.rs]: the one canvas every core-drawn surface goes through. A canvas is
    the bytes of its buffer beside its size; [None] is a panic, an index out of
    range. What an operation does to a buffer is described byte by byte, as a
    map over it. *)

From S2P Require Import Prelude Capture Canvas.

(* ------------------------------------------------------------------------ *)
(** ** Rectangles *)

Record PRect : Type := { pr_x : Z; pr_y : Z; pr_w : Z; pr_h : Z }.
#[export] Instance PRect_eq_dec : EqDecision PRect.
Proof. solve_decision. Defined.

Definition rect (x y w h : Z) : PRect := {| pr_x := x; pr_y := y; pr_w := w; pr_h := h |}.

Definition rect_contains (r : PRect) (px py : Z) : bool :=
  let dx := px - pr_x r in
  let dy := py - pr_y r in
  (0 <=? dx) && (0 <=? dy) && (dx <? pr_w r) && (dy <? pr_h r).

Definition i32_min : Z := -2147483648.
Definition i32_clamp (v : Z) : Z := Z.min (Z.max v i32_min) 2147483647.

(** [centered]: half of the clamped remainder, rounded towards zero. *)
Definition centered (w h view_w view_h : Z) : Z * Z :=
  (Z.quot (i32_clamp (view_w - w)) 2, Z.quot (i32_clamp (view_h - h)) 2).

(* ------------------------------------------------------------------------ *)
(** ** The canvas *)

Abbreviation Pixels := (list Z) (only parsing).

(** [Canvas::new]: whether the buffer has the canvas's size. *)
Definition canvas_new (pixels : Pixels) (width height : Z) : bool :=
  Z.of_nat (length pixels) =? width * height * BYTES_PER_PIXEL.

(** [Canvas::over]. *)
Definition over_u8 (src dst alpha : Z) : Z :=
  let v := src * alpha + dst * (255 - alpha) in (v + 127) / 255.

Definition clip (width height : Z) (r : PRect) : option (nat * nat * nat * nat) :=
  let x0 := Z.max (pr_x r) 0 in
  let y0 := Z.max (pr_y r) 0 in
  let x1 := Z.min (pr_x r + pr_w r) width in
  let y1 := Z.min (pr_y r + pr_h r) height in
  if (x1 <=? x0) || (y1 <=? y0) then None
  else Some (Z.to_nat x0, Z.to_nat y0, Z.to_nat x1, Z.to_nat y1).

Section bytes.
Local Open Scope nat_scope.

(** [pixels[i] = v]. *)
Definition put (i : nat) (v : Z) (pixels : Pixels) : option Pixels :=
  if i <? length pixels then Some (<[i := v]> pixels) else None.

(** The three channels of [rgba] blended over the pixel at [off], which is
    left opaque. *)
Definition blend_at (off : nat) (rgba : list Z) (alpha : Z) (pixels : Pixels) : option Pixels :=
  pixels ← for_range 3 0 (fun c pixels =>
    src ← rgba !! c;
    dst ← pixels !! (off + c);
    put (off + c) (over_u8 src dst alpha) pixels) pixels;
  put (off + 3) 255%Z pixels.

End bytes.

Definition blend_pixel (width height x y : Z) (rgb : list Z) (alpha : Z) (pixels : Pixels) : option Pixels :=
  if alpha =? 0 then Some pixels
  else match clip width height (rect x y 1 1) with
       | None => Some pixels
       | Some (x0, y0, _, _) => blend_at ((y0 * Z.to_nat width + x0) * 4)%nat rgb alpha pixels
       end.

Definition fill_rect (width height : Z) (r : PRect) (rgba : list Z) (pixels : Pixels) : option Pixels :=
  match clip width height r with
  | None => Some pixels
  | Some (x0, y0, x1, y1) =>
      alpha ← rgba !! 3%nat;
      if alpha =? 0 then Some pixels
      else for_range (y1 - y0)%nat y0 (fun y =>
             let row := (y * Z.to_nat width)%nat in
             for_range (x1 - x0)%nat x0 (fun x => blend_at ((row + x) * 4)%nat rgba alpha)) pixels
  end.

(** [Canvas::offset]. *)
Definition offset_i32 (base delta : Z) : Z := i32_clamp (base + delta).

Definition stroke_rect (width height : Z) (r : PRect) (rgba : list Z) (thickness : Z)
    (pixels : Pixels) : option Pixels :=
  if thickness =? 0 then Some pixels
  else
    let t := Z.min (Z.min thickness (pr_w r)) (pr_h r) in
    pixels ← fill_rect width height (rect (pr_x r) (pr_y r) (pr_w r) t) rgba pixels;
    pixels ← fill_rect width height (rect (pr_x r) (offset_i32 (pr_y r) (pr_h r - t)) (pr_w r) t) rgba pixels;
    let middle := Z.max 0 (pr_h r - u32_mul 2 t) in
    if 0 <? middle then
      let y := offset_i32 (pr_y r) t in
      pixels ← fill_rect width height (rect (pr_x r) y t middle) rgba pixels;
      fill_rect width height (rect (offset_i32 (pr_x r) (pr_w r - t)) y t middle) rgba pixels
    else Some pixels.

(** [darken]: the table, then every whole pixel through it. *)
Definition darken_table (alpha : Z) : list Z :=
  List.map (fun dst => over_u8 0 (Z.of_nat dst) alpha) (seq 0 256).
Definition darken (alpha : Z) (pixels : Pixels) : option Pixels :=
  if alpha =? 0 then Some pixels
  else
    let table := darken_table alpha in
    for_range (length pixels / 4)%nat 0%nat (fun i pixels =>
      pixels ← for_range 3%nat 0%nat (fun c pixels =>
        v ← pixels !! (i * 4 + c)%nat;
        d ← table !! Z.to_nat v;
        put (i * 4 + c)%nat d pixels) pixels;
      put (i * 4 + 3)%nat 255 pixels) pixels.

Definition blit_opaque (width height : Z) (src : list Z) (sw sh dx dy : Z) (pixels : Pixels) : option Pixels :=
  if negb (Z.of_nat (length src) =? sw * sh * BYTES_PER_PIXEL) then Some pixels
  else match clip width height (rect dx dy sw sh) with
  | None => Some pixels
  | Some (x0, y0, x1, y1) =>
      let src_x := Z.to_nat (Z.of_nat x0 - dx) in
      let src_y := Z.to_nat (Z.of_nat y0 - dy) in
      let run := ((x1 - x0) * 4)%nat in
      for_range (y1 - y0)%nat 0%nat (fun row pixels =>
        let s := (((src_y + row) * Z.to_nat sw + src_x) * 4)%nat in
        let d := (((y0 + row) * Z.to_nat width + x0) * 4)%nat in
        line ← sub_slice s (s + run)%nat src;
        copy_into d (d + run)%nat line pixels) pixels
  end.

(* ------------------------------------------------------------------------ *)
(** ** Maps over a buffer *)

Section maps.
Local Open Scope nat_scope.

(** A canvas's buffer. *)
Definition buffer (len : nat) (out : Pixels) : Prop := length out = len /\ Forall is_u8 out.

(** A step that runs on every buffer of [len] bytes, sends byte [j] of value
    [v] to [F j v], and leaves a buffer. *)
Definition maps (len : nat) (F : nat -> Z -> Z) (f : Pixels -> option Pixels) : Prop :=
  forall out, buffer len out -> f out = Some (imap F out) /\ Forall is_u8 (imap F out).

Definition keep (j : nat) (v : Z) : Z := v.
Definition only (P : nat -> bool) (F : nat -> Z -> Z) (j : nat) (v : Z) : Z :=
  if P j then F j v else v.

Lemma imap_keep (l : list Z) : imap keep l = l.
Proof. apply list_eq. intros i. rewrite list_lookup_imap. by destruct (l !! i). Qed.

Lemma imap_ext_lt (F G : nat -> Z -> Z) (l : list Z) :
  (forall j v, j < length l -> l !! j = Some v -> F j v = G j v) -> imap F l = imap G l.
Proof.
  intros H. apply list_eq. intros i. rewrite !list_lookup_imap. destruct (l !! i) eqn:He; [|done].
  simpl. f_equal. apply H; [|done]. by apply lookup_lt_Some in He.
Qed.

Lemma maps_keep len : maps len keep Some.
Proof. intros out [_ Hu]. by rewrite imap_keep. Qed.

Lemma maps_then len F G f g :
  maps len F f -> maps len G g -> maps len (fun j v => G j (F j v)) (fun out => out ← f out; g out).
Proof.
  intros Hf Hg out [Hl Hu]. destruct (Hf out) as [-> Hu1]; [done|]. cbn [mbind option_bind].
  destruct (Hg (imap F out)) as [-> Hu2]; [by split; [rewrite length_imap|]|].
  replace (imap G (imap F out)) with (imap (fun j v => G j (F j v)) out) in * ; [done|].
  apply list_eq. intros i. rewrite !list_lookup_imap. by destruct (out !! i).
Qed.

Lemma maps_ext len F G f :
  maps len F f -> (forall j v, j < len -> F j v = G j v) -> maps len G f.
Proof.
  intros Hf Hext out [Hl Hu]. destruct (Hf out) as [-> Hu1]; [done|].
  replace (imap G out) with (imap F out); [done|]. apply imap_ext_lt. intros j v Hj _. apply Hext. lia.
Qed.

Lemma maps_fun len F f g : maps len F f -> (forall out, buffer len out -> g out = f out) -> maps len F g.
Proof. intros Hf Hg out Hb. rewrite Hg by done. by apply Hf. Qed.

Lemma maps_length len F f out out' : maps len F f -> buffer len out -> f out = Some out' -> buffer len out'.
Proof. intros Hf [Hl Hu] Ho. destruct (Hf out) as [He Hu1]; [done|]. simplify_eq. by split; [rewrite length_imap|]. Qed.

(** A step that maps the bytes it finds to bytes. *)
Lemma maps_intro len F f :
  (forall out, buffer len out -> f out = Some (imap F out)) -> (forall j v, j < len -> is_u8 v -> is_u8 (F j v)) ->
  maps len F f.
Proof.
  intros Hf Hb out [Hl Hu]. split; [by apply Hf|]. apply Forall_lookup. intros i v.
  rewrite list_lookup_imap. destruct (out !! i) eqn:He; [|done]. intros [= <-].
  apply Hb; [apply lookup_lt_Some in He; lia|]. by eapply Forall_lookup_1.
Qed.

Lemma maps_put len i (g : Z -> Z) :
  i < len -> (forall v, is_u8 v -> is_u8 (g v)) ->
  maps len (only (fun j => j =? i) (fun _ => g)) (fun px => v ← px !! i; put i (g v) px).
Proof.
  intros Hi Hg. apply maps_intro; [|intros j v _ Hv; unfold only; case_match; auto].
  intros out [Hl _]. destruct (lookup_lt_is_Some_2 out i) as [v Hv]; [lia|]. rewrite Hv.
  cbn [mbind option_bind]. unfold put. destruct (Nat.ltb_spec i (length out)); [|lia]. f_equal.
  apply list_eq. intros k. rewrite list_lookup_imap. unfold only. destruct (Nat.eqb_spec k i) as [->|Hk].
  - rewrite list_lookup_insert_eq by lia. by rewrite Hv.
  - rewrite list_lookup_insert_ne by done. by destruct (out !! k).
Qed.

(** A patch is a map. *)
Lemma puts_maps len P f :
  puts len P f -> (forall j v, P j = Some v -> is_u8 v) -> maps len (fun j v => default v (P j)) f.
Proof.
  intros Hf Hu. apply maps_intro; [|intros j v _ Hv; destruct (P j) eqn:He; [by apply (Hu j)|done]].
  intros out [Hl _]. destruct (Hf out Hl) as (out' & -> & Hl' & Hw). f_equal.
  apply list_eq_same_length with (n := length out); [by rewrite length_imap|done|].
  intros i x y Hi Hx Hy. rewrite list_lookup_imap in Hy. rewrite Hw in Hx by done.
  destruct (out !! i) as [v|] eqn:Hv; [|done]. simpl in Hy. destruct (P i); simplify_eq/=; done.
Qed.

(** A loop whose steps write disjoint bytes, [key] naming the step of a byte. *)
Lemma maps_for_range len F (key : nat -> nat) n from f :
  (forall i, from <= i < from + n -> maps len (F i) (f i)) ->
  (forall i j v, F i j v <> v -> key j = i) ->
  maps len (only (fun j => (from <=? key j) && (key j <? from + n)) (fun j => F (key j) j)) (for_range n from f).
Proof.
  revert from. induction n as [|n IH]; intros from Hf Hkey.
  - eapply maps_ext; [apply maps_keep|]. intros j v _. unfold keep, only.
    destruct (Nat.leb_spec from (key j)); [|done]. simpl. by destruct (Nat.ltb_spec (key j) (from + 0)); [lia|].
  - eapply maps_ext; [eapply (maps_then len (F from) _ (f from)); [apply Hf; lia|apply (IH (S from)); [|done]; intros i Hi; apply Hf; lia]|].
    intros j v _. unfold only. destruct (decide (key j = from)) as [<-|Hne].
    + rewrite (proj2 (Nat.leb_nle (S (key j)) (key j))) by lia. simpl.
      rewrite Nat.leb_refl. simpl. by rewrite (proj2 (Nat.ltb_lt (key j) (key j + S n))) by lia.
    + destruct (decide (F from j v = v)) as [->|Hc]; [|by apply Hkey in Hc].
      replace (S from <=? key j) with (from <=? key j)
        by (apply eq_true_iff_eq; rewrite !Nat.leb_le; lia).
      by replace (from + S n) with (S from + n) by lia.
Qed.
End maps.

(* ------------------------------------------------------------------------ *)
(** ** Pixels *)

(** The pixel of byte [j] in a buffer [w] pixels wide. *)
Definition px_x (w j : nat) : Z := Z.of_nat ((j / 4) mod w).
Definition px_y (w j : nat) : Z := Z.of_nat (j / 4 / w).

(** [rgba] over a byte. *)
Definition blend (rgba : list Z) (alpha : Z) (j : nat) (v : Z) : Z :=
  if (j mod 4 =? 3)%nat then 255 else over_u8 (default 0 (rgba !! (j mod 4)%nat)) v alpha.

Lemma over_u8_u8 src dst alpha : is_u8 src -> is_u8 dst -> is_u8 alpha -> is_u8 (over_u8 src dst alpha).
Proof.
  unfold is_u8, u8_max, over_u8. intros Hs Hd Ha. split; [apply Z.div_pos; nia|].
  assert ((src * alpha + dst * (255 - alpha) + 127) / 255 < 256); [|lia].
  apply Z.div_lt_upper_bound; [lia|]. nia.
Qed.

Lemma over_u8_opaque src dst : over_u8 src dst 255 = src.
Proof.
  unfold over_u8. rewrite Z.sub_diag, Z.mul_0_r, Z.add_0_r.
  symmetry. apply (Z.div_unique_pos _ _ _ 127); lia.
Qed.

Section drawing.
Local Open Scope nat_scope.

(** A colour: its channels, each a byte. *)
Definition colour (rgba : list Z) : Prop := 3 <= length rgba /\ Forall is_u8 rgba.

(** The three channels of a pixel, then its alpha. *)
Lemma pixel_maps len p (g : nat -> Z -> Z) (step : nat -> Pixels -> option Pixels) :
  p * 4 + 4 <= len ->
  (forall c, c < 3 -> maps len (only (fun j => j =? p * 4 + c) (fun _ => g c)) (step c)) ->
  maps len (only (fun j => j / 4 =? p) (fun j v => if j mod 4 =? 3 then 255%Z else g (j mod 4) v))
    (fun px => px ← for_range 3 0 step px; put (p * 4 + 3) 255%Z px).
Proof.
  intros Hp Hstep.
  set (F := fun c => only (fun j => j =? p * 4 + c) (fun _ => g c)).
  eapply maps_ext; [apply (maps_then len
     (only (fun j => (0 <=? j - p * 4) && (j - p * 4 <? 0 + 3)) (fun j => F (j - p * 4) j))
     (only (fun j => j =? p * 4 + 3) (fun _ _ => 255%Z)) (for_range 3 0 _) (put (p * 4 + 3) 255%Z))|].
  - apply (maps_for_range len F (fun j => j - p * 4)); [intros c Hc; apply Hstep; lia|].
    intros i j v. unfold F, only. destruct (Nat.eqb_spec j (p * 4 + i)); [lia|done].
  - eapply maps_fun; [apply (maps_put len (p * 4 + 3) (fun _ => 255%Z)); [lia|done]|].
    intros out [Hl _]. cbn beta. destruct (lookup_lt_is_Some_2 out (p * 4 + 3)) as [v ->]; [lia|done].
  - intros j v Hj. unfold F, only.
    pose proof (Nat.div_mod j 4). pose proof (Nat.mod_upper_bound j 4). cbv beta.
    destruct (Nat.eqb_spec (j / 4) p) as [<-|Hne].
    + replace (j / 4 * 4) with (4 * (j / 4)) in * by lia.
      assert (j - 4 * (j / 4) = j mod 4) as -> by lia. cbn [Nat.leb].
      destruct (Nat.eqb_spec (j mod 4) 3) as [He|He].
      * by rewrite (proj2 (Nat.eqb_eq j (4 * (j / 4) + 3))) by lia.
      * rewrite (proj2 (Nat.eqb_neq j (4 * (j / 4) + 3))) by lia.
        rewrite (proj2 (Nat.ltb_lt (j mod 4) (0 + 3))) by lia. cbn [andb].
        by rewrite (proj2 (Nat.eqb_eq j (4 * (j / 4) + j mod 4))) by lia.
    + rewrite (proj2 (Nat.eqb_neq j (p * 4 + 3))) by lia. case_match eqn:Hc; [|done].
      apply andb_prop in Hc as [_ Hc%Nat.ltb_lt].
      by rewrite (proj2 (Nat.eqb_neq j (p * 4 + (j - p * 4)))) by lia.
Qed.

Lemma blend_at_maps len p rgba alpha :
  p * 4 + 4 <= len -> colour rgba -> is_u8 alpha ->
  maps len (only (fun j => j / 4 =? p) (blend rgba alpha)) (blend_at (p * 4) rgba alpha).
Proof.
  intros Hp [Hr Hru] Ha. apply (pixel_maps len p (fun c v => over_u8 (default 0%Z (rgba !! c)) v alpha)); [done|].
  intros c Hc. destruct (lookup_lt_is_Some_2 rgba c) as [src Hsrc]; [lia|]. rewrite Hsrc.
  cbn [mbind option_bind default from_option id].
  apply (maps_put len (p * 4 + c) (fun v => over_u8 src v alpha)); [lia|].
  intros v Hv. apply over_u8_u8; [by eapply Forall_lookup_1|done..].
Qed.

(** A box of pixels, blended. *)
Lemma fill_box_maps len w x0 y0 x1 y1 rgba alpha :
  x1 <= w -> y1 * w * 4 <= len -> colour rgba -> is_u8 alpha ->
  maps len (only (fun j => (x0 <=? (j / 4) mod w) && ((j / 4) mod w <? x1) && (y0 <=? j / 4 / w) && (j / 4 / w <? y1))
              (blend rgba alpha))
    (for_range (y1 - y0) y0 (fun y =>
       let row := y * w in for_range (x1 - x0) x0 (fun x => blend_at ((row + x) * 4) rgba alpha))).
Proof.
  intros Hx Hlen Hr Ha. cbv zeta.
  set (G := fun y j v => if (x0 <=? j / 4 - y * w) && (j / 4 - y * w <? x0 + (x1 - x0)) && (j / 4 =? y * w + (j / 4 - y * w))
                         then blend rgba alpha j v else v).
  eapply maps_ext; [apply (maps_for_range len G (fun j => j / 4 / w))|].
  - intros y Hy. eapply maps_ext; [apply (maps_for_range len (fun x => only (fun j => j / 4 =? y * w + x) (blend rgba alpha)) (fun j => j / 4 - y * w))|].
    + intros x Hxx. apply blend_at_maps; [nia|done..].
    + intros x j v. unfold only. destruct (Nat.eqb_spec (j / 4) (y * w + x)); [lia|done].
    + intros j v _. unfold only, G. by destruct ((x0 <=? _) && _); simpl; [destruct (_ =? _)|].
  - intros y j v. unfold G. case_match eqn:Hc; [|done]. intros _.
    rewrite !andb_true_iff, Nat.leb_le, Nat.ltb_lt, Nat.eqb_eq in Hc. symmetry. apply (Nat.div_unique _ _ _ (j / 4 - y * w)); lia.
  - intros j v Hj. unfold only, G.
    destruct (decide (w = 0)) as [->|Hw].
    + assert (x1 = 0) as -> by lia. rewrite (proj2 (Nat.ltb_ge ((j / 4) mod 0) 0)) by apply Nat.le_0_l.
      rewrite andb_false_r. cbn [andb]. replace (x0 + (0 - x0)) with x0 by lia.
      destruct (Nat.leb_spec x0 (j / 4 - j / 4 / 0 * 0)); cbn [andb]; [|by case_match].
      rewrite (proj2 (Nat.ltb_ge (j / 4 - j / 4 / 0 * 0) x0)) by done. by case_match.
    + pose proof (Nat.div_mod (j / 4) w). pose proof (Nat.mod_upper_bound (j / 4) w).
      assert (j / 4 - j / 4 / w * w = (j / 4) mod w) as -> by lia.
      rewrite (proj2 (Nat.eqb_eq (j / 4) _)) by lia. rewrite andb_true_r.
      destruct (Nat.leb_spec y0 (j / 4 / w)); cbn [andb]; [|by rewrite andb_false_r].
      rewrite andb_true_r. destruct (Nat.ltb_spec (j / 4 / w) (y0 + (y1 - y0))).
      * rewrite (proj2 (Nat.ltb_lt (j / 4 / w) y1)) by lia. rewrite andb_true_r.
        destruct (Nat.leb_spec x0 ((j / 4) mod w)); cbn [andb]; [|done].
        assert (((j / 4) mod w <? x0 + (x1 - x0)) = ((j / 4) mod w <? x1)) as ->; [|done].
        apply eq_true_iff_eq. rewrite !Nat.ltb_lt. lia.
      * rewrite (proj2 (Nat.ltb_ge (j / 4 / w) y1)) by lia. by rewrite andb_false_r.
Qed.
End drawing.

(* ------------------------------------------------------------------------ *)
(** ** What each operation draws *)

Definition in_prect (w : nat) (r : PRect) (j : nat) : bool := rect_contains r (px_x w j) (px_y w j).
(** An opaque colour at a byte. *)
Definition solid (rgba : list Z) (j : nat) (_ : Z) : Z :=
  if (j mod 4 =? 3)%nat then 255 else default 0 (rgba !! (j mod 4)%nat).

Lemma blend_opaque rgba j v : blend rgba 255 j v = solid rgba j v.
Proof. unfold blend, solid. by rewrite over_u8_opaque. Qed.

Section operations.
Context (width height : Z) (Hw : 0 <= width) (Hh : 0 <= height).
Let w := Z.to_nat width.
Let len := (Z.to_nat height * w * 4)%nat.

Lemma canvas_new_buffer out : canvas_new out width height = true <-> length out = len.
Proof using Hw Hh. unfold canvas_new, BYTES_PER_PIXEL, len, w. rewrite Z.eqb_eq. split; intros H; nia. Qed.

Lemma px_y_lt j : (j < len)%nat -> 0 <= px_x w j < width /\ 0 <= px_y w j < height.
Proof using Hw Hh.
  unfold px_x, px_y, len. intros Hj. assert (w <> 0)%nat by nia.
  pose proof (Nat.mod_upper_bound (j / 4) w). unfold w in *.
  assert (j / 4 < Z.to_nat height * Z.to_nat width)%nat by (apply Nat.Div0.div_lt_upper_bound; lia).
  assert (j / 4 / Z.to_nat width < Z.to_nat height)%nat by (apply Nat.Div0.div_lt_upper_bound; lia). lia.
Qed.

Lemma clip_spec r :
  match clip width height r with
  | None => forall j, (j < len)%nat -> in_prect w r j = false
  | Some (x0, y0, x1, y1) =>
      (x0 < x1 /\ y0 < y1 /\ x1 <= w /\ y1 <= Z.to_nat height)%nat
      /\ Z.of_nat x0 = Z.max (pr_x r) 0 /\ Z.of_nat y0 = Z.max (pr_y r) 0
      /\ Z.of_nat x1 = Z.min (pr_x r + pr_w r) width /\ Z.of_nat y1 = Z.min (pr_y r + pr_h r) height
  end.
Proof using Hw Hh.
  unfold clip. cbv zeta. destruct (_ || _) eqn:Hc.
  - intros j Hj. destruct (px_y_lt j Hj). unfold in_prect, rect_contains.
    apply orb_true_iff in Hc. rewrite !Z.leb_le in Hc. apply not_true_iff_false.
    rewrite !andb_true_iff, !Z.leb_le, !Z.ltb_lt. lia.
  - apply orb_false_iff in Hc as [H1%Z.leb_gt H2%Z.leb_gt]. unfold w. lia.
Qed.

Lemma in_box r j x0 y0 x1 y1 :
  (j < len)%nat -> clip width height r = Some (x0, y0, x1, y1) ->
  ((x0 <=? (j / 4) mod w) && ((j / 4) mod w <? x1) && (y0 <=? j / 4 / w) && (j / 4 / w <? y1))%nat = in_prect w r j.
Proof using Hw Hh.
  intros Hj Hc. pose proof (clip_spec r) as Hs. rewrite Hc in Hs. destruct (px_y_lt j Hj) as [Hx Hy].
  unfold in_prect, rect_contains, px_x, px_y in *. apply eq_true_iff_eq.
  rewrite !andb_true_iff, !Nat.leb_le, !Nat.ltb_lt, !Z.leb_le, !Z.ltb_lt. lia.
Qed.

Lemma fill_rect_maps r rgba alpha :
  colour rgba -> rgba !! 3%nat = Some alpha ->
  maps len (only (fun j => in_prect w r j && negb (alpha =? 0)) (blend rgba alpha)) (fill_rect width height r rgba).
Proof using Hw Hh.
  intros Hc Ha. assert (is_u8 alpha) by (destruct Hc; by eapply Forall_lookup_1).
  unfold fill_rect. pose proof (clip_spec r) as Hs.
  destruct (clip width height r) as [[[[x0 y0] x1] y1]|] eqn:Hr.
  - rewrite Ha. cbn [mbind option_bind]. destruct (Z.eqb_spec alpha 0) as [->|Hne].
    + eapply maps_ext; [apply maps_keep|]. intros j v _. unfold only. by rewrite andb_false_r.
    + eapply maps_ext; [apply (fill_box_maps len w x0 y0 x1 y1); [lia|unfold len; nia|done..]|].
      intros j v Hj. unfold only. rewrite (in_box r) by done. by rewrite andb_true_r.
  - eapply maps_ext; [apply maps_keep|]. intros j v Hj. unfold only. by rewrite Hs.
Qed.

(** A solid colour. *)
Definition opaque (rgba : list Z) : Prop := colour rgba /\ rgba !! 3%nat = Some 255.

Lemma fill_opaque_maps r rgba :
  opaque rgba -> maps len (only (in_prect w r) (solid rgba)) (fill_rect width height r rgba).
Proof using Hw Hh.
  intros [Hc Ha]. eapply maps_ext; [by apply (fill_rect_maps r)|]. intros j v _.
  unfold only. cbn [negb Z.eqb]. rewrite andb_true_r. case_match; [apply blend_opaque|done].
Qed.

(** The outline of a rectangle: in it, and not in what is left inside. *)
Definition ring (r : PRect) (t : Z) (j : nat) : bool :=
  in_prect w r j && negb (in_prect w (rect (pr_x r + t) (pr_y r + t) (pr_w r - 2 * t) (pr_h r - 2 * t)) j).

Definition fits_i32 (z : Z) : Prop := i32_min <= z <= 2147483647.
Lemma i32_clamp_id z : fits_i32 z -> i32_clamp z = z.
Proof. unfold fits_i32, i32_clamp, i32_min. lia. Qed.

Lemma stroke_opaque_maps r rgba t :
  opaque rgba -> 0 < t <= 1073741824 -> 0 <= pr_w r -> 0 <= pr_h r ->
  fits_i32 (pr_x r) -> fits_i32 (pr_y r) -> fits_i32 (pr_x r + pr_w r) -> fits_i32 (pr_y r + pr_h r) ->
  maps len (only (ring r t) (solid rgba)) (stroke_rect width height r rgba t).
Proof using Hw Hh.
  intros Ho Ht Hrw Hrh Hx Hy Hxw Hyh. unfold stroke_rect. rewrite (proj2 (Z.eqb_neq t 0)) by lia.
  set (t' := Z.min (Z.min t (pr_w r)) (pr_h r)). cbv zeta.
  unfold fits_i32, i32_min in *.
  unfold offset_i32. rewrite !i32_clamp_id by (unfold fits_i32, i32_min; lia).
  assert (u32_mul 2 t' = 2 * t') as -> by (unfold u32_mul, u32_max; apply Z.mod_small; lia).
  assert (forall r1 r2 r3 r4, maps len (only (fun j => in_prect w r1 j || in_prect w r2 j || in_prect w r3 j || in_prect w r4 j) (solid rgba))
    (fun px => px ← fill_rect width height r1 rgba px; px ← fill_rect width height r2 rgba px;
       px ← fill_rect width height r3 rgba px; fill_rect width height r4 rgba px)) as H4.
  { intros r1 r2 r3 r4. eapply maps_ext;
      [do 3 (eapply maps_then; [by apply fill_opaque_maps|]); by apply fill_opaque_maps|].
    intros j v _. unfold only, solid. by destruct (in_prect w r1 j), (in_prect w r2 j), (in_prect w r3 j), (in_prect w r4 j). }
  destruct (Z.ltb_spec 0 (Z.max 0 (pr_h r - 2 * t'))) as [Hm|Hm].
  - eapply maps_ext; [apply H4|]. intros j v _. unfold only.
    match goal with |- (if ?b then _ else _) = (if ?c then _ else _) => assert (b = c) as ->; [|done] end.
    unfold ring, in_prect, rect_contains. cbn [rect pr_x pr_y pr_w pr_h]. apply eq_true_iff_eq.
    rewrite !orb_true_iff, !andb_true_iff, negb_true_iff, <- not_true_iff_false, !andb_true_iff, !Z.leb_le, !Z.ltb_lt. lia.
  - eapply maps_ext; [do 2 (eapply maps_then; [by apply fill_opaque_maps|]); apply maps_keep|]. intros j v _. unfold keep, only.
    assert (forall a b c : bool, c = a || b -> (if b then solid rgba j (if a then solid rgba j v else v) else if a then solid rgba j v else v)
       = if c then solid rgba j v else v) as Hab by (intros [] [] [] ?; done). apply Hab.
    unfold ring, in_prect, rect_contains. cbn [rect pr_x pr_y pr_w pr_h]. apply eq_true_iff_eq.
    rewrite !orb_true_iff, !andb_true_iff, negb_true_iff, <- not_true_iff_false, !andb_true_iff, !Z.leb_le, !Z.ltb_lt. lia.
Qed.

(** A canvas darkened: every channel of every pixel, blended with black. *)
Lemma darken_maps alpha :
  is_u8 alpha ->
  maps len (fun j v => if alpha =? 0 then v else if (j mod 4 =? 3)%nat then 255 else over_u8 0 v alpha) (darken alpha).
Proof using Hw Hh.
  intros Ha. unfold darken. destruct (Z.eqb_spec alpha 0) as [->|Hne]; [apply maps_keep|]. cbv zeta.
  set (step := fun i px => px ← for_range 3 0 _ px; _).
  eapply (maps_fun len _ (for_range (Z.to_nat height * w)%nat 0%nat step));
    [|intros out [Hl _]; rewrite Hl; unfold len; by rewrite Nat.div_mul].
  eapply maps_ext; [apply (maps_for_range len (fun i => only (fun j => j / 4 =? i)%nat
    (fun j v => if (j mod 4 =? 3)%nat then 255 else over_u8 0 v alpha)) (fun j => j / 4)%nat)|].
  - intros i Hi. apply (pixel_maps len i (fun _ v => over_u8 0 v alpha)); [unfold len; nia|].
    intros c Hc. assert (i * 4 + c < len)%nat by (unfold len; nia).
    eapply maps_fun; [apply (maps_put len (i * 4 + c) (fun v => over_u8 0 v alpha)); [done|]|].
    + intros v Hv. by apply over_u8_u8.
    + intros px [Hpl Hpu]. cbv beta. destruct (lookup_lt_is_Some_2 px (i * 4 + c)) as [v Hv]; [lia|]. rewrite Hv.
      cbn [mbind option_bind]. assert (is_u8 v) as [] by (by eapply Forall_lookup_1).
      unfold darken_table, u8_max in *. rewrite list_lookup_fmap, lookup_seq_lt by lia.
      simpl. do 2 f_equal. lia.
  - intros i j v. unfold only. destruct (Nat.eqb_spec (j / 4) i); [done|by intros []].
  - intros j v Hj. unfold only. rewrite Nat.eqb_refl, (proj2 (Nat.ltb_lt _ _)); [done|].
    apply Nat.Div0.div_lt_upper_bound. unfold len in Hj. lia.
Qed.

(** Where a source byte lands. *)
Definition blitted (src : list Z) (sw dx dy : Z) (j : nat) (_ : Z) : Z :=
  default 0 (src !! ((Z.to_nat (px_y w j - dy) * Z.to_nat sw + Z.to_nat (px_x w j - dx)) * 4 + j mod 4)%nat).

Lemma blit_opaque_maps src sw sh dx dy :
  0 <= sw -> 0 <= sh -> Forall is_u8 src ->
  Z.of_nat (length src) = sw * sh * BYTES_PER_PIXEL ->
  maps len (only (in_prect w (rect dx dy sw sh)) (blitted src sw dx dy)) (blit_opaque width height src sw sh dx dy).
Proof using Hw Hh.
  intros Hsw Hsh Hu Hlen. unfold blit_opaque. rewrite (proj2 (Z.eqb_eq _ _)) by done. cbn [negb].
  pose proof (clip_spec (rect dx dy sw sh)) as Hs.
  destruct (clip width height (rect dx dy sw sh)) as [[[[x0 y0] x1] y1]|] eqn:Hr;
    [|eapply maps_ext; [apply maps_keep|]; intros j v Hj; unfold only; by rewrite Hs].
  destruct Hs as (Hlt & Hx0 & Hy0 & Hx1 & Hy1). cbn [rect pr_x pr_y pr_w pr_h] in *. cbv zeta.
  set (sx := Z.to_nat (Z.of_nat x0 - dx)). set (sy := Z.to_nat (Z.of_nat y0 - dy)).
  set (run := ((x1 - x0) * 4)%nat).
  set (d := fun row => (((y0 + row) * w + x0) * 4)%nat). set (s := fun row => (((sy + row) * Z.to_nat sw + sx) * 4)%nat).
  set (F := fun row j v => default v (span (d row) (d row + run) (fun k => take run (drop (s row) src) !! k) j)).
  assert (forall row, (row < y1 - y0)%nat -> (s row + run <= length src)%nat) as Hsrc.
  { intros row Hrow. unfold s, run, sx, sy, BYTES_PER_PIXEL in *. nia. }
  eapply maps_ext; [apply (maps_for_range len F (fun j => j / 4 / w - y0)%nat)|].
  - intros row Hrow. eapply maps_fun; [apply puts_maps;
      [apply (copy_into_puts len (d row) (d row + run)%nat (take run (drop (s row) src)))|]|].
    + unfold d, run, len. nia.
    + specialize (Hsrc row). rewrite length_take, length_drop. lia.
    + intros j v. unfold span. case_decide; [|done]. intros Hv.
      apply lookup_take_Some in Hv as [Hv _]. rewrite lookup_drop in Hv. by eapply Forall_lookup_1.
    + intros px _. unfold sub_slice. specialize (Hsrc row). fold (s row) (d row).
      rewrite (proj2 (Nat.leb_le (s row) (s row + run))) by lia. rewrite (proj2 (Nat.leb_le (s row + run) _)) by lia.
      cbn [andb mbind option_bind]. by replace (s row + run - s row)%nat with run by lia.
  - intros i j v. unfold F, span. case_decide as Hd; [|done]. intros _. unfold d, run in Hd.
    assert (j / 4 / w = y0 + i)%nat; [|lia].
    assert (w <> 0)%nat by lia. pose proof (Nat.div_mod j 4). pose proof (Nat.mod_upper_bound j 4).
    symmetry. apply (Nat.div_unique _ _ _ (j / 4 - (y0 + i) * w)); lia.
  - intros j v Hj. unfold only. rewrite <- (in_box (rect dx dy sw sh) j x0 y0 x1 y1) by done.
    pose proof (Nat.div_mod j 4 ltac:(done)) as Hj4. pose proof (Nat.mod_upper_bound j 4 ltac:(done)) as Hc4.
    assert (w <> 0)%nat as Hw0 by (clear - Hlt; lia).
    pose proof (Nat.div_mod (j / 4) w Hw0) as Hjw. pose proof (Nat.mod_upper_bound (j / 4) w Hw0) as HXw.
    unfold blitted, px_x, px_y, F, span, d.
    set (X := ((j / 4) mod w)%nat) in *. set (Y := (j / 4 / w)%nat) in *.
    generalize dependent (j / 4)%nat. intros p Hp X Y HpXY HXw.
    clearbody X Y. generalize dependent (j mod 4)%nat. intros c Hc Hjc.
    destruct (decide (x0 <= X < x1 /\ y0 <= Y < y1)%nat) as [[HX HY]|Hout].
    + rewrite (proj2 (Nat.leb_le x0 X)), (proj2 (Nat.ltb_lt X x1)), (proj2 (Nat.leb_le y0 Y)), (proj2 (Nat.ltb_lt Y y1)),
        (proj2 (Nat.ltb_lt (Y - y0) (0 + (y1 - y0)))) by (clear - HX HY; lia). cbn [andb Nat.leb].
      replace (y0 + (Y - y0))%nat with Y by (clear - HY; lia).
      assert (j - (Y * w + x0) * 4 = (X - x0) * 4 + c)%nat as HjX by (clear - HX HpXY Hjc; nia).
      rewrite decide_True by (unfold run; clear - HX HpXY Hjc Hc; nia). rewrite HjX.
      rewrite lookup_take_lt, lookup_drop by (unfold run; clear - HX Hc; lia).
      specialize (Hsrc (Y - y0)%nat ltac:(clear - HY; lia)). unfold s, run in *.
      assert (Z.to_nat (Z.of_nat Y - dy) = sy + (Y - y0))%nat as -> by (unfold sy; clear - HY Hy0; lia).
      assert (Z.to_nat (Z.of_nat X - dx) = sx + (X - x0))%nat as -> by (unfold sx; clear - HX Hx0; lia).
      replace (((sy + (Y - y0)) * Z.to_nat sw + sx) * 4 + ((X - x0) * 4 + c))%nat
        with (((sy + (Y - y0)) * Z.to_nat sw + (sx + (X - x0))) * 4 + c)%nat by (clear; lia).
      destruct (lookup_lt_is_Some_2 src (((sy + (Y - y0)) * Z.to_nat sw + (sx + (X - x0))) * 4 + c)%nat) as [b ->]; [|done].
      clear - Hsrc HX Hc. lia.
    + assert (((x0 <=? X) && (X <? x1) && (y0 <=? Y) && (Y <? y1))%nat = false) as ->.
      { clear - Hout. apply not_true_iff_false. rewrite !andb_true_iff, !Nat.leb_le, !Nat.ltb_lt. lia. }
      case_match eqn:Hk; [|done]. apply andb_prop in Hk as [_ Hk%Nat.ltb_lt].
      rewrite decide_False; [done|]. unfold run. intros Hd. apply Hout.
      assert (Y = y0 + (Y - y0))%nat as HYe; [|clear - Hd HYe Hlt Hk Hc Hjc HpXY HXw; nia].
      clear - Hd Hlt HpXY HXw Hjc Hc Hk. nia.
Qed.
End operations.

(** Where the top and bottom bars meet, [t < h < 2 * t], their shared rows are
    blended twice: a translucent outline of a box three pixels high is not the
    filled box. *)
Example stroke_blends_twice :
  let black := replicate 48 0 in
  let veil := [255; 255; 255; 128] in
  stroke_rect 4 3 (rect 0 0 4 3) veil 2 black <> fill_rect 4 3 (rect 0 0 4 3) veil black /\
  ((fun px => (px !! 0%nat, px !! 16%nat, px !! 32%nat)) <$> stroke_rect 4 3 (rect 0 0 4 3) veil 2 black)
    = Some (Some 128, Some 192, Some 128).
Proof. vm_compute. by split. Qed.
