(* ===== verification/Lettering.v ===== *)
(** * Text on a surface

    [crates/vitrin-core/src/paint/text.rs]: measuring, wrapping, eliding and drawing
    the lines of every core-drawn surface. The vector face is [fontdue]'s, an
    argument; the bitmap atlas comes first. An [f32] is the Standard Library's
    [spec_float] at binary32, a pixel size its bits. The glyph cache holds what
    [glyph_of] computes and is left out. *)

From Stdlib Require Import SpecFloat.
From S2P Require Import Prelude Text Canvas Transcript Atlas Paint.

(* ------------------------------------------------------------------------ *)
(** ** Single-precision floats *)

Definition f32 := spec_float.
Definition f32_add : f32 -> f32 -> f32 := SFadd 24 128.
Definition f32_mul : f32 -> f32 -> f32 := SFmul 24 128.
Definition f32_zero : f32 := S754_zero false.
Definition f32_of_bits (bits : Z) : f32 :=
  let negative := 2147483648 <=? bits in
  let exponent := Z.land (Z.shiftr bits 23) 255 in
  let mantissa := Z.land bits 8388607 in
  if exponent =? 255 then (if mantissa =? 0 then S754_infinity negative else S754_nan)
  else if exponent =? 0 then
    match mantissa with Zpos m => S754_finite negative m (-149) | _ => S754_zero negative end
  else S754_finite negative (Z.to_pos (mantissa + 8388608)) (exponent - 150).

(** [max(0.0)]: not a number is zero. *)
Definition f32_max_zero (x : f32) : f32 :=
  match x with S754_finite true _ _ | S754_infinity true | S754_nan => f32_zero | _ => x end.

(** [round], half away from zero, and [ceil], on the way to an integer. *)
Definition f32_round (m : positive) (e : Z) : Z :=
  if 0 <=? e then Zpos m * 2 ^ e else (Zpos m + 2 ^ (- e - 1)) / 2 ^ (- e).
Definition f32_ceil (negative : bool) (m : positive) (e : Z) : Z :=
  let v := if negative then - Zpos m else Zpos m in
  if 0 <=? e then v * 2 ^ e else - ((- v) / 2 ^ (- e)).
Definition u32_clamp (v : Z) : Z := Z.min (Z.max v 0) u32_max.

Definition round_i32 (x : f32) : Z :=
  match x with
  | S754_finite negative m e => i32_clamp (if negative then - f32_round m e else f32_round m e)
  | S754_infinity negative => if negative then i32_min else 2147483647
  | _ => 0
  end.
Definition round_u32 (x : f32) : Z :=
  match x with
  | S754_finite negative m e => u32_clamp (if negative then - f32_round m e else f32_round m e)
  | S754_infinity negative => if negative then 0 else u32_max
  | _ => 0
  end.
Definition ceil_u32 (x : f32) : Z :=
  match x with
  | S754_finite negative m e => u32_clamp (f32_ceil negative m e)
  | S754_infinity negative => if negative then 0 else u32_max
  | _ => 0
  end.

Definition i32_wrap (z : Z) : Z := (z + 2147483648) mod 4294967296 - 2147483648.

(* ------------------------------------------------------------------------ *)
(** ** Glyphs *)

Definition NAME_PX : Z := PX_BITS.
Definition SUBSTITUTE : Z := 63.
Definition BREAK_AFTER : Str := str "/-_.:".
Definition ELLIPSIS : Str := str "...".

Record Glyph : Type := {
  gl_xmin : Z; gl_ymin : Z; gl_width : nat; gl_height : nat; gl_advance : f32; gl_coverage : list Z }.
Record LineMetrics : Type := { lm_ascent : Z; lm_height : Z }.

(** What the core asks of the face: a character's raster at a size, whether it
    has a glyph for one, and the ascent and line size. *)
Record Face : Type := {
  fc_rasterize : Z -> Z -> Glyph;
  fc_covers : Z -> bool;
  fc_line : Z -> option (f32 * f32) }.

Definition renderable (c : Z) : Z := if between 32 126 c then c else SUBSTITUTE.

Section lettering.
Context (face : Face) (atlas : Atlas).

(** [Text::glyph]. *)
Definition glyph_of (c px : Z) : Glyph :=
  match Atlas.glyph atlas c px with
  | Some g =>
      {| gl_xmin := rd_xmin g; gl_ymin := rd_ymin g; gl_width := rd_width g; gl_height := rd_height g;
         gl_advance := f32_of_bits (rd_advance g); gl_coverage := rd_coverage g |}
  | None => fc_rasterize face (if Atlas.covers atlas c then SUBSTITUTE else c) px
  end.

(** One glyph's coverage blended onto a canvas of [cw] by [ch]. *)
Definition stamp (cw ch : Z) (g : Glyph) (gx gy : Z) (rgb : list Z) : Pixels -> option Pixels :=
  for_range (gl_height g) 0 (fun row =>
    for_range (gl_width g) 0 (fun col pixels =>
      alpha ← gl_coverage g !! (row * gl_width g + col)%nat;
      blend_pixel cw ch (i32_wrap (gx + Z.of_nat col)) (i32_wrap (gy + Z.of_nat row)) rgb alpha pixels)).

(** [pen_run]: where the pen comes to, and the pixels, the canvas being optional. *)
Fixpoint pen_run (canvas : option (Z * Z)) (chars : list (Z * list Z)) (px x baseline : Z) (pen : f32)
    (pixels : Pixels) : f32 * option Pixels :=
  match chars with
  | [] => (pen, Some pixels)
  | (c, rgb) :: chars =>
      let g := glyph_of c px in
      let drawn :=
        match canvas with
        | None => Some pixels
        | Some (cw, ch) =>
            let gx := i32_wrap (i32_wrap (x + round_i32 pen) + gl_xmin g) in
            let gy := i32_wrap (i32_wrap (baseline - gl_ymin g) - i32_wrap (Z.of_nat (gl_height g))) in
            stamp cw ch g gx gy rgb pixels
        end in
      let pen := f32_add pen (gl_advance g) in
      match drawn with
      | None => (pen, None)
      | Some pixels => pen_run canvas chars px x baseline pen pixels
      end
  end.

(** A measuring pass. *)
Definition measure (s : Str) (px : Z) : Z :=
  round_u32 (f32_max_zero (pen_run None (List.map (fun c => (c, [0; 0; 0])) s) px 0 0 f32_zero []).1).
Definition width (s : Str) (px : Z) : Z := measure (List.map renderable s) px.
Definition width_vetted (s : Str) : Z := measure s NAME_PX.

Definition line_metrics (px : Z) : LineMetrics :=
  match fc_line face px with
  | Some (ascent, size) =>
      {| lm_ascent := ceil_u32 (f32_max_zero ascent); lm_height := ceil_u32 (f32_max_zero size) |}
  | None =>
      {| lm_ascent := ceil_u32 (f32_of_bits px);
         lm_height := ceil_u32 (f32_mul (f32_of_bits px) (f32_of_bits 1067030938)) |}
  end.

Definition draw (cw ch : Z) (s : Str) (px x baseline : Z) (rgb : list Z) (pixels : Pixels) : option Pixels :=
  (pen_run (Some (cw, ch)) (List.map (fun c => (renderable c, rgb)) s) px x baseline f32_zero pixels).2.

(** [draw_runs], the pen carried across the runs. *)
Fixpoint draw_runs (cw ch : Z) (runs : list (Str * list Z)) (x baseline : Z) (pen : f32) (pixels : Pixels)
    : option (Z * Pixels) :=
  match runs with
  | [] => Some (round_u32 (f32_max_zero pen), pixels)
  | (run, rgb) :: runs =>
      let '(pen, drawn) := pen_run (Some (cw, ch)) (List.map (fun c => (c, rgb)) run) NAME_PX x baseline pen pixels in
      pixels ← drawn; draw_runs cw ch runs x baseline pen pixels
  end.

(** [Vetted::new]. *)
Definition vetted (s : Str) : bool :=
  forallb (fun c => negb (bool_decide (Transcript.route (fc_covers face) (Atlas.covers atlas) c = Transcript.Escape))) s.

(** [elide_vetted]: the bytes of the longest prefix that fits with its ellipsis,
    counted to the first character that does not. *)
Fixpoint elide_loop (max_w : Z) (shown rest : Str) (cut : Z) : Z :=
  match rest with
  | [] => cut
  | c :: rest =>
      let shown := shown ++ [c] in
      if max_w <? measure (shown ++ ELLIPSIS) NAME_PX then cut
      else elide_loop max_w shown rest (str_len shown)
  end.
Definition elide_vetted (s : Str) (max_w : Z) : option Z :=
  if width_vetted s <=? max_w then None else Some (elide_loop max_w [] s 0).

(* ------------------------------------------------------------------------ *)
(** ** Wrapping *)

(** How many characters end at the last break, if there is one. *)
Fixpoint break_point (s : Str) : option nat :=
  match s with
  | [] => None
  | c :: s =>
      match break_point s with
      | Some n => Some (S n)
      | None => if (c =? 32) || contains_char BREAK_AFTER c then Some 1%nat else None
      end
  end.
Definition split_at_break (current : Str) : Str * Str :=
  match break_point current with
  | Some n => if (n <? length current)%nat then (take n current, drop n current) else (current, [])
  | None => (current, [])
  end.

(** [truncate_last]'s loop, [fitted] popped from its end. *)
Fixpoint fit_ellipsis (px max_width : Z) (rev_fitted : Str) : Str :=
  let candidate := reverse rev_fitted ++ ELLIPSIS in
  match rev_fitted with
  | [] => candidate
  | _ :: popped => if width candidate px <=? max_width then candidate else fit_ellipsis px max_width popped
  end.
Definition truncate_last (px max_width : Z) (lines : list Str) : list Str :=
  match reverse lines with
  | [] => lines
  | last :: before => reverse before ++ [fit_ellipsis px max_width (reverse last)]
  end.

Fixpoint wrap_loop (px max_width : Z) (max_lines : nat) (s : Str) (lines : list Str) (current : Str) : list Str :=
  match s with
  | [] =>
      let lines := if negb (bool_decide (current = [])) || bool_decide (lines = []) then lines ++ [current] else lines in
      if (max_lines <? length lines)%nat then truncate_last px max_width (take max_lines lines) else lines
  | c :: s =>
      let candidate := current ++ [c] in
      if (width candidate px <=? max_width) || bool_decide (current = [])
      then wrap_loop px max_width max_lines s lines candidate
      else
        let '(head, carry) := split_at_break current in
        let lines := lines ++ [trim_end head] in
        if bool_decide (length lines = max_lines) then truncate_last px max_width lines
        else
          let seeded := carry ++ [c] in
          if (width seeded px <=? max_width) || bool_decide (carry = [])
          then wrap_loop px max_width max_lines s lines seeded
          else
            let lines := lines ++ [trim_end carry] in
            if bool_decide (length lines = max_lines) then truncate_last px max_width lines
            else wrap_loop px max_width max_lines s lines [c]
  end.
Definition wrap (s : Str) (px max_width : Z) (max_lines : nat) : list Str :=
  if bool_decide (max_lines = 0%nat) || (max_width =? 0) then [] else wrap_loop px max_width max_lines s [] [].

End lettering.

(* ------------------------------------------------------------------------ *)
(** ** What a wrapped line keeps *)

(** The characters of a text that leave ink. *)
Definition ink (s : Str) : Str := List.filter (fun c => negb (is_whitespace c)) s.
Definition inks (lines : list Str) : Str := flat_map ink lines.

(** The lines show all of the text, or their last one ends in the ellipsis and
    the rest is how the text begins. *)
Definition shows (text : Str) (lines : list Str) : Prop :=
  inks lines = text
  \/ exists before p, lines = before ++ [p ++ ELLIPSIS] /\ (inks before ++ ink p) `prefix_of` text.

Lemma ink_app s t : ink (s ++ t) = ink s ++ ink t.
Proof. apply List.filter_app. Qed.
Lemma inks_app a b : inks (a ++ b) = inks a ++ inks b.
Proof. apply flat_map_app. Qed.
Lemma inks_snoc a s : inks (a ++ [s]) = inks a ++ ink s.
Proof. rewrite inks_app. simpl. by rewrite app_nil_r. Qed.

Lemma ink_trim_start s : ink (trim_start s) = ink s.
Proof. induction s as [|c s IH]; simpl; [done|]. by destruct (is_whitespace c) eqn:Hc; simpl; rewrite ?Hc. Qed.
Lemma ink_reverse s : ink (reverse s) = reverse (ink s).
Proof.
  induction s as [|c s IH]; [done|]. rewrite reverse_cons, ink_app, IH. simpl.
  destruct (is_whitespace c); simpl; [by rewrite app_nil_r|by rewrite reverse_cons].
Qed.
Lemma ink_trim_end s : ink (trim_end s) = ink s.
Proof. unfold trim_end. by rewrite ink_reverse, ink_trim_start, ink_reverse, reverse_involutive. Qed.

Lemma split_at_break_app s : (split_at_break s).1 ++ (split_at_break s).2 = s.
Proof.
  unfold split_at_break. destruct (break_point s); [case_match; [apply take_drop|]|]; by rewrite app_nil_r.
Qed.

#[export] Hint Rewrite ink_app inks_app inks_snoc ink_trim_end : vitrin_ink.

Section wrapping.
Context (face : Face) (atlas : Atlas) (px max_width : Z).

Lemma fit_ellipsis_spec rev_fitted :
  exists p, fit_ellipsis face atlas px max_width rev_fitted = p ++ ELLIPSIS /\ p `prefix_of` reverse rev_fitted
    /\ (width face atlas (p ++ ELLIPSIS) px <= max_width \/ p = []).
Proof.
  induction rev_fitted as [|c popped IH]; cbn [fit_ellipsis].
  - exists []. auto.
  - destruct (Z.leb_spec (width face atlas (reverse (c :: popped) ++ ELLIPSIS) px) max_width); [by eauto|].
    destruct IH as (p & -> & Hp & Hw). exists p. split_and!; [done| |done].
    rewrite reverse_cons. by apply prefix_app_r.
Qed.

Lemma truncate_last_shows lines last text :
  inks (lines ++ [last]) `prefix_of` text ->
  shows text (truncate_last face atlas px max_width (lines ++ [last]))
  /\ length (truncate_last face atlas px max_width (lines ++ [last])) = S (length lines).
Proof.
  intros Hp. unfold truncate_last. rewrite reverse_snoc.
  rewrite reverse_involutive. destruct (fit_ellipsis_spec (reverse last)) as (p & -> & Hpre & _).
  rewrite reverse_involutive in Hpre. split; [|rewrite length_app; simpl; lia].
  right. exists lines, p. split; [done|]. etrans; [|exact Hp]. rewrite inks_snoc.
  apply prefix_app. destruct Hpre as [k ->]. rewrite ink_app. by apply prefix_app_r.
Qed.

Lemma wrap_loop_shows max_lines s lines current :
  (length lines < max_lines)%nat ->
  let result := wrap_loop face atlas px max_width max_lines s lines current in
  shows (inks lines ++ ink current ++ ink s) result /\ (length result <= max_lines)%nat.
Proof.
  revert lines current. induction s as [|c s IH]; intros lines current Hlen; cbv zeta; cbn [wrap_loop].
  - destruct (negb (bool_decide (current = [])) || bool_decide (lines = [])) eqn:Hc.
    + rewrite length_app. cbn [length]. destruct (Nat.ltb_spec max_lines (length lines + 1)); [lia|].
      split; [left; by autorewrite with vitrin_ink; rewrite app_nil_r|rewrite length_app; simpl; lia].
    + destruct (Nat.ltb_spec max_lines (length lines)); [lia|]. split; [left|lia].
      apply orb_false_elim in Hc as [Hc _]. apply negb_false_iff, bool_decide_eq_true in Hc as ->.
      simpl. by rewrite app_nil_r.
  - assert (ink (c :: s) = ink [c] ++ ink s) as -> by apply (ink_app [c]).
    destruct ((width face atlas (current ++ [c]) px <=? max_width) || bool_decide (current = [])).
    { specialize (IH lines (current ++ [c]) Hlen). by rewrite ink_app, <- app_assoc in IH. }
    pose proof (split_at_break_app current) as Hsplit.
    destruct (split_at_break current) as [head carry]. cbn [fst snd] in Hsplit. subst current.
    assert (forall tail, inks lines ++ ink (head ++ carry) ++ ink [c] ++ tail
      = inks (lines ++ [trim_end head]) ++ ink carry ++ ink [c] ++ tail) as ->
      by (intros; autorewrite with vitrin_ink; by rewrite <- !app_assoc).
    case_bool_decide as Hfull.
    { destruct (truncate_last_shows lines (trim_end head) (inks (lines ++ [trim_end head]) ++ ink carry ++ ink [c] ++ ink s))
        as [? ->]; [by apply prefix_app_r|]. split; [done|]. rewrite length_app in Hfull. simpl in Hfull. lia. }
    assert (length (lines ++ [trim_end head]) < max_lines)%nat as Hlen'
      by (rewrite length_app in *; simpl in *; lia).
    destruct ((width face atlas (carry ++ [c]) px <=? max_width) || bool_decide (carry = [])).
    { specialize (IH _ (carry ++ [c]) Hlen'). by rewrite ink_app, <- app_assoc in IH. }
    set (lines' := lines ++ [trim_end head]) in *.
    assert (inks lines' ++ ink carry ++ ink [c] ++ ink s = inks (lines' ++ [trim_end carry]) ++ ink [c] ++ ink s) as ->
      by (rewrite inks_snoc, ink_trim_end; by rewrite <- app_assoc).
    case_bool_decide as Hfull'.
    { destruct (truncate_last_shows lines' (trim_end carry) (inks (lines' ++ [trim_end carry]) ++ ink [c] ++ ink s))
        as [? ->]; [by apply prefix_app_r|]. split; [done|]. rewrite length_app in Hfull'. simpl in Hfull'. lia. }
    apply IH. rewrite length_app in *. simpl in *. lia.
Qed.

Lemma wrap_shows (s : Str) (max_lines : nat) :
  max_width <> 0 -> max_lines <> 0%nat ->
  shows (ink s) (wrap face atlas s px max_width max_lines) /\ (length (wrap face atlas s px max_width max_lines) <= max_lines)%nat.
Proof.
  intros Hw Hm. unfold wrap. rewrite bool_decide_false by done. destruct (Z.eqb_spec max_width 0); [done|]. cbn [orb].
  apply (wrap_loop_shows max_lines s [] []). simpl. lia.
Qed.

Lemma wrap_length (s : Str) (max_lines : nat) : (length (wrap face atlas s px max_width max_lines) <= max_lines)%nat.
Proof.
  destruct (decide (max_lines = 0%nat)) as [->|Hm]; [done|].
  destruct (decide (max_width = 0)) as [->|Hw]; [|by apply wrap_shows].
  unfold wrap. rewrite Z.eqb_refl, orb_true_r. simpl. lia.
Qed.

(** An elided text is cut at a character, and fits with its ellipsis unless
    nothing of it does. *)
Lemma elide_loop_spec max_w shown rest :
  exists p, (p = [] \/ measure face atlas (shown ++ p ++ ELLIPSIS) NAME_PX <= max_w) /\ p `prefix_of` rest
    /\ elide_loop face atlas max_w shown rest (str_len shown) = str_len (shown ++ p).
Proof.
  revert shown. induction rest as [|c rest IH]; intros shown; cbn [elide_loop].
  - exists []. rewrite app_nil_r. auto.
  - destruct (Z.ltb_spec max_w (measure face atlas ((shown ++ [c]) ++ ELLIPSIS) NAME_PX)) as [Hw|Hw].
    + exists []. rewrite app_nil_r. split_and!; [by left|apply prefix_nil|done].
    + destruct (IH (shown ++ [c])) as (p & Hp & Hpre & ->). exists (c :: p). split_and!; [|by apply prefix_cons|by rewrite <- app_assoc].
      right. rewrite <- !app_assoc in *. destruct Hp as [->|Hp]; done.
Qed.

Lemma elide_vetted_spec s max_w cut :
  elide_vetted face atlas s max_w = Some cut ->
  exists p, p `prefix_of` s /\ str_len p = cut
    /\ (p = [] \/ measure face atlas (p ++ ELLIPSIS) NAME_PX <= max_w).
Proof.
  unfold elide_vetted. case_match; [done|]. intros [= <-].
  destruct (elide_loop_spec max_w [] s) as (p & Hp & Hpre & He). exists p. split_and!; [done| |done].
  by rewrite (He : elide_loop _ _ _ _ _ 0 = _).
Qed.
End wrapping.

(* ------------------------------------------------------------------------ *)
(** ** Drawing on an opaque canvas *)

(** Every pixel is opaque. *)
Definition all_opaque (out : Pixels) : Prop :=
  forall j, (j mod 4 = 3)%nat -> forall v, out !! j = Some v -> v = 255.

(** A step that runs on any opaque canvas of [len] bytes and leaves one. *)
Definition steady (len : nat) (f : Pixels -> option Pixels) : Prop :=
  forall out, buffer len out -> all_opaque out -> exists out', f out = Some out' /\ buffer len out' /\ all_opaque out'.

Lemma steady_maps len F f :
  maps len F f -> (forall j v, (j mod 4 = 3)%nat -> v = 255 -> F j v = 255) -> steady len f.
Proof.
  intros Hf HF out Hb Ha. destruct (Hf out Hb) as [-> Hu]. exists (imap F out).
  split_and!; [done|split; [rewrite length_imap; apply Hb|done]|].
  intros j Hj v. rewrite list_lookup_imap. destruct (out !! j) as [v0|] eqn:Hv; [|done].
  intros [= <-]. apply HF; [done|by eapply Ha].
Qed.

Lemma steady_keep len : steady len Some.
Proof. intros out Hb Ha. eauto. Qed.

Lemma steady_then len f g : steady len f -> steady len g -> steady len (fun out => out ← f out; g out).
Proof. intros Hf Hg out Hb Ha. destruct (Hf out Hb Ha) as (out1 & -> & Hb1 & Ha1). by apply Hg. Qed.

Lemma steady_for_range len n from f :
  (forall i, (from <= i < from + n)%nat -> steady len (f i)) -> steady len (for_range n from f).
Proof.
  revert from. induction n as [|n IH]; intros from Hf; [apply steady_keep|].
  intros out Hb Ha. cbn [for_range]. destruct (Hf from ltac:(lia) out Hb Ha) as (out1 & -> & Hb1 & Ha1).
  apply IH; [|done..]. intros i Hi. apply Hf. lia.
Qed.

Definition glyph_ok (g : Glyph) : Prop :=
  length (gl_coverage g) = (gl_height g * gl_width g)%nat /\ Forall is_u8 (gl_coverage g).
(** The face gives a byte of coverage for every pixel of a glyph's box. *)
Definition face_ok (face : Face) : Prop := forall c px, glyph_ok (fc_rasterize face c px).
Definition atlas_ok (a : Atlas) : Prop := Forall is_u8 (at_records a) /\ Forall is_u8 (at_blob a).

Section glyphs.
Context (face : Face) (atlas : Atlas) (Hface : face_ok face) (Hatlas : atlas_ok atlas).

Lemma rendered_ok i g : rendered_at atlas i = Some g -> length (rd_coverage g) = (rd_height g * rd_width g)%nat /\ Forall is_u8 (rd_coverage g).
Proof using Hatlas.
  destruct Hatlas as [Hr Hb]. unfold rendered_at. intros H.
  apply bind_Some in H as (offset & Ho & H). apply bind_Some in H as (w & Hgw & H). apply bind_Some in H as (h & Hgh & H).
  apply bind_Some in H as (xm & _ & H). apply bind_Some in H as (ym & _ & H). apply bind_Some in H as (adv & _ & H).
  apply bind_Some in H as (l & Hl & H). apply bind_Some in H as (to & Ht & H). apply bind_Some in H as (cov & Hc & [= <-]).
  cbn [rd_coverage rd_height rd_width].
  apply (read_le_nonneg (at_records atlas) _ 4 _ Hr) in Ho. apply (read_le_nonneg (at_records atlas) _ 2 _ Hr) in Hgw, Hgh.
  unfold checked_usize in Hl, Ht. case_match; [|done]. case_match; [|done]. simplify_eq.
  apply sub_slice_Some in Hc as [Hc ->]. split; [rewrite length_take, length_drop; nia|].
  by apply Forall_take, Forall_drop.
Qed.

Lemma glyph_of_ok c px : glyph_ok (glyph_of face atlas c px).
Proof using Hface Hatlas.
  unfold glyph_of. destruct (Atlas.glyph atlas c px) as [g|] eqn:Hg; [|apply Hface].
  unfold Atlas.glyph in Hg. case_match; [done|]. case_match; [done|].
  apply bind_Some in Hg as (i & _ & Hg). by apply rendered_ok in Hg.
Qed.
End glyphs.

Section canvas.
Context (cw ch : Z) (Hw : 0 <= cw) (Hh : 0 <= ch).
Let len := (Z.to_nat ch * Z.to_nat cw * 4)%nat.

Lemma steady_fill r rgba : opaque rgba -> steady len (fill_rect cw ch r rgba).
Proof using Hw Hh.
  intros Ho. eapply steady_maps; [by apply fill_opaque_maps|]. intros j v Hj ->.
  unfold only, solid. rewrite Hj. by case_match.
Qed.

Lemma steady_stroke r rgba t :
  opaque rgba -> 0 < t <= 1073741824 -> 0 <= pr_w r -> 0 <= pr_h r ->
  fits_i32 (pr_x r) -> fits_i32 (pr_y r) -> fits_i32 (pr_x r + pr_w r) -> fits_i32 (pr_y r + pr_h r) ->
  steady len (stroke_rect cw ch r rgba t).
Proof using Hw Hh.
  intros. eapply steady_maps; [by apply stroke_opaque_maps|]. intros j v Hj ->.
  unfold only, solid. rewrite Hj. by case_match.
Qed.

Lemma steady_pixel x y rgb alpha : colour rgb -> is_u8 alpha -> steady len (blend_pixel cw ch x y rgb alpha).
Proof using Hw Hh.
  intros Hc Ha. unfold blend_pixel. destruct (alpha =? 0); [apply steady_keep|].
  pose proof (clip_spec cw ch Hw Hh (rect x y 1 1)) as Hs. destruct (clip cw ch _) as [[[[x0 y0] x1] y1]|]; [|apply steady_keep].
  eapply steady_maps; [apply blend_at_maps; [unfold len; nia|done..]|].
  intros j v Hj ->. unfold only, blend. rewrite Hj. by case_match.
Qed.

Lemma steady_stamp g gx gy rgb : glyph_ok g -> colour rgb -> steady len (stamp cw ch g gx gy rgb).
Proof using Hw Hh.
  intros [Hl Hu] Hc. apply steady_for_range. intros row Hrow. apply steady_for_range. intros col Hcol out Hb Ha.
  destruct (lookup_lt_is_Some_2 (gl_coverage g) (row * gl_width g + col)) as [alpha He]; [rewrite Hl; nia|].
  rewrite He. cbn [mbind option_bind]. apply steady_pixel; [done| |done..]. by eapply Forall_lookup_1.
Qed.

Section text.
Context (face : Face) (atlas : Atlas) (Hface : face_ok face) (Hatlas : atlas_ok atlas).

Lemma pen_run_steady chars px x baseline pen :
  Forall (fun cr => colour cr.2) chars ->
  steady len (fun pixels => (pen_run face atlas (Some (cw, ch)) chars px x baseline pen pixels).2).
Proof using Hw Hh Hface Hatlas.
  intros Hc. revert pen. induction Hc as [|[c rgb] chars Hc _ IH]; intros pen; [apply steady_keep|].
  intros out Hb Ha. cbn [pen_run].
  set (gx := i32_wrap (_ + gl_xmin _)). set (gy := i32_wrap (_ - i32_wrap (Z.of_nat _))).
  destruct (steady_stamp (glyph_of face atlas c px) gx gy rgb (glyph_of_ok face atlas Hface Hatlas c px) Hc out Hb Ha)
    as (out1 & -> & Hb1 & Ha1). by apply IH.
Qed.

Lemma steady_draw s px x baseline rgb : colour rgb -> steady len (draw face atlas cw ch s px x baseline rgb).
Proof using Hw Hh Hface Hatlas.
  intros Hc. apply pen_run_steady. apply Forall_fmap, Forall_forall. done.
Qed.

Lemma draw_runs_steady runs x baseline pen out :
  Forall (fun rc => colour rc.2) runs -> buffer len out -> all_opaque out ->
  exists w out', draw_runs face atlas cw ch runs x baseline pen out = Some (w, out') /\ buffer len out' /\ all_opaque out'.
Proof using Hw Hh Hface Hatlas.
  intros Hc. revert pen out. induction Hc as [|[run rgb] runs Hc _ IH]; intros pen out Hb Ha; cbn [draw_runs]; [eauto|].
  assert (Forall (fun cr => colour cr.2) (List.map (fun c => (c, rgb)) run)) as Hrun by (apply Forall_fmap, Forall_forall; done).
  destruct (pen_run_steady _ NAME_PX x baseline pen Hrun out Hb Ha) as (out1 & Ho & Hb1 & Ha1).
  destruct (pen_run _ _ _ _ _ _ _ _ _) as [pen' drawn]. cbn [snd] in Ho. subst drawn. cbn [mbind option_bind].
  by apply IH.
Qed.
End text.
End canvas.

(** A new canvas filled edge to edge. *)
Lemma fresh_canvas w h rgba :
  0 <= w -> 0 <= h -> opaque rgba ->
  let len := (Z.to_nat h * Z.to_nat w * 4)%nat in
  forall blank, buffer len blank ->
  exists out, fill_rect w h (rect 0 0 w h) rgba blank = Some out /\ buffer len out /\ all_opaque out.
Proof.
  intros Hw Hh Ho len blank Hb. destruct (fill_opaque_maps w h Hw Hh (rect 0 0 w h) rgba Ho blank Hb) as [-> Hu].
  eexists. split; [reflexivity|]. split; [split; [rewrite length_imap; apply Hb|done]|].
  intros j Hj v. rewrite list_lookup_imap. destruct (blank !! j) as [v0|] eqn:Hv; [|done]. intros [= <-].
  apply lookup_lt_Some in Hv. destruct Hb as [Hlen _]. rewrite Hlen in Hv. destruct (px_y_lt w h Hw Hh j Hv) as [Hx Hy].
  unfold only, in_prect, rect_contains. cbn [rect pr_x pr_y pr_w pr_h]. rewrite !Z.sub_0_r.
  rewrite (proj2 (Z.leb_le _ _)), (proj2 (Z.leb_le _ _)), (proj2 (Z.ltb_lt _ _)), (proj2 (Z.ltb_lt _ _)) by lia.
  cbn [andb]. unfold solid. by rewrite Hj.
Qed.
Lemma zeros_buffer n : buffer n (repeat 0 n).
Proof. split; [apply repeat_length|]. apply Forall_forall. intros v Hv. by apply list_elem_of_In, repeat_spec in Hv as ->. Qed.
