(* ===== verification/Card.v ===== *)
(** * The consent card

    [crates/vitrin-core/src/consent/render.rs]: the rows of the card that asks, and of
    the card that picks a file, their drawing, and the boxes of the controls and
    of the picker's slots. [None] is a panic. The face and the atlas are those of
    [Lettering]. *)

From S2P Require Import Prelude Text Transcript Capture Canvas Atlas Paint Lettering Grants Realm Petitions Uses Picker.

(* ------------------------------------------------------------------------ *)
(** ** Measures and colours *)

Definition TITLE_PX : Z := 1100480512.
Definition LABEL_PX : Z := 1093664768.
Definition VALUE_PX : Z := 1096810496.
Definition BUTTON_PX : Z := 1095761920.

Definition CARD_WIDTH : Z := 560.
Definition BORDER : Z := 2.
Definition PAD_X : Z := 24.
Definition PAD_TOP : Z := 20.
Definition PAD_BOTTOM : Z := 20.
Definition GROUP_GAP : Z := 12.
Definition LABEL_GAP : Z := 2.
Definition RULE_H : Z := 1.
Definition BUTTON_H : Z := 32.
Definition BUTTON_GAP : Z := 10.
Definition MAX_VALUE_LINES : nat := 3.
Definition CONTENT_X : Z := BORDER + PAD_X.
Definition CONTENT_W : Z := CARD_WIDTH - 2 * CONTENT_X.
Definition NAME_FIELD_PX : Z := 320.
Definition PANEL_ROW_H : Z := 22.
Definition PANEL_H : Z := Z.of_nat PANEL_ROWS * PANEL_ROW_H.
Definition PANEL_THUMB_W : Z := 4.
Definition PANEL_GUTTER_W : Z := 40.
Definition PANEL_GUTTER_GAP : Z := 8.
Definition script_x : Z := CONTENT_X + NAME_FIELD_PX + PANEL_GUTTER_GAP.
Definition gutter_x : Z := CONTENT_X + CONTENT_W - PANEL_THUMB_W - 4 - PANEL_GUTTER_W.

Definition CARD_BG : list Z := [20; 22; 28; 255].
Definition ACCENT : list Z := [77; 157; 224; 255].
Definition TITLE_FG : list Z := [244; 246; 250].
Definition MUTED_FG : list Z := [147; 158; 176].
Definition VALUE_FG : list Z := [228; 233; 242].
Definition RULE_RGBA : list Z := [43; 48; 59; 255].
Definition BUTTON_BG : list Z := [34; 39; 49; 255].
Definition BUTTON_BORDER : list Z := [92; 102; 120; 255].
Definition BUTTON_FG : list Z := [241; 244; 249].
Definition PANEL_SELECTED_BG : list Z := [43; 51; 66; 255].
Definition SCRIPT_FG : list Z := MUTED_FG.

Record RunPalette : Type := { rp_ascii : list Z; rp_native : list Z; rp_escaped : list Z }.
Definition palette_of (p : RunPalette) (c : Class) : list Z :=
  match c with Ascii => rp_ascii p | Native => rp_native p | Escaped => rp_escaped p end.
Definition NAME_PALETTE : RunPalette :=
  {| rp_ascii := VALUE_FG; rp_native := [232; 192; 106]; rp_escaped := [255; 139; 139] |}.
Definition TAG_PALETTE : RunPalette :=
  {| rp_ascii := [77; 157; 224]; rp_native := [232; 192; 106]; rp_escaped := [255; 139; 139] |}.

(* ------------------------------------------------------------------------ *)
(** ** The words *)

Definition TITLE : Str := str "Grant request".
Definition SUBTITLE : Str := str "Approving grants the authority listed below.".
Definition LABEL_PRINCIPAL : Str := str "Principal".
Definition LABEL_REALM : Str := str "Realm".
Definition LABEL_REQUESTS : Str := str "Requests".
Definition LABEL_LAUNCHES : Str := str "Launches".
Definition LABEL_EXPIRES : Str := str "Expires".
Definition EXPIRY_UNBOUNDED : Str := str "no time limit - bounded only by the choice below".

Definition VERB_CATALOGUE : list (Z * Str * Str) :=
  [(OBSERVE, str "observe", str "capture frames of this realm");
   (ACTUATE_POINTER, str "actuate_pointer", str "move the pointer and click in this realm");
   (ACTUATE_TEXT, str "actuate_text", str "type text into this realm");
   (LAYOUT_ARRANGE, str "layout_arrange",
    str "make this realm fill the screen, or shrink it back - and act on your attention key");
   (LAYOUT_FOCUS, str "layout_focus",
    str "show this realm and send your keyboard and mouse to it - and act on your attention key");
   (REALM_LAUNCH, str "realm_launch",
    str "start the program named above, as a new app, as often as its rate limit allows");
   (DESIGNATE_FILE, str "designate_file",
    str "ask you to hand over one file, to read or to read and change, or one folder and everything in it - you pick each time, and this app keeps what you hand over until it exits, even if you revoke this grant")].

Definition TITLE_PICK_FILE : Str := str "Choose a file to hand over".
Definition TITLE_PICK_DIR : Str := str "Choose a folder to hand over".
Definition CONSEQUENCE_READ : Str :=
  str "This app gets a read-only handle to the one file you pick, and keeps it until it exits. Revoking the grant does not take it back.".
Definition CONSEQUENCE_WRITE : Str :=
  str "This app gets a read-and-write handle to the one file you pick, and keeps it until it exits. Revoking the grant does not take it back.".
Definition CONSEQUENCE_DIR : Str :=
  str "This app gets a handle to the one folder you pick and can reach everything under it, and keeps it until it exits. Revoking the grant does not take it back.".
Definition LABEL_LOCATION : Str := str "Folder".
Definition LABEL_FILTER : Str := str "Filter".
Definition LOCATION_ROOT : Str := str "(the folder this deployment offers)".
Definition FILTER_EMPTY : Str := str "(type to filter)".
Definition PICKER_HINT : Str :=
  str "Arrows move, Tab reaches the buttons, typing filters. Escape does not close this card - it is the emergency chord.".
Definition SCRIPT_JOIN : Z := ch "+".

Definition choice_label (c : Choice) : Str :=
  match c with
  | Allow Once => str "Allow once (single use)"
  | Allow WhileRunning => str "Allow while running"
  | Deny => str "Deny"
  end.

(* ------------------------------------------------------------------------ *)
(** ** Controls and rows *)

Inductive CardAction : Type := ADecide (c : Choice) | AConfirm | ACancel.
#[export] Instance CardAction_eq_dec : EqDecision CardAction.
Proof. solve_decision. Defined.

Definition action_label (a : CardAction) : Str :=
  match a with
  | ADecide c => choice_label c
  | AConfirm => str "Hand over the selected item"
  | ACancel => str "Cancel - hand over nothing"
  end.

Record ButtonBox : Type := { bb_action : CardAction; bb_rect : PRect }.
Record ChoiceBox : Type := { cb_choice : Choice; cb_rect : PRect }.
Record SlotBox : Type := { sb_index : Z; sb_rect : PRect }.
Definition as_choice (b : ButtonBox) : option ChoiceBox :=
  match bb_action b with
  | ADecide c => Some {| cb_choice := c; cb_rect := bb_rect b |}
  | AConfirm | ACancel => None
  end.

Record Card : Type := {
  card_rgba : Pixels;
  card_width : Z;
  card_height : Z;
  card_buttons : list ChoiceBox;
  card_controls : list ButtonBox;
  card_panel : option (list SlotBox) }.

(** What the card draws of a prompt: its content, with the panel beside it. *)
Record ShownPrompt : Type := { sp_content : PromptContent; sp_panel : option PanelContent }.

Inductive Row : Type :=
| RSpace (n : Z)
| RRule
| RLine (text : Str) (px : Z) (rgb : list Z)
| RTranscribed (text : Transcript) (width : Z)
| RButtons (actions : list CardAction) (focused : option nat)
| RPanel (content : PanelContent).

Definition duration_text (ms : Z) : Str :=
  if ms mod 3600000 =? 0 then to_string (ms / 3600000) ++ str " h"
  else if ms mod 60000 =? 0 then to_string (ms / 60000) ++ str " min"
  else if ms mod 1000 =? 0 then to_string (ms / 1000) ++ str " s"
  else to_string ms ++ str " ms".
Definition expiry_line (c : PromptContent) : Str :=
  if pc_expiry_ms c =? 0 then EXPIRY_UNBOUNDED else duration_text (pc_expiry_ms c) ++ str " after approval".

Definition verb_line (row : Z * Str * Str) : Str := str "- " ++ row.1.2 ++ str ": " ++ row.2.
Definition verb_lines (verbs : Z) : list Str :=
  match List.map verb_line (List.filter (fun row => mask_contains verbs row.1.1) VERB_CATALOGUE) with
  | [] => [str "- (no verbs)"]
  | lines => lines
  end.

Definition group_name (g : Group) : Str :=
  match g with
  | Latin => str "Latin" | Greek => str "Greek" | Cyrillic => str "Cyrillic" | Japanese => str "Japanese"
  end.
Definition script_label (t : Transcript) : option Str :=
  match List.map group_name (List.filter (fun g => negb (bool_decide (g = Latin))) (tr_groups t)) with
  | [] => None
  | named => Some (join SCRIPT_JOIN named)
  end.

Definition panel_baseline (top : Z) (m : LineMetrics) : Z :=
  i32_wrap (top + Z.max 0 (PANEL_ROW_H - lm_height m) / 2 + i32_wrap (lm_ascent m)).

(** [s[start..stop]]: [None] off a character's border. *)
Fixpoint split_at_byte (s : Str) (n : Z) : option (Str * Str) :=
  if n =? 0 then Some ([], s)
  else match s with
       | [] => None
       | c :: r =>
           let len := str_len [c] in
           if n <? len then None else ab ← split_at_byte r (n - len); Some (c :: ab.1, ab.2)
       end.
Definition str_slice (s : Str) (start stop : Z) : option Str :=
  ab ← split_at_byte s stop;
  cd ← split_at_byte ab.1 start;
  Some cd.2.

Section card.
Context (face : Face) (atlas : Atlas).

Definition line_row (s : Str) (px : Z) (rgb : list Z) : Row := RLine s px rgb.
Definition wrapped (s : Str) (px : Z) (rgb : list Z) (max_lines : nat) : list Row :=
  List.map (fun l => line_row l px rgb) (wrap face atlas s px CONTENT_W max_lines).
(** A labelled field: its values wrapped. *)
Definition field (label : Str) (values : list Str) : list Row :=
  line_row label LABEL_PX MUTED_FG :: RSpace LABEL_GAP
  :: flat_map (fun v => wrapped v VALUE_PX VALUE_FG MAX_VALUE_LINES) values ++ [RSpace GROUP_GAP].

(** [rows]. *)
Definition prompt_rows (p : ShownPrompt) : list Row :=
  let c := sp_content p in
  line_row TITLE TITLE_PX TITLE_FG :: RSpace 6 :: wrapped SUBTITLE LABEL_PX MUTED_FG 2
  ++ [RSpace 16; RRule; RSpace 16]
  ++ field LABEL_PRINCIPAL [pc_principal c]
  ++ field LABEL_REALM [pc_realm c]
  ++ match pc_command c with Some command => field LABEL_LAUNCHES [command] | None => [] end
  ++ field LABEL_REQUESTS (verb_lines (pc_verbs c))
  ++ field LABEL_EXPIRES [expiry_line c]
  ++ match sp_panel p with Some panel => [RSpace 12; RPanel panel] | None => [] end
  ++ [RSpace 4; RRule; RSpace 16; RButtons (List.map ADecide (choices c)) None].

Definition picker_rows (content : PickerContent) : list Row :=
  let '(title, consequence) :=
    match pkc_ask content with
    | AskFile false => (TITLE_PICK_FILE, CONSEQUENCE_READ)
    | AskFile true => (TITLE_PICK_FILE, CONSEQUENCE_WRITE)
    | AskDir => (TITLE_PICK_DIR, CONSEQUENCE_DIR)
    end in
  let shown (t : Transcript) (empty : Str) :=
    if bool_decide (tr_text t = []) then line_row empty NAME_PX MUTED_FG else RTranscribed t CONTENT_W in
  line_row title TITLE_PX TITLE_FG :: RSpace 6 :: wrapped consequence LABEL_PX MUTED_FG 3
  ++ [RSpace 14; RRule; RSpace 14]
  ++ field LABEL_PRINCIPAL [pkc_principal content]
  ++ field LABEL_REALM [pkc_realm content]
  ++ [line_row LABEL_LOCATION LABEL_PX MUTED_FG; RSpace LABEL_GAP; shown (pkc_location content) LOCATION_ROOT;
      RSpace GROUP_GAP;
      line_row LABEL_FILTER LABEL_PX MUTED_FG; RSpace LABEL_GAP; shown (pn_query (pkc_panel content)) FILTER_EMPTY;
      RSpace 10;
      RPanel (pkc_panel content);
      RSpace 10; RRule; RSpace 14;
      RButtons [AConfirm; ACancel]
        match pkc_focus content with
        | FListing => None
        | FConfirm => Some 0%nat
        | FCancel => Some 1%nat
        end;
      RSpace 10]
  ++ wrapped PICKER_HINT LABEL_PX MUTED_FG 2.

Definition row_height (row : Row) : Z :=
  match row with
  | RSpace n => n
  | RRule => RULE_H
  | RLine _ px _ => lm_height (line_metrics face px)
  | RTranscribed _ _ => lm_height (line_metrics face NAME_PX)
  | RButtons _ _ => BUTTON_H
  | RPanel _ => PANEL_H
  end.

(* ------------------------------------------------------------------------ *)
(** ** Drawing *)

(** Every step below draws on a canvas of [CARD_WIDTH] by [height]. *)
Context (height : Z).

(** The runs of a transcript up to the byte [end_], each vetted. *)
Fixpoint runs_of (text : Str) (palette : RunPalette) (end_ : Z) (runs : list (Z * Z * Class))
    : option (list (Str * list Z)) :=
  match runs with
  | [] => Some []
  | (from, to, class) :: runs =>
      let start := Z.min from end_ in
      let stop := Z.min to end_ in
      if stop <=? start then runs_of text palette end_ runs
      else
        run ← str_slice text start stop;
        rest ← runs_of text palette end_ runs;
        Some (if vetted face atlas run then (run, palette_of palette class) :: rest else rest)
  end.

Definition draw_transcribed (t : Transcript) (x baseline max_w : Z) (palette : RunPalette) (pixels : Pixels)
    : option Pixels :=
  if negb (vetted face atlas (tr_text t)) then Some pixels
  else
    let cut := elide_vetted face atlas (tr_text t) max_w in
    runs ← runs_of (tr_text t) palette (default (str_len (tr_text t)) cut) (tr_runs t);
    runs ← match cut with
           | Some _ => if vetted face atlas ELLIPSIS then Some (runs ++ [(ELLIPSIS, MUTED_FG)]) else None
           | None => Some runs
           end;
    snd <$> draw_runs face atlas CARD_WIDTH height runs x baseline f32_zero pixels.

(** One control. *)
Definition draw_button (action : CardAction) (focused : bool) (x y width : Z) (pixels : Pixels) : option Pixels :=
  let r := rect x y width BUTTON_H in
  pixels ← fill_rect CARD_WIDTH height r BUTTON_BG pixels;
  pixels ← (if focused then stroke_rect CARD_WIDTH height r ACCENT BORDER pixels
            else stroke_rect CARD_WIDTH height r BUTTON_BORDER 1 pixels);
  let label := action_label action in
  let label_w := Lettering.width face atlas label BUTTON_PX in
  let m := line_metrics face BUTTON_PX in
  let tx := x + Z.max 0 (width - label_w) / 2 in
  let ty := i32_wrap (y + Z.max 0 (BUTTON_H - lm_height m) / 2 + i32_wrap (lm_ascent m)) in
  draw face atlas CARD_WIDTH height label BUTTON_PX tx ty BUTTON_FG pixels.

Fixpoint draw_each (actions : list CardAction) (focused : option nat) (i : nat) (x y width : Z) (pixels : Pixels)
    : option (list ButtonBox * Pixels) :=
  match actions with
  | [] => Some ([], pixels)
  | action :: actions =>
      pixels ← draw_button action (bool_decide (focused = Some i)) x y width pixels;
      '(boxes, pixels) ← draw_each actions focused (S i) (x + (width + BUTTON_GAP)) y width pixels;
      Some ({| bb_action := action; bb_rect := rect x y width BUTTON_H |} :: boxes, pixels)
  end.

Definition draw_buttons (actions : list CardAction) (focused : option nat) (y : Z) (pixels : Pixels)
    : option (list ButtonBox * Pixels) :=
  let n := Z.of_nat (length actions) in
  if n =? 0 then Some ([], pixels)
  else
    let gaps := BUTTON_GAP * (n - 1) in
    let width := Z.max 0 (CONTENT_W - gaps) / n in
    if width =? 0 then Some ([], pixels)
    else
      let used := width * n + gaps in
      draw_each actions focused 0 (CONTENT_X + (CONTENT_W - used) / 2) y width pixels.

Definition slot_w : Z := CONTENT_W - PANEL_THUMB_W - 4.
Definition slot_rect (y : Z) (index : nat) : PRect :=
  rect CONTENT_X (i32_wrap (y + Z.of_nat index * PANEL_ROW_H)) slot_w PANEL_ROW_H.

(** One slot of the panel, whose row may be missing. *)
Definition draw_slot (content : PanelContent) (y : Z) (index : nat) (pixels : Pixels) : option Pixels :=
  let r := slot_rect y index in
  match pn_rows content !! index with
  | None => Some pixels
  | Some row =>
      pixels ← (if bool_decide (pn_highlight content = Some (Z.of_nat index)) then
                  pixels ← fill_rect CARD_WIDTH height r PANEL_SELECTED_BG pixels;
                  stroke_rect CARD_WIDTH height r ACCENT BORDER pixels
                else Some pixels);
      let baseline := panel_baseline (pr_y r) (line_metrics face NAME_PX) in
      pixels ← draw_transcribed (pr_name row) CONTENT_X baseline NAME_FIELD_PX NAME_PALETTE pixels;
      pixels ← match script_label (pr_name row) with
               | Some label =>
                   draw face atlas CARD_WIDTH height label LABEL_PX script_x
                     (panel_baseline (pr_y r) (line_metrics face LABEL_PX)) SCRIPT_FG pixels
               | None => Some pixels
               end;
      match pr_tag row with
      | Some tag => draw_transcribed tag gutter_x baseline PANEL_GUTTER_W TAG_PALETTE pixels
      | None => Some pixels
      end
  end.

(** The scroll thumb: how far down the track, and how long. *)
Definition thumb (offset total : Z) : Z * Z :=
  let rows := Z.of_nat PANEL_ROWS in
  let thumb_h := Z.max (rows * PANEL_H / total) 4 in
  let travel := Z.max 0 (PANEL_H - thumb_h) in
  let scrollable := Z.max (Z.max 0 (total - rows)) 1 in
  (Z.min offset scrollable * travel / scrollable, thumb_h).

Definition draw_panel (content : PanelContent) (y : Z) (pixels : Pixels) : option (list SlotBox * Pixels) :=
  pixels ← for_range PANEL_ROWS 0 (draw_slot content y) pixels;
  pixels ← (if Z.of_nat PANEL_ROWS <? pn_total content then
              let '(thumb_y, thumb_h) := thumb (pn_offset content) (pn_total content) in
              fill_rect CARD_WIDTH height
                (rect (CONTENT_X + CONTENT_W - PANEL_THUMB_W) (i32_wrap (y + thumb_y)) PANEL_THUMB_W thumb_h) ACCENT pixels
            else Some pixels);
  Some (List.map (fun i => {| sb_index := Z.of_nat i; sb_rect := slot_rect y i |}) (seq 0 PANEL_ROWS), pixels).

(** The rows, from the top down: the controls and the slots are those of the
    last row that has any. *)
Fixpoint draw_rows (rows : list Row) (y : Z) (controls : list ButtonBox) (panel : option (list SlotBox))
    (pixels : Pixels) : option (list ButtonBox * option (list SlotBox) * Pixels) :=
  match rows with
  | [] => Some (controls, panel, pixels)
  | row :: rows =>
      '(controls, panel, pixels) ←
        match row with
        | RSpace _ => Some (controls, panel, pixels)
        | RRule =>
            pixels ← fill_rect CARD_WIDTH height (rect CONTENT_X y CONTENT_W RULE_H) RULE_RGBA pixels;
            Some (controls, panel, pixels)
        | RLine s px rgb =>
            pixels ← draw face atlas CARD_WIDTH height s px CONTENT_X
                       (i32_wrap (y + i32_wrap (lm_ascent (line_metrics face px)))) rgb pixels;
            Some (controls, panel, pixels)
        | RTranscribed t width =>
            pixels ← draw_transcribed t CONTENT_X
                       (i32_wrap (y + i32_wrap (lm_ascent (line_metrics face NAME_PX)))) width NAME_PALETTE pixels;
            Some (controls, panel, pixels)
        | RButtons actions focused =>
            '(controls, pixels) ← draw_buttons actions focused y pixels;
            Some (controls, panel, pixels)
        | RPanel content =>
            '(slots, pixels) ← draw_panel content y pixels;
            Some (controls, Some slots, pixels)
        end;
      draw_rows rows (i32_wrap (y + i32_wrap (row_height row))) controls panel pixels
  end.
End card.

Section cards.
Context (face : Face) (atlas : Atlas).

Definition rows_height (rows : list Row) : Z :=
  fold_left (fun h row => u32_wrapping_add h (row_height face row)) rows 0.
Definition draw_card (rows : list Row) : option Card :=
  let height := u32_wrapping_add (PAD_TOP + PAD_BOTTOM + 2 * BORDER) (rows_height rows) in
  let rgba := repeat 0 (Z.to_nat (CARD_WIDTH * height * BYTES_PER_PIXEL)) in
  if negb (canvas_new rgba CARD_WIDTH height) then
    Some {| card_rgba := rgba; card_width := CARD_WIDTH; card_height := height;
            card_buttons := []; card_controls := []; card_panel := None |}
  else
    let whole := rect 0 0 CARD_WIDTH height in
    rgba ← fill_rect CARD_WIDTH height whole CARD_BG rgba;
    rgba ← stroke_rect CARD_WIDTH height whole ACCENT BORDER rgba;
    '(controls, panel, rgba) ← draw_rows face atlas height rows (BORDER + PAD_TOP) [] None rgba;
    Some {| card_rgba := rgba; card_width := CARD_WIDTH; card_height := height;
            card_buttons := omap as_choice controls; card_controls := controls; card_panel := panel |}.

Definition rasterize (p : ShownPrompt) : option Card := draw_card (prompt_rows face atlas p).
Definition rasterize_picker (content : PickerContent) : option Card := draw_card (picker_rows face atlas content).
End cards.

(* ------------------------------------------------------------------------ *)
(** ** Where the controls lie *)

(** The width a control has among [n], and the left edge of the first. *)
Definition control_w (n : Z) : Z := Z.max 0 (CONTENT_W - BUTTON_GAP * (n - 1)) / n.
Definition control_x (n : Z) : Z := CONTENT_X + (CONTENT_W - (control_w n * n + BUTTON_GAP * (n - 1))) / 2.
Definition control_boxes (actions : list CardAction) (y : Z) : list ButtonBox :=
  let n := Z.of_nat (length actions) in
  if (n =? 0) || (control_w n =? 0) then []
  else imap (fun i a => {| bb_action := a;
                           bb_rect := rect (control_x n + Z.of_nat i * (control_w n + BUTTON_GAP)) y (control_w n) BUTTON_H |})
         actions.
Definition slots_at (y : Z) : list SlotBox :=
  List.map (fun i => {| sb_index := Z.of_nat i;
                        sb_rect := rect CONTENT_X (y + Z.of_nat i * PANEL_ROW_H) slot_w PANEL_ROW_H |}) (seq 0 PANEL_ROWS).

(** The controls and slots of a card's rows, from [y] down. *)
Fixpoint lay_out (face : Face) (rows : list Row) (y : Z) (controls : list ButtonBox) (panel : option (list SlotBox))
    : list ButtonBox * option (list SlotBox) :=
  match rows with
  | [] => (controls, panel)
  | row :: rows =>
      lay_out face rows (y + row_height face row)
        match row with RButtons actions _ => control_boxes actions y | _ => controls end
        match row with RPanel _ => Some (slots_at y) | _ => panel end
  end.

Fixpoint heights (face : Face) (rows : list Row) : Z :=
  match rows with [] => 0 | row :: rows => row_height face row + heights face rows end.

(** A face whose lines are of a sane height. *)
Definition lines_ok (face : Face) : Prop := forall px, lm_height (line_metrics face px) <= 4096.
(** A transcript whose runs end where characters do. *)
Definition transcript_ok (t : Transcript) : Prop :=
  forall from to class, (from, to, class) ∈ tr_runs t ->
  is_Some (split_at_byte (tr_text t) from) /\ is_Some (split_at_byte (tr_text t) to).
Definition panel_ok (p : PanelContent) : Prop :=
  Forall (fun r => transcript_ok (pr_name r) /\ (forall t, pr_tag r = Some t -> transcript_ok t)) (pn_rows p).
Definition row_ok (row : Row) : Prop :=
  match row with
  | RSpace n => 0 <= n
  | RLine _ _ rgb => colour rgb
  | RTranscribed t _ => transcript_ok t
  | RPanel p => panel_ok p
  | _ => True
  end.

Lemma heights_app face a b : heights face (a ++ b) = heights face a + heights face b.
Proof. induction a as [|row a IH]; simpl; lia. Qed.

Lemma u32_clamp_bounds v : 0 <= u32_clamp v <= u32_max.
Proof. unfold u32_clamp, u32_max. lia. Qed.
Lemma line_metrics_bounds face px :
  0 <= lm_height (line_metrics face px) <= u32_max /\ 0 <= lm_ascent (line_metrics face px) <= u32_max.
Proof.
  assert (forall x, 0 <= ceil_u32 x <= u32_max) as Hc.
  { intros [|b| |b m e]; cbn [ceil_u32]; try destruct b; try apply u32_clamp_bounds; unfold u32_max; lia. }
  unfold line_metrics. destruct (fc_line face px) as [[a h]|]; split; apply Hc.
Qed.

Lemma row_height_bounds face row : lines_ok face -> row_ok row -> 0 <= row_height face row.
Proof.
  intros Hl Hr. destruct row; cbn [row_height row_ok] in *; try apply line_metrics_bounds; try done;
    unfold RULE_H, BUTTON_H, PANEL_H, PANEL_ROWS, PANEL_ROW_H; lia.
Qed.
Lemma heights_nonneg face rows : lines_ok face -> Forall row_ok rows -> 0 <= heights face rows.
Proof.
  intros Hl. induction 1 as [|row rows Hr _ IH]; simpl; [done|]. pose proof (row_height_bounds face row Hl Hr). lia.
Qed.

Lemma i32_wrap_id z : fits_i32 z -> i32_wrap z = z.
Proof. unfold fits_i32, i32_min, i32_wrap. intros H. rewrite Z.mod_small; lia. Qed.

(** No two controls share a point, and all lie between the margins. *)
Lemma control_w_pos n : 1 <= n <= 51 -> 0 <= control_w n /\ control_w n * n + BUTTON_GAP * (n - 1) <= CONTENT_W.
Proof.
  intros Hn. unfold control_w, BUTTON_GAP, CONTENT_W, CARD_WIDTH, CONTENT_X, BORDER, PAD_X in *.
  pose proof (Z.mul_div_le (Z.max 0 (560 - 2 * (2 + 24) - 10 * (n - 1))) n ltac:(lia)).
  assert (0 <= Z.max 0 (560 - 2 * (2 + 24) - 10 * (n - 1)) / n) by (apply Z.div_pos; lia). lia.
Qed.

Lemma control_boxes_lookup actions y i b :
  control_boxes actions y !! i = Some b ->
  let n := Z.of_nat (length actions) in
  exists a, actions !! i = Some a /\ bb_action b = a
    /\ bb_rect b = rect (control_x n + Z.of_nat i * (control_w n + BUTTON_GAP)) y (control_w n) BUTTON_H.
Proof.
  unfold control_boxes. cbv zeta. case_match; [done|]. rewrite list_lookup_imap.
  destruct (actions !! i) as [a|]; [|done]. intros [= <-]. eauto.
Qed.

Lemma control_inside n (i : nat) :
  1 <= n <= 51 -> Z.of_nat i < n ->
  CONTENT_X <= control_x n + Z.of_nat i * (control_w n + BUTTON_GAP)
  /\ control_x n + Z.of_nat i * (control_w n + BUTTON_GAP) + control_w n <= CARD_WIDTH - CONTENT_X.
Proof.
  intros Hn Hi. destruct (control_w_pos n Hn) as [H0 H1]. unfold control_x.
  set (slack := CONTENT_W - (control_w n * n + BUTTON_GAP * (n - 1))) in *. assert (0 <= slack) by (unfold slack; lia).
  pose proof (Z.mul_div_le slack 2 ltac:(lia)). pose proof (Z.div_pos slack 2 ltac:(lia) ltac:(lia)).
  unfold BUTTON_GAP in *. split; [nia|].
  assert (Z.of_nat i * (control_w n + 10) <= (n - 1) * (control_w n + 10)) by nia.
  unfold slack, CONTENT_W in *. lia.
Qed.

Lemma control_boxes_disjoint actions y i j a b px py :
  i <> j -> control_boxes actions y !! i = Some a -> control_boxes actions y !! j = Some b ->
  rect_contains (bb_rect a) px py = true -> rect_contains (bb_rect b) px py = true -> False.
Proof.
  intros Hij Ha Hb. apply control_boxes_lookup in Ha as (ca & _ & _ & ->). apply control_boxes_lookup in Hb as (cb & _ & _ & ->).
  unfold rect_contains, BUTTON_GAP. cbn [rect pr_x pr_y pr_w pr_h].
  rewrite !andb_true_iff, !Z.leb_le, !Z.ltb_lt. set (w := control_w _). nia.
Qed.

Lemma slots_disjoint y i j a b px py :
  i <> j -> slots_at y !! i = Some a -> slots_at y !! j = Some b ->
  rect_contains (sb_rect a) px py = true -> rect_contains (sb_rect b) px py = true -> False.
Proof.
  unfold slots_at. rewrite !list_lookup_fmap. intros Hij.
  destruct (seq 0 PANEL_ROWS !! i) eqn:Hi; [|done]. destruct (seq 0 PANEL_ROWS !! j) eqn:Hj; [|done].
  apply lookup_seq in Hi as [-> _]. apply lookup_seq in Hj as [-> _]. simpl. intros [= <-] [= <-].
  unfold rect_contains. cbn [rect pr_x pr_y pr_w pr_h sb_rect]. unfold PANEL_ROW_H.
  rewrite !andb_true_iff, !Z.leb_le, !Z.ltb_lt. lia.
Qed.

(* ------------------------------------------------------------------------ *)
(** ** The card is drawn *)

Lemma str_len_cons c s : str_len (c :: s) = str_len [c] + str_len s.
Proof. apply (str_len_app [c]). Qed.
Lemma str_len_one c : 1 <= str_len [c].
Proof.
  unfold str_len. cbn [Utf8.encode]. rewrite app_nil_r. pose proof (Utf8.encode_char_nonempty c). lia.
Qed.

Lemma split_at_byte_app a b : split_at_byte (a ++ b) (str_len a) = Some (a, b).
Proof.
  induction a as [|c a IH]; [by destruct b|]. rewrite str_len_cons. cbn [app split_at_byte].
  pose proof (str_len_one c). pose proof (str_len_nonneg a).
  rewrite (proj2 (Z.eqb_neq _ _)), (proj2 (Z.ltb_ge _ _)) by lia.
  replace (str_len [c] + str_len a - str_len [c]) with (str_len a) by lia. by rewrite IH.
Qed.
Lemma split_at_byte_Some s n a b : split_at_byte s n = Some (a, b) -> s = a ++ b /\ str_len a = n.
Proof.
  revert n a b. induction s as [|c s IH]; intros n a b; cbn [split_at_byte].
  - destruct (Z.eqb_spec n 0) as [->|]; [|done]. by intros [= <- <-].
  - destruct (Z.eqb_spec n 0) as [->|]; [by intros [= <- <-]|]. case_match; [done|].
    intros ([a' b'] & Hs & [= <- <-])%bind_Some. apply IH in Hs as [-> He]. simpl. split; [done|]. rewrite str_len_cons. lia.
Qed.

Lemma str_slice_total s start stop :
  start <= stop -> is_Some (split_at_byte s start) -> is_Some (split_at_byte s stop) -> is_Some (str_slice s start stop).
Proof.
  intros Hle [[a b] Ha] [[c d] Hc]. unfold str_slice. rewrite Hc. cbn [mbind option_bind fst].
  apply split_at_byte_Some in Ha as [Ha <-]. apply split_at_byte_Some in Hc as [Hc <-].
  assert (a `prefix_of` c) as [k ->]; [|rewrite split_at_byte_app; eauto].
  destruct (prefix_weak_total a c s) as [H|[k ->]]; [by eexists|by eexists|done|].
  destruct k as [|x k]; [by rewrite app_nil_r|]. rewrite str_len_app, str_len_cons in Hle.
  pose proof (str_len_one x). pose proof (str_len_nonneg k). lia.
Qed.

Lemma boundary_min s a b :
  is_Some (split_at_byte s a) -> is_Some (split_at_byte s b) -> is_Some (split_at_byte s (Z.min a b)).
Proof. intros Ha Hb. by destruct (Z.min_spec a b) as [[_ ->]|[_ ->]]. Qed.

(** The colours of a palette are colours. *)
Definition palette_ok (p : RunPalette) : Prop := colour (rp_ascii p) /\ colour (rp_native p) /\ colour (rp_escaped p).
Lemma colour_of_palette p c : palette_ok p -> colour (palette_of p c).
Proof. intros (? & ? & ?). by destruct c. Qed.

Lemma colour_bytes l : (3 <= length l)%nat -> forallb (fun v => (0 <=? v) && (v <=? 255)) l = true -> colour l.
Proof.
  intros Hl Hb. split; [done|]. apply Forall_forall. intros v Hv. rewrite forallb_forall in Hb.
  apply list_elem_of_In, Hb in Hv. unfold is_u8, u8_max. unbool. lia.
Qed.
Ltac solve_colour := (apply colour_bytes; [simpl; lia|reflexivity]) || (split; [apply colour_bytes; [simpl; lia|reflexivity]|reflexivity]).

Lemma palettes_ok : palette_ok NAME_PALETTE /\ palette_ok TAG_PALETTE.
Proof. repeat split; solve_colour. Qed.

Lemma runs_of_total face atlas t palette end_ runs :
  palette_ok palette -> is_Some (split_at_byte t end_) ->
  (forall from to class, (from, to, class) ∈ runs -> is_Some (split_at_byte t from) /\ is_Some (split_at_byte t to)) ->
  exists out, runs_of face atlas t palette end_ runs = Some out /\ Forall (fun rc => colour rc.2) out.
Proof.
  intros Hp He. induction runs as [|[[from to] class] runs IH]; intros Hr; cbn [runs_of]; [eauto|].
  destruct IH as (out & Ho & Hc); [intros f t' c Hin; apply (Hr f t' c); by right|].
  destruct (Z.leb_spec (Z.min to end_) (Z.min from end_)); [eauto|].
  destruct (Hr from to class) as [Hf Ht]; [by left|].
  destruct (str_slice_total t (Z.min from end_) (Z.min to end_)) as [run ->]; [lia|by apply boundary_min..|].
  rewrite Ho. cbn [mbind option_bind]. eexists. split; [done|]. case_match; [|done]. constructor; [|done].
  by apply colour_of_palette.
Qed.

Section drawing.
Context (face : Face) (atlas : Atlas) (Hface : face_ok face) (Hatlas : atlas_ok atlas).
Context (Hdots : vetted face atlas ELLIPSIS = true).
Context (height : Z) (Hh : 0 <= height).
Let len := (Z.to_nat height * Z.to_nat CARD_WIDTH * 4)%nat.

Lemma steady_transcribed t x baseline max_w palette :
  transcript_ok t -> palette_ok palette ->
  steady len (draw_transcribed face atlas height t x baseline max_w palette).
Proof using Hface Hatlas Hdots Hh.
  intros Ht Hp out Hb Ha. unfold draw_transcribed. destruct (vetted face atlas (tr_text t)); cbn [negb]; [|by apply steady_keep].
  cbv zeta. set (cut := elide_vetted _ _ _ _).
  assert (is_Some (split_at_byte (tr_text t) (default (str_len (tr_text t)) cut))) as He.
  { destruct cut as [c|] eqn:Hc; cbn [default].
    - apply elide_vetted_spec in Hc as (p & [k Hk] & <- & _). rewrite Hk, split_at_byte_app. eauto.
    - pose proof (split_at_byte_app (tr_text t) []) as H. rewrite app_nil_r in H. cbn. rewrite H. eauto. }
  destruct (runs_of_total face atlas (tr_text t) palette _ (tr_runs t) Hp He Ht) as (runs & -> & Hc). cbn [mbind option_bind].
  rewrite Hdots. assert (Forall (fun rc : Str * list Z => colour rc.2) (runs ++ [(ELLIPSIS, MUTED_FG)])) as Hc'
    by (apply Forall_app; split; [done|]; apply Forall_singleton; solve_colour).
  destruct cut; cbn [mbind option_bind]; (edestruct (draw_runs_steady CARD_WIDTH height) as (w & out' & -> & Hb' & Ha');
    [done|exact Hh|exact Hface|exact Hatlas|first [exact Hc'|exact Hc]|exact Hb|exact Ha|]); exists out'; by split.
Qed.

Lemma steady_button action focused x y w :
  0 <= x -> 0 <= w -> x + w <= CARD_WIDTH -> 0 <= y -> y + BUTTON_H <= 1073741824 ->
  steady len (draw_button face atlas height action focused x y w).
Proof using Hface Hatlas Hh.
  intros Hx Hwd Hxw Hy Hyb. unfold draw_button. cbv zeta. unfold CARD_WIDTH in *. unfold BUTTON_H in *.
  assert (forall rgba t, opaque rgba -> 0 < t <= 2 -> steady len (stroke_rect 560 height (rect x y w 32) rgba t)) as Hs.
  { intros rgba t Ho Hth. apply steady_stroke; unfold fits_i32, i32_min; cbn [rect pr_x pr_y pr_w pr_h]; try done; lia. }
  apply steady_then; [apply steady_fill; [done|done|solve_colour]|].
  apply steady_then; [destruct focused; apply Hs; [solve_colour|unfold BORDER; lia|solve_colour|lia]|].
  apply steady_draw; [done|done|done|done|solve_colour].
Qed.

Lemma draw_each_spec actions focused i x y w out :
  0 <= x -> 0 <= w -> x + Z.of_nat (length actions) * (w + BUTTON_GAP) - BUTTON_GAP <= CARD_WIDTH ->
  0 <= y -> y + BUTTON_H <= 1073741824 -> buffer len out -> all_opaque out ->
  exists out', draw_each face atlas height actions focused i x y w out
    = Some (imap (fun k a => {| bb_action := a; bb_rect := rect (x + Z.of_nat k * (w + BUTTON_GAP)) y w BUTTON_H |}) actions, out')
    /\ buffer len out' /\ all_opaque out'.
Proof using Hface Hatlas Hh.
  revert i x out. induction actions as [|a actions IH]; intros i x out Hx Hwd Hsum Hy Hyb Hb Ha; cbn [draw_each]; [by eauto|].
  cbn [length] in Hsum. rewrite Nat2Z.inj_succ in Hsum. unfold BUTTON_GAP in *.
  assert (0 <= Z.of_nat (length actions) * (w + 10)) by (apply Z.mul_nonneg_nonneg; lia).
  destruct (steady_button a (bool_decide (focused = Some i)) x y w ltac:(lia) ltac:(lia) ltac:(lia) Hy Hyb out Hb Ha)
    as (out1 & -> & Hb1 & Ha1). cbn [mbind option_bind].
  destruct (IH (S i) (x + (w + 10)) out1) as (out2 & -> & Hb2 & Ha2); [lia|lia|nia|done..|].
  exists out2. split; [|done]. cbn [mbind option_bind imap]. rewrite Z.mul_0_l, Z.add_0_r. do 3 f_equal.
  apply imap_ext. intros k b _. cbn [compose]. do 2 f_equal. lia.
Qed.

Lemma draw_buttons_spec actions focused y out :
  (length actions <= 51)%nat -> 0 <= y -> y + BUTTON_H <= 1073741824 -> buffer len out -> all_opaque out ->
  exists out', draw_buttons face atlas height actions focused y out = Some (control_boxes actions y, out')
    /\ buffer len out' /\ all_opaque out'.
Proof using Hface Hatlas Hh.
  intros Hn Hy Hyb Hb Ha. unfold draw_buttons, control_boxes. cbv zeta.
  destruct (Z.eqb_spec (Z.of_nat (length actions)) 0) as [Hz|Hz]; [by eauto|]. cbn [orb].
  fold (control_w (Z.of_nat (length actions))). destruct (Z.eqb_spec (control_w (Z.of_nat (length actions))) 0) as [Hc|Hc]; [by eauto|].
  destruct (control_w_pos (Z.of_nat (length actions)) ltac:(lia)) as [H0 H1].
  destruct (control_inside (Z.of_nat (length actions)) (length actions - 1) ltac:(lia) ltac:(lia)) as [H2 H3].
  fold (control_x (Z.of_nat (length actions))). set (n := Z.of_nat (length actions)) in *.
  assert (CONTENT_X <= control_x n) as Hx.
  { pose proof (control_inside n 0 ltac:(lia) ltac:(lia)). lia. }
  unfold CONTENT_X, BORDER, PAD_X, BUTTON_GAP in *.
  apply draw_each_spec; [lia|lia| |done..]. fold n. unfold BUTTON_GAP. rewrite Nat2Z.inj_sub in H3 by lia. fold n in H3. nia.
Qed.

Lemma steady_slot content y index :
  panel_ok content -> 0 <= y -> y + PANEL_H <= 1073741824 -> (index < PANEL_ROWS)%nat ->
  steady len (draw_slot face atlas height content y index).
Proof using Hface Hatlas Hdots Hh.
  intros Hp Hy Hyb Hi. unfold draw_slot. destruct (pn_rows content !! index) as [row|] eqn:Hrow; [|apply steady_keep].
  eapply Forall_lookup_1 in Hp as [Hname Htag]; [|exact Hrow]. destruct palettes_ok as [HN HT].
  unfold PANEL_H, PANEL_ROW_H, PANEL_ROWS in *. cbv zeta.
  apply steady_then.
  { case_bool_decide; [|apply steady_keep]. apply steady_then; [apply steady_fill; [done|done|solve_colour]|].
    unfold slot_rect. rewrite i32_wrap_id by (unfold fits_i32, i32_min, PANEL_ROW_H; lia).
    apply steady_stroke; unfold fits_i32, i32_min, slot_w, BORDER, PANEL_ROW_H, CONTENT_W, CARD_WIDTH, CONTENT_X, PANEL_THUMB_W, PAD_X, BORDER;
      cbn [rect pr_x pr_y pr_w pr_h]; try lia; solve_colour. }
  apply steady_then; [by apply steady_transcribed|].
  apply steady_then; [destruct (script_label _); [apply steady_draw; [done..|solve_colour]|apply steady_keep]|].
  destruct (pr_tag row) as [tag|] eqn:Ht; [|apply steady_keep]. apply steady_transcribed; [by apply Htag|done].
Qed.

Lemma draw_panel_spec content y out :
  panel_ok content -> 0 <= y -> y + PANEL_H <= 1073741824 -> buffer len out -> all_opaque out ->
  exists out', draw_panel face atlas height content y out = Some (slots_at y, out') /\ buffer len out' /\ all_opaque out'.
Proof using Hface Hatlas Hdots Hh.
  intros Hp Hy Hyb Hb Ha. unfold draw_panel.
  destruct (steady_for_range len PANEL_ROWS 0 (draw_slot face atlas height content y)
    ltac:(intros i Hi; apply steady_slot; [done|done|done|lia]) out Hb Ha) as (out1 & -> & Hb1 & Ha1). cbn [mbind option_bind].
  assert (steady len (fun px => if Z.of_nat PANEL_ROWS <? pn_total content then
      let '(thumb_y, thumb_h) := thumb (pn_offset content) (pn_total content) in
      fill_rect CARD_WIDTH height (rect (CONTENT_X + CONTENT_W - PANEL_THUMB_W) (i32_wrap (y + thumb_y)) PANEL_THUMB_W thumb_h) ACCENT px
      else Some px)) as Hs.
  { case_match; [|apply steady_keep]. destruct (thumb _ _). apply steady_fill; [done|done|solve_colour]. }
  destruct (Hs out1 Hb1 Ha1) as (out2 & -> & Hb2 & Ha2). cbn [mbind option_bind].
  exists out2. split; [|done]. do 2 f_equal. unfold slots_at. apply List.map_ext_in. intros i Hi.
  apply List.in_seq in Hi. unfold slot_rect. rewrite i32_wrap_id; [done|].
  unfold PANEL_H, PANEL_ROWS, fits_i32, i32_min, PANEL_ROW_H in *. lia.
Qed.

Context (Hlines : lines_ok face).

Lemma row_below row rows y :
  row_ok row -> Forall row_ok rows -> 0 <= y -> y + heights face (row :: rows) <= 1073741824 ->
  i32_wrap (y + i32_wrap (row_height face row)) = y + row_height face row
  /\ 0 <= y + row_height face row /\ y + row_height face row + heights face rows <= 1073741824 /\ 0 <= heights face rows.
Proof using Hlines.
  clear len. intros Hr Hrs Hy Hsum. cbn [heights] in Hsum. pose proof (row_height_bounds face row Hlines Hr).
  pose proof (heights_nonneg face rows Hlines Hrs).
  rewrite (i32_wrap_id (row_height face row)), i32_wrap_id by (unfold fits_i32, i32_min; lia). lia.
Qed.

Lemma draw_rows_spec rows y controls panel out :
  Forall row_ok rows -> Forall (fun row => forall a f, row = RButtons a f -> (length a <= 51)%nat) rows ->
  0 <= y -> y + heights face rows <= 1073741824 -> buffer len out -> all_opaque out ->
  exists out', draw_rows face atlas height rows y controls panel out = Some (lay_out face rows y controls panel, out')
    /\ buffer len out' /\ all_opaque out'.
Proof using Hface Hatlas Hdots Hh Hlines.
  intros Hr Hn. revert y controls panel out. induction Hr as [|row rows Hrow Hrows IH]; intros y controls panel out Hy Hsum Hb Ha;
    cbn [draw_rows lay_out]; [by eauto|].
  apply Forall_cons in Hn as [Hn Hns]. destruct (row_below row rows y Hrow Hrows Hy Hsum) as (Hwrap & Hy' & Hsum' & Hnn).
  rewrite Hwrap.
  destruct row as [n| |s px rgb|t w|actions focused|content]; cbn [row_ok] in Hrow.
  - apply IH; done.
  - destruct (steady_fill CARD_WIDTH height ltac:(done) Hh (rect CONTENT_X y CONTENT_W RULE_H) RULE_RGBA ltac:(solve_colour) out Hb Ha)
      as (out1 & -> & Hb1 & Ha1). by apply IH.
  - destruct (steady_draw CARD_WIDTH height ltac:(done) Hh face atlas Hface Hatlas s px CONTENT_X
      (i32_wrap (y + i32_wrap (lm_ascent (line_metrics face px)))) rgb Hrow out Hb Ha) as (out1 & -> & Hb1 & Ha1). by apply IH.
  - destruct palettes_ok as [HN _].
    destruct (steady_transcribed t CONTENT_X (i32_wrap (y + i32_wrap (lm_ascent (line_metrics face NAME_PX)))) w NAME_PALETTE Hrow HN out Hb Ha)
      as (out1 & -> & Hb1 & Ha1). by apply IH.
  - destruct (draw_buttons_spec actions focused y out) as (out1 & -> & Hb1 & Ha1); [by eapply Hn|done| |done..|by apply IH].
    cbn [row_height heights] in *. lia.
  - destruct (draw_panel_spec content y out) as (out1 & -> & Hb1 & Ha1); [done|done| |done..|by apply IH].
    cbn [row_height heights] in *. lia.
Qed.
End drawing.

Lemma rows_height_sum face rows :
  lines_ok face -> Forall row_ok rows -> heights face rows <= 1073741824 -> rows_height face rows = heights face rows.
Proof.
  intros Hl Hr Hsum. unfold rows_height.
  assert (forall acc, 0 <= acc -> acc + heights face rows <= 1073741824 ->
    fold_left (fun h row => u32_wrapping_add h (row_height face row)) rows acc = acc + heights face rows) as H;
    [|rewrite (H 0) by lia; lia].
  clear Hsum. induction Hr as [|row rows Hrow Hrows IH]; intros acc Ha Hsum; cbn [fold_left heights] in *; [lia|].
  pose proof (row_height_bounds face row Hl Hrow). pose proof (heights_nonneg face rows Hl Hrows).
  assert (u32_wrapping_add acc (row_height face row) = acc + row_height face row) as ->
    by (unfold u32_wrapping_add, u32_max; apply Z.mod_small; lia).
  rewrite IH; lia.
Qed.

(** A card is drawn: opaque everywhere, its controls and slots where its rows
    lay them. *)
Lemma draw_card_spec face atlas rows :
  face_ok face -> atlas_ok atlas -> vetted face atlas ELLIPSIS = true -> lines_ok face ->
  Forall row_ok rows -> Forall (fun row => forall a f, row = RButtons a f -> (length a <= 51)%nat) rows ->
  heights face rows <= 1000000 ->
  exists rgba, draw_card face atlas rows =
    (let '(controls, panel) := lay_out face rows (BORDER + PAD_TOP) [] None in
     Some {| card_rgba := rgba; card_width := CARD_WIDTH; card_height := 44 + heights face rows;
            card_buttons := omap as_choice controls; card_controls := controls; card_panel := panel |})
    /\ Z.of_nat (length rgba) = CARD_WIDTH * (44 + heights face rows) * BYTES_PER_PIXEL /\ Forall is_u8 rgba /\ all_opaque rgba.
Proof.
  intros Hface Hatlas Hdots Hlines Hr Hn Hsum. unfold draw_card. cbv zeta.
  rewrite rows_height_sum by (done || lia). pose proof (heights_nonneg face rows Hlines Hr) as Hnn.
  assert (u32_wrapping_add (PAD_TOP + PAD_BOTTOM + 2 * BORDER) (heights face rows) = 44 + heights face rows) as ->
    by (unfold u32_wrapping_add, u32_max, PAD_TOP, PAD_BOTTOM, BORDER; rewrite Z.mod_small; lia).
  set (height := 44 + heights face rows). assert (0 <= height) as Hh by (unfold height; lia).
  set (len := (Z.to_nat height * Z.to_nat CARD_WIDTH * 4)%nat).
  set (n := Z.to_nat _). assert (n = len) as -> by (unfold n, len, CARD_WIDTH, BYTES_PER_PIXEL; lia).
  rewrite (proj2 (canvas_new_buffer CARD_WIDTH height ltac:(done) Hh (repeat 0 len))) by apply repeat_length. cbn [negb].
  destruct (fresh_canvas CARD_WIDTH height CARD_BG ltac:(done) Hh ltac:(solve_colour) _ (zeros_buffer len)) as (filled & -> & Hbf & Haf).
  cbn [mbind option_bind].
  destruct (steady_stroke CARD_WIDTH height ltac:(done) Hh (rect 0 0 CARD_WIDTH height) ACCENT BORDER ltac:(solve_colour)) with (out := filled)
    as (out1 & -> & Hb1 & Ha1); [unfold fits_i32, i32_min, BORDER, CARD_WIDTH; cbn [rect pr_x pr_y pr_w pr_h]; unfold height; lia..|done|done|].
  cbn [mbind option_bind].
  destruct (draw_rows_spec face atlas Hface Hatlas Hdots height Hh Hlines rows (BORDER + PAD_TOP) [] None out1)
    as (out2 & -> & Hb2 & Ha2); [done|done|done|unfold BORDER, PAD_TOP; lia|done|done|].
  cbn [mbind option_bind]. destruct (lay_out _ _ _ _ _) as [controls panel]. exists out2. split_and!; [done| |apply Hb2|done].
  destruct Hb2 as [-> _]. unfold len, CARD_WIDTH, BYTES_PER_PIXEL. lia.
Qed.

(* ------------------------------------------------------------------------ *)
(** ** The rows of a prompt *)

(** Rows that are neither controls nor a panel. *)
Definition plain (row : Row) : Prop :=
  match row with
  | RSpace n => 0 <= n | RRule => True | RLine _ _ rgb => colour rgb | RTranscribed t _ => transcript_ok t
  | _ => False
  end.
Lemma plain_ok row : plain row -> row_ok row.
Proof. by destruct row. Qed.

Lemma lay_out_app face a b y controls panel :
  lay_out face (a ++ b) y controls panel
    = let '(controls, panel) := lay_out face a y controls panel in lay_out face b (y + heights face a) controls panel.
Proof.
  revert y controls panel. induction a as [|row a IH]; intros y controls panel; cbn [app lay_out heights]; [by rewrite Z.add_0_r|].
  rewrite IH, Z.add_assoc. done.
Qed.
Lemma lay_out_plain face rows y controls panel : Forall plain rows -> lay_out face rows y controls panel = (controls, panel).
Proof.
  intros Hp. revert y. induction Hp as [|row rows Hr _ IH]; intros y; cbn [lay_out]; [done|].
  destruct row; cbn [plain] in Hr; try done; apply IH.
Qed.

Section rows.
Context (face : Face) (atlas : Atlas).

Lemma wrapped_plain s px rgb n : colour rgb -> Forall plain (wrapped face atlas s px rgb n).
Proof. intros Hc. apply Forall_fmap, Forall_forall. done. Qed.
Lemma field_plain label values : Forall plain (field face atlas label values).
Proof.
  unfold field. constructor; [solve_colour|]. constructor; [done|]. apply Forall_app. split; [|by constructor].
  induction values as [|v values IH]; simpl; [constructor|]. apply Forall_app. split; [apply wrapped_plain; solve_colour|done].
Qed.

Lemma wrapped_height s px rgb n : lines_ok face -> heights face (wrapped face atlas s px rgb n) <= 4096 * Z.of_nat n.
Proof.
  intros Hl. pose proof (wrap_length face atlas px CONTENT_W s n) as Hn. unfold wrapped.
  assert (forall ls, heights face (List.map (fun l => line_row l px rgb) ls) <= 4096 * Z.of_nat (length ls)) as H;
    [|etrans; [apply H|lia]].
  induction ls as [|l ls IH]; cbn [List.map heights length row_height line_row]; [lia|]. specialize (Hl px). lia.
Qed.
Lemma field_height label values :
  lines_ok face -> heights face (field face atlas label values) <= 4096 * (1 + 3 * Z.of_nat (length values)) + 14.
Proof.
  intros Hl. unfold field. cbn [heights row_height line_row]. rewrite heights_app. cbn [heights row_height].
  pose proof (Hl LABEL_PX). unfold LABEL_GAP, GROUP_GAP.
  assert (forall vs, heights face (flat_map (fun v => wrapped face atlas v VALUE_PX VALUE_FG MAX_VALUE_LINES) vs) <= 4096 * 3 * Z.of_nat (length vs)) as Hv.
  { induction vs as [|v vs IH]; cbn [flat_map]; [simpl; lia|]. rewrite heights_app. cbn [length].
    pose proof (wrapped_height v VALUE_PX VALUE_FG MAX_VALUE_LINES Hl). unfold MAX_VALUE_LINES in *. lia. }
  specialize (Hv values). lia.
Qed.

Lemma verb_lines_length verbs : (length (verb_lines verbs) <= 7)%nat.
Proof.
  unfold verb_lines. pose proof (List.filter_length_le (fun row : Z * Str * Str => mask_contains verbs row.1.1) VERB_CATALOGUE) as H.
  rewrite <- (List.length_map verb_line) in H. case_match; cbn [length] in *; [lia|]. done.
Qed.

(** The rows above the panel, which say what is asked. *)
Definition request_rows (c : PromptContent) : list Row :=
  line_row TITLE TITLE_PX TITLE_FG :: RSpace 6 :: wrapped face atlas SUBTITLE LABEL_PX MUTED_FG 2
  ++ [RSpace 16; RRule; RSpace 16]
  ++ field face atlas LABEL_PRINCIPAL [pc_principal c]
  ++ field face atlas LABEL_REALM [pc_realm c]
  ++ match pc_command c with Some command => field face atlas LABEL_LAUNCHES [command] | None => [] end
  ++ field face atlas LABEL_REQUESTS (verb_lines (pc_verbs c))
  ++ field face atlas LABEL_EXPIRES [expiry_line c].
Definition panel_rows_of (p : option PanelContent) : list Row :=
  match p with Some panel => [RSpace 12; RPanel panel] | None => [] end.

Lemma prompt_rows_split p :
  prompt_rows face atlas p = request_rows (sp_content p) ++ panel_rows_of (sp_panel p)
    ++ [RSpace 4; RRule; RSpace 16; RButtons (List.map ADecide (choices (sp_content p))) None].
Proof.
  unfold prompt_rows, request_rows, panel_rows_of. cbv zeta.
  set (gap := [RSpace 16; RRule; RSpace 16]). generalize (line_row TITLE TITLE_PX TITLE_FG). intros first.
  rewrite <- !app_comm_cons. by rewrite <- !app_assoc.
Qed.

Lemma request_plain c : Forall plain (request_rows c).
Proof.
  unfold request_rows. constructor; [solve_colour|]. constructor; [done|]. rewrite !Forall_app.
  split_and!; try apply field_plain; [apply wrapped_plain; solve_colour|by repeat constructor|].
  destruct (pc_command c); [apply field_plain|constructor].
Qed.

Lemma heights_cons row rows : heights face (row :: rows) = row_height face row + heights face rows.
Proof. done. Qed.
Lemma row_height_line s px rgb : row_height face (line_row s px rgb) = lm_height (line_metrics face px).
Proof. done. Qed.
Lemma row_height_space n : row_height face (RSpace n) = n.
Proof. done. Qed.
Lemma heights_nil : heights face [] = 0.
Proof. done. Qed.

Lemma command_height (command : option AuditedCommand) :
  lines_ok face ->
  heights face (match command with Some command => field face atlas LABEL_LAUNCHES [command] | None => [] end) <= 4096 * 4 + 14.
Proof.
  intros Hl. destruct command as [command|]; [|by rewrite heights_nil].
  pose proof (field_height LABEL_LAUNCHES [command] Hl) as H. cbn [length] in H. lia.
Qed.

Lemma request_height c : lines_ok face -> 0 <= heights face (request_rows c) <= 200000.
Proof.
  intros Hl. split; [apply heights_nonneg; [done|]; eapply Forall_impl; [apply request_plain|apply plain_ok]|].
  pose proof (Hl TITLE_PX) as H1. pose proof (wrapped_height SUBTITLE LABEL_PX MUTED_FG 2 Hl) as H2.
  pose proof (field_height LABEL_PRINCIPAL [pc_principal c] Hl) as H3. pose proof (field_height LABEL_REALM [pc_realm c] Hl) as H4.
  pose proof (field_height LABEL_REQUESTS (verb_lines (pc_verbs c)) Hl) as H5. pose proof (verb_lines_length (pc_verbs c)) as H6.
  pose proof (field_height LABEL_EXPIRES [expiry_line c] Hl) as H7. pose proof (command_height (pc_command c) Hl) as H8.
  assert (heights face [RSpace 16; RRule; RSpace 16] = 33) as H9 by done.
  cbn [length] in H3, H4, H7.
  unfold request_rows. rewrite !heights_cons, row_height_line, row_height_space, !heights_app, H9. lia.
Qed.

Definition panel_height (p : option PanelContent) : Z := match p with Some _ => 12 + PANEL_H | None => 0 end.
Lemma panel_rows_height p : heights face (panel_rows_of p) = panel_height p.
Proof. destruct p; cbn [panel_rows_of heights row_height panel_height]; lia. Qed.

Definition buttons_y (c : PromptContent) (p : option PanelContent) : Z :=
  BORDER + PAD_TOP + heights face (request_rows c) + panel_height p + 21.
Lemma prompt_height p :
  heights face (prompt_rows face atlas p) = heights face (request_rows (sp_content p)) + panel_height (sp_panel p) + 53.
Proof.
  rewrite prompt_rows_split, !heights_app, panel_rows_height. cbn [heights row_height]. unfold RULE_H, BUTTON_H. lia.
Qed.

Lemma prompt_layout p :
  lay_out face (prompt_rows face atlas p) (BORDER + PAD_TOP) [] None
    = (control_boxes (List.map ADecide (choices (sp_content p))) (buttons_y (sp_content p) (sp_panel p)),
       (fun _ => slots_at (BORDER + PAD_TOP + heights face (request_rows (sp_content p)) + 12)) <$> sp_panel p).
Proof.
  rewrite prompt_rows_split, !lay_out_app, (lay_out_plain face (request_rows _)) by apply request_plain.
  unfold buttons_y, RULE_H. generalize (heights face (request_rows (sp_content p))). intros h.
  destruct (sp_panel p); cbn [panel_rows_of app lay_out row_height panel_height fmap option_fmap option_map];
    (f_equal; try done; f_equal; unfold RULE_H; lia).
Qed.

Lemma choices_length c : (1 <= length (choices c) <= 3)%nat.
Proof. unfold choices. rewrite length_app, List.length_map. simpl. destruct (narrows _ _), (narrows _ _); simpl; lia. Qed.

Lemma choices_back cs y : (1 <= length cs <= 3)%nat ->
  let boxes := control_boxes (List.map ADecide cs) y in
  List.map cb_choice (omap as_choice boxes) = cs
  /\ List.map bb_rect boxes = List.map cb_rect (omap as_choice boxes).
Proof.
  intros Hl. unfold control_boxes. rewrite List.length_map. cbv zeta.
  assert (control_w (Z.of_nat (length cs)) <> 0) as Hw.
  { destruct (length cs) as [|[|[|[|n]]]]; try lia; vm_compute; done. }
  rewrite (proj2 (Z.eqb_neq (Z.of_nat (length cs)) 0)), (proj2 (Z.eqb_neq _ _) Hw) by lia. cbn [orb].
  assert (forall g : nat -> PRect, let boxes := imap (fun i a => {| bb_action := a; bb_rect := g i |}) (List.map ADecide cs) in
    List.map cb_choice (omap as_choice boxes) = cs /\ List.map bb_rect boxes = List.map cb_rect (omap as_choice boxes)) as H;
    [|exact (H (fun i => rect (control_x (Z.of_nat (length cs)) + Z.of_nat i * (control_w (Z.of_nat (length cs)) + BUTTON_GAP)) y
                          (control_w (Z.of_nat (length cs))) BUTTON_H))].
  clear. induction cs as [|c cs IH]; intros g; cbn [List.map imap]; [done|].
  destruct (IH (fun i => g (S i))) as [H1 H2]. split; simpl; f_equal; [exact H1|exact H2].
Qed.
End rows.

(* ------------------------------------------------------------------------ *)
(** ** Properties *)

(** Boxes on a card: inside it, of one size, and no point in two of them. *)
Definition laid (card : Card) (rects : list PRect) : Prop :=
  (forall r, r ∈ rects -> 0 <= pr_x r /\ pr_x r + pr_w r <= card_width card /\ 0 <= pr_y r /\ pr_y r + pr_h r <= card_height card
     /\ 0 < pr_w r /\ 0 < pr_h r)
  /\ (forall r r', r ∈ rects -> r' ∈ rects -> pr_w r = pr_w r' /\ pr_h r = pr_h r')
  /\ (forall i j r r' px py, i <> j -> rects !! i = Some r -> rects !! j = Some r' ->
        rect_contains r px py = true -> rect_contains r' px py = true -> False).

Lemma laid_controls card actions y :
  (1 <= length actions <= 3)%nat -> card_width card = CARD_WIDTH -> 0 <= y -> y + BUTTON_H <= card_height card ->
  laid card (List.map bb_rect (control_boxes actions y)).
Proof.
  intros Hn Hcw Hy Hyb. assert (forall i r, List.map bb_rect (control_boxes actions y) !! i = Some r ->
    exists b, control_boxes actions y !! i = Some b /\ bb_rect b = r) as Hback.
  { intros i r. rewrite list_lookup_fmap. destruct (control_boxes actions y !! i) as [b|]; [|done]. intros [= <-]. eauto. }
  assert (0 < control_w (Z.of_nat (length actions))) as Hwp.
  { destruct (length actions) as [|[|[|[|n]]]]; try lia; vm_compute; done. }
  assert (forall r, r ∈ List.map bb_rect (control_boxes actions y) -> pr_w r = control_w (Z.of_nat (length actions)) /\ pr_h r = BUTTON_H
    /\ pr_y r = y /\ 0 <= pr_x r /\ pr_x r + pr_w r <= CARD_WIDTH) as Hall.
  { intros r [i Hi]%list_elem_of_lookup. apply Hback in Hi as (b & Hb & <-).
    apply control_boxes_lookup in Hb as (a & Ha & _ & ->). cbn [rect pr_x pr_y pr_w pr_h]. apply lookup_lt_Some in Ha.
    destruct (control_inside (Z.of_nat (length actions)) i ltac:(lia) ltac:(lia)).
    unfold CONTENT_X, BORDER, PAD_X in *. split_and!; try done; lia. }
  unfold laid. split_and!.
  - intros r Hr. destruct (Hall r Hr) as (-> & -> & -> & ? & Hx). rewrite Hcw. unfold BUTTON_H in *.
    split_and!; lia.
  - intros r r' Hr Hr'. destruct (Hall r Hr) as (-> & -> & _), (Hall r' Hr') as (-> & -> & _). done.
  - intros i j r r' px py Hij Hi Hj. apply Hback in Hi as (a & Ha & <-). apply Hback in Hj as (b & Hb & <-).
    by eapply control_boxes_disjoint.
Qed.

Lemma laid_slots card y :
  card_width card = CARD_WIDTH -> 0 <= y -> y + PANEL_H <= card_height card -> laid card (List.map sb_rect (slots_at y)).
Proof.
  intros Hcw Hy Hyb. assert (forall i r, List.map sb_rect (slots_at y) !! i = Some r ->
    exists b, slots_at y !! i = Some b /\ sb_rect b = r) as Hback.
  { intros i r. rewrite list_lookup_fmap. destruct (slots_at y !! i) as [b|]; [|done]. intros [= <-]. eauto. }
  assert (forall r, r ∈ List.map sb_rect (slots_at y) -> pr_w r = slot_w /\ pr_h r = PANEL_ROW_H /\ pr_x r = CONTENT_X
    /\ y <= pr_y r /\ pr_y r + PANEL_ROW_H <= y + PANEL_H) as Hall.
  { intros r [i Hi]%list_elem_of_lookup. apply Hback in Hi as (b & Hb & <-). unfold slots_at in Hb.
    rewrite list_lookup_fmap in Hb. destruct (seq 0 PANEL_ROWS !! i) as [k|] eqn:Hk; [|done]. simpl in Hb. simplify_eq.
    apply lookup_seq in Hk as [-> Hk]. cbn [sb_rect rect pr_x pr_y pr_w pr_h].
    unfold PANEL_H, PANEL_ROW_H, PANEL_ROWS in *. split_and!; try done; lia. }
  unfold laid. split_and!.
  - intros r Hr. destruct (Hall r Hr) as (-> & -> & -> & ? & ?). rewrite Hcw.
    unfold PANEL_ROW_H, slot_w, CONTENT_W, CONTENT_X, CARD_WIDTH, PANEL_THUMB_W, BORDER, PAD_X in *. split_and!; lia.
  - intros r r' Hr Hr'. destruct (Hall r Hr) as (-> & -> & _), (Hall r' Hr') as (-> & -> & _). done.
  - intros i j r r' px py Hij Hi Hj. apply Hback in Hi as (a & Ha & <-). apply Hback in Hj as (b & Hb & <-).
    by eapply slots_disjoint.
Qed.

(** What the core ships: an atlas of bytes, and a face with a byte of coverage for
    each pixel, glyphs for the dots and lines of a sane height. *)
Record assets_ok (face : Face) (atlas : Atlas) : Prop := {
  ao_face : face_ok face; ao_atlas : atlas_ok atlas; ao_dots : vetted face atlas ELLIPSIS = true; ao_lines : lines_ok face }.

Section theorems.
Context (face : Face) (atlas : Atlas).
(** What a prompt's card comes to. *)
Lemma rasterize_spec p :
  assets_ok face atlas -> (forall panel, sp_panel p = Some panel -> panel_ok panel) ->
  exists rgba, rasterize face atlas p = Some
    {| card_rgba := rgba; card_width := CARD_WIDTH;
       card_height := 97 + heights face (request_rows face atlas (sp_content p)) + panel_height (sp_panel p);
       card_buttons := omap as_choice (control_boxes (List.map ADecide (choices (sp_content p)))
                                        (buttons_y face atlas (sp_content p) (sp_panel p)));
       card_controls := control_boxes (List.map ADecide (choices (sp_content p)))
                          (buttons_y face atlas (sp_content p) (sp_panel p));
       card_panel := (fun _ => slots_at (BORDER + PAD_TOP + heights face (request_rows face atlas (sp_content p)) + 12)) <$> sp_panel p |}
    /\ Z.of_nat (length rgba)
        = CARD_WIDTH * (97 + heights face (request_rows face atlas (sp_content p)) + panel_height (sp_panel p)) * BYTES_PER_PIXEL
    /\ Forall is_u8 rgba /\ all_opaque rgba.
Proof.
  intros [Hface Hatlas Hdots Hlines] Hpanel. pose proof (request_height face atlas (sp_content p) Hlines) as Hreq.
  assert (Forall row_ok (prompt_rows face atlas p)) as Hok.
  { rewrite prompt_rows_split. apply Forall_app. split; [eapply Forall_impl; [apply request_plain|apply plain_ok]|].
    apply Forall_app. split; [|by repeat constructor]. destruct (sp_panel p) as [panel|]; cbn [panel_rows_of]; [|constructor].
    constructor; [done|]. constructor; [by apply Hpanel|constructor]. }
  assert (Forall (fun row => forall a f, row = RButtons a f -> (length a <= 51)%nat) (prompt_rows face atlas p)) as Hn.
  { rewrite prompt_rows_split. apply Forall_app. split.
    - eapply Forall_impl; [apply request_plain|]. intros row Hrow a f ->. done.
    - apply Forall_app. split; [destruct (sp_panel p); cbn [panel_rows_of]; by repeat constructor|].
      do 3 (constructor; [done|]). constructor; [|constructor]. intros a f [= <- _]. rewrite List.length_map.
      pose proof (choices_length (sp_content p)). lia. }
  assert (0 <= panel_height (sp_panel p) <= 188) by (destruct (sp_panel p); cbn [panel_height]; unfold PANEL_H, PANEL_ROWS, PANEL_ROW_H; lia).
  destruct (draw_card_spec face atlas (prompt_rows face atlas p) Hface Hatlas Hdots Hlines Hok Hn) as (rgba & Hd & Hl & Hu & Ha);
    [rewrite prompt_height; lia|].
  exists rgba. unfold rasterize. rewrite Hd, prompt_layout. rewrite prompt_height in *. split_and!; [|rewrite Hl; lia|done|done].
  do 2 f_equal. lia.
Qed.

(** C15: the card that asks is always drawn, and offers exactly the petition's
    choices. Whatever the petition, and whatever picture of a folder sits in its
    panel, the renderer runs to the end and leaves a card of its declared size,
    opaque in every pixel, so nothing an app drew shows through it. Its buttons
    are the petition's choices, in their order; they are of one size, inside the
    card, and no point lies in two of them, so a click means one choice. The panel,
    when there is one, is eight slots laid the same way. *)
Theorem card_offers_choices (p : ShownPrompt)
  (Hassets : assets_ok face atlas) (Hpanel : forall panel, sp_panel p = Some panel -> panel_ok panel) :
  exists card, rasterize face atlas p = Some card
    /\ List.map cb_choice (card_buttons card) = choices (sp_content p)
    /\ laid card (List.map cb_rect (card_buttons card))
    /\ (is_Some (card_panel card) <-> is_Some (sp_panel p))
    /\ (forall slots, card_panel card = Some slots ->
          List.map sb_index slots = [0; 1; 2; 3; 4; 5; 6; 7] /\ laid card (List.map sb_rect slots))
    /\ Z.of_nat (length (card_rgba card)) = card_width card * card_height card * BYTES_PER_PIXEL
    /\ all_opaque (card_rgba card).
Proof.
  destruct (rasterize_spec p Hassets Hpanel) as (rgba & -> & Hlen & _ & Hop).
  pose proof (request_height face atlas (sp_content p) (ao_lines _ _ Hassets)) as Hreq.
  pose proof (choices_length (sp_content p)) as Hn.
  eexists. split; [reflexivity|]. cbn [card_rgba card_width card_height card_buttons card_controls card_panel].
  set (y := buttons_y face atlas (sp_content p) (sp_panel p)).
  destruct (choices_back (choices (sp_content p)) y Hn) as [Hchoices Hrects].
  assert (0 <= panel_height (sp_panel p)) by (destruct (sp_panel p); done).
  split_and!; [done| | | |done|done].
  - rewrite <- Hrects.
    apply laid_controls; cbn [card_width card_height]; rewrite ?List.length_map; [done|done|..]; unfold y, buttons_y, BORDER, PAD_TOP, BUTTON_H; lia.
  - rewrite fmap_is_Some. done.
  - intros slots Hs. destruct (sp_panel p) as [panel|]; [|done]. cbn [fmap option_fmap option_map] in Hs. simplify_eq.
    split; [done|]. apply laid_slots; cbn [card_width card_height panel_height]; [done|unfold BORDER, PAD_TOP; lia..].
Qed.

(** The size of a card and the places of its controls are those of its request:
    what a panel shows moves nothing. *)
Lemma card_panel_moves_nothing (c : PromptContent) (panel panel' : PanelContent) :
  assets_ok face atlas -> panel_ok panel -> panel_ok panel' ->
  exists card card', rasterize face atlas {| sp_content := c; sp_panel := Some panel |} = Some card
    /\ rasterize face atlas {| sp_content := c; sp_panel := Some panel' |} = Some card'
    /\ card_width card = card_width card' /\ card_height card = card_height card'
    /\ card_buttons card = card_buttons card' /\ card_panel card = card_panel card' /\ is_Some (card_panel card').
Proof.
  intros Ha Hp Hp'.
  destruct (rasterize_spec {| sp_content := c; sp_panel := Some panel |} Ha) as (rgba & -> & _); [by intros ? [= <-]|].
  destruct (rasterize_spec {| sp_content := c; sp_panel := Some panel' |} Ha) as (rgba' & -> & _); [by intros ? [= <-]|].
  do 2 eexists. repeat split. by eexists.
Qed.

(** A value among the rows: on consecutive lines, whole or cut with an ellipsis. *)
Definition shown_in (rows : list Row) (value : Str) : Prop :=
  exists before lines after, rows = before ++ List.map (fun l => RLine l VALUE_PX VALUE_FG) lines ++ after
    /\ (length lines <= MAX_VALUE_LINES)%nat /\ shows (ink value) lines.

Lemma shown_in_app a b v : shown_in a v \/ shown_in b v -> shown_in (a ++ b) v.
Proof.
  intros [(before & lines & after & -> & H)|(before & lines & after & -> & H)].
  - exists before, lines, (after ++ b). by rewrite <- !app_assoc.
  - exists (a ++ before), lines, after. by rewrite <- !app_assoc.
Qed.
Lemma shown_in_cons row rows v : shown_in rows v -> shown_in (row :: rows) v.
Proof. intros H. apply (shown_in_app [row]). by right. Qed.

Lemma field_shows label values v : v ∈ values -> shown_in (field face atlas label values) v.
Proof.
  intros Hv. unfold field. do 2 apply shown_in_cons. apply shown_in_app. left.
  induction values as [|w values IH]; [by apply elem_of_nil in Hv|]. cbn [flat_map]. apply shown_in_app.
  apply elem_of_cons in Hv as [->|Hv]; [left|right; by apply IH].
  destruct (wrap_shows face atlas VALUE_PX CONTENT_W w MAX_VALUE_LINES) as [Hs Hl]; [done|done|].
  exists [], (wrap face atlas w VALUE_PX CONTENT_W MAX_VALUE_LINES), []. by rewrite app_nil_r.
Qed.

Lemma verb_lines_In verbs row : row ∈ VERB_CATALOGUE -> mask_contains verbs row.1.1 = true -> verb_line row ∈ verb_lines verbs.
Proof.
  intros Hr Hm. unfold verb_lines.
  assert (verb_line row ∈ List.map verb_line (List.filter (fun row => mask_contains verbs row.1.1) VERB_CATALOGUE)) as Hin.
  { apply list_elem_of_In, List.in_map, List.filter_In. by rewrite <- list_elem_of_In. }
  case_match; [by apply elem_of_nil in Hin|done].
Qed.
Lemma verb_lines_back verbs line :
  line ∈ verb_lines verbs -> line = str "- (no verbs)" \/ exists row, row ∈ VERB_CATALOGUE /\ mask_contains verbs row.1.1 = true /\ line = verb_line row.
Proof.
  unfold verb_lines. destruct (List.map verb_line _) as [|l ls] eqn:Hl; [intros H%list_elem_of_singleton; by left|].
  rewrite <- Hl. intros Hin%list_elem_of_In. apply List.in_map_iff in Hin as (row & <- & [Hr Hm]%List.filter_In). right.
  exists row. by rewrite list_elem_of_In.
Qed.

(** Every verb an admitted petition can hold has a row in the catalogue. *)
Lemma catalogue_complete verbs n :
  mask_contains VALID_MASK verbs = true -> Z.land verbs UNSERVED_VERB_BITS = 0 -> 0 <= n -> Z.testbit verbs n = true ->
  exists row, row ∈ VERB_CATALOGUE /\ row.1.1 = 2 ^ n.
Proof.
  intros Hv Hu Hn Hb. assert (Z.testbit VALID_MASK n = true) as Hvn by (by eapply mask_contains_spec).
  assert (Z.testbit UNSERVED_VERB_BITS n = false) as Hun.
  { destruct (Z.testbit UNSERVED_VERB_BITS n) eqn:He; [|done]. assert (Z.testbit (Z.land verbs UNSERVED_VERB_BITS) n = true) as H
      by (by rewrite Z.land_spec, Hb, He). by rewrite Hu, Z.bits_0 in H. }
  assert (n < 10). { destruct (Z.lt_ge_cases n 10); [done|]. rewrite Z.bits_above_log2 in Hvn; [done|done|].
    apply Z.lt_le_trans with 10; [reflexivity|done]. }
  assert (forallb (fun n => negb (Z.testbit VALID_MASK n) || Z.testbit UNSERVED_VERB_BITS n
      || existsb (fun row => row.1.1 =? 2 ^ n) VERB_CATALOGUE) (List.map Z.of_nat (seq 0 10)) = true) as Hall by (by vm_compute).
  rewrite forallb_forall in Hall. specialize (Hall n). rewrite Hvn, Hun in Hall. cbn [negb orb] in Hall.
  assert (List.In n (List.map Z.of_nat (seq 0 10))) as Hin.
  { apply List.in_map_iff. exists (Z.to_nat n). split; [lia|]. apply List.in_seq. lia. }
  apply Hall, existsb_exists in Hin as (row & Hr & He%Z.eqb_eq). exists row. by rewrite list_elem_of_In.
Qed.

Lemma expiry_exact (c : PromptContent) :
  pc_expiry_ms c <> 0 -> exists n unit name, (unit, name) ∈ [(3600000, str " h"); (60000, str " min"); (1000, str " s"); (1, str " ms")]
    /\ n * unit = pc_expiry_ms c /\ expiry_line c = to_string n ++ name ++ str " after approval".
Proof.
  intros Hne. unfold expiry_line, duration_text. rewrite (proj2 (Z.eqb_neq _ _)) by done. set (ms := pc_expiry_ms c).
  assert (forall unit, unit <> 0 -> ms mod unit = 0 -> ms / unit * unit = ms) as Hdiv.
  { intros unit Hu Hm. pose proof (Z.div_mod ms unit Hu). lia. }
  set (units := [_; _; _; _]).
  assert (forall unit name, (unit, name) ∈ units -> unit <> 0 -> ms mod unit = 0 -> exists n u name', (u, name') ∈ units /\ n * u = ms
    /\ (to_string (ms / unit) ++ name) ++ str " after approval" = to_string n ++ name' ++ str " after approval") as Huse.
  { intros unit name Hin Hu Hm. exists (ms / unit), unit, name. split_and!; [done|by apply Hdiv|by rewrite app_assoc]. }
  destruct (Z.eqb_spec (ms mod 3600000) 0); [apply Huse; [by left|done|done]|].
  destruct (Z.eqb_spec (ms mod 60000) 0); [apply Huse; [by right; left|done|done]|].
  destruct (Z.eqb_spec (ms mod 1000) 0); [apply Huse; [by right; right; left|done|done]|].
  specialize (Huse 1 (str " ms")). rewrite Z.div_1_r in Huse. apply Huse; [by right; right; right; left|done|apply Z.mod_1_r].
Qed.

Lemma mask_contains_bit a n : 0 <= n -> Z.testbit a n = true -> mask_contains a (2 ^ n) = true.
Proof.
  intros Hn Hb. apply mask_contains_spec. intros m Ht. rewrite Z.pow2_bits_eqb in Ht by done. by apply Z.eqb_eq in Ht as <-.
Qed.

(** The card says what is being asked for, all of it and nothing else. Above
    its buttons stand the petitioner's identity, the realm, the program a launch
    would start, how long the grant lasts to the unit, and a line for each verb
    the petition holds and for no other; each on at most three lines which show
    every character of it, or end in an ellipsis and show how it begins. *)
Theorem card_shows_request (p : ShownPrompt)
  (Hvalid : mask_contains VALID_MASK (pc_verbs (sp_content p)) = true)
  (Hserved : Z.land (pc_verbs (sp_content p)) UNSERVED_VERB_BITS = 0) :
  let c := sp_content p in
  let rows := prompt_rows face atlas p in
  shown_in rows (pc_principal c) /\ shown_in rows (pc_realm c)
  /\ (forall command, pc_command c = Some command -> shown_in rows command)
  /\ shown_in rows (expiry_line c)
  /\ (pc_expiry_ms c <> 0 -> exists n unit name, (unit, name) ∈ [(3600000, str " h"); (60000, str " min"); (1000, str " s"); (1, str " ms")]
        /\ n * unit = pc_expiry_ms c /\ expiry_line c = to_string n ++ name ++ str " after approval")
  /\ (forall n, 0 <= n -> Z.testbit (pc_verbs c) n = true ->
        exists row, row ∈ VERB_CATALOGUE /\ row.1.1 = 2 ^ n /\ verb_line row ∈ verb_lines (pc_verbs c))
  /\ (forall line, line ∈ verb_lines (pc_verbs c) -> shown_in rows line)
  /\ (forall line, line ∈ verb_lines (pc_verbs c) -> line = str "- (no verbs)"
        \/ exists row, row ∈ VERB_CATALOGUE /\ mask_contains (pc_verbs c) row.1.1 = true /\ line = verb_line row).
Proof.
  cbv zeta. set (c := sp_content p) in *.
  assert (forall v, shown_in (request_rows face atlas c) v -> shown_in (prompt_rows face atlas p) v) as Hup
    by (intros v Hv; rewrite prompt_rows_split; apply shown_in_app; by left).
  assert (forall v, v ∈ [pc_principal c] \/ v ∈ [pc_realm c] \/ Some v = pc_command c \/ v ∈ verb_lines (pc_verbs c) \/ v ∈ [expiry_line c] ->
    shown_in (prompt_rows face atlas p) v) as Hshow.
  { intros v Hv. apply Hup. unfold request_rows. do 2 apply shown_in_cons. apply shown_in_app. right. apply shown_in_app. right.
    destruct Hv as [Hv|Hv]; apply shown_in_app; [left; by apply field_shows|right].
    destruct Hv as [Hv|Hv]; apply shown_in_app; [left; by apply field_shows|right].
    destruct Hv as [Hv|Hv]; apply shown_in_app; [left; destruct (pc_command c); simplify_eq; apply field_shows, list_elem_of_singleton; done|right].
    destruct Hv as [Hv|Hv]; apply shown_in_app; [left|right]; by apply field_shows. }
  split_and!.
  - apply Hshow. left. by apply list_elem_of_singleton.
  - apply Hshow. right. left. by apply list_elem_of_singleton.
  - intros command Hc. apply Hshow. auto.
  - apply Hshow. do 4 right. by apply list_elem_of_singleton.
  - apply expiry_exact.
  - intros n Hn Hb. destruct (catalogue_complete _ _ Hvalid Hserved Hn Hb) as (row & Hr & He). exists row. split_and!; [done|done|].
    apply verb_lines_In; [done|]. rewrite He. by apply mask_contains_bit.
  - intros line Hl. apply Hshow. auto 10.
  - apply verb_lines_back.
Qed.

(** *** The picker's card *)

Definition picker_title (ask : AskedFor) : Str * Str :=
  match ask with
  | AskFile false => (TITLE_PICK_FILE, CONSEQUENCE_READ)
  | AskFile true => (TITLE_PICK_FILE, CONSEQUENCE_WRITE)
  | AskDir => (TITLE_PICK_DIR, CONSEQUENCE_DIR)
  end.
Definition shown_or (t : Transcript) (empty : Str) : Row :=
  if bool_decide (tr_text t = []) then line_row empty NAME_PX MUTED_FG else RTranscribed t CONTENT_W.
(** The rows above the listing. *)
Definition picker_top (content : PickerContent) : list Row :=
  line_row (picker_title (pkc_ask content)).1 TITLE_PX TITLE_FG :: RSpace 6
  :: wrapped face atlas (picker_title (pkc_ask content)).2 LABEL_PX MUTED_FG 3
  ++ [RSpace 14; RRule; RSpace 14]
  ++ field face atlas LABEL_PRINCIPAL [pkc_principal content]
  ++ field face atlas LABEL_REALM [pkc_realm content]
  ++ [line_row LABEL_LOCATION LABEL_PX MUTED_FG; RSpace LABEL_GAP; shown_or (pkc_location content) LOCATION_ROOT;
      RSpace GROUP_GAP;
      line_row LABEL_FILTER LABEL_PX MUTED_FG; RSpace LABEL_GAP; shown_or (pn_query (pkc_panel content)) FILTER_EMPTY;
      RSpace 10].
Definition picker_focus (f : Focus) : option nat :=
  match f with FListing => None | FConfirm => Some 0%nat | FCancel => Some 1%nat end.
Definition picker_below (content : PickerContent) : list Row :=
  [RPanel (pkc_panel content); RSpace 10; RRule; RSpace 14; RButtons [AConfirm; ACancel] (picker_focus (pkc_focus content)); RSpace 10].

Lemma picker_rows_split content :
  picker_rows face atlas content = picker_top content ++ picker_below content ++ wrapped face atlas PICKER_HINT LABEL_PX MUTED_FG 2.
Proof.
  unfold picker_rows, picker_top, picker_below. fold (picker_title (pkc_ask content)).
  destruct (picker_title (pkc_ask content)) as [title consequence]. cbv zeta. cbn [fst snd].
  fold (shown_or (pkc_location content) LOCATION_ROOT) (shown_or (pn_query (pkc_panel content)) FILTER_EMPTY) (picker_focus (pkc_focus content)).
  generalize (shown_or (pkc_location content) LOCATION_ROOT) (shown_or (pn_query (pkc_panel content)) FILTER_EMPTY).
  intros r1 r2. set (gap := [RSpace 14; RRule; RSpace 14]). rewrite <- !app_comm_cons. rewrite <- !app_assoc. done.
Qed.

Definition picker_content_ok (content : PickerContent) : Prop :=
  transcript_ok (pkc_location content) /\ transcript_ok (pn_query (pkc_panel content)) /\ panel_ok (pkc_panel content).

Lemma shown_or_plain t empty : transcript_ok t -> plain (shown_or t empty).
Proof. intros Ht. unfold shown_or. case_bool_decide; [solve_colour|done]. Qed.
Lemma shown_or_height t empty : lines_ok face -> row_height face (shown_or t empty) <= 4096.
Proof. intros Hl. unfold shown_or. case_bool_decide; apply Hl. Qed.

Lemma picker_top_plain content : picker_content_ok content -> Forall plain (picker_top content).
Proof.
  intros (Hloc & Hq & _). unfold picker_top. constructor; [solve_colour|]. constructor; [done|]. rewrite !Forall_app.
  split_and!; try apply field_plain; [apply wrapped_plain; solve_colour|by repeat constructor|].
  constructor; [solve_colour|]. constructor; [done|]. constructor; [by apply shown_or_plain|]. constructor; [done|].
  constructor; [solve_colour|]. constructor; [done|]. constructor; [by apply shown_or_plain|]. by constructor.
Qed.

Lemma picker_top_height content :
  lines_ok face -> picker_content_ok content -> 0 <= heights face (picker_top content) <= 200000.
Proof.
  intros Hl Hok. split; [apply heights_nonneg; [done|]; eapply Forall_impl; [by apply picker_top_plain|apply plain_ok]|].
  pose proof (Hl TITLE_PX) as H1. pose proof (wrapped_height face atlas (picker_title (pkc_ask content)).2 LABEL_PX MUTED_FG 3 Hl) as H2.
  pose proof (field_height face atlas LABEL_PRINCIPAL [pkc_principal content] Hl) as H3.
  pose proof (field_height face atlas LABEL_REALM [pkc_realm content] Hl) as H4.
  pose proof (Hl LABEL_PX) as H5. pose proof (shown_or_height (pkc_location content) LOCATION_ROOT Hl) as H6.
  pose proof (shown_or_height (pn_query (pkc_panel content)) FILTER_EMPTY Hl) as H7.
  assert (heights face [RSpace 14; RRule; RSpace 14] = 29) as H9 by done. cbn [length] in H3, H4.
  unfold picker_top. rewrite !heights_cons, row_height_line, row_height_space, !heights_app, H9.
  rewrite !heights_cons, !row_height_line, !row_height_space, heights_nil. unfold LABEL_GAP, GROUP_GAP. lia.
Qed.

(** What a card is worth drawing: of its declared size, of bytes, opaque. *)
Definition card_ok (card : Card) : Prop :=
  card_width card = CARD_WIDTH /\ 0 <= card_height card <= 1000000
  /\ Z.of_nat (length (card_rgba card)) = card_width card * card_height card * BYTES_PER_PIXEL
  /\ Forall is_u8 (card_rgba card) /\ all_opaque (card_rgba card).

Lemma rasterize_ok p :
  assets_ok face atlas -> (forall panel, sp_panel p = Some panel -> panel_ok panel) ->
  exists card, rasterize face atlas p = Some card /\ card_ok card.
Proof.
  intros Hassets Hpanel. destruct (rasterize_spec p Hassets Hpanel) as (rgba & Hr & Hlen & Hu & Ha).
  eexists. split; [exact Hr|]. pose proof (request_height face atlas (sp_content p) (ao_lines _ _ Hassets)).
  assert (0 <= panel_height (sp_panel p) <= 188) by (destruct (sp_panel p); cbn [panel_height]; unfold PANEL_H, PANEL_ROWS, PANEL_ROW_H; lia).
  unfold card_ok. cbn [card_rgba card_width card_height]. split_and!; first [lia|done].
Qed.

Lemma rasterize_picker_spec content :
  assets_ok face atlas -> picker_content_ok content ->
  exists card, rasterize_picker face atlas content = Some card /\ card_ok card
    /\ card_buttons card = [] /\ List.map bb_action (card_controls card) = [AConfirm; ACancel]
    /\ laid card (List.map bb_rect (card_controls card))
    /\ (exists slots, card_panel card = Some slots /\ List.map sb_index slots = [0; 1; 2; 3; 4; 5; 6; 7]
          /\ laid card (List.map sb_rect slots)).
Proof.
  intros Hassets Hcontent. pose proof Hassets as [Hface Hatlas Hdots Hlines]. pose proof (picker_top_height content Hlines Hcontent) as Htop.
  pose proof (wrapped_height face atlas PICKER_HINT LABEL_PX MUTED_FG 2 Hlines) as Hhint.
  pose proof (wrapped_plain face atlas PICKER_HINT LABEL_PX MUTED_FG 2 ltac:(solve_colour)) as Hplain.
  pose proof (picker_top_plain content Hcontent) as Htp.
  assert (heights face (picker_below content) = 243) as Hbelow by done.
  assert (heights face (picker_rows face atlas content)
    = heights face (picker_top content) + 243 + heights face (wrapped face atlas PICKER_HINT LABEL_PX MUTED_FG 2)) as Hsum
    by (rewrite picker_rows_split, !heights_app, Hbelow; lia).
  assert (0 <= heights face (wrapped face atlas PICKER_HINT LABEL_PX MUTED_FG 2)) as Hnn
    by (apply heights_nonneg; [done|]; eapply Forall_impl; [exact Hplain|apply plain_ok]).
  assert (forall row, plain row -> forall a f, row = RButtons a f -> (length a <= 51)%nat) as Hno by (intros row Hr a f ->; done).
  destruct (draw_card_spec face atlas (picker_rows face atlas content) Hface Hatlas Hdots Hlines) as (rgba & Hd & Hlen & Hu & Ha).
  { rewrite picker_rows_split, !Forall_app. split_and!; [eapply Forall_impl; [exact Htp|apply plain_ok]| |eapply Forall_impl; [exact Hplain|apply plain_ok]].
    repeat (constructor; [first [done|apply Hcontent]|]). constructor. }
  { rewrite picker_rows_split, !Forall_app. split_and!; [eapply Forall_impl; [exact Htp|apply Hno]| |eapply Forall_impl; [exact Hplain|apply Hno]].
    repeat (constructor; [intros a f; (done || (intros [= <- _]; simpl; lia))|]). constructor. }
  { lia. }
  unfold rasterize_picker. rewrite Hd, Hsum, picker_rows_split, lay_out_app, (lay_out_plain face (picker_top content)) by done.
  rewrite lay_out_app. cbn [picker_below lay_out]. rewrite lay_out_plain by exact Hplain.
  eexists. split; [reflexivity|]. cbn [card_rgba card_width card_height card_buttons card_controls card_panel].
  cbn [row_height]. unfold RULE_H, BORDER, PAD_TOP. split_and!; [|done|done| |].
  - rewrite Hsum in Hlen. unfold card_ok. cbn [card_rgba card_width card_height]. split_and!; first [lia|done].
  - apply laid_controls; cbn [card_width card_height length]; unfold BUTTON_H, PANEL_H, PANEL_ROWS, PANEL_ROW_H; try done; lia.
  - eexists. split; [reflexivity|]. split; [done|]. apply laid_slots; cbn [card_width card_height]; unfold PANEL_H, PANEL_ROWS, PANEL_ROW_H; try done; lia.
Qed.

(** The card of a file picker grants nothing by itself. It is always drawn,
    opaque in every pixel, and no box on it is a choice a click could decide: its
    two controls hand over and cancel, in that order. They, and the eight slots of
    the listing, are inside the card, of one size each and apart. *)
Theorem picker_card_decides_nothing (content : PickerContent)
  (Hassets : assets_ok face atlas) (Hcontent : picker_content_ok content) :
  exists card, rasterize_picker face atlas content = Some card
    /\ card_buttons card = [] /\ List.map bb_action (card_controls card) = [AConfirm; ACancel]
    /\ laid card (List.map bb_rect (card_controls card))
    /\ (exists slots, card_panel card = Some slots /\ List.map sb_index slots = [0; 1; 2; 3; 4; 5; 6; 7]
          /\ laid card (List.map sb_rect slots))
    /\ all_opaque (card_rgba card).
Proof.
  destruct (rasterize_picker_spec content Hassets Hcontent) as (card & Hc & Hok & Hb & Ha & Hl & Hs).
  exists card. split_and!; try done. apply Hok.
Qed.
End theorems.

(* ------------------------------------------------------------------------ *)
(** ** A concrete card *)

(** No atlas, and a face whose every glyph is two pixels by three. *)
Definition no_atlas : Atlas := {| at_records := []; at_blob := []; at_count := 0 |}.
Definition box_face : Face :=
  {| fc_rasterize _ _ := {| gl_xmin := 0; gl_ymin := 0; gl_width := 2; gl_height := 3; gl_advance := f32_of_bits 1086324736;
                            gl_coverage := repeat 200 6 |};
     fc_covers _ := true; fc_line _ := Some (f32_of_bits 1099956224, f32_of_bits 1102053376) |}.

Lemma box_assets : assets_ok box_face no_atlas.
Proof.
  split.
  - intros c px. split; [done|]. by repeat constructor.
  - split; constructor.
  - by vm_compute.
  - intros px. vm_compute. by intros [=].
Qed.

Definition demo_content : PromptContent :=
  {| pc_principal := str "agent:demo"; pc_realm := str "realm-1"; pc_verbs := 515; pc_persistence := WhileRunning;
     pc_expiry_ms := 90000; pc_command := Some (str "/usr/bin/kiosk-browser") |}.
Definition demo_prompt : ShownPrompt := {| sp_content := demo_content; sp_panel := None |}.

Lemma card_offers_choices_witness :
  exists card, rasterize box_face no_atlas demo_prompt = Some card
    /\ List.map cb_choice (card_buttons card) = [Allow Once; Allow WhileRunning; Deny].
Proof.
  destruct (card_offers_choices box_face no_atlas demo_prompt box_assets) as (card & Hc & Hb & _); [done|].
  exists card. split; [exact Hc|]. rewrite Hb. reflexivity.
Defined.

Lemma card_shows_request_witness :
  shown_in (prompt_rows box_face no_atlas demo_prompt) (str "/usr/bin/kiosk-browser")
  /\ expiry_line demo_content = str "90 s after approval".
Proof.
  destruct (card_shows_request box_face no_atlas demo_prompt eq_refl eq_refl) as (_ & _ & Hcommand & _).
  split; [exact (Hcommand _ eq_refl)|by vm_compute].
Defined.

Definition plain_transcript (s : Str) : Transcript := {| tr_text := s; tr_runs := [(0, str_len s, Ascii)]; tr_groups := [Latin] |}.
Definition demo_listing : PickerContent :=
  {| pkc_principal := str "agent:demo"; pkc_realm := str "realm-1"; pkc_ask := AskFile false;
     pkc_location := {| tr_text := []; tr_runs := []; tr_groups := [] |};
     pkc_panel := {| pn_rows := [{| pr_name := plain_transcript (str "notes.txt"); pr_tag := None |}]; pn_highlight := Some 0;
                     pn_offset := 0; pn_total := 1; pn_query := {| tr_text := []; tr_runs := []; tr_groups := [] |} |};
     pkc_focus := FListing |}.

Lemma picker_card_decides_nothing_witness :
  exists card, rasterize_picker box_face no_atlas demo_listing = Some card /\ card_buttons card = [].
Proof.
  destruct (picker_card_decides_nothing box_face no_atlas demo_listing box_assets) as (card & Hc & Hb & _);
    [|exists card; exact (conj Hc Hb)].
  assert (forall s, transcript_ok (plain_transcript s)) as Hplain.
  { intros s from to class Hin%list_elem_of_singleton. injection Hin as -> -> ->. split.
    - destruct s; vm_compute; eauto.
    - pose proof (split_at_byte_app s []) as H. rewrite app_nil_r in H. cbn [tr_text plain_transcript]. rewrite H. eauto. }
  split; [|split]; [intros ? ? ? H; by apply elem_of_nil in H..|]. apply Forall_singleton.
  split; [apply Hplain|done].
Defined.
