(* ===== verification/Consent.v ===== *)
(** * The consent surface

    [ConsentSurface] of [crates/vitrin-core/src/consent/mod.rs] and the session's
    colour of [consent/indicator.rs]: which card is up, its cached raster, and what is
    composed over the human's view. [None] is a panic. *)

From S2P Require Import Prelude Text Transcript Capture Canvas Atlas Paint Lettering Petitions Uses Picker Card.
From S2P Require Geometry.

#[export] Instance Transcript_eq_dec : EqDecision Transcript.
Proof. solve_decision. Defined.
#[export] Instance PanelRow_eq_dec : EqDecision PanelRow.
Proof. solve_decision. Defined.
#[export] Instance PanelContent_eq_dec : EqDecision PanelContent.
Proof. solve_decision. Defined.
#[export] Instance AskedFor_eq_dec : EqDecision AskedFor.
Proof. solve_decision. Defined.
#[export] Instance Focus_eq_dec : EqDecision Focus.
Proof. solve_decision. Defined.
#[export] Instance PickerContent_eq_dec : EqDecision PickerContent.
Proof. solve_decision. Defined.

(* ------------------------------------------------------------------------ *)
(** ** The session's colour *)

Record TrustedIndicator : Type := { ti_rgba : list Z }.
Definition scale_channel (b : Z) : Z := 64 + b * 192 / 256.
(** [generate], on the bytes the kernel's generator gave. *)
Definition indicator_generate (raw : Z * Z * Z) : TrustedIndicator :=
  let '(r, g, b) := raw in {| ti_rgba := [scale_channel r; scale_channel g; scale_channel b; 255] |}.
Definition indicator_from_rgb (r g b : Z) : TrustedIndicator := {| ti_rgba := [r; g; b; 255] |}.
Definition indicator_color (t : TrustedIndicator) : list Z := ti_rgba t.

(** [fill_random]: the bytes, from what each call to the generator gave. *)
Inductive RandomCall : Type := RGave (bytes : Bytes) | RInterrupted | RFailed (errno : Z).
Inductive RandomError : Type := RandomErrno (errno : Z) | RandomEof.
Fixpoint fill_random (want : nat) (calls : list RandomCall) (filled : Bytes) : option (result Bytes RandomError) :=
  if (want <=? length filled)%nat then Some (Ok filled)
  else match calls with
       | [] => None
       | RInterrupted :: calls => fill_random want calls filled
       | RFailed e :: _ => Some (Err (RandomErrno e))
       | RGave [] :: _ => Some (Err RandomEof)
       | RGave bytes :: calls => fill_random want calls (filled ++ take (want - length filled) bytes)
       end.

(* ------------------------------------------------------------------------ *)
(** ** The surface *)

Definition TRUST_FRAME_THICKNESS : Z := 12.
Definition SCRIM_ALPHA : Z := 150.

Record ConsentSurface : Type := {
  cs_prompt : option ShownPrompt;
  cs_picker : option PickerContent;
  cs_generation : Z;
  cs_card : option Card;
  cs_card_generation : Z;
  cs_indicator : TrustedIndicator }.

Definition surface_new (indicator : TrustedIndicator) : ConsentSurface :=
  {| cs_prompt := None; cs_picker := None; cs_generation := 0; cs_card := None; cs_card_generation := 0;
     cs_indicator := indicator |}.

Definition set_content (prompt : option ShownPrompt) (picker : option PickerContent) (s : ConsentSurface) : ConsentSurface :=
  {| cs_prompt := prompt; cs_picker := picker; cs_generation := u64_wrapping_add (cs_generation s) 1;
     cs_card := cs_card s; cs_card_generation := cs_card_generation s; cs_indicator := cs_indicator s |}.
Definition set_card (card : option Card) (generation : Z) (s : ConsentSurface) : ConsentSurface :=
  {| cs_prompt := cs_prompt s; cs_picker := cs_picker s; cs_generation := cs_generation s; cs_card := card;
     cs_card_generation := generation; cs_indicator := cs_indicator s |}.

Definition surface_show (prompt : ShownPrompt) (s : ConsentSurface) : ConsentSurface :=
  match cs_picker s with Some _ => s | None => set_content (Some prompt) None s end.
Definition surface_show_picker (content : PickerContent) (s : ConsentSurface) : bool * ConsentSurface :=
  match cs_prompt s with
  | Some _ => (false, s)
  | None =>
      if bool_decide (cs_picker s = Some content) then (false, s)
      else (true, set_content None (Some content) s)
  end.
Definition surface_set_panel (panel : PanelContent) (s : ConsentSurface) : bool * ConsentSurface :=
  match cs_prompt s with
  | None => (false, s)
  | Some prompt =>
      if bool_decide (sp_panel prompt = None) || bool_decide (sp_panel prompt = Some panel) then (false, s)
      else (true, set_content (Some {| sp_content := sp_content prompt; sp_panel := Some panel |}) (cs_picker s) s)
  end.
Definition surface_dismiss (s : ConsentSurface) : ConsentSurface :=
  match cs_prompt s, cs_picker s with
  | None, None => s
  | _, _ => set_content None None (set_card None (cs_card_generation s) s)
  end.

Section surface.
Context (face : Face) (atlas : Atlas).

(** The card of the content that is up. *)
Definition content_card (s : ConsentSurface) : option (option Card) :=
  match cs_prompt s, cs_picker s with
  | Some prompt, _ => Some <$> rasterize face atlas prompt
  | None, Some picker => Some <$> rasterize_picker face atlas picker
  | None, None => Some None
  end.

(** [ConsentSurface::card]. *)
Definition surface_card (s : ConsentSurface) : option (option Card * ConsentSurface) :=
  match cs_prompt s, cs_picker s with
  | None, None => Some (None, s)
  | _, _ =>
      s ← (if bool_decide (cs_card s = None) || negb (cs_card_generation s =? cs_generation s)
           then card ← content_card s; Some (set_card card (cs_generation s) s)
           else Some s);
      Some (cs_card s, s)
  end.

Definition card_origin (view_width view_height : Z) (s : ConsentSurface) : option (option (Z * Z) * ConsentSurface) :=
  '(card, s) ← surface_card s;
  Some (option_map (fun c => centered (card_width c) (card_height c) view_width view_height) card, s).

Definition u32_sat_add (a b : Z) : Z := u32_saturating_add a b.

(** What goes over the view while a card is up: a scrim, the frame in the
    session's colour, the card. *)
Definition draw_over (indicator : TrustedIndicator) (card : Card) (width height : Z) (view : Pixels) : option Pixels :=
  let '(x, y) := centered (card_width card) (card_height card) width height in
  if negb (canvas_new view width height) then Some view
  else
    view ← darken SCRIM_ALPHA view;
    let t := TRUST_FRAME_THICKNESS in
    let frame := rect (x - t) (y - t) (u32_sat_add (card_width card) (2 * t)) (u32_sat_add (card_height card) (2 * t)) in
    view ← stroke_rect width height frame (indicator_color indicator) t view;
    blit_opaque width height (card_rgba card) (card_width card) (card_height card) x y view.

Definition composite_over (view : Pixels) (width height : Z) (s : ConsentSurface) : option (Pixels * ConsentSurface) :=
  '(card, s) ← surface_card s;
  match card with
  | None => Some (view, s)
  | Some card => view ← draw_over (cs_indicator s) card width height view; Some (view, s)
  end.
End surface.

Definition composite_trust_band (indicator : TrustedIndicator) (view : Pixels) (width height : Z) : option Pixels :=
  if negb (canvas_new view width height) then Some view
  else fill_rect width height (rect 0 0 width (Z.min Geometry.TRUST_BAND_HEIGHT height)) (indicator_color indicator) view.

(* ------------------------------------------------------------------------ *)
(** ** Runs of a surface *)

Inductive SurfaceOp : Type :=
| SShow (prompt : ShownPrompt)
| SShowPicker (content : PickerContent)
| SSetPanel (panel : PanelContent)
| SDismiss
| SCard
| SComposite (view : Pixels) (width height : Z).

Definition surface_op_ok (op : SurfaceOp) : Prop :=
  match op with
  | SShow p => forall panel, sp_panel p = Some panel -> panel_ok panel
  | SShowPicker content => picker_content_ok content
  | SSetPanel panel => panel_ok panel
  | SComposite view w h => 0 <= w <= 1073741824 /\ 0 <= h <= 1073741824 /\ Forall is_u8 view
  | _ => True
  end.


(** *** What is composited *)

(** A byte of the view with a card over it, its corner at [x] and [y]. *)
Definition over_at (indicator : TrustedIndicator) (card : Card) (width x y : Z) (j : nat) (v : Z) : Z :=
  let w := Z.to_nat width in
  let t := TRUST_FRAME_THICKNESS in
  if in_prect w (rect x y (card_width card) (card_height card)) j then blitted width (card_rgba card) (card_width card) x y j v
  else if in_prect w (rect (x - t) (y - t) (card_width card + 2 * t) (card_height card + 2 * t)) j
  then solid (indicator_color indicator) j v
  else if (j mod 4 =? 3)%nat then 255 else over_u8 0 v SCRIM_ALPHA.
Definition over_view (indicator : TrustedIndicator) (card : Card) (width height : Z) : nat -> Z -> Z :=
  let '(x, y) := centered (card_width card) (card_height card) width height in over_at indicator card width x y.

Definition indicator_ok (t : TrustedIndicator) : Prop := opaque (indicator_color t).

Lemma centered_bounds w h vw vh :
  0 <= w <= 1000000 -> 0 <= h <= 1000000 -> 0 <= vw <= 1073741824 -> 0 <= vh <= 1073741824 ->
  -1000000 <= (centered w h vw vh).1 <= 1073741824 /\ -1000000 <= (centered w h vw vh).2 <= 1073741824.
Proof.
  intros Hw Hh Hvw Hvh. unfold centered, i32_clamp, i32_min. cbn [fst snd].
  pose proof (Z.quot_rem' (Z.min (Z.max (vw - w) (-2147483648)) 2147483647) 2).
  pose proof (Z.quot_rem' (Z.min (Z.max (vh - h) (-2147483648)) 2147483647) 2).
  pose proof (Z.rem_bound_abs (Z.min (Z.max (vw - w) (-2147483648)) 2147483647) 2 ltac:(done)).
  pose proof (Z.rem_bound_abs (Z.min (Z.max (vh - h) (-2147483648)) 2147483647) 2 ltac:(done)). lia.
Qed.

Lemma draw_over_maps indicator card width height view :
  indicator_ok indicator -> card_ok card -> 0 <= width <= 1073741824 -> 0 <= height <= 1073741824 ->
  canvas_new view width height = true -> Forall is_u8 view ->
  draw_over indicator card width height view = Some (imap (over_view indicator card width height) view)
  /\ Forall is_u8 (imap (over_view indicator card width height) view).
Proof.
  intros Hind (Hcw & Hch & Hlen & Hu & _) Hw Hh Hcanvas Hview.
  pose proof (centered_bounds (card_width card) (card_height card) width height) as Hb. rewrite Hcw in Hb.
  specialize (Hb ltac:(unfold CARD_WIDTH; lia) Hch Hw Hh).
  unfold draw_over, over_view. rewrite Hcanvas, Hcw. cbn [negb].
  destruct (centered CARD_WIDTH (card_height card) width height) as [x y]. cbn [fst snd] in Hb. cbv zeta.
  set (t := TRUST_FRAME_THICKNESS). assert (t = 12) as Ht by done.
  assert (u32_sat_add CARD_WIDTH (2 * t) = CARD_WIDTH + 2 * t) as -> by done.
  assert (u32_sat_add (card_height card) (2 * t) = card_height card + 2 * t) as ->
    by (unfold u32_sat_add, u32_saturating_add, u32_max; lia).
  set (frame := rect (x - t) (y - t) (CARD_WIDTH + 2 * t) (card_height card + 2 * t)).
  apply (canvas_new_buffer width height ltac:(lia) ltac:(lia)) in Hcanvas.
  set (len := (Z.to_nat height * Z.to_nat width * 4)%nat) in *.
  assert (maps len (over_at indicator card width x y)
    (fun view => view ← darken SCRIM_ALPHA view; view ← stroke_rect width height frame (indicator_color indicator) t view;
       blit_opaque width height (card_rgba card) CARD_WIDTH (card_height card) x y view)) as Hmaps;
    [|destruct (Hmaps view ltac:(by split)) as [-> Hu']; done].
  eapply maps_ext.
  - eapply maps_then; [apply (darken_maps width height ltac:(lia) ltac:(lia)); by vm_compute|].
    eapply maps_then; [apply (stroke_opaque_maps width height ltac:(lia) ltac:(lia)); try done;
      unfold frame, fits_i32, i32_min, CARD_WIDTH; cbn [rect pr_x pr_y pr_w pr_h]; lia|].
    apply (blit_opaque_maps width height ltac:(lia) ltac:(lia)); [done|lia|done|by rewrite Hlen, Hcw].
  - intros j v Hj. unfold only, over_at. rewrite Hcw. cbv zeta.
    assert (ring width frame t j = in_prect (Z.to_nat width) frame j && negb (in_prect (Z.to_nat width) (rect x y CARD_WIDTH (card_height card)) j)) as ->.
    { unfold ring, frame. cbn [rect pr_x pr_y pr_w pr_h]. do 2 f_equal. unfold rect. do 2 f_equal; lia. }
    change (SCRIM_ALPHA =? 0) with false. fold t. fold frame.
    destruct (in_prect _ (rect x y _ _) j); [done|]. by destruct (in_prect _ frame j).
Qed.

Section runs.
Context (face : Face) (atlas : Atlas).

Definition surface_step (op : SurfaceOp) (s : ConsentSurface) : option ConsentSurface :=
  match op with
  | SShow p => Some (surface_show p s)
  | SShowPicker content => Some (surface_show_picker content s).2
  | SSetPanel panel => Some (surface_set_panel panel s).2
  | SDismiss => Some (surface_dismiss s)
  | SCard => '(_, s) ← surface_card face atlas s; Some s
  | SComposite view w h => '(_, s) ← composite_over face atlas view w h s; Some s
  end.
Fixpoint surface_run (ops : list SurfaceOp) (s : ConsentSurface) : option ConsentSurface :=
  match ops with [] => Some s | op :: ops => s ← surface_step op s; surface_run ops s end.

(** What holds of a surface: one card at most is up, its content can be drawn, and
    a raster kept for the current generation is the content's. *)
Record surface_wf (s : ConsentSurface) : Prop := {
  sw_one : cs_prompt s = None \/ cs_picker s = None;
  sw_prompt : forall p panel, cs_prompt s = Some p -> sp_panel p = Some panel -> panel_ok panel;
  sw_picker : forall content, cs_picker s = Some content -> picker_content_ok content;
  sw_generations : 0 <= cs_card_generation s <= cs_generation s;
  sw_fresh : forall card, cs_card s = Some card -> cs_card_generation s = cs_generation s ->
    content_card face atlas s = Some (Some card) }.

Context (Hassets : assets_ok face atlas).

Lemma surface_new_wf indicator : surface_wf (surface_new indicator).
Proof. split; simpl; try done. by left. Qed.

Lemma content_card_ok s :
  surface_wf s -> exists card, content_card face atlas s = Some card
    /\ (forall c, card = Some c -> card_ok c) /\ (card = None <-> cs_prompt s = None /\ cs_picker s = None).
Proof using Hassets.
  intros [_ Hp Hk _ _]. unfold content_card. destruct (cs_prompt s) as [p|]; [|destruct (cs_picker s) as [content|]].
  - destruct (rasterize_ok face atlas p Hassets) as (card & -> & Hok); [intros; by eapply Hp|].
    exists (Some card). split_and!; [done|by intros c [= <-]|by split; [|intros []]].
  - destruct (rasterize_picker_spec face atlas content Hassets) as (card & -> & Hok & _); [by apply Hk|].
    exists (Some card). split_and!; [done|by intros c [= <-]|by split; [|intros []]].
  - exists None. done.
Qed.

(** The card asked for is the content's, and asking changes nothing shown. *)
Lemma surface_card_spec s :
  surface_wf s -> exists card s', surface_card face atlas s = Some (card, s') /\ content_card face atlas s = Some card
    /\ surface_wf s' /\ cs_prompt s' = cs_prompt s /\ cs_picker s' = cs_picker s /\ cs_generation s' = cs_generation s
    /\ cs_indicator s' = cs_indicator s.
Proof using Hassets.
  intros Hwf. pose proof Hwf as [Hone Hp Hk Hg Hf]. destruct (content_card_ok s Hwf) as (card & Hcard & _ & Hnone).
  unfold surface_card.
  assert (exists s', (if bool_decide (cs_card s = None) || negb (cs_card_generation s =? cs_generation s)
      then card ← content_card face atlas s; Some (set_card card (cs_generation s) s) else Some s) = Some s'
    /\ (cs_card s' = card \/ (cs_prompt s = None /\ cs_picker s = None))
    /\ surface_wf s' /\ cs_prompt s' = cs_prompt s /\ cs_picker s' = cs_picker s /\ cs_generation s' = cs_generation s
    /\ cs_indicator s' = cs_indicator s) as (s' & Hs' & Hc' & Hrest).
  { destruct (_ || _) eqn:Hstale.
    - rewrite Hcard. eexists. split_and!; [reflexivity|by left| |done..].
      split; cbn; [done|done|done|lia|]. by intros c -> _.
    - exists s. split_and!; try done. left. apply orb_false_elim in Hstale as [Hc Hge].
      apply bool_decide_eq_false in Hc. apply negb_false_iff, Z.eqb_eq in Hge.
      destruct (cs_card s) as [c|] eqn:He; [|done]. specialize (Hf c eq_refl Hge). congruence. }
  destruct (cs_prompt s) as [p|] eqn:Hpe; [|destruct (cs_picker s) as [content|] eqn:Hke].
  1,2: rewrite Hs'; cbn [mbind option_bind]; destruct Hc' as [->|[??]]; [|done]; eauto 10.
  assert (card = None) as -> by (by apply Hnone). exists None, s. rewrite Hcard, Hpe, Hke. done.
Qed.

(** New content, with the generation it starts. *)
Lemma set_content_wf p k card s :
  surface_wf s -> cs_generation s < u64_max -> p = None \/ k = None ->
  (forall prompt panel, p = Some prompt -> sp_panel prompt = Some panel -> panel_ok panel) ->
  (forall content, k = Some content -> picker_content_ok content) ->
  surface_wf (set_content p k (set_card card (cs_card_generation s) s))
  /\ cs_generation (set_content p k (set_card card (cs_card_generation s) s)) = cs_generation s + 1.
Proof using.
  clear Hassets. intros [_ _ _ Hg _] Hlt Hone Hp Hk. cbn [set_content set_card cs_generation].
  assert (u64_wrapping_add (cs_generation s) 1 = cs_generation s + 1) as He by (apply u64_wrapping_add_small; lia).
  split; [|done]. split; cbn; rewrite ?He; try done; [lia|]. intros c _ Heq. lia.
Qed.

Lemma surface_dismiss_wf s :
  surface_wf s -> cs_generation s < u64_max ->
  surface_wf (surface_dismiss s) /\ cs_generation s <= cs_generation (surface_dismiss s) <= cs_generation s + 1.
Proof using.
  clear Hassets. intros Hwf Hlt. unfold surface_dismiss.
  destruct (set_content_wf None None None s Hwf Hlt) as [Hw Hg]; [by left|done|done|].
  destruct (cs_prompt s), (cs_picker s); try (split; [exact Hw|lia]). split; [done|lia].
Qed.

Lemma composite_spec view w h s :
  surface_wf s -> indicator_ok (cs_indicator s) -> 0 <= w <= 1073741824 -> 0 <= h <= 1073741824 -> Forall is_u8 view ->
  exists out s', composite_over face atlas view w h s = Some (out, s')
    /\ surface_wf s' /\ cs_generation s' = cs_generation s /\ cs_indicator s' = cs_indicator s
    /\ cs_prompt s' = cs_prompt s /\ cs_picker s' = cs_picker s /\ Forall is_u8 out
    /\ exists card, content_card face atlas s = Some card
         /\ out = match card with
                  | Some card => if canvas_new view w h then imap (over_view (cs_indicator s) card w h) view else view
                  | None => view
                  end.
Proof using Hassets.
  intros Hwf Hind Hw Hh Hview. destruct (surface_card_spec s Hwf) as (card & s' & Hs' & Hcard & Hwf' & Hp & Hk & Hg & Hi).
  destruct (content_card_ok s Hwf) as (card' & Hcard' & Hok & _). rewrite Hcard in Hcard'. injection Hcard' as <-.
  unfold composite_over. rewrite Hs'. cbn [mbind option_bind]. destruct card as [card|]; [|exists view, s'; split_and!; eauto].
  rewrite Hi. destruct (canvas_new view w h) eqn:Hc.
  - destruct (draw_over_maps (cs_indicator s) card w h view Hind (Hok card eq_refl) Hw Hh Hc Hview) as [-> Hu].
    eexists _, s'. split_and!; eauto.
  - assert (draw_over (cs_indicator s) card w h view = Some view) as -> by (unfold draw_over; destruct (centered _ _ _ _); by rewrite Hc).
    eexists _, s'. split_and!; eauto.
Qed.

Ltac same := cbn [fst snd]; split_and!; [done|lia|lia|done].
Lemma surface_step_wf op s :
  surface_wf s -> indicator_ok (cs_indicator s) -> surface_op_ok op -> cs_generation s < u64_max ->
  exists s', surface_step op s = Some s' /\ surface_wf s' /\ cs_generation s <= cs_generation s' <= cs_generation s + 1
    /\ cs_indicator s' = cs_indicator s.
Proof using Hassets.
  intros Hwf Hind Hop Hlt. pose proof Hwf as [Hone Hp Hk Hg Hf].
  assert (forall p k, set_content p k s = set_content p k (set_card (cs_card s) (cs_card_generation s) s)) as Hsame by (by intros; destruct s).
  destruct op as [p|content|panel| | |view w h]; cbn [surface_step].
  - eexists. split; [reflexivity|]. unfold surface_show. destruct (cs_picker s) eqn:He; [same|].
    rewrite Hsame. destruct (set_content_wf (Some p) None (cs_card s) s Hwf Hlt) as [Hw Hge]; [by right|by intros ? ? [= <-]; apply Hop|done|].
    same.
  - eexists. split; [reflexivity|]. unfold surface_show_picker. destruct (cs_prompt s) eqn:He; [same|].
    case_bool_decide; [same|]. rewrite Hsame. cbn [snd].
    destruct (set_content_wf None (Some content) (cs_card s) s Hwf Hlt) as [Hw Hge]; [by left|done|by intros ? [= <-]|].
    same.
  - eexists. split; [reflexivity|]. unfold surface_set_panel. destruct (cs_prompt s) as [p|] eqn:He; [|same].
    destruct (_ || _); [same|]. rewrite Hsame. cbn [snd].
    destruct (set_content_wf (Some {| sp_content := sp_content p; sp_panel := Some panel |}) (cs_picker s) (cs_card s) s Hwf Hlt)
      as [Hw Hge]; [right; by destruct Hone|by intros ? ? [= <-] [= <-]|done|]. same.
  - eexists. split; [reflexivity|]. destruct (surface_dismiss_wf s Hwf Hlt) as [Hw Hge]. split_and!; [done|lia|lia|].
    unfold surface_dismiss. by destruct (cs_prompt s), (cs_picker s).
  - destruct (surface_card_spec s Hwf) as (card & s' & -> & _ & Hw & _ & _ & Hge & Hi). cbn [mbind option_bind].
    exists s'. split_and!; [done|done|lia|lia|done].
  - destruct Hop as (Hw0 & Hh0 & Hv0). destruct (composite_spec view w h s Hwf Hind Hw0 Hh0 Hv0) as (out & s' & -> & Hw & Hge & Hi & _). cbn [mbind option_bind].
    exists s'. split_and!; [done|done|lia|lia|done].
Qed.

Lemma surface_run_wf ops s :
  surface_wf s -> indicator_ok (cs_indicator s) -> Forall surface_op_ok ops -> cs_generation s + Z.of_nat (length ops) <= u64_max ->
  exists s', surface_run ops s = Some s' /\ surface_wf s' /\ cs_indicator s' = cs_indicator s.
Proof using Hassets.
  intros Hwf Hind Hops. revert s Hwf Hind. induction Hops as [|op ops Hop _ IH]; intros s Hwf Hind Hlen; cbn [surface_run length] in *; [by eauto|].
  destruct (surface_step_wf op s Hwf Hind Hop ltac:(lia)) as (s1 & -> & Hw1 & Hg1 & Hi1). cbn [mbind option_bind].
  rewrite <- Hi1. apply IH; [done|by rewrite Hi1|lia].
Qed.
End runs.
