(* ===== verification/Grab.v ===== *)
(** * The consent grab

    [crates/vitrin-core/src/consent/grab.rs]: the prompt that is up, the human's
    events it keeps from the apps and what they say, as decisions, picker steps
    and navigations queued for the session. It changes three things at once: its
    own record, the petitions' registry and the consent surface. [None] is a
    panic. *)

From Stdlib Require Import SpecFloat.
From S2P Require Import Prelude BTree Text Paint Grants Petitions Input Router Picker Atlas Lettering Card Consent.

Definition GUARD_INTERVAL : Duration := from_millis 500.
Definition MAX_NAVIGATIONS : nat := 64.
Definition MAX_PICKER_STEPS : nat := 32.
Definition SCROLL_DETENT : Z := 120.

Abbreviation DesignationId := Z (only parsing).
Inductive Subject : Type := SPetition (id : PetitionId) | SDesignation (id : DesignationId).
Record Decision : Type := { de_petition : PetitionId; de_choice : Choice }.

(** [Panel]; a press is its button, its slot and the epoch it was made in. *)
Record GrabPanel : Type := {
  gp_slots : list SlotBox;
  gp_hover : option Z;
  gp_pressed : option (Z * Z * Z);
  gp_epoch : Z;
  gp_accum : Z }.
Definition grab_panel_new (slots : list SlotBox) : GrabPanel :=
  {| gp_slots := slots; gp_hover := None; gp_pressed := None; gp_epoch := 0; gp_accum := 0 |}.

Record Open : Type := { op_buttons : list ChoiceBox; op_panel : option GrabPanel }.
Inductive Answerable : Type := AnsOpen (o : Open) | Answered.

Record ArmedPrompt : Type := {
  ap_subject : Subject;
  ap_card : Z * Z;
  ap_raised_at : Instant;
  ap_deadline : Instant;
  ap_answerable : Answerable }.

Inductive GrabStep : Type := Hover (slot : option Z) | Activate (slot : Z) | ScrollBy (steps : Z).
Record Navigation : Type := { nv_subject : Subject; nv_step : GrabStep }.
Inductive GrabApplied : Type := GUnchanged | GRedrawn | GReshaped.

Record ConsentGrab : Type := {
  cg_prompt : option ArmedPrompt;
  cg_view : Z * Z;
  cg_pointer : option (f64 * f64);
  cg_armed : option (Z * Choice);
  cg_decisions : list Decision;
  cg_steps : list (DesignationId * PickerStep);
  cg_navigations : list Navigation }.

#[export] Instance Subject_eq_dec : EqDecision Subject.
Proof. solve_decision. Defined.

Definition grab_new : ConsentGrab :=
  {| cg_prompt := None; cg_view := (0, 0); cg_pointer := None; cg_armed := None; cg_decisions := [];
     cg_steps := []; cg_navigations := [] |}.

Definition set_prompt (p : option ArmedPrompt) (g : ConsentGrab) : ConsentGrab :=
  {| cg_prompt := p; cg_view := cg_view g; cg_pointer := cg_pointer g; cg_armed := cg_armed g;
     cg_decisions := cg_decisions g; cg_steps := cg_steps g; cg_navigations := cg_navigations g |}.
Definition set_view (view : Z * Z) (g : ConsentGrab) : ConsentGrab :=
  {| cg_prompt := cg_prompt g; cg_view := view; cg_pointer := cg_pointer g; cg_armed := cg_armed g;
     cg_decisions := cg_decisions g; cg_steps := cg_steps g; cg_navigations := cg_navigations g |}.
Definition set_grab_pointer (p : option (f64 * f64)) (g : ConsentGrab) : ConsentGrab :=
  {| cg_prompt := cg_prompt g; cg_view := cg_view g; cg_pointer := p; cg_armed := cg_armed g;
     cg_decisions := cg_decisions g; cg_steps := cg_steps g; cg_navigations := cg_navigations g |}.
Definition set_armed (a : option (Z * Choice)) (g : ConsentGrab) : ConsentGrab :=
  {| cg_prompt := cg_prompt g; cg_view := cg_view g; cg_pointer := cg_pointer g; cg_armed := a;
     cg_decisions := cg_decisions g; cg_steps := cg_steps g; cg_navigations := cg_navigations g |}.
Definition set_decisions (d : list Decision) (g : ConsentGrab) : ConsentGrab :=
  {| cg_prompt := cg_prompt g; cg_view := cg_view g; cg_pointer := cg_pointer g; cg_armed := cg_armed g;
     cg_decisions := d; cg_steps := cg_steps g; cg_navigations := cg_navigations g |}.
Definition set_steps (s : list (DesignationId * PickerStep)) (g : ConsentGrab) : ConsentGrab :=
  {| cg_prompt := cg_prompt g; cg_view := cg_view g; cg_pointer := cg_pointer g; cg_armed := cg_armed g;
     cg_decisions := cg_decisions g; cg_steps := s; cg_navigations := cg_navigations g |}.
Definition set_navigations (n : list Navigation) (g : ConsentGrab) : ConsentGrab :=
  {| cg_prompt := cg_prompt g; cg_view := cg_view g; cg_pointer := cg_pointer g; cg_armed := cg_armed g;
     cg_decisions := cg_decisions g; cg_steps := cg_steps g; cg_navigations := n |}.
Definition set_answerable (a : Answerable) (p : ArmedPrompt) : ArmedPrompt :=
  {| ap_subject := ap_subject p; ap_card := ap_card p; ap_raised_at := ap_raised_at p; ap_deadline := ap_deadline p;
     ap_answerable := a |}.
Definition set_raised_at (now : Instant) (p : ArmedPrompt) : ArmedPrompt :=
  {| ap_subject := ap_subject p; ap_card := ap_card p; ap_raised_at := now; ap_deadline := ap_deadline p;
     ap_answerable := ap_answerable p |}.
Definition set_pressed (pressed : option (Z * Z * Z)) (p : GrabPanel) : GrabPanel :=
  {| gp_slots := gp_slots p; gp_hover := gp_hover p; gp_pressed := pressed; gp_epoch := gp_epoch p; gp_accum := gp_accum p |}.
Definition set_hover (hover : option Z) (p : GrabPanel) : GrabPanel :=
  {| gp_slots := gp_slots p; gp_hover := hover; gp_pressed := gp_pressed p; gp_epoch := gp_epoch p; gp_accum := gp_accum p |}.
Definition set_accum (accum : Z) (p : GrabPanel) : GrabPanel :=
  {| gp_slots := gp_slots p; gp_hover := gp_hover p; gp_pressed := gp_pressed p; gp_epoch := gp_epoch p; gp_accum := accum |}.
Definition set_slots (slots : list SlotBox) (p : GrabPanel) : GrabPanel :=
  {| gp_slots := slots; gp_hover := gp_hover p; gp_pressed := gp_pressed p; gp_epoch := u64_wrapping_add (gp_epoch p) 1;
     gp_accum := gp_accum p |}.

Definition raised (g : ConsentGrab) : option Subject := ap_subject <$> cg_prompt g.
Definition raised_petition (g : ConsentGrab) : option PetitionId :=
  match raised g with Some (SPetition id) => Some id | _ => None end.
Definition raised_designation (g : ConsentGrab) : option DesignationId :=
  match raised g with Some (SDesignation id) => Some id | _ => None end.

(** [open], and its panel written back. *)
Definition grab_open (g : ConsentGrab) : option Open :=
  p ← cg_prompt g; match ap_answerable p with AnsOpen o => Some o | Answered => None end.
Definition open_panel (g : ConsentGrab) : option GrabPanel := o ← grab_open g; op_panel o.
Definition with_panel (f : GrabPanel -> GrabPanel) (g : ConsentGrab) : ConsentGrab :=
  match cg_prompt g with
  | Some p =>
      match ap_answerable p with
      | AnsOpen o =>
          set_prompt (Some (set_answerable (AnsOpen {| op_buttons := op_buttons o; op_panel := f <$> op_panel o |}) p)) g
      | Answered => g
      end
  | None => g
  end.

(* ------------------------------------------------------------------------ *)
(** ** Where the pointer is *)

(** [view_coord.floor() as i32]. *)
Definition f64_floor_i32 (x : f64) : option Z :=
  match x with
  | S754_zero _ => Some 0
  | S754_finite negative m e =>
      let v := if negative then - Zpos m else Zpos m in
      Some (i32_clamp (if 0 <=? e then v * 2 ^ e else v / 2 ^ (- e)))
  | _ => None
  end.
Definition card_local (view_coord : f64) (origin : Z) : option Z :=
  v ← f64_floor_i32 view_coord; Some (i32_clamp (v - origin)).

(** The pointer on the raised card. *)
Definition card_point (g : ConsentGrab) (p : ArmedPrompt) : option (Z * Z) :=
  '(px, py) ← cg_pointer g;
  let '(ox, oy) := centered (ap_card p).1 (ap_card p).2 (cg_view g).1 (cg_view g).2 in
  cx ← card_local px ox;
  cy ← card_local py oy;
  Some (cx, cy).

Definition hit_test (g : ConsentGrab) : option Choice :=
  p ← cg_prompt g;
  match ap_answerable p with
  | Answered => None
  | AnsOpen o =>
      '(cx, cy) ← card_point g p;
      cb_choice <$> List.find (fun b => rect_contains (cb_rect b) cx cy) (op_buttons o)
  end.
Definition slot_hit_test (g : ConsentGrab) : option Z :=
  p ← cg_prompt g;
  match ap_answerable p with
  | Answered => None
  | AnsOpen o =>
      panel ← op_panel o;
      '(cx, cy) ← card_point g p;
      sb_index <$> List.find (fun b => rect_contains (sb_rect b) cx cy) (gp_slots panel)
  end.

(* ------------------------------------------------------------------------ *)
(** ** The queues *)

Definition push_bounded {A} (max : nat) (a : A) (l : list A) : list A :=
  (if (max <=? length l)%nat then tl l else l) ++ [a].
Definition push_navigation (nav : Navigation) (g : ConsentGrab) : ConsentGrab :=
  set_navigations (push_bounded MAX_NAVIGATIONS nav (cg_navigations g)) g.
Definition push_step (id : DesignationId) (step : PickerStep) (g : ConsentGrab) : ConsentGrab :=
  set_steps (push_bounded MAX_PICKER_STEPS (id, step) (cg_steps g)) g.

Definition take_step (g : ConsentGrab) : option (DesignationId * PickerStep) * ConsentGrab :=
  match cg_steps g with [] => (None, g) | s :: l => (Some s, set_steps l g) end.
Definition take_decision (g : ConsentGrab) : option Decision * ConsentGrab :=
  match cg_decisions g with [] => (None, g) | d :: l => (Some d, set_decisions l g) end.
Definition take_navigation (g : ConsentGrab) : option Navigation * ConsentGrab :=
  match cg_navigations g with [] => (None, g) | n :: l => (Some n, set_navigations l g) end.

(* ------------------------------------------------------------------------ *)
(** ** Raising and lowering *)

(** What the grab's operations change, and the consent transitions recorded. *)
Record Stage : Type := {
  sg_grab : ConsentGrab;
  sg_petitions : PetitionRegistry;
  sg_surface : ConsentSurface;
  sg_recorded : list (ConnectionId * Z * PetitionId) }.
Definition with_grab (g : ConsentGrab) (w : Stage) : Stage :=
  {| sg_grab := g; sg_petitions := sg_petitions w; sg_surface := sg_surface w; sg_recorded := sg_recorded w |}.
Definition with_petitions (reg : PetitionRegistry) (w : Stage) : Stage :=
  {| sg_grab := sg_grab w; sg_petitions := reg; sg_surface := sg_surface w; sg_recorded := sg_recorded w |}.
Definition with_surface (s : ConsentSurface) (w : Stage) : Stage :=
  {| sg_grab := sg_grab w; sg_petitions := sg_petitions w; sg_surface := s; sg_recorded := sg_recorded w |}.

(** [lower]. *)
Definition grab_lower (w : Stage) : Stage :=
  let w := with_surface (surface_dismiss (sg_surface w)) w in
  let w :=
    match cg_prompt (sg_grab w) with
    | None => w
    | Some prompt =>
        let g := set_prompt None (sg_grab w) in
        match ap_subject prompt with
        | SPetition petition =>
            let reg := (mark_prompt_hidden (sg_petitions w) petition).2 in
            with_petitions reg (with_grab (set_decisions (List.filter (fun d => negb (de_petition d =? petition)) (cg_decisions g)) g) w)
        | SDesignation id => with_grab (set_steps (List.filter (fun s => negb (s.1 =? id)) (cg_steps g)) g) w
        end
    end in
  with_grab (set_armed None (sg_grab w)) w.

Definition retire_stale (w : Stage) : bool * Stage :=
  match raised_petition (sg_grab w) with
  | None => (false, w)
  | Some current =>
      match pending_route (sg_petitions w) current with
      | Some _ => (false, w)
      | None => (true, grab_lower w)
      end
  end.

Definition disarm_slot (g : ConsentGrab) : ConsentGrab := with_panel (set_pressed None) g.
Definition restart_guard (now : Instant) (g : ConsentGrab) : bool * ConsentGrab :=
  match cg_prompt g with
  | None => (false, g)
  | Some p => (true, disarm_slot (set_armed None (set_prompt (Some (set_raised_at now p)) g)))
  end.

Definition raise_picker (designation : DesignationId) (deadline now : Instant) (g : ConsentGrab) : bool * ConsentGrab :=
  match cg_prompt g with
  | Some _ => (false, g)
  | None =>
      (true, set_armed None (set_prompt (Some
         {| ap_subject := SDesignation designation; ap_card := (0, 0); ap_raised_at := now; ap_deadline := deadline;
            ap_answerable := AnsOpen {| op_buttons := []; op_panel := None |} |}) g))
  end.
Definition show_picker (content : PickerContent) (w : Stage) : bool * Stage :=
  match raised_designation (sg_grab w) with
  | None => (false, w)
  | Some _ => let '(b, s) := surface_show_picker content (sg_surface w) in (b, with_surface s w)
  end.
Definition lower_picker (w : Stage) : Stage :=
  match raised_designation (sg_grab w) with
  | None => w
  | Some id =>
      let g := set_prompt None (sg_grab w) in
      let g := set_steps (List.filter (fun s => negb (s.1 =? id)) (cg_steps g)) g in
      with_grab (set_armed None g) (with_surface (surface_dismiss (sg_surface w)) w)
  end.

Section grab.
Context (face : Face) (atlas : Atlas).

(** [raise], past the prompt that was up. *)
Definition raise_fresh (petition : PetitionId) (now : Instant) (w : Stage) : option (option (ConnectionId * Z) * Stage) :=
  match prompt_content (sg_petitions w) petition, pending_route (sg_petitions w) petition,
        pending_deadline (sg_petitions w) petition with
  | Some content, Some route, Some deadline =>
      let s := surface_show {| sp_content := content; sp_panel := None |} (sg_surface w) in
      '(card, s) ← surface_card face atlas s;
      let w := with_surface s w in
      match card with
      | None => Some (None, with_surface (surface_dismiss s) w)
      | Some card =>
          let armed :=
            {| ap_subject := SPetition petition; ap_card := (card_width card, card_height card); ap_raised_at := now;
               ap_deadline := deadline;
               ap_answerable := AnsOpen {| op_buttons := card_buttons card;
                                           op_panel := grab_panel_new <$> card_panel card |} |} in
          let '(shown, reg) := mark_prompt_shown (sg_petitions w) petition in
          if negb shown then Some (None, with_surface (surface_dismiss s) w)
          else
            let w := with_petitions reg w in
            let w := with_grab (set_armed None (set_prompt (Some armed) (sg_grab w))) w in
            Some (Some route,
                  {| sg_grab := sg_grab w; sg_petitions := sg_petitions w; sg_surface := sg_surface w;
                     sg_recorded := sg_recorded w ++ [(route.1, route.2, petition)] |})
      end
  | _, _, _ => Some (None, w)
  end.

(** [raise]. *)
Definition grab_raise (petition : PetitionId) (now : Instant) (w : Stage) : option (option (ConnectionId * Z) * Stage) :=
  match raised (sg_grab w) with
  | Some (SDesignation _) => Some (None, w)
  | Some (SPetition current) =>
      match pending_route (sg_petitions w) current with
      | None => raise_fresh petition now (grab_lower w)
      | Some _ => if negb (current =? petition) then Some (None, w) else Some (pending_route (sg_petitions w) petition, w)
      end
  | None => raise_fresh petition now w
  end.

Definition refresh_panel (content : PanelContent) (w : Stage) : option (GrabApplied * Stage) :=
  match open_panel (sg_grab w) with
  | None => Some (GUnchanged, w)
  | Some _ =>
      let before := ap_card <$> cg_prompt (sg_grab w) in
      let '(changed, s) := surface_set_panel content (sg_surface w) in
      let w := with_surface s w in
      if negb changed then Some (GUnchanged, w)
      else
        '(card, s) ← surface_card face atlas s;
        let w := with_surface s w in
        match card with
        | None => Some (GUnchanged, w)
        | Some card =>
            if negb (bool_decide (before = Some (card_width card, card_height card))) then Some (GReshaped, w)
            else match card_panel card with
                 | None => Some (GUnchanged, w)
                 | Some slots => Some (GRedrawn, with_grab (with_panel (set_slots slots) (sg_grab w)) w)
                 end
        end
  end.
End grab.

(* ------------------------------------------------------------------------ *)
(** ** Judging an event *)

(** [arm_slot]. *)
Definition arm_slot (button : Z) (g : ConsentGrab) : ConsentGrab :=
  let landed := slot_hit_test g in
  with_panel (fun p => set_pressed ((fun slot => (button, slot, gp_epoch p)) <$> landed) p) g.

Definition navigate_hover (subject : Subject) (g : ConsentGrab) : ConsentGrab :=
  match slot_hit_test g, open_panel g with
  | _, None => g
  | None, Some panel =>
      match gp_hover panel with
      | None => g
      | Some _ => push_navigation {| nv_subject := subject; nv_step := Hover None |} (with_panel (set_hover None) g)
      end
  | Some slot, Some panel =>
      if bool_decide (gp_hover panel = Some slot) then g
      else push_navigation {| nv_subject := subject; nv_step := Hover (Some slot) |} (with_panel (set_hover (Some slot)) g)
  end.

Definition i16_clamp (v : Z) : Z := Z.min (Z.max v (-32768)) 32767.
Definition navigate_scroll (subject : Subject) (axis : Axis) (value120 : Z) (g : ConsentGrab) : ConsentGrab :=
  match axis, open_panel g with
  | Vertical, Some panel =>
      let accum := i32_clamp (gp_accum panel + value120) in
      let steps := Z.quot accum SCROLL_DETENT in
      if steps =? 0 then with_panel (set_accum accum) g
      else push_navigation {| nv_subject := subject; nv_step := ScrollBy (i16_clamp steps) |}
             (with_panel (set_accum (accum - steps * SCROLL_DETENT)) g)
  | _, _ => g
  end.

Definition commit_slot (button : Z) (g : ConsentGrab) : ConsentGrab :=
  let landed := slot_hit_test g in
  match open_panel g with
  | None => g
  | Some panel =>
      match gp_pressed panel with
      | None => g
      | Some (armed_button, armed_slot, armed_epoch) =>
          let g := with_panel (set_pressed None) g in
          match raised g with
          | None => g
          | Some subject =>
              if negb (armed_button =? button) || negb (bool_decide (landed = Some armed_slot)) then g
              else if negb (armed_epoch =? gp_epoch panel) then g
              else push_navigation {| nv_subject := subject; nv_step := Activate armed_slot |} g
          end
      end
  end.

Definition commit (button : Z) (g : ConsentGrab) : ConsentGrab :=
  let g := commit_slot button g in
  match cg_armed g with
  | None => g
  | Some (armed_button, armed_choice) =>
      let g := set_armed None g in
      if negb (armed_button =? button) || negb (bool_decide (hit_test g = Some armed_choice)) then g
      else match cg_prompt g with
           | None => g
           | Some prompt =>
               match ap_answerable prompt with
               | Answered => g
               | AnsOpen _ =>
                   let g := set_prompt (Some (set_answerable Answered prompt)) g in
                   match ap_subject prompt with
                   | SPetition petition =>
                       set_decisions (cg_decisions g ++ [{| de_petition := petition; de_choice := armed_choice |}]) g
                   | SDesignation _ => g
                   end
               end
           end
  end.

Section judging.
Context (face : Face) (atlas : Atlas).

(** [judge_parts], for a raised and unexpired prompt and a human's event. *)
Definition judge_human (prompt : ArmedPrompt) (kind : SeatInputKind) (now : Instant) (g : ConsentGrab) : Gate * ConsentGrab :=
  let guarded := since now (ap_raised_at prompt) <? GUARD_INTERVAL in
  match kind with
  | Button button BPressed =>
      (Consume,
       if guarded then disarm_slot (set_armed None g)
       else arm_slot button (set_armed ((fun choice => (button, choice)) <$> hit_test g) g))
  | Button button BReleased => (Deliver, commit button g)
  | Key _ _ KReleased => (Deliver, g)
  | GestureEnd _ _ => (Deliver, g)
  | Input.Motion _ _ => (Consume, navigate_hover (ap_subject prompt) g)
  | Scroll axis value120 => (Consume, navigate_scroll (ap_subject prompt) axis value120 g)
  | Key _ keysym KPressed =>
      (Consume,
       match ap_subject prompt with
       | SPetition _ => g
       | SDesignation id =>
           if guarded then g
           else match key_decode (fc_covers face) (Atlas.covers atlas) keysym with Some step => push_step id step g | None => g end
       end)
  | TextInput _ | RelativeMotion _ _ _ _ | GestureBegin _ _ | GestureSwipeUpdate _ _ | GesturePinchUpdate _ _ _ _ =>
      (Consume, g)
  end.

Definition judge (input : SeatInput) (now : Instant) (g : ConsentGrab) : Gate * ConsentGrab :=
  let g :=
    match si_origin input, si_kind input with
    | Physical, Input.Motion x y => set_grab_pointer (Some (x, y)) g
    | _, _ => g
    end in
  match cg_prompt g with
  | None => (Deliver, g)
  | Some prompt =>
      if ap_deadline prompt <=? now then (Deliver, set_armed None g)
      else match si_origin input with
           | Emulated => (Deliver, g)
           | Physical => judge_human prompt (si_kind input) now g
           end
  end.

End judging.

(** [ConsentGate], at the router's hook point with the turn's clock, over the
    hook it wraps. *)
Record ConsentGate (H : Type) : Type := { gt_grab : ConsentGrab; gt_now : Instant; gt_inner : H }.
Arguments gt_grab {H} _.
Arguments gt_now {H} _.
Arguments gt_inner {H} _.
Definition consent_hook {H} (face : Face) (atlas : Atlas) `{PreemptionHook H} : PreemptionHook (ConsentGate H) :=
  {| hk_observe := fun h input =>
       {| gt_grab := gt_grab h; gt_now := gt_now h; gt_inner := hk_observe (gt_inner h) input |};
     hk_gate := fun h input =>
       match judge face atlas input (gt_now h) (gt_grab h) with
       | (Consume, g) => (Consume, {| gt_grab := g; gt_now := gt_now h; gt_inner := gt_inner h |})
       | (Deliver, g) =>
           let '(r, inner) := hk_gate (gt_inner h) input in
           (r, {| gt_grab := g; gt_now := gt_now h; gt_inner := inner |})
       end |}.

(* ------------------------------------------------------------------------ *)
(** ** Runs *)

(** Whatever the session asks of the grab, and whatever becomes of the petitions
    meanwhile. *)
Inductive GrabOp : Type :=
| GRaise (petition : PetitionId) (now : Instant)
| GLower
| GRetire
| GRestart (now : Instant)
| GRaisePicker (id : DesignationId) (deadline now : Instant)
| GShowPicker (content : PickerContent)
| GLowerPicker
| GTakeDecision
| GTakeStep
| GTakeNavigation
| GRefresh (content : PanelContent)
| GJudge (input : SeatInput) (now : Instant)
| GSetView (view : Z * Z)
| GPetitions (op : PetitionOp).

Section runs.
Context (face : Face) (atlas : Atlas).

Definition on_grab {A} (f : ConsentGrab -> A * ConsentGrab) (w : Stage) : Stage := with_grab (f (sg_grab w)).2 w.

(** The decisions taken, and the stage after. *)
Definition stage_step (op : GrabOp) (w : Stage) : option (list Decision * Stage) :=
  match op with
  | GRaise petition now => '(_, w) ← grab_raise face atlas petition now w; Some ([], w)
  | GLower => Some ([], grab_lower w)
  | GRetire => Some ([], (retire_stale w).2)
  | GRestart now => Some ([], on_grab (restart_guard now) w)
  | GRaisePicker id deadline now => Some ([], on_grab (raise_picker id deadline now) w)
  | GShowPicker content => Some ([], (show_picker content w).2)
  | GLowerPicker => Some ([], lower_picker w)
  | GTakeDecision =>
      let '(d, g) := take_decision (sg_grab w) in
      Some (match d with Some d => [d] | None => [] end, with_grab g w)
  | GTakeStep => Some ([], on_grab take_step w)
  | GTakeNavigation => Some ([], on_grab take_navigation w)
  | GRefresh content => '(_, w) ← refresh_panel face atlas content w; Some ([], w)
  | GJudge input now => Some ([], on_grab (judge face atlas input now) w)
  | GSetView view => Some ([], with_grab (set_view view (sg_grab w)) w)
  | GPetitions op => Some ([], with_petitions (petition_step (sg_petitions w) op) w)
  end.
Fixpoint stage_run (ops : list GrabOp) (w : Stage) : option (list Decision * Stage) :=
  match ops with
  | [] => Some ([], w)
  | op :: ops =>
      '(taken, w) ← stage_step op w;
      '(taken', w) ← stage_run ops w;
      Some (taken ++ taken', w)
  end.

Lemma stage_run_app a b w :
  stage_run (a ++ b) w = '(t, w1) ← stage_run a w; '(t', w2) ← stage_run b w1; Some (t ++ t', w2).
Proof.
  revert w. induction a as [|op a IH]; intros w; cbn [app stage_run].
  - cbn [mbind option_bind]. by destruct (stage_run b w) as [[t w']|].
  - destruct (stage_step op w) as [[t w1]|]; cbn [mbind option_bind]; [|done]. rewrite IH.
    destruct (stage_run a w1) as [[t' w2]|]; cbn [mbind option_bind]; [|done].
    destruct (stage_run b w2) as [[t'' w3]|]; cbn [mbind option_bind]; [|done]. by rewrite app_assoc.
Qed.
Lemma stage_run_snoc ops op w taken w' :
  stage_run (ops ++ [op]) w = Some (taken, w') <->
  exists t w1 t', stage_run ops w = Some (t, w1) /\ stage_step op w1 = Some (t', w') /\ taken = t ++ t'.
Proof.
  rewrite stage_run_app. split.
  - intros ([t w1] & Hr & ([t' w2] & Hs & [= <- <-])%bind_Some)%bind_Some.
    cbn [stage_run] in Hs. apply bind_Some in Hs as ([t0 w3] & Hs & [= <- <-]). rewrite app_nil_r. eauto 10.
  - intros (t & w1 & t' & -> & Hs & ->). cbn [mbind option_bind stage_run]. rewrite Hs. cbn [mbind option_bind]. by rewrite app_nil_r.
Qed.
End runs.

(* ------------------------------------------------------------------------ *)
(** ** What changes nothing that decides *)

(** The prompt, less what may change while it is up. *)
Definition identity_of (p : ArmedPrompt) : Subject * (Z * Z) * Instant * Instant :=
  (ap_subject p, ap_card p, ap_raised_at p, ap_deadline p).
(** The buttons it can still be answered with. *)
Definition buttons_of (p : ArmedPrompt) : option (list ChoiceBox) :=
  match ap_answerable p with AnsOpen o => Some (op_buttons o) | Answered => None end.

(** Two grabs alike but for a panel's highlights and the navigations queued. *)
Record quiet (g g' : ConsentGrab) : Prop := {
  q_armed : cg_armed g' = cg_armed g;
  q_decisions : cg_decisions g' = cg_decisions g;
  q_steps : cg_steps g' = cg_steps g;
  q_view : cg_view g' = cg_view g;
  q_pointer : cg_pointer g' = cg_pointer g;
  q_prompt : (fun p => (identity_of p, buttons_of p)) <$> cg_prompt g' = (fun p => (identity_of p, buttons_of p)) <$> cg_prompt g }.

Lemma quiet_refl g : quiet g g.
Proof. by split. Qed.
Lemma quiet_trans g1 g2 g3 : quiet g1 g2 -> quiet g2 g3 -> quiet g1 g3.
Proof. intros [] []. split; congruence. Qed.

Lemma with_panel_quiet f g : quiet g (with_panel f g).
Proof.
  unfold with_panel. destruct (cg_prompt g) as [p|] eqn:Hp; [|apply quiet_refl].
  destruct (ap_answerable p) as [o|] eqn:Ho; [|apply quiet_refl].
  split; cbn; try done. rewrite Hp. cbn. unfold buttons_of, identity_of. cbn. by rewrite Ho.
Qed.
Lemma push_navigation_quiet nav g : quiet g (push_navigation nav g).
Proof. by split. Qed.
Lemma set_navigations_quiet navs g : quiet g (set_navigations navs g).
Proof. by split. Qed.

Create HintDb vitrin_quiet.
#[local] Hint Resolve quiet_refl with_panel_quiet push_navigation_quiet set_navigations_quiet : vitrin_quiet.
#[local] Hint Extern 2 (quiet _ (push_navigation _ (with_panel _ _))) =>
  (eapply quiet_trans; [apply with_panel_quiet|apply push_navigation_quiet]) : vitrin_quiet.

Lemma navigate_hover_quiet subject g : quiet g (navigate_hover subject g).
Proof. unfold navigate_hover. repeat case_match; auto with vitrin_quiet. Qed.
Lemma navigate_scroll_quiet subject axis v g : quiet g (navigate_scroll subject axis v g).
Proof. unfold navigate_scroll. repeat case_match; auto with vitrin_quiet. Qed.
Lemma arm_slot_quiet button g : quiet g (arm_slot button g).
Proof. apply with_panel_quiet. Qed.
Lemma commit_slot_quiet button g : quiet g (commit_slot button g).
Proof. unfold commit_slot. cbv zeta. repeat case_match; auto with vitrin_quiet. Qed.

(** The prompt of a quiet change. *)
Lemma quiet_Some g g' p :
  quiet g g' -> cg_prompt g = Some p -> exists p', cg_prompt g' = Some p' /\ identity_of p' = identity_of p /\ buttons_of p' = buttons_of p.
Proof.
  intros [_ _ _ _ _ Hq] Hp. rewrite Hp in Hq. destruct (cg_prompt g') as [p'|]; [|done]. cbn [fmap option_fmap option_map] in Hq.
  apply (inj Some), pair_equal_spec in Hq as [??]. eauto.
Qed.
Lemma quiet_None g g' : quiet g g' -> cg_prompt g = None -> cg_prompt g' = None.
Proof. intros [_ _ _ _ _ Hq] Hp. rewrite Hp in Hq. by destruct (cg_prompt g'). Qed.

Lemma hit_test_eq g :
  hit_test g = p ← cg_prompt g; buttons ← buttons_of p; '(cx, cy) ← card_point g p;
    cb_choice <$> List.find (fun b => rect_contains (cb_rect b) cx cy) buttons.
Proof. unfold hit_test, buttons_of. destruct (cg_prompt g) as [p|]; cbn [mbind option_bind]; [|done]. by destruct (ap_answerable p). Qed.

Lemma quiet_hit_test g g' : quiet g g' -> hit_test g' = hit_test g.
Proof.
  intros Hq. rewrite !hit_test_eq. destruct (cg_prompt g) as [p|] eqn:Hp; [|by rewrite (quiet_None g g')].
  destruct (quiet_Some g g' p Hq Hp) as (p' & -> & Hid & Hb). cbn [mbind option_bind]. rewrite Hb. destruct (buttons_of p); cbn [mbind option_bind]; [|done].
  unfold card_point. rewrite (q_pointer _ _ Hq), (q_view _ _ Hq). injection Hid as _ -> _ _. done.
Qed.

(* ------------------------------------------------------------------------ *)
(** ** What a step does to the press and the decisions *)

Definition press (button : Z) (now : Instant) : GrabOp := GJudge (physical (Button button BPressed)) now.
Definition release (button : Z) (now : Instant) : GrabOp := GJudge (physical (Button button BReleased)) now.
Definition prompt_face (g : ConsentGrab) := (fun p => (identity_of p, buttons_of p)) <$> cg_prompt g.

(** The human's release of the button pressed, on the choice pressed, in time. *)
Definition answers (g : ConsentGrab) (op : GrabOp) (d : Decision) : Prop :=
  exists button now p, op = release button now /\ cg_prompt g = Some p /\ ap_subject p = SPetition (de_petition d)
    /\ now < ap_deadline p /\ cg_armed g = Some (button, de_choice d) /\ hit_test g = Some (de_choice d).

Section steps.
Context (face : Face) (atlas : Atlas).

Lemma lower_armed w : cg_armed (sg_grab (grab_lower w)) = None.
Proof. done. Qed.
Lemma lower_decisions w d : d ∈ cg_decisions (sg_grab (grab_lower w)) -> d ∈ cg_decisions (sg_grab w).
Proof.
  unfold grab_lower. cbn [sg_grab with_grab with_surface set_armed cg_decisions].
  destruct (cg_prompt (sg_grab w)) as [p|]; [|done]. destruct (ap_subject p); [|done].
  cbn [sg_grab with_petitions with_grab set_decisions cg_decisions]. rewrite !list_elem_of_In. by intros [? _]%List.filter_In.
Qed.

Lemma raise_fresh_cases petition now w r w' :
  raise_fresh face atlas petition now w = Some (r, w') ->
  sg_grab w' = sg_grab w \/ (cg_armed (sg_grab w') = None /\ cg_decisions (sg_grab w') = cg_decisions (sg_grab w)).
Proof.
  unfold raise_fresh. case_match; [|intros [= <- <-]; by left]. case_match; [|intros [= <- <-]; by left].
  case_match; [|intros [= <- <-]; by left]. intros ([card s] & _ & H3)%bind_Some.
  destruct card; [|simplify_eq; by left]. destruct (mark_prompt_shown _ _) as [shown reg].
  destruct shown; cbn [negb] in H3; simplify_eq; [by right|by left].
Qed.

Lemma grab_raise_cases petition now w r w' :
  grab_raise face atlas petition now w = Some (r, w') ->
  sg_grab w' = sg_grab w
  \/ (cg_armed (sg_grab w') = None /\ forall d, d ∈ cg_decisions (sg_grab w') -> d ∈ cg_decisions (sg_grab w)).
Proof.
  unfold grab_raise. destruct (raised (sg_grab w)) as [[current|id]|] eqn:Hr.
  - destruct (pending_route (sg_petitions w) current).
    + destruct (negb _); intros [= <- <-]; by left.
    + intros [H|[H1 H2]]%raise_fresh_cases; right.
      * rewrite H. split; [apply lower_armed|apply lower_decisions].
      * rewrite H2. split; [done|apply lower_decisions].
  - intros [= <- <-]. by left.
  - intros [H|[H1 H2]]%raise_fresh_cases; [by left|right]. by rewrite H2.
Qed.

Lemma refresh_cases content w r w' :
  refresh_panel face atlas content w = Some (r, w') -> quiet (sg_grab w) (sg_grab w').
Proof.
  unfold refresh_panel. destruct (open_panel (sg_grab w)); [|intros [= <- <-]; apply quiet_refl].
  destruct (surface_set_panel _ _) as [changed s]. destruct changed; cbn [negb]; [|intros [= <- <-]; apply quiet_refl].
  intros ([card s'] & _ & H)%bind_Some. repeat case_match; simplify_eq; cbn [sg_grab with_grab with_surface];
    first [apply quiet_refl|apply with_panel_quiet].
Qed.

Lemma commit_cases button g :
  let g' := commit button g in
  cg_armed g' = None
  /\ (cg_decisions g' = cg_decisions g
      \/ exists p choice petition, cg_prompt g = Some p /\ ap_subject p = SPetition petition /\ cg_armed g = Some (button, choice)
           /\ hit_test g = Some choice /\ cg_decisions g' = cg_decisions g ++ [{| de_petition := petition; de_choice := choice |}]).
Proof.
  cbv zeta. unfold commit. cbv zeta. pose proof (commit_slot_quiet button g) as Hq.
  set (g1 := commit_slot button g) in *. rewrite <- (q_armed _ _ Hq), <- (q_decisions _ _ Hq), <- (quiet_hit_test _ _ Hq).
  destruct (cg_armed g1) as [[b c]|] eqn:Ha; [|by split; [|left]].
  assert (hit_test (set_armed None g1) = hit_test g1) as -> by done.
  destruct (Z.eqb_spec b button) as [->|]; cbn [negb orb]; [|by split; [|left]].
  destruct (decide (hit_test g1 = Some c)) as [Hh|Hh]; [rewrite bool_decide_true by done|rewrite bool_decide_false by done];
    cbn [negb]; [|by split; [|left]].
  cbn [cg_prompt set_armed]. destruct (cg_prompt g1) as [p1|] eqn:Hp1; [|by split; [|left]].
  destruct (ap_answerable p1); [|by split; [|left]].
  destruct (cg_prompt g) as [p|] eqn:Hp; [|by rewrite (quiet_None g g1 Hq Hp) in Hp1].
  destruct (quiet_Some g g1 p Hq Hp) as (p1' & Hp1' & Hid & _). rewrite Hp1 in Hp1'. injection Hp1' as <-.
  injection Hid as Hs _ _ _.
  destruct (ap_subject p1) as [petition|id] eqn:Hs1; [|by split; [|left]]. split; [done|]. right. exists p, c, petition. by rewrite <- Hs.
Qed.

(** What judging does to the press that waits for its release. *)
Lemma judge_armed input now g :
  let g' := (judge face atlas input now g).2 in
  cg_armed g' = None
  \/ (exists button c p, input = physical (Button button BPressed) /\ cg_armed g' = Some (button, c) /\ hit_test g = Some c
       /\ cg_prompt g = Some p /\ GUARD_INTERVAL <= since now (ap_raised_at p) /\ now < ap_deadline p /\ prompt_face g' = prompt_face g)
  \/ (cg_armed g' = cg_armed g /\ prompt_face g' = prompt_face g
       /\ forall button, input = physical (Button button BPressed) -> cg_prompt g = None).
Proof.
  cbv zeta. unfold judge. set (g0 := match si_origin input, si_kind input with Physical, Input.Motion x y => _ | _, _ => g end).
  assert (cg_prompt g0 = cg_prompt g /\ cg_armed g0 = cg_armed g) as [Hp0 Ha0] by (unfold g0; by repeat case_match).
  rewrite Hp0. destruct (cg_prompt g) as [p|] eqn:Hp; cbn [snd].
  2:{ right. right. split_and!; [done|unfold prompt_face; by rewrite Hp0, Hp|done]. }
  destruct (Z.leb_spec (ap_deadline p) now); [by left|].
  destruct (si_origin input) eqn:Ho; cycle 1.
  { right. right. split_and!; [done|unfold prompt_face; cbn [snd]; by rewrite Hp0, Hp|]. intros button ->. done. }
  assert (forall g', quiet g0 g' -> cg_armed g' = cg_armed g /\ prompt_face g' = prompt_face g) as Hquiet.
  { intros g' [Ha _ _ _ _ Hq]. split; [by rewrite Ha|]. unfold prompt_face in *. by rewrite Hq, Hp0, Hp. }
  destruct input as [o kind]. cbn [si_origin si_kind] in *. subst o. unfold judge_human. cbv zeta.
  destruct kind as [x y|button state|axis v|source keysym state|text|? ? ? ?|? ?|? ?|? ? ? ?|? ?]; cbn [snd] in *.
  - right. right. destruct (Hquiet _ (navigate_hover_quiet (ap_subject p) g0)). split_and!; done.
  - destruct state; cbn [snd]; [left; apply commit_cases|].
    destruct (Z.ltb_spec (since now (ap_raised_at p)) GUARD_INTERVAL).
    { left. unfold disarm_slot. by rewrite (q_armed _ _ (with_panel_quiet _ _)). }
    pose proof (arm_slot_quiet button (set_armed ((fun choice => (button, choice)) <$> hit_test g0) g0)) as Hq.
    assert (prompt_face (arm_slot button (set_armed ((fun choice => (button, choice)) <$> hit_test g0) g0)) = prompt_face g) as Hface
      by (unfold prompt_face; by rewrite (q_prompt _ _ Hq)).
    change g0 with g in *. rewrite (q_armed _ _ Hq). cbn [cg_armed set_armed].
    destruct (hit_test g) as [c|] eqn:Hh; [right; left; exists button, c, p; split_and!; done|by left].
  - right. right. destruct (Hquiet _ (navigate_scroll_quiet (ap_subject p) axis v g0)). split_and!; done.
  - right. right. destruct state; cbn [snd]; [by destruct (Hquiet g0 (quiet_refl g0))|].
    repeat case_match; first [by destruct (Hquiet g0 (quiet_refl g0))|split_and!; [done|unfold prompt_face; cbn; by rewrite Hp|done]].
  - right. right. by destruct (Hquiet g0 (quiet_refl g0)).
  - right. right. by destruct (Hquiet g0 (quiet_refl g0)).
  - right. right. by destruct (Hquiet g0 (quiet_refl g0)).
  - right. right. by destruct (Hquiet g0 (quiet_refl g0)).
  - right. right. by destruct (Hquiet g0 (quiet_refl g0)).
  - right. right. by destruct (Hquiet g0 (quiet_refl g0)).
Qed.

(** Nothing to do with the press. *)
Ltac unmoved := right; right; split_and!; [done|by right|done].

Lemma step_armed op w t w' :
  stage_step face atlas op w = Some (t, w') ->
  let g := sg_grab w in let g' := sg_grab w' in
  cg_armed g' = None
  \/ (exists button now c p, op = press button now /\ cg_armed g' = Some (button, c) /\ hit_test g = Some c
       /\ cg_prompt g = Some p /\ GUARD_INTERVAL <= since now (ap_raised_at p) /\ now < ap_deadline p /\ prompt_face g' = prompt_face g)
  \/ (cg_armed g' = cg_armed g /\ (cg_prompt g = None \/ prompt_face g' = prompt_face g)
       /\ forall button now, op = press button now -> cg_prompt g = None).
Proof.
  cbv zeta. destruct op as [petition now| | |now|id deadline now|content| | | | |content|input now|view|op];
    cbn [stage_step]; unfold on_grab.
  - intros ([r w1] & Hr & [= <- <-])%bind_Some. apply grab_raise_cases in Hr as [->|[Ha _]]; [unmoved|by left].
  - intros [= <- <-]. left. apply lower_armed.
  - intros [= <- <-]. unfold retire_stale. repeat case_match; first [left; apply lower_armed|unmoved].
  - intros [= <- <-]. unfold restart_guard. cbn [sg_grab with_grab]. destruct (cg_prompt (sg_grab w)); cbn [snd]; [|unmoved].
    left. unfold disarm_slot. by rewrite (q_armed _ _ (with_panel_quiet _ _)).
  - intros [= <- <-]. unfold raise_picker. cbn [sg_grab with_grab]. destruct (cg_prompt (sg_grab w)); cbn [snd]; [|by left].
    unmoved.
  - intros [= <- <-]. unfold show_picker. repeat case_match; unmoved.
  - intros [= <- <-]. unfold lower_picker. case_match; first [by left|unmoved].
  - unfold take_decision. destruct (cg_decisions (sg_grab w)); intros [= <- <-]; unmoved.
  - intros [= <- <-]. unfold take_step. case_match; unmoved.
  - intros [= <- <-]. unfold take_navigation. case_match; unmoved.
  - intros ([r w1] & Hr & [= <- <-])%bind_Some. apply refresh_cases in Hr as [Ha _ _ _ _ Hq]. right. right. split_and!; [done|by right|done].
  - intros [= <- <-]. cbn [sg_grab with_grab]. destruct (judge_armed input now (sg_grab w)) as [H|[(b & c & p & -> & H)|(H1 & H2 & H3)]]; [auto| |].
    + right. left. by exists b, now, c, p.
    + right. right. split_and!; [done|by right|]. intros b n [= -> ->]. by apply (H3 b).
  - intros [= <- <-]. unmoved.
  - intros [= <- <-]. unmoved.
Qed.

Lemma judge_decisions input now g :
  let g' := (judge face atlas input now g).2 in
  cg_decisions g' = cg_decisions g
  \/ exists d, answers g (GJudge input now) d /\ cg_decisions g' = cg_decisions g ++ [d].
Proof.
  cbv zeta. unfold judge. set (g0 := match si_origin input, si_kind input with Physical, Input.Motion x y => _ | _, _ => g end).
  assert (cg_prompt g0 = cg_prompt g /\ cg_decisions g0 = cg_decisions g) as [Hp0 Hd0] by (unfold g0; by repeat case_match).
  rewrite Hp0. destruct (cg_prompt g) as [p|] eqn:Hp; cbn [snd]; [|by left].
  destruct (Z.leb_spec (ap_deadline p) now); [by left|].
  destruct (si_origin input) eqn:Ho; [|by left].
  assert (forall g', quiet g0 g' -> cg_decisions g' = cg_decisions g) as Hquiet by (intros g' [_ -> _ _ _ _]; done).
  destruct input as [o kind]. cbn [si_origin si_kind] in *. subst o. unfold judge_human. cbv zeta.
  destruct kind as [x y|button state|axis v|source keysym state|text|? ? ? ?|? ?|? ?|? ? ? ?|? ?]; cbn [snd] in *; try (by left).
  - left. apply Hquiet, navigate_hover_quiet.
  - destruct state; cbn [snd].
    + change g0 with g. destruct (commit_cases button g) as [_ [->|(p' & c & petition & Hp' & Hs & Ha & Hh & ->)]]; [by left|].
      right. rewrite Hp in Hp'. injection Hp' as <-. eexists. split; [|reflexivity]. exists button, now, p. cbn. split_and!; done.
    + left. change g0 with g. repeat case_match; unfold disarm_slot;
        [by rewrite (q_decisions _ _ (with_panel_quiet _ _))|by rewrite (q_decisions _ _ (arm_slot_quiet _ _))].
  - left. apply Hquiet, navigate_scroll_quiet.
  - left. by repeat case_match.
Qed.

Lemma step_decisions op w t w' d :
  stage_step face atlas op w = Some (t, w') -> d ∈ t \/ d ∈ cg_decisions (sg_grab w') ->
  d ∈ cg_decisions (sg_grab w) \/ answers (sg_grab w) op d.
Proof.
  destruct op as [petition now| | |now|id deadline now|content| | | | |content|input now|view|op];
    cbn [stage_step]; unfold on_grab.
  - intros ([r w1] & Hr & [= <- <-])%bind_Some [[]%elem_of_nil|Hd]. left.
    apply grab_raise_cases in Hr as [H|[_ H]]; [by rewrite <- H|auto].
  - intros [= <- <-] [[]%elem_of_nil|Hd]. left. by apply lower_decisions.
  - intros [= <- <-] [[]%elem_of_nil|Hd]. left. unfold retire_stale in Hd. repeat case_match; try done. by apply lower_decisions.
  - intros [= <- <-] [[]%elem_of_nil|Hd]. left. unfold restart_guard in Hd. cbn [sg_grab with_grab] in Hd.
    destruct (cg_prompt (sg_grab w)); cbn [snd] in Hd; [|done]. unfold disarm_slot in Hd. by rewrite (q_decisions _ _ (with_panel_quiet _ _)) in Hd.
  - intros [= <- <-] [[]%elem_of_nil|Hd]. left. unfold raise_picker in Hd. cbn [sg_grab with_grab] in Hd. by destruct (cg_prompt (sg_grab w)).
  - intros [= <- <-] [[]%elem_of_nil|Hd]. left. unfold show_picker in Hd. by repeat case_match.
  - intros [= <- <-] [[]%elem_of_nil|Hd]. left. unfold lower_picker in Hd. by repeat case_match.
  - unfold take_decision. destruct (cg_decisions (sg_grab w)) as [|d0 l] eqn:Hl; intros [= <- <-] Hd; left.
    + cbn [sg_grab with_grab] in Hd. rewrite Hl in Hd. by destruct Hd.
    + cbn [sg_grab with_grab set_decisions cg_decisions] in Hd. rewrite list_elem_of_singleton in Hd. rewrite elem_of_cons. tauto.
  - intros [= <- <-] [[]%elem_of_nil|Hd]. left. unfold take_step in Hd. by case_match.
  - intros [= <- <-] [[]%elem_of_nil|Hd]. left. unfold take_navigation in Hd. by case_match.
  - intros ([r w1] & Hr & [= <- <-])%bind_Some [[]%elem_of_nil|Hd]. left. apply refresh_cases in Hr as [_ H _ _ _ _]. by rewrite <- H.
  - intros [= <- <-] [[]%elem_of_nil|Hd]. cbn [sg_grab with_grab] in Hd.
    destruct (judge_decisions input now (sg_grab w)) as [He|(d' & Ha & He)]; [left; by rewrite <- He|].
    rewrite He, elem_of_app, list_elem_of_singleton in Hd. destruct Hd as [Hd| ->]; [by left|by right].
  - intros [= <- <-] [[]%elem_of_nil|Hd]. by left.
  - intros [= <- <-] [[]%elem_of_nil|Hd]. by left.
Qed.

(* ------------------------------------------------------------------------ *)
(** ** Earned decisions *)

(** The last press before this point was a human's, of this button, on this choice
    of the prompt that is up, a guard interval or more after the prompt was raised or
    the guard restarted, and before its deadline. *)
Definition pressed (w0 : Stage) (ops : list GrabOp) (g : ConsentGrab) (button : Z) (c : Choice) : Prop :=
  exists a now mid t wa p,
    ops = a ++ press button now :: mid /\ (forall b n, press b n ∉ mid)
    /\ stage_run face atlas a w0 = Some (t, wa) /\ cg_prompt (sg_grab wa) = Some p
    /\ GUARD_INTERVAL <= since now (ap_raised_at p) /\ now < ap_deadline p /\ hit_test (sg_grab wa) = Some c
    /\ prompt_face g = prompt_face (sg_grab wa).

Lemma pressed_run w0 ops t w button c :
  cg_armed (sg_grab w0) = None -> stage_run face atlas ops w0 = Some (t, w) ->
  cg_armed (sg_grab w) = Some (button, c) -> pressed w0 ops (sg_grab w) button c.
Proof.
  intros H0. revert t w. induction ops as [|op ops IH] using rev_ind; intros t w Hrun Ha.
  - cbn [stage_run] in Hrun. simplify_eq.
  - apply stage_run_snoc in Hrun as (t1 & w1 & t2 & Hrun & Hstep & ->).
    destruct (step_armed op w1 t2 w Hstep) as [Hn|[(b & now & c' & p & -> & Ha' & Hh & Hp & Hg & Hd & Hf)|(Hsame & Hf & Hno)]];
      [congruence| |].
    + rewrite Ha in Ha'. injection Ha' as <- <-. exists ops, now, [], t1, w1, p. split_and!; try done.
      intros b n Hin. by apply elem_of_nil in Hin.
    + rewrite Ha in Hsame. symmetry in Hsame. destruct (IH _ _ Hrun Hsame) as (a & now & mid & t0 & wa & p & -> & Hmid & Hra & Hpa & Hg & Hd & Hh & Hface).
      assert (cg_prompt (sg_grab w1) <> None) as Hup.
      { intros Hn. unfold prompt_face in Hface. by rewrite Hn, Hpa in Hface. }
      exists a, now, (mid ++ [op]), t0, wa, p. split_and!; try done.
      * by rewrite <- app_assoc.
      * intros b n. rewrite elem_of_app, list_elem_of_singleton. intros [Hin| <-]; [by apply Hmid in Hin|]. by destruct Hup; apply (Hno b n).
      * destruct Hf as [Hn|Hf]; [done|]. by rewrite Hf.
Qed.

(** C12: no decision but a human's own click, on the card they were looking at. In
    any run of the grab, with the petitions changing under it as they will, every
    decision in the queue or handed to the session was made by a press and a
    release of one button by a human's hand: the press landed on a choice of a
    raised card at least a guard interval after that card went up or came back
    into view, it was the last press before the release, the release landed on the
    same choice of the same card, and both came before the petition's deadline. *)
Theorem grab_decisions_earned (w0 w : Stage) (ops : list GrabOp) (taken : list Decision) (d : Decision)
  (Hnew : sg_grab w0 = grab_new)
  (Hrun : stage_run face atlas ops w0 = Some (taken, w))
  (Hd : d ∈ taken \/ d ∈ cg_decisions (sg_grab w)) :
  exists before button now after t w1 p,
    ops = before ++ release button now :: after
    /\ stage_run face atlas before w0 = Some (t, w1)
    /\ cg_prompt (sg_grab w1) = Some p /\ ap_subject p = SPetition (de_petition d) /\ now < ap_deadline p
    /\ hit_test (sg_grab w1) = Some (de_choice d)
    /\ pressed w0 before (sg_grab w1) button (de_choice d).
Proof.
  revert taken w Hrun Hd. induction ops as [|op ops IH] using rev_ind; intros taken w Hrun Hd.
  - cbn [stage_run] in Hrun. simplify_eq. rewrite Hnew in Hd. by destruct Hd as [[]%elem_of_nil|[]%elem_of_nil].
  - apply stage_run_snoc in Hrun as (t1 & w1 & t2 & Hrun & Hstep & ->).
    assert ((d ∈ t1 \/ d ∈ cg_decisions (sg_grab w1)) \/ answers (sg_grab w1) op d) as Hcases.
    { rewrite elem_of_app in Hd. destruct Hd as [[?|Hd]|Hd]; [by left; left|..];
        (destruct (step_decisions op w1 t2 w d Hstep) as [?|?]; [auto|by left; right|by right]). }
    destruct Hcases as [Hold|(button & now & p & -> & Hp & Hs & Hlt & Ha & Hh)].
    + destruct (IH _ _ Hrun Hold) as (before & button & now & after & t & w2 & p & -> & Hrest).
      exists before, button, now, (after ++ [op]), t, w2, p. by rewrite <- app_assoc.
    + exists ops, button, now, [], t1, w1, p. split_and!; try done. eapply pressed_run; [by rewrite Hnew|done|done].
Qed.
End steps.

(* ------------------------------------------------------------------------ *)
(** ** The stage is well formed *)

(** No petition's card has a panel, so a panel is never up. *)
Lemma with_panel_none f g : open_panel g = None -> with_panel f g = g.
Proof.
  unfold open_panel, grab_open, with_panel. destruct g as [[p|] v po ar de st na]; cbn; [|done].
  destruct p as [su ca ra dl an]; cbn. destruct an as [[bs pn]|]; cbn; [|done]. by intros ->.
Qed.
Lemma commit_slot_none button g : open_panel g = None -> commit_slot button g = g.
Proof. intros H. unfold commit_slot. by rewrite H. Qed.
Lemma navigate_hover_none subject g : open_panel g = None -> navigate_hover subject g = g.
Proof. intros H. unfold navigate_hover. rewrite H. by destruct (slot_hit_test g). Qed.
Lemma navigate_scroll_none subject axis v g : open_panel g = None -> navigate_scroll subject axis v g = g.
Proof. intros H. unfold navigate_scroll. rewrite H. by destruct axis. Qed.

Definition content_of (p : PendingPetition) : PromptContent :=
  {| pc_principal := pp_identity p; pc_realm := pp_realm p; pc_verbs := q_verbs (pp_requested p);
     pc_persistence := q_persistence (pp_requested p); pc_expiry_ms := q_expiry_ms (pp_requested p);
     pc_command := pp_launch_command p |}.

Section wf.
Context (face : Face) (atlas : Atlas) (Hassets : assets_ok face atlas).

(** The card of a petition that is up, and the boxes it was armed with. *)
Definition asks (reg : PetitionRegistry) (s : ConsentSurface) (p : ArmedPrompt) (id : PetitionId) : Prop :=
  exists sp card, cs_prompt s = Some sp /\ sp_panel sp = None /\ rasterize face atlas sp = Some card
    /\ ap_card p = (card_width card, card_height card)
    /\ (forall bs, buttons_of p = Some bs -> bs = card_buttons card)
    /\ id < next_petition_id reg
    /\ forall q, pending reg !! id = Some q -> sp_content sp = content_of q /\ ap_deadline p = pp_deadline q.

Definition prompt_ok (reg : PetitionRegistry) (s : ConsentSurface) (p : option ArmedPrompt) : Prop :=
  match p with
  | None => cs_prompt s = None /\ cs_picker s = None
  | Some p => match ap_subject p with
              | SPetition id => asks reg s p id
              | SDesignation _ => cs_prompt s = None /\ buttons_of p = Some []
              end
  end.

Record stage_wf (w : Stage) : Prop := {
  gw_petitions : petitions_wf (sg_petitions w);
  gw_surface : surface_wf face atlas (sg_surface w);
  gw_indicator : indicator_ok (cs_indicator (sg_surface w));
  gw_panel : open_panel (sg_grab w) = None;
  gw_navigations : cg_navigations (sg_grab w) = [];
  gw_shown : forall id p, pending (sg_petitions w) !! id = Some p ->
    pp_prompt_shown p = true <-> raised_petition (sg_grab w) = Some id;
  gw_prompt : prompt_ok (sg_petitions w) (sg_surface w) (cg_prompt (sg_grab w));
  gw_decisions : match cg_decisions (sg_grab w) with
                 | [] => True
                 | [d] => exists p, cg_prompt (sg_grab w) = Some p /\ ap_subject p = SPetition (de_petition d) /\ ap_answerable p = Answered
                 | _ => False
                 end;
  gw_steps : forall s, s ∈ cg_steps (sg_grab w) -> raised_designation (sg_grab w) = Some s.1;
  gw_queue : (length (cg_steps (sg_grab w)) <= MAX_PICKER_STEPS)%nat }.

(** Changes to the grab that keep it so. *)
Lemma same_prompt_wf g w :
  stage_wf w -> cg_prompt g = cg_prompt (sg_grab w) -> cg_decisions g = cg_decisions (sg_grab w) ->
  cg_steps g = cg_steps (sg_grab w) -> cg_navigations g = cg_navigations (sg_grab w) -> stage_wf (with_grab g w).
Proof using.
  clear Hassets. intros [] Hp Hd Hs Hn. unfold open_panel, grab_open, raised_petition, raised_designation, raised in *.
  split; cbn; unfold open_panel, grab_open, raised_petition, raised_designation, raised; rewrite ?Hp, ?Hd, ?Hs, ?Hn; done.
Qed.

Lemma push_bounded_length {A} max (a : A) l : (0 < max)%nat -> (length l <= max)%nat -> (length (push_bounded max a l) <= max)%nat.
Proof.
  intros Hm Hl. unfold push_bounded. rewrite length_app. simpl. destruct (Nat.leb_spec max (length l)); [|lia].
  destruct l; simpl in *; lia.
Qed.
Lemma push_bounded_elem {A} max (a x : A) l : x ∈ push_bounded max a l -> x = a \/ x ∈ l.
Proof.
  unfold push_bounded. rewrite elem_of_app, list_elem_of_singleton. intros [H| ->]; [right|by left].
  destruct (_ <=? _)%nat; [|done]. destruct l; [by apply elem_of_nil in H|by right].
Qed.

Lemma push_step_wf id step w :
  stage_wf w -> raised_designation (sg_grab w) = Some id -> stage_wf (with_grab (push_step id step (sg_grab w)) w).
Proof using.
  clear Hassets. intros [] Hr.
  split; cbn [with_grab sg_grab sg_petitions sg_surface push_step set_steps cg_prompt cg_decisions cg_steps cg_navigations]; try done.
  - intros s [->|Hs]%push_bounded_elem; [done|by apply gw_steps0].
  - apply push_bounded_length; [unfold MAX_PICKER_STEPS; lia|done].
Qed.

(** The prompt answered. *)
Lemma answered_wf d p w :
  stage_wf w -> cg_prompt (sg_grab w) = Some p -> ap_subject p = SPetition (de_petition d) -> ap_answerable p <> Answered ->
  stage_wf (with_grab (set_decisions (cg_decisions (sg_grab w) ++ [d])
    (set_prompt (Some (set_answerable Answered p)) (set_armed None (sg_grab w)))) w).
Proof using.
  clear Hassets. intros [] Hp Hs Ha. unfold raised_petition, raised_designation, raised in *.
  assert (cg_decisions (sg_grab w) = []) as Hnil.
  { destruct (cg_decisions (sg_grab w)) as [|d0 [|]]; [done| |done]. destruct gw_decisions0 as (q & Hq & _ & Hqa). congruence. }
  rewrite Hp in *. split; cbn; unfold raised_petition, raised_designation, raised in *; cbn; try done.
  - rewrite Hs. cbn [prompt_ok] in gw_prompt0. rewrite Hs in gw_prompt0.
    destruct gw_prompt0 as (sp & card & H1 & H2 & H3 & H4 & H5 & H6 & H7). exists sp, card. by split_and!.
  - rewrite Hnil. cbn. eexists. split_and!; done.
Qed.

Lemma hit_buttons g p c : cg_prompt g = Some p -> hit_test g = Some c ->
  exists bs b cx cy, buttons_of p = Some bs /\ card_point g p = Some (cx, cy) /\ b ∈ bs /\ rect_contains (cb_rect b) cx cy = true /\ cb_choice b = c.
Proof using.
  clear Hassets. intros Hp Hh. rewrite hit_test_eq, Hp in Hh. cbn [mbind option_bind] in Hh.
  apply bind_Some in Hh as (bs & Hb & Hh). apply bind_Some in Hh as ([cx cy] & Hc & Hh).
  apply fmap_Some in Hh as (b & [Hin Hr]%List.find_some & ->). rewrite <- list_elem_of_In in Hin. eauto 10.
Qed.

Lemma commit_wf button w : stage_wf w -> stage_wf (with_grab (commit button (sg_grab w)) w).
Proof using.
  clear Hassets. intros Hwf. unfold commit. cbv zeta. rewrite commit_slot_none by apply Hwf. set (g := sg_grab w).
  destruct (cg_armed g) as [[b c]|]; [|by apply same_prompt_wf].
  destruct (negb (b =? button) || _) eqn:Hmiss; [by apply same_prompt_wf|].
  apply orb_false_elim in Hmiss as [_ Hh%negb_false_iff%bool_decide_eq_true].
  assert (hit_test (set_armed None g) = hit_test g) as He by done. rewrite He in Hh. clear He.
  cbn [cg_prompt set_armed]. destruct (cg_prompt g) as [p|] eqn:Hp; [|by apply same_prompt_wf].
  destruct (ap_answerable p) eqn:Ha; [|by apply same_prompt_wf].
  destruct (ap_subject p) as [id|id] eqn:Hs.
  - apply (answered_wf {| de_petition := id; de_choice := c |}); [done|done|done|]. by rewrite Ha.
  - destruct (hit_buttons g p c Hp Hh) as (bs & b' & cx & cy & Hbs & _ & Hin & _).
    pose proof (gw_prompt _ Hwf) as Hpr. fold g in Hpr. rewrite Hp in Hpr. cbn [prompt_ok] in Hpr. rewrite Hs in Hpr.
    destruct Hpr as [_ Hnil]. rewrite Hbs in Hnil. injection Hnil as ->. by apply elem_of_nil in Hin.
Qed.

Lemma grab_judge_wf input now w : stage_wf w -> stage_wf (with_grab (judge face atlas input now (sg_grab w)).2 w).
Proof using.
  clear Hassets. intros Hwf. unfold judge.
  set (g0 := match si_origin input, si_kind input with Physical, Input.Motion x y => _ | _, _ => sg_grab w end).
  assert (stage_wf (with_grab g0 w)) as Hwf0 by (unfold g0; repeat case_match; by apply same_prompt_wf).
  assert (forall g, stage_wf (with_grab g w) -> stage_wf (with_grab (set_armed None g) w)) as Harm
    by (intros g Hg; by apply (same_prompt_wf _ _ Hg)).
  destruct (cg_prompt g0) as [p|] eqn:Hp; cbn [snd]; [|done].
  destruct (ap_deadline p <=? now); [by apply Harm|].
  destruct (si_origin input); [|done].
  pose proof (gw_panel _ Hwf0) as Hpanel. cbn [sg_grab with_grab] in Hpanel.
  unfold judge_human. cbv zeta. destruct (si_kind input) as [x y|button state|axis v|source keysym state|text|? ? ? ?|? ?|? ?|? ? ? ?|? ?];
    cbn [snd]; try done.
  - by rewrite navigate_hover_none.
  - destruct state; cbn [snd]; [by apply (commit_wf button _ Hwf0)|].
    unfold disarm_slot, arm_slot. repeat case_match; rewrite with_panel_none by done; by apply (same_prompt_wf _ _ Hwf0).
  - by rewrite navigate_scroll_none.
  - destruct state; cbn [snd]; [done|]. destruct (ap_subject p) as [id|id] eqn:Hs; [done|].
    destruct (_ <? _); [done|]. destruct (key_decode _ _ _) as [step|]; [|done].
    apply (push_step_wf id step _ Hwf0). cbn. unfold raised_designation, raised. rewrite Hp. cbn. by rewrite Hs.
Qed.

(** *** The petitions under it *)

Definition grab_op_ok (op : GrabOp) : Prop :=
  match op with
  | GShowPicker content => picker_content_ok content
  | GPetitions (POpMark _ _) => False
  | GPetitions op => op_ok op
  | _ => True
  end.

(** An entry after a step is one before it, or new and not shown. *)
Lemma petition_step_fresh reg op id p :
  petitions_wf reg -> (forall i b, op <> POpMark i b) -> pending (petition_step reg op) !! id = Some p ->
  pending reg !! id = Some p \/ (id = next_petition_id reg /\ pp_prompt_shown p = false).
Proof using.
  clear Hassets. intros Hwf Hno Hp. pose proof (pwf_sorted _ Hwf) as Hs.
  destruct op as [req now realms held|id' choice|now|c|id' b|]; simpl in Hp.
  - destruct (admit_cases reg req now realms held) as [(o & Ha & _)|(realm & rung & _ & Ha)]; rewrite Ha in Hp; [by left|].
    unfold admit_checked in Hp. destruct (policy reg); simpl in Hp; [|by left].
    rewrite bt_lookup_insert in Hp. destruct (Z.eqb_spec id (next_petition_id reg)); [right|by left]. by simplify_eq.
  - destruct (resolve_human_cases reg id' choice) as [[err Hr]|[r Hr]]; rewrite Hr in Hp; [by left|].
    simpl in Hp. rewrite bt_lookup_remove in Hp. destruct (id =? id'); [done|by left].
  - rewrite expire_due_eq in Hp by done. simpl in Hp. rewrite bt_lookup_retain in Hp by done.
    destruct (pending reg !! id); simpl in Hp; [|done]. case_match; simplify_eq. by left.
  - rewrite bt_lookup_retain in Hp by done. destruct (pending reg !! id); simpl in Hp; [|done]. case_match; simplify_eq. by left.
  - by destruct (Hno id' b).
  - by left.
Qed.

Lemma petitions_step_wf op w :
  stage_wf w -> grab_op_ok (GPetitions op) -> next_petition_id (sg_petitions w) < u64_max ->
  stage_wf (with_petitions (petition_step (sg_petitions w) op) w).
Proof using.
  clear Hassets. intros Hwf Hop Hn. pose proof Hwf as []. pose proof (pwf_next _ gw_petitions0) as H1.
  assert (forall i b, op <> POpMark i b) as Hno by (by intros i b ->).
  assert (op_ok op) as Hok by (by destruct op).
  pose proof (petition_step_next (sg_petitions w) op ltac:(lia)) as Hnext.
  assert (forall id, raised_petition (sg_grab w) = Some id -> id < next_petition_id (sg_petitions w)) as Hknown.
  { intros id Hr. unfold raised_petition, raised in Hr. destruct (cg_prompt (sg_grab w)) as [p|]; [|done]. cbn in Hr, gw_prompt0.
    destruct (ap_subject p); simplify_eq. by destruct gw_prompt0 as (sp & card & _ & _ & _ & _ & _ & H & _). }
  split; cbn [with_petitions sg_grab sg_petitions sg_surface]; try done.
  - by apply petition_step_wf.
  - intros id p Hp. apply petition_step_fresh in Hp as [Hp|[-> Hp]]; [by apply gw_shown0| |done|done].
    rewrite Hp. split; [done|]. intros Hr%Hknown. lia.
  - destruct (cg_prompt (sg_grab w)) as [p|] eqn:Hpr; [|done]. cbn [prompt_ok] in *. destruct (ap_subject p) as [id|id] eqn:Hs; [|done].
    destruct gw_prompt0 as (sp & card & Hc & H2 & H3 & H4 & H5 & H6 & H7). exists sp, card. split_and!; try done; [lia|].
    intros q [Hq|[-> _]]%petition_step_fresh; [by apply H7|lia|done|done].
Qed.

(** *** Lowering and raising *)

Lemma mark_lookup reg id b i :
  pending (mark_prompt reg id b).2 !! i = if id =? i then set_shown b <$> pending reg !! i else pending reg !! i.
Proof using.
  clear Hassets. unfold mark_prompt. destruct (pending reg !! id) as [p|] eqn:Hp; cbn [snd].
  - cbn [with_pending pending]. by rewrite bt_lookup_set.
  - destruct (Z.eqb_spec id i) as [<-|]; [|done]. by rewrite Hp.
Qed.
Lemma mark_next reg id b : next_petition_id (mark_prompt reg id b).2 = next_petition_id reg.
Proof using. clear Hassets. unfold mark_prompt. by case_match. Qed.

(** Nothing up: the queues are empty. *)
Lemma idle_queues w : stage_wf w -> raised (sg_grab w) = None -> cg_decisions (sg_grab w) = [] /\ cg_steps (sg_grab w) = [].
Proof using.
  clear Hassets. intros [] Hr. unfold raised_designation, raised in *. destruct (cg_prompt (sg_grab w)); [done|]. split.
  - destruct (cg_decisions (sg_grab w)) as [|d [|]]; [done| |done]. by destruct gw_decisions0 as (? & ? & _).
  - destruct (cg_steps (sg_grab w)) as [|s l]; [done|]. by specialize (gw_steps0 s ltac:(by left)).
Qed.

(** A stage with nothing up. *)
Lemma down_wf g reg s recorded :
  petitions_wf reg -> surface_wf face atlas s -> indicator_ok (cs_indicator s) -> cs_prompt s = None -> cs_picker s = None ->
  cg_prompt g = None -> cg_decisions g = [] -> cg_steps g = [] -> cg_navigations g = [] ->
  (forall id p, pending reg !! id = Some p -> pp_prompt_shown p = false) ->
  stage_wf {| sg_grab := g; sg_petitions := reg; sg_surface := s; sg_recorded := recorded |}.
Proof using.
  clear Hassets. intros Hreg Hs Hi Hc Hk Hp Hd Hst Hn Hshown.
  split; cbn; unfold open_panel, grab_open, raised_petition, raised_designation, raised; rewrite ?Hp, ?Hd, ?Hst, ?Hn; try done.
  - intros id p Hid. rewrite (Hshown _ _ Hid). done.
  - intros x Hx. by apply elem_of_nil in Hx.
  - simpl. lia.
Qed.

Lemma dismissed s :
  surface_wf face atlas s -> cs_generation s < u64_max ->
  let s' := surface_dismiss s in
  surface_wf face atlas s' /\ cs_prompt s' = None /\ cs_picker s' = None /\ cs_indicator s' = cs_indicator s
  /\ cs_generation s <= cs_generation s' <= cs_generation s + 1.
Proof using.
  clear Hassets. intros Hwf Hlt. cbv zeta. destruct (surface_dismiss_wf face atlas s Hwf Hlt) as [Hw Hg].
  split_and!; try done; try lia; unfold surface_dismiss; by destruct (cs_prompt s) eqn:?, (cs_picker s) eqn:?.
Qed.

Lemma filter_all {A} (f : A -> bool) (l : list A) : (forall x, x ∈ l -> f x = false) -> List.filter f l = [].
Proof using.
  clear Hassets. induction l as [|x l IH]; intros H; simpl; [done|]. rewrite (H x) by (by left). apply IH. intros y Hy. apply H. by right.
Qed.

Lemma lower_wf w :
  stage_wf w -> cs_generation (sg_surface w) < u64_max ->
  stage_wf (grab_lower w) /\ raised (sg_grab (grab_lower w)) = None
  /\ cs_generation (sg_surface w) <= cs_generation (sg_surface (grab_lower w)) <= cs_generation (sg_surface w) + 1
  /\ next_petition_id (sg_petitions (grab_lower w)) = next_petition_id (sg_petitions w).
Proof using.
  clear Hassets. intros Hwf Hlt. pose proof Hwf as []. destruct (dismissed _ gw_surface0 Hlt) as (Hs & Hc & Hk & Hi & Hg).
  unfold grab_lower. cbn [sg_grab with_surface]. unfold raised_petition, raised_designation, raised in *.
  destruct (cg_prompt (sg_grab w)) as [p|] eqn:Hp; rewrite ?Hp in gw_shown0, gw_steps0; cbn in gw_shown0, gw_steps0.
  2:{ destruct (idle_queues w Hwf) as [Hd Hst]; [unfold raised; by rewrite Hp|].
      split_and!; cbn; [|by rewrite Hp|lia|lia|done]. apply down_wf; cbn; rewrite ?Hi; try done.
      intros id q Hq. apply not_true_iff_false. by rewrite (gw_shown0 id q Hq). }
  destruct (ap_subject p) as [petition|id] eqn:Hsub; cbn.
  - split_and!; [|done|lia|lia|apply mark_next].
    apply down_wf; cbn; rewrite ?Hi; try done; [by apply petitions_wf_mark| | |].
    + apply filter_all. intros d Hd. apply negb_false_iff, Z.eqb_eq.
      destruct (cg_decisions (sg_grab w)) as [|d0 [|]]; [by apply elem_of_nil in Hd| |done].
      apply list_elem_of_singleton in Hd as ->. destruct gw_decisions0 as (q & Hq & Hqs & _). congruence.
    + destruct (cg_steps (sg_grab w)) as [|x l]; [done|]. by specialize (gw_steps0 x ltac:(by left)).
    + intros id q. unfold mark_prompt_hidden. rewrite mark_lookup. destruct (Z.eqb_spec petition id) as [<-|Hne].
      * intros (q0 & _ & ->)%fmap_Some. done.
      * intros Hq. apply not_true_iff_false. rewrite (gw_shown0 id q Hq). congruence.
  - split_and!; [|done|lia|lia|done]. apply down_wf; cbn; rewrite ?Hi; try done.
    + destruct (cg_decisions (sg_grab w)) as [|d0 [|]]; [done| |done]. destruct gw_decisions0 as (q & Hq & Hqs & _). congruence.
    + apply filter_all. intros x Hx%gw_steps0. apply negb_false_iff, Z.eqb_eq. by simplify_eq.
    + intros i q Hq. apply not_true_iff_false. by rewrite (gw_shown0 i q Hq).
Qed.

Lemma rasterize_plain c :
  exists card, rasterize face atlas {| sp_content := c; sp_panel := None |} = Some card /\ card_panel card = None.
Proof using Hassets.
  destruct (rasterize_spec face atlas {| sp_content := c; sp_panel := None |} Hassets) as (rgba & -> & _); [done|]. by eexists.
Qed.

(** The surface with a petition's card on it. *)
Lemma shown_card c s :
  surface_wf face atlas s -> indicator_ok (cs_indicator s) -> cs_picker s = None -> cs_generation s < u64_max ->
  let sp := {| sp_content := c; sp_panel := None |} in
  exists card s', surface_card face atlas (surface_show sp s) = Some (Some card, s') /\ rasterize face atlas sp = Some card
    /\ card_panel card = None /\ surface_wf face atlas s' /\ cs_prompt s' = Some sp /\ cs_indicator s' = cs_indicator s
    /\ cs_generation s <= cs_generation s' <= cs_generation s + 1.
Proof using Hassets.
  intros Hs Hi Hk Hlt. cbv zeta. set (sp := {| sp_content := c; sp_panel := None |}).
  destruct (surface_step_wf face atlas Hassets (SShow sp) s Hs Hi ltac:(done) Hlt) as (s1 & [= <-] & Hw1 & Hg1 & Hi1).
  assert (cs_prompt (surface_show sp s) = Some sp) as Hp1 by (unfold surface_show; by rewrite Hk).
  destruct (surface_card_spec face atlas Hassets _ Hw1) as (card & s2 & -> & Hcard & Hw2 & Hp2 & _ & Hg2 & Hi2).
  destruct (rasterize_plain c) as (card' & Hr & Hpanel). fold sp in Hr.
  unfold content_card in Hcard. rewrite Hp1, Hr in Hcard. injection Hcard as <-.
  exists card', s2. split_and!; try done; [by rewrite Hp2|congruence|lia|lia].
Qed.

Lemma raise_fresh_wf petition now w :
  stage_wf w -> raised (sg_grab w) = None -> cs_generation (sg_surface w) < u64_max ->
  exists r w', raise_fresh face atlas petition now w = Some (r, w') /\ stage_wf w'
    /\ cs_generation (sg_surface w) <= cs_generation (sg_surface w') <= cs_generation (sg_surface w) + 1
    /\ next_petition_id (sg_petitions w') = next_petition_id (sg_petitions w)
    /\ match pending (sg_petitions w) !! petition with
       | Some p => r = Some (pp_connection p, pp_consent_wire_id p) /\ raised (sg_grab w') = Some (SPetition petition)
           /\ is_Some (pending (sg_petitions w') !! petition)
       | None => r = None /\ w' = w
       end.
Proof using Hassets.
  intros Hwf Hr Hlt. pose proof Hwf as []. destruct (idle_queues w Hwf Hr) as [Hd Hst].
  unfold raise_fresh, prompt_content, pending_route, pending_deadline.
  destruct (pending (sg_petitions w) !! petition) as [p|] eqn:Hp; cbn [fmap option_fmap option_map].
  2:{ exists None, w. split_and!; [done|done|lia|lia|done|done|done]. }
  fold (content_of p). assert (cg_prompt (sg_grab w) = None) as Hnone.
  { unfold raised in Hr. by destruct (cg_prompt (sg_grab w)). }
  rewrite Hnone in gw_prompt0. destruct gw_prompt0 as [_ Hk].
  destruct (shown_card (content_of p) (sg_surface w) gw_surface0 gw_indicator0 Hk Hlt)
    as (card & s' & -> & Hras & Hpanel & Hw' & Hp' & Hi' & Hg'). cbn [mbind option_bind]. cbn zeta.
  unfold mark_prompt_shown. destruct (mark_prompt (sg_petitions w) petition true) as [b reg] eqn:Hm.
  pose proof (f_equal fst Hm) as Hb. pose proof (f_equal snd Hm) as Hreg. cbn [fst snd] in Hb, Hreg.
  assert (b = true) as -> by (rewrite <- Hb; unfold mark_prompt; by rewrite Hp). cbn [negb with_surface sg_petitions]. rewrite Hm. cbn [negb].
  eexists _, _. split; [reflexivity|]. cbn [sg_surface sg_petitions with_petitions with_grab with_surface sg_grab].
  split_and!; [|lia|lia|rewrite <- Hreg; apply mark_next|done|done|rewrite <- Hreg, mark_lookup, Z.eqb_refl, Hp; by eexists].
  split; cbn; unfold open_panel, grab_open, raised_petition, raised_designation, raised; cbn; rewrite ?Hd, ?Hst, ?Hi', ?Hpanel; try done.
  - rewrite <- Hreg. by apply petitions_wf_mark.
  - intros id q. rewrite <- Hreg, mark_lookup. destruct (Z.eqb_spec petition id) as [<-|Hne].
    + intros (q0 & _ & ->)%fmap_Some. done.
    + intros Hq. rewrite (gw_shown0 id q Hq). unfold raised_petition. rewrite Hr. split; [done|]. intros [= ->]. done.
  - exists {| sp_content := content_of p; sp_panel := None |}, card. split_and!; try done.
    + intros bs [= <-]. done.
    + rewrite <- Hreg, mark_next. apply (pwf_ids _ gw_petitions0) in Hp. lia.
    + intros q. rewrite <- Hreg, mark_lookup, Z.eqb_refl, Hp. intros [= <-]. done.
  - intros x Hx. by apply elem_of_nil in Hx.
  - simpl. lia.
Qed.

Lemma grab_raise_wf petition now w :
  stage_wf w -> cs_generation (sg_surface w) + 2 <= u64_max ->
  exists r w', grab_raise face atlas petition now w = Some (r, w') /\ stage_wf w'
    /\ cs_generation (sg_surface w) <= cs_generation (sg_surface w') <= cs_generation (sg_surface w) + 2
    /\ next_petition_id (sg_petitions w') = next_petition_id (sg_petitions w).
Proof using Hassets.
  intros Hwf Hlt. unfold grab_raise. destruct (raised (sg_grab w)) as [[current|id]|] eqn:Hr.
  - destruct (pending_route (sg_petitions w) current).
    + destruct (negb _); eexists _, w; (split_and!; [done|done|lia|lia|done]).
    + destruct (lower_wf w Hwf ltac:(lia)) as (Hwf1 & Hr1 & Hg1 & Hn1).
      destruct (raise_fresh_wf petition now (grab_lower w) Hwf1 Hr1 ltac:(lia)) as (r & w' & -> & Hwf2 & Hg2 & Hn2 & _).
      exists r, w'. split_and!; [done|done|lia|lia|congruence].
  - eexists _, w. split_and!; [done|done|lia|lia|done].
  - destruct (raise_fresh_wf petition now w Hwf Hr ltac:(lia)) as (r & w' & -> & Hwf2 & Hg2 & Hn2 & _).
    exists r, w'. split_and!; [done|done|lia|lia|done].
Qed.

Lemma raise_picker_wf id deadline now w : stage_wf w -> stage_wf (with_grab (raise_picker id deadline now (sg_grab w)).2 w).
Proof using.
  clear Hassets. intros Hwf. unfold raise_picker. pose proof Hwf as [].
  destruct (cg_prompt (sg_grab w)) as [p|] eqn:Hp; cbn [snd]; [by apply same_prompt_wf|].
  destruct (idle_queues w Hwf) as [Hd Hst]; [unfold raised; by rewrite Hp|].
  unfold raised_petition, raised in gw_shown0. rewrite Hp in gw_shown0.
  split; cbn; unfold raised_petition, raised_designation, raised; cbn; rewrite ?Hd, ?Hst; try done.
  - split; [by destruct gw_prompt0|done].
  - intros x Hx. by apply elem_of_nil in Hx.
  - simpl. lia.
Qed.

Lemma show_picker_wf content w :
  stage_wf w -> picker_content_ok content -> cs_generation (sg_surface w) < u64_max ->
  stage_wf (show_picker content w).2
  /\ cs_generation (sg_surface w) <= cs_generation (sg_surface (show_picker content w).2) <= cs_generation (sg_surface w) + 1
  /\ sg_petitions (show_picker content w).2 = sg_petitions w.
Proof using Hassets.
  intros Hwf Hc Hlt. unfold show_picker. destruct (raised_designation (sg_grab w)) as [id|] eqn:Hr; cbn [snd]; [|split_and!; [done|lia|lia|done]].
  pose proof Hwf as []. destruct (surface_step_wf face atlas Hassets (SShowPicker content) _ gw_surface0 gw_indicator0 Hc Hlt)
    as (s' & [= <-] & Hw & Hg & Hi).
  destruct (surface_show_picker content (sg_surface w)) as [b s'] eqn:Hs. cbn [snd] in *.
  split_and!; [|cbn; lia|cbn; lia|done].
  split; cbn [with_surface sg_grab sg_petitions sg_surface]; try done; [by rewrite Hi|].
  unfold raised_designation, raised in Hr. destruct (cg_prompt (sg_grab w)) as [p|]; [|done]. cbn in Hr, gw_prompt0 |- *.
  destruct (ap_subject p); [done|]. destruct gw_prompt0 as [Hp Hb]. split; [|done].
  unfold surface_show_picker in Hs. rewrite Hp in Hs. case_bool_decide; simplify_eq; done.
Qed.

Lemma lower_picker_wf w :
  stage_wf w -> cs_generation (sg_surface w) < u64_max ->
  stage_wf (lower_picker w)
  /\ cs_generation (sg_surface w) <= cs_generation (sg_surface (lower_picker w)) <= cs_generation (sg_surface w) + 1
  /\ sg_petitions (lower_picker w) = sg_petitions w.
Proof using.
  clear Hassets. intros Hwf Hlt. unfold lower_picker. destruct (raised_designation (sg_grab w)) as [id|] eqn:Hr; [|split_and!; [done|lia|lia|done]].
  pose proof Hwf as []. destruct (dismissed _ gw_surface0 Hlt) as (Hs & Hc & Hk & Hi & Hg).
  split_and!; [|cbn; lia|cbn; lia|done]. unfold raised_petition, raised_designation, raised in *.
  destruct (cg_prompt (sg_grab w)) as [p|] eqn:Hp; [|done]. cbn in Hr, gw_shown0. destruct (ap_subject p) eqn:Hsub; [done|]. simplify_eq.
  apply down_wf; cbn; rewrite ?Hi; try done.
  - destruct (cg_decisions (sg_grab w)) as [|d0 [|]]; [done| |done]. destruct gw_decisions0 as (q & Hq & Hqs & _). congruence.
  - apply filter_all. intros x Hx%gw_steps0. apply negb_false_iff, Z.eqb_eq. cbn in Hx. rewrite Hsub in Hx. congruence.
  - intros i q Hq. apply not_true_iff_false. by rewrite (gw_shown0 i q Hq).
Qed.

Lemma restart_wf now w : stage_wf w -> stage_wf (with_grab (restart_guard now (sg_grab w)).2 w).
Proof using.
  clear Hassets. intros Hwf. unfold restart_guard. pose proof Hwf as [].
  destruct (cg_prompt (sg_grab w)) as [p|] eqn:Hp; cbn [snd]; [|by apply same_prompt_wf].
  unfold disarm_slot. unfold raised_petition, raised_designation, raised in *. rewrite Hp in *.
  rewrite with_panel_none.
  2:{ unfold open_panel, grab_open in *. rewrite Hp in gw_panel0. done. }
  split; cbn; unfold raised_petition, raised_designation, raised in *; cbn; try done.
  - unfold open_panel, grab_open in *. by rewrite Hp in gw_panel0.
  - destruct (cg_decisions (sg_grab w)) as [|d [|]]; [done| |done]. destruct gw_decisions0 as (q & [= <-] & Hq & Ha).
    eexists. by split_and!.
Qed.

(** Every step keeps the stage well formed, and none panics. *)
Lemma stage_step_wf op w :
  stage_wf w -> grab_op_ok op -> cs_generation (sg_surface w) + 2 <= u64_max -> next_petition_id (sg_petitions w) < u64_max ->
  exists t w', stage_step face atlas op w = Some (t, w') /\ stage_wf w'
    /\ cs_generation (sg_surface w) <= cs_generation (sg_surface w') <= cs_generation (sg_surface w) + 2
    /\ next_petition_id (sg_petitions w) <= next_petition_id (sg_petitions w') <= next_petition_id (sg_petitions w) + 1.
Proof using Hassets.
  intros Hwf Hop Hg Hn. assert (forall (t : list Decision) w', stage_wf w' -> sg_surface w' = sg_surface w -> sg_petitions w' = sg_petitions w ->
    exists t0 w0, Some (t, w') = Some (t0, w0) /\ stage_wf w0
      /\ cs_generation (sg_surface w) <= cs_generation (sg_surface w0) <= cs_generation (sg_surface w) + 2
      /\ next_petition_id (sg_petitions w) <= next_petition_id (sg_petitions w0) <= next_petition_id (sg_petitions w) + 1) as Hsame.
  { intros t w' Hw Hs Hp. exists t, w'. rewrite Hs, Hp. split_and!; [done|done|lia..]. }
  destruct op as [petition now| | |now|id deadline now|content| | | | |content|input now|view|op]; cbn [stage_step]; unfold on_grab.
  - destruct (grab_raise_wf petition now w Hwf Hg) as (r & w' & -> & Hw & Hg' & Hn'). cbn [mbind option_bind].
    eexists _, w'. split_and!; [done|done|lia..].
  - destruct (lower_wf w Hwf ltac:(lia)) as (Hw & _ & Hg' & Hn'). eexists _, _. split_and!; [done|done|lia..].
  - destruct (lower_wf w Hwf ltac:(lia)) as (Hw & _ & Hg' & Hn').
    eexists _, _. split; [reflexivity|]. unfold retire_stale. repeat case_match; cbn [snd]; (split_and!; [done|lia..]).
  - by apply Hsame; [apply restart_wf|..].
  - by apply Hsame; [apply raise_picker_wf|..].
  - destruct (show_picker_wf content w Hwf Hop ltac:(lia)) as (Hw & Hg' & Hn'). eexists _, _. rewrite Hn'. split_and!; [done|done|lia..].
  - destruct (lower_picker_wf w Hwf ltac:(lia)) as (Hw & Hg' & Hn'). eexists _, _. rewrite Hn'. split_and!; [done|done|lia..].
  - unfold take_decision. destruct (cg_decisions (sg_grab w)) as [|d l] eqn:Hd; (apply Hsame; [|done|done]); [by apply same_prompt_wf|].
    pose proof Hwf as []. rewrite Hd in gw_decisions0. destruct l as [|]; [|done]. by split.
  - apply Hsame; [|done|done]. unfold take_step. destruct (cg_steps (sg_grab w)) as [|x l] eqn:Hx; cbn [snd]; [by apply same_prompt_wf|].
    pose proof Hwf as []. rewrite Hx in *. split; cbn; try done; [intros y Hy; apply gw_steps0; by right|]. simpl in *. lia.
  - apply Hsame; [|done|done]. unfold take_navigation. rewrite (gw_navigations _ Hwf). cbn [snd]. by apply same_prompt_wf.
  - unfold refresh_panel. rewrite (gw_panel _ Hwf). cbn [mbind option_bind]. by apply Hsame.
  - by apply Hsame; [apply grab_judge_wf|..].
  - by apply Hsame; [apply same_prompt_wf|..].
  - eexists _, _. split; [reflexivity|]. pose proof (pwf_next _ (gw_petitions _ Hwf)).
    pose proof (petition_step_next (sg_petitions w) op ltac:(lia)). cbn [with_petitions sg_surface sg_petitions].
    split_and!; [by apply petitions_step_wf|lia..].
Qed.

(** Room for [n] more operations before a counter wraps. *)
Definition room (w : Stage) (n : nat) : Prop :=
  cs_generation (sg_surface w) + 2 * Z.of_nat n <= u64_max /\ next_petition_id (sg_petitions w) + Z.of_nat n <= u64_max.

Lemma stage_run_wf ops w :
  stage_wf w -> Forall grab_op_ok ops -> room w (length ops) ->
  exists t w', stage_run face atlas ops w = Some (t, w') /\ stage_wf w'.
Proof using Hassets.
  intros Hwf Hops. revert w Hwf. induction Hops as [|op ops Hop _ IH]; intros w Hwf [Hg Hn]; cbn [stage_run length] in *; [by eauto|].
  destruct (stage_step_wf op w Hwf Hop ltac:(lia) ltac:(lia)) as (t & w1 & -> & Hw1 & Hg1 & Hn1). cbn [mbind option_bind].
  destruct (IH w1 Hw1) as (t' & w2 & -> & Hw2); [split; lia|]. by eauto.
Qed.
End wf.

(* ------------------------------------------------------------------------ *)
(** ** Counting *)

Definition of_petition (id : PetitionId) (d : Decision) : bool := de_petition d =? id.
Definition decisions_on (id : PetitionId) (l : list Decision) : nat := length (List.filter (of_petition id) l).
Definition raises_of (id : PetitionId) (l : list (ConnectionId * Z * PetitionId)) : nat :=
  length (List.filter (fun r => r.2 =? id) l).
(** Whether the prompt up is this petition's, unanswered. *)
Definition unanswered (id : PetitionId) (g : ConsentGrab) : nat :=
  match cg_prompt g with
  | Some p =>
      match ap_subject p, buttons_of p with
      | SPetition i, Some _ => if i =? id then 1 else 0
      | _, _ => 0
      end
  | None => 0
  end.

Lemma filter_app_length {A} (f : A -> bool) (a b : list A) :
  length (List.filter f (a ++ b)) = (length (List.filter f a) + length (List.filter f b))%nat.
Proof. by rewrite List.filter_app, length_app. Qed.

Lemma unanswered_face id g g' : prompt_face g' = prompt_face g -> unanswered id g' = unanswered id g.
Proof.
  unfold prompt_face, unanswered. destruct (cg_prompt g) as [p|], (cg_prompt g') as [p'|]; try done.
  cbn. intros [[= -> _ _ _] Hb]%(inj Some)%pair_equal_spec. by rewrite Hb.
Qed.
Lemma unanswered_le id g : (unanswered id g <= 1)%nat.
Proof. unfold unanswered. repeat case_match; lia. Qed.

Section counting.
Context (face : Face) (atlas : Atlas) (id : PetitionId).

(** What the count weighs of a stage. *)
Definition weight (w : Stage) : nat := (decisions_on id (cg_decisions (sg_grab w)) + unanswered id (sg_grab w))%nat.

Lemma weight_same g w :
  cg_decisions g = cg_decisions (sg_grab w) -> prompt_face g = prompt_face (sg_grab w) -> weight (with_grab g w) = weight w.
Proof. intros Hd Hf. unfold weight. cbn. rewrite Hd. by rewrite (unanswered_face id (sg_grab w) g Hf). Qed.
Lemma weight_quiet g w : quiet (sg_grab w) g -> weight (with_grab g w) = weight w.
Proof. intros Hq. apply weight_same; [apply (q_decisions _ _ Hq)|apply (q_prompt _ _ Hq)]. Qed.

Lemma decisions_on_filter f l : (decisions_on id (List.filter f l) <= decisions_on id l)%nat.
Proof.
  unfold decisions_on. induction l as [|d l IH]; cbn; [lia|]. destruct (f d); cbn; destruct (of_petition id d); cbn; lia.
Qed.

Lemma lower_weight w : (weight (grab_lower w) <= weight w)%nat /\ unanswered id (sg_grab (grab_lower w)) = 0%nat.
Proof.
  unfold weight, grab_lower. cbn [sg_grab with_surface]. destruct (cg_prompt (sg_grab w)) as [p|] eqn:Hp.
  - destruct (ap_subject p) as [i|i]; cbn [sg_grab with_grab with_petitions]; (split; [|done]).
    + assert (unanswered id (set_armed None (set_decisions (List.filter (fun d => negb (de_petition d =? i))
        (cg_decisions (set_prompt None (sg_grab w)))) (set_prompt None (sg_grab w)))) = 0%nat) as -> by done. cbn.
      pose proof (decisions_on_filter (fun d => negb (de_petition d =? i)) (cg_decisions (sg_grab w))). unfold decisions_on in *. lia.
    + assert (forall g, cg_prompt g = None -> unanswered id g = 0%nat) as -> by (intros g Hg; unfold unanswered; by rewrite Hg); [|done].
      cbn. unfold decisions_on. lia.
  - unfold unanswered. cbn. rewrite Hp. unfold decisions_on. split; [lia|done].
Qed.
Lemma lower_recorded w : sg_recorded (grab_lower w) = sg_recorded w.
Proof. unfold grab_lower. cbn [sg_grab with_surface]. destruct (cg_prompt (sg_grab w)) as [p|]; [|done]. by destruct (ap_subject p). Qed.

Lemma raise_fresh_weight petition now w r w' :
  unanswered id (sg_grab w) = 0%nat -> raise_fresh face atlas petition now w = Some (r, w') ->
  (weight w' + raises_of id (sg_recorded w) <= weight w + raises_of id (sg_recorded w'))%nat.
Proof.
  intros H0. unfold raise_fresh. case_match; [|intros [= <- <-]; lia]. case_match; [|intros [= <- <-]; lia].
  case_match; [|intros [= <- <-]; lia]. intros ([card s] & _ & H3)%bind_Some.
  destruct card; [|by simplify_eq]. destruct (mark_prompt_shown _ _) as [shown reg].
  destruct shown; cbn [negb] in H3; simplify_eq; [|done].
  unfold weight, raises_of. cbn. rewrite filter_app_length. rewrite H0.
  unfold unanswered, decisions_on. cbn. cbn [snd]. destruct (petition =? id); cbn; lia.
Qed.

Lemma raise_weight petition now w r w' :
  grab_raise face atlas petition now w = Some (r, w') ->
  (weight w' + raises_of id (sg_recorded w) <= weight w + raises_of id (sg_recorded w'))%nat.
Proof.
  unfold grab_raise, raised. destruct (cg_prompt (sg_grab w)) as [p|] eqn:Hp; cbn [fmap option_fmap option_map].
  - destruct (ap_subject p) as [current|i]; [|intros [= <- <-]; lia].
    destruct (pending_route _ _); [destruct (negb _); intros [= <- <-]; lia|]. intros H.
    destruct (lower_weight w) as [Hl Hu]. apply raise_fresh_weight in H; [|done]. rewrite lower_recorded in H. lia.
  - apply raise_fresh_weight. unfold unanswered. by rewrite Hp.
Qed.

Lemma commit_weight button w : (weight (with_grab (commit button (sg_grab w)) w) <= weight w)%nat.
Proof.
  unfold commit. cbv zeta. pose proof (commit_slot_quiet button (sg_grab w)) as Hq. rewrite <- (weight_quiet _ w Hq).
  set (g := commit_slot button (sg_grab w)). destruct (cg_armed g) as [[b c]|]; [|done].
  destruct (negb (b =? button) || _); [done|]. cbn [cg_prompt set_armed]. destruct (cg_prompt g) as [p|] eqn:Hp; [|done].
  destruct (ap_answerable p) as [o|] eqn:Ha; [|done]. unfold weight, unanswered. cbn. rewrite Hp. unfold buttons_of. rewrite Ha.
  destruct (ap_subject p) as [i|i] eqn:Hs; cbn; rewrite ?Hs; unfold decisions_on; [|lia]. rewrite filter_app_length. cbn.
  unfold of_petition at 2. cbn. destruct (i =? id); cbn; lia.
Qed.

Lemma judge_weight input now w :
  (weight (with_grab (judge face atlas input now (sg_grab w)).2 w) <= weight w)%nat.
Proof.
  unfold judge. set (g0 := match si_origin input, si_kind input with Physical, Input.Motion x y => _ | _, _ => sg_grab w end).
  assert (weight (with_grab g0 w) = weight w) as <- by (unfold g0; by repeat case_match).
  destruct (cg_prompt g0) as [p|] eqn:Hp; cbn [snd]; [|done].
  destruct (ap_deadline p <=? now); [done|]. destruct (si_origin input); [|done].
  assert (forall a g, quiet (set_armed a g0) g -> weight (with_grab g w) <= weight (with_grab g0 w))%nat as Hq
    by (intros a g Hg; exact (Nat.eq_le_incl _ _ (weight_quiet g (with_grab (set_armed a g0) w) Hg))).
  assert (set_armed (cg_armed g0) g0 = g0) as Hsame by (clear; by destruct g0).
  unfold judge_human. cbv zeta. destruct (si_kind input) as [x y|button state|axis v|source keysym state|text|? ? ? ?|? ?|? ?|? ? ? ?|? ?];
    cbn [snd]; try done.
  - apply (Hq (cg_armed g0)). rewrite Hsame. apply navigate_hover_quiet.
  - destruct state; cbn [snd]; [apply (commit_weight button (with_grab g0 w))|].
    case_match; [apply (Hq None), with_panel_quiet|]. eapply Hq, arm_slot_quiet.
  - apply (Hq (cg_armed g0)). rewrite Hsame. apply navigate_scroll_quiet.
  - destruct state; cbn [snd]; [done|]. by repeat case_match.
Qed.

Lemma step_weight op w t w' :
  stage_step face atlas op w = Some (t, w') ->
  (decisions_on id t + weight w' + raises_of id (sg_recorded w) <= weight w + raises_of id (sg_recorded w'))%nat.
Proof.
  assert (decisions_on id [] = 0%nat) as Hnil by done.
  assert (forall w1, weight w1 = weight w -> sg_recorded w1 = sg_recorded w -> forall t', t' = [] ->
    (decisions_on id t' + weight w1 + raises_of id (sg_recorded w) <= weight w + raises_of id (sg_recorded w1))%nat) as Hsame
    by (intros w1 -> -> t' ->; cbn; lia).
  destruct op as [petition now| | |now|i deadline now|content| | | | |content|input now|view|op]; cbn [stage_step]; unfold on_grab.
  - intros ([r w1] & Hr & [= <- <-])%bind_Some. apply raise_weight in Hr. rewrite Hnil. lia.
  - intros [= <- <-]. destruct (lower_weight w). rewrite lower_recorded, Hnil. lia.
  - intros [= <- <-]. unfold retire_stale. destruct (lower_weight w). repeat case_match; cbn [snd]; [by apply Hsame..| |by apply Hsame].
    rewrite lower_recorded, Hnil. lia.
  - intros [= <- <-]. apply Hsame; [|done|done]. unfold restart_guard. destruct (cg_prompt (sg_grab w)) as [p|] eqn:Hp; cbn [snd]; [|done].
    set (g1 := set_armed None _). assert (weight (with_grab g1 w) = weight w) as <-.
    { unfold weight, g1, unanswered. cbn. by rewrite Hp. }
    apply (weight_quiet _ (with_grab g1 w)), with_panel_quiet.
  - intros [= <- <-]. apply Hsame; [|done|done]. unfold raise_picker. destruct (cg_prompt (sg_grab w)) as [p|] eqn:Hp; cbn [snd]; [done|].
    unfold weight, unanswered. cbn. by rewrite Hp.
  - intros [= <- <-]. unfold show_picker. case_match; [|by apply Hsame]. destruct (surface_show_picker _ _). by apply Hsame.
  - intros [= <- <-]. unfold lower_picker, raised_designation, raised. destruct (cg_prompt (sg_grab w)) as [p|] eqn:Hp; [|by apply Hsame].
    cbn [fmap option_fmap option_map]. destruct (ap_subject p) eqn:Hs; [by apply Hsame|]. apply Hsame; [|done|done].
    unfold weight, unanswered. cbn. by rewrite Hp, Hs.
  - unfold take_decision. destruct (cg_decisions (sg_grab w)) as [|d l] eqn:Hd; intros [= <- <-]; [by apply Hsame|].
    unfold weight. cbn [with_grab sg_grab sg_recorded set_decisions cg_decisions]. rewrite Hd.
    assert (unanswered id (set_decisions l (sg_grab w)) = unanswered id (sg_grab w)) as -> by done.
    assert (decisions_on id (d :: l) = (decisions_on id [d] + decisions_on id l)%nat) as -> by apply (filter_app_length _ [d] l). lia.
  - intros [= <- <-]. unfold take_step. by destruct (cg_steps (sg_grab w)); apply Hsame.
  - intros [= <- <-]. unfold take_navigation. by destruct (cg_navigations (sg_grab w)); apply Hsame.
  - intros ([r w1] & Hr & [= <- <-])%bind_Some. pose proof (refresh_cases face atlas content w r w1 Hr) as Hq.
    assert (sg_recorded w1 = sg_recorded w) as Hrec.
    { unfold refresh_panel in Hr. repeat case_match; simplify_eq; try done. apply bind_Some in Hr as ([card s'] & _ & Hr).
      by repeat case_match; simplify_eq. }
    apply Hsame; [|done|done]. pose proof (weight_quiet _ w Hq) as He. unfold weight in *. by cbn in He.
  - intros [= <- <-]. pose proof (judge_weight input now w). cbn [decisions_on List.filter length with_grab sg_recorded] in *. cbn. lia.
  - intros [= <- <-]. by apply Hsame.
  - intros [= <- <-]. by apply Hsame.
Qed.

(** One raised card, one answer at most. In any run of the grab, the decisions on
    a petition the session takes, and the one that waits in the queue, are never
    more than the times its card went up, and while a card is up unanswered they
    are fewer: a card answered once takes no second answer. *)
Theorem grab_one_answer (w0 w : Stage) (ops : list GrabOp) (taken : list Decision)
  (Hnew : sg_grab w0 = grab_new) (Hrun : stage_run face atlas ops w0 = Some (taken, w)) :
  (decisions_on id taken + decisions_on id (cg_decisions (sg_grab w)) + unanswered id (sg_grab w)
     + raises_of id (sg_recorded w0) <= raises_of id (sg_recorded w))%nat.
Proof.
  assert (decisions_on id taken + weight w + raises_of id (sg_recorded w0) <= weight w0 + raises_of id (sg_recorded w))%nat as H;
    [|unfold weight in H; rewrite Hnew in H; cbn in H; lia].
  revert taken w Hrun. induction ops as [|op ops IH] using rev_ind; intros taken w Hrun.
  - cbn [stage_run] in Hrun. simplify_eq. cbn. lia.
  - apply stage_run_snoc in Hrun as (t1 & w1 & t2 & Hrun & Hstep & ->). apply IH in Hrun. apply step_weight in Hstep.
    unfold decisions_on in *. rewrite filter_app_length. lia.
Qed.
End counting.

(* ------------------------------------------------------------------------ *)
(** ** What is up is what is asked *)

Definition stage_new (p : ConsentPolicy) (c : PetitionConfig) (indicator : TrustedIndicator) : Stage :=
  {| sg_grab := grab_new; sg_petitions := registry_new p c; sg_surface := surface_new indicator; sg_recorded := [] |}.

Lemma stage_new_wf face atlas p c indicator :
  config_ok c -> indicator_ok indicator -> stage_wf face atlas (stage_new p c indicator).
Proof.
  intros Hc Hi. apply down_wf; cbn; try done; [by apply registry_new_wf|apply surface_new_wf].
Qed.

(** The pointer is on a button that means this. *)
Definition points_at (g : ConsentGrab) (card : Card) (c : Choice) : Prop :=
  exists px py x y b, cg_pointer g = Some (px, py)
    /\ card_local px (centered (card_width card) (card_height card) (cg_view g).1 (cg_view g).2).1 = Some x
    /\ card_local py (centered (card_width card) (card_height card) (cg_view g).1 (cg_view g).2).2 = Some y
    /\ b ∈ card_buttons card /\ cb_choice b = c /\ rect_contains (cb_rect b) x y = true.

Section truth.
Context (face : Face) (atlas : Atlas).

(** The card up for a pending petition. *)
Lemma asked_card w id q :
  assets_ok face atlas -> stage_wf face atlas w -> pending (sg_petitions w) !! id = Some q -> raised_petition (sg_grab w) = Some id ->
  exists card p, content_card face atlas (sg_surface w) = Some (Some card)
    /\ rasterize face atlas {| sp_content := content_of q; sp_panel := None |} = Some card
    /\ List.map cb_choice (card_buttons card) = choices (content_of q)
    /\ cg_prompt (sg_grab w) = Some p /\ ap_deadline p = pp_deadline q
    /\ (forall c, hit_test (sg_grab w) = Some c -> points_at (sg_grab w) card c).
Proof.
  intros Hassets Hwf Hq Hr. pose proof (gw_prompt _ _ _ Hwf) as Hpr. unfold raised_petition, raised in Hr.
  destruct (cg_prompt (sg_grab w)) as [p|] eqn:Hp; [|done]. cbn in Hr, Hpr. destruct (ap_subject p) as [i|i]; [|done].
  injection Hr as ->. destruct Hpr as (sp & card & Hsp & Hpanel & Hras & Hdims & Hbs & _ & Hpend).
  destruct (Hpend q Hq) as [Hcontent Hdl]. destruct sp as [content panel]. cbn in Hpanel, Hcontent. subst content panel.
  exists card, p. split_and!; try done.
  - unfold content_card. by rewrite Hsp, Hras.
  - destruct (rasterize_spec face atlas {| sp_content := content_of q; sp_panel := None |} Hassets) as (rgba & Hr & _); [done|].
    rewrite Hras in Hr. injection Hr as ->. cbn [card_buttons sp_content sp_panel].
    by destruct (choices_back (choices (content_of q)) (buttons_y face atlas (content_of q) None) (choices_length _)).
  - intros c Hh. destruct (hit_buttons (sg_grab w) p c Hp Hh) as (bs & b & cx & cy & Hb & Hpt & Hin & Hc & <-).
    apply Hbs in Hb as ->. unfold card_point in Hpt. rewrite Hdims in Hpt. cbn [fst snd] in Hpt.
    apply bind_Some in Hpt as ([px py] & Hptr & Hpt). unfold points_at.
    destruct (centered _ _ _ _) as [ox oy]. apply bind_Some in Hpt as (x & Hx & (y & Hy & [= -> ->])%bind_Some).
    exists px, py, cx, cy, b. cbn [fst snd]. by split_and!.
Qed.

(** C13: what is up is what is asked. However the session raises, lowers and retires
    cards, whatever becomes of the petitions meanwhile and whatever reaches the
    gate, nothing panics, one decision at most waits, and the picker's steps stay
    within their queue. A pending petition is marked shown exactly while its card
    is the one raised, and then the card composed on the view is the drawing of
    that petition's own request, with its own deadline: the boxes a click is
    tested against are the buttons drawn, they are the petition's choices, and a
    click means the button under the pointer. *)
Theorem consent_card_truthful (p : ConsentPolicy) (c : PetitionConfig) (indicator : TrustedIndicator) (ops : list GrabOp)
  (Hassets : assets_ok face atlas) (Hconfig : config_ok c) (Hindicator : indicator_ok indicator)
  (Hops : Forall grab_op_ok ops) (Hroom : 2 * Z.of_nat (length ops) < u64_max) :
  exists taken w, stage_run face atlas ops (stage_new p c indicator) = Some (taken, w)
    /\ (length (cg_decisions (sg_grab w)) <= 1)%nat /\ (length (cg_steps (sg_grab w)) <= MAX_PICKER_STEPS)%nat
    /\ forall id q, pending (sg_petitions w) !! id = Some q ->
         (pp_prompt_shown q = true <-> raised_petition (sg_grab w) = Some id)
         /\ (raised_petition (sg_grab w) = Some id -> exists card prompt,
               content_card face atlas (sg_surface w) = Some (Some card)
               /\ rasterize face atlas {| sp_content := content_of q; sp_panel := None |} = Some card
               /\ List.map cb_choice (card_buttons card) = choices (content_of q)
               /\ cg_prompt (sg_grab w) = Some prompt /\ ap_deadline prompt = pp_deadline q
               /\ forall choice, hit_test (sg_grab w) = Some choice -> points_at (sg_grab w) card choice).
Proof.
  destruct (stage_run_wf face atlas Hassets ops (stage_new p c indicator)) as (t & w & Hrun & Hwf);
    [by apply stage_new_wf|done|unfold room; cbn; lia|].
  exists t, w. split; [done|]. split; [|split; [apply Hwf|]].
  - pose proof (gw_decisions _ _ _ Hwf) as Hd. destruct (cg_decisions (sg_grab w)) as [|d [|]]; simpl; [lia|lia|done].
  - intros id q Hq. split; [by apply (gw_shown _ _ _ Hwf)|]. by apply asked_card.
Qed.
End truth.

(* ------------------------------------------------------------------------ *)
(** ** A click decides *)

(** An event that is no human's motion and no human's button, in time. *)
Definition undisturbed (deadline : Instant) (e : SeatInput * Instant) : Prop :=
  e.2 < deadline /\ (si_origin e.1 = Emulated \/ match si_kind e.1 with Input.Motion _ _ | Button _ _ => False | _ => True end).
Definition judge_all (face : Face) (atlas : Atlas) (events : list (SeatInput * Instant)) (g : ConsentGrab) : ConsentGrab :=
  fold_left (fun g e => (judge face atlas e.1 e.2 g).2) events g.

(** Alike in what a click turns on. *)
Definition clicks (g : ConsentGrab) :=
  (cg_armed g, cg_decisions g, cg_view g, cg_pointer g, prompt_face g).
Lemma quiet_clicks g g' : quiet g g' -> clicks g' = clicks g.
Proof. intros []. unfold clicks, prompt_face. congruence. Qed.

Lemma hit_test_face g g' :
  cg_view g' = cg_view g -> cg_pointer g' = cg_pointer g -> prompt_face g' = prompt_face g -> hit_test g' = hit_test g.
Proof.
  intros Hv Hp Hf. rewrite !hit_test_eq. unfold prompt_face in Hf.
  destruct (cg_prompt g') as [p'|], (cg_prompt g) as [p|]; try done. cbn [fmap option_fmap option_map mbind option_bind] in *.
  apply (inj Some), pair_equal_spec in Hf as [Hid ->]. destruct (buttons_of p); [|done].
  unfold card_point. injection Hid as _ -> _ _. by rewrite Hv, Hp.
Qed.

Section clicking.
Context (face : Face) (atlas : Atlas).

Lemma judge_undisturbed e g p :
  cg_prompt g = Some p -> undisturbed (ap_deadline p) e -> clicks (judge face atlas e.1 e.2 g).2 = clicks g.
Proof.
  destruct e as [[origin kind] now]. intros Hp [Hnow Hk]. cbn [fst snd si_origin si_kind] in *.
  unfold judge. cbn [si_origin si_kind]. destruct origin.
  - destruct kind; try (by destruct Hk); cbv zeta; rewrite Hp; (destruct (Z.leb_spec (ap_deadline p) now); [lia|]); cbn [judge_human snd]; try done.
    + apply quiet_clicks, navigate_scroll_quiet.
    + destruct state; cbn [snd]; [done|]. by repeat case_match.
  - destruct kind; rewrite Hp; (destruct (Z.leb_spec (ap_deadline p) now); [lia|done]).
Qed.

Lemma judge_all_undisturbed events g p :
  cg_prompt g = Some p -> Forall (undisturbed (ap_deadline p)) events -> clicks (judge_all face atlas events g) = clicks g.
Proof.
  intros Hp Hev. revert g p Hp Hev. induction events as [|e events IH]; intros g p Hp Hev; [done|].
  apply Forall_cons in Hev as [He Hev]. cbn [judge_all fold_left]. pose proof (judge_undisturbed e g p Hp He) as Hc.
  fold (judge_all face atlas events (judge face atlas e.1 e.2 g).2). rewrite <- Hc.
  assert (prompt_face (judge face atlas e.1 e.2 g).2 = prompt_face g) as Hf by (unfold clicks in Hc; congruence).
  unfold prompt_face in Hf. rewrite Hp in Hf. destruct (cg_prompt (judge face atlas e.1 e.2 g).2) as [p'|] eqn:Hp'; [|done].
  cbn [fmap option_fmap option_map] in Hf. apply (inj Some), pair_equal_spec in Hf as [Hid _]. injection Hid as _ _ _ Hd.
  apply (IH _ p'); [done|]. by rewrite Hd.
Qed.

Lemma commit_decides button g p id c :
  cg_prompt g = Some p -> ap_subject p = SPetition id -> cg_armed g = Some (button, c) -> hit_test g = Some c ->
  let g' := commit button g in
  cg_decisions g' = cg_decisions g ++ [{| de_petition := id; de_choice := c |}]
  /\ raised g' = raised g /\ hit_test g' = None /\ cg_armed g' = None.
Proof.
  intros Hp Hs Ha Hh. cbv zeta. unfold commit. cbv zeta. pose proof (commit_slot_quiet button g) as Hq.
  set (g1 := commit_slot button g) in *. rewrite (q_armed _ _ Hq), Ha, Z.eqb_refl. cbn [negb orb].
  assert (hit_test (set_armed None g1) = Some c) as -> by (rewrite <- Hh; exact (quiet_hit_test _ _ Hq)).
  rewrite bool_decide_true by done. cbn [negb cg_prompt set_armed].
  destruct (quiet_Some g g1 p Hq Hp) as (p1 & Hp1 & Hid & Hb). rewrite Hp1. injection Hid as Hs1 _ _ _. rewrite Hs in Hs1.
  destruct (hit_buttons g p c Hp Hh) as (bs & _ & _ & _ & Hbs & _). rewrite Hbs in Hb. unfold buttons_of in Hb.
  destruct (ap_answerable p1) as [o|]; [|done]. rewrite Hs1. cbn. rewrite (q_decisions _ _ Hq).
  split_and!; try done. unfold raised. rewrite Hp. cbn. by rewrite Hs1, Hs.
Qed.

(** C14: an undisturbed click decides. With a petition's card up and the human's
    pointer on one of its buttons, a press of any button of the mouse no sooner than
    the guard interval and its release before the deadline queue exactly that
    button's choice for that petition, provided that the human neither moves the
    pointer nor touches a button of the mouse between the two and that everything
    that comes between comes before the deadline; keys, wheels and gestures of the
    human, and emulated events of any kind, may come between and change nothing.
    The card then takes no other answer. *)
Theorem grab_click_decides (g : ConsentGrab) (p : ArmedPrompt) (id : PetitionId) (c : Choice) (button : Z)
  (t1 t2 : Instant) (mid : list (SeatInput * Instant))
  (Hp : cg_prompt g = Some p) (Hs : ap_subject p = SPetition id) (Hh : hit_test g = Some c)
  (Hguard : GUARD_INTERVAL <= since t1 (ap_raised_at p)) (H1 : t1 < ap_deadline p)
  (Hmid : Forall (undisturbed (ap_deadline p)) mid) (H2 : t2 < ap_deadline p) :
  let g' := judge_all face atlas ((physical (Button button BPressed), t1) :: mid ++ [(physical (Button button BReleased), t2)]) g in
  cg_decisions g' = cg_decisions g ++ [{| de_petition := id; de_choice := c |}]
  /\ raised g' = raised g /\ hit_test g' = None /\ cg_armed g' = None.
Proof.
  cbv zeta. unfold judge_all. cbn [fold_left fst snd]. rewrite fold_left_app. cbn [fold_left fst snd].
  set (g1 := (judge face atlas _ t1 g).2).
  assert (quiet (set_armed (Some (button, c)) g) g1) as Hq1.
  { unfold g1, judge, judge_human. cbn [physical si_origin si_kind]. rewrite Hp.
    destruct (Z.leb_spec (ap_deadline p) t1); [lia|]. destruct (Z.ltb_spec (since t1 (ap_raised_at p)) GUARD_INTERVAL); [lia|].
    cbn [snd]. rewrite Hh. apply arm_slot_quiet. }
  destruct (quiet_Some _ g1 p Hq1 Hp) as (p1 & Hp1 & Hid & _). injection Hid as Hs1 _ _ Hd1.
  pose proof (judge_all_undisturbed mid g1 p1 Hp1) as Hc. rewrite Hd1 in Hc. specialize (Hc Hmid).
  change (fold_left _ mid g1) with (judge_all face atlas mid g1). set (g2 := judge_all face atlas mid g1) in *. rewrite (quiet_clicks _ _ Hq1) in Hc.
  injection Hc as Ha Hde Hv Hpt Hf. pose proof Hf as Hf'. unfold prompt_face in Hf'.
  assert (hit_test g2 = Some c) as Hh2 by (rewrite <- Hh; by apply hit_test_face).
  cbn [cg_prompt set_armed] in Hf'. rewrite Hp in Hf'. destruct (cg_prompt g2) as [p2|] eqn:Hp2; [|done].
  cbn [fmap option_fmap option_map] in Hf'. apply (inj Some), pair_equal_spec in Hf' as [Hid2 _]. injection Hid2 as Hs2 _ _ Hd2.
  assert (judge face atlas (physical (Button button BReleased)) t2 g2 = (Deliver, commit button g2)) as ->.
  { unfold judge, judge_human. cbn [physical si_origin si_kind]. rewrite Hp2, Hd2. destruct (Z.leb_spec (ap_deadline p) t2); [lia|done]. }
  cbn [snd]. destruct (commit_decides button g2 p2 id c Hp2) as (-> & Hr & Hn & Hna); [congruence|done|done|].
  split_and!; [by rewrite Hde| |done|done]. rewrite Hr. unfold raised. rewrite Hp2, Hp. cbn. by rewrite Hs2.
Qed.
End clicking.

(* ------------------------------------------------------------------------ *)
(** ** A concrete run *)

Definition demo_view : Z * Z := (1280, 800).
Definition demo_at (g : ConsentGrab) (reg : PetitionRegistry) (s : ConsentSurface) (recorded : list (ConnectionId * Z * PetitionId)) : Stage :=
  {| sg_grab := g; sg_petitions := reg; sg_surface := s; sg_recorded := recorded |}.
Definition demo_surface : ConsentSurface := surface_new (indicator_generate (10, 20, 30)).
Definition demo_stage : Stage := demo_at grab_new demo_pending demo_surface [].
Definition demo_asked : PromptContent :=
  {| pc_principal := str "vitrin://local/agent/demo"; pc_realm := str "realm-0"; pc_verbs := 3; pc_persistence := Once;
     pc_expiry_ms := 0; pc_command := None |}.
Definition demo_armed : ArmedPrompt :=
  {| ap_subject := SPetition 1; ap_card := (560, 434); ap_raised_at := 0; ap_deadline := 120000000000;
     ap_answerable := AnsOpen {| op_buttons := [{| cb_choice := Allow Once; cb_rect := rect 26 380 249 32 |};
                                                {| cb_choice := Deny; cb_rect := rect 285 380 249 32 |}]; op_panel := None |} |}.

Lemma fresh_card face atlas sp indicator card :
  rasterize face atlas sp = Some card ->
  exists s, surface_card face atlas (surface_show sp (surface_new indicator)) = Some (Some card, s).
Proof. intros Hr. unfold surface_card, content_card. cbn. rewrite Hr. by eexists. Qed.

(** The card goes up; what is left of the stage does not matter to a click. *)
Lemma demo_raised g recorded :
  cg_prompt g = None ->
  exists reg s, stage_step box_face no_atlas (GRaise 1 0) (demo_at g demo_pending demo_surface recorded)
    = Some ([], demo_at (set_armed None (set_prompt (Some demo_armed) g)) reg s (recorded ++ [(1, 8, 1)])).
Proof.
  intros Hn. cbn [stage_step]. unfold grab_raise, raised. cbn [demo_at sg_grab]. rewrite Hn. cbn [fmap option_fmap option_map].
  unfold raise_fresh. cbn [demo_at sg_petitions sg_surface].
  assert (prompt_content demo_pending 1 = Some demo_asked) as -> by (by vm_compute).
  assert (pending_route demo_pending 1 = Some (1, 8)) as -> by (by vm_compute).
  assert (pending_deadline demo_pending 1 = Some 120000000000) as -> by (by vm_compute).
  destruct (rasterize_spec box_face no_atlas {| sp_content := demo_asked; sp_panel := None |} box_assets) as (rgba & Hr & _); [done|].
  cbn [sp_content sp_panel fmap option_fmap option_map] in Hr.
  assert (97 + heights box_face (request_rows box_face no_atlas demo_asked) + panel_height None = 434) as He by (by vm_compute).
  assert (omap as_choice (control_boxes (List.map ADecide (choices demo_asked)) (buttons_y box_face no_atlas demo_asked None))
    = [{| cb_choice := Allow Once; cb_rect := rect 26 380 249 32 |}; {| cb_choice := Deny; cb_rect := rect 285 380 249 32 |}]) as Hb
    by (by vm_compute).
  rewrite He, Hb in Hr. destruct (fresh_card _ _ _ (indicator_generate (10, 20, 30)) _ Hr) as [s Hc].
  unfold demo_surface. rewrite Hc. cbn [mbind option_bind].
  assert ((mark_prompt_shown demo_pending 1).1 = true) as Hm by (by vm_compute).
  cbn [with_surface sg_petitions demo_at]. destruct (mark_prompt_shown demo_pending 1) as [shown reg]. cbn [fst] in Hm. subst shown.
  cbn [negb]. exists reg, s. reflexivity.
Qed.

(** The pointer to the first button, a press after the guard, its release. *)
Definition demo_pointer : SeatInput := physical (Input.Motion (S754_finite false 460 0) (S754_finite false 573 0)).
Definition demo_click : list GrabOp :=
  [GJudge demo_pointer 400000000; press 272 600000000; release 272 700000000; GTakeDecision].
Definition demo_ops : list GrabOp := GSetView demo_view :: GRaise 1 0 :: demo_click.
Definition demo_decision : Decision := {| de_petition := 1; de_choice := Allow Once |}.

Definition demo_answered : ConsentGrab :=
  {| cg_prompt := Some (set_answerable Answered demo_armed); cg_view := demo_view;
     cg_pointer := Some (S754_finite false 460 0, S754_finite false 573 0); cg_armed := None; cg_decisions := []; cg_steps := [];
     cg_navigations := [] |}.

Lemma demo_clicked reg s recorded :
  stage_run box_face no_atlas demo_click (demo_at (set_armed None (set_prompt (Some demo_armed) (set_view demo_view grab_new))) reg s recorded)
  = Some ([demo_decision], demo_at demo_answered reg s recorded).
Proof. vm_compute. reflexivity. Qed.

Lemma demo_viewed g reg s recorded :
  stage_step box_face no_atlas (GSetView demo_view) (demo_at g reg s recorded) = Some ([], demo_at (set_view demo_view g) reg s recorded).
Proof. reflexivity. Qed.

Lemma stage_run_cons face atlas op ops w t w1 t' w2 :
  stage_step face atlas op w = Some (t, w1) -> stage_run face atlas ops w1 = Some (t', w2) ->
  stage_run face atlas (op :: ops) w = Some (t ++ t', w2).
Proof. intros H1 H2. cbn [stage_run]. rewrite H1. cbn [mbind option_bind]. by rewrite H2. Qed.

Lemma grab_demo_run :
  exists w, stage_run box_face no_atlas demo_ops demo_stage = Some ([demo_decision], w) /\ sg_recorded w = [(1, 8, 1)].
Proof.
  destruct (demo_raised (set_view demo_view grab_new) []) as (reg & s & Hw); [reflexivity|].
  exists (demo_at demo_answered reg s [(1, 8, 1)]). split; [|reflexivity].
  exact (stage_run_cons _ _ _ _ _ [] _ [demo_decision] _ (demo_viewed _ _ _ _)
    (stage_run_cons _ _ _ _ _ [] _ [demo_decision] _ Hw (demo_clicked _ _ _))).
Qed.

Lemma grab_decisions_earned_witness :
  exists before button now after, demo_ops = before ++ release button now :: after.
Proof.
  destruct grab_demo_run as (w & Hrun & _).
  destruct (grab_decisions_earned box_face no_atlas demo_stage w demo_ops [demo_decision] demo_decision eq_refl Hrun)
    as (before & button & now & after & _ & _ & _ & He & _); [left; apply list_elem_of_singleton; reflexivity|].
  exists before, button, now, after. exact He.
Defined.

Lemma grab_one_answer_witness :
  (decisions_on 1 [demo_decision] + 0 <= raises_of 1 [(1%Z, 8%Z, 1%Z)])%nat.
Proof.
  destruct grab_demo_run as (w & Hrun & Hrec).
  pose proof (grab_one_answer box_face no_atlas 1 demo_stage w demo_ops [demo_decision] eq_refl Hrun) as H.
  rewrite Hrec in H. change (raises_of 1 (sg_recorded demo_stage)) with 0%nat in H. lia.
Defined.

Lemma consent_card_truthful_witness :
  exists taken w, stage_run box_face no_atlas (GPetitions (POpAdmit (demo_request 3 WOnce) 0 demo_realms false) :: demo_ops)
    (stage_new Interactive config_default (indicator_generate (10, 20, 30))) = Some (taken, w).
Proof.
  destruct (consent_card_truthful box_face no_atlas Interactive config_default (indicator_generate (10, 20, 30))
    (GPetitions (POpAdmit (demo_request 3 WOnce) 0 demo_realms false) :: demo_ops) box_assets)
    as (taken & w & Hrun & _); [exact config_default_ok|by repeat constructor| |reflexivity|].
  - constructor; [apply demo_request_ok; unfold VALID_MASK; lia|]. by repeat constructor.
  - exists taken, w. exact Hrun.
Defined.

Definition demo_hovering : ConsentGrab :=
  set_prompt (Some demo_armed) (set_grab_pointer (Some (S754_finite false 460 0, S754_finite false 573 0)) (set_view demo_view grab_new)).
Lemma grab_click_decides_witness :
  cg_decisions (judge_all box_face no_atlas
    [(physical (Button 272 BPressed), 600000000); (emulated (Button 272 BPressed), 610000000);
     (physical (Button 272 BReleased), 700000000)] demo_hovering) = [demo_decision].
Proof.
  assert (Forall (undisturbed (ap_deadline demo_armed)) [(emulated (Button 272 BPressed), 610000000)]) as Hmid
    by (constructor; [split; [reflexivity|by left]|constructor]).
  destruct (grab_click_decides box_face no_atlas demo_hovering demo_armed 1 (Allow Once) 272 600000000 700000000
    [(emulated (Button 272 BPressed), 610000000)] eq_refl eq_refl) as [H _];
    [by vm_compute|by vm_compute|reflexivity|exact Hmid|reflexivity|exact H].
Defined.
