(* ===== verification/Scene.v ===== *)
(** * The scene of a realm

    [crates/vitrin-core/src/scene/mod.rs] and [scene/realms.rs]: the committed
    surface of a realm, the damage its commits name, the view composed of it, and
    the map of scenes with the one the output shows. *)

From S2P Require Import Prelude Text Grants Input Capture Canvas Geometry.

(** ** Surfaces *)

Record SurfaceContent : Type := { sc_rgba : list Z; sc_width : Z; sc_height : Z }.
Record ContentSizeMismatch : Type := { cm_width : Z; cm_height : Z; got_len : Z }.

(** [SurfaceContent::from_rgba]; [u128] does not wrap here. *)
Definition from_rgba (rgba : list Z) (width height : Z) : result SurfaceContent ContentSizeMismatch :=
  let expected := width * height * BYTES_PER_PIXEL in
  let len := Z.of_nat (length rgba) in
  if (width =? 0) || (height =? 0) || negb (len =? expected)
  then Err {| cm_width := width; cm_height := height; got_len := len |}
  else Ok {| sc_rgba := rgba; sc_width := width; sc_height := height |}.

(** ** Damage *)

Definition i32_saturate (z : Z) : Z := Z.max i32_min (Z.min i32_max z).
Definition i32_saturating_add (a b : Z) : Z := i32_saturate (a + b).
Definition i32_saturating_sub (a b : Z) : Z := i32_saturate (a - b).

Record DamageRect : Type := { dm_x : Z; dm_y : Z; dm_width : Z; dm_height : Z }.

(** [DamageRect::union]. *)
Definition damage_union (self other : DamageRect) : DamageRect :=
  let x2 := Z.max (i32_saturating_add (dm_x self) (dm_width self))
                  (i32_saturating_add (dm_x other) (dm_width other)) in
  let y2 := Z.max (i32_saturating_add (dm_y self) (dm_height self))
                  (i32_saturating_add (dm_y other) (dm_height other)) in
  let x := Z.min (dm_x self) (dm_x other) in
  let y := Z.min (dm_y self) (dm_y other) in
  {| dm_x := x; dm_y := y; dm_width := i32_saturating_sub x2 x; dm_height := i32_saturating_sub y2 y |}.

Inductive PendingDamage : Type := Clean | Rect (r : DamageRect) | Unbounded.

(** [PendingDamage::fold]. *)
Definition damage_fold (self : PendingDamage) (hint : option DamageRect) : PendingDamage :=
  match self, hint with
  | Unbounded, _ | _, None => Unbounded
  | Clean, Some r => Rect r
  | Rect acc, Some r => Rect (damage_union acc r)
  end.

(** ** The scene *)

Record Scene : Type := {
  sn_surface : option SurfaceContent; sn_generation : Z; sn_pending_damage : PendingDamage }.

Definition scene_new : Scene :=
  {| sn_surface := None; sn_generation := 0; sn_pending_damage := Clean |}.

Definition same_geometry (prev : option SurfaceContent) (content : SurfaceContent) : bool :=
  is_some_and prev (fun prev =>
    (sc_width prev =? sc_width content) && (sc_height prev =? sc_height content)).

Definition commit_with_damage (content : SurfaceContent) (damage : option DamageRect) (s : Scene) : Scene :=
  {| sn_surface := Some content;
     sn_generation := u64_wrapping_add (sn_generation s) 1;
     sn_pending_damage :=
       if same_geometry (sn_surface s) content
       then damage_fold (sn_pending_damage s) damage else Unbounded |}.

Definition clear_surface (s : Scene) : Scene :=
  {| sn_surface := None; sn_generation := u64_wrapping_add (sn_generation s) 1;
     sn_pending_damage := Unbounded |}.

Definition clamp_to (hi z : Z) : Z := Z.max 0 (Z.min hi z).
(** [as i32] of an [i64]. *)
Definition i64_as_i32 (z : Z) : Z := (z - i32_min) mod (u32_max + 1) + i32_min.

Definition view_rect (geom : ViewGeometry) (surface : SurfaceContent) (local : DamageRect) : DamageRect :=
  let view := output geom in
  let placement := view_place geom (sc_width surface, sc_height surface) in
  let x1 := clamp_to view.1 (pl_x placement + dm_x local) in
  let y1 := clamp_to view.2 (pl_y placement + dm_y local) in
  let x2 := clamp_to view.1 (pl_x placement + dm_x local + Z.max (dm_width local) 0) in
  let y2 := clamp_to view.2 (pl_y placement + dm_y local + Z.max (dm_height local) 0) in
  {| dm_x := i64_as_i32 x1; dm_y := i64_as_i32 y1;
     dm_width := i64_as_i32 (Z.max (x2 - x1) 0); dm_height := i64_as_i32 (Z.max (y2 - y1) 0) |}.

Definition take_damage_view (geom : ViewGeometry) (s : Scene) : option DamageRect * Scene :=
  (match sn_pending_damage s, sn_surface s with
   | Rect local, Some surface => Some (view_rect geom surface local)
   | _, _ => None
   end,
   {| sn_surface := sn_surface s; sn_generation := sn_generation s; sn_pending_damage := Clean |}).

Definition surface_size (s : Scene) : option (Z * Z) :=
  (fun c => (sc_width c, sc_height c)) <$> sn_surface s.

(** ** Composition *)

(** The fourth byte of every whole pixel set. *)
Fixpoint opaque (px : list Z) : list Z :=
  match px with
  | r :: g :: b :: _ :: px => r :: g :: b :: 255 :: opaque px
  | rest => rest
  end.

(** The side bars of one row, then one row of the client. *)
Definition fill_bars (vw dst_x copy_w row : nat) (out : list Z) : option (list Z) :=
  let base := (row * (vw * 4))%nat in
  out ← fill_matte base (base + dst_x * 4) out;
  fill_matte (base + (dst_x + copy_w) * 4) (base + vw * 4) out.
Definition copy_row (rgba : list Z) (vw sw src_x src_y dst_x dst_y copy_w row : nat) (out : list Z)
    : option (list Z) :=
  let src_off := (((src_y + row) * sw + src_x) * 4)%nat in
  let dst_off := (((dst_y + row) * vw + dst_x) * 4)%nat in
  src ← sub_slice src_off (src_off + copy_w * 4) rgba;
  copy_into dst_off (dst_off + copy_w * 4) (opaque src) out.

Definition compose_surface (geom : ViewGeometry) (surface : SurfaceContent) : option (list Z) :=
  let '(width, height) := output geom in
  let vw := Z.to_nat width in
  let vh := Z.to_nat height in
  let out := replicate (Z.to_nat (usize_mul (usize_mul width height) BYTES_PER_PIXEL)) 0 in
  if bool_decide (out = []) then Some out else
  let placement := view_place geom (sc_width surface, sc_height surface) in
  let dst_x := Z.to_nat (pl_x placement) in
  let dst_y := Nat.min (Z.to_nat (pl_y placement)) vh in
  let src_x := Z.to_nat (- pl_x placement) in
  let src_y := Z.to_nat (- pl_y placement) in
  let sw := Z.to_nat (sc_width surface) in
  let sh := Z.to_nat (sc_height surface) in
  cols ← usize_sub sw src_x;
  let copy_w := Nat.min (vw - dst_x) cols in
  rows ← usize_sub vh dst_y;
  let copy_h := Nat.min rows (sh - src_y) in
  let row_bytes := (vw * 4)%nat in
  out ← fill_matte 0 (dst_y * row_bytes) out;
  out ← fill_matte ((dst_y + copy_h) * row_bytes) (vh * row_bytes) out;
  out ← for_range copy_h dst_y (fill_bars vw dst_x copy_w) out;
  for_range copy_h 0 (copy_row (sc_rgba surface) vw sw src_x src_y dst_x dst_y copy_w) out.

Definition compose (s : Scene) (geom : ViewGeometry) : option (list Z) :=
  match sn_surface s with
  | None => render_pattern (output geom).1 (output geom).2
  | Some surface => compose_surface geom surface
  end.

(* ------------------------------------------------------------------------ *)
(** ** What is composed *)

Definition surface_wf (c : SurfaceContent) : Prop :=
  0 < sc_width c <= u32_max /\ 0 < sc_height c <= u32_max
  /\ Z.of_nat (length (sc_rgba c)) = sc_width c * sc_height c * BYTES_PER_PIXEL.

Definition surface_pixel (c : SurfaceContent) (x y : Z) : list Z :=
  take 4 (drop (Z.to_nat ((y * sc_width c + x) * 4)) (sc_rgba c)).

(** The pixel of the view at [(x, y)]: the surface's, made opaque, where the
    surface is placed, the matte elsewhere. *)
Definition view_pixel (geom : ViewGeometry) (c : SurfaceContent) (x y : nat) : list Z :=
  let p := view_place geom (sc_width c, sc_height c) in
  let sx := Z.of_nat x - pl_x p in
  let sy := Z.of_nat y - pl_y p in
  if (0 <=? sx) && (sx <? sc_width c) && (0 <=? sy) && (sy <? sc_height c)
  then opaque (surface_pixel c sx sy) else LETTERBOX_RGBA.

Section composition.
Local Open Scope nat_scope.

Lemma length_opaque l : length (opaque l) = length l.
Proof.
  assert (forall n l, length l <= n -> length (opaque l) = length l) as H; [|by eapply H].
  clear l. induction n as [|n IH]; intros [|r [|g [|b [|a l]]]] Hl; simpl in *; try lia. rewrite IH; lia.
Qed.

Lemma opaque_at n l k c :
  length l = n * 4 -> k < n -> c < 4 -> opaque l !! (k * 4 + c) = opaque (take 4 (drop (k * 4) l)) !! c.
Proof.
  revert l k. induction n as [|n IH]; intros l k Hl Hk Hc; [lia|].
  destruct l as [|r [|g [|b [|a l]]]]; simpl in Hl; try lia. destruct k as [|k]; simpl.
  - destruct c as [|[|[|[|c]]]]; [done..|lia].
  - rewrite IH by lia. done.
Qed.

Lemma span_row vw r a b f x y c :
  x < vw -> c < 4 -> b <= vw ->
  span ((r * vw + a) * 4) ((r * vw + b) * 4) f ((y * vw + x) * 4 + c)
  = if decide (y = r /\ a <= x < b) then f ((x - a) * 4 + c) else None.
Proof.
  intros Hx Hc Hb. unfold span. destruct (decide (y = r)) as [->|Hne].
  - destruct (decide (a <= x < b)).
    + rewrite !decide_True by lia. f_equal. lia.
    + rewrite !decide_False by lia. done.
  - rewrite !decide_False; [done|lia|]. intros [H1 H2]. apply Hne. clear Hne. nia.
Qed.

Lemma span_rows vw r r' f x y c :
  x < vw -> c < 4 ->
  span (r * (vw * 4)) (r' * (vw * 4)) f ((y * vw + x) * 4 + c)
  = if decide (r <= y < r') then f ((y - r) * (vw * 4) + x * 4 + c) else None.
Proof.
  intros Hx Hc. unfold span. destruct (decide (r <= y < r')).
  - rewrite decide_True by nia. f_equal. nia.
  - rewrite decide_False; [done|]. nia.
Qed.

Lemma span_key vw r a b f j :
  b <= vw -> span ((r * vw + a) * 4) ((r * vw + b) * 4) f j <> None -> j / (vw * 4) = r.
Proof.
  unfold span. case_decide as H; [|done]. intros Hb _. symmetry.
  apply (Nat.div_unique _ _ _ (j - r * (vw * 4))); nia.
Qed.

Lemma letterbox_mod k c : c < 4 -> LETTERBOX_RGBA !! ((k * 4 + c) mod 4) = LETTERBOX_RGBA !! c.
Proof. intros Hc. by rewrite Nat.add_comm, Nat.Div0.mod_add, Nat.mod_small. Qed.

Definition matte_span (from to : nat) : nat -> option Z := span from to (fun k => LETTERBOX_RGBA !! (k mod 4)).

Lemma fill_rows_puts len vw r r' :
  r <= r' -> r' * (vw * 4) <= len ->
  puts len (matte_span (r * (vw * 4)) (r' * (vw * 4))) (fill_matte (r * (vw * 4)) (r' * (vw * 4))).
Proof.
  intros Hr Hl. replace (r' * (vw * 4)) with (r * (vw * 4) + 4 * ((r' - r) * vw)) in * by nia.
  by apply fill_matte_puts.
Qed.

Lemma fill_bars_puts len vw dst_x copy_w row :
  dst_x + copy_w <= vw -> S row * (vw * 4) <= len ->
  puts len (over (matte_span ((row * vw + 0) * 4) ((row * vw + dst_x) * 4))
                 (matte_span ((row * vw + (dst_x + copy_w)) * 4) ((row * vw + vw) * 4)))
    (fill_bars vw dst_x copy_w row).
Proof.
  intros Hw Hl. unfold fill_bars, matte_span. cbv zeta.
  replace (row * (vw * 4) + vw * 4) with (row * (vw * 4) + (dst_x + copy_w) * 4 + 4 * (vw - (dst_x + copy_w))) by lia.
  replace (dst_x * 4) with (4 * dst_x) by lia.
  replace ((row * vw + 0) * 4) with (row * (vw * 4)) by lia.
  replace ((row * vw + dst_x) * 4) with (row * (vw * 4) + 4 * dst_x) by lia.
  replace ((row * vw + (dst_x + copy_w)) * 4) with (row * (vw * 4) + (dst_x + copy_w) * 4) by lia.
  replace ((row * vw + vw) * 4) with (row * (vw * 4) + (dst_x + copy_w) * 4 + 4 * (vw - (dst_x + copy_w))) by lia.
  apply puts_then; apply fill_matte_puts; simpl in Hl; lia.
Qed.

Lemma copy_row_puts len rgba vw sw sh src_x src_y dst_x dst_y copy_w row :
  length rgba = sw * sh * 4 -> src_x + copy_w <= sw -> src_y + row < sh ->
  dst_x + copy_w <= vw -> S (dst_y + row) * (vw * 4) <= len ->
  let src := take (copy_w * 4) (drop ((((src_y + row) * sw + src_x)) * 4) rgba) in
  length src = copy_w * 4
  /\ puts len (span (((dst_y + row) * vw + dst_x) * 4) (((dst_y + row) * vw + (dst_x + copy_w)) * 4)
              (fun k => opaque src !! k))
       (copy_row rgba vw sw src_x src_y dst_x dst_y copy_w row).
Proof.
  intros Hl Hw Hh Hv Hlen src.
  assert ((src_y + row) * sw + src_x + copy_w <= sw * sh) as Hsrc by nia.
  assert (length src = copy_w * 4) as Hs by (unfold src; rewrite length_take, length_drop; lia).
  split; [done|]. unfold copy_row, sub_slice. cbv zeta. rewrite (proj2 (Nat.leb_le _ _)) by lia.
  rewrite (proj2 (Nat.leb_le _ (length rgba))) by lia. cbn [andb mbind option_bind].
  match goal with |- context [take ?n (drop _ rgba)] => replace n with (copy_w * 4) by lia end. fold src.
  replace (((dst_y + row) * vw + (dst_x + copy_w)) * 4) with (((dst_y + row) * vw + dst_x) * 4 + copy_w * 4) by lia.
  apply copy_into_puts; [simpl in Hlen; lia|]. rewrite length_opaque. lia.
Qed.

(** The patch of the loop over the rows of the matte's side bars, and of the loop
    over the client's rows. *)
Definition bars_patch (vw dst_x copy_w row : nat) : nat -> option Z :=
  over (matte_span ((row * vw + 0) * 4) ((row * vw + dst_x) * 4))
       (matte_span ((row * vw + (dst_x + copy_w)) * 4) ((row * vw + vw) * 4)).
Definition row_patch (rgba : list Z) (vw sw src_x src_y dst_x dst_y copy_w row : nat) : nat -> option Z :=
  span (((dst_y + row) * vw + dst_x) * 4) (((dst_y + row) * vw + (dst_x + copy_w)) * 4)
    (fun k => opaque (take (copy_w * 4) (drop ((((src_y + row) * sw + src_x)) * 4) rgba)) !! k).

Lemma bars_loop_puts len vw dst_x copy_w n from :
  dst_x + copy_w <= vw -> (from + n) * (vw * 4) <= len ->
  puts len (fun j => if decide (from <= j / (vw * 4) < from + n)
                     then bars_patch vw dst_x copy_w (j / (vw * 4)) j else None)
    (for_range n from (fill_bars vw dst_x copy_w)).
Proof.
  intros Hw Hl. apply (for_range_puts len (bars_patch vw dst_x copy_w) (fun j => j / (vw * 4))).
  - intros i Hi. apply fill_bars_puts; [done|nia].
  - intros i j. unfold bars_patch, over.
    match goal with |- context [matte_span ?a ?b j] => destruct (matte_span a b j) eqn:H1 end.
    + intros _. eapply (span_key vw); [|unfold matte_span in H1; rewrite H1; done]. done.
    + unfold matte_span. apply span_key. lia.
Qed.

Lemma rows_loop_puts len rgba vw sw sh src_x src_y dst_x dst_y copy_w n :
  length rgba = sw * sh * 4 -> src_x + copy_w <= sw -> src_y + n <= sh ->
  dst_x + copy_w <= vw -> (dst_y + n) * (vw * 4) <= len ->
  puts len (fun j => if decide (0 <= j / (vw * 4) - dst_y < 0 + n)
                     then row_patch rgba vw sw src_x src_y dst_x dst_y copy_w (j / (vw * 4) - dst_y) j else None)
    (for_range n 0 (copy_row rgba vw sw src_x src_y dst_x dst_y copy_w)).
Proof.
  intros Hrgba Hw Hh Hv Hl.
  apply (for_range_puts len (row_patch rgba vw sw src_x src_y dst_x dst_y copy_w) (fun j => j / (vw * 4) - dst_y)).
  - intros i Hi. eapply copy_row_puts; [exact Hrgba|lia|lia|lia|nia].
  - intros i j H. apply span_key in H; lia.
Qed.

Definition clip_pixel (rgba : list Z) (sw src_x src_y dst_x dst_y copy_w copy_h x y : nat) : list Z :=
  if decide (dst_y <= y < dst_y + copy_h /\ dst_x <= x < dst_x + copy_w)
  then opaque (take 4 (drop (((src_y + (y - dst_y)) * sw + (src_x + (x - dst_x))) * 4) rgba))
  else LETTERBOX_RGBA.

Lemma row_patch_at rgba vw sw sh src_x src_y dst_x dst_y copy_w row x c :
  length rgba = sw * sh * 4 -> src_x + copy_w <= sw -> src_y + row < sh -> dst_x + copy_w <= vw ->
  x < vw -> c < 4 ->
  row_patch rgba vw sw src_x src_y dst_x dst_y copy_w row (((dst_y + row) * vw + x) * 4 + c)
  = if decide (dst_x <= x < dst_x + copy_w)
    then opaque (take 4 (drop (((src_y + row) * sw + (src_x + (x - dst_x))) * 4) rgba)) !! c else None.
Proof.
  intros Hrgba Hw Hh Hv Hx Hc. unfold row_patch. rewrite span_row by lia.
  destruct (decide (dst_x <= x < dst_x + copy_w)) as [Hin|]; [|by rewrite decide_False by lia].
  rewrite decide_True by lia. assert ((src_y + row) * sw + src_x + copy_w <= sw * sh) by nia.
  rewrite (opaque_at copy_w) by (try lia; rewrite length_take, length_drop; lia).
  rewrite skipn_firstn_comm, take_take, drop_drop. rewrite Nat.min_l by lia. by replace (((src_y + row) * sw + src_x) * 4 + (x - dst_x) * 4) with (((src_y + row) * sw + (src_x + (x - dst_x))) * 4) by lia.
Qed.

Lemma matte_row vw r a b x y c v :
  LETTERBOX_RGBA !! c = Some v -> x < vw -> c < 4 -> b <= vw ->
  matte_span ((r * vw + a) * 4) ((r * vw + b) * 4) ((y * vw + x) * 4 + c)
  = if decide (y = r /\ a <= x < b) then Some v else None.
Proof. intros Hv Hx Hc Hb. unfold matte_span. rewrite span_row by done. by rewrite letterbox_mod, Hv. Qed.

Lemma matte_rows vw r r' x y c v :
  LETTERBOX_RGBA !! c = Some v -> x < vw -> c < 4 ->
  matte_span (r * (vw * 4)) (r' * (vw * 4)) ((y * vw + x) * 4 + c)
  = if decide (r <= y < r') then Some v else None.
Proof.
  intros Hv Hx Hc. unfold matte_span. rewrite span_rows by done.
  replace ((y - r) * (vw * 4) + x * 4 + c) with (((y - r) * vw + x) * 4 + c) by lia. by rewrite letterbox_mod, Hv.
Qed.

Lemma compose_rows rgba vw vh sw sh src_x src_y dst_x dst_y copy_w copy_h out :
  length out = vh * vw * 4 -> length rgba = sw * sh * 4 -> src_x + copy_w <= sw -> src_y + copy_h <= sh ->
  dst_x + copy_w <= vw -> dst_y + copy_h <= vh ->
  (out ← fill_matte 0 (dst_y * (vw * 4)) out;
   out ← fill_matte ((dst_y + copy_h) * (vw * 4)) (vh * (vw * 4)) out;
   out ← for_range copy_h dst_y (fill_bars vw dst_x copy_w) out;
   for_range copy_h 0 (copy_row rgba vw sw src_x src_y dst_x dst_y copy_w) out)
  = Some (paint vw vh (fun x y => clip_pixel rgba sw src_x src_y dst_x dst_y copy_w copy_h x y)).
Proof.
  intros Hout Hrgba Hw Hh Hv Hvh.
  pose proof (puts_then _ _ _ _ _ (fill_rows_puts (vh * vw * 4) vw 0 dst_y ltac:(lia) ltac:(nia))
    (puts_then _ _ _ _ _ (fill_rows_puts (vh * vw * 4) vw (dst_y + copy_h) vh ltac:(lia) ltac:(nia))
      (puts_then _ _ _ _ _ (bars_loop_puts (vh * vw * 4) vw dst_x copy_w copy_h dst_y Hv ltac:(nia))
        (rows_loop_puts (vh * vw * 4) rgba vw sw sh src_x src_y dst_x dst_y copy_w copy_h Hrgba Hw Hh Hv ltac:(nia))))
    out Hout) as (out' & Ho & Hl & Hwr).
  change (0 * (vw * 4)) with 0 in Ho. rewrite Ho. f_equal. apply paint_eq; [|lia|].
  { intros x y. unfold clip_pixel. case_decide as Hd; [|done]. rewrite length_opaque, length_take, length_drop.
    assert (((src_y + (y - dst_y)) * sw + (src_x + (x - dst_x)) + 1) <= sw * sh) by nia. lia. }
  intros x y c Hx Hy Hc. rewrite Hwr by nia. unfold over at 1 2 3. rewrite row_div by done.
  destruct (lookup_lt_is_Some_2 LETTERBOX_RGBA c) as [v HLv]; [simpl; lia|].
  unfold clip_pixel. destruct (decide (dst_y <= y < dst_y + copy_h)) as [Hiny|Houty].
  - rewrite decide_True by lia. replace y with (dst_y + (y - dst_y)) at 2 by lia.
    erewrite row_patch_at by (eassumption || lia).
    destruct (decide (dst_x <= x < dst_x + copy_w)) as [Hinx|Houtx].
    + rewrite decide_True by done.
      match goal with |- context [opaque ?l !! c] => destruct (opaque l !! c) eqn:He; [done|] end.
      apply lookup_ge_None in He. rewrite length_opaque, length_take, length_drop in He.
      assert (((src_y + (y - dst_y)) * sw + (src_x + (x - dst_x)) + 1) <= sw * sh) by nia. lia.
    + rewrite (decide_False (P := dst_y <= y < dst_y + copy_h /\ dst_x <= x < dst_x + copy_w)) by tauto. unfold bars_patch, over.
      rewrite !(matte_row vw _ _ _ x y c v) by (done || lia).
      repeat case_decide; done || lia.
  - rewrite (decide_False (P := dst_y <= y < dst_y + copy_h /\ dst_x <= x < dst_x + copy_w)) by tauto.
    rewrite !(matte_rows vw _ _ x y c v) by done.
    assert (0 <= y - dst_y < 0 + copy_h ->
      row_patch rgba vw sw src_x src_y dst_x dst_y copy_w (y - dst_y) ((y * vw + x) * 4 + c) = None) as Hrow.
    { intros Hin. unfold row_patch. rewrite span_row by lia. rewrite decide_False by lia. done. }
    destruct (decide (0 <= y - dst_y < 0 + copy_h)) as [Hin|Hnin]; [rewrite (Hrow Hin)|].
    all: repeat case_decide; done || lia.
Qed.
End composition.

(* ------------------------------------------------------------------------ *)
(** ** The view *)

Definition view_fits (g : ViewGeometry) : Prop :=
  view_ok g /\ (output g).1 * (output g).2 * BYTES_PER_PIXEL <= u64_max.
Definition scene_wf (s : Scene) : Prop := match sn_surface s with Some c => surface_wf c | None => True end.

(** The reference: what the pixel of the view at [(x, y)] is. *)
Definition scene_pixel (s : Scene) (geom : ViewGeometry) : nat -> nat -> list Z :=
  match sn_surface s with
  | Some c => view_pixel geom c
  | None => pattern (output geom).1 (output geom).2
  end.

Lemma quot_half_bounds a b :
  0 <= a -> 0 <= b -> - b <= Z.quot (a - b) 2 <= a.
Proof.
  intros Ha Hb. destruct (Z.le_gt_cases b a).
  - rewrite Z.quot_div_nonneg by lia. pose proof (Z.div_mod (a - b) 2). pose proof (Z.mod_pos_bound (a - b) 2). lia.
  - replace (a - b) with (- (b - a)) by lia. rewrite Z.quot_opp_l by lia. rewrite Z.quot_div_nonneg by lia.
    pose proof (Z.div_mod (b - a) 2). pose proof (Z.mod_pos_bound (b - a) 2). lia.
Qed.

Lemma clip_is_view geom c x y :
  surface_wf c -> view_ok geom -> (x < Z.to_nat (output geom).1)%nat -> (y < Z.to_nat (output geom).2)%nat ->
  let p := view_place geom (sc_width c, sc_height c) in
  let vw := Z.to_nat (output geom).1 in
  let vh := Z.to_nat (output geom).2 in
  clip_pixel (sc_rgba c) (Z.to_nat (sc_width c)) (Z.to_nat (- pl_x p)) (Z.to_nat (- pl_y p))
    (Z.to_nat (pl_x p)) (Nat.min (Z.to_nat (pl_y p)) vh)
    (Nat.min (vw - Z.to_nat (pl_x p)) (Z.to_nat (sc_width c) - Z.to_nat (- pl_x p)))
    (Nat.min (vh - Nat.min (Z.to_nat (pl_y p)) vh) (Z.to_nat (sc_height c) - Z.to_nat (- pl_y p))) x y
  = view_pixel geom c x y.
Proof.
  intros (Hw & Hh & _) _ Hx Hy p vw vh. unfold clip_pixel, view_pixel, surface_pixel. fold p. cbv zeta.
  destruct ((0 <=? Z.of_nat x - pl_x p) && (Z.of_nat x - pl_x p <? sc_width c)
    && (0 <=? Z.of_nat y - pl_y p) && (Z.of_nat y - pl_y p <? sc_height c)) eqn:Hin.
  - rewrite decide_True by lia. do 3 f_equal.
    assert (Z.of_nat (Z.to_nat (- pl_x p) + (x - Z.to_nat (pl_x p))) = Z.of_nat x - pl_x p) as Hsx by lia.
    assert (Z.of_nat (Z.to_nat (- pl_y p) + (y - Nat.min (Z.to_nat (pl_y p)) vh)) = Z.of_nat y - pl_y p) as Hsy by lia.
    rewrite <- Hsx, <- Hsy. nia.
  - rewrite decide_False by lia. done.
Qed.

Lemma length_view_pixel geom c x y : surface_wf c -> length (view_pixel geom c x y) = 4%nat.
Proof.
  intros (Hw & Hh & Hl). unfold view_pixel. case_match eqn:Hin; [|done]. unfold surface_pixel, BYTES_PER_PIXEL in *.
  rewrite length_opaque, length_take, length_drop.
  assert (0 <= (Z.of_nat y - pl_y (view_place geom (sc_width c, sc_height c))) * sc_width c
    + (Z.of_nat x - pl_x (view_place geom (sc_width c, sc_height c))) < sc_width c * sc_height c) by nia.
  lia.
Qed.

Lemma paint_ext w h f g :
  (forall x y, (x < w)%nat -> (y < h)%nat -> f x y = g x y) -> paint w h f = paint w h g.
Proof.
  intros H. unfold paint. rewrite !flat_map_concat_map. f_equal. apply map_ext_in. intros y Hy%in_seq.
  rewrite !flat_map_concat_map. f_equal. apply map_ext_in. intros x Hx%in_seq. apply H; lia.
Qed.

Lemma compose_surface_exact geom c :
  surface_wf c -> view_fits geom ->
  compose_surface geom c = Some (paint (Z.to_nat (output geom).1) (Z.to_nat (output geom).2) (view_pixel geom c)).
Proof.
  intros Hc [Hg Hf]. pose proof Hc as (Hw & Hh & Hl). pose proof Hg as (Hgw & Hgh & Hgs).
  destruct (reserved_top_bounds geom Hg) as [Hr _]. unfold is_u32 in *.
  unfold compose_surface. destruct (output geom) as [width height] eqn:Ho. cbn [fst snd] in *. cbv zeta.
  rewrite usize_len by lia. case_bool_decide as He.
  - rewrite He. f_equal. symmetry. apply (f_equal length) in He. rewrite length_replicate in He. simpl in He.
    apply length_zero_iff_nil. rewrite (proj1 (paint_spec _ _ _ (fun x y => length_view_pixel geom c x y Hc))). lia.
  - set (p := view_place geom (sc_width c, sc_height c)).
    assert (- sc_width c <= pl_x p <= width /\ - sc_height c <= pl_y p) as [Hpx Hpy].
    { unfold p, view_place, layout_place, usable. rewrite Ho. simpl.
      pose proof (quot_half_bounds width (sc_width c)).
      pose proof (quot_half_bounds (height - reserved_top geom) (sc_height c)). lia. }
    unfold usize_sub. rewrite !(proj2 (Nat.leb_le _ _)) by lia. cbn [mbind option_bind].
    unfold BYTES_PER_PIXEL in *.
    etrans; [solve [apply (compose_rows _ _ _ _ (Z.to_nat (sc_height c)));
      rewrite ?length_replicate; nia]|].
    f_equal. apply paint_ext. intros x y Hx Hy. pose proof (clip_is_view geom c x y Hc Hg) as Hcl.
    rewrite Ho in Hcl. by apply Hcl.
Qed.

Lemma compose_paints s geom :
  scene_wf s -> view_fits geom ->
  compose s geom = Some (paint (Z.to_nat (output geom).1) (Z.to_nat (output geom).2) (scene_pixel s geom)).
Proof.
  unfold scene_wf, compose, scene_pixel. intros Hs Hf. destruct (sn_surface s) as [c|]; [by apply compose_surface_exact|].
  destruct Hf as [(Hw & Hh & _) Hf]. unfold is_u32 in *. apply render_pattern_exact; [lia..|done].
Qed.

Lemma opaque_pixel l : length l = 4%nat -> opaque l !! 3%nat = Some 255.
Proof. by destruct l as [|? [|? [|? [|? [|]]]]]. Qed.

Lemma scene_pixel_opaque s geom x y :
  scene_wf s -> (x < Z.to_nat (output geom).1)%nat -> (y < Z.to_nat (output geom).2)%nat ->
  length (scene_pixel s geom x y) = 4%nat /\ scene_pixel s geom x y !! 3%nat = Some 255.
Proof.
  unfold scene_wf, scene_pixel. intros Hs Hx Hy. destruct (sn_surface s) as [c|].
  - pose proof (length_view_pixel geom c x y Hs) as Hl. split; [done|]. revert Hl. unfold view_pixel.
    case_match; [|done]. rewrite length_opaque. apply opaque_pixel.
  - split; [apply length_pattern|]. unfold pattern.
    by destruct (pattern_ok (Z.of_nat x) (Z.of_nat y) (output geom).1 (output geom).2) as (? & ? & ? & ->); [lia..|].
Qed.

(* ------------------------------------------------------------------------ *)
(** ** Damage *)

Definition in_rect (r : DamageRect) (x y : Z) : Prop :=
  dm_x r <= x < dm_x r + dm_width r /\ dm_y r <= y < dm_y r + dm_height r.

(** A rectangle of the surface, as a shim that means it sends it. *)
Definition damage_ok (r : DamageRect) : Prop := 0 <= dm_x r <= i32_max /\ 0 <= dm_y r <= i32_max.

Lemma saturate_lt x z : x < i32_max -> x < z -> x < i32_saturate z.
Proof. unfold i32_saturate. lia. Qed.
Lemma saturate_le z : i32_saturate z <= i32_max.
Proof. unfold i32_saturate, i32_min, i32_max. lia. Qed.
Lemma saturate_id z : 0 <= z <= i32_max -> i32_saturate z = z.
Proof. unfold i32_saturate, i32_min. lia. Qed.

Lemma axis_covers a w b v x :
  0 <= a <= i32_max -> 0 <= b <= i32_max -> x < i32_max -> a <= x < a + w \/ b <= x < b + v ->
  Z.min a b <= x
  < Z.min a b + i32_saturating_sub (Z.max (i32_saturating_add a w) (i32_saturating_add b v)) (Z.min a b).
Proof.
  unfold i32_saturating_add, i32_saturating_sub. intros Ha Hb Hx H.
  pose proof (saturate_le (a + w)). pose proof (saturate_le (b + v)).
  assert (x < Z.max (i32_saturate (a + w)) (i32_saturate (b + v))) as Hx2
    by (destruct H; [pose proof (saturate_lt x (a + w))|pose proof (saturate_lt x (b + v))]; lia).
  rewrite saturate_id by lia. lia.
Qed.

Lemma union_covers r r' x y :
  damage_ok r -> damage_ok r' -> x < i32_max -> y < i32_max ->
  in_rect r x y \/ in_rect r' x y -> in_rect (damage_union r r') x y.
Proof.
  intros [Hx1 Hy1] [Hx2 Hy2] Hx Hy H. unfold in_rect, damage_union in *. simpl.
  split; apply axis_covers; tauto.
Qed.
Lemma union_ok r r' : damage_ok r -> damage_ok r' -> damage_ok (damage_union r r').
Proof. unfold damage_ok, damage_union. simpl. lia. Qed.

(** What a commit's damage says: outside it the new surface repeats the old. *)
Definition same_size (a b : SurfaceContent) : Prop := sc_width a = sc_width b /\ sc_height a = sc_height b.
Definition repeats (a b : SurfaceContent) (r : DamageRect) : Prop :=
  forall x y, 0 <= x < sc_width a -> 0 <= y < sc_height a -> ~ in_rect r x y ->
    surface_pixel a x y = surface_pixel b x y.
Definition honest (prev : option SurfaceContent) (content : SurfaceContent) (damage : option DamageRect) : Prop :=
  match prev, damage with
  | Some prev, Some r => damage_ok r /\ (same_size prev content -> repeats prev content r)
  | _, _ => True
  end.

Fixpoint honest_run (s : Scene) (l : list (SurfaceContent * option DamageRect)) : Prop :=
  match l with
  | [] => True
  | (c, d) :: l => surface_wf c /\ honest (sn_surface s) c d /\ honest_run (commit_with_damage c d s) l
  end.
Definition commits (s : Scene) (l : list (SurfaceContent * option DamageRect)) : Scene :=
  fold_left (fun s cd => commit_with_damage cd.1 cd.2 s) l s.

(** What the pending damage says of a scene, against the surface last taken. *)
Definition accounts (taken : option SurfaceContent) (s : Scene) : Prop :=
  match sn_pending_damage s with
  | Clean => sn_surface s = taken
  | Rect r =>
      exists a c, taken = Some a /\ sn_surface s = Some c /\ same_size a c /\ damage_ok r
        /\ (sc_width a <= i32_max -> sc_height a <= i32_max -> repeats a c r)
  | Unbounded => True
  end.

Lemma same_geometry_spec prev c :
  same_geometry prev c = true <-> exists a, prev = Some a /\ same_size a c.
Proof.
  unfold same_geometry, same_size. destruct prev as [a|]; simpl; [|split; [done|by intros (? & ? & _)]].
  rewrite andb_true_iff, !Z.eqb_eq. split; [eauto|]. by intros (? & [= ->] & ?).
Qed.

Lemma commit_accounts taken s c d :
  accounts taken s -> honest (sn_surface s) c d -> accounts taken (commit_with_damage c d s).
Proof.
  unfold accounts. intros Ha Hh. unfold commit_with_damage. simpl.
  destruct (same_geometry (sn_surface s) c) eqn:Hg; [|done].
  apply same_geometry_spec in Hg as (a & Hs & Hac).
  destruct d as [r|]; [|by destruct (sn_pending_damage s)]. rewrite Hs in Hh. destruct Hh as [Hr Hrep].
  destruct (sn_pending_damage s) as [|r0|]; simpl; [| |done].
  - exists a, c. rewrite Hs in Ha. repeat split; try done; try apply Hac; try apply Hr. intros _ _. by apply Hrep.
  - destruct Ha as (a0 & c0 & -> & Hs0 & Hsz & Hr0 & H0). rewrite Hs in Hs0. injection Hs0 as <-.
    exists a0, c. destruct Hsz as [Hsw Hsh], Hac as [Hcw Hch]. repeat split; try congruence; try (by apply union_ok).
    intros Hw Hh x y Hx Hy Hn.
    rewrite H0; [apply Hrep|..]; try done; try (by rewrite <- ?Hsw, <- ?Hsh).
    + intros Hin. apply Hn, union_covers; [done..|lia|lia|by right].
    + intros Hin. apply Hn, union_covers; [done..|lia|lia|by left].
Qed.

Lemma commits_account taken l s :
  accounts taken s -> honest_run s l -> scene_wf s ->
  accounts taken (commits s l) /\ scene_wf (commits s l).
Proof.
  revert s. induction l as [|[c d] l IH]; intros s Ha Hh Hs; [done|]. destruct Hh as (Hc & Hd & Hl).
  apply IH; [by apply commit_accounts|done|done].
Qed.

Lemma i64_as_i32_small z : i32_min <= z <= i32_max -> i64_as_i32 z = z.
Proof. unfold i64_as_i32, i32_min, i32_max, u32_max. intros H. rewrite Z.mod_small; lia. Qed.

(** A pixel of the view outside the rectangle taken is no pixel of the damage. *)
Lemma view_rect_misses geom c r x y :
  (output geom).1 <= i32_max -> (output geom).2 <= i32_max ->
  0 <= x < (output geom).1 -> 0 <= y < (output geom).2 ->
  let p := view_place geom (sc_width c, sc_height c) in
  ~ in_rect (view_rect geom c r) x y -> ~ in_rect r (x - pl_x p) (y - pl_y p).
Proof.
  intros Hw Hh Hx Hy p. unfold view_rect, in_rect. fold p. simpl. intros Hn [Hix Hiy]. apply Hn. clear Hn.
  rewrite !i64_as_i32_small by (unfold clamp_to, i32_min, i32_max in *; lia). unfold clamp_to. lia.
Qed.

Lemma repeats_pixel geom a c r x y :
  same_size a c -> repeats a c r ->
  let p := view_place geom (sc_width c, sc_height c) in
  ~ in_rect r (Z.of_nat x - pl_x p) (Z.of_nat y - pl_y p) -> view_pixel geom a x y = view_pixel geom c x y.
Proof.
  intros [Hw Hh] Hrep p Hn. unfold view_pixel. rewrite Hw, Hh. fold p. cbv zeta.
  destruct ((0 <=? Z.of_nat x - pl_x p) && (Z.of_nat x - pl_x p <? sc_width c)
    && (0 <=? Z.of_nat y - pl_y p) && (Z.of_nat y - pl_y p <? sc_height c)) eqn:Hin; [|done].
  f_equal. apply Hrep; [lia|lia|done].
Qed.

Lemma taken_account geom s : accounts (sn_surface s) (take_damage_view geom s).2.
Proof. done. Qed.

(** Everything the damage leaves out of the rectangle is as it was. *)
Lemma damage_view_sound geom taken s r :
  accounts (sn_surface taken) s -> scene_wf taken ->
  (forall a, sn_surface taken = Some a -> sc_width a <= i32_max /\ sc_height a <= i32_max) ->
  (output geom).1 <= i32_max -> (output geom).2 <= i32_max ->
  (take_damage_view geom s).1 = Some r ->
  forall x y, (x < Z.to_nat (output geom).1)%nat -> (y < Z.to_nat (output geom).2)%nat ->
    ~ in_rect r (Z.of_nat x) (Z.of_nat y) -> scene_pixel taken geom x y = scene_pixel s geom x y.
Proof.
  intros Ha Hwf Hsz Hgw Hgh Ht x y Hx Hy Hn. unfold take_damage_view, accounts in *. simpl in Ht.
  destruct (sn_pending_damage s) as [|r0|]; [done| |done].
  destruct Ha as (a & c & Hta & Hc & Hac & Hr & Hrep). rewrite Hc in Ht. injection Ht as <-.
  unfold scene_pixel. rewrite Hta, Hc. destruct (Hsz a Hta).
  eapply repeats_pixel; [done|by apply Hrep|]. apply view_rect_misses; [done..|lia|lia|done].
Qed.

(* ------------------------------------------------------------------------ *)
(** ** The scenes of all realms *)

Record RealmScene : Type := { rsn_scene : Scene; layout_generation : Z }.
Record RealmScenes : Type := {
  rss_scenes : gmap RealmId RealmScene; rss_bound : option RealmId; rss_view : Z * Z; rss_vacant : Scene }.

Definition realm_scenes_new (view : Z * Z) : RealmScenes :=
  {| rss_scenes := ∅; rss_bound := None; rss_view := view; rss_vacant := scene_new |}.

Definition set_scenes (m : gmap RealmId RealmScene) (s : RealmScenes) : RealmScenes :=
  {| rss_scenes := m; rss_bound := rss_bound s; rss_view := rss_view s; rss_vacant := rss_vacant s |}.
Definition set_shown (b : option RealmId) (s : RealmScenes) : RealmScenes :=
  {| rss_scenes := rss_scenes s; rss_bound := b; rss_view := rss_view s; rss_vacant := rss_vacant s |}.

Definition fresh_scene : RealmScene := {| rsn_scene := scene_new; layout_generation := 0 |}.
(** The entry [scene_mut] makes, and a write through it. *)
Definition ensure_scene (realm : RealmId) (s : RealmScenes) : RealmScenes :=
  match rss_scenes s !! realm with
  | Some _ => s
  | None => set_scenes (<[realm := fresh_scene]> (rss_scenes s)) s
  end.
Definition scene_mut (realm : RealmId) (f : Scene -> Scene) (s : RealmScenes) : RealmScenes :=
  let s := ensure_scene realm s in
  set_scenes (alter (fun e => {| rsn_scene := f (rsn_scene e); layout_generation := layout_generation e |})
                realm (rss_scenes s)) s.

Definition scene_of (realm : RealmId) (s : RealmScenes) : option Scene := rsn_scene <$> rss_scenes s !! realm.
Definition bound_scene (s : RealmScenes) : Scene :=
  default (rss_vacant s) (id ← rss_bound s; scene_of id s).
Definition focused (s : RealmScenes) : option RealmId := rss_bound s.

Definition take_bound_damage (geom : ViewGeometry) (s : RealmScenes) : option DamageRect * RealmScenes :=
  match rss_bound s with
  | None => (None, s)
  | Some bound =>
      match rss_scenes s !! bound with
      | None => (None, s)
      | Some e =>
          let '(d, sc) := take_damage_view geom (rsn_scene e) in
          (d, set_scenes (<[bound := {| rsn_scene := sc; layout_generation := layout_generation e |}]>
                            (rss_scenes s)) s)
      end
  end.

Definition bump (e : RealmScene) : RealmScene :=
  {| rsn_scene := rsn_scene e; layout_generation := u64_wrapping_add (layout_generation e) 1 |}.

Definition bind (realm : RealmId) (s : RealmScenes) : RealmScenes :=
  if bool_decide (rss_bound s = Some realm) then s else
  let s := match rss_bound s with
           | Some previous => set_scenes (alter bump previous (rss_scenes s)) s
           | None => s
           end in
  let s := ensure_scene realm s in
  set_shown (Some realm) (set_scenes (alter bump realm (rss_scenes s)) s).

Definition unbind (s : RealmScenes) : RealmScenes :=
  match rss_bound s with
  | None => s
  | Some previous => set_shown None (set_scenes (alter bump previous (rss_scenes s)) s)
  end.

Definition set_view_size (view : Z * Z) (s : RealmScenes) : RealmScenes :=
  if bool_decide (rss_view s = view) then s else
  {| rss_scenes := bump <$> rss_scenes s; rss_bound := rss_bound s; rss_view := view; rss_vacant := rss_vacant s |}.

(** The output's realm has a scene. *)
Definition scenes_wf (s : RealmScenes) : Prop :=
  rss_vacant s = scene_new /\ forall realm, rss_bound s = Some realm -> is_Some (rss_scenes s !! realm).

Inductive ScenesOp : Type :=
| ScWrite (realm : RealmId) (f : Scene -> Scene)
| ScTake (geom : ViewGeometry)
| ScBind (realm : RealmId)
| ScUnbind
| ScResize (view : Z * Z).
Definition scenes_step (op : ScenesOp) (s : RealmScenes) : RealmScenes :=
  match op with
  | ScWrite realm f => scene_mut realm f s
  | ScTake geom => (take_bound_damage geom s).2
  | ScBind realm => bind realm s
  | ScUnbind => unbind s
  | ScResize view => set_view_size view s
  end.

Lemma ensure_lookup realm s k :
  rss_scenes (ensure_scene realm s) !! k
  = if decide (k = realm) then Some (default fresh_scene (rss_scenes s !! realm)) else rss_scenes s !! k.
Proof.
  unfold ensure_scene. destruct (rss_scenes s !! realm) as [e|] eqn:He; simpl; case_decide; subst; try done.
  - by rewrite lookup_insert_eq.
  - by rewrite lookup_insert_ne.
Qed.
Lemma ensure_frame realm s :
  rss_bound (ensure_scene realm s) = rss_bound s /\ rss_vacant (ensure_scene realm s) = rss_vacant s.
Proof. unfold ensure_scene. by case_match. Qed.

Lemma scenes_step_wf op s : scenes_wf s -> scenes_wf (scenes_step op s).
Proof.
  intros [Hv Hb]. destruct op as [realm f|geom|realm| |view]; simpl.
  - destruct (ensure_frame realm s) as [Hfb Hfv]. split; [simpl; congruence|]. simpl. rewrite Hfb. intros R HR.
    destruct (decide (R = realm)) as [->|Hne].
    + rewrite lookup_alter_eq, ensure_lookup, decide_True by done. by eexists.
    + rewrite lookup_alter_ne, ensure_lookup, decide_False by congruence. auto.
  - unfold take_bound_damage. pose proof (conj Hv Hb : scenes_wf s) as Hwf.
    destruct (rss_bound s) as [b|] eqn:Hs; [|exact Hwf].
    destruct (rss_scenes s !! b) as [e|] eqn:He; [|exact Hwf].
    destruct (take_damage_view geom (rsn_scene e)). split; [done|]. simpl. rewrite Hs. intros R [= <-].
    rewrite lookup_insert_eq. by eexists.
  - unfold bind. case_bool_decide; [by split|]. set (s1 := match rss_bound s with Some _ => _ | None => _ end).
    destruct (ensure_frame realm s1) as [_ Hfv]. split; simpl.
    + rewrite Hfv. unfold s1. by case_match.
    + intros R [= <-]. rewrite lookup_alter_eq, ensure_lookup, decide_True by done. by eexists.
  - unfold unbind. pose proof (conj Hv Hb : scenes_wf s) as Hwf. by destruct (rss_bound s) eqn:Hs.
  - unfold set_view_size. case_bool_decide; [by split|]. split; [done|]. simpl. intros R HR.
    rewrite lookup_fmap. apply fmap_is_Some. auto.
Qed.

Lemma from_rgba_wf rgba w h c :
  is_u32 w -> is_u32 h -> from_rgba rgba w h = Ok c ->
  c = {| sc_rgba := rgba; sc_width := w; sc_height := h |} /\ surface_wf c.
Proof.
  unfold from_rgba, surface_wf, is_u32. intros Hw Hh.
  destruct ((w =? 0) || (h =? 0) || negb (Z.of_nat (length rgba) =? w * h * BYTES_PER_PIXEL)) eqn:He; [done|].
  intros [= <-]. simpl.
  apply orb_false_iff in He as [[Hw0%Z.eqb_neq Hh0%Z.eqb_neq]%orb_false_iff He].
  apply negb_false_iff, Z.eqb_eq in He. split; [done|]. split; [lia|]. split; [lia|done].
Qed.

(** The bytes composed, by their place. *)
Lemma compose_lookup s geom :
  scene_wf s -> view_fits geom ->
  let w := Z.to_nat (output geom).1 in
  let h := Z.to_nat (output geom).2 in
  exists out, compose s geom = Some out /\ out = paint w h (scene_pixel s geom) /\ length out = (h * w * 4)%nat
  /\ forall x y c, (x < w)%nat -> (y < h)%nat -> (c < 4)%nat ->
       out !! ((y * w + x) * 4 + c)%nat = scene_pixel s geom x y !! c.
Proof.
  intros Hs Hf w h. rewrite compose_paints by done. fold w h.
  assert (forall x y, (x < w)%nat -> (y < h)%nat ->
    scene_pixel s geom x y = take 4 (scene_pixel s geom x y ++ LETTERBOX_RGBA)) as Hpx.
  { intros x y Hx Hy. destruct (scene_pixel_opaque s geom x y Hs Hx Hy) as [Hl _]. by rewrite take_app_length' by done. }
  destruct (paint_spec w h (fun x y => take 4 (scene_pixel s geom x y ++ LETTERBOX_RGBA))) as [Hl Hk].
  { intros x y. rewrite length_take, length_app. change (length LETTERBOX_RGBA) with 4%nat. lia. }
  rewrite (paint_ext w h _ _ Hpx). eexists. do 3 (split; [done|]). intros x y c Hx Hy Hc.
  rewrite Hk by done. by rewrite <- Hpx.
Qed.

(* ------------------------------------------------------------------------ *)
(** ** Properties *)

(** C38: what a capture and a display get of a realm is exactly the view. For any
    scene and any output that fits memory, composition does not fail and is equal
    to the painting that gives every pixel its colour directly: the pixel of the
    surface that lies there, made opaque, the matte around it, or the test pattern
    when there is no surface. No pixel is ever transparent. *)
Theorem scene_compose_exact (s : Scene) (geom : ViewGeometry) :
  scene_wf s -> view_fits geom ->
  let w := Z.to_nat (output geom).1 in
  let h := Z.to_nat (output geom).2 in
  exists out, compose s geom = Some out
  /\ out = paint w h (scene_pixel s geom)
  /\ Z.of_nat (length out) = (output geom).1 * (output geom).2 * BYTES_PER_PIXEL
  /\ forall x y, (x < w)%nat -> (y < h)%nat -> out !! ((y * w + x) * 4 + 3)%nat = Some 255.
Proof.
  intros Hs Hf w h. destruct (compose_lookup s geom Hs Hf) as (out & Ho & Hp & Hl & Hk). fold w h in Hp, Hl, Hk.
  exists out. split; [done|]. split; [done|]. destruct Hf as [(Hw & Hh & _) _]. unfold is_u32 in *.
  split; [rewrite Hl; unfold w, h, BYTES_PER_PIXEL; lia|]. intros x y Hx Hy. rewrite Hk by lia.
  by apply scene_pixel_opaque.
Qed.

Definition demo_surface (v : Z) : SurfaceContent :=
  {| sc_rgba := [1; 2; 3; 4; 5; 6; 7; 8; v; 10; 11; 12; 13; 14; 15; 16]; sc_width := 2; sc_height := 2 |}.
Definition demo_geom : ViewGeometry := {| output := (4, 12); strip_h := 0 |}.
Lemma demo_surface_wf v : surface_wf (demo_surface v).
Proof. unfold surface_wf, u32_max, BYTES_PER_PIXEL. simpl. lia. Qed.
Lemma demo_view_fits : view_fits demo_geom.
Proof. by vm_compute. Qed.

Lemma scene_compose_exact_witness :
  exists out, compose {| sn_surface := Some (demo_surface 12); sn_generation := 1; sn_pending_damage := Clean |} demo_geom = Some out
  /\ length out = 192%nat /\ take 4 (drop 148 out) = [1; 2; 3; 255].
Proof.
  destruct (scene_compose_exact {| sn_surface := Some (demo_surface 12); sn_generation := 1; sn_pending_damage := Clean |}
    demo_geom (demo_surface_wf 12) demo_view_fits) as (out & Ho & _ & Hl & _).
  exists out. split; [exact Ho|]. split; [assert (Z.of_nat (length out) = 192) by exact Hl; lia|]. revert Ho. vm_compute. by intros [= <-].
Defined.

(** A damage-limited upload misses nothing. Take a realm's damage, let its
    shim commit any number of times, each naming what it changed, and take the
    damage again: the pixels of the view outside the rectangle taken are those
    composed the first time. *)
Theorem scene_damage_sound (s : Scene) (geom : ViewGeometry)
  (l : list (SurfaceContent * option DamageRect)) (r : DamageRect) :
  let taken := (take_damage_view geom s).2 in
  let now := commits taken l in
  scene_wf s -> view_fits geom -> (output geom).1 <= i32_max -> (output geom).2 <= i32_max ->
  (forall c, sn_surface s = Some c -> sc_width c <= i32_max /\ sc_height c <= i32_max) ->
  honest_run taken l ->
  (take_damage_view geom now).1 = Some r ->
  exists before after, compose taken geom = Some before /\ compose now geom = Some after
  /\ length before = length after
  /\ forall x y c, (x < Z.to_nat (output geom).1)%nat -> (y < Z.to_nat (output geom).2)%nat -> (c < 4)%nat ->
       ~ in_rect r (Z.of_nat x) (Z.of_nat y) ->
       let i := ((y * Z.to_nat (output geom).1 + x) * 4 + c)%nat in before !! i = after !! i.
Proof.
  intros taken now Hs Hf Hgw Hgh Hsz Hh Ht.
  destruct (commits_account (sn_surface s) l taken (taken_account geom s) Hh Hs) as [Ha Hn].
  destruct (compose_lookup taken geom Hs Hf) as (before & Hb & _ & Hbl & Hbk).
  destruct (compose_lookup now geom Hn Hf) as (after & Haf & _ & Hal & Hak).
  exists before, after. split; [done|]. split; [done|]. split; [congruence|]. intros x y c Hx Hy Hc Hr i. unfold i.
  rewrite Hbk, Hak by done. by rewrite (damage_view_sound geom taken now r).
Qed.

Definition demo_taken : Scene :=
  {| sn_surface := Some (demo_surface 12); sn_generation := 1; sn_pending_damage := Unbounded |}.
Definition demo_commits : list (SurfaceContent * option DamageRect) :=
  [(demo_surface 12, Some {| dm_x := 1; dm_y := 0; dm_width := 1; dm_height := 1 |});
   (demo_surface 99, Some {| dm_x := 0; dm_y := 1; dm_width := 1; dm_height := 1 |})].

Lemma demo_repeats : repeats (demo_surface 12) (demo_surface 99) {| dm_x := 0; dm_y := 1; dm_width := 1; dm_height := 1 |}.
Proof.
  unfold repeats, in_rect. simpl. intros x y Hx Hy Hn.
  assert ((x = 0 \/ x = 1) /\ (y = 0 \/ y = 1)) as [[-> | ->] [-> | ->]] by lia; try done. lia.
Qed.
Lemma demo_honest : honest_run (take_damage_view demo_geom demo_taken).2 demo_commits.
Proof.
  simpl. split; [apply demo_surface_wf|]. split; [split; [by vm_compute|done]|].
  split; [apply demo_surface_wf|]. split; [|done]. split; [by vm_compute|]. intros _. apply demo_repeats.
Qed.

Lemma scene_damage_sound_witness :
  let now := commits (take_damage_view demo_geom demo_taken).2 demo_commits in
  let r := {| dm_x := 1; dm_y := 9; dm_width := 2; dm_height := 2 |} in
  (take_damage_view demo_geom now).1 = Some r
  /\ exists before after, compose (take_damage_view demo_geom demo_taken).2 demo_geom = Some before
       /\ compose now demo_geom = Some after /\ before !! 188%nat = after !! 188%nat.
Proof.
  intros now r. split; [by vm_compute|].
  destruct (scene_damage_sound demo_taken demo_geom demo_commits r (demo_surface_wf 12) demo_view_fits)
    as (before & after & Hb & Ha & _ & Hk).
  - by vm_compute.
  - by vm_compute.
  - intros c [= <-]. by vm_compute.
  - exact demo_honest.
  - by vm_compute.
  - exists before, after. split; [exact Hb|]. split; [exact Ha|].
    apply (Hk 3%nat 11%nat 0%nat); [by apply Nat.ltb_lt..|]. unfold in_rect. simpl. lia.
Defined.

(** Damage far to the left makes the box too narrow to reach what it should cover:
    the width saturates, and the second rectangle is lost. *)
Example union_loses_damage :
  let far := {| dm_x := i32_min; dm_y := 0; dm_width := 1; dm_height := 1 |} in
  let near := {| dm_x := 10; dm_y := 0; dm_width := 5; dm_height := 1 |} in
  in_rect near 12 0 /\ ~ in_rect (damage_union far near) 12 0.
Proof.
  unfold in_rect, damage_union, i32_saturating_add, i32_saturating_sub, i32_saturate, i32_min, i32_max. simpl. lia.
Qed.
