(* ===== verification/Designation.v ===== *)
(** * The designation ledger

    [crates/vitrin-core/src/designation.rs]: the tickets of admitted file
    designations, each owed exactly one terminal event. The liveness of a grant
    and of a realm is the caller's [dyn Liveness], a record of functions. *)

From S2P Require Import Prelude BTree Text Identity Grants Petitions Uses.

Inductive TimeoutPolicy : Type := Spends | Restores.

Record DesignationTicket : Type := {
  t_id : Z;
  t_connection : ConnectionId;
  t_facet_id : Z;
  t_grant_wire_id : Z;
  t_grant : GrantId;
  t_principal : PrincipalIdentity;
  t_realm : RealmId;
  t_ask : AskedFor;
  t_spent_once : bool;
  t_deadline : Instant }.

Inductive OpenRefusal : Type := Busy | Full.
#[export] Instance OpenRefusal_eq_dec : EqDecision OpenRefusal.
Proof. solve_decision. Defined.

Definition MAX_OUTSTANDING : Z := 8.

Inductive Undelivered : Type := AuthorityDied | RealmDied | TimedOut | ConnectionGone.
#[export] Instance Undelivered_eq_dec : EqDecision Undelivered.
Proof. solve_decision. Defined.

(** The [Liveness] trait. *)
Record LivenessWorld : Type := {
  grant_is_live : GrantId -> bool -> bool;
  realm_is_the_same : RealmId -> bool }.

Record Ledger : Type := {
  tickets : btree DesignationTicket;
  next : Z;
  policy : TimeoutPolicy }.

Definition ledger_new (p : TimeoutPolicy) : Ledger :=
  {| tickets := bt_empty; next := 1; policy := p |}.
(** [derive(Default)]. *)
Definition ledger_default : Ledger :=
  {| tickets := bt_empty; next := 0; policy := Spends |}.

Definition with_tickets (l : Ledger) (m : btree DesignationTicket) : Ledger :=
  {| tickets := m; next := next l; policy := policy l |}.

Definition owes (l : Ledger) (who : PrincipalIdentity) : bool :=
  bt_any (tickets l) (fun t => str_eqb (t_principal t) who).
Definition outstanding (l : Ledger) : Z := bt_len (tickets l).

Definition ticket_of (id : Z) (connection : ConnectionId) (facet_id grant_wire_id : Z)
    (grant : GrantId) (who : PrincipalIdentity) (realm : RealmId) (ask : AskedFor)
    (spent_once : bool) (deadline : Instant) : DesignationTicket :=
  {| t_id := id; t_connection := connection; t_facet_id := facet_id;
     t_grant_wire_id := grant_wire_id; t_grant := grant; t_principal := who; t_realm := realm;
     t_ask := ask; t_spent_once := spent_once; t_deadline := deadline |}.

Definition open (l : Ledger) (connection : ConnectionId) (facet_id grant_wire_id : Z)
    (grant : GrantId) (who : PrincipalIdentity) (realm : RealmId) (ask : AskedFor)
    (spent_once : bool) (deadline : Instant) : result Z OpenRefusal * Ledger :=
  if owes l who then (Err Busy, l)
  else if MAX_OUTSTANDING <=? bt_len (tickets l) then (Err Full, l)
  else
    let id := next l in
    (Ok id,
     {| tickets := <[id := ticket_of id connection facet_id grant_wire_id grant who realm ask
                             spent_once deadline]> (tickets l);
        next := u32_saturating_add (next l) 1; policy := policy l |}).

Definition is_open (l : Ledger) (id : Z) : bool := bool_decide (is_Some (tickets l !! id)).
Definition peek (l : Ledger) (id : Z) : option DesignationTicket := tickets l !! id.
Definition front_open (l : Ledger) : option Z := bt_first (tickets l).
Definition take (l : Ledger) (id : Z) : option DesignationTicket * Ledger :=
  (tickets l !! id, with_tickets l (delete id (tickets l))).

Definition redeem (l : Ledger) (id : Z) (world : LivenessWorld) (now : Instant)
    : result DesignationTicket (option DesignationTicket * Undelivered) * Ledger :=
  match tickets l !! id with
  | None => (Err (None, TimedOut), l)
  | Some t =>
      let l := with_tickets l (delete id (tickets l)) in
      if t_deadline t <=? now then (Err (Some t, TimedOut), l)
      else if negb (grant_is_live world (t_grant t) (t_spent_once t))
      then (Err (Some t, AuthorityDied), l)
      else if negb (realm_is_the_same world (t_realm t)) then (Err (Some t, RealmDied), l)
      else (Ok t, l)
  end.

(** The three sweeps collect the ids, then remove them one by one. *)
Definition sweep (l : Ledger) (p : DesignationTicket -> bool) : list DesignationTicket * Ledger :=
  let due := bt_select (tickets l) (fun _ t => p t) in
  let '(out, m) := remove_each due (tickets l) in (out, with_tickets l m).
Definition expire_due (l : Ledger) (now : Instant) := sweep l (fun t => t_deadline t <=? now).
Definition withdraw_connection (l : Ledger) (c : ConnectionId) :=
  sweep l (fun t => t_connection t =? c).
Definition forget_realm (l : Ledger) (realm : RealmId) :=
  sweep l (fun t => str_eqb (t_realm t) realm).

(* ------------------------------------------------------------------------ *)
(** ** The ledger as a transition system *)

Inductive LedgerOp : Type :=
| LOpen (connection : ConnectionId) (facet_id grant_wire_id : Z) (grant : GrantId)
    (who : PrincipalIdentity) (realm : RealmId) (ask : AskedFor) (spent_once : bool)
    (deadline : Instant)
| LTake (id : Z)
| LRedeem (id : Z) (world : LivenessWorld) (now : Instant)
| LExpire (now : Instant)
| LWithdraw (c : ConnectionId)
| LForget (realm : RealmId).

(** What a step opens and what it hands out. *)
Definition ledger_step (l : Ledger) (op : LedgerOp)
    : list DesignationTicket * list DesignationTicket * Ledger :=
  match op with
  | LOpen c f w g who r a s d =>
      match open l c f w g who r a s d with
      | (Ok id, l) => ([ticket_of id c f w g who r a s d], [], l)
      | (Err _, l) => ([], [], l)
      end
  | LTake id => let '(t, l) := take l id in ([], option_list t, l)
  | LRedeem id world now =>
      match redeem l id world now with
      | (Ok t, l) => ([], [t], l)
      | (Err (t, _), l) => ([], option_list t, l)
      end
  | LExpire now => let '(ts, l) := expire_due l now in ([], ts, l)
  | LWithdraw c => let '(ts, l) := withdraw_connection l c in ([], ts, l)
  | LForget r => let '(ts, l) := forget_realm l r in ([], ts, l)
  end.

Fixpoint ledger_run (l : Ledger) (ops : list LedgerOp)
    : list DesignationTicket * list DesignationTicket * Ledger :=
  match ops with
  | [] => ([], [], l)
  | op :: ops =>
      let '(o1, a1, l) := ledger_step l op in
      let '(o2, a2, l) := ledger_run l ops in
      (o1 ++ o2, a1 ++ a2, l)
  end.

Record ledger_wf (l : Ledger) : Prop := {
  lwf_sorted : bt_wf (tickets l);
  lwf_next : 1 <= next l <= u32_max;
  lwf_ids : forall id t, tickets l !! id = Some t -> t_id t = id /\ 1 <= id < next l;
  lwf_len : bt_len (tickets l) <= MAX_OUTSTANDING;
  lwf_one : forall i t i' t', tickets l !! i = Some t -> tickets l !! i' = Some t' ->
              t_principal t = t_principal t' -> i = i' }.

Lemma ledger_new_wf p : ledger_wf (ledger_new p).
Proof. split; simpl; try done. apply bt_wf_empty. Qed.

(** Any submap of the tickets of a good ledger is good. *)
Lemma ledger_wf_shrink l m :
  ledger_wf l -> bt_wf m -> bt_len m <= bt_len (tickets l) ->
  (forall id t, m !! id = Some t -> tickets l !! id = Some t) ->
  ledger_wf (with_tickets l m).
Proof. intros [? ? Hids ? Hone] Hwf Hlen Hsub. split; simpl; [done|done|eauto|lia|eauto]. Qed.

Lemma delete_shrink l id : ledger_wf l -> ledger_wf (with_tickets l (delete id (tickets l))).
Proof.
  intros Hwf. pose proof (lwf_sorted _ Hwf). apply ledger_wf_shrink; auto with vitrin.
  - apply bt_len_retain.
  - intros id' t. rewrite bt_lookup_remove. by destruct (id' =? id).
Qed.

Lemma sweep_spec l p :
  ledger_wf l ->
  ledger_wf (sweep l p).2
  /\ Permutation (bt_values (tickets l)) ((sweep l p).1 ++ bt_values (tickets (sweep l p).2))
  /\ (forall t, In t (sweep l p).1 <-> tickets l !! t_id t = Some t /\ p t = true)
  /\ (forall id t, tickets (sweep l p).2 !! id = Some t <-> tickets l !! id = Some t /\ p t = false)
  /\ next (sweep l p).2 = next l.
Proof.
  intros Hwf. pose proof (lwf_sorted _ Hwf) as Hs. unfold sweep.
  set (due := bt_select (tickets l) (fun _ t => p t)).
  pose proof (remove_each_perm due (tickets l) Hs) as Hp.
  pose proof (remove_each_wf due (tickets l) Hs) as Hs'.
  assert (NoDup due) as Hnd by (by apply select_NoDup).
  pose proof (fun k => remove_each_lookup due (tickets l) k) as Hlk.
  pose proof (fun v => remove_each_In due (tickets l) v Hnd) as Hin.
  assert (forall k, In k due <-> exists t, tickets l !! k = Some t /\ p t = true) as Hdue
    by (intros; by apply bt_select_In).
  destruct (remove_each due (tickets l)) as [out m]. simpl in *.
  assert (forall id t, m !! id = Some t <-> tickets l !! id = Some t /\ p t = false) as Hleft.
  { intros id t. rewrite Hlk. destruct (decide (id ∈ due)) as [Hd|Hd].
    - split; [done|]. intros [Ht Hpt]. apply list_elem_of_In, Hdue in Hd as (t' & Ht' & Hp').
      congruence.
    - split; [|tauto]. intros Ht. split; [done|]. destruct (p t) eqn:Hpt; [|done]. exfalso.
      apply Hd, list_elem_of_In, Hdue. eauto. }
  split; [|split; [done|split; [|split; [done|done]]]].
  - apply ledger_wf_shrink; [done|done| |intros id t [Ht _]%Hleft; done].
    unfold bt_len. apply Permutation_length in Hp. unfold bt_values in Hp.
    rewrite List.length_app, !List.length_map in Hp. lia.
  - intros t. rewrite Hin. split.
    + intros (k & Hk & Ht). apply Hdue in Hk as (t' & Ht' & Hpt). assert (t' = t) as -> by congruence.
      destruct (lwf_ids _ Hwf _ _ Ht) as [-> _]. done.
    + intros [Ht Hpt]. exists (t_id t). split; [|done]. apply Hdue. eauto.
Qed.

(** Opening, on each of its branches. *)
Lemma open_cases l c f w g who r a s d :
  ledger_wf l ->
  let out := open l c f w g who r a s d in
  (owes l who = true /\ out = (Err Busy, l))
  \/ (owes l who = false /\ bt_len (tickets l) = MAX_OUTSTANDING /\ out = (Err Full, l))
  \/ (owes l who = false /\ bt_len (tickets l) < MAX_OUTSTANDING
      /\ tickets l !! next l = None
      /\ out = (Ok (next l),
          {| tickets := <[next l := ticket_of (next l) c f w g who r a s d]> (tickets l);
             next := u32_saturating_add (next l) 1; policy := policy l |})).
Proof.
  intros Hwf out. unfold out, open. destruct (owes l who); [by left|right].
  pose proof (lwf_len _ Hwf). destruct (Z.leb_spec MAX_OUTSTANDING (bt_len (tickets l))).
  - left. split; [done|split; [lia|done]].
  - right. split; [done|split; [done|split; [|done]]].
    destruct (tickets l !! next l) as [t|] eqn:Ht; [|done].
    apply (lwf_ids _ Hwf) in Ht. lia.
Qed.

Lemma open_wf l c f w g who r a s d :
  ledger_wf l -> next l < u32_max -> ledger_wf (open l c f w g who r a s d).2.
Proof.
  intros Hwf Hn. pose proof (lwf_next _ Hwf).
  destruct (open_cases l c f w g who r a s d Hwf) as [[_ ->]|[(_ & _ & ->)|(Ho & Hl & Hf & ->)]];
    [done|done|]. simpl. unfold u32_saturating_add.
  assert (forall i t, tickets l !! i = Some t -> t_principal t <> who) as Hne.
  { intros i t Ht <-. unfold owes in Ho.
    rewrite bt_any_false in Ho by apply (lwf_sorted _ Hwf). specialize (Ho _ _ Ht).
    by rewrite (proj2 (str_eqb_eq _ _)) in Ho. }
  split; simpl.
  - apply bt_wf_insert, Hwf.
  - lia.
  - intros id t. rewrite bt_lookup_insert. destruct (Z.eqb_spec id (next l)).
    + intros [= <-]. simpl. lia.
    + intros Ht. apply (lwf_ids _ Hwf) in Ht. lia.
  - rewrite bt_len_insert_fresh by done. lia.
  - intros i t i' t'. rewrite !bt_lookup_insert.
    destruct (Z.eqb_spec i (next l)), (Z.eqb_spec i' (next l)); intros Ht Ht' Hp; simplify_eq/=.
    + done.
    + by destruct (Hne _ _ Ht').
    + by destruct (Hne _ _ Ht).
    + by eapply (lwf_one _ Hwf).
Qed.

(** Removing one ticket. *)
Lemma delete_perm l id :
  ledger_wf l ->
  Permutation (bt_values (tickets l))
    (option_list (tickets l !! id) ++ bt_values (delete id (tickets l))).
Proof.
  intros Hwf. destruct (tickets l !! id) as [t|] eqn:Ht; simpl.
  - unfold bt_values. by rewrite (bt_remove_perm _ _ _ (lwf_sorted _ Hwf) Ht).
  - by rewrite bt_remove_None.
Qed.

Lemma redeem_cases l id world now :
  let out := redeem l id world now in
  match tickets l !! id with
  | None => out = (Err (None, TimedOut), l)
  | Some t =>
      out.2 = with_tickets l (delete id (tickets l))
      /\ (out.1 = Ok t <-> now < t_deadline t
           /\ grant_is_live world (t_grant t) (t_spent_once t) = true
           /\ realm_is_the_same world (t_realm t) = true)
      /\ (out.1 = Ok t \/ exists u, out.1 = Err (Some t, u))
  end.
Proof.
  unfold redeem. destruct (tickets l !! id) as [t|]; [|done]. cbv zeta.
  destruct (Z.leb_spec (t_deadline t) now); simpl;
    [split; [done|split; [split; [done|lia]|eauto]]|].
  destruct (grant_is_live _ _ _); simpl;
    [|split; [done|split; [split; [done|intros (_ & ? & _); done]|eauto]]].
  destruct (realm_is_the_same _ _); simpl.
  - split; [done|split; [done|by left]].
  - split; [done|split; [split; [done|intros (_ & _ & ?); done]|eauto]].
Qed.

(** What every step does: it keeps the invariant, ages the ledger by at most
    one id, and conserves tickets. *)
Lemma ledger_step_spec l op :
  ledger_wf l -> next l < u32_max ->
  let '(opened, handed, l') := ledger_step l op in
  ledger_wf l' /\ next l <= next l' <= next l + 1
  /\ Permutation (opened ++ bt_values (tickets l)) (handed ++ bt_values (tickets l'))
  /\ (opened = [] \/ exists t, opened = [t] /\ t_id t = next l /\ next l' = next l + 1).
Proof.
  intros Hwf Hn. pose proof (lwf_next _ Hwf) as Hnx.
  assert (forall p, let '(ts, l') := sweep l p in
    ledger_wf l' /\ next l <= next l' <= next l + 1
    /\ Permutation (bt_values (tickets l)) (ts ++ bt_values (tickets l'))) as Hsw.
  { intros p. pose proof (sweep_spec l p Hwf) as (Hw & Hp & _ & _ & Hnext).
    destruct (sweep l p). simpl in *. split; [done|split; [lia|done]]. }
  destruct op as [c f w g who r a s d|id|id world now|now|c|r]; simpl.
  - pose proof (open_wf l c f w g who r a s d Hwf Hn) as Hw.
    destruct (open_cases l c f w g who r a s d Hwf) as [[_ He]|[(_ & _ & He)|(Ho & Hl & Hf & He)]];
      rewrite He in *; simpl in *; try (split; [done|split; [lia|split; [done|by left]]]).
    unfold u32_saturating_add in *. split; [done|split; [lia|split]].
    + apply Permutation_sym. unfold bt_values.
      by rewrite (Permutation_map snd (bt_insert_fresh_perm _ _ _ Hf)).
    + right. eexists. split; [done|]. simpl. lia.
  - split; [by apply delete_shrink|split; [lia|split; [by apply delete_perm|by left]]].
  - pose proof (redeem_cases l id world now) as Hr. pose proof (delete_perm l id Hwf) as Hp.
    pose proof (delete_shrink l id Hwf). destruct (tickets l !! id) as [t|].
    + destruct Hr as (Hl & _ & Ht). destruct (redeem l id world now) as [res l']. simpl in *.
      subst l'. destruct Ht as [->|[u ->]]; simpl;
        (split; [done|split; [lia|split; [done|by left]]]).
    + rewrite Hr. split; [done|split; [lia|split; [done|by left]]].
  - specialize (Hsw (fun t => t_deadline t <=? now)). unfold expire_due.
    destruct (sweep _ _), Hsw as (? & ? & ?). auto.
  - specialize (Hsw (fun t => t_connection t =? c)). unfold withdraw_connection.
    destruct (sweep _ _), Hsw as (? & ? & ?). auto.
  - specialize (Hsw (fun t => str_eqb (t_realm t) r)). unfold forget_realm.
    destruct (sweep _ _), Hsw as (? & ? & ?). auto.
Qed.

Lemma ledger_run_spec ops l :
  ledger_wf l -> next l + Z.of_nat (length ops) <= u32_max ->
  let '(opened, handed, l') := ledger_run l ops in
  ledger_wf l'
  /\ Permutation (opened ++ bt_values (tickets l)) (handed ++ bt_values (tickets l'))
  /\ NoDup (List.map t_id opened)
  /\ (forall t, In t opened -> next l <= t_id t).
Proof.
  revert l. induction ops as [|op ops IH]; intros l Hwf Hn.
  { simpl. split; [done|split; [done|split; [constructor|done]]]. }
  cbn [length] in Hn. pose proof (ledger_step_spec l op Hwf ltac:(lia)) as Hs.
  cbn [ledger_run]. destruct (ledger_step l op) as [[o1 a1] l1].
  destruct Hs as (Hw1 & Hn1 & Hp1 & Ho1). specialize (IH l1 Hw1 ltac:(lia)).
  destruct (ledger_run l1 ops) as [[o2 a2] l2]. destruct IH as (Hw2 & Hp2 & Hnd & Hge).
  split; [done|split; [|split]].
  - rewrite <- !app_assoc. rewrite <- Hp2, !app_assoc, (Permutation_app_comm a1 o2).
    rewrite (Permutation_app_comm o1 o2), <- !app_assoc. by rewrite Hp1.
  - destruct Ho1 as [->|(t & -> & Ht & Hnext)]; [done|]. simpl. constructor; [|done].
    rewrite list_elem_of_In, List.in_map_iff. intros (t' & Heq & Hin). specialize (Hge _ Hin). lia.
  - intros t [Hin|Hin]%in_app_or; [|specialize (Hge _ Hin); lia].
    destruct Ho1 as [->|(t' & -> & Ht & Hnext)]; [done|]. destruct Hin as [<-|[]]. lia.
Qed.

(* ------------------------------------------------------------------------ *)
(** ** Properties *)

(** Exactly one terminal. Over any sequence of operations from a new
    ledger, shorter than the id space, the tickets that were opened are, one for
    one, those an operation handed out and those still open: none is handed out
    twice, none is lost, and no two carry the same id. At every point at most
    eight are open, and never two for one principal. *)
Theorem designation_one_terminal (p : TimeoutPolicy) (ops : list LedgerOp)
  (Hage : Z.of_nat (length ops) < u32_max) :
  let '(opened, handed, l) := ledger_run (ledger_new p) ops in
  Permutation opened (handed ++ bt_values (tickets l))
  /\ NoDup (List.map t_id opened)
  /\ NoDup (List.map t_id handed)
  /\ outstanding l <= 8
  /\ (forall i t i' t', tickets l !! i = Some t -> tickets l !! i' = Some t' ->
        t_principal t = t_principal t' -> i = i').
Proof.
  pose proof (ledger_run_spec ops (ledger_new p) (ledger_new_wf p)) as H. simpl in H.
  specialize (H ltac:(lia)).
  destruct (ledger_run (ledger_new p) ops) as [[opened handed] l].
  destruct H as (Hwf & Hp & Hnd & _). rewrite app_nil_r in Hp.
  split; [done|split; [done|split; [|split; [apply Hwf|apply Hwf]]]].
  rewrite (Permutation_map t_id Hp), List.map_app in Hnd. by apply NoDup_app in Hnd as [? _].
Qed.

(** A picker's answer is judged at the moment it is redeemed. Redeeming
    yields the ticket exactly when it is open, its deadline has not come, its
    grant is live and its realm is the same; otherwise the first of those that
    fails is named, in that order; and on every answer the ticket is out of the
    ledger, so a second redemption, in any world, finds nothing. *)
Theorem designation_redeem_exact (l : Ledger) (id now now' : Z) (world world' : LivenessWorld) :
  let '(r, l') := redeem l id world now in
  (forall t, r = Ok t <->
     tickets l !! id = Some t /\ now < t_deadline t
     /\ grant_is_live world (t_grant t) (t_spent_once t) = true
     /\ realm_is_the_same world (t_realm t) = true)
  /\ (forall t u, r = Err (t, u) -> t = tickets l !! id /\
        match u, t with
        | TimedOut, Some t => t_deadline t <= now
        | AuthorityDied, Some t =>
            now < t_deadline t /\ grant_is_live world (t_grant t) (t_spent_once t) = false
        | RealmDied, Some t =>
            now < t_deadline t /\ grant_is_live world (t_grant t) (t_spent_once t) = true
            /\ realm_is_the_same world (t_realm t) = false
        | TimedOut, None => True
        | _, _ => False
        end)
  /\ tickets l' !! id = None
  /\ (redeem l' id world' now').1 = Err (None, TimedOut).
Proof.
  unfold redeem at 1. destruct (tickets l !! id) as [t|] eqn:Ht; cycle 1.
  { split; [intros; split; [done|by intros [? _]]|]. split; [by intros ? ? [= <- <-]|].
    split; [done|]. unfold redeem. by rewrite Ht. }
  set (l' := with_tickets l (delete id (tickets l))).
  assert (tickets l' !! id = None) as Hl' by (simpl; by rewrite bt_lookup_remove_eq).
  assert ((redeem l' id world' now').1 = Err (None, TimedOut)) as Hr
    by (unfold redeem; by rewrite Hl').
  destruct (Z.leb_spec (t_deadline t) now).
  { split; [intros; split; [done|intros ([= <-] & ? & _); lia]|].
    split; [by intros ? ? [= <- <-]|done]. }
  destruct (grant_is_live _ _ _) eqn:Hg; simpl; cycle 1.
  { split; [intros; split; [done|intros ([= <-] & _ & ? & _); congruence]|]. split; [by intros ? ? [= <- <-]|done]. }
  destruct (realm_is_the_same _ _) eqn:Hs; simpl; cycle 1.
  { split; [intros; split; [done|intros ([= <-] & _ & _ & ?); congruence]|]. split; [by intros ? ? [= <- <-]|done]. }
  split; [|done]. intros t'. split; [by intros [= <-]|by intros ([= <-] & _)].
Qed.

(** The end of the id space: the counter stops, and the next ticket overwrites
    the one that holds the last id. *)
Definition full_ledger : Ledger :=
  {| tickets := bt_empty; next := u32_max; policy := Spends |}.
Example saturated_ids_repeat :
  let w := str "vitrin://local/agent/a" in
  let w' := str "vitrin://local/agent/b" in
  let '(r1, l1) := open full_ledger 1 2 3 4 w (str "realm-0") AskDir false 100 in
  let '(r2, l2) := open l1 1 2 3 4 w' (str "realm-0") AskDir false 100 in
  r1 = Ok u32_max /\ r2 = Ok u32_max /\ outstanding l2 = 1.
Proof. vm_compute. done. Qed.

Lemma designation_one_terminal_witness :
  let w := str "vitrin://local/agent/a" in
  let ops := [LOpen 1 2 3 4 w (str "realm-0") AskDir false 100; LExpire 100; LTake 1] in
  let '(opened, handed, l) := ledger_run (ledger_new Spends) ops in
  length opened = 1%nat /\ length handed = 1%nat /\ NoDup (List.map t_id handed).
Proof.
  intros w ops. pose proof (designation_one_terminal Spends ops ltac:(vm_compute; done)) as H.
  destruct (ledger_run (ledger_new Spends) ops) as [[opened handed] l] eqn:Hr.
  destruct H as (_ & _ & Hnd & _). vm_compute in Hr. injection Hr as <- <- <-.
  split; [reflexivity|]. split; [reflexivity|exact Hnd].
Defined.
