(* ===== verification/Chord.v ===== *)
(** * Modifier chords

    [crates/vitrin-core/src/chord.rs]: the grammar of a chord, and the matcher
    that tells a gesture of the human from every other key event. A modifier
    set is the u8 mask of the source. *)

From stdpp Require Import gmap.
From S2P Require Import Prelude Text Input.

Inductive Modifier : Type := Ctrl | Shift | Alt | Super.
#[export] Instance Modifier_eq_dec : EqDecision Modifier.
Proof. solve_decision. Defined.

(** Name, left and right keysyms, left scancode. *)
Definition MODIFIER_TABLE : list (Str * Modifier * Z * Z * Z) :=
  [(str "ctrl", Ctrl, 65507, 65508, 29);
   (str "shift", Shift, 65505, 65506, 42);
   (str "alt", Alt, 65513, 65514, 56);
   (str "super", Super, 65515, 65516, 125)].

Definition bit (m : Modifier) : Z :=
  match m with Ctrl => 1 | Shift => 2 | Alt => 4 | Super => 8 end.

Definition of_keysym (keysym : Z) : option Modifier :=
  (fun row => let '(_, m, _, _, _) := row in m) <$>
    List.find (fun row => let '(_, _, l, r, _) := row in (l =? keysym) || (r =? keysym))
      MODIFIER_TABLE.
Definition modifier_parse (name : Str) : option Modifier :=
  (fun row => let '(_, m, _, _, _) := row in m) <$>
    List.find (fun row => let '(n, _, _, _, _) := row in str_eqb n name) MODIFIER_TABLE.

Abbreviation Modifiers := Z (only parsing).
Definition mods_with (s : Modifiers) (m : Modifier) : Modifiers := Z.lor s (bit m).
Definition mods_without (s : Modifiers) (m : Modifier) : Modifiers := Z.ldiff s (bit m).
Definition mods_contains (s : Modifiers) (m : Modifier) : bool := negb (Z.land s (bit m) =? 0).
Definition mods_is_empty (s : Modifiers) : bool := s =? 0.

Record Trigger : Type := { tr_name : Str; tr_evdev : Z; tr_keysym : Z }.
#[export] Instance Trigger_eq_dec : EqDecision Trigger.
Proof. solve_decision. Defined.

Definition trigger (n : string) (e k : Z) : Trigger :=
  {| tr_name := str n; tr_evdev := e; tr_keysym := k |}.
Definition VOCABULARY : list Trigger :=
  [trigger "esc" 1 65307; trigger "tab" 15 65289; trigger "backspace" 14 65288;
   trigger "enter" 28 65293; trigger "space" 57 32;
   trigger "f1" 59 65470; trigger "f2" 60 65471; trigger "f3" 61 65472; trigger "f4" 62 65473;
   trigger "f5" 63 65474; trigger "f6" 64 65475; trigger "f7" 65 65476; trigger "f8" 66 65477;
   trigger "f9" 67 65478; trigger "f10" 68 65479; trigger "f11" 87 65480; trigger "f12" 88 65481;
   trigger "insert" 110 65379; trigger "delete" 111 65535; trigger "print" 99 65377;
   trigger "home" 102 65360; trigger "end" 107 65367; trigger "pageup" 104 65365;
   trigger "pagedown" 109 65366; trigger "up" 103 65362; trigger "down" 108 65364;
   trigger "left" 105 65361; trigger "right" 106 65363].

Inductive ChordSpecError : Type :=
| UnknownKey | NotIntakeable | RepeatedModifier | NoModifier | Duplicate.
#[export] Instance ChordSpecError_eq_dec : EqDecision ChordSpecError.
Proof. solve_decision. Defined.

Definition trigger_parse (name : Str) : result Trigger ChordSpecError :=
  match List.find (fun t => str_eqb (tr_name t) name) VOCABULARY with
  | None => Err UnknownKey
  | Some t =>
      if negb (keysym_is_intakeable (tr_keysym t)) then Err NotIntakeable
      else if negb (bool_decide (invariant_keysym (tr_evdev t) = Some (tr_keysym t)))
      then Err NotIntakeable
      else Ok t
  end.

Record ModChord : Type := { mc_mods : Modifiers; mc_trigger : Trigger }.
#[export] Instance ModChord_eq_dec : EqDecision ModChord.
Proof. solve_decision. Defined.

Fixpoint collect_mods (mods : list Modifier) (s : Modifiers) : result Modifiers ChordSpecError :=
  match mods with
  | [] => Ok s
  | m :: mods => if mods_contains s m then Err RepeatedModifier else collect_mods mods (mods_with s m)
  end.

Definition modchord_new (mods : list Modifier) (t : Trigger) : result ModChord ChordSpecError :=
  let? s := collect_mods mods 0 in
  if mods_is_empty s then Err NoModifier else Ok {| mc_mods := s; mc_trigger := t |}.

(** The loop over the parts: the modifiers, the part that is not one, the rest. *)
Fixpoint take_mods (parts : list Str) (acc : list Modifier)
    : result (list Modifier * Str * list Str) ChordSpecError :=
  match parts with
  | [] => Err UnknownKey
  | p :: parts =>
      match modifier_parse p with
      | Some m => take_mods parts (acc ++ [m])
      | None => Ok (acc, p, parts)
      end
  end.

Definition modchord_parse (spec : Str) : result ModChord ChordSpecError :=
  let? (mods, last, rest) := take_mods (split_char (ch "+") spec) [] in
  match rest with
  | _ :: _ => Err UnknownKey
  | [] => let? t := trigger_parse last in modchord_new mods t
  end.

Definition trigger_keysym (c : ModChord) : Z := tr_keysym (mc_trigger c).

Definition modifier_name (m : Modifier) : Str :=
  match m with Ctrl => str "ctrl" | Shift => str "shift" | Alt => str "alt" | Super => str "super" end.

Definition spelling (c : ModChord) : Str :=
  List.concat (List.map (fun row => let '(name, m, _, _, _) := row in
    if mods_contains (mc_mods c) m then name ++ str "+" else []) MODIFIER_TABLE)
  ++ tr_name (mc_trigger c).

Definition modifier_evdev (m : Modifier) : Z :=
  match List.find (fun row => let '(_, m', _, _, _) := row in bool_decide (m' = m)) MODIFIER_TABLE with
  | Some (_, _, _, _, e) => e
  | None => 0 (* every modifier is in the table *)
  end.
Definition scancodes (c : ModChord) : list Z * Z :=
  (List.map (fun row => let '(_, m, _, _, _) := row in modifier_evdev m)
     (List.filter (fun row => let '(_, m, _, _, _) := row in mods_contains (mc_mods c) m)
        MODIFIER_TABLE),
   tr_evdev (mc_trigger c)).

(* ------------------------------------------------------------------------ *)
(** ** The matcher *)

Section matcher.
Context {K : Type}.

Record ChordMatcher : Type := {
  bindings : list (ModChord * K);
  down : Modifiers;
  consumed : gset Z }.

Fixpoint duplicate_binding (seen : list ModChord) (bs : list (ModChord * K)) : bool :=
  match bs with
  | [] => false
  | (c, _) :: bs =>
      existsb (fun o => bool_decide (o = c)) seen || duplicate_binding (seen ++ [c]) bs
  end.

Definition matcher_new (bs : list (ModChord * K)) : result ChordMatcher ChordSpecError :=
  if duplicate_binding [] bs then Err Duplicate
  else Ok {| bindings := bs; down := 0; consumed := ∅ |}.

Definition with_down (m : ChordMatcher) (d : Modifiers) : ChordMatcher :=
  {| bindings := bindings m; down := d; consumed := consumed m |}.
Definition with_consumed (m : ChordMatcher) (c : gset Z) : ChordMatcher :=
  {| bindings := bindings m; down := down m; consumed := c |}.

Definition observe (m : ChordMatcher) (input : SeatInput) : ChordMatcher :=
  match si_origin input, si_kind input with
  | Physical, Key _ keysym state =>
      match of_keysym keysym with
      | None => m
      | Some md =>
          with_down m match state with
                      | KPressed => mods_with (down m) md
                      | KReleased => mods_without (down m) md
                      end
      end
  | _, _ => m
  end.

Definition forget_physical_state (m : ChordMatcher) : ChordMatcher :=
  {| bindings := bindings m; down := 0; consumed := ∅ |}.

Definition binding_hit (m : ChordMatcher) (keysym : Z) : option K :=
  snd <$> List.find (fun b => (trigger_keysym b.1 =? keysym) && (mc_mods b.1 =? down m)) (bindings m).

Definition gate (m : ChordMatcher) (input : SeatInput) : Gate * option K * ChordMatcher :=
  match si_origin input, si_kind input with
  | Physical, Key _ keysym state =>
      match of_keysym keysym with
      | Some _ => (Deliver, None, m)
      | None =>
          match state with
          | KPressed =>
              match binding_hit m keysym with
              | Some v => (Consume, Some v, with_consumed m ({[keysym]} ∪ consumed m))
              | None => (Deliver, None, m)
              end
          | KReleased =>
              if bool_decide (keysym ∈ consumed m)
              then (Consume, None, with_consumed m (consumed m ∖ {[keysym]}))
              else (Deliver, None, m)
          end
      end
  | _, _ => (Deliver, None, m)
  end.

(** One event as a hook stack hands it to a matcher: observed, then gated. *)
Definition matcher_event (m : ChordMatcher) (input : SeatInput) : Gate * option K * ChordMatcher :=
  gate (observe m input) input.

Fixpoint matcher_run (m : ChordMatcher) (inputs : list SeatInput)
    : list (Gate * option K) * ChordMatcher :=
  match inputs with
  | [] => ([], m)
  | i :: inputs =>
      let '(g, v, m) := matcher_event m i in
      let '(out, m) := matcher_run m inputs in
      ((g, v) :: out, m)
  end.
End matcher.
Arguments ChordMatcher : clear implicits.

(* ------------------------------------------------------------------------ *)
(** ** The grammar *)

Definition idx (m : Modifier) : Z := match m with Ctrl => 0 | Shift => 1 | Alt => 2 | Super => 3 end.

Lemma mods_contains_testbit s m : mods_contains s m = Z.testbit s (idx m).
Proof.
  unfold mods_contains. replace (bit m) with (2 ^ idx m) by (by destruct m).
  assert (0 <= idx m) by (by destruct m). destruct (Z.testbit s (idx m)) eqn:Ht.
  - apply negb_true_iff, Z.eqb_neq. intros H0.
    assert (Z.testbit (Z.land s (2 ^ idx m)) (idx m) = false) by (by rewrite H0, Z.bits_0).
    rewrite Z.land_spec, Ht, Z.pow2_bits_true in *; done.
  - apply negb_false_iff, Z.eqb_eq, Z.bits_inj. intros i. rewrite Z.land_spec, Z.bits_0.
    destruct (Z.eq_dec i (idx m)) as [->|]; [by rewrite Ht|].
    by rewrite Z.pow2_bits_false, andb_false_r.
Qed.

Lemma mods_contains_with s m m' :
  mods_contains (mods_with s m) m' = mods_contains s m' || bool_decide (m = m').
Proof.
  rewrite !mods_contains_testbit. unfold mods_with. rewrite Z.lor_spec. f_equal.
  by destruct m, m'.
Qed.

Lemma mods_contains_without s m m' :
  mods_contains (mods_without s m) m' = mods_contains s m' && negb (bool_decide (m = m')).
Proof.
  rewrite !mods_contains_testbit. unfold mods_without. rewrite Z.ldiff_spec. f_equal.
  by destruct m, m'.
Qed.

Lemma collect_mods_Ok ms s s' :
  collect_mods ms s = Ok s' <->
  s' = fold_left mods_with ms s /\ NoDup ms /\ (forall m, In m ms -> mods_contains s m = false).
Proof.
  revert s. induction ms as [|m ms IH]; intros s; simpl.
  - split; [intros [= <-]|by intros [-> _]]. split; [done|split; [constructor|done]].
  - destruct (mods_contains s m) eqn:Hc.
    + split; [done|]. intros (_ & _ & Hf). rewrite Hf in Hc; [done|by left].
    + rewrite IH, NoDup_cons, list_elem_of_In. setoid_rewrite mods_contains_with. split.
      * intros (-> & Hnd & Hf). split; [done|]. split; [split; [|done]|].
        -- intros Hin. specialize (Hf _ Hin). rewrite bool_decide_true, orb_true_r in Hf; done.
        -- intros m' [<-|Hin]; [done|]. specialize (Hf _ Hin). by apply orb_false_elim in Hf as [? _].
      * intros (-> & [Hni Hnd] & Hf). split; [done|]. split; [done|]. intros m' Hin.
        rewrite Hf by (by right). rewrite bool_decide_false; [done|]. by intros ->.
Qed.

Lemma modifier_parse_Some n m : modifier_parse n = Some m <-> n = modifier_name m.
Proof.
  unfold modifier_parse. simpl. unfold str_eqb.
  repeat (case_bool_decide; simpl; [subst; by destruct m|]).
  split; [done|]. intros ->. by destruct m.
Qed.

Lemma vocabulary_ok :
  forallb (fun t => bool_decide (trigger_parse (tr_name t) = Ok t)
    && bool_decide (modifier_parse (tr_name t) = None) && negb (contains_char (tr_name t) (ch "+")))
    VOCABULARY = true.
Proof. vm_compute. reflexivity. Qed.

Lemma trigger_parse_Ok n t : trigger_parse n = Ok t <-> In t VOCABULARY /\ n = tr_name t.
Proof.
  split.
  - unfold trigger_parse. destruct (List.find _ _) as [t'|] eqn:Hf; [|done].
    apply List.find_some in Hf as [Hin Hn%str_eqb_eq].
    destruct (negb _); [done|]. destruct (negb _); [done|]. by intros [= <-].
  - intros [Hin ->]. pose proof vocabulary_ok as Hv. rewrite List.forallb_forall in Hv.
    specialize (Hv t Hin). apply andb_prop in Hv as [Hv _]. apply andb_prop in Hv as [Hv _].
    by apply bool_decide_eq_true in Hv.
Qed.

Lemma trigger_name_word t :
  In t VOCABULARY -> modifier_parse (tr_name t) = None /\ ~ In (ch "+") (tr_name t).
Proof.
  intros Hin. pose proof vocabulary_ok as Hv. rewrite List.forallb_forall in Hv.
  specialize (Hv t Hin). apply andb_prop in Hv as [Hv Hp]. apply andb_prop in Hv as [_ Hv].
  apply bool_decide_eq_true in Hv. split; [done|]. intros Hc. apply negb_true_iff in Hp.
  unfold contains_char in Hp. apply not_true_iff_false in Hp. apply Hp, existsb_exists.
  exists (ch "+"). split; [done|apply Z.eqb_refl].
Qed.

Lemma modifier_name_word m : ~ In (ch "+") (modifier_name m).
Proof. destruct m; vm_compute; intros H; destruct_or?; done. Qed.

Lemma take_mods_Ok parts acc ms l rest :
  take_mods parts acc = Ok (ms, l, rest) <->
  modifier_parse l = None
  /\ exists ms', ms = acc ++ ms' /\ parts = List.map modifier_name ms' ++ l :: rest.
Proof.
  revert acc. induction parts as [|p parts IH]; intros acc; simpl.
  - split; [done|]. by intros (_ & [|] & _ & ?).
  - destruct (modifier_parse p) as [m|] eqn:Hp.
    + rewrite IH. apply modifier_parse_Some in Hp as ->. split.
      * intros (Hl & ms' & -> & ->). split; [done|]. exists (m :: ms'). by rewrite <- app_assoc.
      * intros (Hl & [|m' ms'] & -> & Heq); simpl in Heq; injection Heq as Hn ->.
        -- subst l. by rewrite (proj2 (modifier_parse_Some _ m) eq_refl) in Hl.
        -- split; [done|]. exists ms'. rewrite <- app_assoc. simpl.
           assert (m' = m) as ->; [|done]. by destruct m, m'.
    + split.
      * intros [= <- <- <-]. split; [done|]. exists []. by rewrite app_nil_r.
      * intros (Hl & [|m' ms'] & -> & Heq); simpl in Heq; injection Heq as -> ->.
        -- by rewrite app_nil_r.
        -- by rewrite (proj2 (modifier_parse_Some _ m') eq_refl) in Hp.
Qed.

Lemma fold_with_range ms s : 0 <= s <= 15 -> 0 <= fold_left mods_with ms s <= 15.
Proof.
  revert s. induction ms as [|m ms IH]; intros s Hs; simpl; [done|]. apply IH.
  assert (In s (List.map Z.of_nat (seq 0 16))) as Hin.
  { apply List.in_map_iff. exists (Z.to_nat s). rewrite List.in_seq. lia. }
  pose proof (eq_refl : forallb (fun s => forallb (fun m => (0 <=? mods_with s m) && (mods_with s m <=? 15))
    [Ctrl; Shift; Alt; Super]) (List.map Z.of_nat (seq 0 16)) = true) as Hall.
  rewrite List.forallb_forall in Hall. specialize (Hall _ Hin).
  rewrite List.forallb_forall in Hall. specialize (Hall m ltac:(destruct m; simpl; auto)).
  unbool. lia.
Qed.

(** Every chord there is: the spelling reads back as the chord. *)
Lemma all_spellings :
  forallb (fun s => forallb (fun t =>
    bool_decide (modchord_parse (spelling {| mc_mods := s; mc_trigger := t |})
                 = Ok {| mc_mods := s; mc_trigger := t |})) VOCABULARY)
    (List.map (fun n => 1 + Z.of_nat n) (seq 0 15)) = true.
Proof. vm_compute. reflexivity. Qed.

Lemma fold_with_contains ms s m :
  mods_contains (fold_left mods_with ms s) m = mods_contains s m || bool_decide (m ∈ ms).
Proof.
  revert s. induction ms as [|m' ms IH]; intros s; simpl; [by rewrite orb_false_r|].
  rewrite IH, mods_contains_with, <- orb_assoc. f_equal.
  rewrite <- bool_decide_or. apply bool_decide_ext. rewrite elem_of_cons. naive_solver.
Qed.

Lemma fold_with_nonzero ms : ms <> [] -> fold_left mods_with ms 0 <> 0.
Proof.
  destruct ms as [|m ms]; [done|]. intros _ H0.
  pose proof (fold_with_contains (m :: ms) 0 m) as Hc. rewrite H0 in Hc.
  rewrite (bool_decide_true (m ∈ m :: ms)) in Hc by (by left).
  rewrite orb_true_r, mods_contains_testbit, Z.bits_0 in Hc. done.
Qed.

Lemma modchord_new_Ok ms t c :
  modchord_new ms t = Ok c <->
  ms <> [] /\ NoDup ms /\ c = {| mc_mods := fold_left mods_with ms 0; mc_trigger := t |}.
Proof.
  unfold modchord_new. rewrite rbind_ok. setoid_rewrite collect_mods_Ok. split.
  - intros (s & (-> & Hnd & _) & H). unfold mods_is_empty in H.
    destruct (Z.eqb_spec (fold_left mods_with ms 0) 0); [done|]. simplify_eq.
    split; [by intros ->|done].
  - intros (Hne & Hnd & ->). exists (fold_left mods_with ms 0).
    split; [split; [done|split; [done|intros; by rewrite mods_contains_testbit, Z.bits_0]]|].
    unfold mods_is_empty. by rewrite (proj2 (Z.eqb_neq _ _)) by (by apply fold_with_nonzero).
Qed.

Lemma modchord_parse_Ok spec c :
  modchord_parse spec = Ok c <->
  exists ms t, ms <> [] /\ NoDup ms /\ In t VOCABULARY
    /\ spec = join (ch "+") (List.map modifier_name ms ++ [tr_name t])
    /\ c = {| mc_mods := fold_left mods_with ms 0; mc_trigger := t |}.
Proof.
  unfold modchord_parse. split.
  - intros H. apply rbind_ok in H as ([[ms l] rest] & Htm & H).
    apply take_mods_Ok in Htm as (Hl & ms' & -> & Hparts). destruct rest; [|done].
    apply rbind_ok in H as (t & [Hin ->]%trigger_parse_Ok & (Hne & Hnd & ->)%modchord_new_Ok).
    exists ms', t. do 3 (split; [done|]). split; [|done]. by rewrite <- Hparts, join_split_char.
  - intros (ms & t & Hne & Hnd & Hin & -> & ->). destruct (trigger_name_word t Hin) as [Hmp Hw].
    rewrite split_char_join; cycle 1.
    { by destruct ms. }
    { apply List.Forall_forall. intros w [(m & <- & _)%List.in_map_iff|[<-|[]]]%in_app_or;
        [apply modifier_name_word|done]. }
    rewrite (proj2 (take_mods_Ok _ [] ms (tr_name t) [])) by (split; [done|by exists ms]). simpl.
    rewrite (proj2 (trigger_parse_Ok _ t)) by done. simpl. by apply modchord_new_Ok.
Qed.

(* ------------------------------------------------------------------------ *)
(** ** The matcher's state *)

Section matching.
Context {K : Type}.
Implicit Types (m : ChordMatcher K).

Definition is_physical (i : SeatInput) : bool :=
  match si_origin i with Physical => true | Emulated => false end.

(** A physical event of one key, by its keysym. *)
Definition key_event (k : Z) (i : SeatInput) : option KeyState :=
  match si_origin i, si_kind i with
  | Physical, Key _ k' st => if k' =? k then Some st else None
  | _, _ => None
  end.

Lemma emulated_event m i : is_physical i = false -> matcher_event m i = (Deliver, None, m).
Proof. destruct i as [[] k]; [done|]. done. Qed.

Lemma observe_consumed m i : consumed (observe m i) = consumed m /\ bindings (observe m i) = bindings m.
Proof. unfold observe. destruct (si_origin i), (si_kind i); try done. by destruct (of_keysym _). Qed.

Lemma matcher_event_bindings m i : bindings (matcher_event m i).2 = bindings m.
Proof.
  unfold matcher_event. rewrite <- (proj2 (observe_consumed m i)).
  unfold gate. destruct (si_origin i), (si_kind i) as [| | |src k' st| | | | | |]; try done.
  destruct (of_keysym k'); [done|]. destruct st; [by case_bool_decide|].
  by destruct (binding_hit (observe m i) k').
Qed.

(** An event of no key [k] leaves [k] as it was. *)
Lemma other_consumed m i k :
  key_event k i = None -> k ∈ consumed (matcher_event m i).2 <-> k ∈ consumed m.
Proof.
  unfold matcher_event, key_event. rewrite <- (proj1 (observe_consumed m i)).
  unfold gate. destruct (si_origin i), (si_kind i) as [| | |src k' st| | | | | |]; try done.
  destruct (Z.eqb_spec k' k); [done|]. intros _.
  destruct (of_keysym k'); [done|]. destruct st; [|destruct (binding_hit (observe m i) k')]; simpl; try done.
  - case_bool_decide; simpl; [|done]. set_solver.
  - set_solver.
Qed.

(** A press and a release of a key that is not a modifier. *)
Lemma press_event m i k :
  of_keysym k = None -> key_event k i = Some KPressed ->
  match binding_hit (observe m i) k with
  | Some v => matcher_event m i = (Consume, Some v, with_consumed (observe m i) ({[k]} ∪ consumed m))
  | None => matcher_event m i = (Deliver, None, observe m i)
  end.
Proof.
  unfold key_event, matcher_event. intros Hm Hk. rewrite <- (proj1 (observe_consumed m i)).
  unfold gate. destruct (si_origin i), (si_kind i) as [| | |src k' st| | | | | |]; try done.
  destruct (Z.eqb_spec k' k); [subst|done]. injection Hk as ->. rewrite Hm.
  by case_match.
Qed.

Lemma release_event m i k :
  of_keysym k = None -> key_event k i = Some KReleased ->
  let '(g, v, m') := matcher_event m i in
  (g = Consume <-> k ∈ consumed m) /\ v = None /\ k ∉ consumed m'.
Proof.
  unfold key_event, matcher_event. intros Hm Hk. rewrite <- (proj1 (observe_consumed m i)).
  unfold gate. destruct (si_origin i), (si_kind i) as [| | |src k' st| | | | | |]; try done.
  destruct (Z.eqb_spec k' k); [subst|done]. injection Hk as ->. rewrite Hm.
  case_bool_decide; simpl; [|done]. split; [done|split; [done|set_solver]].
Qed.

Lemma matcher_run_cons i inputs m :
  matcher_run m (i :: inputs) =
  (((matcher_event m i).1 :: (matcher_run (matcher_event m i).2 inputs).1),
   (matcher_run (matcher_event m i).2 inputs).2).
Proof.
  simpl. destruct (matcher_event m i) as [[g v] m1]. simpl. by destruct (matcher_run m1 inputs).
Qed.

(** A key used as a keyboard uses it: press, release, press, release. *)
Fixpoint alternates (k : Z) (is_down : bool) (inputs : list SeatInput) : option bool :=
  match inputs with
  | [] => Some is_down
  | i :: inputs =>
      match key_event k i with
      | None => alternates k is_down inputs
      | Some KPressed => if is_down then None else alternates k true inputs
      | Some KReleased => if is_down then alternates k false inputs else None
      end
  end.

Lemma alternates_released k inputs m is_down :
  of_keysym k = None -> alternates k is_down inputs = Some false ->
  (is_down = false -> k ∉ consumed m) -> k ∉ consumed (matcher_run m inputs).2.
Proof.
  intros Hm. revert m is_down. induction inputs as [|i inputs IH]; intros m d Ha Hd;
    [simpl in *; apply Hd; congruence|].
  rewrite matcher_run_cons. simpl in Ha |- *. destruct (key_event k i) as [[]|] eqn:Hk.
  - destruct d; [|done]. apply (IH _ false); [done|]. intros _.
    pose proof (release_event m i k Hm Hk) as Hr. by destruct (matcher_event m i) as [[g v] m'], Hr as (_ & _ & ?).
  - destruct d; [done|]. by apply (IH _ true).
  - apply (IH _ d); [done|]. intros Hf. rewrite other_consumed by done. auto.
Qed.

Lemma untouched_consumed k inputs m :
  (forall i, In i inputs -> key_event k i = None) ->
  k ∈ consumed (matcher_run m inputs).2 <-> k ∈ consumed m.
Proof.
  revert m. induction inputs as [|i inputs IH]; intros m Hi; [done|].
  rewrite matcher_run_cons. simpl. rewrite IH by (intros; apply Hi; by right).
  apply other_consumed, Hi. by left.
Qed.
End matching.

(** The grammar of a chord. A specification parses exactly when it is one or
    more distinct modifier names, in any order, then one trigger name,
    separated by single plus signs; the chord is the set of the modifiers and
    the trigger, so the order is lost; and the spelling printed for a parsed
    chord parses back to it. *)
Theorem chord_parse_exact (spec : Str) (c : ModChord) :
  (modchord_parse spec = Ok c <->
   exists ms t, ms <> [] /\ NoDup ms /\ In t VOCABULARY
     /\ spec = join (ch "+") (List.map modifier_name ms ++ [tr_name t])
     /\ c = {| mc_mods := fold_left mods_with ms 0; mc_trigger := t |})
  /\ (modchord_parse spec = Ok c -> modchord_parse (spelling c) = Ok c).
Proof.
  split; [apply modchord_parse_Ok|].
  intros (ms & t & Hne & _ & Hin & _ & ->)%modchord_parse_Ok.
  pose proof (fold_with_range ms 0 ltac:(lia)) as Hr. pose proof (fold_with_nonzero ms Hne).
  pose proof all_spellings as Hall. rewrite List.forallb_forall in Hall.
  specialize (Hall (fold_left mods_with ms 0)). rewrite List.forallb_forall in Hall.
  eapply bool_decide_eq_true, Hall; [|done].
  apply List.in_map_iff. exists (Z.to_nat (fold_left mods_with ms 0 - 1)). rewrite List.in_seq. lia.
Qed.

(** Two spellings of one gesture. *)
Example two_spellings :
  modchord_parse (str "shift+ctrl+insert") = modchord_parse (str "ctrl+shift+insert")
  /\ is_ok (modchord_parse (str "shift+ctrl+insert")) = true.
Proof. vm_compute. done. Qed.

(** A press and its release share a fate. On a key that is not a modifier
    and that its keyboard presses and releases in turn, whatever other keys,
    buttons and agents do in between, the release is consumed exactly when the
    press was; it never reports a gesture; and afterwards the matcher holds
    nothing of that key. A press reports a gesture exactly when it is consumed,
    and it is exactly when a binding names that key with exactly the modifiers
    then down. *)
Theorem chord_press_release {K : Type} (m : ChordMatcher K) (pre mid : list SeatInput)
  (press release : SeatInput) (k : Z)
  (Hkey : of_keysym k = None) (Hfresh : k ∉ consumed m)
  (Hpre : alternates k false pre = Some false)
  (Hpress : key_event k press = Some KPressed) (Hrelease : key_event k release = Some KReleased)
  (Hmid : forall i, In i mid -> key_event k i = None) :
  let m1 := (matcher_run m pre).2 in
  let '(g, v, m2) := matcher_event m1 press in
  let '(g', v', m3) := matcher_event (matcher_run m2 mid).2 release in
  g' = g /\ v' = None /\ k ∉ consumed m3
  /\ (g = Consume <-> is_Some v)
  /\ v = snd <$> List.find (fun b => (trigger_keysym b.1 =? k) && (mc_mods b.1 =? down m1)) (bindings m).
Proof.
  intros m1. assert (k ∉ consumed m1) as Hm1 by (by apply (alternates_released _ _ _ false)).
  assert (bindings m1 = bindings m) as Hb.
  { unfold m1. clear. revert m. induction pre as [|i pre IH]; intros m; [done|].
    rewrite matcher_run_cons. simpl. by rewrite IH, matcher_event_bindings. }
  pose proof (press_event m1 press k Hkey Hpress) as Hp.
  assert (observe m1 press = m1) as Hobs.
  { clear -Hkey Hpress. unfold observe, key_event in *.
    destruct (si_origin press), (si_kind press) as [| | |src k' st| | | | | |]; try done.
    destruct (Z.eqb_spec k' k); [subst|done]. by rewrite Hkey. }
  rewrite Hobs in Hp. unfold binding_hit in Hp. rewrite Hb in Hp.
  destruct (List.find _ (bindings m)) as [[c v]|]; simpl in *; rewrite Hp.
  - pose proof (release_event (matcher_run (with_consumed m1 ({[k]} ∪ consumed m1)) mid).2 release k
      Hkey Hrelease) as Hr.
    destruct (matcher_event _ release) as [[g' v'] m3]. destruct Hr as (Hg & Hv & Hc).
    rewrite untouched_consumed in Hg by done.
    split; [apply Hg; simpl; set_solver|]. split; [done|]. split; [done|].
    split; [by split; [eauto|]|done].
  - pose proof (release_event (matcher_run m1 mid).2 release k Hkey Hrelease) as Hr.
    destruct (matcher_event _ release) as [[g' v'] m3]. destruct Hr as (Hg & Hv & Hc).
    rewrite untouched_consumed in Hg by done.
    split; [destruct g'; [done|tauto]|]. split; [done|]. split; [done|].
    split; [by split; [|intros [? ?]]|done].
Qed.

Definition demo_matcher : ChordMatcher Z :=
  match modchord_parse (str "shift+insert") with
  | Ok c => {| bindings := [(c, 7)]; down := 0; consumed := ∅ |}
  | Err _ => {| bindings := []; down := 0; consumed := ∅ |}
  end.
Definition key (code k : Z) (st : KeyState) : SeatInput := physical (Key (Device code) k st).

Lemma chord_press_release_witness :
  let m1 := (matcher_run demo_matcher [key 42 65505 KPressed]).2 in
  let '(g, v, m2) := matcher_event m1 (key 110 65379 KPressed) in
  let '(g', _, _) := matcher_event (matcher_run m2 [key 42 65505 KReleased]).2
                       (key 110 65379 KReleased) in
  g = Consume /\ v = Some 7 /\ g' = g.
Proof.
  pose proof (chord_press_release demo_matcher [key 42 65505 KPressed] [key 42 65505 KReleased]
    (key 110 65379 KPressed) (key 110 65379 KReleased) 65379 ltac:(vm_compute; reflexivity)
    ltac:(apply (bool_decide_eq_false (65379 ∈ consumed demo_matcher)); vm_compute; reflexivity)
    eq_refl eq_refl eq_refl
    ltac:(intros i [<-|[]]; reflexivity)) as H.
  intros m1. cbv zeta in H. fold m1 in H.
  destruct (matcher_event m1 (key 110 65379 KPressed)) as [[g v] m2] eqn:Hp.
  destruct (matcher_event (matcher_run m2 [key 42 65505 KReleased]).2 (key 110 65379 KReleased))
    as [[g' v'] m3] eqn:Hr.
  apply (f_equal fst) in Hp. vm_compute in Hp. injection Hp as <- <-.
  split; [reflexivity|]. split; [reflexivity|exact (proj1 H)].
Defined.

(** Without the alternation the fates part: a second press of a consumed
    trigger, from another device and with the modifier gone, is delivered, and
    the release of it is consumed. *)
Example double_press_release_is_consumed :
  List.map fst (matcher_run demo_matcher
    [key 42 65505 KPressed; key 110 65379 KPressed; key 42 65505 KReleased;
     key 110 65379 KPressed; key 110 65379 KReleased; key 110 65379 KReleased]).1
  = [Deliver; Consume; Deliver; Deliver; Consume; Deliver].
Proof. vm_compute. reflexivity. Qed.

(** An agent cannot make or unmake a gesture. Over any stream of events, the
    emulated ones are all delivered and report nothing, and the verdicts of the
    physical ones, and the state the matcher ends in, are those of the stream
    with the emulated ones removed. *)
Theorem chord_unforgeable {K : Type} (m : ChordMatcher K) (inputs : list SeatInput) :
  let '(out, m') := matcher_run m inputs in
  let physical_inputs := List.filter is_physical inputs in
  let verdicts := List.combine inputs out in
  (List.map snd (List.filter (fun io => is_physical io.1) verdicts), m')
    = matcher_run m physical_inputs
  /\ (forall i o, In (i, o) verdicts -> is_physical i = false -> o = (Deliver, None)).
Proof.
  revert m. induction inputs as [|i inputs IH]; intros m; [done|]. rewrite matcher_run_cons.
  cbv zeta. specialize (IH (matcher_event m i).2).
  destruct (matcher_run (matcher_event m i).2 inputs) as [out m'] eqn:Hr. destruct IH as [IH1 IH2].
  cbn [fst snd List.combine List.filter]. destruct (is_physical i) eqn:Hp.
  - rewrite matcher_run_cons, <- IH1. split; [done|].
    intros i' o' [[= <- <-]|Hin]; [congruence|by apply IH2].
  - rewrite (emulated_event m i Hp) in *. split; [done|].
    intros i' o' [[= <- <-]|Hin]; [done|by apply IH2].
Qed.
