(* ===== verification/Clipboard.v ===== *)
(** * The clipboard slot

    [crates/vitrin-core/src/clipboard.rs]: the one-entry slot a human's gesture
    fills from one realm and offers to another, and the gestures' queue. The
    digest of a text comes from the blake3 crate and is a parameter. *)

From stdpp Require Import gmap.
From S2P Require Import Prelude Text Grants Input Chord.

Definition CLIPBOARD_MIME : Str := str "text/plain;charset=utf-8".
Definition MAX_CLIPBOARD_BYTES : Z := 61440.
Definition CLIPBOARD_LIFETIME : Duration := from_secs 120.
Definition DEFAULT_TRIGGER : Str := str "insert".
Definition MAX_PENDING_GESTURES : Z := 4.

Inductive ClipboardGesture : Type := Promote | Offer.

(** *** The slot *)

Section slot.
Context {Digest : Type} (hash : Str -> Digest).

Record ClipboardContent : Type := { cc_text : Str; cc_digest : Digest }.
Definition content_new (text : Str) : ClipboardContent :=
  {| cc_text := text; cc_digest := hash text |}.
Definition content_bytes (c : ClipboardContent) : Z := str_len (cc_text c).

(** A claimed promotion: the licence to fill the slot once. *)
Record PendingPromotion : Type := { pp_realm : RealmId }.
Record Outstanding : Type := { o_serial : Z; o_realm : RealmId }.
Record Held : Type := { h_source : RealmId; h_content : ClipboardContent; h_at : Instant }.
Record Offered : Type := {
  of_mime : Str; of_data : Str; of_bytes : Z; of_digest : Digest; of_source : RealmId }.
Record Promoted : Type := { pr_mime : Str; pr_bytes : Z; pr_digest : Digest }.
Inductive FillRefused : Type := Empty | WrongType | TooLarge.

Record ClipboardSlot : Type := {
  held : option Held;
  slot_outstanding : option Outstanding;
  next_serial : Z }.

Definition slot_new : ClipboardSlot :=
  {| held := None; slot_outstanding := None; next_serial := 0 |}.

Definition open_promotion (s : ClipboardSlot) (realm : RealmId) : Z * ClipboardSlot :=
  (next_serial s,
   {| held := held s;
      slot_outstanding := Some {| o_serial := next_serial s; o_realm := realm |};
      next_serial := u32_wrapping_add (next_serial s) 1 |}).

Definition claim_answer (s : ClipboardSlot) (realm : RealmId) (serial : Z)
    : option PendingPromotion * ClipboardSlot :=
  match slot_outstanding s with
  | None => (None, s)
  | Some o =>
      if negb (o_serial o =? serial) || negb (str_eqb (o_realm o) realm) then (None, s)
      else (Some {| pp_realm := o_realm o |},
            {| held := held s; slot_outstanding := None; next_serial := next_serial s |})
  end.

Definition fill (s : ClipboardSlot) (ticket : PendingPromotion) (mime data : Str) (now : Instant)
    : result Promoted FillRefused * ClipboardSlot :=
  if negb (str_eqb mime CLIPBOARD_MIME) then (Err WrongType, s)
  else if MAX_CLIPBOARD_BYTES <? str_len data then (Err TooLarge, s)
  else if bool_decide (data = []) then (Err Empty, s)
  else
    let content := content_new data in
    (Ok {| pr_mime := CLIPBOARD_MIME; pr_bytes := content_bytes content;
           pr_digest := cc_digest content |},
     {| held := Some {| h_source := pp_realm ticket; h_content := content; h_at := now |};
        slot_outstanding := slot_outstanding s; next_serial := next_serial s |}).

Definition abandon_promotion (s : ClipboardSlot) : ClipboardSlot :=
  {| held := held s; slot_outstanding := None; next_serial := next_serial s |}.

Definition peek (s : ClipboardSlot) (now : Instant) : option Offered :=
  match held s with
  | None => None
  | Some h =>
      if CLIPBOARD_LIFETIME <=? since now (h_at h) then None
      else Some {| of_mime := CLIPBOARD_MIME; of_data := cc_text (h_content h);
                   of_bytes := content_bytes (h_content h);
                   of_digest := cc_digest (h_content h); of_source := h_source h |}
  end.

Definition expire (s : ClipboardSlot) (now : Instant) : bool * ClipboardSlot :=
  let stale := is_some_and (held s) (fun h => CLIPBOARD_LIFETIME <=? since now (h_at h)) in
  (stale,
   if stale then {| held := None; slot_outstanding := slot_outstanding s;
                    next_serial := next_serial s |}
   else s).

Definition forget_realm (s : ClipboardSlot) (realm : RealmId) : bool * ClipboardSlot :=
  let cleared := is_some_and (held s) (fun h => str_eqb (h_source h) realm) in
  (cleared,
   {| held := if cleared then None else held s;
      slot_outstanding :=
        if is_some_and (slot_outstanding s) (fun o => str_eqb (o_realm o) realm) then None
        else slot_outstanding s;
      next_serial := next_serial s |}).

Definition clear (s : ClipboardSlot) : bool * ClipboardSlot :=
  (bool_decide (is_Some (held s)),
   {| held := None; slot_outstanding := None; next_serial := next_serial s |}).

(* ------------------------------------------------------------------------ *)
(** ** Slots over time

    A ticket is a linear value: a state holds the slot and the tickets that were
    claimed and not yet spent. *)

Inductive SlotOp : Type :=
| POpen (realm : RealmId)
| PClaim (realm : RealmId) (serial : Z)
| PFill (n : nat) (mime data : Str) (now : Instant)
| PAbandon
| PExpire (now : Instant)
| PForget (realm : RealmId)
| PClear.

Record SlotState : Type := { slot : ClipboardSlot; tickets : list PendingPromotion }.

(** The fills of a step: the realm, text and time of each that succeeded. *)
Definition slot_step (st : SlotState) (op : SlotOp) : option (RealmId * Str * Instant) * SlotState :=
  let keep s := {| slot := s; tickets := tickets st |} in
  match op with
  | POpen r => (None, keep (open_promotion (slot st) r).2)
  | PClaim r n =>
      let '(t, s) := claim_answer (slot st) r n in
      (None, {| slot := s; tickets := option_list t ++ tickets st |})
  | PFill n mime data now =>
      match tickets st !! n with
      | None => (None, st)
      | Some t =>
          let '(r, s) := fill (slot st) t mime data now in
          (if is_ok r then Some (pp_realm t, data, now) else None,
           {| slot := s; tickets := delete n (tickets st) |})
      end
  | PAbandon => (None, keep (abandon_promotion (slot st)))
  | PExpire now => (None, keep (expire (slot st) now).2)
  | PForget r => (None, keep (forget_realm (slot st) r).2)
  | PClear => (None, keep (clear (slot st)).2)
  end.

Fixpoint slot_run (st : SlotState) (ops : list SlotOp)
    : list (RealmId * Str * Instant) * SlotState :=
  match ops with
  | [] => ([], st)
  | op :: ops =>
      let '(f, st) := slot_step st op in
      let '(fs, st) := slot_run st ops in
      (option_list f ++ fs, st)
  end.

Definition slot_init : SlotState := {| slot := slot_new; tickets := [] |}.

Definition count (p : bool) : nat := if p then 1%nat else 0%nat.
Definition opens (r : RealmId) (ops : list SlotOp) : nat :=
  length (List.filter (fun op => match op with POpen r' => str_eqb r' r | _ => false end) ops).
Definition fills_of (r : RealmId) (fs : list (RealmId * Str * Instant)) : nat :=
  length (List.filter (fun f => str_eqb f.1.1 r) fs).

(** What a realm may still fill: its claimed tickets and its open gesture. *)
Definition licences (r : RealmId) (st : SlotState) : nat :=
  (length (List.filter (fun t => str_eqb (pp_realm t) r) (tickets st))
   + count (is_some_and (slot_outstanding (slot st)) (fun o => str_eqb (o_realm o) r)))%nat.

(** Every held text was filled, of the right size and not before. *)
Definition held_filled (h : option Held) (fs : list (RealmId * Str * Instant)) : Prop :=
  forall x, h = Some x -> In (h_source x, cc_text (h_content x), h_at x) fs
    /\ cc_text (h_content x) <> [] /\ str_len (cc_text (h_content x)) <= MAX_CLIPBOARD_BYTES
    /\ cc_digest (h_content x) = hash (cc_text (h_content x)).

Lemma filter_delete {A} (p : A -> bool) (l : list A) (n : nat) (x : A) :
  l !! n = Some x ->
  length (List.filter p l) = (count (p x) + length (List.filter p (delete n l)))%nat.
Proof.
  revert n. induction l as [|y l IH]; intros [|n] Hn; simplify_eq/=.
  - by destruct (p x).
  - specialize (IH n Hn). change (delete (S n) (y :: l)) with (y :: delete n l). simpl.
    destruct (p y); simpl; lia.
Qed.

Lemma slot_step_licences r st op :
  let '(f, st') := slot_step st op in
  (fills_of r (option_list f) + licences r st'
   <= licences r st + count (match op with POpen r' => str_eqb r' r | _ => false end))%nat.
Proof.
  unfold licences, fills_of. destruct op as [r'|r' n|n mime data now| |now|r'|]; simpl; try lia.
  - unfold claim_answer. destruct (slot_outstanding (slot st)) as [o|] eqn:Ho; simpl; [|rewrite Ho; simpl; lia].
    destruct (negb _ || negb _)%bool; simpl; [rewrite Ho; simpl; lia|].
    destruct (str_eqb (o_realm o) r); simpl; lia.
  - destruct (tickets st !! n) as [t|] eqn:Ht; simpl; [|lia].
    rewrite (filter_delete _ _ _ _ Ht). unfold fill.
    destruct (negb _); [simpl; lia|]. destruct (_ <? _); [simpl; lia|].
    case_bool_decide; simpl; [lia|]. destruct (str_eqb (pp_realm t) r); simpl; lia.
  - destruct (is_some_and (held (slot st)) _); simpl; lia.
  - destruct (slot_outstanding (slot st)) as [o|]; simpl; [|lia].
    destruct (str_eqb (o_realm o) r'); simpl; lia.
Qed.

Lemma slot_run_cons op ops st :
  slot_run st (op :: ops) =
  (option_list (slot_step st op).1 ++ (slot_run (slot_step st op).2 ops).1,
   (slot_run (slot_step st op).2 ops).2).
Proof. simpl. destruct (slot_step st op) as [f st1]. simpl. by destruct (slot_run st1 ops). Qed.

Lemma opens_cons r op ops :
  opens r (op :: ops)
  = (count (match op with POpen r' => str_eqb r' r | _ => false end) + opens r ops)%nat.
Proof. unfold opens. simpl. by destruct (match op with POpen r' => str_eqb r' r | _ => false end). Qed.

Lemma fills_of_app r fs fs' : fills_of r (fs ++ fs') = (fills_of r fs + fills_of r fs')%nat.
Proof. unfold fills_of. by rewrite List.filter_app, List.length_app. Qed.

Lemma slot_run_licences r ops st :
  (fills_of r (slot_run st ops).1 + licences r (slot_run st ops).2
   <= licences r st + opens r ops)%nat.
Proof.
  revert st. induction ops as [|op ops IH]; intros st; [simpl; unfold fills_of, opens; simpl; lia|].
  rewrite slot_run_cons, opens_cons. cbn [fst snd]. rewrite fills_of_app.
  pose proof (slot_step_licences r st op) as Hs.
  destruct (slot_step st op) as [f st1]. specialize (IH st1). cbn [fst snd]. lia.
Qed.

Lemma slot_step_held st op fs :
  held_filled (held (slot st)) fs ->
  held_filled (held (slot (slot_step st op).2)) (fs ++ option_list (slot_step st op).1).
Proof.
  intros Hh. assert (forall h', (forall x, h' = Some x -> held (slot st) = Some x) ->
    held_filled h' (fs ++ [])) as Hsub.
  { rewrite app_nil_r. intros h' Hs x Hx. by apply Hh, Hs. }
  destruct op as [r'|r' n|n mime data now| |now|r'|]; simpl; try (by apply Hsub).
  - unfold claim_answer. destruct (slot_outstanding (slot st)); [|by apply Hsub].
    destruct (negb _ || negb _)%bool; by apply Hsub.
  - destruct (tickets st !! n) as [t|]; [|by apply Hsub]. unfold fill.
    destruct (negb _); [by apply Hsub|].
    destruct (Z.ltb_spec MAX_CLIPBOARD_BYTES (str_len data)); [by apply Hsub|].
    case_bool_decide; [by apply Hsub|]. intros x [= <-]. simpl.
    split; [apply in_or_app; right; by left|done].
  - destruct (is_some_and (held (slot st)) _); by apply Hsub.
  - destruct (is_some_and (held (slot st)) _); by apply Hsub.
Qed.

Lemma slot_run_held ops st fs :
  held_filled (held (slot st)) fs ->
  held_filled (held (slot (slot_run st ops).2)) (fs ++ (slot_run st ops).1).
Proof.
  revert st fs. induction ops as [|op ops IH]; intros st fs Hh; [simpl; by rewrite app_nil_r|].
  rewrite slot_run_cons. cbn [fst snd]. rewrite app_assoc. apply IH. by apply slot_step_held.
Qed.

(** *** The gesture behind a fill *)

(** An operation that leaves the promotion [n] opened for [r] outstanding. *)
Definition leaves_open (r : RealmId) (n : Z) (op : SlotOp) : Prop :=
  match op with
  | POpen _ | PAbandon | PClear => False
  | PForget r' => r' <> r
  | PClaim r' n' => ~ (r' = r /\ n' = n)
  | PFill _ _ _ _ | PExpire _ => True
  end.
(** [ops] opened promotion [n] for [r], and it is still outstanding. *)
Definition opened_for (r : RealmId) (n : Z) (ops : list SlotOp) : Prop :=
  exists pre mid, ops = pre ++ POpen r :: mid
    /\ n = next_serial (slot (slot_run slot_init pre).2) /\ Forall (leaves_open r n) mid.
(** [r] answered, with its serial, a promotion that was opened for it. *)
Definition answered_by (r : RealmId) (ops : list SlotOp) : Prop :=
  exists before n after, ops = before ++ PClaim r n :: after /\ opened_for r n before.
Definition licensed (f : RealmId * Str * Instant) (ops : list SlotOp) : Prop :=
  exists before k post, ops = before ++ PFill k CLIPBOARD_MIME f.1.2 f.2 :: post /\ answered_by f.1.1 before.

Record justified (ops : list SlotOp) (fs : list (RealmId * Str * Instant)) (st : SlotState) : Prop := {
  ju_open : forall o, slot_outstanding (slot st) = Some o -> opened_for (o_realm o) (o_serial o) ops;
  ju_ticket : forall t, t ∈ tickets st -> answered_by (pp_realm t) ops;
  ju_fill : forall f, f ∈ fs -> licensed f ops }.

Lemma opened_for_snoc r n ops op : opened_for r n ops -> leaves_open r n op -> opened_for r n (ops ++ [op]).
Proof.
  intros (pre & mid & -> & Hn & Hq) Hop. exists pre, (mid ++ [op]). split_and!; [by rewrite <- app_assoc|done|].
  apply Forall_app. by repeat constructor.
Qed.
Lemma answered_by_snoc r ops op : answered_by r ops -> answered_by r (ops ++ [op]).
Proof. intros (b & n & a & -> & H). exists b, n, (a ++ [op]). by rewrite <- app_assoc. Qed.
Lemma licensed_snoc f ops op : licensed f ops -> licensed f (ops ++ [op]).
Proof. intros (b & k & a & -> & H). exists b, k, (a ++ [op]). by rewrite <- app_assoc. Qed.

Lemma slot_run_snoc st ops op :
  slot_run st (ops ++ [op])
  = ((slot_run st ops).1 ++ option_list (slot_step (slot_run st ops).2 op).1, (slot_step (slot_run st ops).2 op).2).
Proof.
  revert st. induction ops as [|op' ops IH]; intros st.
  - cbn. destruct (slot_step st op) as [f st1]. cbn. by rewrite app_nil_r.
  - cbn [app]. rewrite !slot_run_cons, IH. cbn [fst snd]. by rewrite app_assoc.
Qed.

(** What a step leaves outstanding is what it opened, or was outstanding before and left so. *)
Lemma slot_step_outstanding st op o :
  slot_outstanding (slot (slot_step st op).2) = Some o ->
  (op = POpen (o_realm o) /\ o_serial o = next_serial (slot st))
  \/ (slot_outstanding (slot st) = Some o /\ leaves_open (o_realm o) (o_serial o) op).
Proof.
  destruct op as [r|r n|k mime data now| |now|r|]; cbn; try done.
  - intros [= <-]. by left.
  - unfold claim_answer. destruct (slot_outstanding (slot st)) as [o'|] eqn:Ho; cbn; [|congruence].
    destruct (negb (o_serial o' =? n) || negb (str_eqb (o_realm o') r)) eqn:Hm; cbn; [|done]. rewrite Ho. intros [= ->]. right.
    split; [done|]. intros [-> ->]. by rewrite Z.eqb_refl, (proj2 (str_eqb_eq _ _) eq_refl) in Hm.
  - intros Ho. right. split; [|done]. destruct (tickets st !! k); [|done]. cbn in Ho. revert Ho. unfold fill.
    by repeat case_match; intros; simplify_eq/=.
  - intros Ho. right. split; [|done]. revert Ho. unfold expire. cbn. by destruct (is_some_and _ _).
  - destruct (slot_outstanding (slot st)) as [o'|]; cbn; [|done]. destruct (str_eqb (o_realm o') r) eqn:He; [done|].
    intros [= ->]. right. split; [done|]. intros ->. by rewrite (proj2 (str_eqb_eq _ _) eq_refl) in He.
Qed.

Lemma slot_step_tickets st op t :
  t ∈ tickets (slot_step st op).2 ->
  t ∈ tickets st \/ exists o, op = PClaim (o_realm o) (o_serial o) /\ slot_outstanding (slot st) = Some o /\ pp_realm t = o_realm o.
Proof.
  destruct op as [r|r n|k mime data now| |now|r|]; cbn; try (by left).
  - unfold claim_answer. destruct (slot_outstanding (slot st)) as [o|]; cbn; [|by left].
    destruct (Z.eqb_spec (o_serial o) n) as [<-|]; cbn; [|by left]. destruct (str_eqb (o_realm o) r) eqn:He; cbn; [|by left].
    apply str_eqb_eq in He as <-. intros [->|Ht]%elem_of_cons; [right; by exists o|by left].
  - destruct (tickets st !! k) eqn:Hk; [|by left]. destruct (fill _ _ _ _ _). cbn. intros Ht. left.
    rewrite delete_take_drop in Ht. rewrite <- (take_drop k (tickets st)). apply elem_of_app in Ht as [Ht|Ht]; apply elem_of_app; [by left|right].
    rewrite (drop_S _ _ _ Hk). by right.
Qed.

Lemma slot_step_fill st op f : (slot_step st op).1 = Some f ->
  exists k, op = PFill k CLIPBOARD_MIME f.1.2 f.2 /\ exists t, t ∈ tickets st /\ f.1.1 = pp_realm t.
Proof.
  destruct op as [r|r n|k mime data now| |now|r|]; cbn; try done.
  - by destruct (claim_answer _ _ _).
  - destruct (tickets st !! k) as [t|] eqn:Hk; [|done]. unfold fill. destruct (str_eqb mime CLIPBOARD_MIME) eqn:Hm; cbn; [|done].
    apply str_eqb_eq in Hm as ->. destruct (_ <? _); [done|]. case_bool_decide; [done|]. cbn. intros [= <-]. exists k. split; [done|].
    exists t. split; [by eapply list_elem_of_lookup_2|done].
Qed.

Lemma slot_run_justified ops : justified ops (slot_run slot_init ops).1 (slot_run slot_init ops).2.
Proof.
  induction ops as [|op ops IH] using rev_ind.
  { split; [done|..]; intros x Hx; by apply elem_of_nil in Hx. }
  rewrite slot_run_snoc. cbn [fst snd]. set (st := (slot_run slot_init ops).2) in *. split.
  - intros o [[-> Hn]|[Ho Hop]]%slot_step_outstanding; [|by apply opened_for_snoc, Hop; apply IH].
    exists ops, []. by split_and!.
  - intros t [Ht|(o & -> & Ho & ->)]%slot_step_tickets; [by apply answered_by_snoc, IH|].
    exists ops, (o_serial o), []. split; [done|by apply IH].
  - intros f [Hf|Hf]%elem_of_app; [by apply licensed_snoc, IH|].
    destruct (slot_step st op).1 as [f'|] eqn:Hs; [|by apply elem_of_nil in Hf]. apply list_elem_of_singleton in Hf as ->.
    destruct (slot_step_fill st op f' Hs) as (k & -> & t & Ht & Hr). exists ops, k, []. split; [done|]. rewrite Hr. by apply IH.
Qed.
End slot.

(* ------------------------------------------------------------------------ *)
(** ** Properties *)

(** C40: the clipboard moves only on a human gesture, and each gesture moves it
    at most once. Over any sequence of operations from an empty slot, a realm
    fills the slot at most as often as a promotion was opened for that realm. Every
    fill, under a realm's name, answers one of them: the promotion was opened for
    that very realm; the realm itself answered it, with the serial the slot gave
    that gesture, while no other promotion had been opened and nothing had given it
    up, forgotten the realm, cleared the slot or answered it already; and the text
    and the time are those of a later fill. So no other realm's answer, and none with
    another serial than the gesture's (they wrap after 2^32 promotions), ever fills
    it. And whatever is offered was filled, by the realm it is attributed to, less than the slot's lifetime ago, is the text of
    that fill, neither empty nor longer than the limit, and carries its digest. *)
Theorem clipboard_gesture_bound {Digest : Type} (hash : Str -> Digest) (ops : list SlotOp)
  (r : RealmId) :
  let '(fs, st) := slot_run hash slot_init ops in
  (fills_of r fs <= opens r ops)%nat
  /\ (forall realm data at_, In (realm, data, at_) fs ->
        exists pre mid n later k post,
          ops = pre ++ POpen realm :: mid ++ PClaim realm n :: later ++ PFill k CLIPBOARD_MIME data at_ :: post
          /\ n = next_serial (slot (slot_run hash slot_init pre).2)
          /\ Forall (fun op => match op with
                               | POpen _ | PAbandon | PClear => False
                               | PForget realm' => realm' <> realm
                               | PClaim realm' n' => ~ (realm' = realm /\ n' = n)
                               | PFill _ _ _ _ | PExpire _ => True
                               end) mid)
  /\ forall now o, peek (slot st) now = Some o ->
       exists at_, In (of_source o, of_data o, at_) fs /\ now - at_ < CLIPBOARD_LIFETIME
         /\ (1 <= opens (of_source o) ops)%nat
         /\ of_data o <> [] /\ str_len (of_data o) <= MAX_CLIPBOARD_BYTES
         /\ of_bytes o = str_len (of_data o) /\ of_digest o = hash (of_data o)
         /\ of_mime o = CLIPBOARD_MIME.
Proof.
  pose proof (fun r => slot_run_licences hash r ops slot_init) as Hl.
  pose proof (slot_run_held hash ops slot_init [] ltac:(by intros ?)) as Hh.
  pose proof (ju_fill _ _ _ _ (slot_run_justified hash ops)) as Hj.
  destruct (slot_run hash slot_init ops) as [fs st]. simpl in Hl, Hh, Hj.
  split; [specialize (Hl r); unfold licences in Hl; simpl in Hl; lia|]. split.
  { intros realm data at_ Hin%list_elem_of_In. destruct (Hj _ Hin) as (before & k & post & -> & b & n & later & -> & pre & mid & -> & Hn & Hmid).
    exists pre, mid, n, later, k, post. split_and!; [|done|exact Hmid]. cbn [fst snd]. by repeat (rewrite <- ?app_assoc; cbn [app]). }
  intros now o Ho. unfold peek in Ho. destruct (held (slot st)) as [h|]; [|done].
  destruct (Z.leb_spec CLIPBOARD_LIFETIME (since now (h_at h))); [done|]. simplify_eq. simpl.
  destruct (Hh h eq_refl) as (Hin & Hne & Hlen & Hd). exists (h_at h).
  split; [done|]. split; [unfold since in *; lia|]. split; [|done].
  specialize (Hl (h_source h)). unfold licences in Hl. simpl in Hl.
  assert (1 <= fills_of (h_source h) fs)%nat; [|lia]. unfold fills_of.
  assert (In (h_source h, cc_text (h_content h), h_at h)
    (List.filter (fun f => str_eqb f.1.1 (h_source h)) fs)) as Hf
    by (apply List.filter_In; split; [done|by apply str_eqb_eq]).
  destruct (List.filter (fun f => str_eqb f.1.1 (h_source h)) fs); [done|simpl; lia].
Qed.

(** An answer is matched to the gesture that asked for it. While the serials
    have not wrapped, an answer is claimed exactly when its realm and serial are
    those of the last promotion opened, nobody claimed it yet and nothing
    cancelled it; a second claim of it, and any claim of an older gesture, finds
    nothing. *)
Theorem clipboard_claim_exact {Digest : Type} (hash : Str -> Digest) (s : @ClipboardSlot Digest)
  (realm realm' : RealmId) (serial : Z) :
  let '(n, s1) := open_promotion s realm in
  (is_Some (claim_answer s1 realm' serial).1 <-> realm' = realm /\ serial = n)
  /\ (forall t s2, claim_answer s1 realm n = (Some t, s2) ->
        pp_realm t = realm /\ forall r k, (claim_answer s2 r k).1 = None)
  /\ (forall r k, (claim_answer (abandon_promotion s1) r k).1 = None)
  /\ (forall k, (claim_answer (forget_realm s1 realm).2 realm k).1 = None)
  /\ (forall realm2, next_serial s < u32_max -> 0 <= next_serial s ->
        (claim_answer (open_promotion s1 realm2).2 realm n).1 = None).
Proof.
  simpl. unfold claim_answer. simpl. split; [|split; [|split; [done|split]]].
  - destruct (Z.eqb_spec (next_serial s) serial), (str_eqb realm realm') eqn:He; simpl;
      rewrite ?str_eqb_eq in He; (split; [intros [? ?]; naive_solver|intros [-> ->]; try done]).
    apply not_true_iff_false in He. by destruct He; apply str_eqb_eq.
  - rewrite Z.eqb_refl, (proj2 (str_eqb_eq realm realm) eq_refl). simpl. intros t s2 [= <- <-].
    split; [done|done].
  - intros k. by rewrite (proj2 (str_eqb_eq realm realm) eq_refl).
  - intros realm2 Hn H0. unfold u32_wrapping_add.
    rewrite Z.mod_small by (unfold u32_max in *; lia).
    destruct (Z.eqb_spec (next_serial s + 1) (next_serial s)); [lia|done].
Qed.

(* ------------------------------------------------------------------------ *)
(** ** The gestures *)

Record ClipboardSignal : Type := {
  matcher : ChordMatcher ClipboardGesture;
  pending : list ClipboardGesture;
  sig_trigger : Str }.

Definition signal_new (t : Trigger) : result ClipboardSignal ChordSpecError :=
  let? promote := modchord_new [Ctrl; Shift] t in
  let? offer := modchord_new [Shift] t in
  let? m := matcher_new [(promote, Promote); (offer, Offer)] in
  Ok {| matcher := m; pending := []; sig_trigger := tr_name t |}.

Definition with_matcher (s : ClipboardSignal) (m : ChordMatcher ClipboardGesture) : ClipboardSignal :=
  {| matcher := m; pending := pending s; sig_trigger := sig_trigger s |}.

Definition take_pending (s : ClipboardSignal) : list ClipboardGesture * ClipboardSignal :=
  (pending s, {| matcher := matcher s; pending := []; sig_trigger := sig_trigger s |}).

Definition signal_forget (s : ClipboardSignal) : ClipboardSignal :=
  with_matcher s (Chord.forget_physical_state (matcher s)).

(** [ClipboardHook]: what it does not consume goes to the next hook. *)
Definition hook_observe {I : Type} (inner : I -> SeatInput -> I) (s : ClipboardSignal) (i : I)
    (input : SeatInput) : ClipboardSignal * I :=
  (with_matcher s (Chord.observe (matcher s) input), inner i input).

Definition hook_gate {I : Type} (inner : I -> SeatInput -> Gate * I) (s : ClipboardSignal) (i : I)
    (input : SeatInput) : Gate * ClipboardSignal * I :=
  let '(g, gesture, m) := Chord.gate (matcher s) input in
  let s := with_matcher s m in
  let s :=
    match gesture with
    | Some v =>
        if Z.of_nat (length (pending s)) <? MAX_PENDING_GESTURES
        then {| matcher := matcher s; pending := pending s ++ [v]; sig_trigger := sig_trigger s |}
        else s
    | None => s
    end in
  match g with
  | Consume => (Consume, s, i)
  | Deliver => let '(g, i) := inner i input in (g, s, i)
  end.

(** The queue is bounded, and the gestures of every trigger are told apart. *)
Lemma hook_gate_bounded {I : Type} (inner : I -> SeatInput -> Gate * I) s i input :
  Z.of_nat (length (pending s)) <= MAX_PENDING_GESTURES ->
  Z.of_nat (length (pending (hook_gate inner s i input).1.2)) <= MAX_PENDING_GESTURES.
Proof.
  intros Hb. unfold hook_gate. destruct (Chord.gate (matcher s) input) as [[g v] m].
  set (s' := match v with Some _ => _ | None => _ end).
  assert (Z.of_nat (length (pending s')) <= MAX_PENDING_GESTURES) as Hs'.
  { unfold s'. destruct v; [|done]. simpl.
    destruct (Z.ltb_spec (Z.of_nat (length (pending s))) MAX_PENDING_GESTURES); simpl; [|done].
    rewrite List.length_app. simpl. lia. }
  destruct g; [by destruct (inner i input)|done].
Qed.

Example signals_for_every_trigger :
  forallb (fun t => is_ok (signal_new t)) VOCABULARY = true.
Proof. vm_compute. reflexivity. Qed.
