(* ===== verification/DeadMan.v ===== *)
(** * The dead-man switch

    [crates/vitrin-core/src/deadman.rs]: the key a human holds to take every
    delegated authority back. The switch itself ([DeadManSwitch]), as the input
    path drives it, and what a completed hold does to the grants, the petitions,
    the attention signal and the clipboard ([apply]). The progress ring is a
    floating-point fraction for the painter and is not modelled. *)

From stdpp Require Import sorting.
From S2P Require Import Prelude BTree Text Identity Grants Realm Petitions Input.
From S2P Require Attention Clipboard.

Definition DEFAULT_CHORD : Str := str "esc".
Definition DEFAULT_HOLD : Duration := from_millis 1000.
Definition MIN_HOLD : Duration := from_millis 250.
Definition MAX_HOLD : Duration := from_secs 10.
Definition MAX_REPLAY_BACKLOG : Z := 4.

Record Chord : Type := { name : Str; keysym : Z }.
Inductive ChordError : Type := Unknown | NotIntakeable.

Definition VOCABULARY : list Chord :=
  List.map (fun nk => {| name := nk.1; keysym := nk.2 |})
    [(str "esc", 65307); (str "f1", 65470); (str "f2", 65471); (str "f3", 65472);
     (str "f4", 65473); (str "f5", 65474); (str "f6", 65475); (str "f7", 65476);
     (str "f8", 65477); (str "f9", 65478); (str "f10", 65479); (str "f11", 65480);
     (str "f12", 65481); (str "insert", 65379); (str "delete", 65535); (str "home", 65360);
     (str "end", 65367); (str "pageup", 65365); (str "pagedown", 65366)].

Definition chord_parse (n : Str) : result Chord ChordError :=
  match List.find (fun c => str_eqb (name c) n) VOCABULARY with
  | None => Err Unknown
  | Some c => if negb (keysym_is_intakeable (keysym c)) then Err NotIntakeable else Ok c
  end.

Record DeadManConfig : Type := { chord : Chord; hold : Duration }.

(** [with_hold_ms], with the held duration in its error. *)
Definition with_hold_ms (c : DeadManConfig) (ms : Z) : result DeadManConfig Duration :=
  let h := from_millis ms in
  if (h <? MIN_HOLD) || (MAX_HOLD <? h) then Err h else Ok {| chord := chord c; hold := h |}.

Record Trigger : Type := { tr_chord : Str; tr_held : Duration }.

Record DeadManSwitch : Type := {
  config : DeadManConfig;
  held_since : option Instant;
  fired : bool;
  pending_trigger : option Trigger;
  withheld : option SeatInput;
  replay : list SeatInput;
  replay_pending : list SeatInput }.

Definition switch_new (c : DeadManConfig) : DeadManSwitch :=
  {| config := c; held_since := None; fired := false; pending_trigger := None; withheld := None;
     replay := []; replay_pending := [] |}.

Definition set_hold (s : DeadManSwitch) (h : option Instant) (f : bool) : DeadManSwitch :=
  {| config := config s; held_since := h; fired := f; pending_trigger := pending_trigger s;
     withheld := withheld s; replay := replay s; replay_pending := replay_pending s |}.
Definition set_withheld (s : DeadManSwitch) (w : option SeatInput) : DeadManSwitch :=
  {| config := config s; held_since := held_since s; fired := fired s;
     pending_trigger := pending_trigger s; withheld := w; replay := replay s;
     replay_pending := replay_pending s |}.
Definition set_replay (s : DeadManSwitch) (r p : list SeatInput) : DeadManSwitch :=
  {| config := config s; held_since := held_since s; fired := fired s;
     pending_trigger := pending_trigger s; withheld := withheld s; replay := r;
     replay_pending := p |}.

(** The state of a physical event of the chord key. *)
Definition chord_event (s : DeadManSwitch) (input : SeatInput) : option KeyState :=
  match si_origin input, si_kind input with
  | Physical, Key _ k st => if k =? keysym (chord (config s)) then Some st else None
  | _, _ => None
  end.

(** Events compared as the gate compares them: keys of one origin, by value. *)
Definition input_eqb (a b : SeatInput) : bool :=
  bool_decide (si_origin a = si_origin b)
  && match si_kind a, si_kind b with
     | Key s k st, Key s' k' st' => bool_decide (s = s') && (k =? k') && bool_decide (st = st')
     | _, _ => false
     end.

Definition queue_replay (s : DeadManSwitch) (press release : SeatInput) : DeadManSwitch :=
  let r := if MAX_REPLAY_BACKLOG <=? Z.of_nat (length (replay s)) then [] else replay s in
  set_replay s (r ++ [press; release]) (replay_pending s).

Definition fire_if_due (s : DeadManSwitch) (now : Instant) : DeadManSwitch :=
  match held_since s with
  | None => s
  | Some at_ =>
      if fired s then s
      else
        let held := since now at_ in
        if held <? hold (config s) then s
        else {| config := config s; held_since := held_since s; fired := true;
                pending_trigger := Some {| tr_chord := name (chord (config s)); tr_held := held |};
                withheld := None; replay := replay s; replay_pending := replay_pending s |}
  end.

Definition observe_event (s : DeadManSwitch) (input : SeatInput) (now : Instant) : DeadManSwitch :=
  match chord_event s input with
  | None => s
  | Some st =>
      let s := fire_if_due s now in
      match st with
      | KPressed =>
          if bool_decide (held_since s = None) || fired s then set_hold s (Some now) false else s
      | KReleased =>
          let was_held := bool_decide (is_Some (held_since s)) in
          let was_fired := fired s in
          let s := set_hold s None false in
          if was_held && negb was_fired then
            match withheld s with
            | Some press => queue_replay (set_withheld s None) press input
            | None => s
            end
          else set_withheld s None
      end
  end.

Definition forget_hold (s : DeadManSwitch) : DeadManSwitch :=
  set_replay (set_withheld (set_hold s None false) None) (replay s) [].

Definition switch_deadline (s : DeadManSwitch) : option Instant :=
  match held_since s, fired s with
  | Some at_, false => Some (at_ + hold (config s))
  | _, _ => None
  end.

Definition take_trigger (s : DeadManSwitch) : option Trigger * DeadManSwitch :=
  (pending_trigger s,
   {| config := config s; held_since := held_since s; fired := fired s; pending_trigger := None;
      withheld := withheld s; replay := replay s; replay_pending := replay_pending s |}).

Definition take_replay (s : DeadManSwitch) : list SeatInput * DeadManSwitch :=
  match replay s with
  | [] => ([], s)
  | out => (out, set_replay s [] out)
  end.

Definition gate_event (s : DeadManSwitch) (input : SeatInput) : Gate * DeadManSwitch :=
  match chord_event s input with
  | None => (Deliver, s)
  | Some st =>
      let judge s :=
        match st with
        | KPressed => (Consume, set_withheld (set_replay s (replay s) []) (Some input))
        | KReleased => (Consume, s)
        end in
      match replay_pending s with
      | front :: rest =>
          if input_eqb front input then (Deliver, set_replay s (replay s) rest)
          else judge (set_replay s (replay s) [])
      | [] => judge s
      end
  end.

(** [DeadManHook]: every event is observed, then gated. *)
Definition hook_observe {I : Type} (inner : I -> SeatInput -> I) (s : DeadManSwitch) (i : I)
    (input : SeatInput) (now : Instant) : DeadManSwitch * I :=
  (observe_event s input now, inner i input).
Definition hook_gate {I : Type} (inner : I -> SeatInput -> Gate * I) (s : DeadManSwitch) (i : I)
    (input : SeatInput) : Gate * DeadManSwitch * I :=
  match gate_event s input with
  | (Consume, s) => (Consume, s, i)
  | (Deliver, s) => let '(g, i) := inner i input in (g, s, i)
  end.

(* ------------------------------------------------------------------------ *)
(** ** What a completed hold does *)

(** [String]'s order: bytes, lexicographically. *)
Fixpoint lex_leb (a b : list Z) : bool :=
  match a, b with
  | [], _ => true
  | _ :: _, [] => false
  | x :: a, y :: b => (x <? y) || ((x =? y) && lex_leb a b)
  end.
Definition str_le (a b : Str) : Prop := lex_leb (Utf8.encode a) (Utf8.encode b) = true.
#[export] Instance str_le_dec a b : Decision (str_le a b).
Proof. unfold str_le. apply _. Defined.

(** [Vec::dedup]. *)
Fixpoint dedup (l : list Str) : list Str :=
  match l with
  | x :: (y :: _) as l' => if str_eqb x y then dedup l' else x :: dedup l'
  | l => l
  end.

Fixpoint revoke_each (ps : list PrincipalIdentity) (t : GrantTable) : list GrantId * GrantTable :=
  match ps with
  | [] => ([], t)
  | p :: ps =>
      let '(r, t) := revoke_principal t p in
      let '(rs, t) := revoke_each ps t in
      (r ++ rs, t)
  end.

(** The [while let], with as much fuel as there are petitions. *)
Fixpoint deny_loop (fuel : nat) (reg : PetitionRegistry) : list Resolution * PetitionRegistry :=
  match fuel with
  | O => ([], reg)
  | S fuel =>
      match front_pending reg with
      | None => ([], reg)
      | Some id =>
          match resolve_human reg id Deny with
          | (Ok r, reg) => let '(rs, reg) := deny_loop fuel reg in (r :: rs, reg)
          | (Err _, reg) => ([], reg)
          end
      end
  end.

Record DeadManEffect : Type := { revoked : list GrantId; denied : list Resolution }.

(** The journal entries of one application. *)
Inductive DeadManEntry : Type :=
| DeadManTriggered (chord : Str) (held_ms : Z) (revoked_grants denied_petitions : Z)
| GrantRevoked (grant_id : GrantId).

Record Applied {Digest : Type} : Type := {
  ap_effect : DeadManEffect;
  ap_grants : GrantTable;
  ap_petitions : PetitionRegistry;
  ap_attention : Attention.AttentionSignal;
  ap_clipboard : @Clipboard.ClipboardSlot Digest;
  ap_entries : list DeadManEntry }.
Arguments Applied : clear implicits.

Definition apply {Digest : Type} (t : Trigger) (grants : GrantTable) (petitions : PetitionRegistry)
    (attention : Attention.AttentionSignal) (clipboard : @Clipboard.ClipboardSlot Digest)
    (now : Instant) : Applied Digest :=
  let attention := Attention.clear attention in
  let clipboard := (Clipboard.clear clipboard).2 in
  let principals :=
    dedup (merge_sort str_le ((fun rs => principal_id rs.1) <$> rows grants now)) in
  let '(rv, grants) := revoke_each principals grants in
  let rv := merge_sort Z.le rv in
  let grants := seal_dead_man grants in
  let '(dn, petitions) := deny_loop (length (bt_entries (pending petitions))) petitions in
  {| ap_effect := {| revoked := rv; denied := dn |};
     ap_grants := grants; ap_petitions := petitions; ap_attention := attention;
     ap_clipboard := clipboard;
     ap_entries :=
       DeadManTriggered (tr_chord t) (Z.min u64_max (tr_held t / 1000000))
         (Z.of_nat (length rv)) (Z.of_nat (length dn))
       :: List.map GrantRevoked rv |}.

(* ------------------------------------------------------------------------ *)
(** ** Revoking and denying everything *)

Definition among (ps : list PrincipalIdentity) (e : Entry) : bool :=
  existsb (fun p => str_eqb (principal_id (row e)) p) ps.

Lemma among_In ps e : among ps e = true <-> In (principal_id (row e)) ps.
Proof.
  unfold among. rewrite existsb_exists. setoid_rewrite str_eqb_eq. split.
  - by intros (p & ? & ->).
  - eauto.
Qed.

Lemma revoke_principal_lookup t p g :
  entries (revoke_principal t p).2 !! g =
  (fun e => if str_eqb (principal_id (row e)) p then set_liveness LRevoked e else e) <$> entries t !! g.
Proof.
  simpl. rewrite bt_lookup_update. destruct (entries t !! g) as [e|]; simpl; [|done]. f_equal.
  unfold to_revoke. destruct (str_eqb _ _); simpl; [|done].
  case_bool_decide as Hl; simpl; [|done]. rewrite <- Hl. by rewrite set_liveness_id.
Qed.

Lemma revoke_each_spec ps t :
  bt_wf (entries t) ->
  let '(rs, t') := revoke_each ps t in
  bt_wf (entries t') /\ next_id t' = next_id t
  /\ (forall g, entries t' !! g =
       (fun e => if among ps e then set_liveness LRevoked e else e) <$> entries t !! g)
  /\ NoDup rs
  /\ (forall g, In g rs <-> exists e, entries t !! g = Some e /\ liveness e <> LRevoked
                              /\ among ps e = true).
Proof.
  revert t. induction ps as [|p ps IH]; intros t Hwf; cbn [revoke_each].
  - split; [done|split; [done|split; [|split; [constructor|]]]].
    + intros g. by destruct (entries t !! g).
    + intros g. split; [done|]. by intros (e & _ & _ & ?).
  - destruct (revoke_principal t p) as [r t1] eqn:Hr.
    assert (r = (revoke_principal t p).1) as -> by (by rewrite Hr).
    assert (t1 = (revoke_principal t p).2) as -> by (by rewrite Hr). clear Hr.
    specialize (IH (revoke_principal t p).2 (bt_wf_update _ _ Hwf)).
    destruct (revoke_each ps (revoke_principal t p).2) as [rs t'].
    destruct IH as (Hwf' & Hn & Hlk & Hnd & Hin).
    assert (forall g, In g (revoke_principal t p).1 <->
      exists e, entries t !! g = Some e /\ to_revoke p e = true) as Hin1
      by (intros g; simpl; by rewrite bt_select_In).
    setoid_rewrite revoke_principal_lookup in Hlk. setoid_rewrite revoke_principal_lookup in Hin.
    split; [done|split; [done|split; [|split]]].
    + intros g. rewrite Hlk. destruct (entries t !! g) as [e|]; simpl; [|done]. f_equal.
      destruct (str_eqb (principal_id (row e)) p); simpl; [|done].
      change (among ps (set_liveness LRevoked e)) with (among ps e). by destruct (among ps e).
    + apply NoDup_app. split; [by apply select_NoDup|]. split; [|done].
      intros g Hg Hg'. rewrite list_elem_of_In in Hg, Hg'.
      apply Hin1 in Hg as (e & He & Hto). apply Hin in Hg' as (e' & He' & Hl & _).
      rewrite He in He'. simpl in He'. unfold to_revoke in Hto. apply andb_prop in Hto as [Hp _].
      rewrite Hp in He'. by simplify_eq.
    + intros g. rewrite in_app_iff, Hin1, Hin. unfold to_revoke. split.
      * intros [(e & He & Hto)|(e' & He' & Hl & Ha)].
        -- apply andb_prop in Hto as [Hp Hl]. exists e. split; [done|]. simpl. rewrite Hp. unbool. auto.
        -- destruct (entries t !! g) as [e|]; simplify_eq/=. exists e. split; [done|].
           destruct (str_eqb (principal_id (row e)) p); simplify_eq/=; auto.
      * intros (e & He & Hl & Ha). simpl in Ha. rewrite He. simpl.
        destruct (str_eqb (principal_id (row e)) p) eqn:Hp; simpl in Ha.
        -- left. exists e. split; [done|]. by rewrite Hp, bool_decide_false.
        -- right. exists e. split; [done|]. auto.
Qed.

Lemma dedup_In l x : In x (dedup l) <-> In x l.
Proof.
  induction l as [|y [|z l] IH]; [done|done|]. cbn [dedup] in *.
  destruct (str_eqb y z) eqn:Hyz; [|simpl in *; by rewrite IH].
  apply str_eqb_eq in Hyz as ->. rewrite IH. simpl. tauto.
Qed.

Lemma all_principals t now e g :
  entries t !! g = Some e ->
  among (dedup (merge_sort str_le ((fun rs : GrantRow * GrantState => principal_id rs.1) <$> rows t now))) e = true.
Proof.
  intros He. apply among_In, dedup_In, list_elem_of_In.
  rewrite (merge_sort_Permutation str_le). apply list_elem_of_fmap.
  exists (row e, state_at e now). split; [done|]. apply list_elem_of_fmap. exists e. split; [done|].
  apply list_elem_of_In, List.in_map_iff. exists (g, e). split; [done|]. by apply bt_lookup_In.
Qed.

#[local] Instance Z_le_antisymm : AntiSymm (=) Z.le.
Proof. intros x y. lia. Qed.

(** Sorting a duplicate-free list with the members of an ascending one. *)
Lemma merge_sort_select rs ids :
  NoDup rs -> StronglySorted Z.lt ids -> (forall g, In g rs <-> In g ids) -> merge_sort Z.le rs = ids.
Proof.
  intros Hnd Hs Hin. apply (StronglySorted_unique Z.le).
  - apply (StronglySorted_merge_sort Z.le).
  - clear -Hs. induction Hs as [|x l Hs IH Hall]; constructor; [done|].
    eapply Forall_impl; [exact Hall|]. intros y. simpl. lia.
  - rewrite (merge_sort_Permutation Z.le). apply NoDup_Permutation; [done| |].
    + clear -Hs. induction Hs as [|x l Hs IH Hall]; constructor; [|done].
      rewrite list_elem_of_In. intros Hx. rewrite List.Forall_forall in Hall.
      specialize (Hall _ Hx). lia.
    + intros g. by rewrite !list_elem_of_In.
Qed.

(** The loop denies the petitions from the oldest to the newest and leaves none. *)
Lemma head_delete {V} (l : list (Z * V)) k v :
  StronglySorted Z.lt (List.map fst ((k, v) :: l)) -> delete k (BT ((k, v) :: l)) = BT l.
Proof.
  intros [_ Hall]%StronglySorted_inv. unfold delete, bt_delete, bt_remove, bt_retain. simpl.
  rewrite Z.eqb_refl. simpl. f_equal. rewrite List.Forall_forall in Hall.
  assert (forall k' v', In (k', v') l -> k < k') as Hlt
    by (intros k' v' Hin; apply Hall, List.in_map_iff; by exists (k', v')).
  clear Hall. induction l as [|[k' v'] l IH]; simpl; [done|].
  specialize (Hlt k' v' (or_introl eq_refl)) as Hk. rewrite (proj2 (Z.eqb_neq k k')) by lia. simpl.
  f_equal. apply IH. intros k2 v2 Hin. apply (Hlt k2 v2). by right.
Qed.

Lemma first_entry {V} (m : btree V) k v l :
  bt_wf m -> bt_entries m = (k, v) :: l ->
  bt_first m = Some k /\ m !! k = Some v /\ delete k m = BT l.
Proof.
  destruct m as [es]. simpl. intros Hwf ->. split; [done|]. split; [|by apply (head_delete l k v)].
  unfold lookup, bt_lookup, bt_get. simpl. by rewrite Z.eqb_refl.
Qed.

Lemma deny_loop_spec fuel reg :
  bt_wf (pending reg) -> (length (bt_entries (pending reg)) <= fuel)%nat ->
  deny_loop fuel reg =
    (List.map (fun kp => resolution_of kp.2 (Declined Denied)) (bt_entries (pending reg)),
     with_pending reg bt_empty).
Proof.
  revert reg. induction fuel as [|fuel IH]; intros reg Hwf Hlen;
    destruct (bt_entries (pending reg)) as [|[k p] l] eqn:He.
  - destruct reg as [? ? [] ? ?]. simpl in *. by subst.
  - simpl in Hlen. lia.
  - destruct reg as [? ? [] ? ?]. simpl in *. by subst.
  - destruct (first_entry _ _ _ _ Hwf He) as (Hf & Hg & Hd).
    cbn [deny_loop]. unfold front_pending. rewrite Hf. unfold resolve_human. rewrite Hg.
    unfold finish. rewrite Hd. simpl in Hlen. rewrite IH; [done| |simpl; lia].
    unfold bt_wf, bt_keys in *. rewrite He in Hwf. by apply StronglySorted_inv in Hwf as [? _].
Qed.

(** A sealed table of revoked rows stays one. *)
Definition sealed_dead (t : GrantTable) : Prop :=
  dead_man_sealed t = true /\ bt_wf (entries t)
  /\ forall g e, entries t !! g = Some e -> liveness e = LRevoked.

Lemma table_step_sealed_dead t op : sealed_dead t -> sealed_dead (table_step t op).
Proof.
  intros (Hsl & Hwf & Hd). pose proof (table_step_relive t op Hwf) as Hrel.
  assert (forall t', relive t t' -> sealed_dead t') as Hgo.
  { intros t' Hr. pose proof Hr as (_ & Hs & Hk & _). split; [by rewrite Hs|]. split.
    - unfold bt_wf. by rewrite Hk.
    - intros g e' He'. destruct (relive_lookup _ _ _ _ Hr He') as (e & l & He & -> & Hl).
      apply Hd in He. rewrite He in Hl. by destruct l. }
  destruct op as [spec now| | | | | |g|]; try (by apply Hgo); simpl.
  - destruct (insert_spec t spec now) as [[_ ->]|[_ [err ->]]]; simpl; [|done].
    split; [done|split; [by apply bt_wf_insert|]]. intros g e. simpl. rewrite bt_lookup_insert.
    destruct (g =? next_id t); [|apply Hd]. intros [= <-]. unfold new_entry. simpl. by rewrite Hsl.
  - split; [done|split; [by apply bt_wf_retain|]]. intros g' e. simpl. rewrite bt_lookup_remove.
    destruct (g' =? g); [done|apply Hd].
  - done.
Qed.

Lemma sealed_dead_refuses t g p verb now :
  sealed_dead t -> is_ok (check_use_grant t g p verb now) = false.
Proof.
  intros (_ & _ & Hd). destruct (check_use_grant t g p verb now) as [a|] eqn:Hc; [|done].
  apply check_use_grant_Ok in Hc as (_ & e & He & _ & _ & Ha & _).
  apply state_active in Ha as [Hl _]. apply Hd in He. congruence.
Qed.

(* ------------------------------------------------------------------------ *)
(** ** Properties *)

(** C4: a completed hold ends every delegation, for good. Applied to any
    well-formed state, the switch revokes every row that was not yet revoked
    and reports them in ascending order; denies every pending petition, oldest
    first, and leaves none; empties the clipboard and shuts the attention
    window; and from then on no sequence of operations on the table, new
    insertions included, makes any id answer any principal's use of any verb at
    any time. *)
Theorem deadman_applies {Digest : Type} (t : Trigger) (gt : GrantTable) (reg : PetitionRegistry)
  (att : Attention.AttentionSignal) (clip : @Clipboard.ClipboardSlot Digest) (now : Z)
  (Hgt : table_wf gt) (Hreg : petitions_wf reg) :
  let a := apply t gt reg att clip now in
  revoked (ap_effect a)
    = bt_select (entries gt) (fun _ e => negb (bool_decide (liveness e = LRevoked)))
  /\ denied (ap_effect a)
    = List.map (fun kp => resolution_of kp.2 (Declined Denied)) (bt_entries (pending reg))
  /\ pending (ap_petitions a) = bt_empty
  /\ (forall g e, entries (ap_grants a) !! g = Some e -> liveness e = LRevoked)
  /\ (forall g, is_Some (entries (ap_grants a) !! g) <-> is_Some (entries gt !! g))
  /\ (forall ops g p verb now', is_ok (check_use_grant (table_run (ap_grants a) ops) g p verb now') = false)
  /\ Clipboard.held (ap_clipboard a) = None /\ Clipboard.slot_outstanding (ap_clipboard a) = None
  /\ (forall p k now', Attention.exempt (ap_attention a) p k now' = None).
Proof.
  pose proof (twf_sorted _ Hgt) as Hs. unfold apply.
  set (ps := dedup _). pose proof (revoke_each_spec ps gt Hs) as Hrev.
  destruct (revoke_each ps gt) as [rs gt']. destruct Hrev as (Hwf & Hn & Hlk & Hnd & Hin).
  rewrite deny_loop_spec by (done || apply Hreg). cbn [ap_effect ap_petitions ap_grants ap_clipboard ap_attention revoked denied].
  assert (forall g e, entries gt !! g = Some e -> among ps e = true) as Hall
    by (intros g e He; by eapply all_principals).
  assert (forall g e, entries gt' !! g = Some e -> liveness e = LRevoked) as Hdead.
  { intros g e He. rewrite Hlk in He. destruct (entries gt !! g) as [e0|] eqn:He0; simplify_eq/=.
    by rewrite (Hall _ _ He0). }
  split; [|split; [done|split; [done|split; [done|split; [|split; [|split; [done|split; [done|]]]]]]]].
  - apply merge_sort_select; [done|by apply bt_select_sorted|]. intros g.
    rewrite Hin, bt_select_In by done. split.
    + intros (e & He & Hl & _). exists e. by rewrite bool_decide_false.
    + intros (e & He & Hl). unbool. exists e. split; [done|split; [done|by eapply Hall]].
  - intros g. simpl. rewrite Hlk. by rewrite fmap_is_Some.
  - intros ops g p verb now'. apply sealed_dead_refuses.
    assert (sealed_dead (seal_dead_man gt')) as Hsd by (split; [done|split; done]).
    revert Hsd. generalize (seal_dead_man gt'). unfold table_run.
    induction ops as [|op ops IH]; intros t0 Ht0; simpl; [done|]. by apply IH, table_step_sealed_dead.
  - intros p k now'. unfold Attention.exempt. by destruct (negb _).
Qed.

Lemma deadman_applies_witness :
  let a := apply {| tr_chord := str "esc"; tr_held := from_millis 1000 |} demo_table demo_pending
             (Attention.signal_new {| Attention.ac_name := str "super"; Attention.ac_evdev := 125;
                                      Attention.ac_keysym := 65515 |})
             (@Clipboard.slot_new unit) 5 in
  revoked (ap_effect a) = [1; 2] /\ length (denied (ap_effect a)) = 1%nat
  /\ is_ok (check_use_grant (table_run (ap_grants a) [OpInsert (demo_spec 1 Once) 8]) 3
              (str "vitrin://local/agent/demo") 1 9) = false.
Proof.
  intros a.
  destruct (deadman_applies {| tr_chord := str "esc"; tr_held := from_millis 1000 |} demo_table
    demo_pending (Attention.signal_new {| Attention.ac_name := str "super"; Attention.ac_evdev := 125;
       Attention.ac_keysym := 65515 |}) (@Clipboard.slot_new unit) 5 demo_table_wf demo_pending_wf)
    as (Hr & Hd & _ & _ & _ & Huse & _).
  split; [exact (eq_trans Hr ltac:(vm_compute; reflexivity))|].
  split; [exact (eq_trans (f_equal (@length _) Hd) ltac:(vm_compute; reflexivity))|].
  apply Huse.
Defined.

(* ------------------------------------------------------------------------ *)
(** ** The switch over time *)

Inductive SwitchOp : Type :=
| WObserve (input : SeatInput) (now : Instant)
| WGate (input : SeatInput)
| WPoll (now : Instant)
| WTakeTrigger
| WTakeReplay
| WForget.

Definition switch_step (s : DeadManSwitch) (op : SwitchOp) : DeadManSwitch :=
  match op with
  | WObserve input now => observe_event s input now
  | WGate input => (gate_event s input).2
  | WPoll now => fire_if_due s now
  | WTakeTrigger => (take_trigger s).2
  | WTakeReplay => (take_replay s).2
  | WForget => forget_hold s
  end.
Definition switch_run (s : DeadManSwitch) (ops : list SwitchOp) : DeadManSwitch :=
  fold_left switch_step ops s.

Definition key_of (c : DeadManConfig) (input : SeatInput) : option KeyState :=
  chord_event (switch_new c) input.

(** An operation that does not end a hold; one that has nothing to do with the
    chord key at all. *)
Definition keeps_hold (c : DeadManConfig) (op : SwitchOp) : Prop :=
  match op with
  | WForget => False
  | WObserve input _ => key_of c input <> Some KReleased
  | _ => True
  end.
Definition off_chord (c : DeadManConfig) (op : SwitchOp) : Prop :=
  match op with
  | WForget | WTakeTrigger => False
  | WObserve input _ => key_of c input = None
  | _ => True
  end.

Lemma chord_event_key s input : chord_event s input = key_of (config s) input.
Proof. done. Qed.

Lemma fire_if_due_spec s now :
  config (fire_if_due s now) = config s /\ held_since (fire_if_due s now) = held_since s
  /\ ((fire_if_due s now = s
       /\ (fired s = true \/ forall t0, held_since s = Some t0 -> since now t0 < hold (config s)))
      \/ exists t0, held_since s = Some t0 /\ hold (config s) <= since now t0
         /\ fired (fire_if_due s now) = true /\ withheld (fire_if_due s now) = None
         /\ replay (fire_if_due s now) = replay s
         /\ replay_pending (fire_if_due s now) = replay_pending s
         /\ pending_trigger (fire_if_due s now)
            = Some {| tr_chord := name (chord (config s)); tr_held := since now t0 |}).
Proof.
  unfold fire_if_due. destruct (held_since s) as [t0|] eqn:Hh; [|split; [done|split; [done|left; split; [done|by right]]]].
  destruct (fired s) eqn:Hf; [split; [done|split; [done|left; auto]]|].
  destruct (Z.ltb_spec (since now t0) (hold (config s))).
  - split; [done|split; [done|left; split; [done|right]]]. by intros ? [= <-].
  - split; [done|split; [done|right; exists t0]]. by repeat (split; [done|]).
Qed.

Lemma gate_event_frame s input :
  let s' := (gate_event s input).2 in
  config s' = config s /\ held_since s' = held_since s /\ fired s' = fired s
  /\ pending_trigger s' = pending_trigger s /\ replay s' = replay s.
Proof.
  unfold gate_event. destruct (chord_event s input) as [[]|]; [| |done];
    (destruct (replay_pending s) as [|f r]; [done|]; by destruct (input_eqb f input)).
Qed.

Lemma switch_step_config s op : config (switch_step s op) = config s.
Proof.
  destruct op as [input now|input|now| | |]; simpl; try done.
  - unfold observe_event. destruct (chord_event s input) as [st|]; [|done].
    destruct (fire_if_due_spec s now) as (Hc & _). rewrite <- Hc.
    set (s1 := fire_if_due s now). destruct st.
    + destruct (_ && _)%bool; [|done]. simpl. by destruct (withheld s1).
    + by destruct (_ || _)%bool.
  - apply gate_event_frame.
  - apply fire_if_due_spec.
  - unfold take_replay. by destruct (replay s).
Qed.

Lemma switch_run_config ops s : config (switch_run s ops) = config s.
Proof.
  revert s. induction ops as [|op ops IH]; intros s; [done|]. simpl. rewrite IH. apply switch_step_config.
Qed.

(** What becomes of the time a hold began. *)
Lemma switch_step_held s op t0 :
  held_since (switch_step s op) = Some t0 ->
  (held_since s = Some t0 /\ keeps_hold (config s) op)
  \/ (exists press, op = WObserve press t0 /\ key_of (config s) press = Some KPressed).
Proof.
  destruct op as [input now|input|now| | |]; simpl.
  - unfold observe_event. rewrite chord_event_key.
    destruct (fire_if_due_spec s now) as (_ & Hh & _). set (s1 := fire_if_due s now) in *.
    destruct (key_of (config s) input) as [[]|] eqn:Hk.
    + destruct (_ && _)%bool; simpl; [|done]. by destruct (withheld s1).
    + destruct (_ || _)%bool; simpl.
      * intros [= ->]. right. eauto.
      * intros Ht. rewrite Hh in Ht. left. done.
    + intros Ht. left. done.
  - rewrite (proj1 (proj2 (gate_event_frame s input))). auto.
  - rewrite (proj1 (proj2 (fire_if_due_spec s now))). auto.
  - auto.
  - unfold take_replay. destruct (replay s); auto.
  - done.
Qed.

Definition begun (c : DeadManConfig) (ops : list SwitchOp) (t0 : Instant) : Prop :=
  exists pre press mid, ops = pre ++ WObserve press t0 :: mid
    /\ key_of c press = Some KPressed /\ Forall (keeps_hold c) mid.

Lemma held_begun c ops t0 :
  held_since (switch_run (switch_new c) ops) = Some t0 -> begun c ops t0.
Proof.
  revert t0. induction ops as [|op ops IH] using rev_ind; intros t0; [done|].
  unfold switch_run in *. rewrite fold_left_app. simpl. intros Ht.
  apply switch_step_held in Ht. fold (switch_run (switch_new c) ops) in *.
  rewrite switch_run_config in Ht. simpl in Ht.
  destruct Ht as [[Ht Hk]|(press & -> & Hk)].
  - destruct (IH _ Ht) as (pre & press & mid & -> & Hp & Hmid).
    exists pre, press, (mid ++ [op]). rewrite <- app_assoc. split; [done|split; [done|]].
    apply Forall_app. split; [done|by constructor].
  - exists ops, press, []. done.
Qed.

(** What can raise a trigger. *)
Lemma switch_step_trigger s op tr :
  pending_trigger s = None -> pending_trigger (switch_step s op) = Some tr ->
  exists t0 now, held_since s = Some t0 /\ tr_held tr = since now t0 /\ hold (config s) <= since now t0
    /\ (op = WPoll now \/ exists input, op = WObserve input now /\ key_of (config s) input <> None).
Proof.
  intros Hn. assert (forall now, pending_trigger (fire_if_due s now) = Some tr ->
    exists t0, held_since s = Some t0 /\ tr_held tr = since now t0 /\ hold (config s) <= since now t0) as Hf.
  { intros now. destruct (fire_if_due_spec s now) as (_ & _ & [[-> _]|(t0 & H0 & Hle & _ & _ & _ & _ & ->)]);
      [congruence|]. intros [= <-]. eauto. }
  destruct op as [input now|input|now| | |]; simpl; try congruence.
  - unfold observe_event. rewrite chord_event_key.
    destruct (key_of (config s) input) as [st|] eqn:Hk; [|congruence]. intros Ht.
    destruct (Hf now) as (t0 & H1 & H2 & H3); [|exists t0, now;
      do 3 (split; [done|]); right; exists input; by rewrite Hk].
    destruct st.
    + destruct (_ && _)%bool; simpl in Ht; [|done]. revert Ht. by destruct (withheld _).
    + revert Ht. by destruct (_ || _)%bool.
  - rewrite (proj1 (proj2 (proj2 (proj2 (gate_event_frame s input))))). congruence.
  - intros Ht. destruct (Hf now Ht) as (t0 & H1 & H2 & H3). exists t0, now. auto.
  - unfold take_replay. destruct (replay s); simpl; congruence.
Qed.

(** A hold that is left alone lasts, until it fires. *)
Lemma off_chord_keeps c ops s t0 :
  config s = c -> held_since s = Some t0 -> (fired s = true -> is_Some (pending_trigger s)) ->
  Forall (off_chord c) ops ->
  held_since (switch_run s ops) = Some t0
  /\ (fired (switch_run s ops) = true -> is_Some (pending_trigger (switch_run s ops))).
Proof.
  intros Hc. revert s Hc. induction ops as [|op ops IH]; intros s Hc Hh Hf Hops; [done|].
  apply Forall_cons in Hops as [Hop Hops]. simpl.
  apply IH; [by rewrite switch_step_config| | |done].
  - destruct op as [input now|input|now| | |]; simpl; try done.
    + unfold observe_event. rewrite chord_event_key, Hc. simpl in Hop. by rewrite Hop.
    + by rewrite (proj1 (proj2 (gate_event_frame s input))).
    + by rewrite (proj1 (proj2 (fire_if_due_spec s now))).
    + unfold take_replay. by destruct (replay s).
  - destruct op as [input now|input|now| | |]; simpl; try done.
    + unfold observe_event. rewrite chord_event_key, Hc. simpl in Hop. by rewrite Hop.
    + destruct (gate_event_frame s input) as (_ & _ & -> & -> & _). done.
    + destruct (fire_if_due_spec s now) as (_ & _ & [[-> _]|(? & _ & _ & _ & _ & _ & _ & ->)]); eauto.
    + unfold take_replay. by destruct (replay s).
Qed.

(** The switch fires when the human has held the key, and only then. Over
    any history of events, polls and drains from a new switch: if an operation
    raises a trigger, the human physically pressed the chord key at some earlier
    time, neither released it nor lost the keyboard since, and the hold time
    lies between that press and the trigger, whose duration it reports; and
    conversely, after a physical press of an idle switch, whatever agents
    emulate and whatever other keys do, a poll once the hold time has passed
    finds the trigger raised. *)
Theorem deadman_fires_exact (c : DeadManConfig) (ops : list SwitchOp) :
  let s := switch_run (switch_new c) ops in
  (forall op tr, pending_trigger s = None -> pending_trigger (switch_step s op) = Some tr ->
     exists pre press t0 mid now, ops = pre ++ WObserve press t0 :: mid
       /\ si_origin press = Physical /\ key_of c press = Some KPressed
       /\ Forall (keeps_hold c) mid
       /\ tr_held tr = since now t0 /\ hold c <= since now t0
       /\ (op = WPoll now \/ exists input, op = WObserve input now /\ key_of c input <> None))
  /\ (forall press t0 mid now, held_since s = None -> key_of c press = Some KPressed ->
        Forall (off_chord c) mid -> 0 < hold c -> t0 + hold c <= now ->
        is_Some (pending_trigger (switch_run s (WObserve press t0 :: mid ++ [WPoll now])))).
Proof.
  intros s. assert (config s = c) as Hc by apply switch_run_config. split.
  - intros op tr Hn Ht. destruct (switch_step_trigger s op tr Hn Ht) as (t0 & now & Hh & H1 & H2 & H3).
    apply held_begun in Hh as (pre & press & mid & -> & Hp & Hmid). rewrite Hc in *.
    exists pre, press, t0, mid, now. split; [done|]. split; [|done].
    unfold key_of, chord_event in Hp. by destruct (si_origin press).
  - intros press t0 mid now Hh Hp Hmid Hpos Hle. cbn [switch_run fold_left].
    set (s1 := switch_step s (WObserve press t0)).
    assert (held_since s1 = Some t0 /\ fired s1 = false) as [Hh1 Hf1].
    { unfold s1. simpl. unfold observe_event, fire_if_due. rewrite chord_event_key, Hc, Hp, Hh.
      rewrite bool_decide_true by done. done. }
    assert (config s1 = c) as Hc1 by (unfold s1; by rewrite switch_step_config).
    rewrite fold_left_app. fold (switch_run s1 mid). simpl.
    destruct (off_chord_keeps c mid s1 t0 Hc1 Hh1 ltac:(congruence) Hmid) as [Hh2 Hf2].
    set (s2 := switch_run s1 mid) in *.
    assert (config s2 = c) as Hc2 by (unfold s2; by rewrite switch_run_config).
    destruct (fire_if_due_spec s2 now) as (_ & _ & [[-> [Hf|Hlt]]|(? & _ & _ & _ & _ & _ & _ & ->)]);
      [by apply Hf2| |done].
    specialize (Hlt _ Hh2). rewrite Hc2 in Hlt. unfold since in Hlt. lia.
Qed.

Definition demo_config : DeadManConfig :=
  {| chord := {| name := str "esc"; keysym := 65307 |}; hold := from_millis 1000 |}.
Definition esc (st : KeyState) : SeatInput := physical (Key (Device 1) 65307 st).

(** One event through the switch: observed, then gated. *)
Definition route (s : DeadManSwitch) (input : SeatInput) (now : Instant) : Gate * DeadManSwitch :=
  gate_event (observe_event s input now) input.

Definition idle (s : DeadManSwitch) : Prop :=
  held_since s = None /\ fired s = false /\ withheld s = None /\ replay s = []
  /\ replay_pending s = [] /\ pending_trigger s = None.

Lemma input_eqb_key s input st : chord_event s input = Some st -> input_eqb input input = true.
Proof.
  unfold chord_event, input_eqb. destruct (si_origin input), (si_kind input); try done.
  intros _. rewrite !bool_decide_true by done. by rewrite Z.eqb_refl.
Qed.

(** The four steps of a tap: pressed, released, and the pair routed again. *)
Section tap.
Context (cf : DeadManConfig) (press release : SeatInput).
Hypothesis (Hpress : key_of cf press = Some KPressed) (Hrelease : key_of cf release = Some KReleased).

Definition state (h : option Instant) (tg : option Trigger) (w : option SeatInput)
    (rp pn : list SeatInput) : DeadManSwitch :=
  {| config := cf; held_since := h; fired := false; pending_trigger := tg; withheld := w;
     replay := rp; replay_pending := pn |}.

Lemma route_press t :
  route (state None None None [] []) press t = (Consume, state (Some t) None (Some press) [] []).
Proof.
  unfold route, observe_event. rewrite chord_event_key. simpl. rewrite Hpress. simpl.
  unfold gate_event. rewrite chord_event_key. simpl. by rewrite Hpress.
Qed.

Lemma route_release t0 t :
  route (state (Some t0) None (Some press) [] []) release t =
  (Consume,
   if since t t0 <? hold cf then state None None None [press; release] []
   else state None (Some {| tr_chord := name (chord cf); tr_held := since t t0 |}) None [] []).
Proof.
  unfold route, observe_event. rewrite chord_event_key. simpl. rewrite Hrelease.
  unfold fire_if_due. simpl. destruct (since t t0 <? hold cf); simpl;
    unfold gate_event; rewrite chord_event_key; simpl; by rewrite Hrelease.
Qed.

Lemma route_replayed t :
  0 < hold cf ->
  route (state None None None [] [press; release]) press t
    = (Deliver, state (Some t) None None [] [release])
  /\ route (state (Some t) None None [] [release]) release t = (Deliver, state None None None [] []).
Proof.
  intros Hpos. unfold route, observe_event. rewrite !chord_event_key. simpl.
  rewrite Hpress, Hrelease. unfold fire_if_due. simpl.
  rewrite (proj2 (Z.ltb_lt (since t t) (hold cf)))
    by (unfold since; replace (t - t) with 0 by lia; done). simpl.
  unfold gate_event. rewrite !chord_event_key. simpl. rewrite Hpress, Hrelease. simpl.
  by rewrite (input_eqb_key (switch_new cf) press _ Hpress),
    (input_eqb_key (switch_new cf) release _ Hrelease).
Qed.
End tap.

(** A tap is the app's, a hold is the switch's. From an idle switch, a
    physical press and release of the chord key are both kept from the app.
    Released before the hold time, they are handed back exactly once, the press
    before the release, and when that pair is routed again both pass and the
    switch is idle; released later, nothing is handed back and the trigger is
    raised with the time held, so a press that became the gesture never
    reaches the app. *)
Theorem deadman_tap_or_hold (s : DeadManSwitch) (press release : SeatInput) (t0 t1 t2 : Z)
  (Hidle : idle s) (Hpos : 0 < hold (config s))
  (Hpress : chord_event s press = Some KPressed)
  (Hrelease : chord_event s release = Some KReleased) :
  let '(g1, s1) := route s press t0 in
  let '(g2, s2) := route s1 release t1 in
  let '(handed, s3) := take_replay s2 in
  g1 = Consume /\ g2 = Consume
  /\ if since t1 t0 <? hold (config s) then
       handed = [press; release] /\ pending_trigger s3 = None
       /\ (take_replay s3).1 = []
       /\ let '(g3, s4) := route s3 press t2 in
          let '(g4, s5) := route s4 release t2 in
          g3 = Deliver /\ g4 = Deliver /\ idle s5
     else
       handed = [] /\ pending_trigger s3
         = Some {| tr_chord := name (chord (config s)); tr_held := since t1 t0 |}.
Proof.
  destruct s as [cf h f tg w rp pn]. destruct Hidle as (Hh & Hf & Hw & Hr & Hp & Ht).
  simpl in Hh, Hf, Hw, Hr, Hp, Ht, Hpos. subst. rewrite chord_event_key in Hpress, Hrelease.
  simpl in Hpress, Hrelease. fold (state cf None None None [] []). simpl (config _).
  rewrite (route_press cf press Hpress), (route_release cf press release Hrelease).
  destruct (since t1 t0 <? hold cf); simpl; [|done].
  do 5 (split; [done|]). unfold set_replay. simpl. fold (state cf None None None [] [press; release]).
  destruct (route_replayed cf press release Hpress Hrelease t2 Hpos) as [-> ->]. done.
Qed.

Lemma deadman_tap_or_hold_witness :
  let s := switch_new demo_config in
  idle s /\ (route s (esc KPressed) 0).1 = Consume
  /\ let '(_, s1) := route s (esc KPressed) 0 in
     let '(_, s2) := route s1 (esc KReleased) (from_millis 999) in
     (take_replay s2).1 = [esc KPressed; esc KReleased].
Proof.
  intros s. assert (Hi : idle s) by (repeat split; reflexivity). split; [exact Hi|].
  pose proof (deadman_tap_or_hold s (esc KPressed) (esc KReleased) 0 (from_millis 999)
    (from_millis 1500) Hi eq_refl eq_refl eq_refl) as H.
  destruct (route s (esc KPressed) 0) as [g1 s1].
  destruct (route s1 (esc KReleased) (from_millis 999)) as [g2 s2].
  destruct (take_replay s2) as [handed s3]. destruct H as (Hg1 & _ & Hh & _).
  split; [exact Hg1|exact Hh].
Defined.
