(* ===== verification/Ipc.v ===== *)
(** * The transport

    [crates/vitrin-ipc/src/connection.rs]: framing, positional file-descriptor
    matching and poisoning on the receiving side; parking, flushing and the two
    caps on the sending side. The kernel is a list of the results its calls will
    give, in order, [EINTR] already retried: an empty list is a socket with
    nothing more to give, which would block. Descriptors and I/O errors are
    types the kernel chooses. *)

From S2P Require Import Prelude Text Wire.

Definition MAX_MESSAGE_SIZE : Z := 65535.
Definition MAX_FDS_PER_MESSAGE : Z := 1.
Definition MAX_UNCLAIMED_FDS : Z := 8.
Definition MAX_SEND_QUEUE_BYTES : Z := 256 * 1024.
Definition MAX_SEND_QUEUE_FDS : Z := 16.

Inductive LocalMisuse : Type :=
| FrameTooShort (len : Z)
| SizeFieldMismatch (declared actual : Z)
| FdCountMismatch (declared : Z) (attached : bool).

Inductive PeerViolation : Type :=
| UndersizedSizeField (size : Z)
| FdCountExceeded (fd_count : Z)
| MissingFd | UnsolicitedFd | UnclaimedFdOverflow | AncillaryTruncated.

Section transport.
Context {F IoErr : Type}.

(** [io::ErrorKind::WouldBlock] and [WriteZero], and every other error. *)
Inductive IoError : Type := WouldBlock | WriteZero | OtherIo (e : IoErr).

Inductive TransportError : Type :=
| Io (e : IoError)
| Eof (buffered : Z)
| Misuse (m : LocalMisuse)
| Violation (v : PeerViolation)
| SendQueueFull (queued : Z).

(* ------------------------------------------------------------------------ *)
(** ** Receiving *)

Record Message : Type := { msg_header : FrameHeader; msg_bytes : Bytes; msg_fd : option F }.

Record PendingFd : Type := { span_start : Z; span_end : Z; pfd : F }.

Record Receiver : Type := {
  recv_buf : Bytes;
  pending_fds : list PendingFd;
  consumed : Z;
  poisoned : option PeerViolation }.

Definition receiver_new : Receiver :=
  {| recv_buf := []; pending_fds := []; consumed := 0; poisoned := None |}.

(** What one [recvmsg] returns: bytes, descriptors and the truncation flag; no
    bytes is the end of the stream. *)
Inductive RecvResult : Type :=
| RecvOk (bytes : Bytes) (fds : list F) (ctrunc : bool)
| RecvErr (e : IoError).

Definition poison (c : Receiver) (v : PeerViolation) : TransportError * Receiver :=
  (Violation v,
   {| recv_buf := recv_buf c; pending_fds := pending_fds c; consumed := consumed c;
      poisoned := Some v |}).

(** The harvest of one call's descriptors. *)
Fixpoint push_fds (start finish : Z) (fds : list F) (pending : list PendingFd)
    : bool * list PendingFd :=
  match fds with
  | [] => (true, pending)
  | fd :: fds =>
      if MAX_UNCLAIMED_FDS <=? Z.of_nat (length pending) then (false, pending)
      else push_fds start finish fds
             (pending ++ [{| span_start := start; span_end := finish; pfd := fd |}])
  end.

(** [fill]. *)
Definition fill (c : Receiver) (r : RecvResult) : result Z TransportError * Receiver :=
  match r with
  | RecvErr e => (Err (Io e), c)
  | RecvOk bytes fds ctrunc =>
      if ctrunc then let '(e, c) := poison c AncillaryTruncated in (Err e, c) else
      let start := consumed c + blen (recv_buf c) in
      let '(ok, pending) := push_fds start (start + blen bytes) fds (pending_fds c) in
      let c' := {| recv_buf := recv_buf c; pending_fds := pending; consumed := consumed c;
                   poisoned := poisoned c |} in
      if ok then
        (Ok (blen bytes),
         {| recv_buf := recv_buf c ++ bytes; pending_fds := pending; consumed := consumed c;
            poisoned := poisoned c |})
      else let '(e, c) := poison c' UnclaimedFdOverflow in (Err e, c)
  end.

(** A whole frame at the head of the buffer: taken with its descriptor. *)
Definition take_frame (c : Receiver) (h : FrameHeader) (sz : Z)
    : result Message TransportError * Receiver :=
  let bytes := take (Z.to_nat sz) (recv_buf c) in
  let frame_start := consumed c in
  let frame_end := frame_start + sz in
  let c := {| recv_buf := drop (Z.to_nat sz) (recv_buf c); pending_fds := pending_fds c;
              consumed := frame_end; poisoned := poisoned c |} in
  let claim fd c :=
    match pending_fds c with
    | front :: _ =>
        if span_end front <=? frame_end
        then let '(e, c) := poison c UnsolicitedFd in (Err e, c)
        else (Ok {| msg_header := h; msg_bytes := bytes; msg_fd := fd |}, c)
    | [] => (Ok {| msg_header := h; msg_bytes := bytes; msg_fd := fd |}, c)
    end in
  if fd_count h =? 1 then
    match pending_fds c with
    | entry :: rest =>
        if span_start entry <=? frame_start then
          claim (Some (pfd entry))
            {| recv_buf := recv_buf c; pending_fds := rest; consumed := consumed c;
               poisoned := poisoned c |}
        else let '(e, c) := poison c MissingFd in (Err e, c)
    | [] => let '(e, c) := poison c MissingFd in (Err e, c)
    end
  else claim None c.

(** The head of the loop: a message, a violation, or [None] to read more. *)
Definition next_frame (c : Receiver) : option (result Message TransportError * Receiver) :=
  if blen (recv_buf c) <? HEADER_LEN then None else
  match header_decode (recv_buf c) with
  | Err _ => None (* the [expect]: the buffer holds a full header *)
  | Ok h =>
      let sz := size h in
      if sz <? HEADER_LEN then
        Some (let '(e, c) := poison c (UndersizedSizeField sz) in (Err e, c))
      else if MAX_FDS_PER_MESSAGE <? fd_count h then
        Some (let '(e, c) := poison c (FdCountExceeded (fd_count h)) in (Err e, c))
      else if sz <=? blen (recv_buf c) then Some (take_frame c h sz)
      else None
  end.

(** The loop, a call of [fill] for each result of the kernel. *)
Fixpoint recv_loop (c : Receiver) (rs : list RecvResult)
    : result (option Message) TransportError * Receiver * list RecvResult :=
  match next_frame c with
  | Some (Ok m, c) => (Ok (Some m), c, rs)
  | Some (Err e, c) => (Err e, c, rs)
  | None =>
      match rs with
      | [] => (Err (Io WouldBlock), c, [])
      | r :: rs =>
          match fill c r with
          | (Err e, c) => (Err e, c, rs)
          | (Ok n, c) =>
              if n =? 0 then
                if blen (recv_buf c) =? 0 then (Ok None, c, rs)
                else (Err (Eof (blen (recv_buf c))), c, rs)
              else recv_loop c rs
          end
      end
  end.

Definition recv_message (c : Receiver) (rs : list RecvResult)
    : result (option Message) TransportError * Receiver * list RecvResult :=
  match poisoned c with
  | Some v => (Err (Violation v), c, rs)
  | None => recv_loop c rs
  end.

(** A reader that calls [recv_message] until the stream ends or fails. *)
Fixpoint recv_all (fuel : nat) (c : Receiver) (rs : list RecvResult)
    : list Message * result unit TransportError :=
  match fuel with
  | O => ([], Ok tt)
  | S fuel =>
      match recv_message c rs with
      | (Ok (Some m), c, rs) => let '(ms, r) := recv_all fuel c rs in (m :: ms, r)
      | (Ok None, _, _) => ([], Ok tt)
      | (Err e, _, _) => ([], Err e)
      end
  end.

(* ------------------------------------------------------------------------ *)
(** ** Sending *)

Record QueuedFrame : Type := { q_bytes : Bytes; q_offset : nat; q_fd : option F }.

Record Sender : Type := {
  send_queue : list QueuedFrame;
  queued_send_bytes : Z;
  queued_send_fds : Z;
  send_overflowed : bool;
  send_poisoned : option IoError }.

Definition sender_new : Sender :=
  {| send_queue := []; queued_send_bytes := 0; queued_send_fds := 0; send_overflowed := false;
     send_poisoned := None |}.

(** What one [send] or [sendmsg] does: it takes as many of the bytes offered as
    there is room for, or fails. *)
Inductive SendResult : Type := SendRoom (n : nat) | SendErr (e : IoError).

(** What reached the socket: the bytes of each call, with the descriptor that
    rode on them. *)
Definition Sent := list (Bytes * option F).

Definition validate_outgoing (frame : Bytes) (fd : option F) : result unit LocalMisuse :=
  match header_decode frame with
  | Err _ => Err (FrameTooShort (blen frame))
  | Ok h =>
      if negb (size h =? blen frame) then Err (SizeFieldMismatch (size h) (blen frame))
      else if (MAX_FDS_PER_MESSAGE <? fd_count h)
              || negb (Bool.eqb (fd_count h =? 1) (bool_decide (is_Some fd)))
      then Err (FdCountMismatch (fd_count h) (bool_decide (is_Some fd)))
      else Ok tt
  end.

Definition poison_send (s : Sender) (e : IoError) : TransportError * Sender :=
  (Io e, {| send_queue := send_queue s; queued_send_bytes := queued_send_bytes s;
            queued_send_fds := queued_send_fds s; send_overflowed := send_overflowed s;
            send_poisoned := Some e |}).

Definition has_fd (fd : option F) : Z := if bool_decide (is_Some fd) then 1 else 0.

Definition park (s : Sender) (bytes : Bytes) (fd : option F) : result unit TransportError * Sender :=
  if (MAX_SEND_QUEUE_BYTES <? queued_send_bytes s + blen bytes)
     || (MAX_SEND_QUEUE_FDS <? queued_send_fds s + has_fd fd)
  then (Err (SendQueueFull (queued_send_bytes s)),
        {| send_queue := send_queue s; queued_send_bytes := queued_send_bytes s;
           queued_send_fds := queued_send_fds s; send_overflowed := true;
           send_poisoned := send_poisoned s |})
  else (Ok tt,
        {| send_queue := send_queue s ++ [{| q_bytes := bytes; q_offset := 0; q_fd := fd |}];
           queued_send_bytes := queued_send_bytes s + blen bytes;
           queued_send_fds := queued_send_fds s + has_fd fd;
           send_overflowed := send_overflowed s; send_poisoned := send_poisoned s |}).

(** [flush_send_queue]: a send for each result of the kernel. *)
Fixpoint flush_send_queue (s : Sender) (rs : list SendResult)
    : result unit TransportError * Sender * list SendResult * Sent :=
  match send_queue s with
  | [] => (Ok tt, s, rs, [])
  | front :: queue =>
      match rs with
      | [] | SendErr WouldBlock :: _ => (Ok tt, s, List.tl rs, [])
      | SendErr e :: rs => let '(e, s) := poison_send s e in (Err e, s, rs, [])
      | SendRoom room :: rs =>
          let offered := match q_fd front with
                         | Some _ => q_bytes front
                         | None => drop (q_offset front) (q_bytes front)
                         end in
          let n := Nat.min room (length offered) in
          if (n =? 0)%nat then
            let '(e, s) := poison_send s WriteZero in (Err e, s, rs, [])
          else
            let front' := {| q_bytes := q_bytes front; q_offset := (q_offset front + n)%nat;
                             q_fd := None |} in
            let s := {| send_queue := if (q_offset front' =? length (q_bytes front))%nat then queue
                                      else front' :: queue;
                        queued_send_bytes := queued_send_bytes s - Z.of_nat n;
                        queued_send_fds := queued_send_fds s - has_fd (q_fd front);
                        send_overflowed := send_overflowed s;
                        send_poisoned := send_poisoned s |} in
            let '(r, s, rs, out) := flush_send_queue s rs in
            (r, s, rs, (take n offered, q_fd front) :: out)
      end
  end.

(** The second loop of [try_send_now]: the bytes after the first call's. *)
Fixpoint send_rest (s : Sender) (rest : Bytes) (rs : list SendResult)
    : result Bytes TransportError * Sender * list SendResult * Sent :=
  match rest with
  | [] => (Ok [], s, rs, [])
  | _ =>
      match rs with
      | [] | SendErr WouldBlock :: _ => (Ok rest, s, List.tl rs, [])
      | SendErr e :: rs => let '(e, s) := poison_send s e in (Err e, s, rs, [])
      | SendRoom room :: rs =>
          let n := Nat.min room (length rest) in
          if (n =? 0)%nat then
            let '(e, s) := poison_send s WriteZero in (Err e, s, rs, [])
          else
            let '(r, s, rs, out) := send_rest s (drop n rest) rs in
            (r, s, rs, (take n rest, None) :: out)
      end
  end.

(** [try_send_now], giving the bytes left over instead of the count sent. *)
Definition try_send_now (s : Sender) (frame : Bytes) (fd : option F) (rs : list SendResult)
    : result Bytes TransportError * Sender * list SendResult * Sent :=
  match rs with
  | [] | SendErr WouldBlock :: _ => (Ok frame, s, List.tl rs, [])
  | SendErr e :: rs => let '(e, s) := poison_send s e in (Err e, s, rs, [])
  | SendRoom room :: rs =>
      let n := Nat.min room (length frame) in
      let '(r, s, rs, out) := send_rest s (drop n frame) rs in
      (r, s, rs, (take n frame, fd) :: out)
  end.

(** [fd.map(|fd| fd.try_clone_to_owned()).transpose()]: [dup] gives another
    descriptor of the same file, or is refused. *)
Definition clone_fd (dup : F -> result unit IoError) (fd : option F)
    : result (option F) TransportError :=
  match fd with
  | None => Ok None
  | Some f => match dup f with Ok _ => Ok (Some f) | Err e => Err (Io e) end
  end.

(** The end of both branches: the descriptor's [?], then [park]. *)
Definition park_frame (s : Sender) (rs : list SendResult) (out : Sent) (bytes : Bytes)
    (fd : result (option F) TransportError)
    : result unit TransportError * Sender * list SendResult * Sent :=
  match fd with
  | Err e => (Err e, s, rs, out)
  | Ok fd => let '(r, s) := park s bytes fd in (r, s, rs, out)
  end.

Definition send_or_queue (dup : F -> result unit IoError) (s : Sender) (frame : Bytes)
    (fd : option F) (rs : list SendResult)
    : result unit TransportError * Sender * list SendResult * Sent :=
  match validate_outgoing frame fd with
  | Err m => (Err (Misuse m), s, rs, [])
  | Ok _ =>
      if send_overflowed s then (Err (SendQueueFull (queued_send_bytes s)), s, rs, []) else
      match send_poisoned s with
      | Some e => (Err (Io e), s, rs, [])
      | None =>
          let '(r, s, rs, out1) :=
            match send_queue s with
            | [] => (Ok tt, s, rs, [])
            | _ => flush_send_queue s rs
            end in
          match r with
          | Err e => (Err e, s, rs, out1)
          | Ok _ =>
              match send_queue s with
              | [] =>
                  let '(r, s, rs, out2) := try_send_now s frame fd rs in
                  match r with
                  | Err e => (Err e, s, rs, out1 ++ out2)
                  | Ok [] => (Ok tt, s, rs, out1 ++ out2)
                  | Ok unsent =>
                      park_frame s rs (out1 ++ out2) unsent
                        (if (length unsent =? length frame)%nat then clone_fd dup fd else Ok None)
                  end
              | _ => park_frame s rs out1 frame (clone_fd dup fd)
              end
          end
      end
  end.

(** [send_message] of the blocking clients: the bytes after the first call's.
    [None] is a socket that still blocks. *)
Fixpoint send_all (rest : Bytes) (rs : list SendResult)
    : option (result unit TransportError) * Sent :=
  match rest with
  | [] => (Some (Ok tt), [])
  | _ =>
      match rs with
      | [] => (None, [])
      | SendErr e :: _ => (Some (Err (Io e)), [])
      | SendRoom room :: rs =>
          let n := Nat.min room (length rest) in
          if (n =? 0)%nat then (Some (Err (Io WriteZero)), []) else
          let '(r, out) := send_all (drop n rest) rs in (r, (take n rest, None) :: out)
      end
  end.

Definition send_message (frame : Bytes) (fd : option F) (rs : list SendResult)
    : option (result unit TransportError) * Sent :=
  match validate_outgoing frame fd with
  | Err m => (Some (Err (Misuse m)), [])
  | Ok _ =>
      match rs with
      | [] => (None, [])
      | SendErr e :: _ => (Some (Err (Io e)), [])
      | SendRoom room :: rs =>
          let n := Nat.min room (length frame) in
          let '(r, out) := send_all (drop n frame) rs in (r, (take n frame, fd) :: out)
      end
  end.
End transport.
Arguments RecvResult : clear implicits.
Arguments Message : clear implicits.
Arguments Receiver : clear implicits.
Arguments Sender : clear implicits.
Arguments SendResult : clear implicits.
Arguments TransportError : clear implicits.
Arguments IoError : clear implicits.

(* ------------------------------------------------------------------------ *)
(** ** A compliant peer

    A peer sends frames that pass the sender's own validation, each with its
    descriptor on its first byte. The kernel cuts the byte stream wherever it
    likes; a call that covers a descriptor's byte returns that descriptor, and
    no call returns more than one. *)

Section compliant.
Context {F IoErr : Type}.

Definition Frame : Type := Bytes * option F.
Implicit Types (fs : list Frame) (S : list (Z * F)).

Definition stream fs : Bytes := List.concat (List.map fst fs).
Definition frame_ok (f : Frame) : Prop := validate_outgoing f.1 f.2 = Ok tt.

(** The stream offsets of the descriptors. *)
Fixpoint starts (p : Z) fs : list (Z * F) :=
  match fs with
  | [] => []
  | (b, fd) :: fs => (match fd with Some f => [(p, f)] | None => [] end) ++ starts (p + blen b) fs
  end.

Definition before (e : Z) (x : Z * F) : bool := x.1 <? e.
Definition within (a b : Z) (x : Z * F) : bool := (a <=? x.1) && (x.1 <? b).

(** The kernel's calls, from offset [e] of a stream with the rest to come. *)
Fixpoint delivers S (e : Z) (rest : Bytes) (cs : list (Bytes * list F)) : Prop :=
  match cs with
  | [] => rest = []
  | (b, fds) :: cs =>
      b <> [] /\ (length fds <= 1)%nat
      /\ fds = List.map snd (List.filter (within e (e + blen b)) S)
      /\ exists rest', rest = b ++ rest' /\ delivers S (e + blen b) rest' cs
  end.

Definition results (cs : list (Bytes * list F)) : list (RecvResult F IoErr) :=
  List.map (fun c => RecvOk c.1 c.2 false) cs ++ [RecvOk [] [] false].

Definition message_of (f : Frame) (m : Message F) : Prop :=
  msg_bytes m = f.1 /\ msg_fd m = f.2 /\ header_decode f.1 = Ok (msg_header m).

(** *** Headers *)

Lemma slice_prefix (a b : Bytes) x y : 0 <= x <= y -> y <= blen a -> slice (a ++ b) x y = slice a x y.
Proof.
  unfold slice, blen. intros ? ?. rewrite drop_app_le by lia.
  apply take_app_le. rewrite length_drop. lia.
Qed.

Lemma header_decode_prefix (a b : Bytes) : HEADER_LEN <= blen a -> header_decode (a ++ b) = header_decode a.
Proof.
  unfold header_decode, HEADER_LEN. intros Ha. pose proof (blen_nonneg b).
  rewrite blen_app, !(proj2 (Z.ltb_ge _ _)) by lia. rewrite !slice_prefix by lia.
  done.
Qed.

Lemma frame_ok_spec f :
  frame_ok f ->
  exists h, header_decode f.1 = Ok h /\ size h = blen f.1 /\ HEADER_LEN <= blen f.1
    /\ fd_count h <= MAX_FDS_PER_MESSAGE /\ (fd_count h =? 1) = bool_decide (is_Some f.2).
Proof.
  unfold frame_ok, validate_outgoing.
  destruct (header_decode f.1) as [h|] eqn:Hd; [|done].
  destruct (Z.eqb_spec (size h) (blen f.1)); simpl; [|done].
  destruct (Z.ltb_spec MAX_FDS_PER_MESSAGE (fd_count h)); simpl; [done|].
  destruct (Bool.eqb (fd_count h =? 1) (bool_decide (is_Some f.2))) eqn:He; simpl; [|done].
  intros _. exists h. split; [done|split; [done|]]. split; [|split; [done|by apply Bool.eqb_prop]].
  unfold header_decode in Hd. destruct (Z.ltb_spec (blen f.1) HEADER_LEN); [done|lia].
Qed.

(** *** Offsets *)

Lemma starts_bound p fs x : In x (starts p fs) -> p <= x.1.
Proof.
  revert p. induction fs as [|[b fd] fs IH]; intros p; simpl; [done|].
  intros [Hin|Hin]%in_app_or; [destruct fd; [|done]; destruct Hin as [<-|[]]; simpl; lia|].
  apply IH in Hin. pose proof (blen_nonneg b). lia.
Qed.

Lemma filter_none {A} (q : A -> bool) l : (forall x, In x l -> q x = false) -> List.filter q l = [].
Proof.
  induction l as [|x l IH]; simpl; intros H; [done|]. rewrite H by (by left). apply IH. auto.
Qed.

Lemma filter_starts_before p fs e : e <= p -> List.filter (before e) (starts p fs) = [].
Proof.
  intros He. apply filter_none. intros x Hx%starts_bound. unfold before. apply Z.ltb_ge. lia.
Qed.

(** What is before a later offset: what was before, then what the call covered. *)
Lemma filter_split p fs e e' :
  e <= e' ->
  List.filter (before e') (starts p fs)
  = List.filter (before e) (starts p fs) ++ List.filter (within e e') (starts p fs).
Proof.
  intros He. revert p. induction fs as [|[b fd] fs IH]; intros p; simpl; [done|].
  rewrite !List.filter_app, IH. pose proof (blen_nonneg b).
  destruct fd as [f|]; [|done]. simpl. unfold before, within. simpl.
  destruct (Z.ltb_spec p e'), (Z.ltb_spec p e), (Z.leb_spec e p); simpl; try lia; try done.
  - rewrite (filter_none (fun x : Z * F => x.1 <? e)); [done|].
    intros x Hx%starts_bound. apply Z.ltb_ge. lia.
Qed.

Lemma delivers_ext S S' e rest cs :
  (forall a b, e <= a -> List.filter (within a b) S = List.filter (within a b) S') ->
  delivers S e rest cs -> delivers S' e rest cs.
Proof.
  revert e rest. induction cs as [|[b fds] cs IH]; intros e rest Hf; simpl; [done|].
  intros (Hb & Hl & Hfds & rest' & Hr & Hd). split; [done|split; [done|split]].
  - rewrite <- Hf by lia. done.
  - exists rest'. split; [done|]. apply IH; [|done]. intros a b' Ha. apply Hf.
    pose proof (blen_nonneg b). lia.
Qed.

(** *** One message *)

(** A pending descriptor, and the offset its frame starts at. *)
Definition spanned (pf : PendingFd) (x : Z * F) : Prop :=
  span_start pf <= x.1 < span_end pf /\ pfd pf = x.2.

(** The receiver in step with the frames to come. *)
Record in_step (c : Receiver F) fs (cs : list (Bytes * list F)) : Prop := {
  st_poisoned : poisoned c = None;
  st_ok : Forall frame_ok fs;
  st_stream : exists rest, stream fs = recv_buf c ++ rest
    /\ delivers (starts (consumed c) fs) (consumed c + blen (recv_buf c)) rest cs;
  st_pending : Forall2 spanned (pending_fds c)
    (List.filter (before (consumed c + blen (recv_buf c))) (starts (consumed c) fs)) }.

Lemma in_step_new fs cs :
  Forall frame_ok fs -> delivers (starts 0 fs) 0 (stream fs) cs -> in_step receiver_new fs cs.
Proof.
  intros Hok Hd. split; simpl; [done|done|by exists (stream fs)|].
  rewrite filter_starts_before by (unfold blen; simpl; lia). constructor.
Qed.

(** A buffer as long as the first frame starts with it. *)
Lemma head_buffered f fs buf rest :
  stream (f :: fs) = buf ++ rest -> blen f.1 <= blen buf ->
  exists y, buf = f.1 ++ y /\ stream fs = y ++ rest.
Proof.
  unfold stream, blen. simpl. intros Hst Hlen. exists (drop (length f.1) buf).
  apply (f_equal (take (length f.1))) in Hst as Ht.
  rewrite take_app_length, take_app_le in Ht by lia.
  split; [by rewrite Ht at 1; rewrite take_drop|].
  apply (f_equal (drop (length f.1))) in Hst. rewrite drop_app_length, drop_app_le in Hst by lia. done.
Qed.

(** With the whole of the first frame buffered, it is the next message. *)
Lemma take_first c f fs cs :
  in_step c (f :: fs) cs -> blen f.1 <= blen (recv_buf c) ->
  exists m c', next_frame (IoErr := IoErr) c = Some (Ok m, c') /\ message_of f m /\ in_step c' fs cs.
Proof.
  intros [Hp Hok (rest & Hst & Hd) Hpf] Hlen. destruct f as [b fd]. simpl in Hlen.
  apply Forall_cons in Hok as [Hf Hok]. destruct (frame_ok_spec _ Hf) as (h & Hh & Hsz & H8 & Hmax & Hfd).
  simpl in Hh, Hsz, H8, Hfd. destruct c as [buf pend p po]. simpl in *. subst po.
  destruct (head_buffered (b, fd) fs buf rest Hst Hlen) as (y & -> & Hst').
  simpl in Hst'. clear Hst Hlen. simpl fst in *.
  unfold next_frame. simpl. rewrite blen_app, header_decode_prefix, Hh by done.
  pose proof (blen_nonneg y).
  rewrite (proj2 (Z.ltb_ge _ _)), Hsz by lia. rewrite (proj2 (Z.ltb_ge _ HEADER_LEN)) by lia.
  rewrite (proj2 (Z.ltb_ge MAX_FDS_PER_MESSAGE _)) by lia. rewrite (proj2 (Z.leb_le _ _)) by lia.
  unfold take_frame. simpl. rewrite Hfd.
  assert (Z.to_nat (blen b) = length b) as Hnat by (unfold blen; lia). rewrite Hnat.
  rewrite take_app_length, drop_app_length.
  assert (delivers (starts (p + blen b) fs) (p + blen b + blen y) rest cs) as Hd'.
  { rewrite blen_app, Z.add_assoc in Hd. eapply delivers_ext; [|exact Hd].
    intros u v Hu. simpl. rewrite List.filter_app. destruct fd as [f|]; [|done]. simpl.
    unfold within at 1. simpl. rewrite (proj2 (Z.leb_gt u p)) by (unfold HEADER_LEN in *; lia). done. }
  assert (forall pend', Forall2 spanned pend'
      (List.filter (before (p + blen b + blen y)) (starts (p + blen b) fs)) ->
    in_step {| recv_buf := y; pending_fds := pend'; consumed := p + blen b; poisoned := None |} fs cs
    /\ match pend' with front :: _ => span_end front <=? p + blen b = false | [] => True end) as Hfin.
  { intros pend' Hp'. split; [split; simpl; [done|done|by exists rest|done]|].
    destruct pend' as [|pf pend']; [done|]. apply Z.leb_gt.
    apply Forall2_cons_inv_l in Hp' as (x & l' & [Hsp _] & _ & Heq).
    assert (In x (List.filter (before (p + blen b + blen y)) (starts (p + blen b) fs))) as Hx
      by (rewrite Heq; by left).
    apply List.filter_In in Hx as [Hx%starts_bound _]. lia. }
  rewrite blen_app, Z.add_assoc, List.filter_app in Hpf. destruct fd as [f|]; simpl in Hpf |- *.
  - assert (before (p + blen b + blen y) (p, f) = true) as Hbf
      by (unfold before; simpl; apply Z.ltb_lt; unfold HEADER_LEN in *; lia).
    rewrite Hbf in Hpf. apply Forall2_cons_inv_r in Hpf as (pf & pend' & [Hsp Heq] & Hpf' & ->).
    simpl in Hsp, Heq.
    rewrite (proj2 (Z.leb_le _ _)) by lia. simpl.
    destruct (Hfin pend' Hpf') as [Hin Hfr].
    exists {| msg_header := h; msg_bytes := b; msg_fd := Some (pfd pf) |}.
    destruct pend' as [|front pend']; [|rewrite Hfr]; (eexists; split; [done|]; split; [|exact Hin]);
      (split; [done|split; [by simpl; rewrite Heq|done]]).
  - destruct (Hfin pend Hpf) as [Hin Hfr].
    exists {| msg_header := h; msg_bytes := b; msg_fd := None |}.
    destruct pend as [|front pend]; [|rewrite Hfr]; (eexists; split; [done|]; split; [|exact Hin]); done.
Qed.

(** With part of the first frame buffered, the loop reads on. *)
Lemma read_on c f fs cs :
  in_step c (f :: fs) cs -> blen (recv_buf c) < blen f.1 -> next_frame (IoErr := IoErr) c = None.
Proof.
  intros [Hp Hok (rest & Hst & _) _] Hlen. apply Forall_cons in Hok as [Hf _].
  destruct (frame_ok_spec _ Hf) as (h & Hh & Hsz & H8 & Hmax & _).
  unfold next_frame. destruct (Z.ltb_spec (blen (recv_buf c)) HEADER_LEN); [done|].
  assert (header_decode (recv_buf c) = Ok h) as ->.
  { unfold stream in Hst. simpl in Hst.
    assert (take (length (recv_buf c)) f.1 = recv_buf c) as Ht.
    { apply (f_equal (take (length (recv_buf c)))) in Hst.
      rewrite take_app_length, take_app_le in Hst by (unfold blen in *; lia). done. }
    rewrite <- Hh, <- (take_drop (length (recv_buf c)) f.1), Ht.
    by rewrite header_decode_prefix. }
  rewrite Hsz. rewrite (proj2 (Z.ltb_ge _ HEADER_LEN)) by lia.
  rewrite (proj2 (Z.ltb_ge MAX_FDS_PER_MESSAGE _)) by lia. by rewrite (proj2 (Z.leb_gt _ _)) by lia.
Qed.

Lemma push_one start finish (fds : list F) pend :
  (length fds <= 1)%nat -> (length pend <= 1)%nat ->
  push_fds start finish fds pend
  = (true, pend ++ List.map (fun fd => {| span_start := start; span_end := finish; pfd := fd |}) fds).
Proof.
  intros Hf Hp. destruct fds as [|fd [|]]; simpl in *; [by rewrite app_nil_r| |lia].
  unfold MAX_UNCLAIMED_FDS. by rewrite (proj2 (Z.leb_gt _ _)) by lia.
Qed.

(** A call of the kernel keeps a receiver that is mid-frame in step. *)
Lemma fill_in_step c f fs b fds cs :
  in_step c (f :: fs) ((b, fds) :: cs) -> blen (recv_buf c) < blen f.1 ->
  exists c', fill (IoErr := IoErr) c (RecvOk b fds false) = (Ok (blen b), c')
    /\ in_step c' (f :: fs) cs /\ blen b <> 0.
Proof.
  intros [Hp Hok (rest & Hst & Hb & Hl & Hfds & rest' & -> & Hd) Hpf] Hlen.
  destruct c as [buf pend p po]. simpl in *. subst po.
  assert (length pend <= 1)%nat as Hpl.
  { rewrite (Forall2_length _ _ _ Hpf). destruct f as [b0 fd0]. simpl in *.
    rewrite List.filter_app, filter_starts_before by lia. rewrite app_nil_r.
    destruct fd0; simpl; [destruct (before _ _)|]; simpl; lia. }
  unfold fill. simpl. rewrite push_one by done. eexists. split; [done|]. split; cycle 1.
  { unfold blen. destruct b; [done|simpl; lia]. }
  split; simpl; [done|done| |].
  - exists rest'. rewrite <- app_assoc. split; [done|]. by rewrite blen_app, Z.add_assoc.
  - pose proof (blen_nonneg b). rewrite blen_app, Z.add_assoc.
    change (match f with (b0, fd) =>
      (match fd with Some f0 => [(p, f0)] | None => [] end) ++ starts (p + blen b0) fs end)
      with (starts p (f :: fs)) in *.
    rewrite (filter_split p (f :: fs) (p + blen buf)) by lia.
    apply Forall2_app; [done|]. rewrite Hfds.
    assert (forall x, In x (List.filter (within (p + blen buf) (p + blen buf + blen b)) (starts p (f :: fs)))
              -> p + blen buf <= x.1 < p + blen buf + blen b) as Hin.
    { intros x [_ Hx]%List.filter_In. unfold within in Hx. unbool. lia. }
    revert Hin. clear. induction (List.filter _ _) as [|x l IH]; intros Hin; simpl; constructor.
    + split; [|done]. apply Hin. by left.
    + apply IH. intros y Hy. apply Hin. by right.
Qed.

Lemma recv_first c f fs cs :
  in_step c (f :: fs) cs ->
  exists m c' cs', recv_loop c (results cs) = (Ok (Some m), c', results cs')
    /\ message_of f m /\ in_step c' fs cs'.
Proof.
  revert c. induction cs as [|[b fds] cs IH]; intros c Hin.
  all: destruct (Z_lt_le_dec (blen (recv_buf c)) (blen f.1)) as [Hlt|Hge];
    [|destruct (take_first c f fs _ Hin Hge) as (m & c' & Hn & Hm & Hin');
      exists m, c'; eexists; split; [|split; [exact Hm|exact Hin']];
      unfold results; simpl; by rewrite Hn].
  - exfalso. destruct (st_stream _ _ _ Hin) as (rest & Hst & Hd). simpl in Hd. subst rest.
    unfold stream in Hst. simpl in Hst. apply (f_equal blen) in Hst.
    rewrite !blen_app in Hst. pose proof (blen_nonneg (List.concat (List.map fst fs))).
    unfold blen at 4 in Hst. simpl in Hst. lia.
  - destruct (fill_in_step c f fs b fds cs Hin Hlt) as (c1 & Hf & Hin1 & Hb).
    destruct (IH c1 Hin1) as (m & c' & cs' & Hr & Hm & Hin').
    exists m, c', cs'. split; [|done]. unfold results. cbn [List.map app recv_loop].
    rewrite (read_on c f fs _ Hin Hlt). cbn [fst snd]. rewrite Hf.
    rewrite (proj2 (Z.eqb_neq _ _)) by done. exact Hr.
Qed.

Lemma recv_last c cs :
  in_step c [] cs -> exists c', recv_loop c (results cs) = (Ok None, c', []).
Proof.
  intros [Hp _ (rest & Hst & Hd) Hpf]. unfold stream in Hst. simpl in Hst.
  symmetry in Hst. apply app_eq_nil in Hst as [Hb ->].
  destruct cs as [|[b fds] cs]; [|destruct Hd as (Hne & _ & _ & rest' & Heq & _);
    symmetry in Heq; apply app_eq_nil in Heq as [? _]; done].
  destruct c as [buf pend p po]. simpl in *. subst buf. eexists. reflexivity.
Qed.

Lemma recv_all_S n c rs :
  recv_all (F := F) (IoErr := IoErr) (S n) c rs =
  match recv_message c rs with
  | (Ok (Some m), c, rs) => let '(ms, r) := recv_all n c rs in (m :: ms, r)
  | (Ok None, _, _) => ([], Ok tt)
  | (Err e, _, _) => ([], Err e)
  end.
Proof. done. Qed.

Lemma recv_all_in_step fs c cs :
  in_step c fs cs ->
  exists ms, recv_all (S (length fs)) c (results cs) = (ms, Ok tt) /\ Forall2 message_of fs ms.
Proof.
  revert c cs. induction fs as [|f fs IH]; intros c cs Hin;
    rewrite recv_all_S; unfold recv_message; rewrite (st_poisoned _ _ _ Hin).
  - destruct (recv_last c cs Hin) as [c' ->]. by exists [].
  - destruct (recv_first c f fs cs Hin) as (m & c' & cs' & -> & Hm & Hin').
    destruct (IH c' cs' Hin') as (ms & Hr & Hms). exists (m :: ms).
    change (length (f :: fs)) with (S (length fs)). rewrite Hr. split; [done|]. by constructor.
Qed.
End compliant.

(* ------------------------------------------------------------------------ *)
(** ** Any peer *)

Section any_peer.
Context {F IoErr : Type}.
Implicit Types (c : Receiver F) (rs : list (RecvResult F IoErr)).

(** What the kernel handed over. *)
Definition arrived_bytes rs : Bytes :=
  List.concat (List.map (fun r => match r with RecvOk b _ _ => b | RecvErr _ => [] end) rs).
Definition arrived_fds rs : list F :=
  List.concat (List.map (fun r => match r with RecvOk _ fds _ => fds | RecvErr _ => [] end) rs).

Definition taken_bytes (ms : list (Message F)) : Bytes := List.concat (List.map msg_bytes ms).
Definition taken_fds (ms : list (Message F)) : list F :=
  List.concat (List.map (fun m => option_list (msg_fd m)) ms).
Definition waiting_fds c : list F := List.map pfd (pending_fds c).

(** A message is a whole frame, with a descriptor exactly when it declares one. *)
Definition message_ok (m : Message F) : Prop :=
  HEADER_LEN <= blen (msg_bytes m) /\ size (msg_header m) = blen (msg_bytes m)
  /\ (exists rest, header_decode (msg_bytes m ++ rest) = Ok (msg_header m))
  /\ (fd_count (msg_header m) =? 1) = bool_decide (is_Some (msg_fd m))
  /\ fd_count (msg_header m) <= 1.

Ltac violation := eexists; split; [done|split; [done|simpl; lia]].

Lemma next_frame_spec c :
  poisoned c = None ->
  match next_frame (IoErr := IoErr) c with
  | Some (Ok m, c') =>
      poisoned c' = None /\ recv_buf c = msg_bytes m ++ recv_buf c'
      /\ waiting_fds c = option_list (msg_fd m) ++ waiting_fds c' /\ message_ok m
      /\ (length (pending_fds c') <= length (pending_fds c))%nat
  | Some (Err e, c') => exists v, e = Violation v /\ poisoned c' = Some v
      /\ (length (pending_fds c') <= length (pending_fds c))%nat
  | None => True
  end.
Proof.
  intros Hp. unfold next_frame. destruct (Z.ltb_spec (blen (recv_buf c)) HEADER_LEN); [done|].
  destruct (header_decode (recv_buf c)) as [h|] eqn:Hh; [|done].
  destruct (Z.ltb_spec (size h) HEADER_LEN); [violation|].
  destruct (Z.ltb_spec MAX_FDS_PER_MESSAGE (fd_count h)) as [|Hmax]; [violation|].
  destruct (Z.leb_spec (size h) (blen (recv_buf c))); [|done].
  set (bytes := take (Z.to_nat (size h)) (recv_buf c)).
  assert (blen bytes = size h) as Hlen
    by (unfold bytes, blen in *; rewrite length_take; unfold HEADER_LEN in *; lia).
  assert (recv_buf c = bytes ++ drop (Z.to_nat (size h)) (recv_buf c)) as Hsplit
    by (unfold bytes; by rewrite take_drop).
  assert (forall fd, (fd_count h =? 1) = bool_decide (is_Some fd) ->
    message_ok {| msg_header := h; msg_bytes := bytes; msg_fd := fd |}) as Hmok.
  { intros fd Hfd. split; [simpl; lia|]. split; [done|]. split; [|by split].
    exists (drop (Z.to_nat (size h)) (recv_buf c)). simpl. by rewrite <- Hsplit. }
  unfold take_frame. fold bytes. simpl. destruct (fd_count h =? 1) eqn:Hfd.
  - destruct (pending_fds c) as [|pf pend] eqn:Hpend; simpl; [violation|].
    destruct (span_start pf <=? consumed c); simpl; [|violation].
    destruct pend as [|front pend]; simpl.
    + split; [done|split; [done|split; [by unfold waiting_fds; rewrite Hpend|]]].
      split; [by apply Hmok|lia].
    + destruct (span_end front <=? _); simpl; [violation|].
      split; [done|split; [done|split; [by unfold waiting_fds; rewrite Hpend|]]].
      split; [by apply Hmok|lia].
  - destruct (pending_fds c) as [|front pend] eqn:Hpend; simpl.
    + split; [done|split; [done|split; [by unfold waiting_fds; rewrite Hpend|]]].
      split; [by apply Hmok|lia].
    + destruct (span_end front <=? _); simpl; [violation|].
      split; [done|split; [done|split; [by unfold waiting_fds; rewrite Hpend|]]].
      split; [by apply Hmok|simpl; lia].
Qed.

Lemma push_fds_spec start finish (fds : list F) pend :
  Z.of_nat (length pend) <= MAX_UNCLAIMED_FDS ->
  let '(ok, pend') := push_fds start finish fds pend in
  Z.of_nat (length pend') <= MAX_UNCLAIMED_FDS
  /\ (ok = true -> List.map pfd pend' = List.map pfd pend ++ fds).
Proof.
  revert pend. induction fds as [|fd fds IH];
    intros pend Hl; simpl; [split; [done|by rewrite app_nil_r]|].
  destruct (Z.leb_spec MAX_UNCLAIMED_FDS (Z.of_nat (length pend))); [split; [done|by intros]|].
  specialize (IH (pend ++ [{| span_start := start; span_end := finish; pfd := fd |}])).
  rewrite List.length_app in IH. simpl in IH. specialize (IH ltac:(lia)).
  destruct (push_fds _ _ _ _) as [ok pend']. destruct IH as [? IH]. split; [done|].
  intros Hok. rewrite (IH Hok), List.map_app, <- app_assoc. done.
Qed.

(** The receiver accounts for everything that arrived. *)
Record accounts (ms : list (Message F)) c used : Prop := {
  ac_ok : Forall message_ok ms;
  ac_cap : Z.of_nat (length (pending_fds c)) <= MAX_UNCLAIMED_FDS;
  ac_bytes : exists tail, arrived_bytes used = taken_bytes ms ++ tail
               /\ (poisoned c = None -> tail = recv_buf c);
  ac_fds : exists tail, arrived_fds used = taken_fds ms ++ tail
               /\ (poisoned c = None -> tail = waiting_fds c) }.

Lemma arrived_app used rs :
  arrived_bytes (used ++ rs) = arrived_bytes used ++ arrived_bytes rs
  /\ arrived_fds (used ++ rs) = arrived_fds used ++ arrived_fds rs.
Proof. unfold arrived_bytes, arrived_fds. by rewrite !List.map_app, !List.concat_app. Qed.

Lemma fill_accounts ms c used r :
  accounts ms c used -> poisoned c = None ->
  let '(res, c') := fill c r in
  accounts ms c' (used ++ [r])
  /\ match res with
     | Ok _ => poisoned c' = None
     | Err (Violation v) => poisoned c' = Some v
     | Err _ => poisoned c' = None
     end.
Proof.
  intros [Hok Hcap (bt & Hb & Hbt) (ft & Hf & Hft)] Hp. specialize (Hbt Hp). specialize (Hft Hp).
  subst bt ft. destruct (arrived_app used [r]) as [Hab Haf].
  destruct r as [bytes fds ct|e]; simpl.
  - destruct ct; simpl.
    + split; [|done]. split; simpl; [done|done|rewrite Hab, Hb|rewrite Haf, Hf];
        (rewrite <- app_assoc; eexists; by split).
    + pose proof (push_fds_spec (consumed c + blen (recv_buf c))
        (consumed c + blen (recv_buf c) + blen bytes) fds (pending_fds c) Hcap) as Hpush.
      destruct (push_fds _ _ _ _) as [ok pend]. destruct Hpush as [Hcap' Hmap].
      destruct ok; simpl; (split; [|done]); (split; simpl; [done|done|rewrite Hab, Hb|rewrite Haf, Hf]);
        rewrite <- app_assoc; (eexists; split; [done|]); try done; intros _.
      * unfold arrived_bytes. simpl. by rewrite app_nil_r.
      * unfold arrived_fds, waiting_fds. simpl. by rewrite app_nil_r, Hmap.
  - split; [|done]. split; [done|done|rewrite Hab, Hb|rewrite Haf, Hf];
      unfold arrived_bytes, arrived_fds; simpl; rewrite app_nil_r; by eexists.
Qed.

Lemma recv_loop_accounts rs ms c used :
  accounts ms c used -> poisoned c = None ->
  let '(res, c', rs') := recv_loop c rs in
  exists got, rs = got ++ rs'
  /\ match res with
     | Ok (Some m) => accounts (ms ++ [m]) c' (used ++ got) /\ poisoned c' = None
     | Err (Violation v) => accounts ms c' (used ++ got) /\ poisoned c' = Some v
     | _ => accounts ms c' (used ++ got) /\ poisoned c' = None
     end.
Proof.
  revert c used. induction rs as [|r rs IH]; intros c used Hac Hp; cbn [recv_loop].
  all: pose proof (next_frame_spec c Hp) as Hn; destruct (next_frame c) as [[[m|e] c1]|].
  all: try (destruct Hn as (Hp1 & Hbuf & Hfd & Hm & Hl); exists []; split; [done|]; rewrite app_nil_r;
    split; [|done]; destruct Hac as [Hok Hcap (bt & Hb & Hbt) (ft & Hf & Hft)];
    specialize (Hbt Hp); specialize (Hft Hp); subst bt ft;
    split; [by apply Forall_app_2; [|constructor]|lia| |];
    (eexists; split; [|done]); unfold taken_bytes, taken_fds in *;
    rewrite List.map_app, List.concat_app; simpl; rewrite app_nil_r, <- app_assoc, ?Hb, ?Hf;
    by rewrite ?Hbuf, ?Hfd).
  all: try (destruct Hn as (v & -> & Hp1 & Hl); exists []; split; [done|]; rewrite app_nil_r;
    split; [|done]; destruct Hac as [Hok Hcap (bt & Hb & Hbt) (ft & Hf & Hft)];
    split; [done|lia|exists bt|exists ft]; (split; [done|]); rewrite Hp1; done).
  - exists []. split; [done|]. by rewrite app_nil_r.
  - pose proof (fill_accounts ms c used r Hac Hp) as Hfill.
    destruct (fill c r) as [[n|e] c1]; destruct Hfill as [Hac1 Hp1].
    + destruct (n =? 0).
      * destruct (blen (recv_buf c1) =? 0); exists [r]; done.
      * specialize (IH c1 (used ++ [r]) Hac1 Hp1). destruct (recv_loop c1 rs) as [[res c'] rs'].
        destruct IH as (got & -> & IH). exists (r :: got). split; [done|].
        by replace (used ++ r :: got) with ((used ++ [r]) ++ got) by (by rewrite <- app_assoc).
    + exists [r]. split; [done|]. by destruct e.
Qed.

(** A reader that keeps calling, whatever it is told. *)
Fixpoint recv_n (n : nat) c rs : list (Message F) * Receiver F * list (RecvResult F IoErr) :=
  match n with
  | O => ([], c, rs)
  | S n =>
      let '(r, c, rs) := recv_message c rs in
      let '(ms, c, rs) := recv_n n c rs in
      (match r with Ok (Some m) => m :: ms | _ => ms end, c, rs)
  end.

Lemma recv_n_accounts n ms c rs used :
  accounts ms c used ->
  let '(ms', c', rs') := recv_n n c rs in
  exists got, rs = got ++ rs' /\ accounts (ms ++ ms') c' (used ++ got)
    /\ (is_Some (poisoned c) -> ms' = [] /\ poisoned c' = poisoned c).
Proof.
  revert ms c rs used. induction n as [|n IH]; intros ms c rs used Hac; cbn [recv_n].
  { exists []. by rewrite !app_nil_r. }
  unfold recv_message. destruct (poisoned c) as [v|] eqn:Hp.
  - specialize (IH ms c rs used Hac). destruct (recv_n n c rs) as [[ms' c'] rs'].
    destruct IH as (got & ? & ? & Hpo). exists got. rewrite Hp in Hpo. auto.
  - pose proof (recv_loop_accounts rs ms c used Hac Hp) as Hl.
    destruct (recv_loop c rs) as [[r c1] rs1]. destruct Hl as (got1 & -> & Hr).
    assert (exists ms1, accounts (ms ++ ms1) c1 (used ++ got1)
      /\ ms1 = match r with Ok (Some m) => [m] | _ => [] end) as (ms1 & Hac1 & Hms1).
    { eexists. split; [|done]. destruct r as [[m|]|[]]; rewrite ?app_nil_r; apply Hr. }
    specialize (IH (ms ++ ms1) c1 rs1 (used ++ got1) Hac1). destruct (recv_n n c1 rs1) as [[ms' c'] rs'].
    destruct IH as (got2 & -> & Hac2 & _). exists (got1 ++ got2). split; [by rewrite app_assoc|].
    split; [|by intros [? ?]]. rewrite app_assoc.
    replace (ms ++ match r with Ok (Some m) => m :: ms' | _ => ms' end) with ((ms ++ ms1) ++ ms'); [done|].
    subst ms1. by destruct r as [[m|]|]; rewrite <- app_assoc.
Qed.
End any_peer.

(* ------------------------------------------------------------------------ *)
(** ** What the sender puts on the wire *)

Section sending.
Context {F IoErr : Type}.
Implicit Types (a b : list (Bytes * option F)) (s : Sender F IoErr) (rs : list (SendResult IoErr)).

(** Two ways to write one stream: the same bytes, with the same descriptors at
    the same offsets. *)
Definition same a b : Prop := stream a = stream b /\ forall p, starts p a = starts p b.

#[export] Instance same_equivalence : Equivalence same.
Proof.
  split; [by intros a|intros a b [Hs Hp]; split; [done|intros p; by rewrite Hp]|].
  intros a b c [Hab Hab'] [Hbc Hbc']. split; [by rewrite Hab|]. intros p. by rewrite Hab'.
Qed.

Lemma stream_app a b : stream (a ++ b) = stream a ++ stream b.
Proof. unfold stream. by rewrite List.map_app, List.concat_app. Qed.

Lemma starts_app p a b : starts p (a ++ b) = starts p a ++ starts (p + blen (stream a)) b.
Proof.
  revert p. induction a as [|[bs fd] a IH]; intros p; simpl.
  - by rewrite Z.add_0_r.
  - rewrite IH, <- app_assoc. unfold stream. simpl. by rewrite blen_app, Z.add_assoc.
Qed.

#[export] Instance same_app : Proper (same ==> same ==> same) app.
Proof.
  intros a a' [Ha Ha'] b b' [Hb Hb']. split; [by rewrite !stream_app, Ha, Hb|].
  intros p. by rewrite !starts_app, Ha', Ha, Hb'.
Qed.

#[export] Instance same_cons x : Proper (same ==> same) (cons x).
Proof. intros a b Hab. apply (same_app [x] [x]); [done|exact Hab]. Qed.

(** A frame sent in two parts, the descriptor on the first. *)
Lemma same_split bs fd n a :
  same ((bs, fd) :: a) ((take n bs, fd) :: (drop n bs, None) :: a).
Proof.
  split; [unfold stream; simpl; by rewrite app_assoc, take_drop|].
  intros p. simpl. f_equal. f_equal. unfold blen. rewrite length_take, length_drop. lia.
Qed.

Lemma same_nil a : same (([], None) :: a) a.
Proof. split; [done|]. intros p. simpl. by rewrite Z.add_0_r. Qed.

(** What the queue still owes the wire. *)
Definition piece (q : QueuedFrame) : Bytes * option F := (drop (q_offset q) (q_bytes q), q_fd q).
Definition owed s : list (Bytes * option F) := List.map piece (send_queue s).
Definition fds_of a : Z := Z.of_nat (length (starts 0 a)).

Record sender_wf s : Prop := {
  sw_bytes : queued_send_bytes s = blen (stream (owed s));
  sw_fds : queued_send_fds s = List.fold_right Z.add 0 (List.map (fun q => has_fd (q_fd q)) (send_queue s));
  sw_caps : queued_send_bytes s <= MAX_SEND_QUEUE_BYTES /\ queued_send_fds s <= MAX_SEND_QUEUE_FDS;
  sw_queue : Forall (fun q => (q_offset q < length (q_bytes q))%nat
                            /\ (is_Some (q_fd q) -> q_offset q = 0%nat)) (send_queue s) }.

Lemma offered_piece (s : Sender F IoErr) front queue :
  sender_wf s -> send_queue s = front :: queue ->
  match q_fd front with
  | Some _ => q_bytes front
  | None => drop (q_offset front) (q_bytes front)
  end = drop (q_offset front) (q_bytes front).
Proof.
  intros [_ _ _ Hq] Hs. rewrite Hs in Hq. apply Forall_cons in Hq as [[_ H0] _].
  destruct (q_fd front); [by rewrite H0|done].
Qed.

Lemma fds_of_owed s :
  List.fold_right Z.add 0 (List.map (fun q => has_fd (q_fd q)) (send_queue s)) = fds_of (owed s).
Proof.
  unfold fds_of, owed. generalize 0 at 2. induction (send_queue s) as [|q l IH]; intros p; [done|].
  simpl. rewrite (IH (p + blen (drop (q_offset q) (q_bytes q)))), List.length_app.
  unfold has_fd. destruct (q_fd q); simpl; lia.
Qed.

Lemma sender_new_wf : sender_wf sender_new.
Proof. split; simpl; done. Qed.

Lemma has_fd_nonneg (fd : option F) : 0 <= has_fd fd <= 1.
Proof. unfold has_fd. case_bool_decide; lia. Qed.

Definition roomy rs : Prop :=
  Forall (fun r => match r with SendRoom n => (1 <= n)%nat | SendErr _ => True end) rs.

Lemma roomy_tl rs : roomy rs -> roomy (List.tl rs).
Proof. intros H. destruct H; [constructor|done]. Qed.

(** One call's share of the front of the queue. *)
Lemma flush_front_wf s front queue n :
  sender_wf s -> send_queue s = front :: queue ->
  (n <= length (drop (q_offset front) (q_bytes front)))%nat ->
  let front' := {| q_bytes := q_bytes front; q_offset := (q_offset front + n)%nat; q_fd := None |} in
  let s' := {| send_queue := if (q_offset front' =? length (q_bytes front))%nat then queue
                             else front' :: queue;
               queued_send_bytes := queued_send_bytes s - Z.of_nat n;
               queued_send_fds := queued_send_fds s - has_fd (q_fd front);
               send_overflowed := send_overflowed s; send_poisoned := send_poisoned s |} in
  sender_wf s'
  /\ same ((take n (drop (q_offset front) (q_bytes front)), q_fd front) :: owed s') (owed s).
Proof.
  intros [Hb Hf Hc Hq] Hqu Hn front' s'. rewrite Hqu in *. apply Forall_cons in Hq as [Hq0 Hq].
  assert (same (owed s) ((take n (drop (q_offset front) (q_bytes front)), q_fd front) :: owed s')) as Hsame.
  { unfold owed, s'. rewrite Hqu. simpl.
    unfold piece at 1. etransitivity; [apply (same_split _ _ n)|]. apply same_cons.
    rewrite drop_drop. destruct (Nat.eqb_spec (q_offset front + n) (length (q_bytes front))) as [He|].
    - rewrite (drop_ge (q_bytes front)) by lia. apply same_nil.
    - done. }
  split; [|by symmetry]. pose proof (has_fd_nonneg (q_fd front)).
  assert (List.fold_right Z.add 0 (List.map (fun q : QueuedFrame => has_fd (q_fd q)) (send_queue s'))
          = List.fold_right Z.add 0 (List.map (fun q : QueuedFrame => has_fd (q_fd q)) queue)) as Hfd
    by (unfold s'; simpl; by destruct (_ =? _)%nat).
  simpl in Hf. split.
  - destruct Hsame as [Hst _].
    change (queued_send_bytes s - Z.of_nat n = blen (stream (owed s'))). rewrite Hb, Hst.
    change (stream ((?x, ?f) :: owed s')) with (x ++ stream (owed s')).
    rewrite blen_app. unfold blen at 1. rewrite length_take. lia.
  - rewrite Hfd. simpl. lia.
  - simpl. lia.
  - unfold s'. simpl. destruct (Nat.eqb_spec (q_offset front + n) (length (q_bytes front))); [done|].
    constructor; [|done]. simpl. rewrite length_drop in Hn. split; [lia|by intros [? ?]].
Qed.

Lemma flush_spec rs s :
  sender_wf s -> roomy rs ->
  let '(r, s', rs', out) := flush_send_queue s rs in
  sender_wf s' /\ roomy rs' /\ same (out ++ owed s') (owed s)
  /\ (Prelude.is_ok r = true -> send_poisoned s' = send_poisoned s)
  /\ (Prelude.is_ok r = false -> is_Some (send_poisoned s'))
  /\ send_overflowed s' = send_overflowed s.
Proof.
  revert s. induction rs as [|r rs IH]; intros s Hwf Hr; cbn [flush_send_queue];
    (destruct (send_queue s) as [|front queue] eqn:Hq; [done|]).
  - done.
  - apply Forall_cons in Hr as [Hroom Hr]. destruct r as [room|[| |e]]; simpl; cycle 1;
      [done|destruct Hwf; (split; [by split|]); (split; [done|]); split; [done|]; split; [done|]; eauto..|].
    rewrite (offered_piece s front queue Hwf Hq).
    set (n := Nat.min room (length (drop (q_offset front) (q_bytes front)))).
    assert (1 <= n)%nat as Hn.
    { pose proof (sw_queue _ Hwf) as Hqs. rewrite Hq in Hqs. apply Forall_cons in Hqs as [[? _] _].
      unfold n. rewrite length_drop. lia. }
    destruct (Nat.eqb_spec n 0); [lia|].
    destruct (flush_front_wf s front queue n Hwf Hq ltac:(unfold n; lia)) as [Hwf1 Hsame].
    specialize (IH _ Hwf1 Hr). simpl in IH.
    destruct (flush_send_queue _ rs) as [[[r s'] rs'] out]. destruct IH as (? & ? & Hs & ? & ? & ?).
    split; [done|split; [done|split; [|done]]]. simpl.
    etransitivity; [apply same_cons, Hs|exact Hsame].
Qed.

Lemma park_spec s bytes fd :
  sender_wf s -> bytes <> [] ->
  let '(r, s') := park s bytes fd in
  sender_wf s' /\ send_poisoned s' = send_poisoned s
  /\ (if Prelude.is_ok r then same (owed s') (owed s ++ [(bytes, fd)]) else owed s' = owed s).
Proof.
  intros [Hb Hf Hc Hq] Hne. unfold park.
  destruct (Z.ltb_spec MAX_SEND_QUEUE_BYTES (queued_send_bytes s + blen bytes));
    [split; [by split|done]|].
  destruct (Z.ltb_spec MAX_SEND_QUEUE_FDS (queued_send_fds s + has_fd fd)); [split; [by split|done]|].
  simpl. assert (owed {| send_queue := send_queue s ++ [{| q_bytes := bytes; q_offset := 0; q_fd := fd |}];
      queued_send_bytes := queued_send_bytes s + blen bytes;
      queued_send_fds := queued_send_fds s + has_fd fd;
      send_overflowed := send_overflowed s; send_poisoned := send_poisoned s |}
    = owed s ++ [(bytes, fd)]) as Ho by (unfold owed; simpl; by rewrite List.map_app).
  split; [|split; [done|by rewrite Ho]]. split.
  - rewrite Ho, stream_app, blen_app, <- Hb. unfold stream. simpl. by rewrite app_nil_r.
  - simpl. rewrite List.map_app, List.fold_right_app. simpl. rewrite Z.add_0_r, Hf.
    clear. induction (send_queue s) as [|q l IH]; simpl; lia.
  - simpl. lia.
  - simpl. apply Forall_app. split; [done|]. constructor; [|done]. simpl. split; [destruct bytes; [done|simpl; lia]|done].
Qed.

Lemma send_rest_spec rs rest s :
  roomy rs ->
  let '(r, s', rs', out) := send_rest s rest rs in
  roomy rs' /\ match r with
     | Ok unsent => s' = s /\ (length unsent <= length rest)%nat
                    /\ same (out ++ [(unsent, None)]) [(rest, None)]
     | Err _ => is_Some (send_poisoned s') /\ s' = (poison_send s (default WriteZero (send_poisoned s'))).2
     end.
Proof.
  revert rest. induction rs as [|r rs IH]; intros rest Hr; cbn [send_rest];
    (destruct rest as [|x rest]; [done|]); [done|].
  apply Forall_cons in Hr as [Hroom Hr]. destruct r as [room|[| |e]]; simpl; cycle 1;
    [done|split; [done|eauto]..|].
  destruct (Nat.eqb_spec (Nat.min room (S (length rest))) 0) as [|_]; [lia|].
  set (n := Nat.min room (S (length rest))). specialize (IH (drop n (x :: rest)) Hr).
  destruct (send_rest s (drop n (x :: rest)) rs) as [[[r s'] rs'] out]. destruct IH as [? IH].
  split; [done|]. destruct r as [unsent|]; [|done]. destruct IH as (-> & Hl & Hs).
  rewrite length_drop in Hl. simpl in Hl. split; [done|split; [lia|]]. simpl.
  etransitivity; [apply same_cons, Hs|]. symmetry. apply same_split.
Qed.

Lemma try_send_now_spec rs frame fd s :
  roomy rs -> frame <> [] ->
  let '(r, s', rs', out) := try_send_now s frame fd rs in
  roomy rs' /\ match r with
     | Ok unsent => s' = s /\
         ((unsent = frame /\ out = [])
          \/ ((length unsent < length frame)%nat /\ same (out ++ [(unsent, None)]) [(frame, fd)]))
     | Err _ => is_Some (send_poisoned s') /\ s' = (poison_send s (default WriteZero (send_poisoned s'))).2
     end.
Proof.
  intros Hr Hne. destruct rs as [|r rs]; cbn [try_send_now]; [split; [done|auto]|].
  apply Forall_cons in Hr as [Hroom Hr]. destruct r as [room|[| |e]]; cycle 1;
    [split; [done|auto]|split; [done|simpl; eauto]..|].
  assert (1 <= length frame)%nat by (destruct frame; [done|simpl; lia]).
  set (n := Nat.min room (length frame)).
  pose proof (send_rest_spec rs (drop n frame) s Hr) as Hs.
  destruct (send_rest s (drop n frame) rs) as [[[r s'] rs'] out]. destruct Hs as [? Hs].
  split; [done|]. destruct r as [unsent|]; [|done]. destruct Hs as (-> & Hl & Hs).
  rewrite length_drop in Hl. split; [done|right]. split; [unfold n in *; lia|]. simpl.
  etransitivity; [apply same_cons, Hs|]. symmetry. apply same_split.
Qed.

Lemma validate_len frame (fd : option F) :
  is_bytes frame -> validate_outgoing frame fd = Ok tt ->
  HEADER_LEN <= blen frame <= MAX_MESSAGE_SIZE.
Proof.
  intros Hbs Hv. destruct (frame_ok_spec (frame, fd) Hv) as (h & Hd & Hsz & H8 & _). simpl in *.
  split; [done|]. unfold header_decode in Hd. destruct (_ <? _); [done|]. simplify_eq. simpl in Hsz.
  rewrite <- Hsz. pose proof (from_le_bound _ (slice_u8 frame 4 6 Hbs)) as Hb.
  unfold HEADER_LEN in *. rewrite blen_slice in Hb by lia. unfold MAX_MESSAGE_SIZE. simpl in Hb. lia.
Qed.

Definition accepted (r : result unit (TransportError IoErr)) (frame : Bytes) (fd : option F)
    : list (Bytes * option F) := if Prelude.is_ok r then [(frame, fd)] else [].

(** The end of [send_or_queue], once the queue is empty or blocked. *)
Lemma park_accepted s frame fd out base :
  sender_wf s -> frame <> [] -> same (out ++ owed s) base ->
  let '(r, s') := park s frame fd in
  sender_wf s' /\ send_poisoned s' = send_poisoned s
  /\ same (out ++ owed s') (base ++ accepted r frame fd).
Proof.
  intros Hwf Hne Hs. pose proof (park_spec s frame fd Hwf Hne) as Hp.
  destruct (park s frame fd) as [r s']. destruct Hp as (? & ? & Ho). split; [done|split; [done|]].
  unfold accepted. destruct (Prelude.is_ok r).
  - by rewrite Ho, app_assoc, Hs.
  - by rewrite Ho, app_nil_r.
Qed.

(** The first part of a frame was sent: parking the rest cannot fail. *)
Lemma park_partial s frame unsent fd out :
  sender_wf s -> send_queue s = [] -> blen frame <= MAX_MESSAGE_SIZE -> unsent <> [] ->
  (length unsent < length frame)%nat -> same (out ++ [(unsent, None)]) [(frame, fd)] ->
  let '(r, s') := park s unsent None in
  sender_wf s' /\ send_poisoned s' = send_poisoned s
  /\ same (out ++ owed s') (owed s ++ accepted r frame fd).
Proof.
  intros Hwf Hq Hlen Hne Hlt Hs. pose proof (park_spec s unsent None Hwf Hne) as Hp.
  assert (Prelude.is_ok (park s unsent None).1 = true) as Hok.
  { unfold park. pose proof (sw_bytes _ Hwf) as Hb. pose proof (sw_fds _ Hwf) as Hf.
    unfold owed in Hb. rewrite Hq in Hb, Hf. unfold stream in Hb. simpl in Hb, Hf.
    unfold blen in *. simpl in Hb. unfold MAX_MESSAGE_SIZE, MAX_SEND_QUEUE_BYTES, MAX_SEND_QUEUE_FDS in *.
    rewrite Hb, Hf. rewrite (proj2 (Z.ltb_ge _ _)) by lia.
    rewrite (proj2 (Z.ltb_ge 16 _)) by (unfold has_fd; simpl; lia). done. }
  destruct (park s unsent None) as [r s']. simpl in Hok. rewrite Hok in Hp.
  destruct Hp as (? & ? & Ho). split; [done|split; [done|]]. unfold accepted. rewrite Hok, Ho.
  assert (owed s = []) as -> by (unfold owed; by rewrite Hq). exact Hs.
Qed.

(** The step's contract: the wire and the queue gain exactly what was accepted. *)
Definition sends s rs (out : Sent) s' rs' (acc : list (Bytes * option F)) : Prop :=
  sender_wf s' /\ roomy rs'
  /\ (send_poisoned s' = None -> send_poisoned s = None /\ same (out ++ owed s') (owed s ++ acc)).

(** Sending on an empty queue, the second half of [send_or_queue]. *)
Lemma send_on_empty dup s frame (fd : option F) rs :
  sender_wf s -> roomy rs -> send_queue s = [] -> send_poisoned s = None ->
  HEADER_LEN <= blen frame <= MAX_MESSAGE_SIZE ->
  let '(r, s', rs', out) := try_send_now s frame fd rs in
  match r with
  | Err e => sends s rs out s' rs' (accepted (Err e) frame fd)
  | Ok [] => sends s rs out s' rs' (accepted (Ok tt) frame fd)
  | Ok unsent =>
      match (if (length unsent =? length frame)%nat then clone_fd dup fd else Ok None) with
      | Err e => sends s rs out s' rs' (accepted (Err e) frame fd)
      | Ok fd' => let '(r, s'') := park s' unsent fd' in sends s rs out s'' rs' (accepted r frame fd)
      end
  end.
Proof.
  intros Hwf Hr Hq Hp Hlen.
  assert (frame <> []) as Hne by (intros ->; unfold blen, HEADER_LEN in *; simpl in *; lia).
  pose proof (try_send_now_spec rs frame fd s Hr Hne) as Ht.
  destruct (try_send_now s frame fd rs) as [[[r s'] rs'] out]. destruct Ht as [Hr' Ht].
  assert (owed s = []) as Howed by (unfold owed; by rewrite Hq).
  destruct r as [unsent|e]; cycle 1.
  { destruct Ht as [[e' He'] Hs']. split; [|split; [done|congruence]].
    rewrite Hs'. destruct Hwf. by split. }
  destruct Ht as (-> & [[-> ->]|[Hlt Hs]]).
  - destruct frame as [|x frame0] eqn:Hframe; [done|]. rewrite <- Hframe in *. clear Hframe x frame0.
    rewrite Nat.eqb_refl. unfold clone_fd. destruct fd as [f|].
    + destruct (dup f) as [[]|e].
      * pose proof (park_accepted s frame (Some f) [] (owed s) Hwf Hne ltac:(done)) as Hpa.
        destruct (park s frame (Some f)) as [r s']. by destruct Hpa as (? & ? & ?).
      * split; [done|split; [done|]]. intros _. unfold accepted. simpl. by rewrite app_nil_r.
    + pose proof (park_accepted s frame None [] (owed s) Hwf Hne ltac:(done)) as Hpa.
      destruct (park s frame None) as [r s']. by destruct Hpa as (? & ? & ?).
  - destruct unsent as [|x unsent0] eqn:Hu.
    + split; [done|split; [done|]]. intros _. split; [done|]. unfold accepted. simpl.
      rewrite Howed, app_nil_r. simpl. rewrite <- Hs. rewrite <- (app_nil_r out) at 1.
      apply same_app; [done|]. symmetry. apply same_nil.
    + rewrite <- Hu in *. destruct (Nat.eqb_spec (length unsent) (length frame)); [lia|].
      pose proof (park_partial s frame unsent fd out Hwf Hq ltac:(lia) ltac:(by rewrite Hu) Hlt Hs) as Hpa.
      destruct (park s unsent None) as [r s']. by destruct Hpa as (? & ? & ?).
Qed.
Lemma sends_nothing s rs r frame (fd : option F) :
  sender_wf s -> roomy rs -> Prelude.is_ok r = false -> sends s rs [] s rs (accepted r frame fd).
Proof.
  intros ? ? Hr. split; [done|split; [done|]]. intros Hp. split; [done|].
  unfold accepted. by rewrite Hr, app_nil_r.
Qed.

Lemma sends_trans s rs out s1 rs1 out2 s2 rs2 acc :
  sends s rs out s1 rs1 [] -> sends s1 rs1 out2 s2 rs2 acc ->
  sends s rs (out ++ out2) s2 rs2 acc.
Proof.
  intros (_ & _ & H1) (Hwf & Hr & H2). split; [done|split; [done|]]. intros Hp.
  destruct (H2 Hp) as [Hp1 Hs2]. destruct (H1 Hp1) as [Hp0 Hs1]. split; [done|].
  rewrite app_nil_r in Hs1. by rewrite <- app_assoc, Hs2, app_assoc, Hs1.
Qed.

Lemma flush_sends s rs :
  sender_wf s -> roomy rs ->
  let '(r, s', rs', out) := flush_send_queue s rs in sends s rs out s' rs' [].
Proof.
  intros Hwf Hr. pose proof (flush_spec rs s Hwf Hr) as Hf.
  destruct (flush_send_queue s rs) as [[[r s'] rs'] out].
  destruct Hf as (? & ? & Hs & Hok & Herr & _). split; [done|split; [done|]]. intros Hp.
  destruct (Prelude.is_ok r); [|destruct (Herr eq_refl); congruence].
  rewrite <- (Hok eq_refl), app_nil_r. done.
Qed.

(** After a flush that left the socket open, the frame is sent or parked. *)
Lemma send_or_park_sends dup s rs out1 s1 rs1 frame (fd : option F) :
  sends s rs out1 s1 rs1 [] -> send_poisoned s1 = None ->
  HEADER_LEN <= blen frame <= MAX_MESSAGE_SIZE ->
  let '(r, s', rs', out) :=
    match send_queue s1 with
    | [] =>
        let '(r, s, rs, out2) := try_send_now s1 frame fd rs1 in
        match r with
        | Err e => (Err e, s, rs, out1 ++ out2)
        | Ok [] => (Ok tt, s, rs, out1 ++ out2)
        | Ok unsent => park_frame s rs (out1 ++ out2) unsent
                         (if (length unsent =? length frame)%nat then clone_fd dup fd else Ok None)
        end
    | _ => park_frame s1 rs1 out1 frame (clone_fd dup fd)
    end in
  sends s rs out s' rs' (accepted r frame fd).
Proof.
  intros H1 Hp Hlen. pose proof H1 as (Hwf & Hr & H1s). destruct (send_queue s1) as [|q qs] eqn:Hq.
  - pose proof (send_on_empty dup s1 frame fd rs1 Hwf Hr Hq Hp Hlen) as He.
    destruct (try_send_now s1 frame fd rs1) as [[[r s2] rs2] out2].
    destruct r as [[|x unsent]|e]; [by eapply sends_trans..| |by eapply sends_trans].
    destruct (if (length (x :: unsent) =? length frame)%nat then _ else _) as [fd'|e];
      simpl; [|by eapply sends_trans].
    destruct (park s2 (x :: unsent) fd') as [r s3]. by eapply sends_trans.
  - assert (frame <> []) as Hne by (intros ->; unfold blen, HEADER_LEN in *; simpl in *; lia).
    unfold park_frame. destruct (clone_fd dup fd) as [fd'|e] eqn:Hc.
    + assert (fd' = fd) as -> by (unfold clone_fd in Hc; destruct fd; [destruct (dup f)|]; by simplify_eq).
      destruct (H1s Hp) as [Hp0 Hs]. rewrite app_nil_r in Hs.
      pose proof (park_accepted s1 frame fd out1 (owed s) Hwf Hne Hs) as Hpa.
      destruct (park s1 frame fd) as [r s']. by destruct Hpa as (? & ? & ?).
    + done.
Qed.

Lemma send_or_queue_spec dup s frame (fd : option F) rs :
  is_bytes frame -> sender_wf s -> roomy rs ->
  let '(r, s', rs', out) := send_or_queue dup s frame fd rs in
  sends s rs out s' rs' (accepted r frame fd).
Proof.
  intros Hbs Hwf Hr. unfold send_or_queue.
  destruct (validate_outgoing frame fd) as [[]|m] eqn:Hv; [|by apply sends_nothing].
  pose proof (validate_len frame fd Hbs Hv) as Hlen.
  destruct (send_overflowed s); [by apply sends_nothing|].
  destruct (send_poisoned s) as [e|] eqn:Hp; [by apply sends_nothing|].
  destruct (send_queue s) as [|q qs] eqn:Hq.
  - pose proof (send_or_park_sends dup s rs [] s rs frame fd) as H. rewrite Hq in H.
    rewrite Hq. apply H; [|done|done]. split; [done|split; [done|]]. intros _. split; [done|]. by rewrite app_nil_r.
  - pose proof (flush_sends s rs Hwf Hr) as Hf. pose proof (flush_spec rs s Hwf Hr) as Hfs.
    destruct (flush_send_queue s rs) as [[[[[]|e] s1] rs1] out1]; [|done].
    destruct Hfs as (_ & _ & _ & Hok & _). rewrite Hp in Hok.
    by apply send_or_park_sends; [|apply Hok|].
Qed.

(** A blocking send that succeeds put exactly its frame on the wire; one that was
    misused put nothing. *)
Lemma send_all_spec rs (rest : Bytes) :
  let '(r, out) := send_all (F := F) (IoErr := IoErr) rest rs in
  r = Some (Ok tt) -> same out [(rest, None)].
Proof.
  revert rest. induction rs as [|r rs IH]; intros rest; cbn [send_all];
    (destruct rest as [|x rest]; [intros _; symmetry; apply same_nil|]); [done|].
  destruct r as [room|e]; [|done].
  destruct (Nat.min room (length (x :: rest)) =? 0)%nat; [done|].
  set (n := Nat.min room (length (x :: rest))). specialize (IH (drop n (x :: rest))).
  destruct (send_all (drop n (x :: rest)) rs) as [r out]. intros Hr. specialize (IH Hr).
  etransitivity; [apply same_cons, IH|]. symmetry. apply same_split.
Qed.

Lemma send_message_spec frame (fd : option F) rs :
  let '(r, out) := send_message (IoErr := IoErr) frame fd rs in
  (r = Some (Ok tt) -> validate_outgoing frame fd = Ok tt /\ same out [(frame, fd)])
  /\ (forall m, validate_outgoing frame fd = Err m -> r = Some (Err (Misuse m)) /\ out = []).
Proof.
  unfold send_message. destruct (validate_outgoing frame fd) as [[]|m] eqn:Hv;
    [|split; [done|intros m' Hm; by simplify_eq]].
  destruct rs as [|[room|e] rs]; [done| |done].
  set (n := Nat.min room (length frame)). pose proof (send_all_spec rs (drop n frame)) as Hs.
  destruct (send_all (drop n frame) rs) as [r out]. split; [|done].
  intros Hr. split; [done|]. etransitivity; [apply same_cons, (Hs Hr)|]. symmetry. apply same_split.
Qed.

(** A sender's life: frames submitted, and flushes when the socket is writable. *)
Inductive SendOp : Type :=
| Submit (frame : Bytes) (fd : option F) (dup : F -> result unit (IoError IoErr))
| Flush.

Definition send_step s rs (op : SendOp)
    : list (Bytes * option F) * Sender F IoErr * list (SendResult IoErr) * Sent :=
  match op with
  | Submit frame fd dup =>
      let '(r, s, rs, out) := send_or_queue dup s frame fd rs in (accepted r frame fd, s, rs, out)
  | Flush => let '(_, s, rs, out) := flush_send_queue s rs in ([], s, rs, out)
  end.

(** The frames accepted, and what reached the wire. *)
Fixpoint send_run s rs (ops : list SendOp)
    : list (Bytes * option F) * Sender F IoErr * list (SendResult IoErr) * Sent :=
  match ops with
  | [] => ([], s, rs, [])
  | op :: ops =>
      let '(acc, s, rs, out) := send_step s rs op in
      let '(acc', s, rs, out') := send_run s rs ops in
      (acc ++ acc', s, rs, out ++ out')
  end.

Definition op_bytes (op : SendOp) : Prop :=
  match op with Submit frame _ _ => is_bytes frame | Flush => True end.

Lemma send_run_sends ops s rs :
  Forall op_bytes ops -> sender_wf s -> roomy rs ->
  let '(acc, s', rs', out) := send_run s rs ops in sends s rs out s' rs' acc.
Proof.
  revert s rs. induction ops as [|op ops IH]; intros s rs Hops Hwf Hr; cbn [send_run].
  { split; [done|split; [done|]]. intros Hp. split; [done|]. by rewrite app_nil_r. }
  apply Forall_cons in Hops as [Hop Hops].
  assert (let '(acc, s', rs', out) := send_step s rs op in sends s rs out s' rs' acc) as Hstep.
  { destruct op as [frame fd dup|]; simpl.
    - pose proof (send_or_queue_spec dup s frame fd rs Hop Hwf Hr) as H.
      by destruct (send_or_queue dup s frame fd rs) as [[[r s'] rs'] out].
    - pose proof (flush_sends s rs Hwf Hr) as H.
      by destruct (flush_send_queue s rs) as [[[r s'] rs'] out]. }
  destruct (send_step s rs op) as [[[acc s1] rs1] out]. destruct Hstep as (Hwf1 & Hr1 & H1).
  specialize (IH s1 rs1 Hops Hwf1 Hr1). destruct (send_run s1 rs1 ops) as [[[acc' s2] rs2] out'].
  destruct IH as (? & ? & H2). split; [done|split; [done|]]. intros Hp.
  destruct (H2 Hp) as [Hp1 Hs2]. destruct (H1 Hp1) as [Hp0 Hs1]. split; [done|].
  by rewrite <- app_assoc, Hs2, app_assoc, Hs1, <- app_assoc.
Qed.
End sending.

(* ------------------------------------------------------------------------ *)
(** ** Properties *)

(** C31: framing and descriptor matching are exact. Whatever frames a peer sends
    that pass the sender's own validation, and however the kernel cuts their
    bytes into calls, as long as each descriptor arrives with the call that
    covers its frame's first byte and no call carries two, a reader gets those
    very frames, in order, each with its own descriptor or with none as it
    declared, and then a clean end of stream: no violation, no byte lost, no
    descriptor shifted to another frame. *)
Theorem ipc_receive_exact {F IoErr : Type} (fs : list (Bytes * option F))
  (cs : list (Bytes * list F))
  (Hok : Forall frame_ok fs) (Hkernel : delivers (starts 0 fs) 0 (stream fs) cs) :
  exists ms, recv_all (IoErr := IoErr) (S (length fs)) receiver_new (results cs) = (ms, Ok tt)
    /\ Forall2 message_of fs ms.
Proof. apply recv_all_in_step. by apply in_step_new. Qed.

Definition two_frames : list (Bytes * option Z) :=
  [([1; 0; 0; 0; 8; 0; 0; 1], Some 7); ([2; 0; 0; 0; 9; 0; 5; 0; 42], None)].

(** Two frames cut inside the first one's header. *)
Lemma ipc_receive_exact_witness :
  exists ms, recv_all (IoErr := unit) 3 receiver_new
      (results [([1; 0; 0], [7]); ([0; 8; 0; 0; 1; 2; 0; 0; 0; 9; 0; 5; 0; 42], [])]) = (ms, Ok tt)
    /\ Forall2 message_of two_frames ms.
Proof.
  apply (ipc_receive_exact two_frames).
  - unfold two_frames. repeat constructor.
  - unfold two_frames. simpl. split; [done|split; [lia|split; [done|]]].
    eexists. split; [reflexivity|]. split; [done|split; [lia|split; [done|]]].
    exists []. done.
Defined.

(** Against a peer that sends anything at all, the receiver is exact or
    poisoned. Whatever the kernel hands over, in whatever pieces, and however
    often the reader calls: every message is one whole frame as its own header
    declares it, with a descriptor exactly when the header says so; the bytes and
    the descriptors that arrived are those of the messages, in order, then what
    is still buffered, so none is invented, lost, reordered or given twice; no
    more than eight descriptors wait; and once a violation is found the
    connection gives nothing more, reads nothing more and stays as it is. *)
Theorem ipc_receive_hostile {F IoErr : Type} (n : nat) (rs : list (RecvResult F IoErr)) :
  let '(ms, c, rest) := recv_n n receiver_new rs in
  (exists used, rs = used ++ rest
    /\ (exists tail, arrived_bytes used = taken_bytes ms ++ tail
          /\ (poisoned c = None -> tail = recv_buf c))
    /\ exists tail, arrived_fds used = taken_fds ms ++ tail
          /\ (poisoned c = None -> tail = waiting_fds c))
  /\ Forall message_ok ms
  /\ Z.of_nat (length (pending_fds c)) <= 8
  /\ (is_Some (poisoned c) -> forall k more, recv_n (IoErr := IoErr) k c more = ([], c, more)).
Proof.
  assert (accounts (F := F) (IoErr := IoErr) [] receiver_new []) as H0
    by (split; [constructor|simpl; unfold MAX_UNCLAIMED_FDS; lia|by exists []..]).
  pose proof (recv_n_accounts n [] receiver_new rs [] H0) as H.
  destruct (recv_n n receiver_new rs) as [[ms c] rest]. destruct H as (used & -> & [] & _).
  split; [by exists used|]. split; [done|]. split; [done|].
  intros [v Hv] k more. induction k as [|k IH]; [done|].
  cbn [recv_n]. unfold recv_message. rewrite Hv, IH. done.
Qed.

(** Sending is exact and bounded. Whatever frames are submitted, with or
    without a descriptor that may or may not be duplicated, whenever the queue is
    flushed and however much of each call the socket takes (a call takes a byte
    or fails): the queue never holds more than 256 KiB and 16 descriptors, its
    two counters are exactly what it holds, and while the sending side is not
    poisoned the bytes on the wire followed by those queued are the accepted
    frames in order, each with its descriptor once and on its first byte;
    nothing of a refused frame is among them. *)
Theorem ipc_send_exact {F IoErr : Type} (ops : list (SendOp (F := F) (IoErr := IoErr)))
  (rs : list (SendResult IoErr)) (Hbytes : Forall op_bytes ops) (Hkernel : roomy rs) :
  let '(acc, s, _, out) := send_run sender_new rs ops in
  queued_send_bytes s = blen (stream (owed s)) /\ queued_send_bytes s <= 256 * 1024
  /\ queued_send_fds s = fds_of (owed s) /\ queued_send_fds s <= 16
  /\ (send_poisoned s = None ->
      stream out ++ stream (owed s) = stream acc
      /\ starts 0 out ++ starts (blen (stream out)) (owed s) = starts 0 acc).
Proof.
  pose proof (send_run_sends ops sender_new rs Hbytes sender_new_wf Hkernel) as H.
  destruct (send_run sender_new rs ops) as [[[acc s] rs'] out]. destruct H as (Hwf & _ & Hs).
  pose proof Hwf as [Hb Hf [Hcb Hcf] _]. split; [done|split; [done|split; [|split; [done|]]]].
  - rewrite Hf. apply fds_of_owed.
  - intros Hp. destruct (Hs Hp) as [_ [Hst Hsp]]. specialize (Hsp 0).
    rewrite starts_app in Hsp. rewrite stream_app in Hst. done.
Qed.

(** A frame with a descriptor is parked on a full socket, the next one behind
    it; the socket then takes three bytes, and then the rest. *)
Lemma ipc_send_exact_witness :
  let ops := [Submit [1; 0; 0; 0; 8; 0; 0; 1] (Some 7) (fun _ => Ok tt);
              Submit [2; 0; 0; 0; 8; 0; 5; 0] None (fun _ => Ok tt); Flush] in
  let rs := [SendErr WouldBlock; SendRoom 3; SendErr WouldBlock; SendRoom 100; SendRoom 100] in
  (let '(acc, s, _, out) := send_run (F := Z) (IoErr := unit) sender_new rs ops in
   out = [([1; 0; 0], Some 7); ([0; 8; 0; 0; 1], None); ([2; 0; 0; 0; 8; 0; 5; 0], None)]
   /\ send_queue s = [] /\ send_poisoned s = None)
  /\ let '(acc, s, _, out) := send_run (F := Z) (IoErr := unit) sender_new rs ops in
     queued_send_bytes s = blen (stream (owed s)) /\ queued_send_bytes s <= 256 * 1024
     /\ queued_send_fds s = fds_of (owed s) /\ queued_send_fds s <= 16
     /\ (send_poisoned s = None ->
         stream out ++ stream (owed s) = stream acc
         /\ starts 0 out ++ starts (blen (stream out)) (owed s) = starts 0 acc).
Proof.
  intros ops rs. split; [by vm_compute|]. apply (ipc_send_exact ops rs).
  - unfold ops, op_bytes, is_bytes, is_u8, u8_max. repeat (apply List.Forall_cons || apply List.Forall_nil); try done; try lia.
  - unfold rs, roomy. repeat (apply List.Forall_cons || apply List.Forall_nil); try done; lia.
Defined.
