(* ===== verification/Principal.v ===== *)
(** * The principal connection

    [crates/vitrin-core/src/principal.rs]: one [PrincipalServer] per accepted
    connection. Its phases (connected, bound, dead), its table of objects under
    one watermark, the dispatch of every request, the funnel that turns a fault
    into one goodbye and death, the delivery of resolutions and the teardown.
    Handlers run in a state and error monad over what the code threads through
    [ServerCtx]; an assignment made before a fault stays made. The log lines
    given to the recorder are left out; an event is its kind and its arguments, whose
    codecs are in [Protocol]. *)

From S2P Require Import Prelude BTree Text Wire Identity Grants Realm Petitions Input Uses Attention Capture Enforcement Messages.
From S2P Require Ipc.

Definition HANDSHAKE_ID : Z := 1.
Definition CLIENT_ID_MAX : Z := 4278190079. (* 0xfeff_ffff *)
Definition AUTH_REFUSED_PHRASE : Str := str "authentication refused".
Definition MAX_LIVE_REALMS : Z := 16.
Definition MAX_LIVE_PETITIONS : Z := 256.
Definition MAX_LIVE_LAUNCHERS : Z := MAX_LIVE_PETITIONS.
Definition MAX_LIVE_LAYOUT_FACETS : Z := 2 * MAX_LIVE_PETITIONS.
Definition MAX_LIVE_POWERBOXES : Z := MAX_LIVE_PETITIONS.
Definition MAX_LIVE_EGRESS_FACETS : Z := MAX_LIVE_PETITIONS.
Definition PETITION_RATE_BURST : Z := 8.
Definition PETITION_REFILL_PER_SEC : Z := 1.
Definition PROTOCOL_VERSION : Z := 2.

(* ------------------------------------------------------------------------ *)
(** ** Faults *)

(** Why a hello was refused: the verifier's rejection, or what it said of being
    unable to judge. *)
Inductive AuthCause : Type := CauseRejected (c : RejectionCause) | CauseUnavailable (detail : Str).

Inductive PrincipalViolation : Type :=
| PreHandshake (object_id opcode : Z)
| VersionUnsupported (offered : Z)
| AuthFailed (claimed_identity credential_type : Str) (credential_len : Z) (cause : AuthCause)
| SecondHello
| UnknownOpcode (object_id opcode : Z)
| InvalidObject (object_id : Z) (detail : Str)
| Malformed (object_id : Z) (source : DecodeError)
| ZeroVerbs (object_id : Z)
| ForbiddenControl (object_id codepoint : Z)
| PortOutOfRange (object_id port : Z)
| ResourceExhausted (detail : Str)
| ServerError (object_id : Z) (detail : Str)
| ConnectionDead.

(** [vitrin_handshake::Error]. *)
Inductive WireError : Type :=
| WInvalidObject | WInvalidOpcode | WInvalidArgument | WOversized | WFdViolation
| WPreHandshake | WVersionUnsupported | WAuthFailed | WInternal | WResourceExhausted.

(** [DecodeError::to_wire_error]. *)
Definition to_wire_error (e : DecodeError) : WireError :=
  match e with
  | Truncated _ _ | SizeMismatch _ _ => WOversized
  | InvalidUtf8 | EmbeddedNul | StringTooLong _ _ | MalformedPadding
  | InvalidEnumValue _ _ _ | InvalidBitfieldValue _ _ _ => WInvalidArgument
  | FdCountMismatch _ _ => WFdViolation
  | OpcodeMismatch _ _ => WInvalidOpcode
  | NullObject => WInvalidObject
  | TrailingBytes _ _ => WInvalidArgument
  end.

Definition wire_code (v : PrincipalViolation) : WireError :=
  match v with
  | PreHandshake _ _ => WPreHandshake
  | VersionUnsupported _ => WVersionUnsupported
  | AuthFailed _ _ _ _ => WAuthFailed
  | SecondHello | UnknownOpcode _ _ => WInvalidOpcode
  | InvalidObject _ _ => WInvalidObject
  | Malformed _ source => to_wire_error source
  | ZeroVerbs _ | ForbiddenControl _ _ | PortOutOfRange _ _ => WInvalidArgument
  | ResourceExhausted _ => WResourceExhausted
  | ServerError _ _ | ConnectionDead => WInternal
  end.

Definition cited_object (v : PrincipalViolation) : Z :=
  match v with
  | PreHandshake o _ | UnknownOpcode o _ | InvalidObject o _ | Malformed o _ | ZeroVerbs o
  | ForbiddenControl o _ | PortOutOfRange o _ | ServerError o _ => o
  | _ => HANDSHAKE_ID
  end.

(** The text of a goodbye: a fixed phrase, or what is printed into one. *)
Inductive WireText : Type :=
| Phrase (s : Str)
| OpcodeText (opcode : Z)
| DecodeText (e : DecodeError)
| CodepointText (codepoint : Z)
| PortText (port : Z).

Definition wire_message (v : PrincipalViolation) : WireText :=
  match v with
  | PreHandshake _ _ => Phrase (str "traffic before hello")
  | VersionUnsupported _ => Phrase (str "protocol version not implemented")
  | AuthFailed _ _ _ _ => Phrase AUTH_REFUSED_PHRASE
  | SecondHello => Phrase (str "hello is legal exactly once")
  | UnknownOpcode _ opcode => OpcodeText opcode
  | InvalidObject _ detail => Phrase detail
  | Malformed _ source => DecodeText source
  | ZeroVerbs _ => Phrase (str "petition verb set is empty")
  | ForbiddenControl _ codepoint => CodepointText codepoint
  | PortOutOfRange _ port => PortText port
  | ResourceExhausted detail => Phrase detail
  | ServerError _ _ => Phrase (str "server-side failure")
  | ConnectionDead => Phrase (str "connection already dead")
  end.

(* ------------------------------------------------------------------------ *)
(** ** The server *)

Inductive Phase : Type := Connected | Bound | Dead.
#[export] Instance Phase_eq_dec : EqDecision Phase.
Proof. solve_decision. Defined.

Inductive GrantHandleState : Type := HPending | HResolved (row : option GrantId).
Inductive ObjectKind : Type :=
| ORealm (name : Str)
| OGrant (s : GrantHandleState)
| OConsent
| OView (grant : Z)
| OPointer (grant : Z)
| OText (grant : Z)
| OLauncher (grant : Z)
| OLayoutFocus (grant : Z)
| OLayoutArrange (grant : Z)
| OPowerbox (grant : Z)
| OEgress (grant : Z).

Record PrincipalServer : Type := {
  ps_phase : Phase;
  ps_peer_uid : Z;
  ps_connection : ConnectionId;
  ps_watermark : Z;
  ps_principal_id : option Z;
  ps_identity : option PrincipalIdentity;
  ps_objects : btree ObjectKind;
  ps_realm_count : Z;
  ps_petition_count : Z;
  ps_launcher_count : Z;
  ps_layout_facet_count : Z;
  ps_powerbox_count : Z;
  ps_egress_count : Z;
  ps_petition_tokens : Z;
  ps_petition_refill_anchor : option Instant;
  ps_chokepoint : Chokepoint }.

(** Assignments to its fields. *)
Definition set_phase (p : Phase) (s : PrincipalServer) : PrincipalServer :=
  {| ps_phase := p; ps_peer_uid := ps_peer_uid s; ps_connection := ps_connection s; ps_watermark
     := ps_watermark s; ps_principal_id := ps_principal_id s; ps_identity := ps_identity s;
     ps_objects := ps_objects s; ps_realm_count := ps_realm_count s; ps_petition_count :=
     ps_petition_count s; ps_launcher_count := ps_launcher_count s; ps_layout_facet_count :=
     ps_layout_facet_count s; ps_powerbox_count := ps_powerbox_count s; ps_egress_count :=
     ps_egress_count s; ps_petition_tokens := ps_petition_tokens s; ps_petition_refill_anchor :=
     ps_petition_refill_anchor s; ps_chokepoint := ps_chokepoint s |}.
Definition set_watermark (w : Z) (s : PrincipalServer) : PrincipalServer :=
  {| ps_phase := ps_phase s; ps_peer_uid := ps_peer_uid s; ps_connection := ps_connection s;
     ps_watermark := w; ps_principal_id := ps_principal_id s; ps_identity := ps_identity s;
     ps_objects := ps_objects s; ps_realm_count := ps_realm_count s; ps_petition_count :=
     ps_petition_count s; ps_launcher_count := ps_launcher_count s; ps_layout_facet_count :=
     ps_layout_facet_count s; ps_powerbox_count := ps_powerbox_count s; ps_egress_count :=
     ps_egress_count s; ps_petition_tokens := ps_petition_tokens s; ps_petition_refill_anchor :=
     ps_petition_refill_anchor s; ps_chokepoint := ps_chokepoint s |}.
Definition set_bound (id : Z) (i : PrincipalIdentity) (s : PrincipalServer) : PrincipalServer :=
  {| ps_phase := Bound; ps_peer_uid := ps_peer_uid s; ps_connection := ps_connection s;
     ps_watermark := ps_watermark s; ps_principal_id := Some id; ps_identity := Some i;
     ps_objects := ps_objects s; ps_realm_count := ps_realm_count s; ps_petition_count :=
     ps_petition_count s; ps_launcher_count := ps_launcher_count s; ps_layout_facet_count :=
     ps_layout_facet_count s; ps_powerbox_count := ps_powerbox_count s; ps_egress_count :=
     ps_egress_count s; ps_petition_tokens := ps_petition_tokens s; ps_petition_refill_anchor :=
     ps_petition_refill_anchor s; ps_chokepoint := ps_chokepoint s |}.
Definition set_objects (m : btree ObjectKind) (s : PrincipalServer) : PrincipalServer :=
  {| ps_phase := ps_phase s; ps_peer_uid := ps_peer_uid s; ps_connection := ps_connection s;
     ps_watermark := ps_watermark s; ps_principal_id := ps_principal_id s; ps_identity :=
     ps_identity s; ps_objects := m; ps_realm_count := ps_realm_count s; ps_petition_count :=
     ps_petition_count s; ps_launcher_count := ps_launcher_count s; ps_layout_facet_count :=
     ps_layout_facet_count s; ps_powerbox_count := ps_powerbox_count s; ps_egress_count :=
     ps_egress_count s; ps_petition_tokens := ps_petition_tokens s; ps_petition_refill_anchor :=
     ps_petition_refill_anchor s; ps_chokepoint := ps_chokepoint s |}.
Definition bump_realm (s : PrincipalServer) : PrincipalServer :=
  {| ps_phase := ps_phase s; ps_peer_uid := ps_peer_uid s; ps_connection := ps_connection s;
     ps_watermark := ps_watermark s; ps_principal_id := ps_principal_id s; ps_identity :=
     ps_identity s; ps_objects := ps_objects s; ps_realm_count := ps_realm_count s + 1;
     ps_petition_count := ps_petition_count s; ps_launcher_count := ps_launcher_count s;
     ps_layout_facet_count := ps_layout_facet_count s; ps_powerbox_count := ps_powerbox_count s;
     ps_egress_count := ps_egress_count s; ps_petition_tokens := ps_petition_tokens s;
     ps_petition_refill_anchor := ps_petition_refill_anchor s; ps_chokepoint := ps_chokepoint s |}.
Definition bump_petition (s : PrincipalServer) : PrincipalServer :=
  {| ps_phase := ps_phase s; ps_peer_uid := ps_peer_uid s; ps_connection := ps_connection s;
     ps_watermark := ps_watermark s; ps_principal_id := ps_principal_id s; ps_identity :=
     ps_identity s; ps_objects := ps_objects s; ps_realm_count := ps_realm_count s;
     ps_petition_count := ps_petition_count s + 1; ps_launcher_count := ps_launcher_count s;
     ps_layout_facet_count := ps_layout_facet_count s; ps_powerbox_count := ps_powerbox_count s;
     ps_egress_count := ps_egress_count s; ps_petition_tokens := ps_petition_tokens s;
     ps_petition_refill_anchor := ps_petition_refill_anchor s; ps_chokepoint := ps_chokepoint s |}.
Definition bump_launcher (s : PrincipalServer) : PrincipalServer :=
  {| ps_phase := ps_phase s; ps_peer_uid := ps_peer_uid s; ps_connection := ps_connection s;
     ps_watermark := ps_watermark s; ps_principal_id := ps_principal_id s; ps_identity :=
     ps_identity s; ps_objects := ps_objects s; ps_realm_count := ps_realm_count s;
     ps_petition_count := ps_petition_count s; ps_launcher_count := ps_launcher_count s + 1;
     ps_layout_facet_count := ps_layout_facet_count s; ps_powerbox_count := ps_powerbox_count s;
     ps_egress_count := ps_egress_count s; ps_petition_tokens := ps_petition_tokens s;
     ps_petition_refill_anchor := ps_petition_refill_anchor s; ps_chokepoint := ps_chokepoint s |}.
Definition bump_layout_facet (s : PrincipalServer) : PrincipalServer :=
  {| ps_phase := ps_phase s; ps_peer_uid := ps_peer_uid s; ps_connection := ps_connection s;
     ps_watermark := ps_watermark s; ps_principal_id := ps_principal_id s; ps_identity :=
     ps_identity s; ps_objects := ps_objects s; ps_realm_count := ps_realm_count s;
     ps_petition_count := ps_petition_count s; ps_launcher_count := ps_launcher_count s;
     ps_layout_facet_count := ps_layout_facet_count s + 1; ps_powerbox_count := ps_powerbox_count
     s; ps_egress_count := ps_egress_count s; ps_petition_tokens := ps_petition_tokens s;
     ps_petition_refill_anchor := ps_petition_refill_anchor s; ps_chokepoint := ps_chokepoint s |}.
Definition bump_powerbox (s : PrincipalServer) : PrincipalServer :=
  {| ps_phase := ps_phase s; ps_peer_uid := ps_peer_uid s; ps_connection := ps_connection s;
     ps_watermark := ps_watermark s; ps_principal_id := ps_principal_id s; ps_identity :=
     ps_identity s; ps_objects := ps_objects s; ps_realm_count := ps_realm_count s;
     ps_petition_count := ps_petition_count s; ps_launcher_count := ps_launcher_count s;
     ps_layout_facet_count := ps_layout_facet_count s; ps_powerbox_count := ps_powerbox_count s +
     1; ps_egress_count := ps_egress_count s; ps_petition_tokens := ps_petition_tokens s;
     ps_petition_refill_anchor := ps_petition_refill_anchor s; ps_chokepoint := ps_chokepoint s |}.
Definition bump_egress (s : PrincipalServer) : PrincipalServer :=
  {| ps_phase := ps_phase s; ps_peer_uid := ps_peer_uid s; ps_connection := ps_connection s;
     ps_watermark := ps_watermark s; ps_principal_id := ps_principal_id s; ps_identity :=
     ps_identity s; ps_objects := ps_objects s; ps_realm_count := ps_realm_count s;
     ps_petition_count := ps_petition_count s; ps_launcher_count := ps_launcher_count s;
     ps_layout_facet_count := ps_layout_facet_count s; ps_powerbox_count := ps_powerbox_count s;
     ps_egress_count := ps_egress_count s + 1; ps_petition_tokens := ps_petition_tokens s;
     ps_petition_refill_anchor := ps_petition_refill_anchor s; ps_chokepoint := ps_chokepoint s |}.
Definition set_tokens (n : Z) (a : Instant) (s : PrincipalServer) : PrincipalServer :=
  {| ps_phase := ps_phase s; ps_peer_uid := ps_peer_uid s; ps_connection := ps_connection s;
     ps_watermark := ps_watermark s; ps_principal_id := ps_principal_id s; ps_identity :=
     ps_identity s; ps_objects := ps_objects s; ps_realm_count := ps_realm_count s;
     ps_petition_count := ps_petition_count s; ps_launcher_count := ps_launcher_count s;
     ps_layout_facet_count := ps_layout_facet_count s; ps_powerbox_count := ps_powerbox_count s;
     ps_egress_count := ps_egress_count s; ps_petition_tokens := n; ps_petition_refill_anchor :=
     Some a; ps_chokepoint := ps_chokepoint s |}.
Definition set_chokepoint (c : Chokepoint) (s : PrincipalServer) : PrincipalServer :=
  {| ps_phase := ps_phase s; ps_peer_uid := ps_peer_uid s; ps_connection := ps_connection s;
     ps_watermark := ps_watermark s; ps_principal_id := ps_principal_id s; ps_identity :=
     ps_identity s; ps_objects := ps_objects s; ps_realm_count := ps_realm_count s;
     ps_petition_count := ps_petition_count s; ps_launcher_count := ps_launcher_count s;
     ps_layout_facet_count := ps_layout_facet_count s; ps_powerbox_count := ps_powerbox_count s;
     ps_egress_count := ps_egress_count s; ps_petition_tokens := ps_petition_tokens s;
     ps_petition_refill_anchor := ps_petition_refill_anchor s; ps_chokepoint := c |}.

Definition principal_new (peer_uid : Z) (c : ConnectionId) : PrincipalServer :=
  {| ps_phase := Connected; ps_peer_uid := peer_uid; ps_connection := c;
     ps_watermark := HANDSHAKE_ID; ps_principal_id := None; ps_identity := None;
     ps_objects := bt_empty; ps_realm_count := 0; ps_petition_count := 0; ps_launcher_count := 0;
     ps_layout_facet_count := 0; ps_powerbox_count := 0; ps_egress_count := 0;
     ps_petition_tokens := PETITION_RATE_BURST; ps_petition_refill_anchor := None;
     ps_chokepoint := chokepoint_new |}.

Definition is_bound (s : PrincipalServer) : bool := bool_decide (ps_phase s = Bound).

Definition grant_row_id (s : PrincipalServer) (grant_wire_id : Z) : option GrantId :=
  match ps_objects s !! grant_wire_id with
  | Some (OGrant (HResolved row)) => row
  | _ => None
  end.

(** [take_petition_token]. *)
Definition take_petition_token (s : PrincipalServer) (now : Instant) : bool * PrincipalServer :=
  let anchor := default now (ps_petition_refill_anchor s) in
  let elapsed_secs := since now anchor / nanos_per_sec in
  let refill := Z.min u64_max (elapsed_secs * PETITION_REFILL_PER_SEC) in
  let '(tokens, anchor) :=
    if 0 <? refill then
      let tokens := Z.min (ps_petition_tokens s + refill) PETITION_RATE_BURST in
      (tokens, if tokens =? PETITION_RATE_BURST then now else anchor + from_secs elapsed_secs)
    else (ps_petition_tokens s, anchor) in
  if tokens =? 0 then (false, set_tokens tokens anchor s)
  else (true, set_tokens (tokens - 1) anchor s).

Section server.
Context {W X F Fd IoErr Digest : Type}.

Inductive PrincipalFault : Type := Violation (v : PrincipalViolation) | TransportFault (e : X).

Inductive ConsentState : Type := Queued | Shown | Closed.

(** [Outcome] of the wire. *)
Inductive ResolvedOutcome : Type := WGranted | WDeclined (o : Outcome).

(** What the server sends. *)
Inductive PrincipalEvent : Type :=
| EvError (object_id : Z) (code : WireError) (message : WireText)
| EvDone (cookie : Z)
| EvBound (principal : Z) (identity : PrincipalIdentity)
| EvAttention (principal : Z)
| EvConsent (consent : Z) (state : ConsentState)
| EvResolved (grant : Z) (outcome : ResolvedOutcome) (verbs : Z) (persistence : WirePersistence)
    (expiry_ms : Z)
| EvUse (e : @UseEvent Fd).

(** [ServerCtx], less what a handler may change; [cx_verify] is the verifier
    behind its trait. *)
Record ServerCtx : Type := {
  cx_verify : PresentedCredential -> VerifyOutcome;
  cx_realms : RealmRegistry;
  cx_now : Instant;
  cx_realm_view : RealmId -> option RealmViewFrame;
  cx_realm_is_live : RealmId -> bool;
  cx_physical_realm : option RealmId;
  cx_presence : PresenceMap;
  cx_actuations : RealmId -> SeatInput -> W -> W;
  cx_layout : LayoutAct -> W -> W;
  cx_launch : LaunchAsk -> W -> result RealmId LaunchRefusal * W;
  cx_designate : DesignateAsk -> W -> result Z DesignateRefusal * W;
  cx_memfd : list Z -> result Fd IoErr;
  cx_digest_of : list Z -> Digest;
  cx_send : PrincipalEvent -> W -> result unit X * W }.

(** What a handler may change: the server, and the rest of the context. *)
Record Core : Type := {
  st_server : PrincipalServer;
  st_petitions : PetitionRegistry;
  st_grants : GrantTable;
  st_attention : AttentionSignal;
  st_world : W }.

Definition on_server (f : PrincipalServer -> PrincipalServer) (s : Core) : Core :=
  {| st_server := f (st_server s); st_petitions := st_petitions s; st_grants := st_grants s;
     st_attention := st_attention s; st_world := st_world s |}.
Definition set_petitions (p : PetitionRegistry) (s : Core) : Core :=
  {| st_server := st_server s; st_petitions := p; st_grants := st_grants s;
     st_attention := st_attention s; st_world := st_world s |}.
Definition set_grants (g : GrantTable) (s : Core) : Core :=
  {| st_server := st_server s; st_petitions := st_petitions s; st_grants := g;
     st_attention := st_attention s; st_world := st_world s |}.
Definition set_st_world (w : W) (s : Core) : Core :=
  {| st_server := st_server s; st_petitions := st_petitions s; st_grants := st_grants s;
     st_attention := st_attention s; st_world := w |}.

(** The monad, over any type of error. *)
Definition PM (E A : Type) : Type := Core -> result A E * Core.
Definition pret {E A} (a : A) : PM E A := fun s => (Ok a, s).
Definition pfail {E A} (e : E) : PM E A := fun s => (Err e, s).
Definition pbind {E A B} (m : PM E A) (k : A -> PM E B) : PM E B :=
  fun s => match m s with (Ok a, s) => k a s | (Err e, s) => (Err e, s) end.
Definition pmodify {E} (f : Core -> Core) : PM E unit := fun s => (Ok tt, f s).
Definition plift {E A} (r : result A E) : PM E A := fun s => (r, s).
Definition pmap_err {E E' A} (f : E -> E') (m : PM E A) : PM E' A :=
  fun s => match m s with (Ok a, s) => (Ok a, s) | (Err e, s) => (Err (f e), s) end.
Definition pget {E} : PM E Core := fun s => (Ok s, s).
Local Notation "x <-- m ;; k" := (pbind m (fun x => k)) (at level 100, m at next level, right associativity).
Local Notation "m ;;; k" := (pbind m (fun _ => k)) (at level 100, right associativity).
Local Abbreviation HM := (PM PrincipalFault unit).

Definition violation {A} (v : PrincipalViolation) : PM PrincipalFault A := pfail (Violation v).
Definition psend (cx : ServerCtx) (e : PrincipalEvent) : PM X unit :=
  fun s => let '(r, w) := cx_send cx e (st_world s) in (r, set_st_world w s).

(** [allocate_id]. *)
Definition allocate_id (id : Z) : HM :=
  s <-- pget ;;
  if CLIENT_ID_MAX <=? ps_watermark (st_server s)
  then violation (ResourceExhausted (str "object-id space exhausted"))
  else if (id <=? ps_watermark (st_server s)) || (CLIENT_ID_MAX <? id)
  then violation (InvalidObject id (str "new_id at/below the watermark or outside the client range"))
  else pmodify (on_server (set_watermark id)).

(** [for id in ids { self.allocate_id(id)?; }]. *)
Fixpoint allocate_each (ids : list Z) : HM :=
  match ids with [] => pret tt | id :: ids => allocate_id id ;;; allocate_each ids end.

Definition insert_object (id : Z) (k : ObjectKind) (s : PrincipalServer) : PrincipalServer :=
  set_objects (<[id := k]> (ps_objects s)) s.

(** [Request::decode(&msg.bytes, msg.fd).map_err(Malformed)]; no request has a
    descriptor. *)
Definition decode_request {A} (OPCODE : Z) (c : codec A) (msg : Ipc.Message F) : PM PrincipalFault A :=
  match decode_frame OPCODE false c (Ipc.msg_bytes msg) (Ipc.msg_fd msg) with
  | Ok (_, m) => pret m
  | Err source => violation (Malformed (object_id (Ipc.msg_header msg)) source)
  end.

(** [serve_facet_use]: the chokepoint, with the row this connection's own handle
    resolved to. *)
Definition use_env (cx : ServerCtx) (s : Core) (row : option GrantId) (kind : UseKind)
    : @UseEnv W X Fd IoErr Digest :=
  let realm := match row with Some row => realm_of (st_grants s) row | None => None end in
  {| Enforcement.realm_view :=
       match realm with
       | Some r => if cx_realm_is_live cx r then cx_realm_view cx r else None
       | None => None
       end;
     Enforcement.presence := cx_presence cx;
     Enforcement.physical_realm := cx_physical_realm cx;
     Enforcement.actuations := cx_actuations cx;
     Enforcement.grant_realm := if names_a_realm kind then realm else None;
     Enforcement.layout := cx_layout cx;
     Enforcement.launch := cx_launch cx;
     Enforcement.designate := cx_designate cx;
     Enforcement.memfd := cx_memfd cx;
     Enforcement.digest_of := cx_digest_of cx;
     Enforcement.send := fun e => cx_send cx (EvUse e) |}.

Definition use_state (s : Core) : @St W :=
  {| Enforcement.ck := ps_chokepoint (st_server s); Enforcement.grants := st_grants s;
     Enforcement.attention := st_attention s; Enforcement.world := st_world s |}.
Definition set_use_state (u : @St W) (s : Core) : Core :=
  {| st_server := set_chokepoint (Enforcement.ck u) (st_server s); st_petitions := st_petitions s;
     st_grants := Enforcement.grants u; st_attention := Enforcement.attention u;
     st_world := Enforcement.world u |}.

Definition serve_facet_use (cx : ServerCtx) (facet_id grant_wire_id : Z) (kind : UseKind) : HM :=
  fun s =>
    match ps_identity (st_server s) with
    | None =>
        violation (ServerError facet_id (str "facet use dispatched with no bound identity")) s
    | Some identity =>
        let grant_row := grant_row_id (st_server s) grant_wire_id in
        let request := {| Enforcement.facet_id := facet_id;
                          Enforcement.grant_wire_id := grant_wire_id;
                          Enforcement.grant_row := grant_row;
                          Enforcement.principal := identity;
                          Enforcement.kind := kind |} in
        let '(r, u) := enforce_use request (st_petitions s) (use_env cx s grant_row kind)
                         (cx_now cx) (use_state s) in
        (match r with Ok _ => Ok tt | Err e => Err (TransportFault e) end, set_use_state u s)
    end.

(** [handle_hello]. *)
Definition handle_hello (cx : ServerCtx) (msg : Ipc.Message F) : HM :=
  hello <-- decode_request 0 c_hello msg ;;
  if negb (hello_version hello =? PROTOCOL_VERSION)
  then violation (VersionUnsupported (hello_version hello)) else
  allocate_id (hello_principal hello) ;;;
  s <-- pget ;;
  let presented := {| claimed_identity := hello_identity hello;
                      credential_type := hello_credential_type hello;
                      credential := Utf8.encode (hello_credential hello);
                      peer_uid := ps_peer_uid (st_server s) |} in
  let refused cause :=
    violation (AuthFailed (hello_identity hello) (hello_credential_type hello)
                 (str_len (hello_credential hello)) cause) in
  match cx_verify cx presented with
  | Identity.Bound identity =>
      pmap_err TransportFault (psend cx (EvBound (hello_principal hello) identity)) ;;;
      pmodify (on_server (set_bound (hello_principal hello) identity))
  | Identity.Rejected cause => refused (CauseRejected cause)
  | Identity.Unavailable detail => refused (CauseUnavailable detail)
  end.

(** The handlers that mint one object: the cap, then the id, then the entry. *)
Definition mint (count : PrincipalServer -> Z) (cap : Z) (detail : Str) (id : Z) (k : ObjectKind)
    (bump : PrincipalServer -> PrincipalServer) : HM :=
  s <-- pget ;;
  if cap <=? count (st_server s) then violation (ResourceExhausted detail) else
  allocate_id id ;;;
  pmodify (on_server (fun s => bump (insert_object id k s))).

Definition handle_get_realm (msg : Ipc.Message F) : HM :=
  req <-- decode_request 0 c_get_realm msg ;;
  mint ps_realm_count MAX_LIVE_REALMS (str "live-realm cap exceeded") req.1 (ORealm req.2)
    bump_realm.
Definition handle_get_launcher (msg : Ipc.Message F) : HM :=
  id <-- decode_request 0 c_get_launcher msg ;;
  mint ps_launcher_count MAX_LIVE_LAUNCHERS (str "live-launcher cap exceeded") id
    (OLauncher (object_id (Ipc.msg_header msg))) bump_launcher.
Definition handle_get_layout_focus (msg : Ipc.Message F) : HM :=
  id <-- decode_request 1 c_get_layout_focus msg ;;
  mint ps_layout_facet_count MAX_LIVE_LAYOUT_FACETS (str "live-layout-facet cap exceeded") id
    (OLayoutFocus (object_id (Ipc.msg_header msg))) bump_layout_facet.
Definition handle_get_layout_arrange (msg : Ipc.Message F) : HM :=
  id <-- decode_request 2 c_get_layout_arrange msg ;;
  mint ps_layout_facet_count MAX_LIVE_LAYOUT_FACETS (str "live-layout-facet cap exceeded") id
    (OLayoutArrange (object_id (Ipc.msg_header msg))) bump_layout_facet.
Definition handle_get_powerbox (msg : Ipc.Message F) : HM :=
  id <-- decode_request 3 c_get_powerbox msg ;;
  mint ps_powerbox_count MAX_LIVE_POWERBOXES (str "live-powerbox cap exceeded") id
    (OPowerbox (object_id (Ipc.msg_header msg))) bump_powerbox.
Definition handle_get_egress (msg : Ipc.Message F) : HM :=
  id <-- decode_request 4 c_get_egress msg ;;
  mint ps_egress_count MAX_LIVE_EGRESS_FACETS (str "live-egress-facet cap exceeded") id
    (OEgress (object_id (Ipc.msg_header msg))) bump_egress.

(** *** Resolutions *)

Inductive DeliveryError : Type :=
| WrongConnection (expected got : ConnectionId)
| DeliveryDead
| UnknownGrantObject (wire_id : Z)
| AlreadyResolved (wire_id : Z)
| Insert (e : InsertError)
| DeliveryTransport (e : X).

(** The row of an approval, or the death of a connection whose row the table
    cannot represent. *)
Definition resolve_row (send : PrincipalEvent -> W -> result unit X * W) (now : Instant)
    (r : Resolution) : PM DeliveryError (option GrantId) :=
  fun s =>
    match rs_verdict r with
    | Granted approved =>
        let '(res, g) := insert_row approved (st_grants s) now in
        let s := set_grants g s in
        match res with
        | Ok id => (Ok (Some id), s)
        | Err e =>
            let s := on_server (set_phase Dead) s in
            let goodbye := EvError (rs_grant_wire_id r) WInternal (Phrase (str "server-side failure")) in
            (Err (Insert e), set_st_world (send goodbye (st_world s)).2 s)
        end
    | Declined _ => (Ok None, s)
    end.

Definition resolved_event (r : Resolution) : PrincipalEvent :=
  match rs_verdict r with
  | Granted a =>
      EvResolved (rs_grant_wire_id r) WGranted (ea_verbs (ag_effective a))
        (rung_to_wire (ea_persistence (ag_effective a))) (ea_expiry_ms (ag_effective a))
  | Declined o => EvResolved (rs_grant_wire_id r) (WDeclined o) 0 WOnce 0
  end.

(** The events of a delivery, each with its [?]. *)
Fixpoint announce (send : PrincipalEvent -> W -> result unit X * W) (evs : list PrincipalEvent)
    : PM DeliveryError unit :=
  match evs with
  | [] => pret tt
  | e :: evs =>
      fun s =>
        match send e (st_world s) with
        | (Ok _, w) => announce send evs (set_st_world w s)
        | (Err x, w) => (Err (DeliveryTransport x), set_st_world w s)
        end
  end.
Definition delivery_events (r : Resolution) : list PrincipalEvent :=
  (if rs_emit_closed r then [EvConsent (rs_consent_wire_id r) Closed] else []) ++ [resolved_event r].

(** [deliver_resolution_inner]; the outer function only logs. *)
Definition deliver_resolution (send : PrincipalEvent -> W -> result unit X * W) (now : Instant)
    (r : Resolution) : PM DeliveryError unit :=
  s <-- pget ;;
  if negb (rs_connection r =? ps_connection (st_server s))
  then pfail (WrongConnection (ps_connection (st_server s)) (rs_connection r)) else
  if negb (bool_decide (ps_phase (st_server s) = Bound)) then pfail DeliveryDead else
  match ps_objects (st_server s) !! rs_grant_wire_id r with
  | Some (OGrant (HResolved _)) => pfail (AlreadyResolved (rs_grant_wire_id r))
  | Some (OGrant HPending) =>
      row <-- resolve_row send now r ;;
      pmodify (on_server (insert_object (rs_grant_wire_id r) (OGrant (HResolved row)))) ;;;
      announce send (delivery_events r)
  | _ => pfail (UnknownGrantObject (rs_grant_wire_id r))
  end.

(** The [map_err] at the end of [handle_request_grant]; the second text is the
    error's own. *)
Definition delivery_fault (object_id : Z) (detail : DeliveryError -> Str) (e : DeliveryError)
    : PrincipalFault :=
  match e with
  | DeliveryTransport t => TransportFault t
  | other => Violation (ServerError object_id (detail other))
  end.

(** [handle_request_grant]; [detail] prints a delivery error for the log. *)
Definition handle_request_grant (detail : DeliveryError -> Str) (cx : ServerCtx)
    (msg : Ipc.Message F) (realm_name : Str) : HM :=
  let now := cx_now cx in
  let oid := object_id (Ipc.msg_header msg) in
  req <-- decode_request 0 c_request_grant msg ;;
  if rg_verbs req =? 0 then violation (ZeroVerbs oid) else
  s <-- pget ;;
  if MAX_LIVE_PETITIONS <=? ps_petition_count (st_server s)
  then violation (ResourceExhausted (str "live-petition cap exceeded")) else
  let '(token, server) := take_petition_token (st_server s) now in
  pmodify (on_server (fun _ => server)) ;;;
  if negb token then violation (ResourceExhausted (str "petition-rate ceiling exceeded")) else
  allocate_each [rg_grant req; rg_consent req; rg_view req; rg_pointer req; rg_text req] ;;;
  pmodify (on_server (insert_object (rg_grant req) (OGrant HPending))) ;;;
  pmodify (on_server (insert_object (rg_consent req) OConsent)) ;;;
  pmodify (on_server (insert_object (rg_view req) (OView (rg_grant req)))) ;;;
  pmodify (on_server (insert_object (rg_pointer req) (OPointer (rg_grant req)))) ;;;
  pmodify (on_server (insert_object (rg_text req) (OText (rg_grant req)))) ;;;
  pmodify (on_server bump_petition) ;;;
  s <-- pget ;;
  match ps_identity (st_server s) with
  | None => violation (ServerError oid (str "petition dispatched with no bound identity"))
  | Some identity =>
      let petition :=
        {| rq_connection := ps_connection (st_server s); rq_identity := identity;
           rq_realm_name := realm_name; rq_grant_wire_id := rg_grant req;
           rq_consent_wire_id := rg_consent req; rq_resource := rg_resource req;
           rq_verbs := rg_verbs req; rq_expiry_ms := rg_expiry_ms req;
           rq_max_event_rate := rg_max_event_rate req; rq_persistence := rg_persistence req;
           rq_flags := rg_flags req |} in
      let layout_arrange_held := any_live_holder_of (st_grants s) LAYOUT_ARRANGE now in
      let '(admission, petitions) :=
        petition_admit (st_petitions s) petition now (cx_realms cx) layout_arrange_held in
      pmodify (set_petitions petitions) ;;;
      match admission with
      | Pending _ =>
          pmap_err TransportFault (psend cx (EvConsent (rg_consent req) Queued))
      | Resolved resolution =>
          pmap_err (delivery_fault oid detail) (deliver_resolution (cx_send cx) now resolution)
      end
  end.

(** *** Dispatch *)

Definition forbidden_control (c : Z) : bool :=
  (((0 <=? c) && (c <=? 31)) || ((127 <=? c) && (c <=? 159)))
  && negb (c =? 10) && negb (c =? 9).

(** The requests of a facet. *)
Definition dispatch_facet (cx : ServerCtx) (msg : Ipc.Message F) (kind : ObjectKind) : HM :=
  let oid := object_id (Ipc.msg_header msg) in
  let op := opcode (Ipc.msg_header msg) in
  let unknown := violation (UnknownOpcode oid op) in
  match kind with
  | OView grant =>
      if op =? 0 then
        decode_request 0 c_capture_frame msg ;;; serve_facet_use cx oid grant Capture
      else unknown
  | OPointer grant =>
      k <-- (if op =? 0 then
               req <-- decode_request 0 c_move msg ;;
               pret (Motion (f64_of_int req.1) (f64_of_int req.2))
             else if op =? 1 then
               req <-- decode_request 1 c_button msg ;; pret (Button req.1 req.2)
             else if op =? 2 then
               req <-- decode_request 2 c_scroll msg ;; pret (Scroll req.1 req.2)
             else violation (UnknownOpcode oid op)) ;;
      serve_facet_use cx oid grant (Pointer k)
  | OText grant =>
      if op =? 0 then
        text <-- decode_request 0 c_type msg ;;
        match List.find forbidden_control text with
        | Some c => violation (ForbiddenControl oid c)
        | None => serve_facet_use cx oid grant (TextUse (TextInput text))
        end
      else unknown
  | OLauncher grant =>
      if op =? 0 then decode_request 0 c_launch msg ;;; serve_facet_use cx oid grant Launch
      else unknown
  | OLayoutFocus grant =>
      if op =? 0 then decode_request 0 c_focus msg ;;; serve_facet_use cx oid grant LayoutFocus
      else unknown
  | OLayoutArrange grant =>
      if op =? 0 then
        mode <-- decode_request 0 c_set_fullscreen msg ;;
        serve_facet_use cx oid grant (LayoutArrange mode)
      else unknown
  | OPowerbox grant =>
      if op =? 0 then
        mode <-- decode_request 0 c_request_file msg ;;
        serve_facet_use cx oid grant
          (Designate (AskFile match mode with ReadWrite => true | Read => false end))
      else if op =? 1 then
        decode_request 1 c_request_dir msg ;;; serve_facet_use cx oid grant (Designate AskDir)
      else unknown
  | OEgress grant =>
      if op =? 0 then
        req <-- decode_request 0 c_request_connect msg ;;
        if negb ((1 <=? req.2) && (req.2 <=? 65535)) then violation (PortOutOfRange oid req.2)
        else serve_facet_use cx oid grant Egress
      else unknown
  | _ => unknown
  end.

Definition dispatch (detail : DeliveryError -> Str) (cx : ServerCtx) (msg : Ipc.Message F) : HM :=
  let oid := object_id (Ipc.msg_header msg) in
  let op := opcode (Ipc.msg_header msg) in
  let unknown := violation (UnknownOpcode oid op) in
  s <-- pget ;;
  match ps_phase (st_server s) with
  | Dead => violation ConnectionDead
  | Connected =>
      if (oid =? HANDSHAKE_ID) && (op =? 0) then handle_hello cx msg
      else violation (PreHandshake oid op)
  | Bound =>
      if oid =? HANDSHAKE_ID then
        if op =? 0 then violation SecondHello
        else if op =? 1 then
          cookie <-- decode_request 1 c_sync msg ;;
          pmap_err TransportFault (psend cx (EvDone cookie))
        else unknown
      else if bool_decide (Some oid = ps_principal_id (st_server s)) then
        if op =? 0 then handle_get_realm msg else unknown
      else match ps_objects (st_server s) !! oid with
      | Some (ORealm name) =>
          if op =? 0 then handle_request_grant detail cx msg name else unknown
      | Some (OGrant _) =>
          if op =? 0 then handle_get_launcher msg
          else if op =? 1 then handle_get_layout_focus msg
          else if op =? 2 then handle_get_layout_arrange msg
          else if op =? 3 then handle_get_powerbox msg
          else if op =? 4 then handle_get_egress msg
          else unknown
      | Some kind => dispatch_facet cx msg kind
      | None => violation (InvalidObject oid (str "unknown or foreign object id"))
      end
  end.

(** [handle_message]: the funnel. *)
Definition handle_message (detail : DeliveryError -> Str) (cx : ServerCtx) (msg : Ipc.Message F) : HM :=
  fun s =>
    let '(r, s) := dispatch detail cx msg s in
    match r with
    | Ok _ => (r, s)
    | Err fault =>
        let was_dead := bool_decide (ps_phase (st_server s) = Dead) in
        let s := on_server (set_phase Dead) s in
        match fault with
        | Violation v =>
            if was_dead then (r, s)
            else (r, set_st_world
                       (cx_send cx (EvError (cited_object v) (wire_code v) (wire_message v))
                          (st_world s)).2 s)
        | TransportFault _ => (r, s)
        end
    end.

(** *** Prompts, attention, the end *)

Inductive PromptEmitError : Type :=
| PWrongConnection (expected got : ConnectionId)
| PConnectionDead
| PUnknownConsentObject (wire_id : Z)
| PTransport (e : X).

Definition emit_consent_shown (cx_send : PrincipalEvent -> W -> result unit X * W)
    (route : ConnectionId * Z) : PM PromptEmitError unit :=
  fun s =>
    if negb (route.1 =? ps_connection (st_server s))
    then (Err (PWrongConnection (ps_connection (st_server s)) route.1), s) else
    if negb (bool_decide (ps_phase (st_server s) = Bound)) then (Err PConnectionDead, s) else
    match ps_objects (st_server s) !! route.2 with
    | Some OConsent =>
        let '(r, w) := cx_send (EvConsent route.2 Shown) (st_world s) in
        (match r with Ok u => Ok u | Err e => Err (PTransport e) end, set_st_world w s)
    | _ => (Err (PUnknownConsentObject route.2), s)
    end.

Definition deliver_attention (cx_send : PrincipalEvent -> W -> result unit X * W) : PM X bool :=
  fun s =>
    if negb (bool_decide (ps_phase (st_server s) = Bound)) then (Ok false, s) else
    match ps_principal_id (st_server s) with
    | None => (Ok false, s)
    | Some id =>
        let '(r, w) := cx_send (EvAttention id) (st_world s) in
        (match r with Ok _ => Ok true | Err e => Err e end, set_st_world w s)
    end.

(** [teardown]: the petitions, then every row a handle resolved to. *)
Fixpoint remove_rows (ks : list ObjectKind) (g : GrantTable) : GrantTable :=
  match ks with
  | [] => g
  | OGrant (HResolved (Some id)) :: ks => remove_rows ks (Grants.remove g id).2
  | _ :: ks => remove_rows ks g
  end.

Definition teardown (s : Core) : Core :=
  let '(_, p) := withdraw_connection (st_petitions s) (ps_connection (st_server s)) in
  let g := remove_rows (bt_values (ps_objects (st_server s))) (st_grants s) in
  on_server (set_phase Dead) (set_grants g (set_petitions p s)).
End server.
Arguments Core : clear implicits.
Arguments ServerCtx : clear implicits.
Arguments PrincipalEvent : clear implicits.
Arguments PrincipalFault : clear implicits.
Arguments DeliveryError : clear implicits.

(* ------------------------------------------------------------------------ *)
(** ** The state machine

    What any operation does to the server is a sequence of these steps. *)

Definition insert_petition (g c v p t : Z) (s : PrincipalServer) : PrincipalServer :=
  bump_petition (insert_object t (OText g) (insert_object p (OPointer g) (insert_object v (OView g)
    (insert_object c OConsent (insert_object g (OGrant HPending) s))))).

(** The counter and the cap of a minted object, and what it must belong to. *)
Inductive mintable (s : PrincipalServer) : ObjectKind -> (PrincipalServer -> PrincipalServer) -> Prop :=
| mint_realm name : ps_realm_count s < MAX_LIVE_REALMS -> mintable s (ORealm name) bump_realm
| mint_launcher g st : ps_launcher_count s < MAX_LIVE_LAUNCHERS ->
    ps_objects s !! g = Some (OGrant st) -> mintable s (OLauncher g) bump_launcher
| mint_layout_focus g st : ps_layout_facet_count s < MAX_LIVE_LAYOUT_FACETS ->
    ps_objects s !! g = Some (OGrant st) -> mintable s (OLayoutFocus g) bump_layout_facet
| mint_layout_arrange g st : ps_layout_facet_count s < MAX_LIVE_LAYOUT_FACETS ->
    ps_objects s !! g = Some (OGrant st) -> mintable s (OLayoutArrange g) bump_layout_facet
| mint_powerbox g st : ps_powerbox_count s < MAX_LIVE_POWERBOXES ->
    ps_objects s !! g = Some (OGrant st) -> mintable s (OPowerbox g) bump_powerbox
| mint_egress g st : ps_egress_count s < MAX_LIVE_EGRESS_FACETS ->
    ps_objects s !! g = Some (OGrant st) -> mintable s (OEgress g) bump_egress.

Inductive server_step (now : Instant) (s : PrincipalServer) : PrincipalServer -> Prop :=
| ss_die : server_step now s (set_phase Dead s)
| ss_allocate id :
    ps_watermark s < id <= CLIENT_ID_MAX -> server_step now s (set_watermark id s)
| ss_bind id i :
    ps_phase s = Connected -> ps_watermark s < id <= CLIENT_ID_MAX ->
    server_step now s (set_bound id i (set_watermark id s))
| ss_mint id k bump :
    ps_phase s = Bound -> ps_watermark s < id <= CLIENT_ID_MAX -> mintable s k bump ->
    server_step now s (bump (insert_object id k (set_watermark id s)))
| ss_token b s' :
    ps_phase s = Bound -> take_petition_token s now = (b, s') -> server_step now s s'
| ss_petition g c v p t s' :
    ps_phase s = Bound -> ps_petition_count s < MAX_LIVE_PETITIONS ->
    take_petition_token s now = (true, s') ->
    ps_watermark s < g -> g < c -> c < v -> v < p -> p < t -> t <= CLIENT_ID_MAX ->
    server_step now s (insert_petition g c v p t (set_watermark t s'))
| ss_resolve g row :
    ps_phase s = Bound -> ps_objects s !! g = Some (OGrant HPending) ->
    server_step now s (insert_object g (OGrant (HResolved row)) s)
| ss_use c : ps_phase s = Bound -> server_step now s (set_chokepoint c s).

#[export] Hint Constructors server_step mintable : vitrin.

(** Many steps, at one time. *)
Abbreviation server_steps now := (rtc (server_step now)).

(* ------------------------------------------------------------------------ *)
(** ** What one operation does *)

Section effects.
Context {W X F Fd IoErr Digest : Type}.
Implicit Types (s : Core W) (cx : ServerCtx W X Fd IoErr Digest) (msg : Ipc.Message F).

(** An event that is not the chokepoint's. *)
Definition wire_event (e : PrincipalEvent Fd) : Prop := match e with EvUse _ => False | _ => True end.
Definition sent (send : PrincipalEvent Fd -> W -> result unit X * W)
    (evs : list (PrincipalEvent Fd)) (w : W) : W :=
  fold_left (fun w e => (send e w).2) evs w.

(** A use of one of this connection's facets: its own identity, the row its own
    handle resolved to. *)
Record facet_use cx s (kind : UseKind) (r : result (UseOutcome Digest) X) (u : @St W) : Prop := {
  fu_bound : ps_phase (st_server s) = Bound;
  fu_run : exists facet grant i k,
    ps_objects (st_server s) !! facet = Some k
    /\ (k = OView grant \/ k = OPointer grant \/ k = OText grant \/ k = OLauncher grant
        \/ k = OLayoutFocus grant \/ k = OLayoutArrange grant \/ k = OPowerbox grant
        \/ k = OEgress grant)
    /\ ps_identity (st_server s) = Some i
    /\ enforce_use {| Enforcement.facet_id := facet; Enforcement.grant_wire_id := grant;
                      Enforcement.grant_row := grant_row_id (st_server s) grant;
                      Enforcement.principal := i; Enforcement.kind := kind |}
         (st_petitions s) (use_env cx s (grant_row_id (st_server s) grant) kind) (cx_now cx)
         (use_state s) = (r, u) }.

(** A petition in this connection's own name, admitted by the registry. *)
Inductive petitioned cx s s' : Prop :=
| petitioned_intro req held evs :
    ps_identity (st_server s) = Some (rq_identity req) ->
    rq_connection req = ps_connection (st_server s) ->
    st_petitions s' = (petition_admit (st_petitions s) req (cx_now cx) (cx_realms cx) held).2 ->
    (st_grants s' = st_grants s
     \/ exists r a,
         (petition_admit (st_petitions s) req (cx_now cx) (cx_realms cx) held).1 = Resolved r
         /\ rs_verdict r = Granted a
         /\ st_grants s' = (insert_row a (st_grants s) (cx_now cx)).2
         /\ forall id, (insert_row a (st_grants s) (cx_now cx)).1 = Ok id ->
              ps_objects (st_server s') !! rs_grant_wire_id r = Some (OGrant (HResolved (Some id)))) ->
    st_attention s' = st_attention s ->
    Forall wire_event evs -> st_world s' = sent (cx_send cx) evs (st_world s) ->
    petitioned cx s s'.

(** What an operation may do beyond the server: use a facet through the
    chokepoint, say something, or petition in the connection's own name. *)
Inductive door cx s (res : result unit (PrincipalFault X)) s' : Prop :=
| door_use kind r u :
    facet_use cx s kind r u -> st_petitions s' = st_petitions s -> use_state s' = u ->
    res = match r with Ok _ => Ok tt | Err e => Err (TransportFault e) end -> door cx s res s'
| door_wire evs :
    Forall wire_event evs -> st_world s' = sent (cx_send cx) evs (st_world s) ->
    st_petitions s' = st_petitions s -> st_grants s' = st_grants s ->
    st_attention s' = st_attention s -> door cx s res s'
| door_petition : petitioned cx s s' -> door cx s res s'.

Lemma decode_request_cases {A} op (c : codec A) msg s :
  (exists m, decode_request (X := X) op c msg s = (Ok m, s))
  \/ exists v, decode_request (X := X) op c msg s = (Err (Violation v), s).
Proof.
  unfold decode_request. destruct (decode_frame _ _ _ _ _) as [[? m]|]; [left|right]; eauto.
Qed.

Lemma allocate_cases id s :
  (allocate_id (X := X) id s = (Ok tt, on_server (set_watermark id) s)
   /\ ps_watermark (st_server s) < id <= CLIENT_ID_MAX)
  \/ exists v, allocate_id (X := X) id s = (Err (Violation v), s).
Proof.
  unfold allocate_id, pbind, pget.
  destruct (Z.leb_spec CLIENT_ID_MAX (ps_watermark (st_server s))); [right; eexists; done|].
  destruct (Z.leb_spec id (ps_watermark (st_server s))); [right; eexists; done|].
  destruct (Z.ltb_spec CLIENT_ID_MAX id); [right; eexists; done|left]. split; [done|lia].
Qed.

(** The contract of every handler. *)
Definition handles cx s (m : PM (PrincipalFault X) unit) : Prop :=
  server_steps (cx_now cx) (st_server s) (st_server (m s).2) /\ door cx s (m s).1 (m s).2.

Lemma door_silent cx s r s' :
  st_world s' = st_world s -> st_petitions s' = st_petitions s -> st_grants s' = st_grants s ->
  st_attention s' = st_attention s -> door cx s r s'.
Proof. intros Hw ? ? ?. apply (door_wire _ _ _ _ []); [constructor|by rewrite Hw|done..]. Qed.

Lemma handles_violation cx s v : handles cx s (violation v).
Proof. split; [apply rtc_refl|by apply door_silent]. Qed.

Lemma handles_decode {A} cx s op (c : codec A) msg k :
  (forall m, handles cx s (k m)) -> handles cx s (pbind (decode_request op c msg) k).
Proof.
  intros Hk. unfold handles, pbind in *. destruct (decode_request_cases op c msg s) as [[m Hm]|[v Hv]].
  - rewrite Hm. apply Hk.
  - rewrite Hv. apply handles_violation.
Qed.

Lemma handles_assoc {A B} cx s (m : PM (PrincipalFault X) A) (f : A -> PM (PrincipalFault X) B) k :
  handles cx s (pbind m (fun a => pbind (f a) k)) -> handles cx s (pbind (pbind m f) k).
Proof. unfold handles, pbind. by destruct (m s) as [[a|e] s1]. Qed.

Lemma handles_get cx s (k : Core W -> PM (PrincipalFault X) unit) :
  handles cx s (k s) -> handles cx s (pbind pget k).
Proof. done. Qed.

Lemma handles_send cx s e :
  wire_event e -> handles cx s (pmap_err TransportFault (psend cx e)).
Proof.
  intros He. unfold handles, pmap_err, psend.
  destruct (cx_send cx e (st_world s)) as [[[]|x] w] eqn:Hs; simpl;
    (split; [apply rtc_refl|]); apply (door_wire _ _ _ _ [e]); simpl; rewrite ?Hs;
    try done; by constructor.
Qed.

Lemma handles_mint cx s count cap detail id k bump :
  ps_phase (st_server s) = Bound ->
  (count (st_server s) < cap -> mintable (st_server s) k bump) ->
  handles cx s (mint count cap detail id k bump).
Proof.
  intros Hp Hm. unfold handles, mint, pbind, pget.
  destruct (Z.leb_spec cap (count (st_server s))); [apply handles_violation|].
  destruct (allocate_cases id s) as [[-> Hid]|[v ->]]; [|apply handles_violation].
  simpl. split; [|by apply door_silent]. apply rtc_once. apply ss_mint; auto.
Qed.

Lemma handles_use cx s facet grant kind k :
  ps_phase (st_server s) = Bound -> ps_objects (st_server s) !! facet = Some k ->
  k = OView grant \/ k = OPointer grant \/ k = OText grant \/ k = OLauncher grant
    \/ k = OLayoutFocus grant \/ k = OLayoutArrange grant \/ k = OPowerbox grant
    \/ k = OEgress grant ->
  handles cx s (serve_facet_use cx facet grant kind).
Proof.
  intros Hp Hk Hks. unfold handles, serve_facet_use.
  destruct (ps_identity (st_server s)) as [i|] eqn:Hi; [|apply handles_violation].
  destruct (enforce_use _ _ _ _ _) as [r u] eqn:He. simpl. split.
  - apply rtc_once. by apply ss_use.
  - eapply (door_use _ _ _ _ kind r u); [|done|by destruct u|done].
    split; [done|]. exists facet, grant, i, k. done.
Qed.

Lemma handles_facet cx s msg k :
  ps_phase (st_server s) = Bound ->
  ps_objects (st_server s) !! object_id (Ipc.msg_header msg) = Some k ->
  handles cx s (dispatch_facet cx msg k).
Proof.
  intros Hp Hk. pose proof (handles_violation cx s) as Hv.
  assert (forall grant kind, k = OView grant \/ k = OPointer grant \/ k = OText grant \/ k = OLauncher grant
    \/ k = OLayoutFocus grant \/ k = OLayoutArrange grant \/ k = OPowerbox grant
    \/ k = OEgress grant -> handles cx s (serve_facet_use cx (object_id (Ipc.msg_header msg)) grant kind)) as Hu
    by (intros; by eapply handles_use).
  assert (forall A op (c : codec A) f, (forall m, handles cx s (f m)) ->
    handles cx s (pbind (decode_request op c msg) f)) as Hd by (intros; by apply handles_decode).
  unfold dispatch_facet. destruct k as [| | |g|g|g|g|g|g|g|g]; repeat
    first [apply Hv | apply Hu; tauto | apply handles_assoc | apply Hd; intros
          | progress change (pbind (pret ?a) ?f) with (f a) | progress change (pbind (violation ?v) _) with (violation (W := W) (X := X) (A := unit) v)
          | case_match].
Qed.

(** *** Delivering a resolution *)

(** The row a verdict makes, and the table with it. *)
Definition verdict_row (now : Instant) (v : Verdict) (g : GrantTable)
    : result (option GrantId) InsertError * GrantTable :=
  match v with
  | Granted a => let '(r, g) := insert_row a g now in
                 (match r with Ok id => Ok (Some id) | Err e => Err e end, g)
  | Declined _ => (Ok None, g)
  end.

Inductive delivered (send : PrincipalEvent Fd -> W -> result unit X * W) (now : Instant)
    (r : Resolution) s : result unit (DeliveryError X) -> Core W -> Prop :=
| del_refused e :
    match e with
    | WrongConnection expected got =>
        rs_connection r <> ps_connection (st_server s) /\ expected = ps_connection (st_server s)
        /\ got = rs_connection r
    | DeliveryDead => rs_connection r = ps_connection (st_server s) /\ ps_phase (st_server s) <> Bound
    | UnknownGrantObject id =>
        id = rs_grant_wire_id r /\ forall st, ps_objects (st_server s) !! id <> Some (OGrant st)
    | AlreadyResolved id =>
        id = rs_grant_wire_id r
        /\ exists row, ps_objects (st_server s) !! id = Some (OGrant (HResolved row))
    | _ => False
    end -> delivered send now r s (Err e) s
| del_insert e g s' :
    rs_connection r = ps_connection (st_server s) -> ps_phase (st_server s) = Bound ->
    ps_objects (st_server s) !! rs_grant_wire_id r = Some (OGrant HPending) ->
    verdict_row now (rs_verdict r) (st_grants s) = (Err e, g) ->
    st_server s' = set_phase Dead (st_server s) -> st_grants s' = g ->
    st_petitions s' = st_petitions s -> st_attention s' = st_attention s ->
    st_world s' = sent send [EvError (rs_grant_wire_id r) WInternal
                               (Phrase (str "server-side failure"))] (st_world s) ->
    delivered send now r s (Err (Insert e)) s'
| del_done row g evs res s' :
    rs_connection r = ps_connection (st_server s) -> ps_phase (st_server s) = Bound ->
    ps_objects (st_server s) !! rs_grant_wire_id r = Some (OGrant HPending) ->
    verdict_row now (rs_verdict r) (st_grants s) = (Ok row, g) ->
    st_server s' = insert_object (rs_grant_wire_id r) (OGrant (HResolved row)) (st_server s) ->
    st_grants s' = g -> st_petitions s' = st_petitions s -> st_attention s' = st_attention s ->
    Forall wire_event evs -> st_world s' = sent send evs (st_world s) ->
    (res = Ok tt -> evs = delivery_events r) ->
    (res = Ok tt \/ exists x, res = Err (DeliveryTransport x)) ->
    delivered send now r s res s'.

Lemma announce_spec send evs s :
  let '(res, s') := announce (X := X) send evs s in
  exists done rest, evs = done ++ rest /\ s' = set_st_world (sent send done (st_world s)) s
    /\ ((res = Ok tt /\ rest = []) \/ exists x, res = Err (DeliveryTransport x)).
Proof.
  revert s. induction evs as [|e evs IH]; intros s; simpl.
  - exists [], []. split; [done|split; [by destruct s|by left]].
  - destruct (send e (st_world s)) as [[[]|x] w] eqn:Hs.
    + specialize (IH (set_st_world w s)). destruct (announce send evs _) as [res s'].
      destruct IH as (done & rest & -> & -> & IH). exists (e :: done), rest. simpl. by rewrite Hs.
    + exists [e], evs. simpl. rewrite Hs. eauto.
Qed.

Lemma delivery_events_wire (r : Resolution) : Forall wire_event (delivery_events r).
Proof.
  unfold delivery_events, resolved_event. apply Forall_app_2; [destruct (rs_emit_closed r)|];
    repeat constructor; by destruct (rs_verdict r).
Qed.

Lemma deliver_cases send now r s :
  delivered send now r s (deliver_resolution send now r s).1 (deliver_resolution send now r s).2.
Proof.
  unfold deliver_resolution, pbind at 1 4, pget.
  destruct (Z.eqb_spec (rs_connection r) (ps_connection (st_server s))) as [Hc|Hc];
    cbn [negb]; [|by apply del_refused].
  case_bool_decide as Hp; cbn [negb]; [|by apply del_refused].
  destruct (ps_objects (st_server s) !! rs_grant_wire_id r) as [[| [|row]| | | | | | | | |]|] eqn:Ho.
  all: try (simpl; apply del_refused; split; [done|]; rewrite Ho; (by intros st) || by exists row).
  unfold pbind, pmodify, resolve_row.
  assert (forall row g, verdict_row now (rs_verdict r) (st_grants s) = (Ok row, g) ->
    let s1 := on_server (insert_object (rs_grant_wire_id r) (OGrant (HResolved row))) (set_grants g s) in
    delivered send now r s (announce send (delivery_events r) s1).1
      (announce send (delivery_events r) s1).2) as Hok.
  { intros row g Hrow s1. pose proof (announce_spec send (delivery_events r) s1) as Ha.
    destruct (announce send (delivery_events r) s1) as [res s'].
    destruct Ha as (ev & rest & Hev & -> & Hres). pose proof (delivery_events_wire r) as Hw.
    rewrite Hev in Hw. apply Forall_app in Hw as [Hw _].
    apply (del_done _ _ _ _ row g ev); try done.
    - simpl. intros ->. destruct Hres as [[_ ->]|[x ?]]; [by rewrite app_nil_r in Hev|done].
    - simpl. destruct Hres as [[? _]|?]; auto. }
  destruct (rs_verdict r) as [a|o] eqn:Hv.
  - unfold verdict_row in Hok. destruct (insert_row a (st_grants s) now) as [[id|e] g] eqn:Hi.
    + by apply Hok.
    + simpl. apply (del_insert _ _ _ _ e g); try done. unfold verdict_row. by rewrite Hv, Hi.
  - destruct s. by apply Hok.
Qed.

(** *** The handlers *)

Lemma deliver_steps (send : PrincipalEvent Fd -> W -> result unit X * W) now r s :
  server_steps now (st_server s) (st_server (deliver_resolution send now r s).2).
Proof.
  destruct (deliver_cases send now r s) as [| |row g evs res s' _ ? ? _ Hs].
  - apply rtc_refl.
  - apply rtc_once. match goal with H : st_server _ = _ |- _ => rewrite H end. apply ss_die.
  - apply rtc_once. rewrite Hs. by apply ss_resolve.
Qed.

Lemma handles_hello cx s msg :
  ps_phase (st_server s) = Connected -> handles cx s (handle_hello cx msg).
Proof.
  intros Hp. apply handles_decode. intros hello. case_match; [apply handles_violation|].
  unfold handles, pbind.
  destruct (allocate_cases (hello_principal hello) s) as [[-> Hid]|[v ->]]; [|apply handles_violation].
  cbn [pget]. set (s1 := on_server _ s).
  assert (server_steps (cx_now cx) (st_server s) (st_server s1)) as H1 by (by apply rtc_once, ss_allocate).
  destruct (cx_verify cx _) as [i|cause|d]; cycle 1; [split; [exact H1|by apply door_silent]..|].
  unfold pmap_err, psend. destruct (cx_send cx _ (st_world s1)) as [[[]|x] w] eqn:Hs; simpl.
  - split; [by apply rtc_once, ss_bind|].
    apply (door_wire _ _ _ _ [EvBound (hello_principal hello) i]); simpl; try done; [by constructor|].
    change (st_world s) with (st_world s1). by rewrite Hs.
  - split; [exact H1|].
    apply (door_wire _ _ _ _ [EvBound (hello_principal hello) i]); simpl; try done; [by constructor|].
    change (st_world s) with (st_world s1). by rewrite Hs.
Qed.

Lemma last_cons {A} (x d : A) l : List.last (x :: l) d = List.last l x.
Proof.
  revert x d. induction l as [|y l IH]; intros x d; [done|].
  change (List.last (y :: l) d = List.last (y :: l) x). by rewrite !IH.
Qed.

Lemma allocate_each_cases ids s :
  (exists w, allocate_each (X := X) ids s = (Ok tt, on_server (set_watermark w) s)
     /\ Sorted Z.lt (ps_watermark (st_server s) :: ids)
     /\ w = List.last ids (ps_watermark (st_server s)) /\ (ids = [] \/ w <= CLIENT_ID_MAX))
  \/ exists v s', allocate_each (X := X) ids s = (Err (Violation v), s')
       /\ st_world s' = st_world s /\ st_petitions s' = st_petitions s
       /\ st_grants s' = st_grants s /\ st_attention s' = st_attention s
       /\ forall now, server_steps now (st_server s) (st_server s').
Proof.
  revert s. induction ids as [|id ids IH]; intros s; simpl.
  - left. exists (ps_watermark (st_server s)). destruct s as [[] ? ? ? ?]. split; [done|].
    split; [by repeat constructor|]. auto.
  - unfold pbind. destruct (allocate_cases id s) as [[Ha Hid]|[v Ha]]; rewrite Ha.
    + destruct (IH (on_server (set_watermark id) s)) as [(w & Hw & Hs & -> & Hm)|(v & s' & Hr & ? & ? & ? & ? & Hst)].
      * left. eexists. rewrite Hw. simpl in *. split; [done|]. split; [constructor; [done|constructor; lia]|].
        split; [by rewrite <-last_cons with (d := ps_watermark (st_server s))|]. right.
        destruct Hm as [->|]; [simpl; lia|done].
      * right. exists v, s'. split; [done|]. repeat (split; [done|]).
        intros now. eapply rtc_l; [|apply Hst]. by apply ss_allocate.
    + right. exists v, s. repeat (split; [done|]). intros. apply rtc_refl.
Qed.

Lemma token_shape srv now b srv' :
  take_petition_token srv now = (b, srv') -> exists n a, srv' = set_tokens n a srv.
Proof.
  unfold take_petition_token. cbv zeta. destruct (if 0 <? _ then _ else _) as [n a].
  destruct (n =? 0); intros [= <- <-]; eauto.
Qed.

Lemma petitioned_frame cx s s1 s' :
  st_world s1 = st_world s -> st_petitions s1 = st_petitions s -> st_grants s1 = st_grants s ->
  st_attention s1 = st_attention s -> ps_identity (st_server s1) = ps_identity (st_server s) ->
  ps_connection (st_server s1) = ps_connection (st_server s) ->
  petitioned cx s1 s' -> petitioned cx s s'.
Proof.
  intros Hw Hp Hg Ha Hi Hc [req held evs H1 H2 H3 H4 H5 H6 H7].
  rewrite Hw, Hp, Hg, Ha, Hi, Hc in *. by apply (petitioned_intro _ _ _ req held evs).
Qed.

(** The petition proper, once its objects are in the table. *)
Lemma handles_petition cx s detail oid req held consent :
  ps_identity (st_server s) = Some (rq_identity req) ->
  rq_connection req = ps_connection (st_server s) ->
  let adm := petition_admit (st_petitions s) req (cx_now cx) (cx_realms cx) held in
  let m := pbind (pmodify (set_petitions adm.2)) (fun _ =>
             match adm.1 with
             | Pending _ => pmap_err TransportFault (psend cx (EvConsent consent Queued))
             | Resolved r =>
                 pmap_err (delivery_fault oid detail) (deliver_resolution (cx_send cx) (cx_now cx) r)
             end) in
  server_steps (cx_now cx) (st_server s) (st_server (m s).2) /\ petitioned cx s (m s).2.
Proof.
  intros Hi Hc adm m. unfold m, pbind, pmodify. set (s1 := set_petitions adm.2 s).
  pose proof (petitioned_intro cx s) as Hpet. unfold adm in *.
  destruct (petition_admit _ _ _ _ _) as [[r|c] p] eqn:Hadm; simpl.
  - pose proof (deliver_steps (cx_send cx) (cx_now cx) r s1) as Hst.
    pose proof (deliver_cases (cx_send cx) (cx_now cx) r s1) as Hd. unfold pmap_err.
    destruct (deliver_resolution _ _ _ _) as [res s']. simpl in *.
    replace (st_server (match res with Ok _ => _ | Err _ => _ end).2) with (st_server s')
      by by destruct res.
    split; [exact Hst|].
    assert (petitioned cx s s') as Hgoal; [|by destruct res].
    destruct Hd as [e| e g s' _ _ _ Hrow ? <- ? ? ?|row g evs res s' _ _ _ Hrow Hsrv <- ? ? ? ? _ _].
    + apply (Hpet _ req held []); rewrite ?Hadm; simpl; auto.
    + eapply (Hpet _ req held [_]); rewrite ?Hadm; simpl; try done; [|by constructor].
      unfold verdict_row in Hrow. destruct (rs_verdict r) as [a|] eqn:Hv; [|done]. right.
      exists r, a. split; [done|]. split; [done|].
      change (st_grants s1) with (st_grants s) in Hrow.
      by destruct (insert_row _ _ _) as [[] ?]; simplify_eq.
    + apply (Hpet _ req held evs); rewrite ?Hadm; simpl; try done.
      unfold verdict_row in Hrow. destruct (rs_verdict r) as [a|] eqn:Hv; [right|left; by injection Hrow].
      exists r, a. split; [done|]. split; [done|].
      change (st_grants s1) with (st_grants s) in Hrow.
      destruct (insert_row _ _ _) as [[id|] ?]; simplify_eq. split; [done|].
      intros ? [= <-]. rewrite Hsrv. simpl. apply bt_lookup_insert_eq.
  - unfold pmap_err, psend. destruct (cx_send cx _ (st_world s1)) as [[[]|x] w] eqn:Hs; simpl;
      (split; [apply rtc_refl|]); apply (Hpet _ req held [EvConsent consent Queued]); simpl;
      rewrite ?Hadm; try done; auto; try (by constructor); change (st_world s) with (st_world s1);
      by rewrite Hs.
Qed.

Lemma handles_request_grant cx s msg detail name :
  ps_phase (st_server s) = Bound -> handles cx s (handle_request_grant detail cx msg name).
Proof.
  intros Hp. apply handles_decode. intros req. case_match; [apply handles_violation|].
  unfold handles. cbv beta zeta delta [pbind pget]. cbv beta iota.
  destruct (Z.leb_spec MAX_LIVE_PETITIONS (ps_petition_count (st_server s))) as [|Hcap];
    [apply handles_violation|].
  destruct (take_petition_token (st_server s) (cx_now cx)) as [b srv] eqn:Ht.
  cbv beta iota delta [pmodify]. set (s1 := on_server (fun _ => srv) s).
  assert (server_steps (cx_now cx) (st_server s) (st_server s1)) as H1 by (by eapply rtc_once, ss_token).
  destruct b; cbn [negb]; [|split; [exact H1|by apply door_silent]].
  destruct (token_shape _ _ _ _ Ht) as (n & a & Hsrv).
  set (ids := [_; _; _; _; _]).
  destruct (allocate_each_cases ids s1)
    as [(w & -> & Hs & -> & Hm)|(v & s' & -> & ? & ? & ? & ? & Hst)]; cycle 1.
  { split; [by etransitivity|by apply door_silent]. }
  set (s2 := on_server bump_petition _).
  assert (st_server s2 = insert_petition (rg_grant req) (rg_consent req) (rg_view req)
            (rg_pointer req) (rg_text req) (set_watermark (rg_text req) srv)) as Hs2 by done.
  assert (server_steps (cx_now cx) (st_server s) (st_server s2)) as H2.
  { apply rtc_once. rewrite Hs2. destruct Hm as [|Hm]; [done|]. subst ids. cbn in Hs, Hm.
    rewrite Hsrv in Hs. clear Hsrv. cbn in Hs. repeat match goal with
      | H : Sorted _ (_ :: _) |- _ => inversion H; clear H; subst
      | H : HdRel _ _ (_ :: _) |- _ => inversion H; clear H; subst end.
    by apply ss_petition. }
  assert (ps_identity (st_server s2) = ps_identity (st_server s)
          /\ ps_connection (st_server s2) = ps_connection (st_server s)) as [Hid Hcon]
    by (rewrite Hs2, Hsrv; done).
  destruct (ps_identity (st_server s2)) as [i|] eqn:Hi; [|split; [exact H2|by apply door_silent]].
  match goal with |- context [petition_admit (st_petitions s2) ?r (cx_now cx) (cx_realms cx) ?h] =>
    pose proof (handles_petition cx s2 detail (object_id (Ipc.msg_header msg)) r h (rg_consent req)
                  Hi eq_refl) as [H3 H4] end.
  unfold pbind, pmodify in H3, H4. destruct (petition_admit _ _ _ _ _) as [adm p].
  split; [by etransitivity|]. apply door_petition.
  apply (petitioned_frame _ s s2); try done. by rewrite Hi.
Qed.

Lemma handles_dispatch cx s msg detail : handles cx s (dispatch detail cx msg).
Proof.
  unfold dispatch. cbv zeta. apply handles_get.
  pose proof (handles_violation cx s) as Hv.
  destruct (ps_phase (st_server s)) eqn:Hp; [| |apply Hv].
  { case_match; [by apply handles_hello|apply Hv]. }
  case_match.
  { case_match; [apply Hv|]. case_match; [|apply Hv].
    apply handles_decode. intros m. by apply handles_send. }
  case_match.
  { case_match; [|apply Hv]. apply handles_decode. intros m. apply handles_mint; [done|].
    intros; by apply mint_realm. }
  destruct (ps_objects (st_server s) !! _) as [k|] eqn:Hk; [|apply Hv].
  destruct k; try by apply handles_facet.
  - case_match; [by apply handles_request_grant|apply Hv].
  - repeat (case_match; [apply handles_decode; intros m; apply handles_mint; [done|];
      intros; eauto with vitrin|]). apply Hv.
Qed.

(** A door stays one when the server dies after it, saying one thing more. *)
Lemma door_goodbye cx s v s1 s2 bye :
  door cx s (Err (Violation v)) s1 -> Forall wire_event bye ->
  ps_objects (st_server s2) = ps_objects (st_server s1) ->
  st_petitions s2 = st_petitions s1 -> st_grants s2 = st_grants s1 ->
  st_attention s2 = st_attention s1 -> st_world s2 = sent (cx_send cx) bye (st_world s1) ->
  door cx s (Err (Violation v)) s2.
Proof.
  intros Hd Hbye Ho Hp Hg Ha Hw.
  assert (forall evs, st_world s1 = sent (cx_send cx) evs (st_world s) ->
    st_world s2 = sent (cx_send cx) (evs ++ bye) (st_world s)) as Happ
    by (intros evs Hevs; unfold sent in *; by rewrite fold_left_app, <-Hevs).
  destruct Hd as [? r ? ? ? ? Hr|evs|[req held evs]].
  - by destruct r.
  - apply (door_wire _ _ _ _ (evs ++ bye)); [by apply Forall_app_2|auto|congruence..].
  - apply door_petition. apply (petitioned_intro _ _ _ req held (evs ++ bye)); auto; try congruence.
    + by rewrite Hg, Ho.
    + by apply Forall_app_2.
Qed.

(** The funnel: a goodbye is one more event, and then death. *)
Lemma handles_message cx s msg detail : handles cx s (handle_message detail cx msg).
Proof.
  destruct (handles_dispatch cx s msg detail) as [Hst Hd]. unfold handles, handle_message.
  destruct (dispatch detail cx msg s) as [[u|fault] s1] eqn:Hrun; simpl in *; [by split|].
  assert (server_steps (cx_now cx) (st_server s) (set_phase Dead (st_server s1))) as Hst'
    by (eapply rtc_r; [exact Hst|apply ss_die]).
  destruct fault as [v|x]; simpl.
  - case_bool_decide; simpl; (split; [exact Hst'|]).
    + by apply (door_goodbye _ _ _ s1 _ []).
    + apply (door_goodbye _ _ _ s1 _ [EvError (cited_object v) (wire_code v) (wire_message v)]);
        auto. by constructor.
  - split; [exact Hst'|]. destruct Hd as [k r u Hf Hp Hu Hres|evs|Hpet].
    + by eapply door_use.
    + by apply (door_wire _ _ _ _ evs).
    + apply door_petition. destruct Hpet as [req held evs].
      by apply (petitioned_intro _ _ _ req held evs).
Qed.
End effects.
