(* ===== verification/Connection.v ===== *)
(** * The life of a principal connection

    What holds of a [PrincipalServer] over any run: messages, deliveries,
    consent notices, attention and teardown, in any order, while the rest of
    the core moves as it likes between them. *)

From S2P Require Import Prelude BTree Text Wire Identity Grants Realm Petitions Input Uses Attention Capture Enforcement Messages Principal.
From S2P Require Ipc.

(* ------------------------------------------------------------------------ *)
(** ** Runs *)

Section runs.
Context {W X F Fd IoErr Digest : Type}.
Implicit Types (s : Core W) (cx : ServerCtx W X Fd IoErr Digest) (msg : Ipc.Message F).

(** One operation of the server, at one time. *)
Inductive conn_op (now : Instant) s : Core W -> Prop :=
| co_message cx msg detail :
    cx_now cx = now -> conn_op now s (handle_message detail cx msg s).2
| co_deliver (send : PrincipalEvent Fd -> W -> result unit X * W) r :
    conn_op now s (deliver_resolution send now r s).2
| co_shown (send : PrincipalEvent Fd -> W -> result unit X * W) route :
    conn_op now s (emit_consent_shown send route s).2
| co_attention (send : PrincipalEvent Fd -> W -> result unit X * W) :
    conn_op now s (deliver_attention send s).2
| co_teardown : conn_op now s (teardown s).

(** A run between two times of a clock that does not go back; [run_rest] is
    everybody else. *)
Inductive conn_run : Instant -> Core W -> Instant -> Core W -> Prop :=
| run_stop t s : conn_run t s t s
| run_op t s now s' t' s'' :
    t <= now -> conn_op now s s' -> conn_run now s' t' s'' -> conn_run t s t' s''
| run_rest t s s' t' s'' :
    st_server s' = st_server s -> conn_run t s' t' s'' -> conn_run t s t' s''.

(** An accepted connection. *)
Definition accepted s : Prop :=
  exists uid c, st_server s = principal_new uid c.

Lemma shown_server (send : PrincipalEvent Fd -> W -> result unit X * W) route s :
  st_server (emit_consent_shown send route s).2 = st_server s.
Proof.
  unfold emit_consent_shown. case_match; [done|]. case_match; [done|].
  destruct (_ !! _) as [[]|]; try done. by destruct (send _ _).
Qed.

Lemma attention_server (send : PrincipalEvent Fd -> W -> result unit X * W) s :
  st_server (deliver_attention send s).2 = st_server s.
Proof.
  unfold deliver_attention. case_match; [done|]. destruct (ps_principal_id _); [|done].
  by destruct (send _ _).
Qed.

(** Any operation is a sequence of the server's steps. *)
Lemma conn_op_steps now s s' : conn_op now s s' -> server_steps now (st_server s) (st_server s').
Proof.
  intros [cx msg detail <-|send r|send route|send|].
  - apply handles_message.
  - apply deliver_steps.
  - by rewrite shown_server.
  - by rewrite attention_server.
  - unfold teardown. destruct (withdraw_connection _ _). by apply rtc_once, ss_die.
Qed.

(** Rule induction over a run, at the level of the server's steps. *)
Lemma conn_run_ind' (P : Instant -> PrincipalServer -> Prop) t s t' s' :
  (forall t now srv, t <= now -> P t srv -> P now srv) ->
  (forall now srv srv', server_step now srv srv' -> P now srv -> P now srv') ->
  conn_run t s t' s' -> P t (st_server s) -> P t' (st_server s').
Proof.
  intros Htime Hstep Hrun. induction Hrun as [|t s now s1 t' s2 Ht Hs _ IH|t s s1 t' s2 Hs _ IH]; [done|..].
  - intros HP. apply IH. apply conn_op_steps in Hs.
    assert (P now (st_server s)) as H1 by (by eapply Htime). clear -Hs H1 Hstep.
    induction Hs; eauto.
  - by rewrite Hs in IH.
Qed.

Lemma conn_run_trans t s t1 s1 t' s' :
  conn_run t s t1 s1 -> conn_run t1 s1 t' s' -> conn_run t s t' s'.
Proof. induction 1; intros; [done|by eapply run_op; eauto|by eapply run_rest; eauto]. Qed.
End runs.

(* ------------------------------------------------------------------------ *)
(** ** The state of a server *)

(** The grant object a facet belongs to. *)
Definition facet_grant (k : ObjectKind) : option Z :=
  match k with
  | OView g | OPointer g | OText g | OLauncher g | OLayoutFocus g | OLayoutArrange g
  | OPowerbox g | OEgress g => Some g
  | _ => None
  end.

(** What is counted, where, and up to what. *)
Definition is_realm (k : ObjectKind) : bool := match k with ORealm _ => true | _ => false end.
Definition is_grant (k : ObjectKind) : bool := match k with OGrant _ => true | _ => false end.
Definition is_consent (k : ObjectKind) : bool := match k with OConsent => true | _ => false end.
Definition is_view (k : ObjectKind) : bool := match k with OView _ => true | _ => false end.
Definition is_pointer (k : ObjectKind) : bool := match k with OPointer _ => true | _ => false end.
Definition is_text (k : ObjectKind) : bool := match k with OText _ => true | _ => false end.
Definition is_launcher (k : ObjectKind) : bool := match k with OLauncher _ => true | _ => false end.
Definition is_layout (k : ObjectKind) : bool :=
  match k with OLayoutFocus _ | OLayoutArrange _ => true | _ => false end.
Definition is_powerbox (k : ObjectKind) : bool := match k with OPowerbox _ => true | _ => false end.
Definition is_egress (k : ObjectKind) : bool := match k with OEgress _ => true | _ => false end.

Definition caps : list ((ObjectKind -> bool) * (PrincipalServer -> Z) * Z) :=
  [(is_realm, ps_realm_count, 16);
   (is_grant, ps_petition_count, 256); (is_consent, ps_petition_count, 256);
   (is_view, ps_petition_count, 256); (is_pointer, ps_petition_count, 256);
   (is_text, ps_petition_count, 256);
   (is_launcher, ps_launcher_count, 256); (is_layout, ps_layout_facet_count, 512);
   (is_powerbox, ps_powerbox_count, 256); (is_egress, ps_egress_count, 256)].

(** The table of objects, below a watermark: every id was allocated, and every
    facet belongs to a grant of this table that is older than it. *)
Record objects_wf (w : Z) (m : btree ObjectKind) : Prop := {
  ow_order : bt_wf m;
  ow_ids : forall id k, m !! id = Some k -> HANDSHAKE_ID < id <= w;
  ow_facets : forall id k g, m !! id = Some k -> facet_grant k = Some g ->
    g < id /\ exists st, m !! g = Some (OGrant st) }.

Definition counts_wf (s : PrincipalServer) : Prop :=
  Forall (fun c => c.1.2 s = bt_count (ps_objects s) c.1.1 /\ c.1.2 s <= c.2) caps.

(** Who is on the other end, by phase. *)
Definition party_wf (s : PrincipalServer) : Prop :=
  match ps_phase s with
  | Connected => ps_identity s = None /\ ps_principal_id s = None /\ ps_objects s = bt_empty
  | _ => (exists i id, ps_identity s = Some i /\ ps_principal_id s = Some id
            /\ HANDSHAKE_ID < id <= ps_watermark s /\ ps_objects s !! id = None)
         \/ (ps_phase s = Dead /\ ps_identity s = None /\ ps_principal_id s = None
             /\ ps_objects s = bt_empty)
  end.

Record server_wf (s : PrincipalServer) : Prop := {
  sw_objects : objects_wf (ps_watermark s) (ps_objects s);
  sw_watermark : HANDSHAKE_ID <= ps_watermark s <= CLIENT_ID_MAX;
  sw_counts : counts_wf s;
  sw_party : party_wf s;
  sw_tokens : 0 <= ps_petition_tokens s <= PETITION_RATE_BURST }.

Lemma objects_wf_mono w w' m : objects_wf w m -> w <= w' -> objects_wf w' m.
Proof. intros [H1 H2 H3] Hw. split; [done| |done]. intros id k Hk. specialize (H2 id k Hk). lia. Qed.

Lemma objects_wf_insert w m id k :
  objects_wf w m -> HANDSHAKE_ID <= w < id ->
  (forall g, facet_grant k = Some g -> exists st, m !! g = Some (OGrant st)) ->
  objects_wf id (<[id := k]> m).
Proof.
  intros [H1 H2 H3] Hw Hk. split; [by apply bt_wf_insert|..].
  - intros i k'. rewrite bt_lookup_insert. destruct (Z.eqb_spec i id); [lia|].
    intros Hi. specialize (H2 _ _ Hi). lia.
  - intros i k' g. rewrite bt_lookup_insert. destruct (Z.eqb_spec i id) as [->|Hne].
    + intros [= <-] Hg. destruct (Hk g Hg) as [st Hst]. pose proof (H2 _ _ Hst).
      split; [lia|]. exists st. rewrite bt_lookup_insert_ne by lia. done.
    + intros Hi Hg. destruct (H3 _ _ _ Hi Hg) as [Hlt [st Hst]]. pose proof (H2 _ _ Hst).
      split; [done|]. exists st. rewrite bt_lookup_insert_ne by lia. done.
Qed.

Lemma objects_fresh w m id : objects_wf w m -> w < id -> m !! id = None.
Proof.
  intros [_ H2 _] Hw. destruct (m !! id) as [k|] eqn:Hk; [|done]. specialize (H2 _ _ Hk). lia.
Qed.

(** The five objects of a petition, in order. *)
Definition petition_objects (g c v p t : Z) (m : btree ObjectKind) : btree ObjectKind :=
  <[t := OText g]> (<[p := OPointer g]> (<[v := OView g]> (<[c := OConsent]>
    (<[g := OGrant HPending]> m)))).

Lemma petition_objects_spec w m g c v p t :
  objects_wf w m -> HANDSHAKE_ID <= w -> w < g -> g < c -> c < v -> v < p -> p < t ->
  objects_wf t (petition_objects g c v p t m)
  /\ (forall f, bt_count (petition_objects g c v p t m) f
       = bt_count m f + (if f (OGrant HPending) then 1 else 0) + (if f OConsent then 1 else 0)
         + (if f (OView g) then 1 else 0) + (if f (OPointer g) then 1 else 0)
         + (if f (OText g) then 1 else 0)).
Proof.
  intros Hm Hw Hg Hc Hv Hp Ht.
  pose proof (objects_wf_insert _ _ g (OGrant HPending) Hm ltac:(lia) ltac:(done)) as H1.
  pose proof (objects_wf_insert _ _ c OConsent H1 ltac:(lia) ltac:(done)) as H2.
  set (m2 := <[c:=OConsent]> _) in *.
  assert (m2 !! g = Some (OGrant HPending)) as Hg2
    by (unfold m2; rewrite bt_lookup_insert_ne by lia; apply bt_lookup_insert_eq).
  assert (objects_wf v (<[v := OView g]> m2)) as H3
    by (apply (objects_wf_insert c); [done|lia|intros ? [= <-]; eauto]).
  assert (objects_wf p (<[p := OPointer g]> (<[v := OView g]> m2))) as H4.
  { apply (objects_wf_insert v); [done|lia|intros ? [= <-]]. rewrite bt_lookup_insert_ne by lia. eauto. }
  unfold petition_objects. fold m2. split.
  - apply (objects_wf_insert p); [done|lia|intros ? [= <-]]. rewrite !bt_lookup_insert_ne by lia. eauto.
  - intros f. rewrite !bt_count_insert_fresh by (by eapply objects_fresh). unfold m2.
    rewrite !bt_count_insert_fresh by (by eapply objects_fresh). lia.
Qed.

Lemma take_token_bounds s now b s' :
  take_petition_token s now = (b, s') -> 0 <= ps_petition_tokens s <= PETITION_RATE_BURST ->
  0 <= ps_petition_tokens s' <= PETITION_RATE_BURST.
Proof.
  unfold take_petition_token. cbv zeta. generalize (Z.min u64_max
    (since now (default now (ps_petition_refill_anchor s)) / nanos_per_sec * PETITION_REFILL_PER_SEC)).
  intros r. destruct (Z.ltb_spec 0 r); case_match; intros [= <- <-] Ht; unbool; simpl in *; lia.
Qed.

Lemma party_wf_frame s s' :
  party_wf s -> ps_phase s' = ps_phase s -> ps_identity s' = ps_identity s ->
  ps_principal_id s' = ps_principal_id s -> ps_watermark s <= ps_watermark s' ->
  (forall id, id <= ps_watermark s -> ps_objects s' !! id = None <-> ps_objects s !! id = None) ->
  (ps_phase s <> Bound -> ps_objects s' = ps_objects s) -> party_wf s'.
Proof.
  unfold party_wf. intros Hp -> -> -> Hw Ho Hb.
  assert (forall i id, ps_identity s = Some i /\ ps_principal_id s = Some id
    /\ HANDSHAKE_ID < id <= ps_watermark s /\ ps_objects s !! id = None ->
    ps_identity s = Some i /\ ps_principal_id s = Some id
    /\ HANDSHAKE_ID < id <= ps_watermark s' /\ ps_objects s' !! id = None) as Hs
    by (intros i id (? & ? & ? & ?); repeat split; try done; [lia..|apply Ho; [lia|done]]).
  destruct (ps_phase s).
  - rewrite Hb; done.
  - left. destruct Hp as [(i & id & H)|[? _]]; [exists i, id; auto|done].
  - destruct Hp as [(i & id & H)|?]; [left; exists i, id; auto|right]. rewrite Hb; done.
Qed.

Lemma objects_wf_resolve w m g st st' :
  objects_wf w m -> m !! g = Some (OGrant st) -> objects_wf w (<[g := OGrant st']> m).
Proof.
  intros [H1 H2 H3] Hg. split; [by apply bt_wf_insert|..].
  - intros id k. rewrite bt_lookup_insert. destruct (Z.eqb_spec id g) as [->|]; eauto.
  - intros id k g'. rewrite bt_lookup_insert. destruct (Z.eqb_spec id g) as [->|]; [by intros [= <-]|].
    intros Hk Hf. destruct (H3 _ _ _ Hk Hf) as [Hlt [st0 Hst]]. split; [done|].
    rewrite bt_lookup_insert. destruct (Z.eqb_spec g' g); eauto.
Qed.

Lemma counts_wf_frame s s' :
  counts_wf s -> ps_objects s' = ps_objects s -> Forall (fun c => c.1.2 s' = c.1.2 s) caps ->
  counts_wf s'.
Proof.
  unfold counts_wf. intros H Ho Hc. rewrite Ho. rewrite List.Forall_forall in *.
  intros c Hin. rewrite (Hc c Hin). by apply H.
Qed.

(** A frame for the steps that leave the table alone. *)
Lemma server_wf_frame s s' :
  server_wf s -> ps_objects s' = ps_objects s -> ps_phase s' = ps_phase s ->
  ps_identity s' = ps_identity s -> ps_principal_id s' = ps_principal_id s ->
  ps_watermark s <= ps_watermark s' <= CLIENT_ID_MAX ->
  Forall (fun c => c.1.2 s' = c.1.2 s) caps ->
  0 <= ps_petition_tokens s' <= PETITION_RATE_BURST -> server_wf s'.
Proof.
  intros [H1 H2 H3 H4 H5] Ho Hp Hi Hid Hw Hc Ht. split; [..|done].
  - rewrite Ho. eapply objects_wf_mono; [done|lia].
  - lia.
  - by eapply counts_wf_frame.
  - eapply party_wf_frame; try done; [lia|by rewrite Ho].
Qed.

Lemma mintable_spec s k bump id :
  mintable s k bump -> server_wf s -> ps_watermark s < id ->
  objects_wf id (<[id := k]> (ps_objects s)) /\ counts_wf (bump (insert_object id k (set_watermark id s)))
  /\ (let s' := bump (insert_object id k (set_watermark id s)) in
      ps_objects s' = <[id := k]> (ps_objects s) /\ ps_phase s' = ps_phase s
      /\ ps_identity s' = ps_identity s /\ ps_principal_id s' = ps_principal_id s
      /\ ps_watermark s' = id /\ ps_petition_tokens s' = ps_petition_tokens s).
Proof.
  intros Hm [H1 H2 H3 H4 H5] Hid.
  assert (ps_objects s !! id = None) as Hnone by (by eapply objects_fresh).
  split.
  { eapply objects_wf_insert; [done|lia|]. destruct Hm; intros ? [= <-]; eauto. }
  assert (forall f, bt_count (<[id := k]> (ps_objects s)) f
    = bt_count (ps_objects s) f + (if f k then 1 else 0)) as Hcount
    by (intros f; by apply bt_count_insert_fresh).
  unfold counts_wf, caps in *. repeat rewrite Forall_cons in *. cbn [fst snd] in *.
  destruct Hm; (split; [|done]); simpl; rewrite !Hcount; simpl; unfold MAX_LIVE_REALMS, MAX_LIVE_LAUNCHERS,
    MAX_LIVE_LAYOUT_FACETS, MAX_LIVE_POWERBOXES, MAX_LIVE_EGRESS_FACETS, MAX_LIVE_PETITIONS in *;
    repeat split; try done; lia.
Qed.

Lemma server_step_wf now s s' : server_step now s s' -> server_wf s -> server_wf s'.
Proof.
  intros Hstep Hwf. pose proof Hwf as [H1 H2 H3 H4 H5].
  destruct Hstep as [|id Hid|id i Hp Hid|id k bump Hp Hid Hm|b s' Hp Ht
    |g c v p t s' Hp Hcap Ht Hg Hc Hv Hpt Htx Hmax|g row Hp Hg|c Hp].
  - split; [exact H1|exact H2|by apply (counts_wf_frame s); [| |repeat constructor]| |exact H5]. unfold party_wf in *. simpl. destruct (ps_phase s); [destruct H4 as (? & ? & ?); by right|..].
    + left. by destruct H4 as [?|[? _]].
    + done.
  - eapply server_wf_frame; try done; [simpl; lia|by repeat constructor].
  - split; simpl; [eapply objects_wf_mono; [done|lia]|lia|by apply (counts_wf_frame s); [| |repeat constructor]| |exact H5].
    unfold party_wf in *. rewrite Hp in H4. destruct H4 as (_ & _ & Ho). left. exists i, id. simpl.
    rewrite Ho. repeat split; try done; lia.
  - destruct (mintable_spec s k bump id) as (Ho & Hc & Hs); try done; [lia|]. cbv zeta in Hs.
    destruct Hs as (Hs1 & Hs2 & Hs3 & Hs4 & Hs5 & Hs6). split.
    + by rewrite Hs1, Hs5.
    + rewrite Hs5. lia.
    + done.
    + eapply party_wf_frame; [exact H4|done..|lia| |congruence]. intros i Hi. rewrite Hs1.
      by rewrite bt_lookup_insert_ne by lia.
    + by rewrite Hs6.
  - pose proof (take_token_bounds _ _ _ _ Ht H5) as Hb. destruct (token_shape _ _ _ _ Ht) as (n & a & ->).
    apply (server_wf_frame s); [exact Hwf|done..|simpl; lia|by repeat constructor|exact Hb].
  - pose proof (take_token_bounds _ _ _ _ Ht H5) as Hb. destruct (token_shape _ _ _ _ Ht) as (n & a & ->).
    destruct (petition_objects_spec (ps_watermark s) (ps_objects s) g c v p t) as [Ho Hcount];
      try done; [lia|].
    split; [exact Ho|simpl; lia| | |done].
    + unfold counts_wf, caps in *. repeat rewrite Forall_cons in *. cbn [fst snd] in *. simpl.
      fold (petition_objects g c v p t (ps_objects s)). rewrite !Hcount. simpl.
      unfold MAX_LIVE_PETITIONS in *. repeat split; try done; lia.
    + eapply party_wf_frame; [exact H4|done..|simpl; lia| |simpl; congruence].
      intros i Hi. simpl. by rewrite !bt_lookup_insert_ne by lia.
  - assert (forall i, <[g := OGrant (HResolved row)]> (ps_objects s) !! i = None <-> ps_objects s !! i = None)
      as Hnone by (intros i; rewrite bt_lookup_insert; destruct (Z.eqb_spec i g) as [->|]; [rewrite Hg; by split|done]).
    split; simpl; [by eapply objects_wf_resolve|done|..|done].
    + unfold counts_wf, caps in *. repeat rewrite Forall_cons in *. cbn [fst snd] in *. simpl.
      rewrite !(bt_count_insert_same _ _ _ _ _ (ow_order _ _ H1) Hg) by done.
      destruct_and! H3. repeat split; done.
    + eapply party_wf_frame; [exact H4|done..|simpl; lia|by intros; apply Hnone|simpl; congruence].
  - apply (server_wf_frame s); [exact Hwf|done..|simpl; lia|by repeat constructor|exact H5].
Qed.

(* ------------------------------------------------------------------------ *)
(** ** The petition rate *)

(** What the token bucket holds at a time, in nanoseconds of refill. *)
Definition petition_credit (s : PrincipalServer) (t : Instant) : Z :=
  match ps_petition_refill_anchor s with
  | None => PETITION_RATE_BURST * nanos_per_sec
  | Some a => Z.min ((PETITION_RATE_BURST + 1) * nanos_per_sec)
                (ps_petition_tokens s * nanos_per_sec + (t - a))
  end.

Record rate_wf (K : Z) (t : Instant) (s : PrincipalServer) : Prop := {
  rw_tokens : 0 <= ps_petition_tokens s <= PETITION_RATE_BURST;
  rw_anchor : match ps_petition_refill_anchor s with
              | None => ps_petition_tokens s = PETITION_RATE_BURST
              | Some a => a <= t
              end;
  rw_credit : ps_petition_count s * nanos_per_sec + petition_credit s t <= K + t }.

Lemma take_token_credit K t s b s' :
  take_petition_token s t = (b, s') -> rate_wf K t s ->
  rate_wf (K - if b then nanos_per_sec else 0) t s'.
Proof.
  intros Ht [Hb Ha Hc]. revert Ht. unfold take_petition_token. cbv zeta.
  set (e := since t (default t (ps_petition_refill_anchor s)) / nanos_per_sec).
  assert (0 <= e /\ e * nanos_per_sec <= t - default t (ps_petition_refill_anchor s)
          < e * nanos_per_sec + nanos_per_sec) as [He Hdiv].
  { assert (default t (ps_petition_refill_anchor s) <= t)
      by (destruct (ps_petition_refill_anchor s); simpl; [done|lia]).
    pose proof (Z.div_mod (since t (default t (ps_petition_refill_anchor s))) nanos_per_sec) as Hd.
    pose proof (Z.mod_pos_bound (since t (default t (ps_petition_refill_anchor s))) nanos_per_sec) as Hm.
    fold e in Hd. unfold since in *. unfold nanos_per_sec in *. split; [|lia].
    apply Z.div_pos; lia. }
  clearbody e. set (r := Z.min u64_max (e * PETITION_REFILL_PER_SEC)).
  assert (r <= e /\ (r = e \/ PETITION_RATE_BURST <= r)) as Hr
    by (unfold r, u64_max, PETITION_REFILL_PER_SEC, PETITION_RATE_BURST; lia).
  assert (0 <= r) as Hr0 by (unfold r, u64_max, PETITION_REFILL_PER_SEC; lia). clearbody r.
  unfold petition_credit, from_secs, PETITION_RATE_BURST, nanos_per_sec in *.
  destruct (ps_petition_refill_anchor s) as [a|] eqn:Hanc; simpl in Hdiv.
  - destruct (Z.ltb_spec 0 r); [destruct (Z.eqb_spec (Z.min (ps_petition_tokens s + r) 8) 8)|];
      simpl; case_match; intros [= <- <-]; unbool; split; unfold petition_credit; simpl;
      unfold PETITION_RATE_BURST, nanos_per_sec; lia.
  - destruct (Z.ltb_spec 0 r); [destruct (Z.eqb_spec (Z.min (ps_petition_tokens s + r) 8) 8)|];
      simpl; case_match; intros [= <- <-]; unbool; split; unfold petition_credit; simpl;
      unfold PETITION_RATE_BURST, nanos_per_sec; lia.
Qed.

(** A petition counts as its token is taken. *)
Lemma rate_step K now s s' : server_step now s s' -> rate_wf K now s -> rate_wf K now s'.
Proof.
  intros Hstep Hr. destruct Hstep as [| | |id k bump Hp Hid Hm|b s' Hp Ht|g c v p t s' Hp Hcap Ht| |].
  all: try (by destruct Hr; split).
  - destruct Hr. by destruct Hm; split.
  - destruct (take_token_credit K _ _ _ _ Ht Hr) as [Hb Ha Hcr]. split; [done|done|]. destruct b; [|lia].
    unfold nanos_per_sec in *. lia.
  - destruct (take_token_credit K _ _ _ _ Ht Hr) as [Hb Ha Hcr]. split; simpl; [done|done|].
    unfold petition_credit in *. simpl. unfold nanos_per_sec in *. lia.
Qed.

Lemma rate_time K t now s : t <= now -> rate_wf K t s -> rate_wf K now s.
Proof.
  intros Ht [H1 H2 H3]. split; [done|..].
  - destruct (ps_petition_refill_anchor s); [lia|done].
  - unfold petition_credit, nanos_per_sec in *. destruct (ps_petition_refill_anchor s); lia.
Qed.

Section life.
Context {W X F Fd IoErr Digest : Type}.
Implicit Types (s : Core W).
Local Abbreviation run := (@conn_run W X F Fd IoErr Digest).

Lemma run_wf t s t' s' : run t s t' s' -> server_wf (st_server s) -> server_wf (st_server s').
Proof.
  intros Hrun. apply (conn_run_ind' (fun _ => server_wf) _ _ _ _ (fun _ _ _ _ H => H)
    (fun now a b H Hwf => server_step_wf now a b H Hwf) Hrun).
Qed.

Lemma accepted_wf s : accepted s -> server_wf (st_server s).
Proof.
  intros (uid & c & ->). split; simpl.
  - split; [apply bt_wf_empty|done..].
  - done.
  - unfold counts_wf. repeat constructor; done.
  - done.
  - done.
Qed.

Lemma run_rate K t s t' s' : run t s t' s' -> rate_wf K t (st_server s) -> rate_wf K t' (st_server s').
Proof.
  intros Hrun. exact (conn_run_ind' (rate_wf K) _ _ _ _ (rate_time K) (rate_step K) Hrun).
Qed.

(** What is in the table stays: only a pending handle changes, once. *)
Lemma step_keeps now (s s' : PrincipalServer) id k :
  server_step now s s' -> server_wf s -> ps_objects s !! id = Some k ->
  ps_objects s' !! id = Some k
  \/ (k = OGrant HPending /\ exists row, ps_objects s' !! id = Some (OGrant (HResolved row))).
Proof.
  intros Hstep [[_ Hids _] _ _ _ _] Hk. pose proof (Hids _ _ Hk) as Hid.
  destruct Hstep as [| | |id' k' bump Hp Hid' Hm|b s' Hp Ht|g c v p t s' Hp Hcap Ht| |]; try (by left).
  - left. assert (ps_objects (bump (insert_object id' k' (set_watermark id' s))) = <[id' := k']> (ps_objects s))
      as -> by by destruct Hm. by rewrite bt_lookup_insert_ne by lia.
  - destruct (token_shape _ _ _ _ Ht) as (? & ? & ->). by left.
  - destruct (token_shape _ _ _ _ Ht) as (? & ? & ->). left. simpl.
    by rewrite !bt_lookup_insert_ne by lia.
  - simpl. rewrite bt_lookup_insert. destruct (Z.eqb_spec id g) as [->|]; [right|by left].
    split; [congruence|eauto].
Qed.

Lemma run_keeps t s t' s' id row :
  run t s t' s' -> server_wf (st_server s) ->
  ps_objects (st_server s) !! id = Some (OGrant (HResolved row)) ->
  ps_objects (st_server s') !! id = Some (OGrant (HResolved row)).
Proof.
  intros Hrun Hwf Hk.
  apply (conn_run_ind' (fun _ a => server_wf a /\ ps_objects a !! id = Some (OGrant (HResolved row)))
    _ _ _ _ (fun _ _ _ _ H => H)) in Hrun; [by apply Hrun| |done].
  intros now a b Hstep [Ha Hka]. split; [by eapply server_step_wf|].
  by destruct (step_keeps _ _ _ _ _ Hstep Ha Hka) as [?|[? _]].
Qed.

(** Once bound, always the same party. *)
Lemma step_identity now (s s' : PrincipalServer) i :
  server_step now s s' -> server_wf s -> ps_identity s = Some i -> ps_identity s' = Some i.
Proof.
  intros Hstep [_ _ _ Hparty _] Hi.
  destruct Hstep as [| |? ? Hp|id' k' bump Hp Hid' Hm|b s' Hp Ht|g c v p t s' Hp Hcap Ht| |]; try done.
  - unfold party_wf in Hparty. rewrite Hp in Hparty. by destruct Hparty as [Hn _]; rewrite Hn in Hi.
  - by destruct Hm.
  - by destruct (token_shape _ _ _ _ Ht) as (? & ? & ->).
  - by destruct (token_shape _ _ _ _ Ht) as (? & ? & ->).
Qed.

Lemma run_identity t s t' s' i :
  run t s t' s' -> server_wf (st_server s) -> ps_identity (st_server s) = Some i ->
  ps_identity (st_server s') = Some i.
Proof.
  intros Hrun Hwf Hi.
  apply (conn_run_ind' (fun _ a => server_wf a /\ ps_identity a = Some i)
    _ _ _ _ (fun _ _ _ _ H => H)) in Hrun; [by apply Hrun| |done].
  intros now a b Hstep [Ha Hka]. split; [by eapply server_step_wf|by eapply step_identity].
Qed.

Lemma run_clock t s t' s' : run t s t' s' -> t <= t'.
Proof. induction 1; lia. Qed.

(** *** Rows *)

(** A row this connection holds: one of its handles resolved to it. *)
Definition owned (a : PrincipalServer) (id : GrantId) : Prop :=
  exists h, ps_objects a !! h = Some (OGrant (HResolved (Some id))).

Lemma remove_rows_cons k ks g id :
  exists g', remove_rows (k :: ks) g = remove_rows ks g'
  /\ (k = OGrant (HResolved (Some id)) -> entries g' !! id = None)
  /\ (k <> OGrant (HResolved (Some id)) -> entries g' !! id = entries g !! id)
  /\ (entries g !! id = None -> entries g' !! id = None).
Proof.
  destruct (match k with OGrant (HResolved (Some i)) => Some i | _ => None end) as [i|] eqn:Hk.
  - destruct k as [|[|[j|]]| | | | | | | | |]; simplify_eq/=. exists (Grants.remove g i).2.
    split; [done|]. simpl. rewrite bt_lookup_remove.
    destruct (Z.eqb_spec id i) as [->|Hne]; (split; [|split]); try done; congruence.
  - exists g. destruct k as [|[|[j|]]| | | | | | | | |]; simplify_eq/=; done.
Qed.

Lemma remove_rows_spec ks g id :
  (In (OGrant (HResolved (Some id))) ks -> entries (remove_rows ks g) !! id = None)
  /\ (~ In (OGrant (HResolved (Some id))) ks -> entries (remove_rows ks g) !! id = entries g !! id)
  /\ (entries g !! id = None -> entries (remove_rows ks g) !! id = None).
Proof.
  revert g. induction ks as [|k ks IH]; intros g; [done|].
  destruct (remove_rows_cons k ks g id) as (g' & -> & H1 & H2 & H3).
  destruct (IH g') as (I1 & I2 & I3). split; [|split; [|auto]].
  - intros [Heq|?]; auto.
  - intros Hni. rewrite I2; [apply H2|]; intros ?; apply Hni; [by left|by right].
Qed.

Lemma owned_In a id :
  bt_wf (ps_objects a) -> owned a id <-> In (OGrant (HResolved (Some id))) (bt_values (ps_objects a)).
Proof. intros Hwf. by rewrite (bt_values_In _ _ Hwf). Qed.

(** A row that appears in the table under an operation is held by it. *)
Definition new_rows_owned s s' : Prop :=
  forall id, entries (st_grants s) !! id = None -> is_Some (entries (st_grants s') !! id) ->
  owned (st_server s') id.

Lemma insert_row_new a g now id :
  entries g !! id = None -> is_Some (entries (insert_row a g now).2 !! id) ->
  (insert_row a g now).1 = Ok id.
Proof.
  unfold insert_row. intros Hn. destruct (insert_spec g (spec_of_approved a) now) as [[_ ->]|[_ [e ->]]];
    simpl; [|rewrite Hn; by intros [? ?]].
  rewrite bt_lookup_insert. destruct (Z.eqb_spec id (next_id g)) as [->|]; [done|].
  rewrite Hn. by intros [? ?].
Qed.

Lemma new_rows_same s s' : st_grants s' = st_grants s -> new_rows_owned s s'.
Proof. intros Hg id Hn. rewrite Hg, Hn. by intros [? ?]. Qed.

Lemma enforce_use_rows req petitions (env : @UseEnv W X Fd IoErr Digest) now (v : @St W) r u id :
  enforce_use req petitions env now v = (r, u) ->
  entries (Enforcement.grants v) !! id = None -> entries (Enforcement.grants u) !! id = None.
Proof.
  intros Hu Hn. pose proof (enforce_use_grants req petitions env now v) as Hug. cbv zeta in Hug.
  rewrite Hu in Hug. simpl in Hug. destruct Hug as [[-> _]|(row & -> & _)]; [done|]. simpl.
  unfold commit_use. destruct (entries (Enforcement.grants v) !! row) as [e|]; [|done].
  case_match; [|done]. simpl. rewrite bt_lookup_set. by case_match; rewrite Hn.
Qed.

Lemma new_rows_message (cx : ServerCtx W X Fd IoErr Digest) (msg : Ipc.Message F) detail s :
  new_rows_owned s (handle_message detail cx msg s).2.
Proof.
  destruct (handles_message cx s msg detail) as [_ Hd].
  destruct Hd as [kind r u [_ (facet & grant & i & k & _ & _ & _ & Hu)] _ Hus _|evs _ _ _ Hg _
    |[req held evs _ _ _ [Hg|(r & a & _ & _ & Hg & Hown)] _ _ _]]; try (by apply new_rows_same).
  - assert (st_grants (handle_message detail cx msg s).2 = grants u) as Hgr by (by rewrite <-Hus).
    intros id Hn [e He]. rewrite Hgr in He. by rewrite (enforce_use_rows _ _ _ _ _ _ _ id Hu Hn) in He.
  - intros id Hn Hs. exists (rs_grant_wire_id r). apply Hown. rewrite Hg in Hs.
    by apply insert_row_new.
Qed.

Lemma new_rows_deliver (send : PrincipalEvent Fd -> W -> result unit X * W) now r s :
  new_rows_owned s (deliver_resolution send now r s).2.
Proof.
  assert (forall res g, verdict_row now (rs_verdict r) (st_grants s) = (res, g) -> forall id,
    entries (st_grants s) !! id = None -> is_Some (entries g !! id) -> res = Ok (Some id)) as Hnew.
  { unfold verdict_row. intros res g Hrow id Hn Hid.
    destruct (rs_verdict r) as [a|]; simplify_eq; [|rewrite Hn in Hid; by destruct Hid].
    pose proof (insert_row_new a (st_grants s) now id Hn) as Hi.
    destruct (insert_row a (st_grants s) now) as [[i|e] g1]; simplify_eq; simpl in Hi.
    - by injection (Hi Hid) as ->.
    - by specialize (Hi Hid). }
  destruct (deliver_cases send now r s) as [|e g s' _ _ _ Hrow _ <-|row g evs res s' _ _ _ Hrow Hs <-];
    [by apply new_rows_same|..]; intros id Hn Hid.
  - by specialize (Hnew _ _ Hrow id Hn Hid).
  - exists (rs_grant_wire_id r). rewrite Hs. simpl. specialize (Hnew _ _ Hrow id Hn Hid).
    injection Hnew as ->. apply bt_lookup_insert_eq.
Qed.

Lemma new_rows_op now s s' :
  conn_op (F := F) (IoErr := IoErr) (Digest := Digest) (X := X) (Fd := Fd) now s s' -> new_rows_owned s s'.
Proof.
  intros [cx msg detail _|send r|send route|send|].
  - apply new_rows_message.
  - apply new_rows_deliver.
  - apply new_rows_same. unfold emit_consent_shown. repeat case_match; done.
  - apply new_rows_same. unfold deliver_attention. repeat case_match; done.
  - intros id Hn Hs. unfold teardown in Hs. destruct (withdraw_connection _ _). simpl in Hs.
    destruct (remove_rows_spec (bt_values (ps_objects (st_server s))) (st_grants s) id) as (_ & _ & H).
    rewrite (H Hn) in Hs. by destruct Hs.
Qed.

(** *** The dead *)

Lemma set_dead s : ps_phase (st_server s) = Dead -> on_server (set_phase Dead) s = s.
Proof. destruct s as [[] ? ? ? ?]. simpl. by intros ->. Qed.

Lemma dead_message (cx : ServerCtx W X Fd IoErr Digest) (msg : Ipc.Message F) detail s :
  ps_phase (st_server s) = Dead ->
  handle_message detail cx msg s = (Err (Violation ConnectionDead), s).
Proof.
  intros Hd. unfold handle_message, dispatch, pbind, pget. rewrite Hd. simpl.
  rewrite bool_decide_true by done. by rewrite set_dead.
Qed.

Lemma dead_deliver (send : PrincipalEvent Fd -> W -> result unit X * W) now r s :
  ps_phase (st_server s) = Dead -> exists e, deliver_resolution send now r s = (Err e, s).
Proof.
  intros Hd. unfold deliver_resolution, pbind, pget. case_match; [by eexists|].
  rewrite bool_decide_false by (by rewrite Hd). by eexists.
Qed.

Lemma dead_inert now s s' :
  conn_op (F := F) (IoErr := IoErr) (Digest := Digest) (X := X) (Fd := Fd) now s s' ->
  ps_phase (st_server s) = Dead -> s' = s \/ s' = teardown s.
Proof.
  intros [cx msg detail _|send r|send route|send|] Hd; [left..|by right].
  - by rewrite dead_message.
  - by destruct (dead_deliver send now r s Hd) as [e ->].
  - unfold emit_consent_shown. case_match; [done|]. by rewrite bool_decide_false by (by rewrite Hd).
  - unfold deliver_attention. by rewrite bool_decide_false by (by rewrite Hd).
Qed.

Lemma teardown_spec s :
  teardown s = on_server (set_phase Dead)
    (set_grants (remove_rows (bt_values (ps_objects (st_server s))) (st_grants s))
      (set_petitions (withdraw_connection (st_petitions s) (ps_connection (st_server s))).2 s)).
Proof. unfold teardown. by destruct (withdraw_connection _ _). Qed.
Lemma teardown_dead s : ps_phase (st_server (teardown s)) = Dead.
Proof. by rewrite teardown_spec. Qed.
Lemma teardown_world s : st_world (teardown s) = st_world s.
Proof. by rewrite teardown_spec. Qed.
Lemma teardown_grants s :
  st_grants (teardown s) = remove_rows (bt_values (ps_objects (st_server s))) (st_grants s).
Proof. by rewrite teardown_spec. Qed.
Lemma teardown_petitions s :
  st_petitions (teardown s) = (withdraw_connection (st_petitions s) (ps_connection (st_server s))).2.
Proof. by rewrite teardown_spec. Qed.
End life.

(* ------------------------------------------------------------------------ *)
(** ** Before the handshake *)

Section handshake.
Context {W X F Fd IoErr Digest : Type}.
Implicit Types (s : Core W) (cx : ServerCtx W X Fd IoErr Digest) (msg : Ipc.Message F).

(** A hello fit to be judged, and what is put to the verifier. *)
Record hello_presented s msg (hello : Hello) : Prop := {
  hp_object : object_id (Ipc.msg_header msg) = HANDSHAKE_ID;
  hp_opcode : opcode (Ipc.msg_header msg) = 0;
  hp_decode : exists oid, decode_frame 0 false c_hello (Ipc.msg_bytes msg) (Ipc.msg_fd msg) = Ok (oid, hello);
  hp_version : hello_version hello = PROTOCOL_VERSION;
  hp_fresh : ps_watermark (st_server s) < hello_principal hello <= CLIENT_ID_MAX }.

Definition presented s (hello : Hello) : PresentedCredential :=
  {| claimed_identity := hello_identity hello; credential_type := hello_credential_type hello;
     credential := Utf8.encode (hello_credential hello); peer_uid := ps_peer_uid (st_server s) |}.

Lemma allocate_exact id s :
  ps_watermark (st_server s) < id <= CLIENT_ID_MAX ->
  allocate_id (X := X) id s = (Ok tt, on_server (set_watermark id) s).
Proof.
  intros Hid. unfold allocate_id, pbind, pget.
  rewrite (proj2 (Z.leb_gt _ _)), (proj2 (Z.leb_gt id _)), (proj2 (Z.ltb_ge _ _)) by lia. done.
Qed.

(** The two ways a message goes before the handshake. *)
Lemma connected_dispatch cx msg detail s :
  ps_phase (st_server s) = Connected ->
  let '(res, s') := dispatch detail cx msg s in
  (exists v, (forall hello, ~ hello_presented s msg hello) /\ res = Err (Violation v) /\ s' = s)
  \/ (exists hello, hello_presented s msg hello /\
      let known := on_server (set_watermark (hello_principal hello)) s in
      let refused cause :=
        res = Err (Violation (AuthFailed (hello_identity hello) (hello_credential_type hello)
                                (str_len (hello_credential hello)) cause)) /\ s' = known in
      match cx_verify cx (presented s hello) with
      | Identity.Bound i =>
          let '(r, w) := cx_send cx (EvBound (hello_principal hello) i) (st_world s) in
          match r with
          | Ok _ => res = Ok tt
                    /\ s' = on_server (set_bound (hello_principal hello) i) (set_st_world w known)
          | Err x => res = Err (TransportFault x) /\ s' = set_st_world w known
          end
      | Rejected c => refused (CauseRejected c)
      | Identity.Unavailable d => refused (CauseUnavailable d)
      end).
Proof.
  intros Hp. unfold dispatch, pbind at 1, pget at 1. rewrite Hp.
  destruct (_ && _) eqn:Ho; [unbool|left; eexists; split; [|done]; intros h [H1 H2 _ _ _]; by rewrite H1, H2 in Ho].
  unfold handle_hello, decode_request, pbind.
  destruct (decode_frame _ _ _ _ _) as [[oid hello]|e] eqn:Hd; simpl;
    [|left; eexists; split; [|done]; intros h [_ _ [? H3] _ _]; by rewrite Hd in H3].
  destruct (Z.eqb_spec (hello_version hello) PROTOCOL_VERSION) as [Hver|Hver]; simpl;
    [|left; eexists; split; [|done]; intros h [_ _ [? H3] H4 _]; rewrite Hd in H3; by simplify_eq].
  destruct (allocate_cases (X := X) (hello_principal hello) s) as [[-> Hid]|[v Hv]].
  - simpl. fold (presented s hello). destruct (cx_verify cx (presented s hello)) as [i|c|d] eqn:Hv;
      [|by right; exists hello; split; [by split; eauto|]; cbv zeta; rewrite Hv..].
    unfold pmap_err, psend. simpl. destruct (cx_send cx _ (st_world s)) as [[[]|x] w] eqn:Hs; simpl;
      right; exists hello; (split; [by split; eauto|]); cbv zeta; by rewrite Hv, Hs.
  - rewrite Hv. left. exists v. split; [|done]. intros h [_ _ [? H3] _ H5]. rewrite Hd in H3. simplify_eq.
    by rewrite (allocate_exact _ s H5) in Hv.
Qed.

Lemma connected_cases cx msg detail s :
  ps_phase (st_server s) = Connected ->
  let '(res, s') := handle_message detail cx msg s in
  (exists v, (forall hello, ~ hello_presented s msg hello) /\ res = Err (Violation v)
     /\ s' = set_st_world (cx_send cx (EvError (cited_object v) (wire_code v) (wire_message v))
                (st_world s)).2 (on_server (set_phase Dead) s))
  \/ (exists hello, hello_presented s msg hello /\
      let known := on_server (set_watermark (hello_principal hello)) s in
      match cx_verify cx (presented s hello) with
      | Identity.Bound i =>
          let '(r, w) := cx_send cx (EvBound (hello_principal hello) i) (st_world s) in
          match r with
          | Ok _ => res = Ok tt
                    /\ s' = on_server (set_bound (hello_principal hello) i) (set_st_world w known)
          | Err x => res = Err (TransportFault x)
                     /\ s' = on_server (set_phase Dead) (set_st_world w known)
          end
      | _ => (exists v, res = Err (Violation v))
             /\ s' = set_st_world (cx_send cx (EvError HANDSHAKE_ID WAuthFailed (Phrase AUTH_REFUSED_PHRASE))
                        (st_world s)).2 (on_server (set_phase Dead) known)
      end).
Proof.
  intros Hp. pose proof (connected_dispatch cx msg detail s Hp) as Hd. unfold handle_message.
  destruct (dispatch detail cx msg s) as [r s1].
  assert (bool_decide (ps_phase (st_server s) = Dead) = false) as Hlive
    by (apply bool_decide_false; congruence).
  destruct Hd as [(v & Hno & -> & ->)|(hello & Hh & Hs)]; [simpl; rewrite Hlive; left; by exists v|].
  assert (bool_decide (ps_phase (st_server (on_server (set_watermark (hello_principal hello)) s)) = Dead)
    = false) as Hlive' by done.
  destruct (cx_verify cx (presented s hello)) as [i|c|d] eqn:Hv.
  - destruct (cx_send cx _ (st_world s)) as [[[]|x] w] eqn:Hsend; destruct Hs as [-> ->];
      right; exists hello; (split; [done|]); cbv zeta; by rewrite Hv, Hsend.
  - destruct Hs as [-> ->]. rewrite Hlive'. right. exists hello. split; [done|]. cbv zeta. rewrite Hv.
    split; [by eexists|done].
  - destruct Hs as [-> ->]. rewrite Hlive'. right. exists hello. split; [done|]. cbv zeta. rewrite Hv.
    split; [by eexists|done].
Qed.
End handshake.

(* ------------------------------------------------------------------------ *)
(** ** A concrete connection *)

(** A context whose world is the log of the events sent. *)
Definition demo_cx (now : Instant) : ServerCtx (list (PrincipalEvent (list Z))) unit (list Z) unit (list Z) :=
  {| cx_verify := fun p => if bool_decide (claimed_identity p = str "vitrin://local/agent/demo")
                           then Identity.Bound (claimed_identity p) else Rejected UnknownIdentity;
     cx_realms := demo_realms;
     cx_now := now;
     cx_realm_view := fun _ => Some {| rgba := [1; 2; 3; 4]; v_width := 1; v_height := 1 |};
     cx_realm_is_live := fun _ => true;
     cx_physical_realm := None;
     cx_presence := ∅;
     cx_actuations := fun _ _ w => w;
     cx_layout := fun _ w => w;
     cx_launch := fun _ w => (Err LCapacity, w);
     cx_designate := fun _ w => (Err Unavailable, w);
     cx_memfd := fun b => Ok b;
     cx_digest_of := fun b => b;
     cx_send := fun e w => (Ok tt, w ++ [e]) |}.

Definition demo_message {A} (oid op : Z) (c : codec A) (m : A) : Ipc.Message (list Z) :=
  let bytes := default [] (encode_frame op false c oid m) in
  {| Ipc.msg_header := {| object_id := oid; size := blen bytes; opcode := op; fd_count := 0 |};
     Ipc.msg_bytes := bytes; Ipc.msg_fd := None |}.

Definition demo_hello : Ipc.Message (list Z) :=
  demo_message 1 0 c_hello
    {| hello_version := 2; hello_principal := 2; hello_identity := str "vitrin://local/agent/demo";
       hello_credential_type := str "none"; hello_credential := [] |}.
Definition demo_get_realm : Ipc.Message (list Z) :=
  demo_message 2 0 c_get_realm (3, str "realm-0").
Definition demo_grant : Ipc.Message (list Z) :=
  demo_message 3 0 c_request_grant
    {| rg_grant := 4; rg_consent := 5; rg_view := 6; rg_pointer := 7; rg_text := 8; rg_resource := [];
       rg_verbs := 3; rg_expiry_ms := 60000; rg_max_event_rate := 10;
       rg_persistence := WWhileRunning; rg_flags := 0 |}.
Definition demo_capture : Ipc.Message (list Z) := demo_message 6 0 c_capture_frame tt.

Definition demo_accepted : Core (list (PrincipalEvent (list Z))) :=
  {| st_server := principal_new 1000 1; st_petitions := demo_registry; st_grants := table_new;
     st_attention := demo_signal; st_world := [] |}.
Definition demo_detail (e : DeliveryError unit) : Str := [].
Definition demo_bound : Core (list (PrincipalEvent (list Z))) :=
  (handle_message demo_detail (demo_cx 0) demo_hello demo_accepted).2.
Definition demo_petitioned : Core (list (PrincipalEvent (list Z))) :=
  (handle_message demo_detail (demo_cx 0) demo_grant
    (handle_message demo_detail (demo_cx 0) demo_get_realm demo_bound).2).2.
Example demo_petitions :
  st_world demo_petitioned = [EvBound 2 (str "vitrin://local/agent/demo"); EvConsent 5 Queued].
Proof. vm_compute. reflexivity. Qed.
(** The human allows it, and the core delivers. *)
Definition demo_resolution : Resolution :=
  match (resolve_human (st_petitions demo_petitioned) 1 (Allow Once)).1 with
  | Ok r => r
  | Err _ => {| rs_connection := 0; rs_grant_wire_id := 0; rs_consent_wire_id := 0;
                rs_emit_closed := false; rs_verdict := Declined Denied |}
  end.
Local Abbreviation demo_resolved :=
  (deliver_resolution (cx_send (demo_cx 9)) 9 demo_resolution demo_petitioned).2.
Definition demo_used : Core (list (PrincipalEvent (list Z))) :=
  (handle_message demo_detail (demo_cx 9) demo_capture demo_resolved).2.
Example demo_uses :
  List.length (st_world demo_used) = 5%nat /\ grant_row_id (st_server demo_used) 4 = Some 1.
Proof. by vm_compute. Qed.

Local Abbreviation demo_life := (conn_run (X := unit) (F := list Z) (Fd := list Z) (IoErr := unit) (Digest := list Z)).

Lemma demo_run_petitioned : demo_life 0 demo_accepted 0 demo_petitioned.
Proof.
  apply (run_op _ _ 0 demo_bound); [done|by apply (co_message _ _ (demo_cx 0))|].
  eapply (run_op _ _ 0); [done|by apply (co_message _ _ (demo_cx 0) demo_get_realm demo_detail)|].
  apply (run_op _ _ 0 demo_petitioned); [done|by apply (co_message _ _ (demo_cx 0))|]. apply run_stop.
Qed.

Lemma demo_run_used : demo_life 9 demo_resolved 9 demo_used.
Proof.
  apply (run_op _ _ 9 demo_used); [done|by apply (co_message _ _ (demo_cx 9))|]. apply run_stop.
Qed.

Lemma demo_run : demo_life 0 demo_petitioned 9 demo_used.
Proof.
  apply (run_op _ _ 9 demo_resolved); [done|by apply (co_deliver _ _ (cx_send (demo_cx 9)))|].
  apply demo_run_used.
Qed.

Lemma demo_new : accepted demo_accepted.
Proof. by exists 1000, 1. Qed.

(* ------------------------------------------------------------------------ *)
(** ** Properties *)

Section properties.
Context {W X F Fd IoErr Digest : Type}.
Local Abbreviation run := (@conn_run W X F Fd IoErr Digest).
Local Abbreviation op := (@conn_op W X F Fd IoErr Digest).

(** C29: a connection's table stays well formed over its whole life. From an
    accepted connection, after any sequence of messages, deliveries, consent
    notices, attention and teardown, whatever the rest of the core does between
    them: every object's id was allocated once, above the handshake object and
    under the watermark, which stays in the client range; every facet belongs
    to a grant handle of the same table that is older than it; the counters of
    realms, petitions (with their consent, view, pointer and text objects),
    launchers, layout facets, powerboxes and egress facets are exact and within
    their caps; a party is known exactly when the handshake completed, and its
    own id is not an object's; and the petition tokens are within the burst. *)
Theorem principal_state_wf (t0 t : Z) (s0 s : Core W)
  (Hnew : accepted s0) (Hrun : run t0 s0 t s) :
  server_wf (st_server s).
Proof. eapply run_wf; [done|]. by apply accepted_wf. Qed.

(** The petition ceiling. Over any part of a connection's life, the
    petitions it makes are at most the burst of eight, one for every second
    that passed, and one more for a second already under way; from its
    acceptance they are at most eight and one for every second; and there are
    never more than two hundred and fifty-six. *)
Theorem principal_petition_rate (t0 t1 t2 : Z) (s0 s1 s2 : Core W)
  (Hnew : accepted s0) (Hrun1 : run t0 s0 t1 s1) (Hrun2 : run t1 s1 t2 s2) :
  (ps_petition_count (st_server s2) - ps_petition_count (st_server s1)) * nanos_per_sec
    <= (PETITION_RATE_BURST + 1) * nanos_per_sec + (t2 - t1)
  /\ ps_petition_count (st_server s2) * nanos_per_sec
    <= PETITION_RATE_BURST * nanos_per_sec + (t2 - t0)
  /\ bt_count (ps_objects (st_server s2)) is_grant = ps_petition_count (st_server s2)
  /\ ps_petition_count (st_server s2) <= MAX_LIVE_PETITIONS.
Proof.
  set (K0 := PETITION_RATE_BURST * nanos_per_sec - t0).
  assert (rate_wf K0 t0 (st_server s0)) as H0.
  { destruct Hnew as (uid & c & ->). split; [done|done|].
    unfold K0, petition_credit. simpl. unfold PETITION_RATE_BURST, nanos_per_sec. lia. }
  pose proof (run_rate _ _ _ _ _ Hrun1 H0) as [Ht1 Ha1 _].
  pose proof (run_rate _ _ _ _ _ (conn_run_trans _ _ _ _ _ _ Hrun1 Hrun2) H0) as [_ _ H2].
  set (K1 := ps_petition_count (st_server s1) * nanos_per_sec + petition_credit (st_server s1) t1 - t1).
  assert (rate_wf K1 t1 (st_server s1)) as H1 by (split; [done|done|unfold K1; lia]).
  pose proof (run_rate _ _ _ _ _ Hrun2 H1) as [Ht2 Ha2 H3].
  assert (0 <= petition_credit (st_server s2) t2) as Hc2.
  { unfold petition_credit. destruct (ps_petition_refill_anchor (st_server s2)); unfold PETITION_RATE_BURST, nanos_per_sec in *; lia. }
  assert (petition_credit (st_server s1) t1 <= (PETITION_RATE_BURST + 1) * nanos_per_sec) as Hc1.
  { unfold petition_credit. destruct (ps_petition_refill_anchor (st_server s1)); unfold PETITION_RATE_BURST, nanos_per_sec in *; lia. }
  pose proof (run_wf _ _ _ _ (conn_run_trans _ _ _ _ _ _ Hrun1 Hrun2) (accepted_wf _ Hnew)) as [_ _ Hc _ _].
  unfold counts_wf, caps in Hc. repeat rewrite Forall_cons in Hc. destruct_and! Hc.
  unfold K0, K1 in *. simpl in *. unfold MAX_LIVE_PETITIONS. lia.
Qed.

(** C3: everything a message can do goes through one door. Whatever the bytes,
    the context and the state: the server itself only takes steps of its state
    machine, and beyond it the message either uses one facet of this
    connection's table through the chokepoint, with the identity the handshake
    bound and the row that this connection's own handle resolved to; or makes
    one petition in that identity's name and for this connection, which alone
    may add a row, the one its own immediate resolution approved; or touches
    neither petitions, grants nor attention. Nothing it sends past the
    chokepoint is an event of a use. *)
Theorem principal_one_door (cx : ServerCtx W X Fd IoErr Digest) (msg : Ipc.Message F)
  (detail : DeliveryError X -> Str) (s : Core W) :
  let '(res, s') := handle_message detail cx msg s in
  server_steps (cx_now cx) (st_server s) (st_server s') /\ door cx s res s'.
Proof.
  pose proof (handles_message cx s msg detail) as [H1 H2].
  by destruct (handle_message detail cx msg s).
Qed.

(** C17: a hello and the verifier's word, and nothing else, bind a connection.
    Before the handshake no message touches petitions, grants or attention. A
    hello on the handshake object that decodes, is of this protocol version and
    names a fresh id in the client range is put to the verifier with the uid of
    the socket: if the verifier names an identity, the connection is bound to it
    as it is announced (or dies with the transport); if it refuses, or cannot
    judge, the connection dies, and whatever the cause the wire hears the same
    phrase. Any other message is a violation, told once, and death with no
    identity. *)
Theorem principal_auth (cx : ServerCtx W X Fd IoErr Digest) (msg : Ipc.Message F)
  (detail : DeliveryError X -> Str) (s : Core W) (Hp : ps_phase (st_server s) = Connected) :
  let '(res, s') := handle_message detail cx msg s in
  st_petitions s' = st_petitions s /\ st_grants s' = st_grants s /\ st_attention s' = st_attention s
  /\ (forall hello, hello_presented s msg hello ->
       let known := set_watermark (hello_principal hello) (st_server s) in
       match cx_verify cx (presented s hello) with
       | Identity.Bound i =>
           let '(sent, w) := cx_send cx (EvBound (hello_principal hello) i) (st_world s) in
           st_world s' = w
           /\ match sent with
              | Ok _ => res = Ok tt /\ st_server s' = set_bound (hello_principal hello) i known
              | Err x => res = Err (TransportFault x) /\ st_server s' = set_phase Dead known
              end
       | _ =>
           st_server s' = set_phase Dead known
           /\ st_world s' = (cx_send cx (EvError HANDSHAKE_ID WAuthFailed (Phrase AUTH_REFUSED_PHRASE))
                               (st_world s)).2
           /\ exists v, res = Err (Violation v)
       end)
  /\ ((forall hello, ~ hello_presented s msg hello) ->
       exists v, res = Err (Violation v) /\ st_server s' = set_phase Dead (st_server s)
         /\ st_world s' = (cx_send cx (EvError (cited_object v) (wire_code v) (wire_message v))
                             (st_world s)).2).
Proof.
  pose proof (connected_cases cx msg detail s Hp) as Hc.
  destruct (handle_message detail cx msg s) as [res s'].
  destruct Hc as [(v & Hno & -> & ->)|(hello & Hhello & Hs')].
  - simpl. split; [done|]. split; [done|]. split; [done|].
    split; [intros hello Hh; by destruct (Hno hello)|]. intros _. by exists v.
  - assert (forall h, hello_presented s msg h -> h = hello) as Huniq.
    { intros h [_ _ [o1 H1] _ _]. destruct Hhello as [_ _ [o2 H2] _ _]. congruence. }
    assert (st_petitions s' = st_petitions s /\ st_grants s' = st_grants s
            /\ st_attention s' = st_attention s) as (? & ? & ?)
      by (destruct (cx_verify cx (presented s hello)); [destruct (cx_send _ _ _) as [[] ?]|..];
          by destruct Hs' as [_ ->]).
    repeat (split; [done|]). split; [|intros Hno; by destruct (Hno hello)].
    intros h Hh. rewrite (Huniq h Hh). cbv zeta.
    destruct (cx_verify cx (presented s hello)) as [i|c|d];
      [destruct (cx_send _ _ _) as [[[]|x] w]|..]; destruct Hs' as [Hr ->]; done.
Qed.

(** C30: a fault is told once and is the end. When a message fails, the server is
    dead, and a dead server is inert: of the operations the core can still run
    on it, a message answers that the connection is dead, a delivery is refused,
    a consent notice and attention say nothing, and each leaves the whole state
    as it is, without another word on the wire; only teardown acts, and leaves it
    dead. *)
Theorem principal_fault_final (cx : ServerCtx W X Fd IoErr Digest) (msg : Ipc.Message F)
  (detail : DeliveryError X -> Str) (s s' : Core W) (fault : PrincipalFault X)
  (Hfault : handle_message detail cx msg s = (Err fault, s')) :
  ps_phase (st_server s') = Dead
  /\ (forall cx' (msg' : Ipc.Message F) detail',
        handle_message (X := X) (Fd := Fd) (IoErr := IoErr) (Digest := Digest) detail' cx' msg' s'
        = (Err (Violation ConnectionDead), s'))
  /\ (forall (send : PrincipalEvent Fd -> W -> result unit X * W) now r,
        exists e, deliver_resolution send now r s' = (Err e, s'))
  /\ (forall now s'', op now s' s'' -> s'' = s' \/ s'' = teardown s')
  /\ ps_phase (st_server (teardown s')) = Dead.
Proof.
  assert (ps_phase (st_server s') = Dead) as Hdead.
  { unfold handle_message in Hfault. destruct (dispatch detail cx msg s) as [[u|f] s1]; [done|].
    destruct f; [case_bool_decide|]; by injection Hfault as <- <-. }
  split; [done|]. split; [by intros; apply dead_message|].
  split; [by intros; apply dead_deliver|]. split; [by intros; eapply dead_inert|by apply teardown_dead].
Qed.

(** A petition is resolved once, and its handle says so for good. A delivery
    for another connection, to a server that is not live, for an id that is no
    grant handle, or for a handle already resolved, is refused and changes
    nothing. Otherwise an approval becomes a row of the table (or, if the table
    cannot represent it, the death of the connection, told once), the handle
    resolves to that row or to none, and the wire hears that the prompt closed,
    when one was shown, and then the outcome, in that order. From then on,
    through any run, the handle names that row, and every other delivery for it
    is refused. *)
Theorem principal_resolve_once (send : PrincipalEvent Fd -> W -> result unit X * W) (now t : Z)
  (r : Resolution) (s s2 : Core W) (Hwf : server_wf (st_server s))
  (Hrun : run now (deliver_resolution send now r s).2 t s2) :
  delivered send now r s (deliver_resolution send now r s).1 (deliver_resolution send now r s).2
  /\ forall row,
       ps_objects (st_server (deliver_resolution send now r s).2) !! rs_grant_wire_id r
         = Some (OGrant (HResolved row)) ->
       grant_row_id (st_server s2) (rs_grant_wire_id r) = row
       /\ forall (send2 : PrincipalEvent Fd -> W -> result unit X * W) now2 r2,
            rs_grant_wire_id r2 = rs_grant_wire_id r ->
            exists e, deliver_resolution send2 now2 r2 s2 = (Err e, s2)
              /\ (rs_connection r2 = ps_connection (st_server s2) -> ps_phase (st_server s2) = Bound ->
                  e = AlreadyResolved (rs_grant_wire_id r)).
Proof.
  split; [apply deliver_cases|]. intros row Hrow.
  assert (server_wf (st_server (deliver_resolution send now r s).2)) as Hwf1
    by (eapply (run_wf (F := F) (IoErr := IoErr) (Digest := Digest));
      [eapply run_op; [reflexivity|apply (co_deliver _ _ send)|apply run_stop]|done]).
  pose proof (run_keeps _ _ _ _ _ _ Hrun Hwf1 Hrow) as Hkeep.
  split; [unfold grant_row_id; by rewrite Hkeep|]. intros send2 now2 r2 Hr2.
  unfold deliver_resolution, pbind, pget.
  destruct (Z.eqb_spec (rs_connection r2) (ps_connection (st_server s2))); simpl; [|by eexists].
  case_bool_decide; simpl; [|by eexists]. rewrite Hr2, Hkeep. simpl. rewrite ?Hr2. by eexists.
Qed.

(** C16: nothing a connection held outlives it. A row that any operation of the
    connection brings into the table is held by one of its handles from then
    on, and teardown, whenever it comes, removes exactly the rows its handles
    hold and withdraws exactly its pending petitions: every other row and every
    other connection's petition is left as it was. The server is dead, and the
    world hears nothing. *)
Theorem principal_teardown (t0 t1 now t2 : Z) (s0 s1 s1' s : Core W)
  (Hnew : accepted s0) (Hrun1 : run t0 s0 t1 s1) (Hop : op now s1 s1') (Hrun2 : run now s1' t2 s) :
  (forall id, entries (st_grants s1) !! id = None -> is_Some (entries (st_grants s1') !! id) ->
     entries (st_grants (teardown s)) !! id = None)
  /\ (forall id, (owned (st_server s) id -> entries (st_grants (teardown s)) !! id = None)
       /\ (~ owned (st_server s) id ->
           entries (st_grants (teardown s)) !! id = entries (st_grants s) !! id))
  /\ (forall id p, In (id, p) (bt_entries (pending (st_petitions (teardown s)))) <->
       In (id, p) (bt_entries (pending (st_petitions s)))
       /\ pp_connection p <> ps_connection (st_server s))
  /\ ps_phase (st_server (teardown s)) = Dead /\ st_world (teardown s) = st_world s.
Proof.
  pose proof (run_wf _ _ _ _ Hrun1 (accepted_wf _ Hnew)) as Hwf1.
  assert (server_wf (st_server s1')) as Hwf1'
    by (eapply run_wf; [eapply run_op; [reflexivity|exact Hop|apply run_stop]|done]).
  pose proof (run_wf _ _ _ _ Hrun2 Hwf1') as Hwf.
  assert (forall id, (owned (st_server s) id -> entries (st_grants (teardown s)) !! id = None)
    /\ (~ owned (st_server s) id ->
        entries (st_grants (teardown s)) !! id = entries (st_grants s) !! id)) as Hrows.
  { intros id. rewrite teardown_grants, (owned_In _ _ (ow_order _ _ (sw_objects _ Hwf))).
    split; apply remove_rows_spec. }
  split; [|split; [exact Hrows|split; [|split; [by apply teardown_dead|by apply teardown_world]]]].
  - intros id Hn Hs. destruct (new_rows_op _ _ _ Hop id Hn Hs) as [h Hh].
    pose proof (run_keeps _ _ _ _ _ _ Hrun2 Hwf1' Hh) as Hkeep.
    apply Hrows. by exists h.
  - intros id p. rewrite teardown_petitions. simpl. rewrite List.filter_In. simpl.
    by rewrite negb_true_iff, Z.eqb_neq.
Qed.
End properties.

(* ------------------------------------------------------------------------ *)
(** ** Witnesses *)

Lemma principal_state_wf_witness : server_wf (st_server demo_petitioned).
Proof. exact (principal_state_wf 0 0 demo_accepted demo_petitioned demo_new demo_run_petitioned). Defined.

Lemma principal_petition_rate_witness :
  bt_count (ps_objects (st_server demo_used)) is_grant = ps_petition_count (st_server demo_used)
  /\ ps_petition_count (st_server demo_used) = 1.
Proof.
  split; [|by vm_compute].
  apply (principal_petition_rate 0 0 9 demo_accepted demo_petitioned demo_used demo_new
           demo_run_petitioned demo_run).
Defined.

Lemma principal_auth_witness :
  st_petitions demo_bound = st_petitions demo_accepted /\ ps_phase (st_server demo_bound) = Bound.
Proof.
  split; [|by vm_compute].
  pose proof (principal_auth (demo_cx 0) demo_hello demo_detail demo_accepted eq_refl) as H.
  unfold demo_bound. destruct (handle_message demo_detail (demo_cx 0) demo_hello demo_accepted). apply H.
Defined.

Lemma principal_fault_final_witness :
  exists fault s', handle_message demo_detail (demo_cx 0) demo_capture demo_accepted = (Err fault, s')
  /\ ps_phase (st_server s') = Dead /\ List.length (st_world s') = 1%nat.
Proof.
  eexists _, _. split; [vm_compute; reflexivity|]. split; [|by vm_compute].
  refine (proj1 (principal_fault_final (demo_cx 0) demo_capture demo_detail demo_accepted _ _ _)).
  vm_compute. reflexivity.
Defined.

Lemma principal_resolve_once_witness :
  grant_row_id (st_server demo_used) 4 = Some 1
  /\ exists e, deliver_resolution (cx_send (demo_cx 9)) 9 demo_resolution demo_used = (Err e, demo_used).
Proof.
  destruct (principal_resolve_once (cx_send (demo_cx 9)) 9 9 demo_resolution demo_petitioned demo_used
    (run_wf _ _ _ _ demo_run_petitioned (accepted_wf _ demo_new)) demo_run_used) as [_ H].
  destruct (H (Some 1) ltac:(vm_compute; reflexivity)) as [Hrow Hagain].
  split; [replace 4 with (rs_grant_wire_id demo_resolution) by (vm_compute; reflexivity); exact Hrow|].
  destruct (Hagain (cx_send (demo_cx 9)) 9 demo_resolution eq_refl) as (e & He & _).
  by exists e.
Defined.

Lemma principal_teardown_witness :
  is_Some (entries (st_grants demo_used) !! 1) /\ entries (st_grants (teardown demo_used)) !! 1 = None.
Proof.
  split; [vm_compute; by eexists|].
  refine (proj1 (principal_teardown 0 0 9 9 demo_accepted demo_petitioned demo_resolved demo_used
    demo_new demo_run_petitioned (co_deliver _ _ (cx_send (demo_cx 9)) _) demo_run_used) 1 _ _).
  - vm_compute. reflexivity.
  - vm_compute. by eexists.
Defined.
