(* ===== verification/ShimMessages.v ===== *)
(** * The messages of a shim

    [crates/vitrin-protocol/src/generated/vitrin_shim_session.rs],
    [vitrin_shim_surface.rs] and [vitrin_shim_seat.rs]: what a shim asks and what
    the core tells it, as codecs in the frame of [Messages], and
    [SeatDelivery::encode] of [crates/vitrin-core/src/input/mod.rs]. *)

From S2P Require Import Prelude Text Wire Grants Input Geometry Constraint Router Messages.

(* ------------------------------------------------------------------------ *)
(** ** Enums *)

Inductive SelectionStatus : Type := SelOk | SelEmpty | SelWrongType | SelTooLarge.
Definition selection_status_to_wire (s : SelectionStatus) : Z :=
  match s with SelOk => 0 | SelEmpty => 1 | SelWrongType => 2 | SelTooLarge => 3 end.
Definition selection_status_from_wire (v : Z) : result SelectionStatus DecodeError :=
  if v =? 0 then Ok SelOk else if v =? 1 then Ok SelEmpty else if v =? 2 then Ok SelWrongType
  else if v =? 3 then Ok SelTooLarge
  else Err (InvalidEnumValue (str "vitrin_shim_session") (str "selection_status") v).

Definition constraint_kind_to_wire (k : PointerConstraintKind) : Z :=
  match k with CNone => 0 | CLock => 1 | CConfine => 2 end.
Definition constraint_kind_from_wire (v : Z) : result PointerConstraintKind DecodeError :=
  if v =? 0 then Ok CNone else if v =? 1 then Ok CLock else if v =? 2 then Ok CConfine
  else Err (InvalidEnumValue (str "vitrin_shim_session") (str "pointer_constraint_kind") v).

Definition constraint_lifetime_to_wire (l : PointerConstraintLifetime) : Z :=
  match l with Oneshot => 0 | Persistent => 1 end.
Definition constraint_lifetime_from_wire (v : Z) : result PointerConstraintLifetime DecodeError :=
  if v =? 0 then Ok Oneshot else if v =? 1 then Ok Persistent
  else Err (InvalidEnumValue (str "vitrin_shim_session") (str "pointer_constraint_lifetime") v).

Definition constraint_status_to_wire (s : PointerConstraintStatus) : Z :=
  match s with CInactive => 0 | CActive => 1 | CWithdrawn => 2 | CRefused => 3 | CSuperseded => 4 end.
Definition constraint_status_from_wire (v : Z) : result PointerConstraintStatus DecodeError :=
  if v =? 0 then Ok CInactive else if v =? 1 then Ok CActive else if v =? 2 then Ok CWithdrawn
  else if v =? 3 then Ok CRefused else if v =? 4 then Ok CSuperseded
  else Err (InvalidEnumValue (str "vitrin_shim_session") (str "pointer_constraint_status") v).

Inductive IdleInhibitState : Type := InhibitReleased | InhibitHeld.
Definition idle_inhibit_to_wire (s : IdleInhibitState) : Z :=
  match s with InhibitReleased => 0 | InhibitHeld => 1 end.
Definition idle_inhibit_from_wire (v : Z) : result IdleInhibitState DecodeError :=
  if v =? 0 then Ok InhibitReleased else if v =? 1 then Ok InhibitHeld
  else Err (InvalidEnumValue (str "vitrin_shim_session") (str "idle_inhibit_state") v).

(** [vitrin_shim_surface::Kind]. *)
Inductive BufferKind : Type := Shm | Dmabuf.
#[export] Instance BufferKind_eq_dec : EqDecision BufferKind.
Proof. solve_decision. Defined.
Definition buffer_kind_to_wire (k : BufferKind) : Z := match k with Shm => 0 | Dmabuf => 1 end.
Definition buffer_kind_from_wire (v : Z) : result BufferKind DecodeError :=
  if v =? 0 then Ok Shm else if v =? 1 then Ok Dmabuf
  else Err (InvalidEnumValue (str "vitrin_shim_surface") (str "kind") v).

Inductive BufferStatus : Type := Released | ImportFailed | FormatUnsupported | TooLarge.
Definition buffer_status_to_wire (s : BufferStatus) : Z :=
  match s with Released => 0 | ImportFailed => 1 | FormatUnsupported => 2 | TooLarge => 3 end.
Definition buffer_status_from_wire (v : Z) : result BufferStatus DecodeError :=
  if v =? 0 then Ok Released else if v =? 1 then Ok ImportFailed else if v =? 2 then Ok FormatUnsupported
  else if v =? 3 then Ok TooLarge
  else Err (InvalidEnumValue (str "vitrin_shim_surface") (str "buffer_status") v).

(** [vitrin_view::Format]: the DRM codes. *)
Inductive Format : Type := Xrgb8888 | Argb8888.
Definition format_to_wire (f : Format) : Z := match f with Xrgb8888 => 0x34325258 | Argb8888 => 0x34325241 end.
Definition format_from_wire (v : Z) : result Format DecodeError :=
  if v =? 0x34325258 then Ok Xrgb8888 else if v =? 0x34325241 then Ok Argb8888
  else Err (InvalidEnumValue (str "vitrin_view") (str "format") v).

Definition key_state_to_wire (s : KeyState) : Z := match s with KReleased => 0 | KPressed => 1 end.
Definition key_state_from_wire (v : Z) : result KeyState DecodeError :=
  if v =? 0 then Ok KReleased else if v =? 1 then Ok KPressed
  else Err (InvalidEnumValue (str "vitrin_shim_seat") (str "key_state") v).

Definition origin_to_wire (o : Origin) : Z := match o with Physical => 0 | Emulated => 1 end.
Definition origin_from_wire (v : Z) : result Origin DecodeError :=
  if v =? 0 then Ok Physical else if v =? 1 then Ok Emulated
  else Err (InvalidEnumValue (str "vitrin_shim_seat") (str "origin") v).

Definition gesture_kind_to_wire (k : GestureKind) : Z := match k with Swipe => 0 | Pinch => 1 end.
Definition gesture_kind_from_wire (v : Z) : result GestureKind DecodeError :=
  if v =? 0 then Ok Swipe else if v =? 1 then Ok Pinch
  else Err (InvalidEnumValue (str "vitrin_shim_seat") (str "gesture_kind") v).

Definition gesture_state_to_wire (s : GestureState) : Z := match s with Completed => 0 | Cancelled => 1 end.
Definition gesture_state_from_wire (v : Z) : result GestureState DecodeError :=
  if v =? 0 then Ok Completed else if v =? 1 then Ok Cancelled
  else Err (InvalidEnumValue (str "vitrin_shim_seat") (str "gesture_state") v).

(* ------------------------------------------------------------------------ *)
(** ** The messages *)

(** An object that may be null: null is 0 on the wire. *)
Definition c_opt_object : codec (option Z) :=
  {| put := fun out o => Some (write_uint out (default 0 o));
     fetch := fun bytes pos =>
       let? (v, pos) := read_uint bytes pos in
       Ok (if v =? 0 then None else Some v, pos) |}.

(** The session's requests. *)
Definition c_create_surface : codec Z := c_uint.
Definition c_get_seat : codec Z := c_uint.
Record Selection : Type := {
  sel_serial : Z; sel_status : SelectionStatus; sel_mime : Str; sel_data : Str }.
Definition c_selection : codec Selection :=
  c_struct (fun '(s, st, m, d) => Build_Selection s st m d)
    (fun s => (sel_serial s, sel_status s, sel_mime s, sel_data s))
    (c_uint ⊗ c_checked selection_status_to_wire selection_status_from_wire ⊗ c_str 32 ⊗ c_str 61440).
Record PointerConstraint : Type := {
  pc_serial : Z; pc_surface : option Z; pc_kind : PointerConstraintKind;
  pc_lifetime : PointerConstraintLifetime; pc_x : Z; pc_y : Z; pc_width : Z; pc_height : Z }.
Definition c_pointer_constraint : codec PointerConstraint :=
  c_struct (fun '(s, sf, k, l, x, y, w, h) => Build_PointerConstraint s sf k l x y w h)
    (fun p => (pc_serial p, pc_surface p, pc_kind p, pc_lifetime p, pc_x p, pc_y p, pc_width p, pc_height p))
    (c_uint ⊗ c_opt_object ⊗ c_checked constraint_kind_to_wire constraint_kind_from_wire
     ⊗ c_checked constraint_lifetime_to_wire constraint_lifetime_from_wire ⊗ c_int ⊗ c_int ⊗ c_uint ⊗ c_uint).
Definition c_idle_inhibit : codec (option Z * IdleInhibitState) :=
  c_opt_object ⊗ c_checked idle_inhibit_to_wire idle_inhibit_from_wire.

(** The session's events. *)
Definition c_configure : codec (Str * Z * Z) := c_str 64 ⊗ c_uint ⊗ c_uint.
Definition c_request_selection : codec Z := c_uint.
Definition c_offer_selection : codec (Str * Str) := c_str 32 ⊗ c_str 61440.
Definition c_constraint_state : codec (Z * PointerConstraintStatus) :=
  c_uint ⊗ c_checked constraint_status_to_wire constraint_status_from_wire.

(** The requests of a surface: the descriptor of an attach travels beside it. *)
Record Attach : Type := {
  at_buffer_id : Z; at_kind : BufferKind; at_format : Format; at_width : Z; at_height : Z; at_stride : Z }.
Definition c_attach : codec Attach :=
  c_struct (fun '(b, k, f, w, h, s) => Build_Attach b k f w h s)
    (fun a => (at_buffer_id a, at_kind a, at_format a, at_width a, at_height a, at_stride a))
    (c_uint ⊗ c_checked buffer_kind_to_wire buffer_kind_from_wire
     ⊗ c_checked format_to_wire format_from_wire ⊗ c_uint ⊗ c_uint ⊗ c_uint).
Definition c_damage : codec (Z * Z * Z * Z) := c_int ⊗ c_int ⊗ c_int ⊗ c_int.
Definition c_commit : codec unit := c_unit.

(** A surface's events. *)
Definition c_frame_done : codec Z := c_uint.
Definition c_buffer_done : codec (Z * BufferStatus) :=
  c_uint ⊗ c_checked buffer_status_to_wire buffer_status_from_wire.

(** The seat's events. *)
Definition c_origin : codec Origin := c_checked origin_to_wire origin_from_wire.
Definition c_seat_motion : codec (Z * Z * Origin) := c_int ⊗ c_int ⊗ c_origin.
Definition c_seat_button : codec (Z * ButtonState * Origin) :=
  c_uint ⊗ c_checked button_to_wire button_from_wire ⊗ c_origin.
Definition c_seat_scroll : codec (Axis * Z * Origin) :=
  c_checked axis_to_wire axis_from_wire ⊗ c_int ⊗ c_origin.
Definition c_seat_key : codec (Z * KeyState * Origin) :=
  c_uint ⊗ c_checked key_state_to_wire key_state_from_wire ⊗ c_origin.
Definition c_seat_text : codec (Str * Origin) := c_str 4096 ⊗ c_origin.
Definition c_seat_relative_motion : codec (Z * Z * Z * Z * Origin) := c_int ⊗ c_int ⊗ c_int ⊗ c_int ⊗ c_origin.
Definition c_seat_gesture_begin : codec (GestureKind * Z * Origin) :=
  c_checked gesture_kind_to_wire gesture_kind_from_wire ⊗ c_uint ⊗ c_origin.
Definition c_seat_gesture_swipe : codec (Z * Z * Origin) := c_int ⊗ c_int ⊗ c_origin.
Definition c_seat_gesture_pinch : codec (Z * Z * Z * Z * Origin) := c_int ⊗ c_int ⊗ c_int ⊗ c_int ⊗ c_origin.
Definition c_seat_gesture_end : codec (GestureKind * GestureState * Origin) :=
  c_checked gesture_kind_to_wire gesture_kind_from_wire
  ⊗ c_checked gesture_state_to_wire gesture_state_from_wire ⊗ c_origin.

(** [SeatDelivery::encode]: [None] is a panic of the writer. *)
Definition seat_delivery_encode (d : SeatDelivery) (seat : Z) : option Bytes :=
  let origin := sd_origin d in
  match sd_kind d with
  | DMotion x y => encode_frame 0 false c_seat_motion seat (x, y, origin)
  | DButton button state => encode_frame 1 false c_seat_button seat (button, state, origin)
  | DScroll axis value120 => encode_frame 2 false c_seat_scroll seat (axis, value120, origin)
  | DKey keysym state => encode_frame 3 false c_seat_key seat (keysym, state, origin)
  | DText text => encode_frame 4 false c_seat_text seat (text, origin)
  | DRelativeMotion dx dy ux uy =>
      encode_frame 5 false c_seat_relative_motion seat (dx, dy, ux, uy, origin)
  | DGestureBegin kind fingers => encode_frame 6 false c_seat_gesture_begin seat (kind, fingers, origin)
  | DGestureSwipeUpdate dx dy => encode_frame 7 false c_seat_gesture_swipe seat (dx, dy, origin)
  | DGesturePinchUpdate dx dy scale rotation =>
      encode_frame 8 false c_seat_gesture_pinch seat (dx, dy, scale, rotation, origin)
  | DGestureEnd kind state => encode_frame 9 false c_seat_gesture_end seat (kind, state, origin)
  end.

(* ------------------------------------------------------------------------ *)
(** ** Every message keeps the laws *)

#[export] Instance selection_status_checked : Checked selection_status_to_wire selection_status_from_wire.
Proof. unfold selection_status_from_wire. checked. Qed.
#[export] Instance constraint_kind_checked : Checked constraint_kind_to_wire constraint_kind_from_wire.
Proof. unfold constraint_kind_from_wire. checked. Qed.
#[export] Instance constraint_lifetime_checked : Checked constraint_lifetime_to_wire constraint_lifetime_from_wire.
Proof. unfold constraint_lifetime_from_wire. checked. Qed.
#[export] Instance constraint_status_checked : Checked constraint_status_to_wire constraint_status_from_wire.
Proof. unfold constraint_status_from_wire. checked. Qed.
#[export] Instance idle_inhibit_checked : Checked idle_inhibit_to_wire idle_inhibit_from_wire.
Proof. unfold idle_inhibit_from_wire. checked. Qed.
#[export] Instance buffer_kind_checked : Checked buffer_kind_to_wire buffer_kind_from_wire.
Proof. unfold buffer_kind_from_wire. checked. Qed.
#[export] Instance buffer_status_checked : Checked buffer_status_to_wire buffer_status_from_wire.
Proof. unfold buffer_status_from_wire. checked. Qed.
#[export] Instance format_checked : Checked format_to_wire format_from_wire.
Proof. unfold format_from_wire. checked. Qed.
#[export] Instance key_state_checked : Checked key_state_to_wire key_state_from_wire.
Proof. unfold key_state_from_wire. checked. Qed.
#[export] Instance origin_checked : Checked origin_to_wire origin_from_wire.
Proof. unfold origin_from_wire. checked. Qed.
#[export] Instance gesture_kind_checked : Checked gesture_kind_to_wire gesture_kind_from_wire.
Proof. unfold gesture_kind_from_wire. checked. Qed.
#[export] Instance gesture_state_checked : Checked gesture_state_to_wire gesture_state_from_wire.
Proof. unfold gesture_state_from_wire. checked. Qed.

#[export] Instance c_opt_object_lawful : Lawful c_opt_object.
Proof.
  refine {| valid := fun o => match o with Some v => is_u32 v /\ v <> 0 | None => True end |}.
  - done.
  - intros pre mid suf a Ha [= <-] _. cbn [fetch c_opt_object]. unfold write_uint.
    rewrite app_nil_l, read_uint_at by (destruct a as [v|]; [apply Ha|by vm_compute]).
    cbn [rbind]. rewrite blen_to_le. destruct a as [v|]; [|done]. destruct Ha as [_ Hv]. simpl.
    by rewrite (proj2 (Z.eqb_neq v 0)).
  - intros bytes pos pos' a Hb Hp _ Hr. simpl in *. apply rbind_ok in Hr as ([v p] & Hr & [= <- <-]).
    destruct (read_uint_spec bytes pos v p Hb Hp Hr) as (Hu & ? & Hs). unfold write_uint. rewrite app_nil_l.
    destruct (Z.eqb_spec v 0) as [->|]; (split; [done|split; [lia|by f_equal]]).
Defined.

#[export] Instance c_create_surface_lawful : Lawful c_create_surface := _.
#[export] Instance c_get_seat_lawful : Lawful c_get_seat := _.
#[export] Instance c_selection_lawful : Lawful c_selection.
Proof. apply c_struct_lawful; [by intros []|by intros [[[] ?] ?]|apply _]. Defined.
#[export] Instance c_pointer_constraint_lawful : Lawful c_pointer_constraint.
Proof. apply c_struct_lawful; [by intros []|by intros [[[[[[[] ?] ?] ?] ?] ?] ?]|apply _]. Defined.
#[export] Instance c_idle_inhibit_lawful : Lawful c_idle_inhibit := _.
#[export] Instance c_configure_lawful : Lawful c_configure := _.
#[export] Instance c_request_selection_lawful : Lawful c_request_selection := _.
#[export] Instance c_offer_selection_lawful : Lawful c_offer_selection := _.
#[export] Instance c_constraint_state_lawful : Lawful c_constraint_state := _.
#[export] Instance c_attach_lawful : Lawful c_attach.
Proof. apply c_struct_lawful; [by intros []|by intros [[[[[] ?] ?] ?] ?]|apply _]. Defined.
#[export] Instance c_damage_lawful : Lawful c_damage := _.
#[export] Instance c_commit_lawful : Lawful c_commit := _.
#[export] Instance c_frame_done_lawful : Lawful c_frame_done := _.
#[export] Instance c_buffer_done_lawful : Lawful c_buffer_done := _.
#[export] Instance c_origin_lawful : Lawful c_origin := _.
#[export] Instance c_seat_motion_lawful : Lawful c_seat_motion := _.
#[export] Instance c_seat_button_lawful : Lawful c_seat_button := _.
#[export] Instance c_seat_scroll_lawful : Lawful c_seat_scroll := _.
#[export] Instance c_seat_key_lawful : Lawful c_seat_key := _.
#[export] Instance c_seat_text_lawful : Lawful c_seat_text := _.
#[export] Instance c_seat_relative_motion_lawful : Lawful c_seat_relative_motion := _.
#[export] Instance c_seat_gesture_begin_lawful : Lawful c_seat_gesture_begin := _.
#[export] Instance c_seat_gesture_swipe_lawful : Lawful c_seat_gesture_swipe := _.
#[export] Instance c_seat_gesture_pinch_lawful : Lawful c_seat_gesture_pinch := _.
#[export] Instance c_seat_gesture_end_lawful : Lawful c_seat_gesture_end := _.
