(* ===== verification/Protocol.v ===== *)
(** * The whole protocol

    Every message of [crates/vitrin-protocol/src/generated/] in one table: the
    requests of a principal ([Messages]), the messages of a shim ([ShimMessages]),
    the frames that end a designation ([Terminals]) and, here, the events a principal
    is sent, as codecs. For each the table has its interface, its direction, its
    opcode, whether a descriptor goes with it, its codec, and what its arguments may
    be. *)

From S2P Require Import Prelude Text Wire Grants Input Constraint Petitions Uses Messages Terminals Enforcement Principal ShimMessages.

(* ------------------------------------------------------------------------ *)
(** ** Enums *)

(** [vitrin_handshake::Error]. *)
Definition wire_error_to_wire (e : WireError) : Z :=
  match e with
  | WInvalidObject => 0 | WInvalidOpcode => 1 | WInvalidArgument => 2 | WOversized => 3 | WFdViolation => 4
  | WPreHandshake => 5 | WVersionUnsupported => 6 | WAuthFailed => 7 | WInternal => 8 | WResourceExhausted => 9
  end.
Definition wire_error_from_wire (v : Z) : result WireError DecodeError :=
  if v =? 0 then Ok WInvalidObject else if v =? 1 then Ok WInvalidOpcode else if v =? 2 then Ok WInvalidArgument
  else if v =? 3 then Ok WOversized else if v =? 4 then Ok WFdViolation else if v =? 5 then Ok WPreHandshake
  else if v =? 6 then Ok WVersionUnsupported else if v =? 7 then Ok WAuthFailed else if v =? 8 then Ok WInternal
  else if v =? 9 then Ok WResourceExhausted
  else Err (InvalidEnumValue (str "vitrin_handshake") (str "error") v).

Definition consent_state_to_wire (s : ConsentState) : Z := match s with Queued => 0 | Shown => 1 | Closed => 2 end.
Definition consent_state_from_wire (v : Z) : result ConsentState DecodeError :=
  if v =? 0 then Ok Queued else if v =? 1 then Ok Shown else if v =? 2 then Ok Closed
  else Err (InvalidEnumValue (str "vitrin_consent") (str "consent_state") v).

(** [vitrin_grant::Outcome]. *)
Definition outcome_to_wire (o : ResolvedOutcome) : Z :=
  match o with
  | WGranted => 0
  | WDeclined Petitions.Denied => 1
  | WDeclined Petitions.TimedOut => 2
  | WDeclined Petitions.Unavailable => 3
  | WDeclined Petitions.Unsupported => 4
  | WDeclined Petitions.Busy => 5
  | WDeclined Petitions.LayoutHeld => 6
  end.
Definition outcome_from_wire (v : Z) : result ResolvedOutcome DecodeError :=
  if v =? 0 then Ok WGranted else if v =? 1 then Ok (WDeclined Petitions.Denied)
  else if v =? 2 then Ok (WDeclined Petitions.TimedOut) else if v =? 3 then Ok (WDeclined Petitions.Unavailable)
  else if v =? 4 then Ok (WDeclined Petitions.Unsupported) else if v =? 5 then Ok (WDeclined Petitions.Busy)
  else if v =? 6 then Ok (WDeclined Petitions.LayoutHeld)
  else Err (InvalidEnumValue (str "vitrin_grant") (str "outcome") v).

(** [vitrin_grant::Refusal]; what it is written as is [Enforcement.refusal_to_wire]. *)
Definition use_refusal_from_wire (v : Z) : result Enforcement.Refusal DecodeError :=
  if v =? 0 then Ok RefNotGranted else if v =? 1 then Ok RefExpired else if v =? 2 then Ok RefRevoked
  else if v =? 3 then Ok RefRateLimited else if v =? 4 then Ok RefPreempted else if v =? 5 then Ok RefConsentHeld
  else if v =? 6 then Ok RefNoSurface else if v =? 7 then Ok RefInternal else if v =? 8 then Ok RefCapacity
  else Err (InvalidEnumValue (str "vitrin_grant") (str "refusal") v).

(** [vitrin_egress::Failure]. *)
Inductive Failure : Type := FailRefused | FailUnreachable | FailTimedOut | FailResolution.
Definition failure_to_wire (f : Failure) : Z :=
  match f with FailRefused => 0 | FailUnreachable => 1 | FailTimedOut => 2 | FailResolution => 3 end.
Definition failure_from_wire (v : Z) : result Failure DecodeError :=
  if v =? 0 then Ok FailRefused else if v =? 1 then Ok FailUnreachable else if v =? 2 then Ok FailTimedOut
  else if v =? 3 then Ok FailResolution
  else Err (InvalidEnumValue (str "vitrin_egress") (str "failure") v).

(** [vitrin_view::FrameFlags], kept as its bits. *)
Definition FRAME_FLAGS_MASK : Z := Z.lor 1 2.
Definition frame_flags_from_bits (v : Z) : result Z DecodeError :=
  if negb (Z.land v (Z.lxor FRAME_FLAGS_MASK u32_max) =? 0)
  then Err (InvalidBitfieldValue (str "vitrin_view") (str "frame_flags") v) else Ok v.

(* ------------------------------------------------------------------------ *)
(** ** The events of a principal *)

(** The object at fault, the code and the message. *)
Definition c_error : codec (Z * WireError * Str) := c_uint ⊗ c_checked wire_error_to_wire wire_error_from_wire ⊗ c_str 1024.
Definition c_done : codec Z := c_uint.
Definition c_bound : codec Str := c_str 2048.
Definition c_attention : codec unit := c_unit.
Definition c_consent_state : codec ConsentState := c_checked consent_state_to_wire consent_state_from_wire.

Record Resolved : Type := {
  rs_outcome : ResolvedOutcome; rs_verbs : Z; rs_persistence : WirePersistence; rs_expiry_ms : Z }.
Definition c_resolved : codec Resolved :=
  c_struct (fun '(o, v, p, e) => Build_Resolved o v p e) (fun r => (rs_outcome r, rs_verbs r, rs_persistence r, rs_expiry_ms r))
    (c_checked outcome_to_wire outcome_from_wire ⊗ c_checked (fun v => v) verb_from_bits
     ⊗ c_checked persistence_to_wire persistence_from_wire ⊗ c_uint).
(** The verb, the code and the hint. *)
Definition c_grant_refused : codec (Z * Enforcement.Refusal * Z) :=
  c_checked (fun v => v) verb_from_bits ⊗ c_checked Enforcement.refusal_to_wire use_refusal_from_wire ⊗ c_uint.
Definition c_launched : codec Str := c_str 64.

(** The arguments of a capture, less the descriptor that travels beside them. *)
Record FrameArgs : Type := { fa_format : Format; fa_width : Z; fa_height : Z; fa_stride : Z; fa_flags : Z }.
Definition c_frame_ready : codec FrameArgs :=
  c_struct (fun '(f, w, h, s, g) => Build_FrameArgs f w h s g) (fun a => (fa_format a, fa_width a, fa_height a, fa_stride a, fa_flags a))
    (c_checked format_to_wire format_from_wire ⊗ c_uint ⊗ c_uint ⊗ c_uint ⊗ c_checked (fun v => v) frame_flags_from_bits).

Definition c_connected : codec (Str * Z) := c_str 253 ⊗ c_uint.
Definition c_connect_failed : codec Failure := c_checked failure_to_wire failure_from_wire.

#[export] Instance wire_error_checked : Checked wire_error_to_wire wire_error_from_wire.
Proof. unfold wire_error_from_wire. checked. Qed.
#[export] Instance consent_state_checked : Checked consent_state_to_wire consent_state_from_wire.
Proof. unfold consent_state_from_wire. checked. Qed.
#[export] Instance outcome_checked : Checked outcome_to_wire outcome_from_wire.
Proof. unfold outcome_from_wire. checked. Qed.
#[export] Instance use_refusal_checked : Checked Enforcement.refusal_to_wire use_refusal_from_wire.
Proof. unfold use_refusal_from_wire. checked. Qed.
#[export] Instance failure_checked : Checked failure_to_wire failure_from_wire.
Proof. unfold failure_from_wire. checked. Qed.
#[export] Instance frame_flags_checked : Checked (fun v => v) frame_flags_from_bits.
Proof. split. intros v a _. unfold frame_flags_from_bits. case_match; intros; by simplify_eq. Qed.

#[export] Instance c_error_lawful : Lawful c_error := _.
#[export] Instance c_done_lawful : Lawful c_done := _.
#[export] Instance c_bound_lawful : Lawful c_bound.
Proof. unfold c_bound. apply _. Defined.
#[export] Instance c_attention_lawful : Lawful c_attention := _.
#[export] Instance c_consent_state_lawful : Lawful c_consent_state := _.
#[export] Instance c_resolved_lawful : Lawful c_resolved.
Proof. apply c_struct_lawful; [by intros []|by intros [[[] ?] ?]|apply _]. Defined.
#[export] Instance c_grant_refused_lawful : Lawful c_grant_refused := _.
#[export] Instance c_launched_lawful : Lawful c_launched.
Proof. unfold c_launched. apply _. Defined.
#[export] Instance c_frame_ready_lawful : Lawful c_frame_ready.
Proof. apply c_struct_lawful; [by intros []|by intros [[[[] ?] ?] ?]|apply _]. Defined.
#[export] Instance c_connected_lawful : Lawful c_connected := _.
#[export] Instance c_connect_failed_lawful : Lawful c_connect_failed := _.

(* ------------------------------------------------------------------------ *)
(** ** What an argument may be *)

(** The Rust types: an integer in its width, a string as text; on the wire a string
    has no NUL, an object may be asked not to be null, and a mask has no undefined
    bit. A value of an enum is any of its values. *)
Definition i32_range (v : Z) : Prop := - 2147483648 <= v <= 2147483647.
Definition text_range (s : Str) : Prop := is_str s /\ ~ In 0 s.
Definition opt_range (o : option Z) : Prop := match o with Some v => is_u32 v /\ v <> 0 | None => True end.
Definition verb_range (v : Z) : Prop := is_u32 v /\ Z.land v (Z.lxor VALID_MASK u32_max) = 0.
Definition flags_range (v : Z) : Prop := is_u32 v /\ Z.land v (Z.lxor FRAME_FLAGS_MASK u32_max) = 0.
Definition any {A} (_ : A) : Prop := True.

Record Message : Type := {
  mg_interface : Str;
  mg_event : bool;
  mg_name : Str;
  mg_opcode : Z;
  mg_fd : bool;
  mg_args : Type;
  mg_codec : codec mg_args;
  mg_range : mg_args -> Prop }.
Definition request {A} (interface name : Str) (op : Z) (fd : bool) (c : codec A) (range : A -> Prop) : Message :=
  {| mg_interface := interface; mg_event := false; mg_name := name; mg_opcode := op; mg_fd := fd; mg_codec := c; mg_range := range |}.
Definition event {A} (interface name : Str) (op : Z) (fd : bool) (c : codec A) (range : A -> Prop) : Message :=
  {| mg_interface := interface; mg_event := true; mg_name := name; mg_opcode := op; mg_fd := fd; mg_codec := c; mg_range := range |}.

(* ------------------------------------------------------------------------ *)
(** ** The table *)

Definition principal_messages : list Message := [
  request (str "vitrin_handshake") (str "hello") 0 false c_hello
    (fun h => is_u32 (hello_version h) /\ is_u32 (hello_principal h) /\ text_range (hello_identity h)
              /\ text_range (hello_credential_type h) /\ text_range (hello_credential h));
  request (str "vitrin_handshake") (str "sync") 1 false c_sync is_u32;
  event (str "vitrin_handshake") (str "error") 0 false c_error (fun '(o, _, m) => is_u32 o /\ text_range m);
  event (str "vitrin_handshake") (str "done") 1 false c_done is_u32;
  request (str "vitrin_principal") (str "get_realm") 0 false c_get_realm (fun '(r, n) => is_u32 r /\ text_range n);
  event (str "vitrin_principal") (str "bound") 0 false c_bound text_range;
  event (str "vitrin_principal") (str "attention") 1 false c_attention any;
  request (str "vitrin_realm") (str "request_grant") 0 false c_request_grant
    (fun r => is_u32 (rg_grant r) /\ is_u32 (rg_consent r) /\ is_u32 (rg_view r) /\ is_u32 (rg_pointer r) /\ is_u32 (rg_text r)
              /\ text_range (rg_resource r) /\ verb_range (rg_verbs r) /\ is_u32 (rg_expiry_ms r)
              /\ is_u32 (rg_max_event_rate r) /\ is_u32 (rg_flags r));
  event (str "vitrin_consent") (str "state") 0 false c_consent_state any;
  request (str "vitrin_grant") (str "get_launcher") 0 false c_get_launcher is_u32;
  request (str "vitrin_grant") (str "get_layout_focus") 1 false c_get_layout_focus is_u32;
  request (str "vitrin_grant") (str "get_layout_arrange") 2 false c_get_layout_arrange is_u32;
  request (str "vitrin_grant") (str "get_powerbox") 3 false c_get_powerbox is_u32;
  request (str "vitrin_grant") (str "get_egress") 4 false c_get_egress is_u32;
  event (str "vitrin_grant") (str "resolved") 0 false c_resolved (fun r => verb_range (rs_verbs r) /\ is_u32 (rs_expiry_ms r));
  event (str "vitrin_grant") (str "refused") 1 false c_grant_refused (fun '(v, _, ms) => verb_range v /\ is_u32 ms) ].

Definition facet_messages : list Message := [
  request (str "vitrin_view") (str "capture_frame") 0 false c_capture_frame any;
  event (str "vitrin_view") (str "frame_ready") 0 true c_frame_ready
    (fun a => is_u32 (fa_width a) /\ is_u32 (fa_height a) /\ is_u32 (fa_stride a) /\ flags_range (fa_flags a));
  request (str "vitrin_actuator_pointer") (str "move") 0 false c_move (fun '(x, y) => i32_range x /\ i32_range y);
  request (str "vitrin_actuator_pointer") (str "button") 1 false c_button (fun '(b, _) => is_u32 b);
  request (str "vitrin_actuator_pointer") (str "scroll") 2 false c_scroll (fun '(_, v) => i32_range v);
  request (str "vitrin_actuator_text") (str "type") 0 false c_type text_range;
  request (str "vitrin_launcher") (str "launch") 0 false c_launch any;
  event (str "vitrin_launcher") (str "launched") 0 false c_launched text_range;
  request (str "vitrin_layout_focus") (str "focus") 0 false c_focus any;
  request (str "vitrin_layout_arrange") (str "set_fullscreen") 0 false c_set_fullscreen any;
  request (str "vitrin_powerbox") (str "request_file") 0 false c_request_file any;
  request (str "vitrin_powerbox") (str "request_dir") 1 false c_request_dir any;
  event (str "vitrin_powerbox") (str "designated") 0 true c_designated (fun '(d, _, _, n) => is_u32 d /\ text_range n);
  event (str "vitrin_powerbox") (str "refused") 1 false c_refused any;
  request (str "vitrin_egress") (str "request_connect") 0 false c_request_connect (fun '(h, p) => text_range h /\ is_u32 p);
  event (str "vitrin_egress") (str "connected") 0 true c_connected (fun '(h, p) => text_range h /\ is_u32 p);
  event (str "vitrin_egress") (str "connect_failed") 1 false c_connect_failed any ].

Definition shim_messages : list Message := [
  request (str "vitrin_shim_session") (str "create_surface") 0 false c_create_surface is_u32;
  request (str "vitrin_shim_session") (str "get_seat") 1 false c_get_seat is_u32;
  request (str "vitrin_shim_session") (str "selection") 2 false c_selection
    (fun s => is_u32 (sel_serial s) /\ text_range (sel_mime s) /\ text_range (sel_data s));
  request (str "vitrin_shim_session") (str "pointer_constraint") 3 false c_pointer_constraint
    (fun p => is_u32 (pc_serial p) /\ opt_range (pc_surface p) /\ i32_range (pc_x p) /\ i32_range (pc_y p)
              /\ is_u32 (pc_width p) /\ is_u32 (pc_height p));
  request (str "vitrin_shim_session") (str "idle_inhibit") 4 false c_idle_inhibit (fun '(o, _) => opt_range o);
  event (str "vitrin_shim_session") (str "configure") 0 false c_configure (fun '(r, w, h) => text_range r /\ is_u32 w /\ is_u32 h);
  event (str "vitrin_shim_session") (str "request_selection") 1 false c_request_selection is_u32;
  event (str "vitrin_shim_session") (str "offer_selection") 2 false c_offer_selection (fun '(m, d) => text_range m /\ text_range d);
  event (str "vitrin_shim_session") (str "pointer_constraint_state") 3 false c_constraint_state (fun '(s, _) => is_u32 s);
  event (str "vitrin_shim_session") (str "designation") 4 true c_designation (fun '(d, _, _, n) => is_u32 d /\ text_range n);
  request (str "vitrin_shim_surface") (str "attach") 0 true c_attach
    (fun a => is_u32 (at_buffer_id a) /\ is_u32 (at_width a) /\ is_u32 (at_height a) /\ is_u32 (at_stride a));
  request (str "vitrin_shim_surface") (str "damage") 1 false c_damage
    (fun '(x, y, w, h) => i32_range x /\ i32_range y /\ i32_range w /\ i32_range h);
  request (str "vitrin_shim_surface") (str "commit") 2 false c_commit any;
  event (str "vitrin_shim_surface") (str "frame_done") 0 false c_frame_done is_u32;
  event (str "vitrin_shim_surface") (str "buffer_done") 1 false c_buffer_done (fun '(b, _) => is_u32 b);
  event (str "vitrin_shim_seat") (str "motion") 0 false c_seat_motion (fun '(x, y, _) => i32_range x /\ i32_range y);
  event (str "vitrin_shim_seat") (str "button") 1 false c_seat_button (fun '(b, _, _) => is_u32 b);
  event (str "vitrin_shim_seat") (str "scroll") 2 false c_seat_scroll (fun '(_, v, _) => i32_range v);
  event (str "vitrin_shim_seat") (str "key") 3 false c_seat_key (fun '(k, _, _) => is_u32 k);
  event (str "vitrin_shim_seat") (str "text") 4 false c_seat_text (fun '(t, _) => text_range t);
  event (str "vitrin_shim_seat") (str "relative_motion") 5 false c_seat_relative_motion
    (fun '(a, b, c, d, _) => i32_range a /\ i32_range b /\ i32_range c /\ i32_range d);
  event (str "vitrin_shim_seat") (str "gesture_begin") 6 false c_seat_gesture_begin (fun '(_, f, _) => is_u32 f);
  event (str "vitrin_shim_seat") (str "gesture_swipe_update") 7 false c_seat_gesture_swipe (fun '(x, y, _) => i32_range x /\ i32_range y);
  event (str "vitrin_shim_seat") (str "gesture_pinch_update") 8 false c_seat_gesture_pinch
    (fun '(a, b, c, d, _) => i32_range a /\ i32_range b /\ i32_range c /\ i32_range d);
  event (str "vitrin_shim_seat") (str "gesture_end") 9 false c_seat_gesture_end any ].

Definition messages : list Message := principal_messages ++ facet_messages ++ shim_messages.
(** What [generated/mod.rs] says their number is. *)
Definition MESSAGE_COUNT : Z := 58.

(* ------------------------------------------------------------------------ *)
(** ** The table keeps the laws *)

(** The arguments a lawful codec carries are those of the table. *)
Definition exact (g : Message) : Prop :=
  is_u8 (mg_opcode g) /\ exists L : Lawful (mg_codec g), forall m, @valid _ _ L m <-> mg_range g m.

Lemma exact_intro {A} (interface name : Str) (ev : bool) (op : Z) (fd : bool) (c : codec A) `{L : !Lawful c} (range : A -> Prop) :
  is_u8 op -> (forall m, @valid _ _ L m <-> range m) ->
  exact {| mg_interface := interface; mg_event := ev; mg_name := name; mg_opcode := op; mg_fd := fd; mg_codec := c; mg_range := range |}.
Proof. intros Hop HL. split; [done|]. by exists L. Qed.

Lemma verb_from_bits_ok v : verb_from_bits v = Ok v <-> Z.land v (Z.lxor VALID_MASK u32_max) = 0.
Proof. unfold verb_from_bits. destruct (Z.eqb_spec (Z.land v (Z.lxor VALID_MASK u32_max)) 0); cbn; split; done. Qed.
Lemma frame_flags_ok v : frame_flags_from_bits v = Ok v <-> Z.land v (Z.lxor FRAME_FLAGS_MASK u32_max) = 0.
Proof. unfold frame_flags_from_bits. destruct (Z.eqb_spec (Z.land v (Z.lxor FRAME_FLAGS_MASK u32_max)) 0); cbn; split; done. Qed.

(** Any value of an enum goes through its field. *)
Class Total {A} (to_wire : A -> Z) (from_wire : Z -> result A DecodeError) :=
  total a : is_u32 (to_wire a) /\ from_wire (to_wire a) = Ok a.
Ltac total := intros a; repeat match goal with |- is_u32 (_ ?x) /\ _ => is_var x; destruct x | |- is_u32 (_ (_ ?x)) /\ _ => is_var x; destruct x end; by vm_compute.
#[local] Instance persistence_total : Total persistence_to_wire persistence_from_wire. Proof. total. Qed.
#[local] Instance button_total : Total button_to_wire button_from_wire. Proof. total. Qed.
#[local] Instance axis_total : Total axis_to_wire axis_from_wire. Proof. total. Qed.
#[local] Instance layout_mode_total : Total layout_mode_to_wire layout_mode_from_wire. Proof. total. Qed.
#[local] Instance file_mode_total : Total file_mode_to_wire file_mode_from_wire. Proof. total. Qed.
#[local] Instance file_kind_total : Total file_kind_to_wire file_kind_from_wire. Proof. total. Qed.
#[local] Instance file_refusal_total : Total Terminals.refusal_to_wire Terminals.refusal_from_wire. Proof. total. Qed.
#[local] Instance selection_status_total : Total selection_status_to_wire selection_status_from_wire. Proof. total. Qed.
#[local] Instance constraint_kind_total : Total constraint_kind_to_wire constraint_kind_from_wire. Proof. total. Qed.
#[local] Instance constraint_lifetime_total : Total constraint_lifetime_to_wire constraint_lifetime_from_wire. Proof. total. Qed.
#[local] Instance constraint_status_total : Total constraint_status_to_wire constraint_status_from_wire. Proof. total. Qed.
#[local] Instance idle_inhibit_total : Total idle_inhibit_to_wire idle_inhibit_from_wire. Proof. total. Qed.
#[local] Instance buffer_kind_total : Total buffer_kind_to_wire buffer_kind_from_wire. Proof. total. Qed.
#[local] Instance buffer_status_total : Total buffer_status_to_wire buffer_status_from_wire. Proof. total. Qed.
#[local] Instance format_total : Total format_to_wire format_from_wire. Proof. total. Qed.
#[local] Instance key_state_total : Total key_state_to_wire key_state_from_wire. Proof. total. Qed.
#[local] Instance origin_total : Total origin_to_wire origin_from_wire. Proof. total. Qed.
#[local] Instance gesture_kind_total : Total gesture_kind_to_wire gesture_kind_from_wire. Proof. total. Qed.
#[local] Instance gesture_state_total : Total gesture_state_to_wire gesture_state_from_wire. Proof. total. Qed.
#[local] Instance wire_error_total : Total wire_error_to_wire wire_error_from_wire. Proof. total. Qed.
#[local] Instance consent_state_total : Total consent_state_to_wire consent_state_from_wire. Proof. total. Qed.
#[local] Instance outcome_total : Total outcome_to_wire outcome_from_wire. Proof. total. Qed.
#[local] Instance use_refusal_total : Total Enforcement.refusal_to_wire use_refusal_from_wire. Proof. total. Qed.
#[local] Instance failure_total : Total failure_to_wire failure_from_wire. Proof. total. Qed.

Ltac ranged :=
  unfold request, event; eapply exact_intro; [unfold is_u8, u8_max; lia|];
  intros m; repeat match goal with m : (_ * _)%type |- _ => destruct m end;
  cbn; unfold verb_range, flags_range, text_range, i32_range, any; rewrite ?verb_from_bits_ok, ?frame_flags_ok;
  split; intros; destruct_and?; split_and?; first [done|apply total].

Lemma principal_messages_exact : Forall exact principal_messages.
Proof. unfold principal_messages. apply Forall_cons; split; [ranged|]. repeat (apply Forall_cons; split; [ranged|]). by apply Forall_nil. Qed.
Lemma facet_messages_exact : Forall exact facet_messages.
Proof. unfold facet_messages. repeat (apply Forall_cons; split; [ranged|]). by apply Forall_nil. Qed.
Lemma shim_messages_exact : Forall exact shim_messages.
Proof. unfold shim_messages. repeat (apply Forall_cons; split; [ranged|]). by apply Forall_nil. Qed.
Lemma messages_exact : Forall exact messages.
Proof. apply Forall_app; split; [apply principal_messages_exact|apply Forall_app; split; [apply facet_messages_exact|apply shim_messages_exact]]. Qed.

(** No two messages share an interface, a direction and an opcode. *)
Definition key (g : Message) : Str * bool * Z := (mg_interface g, mg_event g, mg_opcode g).
Lemma messages_keys : NoDup (List.map key messages).
Proof. apply (bool_decide_unpack (NoDup (List.map key messages))). by vm_compute. Qed.

Lemma key_inj (l : list Message) g g' : NoDup (List.map key l) -> In g l -> In g' l -> key g = key g' -> g = g'.
Proof.
  induction l as [|x l IH]; [done|]. cbn [List.map]. intros [Hx Hl]%NoDup_cons Hg Hg' Hk.
  assert (forall y, In y l -> key y <> key x) as Hne.
  { intros y Hy He. apply Hx. rewrite <- He. apply list_elem_of_In. by apply List.in_map. }
  destruct Hg as [->|Hg], Hg' as [->|Hg']; [done|by destruct (Hne g')|by destruct (Hne g)|by apply IH].
Qed.

Lemma decode_frame_opcode {F A} op has (c : codec A) bytes (fd : option F) r :
  decode_frame op has c bytes fd = Ok r -> exists h, header_decode bytes = Ok h /\ opcode h = op.
Proof.
  unfold decode_frame. case_match; [done|]. intros (h & Hh & H')%rbind_ok. exists h. split; [done|].
  destruct (Z.eqb_spec (opcode h) op); [done|]. done.
Qed.

(** C33: every message of the protocol has one encoding, and decoding accepts exactly
    it. Take any message of the table - every request of a principal, every event
    it is sent, every request of a shim and every event it is sent - and any bytes.
    They decode to arguments for an object exactly when they are what the message's
    encoder writes for that object and those arguments, a descriptor came with them
    exactly when the message carries one, and the arguments are in range: integers
    of their width, strings of text without NUL, masks of defined bits, any value of
    an enum. So what is decoded is encoded again to the same bytes, what is encoded
    is decoded to the same arguments, and no truncated, padded, mislabelled or
    overlong frame is accepted. And bytes that one message of an interface and a
    direction accepts, no other accepts. The table has as many messages as the
    generator counted, no two with one interface, direction and opcode. *)
Theorem protocol_exact {F : Type} (g : Message) (bytes : Bytes) (fd : option F) (oid : Z) (m : mg_args g)
  (Hg : In g messages) (Hb : is_bytes bytes) :
  (decode_frame (mg_opcode g) (mg_fd g) (mg_codec g) bytes fd = Ok (oid, m) <->
     bool_decide (is_Some fd) = mg_fd g /\ is_u32 oid /\ mg_range g m
     /\ encode_frame (mg_opcode g) (mg_fd g) (mg_codec g) oid m = Some bytes)
  /\ (decode_frame (mg_opcode g) (mg_fd g) (mg_codec g) bytes fd = Ok (oid, m) ->
      forall g', In g' messages -> mg_interface g' = mg_interface g -> mg_event g' = mg_event g ->
        is_ok (decode_frame (mg_opcode g') (mg_fd g') (mg_codec g') bytes fd) = true -> g' = g)
  /\ Z.of_nat (length messages) = MESSAGE_COUNT
  /\ NoDup (List.map (fun g => (mg_interface g, mg_event g, mg_opcode g)) messages).
Proof.
  pose proof messages_exact as Hall. rewrite List.Forall_forall in Hall. destruct (Hall g Hg) as (Hop & L & HL). split; [|split; [|split; [done|apply messages_keys]]].
  - rewrite <- HL. by apply frame_exact.
  - intros (h & Hh & Ho)%decode_frame_opcode g' Hg' Hi He Hd.
    destruct (decode_frame (mg_opcode g') (mg_fd g') (mg_codec g') bytes fd) as [r|] eqn:Hr; [|done].
    apply decode_frame_opcode in Hr as (h' & Hh' & Ho'). apply (key_inj messages); [apply messages_keys|done|done|].
    unfold key. congruence.
Qed.

(** A connection opens: a hello for version 2, on object 1. *)
Definition sample_hello : Hello :=
  {| hello_version := 2; hello_principal := 3; hello_identity := str "a"; hello_credential_type := str "t"; hello_credential := str "c" |}.
Definition sample_frame : Bytes :=
  to_le 4 1 ++ [40; 0; 0; 0] ++ to_le 4 2 ++ to_le 4 3 ++ [1; 0; 0; 0; 97; 0; 0; 0] ++ [1; 0; 0; 0; 116; 0; 0; 0] ++ [1; 0; 0; 0; 99; 0; 0; 0].
Lemma protocol_exact_witness :
  decode_frame (F := unit) 0 false c_hello sample_frame None = Ok (1, sample_hello).
Proof.
  refine (proj2 (proj1 (protocol_exact (List.hd (request [] [] 0 false c_unit any) messages) sample_frame None 1 sample_hello _ _)) _).
  - by left.
  - repeat constructor; unfold is_u8, u8_max; vm_compute; discriminate.
  - split; [done|]. split; [unfold is_u32, u32_max; lia|]. split.
    + assert (forall c, 0 < c < 128 -> text_range [c]) as Ht.
      { intros c Hc. split; [apply Forall_singleton; unfold is_char; lia|]. intros [->|[]]. lia. }
      split; [unfold is_u32, u32_max; cbn; lia|]. split; [unfold is_u32, u32_max; cbn; lia|].
      split; [apply (Ht 97); lia|]. split; [apply (Ht 116); lia|apply (Ht 99); lia].
    + by vm_compute.
Defined.
