(* ===== verification/Shim.v ===== *)
(** * The server of a shim

    [crates/vitrin-core/src/shim.rs]: one realm's compositor shim mints surfaces
    and a seat, attaches buffers to a surface, names damage and commits; the core
    copies or imports the buffer into the realm's scene and says when it is done
    with a buffer and when a frame was shown. What a descriptor answers, what the
    GPU importer answers and whether the transport takes a frame are parameters. *)

From S2P Require Import Prelude BTree Text Wire Grants Input Capture Geometry Constraint Router Canvas Scene Ipc Messages ShimMessages.

Definition SHIM_SESSION_ID : Z := 1.
Definition CLIENT_ID_MAX : Z := 0xfeffffff.
Definition MAX_SURFACE_DIM : Z := 16384.
Definition MAX_SURFACE_BYTES : Z := 128 * 1024 * 1024.
Definition MAX_LIVE_SURFACES : Z := 16.
Definition MAX_DAMAGE_RECTS : Z := 64.

(* ------------------------------------------------------------------------ *)
(** ** What is outside *)

(** A descriptor: whether it has seals, its size ([fstat] may fail), and a read of
    [len] bytes at an offset, all of them or an error. *)
Class BufferFd (F IoErr : Type) : Type := {
  has_seals : F -> bool;
  fd_size : F -> option Z;
  read_exact_at : F -> Z -> Z -> result Bytes IoErr;
  read_exact_len f len off bytes :
    0 <= len -> read_exact_at f len off = Ok bytes -> Z.of_nat (length bytes) = len;
  read_exact_bytes f len off bytes : read_exact_at f len off = Ok bytes -> is_bytes bytes }.

Record DmabufSpec : Type := { sp_format : Format; sp_width : Z; sp_height : Z; sp_stride : Z }.
Inductive ImportDenied : Type := FdLie | Refusal.
Class DmabufImporter (F I : Type) : Type := {
  imp_supports : I -> Format -> bool;
  imp_import : I -> DmabufSpec -> F -> result unit ImportDenied * I;
  imp_clear : I -> I }.

(* ------------------------------------------------------------------------ *)
(** ** Data *)

Inductive BufferFault (IoErr : Type) : Type :=
| ZeroDimension (width height : Z)
| NarrowStride (stride min_stride : Z)
| NotMemfd
| TooShort (actual required : Z)
| CopyIn (e : IoErr)
| Mismatch (m : ContentSizeMismatch)
| ImportLie.
Arguments ZeroDimension {IoErr} _ _.
Arguments NarrowStride {IoErr} _ _.
Arguments NotMemfd {IoErr}.
Arguments TooShort {IoErr} _ _.
Arguments CopyIn {IoErr} _.
Arguments Mismatch {IoErr} _.
Arguments ImportLie {IoErr}.

Inductive ShimViolation (IoErr : Type) : Type :=
| InvalidBuffer (detail : BufferFault IoErr)
| BadOrder (detail : Str)
| AlreadyInitialized
| ResourceExhausted (detail : Str)
| InvalidObject (object_id : Z) (detail : Str)
| UnknownOpcode (object_id opcode : Z)
| Malformed (e : DecodeError).
Arguments InvalidBuffer {IoErr} _.
Arguments BadOrder {IoErr} _.
Arguments AlreadyInitialized {IoErr}.
Arguments ResourceExhausted {IoErr} _.
Arguments InvalidObject {IoErr} _ _.
Arguments UnknownOpcode {IoErr} _ _.
Arguments Malformed {IoErr} _.

Inductive ShimFault (IoErr X : Type) : Type :=
| ShimViolated (v : ShimViolation IoErr)
| ShimTransport (e : X).
Arguments ShimViolated {IoErr X} _.
Arguments ShimTransport {IoErr X} _.

Record ShimConfig : Type := { sf_realm : Str; sf_geom : ViewGeometry }.

Record PendingBuffer (F : Type) : Type := {
  pb_buffer_id : Z; pb_fd : F; pb_kind : BufferKind; pb_format : Format;
  pb_width : Z; pb_height : Z; pb_stride : Z }.
Arguments pb_buffer_id {F} _.
Arguments pb_fd {F} _.
Arguments pb_kind {F} _.
Arguments pb_format {F} _.
Arguments pb_width {F} _.
Arguments pb_height {F} _.
Arguments pb_stride {F} _.

Record SurfaceState (F : Type) : Type := {
  ss_ever_attached : bool; ss_pending_buffer : option (PendingBuffer F);
  ss_pending_damage : list DamageRect }.
Arguments ss_ever_attached {F} _.
Arguments ss_pending_buffer {F} _.
Arguments ss_pending_damage {F} _.
Definition surface_state_default {F} : SurfaceState F :=
  {| ss_ever_attached := false; ss_pending_buffer := None; ss_pending_damage := [] |}.

Record RetainedDmabuf : Type := { rd_surface_id : Z; rd_buffer_id : Z }.
Record CopyMeter : Type := { copies : Z; pixel_bytes : Z }.
Definition meter_record (bytes : Z) (m : CopyMeter) : CopyMeter :=
  {| copies := u64_wrapping_add (copies m) 1; pixel_bytes := u64_wrapping_add (pixel_bytes m) bytes |}.

Record SelectionAnswer : Type := {
  sa_serial : Z; sa_status : SelectionStatus; sa_mime : Str; sa_data : Str }.
Record IdleInhibitAsk : Type := { ii_surface : option Z; ii_state : IdleInhibitState }.

Record ShimServer (F : Type) : Type := {
  sv_config : ShimConfig;
  sv_watermark : Z;
  sv_surfaces : btree (SurfaceState F);
  sv_seat_id : option Z;
  sv_owed_frame_dones : list Z;
  sv_retained_dmabuf : option RetainedDmabuf;
  sv_copy_meter : CopyMeter;
  sv_selection_answer : option SelectionAnswer;
  sv_constraint_ask : option PointerConstraintAsk;
  sv_idle_inhibit_ask : option IdleInhibitAsk }.
Arguments sv_config {F} _.
Arguments sv_watermark {F} _.
Arguments sv_surfaces {F} _.
Arguments sv_seat_id {F} _.
Arguments sv_owed_frame_dones {F} _.
Arguments sv_retained_dmabuf {F} _.
Arguments sv_copy_meter {F} _.
Arguments sv_selection_answer {F} _.
Arguments sv_constraint_ask {F} _.
Arguments sv_idle_inhibit_ask {F} _.
Arguments Build_ShimServer {F} _ _ _ _ _ _ _ _ _ _.

(** What the server sends. *)
Inductive ShimEvent : Type :=
| EvConfigure (realm : Str) (width height : Z)
| EvRequestSelection (serial : Z)
| EvOfferSelection (mime data : Str)
| EvConstraintState (serial : Z) (state : PointerConstraintStatus)
| EvFrameDone (time_ms : Z)
| EvBufferDone (buffer_id : Z) (status : BufferStatus)
| EvSeat (d : SeatDelivery).

(** Its bytes; [None] is a panic of the writer. *)
Definition shim_event_encode (e : ShimEvent) (oid : Z) : option Bytes :=
  match e with
  | EvConfigure realm w h => encode_frame 0 false c_configure oid (realm, w, h)
  | EvRequestSelection serial => encode_frame 1 false c_request_selection oid serial
  | EvOfferSelection mime data => encode_frame 2 false c_offer_selection oid (mime, data)
  | EvConstraintState serial state => encode_frame 3 false c_constraint_state oid (serial, state)
  | EvFrameDone t => encode_frame 0 false c_frame_done oid t
  | EvBufferDone b st => encode_frame 1 false c_buffer_done oid (b, st)
  | EvSeat d => seat_delivery_encode d oid
  end.

Section server.
Context {F IoErr I X : Type} `{!BufferFd F IoErr} `{!DmabufImporter F I}.
Implicit Types (v : ShimServer F).

Definition shim_new (config : ShimConfig) : ShimServer F :=
  {| sv_config := config; sv_watermark := SHIM_SESSION_ID; sv_surfaces := bt_empty; sv_seat_id := None;
     sv_owed_frame_dones := []; sv_retained_dmabuf := None; sv_copy_meter := {| copies := 0; pixel_bytes := 0 |};
     sv_selection_answer := None; sv_constraint_ask := None; sv_idle_inhibit_ask := None |}.

(** Assignments to its fields. *)
Definition set_geom (g : ViewGeometry) v : ShimServer F :=
  Build_ShimServer {| sf_realm := sf_realm (sv_config v); sf_geom := g |} (sv_watermark v) (sv_surfaces v)
    (sv_seat_id v) (sv_owed_frame_dones v) (sv_retained_dmabuf v) (sv_copy_meter v) (sv_selection_answer v)
    (sv_constraint_ask v) (sv_idle_inhibit_ask v).
Definition set_shim_watermark (id : Z) v : ShimServer F :=
  Build_ShimServer (sv_config v) id (sv_surfaces v) (sv_seat_id v) (sv_owed_frame_dones v)
    (sv_retained_dmabuf v) (sv_copy_meter v) (sv_selection_answer v) (sv_constraint_ask v) (sv_idle_inhibit_ask v).
Definition set_surfaces (m : btree (SurfaceState F)) v : ShimServer F :=
  Build_ShimServer (sv_config v) (sv_watermark v) m (sv_seat_id v) (sv_owed_frame_dones v)
    (sv_retained_dmabuf v) (sv_copy_meter v) (sv_selection_answer v) (sv_constraint_ask v) (sv_idle_inhibit_ask v).
Definition set_seat_id (id : option Z) v : ShimServer F :=
  Build_ShimServer (sv_config v) (sv_watermark v) (sv_surfaces v) id (sv_owed_frame_dones v)
    (sv_retained_dmabuf v) (sv_copy_meter v) (sv_selection_answer v) (sv_constraint_ask v) (sv_idle_inhibit_ask v).
Definition set_owed (l : list Z) v : ShimServer F :=
  Build_ShimServer (sv_config v) (sv_watermark v) (sv_surfaces v) (sv_seat_id v) l
    (sv_retained_dmabuf v) (sv_copy_meter v) (sv_selection_answer v) (sv_constraint_ask v) (sv_idle_inhibit_ask v).
Definition set_retained (r : option RetainedDmabuf) v : ShimServer F :=
  Build_ShimServer (sv_config v) (sv_watermark v) (sv_surfaces v) (sv_seat_id v) (sv_owed_frame_dones v)
    r (sv_copy_meter v) (sv_selection_answer v) (sv_constraint_ask v) (sv_idle_inhibit_ask v).
Definition set_meter (m : CopyMeter) v : ShimServer F :=
  Build_ShimServer (sv_config v) (sv_watermark v) (sv_surfaces v) (sv_seat_id v) (sv_owed_frame_dones v)
    (sv_retained_dmabuf v) m (sv_selection_answer v) (sv_constraint_ask v) (sv_idle_inhibit_ask v).
Definition set_selection_answer (a : option SelectionAnswer) v : ShimServer F :=
  Build_ShimServer (sv_config v) (sv_watermark v) (sv_surfaces v) (sv_seat_id v) (sv_owed_frame_dones v)
    (sv_retained_dmabuf v) (sv_copy_meter v) a (sv_constraint_ask v) (sv_idle_inhibit_ask v).
Definition set_constraint_ask (a : option PointerConstraintAsk) v : ShimServer F :=
  Build_ShimServer (sv_config v) (sv_watermark v) (sv_surfaces v) (sv_seat_id v) (sv_owed_frame_dones v)
    (sv_retained_dmabuf v) (sv_copy_meter v) (sv_selection_answer v) a (sv_idle_inhibit_ask v).
Definition set_idle_inhibit_ask (a : option IdleInhibitAsk) v : ShimServer F :=
  Build_ShimServer (sv_config v) (sv_watermark v) (sv_surfaces v) (sv_seat_id v) (sv_owed_frame_dones v)
    (sv_retained_dmabuf v) (sv_copy_meter v) (sv_selection_answer v) (sv_constraint_ask v) a.

Definition take_selection_answer v : option SelectionAnswer * ShimServer F :=
  (sv_selection_answer v, set_selection_answer None v).
Definition take_pointer_constraint_ask v : option PointerConstraintAsk * ShimServer F :=
  (sv_constraint_ask v, set_constraint_ask None v).
Definition take_idle_inhibit_ask v : option IdleInhibitAsk * ShimServer F :=
  (sv_idle_inhibit_ask v, set_idle_inhibit_ask None v).
Definition wants_presentation v : bool := negb (bool_decide (sv_owed_frame_dones v = [])).
Definition configured_size v : Z * Z := usable (sf_geom (sv_config v)).

(** ** The state a handler works on *)

(** The server, the scene and the importer it is given, what the transport has
    taken and what it will answer next ([None]: it takes the frame). *)
Record Shim : Type := {
  sh_server : ShimServer F;
  sh_scene : Scene;
  sh_importer : option I;
  sh_sent : list (Z * ShimEvent);
  sh_answers : list (option X) }.

Definition on_shim (f : ShimServer F -> ShimServer F) (s : Shim) : Shim :=
  {| sh_server := f (sh_server s); sh_scene := sh_scene s; sh_importer := sh_importer s;
     sh_sent := sh_sent s; sh_answers := sh_answers s |}.
Definition on_scene (f : Scene -> Scene) (s : Shim) : Shim :=
  {| sh_server := sh_server s; sh_scene := f (sh_scene s); sh_importer := sh_importer s;
     sh_sent := sh_sent s; sh_answers := sh_answers s |}.
Definition set_importer (i : option I) (s : Shim) : Shim :=
  {| sh_server := sh_server s; sh_scene := sh_scene s; sh_importer := i;
     sh_sent := sh_sent s; sh_answers := sh_answers s |}.

Definition SM (A : Type) : Type := Shim -> result A (ShimFault IoErr X) * Shim.
Definition sret {A} (a : A) : SM A := fun s => (Ok a, s).
Definition sbind {A B} (m : SM A) (k : A -> SM B) : SM B :=
  fun s => match m s with (Ok a, s) => k a s | (Err e, s) => (Err e, s) end.
Definition sget : SM Shim := fun s => (Ok s, s).
Definition smodify (f : Shim -> Shim) : SM unit := fun s => (Ok tt, f s).
Definition shim_violation {A} (v : ShimViolation IoErr) : SM A := fun s => (Err (ShimViolated v), s).
Local Notation "x <-- m ;; k" := (sbind m (fun x => k)) (at level 100, m at next level, right associativity).
Local Notation "m ;;; k" := (sbind m (fun _ => k)) (at level 100, right associativity).

(** [send(&event.encode(object))?]. *)
Definition shim_send (oid : Z) (e : ShimEvent) : SM unit := fun s =>
  match sh_answers s with
  | Some x :: rest =>
      (Err (ShimTransport x),
       {| sh_server := sh_server s; sh_scene := sh_scene s; sh_importer := sh_importer s;
          sh_sent := sh_sent s; sh_answers := rest |})
  | answers =>
      (Ok tt,
       {| sh_server := sh_server s; sh_scene := sh_scene s; sh_importer := sh_importer s;
          sh_sent := sh_sent s ++ [(oid, e)]; sh_answers := tl answers |})
  end.

(** ** Events *)

Definition send_pointer_constraint_state (serial : Z) (state : PointerConstraintStatus) : SM unit :=
  shim_send SHIM_SESSION_ID (EvConstraintState serial state).
Definition send_request_selection (serial : Z) : SM unit :=
  shim_send SHIM_SESSION_ID (EvRequestSelection serial).
Definition send_offer_selection (mime data : Str) : SM unit :=
  shim_send SHIM_SESSION_ID (EvOfferSelection mime data).
Definition send_configure : SM unit :=
  s <-- sget ;;
  let config := sv_config (sh_server s) in
  let '(width, height) := usable (sf_geom config) in
  shim_send SHIM_SESSION_ID (EvConfigure (sf_realm config) width height).

Definition geom_eqb (a b : ViewGeometry) : bool :=
  bool_decide (output a = output b) && (strip_h a =? strip_h b).
Definition reconfigure (geom : ViewGeometry) : SM bool :=
  s <-- sget ;;
  if geom_eqb (sf_geom (sv_config (sh_server s))) geom then sret false else
  smodify (on_shim (set_geom geom)) ;;; send_configure ;;; sret true.

(** [presented]: one [frame_done] for each commit since the last frame. *)
Fixpoint presented_loop (time_ms : Z) (owed : list Z) : SM unit :=
  match owed with
  | [] => sret tt
  | surface_id :: owed =>
      smodify (on_shim (set_owed owed)) ;;;
      shim_send surface_id (EvFrameDone time_ms) ;;;
      presented_loop time_ms owed
  end.
Definition presented (time_ms : Z) : SM unit :=
  s <-- sget ;; presented_loop time_ms (sv_owed_frame_dones (sh_server s)).

Definition deliver_seat_event (event : SeatDelivery) : SM bool :=
  s <-- sget ;;
  match sv_seat_id (sh_server s) with
  | None => sret false
  | Some seat_id => shim_send seat_id (EvSeat event) ;;; sret true
  end.

(** [connection_closed]. *)
Definition connection_closed {H} (realm : RealmId) (s : Shim) (router : InputRouter H)
    : Scene * option I * InputRouter H :=
  (clear_surface (sh_scene s), imp_clear <$> sh_importer s, (reset_for realm router).2).

(** ** Objects *)

Definition shim_allocate_id (id : Z) : SM unit :=
  s <-- sget ;;
  if (id <=? sv_watermark (sh_server s)) || (CLIENT_ID_MAX <? id)
  then shim_violation (InvalidObject id (str "new_id at/below the watermark or outside the client range"))
  else smodify (on_shim (set_shim_watermark id)).

Definition put_surface (id : Z) (f : SurfaceState F -> SurfaceState F) : SM unit :=
  smodify (on_shim (fun v => set_surfaces (bt_set (sv_surfaces v) id f) v)).

(** The surface a handler was routed to: the [expect] it does not fail. *)
Definition surface_of (s : Shim) (id : Z) : SurfaceState F :=
  default surface_state_default (sv_surfaces (sh_server s) !! id).

(** [Request::decode(&msg.bytes, msg.fd).map_err(ShimViolation::from)]. *)
Definition decode_shim {A} (OPCODE : Z) (HAS_FD : bool) (c : codec A) (msg : Ipc.Message F) : SM A :=
  match decode_frame OPCODE HAS_FD c (Ipc.msg_bytes msg) (Ipc.msg_fd msg) with
  | Ok (_, m) => sret m
  | Err e => shim_violation (Malformed e)
  end.

(** ** Buffers *)

(** One row: B, G, R, X or A in the client's memory to R, G, B, A. *)
Fixpoint swizzle (format : Format) (row : Bytes) : list Z :=
  match row with
  | b :: g :: r :: a :: row =>
      r :: g :: b :: match format with Xrgb8888 => 255 | Argb8888 => a end :: swizzle format row
  | _ => []
  end.
Fixpoint copy_rows (n : nat) (y : Z) (fd : F) (row_bytes stride : Z) (format : Format) : result (list Z) IoErr :=
  match n with
  | O => Ok []
  | S n =>
      let? row := read_exact_at fd row_bytes (y * stride) in
      let? rest := copy_rows n (y + 1) fd row_bytes stride format in
      Ok (swizzle format row ++ rest)
  end.
(** [copy_in]. *)
Definition copy_in (fd : F) (width height stride : Z) (format : Format) : result (list Z) IoErr :=
  let row_bytes := usize_mul width BYTES_PER_PIXEL in
  if row_bytes =? 0 then Ok [] else copy_rows (Z.to_nat height) 0 fd row_bytes stride format.

(** The retained dmabuf, if any, is given back; an shm commit also clears the
    importer. *)
Definition release_retained (clear : bool) : SM unit :=
  s <-- sget ;;
  match sv_retained_dmabuf (sh_server s) with
  | None => sret tt
  | Some prev =>
      smodify (on_shim (set_retained None)) ;;;
      (if clear then smodify (fun s => set_importer (imp_clear <$> sh_importer s) s) else sret tt) ;;;
      shim_send (rd_surface_id prev) (EvBufferDone (rd_buffer_id prev) Released)
  end.

(** [apply_dmabuf]. *)
Definition apply_dmabuf (surface_id : Z) (pending : PendingBuffer F) : SM (option BufferStatus) :=
  if (MAX_SURFACE_DIM <? pb_width pending) || (MAX_SURFACE_DIM <? pb_height pending)
  then sret (Some TooLarge) else
  s <-- sget ;;
  match sh_importer s with
  | None => sret (Some ImportFailed)
  | Some importer =>
      if negb (imp_supports importer (pb_format pending)) then sret (Some FormatUnsupported) else
      let spec := {| sp_format := pb_format pending; sp_width := pb_width pending;
                     sp_height := pb_height pending; sp_stride := pb_stride pending |} in
      let '(r, importer) := imp_import importer spec (pb_fd pending) in
      smodify (set_importer (Some importer)) ;;;
      match r with
      | Err FdLie => shim_violation (InvalidBuffer ImportLie)
      | Err Refusal => sret (Some ImportFailed)
      | Ok _ =>
          release_retained false ;;;
          smodify (on_shim (set_retained
            (Some {| rd_surface_id := surface_id; rd_buffer_id := pb_buffer_id pending |}))) ;;;
          sret None
      end
  end.

(** [apply_buffer]. *)
Definition apply_buffer (surface_id : Z) (pending : PendingBuffer F) (damage_hint : option DamageRect)
    : SM (option BufferStatus) :=
  if bool_decide (pb_kind pending = Dmabuf) then apply_dmabuf surface_id pending else
  let total_bytes := pb_width pending * pb_height pending * BYTES_PER_PIXEL in
  if (MAX_SURFACE_DIM <? pb_width pending) || (MAX_SURFACE_DIM <? pb_height pending)
     || (MAX_SURFACE_BYTES <? total_bytes)
  then sret (Some TooLarge) else
  match copy_in (pb_fd pending) (pb_width pending) (pb_height pending) (pb_stride pending) (pb_format pending) with
  | Err e => shim_violation (InvalidBuffer (CopyIn e))
  | Ok rgba =>
      smodify (on_shim (fun v => set_meter (meter_record (Z.of_nat (length rgba)) (sv_copy_meter v)) v)) ;;;
      match from_rgba rgba (pb_width pending) (pb_height pending) with
      | Err m => shim_violation (InvalidBuffer (Mismatch m))
      | Ok content =>
          smodify (on_scene (commit_with_damage content damage_hint)) ;;;
          release_retained true ;;;
          sret (Some Released)
      end
  end.

(** ** The requests of a surface *)

Definition handle_attach (surface_id : Z) (msg : Ipc.Message F) : SM unit :=
  req <-- decode_shim 0 true c_attach msg ;;
  match Ipc.msg_fd msg with
  | None => sret tt
  | Some fd =>
      if (at_width req =? 0) || (at_height req =? 0)
      then shim_violation (InvalidBuffer (ZeroDimension (at_width req) (at_height req))) else
      let min_stride := at_width req * BYTES_PER_PIXEL in
      if at_stride req <? min_stride
      then shim_violation (InvalidBuffer (NarrowStride (at_stride req) min_stride)) else
      let required := at_stride req * at_height req in
      let actual := Z.max 0 (default 0 (fd_size fd)) in
      if bool_decide (at_kind req = Shm) && negb (has_seals fd)
      then shim_violation (InvalidBuffer NotMemfd) else
      if bool_decide (at_kind req = Shm) && (actual <? required)
      then shim_violation (InvalidBuffer (TooShort actual required)) else
      s <-- sget ;;
      let state := surface_of s surface_id in
      if is_some_and (ss_pending_buffer state) (fun pending =>
           bool_decide (pb_kind pending = Dmabuf) && (pb_buffer_id pending =? at_buffer_id req))
      then shim_violation (BadOrder (str "re-attach of a dmabuf buffer_id still awaiting buffer_done")) else
      if is_some_and (sv_retained_dmabuf (sh_server s)) (fun r =>
           (rd_surface_id r =? surface_id) && (rd_buffer_id r =? at_buffer_id req))
      then shim_violation (BadOrder (str "re-attach of a retained dmabuf buffer_id still awaiting buffer_done"))
      else
      match ss_pending_buffer state with
      | None => sret tt
      | Some old =>
          put_surface surface_id (fun st =>
            {| ss_ever_attached := ss_ever_attached st; ss_pending_buffer := None;
               ss_pending_damage := ss_pending_damage st |}) ;;;
          shim_send surface_id (EvBufferDone (pb_buffer_id old) Released)
      end ;;;
      put_surface surface_id (fun st =>
        {| ss_ever_attached := true;
           ss_pending_buffer := Some {| pb_buffer_id := at_buffer_id req; pb_fd := fd; pb_kind := at_kind req;
             pb_format := at_format req; pb_width := at_width req; pb_height := at_height req;
             pb_stride := at_stride req |};
           ss_pending_damage := ss_pending_damage st |})
  end.

(** The last rectangle, grown by another. *)
Fixpoint union_last (l : list DamageRect) (r : DamageRect) : list DamageRect :=
  match l with
  | [] => []
  | [x] => [damage_union x r]
  | x :: l => x :: union_last l r
  end.
Definition handle_damage (surface_id : Z) (req : Z * Z * Z * Z) : SM unit :=
  s <-- sget ;;
  if negb (ss_ever_attached (surface_of s surface_id))
  then shim_violation (BadOrder (str "damage against a never-attached surface")) else
  let '(x, y, width, height) := req in
  let rect := {| dm_x := x; dm_y := y; dm_width := width; dm_height := height |} in
  put_surface surface_id (fun st =>
    {| ss_ever_attached := ss_ever_attached st; ss_pending_buffer := ss_pending_buffer st;
       ss_pending_damage :=
         if Z.of_nat (length (ss_pending_damage st)) <? MAX_DAMAGE_RECTS
         then ss_pending_damage st ++ [rect] else union_last (ss_pending_damage st) rect |}).

(** [reduce] with [union]. *)
Definition damage_box (l : list DamageRect) : option DamageRect :=
  match l with [] => None | r :: l => Some (fold_left damage_union l r) end.

Definition handle_commit (surface_id : Z) : SM unit :=
  s <-- sget ;;
  let state := surface_of s surface_id in
  if negb (ss_ever_attached state)
  then shim_violation (BadOrder (str "commit against a never-attached surface")) else
  let damage_hint := damage_box (ss_pending_damage state) in
  put_surface surface_id (fun st =>
    {| ss_ever_attached := ss_ever_attached st; ss_pending_buffer := None; ss_pending_damage := [] |}) ;;;
  match ss_pending_buffer state with
  | None => sret tt
  | Some pending =>
      status <-- apply_buffer surface_id pending damage_hint ;;
      match status with
      | Some status => shim_send surface_id (EvBufferDone (pb_buffer_id pending) status)
      | None => sret tt
      end
  end ;;;
  smodify (on_shim (fun v => set_owed (sv_owed_frame_dones v ++ [surface_id]) v)).

(** ** [handle_message] *)

Definition known_surface (s : Shim) (id : Z) : bool := bool_decide (is_Some (sv_surfaces (sh_server s) !! id)).

Definition handle_shim_message (msg : Ipc.Message F) : SM bool :=
  let object_id := object_id (Ipc.msg_header msg) in
  let opcode := opcode (Ipc.msg_header msg) in
  s <-- sget ;;
  if object_id =? SHIM_SESSION_ID then
    if opcode =? 0 then
      req <-- decode_shim 0 false c_create_surface msg ;;
      if MAX_LIVE_SURFACES <=? bt_len (sv_surfaces (sh_server s))
      then shim_violation (ResourceExhausted (str "live-surface cap exceeded")) else
      shim_allocate_id req ;;;
      smodify (on_shim (fun v => set_surfaces (<[req := surface_state_default]> (sv_surfaces v)) v)) ;;;
      sret false
    else if opcode =? 1 then
      req <-- decode_shim 1 false c_get_seat msg ;;
      shim_allocate_id req ;;;
      if bool_decide (is_Some (sv_seat_id (sh_server s))) then shim_violation AlreadyInitialized else
      smodify (on_shim (set_seat_id (Some req))) ;;;
      sret false
    else if opcode =? 2 then
      req <-- decode_shim 2 false c_selection msg ;;
      smodify (on_shim (set_selection_answer (Some
        {| sa_serial := sel_serial req; sa_status := sel_status req; sa_mime := sel_mime req;
           sa_data := sel_data req |}))) ;;;
      sret false
    else if opcode =? 3 then
      req <-- decode_shim 3 false c_pointer_constraint msg ;;
      if is_some_and (pc_surface req) (fun surface => negb (known_surface s surface))
      then shim_violation (InvalidObject (default 0 (pc_surface req))
             (str "pointer_constraint names a surface this connection never minted")) else
      smodify (on_shim (set_constraint_ask (Some
        {| ask_serial := pc_serial req; ask_surface := pc_surface req; ask_kind := pc_kind req;
           ask_lifetime := pc_lifetime req;
           ask_region := {| rg_x := pc_x req; rg_y := pc_y req; rg_width := pc_width req;
                            rg_height := pc_height req |} |}))) ;;;
      sret false
    else if opcode =? 4 then
      req <-- decode_shim 4 false c_idle_inhibit msg ;;
      if is_some_and req.1 (fun surface => negb (known_surface s surface))
      then shim_violation (InvalidObject (default 0 req.1)
             (str "idle_inhibit names a surface this connection never minted")) else
      smodify (on_shim (set_idle_inhibit_ask (Some {| ii_surface := req.1; ii_state := req.2 |}))) ;;;
      sret false
    else shim_violation (UnknownOpcode object_id opcode)
  else if known_surface s object_id then
    if opcode =? 0 then handle_attach object_id msg ;;; sret false
    else if opcode =? 1 then
      req <-- decode_shim 1 false c_damage msg ;;
      handle_damage object_id req ;;; sret false
    else if opcode =? 2 then
      decode_shim 2 false c_commit msg ;;; handle_commit object_id ;;; sret true
    else shim_violation (UnknownOpcode object_id opcode)
  else if bool_decide (sv_seat_id (sh_server s) = Some object_id)
  then shim_violation (UnknownOpcode object_id opcode)
  else shim_violation (InvalidObject object_id (str "unknown object id")).
End server.
