(* ===== verification/ShimRun.v ===== *)
(** * Runs of a shim's server

    Sequences of operations on the server of [Shim], and what they keep: object
    ids under the watermark, bounded surfaces and damage, a scene that composes;
    every buffer attached accounted for, every commit owed its frame. *)

From S2P Require Import Prelude BTree Text Wire Grants Input Capture Geometry Constraint Router Canvas Scene Ipc Messages ShimMessages Shim.

Section runs.
Context {F IoErr I X : Type} `{!BufferFd F IoErr} `{!DmabufImporter F I}.
Abbreviation Shim := (@Shim F I X).
Abbreviation SM := (@SM F IoErr I X).
Local Notation "x <-- m ;; k" := (sbind m (fun x => k)) (at level 100, m at next level, right associativity).
Local Notation "m ;;; k" := (sbind m (fun _ => k)) (at level 100, right associativity).

Inductive ShimOp : Type :=
| SoMessage (msg : Ipc.Message F)
| SoPresented (time_ms : Z)
| SoSeat (event : SeatDelivery)
| SoConfigure
| SoReconfigure (geom : ViewGeometry)
| SoConstraintState (serial : Z) (state : PointerConstraintStatus)
| SoRequestSelection (serial : Z)
| SoOfferSelection (mime data : Str)
| SoTakeAsks
| SoTakeDamage (geom : ViewGeometry).

Definition shim_op (op : ShimOp) : SM unit :=
  match op with
  | SoMessage msg => handle_shim_message msg ;;; sret tt
  | SoPresented t => presented t
  | SoSeat e => deliver_seat_event e ;;; sret tt
  | SoConfigure => send_configure
  | SoReconfigure g => reconfigure g ;;; sret tt
  | SoConstraintState serial st => send_pointer_constraint_state serial st
  | SoRequestSelection serial => send_request_selection serial
  | SoOfferSelection m d => send_offer_selection m d
  | SoTakeAsks =>
      smodify (on_shim (fun v =>
        (take_idle_inhibit_ask (take_pointer_constraint_ask (take_selection_answer v).2).2).2))
  | SoTakeDamage g => smodify (on_scene (fun sc => (take_damage_view g sc).2))
  end.
(** A run ends at the first fault: the session closes the connection. *)
Fixpoint shim_run (ops : list ShimOp) : SM unit :=
  match ops with [] => sret tt | op :: ops => shim_op op ;;; shim_run ops end.

Definition shim_start (config : ShimConfig) (scene : Scene) (importer : option I) (answers : list (option X)) : Shim :=
  {| sh_server := shim_new config; sh_scene := scene; sh_importer := importer; sh_sent := [];
     sh_answers := answers |}.

(* ------------------------------------------------------------------------ *)
(** ** The monad *)

Lemma sbind_ok {A B} (m : SM A) (k : A -> SM B) s b s' :
  sbind m k s = (Ok b, s') <-> exists a s1, m s = (Ok a, s1) /\ k a s1 = (Ok b, s').
Proof.
  unfold sbind. destruct (m s) as [[a|e] s1]; split.
  - intros H. by exists a, s1.
  - by intros (? & ? & [= <- <-] & ?).
  - done.
  - by intros (? & ? & ? & _).
Qed.

(** What every operation keeps, whether it fails or not. *)
Definition keeps {A} (P : Shim -> Prop) (m : SM A) : Prop := forall s, P s -> P (m s).2.

Lemma keeps_bind {A B} P (m : SM A) (k : A -> SM B) :
  keeps P m -> (forall a, keeps P (k a)) -> keeps P (sbind m k).
Proof.
  intros Hm Hk s Hs. unfold sbind. pose proof (Hm s Hs) as H. destruct (m s) as [[a|e] s1]; [by apply Hk|done].
Qed.

Lemma shim_send_ok oid e (s : Shim) u s' :
  (shim_send oid e : SM unit) s = (Ok u, s') ->
  sh_server s' = sh_server s /\ sh_scene s' = sh_scene s /\ sh_importer s' = sh_importer s
  /\ sh_sent s' = sh_sent s ++ [(oid, e)].
Proof. unfold shim_send. by destruct (sh_answers s) as [|[]]; intros [= <- <-]. Qed.

Lemma shim_send_frame oid e (s : Shim) :
  let s' := ((shim_send oid e : SM unit) s).2 in
  sh_server s' = sh_server s /\ sh_scene s' = sh_scene s /\ sh_importer s' = sh_importer s.
Proof. unfold shim_send. by destruct (sh_answers s) as [|[]]. Qed.

(* ------------------------------------------------------------------------ *)
(** ** Accounts *)

(** The buffers a surface holds until its next commit. *)
Definition pend (e : Z * SurfaceState F) : list (Z * Z) :=
  match ss_pending_buffer e.2 with Some p => [(e.1, pb_buffer_id p)] | None => [] end.
Definition pending_buffers (s : Shim) : list (Z * Z) := flat_map pend (bt_entries (sv_surfaces (sh_server s))).
Definition retained_buffer (s : Shim) : list (Z * Z) :=
  match sv_retained_dmabuf (sh_server s) with
  | Some r => [(rd_surface_id r, rd_buffer_id r)]
  | None => []
  end.
(** The buffers given back, and the frames told, in the order sent. *)
Definition buffers_done (s : Shim) : list (Z * Z) :=
  omap (fun oe => match oe.2 with EvBufferDone b _ => Some (oe.1, b) | _ => None end) (sh_sent s).
Definition frames_done (s : Shim) : list Z :=
  omap (fun oe => match oe.2 with EvFrameDone _ => Some oe.1 | _ => None end) (sh_sent s).

(** Every buffer the server ever took, and every frame it ever owed. *)
Definition buffers (s : Shim) : list (Z * Z) := buffers_done s ++ retained_buffer s ++ pending_buffers s.
Definition frames (s : Shim) : list Z := frames_done s ++ sv_owed_frame_dones (sh_server s).

(** What a message that is accepted adds to them. *)
Definition attached_by (op : ShimOp) : list (Z * Z) :=
  match op with
  | SoMessage msg =>
      let h := Ipc.msg_header msg in
      if negb (object_id h =? SHIM_SESSION_ID) && (opcode h =? 0) then
        match decode_frame 0 true c_attach (Ipc.msg_bytes msg) (Ipc.msg_fd msg) with
        | Ok (_, req) => [(object_id h, at_buffer_id req)]
        | Err _ => []
        end
      else []
  | _ => []
  end.
Definition committed_by (op : ShimOp) : list Z :=
  match op with
  | SoMessage msg =>
      let h := Ipc.msg_header msg in
      if negb (object_id h =? SHIM_SESSION_ID) && (opcode h =? 2) then [object_id h] else []
  | _ => []
  end.

Lemma bt_set_split {V} (m : btree V) k f v :
  bt_wf m -> m !! k = Some v ->
  exists l1 l2, bt_entries m = l1 ++ (k, v) :: l2 /\ bt_entries (bt_set m k f) = l1 ++ (k, f v) :: l2.
Proof.
  unfold bt_wf, bt_keys, lookup, bt_lookup, bt_get, bt_set, bt_update. simpl.
  induction (bt_entries m) as [|[k0 v0] l IH]; simpl; intros Hwf Hk; [done|].
  apply StronglySorted_inv in Hwf as [Hwf Hlt]. destruct (Z.eqb_spec k k0) as [->|Hne].
  - injection Hk as <-. exists [], l. split; [done|]. simpl. f_equal.
    rewrite <- (List.map_id l) at 2. apply map_ext_in. intros [k1 v1] H1. simpl.
    assert (k0 < k1) by (eapply Forall_forall; [exact Hlt|]; apply list_elem_of_In, (in_map fst _ _ H1)).
    by rewrite (proj2 (Z.eqb_neq k0 k1)) by lia.
  - destruct (IH Hwf Hk) as (l1 & l2 & -> & ->). by exists ((k0, v0) :: l1), l2.
Qed.

(** The account after a change to one surface. *)
Lemma pending_set m k f st :
  bt_wf m -> m !! k = Some st ->
  exists rest, flat_map pend (bt_entries m) ≡ₚ pend (k, st) ++ rest
    /\ flat_map pend (bt_entries (bt_set m k f)) ≡ₚ pend (k, f st) ++ rest.
Proof.
  intros Hwf Hk. destruct (bt_set_split m k f st Hwf Hk) as (l1 & l2 & -> & ->).
  exists (flat_map pend l1 ++ flat_map pend l2). rewrite !flat_map_app. simpl. split; solve_Permutation.
Qed.

(* ------------------------------------------------------------------------ *)
(** ** The invariant *)

Definition pending_ok (p : PendingBuffer F) : Prop :=
  0 < pb_width p <= u32_max /\ 0 < pb_height p <= u32_max /\ pb_width p * 4 <= pb_stride p <= u32_max.
Definition surface_ok (st : SurfaceState F) : Prop :=
  Z.of_nat (length (ss_pending_damage st)) <= MAX_DAMAGE_RECTS
  /\ forall p, ss_pending_buffer st = Some p -> ss_ever_attached st = true /\ pending_ok p.
Definition scene_ok (sc : Scene) : Prop :=
  scene_wf sc /\ forall c, sn_surface sc = Some c -> sc_width c <= MAX_SURFACE_DIM /\ sc_height c <= MAX_SURFACE_DIM.

Record shim_wf (s : Shim) : Prop := {
  sw_map : bt_wf (sv_surfaces (sh_server s));
  sw_mark : SHIM_SESSION_ID <= sv_watermark (sh_server s) <= CLIENT_ID_MAX;
  sw_ids id : is_Some (sv_surfaces (sh_server s) !! id) -> SHIM_SESSION_ID < id <= sv_watermark (sh_server s);
  sw_seat id : sv_seat_id (sh_server s) = Some id ->
    SHIM_SESSION_ID < id <= sv_watermark (sh_server s) /\ sv_surfaces (sh_server s) !! id = None;
  sw_len : bt_len (sv_surfaces (sh_server s)) <= MAX_LIVE_SURFACES;
  sw_surface id st : sv_surfaces (sh_server s) !! id = Some st -> surface_ok st;
  sw_scene : scene_ok (sh_scene s) }.

Definition op_ok (op : ShimOp) : Prop :=
  match op with SoMessage msg => is_bytes (Ipc.msg_bytes msg) | _ => True end.

(** The invariant reads the map, the watermark, the seat and the scene. *)
Lemma wf_frame (s s' : Shim) :
  sv_surfaces (sh_server s') = sv_surfaces (sh_server s) ->
  sv_watermark (sh_server s') = sv_watermark (sh_server s) ->
  sv_seat_id (sh_server s') = sv_seat_id (sh_server s) -> scene_ok (sh_scene s') ->
  shim_wf s -> shim_wf s'.
Proof. intros Hm Hw Hi Hsc []. split; rewrite ?Hm, ?Hw, ?Hi; done. Qed.

Lemma keeps_ret {A} (P : Shim -> Prop) (a : A) : keeps P (sret a : SM A).
Proof. by intros s Hs. Qed.
Lemma keeps_violation {A} (P : Shim -> Prop) v : keeps P (shim_violation v : SM A).
Proof. by intros s Hs. Qed.

Lemma safe_bind {A B} (P : Shim -> Prop) (m : SM A) (k : A -> SM B) s :
  P (m s).2 -> (forall a s1, m s = (Ok a, s1) -> P s1 -> P (k a s1).2) -> P (sbind m k s).2.
Proof. unfold sbind. destruct (m s) as [[a|e] s1]; simpl; auto. Qed.

Lemma safe_get {B} (P : Shim -> Prop) (k : Shim -> SM B) s : P (k s s).2 -> P (sbind sget k s).2.
Proof. done. Qed.

Lemma send_wf oid e : keeps shim_wf (shim_send oid e : SM unit).
Proof.
  intros s Hs. destruct (shim_send_frame oid e s) as (Hv & Hsc & _).
  apply (wf_frame s); rewrite ?Hv, ?Hsc; try done. apply Hs.
Qed.

(** A change of the server that leaves the map, the watermark and the seat. *)
Lemma modify_wf (f : ShimServer F -> ShimServer F) :
  (forall v, sv_surfaces (f v) = sv_surfaces v /\ sv_watermark (f v) = sv_watermark v
             /\ sv_seat_id (f v) = sv_seat_id v) ->
  keeps shim_wf (smodify (on_shim f) : SM unit).
Proof. intros Hf s Hs. destruct (Hf (sh_server s)) as (? & ? & ?). apply (wf_frame s); try done. apply Hs. Qed.

Lemma scene_op_wf (f : Scene -> Scene) :
  (forall sc, scene_ok sc -> scene_ok (f sc)) -> keeps shim_wf (smodify (on_scene f) : SM unit).
Proof. intros Hf s Hs. apply (wf_frame s); try done. apply Hf, Hs. Qed.

Lemma put_surface_wf id f :
  (forall st, surface_ok st -> surface_ok (f st)) -> keeps shim_wf (put_surface id f : SM unit).
Proof.
  intros Hf s [Hm Hk Hi Hse Hl Hst Hsc].
  assert (forall id', is_Some (bt_set (sv_surfaces (sh_server s)) id f !! id') <-> is_Some (sv_surfaces (sh_server s) !! id')) as Hdom.
  { intros id'. rewrite bt_lookup_set. case_match; [|done]. by rewrite fmap_is_Some. }
  split; simpl; try done.
  - by apply bt_wf_set.
  - intros id' H. apply Hi, Hdom, H.
  - intros id' H. destruct (Hse id' H) as [? Hn]. split; [done|]. apply eq_None_not_Some. rewrite Hdom, Hn. by intros [].
  - unfold bt_set. by rewrite bt_len_update.
  - intros id' st. rewrite bt_lookup_set. case_match; [|apply Hst].
    intros (st0 & H0 & ->)%fmap_Some. by apply Hf, (Hst id').
Qed.

Lemma allocate_wf id : keeps shim_wf (shim_allocate_id id : SM unit).
Proof.
  intros s [Hm Hk Hi Hse Hl Hst Hsc]. unfold shim_allocate_id. unfold sbind, sget.
  destruct ((id <=? _) || _) eqn:Hb; [by split|]. unbool. split; simpl; try done.
  - lia.
  - intros id' Hid. specialize (Hi id' Hid). lia.
  - intros id' Hid. destruct (Hse id' Hid). split; [lia|done].
Qed.

Lemma allocate_ok id (s : Shim) u s' :
  (shim_allocate_id id : SM unit) s = (Ok u, s') ->
  sv_watermark (sh_server s) < id <= CLIENT_ID_MAX /\ s' = on_shim (set_shim_watermark id) s.
Proof.
  unfold shim_allocate_id, sbind, sget. destruct ((id <=? _) || _) eqn:Hb; [done|]. unbool. by intros [= _ <-].
Qed.

Lemma decode_ok {A} op has (c : codec A) `{!Lawful c} msg (s : Shim) a s' :
  is_bytes (Ipc.msg_bytes msg) -> is_u8 op -> (decode_shim op has c msg : SM A) s = (Ok a, s') ->
  s' = s /\ valid a /\ bool_decide (is_Some (Ipc.msg_fd msg)) = has.
Proof.
  intros Hb Hop. unfold decode_shim. destruct (decode_frame _ _ _ _ _) as [[oid m]|] eqn:Hd; [|done].
  intros [= <- <-]. by destruct (proj1 (frame_exact c op has _ _ oid m Hb Hop) Hd) as (? & _ & ? & _).
Qed.
Lemma decode_keeps {A} P op has (c : codec A) msg : keeps P (decode_shim op has c msg : SM A).
Proof. intros s Hs. unfold decode_shim. by destruct (decode_frame _ _ _ _ _) as [[]|]. Qed.

(* ------------------------------------------------------------------------ *)
(** ** The invariant is kept *)

Lemma keeps_modify (P : Shim -> Prop) f : (forall s, P s -> P (f s)) -> keeps P (smodify f : SM unit).
Proof. intros Hf s Hs. by apply Hf. Qed.

Lemma release_wf clear : keeps shim_wf (release_retained clear : SM unit).
Proof.
  intros s Hs. unfold release_retained. apply safe_get.
  destruct (sv_retained_dmabuf (sh_server s)) as [prev|]; [|done].
  apply keeps_bind; [by apply modify_wf| |done]. intros _.
  apply keeps_bind; [|intros _; apply send_wf].
  destruct clear; [|apply keeps_ret]. apply keeps_modify. intros s1 H1. apply (wf_frame s1); try done. apply H1.
Qed.

Lemma apply_dmabuf_wf sid p : keeps shim_wf (apply_dmabuf sid p : SM (option BufferStatus)).
Proof.
  intros s Hs. unfold apply_dmabuf. case_match; [done|]. apply safe_get.
  destruct (sh_importer s) as [imp|]; [|done]. case_match; [done|]. destruct (imp_import _ _ _) as [r imp'].
  apply keeps_bind; [|intros _|exact Hs].
  { apply keeps_modify. intros s1 H1. apply (wf_frame s1); try done. apply H1. }
  destruct r as [[]|[]]; [|apply keeps_violation|apply keeps_ret].
  apply keeps_bind; [apply release_wf|intros _]. apply keeps_bind; [by apply modify_wf|intros _; apply keeps_ret].
Qed.

Lemma swizzle_length fmt n row : length row = (4 * n)%nat -> length (swizzle fmt row) = (4 * n)%nat.
Proof.
  revert row. induction n as [|n IH]; intros row Hl; [by destruct row|].
  destruct row as [|b [|g [|r [|a row]]]]; simpl in *; try lia. rewrite IH; lia.
Qed.

Lemma copy_rows_length n y fd w stride fmt rgba :
  0 <= w -> copy_rows n y fd (w * 4) stride fmt = Ok rgba -> Z.of_nat (length rgba) = w * Z.of_nat n * 4.
Proof.
  intros Hw. revert y rgba. induction n as [|n IH]; intros y rgba; cbn [copy_rows]; [by intros [= <-]; simpl; lia|].
  intros (row & Hr & (rest & Ht & [= <-])%rbind_ok)%rbind_ok.
  apply read_exact_len in Hr; [|lia]. rewrite length_app.
  rewrite (swizzle_length fmt (Z.to_nat w)) by lia. apply IH in Ht. lia.
Qed.

Lemma copy_in_length fd w h stride fmt rgba :
  0 < w <= MAX_SURFACE_DIM -> 0 <= h -> copy_in fd w h stride fmt = Ok rgba ->
  Z.of_nat (length rgba) = w * h * BYTES_PER_PIXEL.
Proof.
  unfold copy_in, usize_mul, BYTES_PER_PIXEL, MAX_SURFACE_DIM. intros Hw Hh.
  rewrite Z.mod_small by (unfold u64_max; lia). rewrite (proj2 (Z.eqb_neq (w * 4) 0)) by lia.
  intros Hc%copy_rows_length; lia.
Qed.

Lemma from_rgba_ok rgba w h c :
  0 < w <= MAX_SURFACE_DIM -> 0 < h <= MAX_SURFACE_DIM -> from_rgba rgba w h = Ok c ->
  surface_wf c /\ sc_width c = w /\ sc_height c = h /\ sc_rgba c = rgba.
Proof.
  unfold MAX_SURFACE_DIM. intros Hw Hh Hc.
  apply from_rgba_wf in Hc as [-> Hwf]; [|unfold is_u32, u32_max; lia..]. done.
Qed.

Lemma apply_buffer_wf sid p hint :
  pending_ok p -> keeps shim_wf (apply_buffer sid p hint : SM (option BufferStatus)).
Proof.
  intros (Hw & Hh & _). unfold apply_buffer. case_bool_decide; [apply apply_dmabuf_wf|].
  case_match eqn:Hb; [apply keeps_ret|]. unbool.
  destruct (copy_in _ _ _ _ _) as [rgba|e] eqn:Hc; [|apply keeps_violation].
  apply keeps_bind; [by apply modify_wf|intros _].
  destruct (from_rgba rgba _ _) as [c|] eqn:Hf; [|apply keeps_violation].
  apply from_rgba_ok in Hf as (Hwf & Hcw & Hch & _); [|lia..].
  apply keeps_bind; [|intros _; apply keeps_bind; [apply release_wf|intros _; apply keeps_ret]].
  apply scene_op_wf. intros sc _. split; [done|]. intros c' [= <-]. rewrite Hcw, Hch. done.
Qed.

Lemma surface_of_ok (s : Shim) id : shim_wf s -> surface_ok (surface_of s id).
Proof.
  intros Hs. unfold surface_of. destruct (sv_surfaces (sh_server s) !! id) as [st|] eqn:Hst; simpl.
  - by apply (sw_surface s Hs id).
  - split; [simpl; unfold MAX_DAMAGE_RECTS; lia|done].
Qed.

Lemma handle_attach_wf sid msg :
  is_bytes (Ipc.msg_bytes msg) -> keeps shim_wf (handle_attach sid msg : SM unit).
Proof.
  intros Hb s Hs. unfold handle_attach. apply safe_bind; [by apply decode_keeps|]. intros req s1 Hd Hs1.
  destruct (decode_ok 0 true c_attach msg s req s1 Hb ltac:(unfold is_u8, u8_max; lia) Hd) as (-> & Hv & _).
  destruct (Ipc.msg_fd msg) as [fd|]; [|by apply keeps_ret].
  destruct (_ || _) eqn:Hz; [by apply keeps_violation|]. cbv zeta. case_match eqn:Hstride; [by apply keeps_violation|].
  do 2 (case_match; [by apply keeps_violation|]). apply safe_get. do 2 (case_match; [by apply keeps_violation|]).
  unbool. destruct Hv as [[[[[_ _] _] Hvw] Hvh] Hvs]. simpl in Hvw, Hvh, Hvs. unfold is_u32, BYTES_PER_PIXEL in *.
  apply keeps_bind; [|intros _|done].
  - destruct (ss_pending_buffer _); [|apply keeps_ret].
    apply keeps_bind; [|intros _; apply send_wf]. apply put_surface_wf. intros st [Hl _]. by split.
  - apply put_surface_wf. intros st [Hl _]. split; [done|]. intros p [= <-]. split; [done|].
    unfold pending_ok. simpl. lia.
Qed.

Lemma union_last_length l r : length (union_last l r) = length l.
Proof. induction l as [|x [|y l] IH]; simpl in *; [done..|]. by rewrite IH. Qed.

Lemma handle_damage_wf sid req : keeps shim_wf (handle_damage sid req : SM unit).
Proof.
  intros s Hs. unfold handle_damage. apply safe_get. case_match; [done|]. destruct req as [[[x y] w] h].
  apply put_surface_wf; [|done]. intros st [Hl Hp]. split; [|done]. simpl.
  destruct (Z.ltb_spec (Z.of_nat (length (ss_pending_damage st))) MAX_DAMAGE_RECTS).
  - rewrite length_app. simpl. lia.
  - by rewrite union_last_length.
Qed.

Lemma handle_commit_wf sid : keeps shim_wf (handle_commit sid : SM unit).
Proof.
  intros s Hs. unfold handle_commit. apply safe_get. case_match; [done|].
  destruct (surface_of_ok s sid Hs) as [_ Hp].
  apply keeps_bind; [|intros _|done].
  { apply put_surface_wf. intros st _. split; [|done]. simpl. unfold MAX_DAMAGE_RECTS. lia. }
  apply keeps_bind; [|intros _; by apply modify_wf].
  destruct (ss_pending_buffer (surface_of s sid)) as [p|]; [|apply keeps_ret].
  apply keeps_bind; [by apply apply_buffer_wf, Hp|]. intros [st|]; [apply send_wf|apply keeps_ret].
Qed.

Lemma create_surface_wf req (s : Shim) :
  shim_wf s -> bt_len (sv_surfaces (sh_server s)) < MAX_LIVE_SURFACES ->
  shim_wf ((shim_allocate_id req ;;;
    smodify (on_shim (fun v => set_surfaces (<[req := surface_state_default]> (sv_surfaces v)) v)) ;;;
    sret false : SM bool) s).2.
Proof.
  intros Hs Hlen. apply safe_bind; [by apply allocate_wf|]. intros _u s1 Ha Hs1.
  apply allocate_ok in Ha as [Hreq ->]. destruct Hs as [Hm Hk Hi Hse Hl Hst Hsc].
  assert (sv_surfaces (sh_server s) !! req = None) as Hfresh.
  { apply eq_None_not_Some. intros Hx%Hi. lia. }
  assert (forall id, <[req := surface_state_default]> (sv_surfaces (sh_server s)) !! id
    = if decide (id = req) then Some surface_state_default else sv_surfaces (sh_server s) !! id) as Hlk.
  { intros id. case_decide as Hd; [by rewrite Hd, bt_lookup_insert_eq|by rewrite bt_lookup_insert_ne by done]. }
  split; simpl; try done.
  - by apply bt_wf_insert.
  - unfold SHIM_SESSION_ID in *. lia.
  - intros id. rewrite Hlk. case_decide; [lia|]. intros Hx%Hi. lia.
  - intros id Hx. destruct (Hse id Hx) as [? Hn]. rewrite Hlk. case_decide; [lia|]. split; [lia|done].
  - rewrite bt_len_insert_fresh by done. unfold MAX_LIVE_SURFACES in *. lia.
  - intros id st. rewrite Hlk. case_decide; [|apply Hst]. intros [= <-]. split; [|done]. simpl. unfold MAX_DAMAGE_RECTS. lia.
Qed.

Lemma get_seat_wf req (s : Shim) b :
  shim_wf s ->
  shim_wf ((shim_allocate_id req ;;;
    if b : bool then shim_violation AlreadyInitialized else
    smodify (on_shim (set_seat_id (Some req))) ;;; sret false : SM bool) s).2.
Proof.
  intros Hs. apply safe_bind; [by apply allocate_wf|]. intros _u s1 Ha Hs1. destruct b; [done|].
  apply allocate_ok in Ha as [Hreq ->]. destruct Hs as [Hm Hk Hi Hse Hl Hst Hsc], Hs1 as [Hm1 Hk1 Hi1 _ _ _ _].
  split; simpl; try done. intros id [= <-]. split; [lia|]. apply eq_None_not_Some. intros Hx%Hi. lia.
Qed.

Lemma safe_decode {A B} (P : Shim -> Prop) op has (c : codec A) msg (k : A -> SM B) s :
  P s -> (forall a, P (k a s).2) -> P (sbind (decode_shim op has c msg) k s).2.
Proof. intros Hs Hk. unfold sbind, decode_shim. by destruct (decode_frame _ _ _ _ _) as [[]|]; simpl. Qed.

Lemma handle_message_wf msg :
  is_bytes (Ipc.msg_bytes msg) -> keeps shim_wf (handle_shim_message msg : SM bool).
Proof.
  intros Hb s Hs. unfold handle_shim_message. cbv zeta. apply safe_get.
  repeat match goal with |- context [if ?b then _ else _] => lazymatch b with
    | _ =? _ => destruct b eqn:? | known_surface _ _ => destruct b eqn:? end end;
  try (case_match; by apply keeps_violation); try (by apply keeps_violation); try (apply safe_decode; [done|intros req]).
  - destruct (Z.leb_spec MAX_LIVE_SURFACES (bt_len (sv_surfaces (sh_server s)))); [done|].
    by apply create_surface_wf.
  - by apply get_seat_wf.
  - apply keeps_bind; [by apply modify_wf|intros _; apply keeps_ret|done].
  - case_match; [done|]. apply keeps_bind; [by apply modify_wf|intros _; apply keeps_ret|done].
  - case_match; [done|]. apply keeps_bind; [by apply modify_wf|intros _; apply keeps_ret|done].
  - apply keeps_bind; [by apply handle_attach_wf|intros _; apply keeps_ret|done].
  - apply keeps_bind; [apply handle_damage_wf|intros _; apply keeps_ret|done].
  - apply keeps_bind; [apply handle_commit_wf|intros _; apply keeps_ret|done].
Qed.

Lemma presented_loop_wf t owed : keeps shim_wf (presented_loop t owed : SM unit).
Proof.
  induction owed as [|id owed IH]; [apply keeps_ret|]. cbn [presented_loop].
  apply keeps_bind; [by apply modify_wf|intros _]. apply keeps_bind; [apply send_wf|by intros _].
Qed.

Lemma configure_wf : keeps shim_wf (send_configure : SM unit).
Proof. intros s Hs. unfold send_configure. apply safe_get. by apply send_wf. Qed.

Lemma shim_op_wf op : op_ok op -> keeps shim_wf (shim_op op).
Proof.
  intros Hop s Hs. destruct op; simpl; try by apply send_wf.
  - apply keeps_bind; [by apply handle_message_wf|intros _; apply keeps_ret|done].
  - unfold presented. apply safe_get. by apply presented_loop_wf.
  - apply keeps_bind; [|intros _; apply keeps_ret|done]. intros s1 H1. unfold deliver_seat_event. apply safe_get.
    case_match; [|done]. apply keeps_bind; [apply send_wf|intros _; apply keeps_ret|done].
  - apply keeps_bind; [|intros _; apply keeps_ret|done]. intros s1 H1. unfold reconfigure. apply safe_get.
    case_match; [done|]. apply keeps_bind; [by apply modify_wf|intros _|done].
    apply keeps_bind; [apply configure_wf|intros _; apply keeps_ret].
  - by apply modify_wf.
  - apply scene_op_wf; [|done]. by intros sc.
Qed.

Lemma shim_run_wf ops : Forall op_ok ops -> keeps shim_wf (shim_run ops).
Proof.
  induction 1 as [|op ops Hop _ IH]; [apply keeps_ret|]. apply keeps_bind; [by apply shim_op_wf|by intros _].
Qed.

Lemma shim_start_wf config scene importer answers : scene_ok scene -> shim_wf (shim_start config scene importer answers).
Proof.
  intros Hsc. split; simpl; try done.
  - apply bt_wf_empty.
  - intros id Hid. rewrite bt_lookup_empty in Hid. by destruct Hid.
Qed.

(* ------------------------------------------------------------------------ *)
(** ** The accounts are kept *)

Definition done_of (oid : Z) (e : ShimEvent) : list (Z * Z) :=
  match e with EvBufferDone b _ => [(oid, b)] | _ => [] end.
Definition frame_of (oid : Z) (e : ShimEvent) : list Z := match e with EvFrameDone _ => [oid] | _ => [] end.

(** The map and the frames stay; the buffers out of the surfaces' hands change by
    those given. *)
Definition settles (extra : list (Z * Z)) (s s' : Shim) : Prop :=
  sv_surfaces (sh_server s') = sv_surfaces (sh_server s)
  /\ sv_owed_frame_dones (sh_server s') = sv_owed_frame_dones (sh_server s)
  /\ frames_done s' = frames_done s
  /\ buffers_done s' ++ retained_buffer s' ≡ₚ (buffers_done s ++ retained_buffer s) ++ extra.

Lemma settles_trans e1 e2 s1 s2 s3 : settles e1 s1 s2 -> settles e2 s2 s3 -> settles (e1 ++ e2) s1 s3.
Proof.
  intros (H1 & H2 & H3 & H4) (G1 & G2 & G3 & G4). repeat split; try congruence.
  by rewrite G4, H4, <- app_assoc.
Qed.

Lemma settles_same s s' :
  sv_surfaces (sh_server s') = sv_surfaces (sh_server s) ->
  sv_owed_frame_dones (sh_server s') = sv_owed_frame_dones (sh_server s) ->
  sv_retained_dmabuf (sh_server s') = sv_retained_dmabuf (sh_server s) ->
  sh_sent s' = sh_sent s -> settles [] s s'.
Proof.
  intros H1 H2 H3 H4. unfold settles, frames_done, buffers_done, retained_buffer. rewrite H1, H2, H3, H4, app_nil_r. done.
Qed.

Lemma send_settles oid e (s : Shim) u s' :
  (shim_send oid e : SM unit) s = (Ok u, s') ->
  sh_server s' = sh_server s /\ buffers_done s' = buffers_done s ++ done_of oid e
  /\ frames_done s' = frames_done s ++ frame_of oid e.
Proof.
  intros (Hv & _ & _ & Hs)%shim_send_ok. split; [done|]. unfold buffers_done, frames_done.
  rewrite Hs, !omap_app. split; f_equal; by destruct e.
Qed.

Lemma release_settles clear (s : Shim) u s' :
  (release_retained clear : SM unit) s = (Ok u, s') ->
  settles [] s s' /\ sv_retained_dmabuf (sh_server s') = None.
Proof.
  intros (s0 & s1 & [= <- <-] & H)%sbind_ok. destruct (sv_retained_dmabuf (sh_server s)) as [prev|] eqn:Hr.
  - apply sbind_ok in H as (_u & s1 & [= <- <-] & H). apply sbind_ok in H as (_u & s2 & H2 & Hsend).
    assert (sh_server s2 = set_retained None (sh_server s) /\ sh_sent s2 = sh_sent s) as [Hv Hst]
      by (by destruct clear; injection H2 as <- <-).
    apply send_settles in Hsend as (Hv' & Hb & Hf). rewrite Hv in Hv'. rewrite Hv'. split; [|done].
    unfold settles, retained_buffer. rewrite Hv', Hb, Hf, Hr. cbn. unfold buffers_done, frames_done. rewrite Hst.
    repeat split; by rewrite ?app_nil_r.
  - injection H as <- <-. split; [by apply settles_same|done].
Qed.

Lemma apply_dmabuf_settles sid p (s : Shim) r s' :
  (apply_dmabuf sid p : SM (option BufferStatus)) s = (Ok r, s') ->
  settles (match r with Some _ => [] | None => [(sid, pb_buffer_id p)] end) s s'.
Proof.
  unfold apply_dmabuf. case_match; [by intros [= <- <-]; apply settles_same|].
  intros (s0 & s1 & [= <- <-] & H1)%sbind_ok. destruct (sh_importer s) as [imp|]; [|injection H1 as <- <-; by apply settles_same].
  case_match; [injection H1 as <- <-; by apply settles_same|].
  destruct (imp_import _ _ _) as [res imp']. apply sbind_ok in H1 as (_u & s1 & [= <- <-] & H1).
  destruct res as [[]|[]]; [|done|injection H1 as <- <-; by apply settles_same].
  apply sbind_ok in H1 as (_u2 & s2 & Hrel & H1). apply sbind_ok in H1 as (_u3 & s3 & [= <- <-] & [= <- <-]).
  apply release_settles in Hrel as [(Hm & Ho & Hf & Hb) Hn].
  assert (forall s, retained_buffer s = match sv_retained_dmabuf (sh_server s) with
    Some r => [(rd_surface_id r, rd_buffer_id r)] | None => [] end) as Hrb by done.
  split; [exact Hm|]. split; [exact Ho|]. split; [exact Hf|]. rewrite Hrb in Hb. rewrite Hn, app_nil_r in Hb.
  change (buffers_done s2 ++ [(sid, pb_buffer_id p)] ≡ₚ (buffers_done s ++ retained_buffer s) ++ [(sid, pb_buffer_id p)]).
  rewrite Hb, app_nil_r. done.
Qed.

Lemma apply_buffer_settles sid p hint (s : Shim) r s' :
  (apply_buffer sid p hint : SM (option BufferStatus)) s = (Ok r, s') ->
  settles (match r with Some _ => [] | None => [(sid, pb_buffer_id p)] end) s s'.
Proof.
  unfold apply_buffer. case_bool_decide; [apply apply_dmabuf_settles|].
  case_match; [by intros [= <- <-]; apply settles_same|].
  destruct (copy_in _ _ _ _ _) as [rgba|]; [|done].
  intros (_u & s1 & [= <- <-] & H1)%sbind_ok. destruct (from_rgba rgba _ _) as [c|]; [|done].
  apply sbind_ok in H1 as (_u2 & s2 & [= <- <-] & H1). apply sbind_ok in H1 as (_u3 & s3 & Hrel & [= <- <-]).
  apply release_settles in Hrel as [Hset _]. eapply (settles_trans [] []); [|exact Hset]. by apply settles_same.
Qed.

(** What an operation adds to the accounts. *)
Definition books (attached : list (Z * Z)) (committed : list Z) (s s' : Shim) : Prop :=
  buffers s' ≡ₚ buffers s ++ attached /\ frames s' = frames s ++ committed.

Lemma books_same s s' : settles [] s s' -> books [] [] s s'.
Proof.
  intros (Hm & Ho & Hf & Hb). unfold books, buffers, frames, pending_buffers. rewrite Hm, Ho, Hf, !app_nil_r.
  split; [|done]. rewrite !app_assoc, Hb. by rewrite app_nil_r.
Qed.

Lemma books_trans a1 c1 a2 c2 s1 s2 s3 :
  books a1 c1 s1 s2 -> books a2 c2 s2 s3 -> books (a1 ++ a2) (c1 ++ c2) s1 s3.
Proof. intros [H1 H2] [G1 G2]. split; [by rewrite G1, H1, <- app_assoc|by rewrite G2, H2, <- app_assoc]. Qed.

Lemma flat_pend_set (s : Shim) sid f st :
  shim_wf s -> sv_surfaces (sh_server s) !! sid = Some st ->
  exists rest, pending_buffers s ≡ₚ pend (sid, st) ++ rest
  /\ forall s', sv_surfaces (sh_server s') = bt_set (sv_surfaces (sh_server s)) sid f ->
       pending_buffers s' ≡ₚ pend (sid, f st) ++ rest.
Proof.
  intros Hs Hst. destruct (pending_set _ sid f st (sw_map s Hs) Hst) as (rest & H1 & H2).
  exists rest. split; [done|]. intros s' Hs'. unfold pending_buffers. by rewrite Hs'.
Qed.

(** A surface's buffer replaced: the old one, if any, leaves its hands. *)
Lemma put_surface_books sid f (s : Shim) st u s' :
  shim_wf s -> sv_surfaces (sh_server s) !! sid = Some st -> (put_surface sid f : SM unit) s = (Ok u, s') ->
  frames s' = frames s /\ buffers s' ++ pend (sid, st) ≡ₚ buffers s ++ pend (sid, f st)
  /\ sv_surfaces (sh_server s') !! sid = Some (f st).
Proof.
  intros Hs Hst Hput. destruct (flat_pend_set s sid f st Hs Hst) as (rest & H1 & H2). injection Hput as _ <-.
  set (s' := on_shim _ s) in *. specialize (H2 s' eq_refl).
  split; [done|]. split; [|simpl; by rewrite bt_lookup_set_eq, Hst]. unfold buffers. rewrite H1, H2.
  change (buffers_done s') with (buffers_done s). change (retained_buffer s') with (retained_buffer s). solve_Permutation.
Qed.

Lemma damage_books sid req (s : Shim) u s' st :
  shim_wf s -> sv_surfaces (sh_server s) !! sid = Some st ->
  (handle_damage sid req : SM unit) s = (Ok u, s') -> books [] [] s s'.
Proof.
  intros Hs Hst (s0 & s1 & [= <- <-] & H)%sbind_ok. case_match; [done|]. destruct req as [[[x y] w] h].
  destruct (put_surface_books sid _ s st u s' Hs Hst H) as (Hf & Hb & _). unfold books. rewrite Hf, !app_nil_r. split; [|done]. by apply (Permutation_app_inv_r (pend (sid, st))).
Qed.

Lemma commit_books sid (s : Shim) u s' st :
  shim_wf s -> sv_surfaces (sh_server s) !! sid = Some st ->
  (handle_commit sid : SM unit) s = (Ok u, s') -> books [] [sid] s s'.
Proof.
  intros Hs Hst (s0 & s1 & [= <- <-] & H)%sbind_ok. cbv beta zeta in H. case_match; [done|].
  apply sbind_ok in H as (_u & s1 & Hput & H).
  destruct (put_surface_books sid _ s st _u s1 Hs Hst Hput) as (Hf & Hb & _).
  change (buffers s1 ++ pend (sid, st) ≡ₚ buffers s ++ []) in Hb. rewrite app_nil_r in Hb.
  apply sbind_ok in H as (_u2 & s2 & H & [= <- <-]).
  assert (buffers s2 ≡ₚ buffers s /\ frames s2 = frames s) as [Hb2 Hf2].
  { unfold surface_of in H. rewrite Hst in H. simpl in H.
    destruct (ss_pending_buffer st) as [p|] eqn:Hp; unfold pend in Hb; simpl in Hb; rewrite Hp in Hb; cycle 1.
    { injection H as <- <-. rewrite app_nil_r in Hb. by rewrite Hb, Hf. }
    apply sbind_ok in H as (r & s3 & Happ & H). apply apply_buffer_settles in Happ as (Hm & Ho & Hfr & Hbd).
    assert (frames s3 = frames s1 /\ buffers s3 ≡ₚ buffers s1 ++ match r with Some _ => [] | None => [(sid, pb_buffer_id p)] end)
      as [Hf3 Hb3].
    { unfold frames, buffers, pending_buffers. rewrite Hm, Ho, Hfr. split; [done|].
      rewrite (app_assoc (buffers_done s3)), Hbd. solve_Permutation. }
    destruct r as [status|].
    - apply send_settles in H as (Hv & Hbs & Hfs). rewrite app_nil_r in Hb3. simpl in Hfs. rewrite app_nil_r in Hfs.
      split; [|unfold frames; rewrite Hfs, Hv; change (frames s3 = frames s); congruence].
      rewrite <- Hb, <- Hb3. unfold buffers, retained_buffer, pending_buffers. rewrite Hbs, Hv. simpl. solve_Permutation.
    - injection H as <- <-. rewrite Hb3, Hb. split; [done|]. congruence. }
  split; [rewrite app_nil_r; exact Hb2|]. unfold frames in *. simpl. rewrite app_assoc.
  change (frames_done (on_shim _ s2)) with (frames_done s2). by rewrite Hf2.
Qed.

Lemma take_pending_ok (st : SurfaceState F) :
  surface_ok st -> surface_ok {| ss_ever_attached := ss_ever_attached st; ss_pending_buffer := None;
                                 ss_pending_damage := ss_pending_damage st |}.
Proof. intros [Hl _]. by split. Qed.

Lemma attach_books sid msg (s : Shim) u s' st :
  shim_wf s -> sv_surfaces (sh_server s) !! sid = Some st ->
  (handle_attach sid msg : SM unit) s = (Ok u, s') ->
  exists oid req, decode_frame 0 true c_attach (Ipc.msg_bytes msg) (Ipc.msg_fd msg) = Ok (oid, req)
  /\ books [(sid, at_buffer_id req)] [] s s'.
Proof.
  intros Hs Hst (req & s0 & Hd & H)%sbind_ok. unfold decode_shim in Hd.
  destruct (decode_frame _ _ _ _ _) as [[oid req']|] eqn:Hdec; [|done]. injection Hd as -> <-.
  exists oid, req. split; [done|].
  assert (bool_decide (is_Some (msg_fd msg)) = true) as Hfd.
  { unfold decode_frame in Hdec. by destruct (bool_decide (is_Some (msg_fd msg))). }
  apply bool_decide_eq_true in Hfd as [fd Hfd]. rewrite Hfd in H. clear Hdec.
  case_match; [done|]. cbv zeta in H. do 3 (case_match; [done|]).
  apply sbind_ok in H as (s0 & s1 & [= <- <-] & H). do 2 (case_match; [done|]).
  apply sbind_ok in H as (_u & s1 & H & Hput). unfold surface_of in *. rewrite Hst in *. simpl in *.
  assert (frames s1 = frames s /\ buffers s1 ≡ₚ buffers s /\ shim_wf s1
    /\ exists st1, sv_surfaces (sh_server s1) !! sid = Some st1 /\ pend (sid, st1) = []) as (Hf1 & Hb1 & Hs1 & st1 & Hst1 & Hp1).
  { destruct (ss_pending_buffer st) as [old|] eqn:Hold; cycle 1.
    { injection H as _ <-. do 3 (split; [done|]). exists st. unfold pend. simpl. by rewrite Hold. }
    apply sbind_ok in H as (_u2 & s2 & Hput2 & Hsend).
    assert (shim_wf s1) as Hwf1.
    { pose proof (put_surface_wf sid _ (fun st => take_pending_ok st) s Hs) as Hwf2. rewrite Hput2 in Hwf2.
      pose proof (send_wf sid (EvBufferDone (pb_buffer_id old) Released) s2 Hwf2) as Hwf3. by rewrite Hsend in Hwf3. }
    destruct (put_surface_books sid _ s st _u2 s2 Hs Hst Hput2) as (Hf2 & Hb2 & Hst2).
    apply send_settles in Hsend as (Hv & Hbd & Hfd'). simpl in Hbd, Hfd'. rewrite app_nil_r in Hfd'.
    split; [unfold frames in *; congruence|]. split; [|split; [done|]].
    - change (pend (sid, _)) with (@nil (Z * Z)) in Hb2 at 2. rewrite app_nil_r in Hb2. rewrite <- Hb2.
      unfold buffers, retained_buffer, pending_buffers, pend at 3. rewrite Hbd, Hv. simpl. rewrite Hold. solve_Permutation.
    - rewrite Hv. by eexists. }
  destruct (put_surface_books sid _ s1 st1 u s' Hs1 Hst1 Hput) as (Hf & Hb & _).
  rewrite Hp1, app_nil_r in Hb. split; [by rewrite Hb, Hb1|]. by rewrite Hf, Hf1, app_nil_r.
Qed.

Lemma decode_state {A} op has (c : codec A) msg (s : Shim) a s' :
  (decode_shim op has c msg : SM A) s = (Ok a, s') -> s' = s.
Proof. unfold decode_shim. destruct (decode_frame _ _ _ _ _) as [[]|]; [|done]. by intros [= _ <-]. Qed.

Lemma create_books req (s : Shim) b s' :
  shim_wf s ->
  (shim_allocate_id req ;;;
    smodify (on_shim (fun v => set_surfaces (<[req := surface_state_default]> (sv_surfaces v)) v)) ;;;
    sret false : SM bool) s = (Ok b, s') -> books [] [] s s'.
Proof.
  intros Hs (_u & s1 & Ha & H)%sbind_ok. apply allocate_ok in Ha as [Hreq ->]. injection H as _ <-.
  assert (sv_surfaces (sh_server s) !! req = None) as Hfresh.
  { apply eq_None_not_Some. intros Hx%(sw_ids s Hs). lia. }
  unfold books. rewrite !app_nil_r. split; [|done]. unfold buffers.
  assert (forall s', sv_surfaces (sh_server s') = <[req := surface_state_default]> (sv_surfaces (sh_server s)) ->
    pending_buffers s' ≡ₚ pending_buffers s) as Hp.
  { intros s' Hs'. unfold pending_buffers. rewrite Hs'.
    by rewrite (Permutation_flat_map pend (bt_insert_fresh_perm _ req surface_state_default Hfresh)). }
  match goal with |- context [pending_buffers ?x] => rewrite (Hp x) by done end. done.
Qed.

Lemma set_books f (s : Shim) u s' :
  (forall v, sv_surfaces (f v) = sv_surfaces v /\ sv_owed_frame_dones (f v) = sv_owed_frame_dones v
    /\ sv_retained_dmabuf (f v) = sv_retained_dmabuf v) ->
  (smodify (on_shim f) : SM unit) s = (Ok u, s') -> books [] [] s s'.
Proof. intros Hf [= _ <-]. destruct (Hf (sh_server s)) as (? & ? & ?). by apply books_same, settles_same. Qed.

Lemma seat_books req (s : Shim) b b' s' :
  (shim_allocate_id req ;;;
    if b : bool then shim_violation AlreadyInitialized else
    smodify (on_shim (set_seat_id (Some req))) ;;; sret false : SM bool) s = (Ok b', s') -> books [] [] s s'.
Proof.
  intros (_u & s1 & Ha & H)%sbind_ok. apply allocate_ok in Ha as [_ ->]. destruct b; [done|].
  injection H as _ <-. by apply books_same, settles_same.
Qed.

Ltac tests := repeat match goal with H : context [if ?b then _ else _] |- _ => lazymatch b with
  | _ =? _ => destruct b eqn:? | known_surface _ _ => destruct b eqn:? end end.

Lemma message_books msg (s : Shim) b s' :
  shim_wf s -> (handle_shim_message msg : SM bool) s = (Ok b, s') ->
  books (attached_by (SoMessage msg)) (committed_by (SoMessage msg)) s s'.
Proof.
  intros Hs (s0 & s1 & [= <- <-] & H)%sbind_ok. unfold attached_by, committed_by. cbv zeta in *. tests; try done;
    simpl negb; cbn [andb]; try (apply sbind_ok in H as (req & s1 & Hd & H); pose proof (decode_state _ _ _ _ _ _ _ Hd) as ->).
  all: repeat match goal with Hop : (opcode _ =? _) = true |- _ => apply Z.eqb_eq in Hop; rewrite ?Hop end; simpl Z.eqb; cbv iota.
  all: try match goal with Hk : known_surface _ _ = true |- _ => apply bool_decide_eq_true in Hk as [st Hst] end.
  - case_match; [done|]. eapply create_books; [done|exact H].
  - eapply seat_books. exact H.
  - apply sbind_ok in H as (_u & s2 & H & [= _ <-]). eapply set_books; [|exact H]. done.
  - case_match; [done|]. apply sbind_ok in H as (_u & s2 & H & [= _ <-]). eapply set_books; [|exact H]. done.
  - case_match; [done|]. apply sbind_ok in H as (_u & s2 & H & [= _ <-]). eapply set_books; [|exact H]. done.
  - apply sbind_ok in H as (_u & s1 & H & [= _ <-]).
    destruct (attach_books _ _ _ _ _ _ Hs Hst H) as (oid & req & -> & Hbooks).
    done.
  - apply sbind_ok in H as (_u & s2 & H & [= _ <-]). by eapply damage_books.
  - apply sbind_ok in H as (_u & s2 & H & [= _ <-]). by eapply commit_books.
  - by case_match.
Qed.

Lemma send_books oid e (s : Shim) u s' :
  (shim_send oid e : SM unit) s = (Ok u, s') -> done_of oid e = [] -> frame_of oid e = [] -> books [] [] s s'.
Proof.
  intros (Hv & Hb & Hfr)%send_settles Hd Hf. rewrite Hd, app_nil_r in Hb. rewrite Hf, app_nil_r in Hfr.
  unfold books, buffers, frames, retained_buffer, pending_buffers. by rewrite Hv, Hb, Hfr, !app_nil_r.
Qed.

Lemma presented_books t owed (s : Shim) u s' :
  sv_owed_frame_dones (sh_server s) = owed -> (presented_loop t owed : SM unit) s = (Ok u, s') ->
  books [] [] s s' /\ sv_owed_frame_dones (sh_server s') = [].
Proof.
  revert s. induction owed as [|id owed IH]; intros s Ho H; simpl in H.
  { injection H as _ <-. split; [by apply books_same, settles_same|done]. }
  apply sbind_ok in H as (_u & s1 & [= _ <-] & H). apply sbind_ok in H as (_u2 & s2 & Hsend & H).
  apply send_settles in Hsend as (Hv & Hb & Hf). simpl in Hb, Hf. rewrite app_nil_r in Hb.
  destruct (IH s2) as [Hbk Hn]; [by rewrite Hv|done|]. split; [|done].
  refine (books_trans [] [] [] [] _ s2 _ _ Hbk).
  unfold books, buffers, frames, retained_buffer, pending_buffers. rewrite Hv, Hb, Hf, Ho, !app_nil_r. simpl.
  change (frames_done (on_shim _ s)) with (frames_done s). by rewrite <- app_assoc.
Qed.

Lemma configure_books (s : Shim) u s' : (send_configure : SM unit) s = (Ok u, s') -> books [] [] s s'.
Proof.
  intros H. apply (send_books SHIM_SESSION_ID (EvConfigure (sf_realm (sv_config (sh_server s)))
    (usable (sf_geom (sv_config (sh_server s)))).1 (usable (sf_geom (sv_config (sh_server s)))).2) s u s'); done.
Qed.

Lemma shim_op_books op (s : Shim) u s' :
  shim_wf s -> shim_op op s = (Ok u, s') -> books (attached_by op) (committed_by op) s s'.
Proof.
  intros Hs H. destruct op; cbn [shim_op] in H.
  - apply sbind_ok in H as (b & s1 & H & [= _ <-]). by eapply message_books.
  - apply sbind_ok in H as (s0 & s1 & [= <- <-] & H). by eapply presented_books.
  - apply sbind_ok in H as (b & s1 & H & [= _ <-]). apply sbind_ok in H as (s0 & s2 & [= <- <-] & H).
    destruct (sv_seat_id _); [|injection H as _ <-; by apply books_same, settles_same].
    apply sbind_ok in H as (_u & s3 & H & [= _ <-]). by eapply send_books.
  - by eapply configure_books.
  - apply sbind_ok in H as (b & s1 & H & [= _ <-]). apply sbind_ok in H as (s0 & s2 & [= <- <-] & H).
    case_match; [injection H as _ <-; by apply books_same, settles_same|].
    apply sbind_ok in H as (_u & s3 & Hset & H). apply sbind_ok in H as (_u2 & s4 & H & [= _ <-]).
    refine (books_trans [] [] [] [] _ s3 _ _ _); [eapply set_books; [|exact Hset]; done|by eapply configure_books].
  - by eapply send_books.
  - by eapply send_books.
  - by eapply send_books.
  - eapply set_books; [|exact H]. done.
  - injection H as _ <-. by apply books_same, settles_same.
Qed.

Lemma shim_run_books ops (s : Shim) u s' :
  shim_wf s -> Forall op_ok ops -> shim_run ops s = (Ok u, s') ->
  books (flat_map attached_by ops) (flat_map committed_by ops) s s'.
Proof.
  revert s. induction ops as [|op ops IH]; intros s Hs Hok H; simpl in *.
  { injection H as _ <-. by apply books_same, settles_same. }
  apply Forall_cons in Hok as [Hop Hok]. apply sbind_ok in H as (_u & s1 & H1 & H).
  eapply books_trans; [by eapply shim_op_books|]. apply IH; [|done|done].
  pose proof (shim_op_wf op Hop s Hs) as Hw. by rewrite H1 in Hw.
Qed.

(* ------------------------------------------------------------------------ *)
(** ** Copying in *)

Lemma swizzle_app fmt n a b : length a = (4 * n)%nat -> swizzle fmt (a ++ b) = swizzle fmt a ++ swizzle fmt b.
Proof.
  revert a. induction n as [|n IH]; intros a Ha; [by destruct a|].
  destruct a as [|x [|y [|z [|t a]]]]; simpl in *; try lia. by rewrite IH by lia.
Qed.

Lemma swizzle_drop fmt k row : swizzle fmt (drop (4 * k) row) = drop (4 * k) (swizzle fmt row).
Proof.
  revert row. induction k as [|k IH]; intros row; [done|]. replace (4 * S k)%nat with (4 + 4 * k)%nat by lia.
  destruct row as [|b [|g [|r [|a row]]]]; simpl; rewrite ?drop_nil; try done.
Qed.

Lemma swizzle_take fmt row : swizzle fmt (take 4 row) = take 4 (swizzle fmt row).
Proof. by destruct row as [|b [|g [|r [|a row]]]]. Qed.

(** A row of the copy, from any reader that gives every row. *)
Lemma copy_rows_pixels fd w stride fmt (row : Z -> Bytes) n y :
  0 < w -> (forall y', y <= y' < y + Z.of_nat n ->
    read_exact_at fd (w * 4) (y' * stride) = Ok (row y') /\ Z.of_nat (length (row y')) = w * 4) ->
  exists rgba, copy_rows n y fd (w * 4) stride fmt = Ok rgba
  /\ Z.of_nat (length rgba) = w * Z.of_nat n * 4
  /\ forall x i, 0 <= x < w -> 0 <= i < Z.of_nat n ->
       take 4 (drop (Z.to_nat ((i * w + x) * 4)) rgba)
       = swizzle fmt (take 4 (drop (4 * Z.to_nat x) (row (y + i)))).
Proof.
  intros Hw. revert y. induction n as [|n IH]; intros y Hr; cbn [copy_rows].
  { exists []. split; [done|]. split; [simpl; lia|]. lia. }
  destruct (Hr y ltac:(lia)) as [-> Hl]. cbn [rbind].
  destruct (IH (y + 1)) as (rest & -> & Hlr & Hpx); [intros y' Hy; apply Hr; lia|]. cbn [rbind].
  assert (length (swizzle fmt (row y)) = (4 * Z.to_nat w)%nat) as Hls by (apply swizzle_length; lia).
  eexists. split; [done|]. split; [rewrite length_app; lia|]. intros x i Hx Hi.
  destruct (decide (i = 0)) as [->|Hne].
  - rewrite Z.add_0_r, swizzle_take, swizzle_drop. replace (Z.to_nat ((0 * w + x) * 4)) with (4 * Z.to_nat x)%nat by lia.
    rewrite drop_app_le by lia. rewrite take_app_le; [done|]. rewrite length_drop. lia.
  - rewrite drop_app_ge by nia. rewrite Hls.
    replace (Z.to_nat ((i * w + x) * 4) - 4 * Z.to_nat w)%nat with (Z.to_nat (((i - 1) * w + x) * 4)) by nia.
    rewrite Hpx by lia. by replace (y + 1 + (i - 1)) with (y + i) by lia.
Qed.

(** A descriptor of a file that does not change while it is read. *)
Definition holds_file (fd : F) (file : Bytes) : Prop :=
  forall off len, 0 <= off -> 0 <= len -> off + len <= blen file ->
    read_exact_at fd len off = Ok (slice file off (off + len)).

Lemma copy_in_pixels fd file w h stride fmt :
  holds_file fd file -> 0 < w <= MAX_SURFACE_DIM -> 0 < h <= MAX_SURFACE_DIM -> w * 4 <= stride ->
  stride * h <= blen file ->
  exists rgba, copy_in fd w h stride fmt = Ok rgba
  /\ forall x y, 0 <= x < w -> 0 <= y < h ->
       take 4 (drop (Z.to_nat ((y * w + x) * 4)) rgba)
       = swizzle fmt (slice file (y * stride + x * 4) (y * stride + x * 4 + 4)).
Proof.
  intros Hfile Hw Hh Hst Hlen. unfold copy_in, usize_mul, BYTES_PER_PIXEL, MAX_SURFACE_DIM in *.
  rewrite Z.mod_small by (unfold u64_max; lia). rewrite (proj2 (Z.eqb_neq (w * 4) 0)) by lia.
  destruct (copy_rows_pixels fd w stride fmt (fun y => slice file (y * stride) (y * stride + w * 4)) (Z.to_nat h) 0)
    as (rgba & Hc & _ & Hpx); [lia| |].
  { intros y Hy. assert (0 <= y * stride /\ y * stride + w * 4 <= blen file) as [H0 H1] by nia. split; [by apply Hfile; lia|].
    pose proof (blen_slice file (y * stride) (y * stride + w * 4) ltac:(lia) H1) as Hb. unfold blen in Hb. lia. }
  exists rgba. split; [done|]. intros x y Hx Hy. rewrite Hpx by lia. f_equal. unfold slice. rewrite Z.add_0_l.
  rewrite skipn_firstn_comm, take_take, drop_drop. f_equal; [lia|f_equal; nia].
Qed.

Lemma swizzle_slice fmt file off :
  0 <= off -> off + 4 <= blen file ->
  let byte i := nth (Z.to_nat (off + i)) file 0 in
  swizzle fmt (slice file off (off + 4))
  = [byte 2; byte 1; byte 0; match fmt with Xrgb8888 => 255 | Argb8888 => byte 3 end].
Proof.
  intros H0 Hl byte. unfold blen, slice in *. assert (forall i, 0 <= i -> byte i = nth (Z.to_nat i) (drop (Z.to_nat off) file) 0) as Hb.
  { intros i Hi. unfold byte. rewrite nth_skipn. f_equal. lia. }
  rewrite !Hb by lia. replace (Z.to_nat (off + 4 - off)) with 4%nat by lia.
  pose proof (length_drop file (Z.to_nat off)) as Hd. destruct (drop (Z.to_nat off) file) as [|b [|g [|r [|a l]]]];
    simpl in Hd; try lia. done.
Qed.

Lemma send_willing oid e (s : Shim) :
  sh_answers s = [] ->
  (shim_send oid e : SM unit) s
  = (Ok tt, {| sh_server := sh_server s; sh_scene := sh_scene s; sh_importer := sh_importer s;
               sh_sent := sh_sent s ++ [(oid, e)]; sh_answers := [] |}).
Proof. unfold shim_send. by intros ->. Qed.

Lemma release_willing clear (s : Shim) :
  sh_answers s = [] ->
  exists s', (release_retained clear : SM unit) s = (Ok tt, s') /\ sh_answers s' = []
  /\ sh_scene s' = sh_scene s /\ sv_retained_dmabuf (sh_server s') = None
  /\ sh_sent s' = sh_sent s ++ List.map (fun b => (b.1, EvBufferDone b.2 Released)) (retained_buffer s).
Proof.
  intros Ha. unfold release_retained, sbind, sget, retained_buffer.
  destruct (sv_retained_dmabuf (sh_server s)) as [prev|] eqn:Hr.
  - destruct clear; cbn [smodify sret]; rewrite send_willing by done; by eexists.
  - eexists. rewrite app_nil_r. done.
Qed.

Lemma presented_willing t owed (s : Shim) :
  sh_answers s = [] -> sv_owed_frame_dones (sh_server s) = owed ->
  exists s', (presented_loop t owed : SM unit) s = (Ok tt, s') /\ sv_owed_frame_dones (sh_server s') = []
  /\ sh_answers s' = []
  /\ sh_sent s' = sh_sent s ++ List.map (fun id => (id, EvFrameDone t)) owed.
Proof.
  revert s. induction owed as [|id owed IH]; intros s Ha Ho; simpl.
  { exists s. by rewrite app_nil_r. }
  unfold sbind. cbn [smodify]. rewrite send_willing by done.
  match goal with |- context [presented_loop t owed ?s1] => destruct (IH s1) as (s' & Hp & Hn & Ha' & Hs'); [done|done|] end.
  exists s'. split; [exact Hp|]. split; [done|]. split; [done|]. rewrite Hs'. cbn [sh_sent on_shim]. by rewrite <- app_assoc.
Qed.

Lemma apply_shm_willing sid p hint rgba c (s : Shim) :
  sh_answers s = [] -> pb_kind p = Shm ->
  pb_width p <= MAX_SURFACE_DIM /\ pb_height p <= MAX_SURFACE_DIM
    /\ pb_width p * pb_height p * BYTES_PER_PIXEL <= MAX_SURFACE_BYTES ->
  copy_in (pb_fd p) (pb_width p) (pb_height p) (pb_stride p) (pb_format p) = Ok rgba ->
  from_rgba rgba (pb_width p) (pb_height p) = Ok c ->
  exists s', (apply_buffer sid p hint : SM (option BufferStatus)) s = (Ok (Some Released), s')
  /\ sh_answers s' = [] /\ sn_surface (sh_scene s') = Some c /\ sv_retained_dmabuf (sh_server s') = None
  /\ sh_sent s' = sh_sent s ++ List.map (fun b => (b.1, EvBufferDone b.2 Released)) (retained_buffer s).
Proof.
  intros Ha Hkind (Hw & Hh & Ht) Hc Hf. unfold apply_buffer. rewrite bool_decide_false by congruence. cbv zeta.
  rewrite (proj2 (Z.ltb_ge _ _) Hw), (proj2 (Z.ltb_ge _ _) Hh), (proj2 (Z.ltb_ge _ _) Ht). cbn [orb].
  rewrite Hc. unfold sbind. cbn [smodify]. rewrite Hf. cbn [smodify].
  match goal with |- context [release_retained true ?s1] =>
    destruct (release_willing true s1) as (s' & -> & Ha' & Hsc & Hn & Hs'); [done|] end.
  exists s'. split; [done|]. split; [done|]. rewrite Hsc. split; [done|]. split; [done|]. exact Hs'.
Qed.

Lemma commit_willing (s : Shim) sid st p rgba c :
  sv_surfaces (sh_server s) !! sid = Some st -> ss_pending_buffer st = Some p -> ss_ever_attached st = true ->
  pb_kind p = Shm -> sh_answers s = [] ->
  pb_width p <= MAX_SURFACE_DIM /\ pb_height p <= MAX_SURFACE_DIM
    /\ pb_width p * pb_height p * BYTES_PER_PIXEL <= MAX_SURFACE_BYTES ->
  copy_in (pb_fd p) (pb_width p) (pb_height p) (pb_stride p) (pb_format p) = Ok rgba ->
  from_rgba rgba (pb_width p) (pb_height p) = Ok c ->
  exists s', (handle_commit sid : SM unit) s = (Ok tt, s') /\ sn_surface (sh_scene s') = Some c
  /\ sv_retained_dmabuf (sh_server s') = None
  /\ sh_sent s' = sh_sent s ++ List.map (fun b => (b.1, EvBufferDone b.2 Released)) (retained_buffer s)
                  ++ [(sid, EvBufferDone (pb_buffer_id p) Released)].
Proof.
  intros Hst Hp Hev Hkind Ha Hfit Hc Hf. unfold handle_commit, sbind, sget, surface_of. rewrite Hst.
  cbn [default from_option id]. rewrite Hev, Hp. cbn [negb]. unfold put_surface. cbn [smodify].
  match goal with |- context [apply_buffer sid p ?hint ?s1] =>
    destruct (apply_shm_willing sid p hint rgba c s1 Ha Hkind Hfit Hc Hf) as (s2 & -> & Ha2 & Hsc & Hn & Hs2) end.
  rewrite send_willing by done. cbn [smodify]. eexists. split; [done|]. split; [exact Hsc|]. split; [exact Hn|].
  cbn [sh_sent on_shim]. rewrite Hs2. by rewrite <- app_assoc.
Qed.

(* ------------------------------------------------------------------------ *)
(** ** Properties *)

(** Whatever a shim sends, in any order, and whatever the transport, its
    descriptors and the importer answer, the server stays within its bounds: at
    most sixteen surfaces, at most 64 damage rectangles each, every id above the
    session's and at or under the watermark, the seat apart from the surfaces,
    every pending buffer of positive size with a wide enough stride; and the
    realm's scene can always be composed, for any output that fits memory. *)
Theorem shim_bounded (ops : list ShimOp) (config : ShimConfig) (scene : Scene) (importer : option I)
  (answers : list (option X)) :
  scene_ok scene -> Forall op_ok ops ->
  let s := (shim_run ops (shim_start config scene importer answers)).2 in
  shim_wf s
  /\ forall geom, view_fits geom -> is_Some (compose (sh_scene s) geom).
Proof.
  intros Hsc Hok s. assert (shim_wf s) as Hs by (by apply shim_run_wf, shim_start_wf). split; [done|].
  intros geom Hg. destruct (compose_lookup (sh_scene s) geom (proj1 (sw_scene s Hs)) Hg) as (out & -> & _). by eexists.
Qed.

(** C36: every buffer a shim attaches is given back exactly once, and every commit
    is told of exactly one frame. Over any run that no fault ends, the buffers
    attached are, as a multiset, those already given back, those a surface still
    holds for its next commit, and the one dmabuf the importer retains; and the
    surfaces committed are, in order, those told of a frame followed by those
    still owed one. *)
Theorem shim_accounts (ops : list ShimOp) (config : ShimConfig) (scene : Scene) (importer : option I)
  (answers : list (option X)) (s : Shim) :
  scene_ok scene -> Forall op_ok ops ->
  shim_run ops (shim_start config scene importer answers) = (Ok tt, s) ->
  flat_map attached_by ops ≡ₚ buffers_done s ++ retained_buffer s ++ pending_buffers s
  /\ flat_map committed_by ops = frames_done s ++ sv_owed_frame_dones (sh_server s).
Proof.
  intros Hsc Hok Hrun.
  destruct (shim_run_books ops _ _ _ (shim_start_wf config scene importer answers Hsc) Hok Hrun) as [Hb Hf].
  split; [symmetry; exact Hb|symmetry; exact Hf].
Qed.

(** No shim waits for ever for its frame. When a frame has been shown and the
    transport takes what it is given, every surface owed a [frame_done] is sent
    it, in the order of the commits, nothing else is sent and nothing is owed. *)
Theorem shim_frames_delivered (s : Shim) (time_ms : Z) :
  sh_answers s = [] ->
  exists s', (presented time_ms : SM unit) s = (Ok tt, s')
  /\ wants_presentation (sh_server s') = false
  /\ sh_sent s' = sh_sent s ++ List.map (fun id => (id, EvFrameDone time_ms)) (sv_owed_frame_dones (sh_server s)).
Proof.
  intros Ha. unfold presented, sbind, sget.
  destruct (presented_willing time_ms _ s Ha eq_refl) as (s' & -> & Hn & _ & Hs).
  exists s'. unfold wants_presentation. rewrite Hn. done.
Qed.

(** C37: what an application draws is what the view shows. When a surface with a
    pending shm buffer is committed, the buffer's file holds all its rows, and
    the transport takes what it is given, the scene's surface becomes the buffer:
    the pixel at [(x, y)] is the four bytes at row [y] of the stride, blue, green,
    red and alpha in the client's memory and red, green, blue and alpha in the
    view, opaque where the format has no alpha. The buffer is given back, a retained dmabuf before it, the damage and the
    pending buffer are consumed and the surface is owed one frame. *)
Theorem shim_commit_shows (s : Shim) (sid : Z) (st : SurfaceState F) (p : PendingBuffer F) (file : Bytes) :
  shim_wf s -> sh_answers s = [] ->
  sv_surfaces (sh_server s) !! sid = Some st -> ss_pending_buffer st = Some p -> pb_kind p = Shm ->
  pb_width p <= MAX_SURFACE_DIM -> pb_height p <= MAX_SURFACE_DIM ->
  pb_width p * pb_height p * BYTES_PER_PIXEL <= MAX_SURFACE_BYTES ->
  holds_file (pb_fd p) file -> pb_stride p * pb_height p <= blen file ->
  exists s' c, (handle_commit sid : SM unit) s = (Ok tt, s')
  /\ sn_surface (sh_scene s') = Some c /\ sc_width c = pb_width p /\ sc_height c = pb_height p
  /\ (forall x y, 0 <= x < pb_width p -> 0 <= y < pb_height p ->
        let byte i := nth (Z.to_nat (y * pb_stride p + x * 4 + i)) file 0 in
        surface_pixel c x y
        = [byte 2; byte 1; byte 0; match pb_format p with Xrgb8888 => 255 | Argb8888 => byte 3 end])
  /\ sh_sent s' = sh_sent s ++ List.map (fun b => (b.1, EvBufferDone b.2 Released)) (retained_buffer s)
                  ++ [(sid, EvBufferDone (pb_buffer_id p) Released)]
  /\ sv_retained_dmabuf (sh_server s') = None.
Proof.
  intros Hs Ha Hst Hp Hkind Hw Hh Htot Hfile Hlen.
  destruct (sw_surface s Hs sid st Hst) as [_ Hpo]. destruct (Hpo p Hp) as [Hev (Hpw & Hph & Hps)].
  destruct (copy_in_pixels (pb_fd p) file (pb_width p) (pb_height p) (pb_stride p) (pb_format p) Hfile)
    as (rgba & Hc & Hpx); [lia..|done|].
  pose proof (copy_in_length (pb_fd p) (pb_width p) (pb_height p) (pb_stride p) (pb_format p) rgba ltac:(lia) ltac:(lia) Hc) as Hcl.
  assert (from_rgba rgba (pb_width p) (pb_height p)
    = Ok {| sc_rgba := rgba; sc_width := pb_width p; sc_height := pb_height p |}) as Hf.
  { unfold from_rgba. rewrite (proj2 (Z.eqb_neq (pb_width p) 0)), (proj2 (Z.eqb_neq (pb_height p) 0)) by lia.
    by rewrite (proj2 (Z.eqb_eq _ _) Hcl). }
  destruct (commit_willing s sid st p rgba _ Hst Hp Hev Hkind Ha (conj Hw (conj Hh Htot)) Hc Hf)
    as (s' & Hrun & Hsc & Hret & Hsent).
  eexists s', _. split; [exact Hrun|]. split; [exact Hsc|]. do 2 (split; [done|]). split; [|done].
  intros x y Hx Hy byte. unfold byte, surface_pixel. cbn [sc_width sc_rgba]. rewrite Hpx by done.
  apply swizzle_slice; nia.
Qed.
End runs.

(* ------------------------------------------------------------------------ *)
(** ** A shim at work *)

(** A file in memory, and an importer that takes every dmabuf. *)
Definition demo_read (f : list Z) (len off : Z) : result Bytes unit :=
  if (0 <=? off) && (0 <=? len) && (off + len <=? blen f)
  then Ok (slice (List.map (fun b => b mod 256) f) off (off + len)) else Err tt.
Lemma demo_read_len f len off bytes : 0 <= len -> demo_read f len off = Ok bytes -> Z.of_nat (length bytes) = len.
Proof.
  unfold demo_read. intros Hl. case_match; [|done]. unbool. intros [= <-].
  assert (blen (List.map (fun b => b mod 256) f) = blen f) as Hm by (unfold blen; by rewrite length_map).
  pose proof (blen_slice (List.map (fun b => b mod 256) f) off (off + len)) as Hb. unfold blen in *. lia.
Qed.
Lemma demo_read_bytes f len off bytes : demo_read f len off = Ok bytes -> is_bytes bytes.
Proof.
  unfold demo_read. case_match; [|done]. intros [= <-]. apply slice_u8. apply Forall_forall. intros x Hx.
  apply list_elem_of_In, in_map_iff in Hx as (b & <- & _). unfold is_u8, u8_max.
  pose proof (Z.mod_pos_bound b 256). lia.
Qed.
Definition demo_fd : BufferFd (list Z) unit :=
  {| has_seals := fun _ => true; fd_size := fun f => Some (blen f); read_exact_at := demo_read;
     read_exact_len := demo_read_len; read_exact_bytes := demo_read_bytes |}.
Definition demo_importer : DmabufImporter (list Z) unit :=
  {| imp_supports := fun _ _ => true; imp_import := fun i _ _ => (Ok tt, i); imp_clear := fun i => i |}.
#[local] Existing Instance demo_fd.
#[local] Existing Instance demo_importer.

Definition demo_message {A} (op : Z) (has : bool) (c : codec A) (oid : Z) (m : A) (fd : option (list Z))
    : Ipc.Message (list Z) :=
  let bytes := default [] (encode_frame op has c oid m) in
  {| Ipc.msg_header := {| object_id := oid; size := blen bytes; opcode := op; fd_count := u8_of_bool has |};
     Ipc.msg_bytes := bytes; Ipc.msg_fd := fd |}.
Definition demo_attach (buffer : Z) (kind : BufferKind) (file : list Z) : @ShimOp (list Z) :=
  SoMessage (demo_message 0 true c_attach 2
    {| at_buffer_id := buffer; at_kind := kind; at_format := Xrgb8888; at_width := 2; at_height := 1;
       at_stride := 8 |} (Some file)).
Definition demo_commit_op : @ShimOp (list Z) := SoMessage (demo_message 2 false c_commit 2 tt None).
Definition demo_pixels : list Z := [1; 2; 3; 4; 5; 6; 7; 8].
Definition demo_shim_config : ShimConfig := {| sf_realm := str "a"; sf_geom := demo_geom |}.
(** A surface; a dmabuf shown; an shm buffer replaced before its commit, then
    shown in its turn. *)
Definition demo_ops : list (@ShimOp (list Z)) :=
  [SoMessage (demo_message 0 false c_create_surface 1 2 None);
   demo_attach 7 Dmabuf []; demo_commit_op;
   demo_attach 8 Shm demo_pixels; demo_attach 9 Shm demo_pixels; demo_commit_op;
   SoPresented 5; demo_commit_op].
Abbreviation demo_start := (shim_start (X := unit) demo_shim_config scene_new (Some tt) []).

Lemma demo_scene_ok : scene_ok scene_new.
Proof. by split. Qed.
Lemma demo_ops_ok : Forall op_ok demo_ops.
Proof. repeat constructor; vm_compute; repeat constructor; discriminate. Qed.

Lemma shim_bounded_witness :
  bt_len (sv_surfaces (sh_server (shim_run demo_ops demo_start).2)) = 1
  /\ is_Some (compose (sh_scene (shim_run demo_ops demo_start).2) demo_geom).
Proof.
  split; [by vm_compute|].
  exact (proj2 (shim_bounded demo_ops demo_shim_config scene_new (Some tt) (@nil (option unit)) demo_scene_ok demo_ops_ok)
    demo_geom demo_view_fits).
Defined.

Lemma shim_accounts_witness :
  let s := (shim_run demo_ops demo_start).2 in
  flat_map attached_by demo_ops = [(2, 7); (2, 8); (2, 9)] /\ buffers_done s = [(2, 8); (2, 7); (2, 9)]
  /\ flat_map attached_by demo_ops ≡ₚ buffers_done s ++ retained_buffer s ++ pending_buffers s
  /\ flat_map committed_by demo_ops = [2; 2; 2] /\ frames_done s = [2; 2].
Proof.
  intros s. split; [by vm_compute|]. split; [by vm_compute|].
  split; [|split; by vm_compute].
  refine (proj1 (shim_accounts demo_ops demo_shim_config scene_new (Some tt) (@nil (option unit)) s
    demo_scene_ok demo_ops_ok _)).
  by vm_compute.
Defined.

Lemma shim_frames_delivered_witness :
  let s := (shim_run (take 6 demo_ops) demo_start).2 in
  exists s' : @Shim (list Z) unit unit,
    (presented 5 : @SM (list Z) unit unit unit unit) s = (Ok tt, s') /\ wants_presentation (sh_server s') = false.
Proof.
  intros s.
  destruct (shim_frames_delivered (IoErr := unit) s 5) as (s' & H1 & H2 & _); [by vm_compute|].
  exists s'. split; [exact H1|exact H2].
Defined.

Lemma demo_holds : holds_file demo_pixels demo_pixels.
Proof.
  intros off len Ho Hl Hfit. unfold read_exact_at. simpl. unfold demo_read.
  rewrite (proj2 (Z.leb_le 0 off)), (proj2 (Z.leb_le 0 len)), (proj2 (Z.leb_le _ _) Hfit) by lia. done.
Qed.

Abbreviation demo_ready := ((shim_run (take 5 demo_ops) demo_start).2).
Lemma demo_ready_wf : shim_wf demo_ready.
Proof.
  apply (shim_run_wf (take 5 demo_ops)); [|by apply shim_start_wf, demo_scene_ok].
  apply Forall_take, demo_ops_ok.
Qed.

Lemma shim_commit_shows_witness :
  exists (s' : @Shim (list Z) unit unit) c, (handle_commit 2 : @SM (list Z) unit unit unit unit) demo_ready = (Ok tt, s')
  /\ sn_surface (sh_scene s') = Some c /\ surface_pixel c 1 0 = [7; 6; 5; 255].
Proof.
  destruct (shim_commit_shows (IoErr := unit) demo_ready 2
    {| ss_ever_attached := true;
       ss_pending_buffer := Some {| pb_buffer_id := 9; pb_fd := demo_pixels; pb_kind := Shm; pb_format := Xrgb8888;
                                    pb_width := 2; pb_height := 1; pb_stride := 8 |};
       ss_pending_damage := [] |}
    {| pb_buffer_id := 9; pb_fd := demo_pixels; pb_kind := Shm; pb_format := Xrgb8888;
       pb_width := 2; pb_height := 1; pb_stride := 8 |} demo_pixels)
    as (s' & c & Hrun & Hc & _ & _ & Hpx & _).
  - exact demo_ready_wf.
  - by vm_compute.
  - vm_compute. reflexivity.
  - reflexivity.
  - reflexivity.
  - by vm_compute.
  - by vm_compute.
  - by vm_compute.
  - exact demo_holds.
  - by vm_compute.
  - exists s', c. split; [exact Hrun|]. split; [exact Hc|].
    etrans; [apply Hpx; simpl; lia|]. by vm_compute.
Defined.
