(* ===== verification/Blank.v ===== *)
(** * The idle blank

    [crates/vitrin-core/src/backend/blank.rs]: the session's activity clock, the
    machine that turns idleness into a dark panel and back, what an app may ask
    of it, the opaque cover and the watch for a suspend. A log line is not
    state and is left out; the latch that guards one is kept. *)

From stdpp Require Import gmap.
From S2P Require Import Prelude Text Grants Capture Canvas ShimMessages Shim Paint.

Definition COVER_RGBA : list Z := [0; 0; 0; 255].
Definition WAKE_DEADLINE : Duration := from_secs 2.
Definition SUSPEND_GAP : Duration := from_secs 10.

(* ------------------------------------------------------------------------ *)
(** ** The activity clock and the phase *)

Inductive Phase : Type := Lit | Covering | Dark | Waking.
Inductive WakeOutcome : Type := FlipLanded | NoFlip | SeatLost.
Inductive ScreenTransition : Type :=
| Blanked
| Woke (dark : Duration) (outcome : WakeOutcome).
Inductive Wake : Type := Awake | Consumed | Overdue.

#[export] Instance Phase_eq_dec : EqDecision Phase.
Proof. solve_decision. Defined.
#[export] Instance WakeOutcome_eq_dec : EqDecision WakeOutcome.
Proof. solve_decision. Defined.
#[export] Instance ScreenTransition_eq_dec : EqDecision ScreenTransition.
Proof. solve_decision. Defined.
#[export] Instance Wake_eq_dec : EqDecision Wake.
Proof. solve_decision. Defined.

Definition wake_label (o : WakeOutcome) : Str :=
  match o with
  | FlipLanded => str "flip_landed"
  | NoFlip => str "no_flip"
  | SeatLost => str "seat_lost"
  end.
Definition wake_consumes (w : Wake) : bool := match w with Consumed => true | _ => false end.

Record SessionActivity : Type := {
  ac_last : Instant;
  ac_phase : Phase;
  ac_after : option Duration;
  ac_seat_absent : bool;
  ac_cover_queued : bool;
  ac_waking_since : option Instant;
  ac_overdue_logged : bool;
  ac_journalled_dark : option Instant;
  ac_exit : WakeOutcome }.

Definition activity_new (after : option Duration) (now : Instant) : SessionActivity :=
  {| ac_last := now; ac_phase := Lit; ac_after := after; ac_seat_absent := false;
     ac_cover_queued := false; ac_waking_since := None; ac_overdue_logged := false;
     ac_journalled_dark := None; ac_exit := NoFlip |}.

Definition set_last (t : Instant) (a : SessionActivity) : SessionActivity :=
  {| ac_last := t; ac_phase := ac_phase a; ac_after := ac_after a;
     ac_seat_absent := ac_seat_absent a; ac_cover_queued := ac_cover_queued a;
     ac_waking_since := ac_waking_since a; ac_overdue_logged := ac_overdue_logged a;
     ac_journalled_dark := ac_journalled_dark a; ac_exit := ac_exit a |}.
(** The fields a change of phase writes. *)
Definition set_phase (p : Phase) (queued : bool) (since : option Instant) (logged : bool)
    (a : SessionActivity) : SessionActivity :=
  {| ac_last := ac_last a; ac_phase := p; ac_after := ac_after a;
     ac_seat_absent := ac_seat_absent a; ac_cover_queued := queued;
     ac_waking_since := since; ac_overdue_logged := logged;
     ac_journalled_dark := ac_journalled_dark a; ac_exit := ac_exit a |}.
Definition set_absent (b : bool) (a : SessionActivity) : SessionActivity :=
  {| ac_last := ac_last a; ac_phase := ac_phase a; ac_after := ac_after a;
     ac_seat_absent := b; ac_cover_queued := ac_cover_queued a;
     ac_waking_since := ac_waking_since a; ac_overdue_logged := ac_overdue_logged a;
     ac_journalled_dark := ac_journalled_dark a; ac_exit := ac_exit a |}.
Definition set_exit (o : WakeOutcome) (a : SessionActivity) : SessionActivity :=
  {| ac_last := ac_last a; ac_phase := ac_phase a; ac_after := ac_after a;
     ac_seat_absent := ac_seat_absent a; ac_cover_queued := ac_cover_queued a;
     ac_waking_since := ac_waking_since a; ac_overdue_logged := ac_overdue_logged a;
     ac_journalled_dark := ac_journalled_dark a; ac_exit := o |}.
Definition set_journalled (t : option Instant) (a : SessionActivity) : SessionActivity :=
  {| ac_last := ac_last a; ac_phase := ac_phase a; ac_after := ac_after a;
     ac_seat_absent := ac_seat_absent a; ac_cover_queued := ac_cover_queued a;
     ac_waking_since := ac_waking_since a; ac_overdue_logged := ac_overdue_logged a;
     ac_journalled_dark := t; ac_exit := ac_exit a |}.

Definition activity_covering (a : SessionActivity) : bool :=
  match ac_phase a with Covering | Dark => true | _ => false end.
Definition is_dark (a : SessionActivity) : bool := bool_decide (ac_phase a = Dark).

Definition force_lit (a : SessionActivity) : SessionActivity :=
  set_exit NoFlip (set_phase Lit false None false a).

Definition activity_seat_absent (absent : bool) (now : Instant) (a : SessionActivity) : SessionActivity :=
  set_absent absent
    (if absent then set_exit SeatLost (force_lit a)
     else if ac_seat_absent a then set_last now a else a).

(** The wake in progress has run for the deadline. *)
Definition past_deadline (now : Instant) (a : SessionActivity) : bool :=
  is_some_and (ac_waking_since a) (fun s => WAKE_DEADLINE <=? since now s).

Definition note_physical (now : Instant) (a : SessionActivity) : Wake * SessionActivity :=
  let a := set_last now a in
  match ac_phase a with
  | Lit => (Awake, a)
  | Covering | Dark => (Consumed, set_phase Waking false (Some now) false a)
  | Waking =>
      if negb (past_deadline now a) then (Consumed, a)
      else (Overdue, set_phase (ac_phase a) (ac_cover_queued a) (ac_waking_since a) true a)
  end.

Definition blank_tick (now : Instant) (inhibited : bool) (a : SessionActivity) : bool * SessionActivity :=
  if negb (bool_decide (ac_phase a = Lit)) || ac_seat_absent a || inhibited then (false, a)
  else match ac_after a with
       | None => (false, a)
       | Some after =>
           if since now (ac_last a) <? after then (false, a)
           else (true, set_phase Covering false (ac_waking_since a) (ac_overdue_logged a) a)
       end.

Definition note_frame_queued (a : SessionActivity) : SessionActivity :=
  match ac_phase a with
  | Covering => set_phase Covering true (ac_waking_since a) (ac_overdue_logged a) a
  | _ => a
  end.
Definition dpms_owed (a : SessionActivity) : bool :=
  bool_decide (ac_phase a = Covering) && ac_cover_queued a.
Definition went_dark (a : SessionActivity) : SessionActivity :=
  match ac_phase a with
  | Covering => set_phase Dark (ac_cover_queued a) (ac_waking_since a) (ac_overdue_logged a) a
  | _ => a
  end.
Definition note_flip_completed (a : SessionActivity) : bool * SessionActivity :=
  match ac_phase a with
  | Waking => (true, set_exit FlipLanded (force_lit a))
  | _ => (false, a)
  end.
Definition wake_expired (now : Instant) (a : SessionActivity) : bool :=
  bool_decide (ac_phase a = Waking) && past_deadline now a.

Definition take_transition (now : Instant) (a : SessionActivity) : option ScreenTransition * SessionActivity :=
  match ac_journalled_dark a, ac_phase a with
  | None, (Covering | Dark) => (Some Blanked, set_journalled (Some now) a)
  | Some s, Lit => (Some (Woke (since now s) (ac_exit a)), set_journalled None a)
  | None, (Lit | Waking) => (None, a)
  | Some _, (Covering | Dark | Waking) => (None, a)
  end.

(* ------------------------------------------------------------------------ *)
(** ** What an app asks *)

Abbreviation IdleInhibitTable := (gmap RealmId (option Z)) (only parsing).

Definition inhibit_apply (realm : RealmId) (ask : IdleInhibitAsk) (t : IdleInhibitTable)
    : bool * IdleInhibitTable :=
  match ii_state ask with
  | InhibitHeld => (bool_decide (t !! realm = None), <[realm := ii_surface ask]> t)
  | InhibitReleased => (negb (bool_decide (t !! realm = None)), delete realm t)
  end.
Definition inhibit_holds (bound : option RealmId) (t : IdleInhibitTable) : bool :=
  is_some_and bound (fun realm => negb (bool_decide (t !! realm = None))).
Definition inhibit_forget (realm : RealmId) (t : IdleInhibitTable) : bool * IdleInhibitTable :=
  (negb (bool_decide (t !! realm = None)), delete realm t).

(* ------------------------------------------------------------------------ *)
(** ** The cover *)

Record BlankSurface : Type := { bs_covering : bool; bs_generation : Z }.
Definition blank_surface_new : BlankSurface := {| bs_covering := false; bs_generation := 0 |}.

Definition set_covering (covering : bool) (s : BlankSurface) : bool * BlankSurface :=
  if bool_decide (bs_covering s = covering) then (false, s)
  else (true, {| bs_covering := covering; bs_generation := u64_wrapping_add (bs_generation s) 1 |}).

Definition blank_composite_over (s : BlankSurface) (width height : Z) (view : Pixels) : option Pixels :=
  if negb (bs_covering s) then Some view
  else if negb (canvas_new view width height) then Some view
  else fill_rect width height (rect 0 0 width height) COVER_RGBA view.

(* ------------------------------------------------------------------------ *)
(** ** A suspend, after the fact *)

(** The last pair of readings: [SystemTime], then [Instant]. *)
Abbreviation ResumeWatch := (option (Z * Instant)) (only parsing).

Definition resume_sample (wall : Z) (mono : Instant) (w : ResumeWatch) : option Duration * ResumeWatch :=
  (match w with
   | None => None
   | Some (pw, pm) =>
       if wall <? pw then None
       else let skew := (wall - pw) - since mono pm in
            if skew <? 0 then None
            else if SUSPEND_GAP <=? skew then Some skew else None
   end, Some (wall, mono)).

(* ------------------------------------------------------------------------ *)
(** ** Runs *)

(** What the session does to its activity, one call at a time. *)
Inductive BlankOp : Type :=
| OpPhysical (now : Instant)
| OpTick (now : Instant) (inhibited : bool)
| OpQueued
| OpWentDark
| OpFlip
| OpExpire (now : Instant)
| OpSeat (absent : bool) (now : Instant)
| OpTake (now : Instant).

Inductive BlankSaw : Type :=
| SawWake (w : Wake)
| SawTick (covered : bool)
| SawFlip (woke : bool)
| SawExpire (gave_up : bool)
| SawTake (t : option ScreenTransition)
| SawNothing.

Definition blank_step (a : SessionActivity) (op : BlankOp) : BlankSaw * SessionActivity :=
  match op with
  | OpPhysical now => let '(w, a) := note_physical now a in (SawWake w, a)
  | OpTick now inhibited => let '(b, a) := blank_tick now inhibited a in (SawTick b, a)
  | OpQueued => (SawNothing, note_frame_queued a)
  | OpWentDark => (SawNothing, went_dark a)
  | OpFlip => let '(b, a) := note_flip_completed a in (SawFlip b, a)
  | OpExpire now => let b := wake_expired now a in (SawExpire b, if b then force_lit a else a)
  | OpSeat absent now => (SawNothing, activity_seat_absent absent now a)
  | OpTake now => let '(t, a) := take_transition now a in (SawTake t, a)
  end.

Fixpoint blank_run (ops : list BlankOp) (a : SessionActivity) : list (BlankOp * BlankSaw) * SessionActivity :=
  match ops with
  | [] => ([], a)
  | op :: ops =>
      let '(saw, a) := blank_step a op in
      let '(trace, a) := blank_run ops a in ((op, saw) :: trace, a)
  end.

(** The instant an operation samples. *)
Definition op_instant (op : BlankOp) : option Instant :=
  match op with
  | OpPhysical t | OpTick t _ | OpExpire t | OpSeat _ t | OpTake t => Some t
  | OpQueued | OpWentDark | OpFlip => None
  end.

(** The instants of a run, in order from [t]. *)
Fixpoint ordered_ops (t : Instant) (ops : list BlankOp) : Prop :=
  match ops with
  | [] => True
  | op :: ops =>
      match op_instant op with
      | None => ordered_ops t ops
      | Some t' => t <= t' /\ ordered_ops t' ops
      end
  end.

(* ------------------------------------------------------------------------ *)
(** ** When the blank falls *)

(** The reference for the clock: when the human last touched the session, or
    came back to it, and whether they are away. *)
Definition touch_step (s : Instant * bool) (op : BlankOp) : Instant * bool :=
  match op with
  | OpPhysical t => (t, s.2)
  | OpSeat true _ => (s.1, true)
  | OpSeat false t => (if s.2 then t else s.1, false)
  | _ => s
  end.
Definition touched (t0 : Instant) (ops : list BlankOp) : Instant * bool := fold_left touch_step ops (t0, false).

Lemma blank_step_clock a op :
  let a' := (blank_step a op).2 in
  (ac_last a', ac_seat_absent a') = touch_step (ac_last a, ac_seat_absent a) op
  /\ ac_after a' = ac_after a.
Proof.
  destruct a as [l p d s q w o j e], op as [t|t inh| | | |t|[] t|t]; cbn;
    unfold note_physical, blank_tick, note_frame_queued, went_dark, note_flip_completed, take_transition, force_lit;
    cbn; repeat case_match; by simplify_eq/=.
Qed.

Lemma blank_run_clock ops a :
  let a' := (blank_run ops a).2 in
  (ac_last a', ac_seat_absent a') = fold_left touch_step ops (ac_last a, ac_seat_absent a)
  /\ ac_after a' = ac_after a.
Proof.
  revert a. induction ops as [|op ops IH]; intros a; [done|]. simpl.
  pose proof (blank_step_clock a op) as [H1 H2]. destruct (blank_step a op) as [saw a1].
  specialize (IH a1). destruct (blank_run ops a1) as [trace a2]. simpl in *. rewrite <- H1. by rewrite <- H2.
Qed.

(* ------------------------------------------------------------------------ *)
(** ** How long input is withheld *)

Definition consumed_at (t : Instant) : BlankOp * BlankSaw := (OpPhysical t, SawWake Consumed).
Definition covered (e : BlankOp * BlankSaw) : Prop := e.2 = SawTick true.
#[export] Instance BlankSaw_eq_dec : EqDecision BlankSaw.
Proof. solve_decision. Defined.
#[export] Instance covered_dec e : Decision (covered e).
Proof. unfold covered. apply _. Defined.

(** Since [s] a wake has been running, or the screen is lit. *)
Definition waking_from (s : Instant) (a : SessionActivity) : Prop :=
  match ac_phase a with
  | Lit => True
  | Waking => ac_waking_since a = Some s
  | _ => False
  end.

Lemma waking_from_step s a op :
  waking_from s a -> ~ covered (op, (blank_step a op).1) -> waking_from s (blank_step a op).2.
Proof.
  unfold waking_from, covered. destruct a as [l p d ab q w o j e]. cbn.
  destruct p; try done; destruct op as [t|t inh| | | |t|[] t|t]; cbn; intros H Hc;
    unfold note_physical, blank_tick, take_transition, wake_expired, force_lit in *; cbn in *;
    repeat case_match; simplify_eq/=; done.
Qed.

Lemma waking_from_consumed s a t :
  waking_from s a -> (note_physical t a).1 = Consumed -> t - s < WAKE_DEADLINE.
Proof.
  unfold waking_from, note_physical. cbn. destruct (ac_phase a) eqn:Hp; cbn; try done. intros Hs.
  unfold past_deadline. cbn. rewrite Hs. simpl. unfold since. destruct (Z.leb_spec WAKE_DEADLINE (Z.max 0 (t - s))); [done|lia].
Qed.

(** A consumed event leaves a wake running from no later than itself. *)
Definition waking_before (t : Instant) (a : SessionActivity) : Prop :=
  match ac_phase a with Waking => exists s, ac_waking_since a = Some s /\ s <= t | _ => True end.

Lemma waking_before_step t a op :
  waking_before t a -> (forall t', op_instant op = Some t' -> t <= t') ->
  waking_before (default t (op_instant op)) (blank_step a op).2.
Proof.
  unfold waking_before. destruct a as [l p d ab q w o j e]. cbn. intros H Ht.
  destruct op as [t'|t' inh| | | |t'|[] t'|t']; cbn in *; try specialize (Ht t' eq_refl);
    unfold note_physical, blank_tick, note_frame_queued, went_dark, note_flip_completed, take_transition, wake_expired, force_lit in *; cbn in *;
    repeat case_match; simplify_eq/=; try done; try (destruct H as (s & ? & ?); eauto with lia); eauto with lia.
Qed.

Lemma blank_run_cons op ops a :
  blank_run (op :: ops) a =
    let '(saw, a1) := blank_step a op in ((op, saw) :: (blank_run ops a1).1, (blank_run ops a1).2).
Proof. simpl. destruct (blank_step a op) as [saw a1]. by destruct (blank_run ops a1). Qed.

(** A run cut where its trace is. *)
Lemma blank_run_split ops a tr1 tr2 :
  (blank_run ops a).1 = tr1 ++ tr2 ->
  exists ops1 ops2, ops = ops1 ++ ops2 /\ (blank_run ops1 a).1 = tr1
    /\ (blank_run ops2 (blank_run ops1 a).2).1 = tr2.
Proof.
  revert ops a. induction tr1 as [|e tr1 IH]; intros ops a Ht; [by exists [], ops|].
  destruct ops as [|op ops]; [done|]. rewrite blank_run_cons in Ht.
  destruct (blank_step a op) as [saw a1] eqn:Hs. simpl in Ht. injection Ht as <- Ht.
  destruct (IH _ _ Ht) as (ops1 & ops2 & -> & H1 & H2). exists (op :: ops1), ops2.
  rewrite blank_run_cons, Hs. simpl. by rewrite H1.
Qed.

Lemma ordered_ops_app t ops1 ops2 :
  ordered_ops t (ops1 ++ ops2) ->
  ordered_ops (fold_left (fun t op => default t (op_instant op)) ops1 t) ops2.
Proof.
  revert t. induction ops1 as [|op ops1 IH]; intros t; simpl; [done|].
  destruct (op_instant op); simpl; [intros [_ H]|intros H]; by apply IH.
Qed.

Lemma waking_before_run t a ops :
  waking_before t a -> ordered_ops t ops ->
  waking_before (fold_left (fun t op => default t (op_instant op)) ops t) (blank_run ops a).2.
Proof.
  revert t a. induction ops as [|op ops IH]; intros t a Hw Ho; [done|]. rewrite blank_run_cons.
  pose proof (waking_before_step t a op Hw) as H1. destruct (blank_step a op) as [saw a1].
  simpl in *. destruct (op_instant op) as [t'|] eqn:Hi; simpl in *.
  - destruct Ho as [Hle Ho]. apply IH; [|done]. apply H1. by intros ? [= <-].
  - apply IH; [by apply H1|done].
Qed.

Lemma waking_from_run s a ops :
  waking_from s a -> ~ Exists covered (blank_run ops a).1 -> waking_from s (blank_run ops a).2.
Proof.
  revert a. induction ops as [|op ops IH]; intros a Hw Hc; [done|].
  pose proof (waking_from_step s a op Hw) as H1. rewrite blank_run_cons in *.
  destruct (blank_step a op) as [saw a1]. simpl in *. rewrite Exists_cons in Hc. apply IH; [apply H1|]; tauto.
Qed.

Lemma consumed_step ops a t tr :
  (blank_run ops a).1 = consumed_at t :: tr ->
  exists ops', ops = OpPhysical t :: ops' /\ (note_physical t a).1 = Consumed
    /\ (blank_run ops' (note_physical t a).2).1 = tr.
Proof.
  destruct ops as [|op ops]; [done|]. rewrite blank_run_cons. unfold consumed_at.
  destruct (blank_step a op) as [saw a1] eqn:Hs. simpl. intros [= -> -> <-]. exists ops.
  simpl in Hs. destruct (note_physical t a). by simplify_eq.
Qed.

Lemma consumed_wakes t a :
  (note_physical t a).1 = Consumed -> ac_phase (note_physical t a).2 = Waking.
Proof. unfold note_physical. cbn. destruct (ac_phase a) eqn:Hp; cbn; try done. by destruct (past_deadline _ _). Qed.

(* ------------------------------------------------------------------------ *)
(** ** The journal of the screen *)

(** The reference for what is journalled: the entry owed a wake, if any, and how
    the screen last came back to lit. A blank is told once, then a wake
    once, with the span between the two and the cause of the last return. *)
Fixpoint journal_ok (owed : option Instant) (cause : WakeOutcome) (tr : list (BlankOp * BlankSaw)) : Prop :=
  match tr with
  | [] => True
  | (OpTake now, SawTake (Some Blanked)) :: tr => owed = None /\ journal_ok (Some now) cause tr
  | (OpTake now, SawTake (Some (Woke dark outcome))) :: tr =>
      (exists since_, owed = Some since_ /\ dark = since now since_) /\ outcome = cause /\ journal_ok None cause tr
  | (OpFlip, SawFlip true) :: tr => journal_ok owed FlipLanded tr
  | (OpExpire _, SawExpire true) :: tr => journal_ok owed NoFlip tr
  | (OpSeat true _, _) :: tr => journal_ok owed SeatLost tr
  | _ :: tr => journal_ok owed cause tr
  end.

Lemma blank_run_journal ops a :
  journal_ok (ac_journalled_dark a) (ac_exit a) (blank_run ops a).1.
Proof.
  revert a. induction ops as [|op ops IH]; intros a; [done|]. rewrite blank_run_cons.
  destruct (blank_step a op) as [saw a1] eqn:Hs.
  specialize (IH a1). destruct (blank_run ops a1) as [tr a2]. cbn [fst snd] in *.
  destruct a as [l p d ab q w o j e].
  destruct op as [t|t inh| | | |t|[] t|t]; cbn in Hs;
    unfold note_physical, blank_tick, note_frame_queued, went_dark, note_flip_completed, take_transition, wake_expired, force_lit in *; cbn in *;
    repeat case_match; simplify_eq/=; split_and?; eauto.
  by destruct ab.
Qed.

(* ------------------------------------------------------------------------ *)
(** ** Properties *)

(** The blank falls exactly on an idle session. After any run of the
    session's calls, from arming, a round's tick raises the cover if and only if
    the screen is lit, the human's seat is here, no inhibit holds, a timeout is
    configured, and the last physical event, return of the seat or arming is at
    least that timeout ago; and a tick never moves the clock the idle lock reads. *)
Theorem blank_falls_when_idle (after : option Duration) (t0 now : Instant) (ops : list BlankOp)
  (inhibited : bool) :
  let a := (blank_run ops (activity_new after t0)).2 in
  ((blank_tick now inhibited a).1 = true <->
     ac_phase a = Lit /\ (touched t0 ops).2 = false /\ inhibited = false
     /\ exists d, after = Some d /\ d <= since now (touched t0 ops).1)
  /\ ac_last (blank_tick now inhibited a).2 = (touched t0 ops).1.
Proof.
  pose proof (blank_run_clock ops (activity_new after t0)) as [Hc Ha]. cbv zeta.
  destruct (blank_run ops (activity_new after t0)) as [tr a]. cbn [snd] in *.
  change (fold_left _ _ _) with (touched t0 ops) in Hc. change (ac_after (activity_new after t0)) with after in Ha.
  destruct (touched t0 ops) as [last away]. injection Hc as Hl Hs. simpl.
  split; [|unfold blank_tick; rewrite <- Hl; repeat case_match; done].
  unfold blank_tick. rewrite Ha, Hs, Hl. destruct (decide (ac_phase a = Lit)) as [Hp|Hp].
  - rewrite bool_decide_true by done. simpl. destruct away; simpl; [naive_solver|]. destruct inhibited; simpl; [naive_solver|].
    destruct after as [d|]; simpl; [|naive_solver]. destruct (Z.ltb_spec (since now last) d); simpl; [|naive_solver].
    split; [done|]. intros (_ & _ & _ & d' & [= <-] & Hle). lia.
  - rewrite bool_decide_false by done. simpl. naive_solver.
Qed.

(** A wake never holds the human's input for long. In any run whose
    instants are in order, two physical events that were both swallowed lie less
    than the wake deadline apart, unless the session went dark again in
    between: whatever the display does, and however long the human types. *)
Theorem wake_swallow_bounded (after : option Duration) (t0 t1 t2 : Instant) (ops : list BlankOp)
  (pre mid post : list (BlankOp * BlankSaw))
  (Hord : ordered_ops t0 ops)
  (Hrun : (blank_run ops (activity_new after t0)).1 = pre ++ consumed_at t1 :: mid ++ consumed_at t2 :: post) :
  t2 - t1 < WAKE_DEADLINE \/ Exists covered mid.
Proof.
  destruct (decide (Exists covered mid)) as [|Hno]; [by right|].
  left. apply blank_run_split in Hrun as (ops1 & ops2 & -> & _ & H2).
  pose proof (waking_before_run t0 (activity_new after t0) ops1) as Hb.
  assert (ordered_ops t0 ops1) as Ho1.
  { clear -Hord. revert t0 Hord. induction ops1 as [|op ops1 IH]; intros t; simpl; [done|].
    destruct (op_instant op); [intros [??]; split|]; eauto. }
  specialize (Hb I Ho1). apply ordered_ops_app in Hord. set (t := fold_left _ ops1 t0) in *.
  set (a := (blank_run ops1 (activity_new after t0)).2) in *. clearbody a t.
  apply consumed_step in H2 as (ops3 & -> & Hc1 & H3). destruct Hord as [Hle _].
  pose proof (waking_before_step t a (OpPhysical t1) Hb) as Hb1. cbn in Hb1.
  pose proof (consumed_wakes t1 a Hc1) as Hw. destruct (note_physical t1 a) as [w1 a1]. cbn in *.
  assert (waking_before t1 a1) as Hb2 by (apply Hb1; by intros ? [= <-]). unfold waking_before in Hb2. rewrite Hw in Hb2.
  destruct Hb2 as (s & Hs & Hst). assert (waking_from s a1) as Hf by (unfold waking_from; by rewrite Hw).
  apply blank_run_split in H3 as (ops4 & ops5 & -> & H4 & H5). rewrite <- H4 in Hno.
  apply consumed_step in H5 as (ops6 & -> & Hc2 & _).
  pose proof (waking_from_consumed s _ t2 (waking_from_run s a1 ops4 Hf Hno) Hc2). lia.
Qed.

Lemma wake_swallow_bounded_witness :
  let ops := [OpTick (from_secs 300) false; OpQueued; OpWentDark; OpPhysical (from_secs 400);
              OpPhysical (from_secs 401); OpPhysical (from_secs 403)] in
  (blank_run ops (activity_new (Some (from_secs 300)) 0)).1 =
    [(OpTick (from_secs 300) false, SawTick true); (OpQueued, SawNothing); (OpWentDark, SawNothing)]
    ++ consumed_at (from_secs 400) :: [] ++ consumed_at (from_secs 401) :: [(OpPhysical (from_secs 403), SawWake Overdue)]
  /\ from_secs 401 - from_secs 400 < WAKE_DEADLINE.
Proof.
  cbv zeta. split; [vm_compute; reflexivity|].
  destruct (wake_swallow_bounded (Some (from_secs 300)) 0 (from_secs 400) (from_secs 401)
    [OpTick (from_secs 300) false; OpQueued; OpWentDark; OpPhysical (from_secs 400);
     OpPhysical (from_secs 401); OpPhysical (from_secs 403)]
    [(OpTick (from_secs 300) false, SawTick true); (OpQueued, SawNothing); (OpWentDark, SawNothing)]
    [] [(OpPhysical (from_secs 403), SawWake Overdue)]) as [H|H].
  - vm_compute. repeat split; discriminate.
  - vm_compute. reflexivity.
  - exact H.
  - inversion H.
Defined.

(** The journal pairs every dark screen with its end. In any run of the
    session's calls, the entries taken for the journal alternate, beginning with
    a blank; each wake carries the span since its blank was told, and
    names how the screen last came back: a flip that completed while waking, a
    wake abandoned at its deadline, or the seat taken away. *)
Theorem screen_journal_pairs (after : option Duration) (t0 : Instant) (ops : list BlankOp) :
  journal_ok None NoFlip (blank_run ops (activity_new after t0)).1.
Proof. apply (blank_run_journal ops (activity_new after t0)). Qed.
