(* ===== verification/Lock.v ===== *)
(** * The lock screen

    [LockScreen] of [crates/vitrin-core/src/lock/gate.rs], with the policy and
    cause vocabularies of [lock/mod.rs]: the gate that keeps the human's input from
    the apps while the session is locked, types it into the passphrase attempt, and
    holds the idle timer. The activity record it shares with the blank is a
    second part of its state. The derivation of a passphrase is Argon2's, an
    argument. *)

From stdpp Require Import gmap.
From S2P Require Import Prelude Text Input Chord Router Passphrase Blank.

Definition KEYSYM_RETURN : Z := 65293.
Definition KEYSYM_BACKSPACE : Z := 65288.
Definition KEYSYM_ESCAPE : Z := 65307.
Definition UNICODE_KEYSYM_BASE : Z := 16777216.

Inductive LockGesture : Type := GLock.
Inductive SeatChangePolicy : Type := PolicyImmediate | PolicyIdle | PolicyNever.
Inductive LockCause : Type := CauseChord | CauseIdle | CauseSeatChange.
Inductive UnlockMethod : Type := UnlockPassphrase | UnlockAnyKey.
Inductive LockJournal : Type :=
| JLocked (cause : LockCause)
| JAttempted (accepted : bool)
| JUnlocked.

#[export] Instance SeatChangePolicy_eq_dec : EqDecision SeatChangePolicy.
Proof. solve_decision. Defined.
#[export] Instance LockCause_eq_dec : EqDecision LockCause.
Proof. solve_decision. Defined.
#[export] Instance UnlockMethod_eq_dec : EqDecision UnlockMethod.
Proof. solve_decision. Defined.
#[export] Instance LockJournal_eq_dec : EqDecision LockJournal.
Proof. solve_decision. Defined.

Definition policy_default : SeatChangePolicy := PolicyNever.
Definition policy_parse (value : Str) : option SeatChangePolicy :=
  if str_eqb value (str "immediate") then Some PolicyImmediate
  else if str_eqb value (str "idle") then Some PolicyIdle
  else if str_eqb value (str "never") then Some PolicyNever
  else None.
Definition policy_as_str (p : SeatChangePolicy) : Str :=
  match p with
  | PolicyImmediate => str "immediate"
  | PolicyIdle => str "idle"
  | PolicyNever => str "never"
  end.
Definition cause_label (c : LockCause) : Str :=
  match c with
  | CauseChord => str "chord"
  | CauseIdle => str "idle"
  | CauseSeatChange => str "seat"
  end.

Record LockedState : Type := { ls_cause : LockCause; ls_attempt : Bytes }.

Record LockScreen : Type := {
  lk_locked : option LockedState;
  lk_matcher : ChordMatcher LockGesture;
  lk_chord_spelling : Str;
  lk_idle_after : option Duration;
  lk_verifier : option PassphraseFile;
  lk_on_seat_change : SeatChangePolicy;
  lk_carry : Duration;
  lk_journal : list LockJournal }.

(** [new]; the matcher of one binding always builds. *)
Definition lock_new (chord : ModChord) (idle_after : option Duration) (verifier : option PassphraseFile)
    (policy : SeatChangePolicy) : option LockScreen :=
  match matcher_new [(chord, GLock)] with
  | Err _ => None
  | Ok m =>
      Some {| lk_locked := None; lk_matcher := m; lk_chord_spelling := spelling chord;
              lk_idle_after := idle_after; lk_verifier := verifier; lk_on_seat_change := policy;
              lk_carry := 0; lk_journal := [] |}
  end.

Definition set_locked (l : option LockedState) (s : LockScreen) : LockScreen :=
  {| lk_locked := l; lk_matcher := lk_matcher s; lk_chord_spelling := lk_chord_spelling s;
     lk_idle_after := lk_idle_after s; lk_verifier := lk_verifier s;
     lk_on_seat_change := lk_on_seat_change s; lk_carry := lk_carry s; lk_journal := lk_journal s |}.
Definition set_matcher (m : ChordMatcher LockGesture) (s : LockScreen) : LockScreen :=
  {| lk_locked := lk_locked s; lk_matcher := m; lk_chord_spelling := lk_chord_spelling s;
     lk_idle_after := lk_idle_after s; lk_verifier := lk_verifier s;
     lk_on_seat_change := lk_on_seat_change s; lk_carry := lk_carry s; lk_journal := lk_journal s |}.
Definition set_carry (d : Duration) (s : LockScreen) : LockScreen :=
  {| lk_locked := lk_locked s; lk_matcher := lk_matcher s; lk_chord_spelling := lk_chord_spelling s;
     lk_idle_after := lk_idle_after s; lk_verifier := lk_verifier s;
     lk_on_seat_change := lk_on_seat_change s; lk_carry := d; lk_journal := lk_journal s |}.
Definition set_journal (j : list LockJournal) (s : LockScreen) : LockScreen :=
  {| lk_locked := lk_locked s; lk_matcher := lk_matcher s; lk_chord_spelling := lk_chord_spelling s;
     lk_idle_after := lk_idle_after s; lk_verifier := lk_verifier s;
     lk_on_seat_change := lk_on_seat_change s; lk_carry := lk_carry s; lk_journal := j |}.

Definition is_locked (s : LockScreen) : bool := bool_decide (lk_locked s <> None).
Definition lock_cause (s : LockScreen) : option LockCause := ls_cause <$> lk_locked s.
Definition unlock_method (s : LockScreen) : UnlockMethod :=
  match lk_verifier s with Some _ => UnlockPassphrase | None => UnlockAnyKey end.
Definition take_journal (s : LockScreen) : list LockJournal * LockScreen := (lk_journal s, set_journal [] s).
Definition lock_forget_physical (s : LockScreen) : LockScreen :=
  set_matcher (forget_physical_state (lk_matcher s)) s.

Definition lock_raise (cause : LockCause) (s : LockScreen) : bool * LockScreen :=
  match lk_locked s with
  | Some _ => (false, s)
  | None =>
      (true, set_journal (lk_journal s ++ [JLocked cause])
               (set_locked (Some {| ls_cause := cause; ls_attempt := [] |}) s))
  end.

(** [Duration::MAX] and [saturating_add]. *)
Definition duration_max : Duration := u64_max * nanos_per_sec + 999999999.
Definition duration_saturating_add (a b : Duration) : Duration := Z.min duration_max (a + b).

(** [set_seat_absent], on the screen and the record it shares. *)
Definition lock_seat_absent (absent : bool) (now : Instant) (s : LockScreen) (a : SessionActivity)
    : LockScreen * SessionActivity :=
  let s :=
    match lk_on_seat_change s, absent with
    | PolicyImmediate, true => (lock_raise CauseSeatChange s).2
    | PolicyIdle, false => set_carry (duration_saturating_add (lk_carry s) (since now (ac_last a))) s
    | _, _ => s
    end in
  (s, activity_seat_absent absent now a).

Definition lock_tick (now : Instant) (held_by_picker : bool) (s : LockScreen) (a : SessionActivity)
    : bool * LockScreen :=
  if is_locked s then (false, s)
  else if held_by_picker then (false, s)
  else if ac_seat_absent a then (false, s)
  else match lk_idle_after s with
       | None => (false, s)
       | Some after =>
           if duration_saturating_add (since now (ac_last a)) (lk_carry s) <? after then (false, s)
           else lock_raise CauseIdle s
       end.

(* ------------------------------------------------------------------------ *)
(** ** Typing *)

Definition printable (keysym : Z) : option Z :=
  let code :=
    if keysym <? 256 then Some keysym
    else if Z.land keysym 4278190080 =? UNICODE_KEYSYM_BASE then Some (Z.land keysym 16777215)
    else None in
  code ← code;
  if is_charb code then (if is_control code then None else Some code) else None.

(** [while attempt.pop().is_some_and(continuation) {}], on the bytes from the
    last. *)
Fixpoint pop_char_rev (rev_bytes : list Z) : list Z :=
  match rev_bytes with
  | [] => []
  | b :: r => if Z.land b 192 =? 128 then pop_char_rev r else r
  end.
Definition pop_char (attempt : Bytes) : Bytes := reverse (pop_char_rev (reverse attempt)).

(** What a key makes of the attempt; whether it submits it. *)
Definition edit_attempt (keysym : Z) (attempt : Bytes) : bool * Bytes :=
  if keysym =? KEYSYM_RETURN then (true, attempt)
  else if keysym =? KEYSYM_BACKSPACE then (false, pop_char attempt)
  else if keysym =? KEYSYM_ESCAPE then (false, [])
  else match printable keysym with
       | None => (false, attempt)
       | Some c =>
           let encoded := Utf8.encode_char c in
           (false, if Z.of_nat (length attempt) + Z.of_nat (length encoded) <=? MAX_ATTEMPT_BYTES
                   then attempt ++ encoded else attempt)
       end.

Section verifying.
Context (argon2_params : Z -> Z -> Z -> bool)
        (argon2_hash : Z -> Z -> Z -> Bytes -> Bytes -> option Bytes).

Definition accepts (s : LockScreen) (attempt : Bytes) : bool :=
  match lk_verifier s with
  | Some v => pass_verify argon2_params argon2_hash v attempt
  | None => true
  end.

Definition lock_submit (s : LockScreen) : LockScreen :=
  match lk_locked s with
  | None => s
  | Some l =>
      let accepted := accepts s (ls_attempt l) in
      let s := set_locked (Some {| ls_cause := ls_cause l; ls_attempt := [] |}) s in
      let s := set_journal (lk_journal s ++ [JAttempted accepted]) s in
      if accepted then set_journal (lk_journal s ++ [JUnlocked]) (set_locked None s) else s
  end.

Definition type_key (keysym : Z) (s : LockScreen) : LockScreen :=
  match lk_locked s with
  | None => s
  | Some l =>
      let '(submit, attempt) := edit_attempt keysym (ls_attempt l) in
      let s := set_locked (Some {| ls_cause := ls_cause l; ls_attempt := attempt |}) s in
      if submit then lock_submit s else s
  end.

Definition is_pairing_release (k : SeatInputKind) : bool :=
  match k with
  | Key _ _ KReleased | Button _ BReleased | GestureEnd _ _ => true
  | _ => false
  end.

(** [LockScreen::judge]. *)
Definition lock_judge (input : SeatInput) (now : Instant) (s : LockScreen) (a : SessionActivity)
    : Gate * LockScreen * SessionActivity :=
  match si_origin input with
  | Emulated => (Deliver, s, a)
  | Physical =>
      let s := set_matcher (observe (lk_matcher s) input) s in
      let '(wake, a) := note_physical now a in
      let s := set_carry 0 s in
      if wake_consumes wake && negb (is_pairing_release (si_kind input)) then (Consume, s, a)
      else
        let '(chord_gate, gesture, m) := gate (lk_matcher s) input in
        let s := set_matcher m s in
        match gesture with
        | Some GLock => (Consume, (lock_raise CauseChord s).2, a)
        | None =>
            match chord_gate with
            | Consume => (Consume, s, a)
            | Deliver =>
                match lk_locked s with
                | None => (Deliver, s, a)
                | Some _ =>
                    match si_kind input with
                    | Key _ _ KReleased | Button _ BReleased | GestureEnd _ _ => (Deliver, s, a)
                    | Key _ keysym KPressed => (Consume, type_key keysym s, a)
                    | _ => (Consume, s, a)
                    end
                end
            end
        end
  end.

(** [LockPolicy]: the gate at the router's hook point, with the turn's clock. *)
Record LockPolicy : Type := { lp_screen : LockScreen; lp_activity : SessionActivity; lp_now : Instant }.
Definition lock_policy_gate : ConsumingGate LockPolicy :=
  {| judge_input := fun p input =>
       let '(g, s, a) := lock_judge input (lp_now p) (lp_screen p) (lp_activity p) in
       (g, {| lp_screen := s; lp_activity := a; lp_now := lp_now p |}) |}.
End verifying.

(* ------------------------------------------------------------------------ *)
(** ** Runs *)

(** What happens to a session's lock: an event judged, a round's tick, the seat
    taken or given back, the journal drained, and whatever the panel does to the
    record the lock shares with the blank. *)
Inductive LockOp : Type :=
| LJudge (input : SeatInput) (now : Instant)
| LTick (now : Instant) (held_by_picker : bool)
| LSeat (absent : bool) (now : Instant)
| LForget
| LTake
| LPanel (op : BlankOp).

Inductive LockSaw : Type :=
| LSGate (g : Gate)
| LSRaised (b : bool)
| LSJournal (j : list LockJournal)
| LSNothing.

Section running.
Context (argon2_params : Z -> Z -> Z -> bool)
        (argon2_hash : Z -> Z -> Z -> Bytes -> Bytes -> option Bytes).

Definition lock_step (op : LockOp) (s : LockScreen) (a : SessionActivity) : LockSaw * LockScreen * SessionActivity :=
  match op with
  | LJudge input now =>
      let '(g, s, a) := lock_judge argon2_params argon2_hash input now s a in (LSGate g, s, a)
  | LTick now held => let '(b, s) := lock_tick now held s a in (LSRaised b, s, a)
  | LSeat absent now => let '(s, a) := lock_seat_absent absent now s a in (LSNothing, s, a)
  | LForget => (LSNothing, lock_forget_physical s, a)
  | LTake => let '(j, s) := take_journal s in (LSJournal j, s, a)
  | LPanel op => (LSNothing, s, (blank_step a op).2)
  end.

Fixpoint lock_run (ops : list LockOp) (s : LockScreen) (a : SessionActivity)
    : list LockSaw * LockScreen * SessionActivity :=
  match ops with
  | [] => ([], s, a)
  | op :: ops =>
      let '(saw, s, a) := lock_step op s a in
      let '(tr, s, a) := lock_run ops s a in (saw :: tr, s, a)
  end.

Definition drained (tr : list LockSaw) : list LockJournal :=
  flat_map (fun x => match x with LSJournal j => j | _ => [] end) tr.

(* ------------------------------------------------------------------------ *)
(** ** Opening the lock *)

(** The one event that takes a lock down. *)
Definition submits (op : LockOp) (s : LockScreen) (a : SessionActivity) : Prop :=
  exists src now l, op = LJudge (physical (Key src KEYSYM_RETURN KPressed)) now
    /\ lk_locked s = Some l /\ accepts argon2_params argon2_hash s (ls_attempt l) = true
    /\ (note_physical now a).1 <> Consumed.

Lemma type_key_cases keysym s l :
  lk_locked s = Some l ->
  (exists l', lk_locked (type_key argon2_params argon2_hash keysym s) = Some l' /\ ls_cause l' = ls_cause l)
  \/ (lk_locked (type_key argon2_params argon2_hash keysym s) = None
      /\ keysym = KEYSYM_RETURN /\ accepts argon2_params argon2_hash s (ls_attempt l) = true
      /\ lk_journal (type_key argon2_params argon2_hash keysym s) = lk_journal s ++ [JAttempted true; JUnlocked]).
Proof.
  intros Hl. unfold type_key. rewrite Hl. unfold edit_attempt. destruct (Z.eqb_spec keysym KEYSYM_RETURN) as [->|_].
  - unfold lock_submit. cbn [lk_locked set_locked ls_attempt ls_cause].
    change (accepts argon2_params argon2_hash (set_locked _ s) (ls_attempt l))
      with (accepts argon2_params argon2_hash s (ls_attempt l)).
    destruct (accepts _ _ s (ls_attempt l)); cbn; [right|left; eauto].
    split_and!; [done..|]. by rewrite <- app_assoc.
  - left. repeat case_match; simplify_eq; eauto.
Qed.

(** What judging an event does, case by case. *)
Lemma lock_judge_physical k now s a :
  let input := physical k in
  let s1 := set_carry 0 (set_matcher (observe (lk_matcher s) input) s) in
  let '(wake, a1) := note_physical now a in
  lock_judge argon2_params argon2_hash input now s a =
    if wake_consumes wake && negb (is_pairing_release k) then (Consume, s1, a1)
    else
      let '(g, v, m) := matcher_event (lk_matcher s) input in
      let s2 := set_matcher m s1 in
      match v, g with
      | Some GLock, _ => (Consume, (lock_raise CauseChord s2).2, a1)
      | None, Consume => (Consume, s2, a1)
      | None, Deliver =>
          match lk_locked s with
          | None => (Deliver, s2, a1)
          | Some _ =>
              match k with
              | Key _ keysym KPressed => (Consume, type_key argon2_params argon2_hash keysym s2, a1)
              | _ => (if is_pairing_release k then Deliver else Consume, s2, a1)
              end
          end
      end.
Proof.
  cbv zeta. unfold lock_judge, matcher_event. cbn [si_origin physical si_kind]. destruct (note_physical now a) as [wake a1].
  destruct (wake_consumes wake && negb (is_pairing_release k)); [done|].
  change (lk_matcher (set_carry 0 (set_matcher (observe (lk_matcher s) (physical k)) s))) with (observe (lk_matcher s) (physical k)).
  destruct (gate (observe (lk_matcher s) (physical k)) (physical k)) as [[[] [[]|]] m]; cbn [lk_locked set_matcher set_carry]; try done.
  destruct (lk_locked s); [|done]. by destruct k as [|? []| |? ? []| | | | | |].
Qed.

Lemma lock_judge_locked input now s a l :
  lk_locked s = Some l ->
  let '(g, s', a') := lock_judge argon2_params argon2_hash input now s a in
  (g = Deliver -> si_origin input = Emulated \/ is_pairing_release (si_kind input) = true)
  /\ ((exists l', lk_locked s' = Some l' /\ ls_cause l' = ls_cause l)
      \/ (lk_locked s' = None /\ submits (LJudge input now) s a
          /\ lk_journal s' = lk_journal s ++ [JAttempted true; JUnlocked])).
Proof.
  intros Hl. destruct input as [[] k]; [|cbn; split; [by left|]; left; eauto].
  pose proof (lock_judge_physical k now s a) as Hj. cbv zeta in Hj. unfold physical in Hj.
  destruct (note_physical now a) as [wake a1] eqn:Hw. rewrite Hj. clear Hj.
  assert (forall m, lk_locked (set_matcher m (set_carry 0 (set_matcher (observe (lk_matcher s) {| si_origin := Physical; si_kind := k |}) s))) = Some l) as Hk by done.
  destruct (wake_consumes wake && negb (is_pairing_release k)) eqn:Hc; [split; [done|]; left; eauto|].
  destruct (matcher_event _ _) as [[g v] m]. destruct v as [[]|].
  - split; [done|]. left. unfold lock_raise. rewrite Hk. eauto.
  - destruct g; [|split; [done|]; left; eauto]. rewrite Hl.
    destruct k as [|? []| |src ks []| | | | | |]; cbn [is_pairing_release si_kind];
      try (split; [by auto|]; left; eauto; fail).
    split; [done|]. destruct (type_key_cases ks _ l (Hk m)) as [?|(Hn & -> & Hacc & Hjn)]; [by left|right].
    split; [done|]. split; [|done]. exists src, now, l. split_and!; [done..|]. rewrite Hw. cbn.
    intros ->. done.
Qed.

(* ------------------------------------------------------------------------ *)
(** ** Every step *)

Lemma lock_raise_locked c s l : lk_locked s = Some l -> (lock_raise c s).2 = s.
Proof. unfold lock_raise. by intros ->. Qed.

Lemma lock_step_locked op s a l :
  lk_locked s = Some l ->
  let '(saw, s', a') := lock_step op s a in
  ((exists l', lk_locked s' = Some l' /\ ls_cause l' = ls_cause l) \/ submits op s a)
  /\ (forall input now, op = LJudge input now -> saw = LSGate Deliver ->
        si_origin input = Emulated \/ is_pairing_release (si_kind input) = true).
Proof.
  intros Hl. destruct op as [input now|now held|[] now| | |op]; cbn [lock_step].
  - pose proof (lock_judge_locked input now s a l Hl) as Hj.
    destruct (lock_judge _ _ input now s a) as [[g s'] a']. destruct Hj as [Hd Hj]. split; [naive_solver|].
    intros ? ? [= <- <-] [= ->]. by apply Hd.
  - unfold lock_tick, is_locked. rewrite bool_decide_true by (by rewrite Hl). split; [left; eauto|done].
  - unfold lock_seat_absent. split; [left|done]. destruct (lk_on_seat_change s); try (eauto; fail).
    unfold lock_raise. rewrite Hl. eauto.
  - unfold lock_seat_absent. split; [left|done]. destruct (lk_on_seat_change s); eauto.
  - split; [left; eauto|done].
  - split; [left; eauto|done].
  - split; [left; eauto|done].
Qed.

Fixpoint never_submits (ops : list LockOp) (s : LockScreen) (a : SessionActivity) : Prop :=
  match ops with
  | [] => True
  | op :: ops =>
      ~ submits op s a /\ (let '(_, s, a) := lock_step op s a in never_submits ops s a)
  end.

(** A well-paired journal, and whether it leaves the session locked. *)
Fixpoint journal_state (locked : bool) (j : list LockJournal) : option bool :=
  match j with
  | [] => Some locked
  | JLocked _ :: j => if locked then None else journal_state true j
  | JAttempted true :: JUnlocked :: j => if locked then journal_state false j else None
  | JAttempted false :: j => if locked then journal_state true j else None
  | _ => None
  end.

Lemma journal_state_app locked j k :
  journal_state locked (j ++ k) = (b ← journal_state locked j; journal_state b k) \/ journal_state locked j = None.
Proof.
  revert locked. induction j as [j IH] using (induction_ltof1 _ (@length _)). unfold ltof in IH. intros locked.
  destruct j as [|[c|[]|] j]; simpl; [by left|..].
  - destruct locked; [by right|]. by apply IH; simpl; lia.
  - destruct j as [|[]]; simpl; try by right. destruct locked; [|by right]. apply IH. simpl. lia.
  - destruct locked; [|by right]. by apply IH; simpl; lia.
  - by right.
Qed.

Lemma journal_extend locked j k b c :
  journal_state locked j = Some b -> journal_state b k = Some c -> journal_state locked (j ++ k) = Some c.
Proof. intros Hj Hk. destruct (journal_state_app locked j k) as [->|?]; [|congruence]. by rewrite Hj. Qed.

(** What a step adds to the journal fits what it does to the lock. *)
Definition journals (s s' : LockScreen) : Prop :=
  exists k, lk_journal s' = lk_journal s ++ k /\ journal_state (is_locked s) k = Some (is_locked s').

Lemma journals_same s s' : lk_journal s' = lk_journal s -> lk_locked s' = lk_locked s -> journals s s'.
Proof. intros Hj Hl. exists []. rewrite app_nil_r. unfold is_locked. by rewrite Hl. Qed.

Lemma journals_raise c s : journals s (lock_raise c s).2.
Proof.
  unfold lock_raise, journals, is_locked. destruct (lk_locked s) as [l|] eqn:Hl; cbn.
  - exists []. by rewrite app_nil_r, Hl.
  - by exists [JLocked c].
Qed.

Lemma journals_type keysym s : journals s (type_key argon2_params argon2_hash keysym s).
Proof.
  unfold type_key. destruct (lk_locked s) as [l|] eqn:Hl; [|by apply journals_same].
  destruct (edit_attempt keysym (ls_attempt l)) as [sub att]. unfold journals, is_locked. rewrite Hl.
  rewrite (bool_decide_true (Some l <> None)) by done. destruct sub; [|by exists []; rewrite app_nil_r].
  unfold lock_submit. cbn. destruct (accepts _ _ _ _); cbn; [exists [JAttempted true; JUnlocked]|by exists [JAttempted false]].
  by rewrite <- app_assoc.
Qed.

Lemma journals_judge input now s a :
  journals s (lock_judge argon2_params argon2_hash input now s a).1.2.
Proof.
  destruct input as [[] k]; [|by apply journals_same].
  pose proof (lock_judge_physical k now s a) as Hj. cbv zeta in Hj. unfold physical in Hj.
  destruct (note_physical now a) as [wake a1]. rewrite Hj. clear Hj.
  destruct (_ && _); [by apply journals_same|]. destruct (matcher_event _ _) as [[g v] m].
  set (s2 := set_matcher m _). assert (lk_journal s2 = lk_journal s /\ lk_locked s2 = lk_locked s) as [Hj Hl] by done.
  assert (forall s', journals s2 s' -> journals s s') as Hs2.
  { intros s' (k' & ? & ?). exists k'. rewrite <- Hj. unfold is_locked in *. by rewrite <- Hl. }
  destruct v as [[]|]; [apply Hs2, journals_raise|]. destruct g; [|by apply journals_same].
  destruct (lk_locked s); [|by apply journals_same].
  destruct k as [| | |? ? []| | | | | |]; try (by apply journals_same). apply Hs2, journals_type.
Qed.

Lemma lock_run_journal ops s a j :
  journal_state false (j ++ lk_journal s) = Some (is_locked s) ->
  let '(tr, s', a') := lock_run ops s a in
  journal_state false ((j ++ drained tr) ++ lk_journal s') = Some (is_locked s').
Proof.
  revert s a j. induction ops as [|op ops IH]; intros s a j Hj; simpl; [by rewrite app_nil_r|].
  assert (forall s1, journals s s1 -> journal_state false (j ++ lk_journal s1) = Some (is_locked s1)) as Hext.
  { intros s1 (k & -> & Hk). rewrite app_assoc. by eapply journal_extend. }
  destruct op as [input now|now held|absent now| | |op]; cbn [lock_step].
  - pose proof (journals_judge input now s a) as Hs. destruct (lock_judge _ _ input now s a) as [[g s1] a1].
    specialize (IH s1 a1 j (Hext _ Hs)). by destruct (lock_run ops s1 a1) as [[tr s2] a2].
  - assert (journals s (lock_tick now held s a).2) as Hs.
    { unfold lock_tick. repeat case_match; try by apply journals_same. apply journals_raise. }
    destruct (lock_tick now held s a) as [b s1]. specialize (IH s1 a j (Hext _ Hs)). by destruct (lock_run ops s1 a) as [[tr s2] a2].
  - assert (journals s (lock_seat_absent absent now s a).1) as Hs.
    { unfold lock_seat_absent. destruct (lk_on_seat_change s), absent; try by apply journals_same. apply journals_raise. }
    destruct (lock_seat_absent absent now s a) as [s1 a1]. specialize (IH s1 a1 j (Hext _ Hs)). by destruct (lock_run ops s1 a1) as [[tr s2] a2].
  - specialize (IH (lock_forget_physical s) a j Hj). by destruct (lock_run ops _ a) as [[tr s2] a2].
  - specialize (IH (set_journal [] s) a (j ++ lk_journal s)). rewrite app_nil_r in IH. specialize (IH Hj).
    cbn [take_journal]. destruct (lock_run ops (set_journal [] s) a) as [[tr s2] a2]. simpl. by rewrite app_assoc.
  - specialize (IH s (blank_step a op).2 j Hj). by destruct (lock_run ops s _) as [[tr s2] a2].
Qed.
End running.

(* ------------------------------------------------------------------------ *)
(** ** The attempt as text *)

Lemma cont_bits b : is_u8 b -> (Z.land b 192 =? 128) = Utf8.is_cont b.
Proof.
  intros Hb. assert (forallb (fun b => Bool.eqb (Z.land b 192 =? 128) (Utf8.is_cont b)) (List.map Z.of_nat (seq 0 256)) = true)
    as Hall by (vm_compute; reflexivity).
  rewrite List.forallb_forall in Hall. apply eqb_prop, Hall. apply List.in_map_iff. exists (Z.to_nat b).
  unfold is_u8, u8_max in Hb. rewrite List.in_seq. lia.
Qed.

Lemma pop_char_conts cs r : Forall is_u8 cs -> Forall (fun b => Utf8.is_cont b = true) cs -> pop_char_rev (cs ++ r) = pop_char_rev r.
Proof. induction 1 as [|b cs Hb _ IH]; intros Hc; [done|]. inversion Hc; subst. simpl. rewrite cont_bits by done. rewrite H1. by apply IH. Qed.

Lemma pop_char_encode t c : is_char c -> pop_char (Utf8.encode (t ++ [c])) = Utf8.encode t.
Proof.
  intros Hc. destruct (encode_char_lead c Hc) as (b & cs & He & Hb & Hcs).
  pose proof (Utf8.encode_char_u8 c Hc) as Hu. rewrite He in Hu. inversion Hu as [|? ? Hbu Hcu]; subst.
  unfold pop_char. rewrite Utf8.encode_app. simpl. rewrite He, app_nil_r.
  rewrite reverse_app, reverse_cons, <- app_assoc, pop_char_conts by (by apply Forall_reverse).
  simpl. rewrite cont_bits, Hb by done. apply reverse_involutive.
Qed.

(** The editor a human sees: characters, the last one taken back, the field
    cleared; a character with no room is dropped. *)
Definition edit_text (keysym : Z) (text : Str) : bool * Str :=
  if keysym =? KEYSYM_RETURN then (true, text)
  else if keysym =? KEYSYM_BACKSPACE then (false, removelast text)
  else if keysym =? KEYSYM_ESCAPE then (false, [])
  else match printable keysym with
       | None => (false, text)
       | Some c => (false, if str_len (text ++ [c]) <=? MAX_ATTEMPT_BYTES then text ++ [c] else text)
       end.

Definition attempt_text (text : Str) (attempt : Bytes) : Prop :=
  attempt = Utf8.encode text /\ is_str text /\ str_len text <= MAX_ATTEMPT_BYTES.

Lemma printable_char k c : printable k = Some c -> is_char c /\ is_control c = false.
Proof.
  unfold printable. destruct (if k <? 256 then _ else _) as [code|]; [|done]. simpl.
  destruct (is_charb code) eqn:Hc; [|done]. destruct (is_control code) eqn:Hk; [done|]. intros [= <-].
  split; [by apply is_charb_spec|done].
Qed.

Lemma edit_attempt_text keysym text attempt :
  attempt_text text attempt ->
  (edit_attempt keysym attempt).1 = (edit_text keysym text).1
  /\ attempt_text (edit_text keysym text).2 (edit_attempt keysym attempt).2.
Proof.
  intros (-> & Hs & Hl). unfold edit_attempt, edit_text, attempt_text.
  destruct (keysym =? KEYSYM_RETURN); [done|]. destruct (keysym =? KEYSYM_BACKSPACE).
  { split; [done|]. destruct text as [|c text _] using rev_ind; [by split_and!; [..|constructor|]|]. simpl. rewrite removelast_last.
    unfold is_str in *. apply Forall_app in Hs as [Hs Hc]. rewrite str_len_app in Hl. pose proof (str_len_nonneg [c]).
    split_and!; [apply pop_char_encode; by inversion Hc|done|lia]. }
  destruct (keysym =? KEYSYM_ESCAPE); [by split_and!; [..|constructor|]|]. destruct (printable keysym) as [c|] eqn:Hp; [|done]. split; [done|].
  apply printable_char in Hp as [Hc _]. simpl.
  assert (Z.of_nat (length (Utf8.encode text)) + Z.of_nat (length (Utf8.encode_char c)) = str_len (text ++ [c])) as ->.
  { unfold str_len. rewrite Utf8.encode_app, length_app. simpl. rewrite app_nil_r. lia. }
  destruct (Z.leb_spec (str_len (text ++ [c])) MAX_ATTEMPT_BYTES); [|done].
  split_and!; [|apply Forall_app; split; [done|constructor; [done|constructor]]|done]. rewrite Utf8.encode_app. simpl. by rewrite app_nil_r.
Qed.

(* ------------------------------------------------------------------------ *)
(** ** Typing a passphrase *)

(** The keysym that types a character. *)
Definition keysym_of (c : Z) : Z := if c <? 256 then c else Z.lor UNICODE_KEYSYM_BASE c.
Definition typable (c : Z) : Prop := is_char c /\ is_control c = false.

Lemma keysym_high c : 0 <= c < 2 ^ 24 -> Z.land (Z.lor UNICODE_KEYSYM_BASE c) 4278190080 = UNICODE_KEYSYM_BASE
  /\ Z.land (Z.lor UNICODE_KEYSYM_BASE c) 16777215 = c.
Proof.
  intros Hc. change UNICODE_KEYSYM_BASE with (2 ^ 24). change 4278190080 with (Z.shiftl (Z.ones 8) 24). change 16777215 with (Z.ones 24).
  assert (forall i, 24 <= i -> Z.testbit c i = false) as Hhi.
  { intros i Hi. apply Z.bits_above_log2; [lia|]. destruct (Z.eq_dec c 0) as [->|]; [simpl; lia|].
    apply Z.log2_lt_pow2; [lia|]. apply Z.lt_le_trans with (2 ^ 24); [lia|]. apply Z.pow_le_mono_r; lia. }
  split; apply Z.bits_inj'; intros i Hi; rewrite Z.land_spec, Z.lor_spec, Z.pow2_bits_eqb by done.
  - rewrite Z.shiftl_spec by done. destruct (Z.eqb_spec 24 i) as [<-|Hne]; [done|]. simpl.
    destruct (Z.le_gt_cases 24 i); [by rewrite Hhi|]. rewrite (Z.testbit_neg_r _ (i - 24)) by lia. by rewrite andb_false_r.
  - rewrite Z.testbit_ones_nonneg by lia. destruct (Z.eqb_spec 24 i) as [<-|Hne]; [by rewrite Hhi|]. simpl.
    destruct (Z.ltb_spec i 24); [by rewrite andb_true_r|]. by rewrite Hhi.
Qed.

Lemma not_modifier k : k < 65505 \/ 65516 < k -> of_keysym k = None.
Proof.
  intros Hk. unfold of_keysym. destruct (List.find _ _) as [[[[[n m] l] r] e]|] eqn:Hf; [|done].
  apply List.find_some in Hf as [Hin Hb]. exfalso. unfold MODIFIER_TABLE in Hin.
  repeat (destruct Hin as [[= <- <- <- <- <-]|Hin]; [unbool; lia|]). done.
Qed.

Lemma printable_keysym c : typable c -> printable (keysym_of c) = Some c
  /\ keysym_of c <> KEYSYM_RETURN /\ keysym_of c <> KEYSYM_BACKSPACE /\ keysym_of c <> KEYSYM_ESCAPE /\ of_keysym (keysym_of c) = None.
Proof.
  intros [Hc Hk]. unfold printable, keysym_of. assert (0 <= c < 2 ^ 24) as Hr by (unfold is_char in Hc; lia).
  destruct (Z.ltb_spec c 256) as [Hlt|Hge].
  - rewrite (proj2 (Z.ltb_lt c 256)) by done. simpl. rewrite (proj2 (is_charb_spec c)), Hk by done. split; [done|].
    unfold KEYSYM_RETURN, KEYSYM_BACKSPACE, KEYSYM_ESCAPE. split_and!; try lia.
    apply not_modifier. lia.
  - destruct (keysym_high c Hr) as [H1 H2].
    assert (UNICODE_KEYSYM_BASE <= Z.lor UNICODE_KEYSYM_BASE c) as Hge2.
    { replace (Z.lor UNICODE_KEYSYM_BASE c) with (Z.lor (2 ^ 24) c) by done.
      rewrite <- (Z.lor_0_r UNICODE_KEYSYM_BASE) at 1.
      pose proof (Z.ldiff_le UNICODE_KEYSYM_BASE (Z.lor UNICODE_KEYSYM_BASE c)) as Hld.
      rewrite Z.lor_0_r. apply Hld; [apply Z.lor_nonneg; unfold UNICODE_KEYSYM_BASE; lia|].
      apply Z.bits_inj'. intros i Hi. rewrite Z.ldiff_spec, Z.lor_spec, Z.bits_0.
      by destruct (Z.testbit UNICODE_KEYSYM_BASE i). }
    unfold UNICODE_KEYSYM_BASE in Hge2. rewrite (proj2 (Z.ltb_ge (Z.lor _ c) 256)) by (unfold UNICODE_KEYSYM_BASE; lia).
    rewrite H1, Z.eqb_refl, H2. simpl. rewrite (proj2 (is_charb_spec c)), Hk by done. split; [done|].
    unfold KEYSYM_RETURN, KEYSYM_BACKSPACE, KEYSYM_ESCAPE, UNICODE_KEYSYM_BASE. split_and!; try lia.
    apply not_modifier. lia.
Qed.

Section typing.
Context (argon2_params : Z -> Z -> Z -> bool)
        (argon2_hash : Z -> Z -> Z -> Bytes -> Bytes -> option Bytes).
Let run := lock_run argon2_params argon2_hash.

(** A key pressed by the human: its source, its keysym, and when. *)
Definition press (p : KeySource * Z * Instant) : LockOp := LJudge (physical (Key p.1.1 p.1.2 KPressed)) p.2.

(** A locked session in front of a lit screen, with no modifier down. *)
Record typing_ready (s : LockScreen) (a : SessionActivity) : Prop := {
  ty_down : down (lk_matcher s) = 0;
  ty_chords : Forall (fun b => mc_mods b.1 <> 0) (bindings (lk_matcher s));
  ty_lit : ac_phase a = Lit }.

Lemma no_chord (m : ChordMatcher LockGesture) k :
  down m = 0 -> Forall (fun b => mc_mods b.1 <> 0) (bindings m) -> binding_hit m k = None.
Proof.
  intros Hd Hb. unfold binding_hit. destruct (List.find _ _) as [b|] eqn:Hf; [|done].
  apply List.find_some in Hf as [Hin Hh]. exfalso. apply andb_prop in Hh as [_ Hm%Z.eqb_eq].
  rewrite List.Forall_forall in Hb. apply (Hb b Hin). congruence.
Qed.

Lemma press_step p s a l :
  typing_ready s a -> of_keysym p.1.2 = None -> lk_locked s = Some l ->
  lock_step argon2_params argon2_hash (press p) s a =
    (LSGate Consume, type_key argon2_params argon2_hash p.1.2 (set_carry 0 s), set_last p.2 a).
Proof.
  intros [Hd Hb Hp] Hk Hl. destruct p as [[src k] now]. cbn [fst snd] in *. unfold press. cbn [lock_step fst snd].
  pose proof (lock_judge_physical argon2_params argon2_hash (Key src k KPressed) now s a) as Hj. cbv zeta in Hj.
  unfold note_physical in Hj. cbn [ac_phase set_last] in Hj. rewrite Hp in Hj. cbn [wake_consumes andb] in Hj. rewrite Hj.
  assert (observe (lk_matcher s) (physical (Key src k KPressed)) = lk_matcher s) as Ho
    by (unfold observe; cbn [si_origin si_kind physical]; by rewrite Hk).
  unfold matcher_event. rewrite Ho. unfold gate. cbn [si_origin si_kind physical]. rewrite Hk, no_chord by done. rewrite Hl.
  by destruct s.
Qed.

Lemma run_app ops1 ops2 s a :
  run (ops1 ++ ops2) s a =
    let '(tr1, s1, a1) := run ops1 s a in
    let '(tr2, s2, a2) := run ops2 s1 a1 in (tr1 ++ tr2, s2, a2).
Proof.
  revert s a. induction ops1 as [|op ops1 IH]; intros s a; simpl; [by destruct (run ops2 s a) as [[? ?] ?]|].
  destruct (lock_step _ _ op s a) as [[saw s1] a1]. rewrite IH.
  destruct (run ops1 s1 a1) as [[tr1 s2] a2]. by destruct (run ops2 s2 a2) as [[? ?] ?].
Qed.

(** What a run of presses leaves: the fields the typing does not touch. *)
Definition same_session (s s' : LockScreen) : Prop :=
  lk_matcher s' = lk_matcher s /\ lk_verifier s' = lk_verifier s /\ lk_journal s' = lk_journal s.

Lemma type_text_run text pre presses s a l :
  typing_ready s a -> lk_locked s = Some l -> attempt_text pre (ls_attempt l) ->
  Forall typable text -> str_len (pre ++ text) <= MAX_ATTEMPT_BYTES ->
  List.map (fun p => p.1.2) presses = List.map keysym_of text ->
  exists tr s' a' l', run (List.map press presses) s a = (tr, s', a') /\ Forall (eq (LSGate Consume)) tr
    /\ typing_ready s' a' /\ same_session s s' /\ lk_locked s' = Some l' /\ attempt_text (pre ++ text) (ls_attempt l').
Proof.
  revert pre presses s a l. induction text as [|c text IH]; intros pre presses s a l Hr Hl Hat Ht Hlen Hk.
  - destruct presses; [|done]. exists [], s, a, l. rewrite app_nil_r. by split_and!; [..|split_and!| |].
  - destruct presses as [|p presses]; [done|]. cbn [List.map] in Hk. injection Hk as Hkp Hk.
    inversion Ht as [|? ? Hc Ht']; subst. destruct (printable_keysym c Hc) as (Hpr & Hn1 & Hn2 & Hn3 & Hm).
    rewrite (cons_middle c pre text) in Hlen. rewrite app_assoc in Hlen.
    assert (str_len (pre ++ [c]) <= MAX_ATTEMPT_BYTES) as Hlc
      by (rewrite (str_len_app (pre ++ [c])) in Hlen; pose proof (str_len_nonneg text); lia).
    destruct (edit_attempt_text (keysym_of c) pre (ls_attempt l) Hat) as [He1 He2].
    unfold edit_text in He1, He2.
    rewrite (proj2 (Z.eqb_neq _ _) Hn1), (proj2 (Z.eqb_neq _ _) Hn2), (proj2 (Z.eqb_neq _ _) Hn3), Hpr in He1, He2.
    rewrite (proj2 (Z.leb_le _ _) Hlc) in He2. cbn [fst snd] in He1, He2.
    cbn [List.map]. unfold run. cbn [lock_run]. rewrite (press_step p s a l Hr); [|by rewrite Hkp|done].
    rewrite Hkp. unfold type_key. cbn [lk_locked set_carry]. rewrite Hl.
    destruct (edit_attempt (keysym_of c) (ls_attempt l)) as [sub att]. cbn [fst snd] in He1, He2. subst sub.
    destruct (IH (pre ++ [c]) presses (set_locked (Some {| ls_cause := ls_cause l; ls_attempt := att |}) (set_carry 0 s))
      (set_last p.2 a) {| ls_cause := ls_cause l; ls_attempt := att |}) as (tr & s' & a' & l' & Hrun & Htr & Hr' & Hs' & Hl' & Hat');
      [destruct Hr; by split|done|done|done|done|done|].
    unfold run in Hrun. rewrite Hrun. exists (LSGate Consume :: tr), s', a', l'.
    rewrite (cons_middle c pre text), app_assoc. split_and!; [done|by constructor|done|done|done|done].
Qed.
End typing.

(* ------------------------------------------------------------------------ *)
(** ** Idleness *)

(** The reference for the countdown the lock reads: when the human last touched
    the session, whether they are away, and what an absence is charged. *)
Definition idle_step (policy : SeatChangePolicy) (c : Instant * bool * Duration) (op : LockOp) : Instant * bool * Duration :=
  let '(last, away, carry) := c in
  match op with
  | LJudge input now => match si_origin input with Physical => (now, away, 0) | Emulated => c end
  | LSeat true _ => (last, true, carry)
  | LSeat false now =>
      (if away then now else last, false,
       match policy with PolicyIdle => duration_saturating_add carry (since now last) | _ => carry end)
  | LPanel op => let '(last, away) := touch_step (last, away) op in (last, away, carry)
  | _ => c
  end.

Section idle.
Context (argon2_params : Z -> Z -> Z -> bool)
        (argon2_hash : Z -> Z -> Z -> Bytes -> Bytes -> option Bytes).

Lemma type_key_frame k s :
  let s' := type_key argon2_params argon2_hash k s in
  lk_carry s' = lk_carry s /\ lk_idle_after s' = lk_idle_after s /\ lk_on_seat_change s' = lk_on_seat_change s.
Proof.
  cbv zeta. unfold type_key, lock_submit. destruct (lk_locked s); [|done]. destruct (edit_attempt _ _) as [[] ?]; cbn; [|done].
  by destruct (accepts _ _ _ _).
Qed.
Lemma lock_raise_frame c s :
  let s' := (lock_raise c s).2 in
  lk_carry s' = lk_carry s /\ lk_idle_after s' = lk_idle_after s /\ lk_on_seat_change s' = lk_on_seat_change s.
Proof. cbv zeta. unfold lock_raise. by destruct (lk_locked s). Qed.

Lemma lock_tick_cases now held s a :
  (lock_tick now held s a).2 = s \/ (lock_tick now held s a).2 = (lock_raise CauseIdle s).2.
Proof. unfold lock_tick. repeat case_match; auto. Qed.

Lemma note_physical_clock now a :
  ac_last (note_physical now a).2 = now /\ ac_seat_absent (note_physical now a).2 = ac_seat_absent a.
Proof. unfold note_physical. cbn. destruct (ac_phase a); cbn; try done. by destruct (past_deadline _ _). Qed.

Lemma lock_step_idle op s a :
  let '(_, s', a') := lock_step argon2_params argon2_hash op s a in
  (ac_last a', ac_seat_absent a', lk_carry s') = idle_step (lk_on_seat_change s) (ac_last a, ac_seat_absent a, lk_carry s) op
  /\ lk_idle_after s' = lk_idle_after s /\ lk_on_seat_change s' = lk_on_seat_change s.
Proof.
  destruct op as [input now|now held|absent now| | |op]; cbn [lock_step idle_step]; try done.
  - destruct input as [[] k]; [|done]. cbn [si_origin].
    pose proof (lock_judge_physical argon2_params argon2_hash k now s a) as Hj. cbv zeta in Hj. unfold physical in Hj.
    pose proof (note_physical_clock now a) as [Hc1 Hc2]. destruct (note_physical now a) as [wake a1]. cbn [fst snd] in *.
    rewrite Hj. clear Hj. destruct (_ && _); [by rewrite <- Hc1, <- Hc2|].
    destruct (matcher_event _ _) as [[g v] m]. set (s2 := set_matcher m _).
    destruct v as [[]|]; [pose proof (lock_raise_frame CauseChord s2) as (-> & -> & ->); by rewrite Hc1, Hc2|].
    destruct g; [|by rewrite Hc1, Hc2]. destruct (lk_locked s); [|by rewrite Hc1, Hc2].
    destruct k as [| | |? ks []| | | | | |]; try (by rewrite Hc1, Hc2).
    pose proof (type_key_frame ks s2) as (-> & -> & ->). by rewrite Hc1, Hc2.
  - pose proof (lock_raise_frame CauseIdle s) as (H1 & H2 & H3).
    destruct (lock_tick_cases now held s a) as [Hs|Hs]; destruct (lock_tick now held s a) as [b s1]; cbn in Hs; subst s1; [done|].
    by rewrite H1, H2, H3.
  - unfold lock_seat_absent. pose proof (lock_raise_frame CauseSeatChange s) as (Hr1 & Hr2 & Hr3).
    destruct absent, (lk_on_seat_change s) eqn:Hp; cbn; rewrite ?Hr1, ?Hr2, ?Hr3, ?Hp; try done; by destruct (ac_seat_absent a).
  - pose proof (blank_step_clock a op) as [Hc _]. cbv zeta in Hc. rewrite <- Hc. done.
Qed.

Lemma lock_run_idle ops s a :
  let '(_, s', a') := lock_run argon2_params argon2_hash ops s a in
  (ac_last a', ac_seat_absent a', lk_carry s') = fold_left (idle_step (lk_on_seat_change s)) ops (ac_last a, ac_seat_absent a, lk_carry s)
  /\ lk_idle_after s' = lk_idle_after s.
Proof.
  revert s a. induction ops as [|op ops IH]; intros s a; simpl; [done|].
  pose proof (lock_step_idle op s a) as Hs. destruct (lock_step _ _ op s a) as [[saw s1] a1].
  destruct Hs as (H1 & H2 & H3). specialize (IH s1 a1). destruct (lock_run _ _ ops s1 a1) as [[tr s2] a2].
  by rewrite H1, H2, H3 in IH.
Qed.
End idle.

(* ------------------------------------------------------------------------ *)
(** ** Properties *)

Section properties.
Context (argon2_params : Z -> Z -> Z -> bool)
        (argon2_hash : Z -> Z -> Z -> Bytes -> Bytes -> option Bytes).

(** C23: a locked session stays locked and keeps its apps out. Take any sequence
    of input of the human and of agents, rounds, switches of the seat and states
    of the panel, from a locked session. As long as no step is the human's
    pressing Return on an attempt the passphrase file accepts, the session
    stays locked, for the reason it was locked; and meanwhile whatever
    reaches an app is an agent's own event or the end of something that began
    before. *)
Theorem lock_holds (ops : list LockOp) (s : LockScreen) (a : SessionActivity) (l : LockedState)
  (Hlocked : lk_locked s = Some l)
  (Hnever : never_submits argon2_params argon2_hash ops s a) :
  let '(tr, s', _) := lock_run argon2_params argon2_hash ops s a in
  lock_cause s' = Some (ls_cause l)
  /\ Forall2 (fun op saw => forall input now, op = LJudge input now -> saw = LSGate Deliver ->
       si_origin input = Emulated \/ is_pairing_release (si_kind input) = true) ops tr.
Proof.
  revert s a l Hlocked Hnever. induction ops as [|op ops IH]; intros s a l Hl Hn; simpl.
  - unfold lock_cause. by rewrite Hl.
  - destruct Hn as [Hno Hn]. pose proof (lock_step_locked argon2_params argon2_hash op s a l Hl) as Hs.
    destruct (lock_step _ _ op s a) as [[saw s1] a1]. destruct Hs as [[(l1 & Hl1 & Hc)|]  Hd]; [|done].
    specialize (IH s1 a1 l1 Hl1 Hn). destruct (lock_run _ _ ops s1 a1) as [[tr s2] a2].
    destruct IH as [-> IH]. split; [by rewrite Hc|]. by constructor.
Qed.

(** C24: the right passphrase opens the lock. In front of a locked session whose
    screen is lit and no modifier is held, a human types the characters of any
    text the passphrase file accepts, each of them printable and all of
    them within the bound, then Return, at whatever pace: every one of the keys is
    kept from the apps, the session is unlocked at the last, and the journal
    has one accepted attempt and the unlocking. *)
Theorem passphrase_opens (s : LockScreen) (a : SessionActivity) (l : LockedState) (text : Str)
  (presses : list (KeySource * Z * Instant))
  (Hready : typing_ready s a)
  (Hlocked : lk_locked s = Some l /\ ls_attempt l = [])
  (Htext : Forall typable text /\ str_len text <= MAX_ATTEMPT_BYTES)
  (Hkeys : List.map (fun p => p.1.2) presses = List.map keysym_of text ++ [KEYSYM_RETURN])
  (Haccept : accepts argon2_params argon2_hash s (Utf8.encode text) = true) :
  let '(tr, s', _) := lock_run argon2_params argon2_hash (List.map press presses) s a in
  is_locked s' = false /\ Forall (eq (LSGate Consume)) tr
  /\ lk_journal s' = lk_journal s ++ [JAttempted true; JUnlocked].
Proof.
  destruct Hlocked as [Hl Ha], Htext as [Ht Hlen].
  apply List.map_eq_app in Hkeys as (ps1 & ps2 & -> & Hk1 & Hk2).
  destruct ps2 as [|p [|]]; [done| |done]. cbn [List.map] in Hk2. injection Hk2 as Hp.
  destruct (type_text_run argon2_params argon2_hash text [] ps1 s a l Hready Hl) as (tr & s1 & a1 & l1 & Hrun & Htr & Hr1 & (Hm & Hv & Hj) & Hl1 & Hat);
    [rewrite Ha; by split_and!; [|constructor|]|done|done|done|].
  rewrite List.map_app. pose proof (run_app argon2_params argon2_hash (List.map press ps1) (List.map press [p]) s a) as Happ.
  cbv beta zeta in Happ. rewrite Happ, Hrun. clear Happ. cbn [List.map lock_run].
  rewrite (press_step argon2_params argon2_hash p s1 a1 l1 Hr1); [|by rewrite Hp|done]. rewrite Hp.
  unfold type_key. cbn [lk_locked set_carry]. rewrite Hl1. unfold edit_attempt. rewrite Z.eqb_refl.
  unfold lock_submit. cbn [lk_locked set_locked ls_attempt].
  assert (accepts argon2_params argon2_hash (set_locked (Some {| ls_cause := ls_cause l1; ls_attempt := ls_attempt l1 |}) (set_carry 0 s1)) (ls_attempt l1) = true) as ->.
  { destruct Hat as (-> & _ & _). simpl app. unfold accepts in *. cbn [lk_verifier set_locked set_carry]. by rewrite Hv. }
  split; [done|]. split; [by apply Forall_app; split; [|repeat constructor]|].
  cbn. rewrite Hj. by rewrite <- app_assoc.
Qed.

(** The journal of the lock is truthful. Over any run from a session as it
    starts, what has been drained and what is still queued alternates between a
    lock with its cause and an unlock, every unlock comes right after an accepted
    attempt and every accepted attempt right before one, attempts are made
    only while locked, and what the journal says last is what the session is. *)
Theorem lock_journal_truthful (chord : ModChord) (idle_after : option Duration) (verifier : option PassphraseFile)
  (policy : SeatChangePolicy) (s0 : LockScreen) (a0 : SessionActivity) (ops : list LockOp)
  (Hnew : lock_new chord idle_after verifier policy = Some s0) :
  let '(tr, s, _) := lock_run argon2_params argon2_hash ops s0 a0 in
  journal_state false (drained tr ++ lk_journal s) = Some (is_locked s).
Proof.
  unfold lock_new in Hnew. destruct (matcher_new _) as [m|]; [|done]. injection Hnew as <-.
  pose proof (lock_run_journal argon2_params argon2_hash ops
    {| lk_locked := None; lk_matcher := m; lk_chord_spelling := spelling chord; lk_idle_after := idle_after;
       lk_verifier := verifier; lk_on_seat_change := policy; lk_carry := 0; lk_journal := [] |} a0 [] eq_refl) as Hj.
  by destruct (lock_run _ _ ops _ a0) as [[tr s] a].
Qed.

(** Nothing but the human postpones the idle lock. After any run, a round
    locks the session if and only if it is not locked, no picker holds it, the
    human's seat is here, a timeout is configured and has passed since the human
    last touched the session or came back to it, charged with the absences the
    policy charges. No app's inhibit, no agent's event and no state of the blank
    enters into it. *)
Theorem idle_lock_exact (ops : list LockOp) (s0 : LockScreen) (a0 : SessionActivity) (now : Instant) (held : bool) :
  let '(_, s, a) := lock_run argon2_params argon2_hash ops s0 a0 in
  let '(last, away, carry) :=
    fold_left (idle_step (lk_on_seat_change s0)) ops (ac_last a0, ac_seat_absent a0, lk_carry s0) in
  ((lock_tick now held s a).1 = true <->
     is_locked s = false /\ held = false /\ away = false
     /\ exists d, lk_idle_after s0 = Some d /\ d <= duration_saturating_add (since now last) carry)
  /\ ((lock_tick now held s a).1 = true -> lock_cause (lock_tick now held s a).2 = Some CauseIdle).
Proof.
  pose proof (lock_run_idle argon2_params argon2_hash ops s0 a0) as Hi.
  destruct (lock_run _ _ ops s0 a0) as [[tr s] a]. destruct Hi as [Hc Hafter].
  destruct (fold_left _ ops _) as [[last away] carry]. injection Hc as <- <- <-.
  unfold lock_tick. destruct (is_locked s) eqn:Hl; [naive_solver|]. destruct held; [naive_solver|].
  destruct (ac_seat_absent a); [naive_solver|]. rewrite Hafter. destruct (lk_idle_after s0) as [d|]; [|naive_solver].
  destruct (Z.ltb_spec (duration_saturating_add (since now (ac_last a)) (lk_carry s)) d) as [Hlt|Hge].
  - split; [|done]. split; [done|]. intros (_ & _ & _ & d' & [= <-] & Hle). lia.
  - unfold lock_raise. unfold is_locked in Hl. apply bool_decide_eq_false in Hl.
    destruct (lk_locked s) eqn:Hls; [by exfalso; apply Hl|]. cbn. naive_solver.
Qed.

Definition lock_typed (s : LockScreen) : Prop :=
  forall l, lk_locked s = Some l -> exists text, attempt_text text (ls_attempt l).

Lemma empty_text : attempt_text [] [].
Proof. by split_and!; [|constructor|]. Qed.

Lemma type_key_typed k s : lock_typed s -> lock_typed (type_key argon2_params argon2_hash k s).
Proof.
  unfold lock_typed, type_key. intros Ht. destruct (lk_locked s) as [l|] eqn:Hl; [|by rewrite Hl].
  destruct (Ht l eq_refl) as [text Hat]. destruct (edit_attempt_text k text (ls_attempt l) Hat) as [_ Hat'].
  destruct (edit_attempt k (ls_attempt l)) as [[] att]; unfold lock_submit; cbn [lk_locked set_locked];
    [destruct (accepts _ _ _ _); cbn|]; intros l' [= <-]; [exists []; apply empty_text|by eexists].
Qed.

Lemma lock_raise_typed c s : lock_typed s -> lock_typed (lock_raise c s).2.
Proof.
  unfold lock_typed, lock_raise. intros Ht. destruct (lk_locked s) eqn:Hl; cbn; [by rewrite Hl|].
  intros l [= <-]. exists []. apply empty_text.
Qed.

Lemma lock_step_typed op s a :
  lock_typed s -> lock_typed (lock_step argon2_params argon2_hash op s a).1.2.
Proof.
  intros Ht. destruct op as [input now|now held|absent now| | |op]; cbn [lock_step]; try done.
  - destruct input as [[] k]; [|done].
    pose proof (lock_judge_physical argon2_params argon2_hash k now s a) as Hj. cbv zeta in Hj. unfold physical in Hj.
    destruct (note_physical now a) as [wake a1]. rewrite Hj. clear Hj. destruct (_ && _); [done|].
    destruct (matcher_event _ _) as [[g v] m]. set (s2 := set_matcher m _). assert (lock_typed s2) as H2 by done.
    destruct v as [[]|]; [by apply lock_raise_typed|]. destruct g; [|done]. destruct (lk_locked s); [|done].
    destruct k as [| | |? ? []| | | | | |]; try done. by apply type_key_typed.
  - pose proof (lock_raise_typed CauseIdle s Ht).
    destruct (lock_tick_cases now held s a) as [Hs|Hs]; destruct (lock_tick now held s a); cbn in Hs; by subst.
  - unfold lock_seat_absent. pose proof (lock_raise_typed CauseSeatChange s Ht). by destruct (lk_on_seat_change s), absent.
Qed.

(** C27: the attempt is always text. Whatever is typed, cleared, submitted or
    interrupted, over any run from a session as it starts, a locked session's
    attempt is the UTF-8 encoding of a string of characters within the bound, never
    part of one; and each key edits it the way it edits the string: Backspace
    takes back the last whole character, Escape clears, a printable character
    with room is appended, Return alone submits, and nothing else changes it. *)
Theorem attempt_is_text (chord : ModChord) (idle_after : option Duration) (verifier : option PassphraseFile)
  (policy : SeatChangePolicy) (s0 : LockScreen) (a0 : SessionActivity) (ops : list LockOp) (l : LockedState)
  (Hnew : lock_new chord idle_after verifier policy = Some s0)
  (Hlocked : lk_locked (lock_run argon2_params argon2_hash ops s0 a0).1.2 = Some l) :
  exists text, attempt_text text (ls_attempt l)
    /\ forall k, (edit_attempt k (ls_attempt l)).1 = (edit_text k text).1
         /\ attempt_text (edit_text k text).2 (edit_attempt k (ls_attempt l)).2.
Proof.
  assert (lock_typed s0) as H0.
  { unfold lock_new in Hnew. destruct (matcher_new _); [|done]. injection Hnew as <-. by intros ? [=]. }
  assert (lock_typed (lock_run argon2_params argon2_hash ops s0 a0).1.2) as Ht.
  { clear Hnew Hlocked. revert s0 a0 H0. induction ops as [|op ops IH]; intros s0 a0 H0; simpl; [done|].
    pose proof (lock_step_typed op s0 a0 H0) as Hs. destruct (lock_step _ _ op s0 a0) as [[saw s1] a1].
    specialize (IH s1 a1 Hs). by destruct (lock_run _ _ ops s1 a1) as [[tr s2] a2]. }
  destruct (Ht l Hlocked) as [text Hat]. exists text. split; [done|]. intros k. by apply edit_attempt_text.
Qed.
End properties.

(* ------------------------------------------------------------------------ *)
(** ** Witnesses *)

Definition sample_chord : ModChord := {| mc_mods := 5; mc_trigger := trigger "delete" 111 65535 |}.
Definition sample_screen : LockScreen :=
  {| lk_locked := None; lk_matcher := {| bindings := [(sample_chord, GLock)]; down := 0; consumed := ∅ |};
     lk_chord_spelling := str "ctrl+alt+delete"; lk_idle_after := Some (from_secs 600);
     lk_verifier := Some {| pf_memory_kib := 8; pf_time_cost := 1; pf_parallelism := 1; pf_salt := []; pf_digest := [104; 105] |};
     lk_on_seat_change := PolicyIdle; lk_carry := 0; lk_journal := [] |}.
Definition sample_locked : LockScreen := (lock_raise CauseChord sample_screen).2.
Definition sample_activity : SessionActivity := activity_new None 0.
(** A derivation that is the attempt itself, for the examples. *)
Definition plain_hash (_ _ _ : Z) (attempt _ : Bytes) : option Bytes := Some attempt.
Definition any_params (_ _ _ : Z) : bool := true.
Definition key_press (k : Z) : LockOp := LJudge (physical (Key NoDevice k KPressed)) 1.

Lemma lock_holds_witness :
  let ops := [key_press 104; LTick (from_secs 900) false; LSeat true 5; LSeat false 6; key_press 65293] in
  lock_cause (lock_run any_params plain_hash ops sample_locked sample_activity).1.2 = Some CauseChord.
Proof.
  cbv zeta. set (ops := [key_press 104; LTick (from_secs 900) false; LSeat true 5; LSeat false 6; key_press 65293]).
  pose proof (lock_holds any_params plain_hash ops sample_locked sample_activity
    {| ls_cause := CauseChord; ls_attempt := [] |} eq_refl) as H.
  assert (never_submits any_params plain_hash ops sample_locked sample_activity) as Hn.
  { unfold ops. repeat split; try (intros (src & now & l & Heq & Hl & Hacc & _); vm_compute in Hl, Hacc; simplify_eq; vm_compute in Hacc; discriminate). }
  specialize (H Hn). destruct (lock_run _ _ ops _ _) as [[tr s'] a']. exact (proj1 H).
Defined.

Lemma passphrase_opens_witness :
  is_locked (lock_run any_params plain_hash (List.map press [((NoDevice, 104), 1); ((NoDevice, 105), 2); ((NoDevice, 65293), 3)])
    sample_locked sample_activity).1.2 = false.
Proof.
  pose proof (passphrase_opens any_params plain_hash sample_locked sample_activity
    {| ls_cause := CauseChord; ls_attempt := [] |} (str "hi") [((NoDevice, 104), 1); ((NoDevice, 105), 2); ((NoDevice, 65293), 3)]) as H.
  destruct (lock_run _ _ _ _ _) as [[tr s'] a']. apply H.
  - split; [reflexivity| |reflexivity]. constructor; [discriminate|constructor].
  - split; reflexivity.
  - split; [|discriminate]. constructor; [|constructor; [|constructor]]; (split; [left; split; [discriminate|reflexivity]|reflexivity]).
  - reflexivity.
  - vm_compute. reflexivity.
Defined.

Lemma lock_journal_truthful_witness :
  let ops := [LTick (from_secs 600) false; LTake; key_press 104; key_press 65293; key_press 104; key_press 105; key_press 65293] in
  journal_state false
    (drained (lock_run any_params plain_hash ops sample_screen sample_activity).1.1
     ++ lk_journal (lock_run any_params plain_hash ops sample_screen sample_activity).1.2) = Some false.
Proof.
  cbv zeta. set (ops := [LTick (from_secs 600) false; LTake; key_press 104; key_press 65293; key_press 104; key_press 105; key_press 65293]).
  pose proof (lock_journal_truthful any_params plain_hash sample_chord (Some (from_secs 600))
    (Some {| pf_memory_kib := 8; pf_time_cost := 1; pf_parallelism := 1; pf_salt := []; pf_digest := [104; 105] |})
    PolicyIdle sample_screen sample_activity ops) as H.
  assert (is_locked (lock_run any_params plain_hash ops sample_screen sample_activity).1.2 = false) as Hl by (vm_compute; reflexivity).
  destruct (lock_run _ _ ops _ _) as [[tr s'] a']. cbn [fst snd] in *. rewrite H; [by rewrite Hl|]. vm_compute. reflexivity.
Defined.

Lemma attempt_is_text_witness :
  exists text, attempt_text text [195; 169] /\ (edit_text KEYSYM_BACKSPACE text).2 = [].
Proof.
  destruct (attempt_is_text any_params plain_hash sample_chord (Some (from_secs 600))
    (Some {| pf_memory_kib := 8; pf_time_cost := 1; pf_parallelism := 1; pf_salt := []; pf_digest := [104; 105] |})
    PolicyIdle sample_screen sample_activity [LTick (from_secs 600) false; key_press 233]
    {| ls_cause := CauseIdle; ls_attempt := [195; 169] |}) as (text & Hat & Hk).
  - vm_compute. reflexivity.
  - vm_compute. reflexivity.
  - exists text. split; [exact Hat|]. destruct (Hk KEYSYM_BACKSPACE) as [_ (He & _)].
    change ((edit_attempt KEYSYM_BACKSPACE [195; 169]).2) with (pop_char [195; 169]) in He.
    change (pop_char [195; 169]) with (@nil Z) in He. destruct ((edit_text KEYSYM_BACKSPACE text).2) as [|c t]; [done|].
    exfalso. pose proof (Utf8.encode_char_nonempty c) as Hn. cbn in He. destruct (Utf8.encode_char c); simpl in *; [lia|done].
Defined.
