(* ===== verification/LockCard.v ===== *)
(** * The lock card and its surface

    [crates/vitrin-core/src/lock/render.rs] and the [LockSurface] of [lock/mod.rs]:
    what a locked session shows, and how it is laid over whatever the view held.
    [None] is a panic. *)

From S2P Require Import Prelude Text Transcript Capture Canvas Atlas Paint Lettering Lock Card Consent.

Definition TITLE_PX : Z := 1102053376.
Definition LABEL_PX : Z := 1093664768.
Definition VALUE_PX : Z := 1096810496.
Definition CARD_WIDTH : Z := 640.
Definition BORDER : Z := 2.
Definition PAD_X : Z := 28.
Definition PAD_TOP : Z := 24.
Definition PAD_BOTTOM : Z := 24.
Definition GROUP_GAP : Z := 14.
Definition LABEL_GAP : Z := 2.
Definition RULE_H : Z := 1.
Definition MAX_VALUE_LINES : nat := 4.
Definition CONTENT_X : Z := BORDER + PAD_X.
Definition CONTENT_W : Z := CARD_WIDTH - 2 * CONTENT_X.
Definition COVER_RGBA : list Z := [10; 11; 15; 255].
Definition CARD_BG : list Z := [22; 24; 31; 255].
Definition ACCENT : list Z := [208; 154; 60; 255].
Definition TITLE_FG : list Z := [246; 247; 250].
Definition MUTED_FG : list Z := [147; 158; 176].
Definition VALUE_FG : list Z := [228; 233; 242].
Definition WARN_FG : list Z := [232; 186; 98].
Definition RULE_RGBA : list Z := [43; 48; 59; 255].

Definition TITLE : Str := str "Session locked".
Definition SUBTITLE : Str := str "Your keyboard and mouse reach no application until you unlock.".
Definition LABEL_LOCKED_BY : Str := str "Locked by".
Definition LABEL_REALMS : Str := str "Realms held".
Definition LABEL_UNLOCK : Str := str "To unlock".
Definition LABEL_STILL_RUNNING : Str := str "Still running".
Definition CAUSE_CHORD : Str := str "the lock chord".
Definition CAUSE_IDLE : Str := str "no physical input for the configured idle time".
Definition CAUSE_SEAT : Str := str "the seat went to another VT, and this session is set to lock when it does".
Definition UNLOCK_PASSPHRASE : Str := str "Type the session passphrase and press Enter. Backspace edits; Escape clears.".
Definition UNLOCK_ANY : Str :=
  str "Press Enter. No passphrase is configured, so this is a privacy screen and not an authentication boundary.".
Definition STILL_RUNNING_1 : Str :=
  str "Agents holding grants keep observing and acting in these realms. A lock takes YOUR input away, not their authority.".
Definition STILL_RUNNING_2_PREFIX : Str := str "To revoke every grant in the session, hold ".
Definition STILL_RUNNING_2_SUFFIX : Str := str " - the dead-man chord still works while locked.".
Definition NO_REALMS : Str := str "none".

(** [LockContent]. *)
Record LockContent : Type := {
  lc_cause : LockCause;
  lc_realms : list Str;
  lc_unlock : UnlockMethod;
  lc_deadman_chord : Str }.
#[export] Instance LockContent_eq_dec : EqDecision LockContent.
Proof. solve_decision. Defined.

Record LockCard : Type := { lcd_rgba : list Z; lcd_width : Z; lcd_height : Z }.
Inductive LockRow : Type := LSpace (n : Z) | LRule | LLine (text : Str) (px : Z) (rgb : list Z).

Definition comma : Str := str ", ".
Fixpoint join_comma (l : list Str) : Str :=
  match l with [] => [] | [s] => s | s :: l => s ++ comma ++ join_comma l end.
Definition realm_list (realms : list Str) : Str := match realms with [] => NO_REALMS | _ => join_comma realms end.

Section card.
Context (face : Face) (atlas : Atlas).

Definition lock_block (s : Str) (px : Z) (rgb : list Z) : list LockRow :=
  List.map (fun l => LLine l px rgb) (wrap face atlas s px CONTENT_W MAX_VALUE_LINES).
Definition lock_field (label value : Str) (rgb : list Z) : list LockRow :=
  LLine label LABEL_PX MUTED_FG :: LSpace LABEL_GAP :: lock_block value VALUE_PX rgb ++ [LSpace GROUP_GAP].

(** [rows]. *)
Definition lock_rows (c : LockContent) : list LockRow :=
  LLine TITLE TITLE_PX TITLE_FG :: LSpace 6 :: lock_block SUBTITLE LABEL_PX MUTED_FG
  ++ [LSpace GROUP_GAP; LRule; LSpace GROUP_GAP]
  ++ lock_field LABEL_LOCKED_BY match lc_cause c with CauseChord => CAUSE_CHORD | CauseIdle => CAUSE_IDLE | CauseSeatChange => CAUSE_SEAT end VALUE_FG
  ++ lock_field LABEL_REALMS (realm_list (lc_realms c)) VALUE_FG
  ++ lock_field LABEL_UNLOCK match lc_unlock c with UnlockPassphrase => UNLOCK_PASSPHRASE | UnlockAnyKey => UNLOCK_ANY end VALUE_FG
  ++ [LRule; LSpace GROUP_GAP; LLine LABEL_STILL_RUNNING LABEL_PX MUTED_FG; LSpace LABEL_GAP]
  ++ lock_block STILL_RUNNING_1 VALUE_PX WARN_FG ++ [LSpace 6]
  ++ lock_block (STILL_RUNNING_2_PREFIX ++ lc_deadman_chord c ++ STILL_RUNNING_2_SUFFIX) VALUE_PX WARN_FG.

Definition lock_row_height (row : LockRow) : Z :=
  match row with LSpace n => n | LRule => RULE_H | LLine _ px _ => lm_height (line_metrics face px) end.

Fixpoint draw_lock_rows (height : Z) (rows : list LockRow) (y : Z) (pixels : Pixels) : option Pixels :=
  match rows with
  | [] => Some pixels
  | row :: rows =>
      pixels ←
        match row with
        | LSpace _ => Some pixels
        | LRule => fill_rect CARD_WIDTH height (rect CONTENT_X y CONTENT_W RULE_H) RULE_RGBA pixels
        | LLine s px rgb =>
            draw face atlas CARD_WIDTH height s px CONTENT_X (i32_wrap (y + i32_wrap (lm_ascent (line_metrics face px)))) rgb pixels
        end;
      draw_lock_rows height rows (i32_wrap (y + i32_wrap (lock_row_height row))) pixels
  end.

(** [rasterize]. *)
Definition lock_rasterize (c : LockContent) : option LockCard :=
  let rows := lock_rows c in
  let height := u32_wrapping_add (PAD_TOP + PAD_BOTTOM + 2 * BORDER)
                  (fold_left (fun h row => u32_wrapping_add h (lock_row_height row)) rows 0) in
  let rgba := repeat 0 (Z.to_nat (CARD_WIDTH * height * BYTES_PER_PIXEL)) in
  let card rgba := {| lcd_rgba := rgba; lcd_width := CARD_WIDTH; lcd_height := height |} in
  if negb (canvas_new rgba CARD_WIDTH height) then Some (card rgba)
  else
    rgba ← fill_rect CARD_WIDTH height (rect 0 0 CARD_WIDTH height) CARD_BG rgba;
    rgba ← stroke_rect CARD_WIDTH height (rect 0 0 CARD_WIDTH height) ACCENT BORDER rgba;
    rgba ← draw_lock_rows height rows (BORDER + PAD_TOP) rgba;
    Some (card rgba).
End card.

(* ------------------------------------------------------------------------ *)
(** ** The surface *)

Record LockSurface : Type := {
  lf_content : option LockContent;
  lf_generation : Z;
  lf_card : option LockCard;
  lf_card_generation : Z;
  lf_indicator : TrustedIndicator }.

Definition lock_surface_new (indicator : TrustedIndicator) : LockSurface :=
  {| lf_content := None; lf_generation := 0; lf_card := None; lf_card_generation := 0; lf_indicator := indicator |}.
Definition lock_set_content (c : option LockContent) (card : option LockCard) (s : LockSurface) : LockSurface :=
  {| lf_content := c; lf_generation := u64_wrapping_add (lf_generation s) 1; lf_card := card;
     lf_card_generation := lf_card_generation s; lf_indicator := lf_indicator s |}.

(** [raise], [lower], [is_raised]. *)
Definition lock_surface_raise (c : LockContent) (s : LockSurface) : LockSurface :=
  if bool_decide (lf_content s = Some c) then s else lock_set_content (Some c) (lf_card s) s.
Definition lock_surface_lower (s : LockSurface) : LockSurface :=
  match lf_content s with Some _ => lock_set_content None None s | None => s end.
Definition is_raised (s : LockSurface) : bool := bool_decide (lf_content s <> None).

Section surface.
Context (face : Face) (atlas : Atlas).

Definition lock_card (s : LockSurface) : option (option LockCard * LockSurface) :=
  match lf_content s with
  | None => Some (None, s)
  | Some c =>
      s ← (if bool_decide (lf_card s = None) || negb (lf_card_generation s =? lf_generation s)
           then card ← lock_rasterize face atlas c;
                Some {| lf_content := lf_content s; lf_generation := lf_generation s; lf_card := Some card;
                        lf_card_generation := lf_generation s; lf_indicator := lf_indicator s |}
           else Some s);
      Some (lf_card s, s)
  end.
Definition lock_card_origin (view_width view_height : Z) (s : LockSurface) : option (option (Z * Z) * LockSurface) :=
  '(card, s) ← lock_card s;
  Some (option_map (fun c => centered (lcd_width c) (lcd_height c) view_width view_height) card, s).

Definition lock_draw_over (indicator : TrustedIndicator) (card : LockCard) (width height : Z) (view : Pixels) : option Pixels :=
  let '(x, y) := centered (lcd_width card) (lcd_height card) width height in
  if negb (canvas_new view width height) then Some view
  else
    view ← fill_rect width height (rect 0 0 width height) COVER_RGBA view;
    let t := TRUST_FRAME_THICKNESS in
    let frame := rect (x - t) (y - t) (u32_sat_add (lcd_width card) (2 * t)) (u32_sat_add (lcd_height card) (2 * t)) in
    view ← stroke_rect width height frame (indicator_color indicator) t view;
    blit_opaque width height (lcd_rgba card) (lcd_width card) (lcd_height card) x y view.

Definition lock_composite_over (view : Pixels) (width height : Z) (s : LockSurface) : option (Pixels * LockSurface) :=
  '(card, s) ← lock_card s;
  match card with
  | None => Some (view, s)
  | Some card => view ← lock_draw_over (lf_indicator s) card width height view; Some (view, s)
  end.
End surface.

(* ------------------------------------------------------------------------ *)
(** ** The card is drawn *)

Fixpoint lock_heights (face : Face) (rows : list LockRow) : Z :=
  match rows with [] => 0 | row :: rows => lock_row_height face row + lock_heights face rows end.
Definition lock_row_ok (row : LockRow) : Prop :=
  match row with LSpace n => 0 <= n <= 4096 | LRule => True | LLine _ _ rgb => colour rgb end.

Section rows.
Context (face : Face) (atlas : Atlas) (Hlines : lines_ok face).

Lemma lock_row_height_bounds row : lock_row_ok row -> 0 <= lock_row_height face row <= 4096.
Proof using Hlines.
  intros Hr. destruct row as [n| |s px rgb]; cbn [lock_row_height lock_row_ok] in *; [done|unfold RULE_H; lia|].
  split; [apply line_metrics_bounds|apply Hlines].
Qed.
Lemma lock_heights_bounds rows : Forall lock_row_ok rows -> 0 <= lock_heights face rows <= 4096 * Z.of_nat (length rows).
Proof using Hlines.
  induction 1 as [|row rows Hr _ IH]; cbn [lock_heights length]; [lia|]. pose proof (lock_row_height_bounds row Hr). lia.
Qed.
Lemma lock_height_sum rows : Forall lock_row_ok rows -> Z.of_nat (length rows) <= 1000 ->
  fold_left (fun h row => u32_wrapping_add h (lock_row_height face row)) rows 0 = lock_heights face rows.
Proof using Hlines.
  intros Hr Hn. assert (forall acc, 0 <= acc -> acc + 4096 * Z.of_nat (length rows) <= 1073741824 ->
    fold_left (fun h row => u32_wrapping_add h (lock_row_height face row)) rows acc = acc + lock_heights face rows) as H;
    [|rewrite (H 0) by lia; lia].
  clear Hn. induction Hr as [|row rows Hrow _ IH]; intros acc Ha Hsum; cbn [fold_left lock_heights length] in *; [lia|].
  pose proof (lock_row_height_bounds row Hrow).
  assert (u32_wrapping_add acc (lock_row_height face row) = acc + lock_row_height face row) as ->
    by (unfold u32_wrapping_add, u32_max; apply Z.mod_small; lia).
  rewrite IH; lia.
Qed.

Lemma draw_lock_rows_spec height rows y out :
  face_ok face -> atlas_ok atlas -> 0 <= height -> Forall lock_row_ok rows -> 0 <= y -> y + 4096 * Z.of_nat (length rows) <= 1073741824 ->
  let len := (Z.to_nat height * Z.to_nat CARD_WIDTH * 4)%nat in
  buffer len out -> all_opaque out ->
  exists out', draw_lock_rows face atlas height rows y out = Some out' /\ buffer len out' /\ all_opaque out'.
Proof using Hlines.
  intros Hface Hatlas Hh Hr Hy Hsum len. revert y out Hy Hsum.
  induction Hr as [|row rows Hrow _ IH]; intros y out Hy Hsum Hb Ha; cbn [draw_lock_rows length] in *; [by eauto|].
  pose proof (lock_row_height_bounds row Hrow) as Hb'.
  rewrite (i32_wrap_id (lock_row_height face row)), i32_wrap_id by (unfold fits_i32, i32_min; lia).
  destruct row as [n| |s px rgb]; cbn [lock_row_ok] in Hrow.
  - apply IH; [lia|lia|done|done].
  - destruct (steady_fill CARD_WIDTH height ltac:(done) Hh (rect CONTENT_X y CONTENT_W RULE_H) RULE_RGBA ltac:(solve_colour) out Hb Ha)
      as (out1 & -> & Hb1 & Ha1). apply IH; [lia|lia|done|done].
  - destruct (steady_draw CARD_WIDTH height ltac:(done) Hh face atlas Hface Hatlas s px CONTENT_X
      (i32_wrap (y + i32_wrap (lm_ascent (line_metrics face px)))) rgb Hrow out Hb Ha) as (out1 & -> & Hb1 & Ha1).
    apply IH; [lia|lia|done|done].
Qed.

Lemma lock_block_ok s px rgb : colour rgb -> Forall lock_row_ok (lock_block face atlas s px rgb).
Proof using. clear Hlines. intros Hc. apply Forall_fmap, Forall_forall. done. Qed.
Lemma lock_block_length s px rgb : (length (lock_block face atlas s px rgb) <= 4)%nat.
Proof using. clear Hlines. unfold lock_block. rewrite List.length_map. apply (wrap_length face atlas px CONTENT_W s MAX_VALUE_LINES). Qed.
Lemma lock_field_ok label value rgb : colour rgb -> Forall lock_row_ok (lock_field face atlas label value rgb).
Proof using.
  clear Hlines. intros Hc. unfold lock_field. constructor; [solve_colour|]. constructor; [done|]. apply Forall_app. split; [by apply lock_block_ok|by constructor].
Qed.
Lemma lock_field_length label value rgb : (length (lock_field face atlas label value rgb) <= 7)%nat.
Proof using.
  clear Hlines. unfold lock_field. cbn [length]. rewrite length_app. pose proof (lock_block_length value VALUE_PX rgb). simpl. lia.
Qed.
Lemma lock_rows_ok c : Forall lock_row_ok (lock_rows face atlas c) /\ (length (lock_rows face atlas c) <= 50)%nat.
Proof using.
  clear Hlines. unfold lock_rows.
  pose proof (lock_block_length SUBTITLE LABEL_PX MUTED_FG) as L1. pose proof (lock_block_ok SUBTITLE LABEL_PX MUTED_FG ltac:(solve_colour)) as R1.
  revert L1 R1. generalize (lock_block face atlas SUBTITLE LABEL_PX MUTED_FG). intros b1 L1 R1.
  pose proof (lock_block_length STILL_RUNNING_1 VALUE_PX WARN_FG) as L2. pose proof (lock_block_ok STILL_RUNNING_1 VALUE_PX WARN_FG ltac:(solve_colour)) as R2.
  revert L2 R2. generalize (lock_block face atlas STILL_RUNNING_1 VALUE_PX WARN_FG). intros b2 L2 R2.
  generalize (STILL_RUNNING_2_PREFIX ++ lc_deadman_chord c ++ STILL_RUNNING_2_SUFFIX). intros chord.
  pose proof (lock_block_length chord VALUE_PX WARN_FG) as L3. pose proof (lock_block_ok chord VALUE_PX WARN_FG ltac:(solve_colour)) as R3.
  revert L3 R3. generalize (lock_block face atlas chord VALUE_PX WARN_FG). intros b3 L3 R3.
  generalize (match lc_cause c with CauseChord => CAUSE_CHORD | CauseIdle => CAUSE_IDLE | CauseSeatChange => CAUSE_SEAT end). intros cause.
  generalize (realm_list (lc_realms c)). intros names.
  generalize (match lc_unlock c with UnlockPassphrase => UNLOCK_PASSPHRASE | UnlockAnyKey => UNLOCK_ANY end). intros how.
  pose proof (lock_field_length LABEL_LOCKED_BY cause VALUE_FG) as L4. pose proof (lock_field_ok LABEL_LOCKED_BY cause VALUE_FG ltac:(solve_colour)) as R4.
  pose proof (lock_field_length LABEL_REALMS names VALUE_FG) as L5. pose proof (lock_field_ok LABEL_REALMS names VALUE_FG ltac:(solve_colour)) as R5.
  pose proof (lock_field_length LABEL_UNLOCK how VALUE_FG) as L6. pose proof (lock_field_ok LABEL_UNLOCK how VALUE_FG ltac:(solve_colour)) as R6.
  revert L4 R4 L5 R5 L6 R6. generalize (lock_field face atlas LABEL_LOCKED_BY cause VALUE_FG), (lock_field face atlas LABEL_REALMS names VALUE_FG),
    (lock_field face atlas LABEL_UNLOCK how VALUE_FG), TITLE, LABEL_STILL_RUNNING. intros f4 f5 f6 title still L4 R4 L5 R5 L6 R6.
  split; [|cbn [length]; rewrite !length_app; cbn [length]; lia].
  constructor; [solve_colour|]. constructor; [cbn; lia|]. rewrite !Forall_app.
  split_and!; try done; repeat (constructor; [first [solve_colour|cbn; unfold GROUP_GAP, LABEL_GAP; lia]|]); constructor.
Qed.
End rows.

Definition lock_card_ok (card : LockCard) : Prop :=
  lcd_width card = CARD_WIDTH /\ 0 <= lcd_height card <= 1000000
  /\ Z.of_nat (length (lcd_rgba card)) = lcd_width card * lcd_height card * BYTES_PER_PIXEL
  /\ Forall is_u8 (lcd_rgba card) /\ all_opaque (lcd_rgba card).

Lemma lock_rasterize_ok face atlas c :
  assets_ok face atlas -> exists card, lock_rasterize face atlas c = Some card /\ lock_card_ok card.
Proof.
  intros [Hface Hatlas _ Hlines]. destruct (lock_rows_ok face atlas c) as [Hr Hn].
  unfold lock_rasterize. cbv zeta. rewrite lock_height_sum by (done || lia). pose proof (lock_heights_bounds face Hlines _ Hr) as Hnn.
  assert (u32_wrapping_add (PAD_TOP + PAD_BOTTOM + 2 * BORDER) (lock_heights face (lock_rows face atlas c)) = 52 + lock_heights face (lock_rows face atlas c)) as ->
    by (unfold u32_wrapping_add, u32_max, PAD_TOP, PAD_BOTTOM, BORDER; rewrite Z.mod_small; lia).
  set (height := 52 + _). assert (0 <= height <= 1000000) as Hh by (unfold height; lia). clearbody height.
  set (len := (Z.to_nat height * Z.to_nat CARD_WIDTH * 4)%nat).
  set (n := Z.to_nat _). assert (n = len) as -> by (unfold n, len, CARD_WIDTH, BYTES_PER_PIXEL; lia).
  rewrite (proj2 (canvas_new_buffer CARD_WIDTH height ltac:(done) ltac:(lia) (repeat 0 len))) by apply repeat_length. cbn [negb].
  destruct (fresh_canvas CARD_WIDTH height CARD_BG ltac:(done) ltac:(lia) ltac:(solve_colour) _ (zeros_buffer len)) as (filled & -> & Hbf & Haf).
  cbn [mbind option_bind].
  destruct (steady_stroke CARD_WIDTH height ltac:(done) ltac:(lia) (rect 0 0 CARD_WIDTH height) ACCENT BORDER ltac:(solve_colour)) with (out := filled)
    as (out1 & -> & Hb1 & Ha1); [unfold fits_i32, i32_min, BORDER, CARD_WIDTH; cbn [rect pr_x pr_y pr_w pr_h]; lia..|done|done|].
  cbn [mbind option_bind].
  destruct (draw_lock_rows_spec face atlas Hlines height (lock_rows face atlas c) (BORDER + PAD_TOP) out1) as (out2 & -> & Hb2 & Ha2);
    [done|done|lia|done|unfold BORDER, PAD_TOP; lia|unfold BORDER, PAD_TOP; lia|done|done|].
  cbn [mbind option_bind]. eexists. split; [reflexivity|]. unfold lock_card_ok. cbn [lcd_rgba lcd_width lcd_height].
  destruct Hb2 as [Hl Hu]. split_and!; [done|lia|lia| |done|done]. rewrite Hl. unfold len, CARD_WIDTH, BYTES_PER_PIXEL. lia.
Qed.

(* ------------------------------------------------------------------------ *)
(** ** The surface, and what it lays over the view *)

(** A raster kept for the current generation is the content's. *)
Record lock_surface_wf (face : Face) (atlas : Atlas) (s : LockSurface) : Prop := {
  lw_generations : 0 <= lf_card_generation s <= lf_generation s;
  lw_fresh : forall card c, lf_card s = Some card -> lf_card_generation s = lf_generation s -> lf_content s = Some c ->
    lock_rasterize face atlas c = Some card }.

Lemma lock_surface_new_wf face atlas indicator : lock_surface_wf face atlas (lock_surface_new indicator).
Proof. split; simpl; done. Qed.

Lemma lock_set_content_wf face atlas c card s :
  lock_surface_wf face atlas s -> lf_generation s < u64_max -> lock_surface_wf face atlas (lock_set_content c card s).
Proof.
  intros [Hg _] Hmax. assert (u64_wrapping_add (lf_generation s) 1 = lf_generation s + 1) as He
    by (unfold u64_wrapping_add; apply Z.mod_small; unfold u64_max in *; lia).
  split; cbn [lock_set_content lf_card_generation lf_generation lf_card lf_content]; rewrite He; [lia|]. intros ?? _ Heq. lia.
Qed.
Lemma lock_surface_raise_wf face atlas c s :
  lock_surface_wf face atlas s -> lf_generation s < u64_max -> lock_surface_wf face atlas (lock_surface_raise c s).
Proof. intros Hwf Hmax. unfold lock_surface_raise. case_bool_decide; [done|]. by apply lock_set_content_wf. Qed.
Lemma lock_surface_lower_wf face atlas s :
  lock_surface_wf face atlas s -> lf_generation s < u64_max -> lock_surface_wf face atlas (lock_surface_lower s).
Proof. intros Hwf Hmax. unfold lock_surface_lower. destruct (lf_content s); [|done]. by apply lock_set_content_wf. Qed.

Lemma lock_card_spec face atlas s :
  assets_ok face atlas -> lock_surface_wf face atlas s ->
  exists card s', lock_card face atlas s = Some (card, s') /\ lock_surface_wf face atlas s'
    /\ lf_content s' = lf_content s /\ lf_indicator s' = lf_indicator s /\ lf_generation s' = lf_generation s
    /\ match lf_content s with
       | None => card = None
       | Some c => exists k, card = Some k /\ lock_rasterize face atlas c = Some k /\ lock_card_ok k
       end.
Proof.
  intros Hassets Hwf. pose proof Hwf as [Hg Hf]. unfold lock_card. destruct (lf_content s) as [c|] eqn:Hc; [|by exists None, s].
  destruct (lock_rasterize_ok face atlas c Hassets) as (k & Hk & Hok). destruct (_ || _) eqn:Hstale.
  - rewrite Hk. cbn [mbind option_bind]. eexists _, _. split; [reflexivity|]. cbn [lf_card lf_content lf_indicator lf_generation].
    split_and!; try done; [|by eauto]. split; cbn; [lia|]. congruence.
  - apply orb_false_elim in Hstale as [Hn He]. apply bool_decide_eq_false in Hn. apply negb_false_iff, Z.eqb_eq in He.
    cbn [mbind option_bind]. destruct (lf_card s) as [k'|] eqn:Hk'; [|done]. eexists _, s. split; [reflexivity|].
    split_and!; try done. exists k. specialize (Hf k' c eq_refl He eq_refl). split_and!; congruence.
Qed.

(** A byte of the view with the lock's card over it: nothing of the view is left. *)
Definition lock_at (indicator : TrustedIndicator) (card : LockCard) (width height : Z) (j : nat) (v : Z) : Z :=
  let '(x, y) := centered (lcd_width card) (lcd_height card) width height in
  let w := Z.to_nat width in
  let t := TRUST_FRAME_THICKNESS in
  if in_prect w (rect x y (lcd_width card) (lcd_height card)) j then blitted width (lcd_rgba card) (lcd_width card) x y j v
  else if in_prect w (rect (x - t) (y - t) (lcd_width card + 2 * t) (lcd_height card + 2 * t)) j
  then solid (indicator_color indicator) j v
  else solid COVER_RGBA j v.

Lemma lock_at_blind indicator card width height j v v' : lock_at indicator card width height j v = lock_at indicator card width height j v'.
Proof. unfold lock_at. by destruct (centered _ _ _ _). Qed.

(** A fill of the whole view, at any of its bytes. *)
Lemma whole_prect w h j : 0 <= w -> 0 <= h -> (j < Z.to_nat h * Z.to_nat w * 4)%nat -> in_prect (Z.to_nat w) (rect 0 0 w h) j = true.
Proof.
  intros Hw Hh Hj. destruct (px_y_lt w h Hw Hh j Hj) as [Hx Hy]. unfold in_prect, rect_contains. cbn [rect pr_x pr_y pr_w pr_h].
  rewrite !Z.sub_0_r. rewrite (proj2 (Z.leb_le _ _)), (proj2 (Z.leb_le _ _)), (proj2 (Z.ltb_lt _ _)), (proj2 (Z.ltb_lt _ _)) by lia. done.
Qed.

Lemma imap_imap (f g : nat -> Z -> Z) (l : list Z) : imap f (imap g l) = imap (fun j v => f j (g j v)) l.
Proof. apply list_eq. intros i. rewrite !list_lookup_imap. by destruct (l !! i). Qed.

Lemma lock_draw_over_maps indicator card width height :
  indicator_ok indicator -> lock_card_ok card -> 0 <= width <= 1073741824 -> 0 <= height <= 1073741824 ->
  maps (Z.to_nat height * Z.to_nat width * 4) (lock_at indicator card width height) (lock_draw_over indicator card width height).
Proof.
  intros Hind (Hcw & Hch & Hlen & Hu & _) Hw Hh.
  pose proof (centered_bounds (lcd_width card) (lcd_height card) width height) as Hb. rewrite Hcw in Hb.
  specialize (Hb ltac:(unfold CARD_WIDTH; lia) Hch Hw Hh).
  unfold lock_draw_over, lock_at. rewrite Hcw.
  destruct (centered CARD_WIDTH (lcd_height card) width height) as [x y]. cbn [fst snd] in Hb. cbv zeta.
  set (t := TRUST_FRAME_THICKNESS). assert (t = 12) as Ht by done.
  assert (u32_sat_add CARD_WIDTH (2 * t) = CARD_WIDTH + 2 * t) as -> by done.
  assert (u32_sat_add (lcd_height card) (2 * t) = lcd_height card + 2 * t) as ->
    by (unfold u32_sat_add, u32_saturating_add, u32_max; lia).
  set (frame := rect (x - t) (y - t) (CARD_WIDTH + 2 * t) (lcd_height card + 2 * t)).
  eapply (maps_fun _ _ (fun view => view ← fill_rect width height (rect 0 0 width height) COVER_RGBA view;
    view ← stroke_rect width height frame (indicator_color indicator) t view;
    blit_opaque width height (lcd_rgba card) CARD_WIDTH (lcd_height card) x y view));
    [|intros out [Hl _]; by rewrite (proj2 (canvas_new_buffer width height ltac:(lia) ltac:(lia) out) Hl)].
  eapply maps_ext.
  - eapply maps_then; [apply (fill_opaque_maps width height ltac:(lia) ltac:(lia) _ COVER_RGBA); solve_colour|].
    eapply maps_then; [apply (stroke_opaque_maps width height ltac:(lia) ltac:(lia)); try done;
      unfold frame, fits_i32, i32_min, CARD_WIDTH; cbn [rect pr_x pr_y pr_w pr_h]; lia|].
    apply (blit_opaque_maps width height ltac:(lia) ltac:(lia)); [done|lia|done|by rewrite Hlen, Hcw].
  - intros j v Hj. unfold only. rewrite (whole_prect width height j) by lia.
    assert (ring width frame t j = in_prect (Z.to_nat width) frame j && negb (in_prect (Z.to_nat width) (rect x y CARD_WIDTH (lcd_height card)) j)) as ->.
    { unfold ring, frame. cbn [rect pr_x pr_y pr_w pr_h]. do 2 f_equal. unfold rect. do 2 f_equal; lia. }
    destruct (in_prect _ (rect x y _ _) j); [done|]. by destruct (in_prect _ frame j).
Qed.

(** The byte a composition leaves: the lock's if it is up, the view's if not. *)
Definition lock_pixel (face : Face) (atlas : Atlas) (s : LockSurface) (width height : Z) (j : nat) (v : Z) : Z :=
  match (c ← lf_content s; lock_rasterize face atlas c) with
  | Some card => lock_at (lf_indicator s) card width height j v
  | None => v
  end.

Lemma lock_composite_spec face atlas width height s view :
  assets_ok face atlas -> lock_surface_wf face atlas s -> indicator_ok (lf_indicator s) ->
  0 <= width <= 1073741824 -> 0 <= height <= 1073741824 ->
  let len := (Z.to_nat height * Z.to_nat width * 4)%nat in
  buffer len view ->
  exists s', lock_composite_over face atlas view width height s = Some (imap (lock_pixel face atlas s width height) view, s')
    /\ lock_surface_wf face atlas s' /\ lf_indicator s' = lf_indicator s /\ buffer len (imap (lock_pixel face atlas s width height) view).
Proof.
  intros Hassets Hwf Hind Hw Hh len Hb. destruct (lock_card_spec face atlas s Hassets Hwf) as (card & s' & Hs' & Hwf' & _ & Hi & _ & Hcard).
  unfold lock_composite_over, lock_pixel. rewrite Hs'. cbn [mbind option_bind]. destruct (lf_content s) as [c|]; cbn [mbind option_bind].
  - destruct Hcard as (k & -> & -> & Hok). rewrite Hi.
    destruct (lock_draw_over_maps (lf_indicator s) k width height Hind Hok Hw Hh view Hb) as [-> Hu]. cbn [mbind option_bind].
    exists s'. split_and!; try done. split; [rewrite length_imap; apply Hb|done].
  - rewrite Hcard, imap_keep. by exists s'.
Qed.
