(* ===== verification/Status.v ===== *)
(** * The status strip

    [crates/vitrin-core/src/status/]: the offset the clock is shown at, the time of
    day, the battery's two numbers, when they are sampled ([sample.rs],
    [battery.rs]), and the rows the strip draws under the trust band ([render.rs],
    [mod.rs]). A [SystemTime] is the nanoseconds from the epoch, signed. What
    [/sys/class/power_supply] holds is an argument. [None] is a panic, except where
    the code returns an [Option]. *)

From stdpp Require Import sorting.
From S2P Require Import Prelude Text Grants Geometry Capture Canvas Atlas Paint Lettering Card DeadMan.

(* ------------------------------------------------------------------------ *)
(** ** The offset and the clock *)

Definition BATTERY_INTERVAL : Duration := from_secs 30.

(** [UtcOffset], in minutes. *)
Definition UtcOffset := Z.
Definition UTC_OFFSET : UtcOffset := 0.
Definition MIN_MINUTES : Z := -12 * 60.
Definition MAX_MINUTES : Z := 14 * 60.

(** [str::parse] at [i16]: an optional sign, then decimal digits. *)
Definition parse_i16 (s : Str) : option Z :=
  match s with
  | [] => None
  | c :: ds =>
      if ((c =? 43) || (c =? 45)) && bool_decide (ds = []) then None
      else if c =? 43 then parse_digits 32767 0 ds
      else if c =? 45 then Z.opp <$> parse_digits 32768 0 ds
      else parse_digits 32767 0 s
  end.

(** [text[from..to]], which panics off a character's boundary. *)
Definition slice_str (from to : nat) (bytes : Bytes) : option Str := sub ← sub_slice from to bytes; Utf8.decode sub.

Definition utc_offset_parse (text : Str) : option (result UtcOffset unit) :=
  if str_eqb text (str "UTC") || str_eqb text (str "Z") then Some (Ok UTC_OFFSET)
  else
    let bytes := Utf8.encode text in
    if negb (length bytes =? 6)%nat || negb (bool_decide (bytes !! 3%nat = Some 58)) then Some (Err tt)
    else
      first ← bytes !! 0%nat;
      match (if first =? 43 then Some 1 else if first =? 45 then Some (-1) else None) with
      | None => Some (Err tt)
      | Some sign =>
          hh ← slice_str 1 3 bytes;
          match parse_i16 hh with
          | None => Some (Err tt)
          | Some hours =>
              mm ← slice_str 4 6 bytes;
              match parse_i16 mm with
              | None => Some (Err tt)
              | Some minutes =>
                  if 59 <? minutes then Some (Err tt)
                  else
                    let total := sign * (hours * 60 + minutes) in
                    if (MIN_MINUTES <=? total) && (total <=? MAX_MINUTES) then Some (Ok total) else Some (Err tt)
              end
          end
      end.

Record ClockReading : Type := { ck_hour : Z; ck_minute : Z; ck_offset : UtcOffset }.
#[export] Instance ClockReading_eq_dec : EqDecision ClockReading.
Proof. solve_decision. Defined.

Definition i64_max : Z := 9223372036854775807.
Definition i64_try_from (secs : Z) : option Z := if secs <=? i64_max then Some secs else None.
Definition i64_checked_add (a b : Z) : option Z :=
  if (- i64_max - 1 <=? a + b) && (a + b <=? i64_max) then Some (a + b) else None.

(** [ClockReading::from_system_time]; [None] is its own. *)
Definition clock_from_system_time (now : Z) (offset : UtcOffset) : option ClockReading :=
  epoch_secs ← (if 0 <=? now then i64_try_from (now / nanos_per_sec)
                else Z.opp <$> i64_try_from (- now / nanos_per_sec));
  local ← i64_checked_add epoch_secs (offset * 60);
  let day := local mod 86400 in
  Some {| ck_hour := day / 3600; ck_minute := day mod 3600 / 60; ck_offset := offset |}.

(* ------------------------------------------------------------------------ *)
(** ** The battery *)

Definition MAX_ENTRIES : nat := 16.
Definition CAPACITY_CAP : nat := 16.
Definition TYPE_CAP : nat := 32.
Definition STATUS_CAP : nat := 32.
Definition MAX_NAME : nat := 32.

Inductive BatteryReading : Type := BatteryAbsent | BatteryPresent (percent : Z) (charging : bool).
#[export] Instance BatteryReading_eq_dec : EqDecision BatteryReading.
Proof. solve_decision. Defined.

(** The names under the root, [None] for an entry that could not be read and for a
    root that could not be opened; and the bytes of an attribute of a device. *)
Record PowerSupply : Type := {
  ps_entries : option (list (option Bytes));
  ps_file : Bytes -> Str -> option Bytes }.

Definition read_capped (fs : PowerSupply) (name : Bytes) (file : Str) (cap : nat) : option Str :=
  bytes ← ps_file fs name file;
  text ← Utf8.decode (take cap bytes);
  Some (trim text).

Definition name_le (a b : Bytes) : Prop := lex_leb a b = true.
#[export] Instance name_le_dec a b : Decision (name_le a b).
Proof. unfold name_le. apply _. Defined.

Fixpoint battery_scan (fs : PowerSupply) (names : list Bytes) : BatteryReading :=
  match names with
  | [] => BatteryAbsent
  | name :: names =>
      if negb (bool_decide (read_capped fs name (str "type") TYPE_CAP = Some (str "Battery"))) then battery_scan fs names
      else
        match (text ← read_capped fs name (str "capacity") CAPACITY_CAP;
               percent ← parse_unsigned u8_max text;
               if percent <=? 100 then Some percent else None) with
        | None => BatteryAbsent
        | Some percent =>
            let status := read_capped fs name (str "status") STATUS_CAP in
            BatteryPresent percent (bool_decide (status = Some (str "Charging")) || bool_decide (status = Some (str "Full")))
        end
  end.

Definition read_battery (fs : PowerSupply) : BatteryReading :=
  match ps_entries fs with
  | None => BatteryAbsent
  | Some entries =>
      let names := List.filter (fun name => (length name <=? MAX_NAME)%nat) (omap id entries) in
      battery_scan fs (take MAX_ENTRIES (merge_sort name_le names))
  end.

(* ------------------------------------------------------------------------ *)
(** ** Sampling *)

Record StatusSnapshot : Type := { ss_clock : option ClockReading; ss_battery : BatteryReading; ss_realm : option RealmId }.
#[export] Instance StatusSnapshot_eq_dec : EqDecision StatusSnapshot.
Proof. unfold RealmId, Str. solve_decision. Defined.

Record Sampler : Type := { sm_offset : UtcOffset; sm_battery : BatteryReading; sm_battery_read_at : option Instant }.
Definition sampler_new (offset : UtcOffset) : Sampler :=
  {| sm_offset := offset; sm_battery := BatteryAbsent; sm_battery_read_at := None |}.

(** [sample], with what the power supplies would read as. *)
Definition sampler_sample (fs : PowerSupply) (now : Z) (mono : Instant) (realm : option RealmId) (s : Sampler) : StatusSnapshot * Sampler :=
  let due := match sm_battery_read_at s with None => true | Some last => BATTERY_INTERVAL <=? since mono last end in
  let s := if due then {| sm_offset := sm_offset s; sm_battery := read_battery fs; sm_battery_read_at := Some mono |} else s in
  ({| ss_clock := clock_from_system_time now (sm_offset s); ss_battery := sm_battery s; ss_realm := realm |}, s).

(* ------------------------------------------------------------------------ *)
(** ** Drawing *)

Definition DEFAULT_HEIGHT : Z := 20.
Definition MIN_HEIGHT : Z := 16.
Definition MAX_HEIGHT : Z := 64.
Definition MARKER_H : Z := 6.
Definition MARKER_W : Z := 96.
Definition TEXT_PX : Z := 1094713344.
Definition GAP : Z := 12.
Definition CONTENT_X : Z := MARKER_W + GAP.
Definition GROUND : list Z := [17; 19; 24; 255].
Definition RULE : list Z := [43; 48; 59; 255].
Definition VALUE_FG : list Z := [228; 233; 242].
Definition MUTED_FG : list Z := [147; 158; 176].
Definition NO_REALM : Str := str "(no realm)".
Definition CHARGING : Str := str "AC".
Definition UTC : Str := str "UTC".

Record Strip : Type := { st_rgba : list Z; st_width : Z; st_height : Z }.

(** [{:02}]. *)
Definition pad2 (n : Z) : Str := if n <? 10 then 48 :: to_string n else to_string n.
Definition format_clock (clock : ClockReading) : Str :=
  let minutes := ck_offset clock in
  let time := pad2 (ck_hour clock) ++ str ":" ++ pad2 (ck_minute clock) ++ str " " in
  if minutes =? 0 then time ++ UTC
  else
    let sign := if minutes <? 0 then str "-" else str "+" in
    let abs := Z.abs minutes in
    time ++ sign ++ pad2 (abs / 60) ++ str ":" ++ pad2 (abs mod 60).
Definition format_battery (percent : Z) (charging : bool) : Str :=
  if charging then to_string percent ++ str "% " ++ CHARGING else to_string percent ++ str "%".

Definition u32_saturating_sub (a b : Z) : Z := Z.max 0 (a - b).

Section strip.
Context (face : Face) (atlas : Atlas).

(** [elide_to_width]; [CUT] is its own three dots. *)
Definition CUT : Str := str "...".
Fixpoint elide_from (s : Str) (room cut_w : Z) (n : nat) : Str :=
  match n with
  | O => CUT
  | S m =>
      let candidate := take n s in
      if u32_wrapping_add (width face atlas candidate TEXT_PX) cut_w <=? room then candidate ++ CUT else elide_from s room cut_w m
  end.
Definition elide_to_width (s : Str) (room : Z) : Str :=
  if width face atlas s TEXT_PX <=? room then s
  else
    let cut_w := width face atlas CUT TEXT_PX in
    if room <? cut_w then [] else elide_from s room cut_w (length s).

(** Where the two fields at the right go, and what is left of them. *)
Definition strip_clock (snapshot : StatusSnapshot) (right : Z) : Z * list (Str * Z * list Z) :=
  match ss_clock snapshot with
  | Some clock =>
      let s := format_clock clock in
      let w := width face atlas s TEXT_PX in
      if CONTENT_X <=? u32_saturating_sub right w then (right - w, [(s, right - w, VALUE_FG)]) else (right, [])
  | None => (right, [])
  end.
Definition strip_battery (snapshot : StatusSnapshot) (right : Z) : Z * list (Str * Z * list Z) :=
  match ss_battery snapshot with
  | BatteryPresent percent charging =>
      let s := format_battery percent charging in
      let w := u32_wrapping_add (width face atlas s TEXT_PX) GAP in
      if CONTENT_X <=? u32_saturating_sub right w then (right - w, [(s, right - w, MUTED_FG)]) else (right, [])
  | BatteryAbsent => (right, [])
  end.
(** Every text of the strip, where it starts and its colour, in the order drawn. *)
Definition strip_texts (snapshot : StatusSnapshot) (width : Z) : list (Str * Z * list Z) :=
  let '(right_, clock) := strip_clock snapshot (u32_saturating_sub width GAP) in
  let '(right_, battery) := strip_battery snapshot right_ in
  let realm := default NO_REALM (ss_realm snapshot) in
  let realm_fg := if bool_decide (ss_realm snapshot = None) then MUTED_FG else VALUE_FG in
  let room := u32_saturating_sub (u32_saturating_sub right_ CONTENT_X) GAP in
  clock ++ battery ++ [(elide_to_width realm room, CONTENT_X, realm_fg)].

Fixpoint draw_texts (width height baseline : Z) (texts : list (Str * Z * list Z)) (rgba : Pixels) : option Pixels :=
  match texts with
  | [] => Some rgba
  | (s, x, rgb) :: texts =>
      rgba ← draw face atlas width height s TEXT_PX (i32_wrap x) baseline rgb rgba;
      draw_texts width height baseline texts rgba
  end.

(** [rasterize]. *)
Definition strip_rasterize (snapshot : StatusSnapshot) (width height : Z) : option Strip :=
  let rgba := repeat 0 (Z.to_nat (width * height * BYTES_PER_PIXEL)) in
  let strip rgba := {| st_rgba := rgba; st_width := width; st_height := height |} in
  if (width =? 0) || (height =? 0) then Some (strip rgba)
  else if negb (canvas_new rgba width height) then Some (strip rgba)
  else
    rgba ← fill_rect width height (rect 0 0 width height) GROUND rgba;
    rgba ← fill_rect width height (rect 0 (i32_wrap height - 1) width 1) RULE rgba;
    let metrics := line_metrics face TEXT_PX in
    let baseline := i32_wrap (u32_wrapping_add (u32_saturating_sub height (lm_height metrics) / 2) (lm_ascent metrics)) in
    rgba ← draw_texts width height baseline (strip_texts snapshot width) rgba;
    Some (strip rgba).
End strip.

(* ------------------------------------------------------------------------ *)
(** ** The strip's state *)

Record StatusConfig : Type := { sf_enabled : bool; sf_height : Z; sf_utc_offset : UtcOffset }.
Definition status_config_default : StatusConfig := {| sf_enabled := false; sf_height := DEFAULT_HEIGHT; sf_utc_offset := UTC_OFFSET |}.

Record StatusStrip : Type := {
  sp_config : StatusConfig;
  sp_sampler : Sampler;
  sp_snapshot : option StatusSnapshot;
  sp_generation : Z;
  sp_strip : option Strip;
  sp_strip_generation : Z;
  sp_strip_width : Z }.

Definition status_new (config : StatusConfig) : StatusStrip :=
  {| sp_config := config; sp_sampler := sampler_new (sf_utc_offset config); sp_snapshot := None; sp_generation := 0;
     sp_strip := None; sp_strip_generation := 0; sp_strip_width := 0 |}.
Definition status_height (s : StatusStrip) : Z := if sf_enabled (sp_config s) then sf_height (sp_config s) else 0.

Definition status_refresh (fs : PowerSupply) (now : Z) (mono : Instant) (realm : option RealmId) (s : StatusStrip) : bool * StatusStrip :=
  if negb (sf_enabled (sp_config s)) then (false, s)
  else
    let '(snapshot, sampler) := sampler_sample fs now mono realm (sp_sampler s) in
    let moved := negb (bool_decide (sp_snapshot s = Some snapshot)) in
    (moved,
     {| sp_config := sp_config s; sp_sampler := sampler;
        sp_snapshot := if moved then Some snapshot else sp_snapshot s;
        sp_generation := if moved then u64_wrapping_add (sp_generation s) 1 else sp_generation s;
        sp_strip := sp_strip s; sp_strip_generation := sp_strip_generation s; sp_strip_width := sp_strip_width s |}).

Section surface.
Context (face : Face) (atlas : Atlas).

(** [strip], the raster kept until the snapshot or the width moves. *)
Definition status_strip (width : Z) (s : StatusStrip) : option (option Strip * StatusStrip) :=
  if negb (sf_enabled (sp_config s)) then Some (None, s)
  else
    match sp_snapshot s with
    | None => Some (None, s)
    | Some snapshot =>
        s ← (if bool_decide (sp_strip s = None) || negb (sp_strip_generation s =? sp_generation s) || negb (sp_strip_width s =? width)
             then strip ← strip_rasterize face atlas snapshot width (sf_height (sp_config s));
                  Some {| sp_config := sp_config s; sp_sampler := sp_sampler s; sp_snapshot := sp_snapshot s;
                          sp_generation := sp_generation s; sp_strip := Some strip; sp_strip_generation := sp_generation s;
                          sp_strip_width := width |}
             else Some s);
        Some (sp_strip s, s)
    end.

(** [raster]. *)
Definition status_raster (width : Z) (s : StatusStrip) : option (option (list Z * Z * Z) * StatusStrip) :=
  '(strip, s) ← status_strip width s;
  Some (option_map (fun strip => (st_rgba strip, st_width strip, st_height strip)) strip, s).

Definition status_composite_over (view : Pixels) (width height : Z) (s : StatusStrip) : option (Pixels * StatusStrip) :=
  '(strip, s) ← status_strip width s;
  match strip with
  | None => Some (view, s)
  | Some strip =>
      if negb (canvas_new view width height) then Some (view, s)
      else
        view ← blit_opaque width height (st_rgba strip) (st_width strip) (st_height strip) 0 STRIP_TOP view;
        Some (view, s)
  end.
End surface.

(* ------------------------------------------------------------------------ *)
(** ** The offset, both ways *)

Definition offset_ok (offset : UtcOffset) : Prop := MIN_MINUTES <= offset <= MAX_MINUTES.

(** The zone a clock is labelled with. *)
Definition zone_label (offset : UtcOffset) : Str :=
  drop 6 (format_clock {| ck_hour := 0; ck_minute := 0; ck_offset := offset |}).

Lemma format_clock_label h m offset :
  0 <= h < 24 -> 0 <= m < 60 ->
  format_clock {| ck_hour := h; ck_minute := m; ck_offset := offset |} = pad2 h ++ str ":" ++ pad2 m ++ str " " ++ zone_label offset.
Proof.
  intros Hh Hm. unfold zone_label, format_clock. cbn [ck_hour ck_minute ck_offset].
  change (pad2 0) with [48; 48]. change (str ":") with [58]. change (str " ") with [32].
  change (pad2 0) with [48; 48]. destruct (offset =? 0); rewrite <- !app_assoc; reflexivity.
Qed.

Lemma all_offsets (P : Z -> bool) :
  forallb P (seqZ MIN_MINUTES 1561) = true -> forall offset, offset_ok offset -> P offset = true.
Proof.
  intros HP offset Ho. rewrite forallb_forall in HP. apply HP, list_elem_of_In, elem_of_seqZ.
  unfold offset_ok, MIN_MINUTES, MAX_MINUTES in *. lia.
Qed.

(** The offset a clock is labelled with parses back to the offset: for every
    time of day and every offset the flag admits, what the strip shows is the two
    digits of the hour, the two of the minute and a zone, and the zone, given to
    the flag, is that offset. *)
Theorem utc_offset_round_trip (h m : Z) (offset : UtcOffset) (Hh : 0 <= h < 24) (Hm : 0 <= m < 60) (Ho : offset_ok offset) :
  exists zone, format_clock {| ck_hour := h; ck_minute := m; ck_offset := offset |} = pad2 h ++ str ":" ++ pad2 m ++ str " " ++ zone
    /\ utc_offset_parse zone = Some (Ok offset).
Proof.
  exists (zone_label offset). split; [by apply format_clock_label|].
  pose proof (all_offsets (fun o => bool_decide (utc_offset_parse (zone_label o) = Some (Ok o))) ltac:(by vm_compute) offset Ho) as H.
  by apply bool_decide_eq_true in H.
Qed.
Lemma utc_offset_round_trip_witness :
  exists zone, format_clock {| ck_hour := 14; ck_minute := 4; ck_offset := -570 |} = pad2 14 ++ str ":" ++ pad2 4 ++ str " " ++ zone
    /\ utc_offset_parse zone = Some (Ok (-570)).
Proof.
  apply (utc_offset_round_trip 14 4 (-570)); [lia|lia|]. unfold offset_ok, MIN_MINUTES, MAX_MINUTES. lia.
Defined.

(** What is admitted is in range, and a text of any length gets an answer. *)
Lemma utc_offset_parse_range text offset : utc_offset_parse text = Some (Ok offset) -> offset_ok offset.
Proof.
  unfold utc_offset_parse. repeat case_match; try done.
  - by intros [= <-].
  - intros H'. apply bind_Some in H' as (first & _ & H'). repeat case_match; try done.
    all: try (apply bind_Some in H' as (hh & _ & H'); repeat case_match; try done;
      apply bind_Some in H' as (mm & _ & H'); repeat case_match; try done; simplify_eq; unfold offset_ok; unbool; lia).
Qed.

(** A second sign is read as one: the digits of the hour are parsed as a signed
    integer. *)
Lemma utc_offset_double_sign :
  utc_offset_parse (str "+-5:00") = Some (Ok (-300)) /\ utc_offset_parse (str "++5:00") = Some (Ok 300)
  /\ utc_offset_parse (str "+09:-5") = Some (Ok 535).
Proof. vm_compute. done. Qed.

(** The clock shows a time of day: the minute the offset's local time is in. *)
Lemma clock_exact now offset clock :
  clock_from_system_time now offset = Some clock ->
  0 <= ck_hour clock < 24 /\ 0 <= ck_minute clock < 60 /\ ck_offset clock = offset
  /\ exists secs, secs = (if 0 <=? now then now / nanos_per_sec else - (- now / nanos_per_sec))
     /\ ck_hour clock * 3600 + ck_minute clock * 60 = (secs + offset * 60) mod 86400 / 60 * 60.
Proof.
  unfold clock_from_system_time. intros H. apply bind_Some in H as (secs & Hsecs & H). apply bind_Some in H as (local & Hl & [= <-]).
  unfold i64_checked_add in Hl. case_match; [|done]. injection Hl as <-. cbn [ck_hour ck_minute ck_offset].
  set (day := (secs + offset * 60) mod 86400). assert (0 <= day < 86400) as Hday by (apply Z.mod_pos_bound; lia).
  split_and!; [apply Z.div_pos; lia|apply Z.div_lt_upper_bound; lia|apply Z.div_pos; [apply Z.mod_pos_bound|]; lia
    |apply Z.div_lt_upper_bound; [lia|]; pose proof (Z.mod_pos_bound day 3600); lia|done|].
  exists secs. split.
  - destruct (0 <=? now); [unfold i64_try_from in Hsecs; case_match; congruence|].
    unfold i64_try_from in Hsecs. case_match; [|done]. simpl in Hsecs. congruence.
  - fold day. clearbody day. pose proof (Z.mod_eq day 3600 ltac:(lia)) as Hm. rewrite Hm. clear Hm. generalize (day / 3600). intros q.
    replace ((day - 3600 * q) / 60) with (day / 60 - 60 * q); [lia|].
    replace (day - 3600 * q) with (day + (- 60 * q) * 60) by lia. rewrite Z.div_add by lia. lia.
Qed.

(* ------------------------------------------------------------------------ *)
(** ** The strip is drawn *)

Definition strip_ok (strip : Strip) : Prop :=
  Z.of_nat (length (st_rgba strip)) = st_width strip * st_height strip * BYTES_PER_PIXEL
  /\ Forall is_u8 (st_rgba strip) /\ all_opaque (st_rgba strip).

Section drawn.
Context (face : Face) (atlas : Atlas) (Hassets : assets_ok face atlas).

Lemma strip_texts_colours snapshot w : Forall (fun t : Str * Z * list Z => colour t.2) (strip_texts face atlas snapshot w).
Proof using.
  clear Hassets. unfold strip_texts. destruct (strip_clock _ _ _ _) as [r1 clock] eqn:Hc. destruct (strip_battery _ _ _ _) as [r2 battery] eqn:Hb.
  rewrite !Forall_app. split_and!.
  - unfold strip_clock in Hc. repeat case_match; simplify_eq; try constructor; [solve_colour|constructor].
  - unfold strip_battery in Hb. repeat case_match; simplify_eq; try constructor; [solve_colour|constructor].
  - constructor; [|constructor]. cbn [snd]. case_bool_decide; solve_colour.
Qed.

Lemma draw_texts_steady w h baseline texts :
  0 <= w -> 0 <= h -> Forall (fun t : Str * Z * list Z => colour t.2) texts ->
  steady (Z.to_nat h * Z.to_nat w * 4) (draw_texts face atlas w h baseline texts).
Proof using Hassets.
  intros Hw Hh Hc. induction Hc as [|[[s x] rgb] texts Hrgb _ IH]; [apply steady_keep|].
  apply (steady_then _ (draw face atlas w h s TEXT_PX (i32_wrap x) baseline rgb)); [|done].
  by apply (steady_draw w h Hw Hh face atlas (ao_face _ _ Hassets) (ao_atlas _ _ Hassets)).
Qed.

Lemma strip_rasterize_ok snapshot w h :
  0 <= w -> 0 <= h ->
  exists strip, strip_rasterize face atlas snapshot w h = Some strip /\ strip_ok strip /\ st_width strip = w /\ st_height strip = h.
Proof using Hassets.
  intros Hw Hh. unfold strip_rasterize. cbv zeta. set (len := (Z.to_nat h * Z.to_nat w * 4)%nat).
  assert (Z.to_nat (w * h * BYTES_PER_PIXEL) = len) as -> by (unfold len, BYTES_PER_PIXEL; lia).
  destruct (_ || _) eqn:Hzero.
  - eexists. split; [reflexivity|]. unfold strip_ok. cbn [st_rgba st_width st_height].
    assert (len = 0%nat) as -> by (unfold len; apply orb_prop in Hzero as [E0%Z.eqb_eq|E0%Z.eqb_eq]; rewrite E0; lia).
    split_and!; try done; try constructor. apply orb_prop in Hzero as [E0%Z.eqb_eq|E0%Z.eqb_eq]; rewrite E0; cbn; lia.
  - apply orb_false_elim in Hzero as [Hw0 Hh0]. apply Z.eqb_neq in Hw0, Hh0.
    rewrite (proj2 (canvas_new_buffer w h ltac:(lia) ltac:(lia) (repeat 0 len))) by apply repeat_length. cbn [negb].
    destruct (fresh_canvas w h GROUND Hw Hh ltac:(solve_colour) _ (zeros_buffer len)) as (out & -> & Hb & Ha). cbn [mbind option_bind].
    destruct (steady_fill w h Hw Hh (rect 0 (i32_wrap h - 1) w 1) RULE ltac:(solve_colour) out Hb Ha) as (out1 & -> & Hb1 & Ha1).
    cbn [mbind option_bind].
    match goal with |- context [draw_texts _ _ _ _ ?b ?t _] =>
      destruct (draw_texts_steady w h b t Hw Hh (strip_texts_colours snapshot w) out1 Hb1 Ha1) as (out2 & -> & Hb2 & Ha2) end.
    cbn [mbind option_bind]. eexists. split; [reflexivity|]. unfold strip_ok. cbn [st_rgba st_width st_height].
    destruct Hb2 as [Hl Hu]. split_and!; try done. rewrite Hl. unfold len, BYTES_PER_PIXEL. lia.
Qed.

(** The strip's height is a number of rows, and a raster kept for the current
    generation and a width is the snapshot's at that width. *)
Record status_wf (s : StatusStrip) : Prop := {
  sw_height : 0 <= sf_height (sp_config s) <= MAX_HEIGHT;
  sw_kept : 0 <= sp_strip_generation s <= sp_generation s;
  sw_strip : forall strip snapshot, sp_strip s = Some strip -> sp_strip_generation s = sp_generation s -> sp_snapshot s = Some snapshot ->
    strip_rasterize face atlas snapshot (sp_strip_width s) (sf_height (sp_config s)) = Some strip }.

Lemma status_new_wf config : 0 <= sf_height config <= MAX_HEIGHT -> status_wf (status_new config).
Proof using. clear Hassets. intros Hh. split; simpl; done. Qed.
Lemma status_refresh_wf fs now mono realm s :
  status_wf s -> sp_generation s < u64_max -> status_wf (status_refresh fs now mono realm s).2.
Proof using.
  clear Hassets. intros Hwf Hmax. pose proof Hwf as [Hh Hk Hs]. unfold status_refresh. destruct (negb _); [done|].
  destruct (sampler_sample _ _ _ _ _) as [snapshot sampler]. cbv zeta.
  assert (u64_wrapping_add (sp_generation s) 1 = sp_generation s + 1) as He
    by (unfold u64_wrapping_add; apply Z.mod_small; unfold u64_max in *; lia).
  case_bool_decide; cbn [negb]; split; cbn; try done; rewrite ?He; [lia|]. intros ?? _ Heq. lia.
Qed.

(** The strip of the state, if there is one. *)
Definition strip_of (w : Z) (s : StatusStrip) : option Strip :=
  if sf_enabled (sp_config s) then
    snapshot ← sp_snapshot s; strip_rasterize face atlas snapshot w (sf_height (sp_config s))
  else None.
Lemma strip_of_ok w s strip :
  status_wf s -> 0 <= w -> strip_of w s = Some strip -> strip_ok strip /\ st_width strip = w /\ 0 <= st_height strip <= MAX_HEIGHT.
Proof using Hassets.
  intros [Hh _ _] Hw H. unfold strip_of in H. case_match; [|done]. apply bind_Some in H as (snapshot & _ & Hs).
  destruct (strip_rasterize_ok snapshot w (sf_height (sp_config s)) Hw ltac:(lia)) as (strip' & Hs' & Hok & Hwe & Hhe).
  rewrite Hs' in Hs. injection Hs as <-. by rewrite Hhe.
Qed.

Lemma status_strip_spec w s :
  status_wf s -> 0 <= w ->
  exists s', status_strip face atlas w s = Some (strip_of w s, s') /\ status_wf s'.
Proof using Hassets.
  intros Hwf Hw. pose proof Hwf as [Hh Hk Hs]. unfold status_strip, strip_of. destruct (sf_enabled _); cbn [negb]; [|by eauto].
  destruct (sp_snapshot s) as [snapshot|] eqn:Hsn; [|by eauto]. cbn [mbind option_bind].
  destruct (strip_rasterize_ok snapshot w (sf_height (sp_config s)) Hw ltac:(lia)) as (strip & Hr & _).
  destruct (_ || _) eqn:Hstale.
  - rewrite Hr. cbn [mbind option_bind]. eexists. split; [reflexivity|]. split; cbn; [done|lia|]. congruence.
  - apply orb_false_elim in Hstale as [Hstale Hwe]. apply orb_false_elim in Hstale as [Hn He].
    apply bool_decide_eq_false in Hn. apply negb_false_iff, Z.eqb_eq in He. apply negb_false_iff, Z.eqb_eq in Hwe.
    cbn [mbind option_bind]. destruct (sp_strip s) as [k|] eqn:Hke; [|done]. exists s. split; [|done].
    specialize (Hs k snapshot eq_refl He eq_refl). rewrite <- Hwe. by rewrite Hs.
Qed.

(** A byte of the view with the strip over it. *)
Definition strip_at (w : Z) (strip : option Strip) (j : nat) (v : Z) : Z :=
  match strip with
  | None => v
  | Some strip => only (in_prect (Z.to_nat w) (rect 0 STRIP_TOP (st_width strip) (st_height strip))) (blitted w (st_rgba strip) (st_width strip) 0 STRIP_TOP) j v
  end.

Lemma status_composite_spec w h s view :
  status_wf s -> 0 <= w -> 0 <= h -> buffer (Z.to_nat h * Z.to_nat w * 4) view ->
  exists s', status_composite_over face atlas view w h s = Some (imap (strip_at w (strip_of w s)) view, s')
    /\ status_wf s' /\ buffer (Z.to_nat h * Z.to_nat w * 4) (imap (strip_at w (strip_of w s)) view).
Proof using Hassets.
  intros Hwf Hw Hh Hb. destruct (status_strip_spec w s Hwf Hw) as (s' & Hs' & Hwf'). unfold status_composite_over. rewrite Hs'.
  cbn [mbind option_bind]. pose proof (fun k => strip_of_ok w s k Hwf Hw) as Hok. destruct (strip_of w s) as [strip|].
  - destruct (Hok strip eq_refl) as ((Hl & Hu & _) & Hsw & Hsh). rewrite (proj2 (canvas_new_buffer w h Hw Hh view)) by apply Hb. cbn [negb].
    destruct (blit_opaque_maps w h Hw Hh (st_rgba strip) (st_width strip) (st_height strip) 0 STRIP_TOP ltac:(lia) ltac:(lia) Hu Hl view Hb) as [-> Hu'].
    cbn [mbind option_bind]. exists s'. split_and!; [done|done|]. split; [rewrite length_imap; apply Hb|done].
  - assert (imap (strip_at w None) view = view) as ->.
    { apply list_eq. intros i. rewrite list_lookup_imap. unfold strip_at. by destruct (view !! i). }
    by exists s'.
Qed.
End drawn.
