(* ===== verification/Output.v ===== *)
(** * What the human sees

    [human_visible_from_view] and [compose_human_visible] of
    [crates/vitrin-core/src/backend/mod.rs], with the marker of [attention.rs]: the
    view composed of the bound realm's surface, and everything the session draws
    over it, in order. [None] is a panic. *)

From S2P Require Import Prelude Text Capture Canvas Geometry Atlas Paint Lettering Lock Blank Card Consent Scene Status LockCard.

(** *** The attention marker *)

Definition MARKER : list Z := [48; 192; 255; 255].
Definition composite_attention_marker (view : Pixels) (width height : Z) : option Pixels :=
  let top := Geometry.TRUST_BAND_HEIGHT in
  if (width =? 0) || (height <=? top) then Some view
  else if negb (canvas_new view width height) then Some view
  else fill_rect width height (rect 0 (i32_wrap top) (Z.min MARKER_W width) (Z.min MARKER_H (height - top))) MARKER view.

(** *** Everything over a view *)

(** The surfaces a composition reads, and whose rasters it may refresh. *)
Record Overlays : Type := {
  ov_consent : ConsentSurface;
  ov_lock : LockSurface;
  ov_blank : BlankSurface;
  ov_status : StatusStrip }.

Section output.
Context (face : Face) (atlas : Atlas).

Definition human_visible_from_view (view : Pixels) (o : Overlays) (width height : Z) (attention : bool) : option (Pixels * Overlays) :=
  '(view, status) ← status_composite_over face atlas view width height (ov_status o);
  '(view, consent) ← composite_over face atlas view width height (ov_consent o);
  '(view, lock) ← lock_composite_over face atlas view width height (ov_lock o);
  view ← blank_composite_over (ov_blank o) width height view;
  view ← composite_trust_band (cs_indicator consent) view width height;
  view ← (if attention then composite_attention_marker view width height else Some view);
  Some (view, {| ov_consent := consent; ov_lock := lock; ov_blank := ov_blank o; ov_status := status |}).

Definition compose_human_visible (scene : Scene) (o : Overlays) (geom : ViewGeometry) (attention : bool) : option (Pixels * Overlays) :=
  view ← compose scene geom;
  human_visible_from_view view o (output geom).1 (output geom).2 attention.

(* ------------------------------------------------------------------------ *)
(** ** Pixel by pixel *)

(** A byte of the view once it is seen: the band, then the marker, then the
    covers, then the cards, then the strip, then the view. *)
Definition human_pixel (o : Overlays) (width height : Z) (attention : bool) (j : nat) (v : Z) : Z :=
  let w := Z.to_nat width in
  let marker := rect 0 Geometry.TRUST_BAND_HEIGHT (Z.min MARKER_W width) (Z.min MARKER_H (height - Geometry.TRUST_BAND_HEIGHT)) in
  if attention && in_prect w marker j then solid MARKER j v
  else if in_prect w (rect 0 0 width (Z.min Geometry.TRUST_BAND_HEIGHT height)) j then solid (indicator_color (cs_indicator (ov_consent o))) j v
  else if bs_covering (ov_blank o) then solid Blank.COVER_RGBA j v
  else lock_pixel face atlas (ov_lock o) width height j
         (let v := strip_at width (strip_of face atlas width (ov_status o)) j v in
          match content_card face atlas (ov_consent o) with
          | Some (Some card) => over_view (cs_indicator (ov_consent o)) card width height j v
          | _ => v
          end).

Record overlays_wf (o : Overlays) : Prop := {
  ow_consent : Consent.surface_wf face atlas (ov_consent o);
  ow_lock : lock_surface_wf face atlas (ov_lock o);
  ow_status : status_wf face atlas (ov_status o);
  ow_colour : indicator_ok (cs_indicator (ov_consent o));
  ow_lock_colour : indicator_ok (lf_indicator (ov_lock o)) }.

Context (Hassets : assets_ok face atlas).

Section maps.
Context (width height : Z) (Hw : 0 <= width <= 1073741824) (Hh : 0 <= height <= 1073741824).
Let len := (Z.to_nat height * Z.to_nat width * 4)%nat.

Lemma canvas_of_buffer view : buffer len view -> canvas_new view width height = true.
Proof using Hw Hh. intros [Hl _]. by apply (canvas_new_buffer width height ltac:(lia) ltac:(lia)). Qed.

Lemma trust_band_maps indicator :
  indicator_ok indicator ->
  maps len (only (in_prect (Z.to_nat width) (rect 0 0 width (Z.min Geometry.TRUST_BAND_HEIGHT height))) (solid (indicator_color indicator)))
    (fun view => composite_trust_band indicator view width height).
Proof using Hw Hh.
  intros Hi. eapply maps_fun; [apply (fill_opaque_maps width height ltac:(lia) ltac:(lia) _ _ Hi)|].
  intros out Hb. unfold composite_trust_band. by rewrite canvas_of_buffer.
Qed.

Lemma blank_maps s :
  maps len (fun j v => if bs_covering s then solid Blank.COVER_RGBA j v else v) (blank_composite_over s width height).
Proof using Hw Hh.
  unfold blank_composite_over. destruct (bs_covering s); cbn [negb]; [|apply maps_keep].
  eapply maps_ext.
  - eapply maps_fun; [apply (fill_opaque_maps width height ltac:(lia) ltac:(lia) (rect 0 0 width height) Blank.COVER_RGBA); solve_colour|].
    intros out Hb. by rewrite canvas_of_buffer.
  - intros j v Hj. unfold only. by rewrite whole_prect by (unfold len in Hj; lia).
Qed.

Lemma marker_maps (attention : bool) :
  maps len (fun j v => if attention && in_prect (Z.to_nat width) (rect 0 Geometry.TRUST_BAND_HEIGHT (Z.min MARKER_W width) (Z.min MARKER_H (height - Geometry.TRUST_BAND_HEIGHT))) j
                       then solid MARKER j v else v)
    (fun view => if attention then composite_attention_marker view width height else Some view).
Proof using Hw Hh.
  destruct attention; cbn [andb]; [|apply maps_keep]. unfold composite_attention_marker. destruct (_ || _) eqn:Hsmall.
  - eapply maps_ext; [apply maps_keep|]. intros j v Hj. unfold keep.
    destruct (in_prect _ _ j) eqn:He; [|done]. exfalso. unfold in_prect, rect_contains in He. cbn [rect pr_x pr_y pr_w pr_h] in He. unbool.
    unfold MARKER_W, MARKER_H in *. apply orb_prop in Hsmall as [E0%Z.eqb_eq|E0%Z.leb_le]; lia.
  - eapply maps_fun; [apply (fill_opaque_maps width height ltac:(lia) ltac:(lia) _ MARKER); solve_colour|].
    intros out Hb. by rewrite canvas_of_buffer.
Qed.
End maps.
(** What a composition comes to: it succeeds, keeps the surfaces well formed, and
    every byte is [human_pixel]'s. *)
Lemma human_visible_spec width height view o attention :
  0 <= width <= 1073741824 -> 0 <= height <= 1073741824 -> overlays_wf o ->
  buffer (Z.to_nat height * Z.to_nat width * 4) view ->
  exists o', human_visible_from_view view o width height attention = Some (imap (human_pixel o width height attention) view, o') /\ overlays_wf o'.
Proof using Hassets.
  intros Hw Hh [Hc Hl Hs Hcc Hlc] Hb. unfold human_visible_from_view.
  destruct (status_composite_spec face atlas Hassets width height (ov_status o) view Hs ltac:(lia) ltac:(lia) Hb) as (st & -> & Hst & Hb1).
  cbn [mbind option_bind].
  set (v1 := imap (strip_at width _) view) in *.
  destruct (composite_spec face atlas Hassets v1 width height (ov_consent o) Hc Hcc Hw Hh (proj2 Hb1))
    as (v2 & co & -> & Hco & _ & Hi & _ & _ & Hu2 & card & Hcard & Hv2). cbn [mbind option_bind].
  assert (buffer (Z.to_nat height * Z.to_nat width * 4) v2) as Hb2.
  { split; [|done]. rewrite Hv2. destruct card; [case_match|]; rewrite ?length_imap; apply Hb1. }
  destruct (lock_composite_spec face atlas width height (ov_lock o) v2 Hassets Hl Hlc Hw Hh Hb2) as (lo & -> & Hlo & Hli & Hb3). cbn [mbind option_bind].
  destruct (blank_maps width height Hw Hh (ov_blank o) _ Hb3) as [-> Hu4]. cbn [mbind option_bind].
  set (v4 := imap _ (imap _ v2)) in *.
  assert (buffer (Z.to_nat height * Z.to_nat width * 4) v4) as Hb4 by (split; [unfold v4; rewrite length_imap; apply Hb3|done]).
  rewrite Hi. destruct (trust_band_maps width height Hw Hh _ Hcc v4 Hb4) as [-> Hu5]. cbn [mbind option_bind].
  set (v5 := imap _ v4) in *.
  assert (buffer (Z.to_nat height * Z.to_nat width * 4) v5) as Hb5 by (split; [unfold v5; rewrite length_imap; apply Hb4|done]).
  destruct (marker_maps width height Hw Hh attention v5 Hb5) as [-> _]. cbn [mbind option_bind].
  exists {| ov_consent := co; ov_lock := lo; ov_blank := ov_blank o; ov_status := st |}.
  split; [|split; cbn; try done; by rewrite ?Hi, ?Hli]. do 2 f_equal. unfold v5, v4. clear v4 v5 Hb3 Hb4 Hb5 Hu4 Hu5.
  assert (v2 = imap (fun j v => match card with Some card => over_view (cs_indicator (ov_consent o)) card width height j v | None => v end) v1) as ->.
  { rewrite Hv2. destruct card; [|by rewrite imap_keep]. by rewrite (canvas_of_buffer width height Hw Hh). }
  unfold v1. rewrite !imap_imap. apply imap_ext_lt. intros j v Hj _. unfold human_pixel. rewrite Hcard. cbv zeta. unfold only.
  destruct (attention && _); [done|]. destruct (in_prect _ _ j); [done|]. destruct (bs_covering _); [done|]. by destruct card.
Qed.

(** Nothing of the view is left once it is covered or locked. *)
Definition view_hidden (o : Overlays) : bool := bs_covering (ov_blank o) || is_raised (ov_lock o).

Lemma human_pixel_blind o width height attention j v v' :
  view_hidden o = true -> human_pixel o width height attention j v = human_pixel o width height attention j v'.
Proof using Hassets.
  intros Hhide. unfold human_pixel. cbv zeta. do 2 (case_match; [done|]). destruct (bs_covering _) eqn:Hcov; [done|].
  unfold view_hidden in Hhide. rewrite Hcov in Hhide. unfold is_raised in Hhide. cbn [orb] in Hhide. apply bool_decide_eq_true in Hhide.
  unfold lock_pixel. destruct (lf_content (ov_lock o)) as [c|]; [|done]. cbn [mbind option_bind].
  destruct (lock_rasterize_ok face atlas c Hassets) as (card & -> & _). apply lock_at_blind.
Qed.

(** What a scene's view is made of: bytes. *)
Definition scene_bytes (s : Scene) : Prop := forall c, sn_surface s = Some c -> Forall is_u8 (sc_rgba c).

Lemma opaque_u8 l : Forall is_u8 l -> Forall is_u8 (Scene.opaque l).
Proof using.
  clear Hassets. assert (forall n l, (length l <= n)%nat -> Forall is_u8 l -> Forall is_u8 (Scene.opaque l)) as H; [|by eapply H].
  clear l. induction n as [|n IH]; intros [|r [|g [|b [|a l]]]] Hl Hu; simpl in *; try lia; try done.
  decompose_Forall_hyps. do 4 (constructor; [done|]). apply IH; [lia|done].
Qed.

Lemma scene_pixel_u8 s geom x y : scene_bytes s -> Forall is_u8 (scene_pixel s geom x y).
Proof using.
  clear Hassets. intros Hs. unfold scene_pixel. destruct (sn_surface s) as [c|] eqn:Hc.
  - unfold view_pixel. case_match; [|repeat (constructor; [unfold is_u8, u8_max; lia|]); constructor].
    apply opaque_u8. unfold surface_pixel. apply Forall_take, Forall_drop. by apply Hs.
  - unfold pattern, pattern_pixel. cbv zeta. repeat case_match; try (repeat (constructor; [unfold is_u8, u8_max; lia|]); constructor).
    destruct (BARS !! _) as [l|] eqn:He; [|repeat (constructor; [unfold is_u8, u8_max; lia|]); constructor]. simpl.
    assert (Forall (Forall is_u8) BARS) as Hbars by (repeat (constructor; [repeat (constructor; [unfold is_u8, u8_max; lia|]); constructor|]); constructor).
    by eapply Forall_lookup_1.
Qed.

Lemma compose_buffer s geom :
  scene_wf s -> scene_bytes s -> view_fits geom ->
  exists view, compose s geom = Some view /\ buffer (Z.to_nat (output geom).2 * Z.to_nat (output geom).1 * 4) view.
Proof using.
  clear Hassets. intros Hs Hu Hf. destruct (compose_lookup s geom Hs Hf) as (view & Hv & Hp & Hl & _).
  exists view. split; [done|]. split; [done|]. rewrite Hp. unfold paint.
  apply Forall_forall. intros v Hv'. apply list_elem_of_In, in_flat_map in Hv' as (y & _ & Hv'). apply in_flat_map in Hv' as (x & _ & Hv').
  pose proof (scene_pixel_u8 s geom x y Hu) as Hpx. rewrite Forall_forall in Hpx. by apply Hpx, list_elem_of_In.
Qed.

Lemma in_band w h x y c :
  0 <= w -> (x < Z.to_nat w)%nat -> Z.of_nat y < Z.min Geometry.TRUST_BAND_HEIGHT h -> (c < 4)%nat ->
  let j := ((y * Z.to_nat w + x) * 4 + c)%nat in
  (j mod 4 = c)%nat /\ in_prect (Z.to_nat w) (rect 0 0 w (Z.min Geometry.TRUST_BAND_HEIGHT h)) j = true
  /\ forall ww hh, in_prect (Z.to_nat w) (rect 0 Geometry.TRUST_BAND_HEIGHT ww hh) j = false.
Proof using.
  clear Hassets. intros Hw Hx Hy Hc j.
  assert (j / 4 = y * Z.to_nat w + x)%nat as Hq by (unfold j; symmetry; apply (Nat.div_unique _ _ _ c); lia).
  assert (px_x (Z.to_nat w) j = Z.of_nat x) as Hpx by (unfold px_x; rewrite Hq; f_equal; symmetry; apply (Nat.mod_unique _ _ y); lia).
  assert (px_y (Z.to_nat w) j = Z.of_nat y) as Hpy by (unfold px_y; rewrite Hq; f_equal; symmetry; apply (Nat.div_unique _ _ _ x); lia).
  split; [unfold j; symmetry; apply (Nat.mod_unique _ _ (y * Z.to_nat w + x)); lia|].
  unfold in_prect, rect_contains. cbn [rect pr_x pr_y pr_w pr_h]. rewrite Hpx, Hpy, !Z.sub_0_r. split.
  - rewrite (proj2 (Z.leb_le _ _)), (proj2 (Z.leb_le _ _)), (proj2 (Z.ltb_lt _ _)), (proj2 (Z.ltb_lt _ _)) by lia. done.
  - intros ww hh. rewrite (proj2 (Z.leb_gt 0 (Z.of_nat y - Geometry.TRUST_BAND_HEIGHT))) by lia. by rewrite !andb_false_r.
Qed.

(* ------------------------------------------------------------------------ *)
(** ** Properties *)

(** C9: what the human sees is the session's before it is a realm's. For any
    scene, any card, strip, lock and cover, composing the output succeeds, and every
    byte of it is the one [human_pixel] gives that byte of the view. So the rows
    of the trust band are the session's colour whatever a realm has drawn and
    whatever is up; and once the session is locked or blanked the output is the
    same whatever the realm shows. *)
Theorem human_visible_trusted (scene : Scene) (o : Overlays) (geom : ViewGeometry) (attention : bool)
  (Hscene : scene_wf scene) (Hbytes : scene_bytes scene) (Hgeom : view_fits geom) (Ho : overlays_wf o)
  (Hw : (output geom).1 <= 1073741824) (Hh : (output geom).2 <= 1073741824) :
  let w := Z.to_nat (output geom).1 in
  exists view out o', compose scene geom = Some view
  /\ compose_human_visible scene o geom attention = Some (out, o') /\ overlays_wf o'
  /\ out = imap (human_pixel o (output geom).1 (output geom).2 attention) view
  /\ (forall x y c, (x < w)%nat -> Z.of_nat y < Z.min Geometry.TRUST_BAND_HEIGHT (output geom).2 -> (c < 4)%nat ->
        out !! ((y * w + x) * 4 + c)%nat = indicator_color (cs_indicator (ov_consent o)) !! c)
  /\ (view_hidden o = true -> forall scene', scene_wf scene' -> scene_bytes scene' ->
        exists o'', compose_human_visible scene' o geom attention = Some (out, o'')).
Proof using Hassets.
  intros w. destruct (compose_buffer scene geom Hscene Hbytes Hgeom) as (view & Hview & Hb). pose proof Hgeom as [(Hw0 & Hh0 & _) _]. unfold is_u32 in *.
  destruct (human_visible_spec (output geom).1 (output geom).2 view o attention ltac:(lia) ltac:(lia) Ho Hb) as (o' & Hout & Ho').
  exists view. eexists _, o'. split; [done|]. split; [by unfold compose_human_visible; rewrite Hview; cbn [mbind option_bind]; rewrite Hout|].
  split; [done|]. split; [done|]. split.
  - intros x y c Hx Hy Hc. destruct (in_band (output geom).1 (output geom).2 x y c ltac:(lia) Hx Hy Hc) as (Hmod & Hband & Hmarker). fold w in Hmod, Hband, Hmarker.
    set (j := ((y * w + x) * 4 + c)%nat) in *. rewrite list_lookup_imap. destruct Hb as [Hl _]. fold w in Hl.
    destruct (lookup_lt_is_Some_2 view j) as [v Hv]; [rewrite Hl; unfold j; nia|]. rewrite Hv. cbn [fmap option_fmap option_map].
    unfold human_pixel. fold w. rewrite Hmarker, andb_false_r, Hband. unfold solid. rewrite Hmod.
    destruct (ow_colour o Ho) as [[Hlen _] H3]. destruct (decide (c = 3)%nat) as [->|Hc3]; [by rewrite H3|].
    rewrite (proj2 (Nat.eqb_neq c 3)) by done. destruct (lookup_lt_is_Some_2 (indicator_color (cs_indicator (ov_consent o))) c) as [b Hb']; [lia|].
    by rewrite Hb'.
  - intros Hhide scene' Hs' Hu'. destruct (compose_buffer scene' geom Hs' Hu' Hgeom) as (view' & Hview' & Hb').
    destruct (human_visible_spec (output geom).1 (output geom).2 view' o attention ltac:(lia) ltac:(lia) Ho Hb') as (o'' & Hout' & _).
    exists o''. unfold compose_human_visible. rewrite Hview'. cbn [mbind option_bind]. rewrite Hout'. do 2 f_equal.
    apply list_eq. intros j. rewrite !list_lookup_imap. destruct Hb as [Hl _], Hb' as [Hl' _].
    destruct (decide (j < length view)%nat) as [Hj|Hj].
    + destruct (lookup_lt_is_Some_2 view j Hj) as [v ->]. destruct (lookup_lt_is_Some_2 view' j) as [v' ->]; [lia|].
      cbn [fmap option_fmap option_map]. f_equal. by apply human_pixel_blind.
    + rewrite !lookup_ge_None_2 by lia. done.
Qed.
End output.

(** *** A locked session over a window *)

Definition demo_lock : LockContent :=
  {| lc_cause := CauseIdle; lc_realms := [str "realm-0"]; lc_unlock := UnlockPassphrase; lc_deadman_chord := str "Ctrl+Alt+Esc" |}.
Definition demo_overlays : Overlays :=
  {| ov_consent := surface_new (indicator_from_rgb 64 128 192); ov_lock := lock_surface_raise demo_lock (lock_surface_new (indicator_from_rgb 64 128 192));
     ov_blank := blank_surface_new; ov_status := status_new status_config_default |}.
Definition window (v : Z) : Scene :=
  {| sn_surface := Some (Scene.demo_surface v); sn_generation := 1; sn_pending_damage := Clean |}.

Lemma demo_overlays_wf : overlays_wf box_face no_atlas demo_overlays.
Proof.
  split; cbn [demo_overlays ov_consent ov_lock ov_status].
  - apply surface_new_wf.
  - apply lock_surface_raise_wf; [apply lock_surface_new_wf|done].
  - apply status_new_wf. done.
  - change (Paint.opaque [64; 128; 192; 255]). solve_colour.
  - change (Paint.opaque [64; 128; 192; 255]). solve_colour.
Qed.

Lemma human_visible_trusted_witness :
  exists out o', compose_human_visible box_face no_atlas (window 9) demo_overlays Scene.demo_geom true = Some (out, o')
  /\ out !! 0%nat = Some 64
  /\ exists o'', compose_human_visible box_face no_atlas (window 200) demo_overlays Scene.demo_geom true = Some (out, o'').
Proof.
  destruct (human_visible_trusted box_face no_atlas box_assets (window 9) demo_overlays Scene.demo_geom true (demo_surface_wf 9))
    as (view & out & o' & _ & Hout & _ & _ & Hband & Hblind).
  - intros c [= <-]. repeat (constructor; [unfold is_u8, u8_max; lia|]). constructor.
  - exact demo_view_fits.
  - exact demo_overlays_wf.
  - by vm_compute.
  - by vm_compute.
  - exists out, o'. split; [exact Hout|]. split; [exact (Hband 0%nat 0%nat 0%nat ltac:(cbn; lia) ltac:(done) ltac:(lia))|].
    apply (Hblind eq_refl (window 200) (demo_surface_wf 200)). intros c [= <-]. repeat (constructor; [unfold is_u8, u8_max; lia|]). constructor.
Defined.
