(* ===== verification/Rounds.v ===== *)
(** * The session's rounds

    What the session holds between two turns of [crates/vitrin-core/src/session.rs],
    and a turn of interactive consent ([service_consent_round]), which retires, drains
    and raises. What the runtime holds is a record of the components' states; the
    transport is [send_to]. [None] is a panic, or a loop out of fuel. *)

From S2P Require Import Prelude BTree Text Clipboard Identity Wire Grants Petitions Uses Attention Principal Picker Delivery Designation.
From S2P Require Import Messages Terminals Atlas Lettering Card Consent Grab.

(* ------------------------------------------------------------------------ *)
(** ** Why a designation is refused *)

Inductive SettleFailure : Type := SfCancelled | SfTimedOut | SfAuthorityDied | SfRealmDied | SfConnectionGone | SfUnresolvable.
#[export] Instance SettleFailure_eq_dec : EqDecision SettleFailure.
Proof. solve_decision. Defined.
Definition failure_code (f : SettleFailure) : Refusal :=
  match f with
  | SfCancelled => RefCancelled
  | SfTimedOut | SfAuthorityDied | SfRealmDied | SfConnectionGone => RefTimedOut
  | SfUnresolvable => RefUnresolvable
  end.
Definition failure_word (f : SettleFailure) : Str :=
  match f with
  | SfCancelled => str "cancelled"
  | SfTimedOut => str "timed_out"
  | SfAuthorityDied => str "authority_died"
  | SfRealmDied => str "realm_died"
  | SfConnectionGone => str "connection_gone"
  | SfUnresolvable => str "unresolvable"
  end.
Definition failure_of_undelivered (e : Undelivered) : SettleFailure :=
  match e with
  | Designation.AuthorityDied => SfAuthorityDied
  | Designation.RealmDied => SfRealmDied
  | Designation.TimedOut => SfTimedOut
  | Designation.ConnectionGone => SfConnectionGone
  end.

Definition designation_kind (ask : AskedFor) : Str := match ask with AskFile _ => str "file" | AskDir => str "directory" end.
Definition designation_mode (ask : AskedFor) : Str := match ask with AskFile true => str "read_write" | AskFile false | AskDir => str "read" end.

(** [Event::DesignationSettled]. *)
Record Settled : Type := {
  se_connection : ConnectionId; se_designation : Z; se_principal : PrincipalIdentity; se_realm : RealmId; se_grant : GrantId;
  se_target : Str; se_mode : Str; se_dev_ino : option (Z * Z); se_delivered : bool; se_outcome : Str }.
(** The journal's lines these rounds write, and the wakes of their outboxes. *)
Inductive JournalLine : Type :=
| DesignationSettled (e : Settled)
| GrantExpired (g : GrantId)
| SessionLocked (cause : Str) (passphrase : bool) (realms : nat)
| UnlockAttempted (accepted : bool)
| SessionUnlocked
| ScreenBlanked (live_grants : nat) (locked : bool)
| ScreenWoke (dark_ms : Z) (outcome : Str) (live_grants : nat) (locked : bool).
Inductive Woken : Type := WakeAgent (c : ConnectionId) | WakeShim (realm : RealmId).

Inductive PromptVisibility : Type := Reachable | ScreenNotOurs | ScreenIsDark.
#[export] Instance PromptVisibility_eq_dec : EqDecision PromptVisibility.
Proof. solve_decision. Defined.
Inductive SettleOutcome : Type := OutConfirmed | OutCancelled.

(* ------------------------------------------------------------------------ *)
(** ** The runtime *)

Section rounds.
Context {W X Fd WF Dg : Type}.
Context (face : Face) (atlas : Atlas).
Context (send_to : ConnectionId -> PrincipalEvent Fd -> W -> result unit X * W).

(** The designations: the ledger, what is in flight, the picker up, the frames put
    in the connections' outboxes and the lines of the journal. *)
Record Desk : Type := {
  dk_ledger : Ledger;
  dk_deliveries : btree (@InFlight Fd);
  dk_root : option Fd;
  dk_picker : option (@PickerSession Fd);
  dk_files : WF;
  dk_frames : list (ConnectionId * Bytes);
  dk_wakes : list Woken;
  dk_journal : list JournalLine }.

(** A realm is [true] when its shim is being served. *)
Record Runtime : Type := {
  rn_stage : Stage;
  rn_conns : gmap ConnectionId PrincipalServer;
  rn_grants : GrantTable;
  rn_attention : AttentionSignal;
  rn_world : W;
  rn_serving : gmap RealmId bool;
  rn_clipboard : @ClipboardSlot Dg;
  rn_desk : Desk }.

Definition on_stage (w : Stage) (r : Runtime) : Runtime :=
  {| rn_stage := w; rn_conns := rn_conns r; rn_grants := rn_grants r; rn_attention := rn_attention r; rn_world := rn_world r;
     rn_serving := rn_serving r; rn_clipboard := rn_clipboard r; rn_desk := rn_desk r |}.
Definition on_desk (d : Desk) (r : Runtime) : Runtime :=
  {| rn_stage := rn_stage r; rn_conns := rn_conns r; rn_grants := rn_grants r; rn_attention := rn_attention r; rn_world := rn_world r;
     rn_serving := rn_serving r; rn_clipboard := rn_clipboard r; rn_desk := d |}.
Definition with_ledger (l : Ledger) (d : Desk) : Desk :=
  {| dk_ledger := l; dk_deliveries := dk_deliveries d; dk_root := dk_root d; dk_picker := dk_picker d; dk_files := dk_files d;
     dk_frames := dk_frames d; dk_wakes := dk_wakes d; dk_journal := dk_journal d |}.
Definition with_deliveries (t : btree (@InFlight Fd)) (d : Desk) : Desk :=
  {| dk_ledger := dk_ledger d; dk_deliveries := t; dk_root := dk_root d; dk_picker := dk_picker d; dk_files := dk_files d;
     dk_frames := dk_frames d; dk_wakes := dk_wakes d; dk_journal := dk_journal d |}.
Definition with_picker (p : option (@PickerSession Fd)) (d : Desk) : Desk :=
  {| dk_ledger := dk_ledger d; dk_deliveries := dk_deliveries d; dk_root := dk_root d; dk_picker := p; dk_files := dk_files d;
     dk_frames := dk_frames d; dk_wakes := dk_wakes d; dk_journal := dk_journal d |}.
Definition with_files (w : WF) (d : Desk) : Desk :=
  {| dk_ledger := dk_ledger d; dk_deliveries := dk_deliveries d; dk_root := dk_root d; dk_picker := dk_picker d; dk_files := w;
     dk_frames := dk_frames d; dk_wakes := dk_wakes d; dk_journal := dk_journal d |}.
Definition push_frame (f : ConnectionId * Bytes) (d : Desk) : Desk :=
  {| dk_ledger := dk_ledger d; dk_deliveries := dk_deliveries d; dk_root := dk_root d; dk_picker := dk_picker d; dk_files := dk_files d;
     dk_frames := dk_frames d ++ [f]; dk_wakes := dk_wakes d; dk_journal := dk_journal d |}.
Definition push_wake (x : Woken) (d : Desk) : Desk :=
  {| dk_ledger := dk_ledger d; dk_deliveries := dk_deliveries d; dk_root := dk_root d; dk_picker := dk_picker d; dk_files := dk_files d;
     dk_frames := dk_frames d; dk_wakes := dk_wakes d ++ [x]; dk_journal := dk_journal d |}.
Definition push_journal (e : JournalLine) (d : Desk) : Desk :=
  {| dk_ledger := dk_ledger d; dk_deliveries := dk_deliveries d; dk_root := dk_root d; dk_picker := dk_picker d; dk_files := dk_files d;
     dk_frames := dk_frames d; dk_wakes := dk_wakes d; dk_journal := dk_journal d ++ [e] |}.

(** A connection's server at work on the kernel's grants. *)
Definition serve {A} (c : ConnectionId) (m : Core W -> A * Core W) (r : Runtime) : Runtime :=
  match rn_conns r !! c with
  | None => r
  | Some server =>
      let s := (m {| st_server := server; st_petitions := sg_petitions (rn_stage r); st_grants := rn_grants r;
                     st_attention := rn_attention r; st_world := rn_world r |}).2 in
      {| rn_stage := rn_stage r; rn_conns := <[c := st_server s]> (rn_conns r); rn_grants := st_grants s;
         rn_attention := rn_attention r; rn_world := st_world s; rn_serving := rn_serving r; rn_clipboard := rn_clipboard r; rn_desk := rn_desk r |}
  end.
Definition deliver (res : Resolution) (now : Instant) (r : Runtime) : Runtime :=
  serve (rs_connection res) (deliver_resolution (send_to (rs_connection res)) now res) r.
Definition announce_prompt (route : ConnectionId * Z) (r : Runtime) : Runtime :=
  serve route.1 (emit_consent_shown (send_to route.1) route) r.

(* ------------------------------------------------------------------------ *)
(** ** A turn of consent *)

Definition round_retire (r : Runtime) : bool * Runtime :=
  let '(changed, w) := retire_stale (rn_stage r) in (changed, on_stage w r).

(** The decisions drained, each resolving the petition it names. *)
Fixpoint drain_decisions (fuel : nat) (now : Instant) (changed : bool) (r : Runtime) : option (bool * Runtime) :=
  match fuel with
  | O => None
  | S fuel =>
      let '(decision, g) := take_decision (sg_grab (rn_stage r)) in
      let r := on_stage (with_grab g (rn_stage r)) r in
      match decision with
      | None => Some (changed, r)
      | Some d =>
          let '(resolved, reg) := resolve_human (sg_petitions (rn_stage r)) (de_petition d) (de_choice d) in
          let r := on_stage (with_petitions reg (rn_stage r)) r in
          match resolved with
          | Ok res => drain_decisions fuel now true (deliver res now r)
          | Err _ => drain_decisions fuel now changed r
          end
      end
  end.

(** The next petition's card, where the human can see the screen and none is up. *)
Definition round_raise (now : Instant) (visibility : PromptVisibility) (changed : bool) (r : Runtime) : option (bool * Runtime) :=
  if bool_decide (visibility = Reachable) && bool_decide (raised (sg_grab (rn_stage r)) = None) then
    match front_pending (sg_petitions (rn_stage r)) with
    | None => Some (changed, r)
    | Some front =>
        '(route, w) ← grab_raise face atlas front now (rn_stage r);
        let r := on_stage w r in
        match route with
        | Some route => Some (true, announce_prompt route r)
        | None => Some (changed, r)
        end
    end
  else Some (changed, r).

Definition service_consent_round (now : Instant) (visibility : PromptVisibility) (r : Runtime) : option (bool * Runtime) :=
  let '(retired, r) := round_retire r in
  '(changed, r) ← drain_decisions (S (length (cg_decisions (sg_grab (rn_stage r))))) now retired r;
  let '(retired, r) := round_retire r in
  round_raise now visibility (changed || retired) r.
End rounds.

(* ------------------------------------------------------------------------ *)
(** ** What a turn of consent does *)

Section consent.
Context {W X Fd WF Dg : Type}.
Context (face : Face) (atlas : Atlas) (Hassets : assets_ok face atlas).
Context (send_to : ConnectionId -> PrincipalEvent Fd -> W -> result unit X * W).
Local Notation Runtime := (@Runtime W Fd WF Dg).
Local Notation deliver := (@deliver W X Fd WF Dg send_to).
Local Notation stage_wf := (stage_wf face atlas).
Local Notation stage_run := (stage_run face atlas).
Local Notation stage_step := (stage_step face atlas).

Lemma serve_stage {A} c (m : Core W -> A * Core W) (r : Runtime) :
  rn_stage (serve c m r) = rn_stage r /\ rn_desk (serve c m r) = rn_desk r /\ rn_serving (serve c m r) = rn_serving r.
Proof using. unfold serve. by case_match. Qed.

(** The grant table after a delivery: as before, or with the approved row. *)
Lemma delivery_grants send now res (s : Core W) :
  let s' := (@deliver_resolution W X Fd send now res s).2 in
  st_grants s' = st_grants s
  \/ exists approved, rs_verdict res = Granted approved /\ st_grants s' = (insert_row approved (st_grants s) now).2.
Proof using.
  cbv zeta. unfold deliver_resolution, pbind, pget, pfail. case_match; [by left|]. case_match; [by left|].
  assert (forall evs (s0 : Core W), st_grants (announce send evs s0).2 = st_grants s0) as Hann.
  { induction evs as [|e evs IH]; intros s0; [done|]. cbn. destruct (send e (st_world s0)) as [[]]; [by rewrite IH|done]. }
  destruct (ps_objects (st_server s) !! rs_grant_wire_id res) as [kind|]; [|by left]. destruct kind as [|handle| | | | | | | | |]; try by left.
  destruct handle as [|row]; [|by left]. unfold resolve_row.
  destruct (rs_verdict res) as [approved|oc].
  - right. exists approved. split; [done|]. destruct (insert_row approved (st_grants s) now) as [[id|e] g]; cbn; rewrite ?Hann; done.
  - left. cbn. by rewrite Hann.
Qed.

Lemma deliver_grants now res (r : Runtime) :
  rn_grants (deliver res now r) = rn_grants r
  \/ exists approved, rs_verdict res = Granted approved /\ rn_grants (deliver res now r) = (insert_row approved (rn_grants r) now).2.
Proof using.
  unfold Rounds.deliver, serve. destruct (rn_conns r !! _) as [server|]; [|by left]. cbn. apply (delivery_grants (send_to (rs_connection res)) now res
    {| st_server := server; st_petitions := sg_petitions (rn_stage r); st_grants := rn_grants r; st_attention := rn_attention r; st_world := rn_world r |}).
Qed.

Lemma announce_grants route (r : Runtime) : rn_grants (announce_prompt send_to route r) = rn_grants r.
Proof using.
  unfold announce_prompt, serve. destruct (rn_conns r !! _) as [server|]; [|done]. cbn. unfold emit_consent_shown.
  repeat case_match; cbn; try done. 
Qed.

(** What a petition decided by a human comes to. *)
Definition approved_of (p : PendingPetition) (rung : PersistenceRung) : ApprovedGrant :=
  {| ag_identity := pp_identity p; ag_realm := pp_realm p; ag_effective := effective_of (pp_requested p) rung; ag_issuer := HumanConsent |}.
(** The grants after a decision: as they were, or with the row of the petition it
    allows, no wider than was asked. *)
Definition decided (w : Stage) (now : Instant) (d : Decision) (before after : GrantTable) : Prop :=
  after = before
  \/ exists p rung, pending (sg_petitions w) !! de_petition d = Some p /\ de_choice d = Allow rung
       /\ narrows rung (q_persistence (pp_requested p)) = true /\ after = (insert_row (approved_of p rung) before now).2.

Lemma resolved_verdict reg id choice res reg' approved :
  resolve_human reg id choice = (Ok res, reg') -> rs_verdict res = Granted approved ->
  exists p rung, pending reg !! id = Some p /\ choice = Allow rung /\ narrows rung (q_persistence (pp_requested p)) = true /\ approved = approved_of p rung.
Proof using.
  unfold resolve_human. destruct (pending reg !! id) as [p|]; [|done]. destruct choice as [rung|].
  - destruct (narrows _ _) eqn:Hn; [|done]. cbn. intros [= <- <-]. cbn. intros [= <-]. by exists p, rung.
  - cbn. by intros [= <- <-].
Qed.

(** What draining comes to: a run of at most three operations, which leaves no
    decision and the card as it was. *)
Record drained (now : Instant) (r r' : Runtime) (ops : list GrabOp) (taken : list Decision) : Prop := {
  dr_run : stage_run ops (rn_stage r) = Some (taken, rn_stage r');
  dr_ops : Forall grab_op_ok ops;
  dr_short : (length ops <= 3)%nat;
  dr_empty : cg_decisions (sg_grab (rn_stage r')) = [];
  dr_raised : raised (sg_grab (rn_stage r')) = raised (sg_grab (rn_stage r));
  dr_grants : (taken = [] /\ rn_grants r' = rn_grants r)
    \/ exists d, taken = [d] /\ cg_decisions (sg_grab (rn_stage r)) = [d] /\ decided (rn_stage r) now d (rn_grants r) (rn_grants r') }.

Lemma drain_spec now changed (r : Runtime) :
  stage_wf (rn_stage r) ->
  exists changed' r' ops taken,
    drain_decisions send_to (S (length (cg_decisions (sg_grab (rn_stage r))))) now changed r = Some (changed', r')
    /\ drained now r r' ops taken.
Proof using.
  clear Hassets. intros Hwf. pose proof (gw_decisions _ _ _ Hwf) as Hone. destruct (cg_decisions (sg_grab (rn_stage r))) as [|d l] eqn:Hd.
  - cbn [length drain_decisions]. unfold take_decision. rewrite Hd. eexists _, _, [GTakeDecision], []. split; [reflexivity|].
    split; [cbn; unfold take_decision; by rewrite Hd|by repeat constructor|cbn; lia|done|done|by left].
  - destruct l; [|done]. cbn [length]. cbn [drain_decisions]. unfold take_decision at 1. rewrite Hd. cbn [on_stage rn_stage with_grab sg_petitions].
    destruct (resolve_human (sg_petitions (rn_stage r)) (de_petition d) (de_choice d)) as [[res|err] reg] eqn:Hres.
    + match goal with |- context [Rounds.deliver send_to res now ?r0] => set (r1 := r0) end.
      destruct (serve_stage (rs_connection res) (deliver_resolution (send_to (rs_connection res)) now res) r1) as (Hst & Hdk & _).
      fold (deliver res now r1) in Hst, Hdk. change (Rounds.deliver send_to res now r1) with (deliver res now r1).
      rewrite Hst. unfold r1 at 1. cbn [rn_stage on_stage with_petitions sg_grab with_grab]. unfold take_decision. cbn [cg_decisions set_decisions].
      eexists _, _, [GTakeDecision; GPetitions (POpResolve (de_petition d) (de_choice d)); GTakeDecision], [d]. split; [reflexivity|].
      split; [cbn; unfold take_decision; rewrite Hd; cbn; by rewrite Hres|by repeat constructor|cbn; lia|done|done|].
      right. exists d. split_and!; [done|done|].
      cbn [on_stage rn_grants]. destruct (deliver_grants now res r1) as [->|(approved & Hv & ->)]; [by left|].
      destruct (resolved_verdict _ _ _ _ _ _ Hres Hv) as (p & rung & Hp & Hc & Hn & ->). right. by exists p, rung.
    + eexists _, _, [GTakeDecision; GPetitions (POpResolve (de_petition d) (de_choice d)); GTakeDecision], [d]. cbn. unfold take_decision. cbn. split; [reflexivity|].
      split; [cbn; unfold take_decision; rewrite Hd; cbn; by rewrite Hres|by repeat constructor|cbn; lia|done|done|].
      right. exists d. split_and!; [done|done|by left].
Qed.

Lemma stage_run_room ops : forall w n t w',
  stage_wf w -> Forall grab_op_ok ops -> room w (length ops + n) -> stage_run ops w = Some (t, w') -> stage_wf w' /\ room w' (S n - 1).
Proof using Hassets.
  induction ops as [|op ops IH]; intros w n t w' Hwf Hops [Hg Hn]; cbn [Grab.stage_run length] in *; [intros [= <- <-]; split; [done|split; lia]|].
  inversion_clear Hops as [|? ? Hop Hrest]. destruct (stage_step_wf face atlas Hassets op w Hwf Hop ltac:(lia) ltac:(lia)) as (t1 & w1 & -> & Hw1 & Hg1 & Hn1). cbn [mbind option_bind].
  intros ([t2 w2] & Hrun & [= <- <-])%bind_Some. apply (IH w1 n _ _ Hw1 Hrest ltac:(split; lia) Hrun).
Qed.

Lemma retire_cases w :
  stage_wf w -> cs_generation (sg_surface w) < u64_max ->
  let w' := (retire_stale w).2 in
  stage_wf w' /\ sg_petitions w' = sg_petitions w
  /\ ((w' = w /\ forall id, raised_petition (sg_grab w) = Some id -> is_Some (pending (sg_petitions w) !! id))
      \/ (raised (sg_grab w') = None /\ cg_decisions (sg_grab w') = [])).
Proof using.
  clear Hassets. intros Hwf Hg. cbv zeta. unfold retire_stale. destruct (raised_petition (sg_grab w)) as [current|] eqn:Hr;
    [|by split_and!; [done|done|left; split]].
  unfold pending_route. destruct (pending (sg_petitions w) !! current) as [p|] eqn:Hp; cbn [fmap option_fmap option_map snd].
  - split_and!; [done|done|left; split; [done|]]. intros id [= <-]. by rewrite Hp.
  - destruct (lower_wf face atlas w Hwf Hg) as (Hw & Hn & _). split_and!; [done| |right; split; [done|by apply (idle_queues face atlas)]].
    unfold grab_lower. unfold raised_petition, raised in Hr. cbn [with_surface sg_grab]. destruct (cg_prompt (sg_grab w)) as [q|]; [|done]. cbn in Hr.
    destruct (ap_subject q); [|done]. injection Hr as ->. cbn. unfold mark_prompt_hidden, mark_prompt. by rewrite Hp.
Qed.

(** The card up after a raise onto an empty stage. *)
Lemma raise_front now w :
  stage_wf w -> raised (sg_grab w) = None -> cs_generation (sg_surface w) + 2 <= u64_max ->
  forall front, front_pending (sg_petitions w) = Some front ->
  exists route w', grab_raise face atlas front now w = Some (Some route, w') /\ stage_wf w' /\ raised (sg_grab w') = Some (SPetition front)
    /\ cg_decisions (sg_grab w') = [] /\ is_Some (pending (sg_petitions w') !! front).
Proof using Hassets.
  intros Hwf Hn Hg front Hf. assert (is_Some (pending (sg_petitions w) !! front)) as [p Hp] by (by apply (bt_first_spec _ _ (pwf_sorted _ (gw_petitions _ _ _ Hwf)) Hf)).
  unfold grab_raise. rewrite Hn. destruct (raise_fresh_wf face atlas Hassets front now w Hwf Hn ltac:(lia)) as (r & w' & Hr & Hwf' & _ & _ & Hup).
  rewrite Hp in Hup. destruct Hup as (-> & Hup & Hin). exists (pp_connection p, pp_consent_wire_id p), w'. split_and!; [done|done|done| |done].
  destruct (raise_fresh_cases face atlas front now w _ _ Hr) as [Hs|[_ Hs]]; [rewrite Hs|rewrite Hs]; by apply (idle_queues face atlas).
Qed.

Lemma round_raise_spec now visibility changed (r : Runtime) :
  stage_wf (rn_stage r) -> cs_generation (sg_surface (rn_stage r)) + 2 <= u64_max -> cg_decisions (sg_grab (rn_stage r)) = [] ->
  (forall id, raised_petition (sg_grab (rn_stage r)) = Some id -> is_Some (pending (sg_petitions (rn_stage r)) !! id)) ->
  exists changed' r' ops,
    round_raise face atlas send_to now visibility changed r = Some (changed', r')
    /\ stage_run ops (rn_stage r) = Some ([], rn_stage r') /\ Forall grab_op_ok ops /\ stage_wf (rn_stage r')
    /\ rn_grants r' = rn_grants r /\ cg_decisions (sg_grab (rn_stage r')) = []
    /\ (forall id, raised_petition (sg_grab (rn_stage r')) = Some id -> is_Some (pending (sg_petitions (rn_stage r')) !! id))
    /\ (visibility = Reachable -> raised (sg_grab (rn_stage r')) = None -> pending (sg_petitions (rn_stage r')) = bt_empty)
    /\ (visibility <> Reachable -> raised (sg_grab (rn_stage r')) = raised (sg_grab (rn_stage r))).
Proof using Hassets.
  intros Hwf Hg Hd Hup. unfold round_raise. destruct (bool_decide_reflect (visibility = Reachable)) as [Hv|Hv]; cbn [andb].
  2:{ exists changed, r, []. split_and!; done. }
  destruct (bool_decide_reflect (raised (sg_grab (rn_stage r)) = None)) as [Hn|Hn].
  2:{ exists changed, r, []. split_and!; done. }
  destruct (front_pending (sg_petitions (rn_stage r))) as [front|] eqn:Hf.
  2:{ exists changed, r, []. split_and!; try done. intros _ _. by apply bt_first_None. }
  destruct (raise_front now (rn_stage r) Hwf Hn Hg front Hf) as (route & w' & Hr & Hwf' & Hu & Hd' & Hp). rewrite Hr. cbn [mbind option_bind].
  destruct (serve_stage route.1 (emit_consent_shown (send_to route.1) route) (on_stage w' r)) as (Hst & _). change (serve route.1 _ (on_stage w' r)) with (announce_prompt send_to route (on_stage w' r)) in Hst. cbn [on_stage rn_stage] in Hst.
  eexists true, _, [GRaise front now]. rewrite !Hst. split_and!; [done| |by repeat constructor|done|by rewrite announce_grants|done| | |done].
  - cbn. rewrite Hr. done.
  - unfold raised_petition. rewrite Hu. by intros id [= <-].
  - by rewrite Hu.
Qed.

(** C5: a turn of consent takes the human at their word and no further. For any
    runtime whose stage is well formed, the turn returns, and what it does to the
    stage is a run of the grab's own operations, so that what is shown of those
    holds of the session's loop. It drains every decision: the grants end as they
    were, or with the one row of the petition the human allowed, of that
    principal, realm and set of verbs and of a rung no wider than was asked.
    Afterwards a card that is up is of a petition still pending; on a screen the
    human can see, the queue never stalls: if no card is up nothing is pending;
    on one they cannot, no card goes up. *)
Theorem consent_round_refines (now : Instant) (visibility : PromptVisibility) (r : Runtime)
  (Hwf : stage_wf (rn_stage r)) (Hroom : room (rn_stage r) 8) :
  exists changed r' ops taken,
    service_consent_round face atlas send_to now visibility r = Some (changed, r')
    /\ stage_run ops (rn_stage r) = Some (taken, rn_stage r') /\ Forall grab_op_ok ops /\ stage_wf (rn_stage r')
    /\ cg_decisions (sg_grab (rn_stage r')) = []
    /\ ((taken = [] /\ rn_grants r' = rn_grants r)
        \/ exists d, taken = [d] /\ cg_decisions (sg_grab (rn_stage r)) = [d] /\ decided (rn_stage r) now d (rn_grants r) (rn_grants r'))
    /\ (forall id, raised_petition (sg_grab (rn_stage r')) = Some id -> is_Some (pending (sg_petitions (rn_stage r')) !! id))
    /\ (visibility = Reachable -> raised (sg_grab (rn_stage r')) = None -> pending (sg_petitions (rn_stage r')) = bt_empty)
    /\ (visibility <> Reachable -> raised (sg_grab (rn_stage r')) = None \/ raised (sg_grab (rn_stage r')) = raised (sg_grab (rn_stage r))).
Proof using Hassets.
  destruct (retire_cases _ Hwf ltac:(destruct Hroom; lia)) as (Hwf1 & Hpet1 & Hcase1).
  destruct (stage_run_room [GRetire] (rn_stage r) 7 [] _ Hwf ltac:(by repeat constructor) Hroom eq_refl) as [_ Hroom1].
  unfold service_consent_round, round_retire. destruct (retire_stale (rn_stage r)) as [b1 w1] eqn:He1. cbn [snd] in *.
  set (r1 := on_stage w1 r) in *. destruct (drain_spec now b1 r1 Hwf1) as (b2 & r2 & ops2 & taken & Hdrain & Hd2).
  cbn [on_stage rn_stage]. fold r1. rewrite Hdrain. cbn [mbind option_bind]. clear Hdrain.
  pose proof (dr_short _ _ _ _ _ Hd2) as Hshort.
  destruct (stage_run_room ops2 w1 4 _ _ Hwf1 (dr_ops _ _ _ _ _ Hd2) ltac:(unfold room in *; lia) (dr_run _ _ _ _ _ Hd2)) as [Hwf2 Hroom2].
  destruct (retire_cases _ Hwf2 ltac:(destruct Hroom2; lia)) as (Hwf3 & Hpet3 & Hcase3).
  destruct (stage_run_room [GRetire] (rn_stage r2) 3 [] _ Hwf2 ltac:(by repeat constructor) Hroom2 eq_refl) as [_ Hroom3].
  destruct (retire_stale (rn_stage r2)) as [b3 w3] eqn:He3. cbn [snd] in *.
  assert (cg_decisions (sg_grab w3) = []) as Hd3 by (destruct Hcase3 as [[-> _]|[_ ?]]; [apply (dr_empty _ _ _ _ _ Hd2)|done]).
  assert (forall id, raised_petition (sg_grab w3) = Some id -> is_Some (pending (sg_petitions w3) !! id)) as Hup3.
  { rewrite Hpet3. destruct Hcase3 as [[-> ?]|[Hn _]]; [done|]. unfold raised_petition. by rewrite Hn. }
  destruct (round_raise_spec now visibility (b2 || b3) (on_stage w3 r2) Hwf3 ltac:(destruct Hroom3; cbn; lia) Hd3 Hup3)
    as (changed & r' & ops3 & -> & Hrun3 & Hok3 & Hwf' & Hgr' & Hd' & Hup' & Hgo & Hstay).
  exists changed, r', (GRetire :: ops2 ++ GRetire :: ops3), taken. split_and!; try done.
  - cbn [Grab.stage_run]. cbn [Grab.stage_step mbind option_bind]. rewrite He1. cbn [snd mbind option_bind]. pose proof (dr_run _ _ _ _ _ Hd2) as Hrun2. cbn [r1 on_stage rn_stage] in Hrun2. rewrite stage_run_app, Hrun2.
    cbn [mbind option_bind Grab.stage_run Grab.stage_step]. rewrite He3. cbn [snd mbind option_bind]. cbn [on_stage rn_stage] in Hrun3. rewrite Hrun3.
    cbn [mbind option_bind app]. by rewrite app_nil_r.
  - constructor; [done|]. apply Forall_app. split; [apply (dr_ops _ _ _ _ _ Hd2)|by constructor].
  - rewrite Hgr'. cbn [on_stage rn_grants]. destruct (dr_grants _ _ _ _ _ Hd2) as [Hno|(d & -> & Hdec & Hres)]; [by left|]. cbn [r1 on_stage rn_stage rn_grants] in Hdec, Hres.
    destruct Hcase1 as [[-> _]|[_ Hno]]; [|by rewrite Hdec in Hno]. right. by exists d.
  - intros Hno. rewrite (Hstay Hno). cbn [on_stage rn_stage]. pose proof (dr_raised _ _ _ _ _ Hd2) as Hr2. cbn [r1 on_stage rn_stage] in Hr2.
    destruct Hcase3 as [[-> _]|[-> _]]; [|by left]. rewrite Hr2. destruct Hcase1 as [[-> _]|[-> _]]; [by right|by left].
Qed.
End consent.

(* ------------------------------------------------------------------------ *)
(** ** Worked instances *)

Definition demo_desk : @Desk unit unit :=
  {| dk_ledger := ledger_new Spends; dk_deliveries := bt_empty; dk_root := None; dk_picker := None; dk_files := tt; dk_frames := []; dk_wakes := [];
     dk_journal := [] |}.
Definition demo_runtime (w : Stage) : @Runtime unit unit unit unit :=
  {| rn_stage := w; rn_conns := {[ 1 := principal_new 1000 1 ]}; rn_grants := table_new;
     rn_attention := signal_new {| ac_name := []; ac_evdev := 0; ac_keysym := 0 |}; rn_world := tt; rn_serving := ∅; rn_clipboard := slot_new; rn_desk := demo_desk |}.
Definition demo_send (c : ConnectionId) (e : PrincipalEvent unit) (w : unit) : result unit unit * unit := (Ok tt, w).

Lemma demo_stage_wf : stage_wf box_face no_atlas demo_stage.
Proof.
  apply down_wf; try reflexivity; [apply demo_pending_wf|apply surface_new_wf| |].
  - split; [|reflexivity]. split; [vm_compute; lia|]. repeat constructor; vm_compute; discriminate.
  - intros id p Hp. assert (forallb (fun e => negb (pp_prompt_shown e.2)) (bt_entries (pending demo_pending)) = true) as Hall by (by vm_compute).
    rewrite forallb_forall in Hall. apply bt_lookup_In in Hp. apply Hall in Hp. cbn in Hp. by destruct (pp_prompt_shown p).
Qed.

Lemma consent_round_refines_witness :
  exists changed r', service_consent_round box_face no_atlas demo_send 0 Reachable (demo_runtime demo_stage) = Some (changed, r').
Proof.
  destruct (consent_round_refines box_face no_atlas box_assets demo_send 0 Reachable (demo_runtime demo_stage) demo_stage_wf)
    as (changed & r' & _ & _ & H & _); [vm_compute; split; discriminate|]. by exists changed, r'.
Defined.
