(* ===== verification/Settle.v ===== *)
(** * What becomes of a designation

    The turns of [crates/vitrin-core/src/session.rs] that settle the designations an
    agent asked for: [service_picker_round], which raises the picker, drains what
    the human does in it and settles the one they confirm; the two halves of a
    delivery; the sweep of what has run out; and what a lock, a connection that
    closes and a realm that dies leave of them. The transport is [send_to] and the
    two [reply]s, the files are the picker's kernel and [fstat]. [None] is a
    panic, or a loop out of fuel. *)

From S2P Require Import Prelude BTree Text NetSel Transcript Clipboard Identity Wire Grants Petitions Uses Enforcement Attention Principal Picker Delivery Designation.
From S2P Require Import Messages Terminals Shim Atlas Lettering Card Consent Grab Rounds.

Section settle.
Context {W X Fd WF Dg D : Type} `{EqDecision D}.
Context (K : Picker.Kernel WF Fd) (fstat : WF -> Fd -> option (Z * Z) * WF).
Context (face_covers atlas_covers : Z -> bool) (raster : Transcript -> D) (to_lowercase : Str -> Str).
Context (send_to : ConnectionId -> PrincipalEvent Fd -> W -> result unit X * W).
Context (reply_agent : ConnectionId -> Bytes -> Fd -> W -> bool * W) (reply_realm : RealmId -> Bytes -> Fd -> W -> bool * W).
Local Notation Runtime := (@Runtime W Fd WF Dg).
Local Notation InFlight := (@InFlight Fd).

(** [DeliveryWorld]. *)
Definition delivery_world (now : Instant) (r : Runtime) : LivenessWorld :=
  {| grant_is_live := fun grant spent_by_this_ticket =>
       match get (rn_grants r) grant now with
       | None => false
       | Some (row, state) =>
           if Z.land (verbs row) DESIGNATE_FILE =? 0 then false
           else match state with GActive => true | GSpent => spent_by_this_ticket | GRevoked | GExpired => false end
       end;
     realm_is_the_same := fun realm => bool_decide (rn_serving r !! realm = Some true) |}.

(* ------------------------------------------------------------------------ *)
(** ** The journal and the refusals *)

Definition settled_of (t : DesignationTicket) (id : Z) (dev_ino : option (Z * Z)) (outcome : Str) : Settled :=
  {| se_connection := t_connection t; se_designation := id; se_principal := t_principal t; se_realm := t_realm t; se_grant := t_grant t;
     se_target := designation_kind (t_ask t); se_mode := designation_mode (t_ask t); se_dev_ino := dev_ino; se_delivered := false;
     se_outcome := outcome |}.
Definition journal_designation (id : Z) (ticket : option DesignationTicket) (dev_ino : option (Z * Z)) (why : SettleFailure) (r : Runtime) : Runtime :=
  match ticket with
  | None => r
  | Some t => on_desk (push_journal (DesignationSettled (settled_of t id dev_ino (failure_word why))) (rn_desk r)) r
  end.

Definition voice_powerbox_refusal (t : DesignationTicket) (why : SettleFailure) (r : Runtime) : option Runtime :=
  match rn_conns r !! t_connection t with
  | None => Some r
  | Some _ =>
      frame ← powerbox_refusal_frame (t_facet_id t) (failure_code why);
      Some (on_desk (push_frame (t_connection t, frame) (rn_desk r)) r)
  end.

Definition settle_refused (id : Z) (why : SettleFailure) (r : Runtime) : option Runtime :=
  let '(ticket, l) := Designation.take (dk_ledger (rn_desk r)) id in
  let r := on_desk (with_ledger l (rn_desk r)) r in
  match ticket with
  | None => Some r
  | Some t => voice_powerbox_refusal t why (journal_designation id (Some t) None why r)
  end.

Definition settled_in_flight (e : InFlight) (delivered : bool) (outcome : Str) : Settled :=
  {| se_connection := if_connection e; se_designation := if_id e; se_principal := if_principal e; se_realm := if_realm e;
     se_grant := if_grant e; se_target := designation_kind (if_ask e); se_mode := designation_mode (if_ask e);
     se_dev_ino := Some (if_dev_ino e); se_delivered := delivered; se_outcome := outcome |}.
Definition abandoned_word (why : Abandoned) : Str :=
  match why with
  | NoTurn => str "no_turn"
  | Delivery.ConnectionGone => str "connection_gone"
  | Delivery.RealmDied => str "realm_died"
  | SendFailed => str "send_failed"
  end.
Definition journal_abandoned (e : InFlight) (why : Abandoned) (r : Runtime) : Runtime :=
  on_desk (push_journal (DesignationSettled (settled_in_flight e (bool_decide (if_agent e = Sent)) (abandoned_word why))) (rn_desk r)) r.
Definition journal_delivered (e : InFlight) (r : Runtime) : Runtime :=
  on_desk (push_journal (DesignationSettled (settled_in_flight e true (str "delivered"))) (rn_desk r)) r.
Definition release_delivery (id : Z) (why : Abandoned) (r : Runtime) : Runtime :=
  let '(entry, t) := take_any id (dk_deliveries (rn_desk r)) in
  let r := on_desk (with_deliveries t (rn_desk r)) r in
  match entry with None => r | Some e => journal_abandoned e why r end.

(** A loop over tickets or entries taken from the desk. *)
Definition journal_each (why : SettleFailure) (ts : list DesignationTicket) (r : Runtime) : Runtime :=
  fold_left (fun r t => journal_designation (t_id t) (Some t) None why r) ts r.
Fixpoint refuse_each (why : SettleFailure) (ts : list DesignationTicket) (r : Runtime) : option Runtime :=
  match ts with
  | [] => Some r
  | t :: ts => r ← voice_powerbox_refusal t why (journal_designation (t_id t) (Some t) None why r); refuse_each why ts r
  end.
Definition abandon_each (es : list (InFlight * Abandoned)) (r : Runtime) : Runtime :=
  fold_left (fun r e => journal_abandoned e.1 e.2 r) es r.

(* ------------------------------------------------------------------------ *)
(** ** Settling *)

Definition parked_of (t : DesignationTicket) (id : Z) (ch : @Chosen Fd) (fd : Fd) (dev_ino : Z * Z) (now : Instant) : InFlight :=
  {| if_id := id; if_fd := fd; if_dev_ino := dev_ino; if_ask := t_ask t; if_grant := t_grant t; if_principal := t_principal t;
     if_connection := t_connection t; if_realm := t_realm t; if_name := ch_name ch; if_facet_id := t_facet_id t;
     if_grant_wire_id := t_grant_wire_id t; if_agent := Owed; if_shim := Owed; if_deadline := now + DELIVERY_DEADLINE |}.

Definition settle_designation (id : Z) (chosen : option (@Chosen Fd)) (now : Instant) (r : Runtime) : option Runtime :=
  let '(redeemed, l) := redeem (dk_ledger (rn_desk r)) id (delivery_world now r) now in
  let r := on_desk (with_ledger l (rn_desk r)) r in
  match redeemed with
  | Err (ticket, why) =>
      let r := journal_designation id ticket None (failure_of_undelivered why) r in
      match ticket with None => Some r | Some t => voice_powerbox_refusal t (failure_of_undelivered why) r end
  | Ok t =>
      let refuse why r := voice_powerbox_refusal t why (journal_designation id (Some t) None why r) in
      match chosen with
      | None => refuse SfUnresolvable r
      | Some ch =>
          let agent_alive := bool_decide (is_Some (rn_conns r !! t_connection t)) in
          let shim_alive := bool_decide (rn_serving r !! t_realm t = Some true) in
          if negb agent_alive || negb shim_alive then
            if agent_alive then refuse SfRealmDied r else Some (journal_designation id (Some t) None SfConnectionGone r)
          else
            let '(fd, w) := resolve K (dk_files (rn_desk r)) (ch_dir ch) [ch_name ch] (ch_mode ch) (ch_directory ch) in
            let r := on_desk (with_files w (rn_desk r)) r in
            match fd with
            | Err _ => refuse SfUnresolvable r
            | Ok fd =>
                let '(dev_ino, w) := fstat (dk_files (rn_desk r)) fd in
                let r := on_desk (with_files w (rn_desk r)) r in
                match dev_ino with
                | None => refuse SfUnresolvable r
                | Some dev =>
                    let r := on_desk (with_deliveries (park (parked_of t id ch fd dev now) (dk_deliveries (rn_desk r))) (rn_desk r)) r in
                    match rn_conns r !! t_connection t with
                    | None => Some (release_delivery id Delivery.ConnectionGone r)
                    | Some _ => Some (on_desk (push_wake (WakeAgent (t_connection t)) (rn_desk r)) r)
                    end
                end
            end
      end
  end.

(* ------------------------------------------------------------------------ *)
(** ** A turn of the picker *)

Definition raise_picker_for (id : Z) (now : Instant) (r : Runtime) : result unit SettleFailure * Runtime :=
  match dk_root (rn_desk r) with
  | None => (Err SfUnresolvable, r)
  | Some root =>
      match peek (dk_ledger (rn_desk r)) id with
      | None => (Err SfTimedOut, r)
      | Some t =>
          let '(session, w) := picker_open K face_covers atlas_covers raster to_lowercase (dk_files (rn_desk r)) id (t_ask t) root in
          let r := on_desk (with_files w (rn_desk r)) r in
          match session with
          | Err _ => (Err SfUnresolvable, r)
          | Ok session =>
              let '(raised, g) := raise_picker id (t_deadline t) now (sg_grab (rn_stage r)) in
              let r := on_stage (with_grab g (rn_stage r)) r in
              if negb raised then (Ok tt, r)
              else
                let content := Picker.card face_covers atlas_covers session (t_principal t) (t_realm t) in
                let '(shown, stage) := show_picker content (rn_stage r) in
                let r := on_stage stage r in
                if negb shown then (Err SfUnresolvable, on_stage (lower_picker (rn_stage r)) r)
                else (Ok tt, on_desk (with_picker (Some session) (rn_desk r)) r)
          end
      end
  end.

(** The steps drained: whether the card changed, and what the human settled on. *)
Fixpoint drain_steps (fuel : nat) (changed : bool) (settle : option (Z * SettleOutcome)) (r : Runtime)
    : option (bool * option (Z * SettleOutcome) * Runtime) :=
  match fuel with
  | O => None
  | S fuel =>
      let '(step, g) := take_step (sg_grab (rn_stage r)) in
      let r := on_stage (with_grab g (rn_stage r)) r in
      match step with
      | None => Some (changed, settle, r)
      | Some (id, step) =>
          match settle, dk_picker (rn_desk r) with
          | Some _, _ | _, None => drain_steps fuel changed settle r
          | None, Some session =>
              if negb (pk_id session =? id) then drain_steps fuel changed settle r
              else
                let '(applied, session, w) := picker_apply K face_covers atlas_covers raster to_lowercase (dk_files (rn_desk r)) session step in
                let r := on_desk (with_picker (Some session) (with_files w (rn_desk r))) r in
                match applied with
                | Unchanged => drain_steps fuel changed settle r
                | Changed => drain_steps fuel true settle r
                | Confirmed => drain_steps fuel changed (Some (id, OutConfirmed)) r
                | Picker.Cancelled => drain_steps fuel changed (Some (id, OutCancelled)) r
                end
          end
      end
  end.

(** A raised picker whose obligation is gone, or whose screen is not the human's. *)
Definition drop_picker (r : Runtime) : Runtime :=
  on_desk (with_picker None (rn_desk r)) (on_stage (lower_picker (rn_stage r)) r).
Definition retire_picker (visibility : PromptVisibility) (r : Runtime) : option (bool * Runtime) :=
  let '(changed, r) :=
    match raised_designation (sg_grab (rn_stage r)) with
    | Some id => if negb (is_open (dk_ledger (rn_desk r)) id) then (true, drop_picker r) else (false, r)
    | None => (false, r)
    end in
  '(changed, r) ←
    match visibility, raised_designation (sg_grab (rn_stage r)) with
    | Reachable, _ | _, None => Some (changed, r)
    | _, Some id => r ← settle_refused id SfTimedOut (drop_picker r); Some (true, r)
    end;
  Some (changed,
    match dk_picker (rn_desk r), raised_designation (sg_grab (rn_stage r)) with
    | Some _, None => on_desk (with_picker None (rn_desk r)) r
    | _, _ => r
    end).

Definition refresh_picker (changed : bool) (settle : option (Z * SettleOutcome)) (r : Runtime) : Runtime :=
  match changed, settle, raised_designation (sg_grab (rn_stage r)), dk_picker (rn_desk r) with
  | true, None, Some id, Some session =>
      match peek (dk_ledger (rn_desk r)) id with
      | Some t => on_stage (show_picker (Picker.card face_covers atlas_covers session (t_principal t) (t_realm t)) (rn_stage r)).2 r
      | None => r
      end
  | _, _, _, _ => r
  end.

Definition settle_step (settle : option (Z * SettleOutcome)) (now : Instant) (changed : bool) (r : Runtime) : option (bool * Runtime) :=
  match settle with
  | None => Some (changed, r)
  | Some (id, outcome) =>
      let session := dk_picker (rn_desk r) in
      let r := drop_picker r in
      r ← match outcome with
          | OutConfirmed =>
              let '(ch, w) := match session with Some s => chosen K (dk_files (rn_desk r)) s | None => (None, dk_files (rn_desk r)) end in
              settle_designation id ch now (on_desk (with_files w (rn_desk r)) r)
          | OutCancelled => settle_refused id SfCancelled r
          end;
      Some (true, r)
  end.

Definition raise_next (now : Instant) (visibility : PromptVisibility) (changed : bool) (r : Runtime) : option (bool * Runtime) :=
  if bool_decide (visibility = Reachable) && bool_decide (raised (sg_grab (rn_stage r)) = None) then
    match front_open (dk_ledger (rn_desk r)) with
    | None => Some (changed, r)
    | Some id =>
        let '(res, r) := raise_picker_for id now r in
        match res with
        | Ok _ => Some (true, r)
        | Err failure => r ← settle_refused id failure r; Some (changed, r)
        end
    end
  else Some (changed, r).

Definition service_picker_round (now : Instant) (visibility : PromptVisibility) (r : Runtime) : option (bool * Runtime) :=
  '(changed, r) ← retire_picker visibility r;
  '(changed, settle, r) ← drain_steps (S (length (cg_steps (sg_grab (rn_stage r))))) changed None r;
  let r := refresh_picker changed settle r in
  '(changed, r) ← settle_step settle now changed r;
  raise_next now visibility changed r.

Fixpoint cancel_loop (fuel : nat) (ended : list Z) (r : Runtime) : option (list Z * Runtime) :=
  match fuel with
  | O => None
  | S fuel =>
      match front_open (dk_ledger (rn_desk r)) with
      | None => Some (ended, on_desk (with_picker None (rn_desk r)) r)
      | Some id => r ← settle_refused id SfTimedOut r; cancel_loop fuel (ended ++ [id]) r
      end
  end.
Definition cancel_outstanding_designations (r : Runtime) : option (list Z * Runtime) :=
  cancel_loop (S (length (bt_keys (Designation.tickets (dk_ledger (rn_desk r)))))) [] r.

(** [screen_became_visible], the guard of a prompt seen again. *)
Definition screen_became_visible (now : Instant) (r : Runtime) : bool * Runtime :=
  let '(restarted, g) := restart_guard now (sg_grab (rn_stage r)) in (restarted, on_stage (with_grab g (rn_stage r)) r).

Definition picker_holds_the_screen_awake (now : Instant) (r : Runtime) : bool :=
  match raised_designation (sg_grab (rn_stage r)) with
  | None => false
  | Some id => match peek (dk_ledger (rn_desk r)) id with None => false | Some t => now <? t_deadline t end
  end.

(* ------------------------------------------------------------------------ *)
(** ** The two halves of a delivery *)

Definition wire_kind (ask : AskedFor) : FileKind := match ask with AskFile _ => KindFile | AskDir => KindDirectory end.
Definition wire_mode (ask : AskedFor) : FileMode := match ask with AskFile true => Messages.ReadWrite | AskFile false | AskDir => Read end.

Definition on_world (w : W) (r : Runtime) : Runtime :=
  {| rn_stage := rn_stage r; rn_conns := rn_conns r; rn_grants := rn_grants r; rn_attention := rn_attention r; rn_world := w;
     rn_serving := rn_serving r; rn_clipboard := rn_clipboard r; rn_desk := rn_desk r |}.
Definition set_half (id : Z) (agent shim : option Half) (r : Runtime) : Runtime :=
  on_desk (with_deliveries (delivery_update id (set_halves agent shim) (dk_deliveries (rn_desk r))) (rn_desk r)) r.

Definition deliver_agent_copy (c : ConnectionId) (r : Runtime) : option Runtime :=
  match owed_by_connection c (dk_deliveries (rn_desk r)) with
  | None => Some r
  | Some id =>
      match dk_deliveries (rn_desk r) !! id with
      | None => Some r
      | Some e =>
          name ← display_name (if_name e);
          frame ← powerbox_designated_frame (if_facet_id e) (if_id e) (wire_kind (if_ask e)) (wire_mode (if_ask e)) name;
          let '(sent, w) := reply_agent c frame (if_fd e) (rn_world r) in
          let r := set_half id (Some (if sent then Sent else Failed)) None (on_world w r) in
          if negb sent then Some (release_delivery id SendFailed r)
          else
            match rn_serving r !! if_realm e with
            | None => Some (release_delivery id Delivery.RealmDied r)
            | Some _ => Some (on_desk (push_wake (WakeShim (if_realm e)) (rn_desk r)) r)
            end
      end
  end.

Definition deliver_realm_copy (realm : RealmId) (r : Runtime) : option Runtime :=
  match owed_by_realm realm (dk_deliveries (rn_desk r)) with
  | None => Some r
  | Some id =>
      match dk_deliveries (rn_desk r) !! id with
      | None => Some r
      | Some e =>
          name ← display_name (if_name e);
          frame ← shim_designation_frame SHIM_SESSION_ID (if_id e) (wire_kind (if_ask e)) (wire_mode (if_ask e)) name;
          let '(sent, w) := reply_realm realm frame (if_fd e) (rn_world r) in
          let r := set_half id None (Some (if sent then Sent else Failed)) (on_world w r) in
          let r :=
            match dk_deliveries (rn_desk r) !! id with
            | Some e =>
                if negb (bool_decide (if_shim e = Sent)) then release_delivery id SendFailed r
                else
                  let '(entry, t) := take_settled id (dk_deliveries (rn_desk r)) in
                  let r := on_desk (with_deliveries t (rn_desk r)) r in
                  match entry with Some e => journal_delivered e r | None => r end
            | None => r
            end in
          match owed_by_realm realm (dk_deliveries (rn_desk r)), rn_serving r !! realm with
          | Some _, Some _ => Some (on_desk (push_wake (WakeShim realm) (rn_desk r)) r)
          | _, _ => Some r
          end
      end
  end.

(* ------------------------------------------------------------------------ *)
(** ** The sweep, and what dies *)

Definition with_rn_grants (g : GrantTable) (r : Runtime) : Runtime :=
  {| rn_stage := rn_stage r; rn_conns := rn_conns r; rn_grants := g; rn_attention := rn_attention r; rn_world := rn_world r;
     rn_serving := rn_serving r; rn_clipboard := rn_clipboard r; rn_desk := rn_desk r |}.
Definition with_clipboard (c : @ClipboardSlot Dg) (r : Runtime) : Runtime :=
  {| rn_stage := rn_stage r; rn_conns := rn_conns r; rn_grants := rn_grants r; rn_attention := rn_attention r; rn_world := rn_world r;
     rn_serving := rn_serving r; rn_clipboard := c; rn_desk := rn_desk r |}.
Definition with_conns (m : gmap ConnectionId PrincipalServer) (r : Runtime) : Runtime :=
  {| rn_stage := rn_stage r; rn_conns := m; rn_grants := rn_grants r; rn_attention := rn_attention r; rn_world := rn_world r;
     rn_serving := rn_serving r; rn_clipboard := rn_clipboard r; rn_desk := rn_desk r |}.

Definition sweep_at (now : Instant) (r : Runtime) : option Runtime :=
  let '(resolutions, reg) := Petitions.expire_due (sg_petitions (rn_stage r)) now in
  let r := on_stage (with_petitions reg (rn_stage r)) r in
  let r := fold_left (fun r res => Rounds.deliver send_to res now r) resolutions r in
  let '(expired, grants) := Grants.expire_due (rn_grants r) now in
  let r := with_rn_grants grants r in
  let r := fold_left (fun r g => on_desk (push_journal (GrantExpired g) (rn_desk r)) r) expired r in
  let r := with_clipboard (Clipboard.expire (rn_clipboard r) now).2 r in
  let '(tickets, l) := Designation.expire_due (dk_ledger (rn_desk r)) now in
  r ← refuse_each SfTimedOut tickets (on_desk (with_ledger l (rn_desk r)) r);
  let '(entries, t) := delivery_expire_due now (dk_deliveries (rn_desk r)) in
  Some (abandon_each entries (on_desk (with_deliveries t (rn_desk r)) r)).

(** [close_principal], but for the event loop's registrations. *)
Definition close_principal (c : ConnectionId) (r : Runtime) : Runtime :=
  match rn_conns r !! c with
  | None => r
  | Some server =>
      let r := with_conns (delete c (rn_conns r)) r in
      let s := teardown {| st_server := server; st_petitions := sg_petitions (rn_stage r); st_grants := rn_grants r;
                           st_attention := rn_attention r; st_world := rn_world r |} in
      let r := with_rn_grants (st_grants s) (on_stage (with_petitions (st_petitions s) (rn_stage r)) r) in
      let '(tickets, l) := Designation.withdraw_connection (dk_ledger (rn_desk r)) c in
      let r := journal_each SfConnectionGone tickets (on_desk (with_ledger l (rn_desk r)) r) in
      let '(entries, t) := delivery_withdraw_by_id c (dk_deliveries (rn_desk r)) in
      abandon_each entries (on_desk (with_deliveries t (rn_desk r)) r)
  end.

(** [close_realm], past the realm's own teardown. *)
Definition close_realm (realm : RealmId) (r : Runtime) : option Runtime :=
  let r := with_clipboard (Clipboard.forget_realm (rn_clipboard r) realm).2 r in
  let '(tickets, l) := Designation.forget_realm (dk_ledger (rn_desk r)) realm in
  r ← refuse_each SfRealmDied tickets (on_desk (with_ledger l (rn_desk r)) r);
  let '(entries, t) := delivery_forget_realm realm (dk_deliveries (rn_desk r)) in
  let r := abandon_each entries (on_desk (with_deliveries t (rn_desk r)) r) in
  Some (if is_some_and (dk_picker (rn_desk r)) (fun p => negb (is_open (dk_ledger (rn_desk r)) (pk_id p)))
        then on_desk (with_picker None (rn_desk r)) r else r).

(** The closure a connection's message asks a designation through, and the
    refusals it leaves, sent once the message is handled. *)
Definition designate (c : ConnectionId) (ask : DesignateAsk) (r : Runtime) : option (result Z DesignateRefusal * list Bytes * Runtime) :=
  match dk_root (rn_desk r) with
  | None => Some (Err Enforcement.Unavailable, [], r)
  | Some _ =>
      let '(opened, l) := Designation.open (dk_ledger (rn_desk r)) c (da_facet_id ask) (da_grant_wire_id ask) (da_grant ask)
        (da_principal ask) (da_realm ask) (da_ask ask) (da_spent_once ask) (da_deadline ask) in
      match opened with
      | Ok id => Some (Ok id, [], on_desk (with_ledger l (rn_desk r)) r)
      | Err _ => frame ← powerbox_refusal_frame (da_facet_id ask) RefBusy; Some (Err Enforcement.Answered, [frame], r)
      end
  end.
Definition flush_powerbox_refusals (c : ConnectionId) (frames : list Bytes) (r : Runtime) : Runtime :=
  match rn_conns r !! c with
  | None => r
  | Some _ => fold_left (fun r f => on_desk (push_frame (c, f) (rn_desk r)) r) frames r
  end.
End settle.

(* ------------------------------------------------------------------------ *)
(** ** The desk in order *)

Section desk.
Context {W X Fd WF Dg D : Type} `{EqDecision D}.
Context (K : Picker.Kernel WF Fd) (fstat : WF -> Fd -> option (Z * Z) * WF).
Context (face_covers atlas_covers : Z -> bool) (raster : Transcript -> D) (to_lowercase : Str -> Str).
Context (send_to : ConnectionId -> PrincipalEvent Fd -> W -> result unit X * W).
Context (reply_agent : ConnectionId -> Bytes -> Fd -> W -> bool * W) (reply_realm : RealmId -> Bytes -> Fd -> W -> bool * W).
Local Notation Runtime := (@Runtime W Fd WF Dg).
Local Notation Desk := (@Desk Fd WF).
Local Notation picker_ok := (picker_ok K face_covers atlas_covers raster to_lowercase).

(** What a file is opened as, for what was asked. *)
Definition mode_of (ask : AskedFor) : EffectiveMode := match ask with AskFile true => Picker.ReadWrite | AskFile false | AskDir => ReadOnly end.
Definition wants_directory (ask : AskedFor) : bool := match ask with AskDir => true | AskFile _ => false end.

(** A choice beneath the root, and a descriptor opened of one, as was asked. *)
Definition chosen_beneath (root : option Fd) (ask : AskedFor) (ch : @Chosen Fd) : Prop :=
  exists d path, root = Some d /\ reached K d path (ch_dir ch) /\ component (ch_name ch)
    /\ ch_mode ch = mode_of ask /\ ch_directory ch = wants_directory ask.
Definition opened_beneath (root : option Fd) (e : @InFlight Fd) : Prop :=
  exists d path dir w w', root = Some d /\ reached K d path dir /\ component (if_name e)
    /\ resolve K w dir [if_name e] (mode_of (if_ask e)) (wants_directory (if_ask e)) = (Ok (if_fd e), w').

(** The designations a desk accounts for: those waiting for the human, those in
    flight, those journalled. *)
Definition line_id (l : JournalLine) : option Z := match l with DesignationSettled e => Some (se_designation e) | _ => None end.
Definition journalled (d : Desk) : list Z := omap line_id (dk_journal d).
Definition waiting (d : Desk) : list Z := List.map t_id (bt_values (Designation.tickets (dk_ledger d))).
Definition accounts (d : Desk) : list Z := waiting d ++ held_ids (dk_deliveries d) ++ journalled d.

Definition session_ok (d : Desk) (s : @PickerSession Fd) : Prop :=
  pk_id s < next (dk_ledger d)
  /\ (exists root, dk_root d = Some root /\ picker_ok root s)
  /\ forall t, Designation.tickets (dk_ledger d) !! pk_id s = Some t -> t_ask t = pk_ask s.

Record desk_wf (d : Desk) : Prop := {
  dw_ledger : ledger_wf (dk_ledger d);
  dw_deliveries : delivery_wf (dk_deliveries d);
  dw_apart : forall id e, dk_deliveries d !! id = Some e -> Designation.tickets (dk_ledger d) !! id = None /\ id < next (dk_ledger d);
  dw_opened : forall id e, dk_deliveries d !! id = Some e -> opened_beneath (dk_root d) e;
  dw_picker : forall s, dk_picker d = Some s -> session_ok d s }.

(** A turn moves designations along: it invents none and loses none. *)
Record moved (d d' : Desk) : Prop := {
  mv_root : dk_root d' = dk_root d;
  mv_next : next (dk_ledger d') = next (dk_ledger d);
  mv_wf : desk_wf d';
  mv_accounts : Permutation (accounts d) (accounts d') }.

(** What journalling, a frame or a wake leaves as it was. *)
Record noted (ids : list Z) (d d' : Desk) : Prop := {
  nt_root : dk_root d' = dk_root d;
  nt_ledger : dk_ledger d' = dk_ledger d;
  nt_deliveries : dk_deliveries d' = dk_deliveries d;
  nt_picker : dk_picker d' = dk_picker d;
  nt_files : dk_files d' = dk_files d;
  nt_journal : journalled d' = journalled d ++ ids }.

Lemma moved_refl d : desk_wf d -> moved d d.
Proof. by split. Qed.
Lemma moved_trans d1 d2 d3 : moved d1 d2 -> moved d2 d3 -> moved d1 d3.
Proof. intros [H1 H2 _ H4] [G1 G2 G3 G4]. split; [congruence|congruence|done|by rewrite H4]. Qed.

Lemma noted_refl d : noted [] d d.
Proof. split; try done. by rewrite app_nil_r. Qed.
Lemma noted_trans a b d1 d2 d3 : noted a d1 d2 -> noted b d2 d3 -> noted (a ++ b) d1 d3.
Proof. intros [] []. split; [congruence..|]. rewrite nt_journal1, nt_journal0. by rewrite app_assoc. Qed.

Lemma noted_wf ids d d' : noted ids d d' -> desk_wf d -> desk_wf d'.
Proof.
  intros [] []. split; unfold session_ok; rewrite ?nt_root0, ?nt_ledger0, ?nt_deliveries0, ?nt_picker0; done.
Qed.

(** From a desk whose tickets and entries are [l] and [t], journalling the rest. *)
Lemma moved_noted d l t ids d' :
  desk_wf d -> ledger_wf l -> next l = next (dk_ledger d) -> delivery_wf t ->
  (forall id x, Designation.tickets l !! id = Some x -> Designation.tickets (dk_ledger d) !! id = Some x) ->
  (forall id e, t !! id = Some e -> dk_deliveries d !! id = Some e) ->
  Permutation (waiting d ++ held_ids (dk_deliveries d)) (ids ++ List.map t_id (bt_values (Designation.tickets l)) ++ held_ids t) ->
  noted ids (with_deliveries t (with_ledger l d)) d' -> moved d d'.
Proof.
  intros Hwf Hl Hnext Ht Hsub Hsubt Hperm Hn. pose proof Hwf as []. assert (desk_wf (with_deliveries t (with_ledger l d))) as Hwf'.
  { split; cbn; [done|done| | |].
    - intros id e He. apply Hsubt in He. destruct (dw_apart0 _ _ He) as [Hnone Hlt]. split; [|lia].
      destruct (Designation.tickets l !! id) eqn:Hx; [|done]. apply Hsub in Hx. congruence.
    - intros id e He. by eapply dw_opened0, Hsubt.
    - intros s Hs. destruct (dw_picker0 s Hs) as (H1 & H2 & H3). split_and!; [cbn; lia|done|]. intros x Hx. by apply H3, Hsub. }
  split; [apply Hn|by rewrite (nt_ledger _ _ _ Hn)|by eapply noted_wf|].
  unfold accounts. unfold waiting at 2. rewrite (nt_ledger _ _ _ Hn), (nt_deliveries _ _ _ Hn), (nt_journal _ _ _ Hn). cbn [with_deliveries with_ledger dk_ledger dk_deliveries].
  change (journalled (with_deliveries t (with_ledger l d))) with (journalled d).
  rewrite !app_assoc, Hperm. rewrite <- !app_assoc. rewrite (Permutation_app_comm ids). by rewrite <- !app_assoc.
Qed.

Ltac collapse := repeat match goal with
  | |- context [on_desk ?d (on_desk ?d' ?r)] => change (on_desk d (on_desk d' r)) with (on_desk d r)
  | |- context [rn_desk (on_desk ?d ?r)] => change (rn_desk (on_desk d r)) with d
  end.

(** Only the desk of a runtime changes. *)
Definition at_desk (r r' : Runtime) : Prop := r' = on_desk (rn_desk r') r.
Lemma at_desk_trans r1 r2 r3 : at_desk r1 r2 -> at_desk r2 r3 -> at_desk r1 r3.
Proof. unfold at_desk. intros -> ->. done. Qed.

Lemma refusal_frame_total object_id code : exists frame, powerbox_refusal_frame object_id code = Some frame.
Proof. unfold powerbox_refusal_frame, patch_size, write_uint, encode_with_placeholder_size. cbn. by eexists. Qed.

Lemma voice_spec t why (r : Runtime) :
  exists r', voice_powerbox_refusal t why r = Some r' /\ at_desk r r' /\ noted [] (rn_desk r) (rn_desk r').
Proof.
  unfold voice_powerbox_refusal. destruct (rn_conns r !! t_connection t).
  - destruct (refusal_frame_total (t_facet_id t) (failure_code why)) as [frame ->]. cbn [mbind option_bind]. eexists. split_and!; [done|done|].
    split; try done. cbn. by rewrite app_nil_r.
  - exists r. split_and!; [done|by destruct r|apply noted_refl].
Qed.

Lemma journal_line e (r : Runtime) : noted [se_designation e] (rn_desk r) (rn_desk (on_desk (push_journal (DesignationSettled e) (rn_desk r)) r)).
Proof. split; try done. unfold journalled. cbn. by rewrite omap_app. Qed.

Lemma refuse_spec id t why (r : Runtime) :
  exists r', voice_powerbox_refusal t why (journal_designation id (Some t) None why r) = Some r' /\ at_desk r r' /\ noted [id] (rn_desk r) (rn_desk r').
Proof.
  pose proof (journal_line (settled_of t id None (failure_word why)) r) as Hj.
  destruct (voice_spec t why (journal_designation id (Some t) None why r)) as (r' & Hv & Hd & Hn). exists r'. split_and!; [done| |].
  - eapply at_desk_trans; [|done]. done.
  - exact (noted_trans _ _ _ _ _ Hj Hn).
Qed.

Lemma waiting_delete d id t :
  desk_wf d -> Designation.tickets (dk_ledger d) !! id = Some t ->
  Permutation (waiting d) (id :: List.map t_id (bt_values (delete id (Designation.tickets (dk_ledger d))))).
Proof.
  intros [Hl _ _ _ _] Ht. unfold waiting. pose proof (delete_perm _ id Hl) as Hp. rewrite Ht in Hp. cbn in Hp.
  rewrite Hp. cbn [List.map]. by rewrite (proj1 (lwf_ids _ Hl _ _ Ht)).
Qed.

(** A ticket taken and journalled. *)
Lemma taken_moved d id t d' :
  desk_wf d -> Designation.tickets (dk_ledger d) !! id = Some t ->
  noted [id] (with_ledger (with_tickets (dk_ledger d) (delete id (Designation.tickets (dk_ledger d)))) d) d' -> moved d d'.
Proof.
  intros Hwf Ht Hn. pose proof Hwf as [].
  apply (moved_noted d (with_tickets (dk_ledger d) (delete id (Designation.tickets (dk_ledger d)))) (dk_deliveries d) [id]); try done.
  - by apply delete_shrink.
  - intros k x. cbn. rewrite bt_lookup_remove. by destruct (k =? id).
  - rewrite (waiting_delete d id t Hwf Ht). cbn. done.
Qed.

Lemma settle_refused_spec id why (r : Runtime) :
  desk_wf (rn_desk r) ->
  exists r', settle_refused id why r = Some r' /\ at_desk r r' /\ moved (rn_desk r) (rn_desk r')
    /\ Designation.tickets (dk_ledger (rn_desk r')) = delete id (Designation.tickets (dk_ledger (rn_desk r)))
    /\ dk_picker (rn_desk r') = dk_picker (rn_desk r) /\ dk_files (rn_desk r') = dk_files (rn_desk r)
    /\ dk_deliveries (rn_desk r') = dk_deliveries (rn_desk r).
Proof.
  intros Hwf. unfold settle_refused, Designation.take.
  set (l := with_tickets (dk_ledger (rn_desk r)) (delete id (Designation.tickets (dk_ledger (rn_desk r))))).
  destruct (Designation.tickets (dk_ledger (rn_desk r)) !! id) as [t|] eqn:Ht.
  - destruct (refuse_spec id t why (on_desk (with_ledger l (rn_desk r)) r)) as (r' & Hr & Hd & Hn). exists r'.
    split_and!; [done|exact Hd|by eapply taken_moved|by rewrite (nt_ledger _ _ _ Hn)|by rewrite (nt_picker _ _ _ Hn)
                |by rewrite (nt_files _ _ _ Hn)|by rewrite (nt_deliveries _ _ _ Hn)].
  - eexists. split_and!; [done|done| |done|done|done|done]. cbn [on_desk rn_desk].
    assert (l = dk_ledger (rn_desk r)) as ->.
    { unfold l. rewrite bt_remove_None by done. by destruct (dk_ledger (rn_desk r)). }
    apply (moved_noted _ (dk_ledger (rn_desk r)) (dk_deliveries (rn_desk r)) []); try done; try apply Hwf. apply noted_refl.
Qed.

(** Changes to the desk that move nothing. *)
Lemma moved_picker d s : desk_wf d -> (forall x, s = Some x -> session_ok d x) -> moved d (with_picker s d).
Proof. intros [] Hs. by split. Qed.
Lemma moved_files d w : desk_wf d -> moved d (with_files w d).
Proof. intros []. by split. Qed.
Lemma moved_same d d' : desk_wf d -> noted [] d d' -> moved d d'.
Proof.
  intros Hwf Hn. split; [apply Hn|by rewrite (nt_ledger _ _ _ Hn)|by eapply noted_wf|].
  unfold accounts, waiting. by rewrite (nt_ledger _ _ _ Hn), (nt_deliveries _ _ _ Hn), (nt_journal _ _ _ Hn), app_nil_r.
Qed.

(** Loops over what a sweep took. *)
Lemma refuse_each_spec why ts : forall r : Runtime,
  exists r', refuse_each why ts r = Some r' /\ at_desk r r' /\ noted (List.map t_id ts) (rn_desk r) (rn_desk r').
Proof.
  induction ts as [|t ts IH]; intros r; cbn [refuse_each List.map]; [exists r; split_and!; [done|by destruct r|apply noted_refl]|].
  destruct (refuse_spec (t_id t) t why r) as (r1 & -> & Hd1 & Hn1). cbn [mbind option_bind].
  destruct (IH r1) as (r2 & Hr2 & Hd2 & Hn2). exists r2. split_and!; [done|by eapply at_desk_trans|exact (noted_trans _ _ _ _ _ Hn1 Hn2)].
Qed.
Lemma journal_each_spec why ts : forall r : Runtime,
  at_desk r (journal_each why ts r) /\ noted (List.map t_id ts) (rn_desk r) (rn_desk (journal_each why ts r)).
Proof.
  induction ts as [|t ts IH]; intros r; cbn [List.map]; [split; [by destruct r|apply noted_refl]|].
  unfold journal_each in *. cbn [fold_left]. destruct (IH (journal_designation (t_id t) (Some t) None why r)) as [Hd Hn]. split.
  - eapply at_desk_trans; [|done]. done.
  - exact (noted_trans _ _ _ _ _ (journal_line (settled_of t (t_id t) None (failure_word why)) r) Hn).
Qed.
Lemma abandon_each_spec (es : list (@InFlight Fd * Abandoned)) : forall r : Runtime,
  at_desk r (abandon_each es r) /\ noted (List.map (fun x => if_id x.1) es) (rn_desk r) (rn_desk (abandon_each es r)).
Proof.
  induction es as [|e es IH]; intros r; cbn [List.map]; [split; [by destruct r|apply noted_refl]|].
  unfold abandon_each in *. cbn [fold_left]. destruct (IH (journal_abandoned e.1 e.2 r)) as [Hd Hn]. split.
  - eapply at_desk_trans; [|done]. done.
  - exact (noted_trans _ _ _ _ _ (journal_line (settled_in_flight e.1 (bool_decide (if_agent e.1 = Sent)) (abandoned_word e.2)) r) Hn).
Qed.

(** A sweep of both tables. *)
Lemma swept_moved d p l ts d' :
  desk_wf d -> Designation.sweep (dk_ledger d) p = (ts, l) -> noted (List.map t_id ts) (with_ledger l d) d' -> moved d d'.
Proof.
  intros Hwf Hs Hn. destruct (sweep_spec (dk_ledger d) p ltac:(apply Hwf)) as (Hw & Hp & _ & Hleft & Hnext). rewrite Hs in *. cbn [fst snd] in *.
  apply (moved_noted d l (dk_deliveries d) (List.map t_id ts)); try done; [apply Hwf| |].
  - intros id x Hx. by apply Hleft in Hx as [? _].
  - unfold waiting. rewrite Hp, List.map_app, <- app_assoc. done.
Qed.
Lemma abandoned_moved d why p t es d' :
  desk_wf d -> abandon why p (dk_deliveries d) = (es, t) ->
  noted (List.map (fun x => if_id x.1) es) (with_deliveries t d) d' -> moved d d'.
Proof.
  intros Hwf Hs Hn. destruct (abandon_spec why p (dk_deliveries d) ltac:(apply Hwf)) as (Hw & Hp & _ & Hleft). rewrite Hs in *. cbn [fst snd] in *.
  apply (moved_noted d (dk_ledger d) t (List.map (fun x => if_id x.1) es)); try done; [apply Hwf| |].
  - intros id x Hx. by apply Hleft in Hx as [? _].
  - unfold waiting. rewrite Hp, !app_assoc. by rewrite (Permutation_app_comm (List.map t_id _)).
Qed.

Lemma released_moved id why (r : Runtime) : desk_wf (rn_desk r) -> moved (rn_desk r) (rn_desk (release_delivery id why r)).
Proof.
  intros Hwf. unfold release_delivery, take_any. pose proof Hwf as [].
  destruct (dk_deliveries (rn_desk r) !! id) as [e|] eqn:He.
  - apply (moved_noted _ (dk_ledger (rn_desk r)) (delete id (dk_deliveries (rn_desk r))) [if_id e]); try done; [by apply delivery_delete_wf| | |].
    + intros k x. rewrite bt_lookup_remove. by destruct (k =? id).
    + rewrite (held_delete id _ e) by done. cbn. unfold waiting. by rewrite Permutation_middle.
    + exact (journal_line (settled_in_flight e (bool_decide (if_agent e = Sent)) (abandoned_word why)) (on_desk (with_deliveries _ (rn_desk r)) r)).
  - cbn [on_desk rn_desk]. apply moved_same; [done|]. split; try done; cbn; [by rewrite bt_remove_None|by rewrite app_nil_r].
Qed.

(* ------------------------------------------------------------------------ *)
(** ** Settling *)

Definition less_ticket (id : Z) (d : Desk) : Desk :=
  with_ledger (with_tickets (dk_ledger d) (delete id (Designation.tickets (dk_ledger d)))) d.

Lemma parked_moved d id t e :
  desk_wf d -> Designation.tickets (dk_ledger d) !! id = Some t -> if_id e = id -> opened_beneath (dk_root d) e ->
  moved d (with_deliveries (park e (dk_deliveries d)) (less_ticket id d)).
Proof.
  intros Hwf Ht He Ho. pose proof Hwf as []. assert (dk_deliveries d !! id = None) as Hfresh.
  { destruct (dk_deliveries d !! id) as [x|] eqn:Hx; [|done]. apply dw_apart0 in Hx as [Hx _]. congruence. }
  destruct dw_deliveries0 as [Hs Hids]. split; [done|done| |].
  - split; cbn; unfold park; rewrite ?He.
    + by apply delete_shrink.
    + split; [by apply bt_wf_insert|]. intros k x. rewrite bt_lookup_insert. destruct (Z.eqb_spec k id) as [->|]; [intros [= <-]; done|apply Hids].
    + intros k x. rewrite bt_lookup_insert, bt_lookup_remove. destruct (Z.eqb_spec k id) as [->|Hne].
      * intros [= <-]. split; [done|]. apply (lwf_ids _ dw_ledger0) in Ht. lia.
      * apply dw_apart0.
    + intros k x. rewrite bt_lookup_insert. destruct (k =? id); [by intros [= <-]|apply dw_opened0].
    + intros s Hp. destruct (dw_picker0 s Hp) as (H1 & H2 & H3). split_and!; [done|done|]. intros x. cbn. rewrite bt_lookup_remove.
      destruct (pk_id s =? id); [done|apply H3].
  - unfold accounts. change (waiting (with_deliveries (park e (dk_deliveries d)) (less_ticket id d)))
      with (List.map t_id (bt_values (delete id (Designation.tickets (dk_ledger d))))).
    change (journalled (with_deliveries (park e (dk_deliveries d)) (less_ticket id d))) with (journalled d).
    cbn [with_deliveries dk_deliveries]. rewrite (waiting_delete d id t Hwf Ht).
    assert (Permutation (held_ids (park e (dk_deliveries d))) (id :: held_ids (dk_deliveries d))) as ->.
    { unfold held_ids, bt_keys, park. rewrite He. exact (Permutation_map fst (bt_insert_fresh_perm (dk_deliveries d) id e Hfresh)). }
    cbn. by rewrite <- Permutation_middle.
Qed.

(** What lets a file be opened: an ask still owed and in time, authority and realm
    alive, an agent and a shim to hand it to, and a choice. *)
Definition may_open (id : Z) (now : Instant) (r : Runtime) (t : DesignationTicket) : Prop :=
  Designation.tickets (dk_ledger (rn_desk r)) !! id = Some t /\ now < t_deadline t
  /\ grant_is_live (delivery_world now r) (t_grant t) (t_spent_once t) = true
  /\ rn_serving r !! t_realm t = Some true /\ is_Some (rn_conns r !! t_connection t).

(** What settling comes to: nothing opened; or the choice opened, and refused or in flight. *)
Definition settles (id : Z) (ch : option (@Chosen Fd)) (now : Instant) (r r' : Runtime) : Prop :=
  (dk_files (rn_desk r') = dk_files (rn_desk r) /\ dk_deliveries (rn_desk r') = dk_deliveries (rn_desk r))
  \/ exists t c, may_open id now r t /\ ch = Some c
       /\ let '(fd, w) := resolve K (dk_files (rn_desk r)) (ch_dir c) [ch_name c] (ch_mode c) (ch_directory c) in
          match fd with
          | Err _ => dk_files (rn_desk r') = w /\ dk_deliveries (rn_desk r') = dk_deliveries (rn_desk r)
          | Ok fd =>
              let '(dev_ino, w) := fstat w fd in
              dk_files (rn_desk r') = w
              /\ dk_deliveries (rn_desk r') = match dev_ino with
                                              | None => dk_deliveries (rn_desk r)
                                              | Some dev => park (parked_of t id c fd dev now) (dk_deliveries (rn_desk r))
                                              end
          end.

Record settled_so (id : Z) (ch : option (@Chosen Fd)) (now : Instant) (r r' : Runtime) : Prop := {
  ss_desk : at_desk r r';
  ss_moved : moved (rn_desk r) (rn_desk r');
  ss_tickets : Designation.tickets (dk_ledger (rn_desk r')) = delete id (Designation.tickets (dk_ledger (rn_desk r)));
  ss_picker : dk_picker (rn_desk r') = dk_picker (rn_desk r);
  ss_settles : settles id ch now r r' }.

(** Refusing on the way, with the files as they then are. *)
Lemma settle_refuse id t why ch now w (r : Runtime) :
  desk_wf (rn_desk r) -> Designation.tickets (dk_ledger (rn_desk r)) !! id = Some t ->
  (forall r', dk_files (rn_desk r') = w -> dk_deliveries (rn_desk r') = dk_deliveries (rn_desk r) -> settles id ch now r r') ->
  exists r', voice_powerbox_refusal t why (journal_designation id (Some t) None why (on_desk (with_files w (less_ticket id (rn_desk r))) r)) = Some r'
    /\ settled_so id ch now r r'.
Proof.
  intros Hwf Ht Hset. destruct (refuse_spec id t why (on_desk (with_files w (less_ticket id (rn_desk r))) r)) as (r' & Hr & Hd & Hn).
  exists r'. split; [done|]. split; [exact Hd| |by rewrite (nt_ledger _ _ _ Hn)|by rewrite (nt_picker _ _ _ Hn)|].
  - apply (moved_trans _ (with_files w (rn_desk r))); [by apply moved_files|]. apply (taken_moved (with_files w (rn_desk r)) id t); [by apply moved_files|done|done].
  - apply Hset; [by rewrite (nt_files _ _ _ Hn)|by rewrite (nt_deliveries _ _ _ Hn)].
Qed.

Lemma settle_designation_spec id ch now (r : Runtime) :
  desk_wf (rn_desk r) ->
  (forall c t, ch = Some c -> Designation.tickets (dk_ledger (rn_desk r)) !! id = Some t -> chosen_beneath (dk_root (rn_desk r)) (t_ask t) c) ->
  exists r', settle_designation K fstat id ch now r = Some r' /\ settled_so id ch now r r'.
Proof.
  intros Hwf Hch. unfold settle_designation. pose proof (redeem_cases (dk_ledger (rn_desk r)) id (delivery_world now r) now) as Hred.
  assert (forall r', dk_files (rn_desk r') = dk_files (rn_desk r) -> dk_deliveries (rn_desk r') = dk_deliveries (rn_desk r) -> settles id ch now r r') as Hnone
    by (intros; by left).
  destruct (Designation.tickets (dk_ledger (rn_desk r)) !! id) as [t|] eqn:Ht.
  2:{ rewrite Hred. cbn. eexists. split; [done|]. split; [done| |cbn; by rewrite bt_remove_None|done|by left].
      apply moved_same; [done|]. split; try done. cbn. by rewrite app_nil_r. }
  destruct (redeem _ _ _ _) as [res l]. cbn [fst snd] in Hred. destruct Hred as (-> & Hok & Hres).
  pose proof (fun why => settle_refuse id t why ch now (dk_files (rn_desk r)) r Hwf Ht Hnone) as Hrefuse.
  change (with_files (dk_files (rn_desk r)) (less_ticket id (rn_desk r))) with (less_ticket id (rn_desk r)) in Hrefuse.
  fold (less_ticket id (rn_desk r)). destruct Hres as [->|[u ->]]; [|apply Hrefuse].
  destruct (proj1 Hok eq_refl) as (Htime & Hlive & Hrealm). clear Hok. cbn in Hrealm. apply bool_decide_eq_true in Hrealm.
  destruct ch as [c|]; [|apply Hrefuse]. cbn [on_desk rn_conns rn_serving].
  rewrite (bool_decide_true _ Hrealm). cbn [negb orb]. rewrite orb_false_r.
  destruct (bool_decide_reflect (is_Some (rn_conns r !! t_connection t))) as [Hconn|Hconn]; cbn [negb].
  2:{ eexists. split; [done|]. split; [done| |done|done|by left]. apply (taken_moved _ id t); [done|done|].
      exact (journal_line (settled_of t id None (failure_word SfConnectionGone)) (on_desk (less_ticket id (rn_desk r)) r)). }
  assert (may_open id now r t) as Hmay by (by split_and!). specialize (Hch c t eq_refl eq_refl).
  cbn [rn_desk on_desk less_ticket with_ledger dk_files].
  destruct (resolve K (dk_files (rn_desk r)) (ch_dir c) [ch_name c] (ch_mode c) (ch_directory c)) as [[fd|e] w] eqn:Hopen.
  2:{ collapse. apply (settle_refuse id t); [done|done|]. intros r' Hf Hdel. right. exists t, c. split_and!; [done|done|]. by rewrite Hopen. }
  cbn [with_files dk_files]. destruct (fstat w fd) as [[dev|] w'] eqn:Hstat.
  2:{ collapse. change (with_files w' (with_files w (less_ticket id (rn_desk r)))) with (with_files w' (less_ticket id (rn_desk r))).
      apply (settle_refuse id t); [done|done|]. intros r' Hf Hdel. right. exists t, c. split_and!; [done|done|]. by rewrite Hopen, Hstat. }
  cbn [on_desk rn_conns]. destruct Hconn as [server Hs]. rewrite Hs. eexists. split; [reflexivity|]. split; [done| |done|done|].
  - destruct Hch as (root & path & Hroot & Hreach & Hcomp & Hmode & Hdir).
    apply (moved_trans _ (with_files w' (rn_desk r))); [by apply moved_files|].
    assert (desk_wf (with_files w' (rn_desk r))) as Hwf' by (by apply moved_files).
    pose proof (parked_moved (with_files w' (rn_desk r)) id t (parked_of t id c fd dev now) Hwf' Ht eq_refl) as Hp.
    assert (opened_beneath (dk_root (rn_desk r)) (parked_of t id c fd dev now)) as Ho.
    { exists root, path, (ch_dir c), (dk_files (rn_desk r)), w. cbn. rewrite <- Hmode, <- Hdir. by split_and!. }
    specialize (Hp Ho). eapply moved_trans; [exact Hp|]. apply moved_same; [apply Hp|]. split; try done. cbn. by rewrite app_nil_r.
  - right. exists t, c. split_and!; [done|done|]. rewrite Hopen, Hstat. done.
Qed.

(* ------------------------------------------------------------------------ *)
(** ** A turn of the picker *)

Context (Hnames : names_are_names K).
Local Notation picker_apply := (picker_apply K face_covers atlas_covers raster to_lowercase).

Lemma picker_apply_id w s step : pk_id (picker_apply w s step).1.2 = pk_id s.
Proof using.
  clear Hnames. assert (forall w s name, pk_id (descend K face_covers atlas_covers raster to_lowercase w s name).1.2 = pk_id s) as Hd.
  { intros. unfold descend. destruct (resolve _ _ _ _ _ _) as [[]]; [|done]. by destruct (read_and_build _ _ _ _ _ _) as [[[]|]]. }
  destruct step as [m| | |c| |]; cbn [Picker.picker_apply]; try done.
  - unfold move_by. destruct (negb _ && negb _); [done|]. destruct m; try done.
    + unfold ascend. destruct (last _); [|done]. destruct (match firstn _ _ with [] => _ | _ => _ end) as [[]]; [|done].
      by destruct (read_and_build _ _ _ _ _ _) as [[[]|]].
    + destruct (selected s) as [e|]; [|done]. by destruct (negb _).
  - by destruct (pk_query s).
  - destruct (pk_focus s); [|done|]; unfold confirm; (destruct (selected s) as [e|]; [|done]);
      destruct (pk_ask s) eqn:Ha, (en_dir e); rewrite ?Hd; done.
Qed.

Lemma session_apply d s w step w' a s' :
  session_ok d s -> picker_apply w s step = (a, s', w') -> session_ok d s'.
Proof using Hnames.
  intros (Hid & (root & Hroot & Hok) & Hask) Ha. pose proof (picker_apply_id w s step) as Hi.
  pose proof (picker_apply_ask K face_covers atlas_covers raster to_lowercase w s step) as Hk.
  pose proof (picker_apply_ok K face_covers atlas_covers raster to_lowercase Hnames root w s step Hok) as Ho.
  rewrite Ha in Hi, Hk, Ho. cbn [fst snd] in *. split_and!; [by rewrite Hi|by exists root|]. by rewrite Hi, Hk.
Qed.

Lemma session_open d id t root w s w' :
  desk_wf d -> Designation.tickets (dk_ledger d) !! id = Some t -> dk_root d = Some root ->
  picker_open K face_covers atlas_covers raster to_lowercase w id (t_ask t) root = (Ok s, w') -> session_ok d s.
Proof using Hnames.
  intros Hwf Ht Hroot Ho. pose proof (picker_open_ok K face_covers atlas_covers raster to_lowercase Hnames _ _ _ _ _ _ Ho) as Hok.
  pose proof (picker_open_ask K face_covers atlas_covers raster to_lowercase _ _ _ _ _ _ Ho) as Hask.
  assert (pk_id s = id) as Hid.
  { revert Ho. unfold picker_open. destruct (k_dup K w root) as [[?|] ?]; [|done]. destruct (k_dup K _ root) as [[?|] ?]; [|done].
    destruct (read_and_build _ _ _ _ _ _) as [[[? ?]|?] ?]; [|done]. by intros [= <- _]. }
  unfold session_ok. rewrite Hid. split_and!.
  - apply (lwf_ids _ (dw_ledger _ Hwf)) in Ht. lia.
  - by exists root.
  - intros x Hx. congruence.
Qed.

(** Only the stage and the desk of a runtime change. *)
Definition beside (r r' : Runtime) : Prop := r' = on_desk (rn_desk r') (on_stage (rn_stage r') r).
Lemma beside_refl r : beside r r.
Proof. by destruct r. Qed.
Lemma beside_trans r1 r2 r3 : beside r1 r2 -> beside r2 r3 -> beside r1 r3.
Proof. unfold beside. intros -> ->. done. Qed.
Lemma at_desk_beside r r' : at_desk r r' -> beside r r'.
Proof. unfold at_desk, beside. intros ->. done. Qed.

(** What a stage's queue of steps may become: a part of it. *)
Definition fewer_steps (w w' : Stage) : Prop := forall x, x ∈ cg_steps (sg_grab w') -> x ∈ cg_steps (sg_grab w).

(** A part of a turn before anything settles. *)
Record readied (r r' : Runtime) : Prop := {
  rd_beside : beside r r';
  rd_moved : moved (rn_desk r) (rn_desk r');
  rd_deliveries : dk_deliveries (rn_desk r') = dk_deliveries (rn_desk r);
  rd_tickets : forall id t, Designation.tickets (dk_ledger (rn_desk r')) !! id = Some t -> Designation.tickets (dk_ledger (rn_desk r)) !! id = Some t;
  rd_steps : fewer_steps (rn_stage r) (rn_stage r') }.

Lemma readied_refl r : desk_wf (rn_desk r) -> readied r r.
Proof. intros. split; [apply beside_refl|by apply moved_refl|done|done|by intros x]. Qed.
Lemma readied_trans r1 r2 r3 : readied r1 r2 -> readied r2 r3 -> readied r1 r3.
Proof.
  intros [] []. split; [by eapply beside_trans|by eapply moved_trans|congruence|auto|]. intros x Hx. by apply rd_steps0, rd_steps1.
Qed.
Lemma readied_wf r r' : readied r r' -> desk_wf (rn_desk r').
Proof. intros Hr. apply Hr. Qed.

Lemma may_open_readied id now r r' t : readied r r' -> may_open id now r' t -> may_open id now r t.
Proof.
  intros Hr (Ht & Hd & Hl & Hs & Hc). pose proof (rd_beside _ _ Hr) as Hb. unfold beside in Hb. rewrite Hb in Hl, Hs, Hc. cbn in Hl, Hs, Hc.
  split_and!; [by apply (rd_tickets _ _ Hr)|done..].
Qed.

Lemma lower_picker_down w : raised_designation (sg_grab (lower_picker w)) = None /\ fewer_steps w (lower_picker w).
Proof.
  unfold lower_picker. destruct (raised_designation (sg_grab w)) as [id|] eqn:Hr; [|split; [done|by intros x]]. split; [done|].
  intros x Hx. cbn in Hx. apply list_elem_of_In, List.filter_In in Hx as [Hx _]. by apply list_elem_of_In.
Qed.

Lemma drop_picker_spec r : desk_wf (rn_desk r) ->
  readied r (drop_picker r) /\ dk_picker (rn_desk (drop_picker r)) = None /\ raised_designation (sg_grab (rn_stage (drop_picker r))) = None
  /\ dk_ledger (rn_desk (drop_picker r)) = dk_ledger (rn_desk r) /\ dk_files (rn_desk (drop_picker r)) = dk_files (rn_desk r).
Proof.
  intros Hwf. destruct (lower_picker_down (rn_stage r)) as [Hd Hs]. split_and!; [|done|done|done|done].
  split; [done|by apply moved_picker|done|done|done].
Qed.

Lemma settle_refused_readied id why r : desk_wf (rn_desk r) ->
  exists r', settle_refused id why r = Some r' /\ readied r r' /\ dk_picker (rn_desk r') = dk_picker (rn_desk r) /\ rn_stage r' = rn_stage r.
Proof.
  intros Hwf. destruct (settle_refused_spec id why r Hwf) as (r' & Hr & Hd & Hm & Ht & Hp & Hf & Hdel). exists r'.
  assert (rn_stage r' = rn_stage r) as Hst by (by rewrite Hd). split_and!; [done| |done|done].
  split; [by apply at_desk_beside|done|done| |by intros x; rewrite Hst].
  intros k x. rewrite Ht, bt_lookup_remove. by destruct (k =? id).
Qed.

Lemma retire_picker_spec v r : desk_wf (rn_desk r) ->
  exists b r', retire_picker v r = Some (b, r') /\ readied r r' /\ (v <> Reachable -> dk_picker (rn_desk r') = None)
    /\ (dk_picker (rn_desk r') = None \/ r' = r).
Proof.
  intros Hwf. unfold retire_picker.
  set (first := match raised_designation (sg_grab (rn_stage r)) with
    | Some id => if negb (is_open (dk_ledger (rn_desk r)) id) then (true, drop_picker r) else (false, r)
    | None => (false, r)
    end).
  assert (readied r first.2 /\ (dk_picker (rn_desk first.2) = None \/ first.2 = r)) as [H1 Hp1].
  { unfold first. repeat case_match; cbn [snd]; try (split; [by apply readied_refl|by right]).
    split; [by apply drop_picker_spec|left; by apply (drop_picker_spec r Hwf)]. }
  destruct first as [b1 r1]. cbn [snd] in H1, Hp1. assert (desk_wf (rn_desk r1)) as Hwf1 by apply H1.
  assert (exists b2 r2, match v, raised_designation (sg_grab (rn_stage r1)) with
    | Reachable, _ | _, None => Some (b1, r1)
    | _, Some id => r' ← settle_refused id SfTimedOut (drop_picker r1); Some (true, r')
    end = Some (b2, r2) /\ readied r1 r2
    /\ (v <> Reachable -> raised_designation (sg_grab (rn_stage r2)) = None)
    /\ (dk_picker (rn_desk r2) = None \/ r2 = r1)) as (b2 & r2 & Hsecond & H2 & Hv2 & Hp2).
  { destruct (drop_picker_spec r1 Hwf1) as (Hd & Hp & Hr & _).
    destruct v; [exists b1, r1; split_and!; [done|by apply readied_refl|done|by right]|..];
      (destruct (raised_designation (sg_grab (rn_stage r1))) as [id|] eqn:Hrd;
        [|exists b1, r1; split_and!; [done|by apply readied_refl|done|by right]]);
      destruct (settle_refused_readied id SfTimedOut (drop_picker r1) ltac:(apply Hd)) as (r' & -> & Hrr & Hpk & Hst);
      exists true, r'; (split_and!; [done|by eapply readied_trans|by rewrite Hst|left; congruence]). }
  rewrite Hsecond. cbn [mbind option_bind]. assert (desk_wf (rn_desk r2)) as Hwf2 by apply H2.
  eexists b2, _. split; [reflexivity|]. pose proof (readied_trans _ _ _ H1 H2) as H12.
  assert (dk_picker (rn_desk r2) = None \/ r2 = r) as Hp12 by (destruct Hp2 as [?| ->]; [by left|done]).
  destruct (dk_picker (rn_desk r2)) eqn:Hp; [|split; [done|by split; [intros _|left]]].
  destruct (raised_designation (sg_grab (rn_stage r2))) eqn:Hr2.
  - split; [done|]. split; [intros Hv; specialize (Hv2 Hv); congruence|]. right. by destruct Hp12.
  - split; [|by split; [intros _|left]]. eapply readied_trans; [done|]. split; [by destruct r2|by apply moved_picker|done|done|by intros x].
Qed.

(** What the human's steps make of the session that is up: those that name it are
    applied to it in order, and the first that confirms or cancels ends it. *)
Fixpoint play (steps : list (Z * PickerStep)) (w : WF) (s : PickerSession) : option (SettleOutcome * PickerSession * WF) :=
  match steps with
  | [] => None
  | (id, step) :: steps =>
      if negb (pk_id s =? id) then play steps w s
      else
        let '(applied, s, w) := picker_apply w s step in
        match applied with
        | Confirmed => Some (OutConfirmed, s, w)
        | Picker.Cancelled => Some (OutCancelled, s, w)
        | Unchanged | Changed => play steps w s
        end
  end.

Definition drained (settle : option (Z * SettleOutcome)) (r : Runtime) (settle' : option (Z * SettleOutcome)) (r' : Runtime) : Prop :=
  match settle, dk_picker (rn_desk r) with
  | None, Some s0 =>
      match play (cg_steps (sg_grab (rn_stage r))) (dk_files (rn_desk r)) s0 with
      | Some (o, s, w) => settle' = Some (pk_id s0, o) /\ dk_picker (rn_desk r') = Some s /\ dk_files (rn_desk r') = w
      | None => settle' = None
      end
  | _, _ => settle' = settle /\ dk_picker (rn_desk r') = dk_picker (rn_desk r) /\ dk_files (rn_desk r') = dk_files (rn_desk r)
  end.

Lemma play_id steps : forall w s o s' w', play steps w s = Some (o, s', w') -> pk_id s' = pk_id s.
Proof.
  induction steps as [|[id step] steps IH]; intros w s o s' w'; [done|]. cbn [play]. case_match; [apply IH|].
  destruct (picker_apply w s step) as [[applied s1] w1] eqn:Happ. pose proof (picker_apply_id w s step) as Hi. rewrite Happ in Hi. cbn in Hi.
  destruct applied; first [by intros [= _ <- _]|by intros ->%IH].
Qed.

(** The human's steps, taken in order: what they settle on is what playing them
    through the session that is up comes to. *)
Lemma drain_steps_spec fuel : forall changed settle r,
  desk_wf (rn_desk r) -> (length (cg_steps (sg_grab (rn_stage r))) < fuel)%nat ->
  exists changed' settle' r', drain_steps K face_covers atlas_covers raster to_lowercase fuel changed settle r = Some (changed', settle', r')
    /\ readied r r' /\ drained settle r settle' r'.
Proof using Hnames.
  induction fuel as [|fuel IH]; intros changed settle r Hwf Hlen; [lia|]. cbn [drain_steps]. unfold take_step.
  destruct (cg_steps (sg_grab (rn_stage r))) as [|[id step] l] eqn:Hsteps.
  { exists changed, settle, (on_stage (with_grab (sg_grab (rn_stage r)) (rn_stage r)) r). split_and!; [done| |].
    - split; [done|by apply moved_refl|done|done|by intros x].
    - unfold drained. rewrite Hsteps. destruct settle; [done|]. by destruct (dk_picker (rn_desk r)) eqn:Hp; [|split_and!]. }
  cbn [length] in Hlen. cbn [on_stage rn_stage rn_desk].
  set (r1 := on_stage (with_grab (set_steps l (sg_grab (rn_stage r))) (rn_stage r)) r).
  assert (readied r r1) as H1.
  { split; [done|by apply moved_refl|done|done|]. intros x Hx. rewrite Hsteps. by right. }
  assert (forall changed' settle' r2, desk_wf (rn_desk r2) -> readied r r2 -> rn_stage r2 = rn_stage r1 ->
    (forall s0 r0, drained settle' r2 s0 r0 -> drained settle r s0 r0) ->
    exists changed0 settle0 r0, drain_steps K face_covers atlas_covers raster to_lowercase fuel changed' settle' r2 = Some (changed0, settle0, r0)
      /\ readied r r0 /\ drained settle r settle0 r0) as Hrec.
  { intros changed' settle' r2 Hwf2 H2 Hst Hset. destruct (IH changed' settle' r2 Hwf2) as (c0 & s0 & r0 & Hr0 & Hrd & Hs0).
    { rewrite Hst. cbn. lia. }
    exists c0, s0, r0. split_and!; [done|by eapply readied_trans|by apply Hset]. }
  assert (desk_wf (rn_desk r1)) as Hwf1 by done.
  destruct settle as [st|].
  { by apply Hrec. }
  destruct (dk_picker (rn_desk r)) as [session|] eqn:Hp.
  2:{ apply Hrec; [done|done|done|]. unfold drained. change (dk_picker (rn_desk r1)) with (dk_picker (rn_desk r)). by rewrite Hp. }
  destruct (Z.eqb_spec (pk_id session) id) as [Hid|Hid]; cbn [negb].
  2:{ apply Hrec; [done|done|done|]. intros s0 r0. unfold drained. change (rn_desk r1) with (rn_desk r). rewrite Hp, Hsteps.
      cbn [play]. by rewrite (proj2 (Z.eqb_neq _ _) Hid). }
  change (dk_files (rn_desk r1)) with (dk_files (rn_desk r)).
  destruct (picker_apply (dk_files (rn_desk r)) session step) as [[applied s'] w] eqn:Happ.
  pose proof (session_apply _ _ _ _ _ _ _ (dw_picker _ Hwf _ Hp) Happ) as Hs'.
  pose proof (picker_apply_id (dk_files (rn_desk r)) session step) as Hi. rewrite Happ in Hi. cbn [fst snd] in Hi.
  set (r2 := on_desk (with_picker (Some s') (with_files w (rn_desk r1))) r1).
  assert (moved (rn_desk r) (rn_desk r2)) as Hm2.
  { apply (moved_trans _ (with_files w (rn_desk r))); [by apply moved_files|]. apply (moved_picker (with_files w (rn_desk r))); [by apply moved_files|].
    by intros x [= <-]. }
  assert (readied r r2) as H2 by (split; [done|done|done|done|apply H1]).
  destruct applied; (apply Hrec; [apply Hm2|done|done|]); intros s0 r0; unfold drained; rewrite Hp, Hsteps; cbn [play];
    rewrite (proj2 (Z.eqb_eq _ _) Hid); cbn [negb]; rewrite Happ, ?Hid, <- ?Hid, <- ?Hi; done.
Qed.

Lemma show_picker_grab content w : sg_grab (show_picker content w).2 = sg_grab w.
Proof. unfold show_picker. destruct (raised_designation (sg_grab w)); [|done]. by destruct (surface_show_picker content (sg_surface w)). Qed.

Lemma on_stage_readied w r : desk_wf (rn_desk r) -> fewer_steps (rn_stage r) w -> readied r (on_stage w r).
Proof. intros Hwf Hw. split; [done|by apply moved_refl|done|done|exact Hw]. Qed.

Lemma refresh_picker_readied changed settle r :
  desk_wf (rn_desk r) -> readied r (refresh_picker face_covers atlas_covers changed settle r)
    /\ rn_desk (refresh_picker face_covers atlas_covers changed settle r) = rn_desk r.
Proof using.
  clear Hnames. intros Hwf. unfold refresh_picker. repeat (case_match; try (split; [by apply readied_refl|done])).
  split; [|done]. apply on_stage_readied; [done|]. intros x. by rewrite show_picker_grab.
Qed.

Lemma raise_picker_for_readied id now r :
  desk_wf (rn_desk r) ->
  readied r (raise_picker_for K face_covers atlas_covers raster to_lowercase id now r).2.
Proof using Hnames.
  intros Hwf. unfold raise_picker_for. destruct (dk_root (rn_desk r)) as [root|] eqn:Hroot; [|by apply readied_refl].
  unfold peek. destruct (Designation.tickets (dk_ledger (rn_desk r)) !! id) as [t|] eqn:Ht; [|by apply readied_refl].
  destruct (picker_open _ _ _ _ _ _ _ _ _) as [[session|e] w] eqn:Ho.
  2:{ split; [done|by apply moved_files|done|done|by intros x]. }
  pose proof (session_open _ _ _ _ _ _ _ Hwf Ht Hroot Ho) as Hs.
  set (r1 := on_desk (with_files w (rn_desk r)) r). change (rn_stage r1) with (rn_stage r).
  destruct (raise_picker id (t_deadline t) now (sg_grab (rn_stage r))) as [ok g] eqn:Hg.
  assert (fewer_steps (rn_stage r) (with_grab g (rn_stage r))) as Hfew.
  { revert Hg. unfold raise_picker. destruct (cg_prompt (sg_grab (rn_stage r))); intros [= <- <-]; by intros x. }
  cbn iota beta. set (r2 := on_stage (with_grab g (rn_stage r)) r1).
  assert (readied r r2) as H2 by (split; [done|by apply moved_files|done|done|exact Hfew]).
  destruct ok; cbn [negb]; [|done]. change (rn_stage r2) with (with_grab g (rn_stage r)).
  pose proof (show_picker_grab (Picker.card face_covers atlas_covers session (t_principal t) (t_realm t)) (with_grab g (rn_stage r))) as Hsg.
  destruct (show_picker _ (with_grab g (rn_stage r))) as [shown stage]. cbn [snd] in Hsg.
  assert (readied r (on_stage stage r2)) as H3.
  { eapply readied_trans; [exact H2|]. apply on_stage_readied; [by apply moved_files|]. intros x. rewrite Hsg. done. }
  destruct shown; cbn [negb snd].
  - eapply readied_trans; [exact H3|]. split; [done| |done|done|by intros x]. apply (moved_picker (with_files w (rn_desk r))); [by apply moved_files|].
    by intros x [= <-].
  - eapply readied_trans; [exact H3|]. apply on_stage_readied; [by apply moved_files|]. apply lower_picker_down.
Qed.

Lemma raise_next_spec now v changed r : desk_wf (rn_desk r) ->
  exists b r', raise_next K face_covers atlas_covers raster to_lowercase now v changed r = Some (b, r') /\ readied r r'.
Proof using Hnames.
  intros Hwf. unfold raise_next. destruct (bool_decide _ && bool_decide _); [|exists changed, r; split; [done|by apply readied_refl]].
  destruct (front_open (dk_ledger (rn_desk r))) as [id|]; [|exists changed, r; split; [done|by apply readied_refl]].
  pose proof (raise_picker_for_readied id now r Hwf) as H1. destruct (raise_picker_for _ _ _ _ _ id now r) as [[u|why] r1]; cbn [snd] in H1; [by exists true, r1|].
  destruct (settle_refused_readied id why r1 ltac:(apply H1)) as (r2 & -> & H2 & _). cbn [mbind option_bind].
  exists changed, r2. split; [done|by eapply readied_trans].
Qed.

(** What the human confirmed, handed over: the choice of session [s] over the files
    [w], opened in the directory it was made in. *)
Definition confirmed (s : PickerSession) (w : WF) (now : Instant) (r r' : Runtime) : Prop :=
  exists t c w1 fd w2 dev w3,
    may_open (pk_id s) now r t /\ session_ok (rn_desk r) s /\ chosen K w s = (Some c, w1)
    /\ resolve K w1 (ch_dir c) [ch_name c] (ch_mode c) (ch_directory c) = (Ok fd, w2) /\ fstat w2 fd = (Some dev, w3)
    /\ dk_deliveries (rn_desk r') = park (parked_of t (pk_id s) c fd dev now) (dk_deliveries (rn_desk r)).

Lemma chosen_dir w s c w' : chosen K w s = (Some c, w') -> k_dup K w (pk_here s) = (Some (ch_dir c), w') /\ (en_name <$> selected s) = Some (ch_name c).
Proof.
  unfold chosen. destruct (selected s) as [e|]; [|done]. destruct (k_dup K w (pk_here s)) as [[dir|] w1]; [|done]. by intros [= <- <-].
Qed.

Lemma chosen_confined root s w c w' ask :
  picker_ok root s -> pk_ask s = ask -> chosen K w s = (Some c, w') -> chosen_beneath (Some root) ask c.
Proof.
  intros Hs Hask. unfold chosen. destruct (selected s) as [e|] eqn:Hsel; [|done].
  destruct (k_dup K w (pk_here s)) as [[dir|] w3] eqn:Hdup; [|done]. intros [= <- _]. exists root, (pk_path s). cbn.
  rewrite Hask. split_and!; [done|eapply reached_dup; [apply Hs|done]|by eapply selected_component|by destruct ask as [[]|]|by destruct ask].
Qed.

Lemma settle_step_spec settle now changed r :
  desk_wf (rn_desk r) -> (forall id o, settle = Some (id, o) -> exists s, dk_picker (rn_desk r) = Some s /\ pk_id s = id) ->
  exists b r', settle_step K fstat settle now changed r = Some (b, r') /\ beside r r' /\ moved (rn_desk r) (rn_desk r')
    /\ (dk_deliveries (rn_desk r') = dk_deliveries (rn_desk r)
        \/ exists s, settle = Some (pk_id s, OutConfirmed) /\ dk_picker (rn_desk r) = Some s /\ confirmed s (dk_files (rn_desk r)) now r r').
Proof using Hnames.
  intros Hwf Hset. unfold settle_step. destruct settle as [[id o]|].
  2:{ exists changed, r. split_and!; [done|apply beside_refl|by apply moved_refl|by left]. }
  destruct (Hset id o eq_refl) as (s & Hp & <-). destruct (drop_picker_spec r Hwf) as (Hd & _ & _ & Hl & Hf).
  assert (desk_wf (rn_desk (drop_picker r))) as Hwfd by apply Hd. destruct o.
  2:{ destruct (settle_refused_readied (pk_id s) SfCancelled (drop_picker r) Hwfd) as (r' & -> & Hrd & _). cbn [mbind option_bind].
      pose proof (readied_trans _ _ _ Hd Hrd) as []. exists true, r'. split_and!; [done|done|done|by left]. }
  rewrite Hp. change (dk_files (rn_desk (drop_picker r))) with (dk_files (rn_desk r)).
  destruct (chosen K (dk_files (rn_desk r)) s) as [ch w] eqn:Hch.
  destruct (dw_picker _ Hwf s Hp) as (Hlt & (root & Hroot & Hok) & Hask).
  set (r1 := on_desk (with_files w (rn_desk (drop_picker r))) (drop_picker r)).
  assert (readied r r1) as H1 by (eapply readied_trans; [exact Hd|]; split; [done|by apply moved_files|done|done|by intros x]).
  destruct (settle_designation_spec (pk_id s) ch now r1) as (r' & -> & Hs); [apply H1| |].
  { intros c t -> Ht. change (dk_root (rn_desk r1)) with (dk_root (rn_desk r)). rewrite Hroot. eapply chosen_confined; [done| |done].
    symmetry. apply Hask. by apply (rd_tickets _ _ H1). }
  cbn [mbind option_bind]. exists true, r'. destruct Hs as [Hdk Hm _ _ Hst].
  split_and!; [done|eapply beside_trans; [apply H1|by apply at_desk_beside]|eapply moved_trans; [apply H1|done]|].
  destruct Hst as [[_ Hdel]|(t & c & Hmay & -> & Hcase)]; [by left|]. change (dk_files (rn_desk r1)) with w in Hcase.
  destruct (resolve K w (ch_dir c) _ _ _) as [[fd|e] w1] eqn:Hopen; [|by left; destruct Hcase].
  destruct (fstat w1 fd) as [[dev|] w2] eqn:Hstat; [|by left; destruct Hcase]. right. exists s. split_and!; [done|done|].
  exists t, c, w, fd, w1, dev, w2. destruct Hcase as [_ Hdel].
  split_and!; [by eapply may_open_readied|by apply (dw_picker _ Hwf)|done|done|done|done].
Qed.

Lemma picker_round_spec now v r :
  desk_wf (rn_desk r) ->
  exists b r', service_picker_round K fstat face_covers atlas_covers raster to_lowercase now v r = Some (b, r')
    /\ beside r r' /\ moved (rn_desk r) (rn_desk r')
    /\ (dk_deliveries (rn_desk r') = dk_deliveries (rn_desk r)
        \/ exists s0 s w r1, v = Reachable /\ dk_picker (rn_desk r) = Some s0
             /\ play (cg_steps (sg_grab (rn_stage r))) (dk_files (rn_desk r)) s0 = Some (OutConfirmed, s, w) /\ readied r r1
             /\ exists r2, confirmed s w now r1 r2 /\ dk_deliveries (rn_desk r') = dk_deliveries (rn_desk r2)).
Proof using Hnames.
  intros Hwf. unfold service_picker_round. destruct (retire_picker_spec v r Hwf) as (b1 & r1 & -> & H1 & Hv & Hsame). cbn [mbind option_bind].
  destruct (drain_steps_spec (S (length (cg_steps (sg_grab (rn_stage r1))))) b1 None r1 ltac:(apply H1) ltac:(lia))
    as (b2 & settle & r2 & -> & H2 & Hset). cbn [mbind option_bind].
  destruct (refresh_picker_readied b2 settle r2 ltac:(apply H2)) as [H3 Hd3].
  set (r3 := refresh_picker face_covers atlas_covers b2 settle r2) in *.
  pose proof (readied_trans _ _ _ (readied_trans _ _ _ H1 H2) H3) as H13.
  assert (forall id o, settle = Some (id, o) -> v = Reachable /\ exists s0 s w, dk_picker (rn_desk r) = Some s0 /\ pk_id s = id
      /\ play (cg_steps (sg_grab (rn_stage r))) (dk_files (rn_desk r)) s0 = Some (o, s, w)
      /\ dk_picker (rn_desk r3) = Some s /\ dk_files (rn_desk r3) = w) as Hplay.
  { intros id o ->. unfold drained in Hset. destruct (dk_picker (rn_desk r1)) as [s0|] eqn:Hp; [|by destruct Hset].
    destruct Hsame as [?| ->]; [done|]. split; [destruct v; try done; exfalso; specialize (Hv ltac:(done)); congruence|].
    destruct (play _ _ s0) as [[[o' s] w]|] eqn:Hpl; [|done]. destruct Hset as ([= -> ->] & Hp2 & Hf2).
    exists s0, s, w. rewrite Hd3. split_and!; [done|by eapply play_id|done|done|done]. }
  destruct (settle_step_spec settle now b2 r3 ltac:(apply H3)) as (b4 & r4 & -> & Hb4 & Hm4 & Hcase).
  { intros id o Ho. destruct (Hplay id o Ho) as (_ & s0 & s & w & _ & Hi & _ & Hp & _). by exists s. }
  cbn [mbind option_bind]. destruct (raise_next_spec now v b4 r4 ltac:(apply Hm4)) as (b5 & r5 & -> & H5). exists b5, r5.
  split_and!; [done|eapply beside_trans; [apply H13|eapply beside_trans; [done|apply H5]]
              |eapply moved_trans; [apply H13|eapply moved_trans; [done|apply H5]]|].
  rewrite (rd_deliveries _ _ H5). destruct Hcase as [->|(s & -> & Hp & Hc)]; [left; apply H13|right].
  destruct (Hplay _ _ eq_refl) as (Hvis & s0 & s' & w & Hp0 & _ & Hpl & Hp' & Hw). rewrite Hp in Hp'. injection Hp' as <-.
  exists s0, s, w, r3. rewrite Hw in Hc. split_and!; [done|done|done|done|by exists r4].
Qed.

Lemma cancel_spec r : desk_wf (rn_desk r) ->
  exists ended r', cancel_outstanding_designations r = Some (ended, r') /\ at_desk r r' /\ moved (rn_desk r) (rn_desk r')
    /\ Designation.tickets (dk_ledger (rn_desk r')) = bt_empty /\ dk_picker (rn_desk r') = None
    /\ dk_deliveries (rn_desk r') = dk_deliveries (rn_desk r).
Proof using.
  clear Hnames. unfold cancel_outstanding_designations.
  assert (length (bt_keys (Designation.tickets (dk_ledger (rn_desk r)))) < S (length (bt_keys (Designation.tickets (dk_ledger (rn_desk r))))))%nat as Hfuel by lia.
  revert Hfuel. generalize (S (length (bt_keys (Designation.tickets (dk_ledger (rn_desk r)))))) as fuel. intros fuel. generalize (@nil Z) as ended.
  revert r. induction fuel as [|fuel IH]; intros r ended Hf Hwf; [lia|]. cbn [cancel_loop].
  destruct (front_open (dk_ledger (rn_desk r))) as [id|] eqn:Hfront.
  2:{ eexists ended, _. split_and!; [done|done|by apply moved_picker| |done|done]. by apply bt_first_None. }
  destruct (settle_refused_spec id SfTimedOut r Hwf) as (r1 & -> & Hd1 & Hm1 & Ht1 & _ & _ & Hdel1). cbn [mbind option_bind].
  destruct (IH r1 (ended ++ [id])) as (ended' & r2 & Hr2 & Hd2 & Hm2 & Ht2 & Hp2 & Hdel2); [|apply Hm1|].
  - rewrite Ht1. destruct (proj1 (bt_first_spec _ _ (lwf_sorted _ (dw_ledger _ Hwf)) Hfront)) as [t Ht].
    pose proof (Permutation_length (Permutation_map fst (bt_remove_perm _ _ _ (lwf_sorted _ (dw_ledger _ Hwf)) Ht))) as Hlen.
    unfold bt_keys in *. rewrite List.length_map in Hlen. cbn [List.map length] in Hlen.
    rewrite !List.length_map in Hlen. rewrite List.length_map in Hf |- *. lia.
  - exists ended', r2. split_and!; [done|by eapply at_desk_trans|by eapply moved_trans|done|done|congruence].
Qed.

(* ------------------------------------------------------------------------ *)
(** ** The other turns *)

Lemma half_moved id agent shim (r : Runtime) : desk_wf (rn_desk r) -> moved (rn_desk r) (rn_desk (set_half id agent shim r)).
Proof using.
  clear Hnames. intros Hwf. pose proof Hwf as []. destruct dw_deliveries0 as [Hs Hids].
  assert (forall k e, dk_deliveries (rn_desk (set_half id agent shim r)) !! k = Some e ->
    exists e', dk_deliveries (rn_desk r) !! k = Some e' /\ (e = e' \/ e = set_halves agent shim e')) as Hlook.
  { intros k e. cbn. unfold delivery_update. rewrite bt_lookup_set. destruct (id =? k); [|by eauto].
    intros (e' & He' & ->)%fmap_Some. eauto. }
  split; [done|done| |].
  - split; cbn [set_half on_desk rn_desk with_deliveries dk_ledger dk_root dk_picker]; [done| | | |done].
    + split; [by apply bt_wf_set|]. intros k e He. destruct (Hlook k e He) as (e' & He' & [->| ->]); exact (Hids k e' He').
    + intros k e He. destruct (Hlook k e He) as (e' & He' & _). by eapply dw_apart0.
    + intros k e He. destruct (Hlook k e He) as (e' & He' & [->| ->]); exact (dw_opened0 k e' He').
  - unfold accounts. change (waiting (rn_desk (set_half id agent shim r))) with (waiting (rn_desk r)).
    change (journalled (rn_desk (set_half id agent shim r))) with (journalled (rn_desk r)).
    assert (held_ids (dk_deliveries (rn_desk (set_half id agent shim r))) = held_ids (dk_deliveries (rn_desk r))) as -> by apply bt_keys_set. done.
Qed.

Lemma frames_total raw : is_bytes raw ->
  exists name, display_name raw = Some name
    /\ (forall oid id kind mode, exists f, powerbox_designated_frame oid id kind mode name = Some f)
    /\ (forall oid id kind mode, exists f, shim_designation_frame oid id kind mode name = Some f).
Proof using.
  clear Hnames. intros Hraw. destruct (display_name_spec raw Hraw) as (name & rest & Hname & Hs & _ & Hlen & _). exists name.
  split_and!; [done|..]; intros oid id kind mode.
  - destruct (announced_bytes 0 oid id kind mode name ltac:(unfold is_u8, u8_max; lia) Hs Hlen) as (f & Hf & _). by exists f.
  - destruct (announced_bytes 4 oid id kind mode name ltac:(unfold is_u8, u8_max; lia) Hs Hlen) as (f & Hf & _). by exists f.
Qed.

Lemma opened_name d id e : desk_wf d -> dk_deliveries d !! id = Some e -> is_bytes (if_name e).
Proof using. intros Hwf He. destruct (dw_opened _ Hwf _ _ He) as (root & path & dir & w & w' & _ & _ & [[Hb _] _] & _). done. Qed.

Lemma wake_moved x (r : Runtime) : desk_wf (rn_desk r) -> moved (rn_desk r) (rn_desk (on_desk (push_wake x (rn_desk r)) r)).
Proof using. intros Hwf. apply moved_same; [done|]. split; try done. cbn. by rewrite app_nil_r. Qed.

Lemma agent_copy_spec c (r : Runtime) : desk_wf (rn_desk r) ->
  exists r', deliver_agent_copy reply_agent c r = Some r' /\ moved (rn_desk r) (rn_desk r').
Proof using.
  clear Hnames. intros Hwf. unfold deliver_agent_copy.
  destruct (owed_by_connection c _) as [id|]; [|exists r; split; [done|by apply moved_refl]].
  destruct (dk_deliveries (rn_desk r) !! id) as [e|] eqn:He; [|exists r; split; [done|by apply moved_refl]].
  destruct (frames_total (if_name e) (opened_name _ _ _ Hwf He)) as (name & -> & Hf & _). cbn [mbind option_bind].
  destruct (Hf (if_facet_id e) (if_id e) (wire_kind (if_ask e)) (wire_mode (if_ask e))) as [f ->]. cbn [mbind option_bind].
  destruct (reply_agent c f (if_fd e) (rn_world r)) as [sent w].
  set (r1 := set_half id (Some (if sent then Sent else Failed)) None (on_world w r)).
  assert (moved (rn_desk r) (rn_desk r1)) as H1 by (by apply (half_moved id _ _ (on_world w r))).
  destruct sent; cbn [negb]; [destruct (rn_serving r1 !! if_realm e)|]; eexists; (split; [reflexivity|]); (eapply moved_trans; [exact H1|]).
  - apply wake_moved, H1.
  - apply released_moved, H1.
  - apply released_moved, H1.
Qed.

Lemma delivered_moved id (r : Runtime) : desk_wf (rn_desk r) ->
  moved (rn_desk r) (rn_desk (let '(entry, t) := take_settled id (dk_deliveries (rn_desk r)) in
    let r := on_desk (with_deliveries t (rn_desk r)) r in
    match entry with Some e => journal_delivered e r | None => r end)).
Proof using.
  clear Hnames. intros Hwf. unfold take_settled. pose proof Hwf as [].
  assert (moved (rn_desk r) (rn_desk (on_desk (with_deliveries (dk_deliveries (rn_desk r)) (rn_desk r)) r))) as Hsame.
  { apply moved_same; [done|]. split; try done. cbn. by rewrite app_nil_r. }
  destruct (dk_deliveries (rn_desk r) !! id) as [e|] eqn:He; [|exact Hsame]. destruct (settled e); [|exact Hsame].
  apply (moved_noted _ (dk_ledger (rn_desk r)) (delete id (dk_deliveries (rn_desk r))) [if_id e]); try done; [by apply delivery_delete_wf| | |].
  - intros k x. rewrite bt_lookup_remove. by destruct (k =? id).
  - rewrite (held_delete id _ e) by done. cbn. unfold waiting. by rewrite Permutation_middle.
  - exact (journal_line (settled_in_flight e true (str "delivered")) (on_desk (with_deliveries _ (rn_desk r)) r)).
Qed.

Lemma realm_copy_spec realm (r : Runtime) : desk_wf (rn_desk r) ->
  exists r', deliver_realm_copy reply_realm realm r = Some r' /\ moved (rn_desk r) (rn_desk r').
Proof using.
  clear Hnames. intros Hwf. unfold deliver_realm_copy.
  destruct (owed_by_realm realm _) as [id|]; [|exists r; split; [done|by apply moved_refl]].
  destruct (dk_deliveries (rn_desk r) !! id) as [e|] eqn:He; [|exists r; split; [done|by apply moved_refl]].
  destruct (frames_total (if_name e) (opened_name _ _ _ Hwf He)) as (name & -> & _ & Hf). cbn [mbind option_bind].
  destruct (Hf SHIM_SESSION_ID (if_id e) (wire_kind (if_ask e)) (wire_mode (if_ask e))) as [f ->]. cbn [mbind option_bind].
  destruct (reply_realm realm f (if_fd e) (rn_world r)) as [sent w].
  set (r1 := set_half id None (Some (if sent then Sent else Failed)) (on_world w r)).
  assert (moved (rn_desk r) (rn_desk r1)) as H1 by (by apply (half_moved id _ _ (on_world w r))).
  match goal with |- exists r', match owed_by_realm realm (dk_deliveries (rn_desk ?r2)) with _ => _ end = _ /\ _ =>
    assert (moved (rn_desk r1) (rn_desk r2)) as H2; [|set (r2' := r2) in *] end.
  { destruct (dk_deliveries (rn_desk r1) !! id) as [e'|]; [|by apply moved_refl, H1].
    destruct (negb _); [by apply released_moved, H1|by apply delivered_moved, H1]. }
  pose proof (moved_trans _ _ _ H1 H2) as H12.
  destruct (owed_by_realm realm (dk_deliveries (rn_desk r2'))); [destruct (rn_serving r2' !! realm)|]; eexists; (split; [reflexivity|]); try done.
  eapply moved_trans; [exact H12|]. apply wake_moved, H12.
Qed.

Lemma deliver_each_desk now rs : forall r : Runtime,
  rn_desk (fold_left (fun r res => Rounds.deliver send_to res now r) rs r) = rn_desk r.
Proof using.
  clear Hnames. induction rs as [|res rs IH]; intros r; [done|]. cbn [fold_left]. rewrite IH. unfold Rounds.deliver. by destruct (serve_stage (rs_connection res) (deliver_resolution (send_to (rs_connection res)) now res) r) as (_ & -> & _).
Qed.
Lemma expired_noted gs : forall r : Runtime,
  noted [] (rn_desk r) (rn_desk (fold_left (fun r g => on_desk (push_journal (GrantExpired g) (rn_desk r)) r) gs r)).
Proof using.
  clear Hnames. induction gs as [|g gs IH]; intros r; [apply noted_refl|]. cbn [fold_left]. refine (noted_trans [] [] _ _ _ _ (IH _)).
  split; try done. unfold journalled. cbn. by rewrite omap_app.
Qed.

(** Nothing is left of the tickets and entries of a kind. *)
Definition none_left (p : DesignationTicket -> bool) (q : @InFlight Fd -> bool) (d : Desk) : Prop :=
  (forall id t, Designation.tickets (dk_ledger d) !! id = Some t -> p t = false)
  /\ forall id e, dk_deliveries d !! id = Some e -> q e = false.

(** Both tables swept, the tickets refused. *)
Lemma both_swept d d1 d2 p q why ts l es t :
  desk_wf d -> Designation.sweep (dk_ledger d) p = (ts, l) -> noted (List.map t_id ts) (with_ledger l d) d1 ->
  abandon why q (dk_deliveries d1) = (es, t) -> noted (List.map (fun x => if_id x.1) es) (with_deliveries t d1) d2 ->
  moved d d2 /\ none_left p q d2.
Proof using.
  clear Hnames. intros Hwf Hs Hn1 Ha Hn2. pose proof (swept_moved d p l ts d1 Hwf Hs Hn1) as H1. assert (desk_wf d1) as Hwf1 by apply H1.
  pose proof (abandoned_moved d1 why q t es d2 Hwf1 Ha Hn2) as H2. split; [by eapply moved_trans|]. split.
  - rewrite (nt_ledger _ _ _ Hn2). change (dk_ledger (with_deliveries t d1)) with (dk_ledger d1). rewrite (nt_ledger _ _ _ Hn1).
    destruct (sweep_spec (dk_ledger d) p ltac:(apply Hwf)) as (_ & _ & _ & Hleft & _). rewrite Hs in Hleft. cbn in Hleft |- *.
    intros id x Hx. by apply Hleft in Hx as [_ ?].
  - rewrite (nt_deliveries _ _ _ Hn2). cbn. destruct (abandon_spec why q (dk_deliveries d1) ltac:(apply Hwf1)) as (_ & _ & _ & Hleft).
    rewrite Ha in Hleft. intros id x Hx. by apply Hleft in Hx as [_ ?].
Qed.

Lemma sweep_at_spec now (r : Runtime) : desk_wf (rn_desk r) ->
  exists r', sweep_at send_to now r = Some r' /\ moved (rn_desk r) (rn_desk r')
    /\ none_left (fun t => t_deadline t <=? now) (fun e => if_deadline e <=? now) (rn_desk r').
Proof using.
  clear Hnames. intros Hwf. unfold sweep_at.
  destruct (Petitions.expire_due (sg_petitions (rn_stage r)) now) as [rs reg].
  set (r0 := on_stage (with_petitions reg (rn_stage r)) r). pose proof (deliver_each_desk now rs r0) as Hd1.
  set (r1 := fold_left (fun r res => Rounds.deliver send_to res now r) rs r0) in *.
  destruct (Grants.expire_due (rn_grants r1) now) as [gs grants].
  pose proof (expired_noted gs (with_rn_grants grants r1)) as Hn2.
  set (r2 := fold_left _ gs (with_rn_grants grants r1)) in *. cbn [with_rn_grants rn_desk] in Hn2. rewrite Hd1 in Hn2.
  change (rn_desk r0) with (rn_desk r) in Hn2. pose proof (moved_same _ _ Hwf Hn2) as H2.
  set (r3 := with_clipboard (Clipboard.expire (rn_clipboard r2) now).2 r2). change (rn_desk r2) with (rn_desk r3) in H2.
  assert (desk_wf (rn_desk r3)) as Hwf3 by apply H2.
  unfold Designation.expire_due. destruct (Designation.sweep (dk_ledger (rn_desk r3)) _) as [ts l] eqn:Hs.
  destruct (refuse_each_spec SfTimedOut ts (on_desk (with_ledger l (rn_desk r3)) r3)) as (r4 & -> & _ & Hn4). cbn [mbind option_bind].
  unfold delivery_expire_due. destruct (abandon NoTurn _ (dk_deliveries (rn_desk r4))) as [es t] eqn:Ha.
  destruct (abandon_each_spec es (on_desk (with_deliveries t (rn_desk r4)) r4)) as [_ Hn5].
  destruct (both_swept _ _ _ _ _ _ _ _ _ _ Hwf3 Hs Hn4 Ha Hn5) as [Hm Hleft].
  eexists. split_and!; [reflexivity|by eapply moved_trans|done].
Qed.

Lemma close_principal_spec c (r : Runtime) : desk_wf (rn_desk r) -> is_Some (rn_conns r !! c) ->
  moved (rn_desk r) (rn_desk (close_principal c r)) /\ rn_conns (close_principal c r) !! c = None
  /\ none_left (fun t => t_connection t =? c) (fun e => if_connection e =? c) (rn_desk (close_principal c r)).
Proof using.
  clear Hnames. intros Hwf [server Hc]. unfold close_principal. rewrite Hc.
  match goal with |- context [with_rn_grants ?g ?r0] => set (r1 := with_rn_grants g r0) end.
  assert (rn_desk r1 = rn_desk r) as Hd1 by done. assert (rn_conns r1 !! c = None) as Hc1 by apply lookup_delete_eq.
  unfold Designation.withdraw_connection. destruct (Designation.sweep (dk_ledger (rn_desk r1)) _) as [ts l] eqn:Hs.
  destruct (journal_each_spec SfConnectionGone ts (on_desk (with_ledger l (rn_desk r1)) r1)) as [Hd4 Hn4].
  set (r4 := journal_each SfConnectionGone ts (on_desk (with_ledger l (rn_desk r1)) r1)) in *.
  unfold delivery_withdraw_by_id. destruct (abandon Delivery.ConnectionGone _ (dk_deliveries (rn_desk r4))) as [es t] eqn:Ha.
  destruct (abandon_each_spec es (on_desk (with_deliveries t (rn_desk r4)) r4)) as [Hd5 Hn5].
  rewrite Hd1 in Hs, Hn4. cbn [on_desk rn_desk] in Hn4.
  destruct (both_swept _ _ _ _ _ _ _ _ _ _ Hwf Hs Hn4 Ha Hn5) as [Hm Hleft]. split_and!; [done| |done].
  rewrite Hd5. cbn. by rewrite Hd4.
Qed.

Lemma close_realm_spec realm (r : Runtime) : desk_wf (rn_desk r) ->
  exists r', close_realm realm r = Some r' /\ moved (rn_desk r) (rn_desk r')
    /\ none_left (fun t => str_eqb (t_realm t) realm) (fun e => str_eqb (if_realm e) realm) (rn_desk r').
Proof using.
  clear Hnames. intros Hwf. unfold close_realm. set (r1 := with_clipboard _ r). assert (rn_desk r1 = rn_desk r) as Hd1 by done.
  unfold Designation.forget_realm. destruct (Designation.sweep (dk_ledger (rn_desk r1)) _) as [ts l] eqn:Hs.
  destruct (refuse_each_spec SfRealmDied ts (on_desk (with_ledger l (rn_desk r1)) r1)) as (r4 & -> & _ & Hn4). cbn [mbind option_bind].
  unfold delivery_forget_realm. destruct (abandon Delivery.RealmDied _ (dk_deliveries (rn_desk r4))) as [es t] eqn:Ha.
  destruct (abandon_each_spec es (on_desk (with_deliveries t (rn_desk r4)) r4)) as [_ Hn5].
  rewrite Hd1 in Hs, Hn4. cbn [on_desk rn_desk] in Hn4.
  destruct (both_swept _ _ _ _ _ _ _ _ _ _ Hwf Hs Hn4 Ha Hn5) as [Hm Hleft]. eexists. split; [reflexivity|].
  destruct (is_some_and _ _); [|done]. split; [|done]. eapply moved_trans; [exact Hm|]. by apply moved_picker; [apply Hm|].
Qed.

(** A designation asked for: one more to account for, or none. *)
Lemma designate_spec c ask (r : Runtime) : desk_wf (rn_desk r) -> next (dk_ledger (rn_desk r)) < u32_max ->
  exists res frames r', designate c ask r = Some (res, frames, r')
    /\ match res with
       | Ok id => desk_wf (rn_desk r') /\ dk_root (rn_desk r') = dk_root (rn_desk r) /\ id = next (dk_ledger (rn_desk r))
                  /\ next (dk_ledger (rn_desk r')) = id + 1 /\ Permutation (id :: accounts (rn_desk r)) (accounts (rn_desk r'))
       | Err _ => r' = r
       end.
Proof using.
  clear Hnames. intros Hwf Hn. unfold designate. destruct (dk_root (rn_desk r)) eqn:Hroot; [|by eexists _, _, _].
  pose proof Hwf as []. pose proof (open_wf (dk_ledger (rn_desk r)) c (da_facet_id ask) (da_grant_wire_id ask) (da_grant ask)
    (da_principal ask) (da_realm ask) (da_ask ask) (da_spent_once ask) (da_deadline ask) dw_ledger0 Hn) as Hw.
  destruct (open_cases (dk_ledger (rn_desk r)) c (da_facet_id ask) (da_grant_wire_id ask) (da_grant ask)
    (da_principal ask) (da_realm ask) (da_ask ask) (da_spent_once ask) (da_deadline ask) dw_ledger0) as [[_ He]|[(_ & _ & He)|(_ & _ & Hf & He)]];
    rewrite He in *; [destruct (refusal_frame_total (da_facet_id ask) RefBusy) as [frame ->]; by eexists _, _, _..|].
  set (t := ticket_of _ _ _ _ _ _ _ _ _ _) in *. cbn [snd] in Hw. pose proof (lwf_next _ dw_ledger0) as Hnx.
  eexists (Ok _), [], _. split; [reflexivity|]. cbn [on_desk rn_desk with_ledger dk_ledger dk_root next]. split_and!; [|done|done|unfold u32_saturating_add; lia|].
  - split; cbn; [done|done| |done|].
    + intros k e Hk. destruct (dw_apart0 _ _ Hk) as [Hnone Hlt]. unfold u32_saturating_add. rewrite bt_lookup_insert.
      destruct (Z.eqb_spec k (next (dk_ledger (rn_desk r)))); [lia|]. split; [done|lia].
    + intros s Hs. destruct (dw_picker0 s Hs) as (H1 & H2 & H3). unfold session_ok, u32_saturating_add. cbn. split_and!; [lia|done|].
      intros x. rewrite bt_lookup_insert. destruct (Z.eqb_spec (pk_id s) (next (dk_ledger (rn_desk r)))); [lia|apply H3].
  - unfold accounts, waiting. cbn. unfold bt_values. rewrite (Permutation_map snd (bt_insert_fresh_perm _ _ t Hf)). done.
Qed.

(* ------------------------------------------------------------------------ *)
(** ** Runs *)

(** A step of the session, and the designation it opened, if any. The rest of the
    session leaves the desk alone. *)
Inductive desk_step : Runtime -> list Z -> Runtime -> Prop :=
| step_picker now v r b r' :
    service_picker_round K fstat face_covers atlas_covers raster to_lowercase now v r = Some (b, r') -> desk_step r [] r'
| step_cancel r ended r' : cancel_outstanding_designations r = Some (ended, r') -> desk_step r [] r'
| step_sweep now r r' : sweep_at send_to now r = Some r' -> desk_step r [] r'
| step_agent c r r' : deliver_agent_copy reply_agent c r = Some r' -> desk_step r [] r'
| step_realm realm r r' : deliver_realm_copy reply_realm realm r = Some r' -> desk_step r [] r'
| step_close_principal c r : desk_step r [] (close_principal c r)
| step_close_realm realm r r' : close_realm realm r = Some r' -> desk_step r [] r'
| step_designate c ask r res frames r' : designate c ask r = Some (res, frames, r') ->
    desk_step r (match res with Ok id => [id] | Err _ => [] end) (flush_powerbox_refusals c frames r')
| step_else r r' : rn_desk r' = rn_desk r -> desk_step r [] r'.

Inductive desk_run (r : Runtime) : list Z -> Runtime -> Prop :=
| run_start : desk_run r [] r
| run_step opened r1 new r2 : desk_run r opened r1 -> desk_step r1 new r2 -> desk_run r (opened ++ new) r2.

Definition fresh_desk (d : Desk) : Prop :=
  (exists p, dk_ledger d = ledger_new p) /\ dk_deliveries d = bt_empty /\ dk_picker d = None /\ dk_journal d = [].

Lemma fresh_desk_wf d : fresh_desk d -> desk_wf d.
Proof using.
  clear Hnames. intros ([p Hl] & Hd & Hp & _). split; rewrite ?Hl, ?Hd, ?Hp; try done; [apply ledger_new_wf|]. split; [apply bt_wf_empty|done].
Qed.

Lemma flush_noted c frames : forall r : Runtime, noted [] (rn_desk r) (rn_desk (flush_powerbox_refusals c frames r)).
Proof using.
  clear Hnames. intros r. unfold flush_powerbox_refusals. destruct (rn_conns r !! c); [|apply noted_refl].
  revert r. induction frames as [|f frames IH]; intros r; [apply noted_refl|]. cbn [fold_left]. refine (noted_trans [] [] _ _ _ _ (IH _)).
  split; try done. cbn. by rewrite app_nil_r.
Qed.

(** What a step does to the desk. *)
Lemma desk_step_spec r new r' :
  desk_step r new r' -> desk_wf (rn_desk r) -> next (dk_ledger (rn_desk r)) < u32_max ->
  (new = [] /\ moved (rn_desk r) (rn_desk r'))
  \/ (new = [next (dk_ledger (rn_desk r))] /\ desk_wf (rn_desk r') /\ dk_root (rn_desk r') = dk_root (rn_desk r)
      /\ next (dk_ledger (rn_desk r')) = next (dk_ledger (rn_desk r)) + 1
      /\ Permutation (next (dk_ledger (rn_desk r)) :: accounts (rn_desk r)) (accounts (rn_desk r'))).
Proof using Hnames.
  intros Hstep Hwf Hn. destruct Hstep as [now v r b r' Hs|r ended r' Hs|now r r' Hs|c r r' Hs|realm r r' Hs|c r|realm r r' Hs|c ask r res frames r' Hs|r r' Hs];
    try (left; split; [done|]).
  - destruct (picker_round_spec now v r Hwf) as (b0 & r0 & H0 & _ & Hm & _). rewrite Hs in H0. by injection H0 as <- <-.
  - destruct (cancel_spec r Hwf) as (e0 & r0 & H0 & _ & Hm & _). rewrite Hs in H0. by injection H0 as <- <-.
  - destruct (sweep_at_spec now r Hwf) as (r0 & H0 & Hm & _). rewrite Hs in H0. by injection H0 as <-.
  - destruct (agent_copy_spec c r Hwf) as (r0 & H0 & Hm). rewrite Hs in H0. by injection H0 as <-.
  - destruct (realm_copy_spec realm r Hwf) as (r0 & H0 & Hm). rewrite Hs in H0. by injection H0 as <-.
  - destruct (rn_conns r !! c) as [s|] eqn:Hc; [by apply close_principal_spec|]. unfold close_principal. rewrite Hc. by apply moved_refl.
  - destruct (close_realm_spec realm r Hwf) as (r0 & H0 & Hm & _). rewrite Hs in H0. by injection H0 as <-.
  - destruct (designate_spec c ask r Hwf Hn) as (res0 & fr0 & r0 & H0 & Hcase). rewrite Hs in H0. injection H0 as <- <- <-.
    pose proof (flush_noted c frames r') as Hfl. destruct res as [id|e].
    + destruct Hcase as (Hw & Hroot & -> & Hnx & Hp). pose proof (moved_same _ _ Hw Hfl) as []. right.
      split_and!; [done|done|congruence|congruence|by rewrite Hp].
    + left. subst r'. split; [done|by apply moved_same].
  - rewrite Hs. by apply moved_refl.
Qed.

Lemma desk_run_spec r opened r' :
  desk_run r opened r' -> fresh_desk (rn_desk r) -> 1 + Z.of_nat (length opened) < u32_max ->
  desk_wf (rn_desk r') /\ dk_root (rn_desk r') = dk_root (rn_desk r) /\ next (dk_ledger (rn_desk r')) = 1 + Z.of_nat (length opened)
  /\ Permutation opened (accounts (rn_desk r')) /\ NoDup opened /\ forall id, id ∈ opened -> id < next (dk_ledger (rn_desk r')).
Proof using Hnames.
  intros Hrun Hfresh. induction Hrun as [|opened r1 new r2 Hrun IH Hstep]; intros Hroom.
  - split_and!; [by apply fresh_desk_wf|done| | |constructor|by intros id Hin%elem_of_nil];
      destruct Hfresh as ([p Hl] & Hd & _ & Hj); [by rewrite Hl|]. unfold accounts, waiting, journalled. by rewrite Hl, Hd, Hj.
  - rewrite length_app in Hroom. destruct (IH ltac:(lia)) as (Hwf & Hroot & Hnx & Hp & Hnd & Hlt).
    destruct (desk_step_spec _ _ _ Hstep Hwf ltac:(lia)) as [[-> []]|(-> & Hw2 & Hroot2 & Hnx2 & Hp2)].
    + rewrite app_nil_r. split_and!; [done|congruence|congruence|by rewrite Hp|done|]. intros id Hid. rewrite mv_next0. by apply Hlt.
    + rewrite length_app in *. cbn [length] in *. split_and!; [done|congruence|lia| | |].
      * rewrite <- Hp2, <- Hp. by rewrite Permutation_app_comm.
      * apply NoDup_app. split_and!; [done| |apply NoDup_singleton]. intros id Hin ->%list_elem_of_singleton. apply Hlt in Hin. lia.
      * intros id [Hin|Hin]%elem_of_app; [apply Hlt in Hin; lia|]. apply list_elem_of_singleton in Hin as ->. lia.
Qed.

(* ------------------------------------------------------------------------ *)
(** ** Properties *)

(** C6: a designation an agent was given an id for is never lost and never settled
    twice. Over any run of the session's turns from a desk with nothing on it,
    shorter than the space of ids, the ids are each minted once, and each is in
    exactly one place: waiting for the human, in flight to the agent and the
    realm, or journalled with what became of it, once. And whatever is in flight
    was opened beneath the picker's root, under a name a directory can hold, with
    no more access than was asked. *)
Theorem designations_accounted (r r' : Runtime) (opened : list Z)
  (Hfresh : fresh_desk (rn_desk r)) (Hrun : desk_run r opened r') (Hroom : 1 + Z.of_nat (length opened) < u32_max) :
  NoDup opened
  /\ Permutation opened (waiting (rn_desk r') ++ held_ids (dk_deliveries (rn_desk r')) ++ journalled (rn_desk r'))
  /\ forall id e, dk_deliveries (rn_desk r') !! id = Some e -> opened_beneath (dk_root (rn_desk r)) e.
Proof using Hnames.
  destruct (desk_run_spec r opened r' Hrun Hfresh Hroom) as (Hwf & Hroot & _ & Hp & Hnd & _).
  split_and!; [done|done|]. intros id e He. rewrite <- Hroot. by eapply dw_opened.
Qed.

(** C8: every turn over the designations returns, whatever the files and the
    transports do, and does what it is for: a lock leaves none waiting and no
    picker up; the sweep leaves none past its deadline, waiting or in flight; a
    connection that closed and a realm that died leave none of theirs. *)
Theorem designation_turns_return (r : Runtime) (now : Instant) (v : PromptVisibility) (c : ConnectionId) (realm : RealmId)
  (Hwf : desk_wf (rn_desk r)) :
  (exists b r', service_picker_round K fstat face_covers atlas_covers raster to_lowercase now v r = Some (b, r') /\ moved (rn_desk r) (rn_desk r'))
  /\ (exists ended r', cancel_outstanding_designations r = Some (ended, r') /\ moved (rn_desk r) (rn_desk r')
        /\ Designation.tickets (dk_ledger (rn_desk r')) = bt_empty /\ dk_picker (rn_desk r') = None)
  /\ (exists r', sweep_at send_to now r = Some r' /\ moved (rn_desk r) (rn_desk r')
        /\ none_left (fun t => t_deadline t <=? now) (fun e => if_deadline e <=? now) (rn_desk r'))
  /\ (exists r', deliver_agent_copy reply_agent c r = Some r' /\ moved (rn_desk r) (rn_desk r'))
  /\ (exists r', deliver_realm_copy reply_realm realm r = Some r' /\ moved (rn_desk r) (rn_desk r'))
  /\ (exists r', close_realm realm r = Some r' /\ moved (rn_desk r) (rn_desk r')
        /\ none_left (fun t => str_eqb (t_realm t) realm) (fun e => str_eqb (if_realm e) realm) (rn_desk r'))
  /\ (is_Some (rn_conns r !! c) -> moved (rn_desk r) (rn_desk (close_principal c r))
        /\ none_left (fun t => t_connection t =? c) (fun e => if_connection e =? c) (rn_desk (close_principal c r))).
Proof using Hnames.
  split_and!.
  - destruct (picker_round_spec now v r Hwf) as (b & r' & ? & _ & ? & _). by exists b, r'.
  - destruct (cancel_spec r Hwf) as (ended & r' & ? & _ & ? & ? & ? & _). by exists ended, r'.
  - by apply sweep_at_spec.
  - by apply agent_copy_spec.
  - by apply realm_copy_spec.
  - by apply close_realm_spec.
  - intros Hc. destruct (close_principal_spec c r Hwf Hc) as (? & _ & ?). done.
Qed.

(** C7: nothing is opened for an agent but what the human confirmed, while they could
    see it and it was still allowed. A turn of the picker puts at most one
    designation in flight, and only if the screen is the human's and the session on
    the desk when the turn begins, taken through the human's queued steps that name
    it, in order, comes to a confirmation (a cancellation ends it, and a step that
    names another designation is nothing to it). The designation is that session's,
    owed and in time, its grant live and naming the verb, its realm served and its
    agent connected; and what is handed over is what opens under the name the
    session has selected in the directory it is in, beneath the picker's root. *)
Theorem picker_round_confined (r : Runtime) (now : Instant) (v : PromptVisibility) (Hwf : desk_wf (rn_desk r)) :
  exists b r', service_picker_round K fstat face_covers atlas_covers raster to_lowercase now v r = Some (b, r')
    /\ (dk_deliveries (rn_desk r') = dk_deliveries (rn_desk r)
        \/ exists s0 s w t root d w1 ch fd w2 dev w3,
             v = Reachable /\ dk_picker (rn_desk r) = Some s0
             /\ play (cg_steps (sg_grab (rn_stage r))) (dk_files (rn_desk r)) s0 = Some (OutConfirmed, s, w)
             /\ may_open (pk_id s0) now r t
             /\ dk_root (rn_desk r) = Some root /\ picker_ok root s
             /\ chosen K w s = (Some ch, w1) /\ k_dup K w (pk_here s) = (Some d, w1)
             /\ ch_dir ch = d /\ en_name <$> selected s = Some (ch_name ch)
             /\ resolve K w1 d [ch_name ch] (ch_mode ch) (ch_directory ch) = (Ok fd, w2) /\ fstat w2 fd = (Some dev, w3)
             /\ dk_deliveries (rn_desk r') = park (parked_of t (pk_id s0) ch fd dev now) (dk_deliveries (rn_desk r))).
Proof using Hnames.
  destruct (picker_round_spec now v r Hwf) as (b & r' & Hr & _ & _ & Hcase). exists b, r'. split; [done|].
  destruct Hcase as [Hd|(s0 & s & w & r1 & -> & Hp & Hpl & Hrd & r2
    & (t & ch & w1 & fd & w2 & dev & w3 & Hmay & (_ & (root & Hroot & Hok) & _) & Hch & Hopen & Hstat & Hpark) & Hd)]; [by left|right].
  destruct (chosen_dir w s ch w1 Hch) as [Hdup Hname]. rewrite (play_id _ _ _ _ _ _ Hpl) in Hmay, Hpark.
  exists s0, s, w, t, root, (ch_dir ch), w1, ch, fd, w2, dev, w3.
  split_and!; [done|done|done|by eapply may_open_readied| |done|done|done|done|done|done|done|].
  - by rewrite <- (mv_root _ _ (rd_moved _ _ Hrd)).
  - by rewrite Hd, Hpark, (rd_deliveries _ _ Hrd).
Qed.
End desk.

(* ------------------------------------------------------------------------ *)
(** ** Worked instances *)

Definition small_stat (w : nat) (fd : list Bytes) : option (Z * Z) * nat := (Some (1, 2), w).
Definition small_send (c : ConnectionId) (e : PrincipalEvent (list Bytes)) (w : unit) : result unit unit * unit := (Ok tt, w).
Definition small_reply {A} (_ : A) (_ : Bytes) (_ : list Bytes) (w : unit) : bool * unit := (true, w).
Definition small_desk : @Desk (list Bytes) nat :=
  {| dk_ledger := ledger_new Spends; dk_deliveries := bt_empty; dk_root := Some []; dk_picker := None; dk_files := 0%nat; dk_frames := [];
     dk_wakes := []; dk_journal := [] |}.
Definition small_grants : GrantTable :=
  table_run table_new [OpInsert {| gs_principal_id := str "vitrin://local/agent/demo"; gs_realm_id := str "realm-0"; gs_resource_ref := WholeRealm;
    gs_verbs := DESIGNATE_FILE; gs_expiry := None; gs_max_event_rate := 20; gs_persistence := WhileRunning; gs_issuer := HumanConsent |} 0].
Definition small_runtime : @Runtime unit (list Bytes) nat unit :=
  {| rn_stage := demo_stage; rn_conns := {[ 1 := principal_new 1000 1 ]}; rn_grants := small_grants;
     rn_attention := signal_new {| ac_name := []; ac_evdev := 0; ac_keysym := 0 |}; rn_world := tt;
     rn_serving := {[ str "realm-0" := true ]}; rn_clipboard := slot_new; rn_desk := small_desk |}.
Definition small_ask : DesignateAsk :=
  {| da_realm := str "realm-0"; da_principal := str "vitrin://local/agent/demo"; da_grant := 1; da_facet_id := 9; da_grant_wire_id := 7;
     da_ask := AskDir; da_spent_once := false; da_deadline := 1000 |}.

Local Abbreviation small_picker_round := (service_picker_round small_kernel small_stat all_faces Transcript.no_atlas tr_text id).

(** An agent asks for a directory; the picker goes up; the human moves to it and
    confirms; both copies are handed over. *)
Definition small_stepped : option (@Runtime unit (list Bytes) nat unit) :=
  '(_, frames, r) ← designate 1 small_ask small_runtime;
  '(_, r) ← small_picker_round 10 Reachable (flush_powerbox_refusals 1 frames r);
  Some (on_stage (with_grab (set_steps [(1, Move Down); (1, Confirm)] (sg_grab (rn_stage r))) (rn_stage r)) r).
Definition small_flow : option (@Runtime unit (list Bytes) nat unit) :=
  r ← small_stepped;
  '(_, r) ← small_picker_round 20 Reachable r;
  r ← deliver_agent_copy small_reply 1 r;
  deliver_realm_copy small_reply (str "realm-0") r.

Local Abbreviation small_run := (desk_run small_kernel small_stat all_faces Transcript.no_atlas tr_text id small_send small_reply small_reply).
Local Abbreviation small_wf := (desk_wf small_kernel all_faces Transcript.no_atlas tr_text id).

Lemma small_fresh : fresh_desk (rn_desk small_runtime).
Proof. split_and!; [by exists Spends|done..]. Qed.

Lemma small_stepped_runs r : small_stepped = Some r -> exists opened, small_run small_runtime opened r /\ (length opened <= 1)%nat.
Proof.
  unfold small_stepped. intros ([[res frames] r1] & Hd & ([b r2] & Hp & [= <-])%bind_Some)%bind_Some.
  pose proof (step_designate small_kernel small_stat all_faces Transcript.no_atlas tr_text id small_send small_reply small_reply _ _ _ _ _ _ Hd) as H1.
  eexists _. split.
  - eapply (run_step _ _ _ _ _ _ _ _ _ _ _ r2); [|by apply step_else].
    eapply run_step; [eapply run_step; [apply run_start|exact H1]|]. eapply step_picker. exact Hp.
  - rewrite !app_nil_r. by destruct res; cbn; lia.
Qed.

Lemma small_flow_runs r : small_flow = Some r -> exists opened, small_run small_runtime opened r /\ (length opened <= 1)%nat.
Proof.
  unfold small_flow. intros (r1 & (opened & H1 & Hlen)%small_stepped_runs & ([b r2] & Hp & (r3 & Ha & Hr)%bind_Some)%bind_Some)%bind_Some.
  exists (opened ++ [] ++ [] ++ []). split; [|by rewrite !app_nil_r]. rewrite !app_assoc.
  eapply run_step; [eapply run_step; [eapply run_step; [exact H1|]|]|]; [eapply step_picker; exact Hp|eapply step_agent; exact Ha|eapply step_realm; exact Hr].
Qed.

Lemma small_flow_ends : (fun r => journalled (rn_desk r)) <$> small_flow = Some [1].
Proof. vm_compute. reflexivity. Qed.

Lemma designations_accounted_witness :
  exists r opened, small_flow = Some r /\ NoDup opened
    /\ Permutation opened (waiting (rn_desk r) ++ held_ids (dk_deliveries (rn_desk r)) ++ [1]).
Proof.
  destruct small_flow as [r|] eqn:Hr; [|pose proof small_flow_ends as He; by rewrite Hr in He].
  pose proof small_flow_ends as Hj. rewrite Hr in Hj. injection Hj as Hj.
  destruct (small_flow_runs r Hr) as (opened & Hrun & Hlen). exists r, opened.
  destruct (designations_accounted small_kernel small_stat all_faces Transcript.no_atlas tr_text id small_send small_reply small_reply small_kernel_names
    small_runtime r opened small_fresh Hrun) as (Hnd & Hp & _); [unfold u32_max; lia|]. rewrite Hj in Hp. split_and!; done.
Defined.

Lemma designation_turns_return_witness : exists ended r', cancel_outstanding_designations small_runtime = Some (ended, r').
Proof.
  destruct (designation_turns_return small_kernel small_stat all_faces Transcript.no_atlas tr_text id small_send small_reply small_reply small_kernel_names
    small_runtime 0 Reachable 1 (str "realm-0") (fresh_desk_wf _ _ _ _ _ _ small_fresh)) as (_ & (ended & r' & Hc & _) & _).
  by exists ended, r'.
Defined.

Lemma small_stepped_some : exists r, small_stepped = Some r.
Proof.
  pose proof small_flow_ends as He. unfold small_flow in He. destruct small_stepped as [r|]; [by exists r|done].
Qed.
Lemma small_stepped_delivers : (r ← small_stepped; '(_, r') ← small_picker_round 20 Reachable r; Some (held_ids (dk_deliveries (rn_desk r)), held_ids (dk_deliveries (rn_desk r')))) = Some ([], [1]).
Proof. vm_compute. reflexivity. Qed.
Lemma picker_round_confined_witness :
  exists r b r' s0 s w, small_stepped = Some r /\ small_picker_round 20 Reachable r = Some (b, r') /\ dk_picker (rn_desk r) = Some s0
    /\ play small_kernel all_faces Transcript.no_atlas tr_text id (cg_steps (sg_grab (rn_stage r))) (dk_files (rn_desk r)) s0 = Some (OutConfirmed, s, w).
Proof.
  destruct small_stepped_some as [r Hr]. destruct (small_stepped_runs r Hr) as (opened & Hrun & Hlen).
  destruct (desk_run_spec small_kernel small_stat all_faces Transcript.no_atlas tr_text id small_send small_reply small_reply small_kernel_names
    small_runtime opened r Hrun small_fresh) as (Hwf & _); [unfold u32_max; lia|].
  pose proof small_stepped_delivers as Hdel. rewrite Hr in Hdel. cbn [mbind option_bind] in Hdel.
  destruct (picker_round_confined small_kernel small_stat all_faces Transcript.no_atlas tr_text id small_kernel_names r 20 Reachable Hwf)
    as (b & r' & Hround & [Hsame|(s0 & s & w & t & root & d & w1 & ch & fd & w2 & dev & w3 & _ & Hp & Hplay & _)]).
  - rewrite Hround in Hdel. cbn [mbind option_bind] in Hdel. rewrite Hsame in Hdel. injection Hdel as Ha Hb. congruence.
  - by exists r, b, r', s0, s, w.
Defined.
