(* ===== verification/Screens.v ===== *)
(** * The screen between its turns

    The rounds of [crates/vitrin-core/src/session.rs] that keep the screen:
    [service_lock_round], which mirrors the lock's screen into its surface and
    journals what it decided, and [service_blank_round], which lets the cover
    fall, gives a wake up and journals what became of the panel. *)

From S2P Require Import Prelude BTree Text Transcript Identity Realm Grants Petitions Uses Input Principal Picker Delivery Designation.
From S2P Require Import Grab Rounds Settle Blank Lock Consent LockCard.

Section screens.
Context {W Fd WF Dg : Type}.
Local Notation Runtime := (@Runtime W Fd WF Dg).

Definition record_line (line : JournalLine) (r : Runtime) : Runtime := on_desk (push_journal line (rn_desk r)) r.

(* ------------------------------------------------------------------------ *)
(** ** The lock *)

Definition lock_line (passphrase : bool) (realms : nat) (entry : LockJournal) : JournalLine :=
  match entry with
  | JLocked cause => SessionLocked (cause_label cause) passphrase realms
  | JAttempted accepted => UnlockAttempted accepted
  | JUnlocked => SessionUnlocked
  end.

(** The entries in order: a lock ends what was being designated, an unlock shows
    what was raised again. *)
Fixpoint journal_lock (now : Instant) (passphrase : bool) (realms : nat) (entries : list LockJournal) (r : Runtime) : option Runtime :=
  match entries with
  | [] => Some r
  | entry :: entries =>
      r ← match entry with
          | JLocked _ => '(_, r) ← cancel_outstanding_designations r; Some r
          | JAttempted _ => Some r
          | JUnlocked => Some (screen_became_visible now r).2
          end;
      journal_lock now passphrase realms entries (record_line (lock_line passphrase realms entry) r)
  end.

(** [realms] are the registry's in its order; the activity is the clock the lock
    shares with the blank. *)
Definition service_lock_round (now : Instant) (deadman_chord : Str) (realms : list Realm) (a : SessionActivity)
    (screen : LockScreen) (surface : LockSurface) (r : Runtime) : option (bool * LockScreen * LockSurface * Runtime) :=
  let held_by_picker := picker_holds_the_screen_awake now r in
  let screen := (lock_tick now held_by_picker screen a).2 in
  let realms := List.map r_id (List.filter admits_petitions realms) in
  let before := lf_generation surface in
  let surface :=
    match lock_cause screen with
    | Some cause =>
        lock_surface_raise {| lc_cause := cause; lc_realms := realms; lc_unlock := unlock_method screen; lc_deadman_chord := deadman_chord |} surface
    | None => lock_surface_lower surface
    end in
  let changed := negb (lf_generation surface =? before) in
  let '(entries, screen) := take_journal screen in
  r ← journal_lock now (bool_decide (unlock_method screen = UnlockPassphrase)) (length realms) entries r;
  Some (changed, screen, surface, r).

(* ------------------------------------------------------------------------ *)
(** ** The blank *)

Definition journal_screen_transition (now : Instant) (locked : bool) (a : SessionActivity) (r : Runtime) : SessionActivity * Runtime :=
  let '(transition, a) := take_transition now a in
  match transition with
  | None => (a, r)
  | Some t =>
      let live_grants := length (List.filter (fun row => bool_decide (row.2 = GActive)) (rows (rn_grants r) now)) in
      (a, record_line
            (match t with
             | Blanked => ScreenBlanked live_grants locked
             | Woke dark outcome => ScreenWoke (Z.min (dark / 1000000) u64_max) (wake_label outcome) live_grants locked
             end) r)
  end.

Definition service_blank_round (now : Instant) (inhibits : gmap RealmId (option Z)) (bound : option RealmId) (locked : bool)
    (a : SessionActivity) (surface : BlankSurface) (r : Runtime) : bool * SessionActivity * BlankSurface * Runtime :=
  let inhibited := inhibit_holds bound inhibits in
  let held_by_picker := picker_holds_the_screen_awake now r in
  let a := (blank_tick now (inhibited || held_by_picker) a).2 in
  let a := if wake_expired now a then force_lit a else a in
  let '(changed, surface) := set_covering (activity_covering a) surface in
  let '(a, r) := journal_screen_transition now locked a r in
  (changed, a, surface, r).
End screens.

(* ------------------------------------------------------------------------ *)
(** ** What the journal gains *)

Section rounds.
Context {W X Fd WF Dg D : Type} `{EqDecision D}.
Context (K : Picker.Kernel WF Fd).
Context (face_covers atlas_covers : Z -> bool) (raster : Transcript.Transcript -> D) (to_lowercase : Str -> Str).
Local Notation Runtime := (@Runtime W Fd WF Dg).
Local Notation desk_wf := (desk_wf K face_covers atlas_covers raster to_lowercase).
Local Notation moved := (moved K face_covers atlas_covers raster to_lowercase).

(** The lines of the lock and the screen. *)
Definition screen_line (l : JournalLine) : bool :=
  match l with DesignationSettled _ | GrantExpired _ => false | _ => true end.
Definition screen_lines (r : Runtime) : list JournalLine := List.filter screen_line (dk_journal (rn_desk r)).

Lemma record_screen line (r : Runtime) : screen_line line = true -> screen_lines (record_line line r) = screen_lines r ++ [line].
Proof. intros Hl. unfold screen_lines. cbn. rewrite List.filter_app. cbn. by rewrite Hl. Qed.

Lemma settle_refused_lines id why (r r' : Runtime) : settle_refused id why r = Some r' -> screen_lines r' = screen_lines r.
Proof.
  unfold settle_refused. destruct (Designation.take _ _) as [[t|] l]; [|by intros [= <-]]. unfold voice_powerbox_refusal.
  assert (forall r0 : Runtime, screen_lines (journal_designation id (Some t) None why r0) = screen_lines r0) as Hj.
  { intros r0. unfold screen_lines. cbn. rewrite List.filter_app. cbn. by rewrite app_nil_r. }
  destruct (rn_conns _ !! _); [|intros [= <-]; exact (Hj (on_desk (with_ledger l (rn_desk r)) r))]. intros (frame & _ & [= <-])%bind_Some. exact (Hj (on_desk (with_ledger l (rn_desk r)) r)).
Qed.

Lemma cancel_lines (r r' : Runtime) ended : cancel_outstanding_designations r = Some (ended, r') -> screen_lines r' = screen_lines r.
Proof.
  unfold cancel_outstanding_designations. generalize (@nil Z) as done_. generalize (S (length (bt_keys (Designation.tickets (dk_ledger (rn_desk r)))))) as fuel.
  intros fuel. revert r. induction fuel as [|fuel IH]; intros r done_; [done|]. cbn [cancel_loop].
  destruct (front_open _); [|by intros [= <- <-]]. intros (r1 & H1%settle_refused_lines & H2)%bind_Some. rewrite (IH _ _ H2). done.
Qed.

(** The invariant of the loop: once a lock was seen, nothing waits. *)
Definition nothing_waits (r : Runtime) : Prop := Designation.tickets (dk_ledger (rn_desk r)) = bt_empty /\ dk_picker (rn_desk r) = None.
Definition guarded (now : Instant) (r : Runtime) : Prop := forall p, cg_prompt (sg_grab (rn_stage r)) = Some p -> ap_raised_at p = now.

Lemma became_visible_guarded now (r : Runtime) : guarded now (screen_became_visible now r).2.
Proof.
  unfold screen_became_visible, restart_guard, guarded. destruct (cg_prompt (sg_grab (rn_stage r))) as [p|] eqn:Hp; cbn; [|by rewrite Hp].
  unfold disarm_slot, with_panel. cbn. destruct (ap_answerable p) eqn:Ha; cbn; rewrite ?Ha; cbn; by intros q [= <-].
Qed.

Lemma record_moved line (r : Runtime) : screen_line line = true -> desk_wf (rn_desk r) -> moved (rn_desk r) (rn_desk (record_line line r)).
Proof.
  intros Hl Hwf. apply moved_same; [done|]. split; try done. unfold journalled. cbn. rewrite omap_app. destruct line; try done; cbn; by rewrite app_nil_r.
Qed.

Lemma journal_lock_spec now passphrase realms entries : forall r : Runtime,
  desk_wf (rn_desk r) ->
  exists r', journal_lock now passphrase realms entries r = Some r' /\ moved (rn_desk r) (rn_desk r')
    /\ screen_lines r' = screen_lines r ++ List.map (lock_line passphrase realms) entries
    /\ (nothing_waits r \/ (exists c, List.In (JLocked c) entries) -> nothing_waits r')
    /\ (guarded now r \/ List.In JUnlocked entries -> guarded now r').
Proof.
  induction entries as [|entry entries IH]; intros r Hwf; cbn [journal_lock List.map].
  { exists r. split_and!; [done|by apply moved_refl|by rewrite app_nil_r|by intros [|[c []]]|by intros [|[]]]. }
  assert (exists r1, match entry with
      | JLocked _ => '(_, r) ← cancel_outstanding_designations r; Some r
      | JAttempted _ => Some r
      | JUnlocked => Some (screen_became_visible now r).2
      end = Some r1 /\ moved (rn_desk r) (rn_desk r1) /\ screen_lines r1 = screen_lines r
      /\ (nothing_waits r \/ (exists c, entry = JLocked c) -> nothing_waits r1) /\ (guarded now r \/ entry = JUnlocked -> guarded now r1))
    as (r1 & -> & Hm & Hl & Hw & Hg).
  { destruct entry as [cause|accepted|].
    - destruct (cancel_spec K face_covers atlas_covers raster to_lowercase r Hwf) as (ended & r1 & Hc & Hd & Hm & Ht & Hp & _). rewrite Hc. cbn [mbind option_bind].
      exists r1. split_and!; [done|done|by eapply cancel_lines|by intros _|]. intros [Hg|]; [|done]. unfold guarded. by rewrite Hd.
    - exists r. split_and!; [done|by apply moved_refl|done|by intros [|[c Hc]]|by intros [|]].
    - exists (screen_became_visible now r).2. pose proof (became_visible_guarded now r) as Hg. unfold screen_became_visible in *.
      destruct (restart_guard now (sg_grab (rn_stage r))) as [b g]. split_and!; [done|by apply moved_refl|done|by intros [|[c Hc]]|by intros _]. }
  cbn [mbind option_bind]. set (line := lock_line passphrase realms entry). assert (screen_line line = true) as Hline by (by destruct entry).
  assert (desk_wf (rn_desk r1)) as Hwf1 by apply Hm. pose proof (record_moved line r1 Hline Hwf1) as Hm1.
  destruct (IH (record_line line r1)) as (r2 & -> & Hm2 & Hl2 & Hw2 & Hg2); [apply Hm1|]. exists r2. split_and!; [done| | | |].
  - eapply moved_trans; [exact Hm|]. by eapply moved_trans.
  - rewrite Hl2, record_screen, Hl, <- app_assoc by done. done.
  - intros [H0|(c & [->|Hin])]; apply Hw2; [left; apply Hw; by left|left; apply Hw; right; by exists c|right; by exists c].
  - intros [H0|[->|Hin]]; apply Hg2; [left; apply Hg; by left|left; apply Hg; by right|by right].
Qed.

(* ------------------------------------------------------------------------ *)
(** ** Properties *)

Lemma wrapping_differs g : 0 <= g <= u64_max -> (u64_wrapping_add g 1 =? g) = false.
Proof.
  intros Hg. apply Z.eqb_neq. unfold u64_wrapping_add, u64_max in *. destruct (decide (g = 18446744073709551615)) as [->|]; [done|].
  rewrite Z.mod_small; lia.
Qed.

(** C19: a session that is locked shows it, and nothing an agent asked for outlives the
    moment it locked. A turn of the lock returns; the card is up exactly when the
    session is locked, and says what locked it, which realms it holds and how to
    unlock; a redraw is asked for exactly when what it says changed. Every entry
    of the lock's journal is journalled, once and in order; if one says the
    session locked, no designation is left waiting and no picker is up; if one
    says it was unlocked, the guard of whatever prompt is up starts over. *)
Theorem lock_round_mirrors (now : Instant) (deadman_chord : Str) (realms : list Realm) (a : SessionActivity)
  (screen : LockScreen) (surface : LockSurface) (r : Runtime)
  (Hwf : desk_wf (rn_desk r)) (Hgen : 0 <= lf_generation surface <= u64_max) :
  let ticked := (lock_tick now (picker_holds_the_screen_awake now r) screen a).2 in
  let held := List.map r_id (List.filter admits_petitions realms) in
  exists changed screen' surface' r',
    service_lock_round now deadman_chord realms a screen surface r = Some (changed, screen', surface', r')
    /\ screen' = set_journal [] ticked /\ is_raised surface' = is_locked screen'
    /\ (forall cause, lock_cause screen' = Some cause -> lf_content surface' =
          Some {| lc_cause := cause; lc_realms := held; lc_unlock := unlock_method screen'; lc_deadman_chord := deadman_chord |})
    /\ (changed = true <-> lf_content surface' <> lf_content surface)
    /\ moved (rn_desk r) (rn_desk r')
    /\ screen_lines r' = screen_lines r
         ++ List.map (lock_line (bool_decide (unlock_method screen' = UnlockPassphrase)) (length held)) (lk_journal ticked)
    /\ ((exists c, List.In (JLocked c) (lk_journal ticked)) -> nothing_waits r')
    /\ (List.In JUnlocked (lk_journal ticked) -> guarded now r').
Proof.
  cbv zeta. unfold service_lock_round. set (ticked := (lock_tick now (picker_holds_the_screen_awake now r) screen a).2).
  set (held := List.map r_id (List.filter admits_petitions realms)). cbn [take_journal].
  change (unlock_method (set_journal [] ticked)) with (unlock_method ticked). change (lock_cause (set_journal [] ticked)) with (lock_cause ticked).
  change (is_locked (set_journal [] ticked)) with (is_locked ticked).
  destruct (journal_lock_spec now (bool_decide (unlock_method ticked = UnlockPassphrase)) (length held) (lk_journal ticked) r Hwf)
    as (r' & Hr & Hm & Hl & Hw & Hg).
  unfold take_journal. change (unlock_method (set_journal [] ticked)) with (unlock_method ticked). rewrite Hr. cbn [mbind option_bind].
  eexists _, _, _, r'. split; [reflexivity|]. split; [done|]. unfold is_locked, lock_cause, is_raised.
  change (lk_locked (set_journal [] ticked)) with (lk_locked ticked).
  destruct (lk_locked ticked) as [ls|]; cbn [fmap option_fmap option_map].
  - assert (forall x : LockContent, bool_decide (Some x <> None) = bool_decide (Some ls <> None)) as Hb by (intros; by rewrite !bool_decide_true).
    set (content := {| lc_cause := ls_cause ls; lc_realms := held; lc_unlock := unlock_method ticked; lc_deadman_chord := deadman_chord |}).
    assert (lf_content (lock_surface_raise content surface) = Some content
      /\ (negb (lf_generation (lock_surface_raise content surface) =? lf_generation surface) = true <-> Some content <> lf_content surface)) as [-> Hchg].
    { unfold lock_surface_raise. destruct (bool_decide_reflect (lf_content surface = Some content)) as [Hc|Hc]; cbn [lock_set_content lf_content lf_generation]; [rewrite Z.eqb_refl, Hc; by split|]. rewrite (wrapping_differs _ Hgen).
      split; [done|]. split; [|done]. intros _ He. by rewrite He in Hc. }
    split; [apply Hb|]. split; [by intros c [= <-]|]. split; [done|]. split; [done|]. split; [done|]. split; intros He; [apply Hw|apply Hg]; by right.
  - assert (lf_content (lock_surface_lower surface) = None
      /\ (negb (lf_generation (lock_surface_lower surface) =? lf_generation surface) = true <-> None <> lf_content surface)) as [-> Hchg].
    { unfold lock_surface_lower. destruct (lf_content surface) eqn:Hc; cbn; [by rewrite (wrapping_differs _ Hgen)|].
      rewrite Z.eqb_refl, Hc. split; [done|]. split; [done|]. intros He. by destruct He. }
    split; [done|]. split; [done|]. split; [done|]. split; [done|]. split; [done|]. split; intros He; [apply Hw|apply Hg]; by right.
Qed.

(** When the cover is to fall on a lit screen: the session blanks, a seat is there,
    nothing holds the screen awake, and the last input is as old as the setting. *)
Definition cover_due (now : Instant) (held : bool) (a : SessionActivity) : Prop :=
  ac_seat_absent a = false /\ held = false /\ exists after, ac_after a = Some after /\ after <= since now (ac_last a).
(** When a wake has taken too long. *)
Definition wake_late (now : Instant) (a : SessionActivity) : Prop :=
  exists since_, ac_waking_since a = Some since_ /\ WAKE_DEADLINE <= since now since_.

Lemma blank_tick_lit now held a : ac_phase a = Lit ->
  (cover_due now held a /\ (blank_tick now held a).2 = set_phase Covering false (ac_waking_since a) (ac_overdue_logged a) a)
  \/ (~ cover_due now held a /\ (blank_tick now held a).2 = a).
Proof using. clear K face_covers atlas_covers raster to_lowercase.
  intros Hl. unfold blank_tick, cover_due. rewrite Hl. cbn [bool_decide negb orb].
  destruct (ac_seat_absent a); [right; split; [naive_solver|done]|]. destruct held; [right; split; [naive_solver|done]|].
  destruct (ac_after a) as [d|]; [|right; split; [naive_solver|done]]. cbn.
  destruct (Z.ltb_spec (since now (ac_last a)) d); [right; split; [intros (_ & _ & d' & [= <-] & ?); lia|done]|].
  left. split; [|done]. split_and!; [done..|]. by exists d.
Qed.
Lemma blank_tick_unlit now held a : ac_phase a <> Lit -> (blank_tick now held a).2 = a.
Proof using. clear K face_covers atlas_covers raster to_lowercase. intros Hl. unfold blank_tick. by rewrite (bool_decide_false _ Hl). Qed.
Lemma wake_expired_late now a : wake_expired now a = true <-> ac_phase a = Waking /\ wake_late now a.
Proof using. clear K face_covers atlas_covers raster to_lowercase.
  unfold wake_expired, past_deadline, wake_late. destruct (bool_decide_reflect (ac_phase a = Waking)); cbn [andb]; [|naive_solver].
  destruct (ac_waking_since a) as [s|]; cbn; [|naive_solver]. rewrite Z.leb_le. naive_solver.
Qed.

(** What a turn makes of the phase, before the journal is told. *)
Definition blank_turned (now : Instant) (held : bool) (a a2 : SessionActivity) : Prop :=
  match ac_phase a with
  | Lit => (cover_due now held a /\ a2 = set_phase Covering false (ac_waking_since a) (ac_overdue_logged a) a) \/ (~ cover_due now held a /\ a2 = a)
  | Waking => (wake_late now a /\ a2 = force_lit a) \/ (~ wake_late now a /\ a2 = a)
  | Covering | Dark => a2 = a
  end.
Lemma blank_turn now held a :
  blank_turned now held a (let a1 := (blank_tick now held a).2 in if wake_expired now a1 then force_lit a1 else a1).
Proof using. clear K face_covers atlas_covers raster to_lowercase.
  cbv zeta. unfold blank_turned. destruct (ac_phase a) eqn:Hp.
  - destruct (blank_tick_lit now held a Hp) as [[Hdue ->]|[Hdue ->]]; [left|right]; (split; [done|]); unfold wake_expired; [done|by rewrite Hp].
  - rewrite blank_tick_unlit by congruence. unfold wake_expired. by rewrite Hp.
  - rewrite blank_tick_unlit by congruence. unfold wake_expired. by rewrite Hp.
  - rewrite blank_tick_unlit by congruence. destruct (wake_expired now a) eqn:He; [apply wake_expired_late in He; left; naive_solver|].
    right. split; [|done]. intros Hl. assert (wake_expired now a = true) by (by apply wake_expired_late). congruence.
Qed.

(** C20: the cover falls exactly when the session is idle, and the journal says what
    became of the screen. A turn of the blank covers a lit screen if and only if the
    session blanks at all, a seat is there, no app it shows holds the screen awake,
    no picker is up, and the last input is at least as old as the setting; a wake
    that outran its deadline, and no other, is given up as lit; a screen covered or
    dark stays so. Nothing else of the activity changes but the note of the dark.
    The cover over the screen is as the activity has it, and a redraw is asked
    exactly when that changed. The journal gains one line when the screen leaves
    light with no dark on record - that it blanked, noted as begun now - and one
    when it is lit with a dark on record - that it woke, how long it was dark and by
    what - and no line otherwise; each counts the live grants and says whether the
    session was locked. Afterwards the dark is on record exactly when the screen is
    not lit. *)
Theorem blank_round_covers (now : Instant) (inhibits : gmap RealmId (option Z)) (bound : option RealmId) (locked : bool)
  (a : SessionActivity) (surface : BlankSurface) (r : Runtime)
  (Hseen : ac_phase a = Lit \/ is_Some (ac_journalled_dark a)) :
  let '(changed, a', surface', r') := service_blank_round now inhibits bound locked a surface r in
  let held := inhibit_holds bound inhibits || picker_holds_the_screen_awake now r in
  let live_grants := length (List.filter (fun row => bool_decide (row.2 = GActive)) (rows (rn_grants r) now)) in
  (exists a2, a' = set_journalled (ac_journalled_dark a') a2 /\
     match ac_phase a with
     | Lit => (cover_due now held a /\ a2 = set_phase Covering false (ac_waking_since a) (ac_overdue_logged a) a) \/ (~ cover_due now held a /\ a2 = a)
     | Waking => (wake_late now a /\ a2 = force_lit a) \/ (~ wake_late now a /\ a2 = a)
     | Covering | Dark => a2 = a
     end)
  /\ bs_covering surface' = bool_decide (ac_phase a' = Covering \/ ac_phase a' = Dark)
  /\ (changed = true <-> bs_covering surface' <> bs_covering surface)
  /\ match ac_journalled_dark a, ac_phase a' with
     | None, (Covering | Dark) =>
         ac_journalled_dark a' = Some now /\ screen_lines r' = screen_lines r ++ [ScreenBlanked live_grants locked]
     | Some s, Lit =>
         ac_journalled_dark a' = None
         /\ screen_lines r' = screen_lines r ++ [ScreenWoke (Z.min (since now s / 1000000) u64_max) (wake_label (ac_exit a')) live_grants locked]
     | _, _ => ac_journalled_dark a' = ac_journalled_dark a /\ screen_lines r' = screen_lines r
     end
  /\ (ac_phase a' = Lit <-> ac_journalled_dark a' = None)
  /\ r' = on_desk (rn_desk r') r.
Proof using.
  clear K face_covers atlas_covers raster to_lowercase.
  unfold service_blank_round. cbv zeta. set (held := inhibit_holds bound inhibits || picker_holds_the_screen_awake now r).
  pose proof (blank_turn now held a) as Hturn. cbv zeta in Hturn.
  set (a2 := if wake_expired now (blank_tick now held a).2 then force_lit (blank_tick now held a).2 else (blank_tick now held a).2) in *. clearbody a2.
  assert (ac_journalled_dark a2 = ac_journalled_dark a /\ (ac_phase a2 = Waking -> is_Some (ac_journalled_dark a))) as (Hj & Hwaking).
  { unfold blank_turned in Hturn. destruct (ac_phase a) eqn:Hp; destruct Hseen as [?|Hs]; try done;
      repeat (destruct Hturn as [[_ Hturn]|[_ Hturn]]); subst a2; (split; [done|]); cbn; intros; congruence || done. }
  assert (forall c s, (set_covering c s).1 = true <-> bs_covering (set_covering c s).2 <> bs_covering s) as Hcov.
  { intros c s. unfold set_covering. destruct (bool_decide_reflect (bs_covering s = c)); cbn; [by split|]. split; [done|done]. }
  assert (forall c s, bs_covering (set_covering c s).2 = c) as Hset.
  { intros c s. unfold set_covering. destruct (bool_decide_reflect (bs_covering s = c)); done. }
  specialize (Hcov (activity_covering a2) surface). specialize (Hset (activity_covering a2) surface).
  destruct (set_covering (activity_covering a2) surface) as [changed surface']. cbn [fst snd] in Hcov, Hset.
  unfold journal_screen_transition, take_transition. unfold blank_turned in Hturn. rewrite <- Hj in *. rewrite Hset in Hcov.
  unfold activity_covering in *. revert Hcov Hset.
  destruct (ac_journalled_dark a2) as [s|] eqn:Hjd, (ac_phase a2) eqn:Hp2; cbn [set_journalled ac_phase ac_journalled_dark]; rewrite ?Hp2, ?Hjd;
    try (by destruct (Hwaking eq_refl)); intros Hcov Hset; rewrite Hset;
    (split; [exists a2; split; [by destruct a2; cbn in *; subst|done]|]); (split; [done|]); (split; [exact Hcov|]);
    (split; [split; [done|]; first [done|by rewrite record_screen]|]); (split; [done|by destruct r]).
Qed.
End rounds.

(* ------------------------------------------------------------------------ *)
(** ** Worked instances *)

Definition screens_runtime : @Rounds.Runtime unit (list Bytes) nat unit :=
  {| rn_stage := demo_stage; rn_conns := {[ 1 := principal_new 1000 1 ]}; rn_grants := small_grants;
     rn_attention := rn_attention small_runtime; rn_world := tt; rn_serving := rn_serving small_runtime; rn_clipboard := rn_clipboard small_runtime;
     rn_desk := small_desk |}.

(** The chord locked the session since the last turn. *)
Lemma lock_round_mirrors_witness :
  exists changed screen' surface' r',
    service_lock_round 10 (str "logo+escape") [] sample_activity sample_locked (lock_surface_new (indicator_generate (10, 20, 30))) screens_runtime
      = Some (changed, screen', surface', r')
    /\ is_raised surface' = true /\ nothing_waits r'.
Proof.
  destruct (lock_round_mirrors small_kernel all_faces Transcript.no_atlas tr_text id 10 (str "logo+escape") [] sample_activity sample_locked
    (lock_surface_new (indicator_generate (10, 20, 30))) screens_runtime)
    as (changed & screen' & surface' & r' & Hr & Hs & Hup & _ & _ & _ & _ & Hw & _).
  - exact (fresh_desk_wf small_kernel all_faces Transcript.no_atlas tr_text id small_desk small_fresh).
  - unfold u64_max. cbn. lia.
  - exists changed, screen', surface', r'. split; [exact Hr|]. split; [rewrite Hup, Hs; reflexivity|]. apply Hw. exists CauseChord. by left.
Defined.

(** A second of idleness, and the session locked: the cover falls and is journalled. *)
Lemma blank_round_covers_witness :
  let '(changed, a', surface', r') := service_blank_round 2000 ∅ None true (activity_new (Some 1000) 0) blank_surface_new screens_runtime in
  changed = true /\ bs_covering surface' = true /\ ac_phase a' = Covering
  /\ screen_lines r' = screen_lines screens_runtime ++ [ScreenBlanked 1 true].
Proof.
  pose proof (blank_round_covers 2000 ∅ None true (activity_new (Some 1000) 0) blank_surface_new screens_runtime) as H.
  destruct (service_blank_round 2000 ∅ None true (activity_new (Some 1000) 0) blank_surface_new screens_runtime) as [[[changed a'] surface'] r'] eqn:Hr.
  destruct H as ((a2 & Ha & [[_ Hfall]|[Hnot _]]) & Hcov & Hch & Hline & _); [by left| |].
  - assert (ac_phase a' = Covering) as Hp by (by rewrite Ha, Hfall). rewrite Hp in Hcov, Hline. destruct Hline as [_ Hline].
    split; [apply Hch; by rewrite Hcov|]. split; [exact Hcov|]. split; [exact Hp|]. exact Hline.
  - destruct Hnot. split; [done|]. split; [done|]. exists 1000. by split.
Defined.
