(* ===== verification/Lifecycle.v ===== *)
(** * The life of a realm's shim

    [crates/vitrin-core/src/lifecycle.rs]: how the death of a realm is noticed, what
    it takes down, how its process is reaped, and the ladder by which the core ends
    it. [DisconnectReason] is of [vitrin-ipc/src/event_loop.rs]. The kernel answers
    through [Os]; [None] is a panic, or a loop out of fuel. *)

From S2P Require Import Prelude Text Grants Realm Input Router Scene Clipboard Ipc Shim Blank.

Definition REAP_POLL_INTERVAL : Duration := from_millis 5.
Record ShutdownTiming : Type := { hangup_grace : Duration; term_grace : Duration }.
Definition shutdown_timing_default : ShutdownTiming := {| hangup_grace := from_millis 250; term_grace := from_secs 2 |}.

Definition SIGKILL : Z := 9.
Definition SIGTERM : Z := 15.

(* ------------------------------------------------------------------------ *)
(** ** Exits and causes *)

Inductive ExitClass : Type := ClassExited (code : Z) | ClassSignaled (signal : Z) | ClassUnknown.
#[export] Instance ExitClass_eq_dec : EqDecision ExitClass.
Proof. solve_decision. Defined.

(** The status [waitpid] reports: [ExitStatus::code] and [signal]. *)
Definition status_code (status : Z) : option Z :=
  if Z.land status 127 =? 0 then Some (Z.land (Z.shiftr status 8) 255) else None.
Definition status_signal (status : Z) : option Z :=
  let term := Z.land status 127 in if (1 <=? term) && (term <=? 126) then Some term else None.

Definition exit_class_of (status : Z) : ExitClass :=
  match status_code status with
  | Some code => ClassExited code
  | None => match status_signal status with Some signal => ClassSignaled signal | None => ClassUnknown end
  end.
Definition disposition (class : ExitClass) : Str :=
  match class with ClassExited _ => str "exited" | ClassSignaled _ => str "signaled" | ClassUnknown => str "unknown" end.
Definition class_code (class : ExitClass) : option Z := match class with ClassExited code => Some code | _ => None end.
Definition class_signal (class : ExitClass) : option Z := match class with ClassSignaled signal => Some signal | _ => None end.
Definition is_clean (class : ExitClass) : bool := match class with ClassExited code => code =? 0 | _ => false end.

Inductive DeathCause : Type := ConnectionClosed | ConnectionFault | ProcessExit | ShutdownCause.
#[export] Instance DeathCause_eq_dec : EqDecision DeathCause.
Proof. solve_decision. Defined.

Section causes.
Context {IoErr : Type}.
Inductive DisconnectReason : Type :=
| SlowReader (queued : Z)
| Oversized (e : @TransportError IoErr)
| FdBomb (v : PeerViolation)
| PeerAborted (e : @TransportError IoErr)
| ProtocolError (e : @TransportError IoErr).

Definition disconnect_reason (e : @TransportError IoErr) : DisconnectReason :=
  match e with
  | SendQueueFull queued => SlowReader queued
  | Eof _ | Io _ => PeerAborted e
  | Violation (UndersizedSizeField _) => Oversized e
  | Violation (FdCountExceeded _ as v) | Violation (UnsolicitedFd as v) | Violation (UnclaimedFdOverflow as v)
  | Violation (AncillaryTruncated as v) => FdBomb v
  | other => ProtocolError other
  end.
Definition cause_of_reason (r : DisconnectReason) : DeathCause :=
  match r with PeerAborted _ => ConnectionClosed | _ => ConnectionFault end.
Definition cause_of_transport (e : @TransportError IoErr) : DeathCause := cause_of_reason (disconnect_reason e).
Definition cause_of_shim_fault {V} (fault : ShimFault V (@TransportError IoErr)) : DeathCause :=
  match fault with ShimViolated _ => ConnectionFault | ShimTransport err => cause_of_transport err end.
End causes.
Definition death_cause_label (cause : DeathCause) : Str :=
  match cause with
  | ConnectionClosed => str "connection_closed"
  | ConnectionFault => str "connection_fault"
  | ProcessExit => str "process_exit"
  | ShutdownCause => str "shutdown"
  end.

Inductive ShutdownRung : Type := RungAlreadyDead | RungHangup | RungTerm | RungKill.
#[export] Instance ShutdownRung_eq_dec : EqDecision ShutdownRung.
Proof. solve_decision. Defined.

(* ------------------------------------------------------------------------ *)
(** ** The state *)

Inductive Hangup : Type := Owned | Registered.

Record RealmLifecycle : Type := {
  li_realm_id : RealmId;
  li_pid : Z;
  li_child : bool;
  li_hangup : option Hangup;
  li_death : option DeathCause;
  li_exit : option ExitClass;
  li_core_signals : list Z;
  li_runtime_dir_removed : bool }.

(** What the recorder is told. *)
Inductive LifeEvent : Type :=
| RealmDied (realm : RealmId) (pid : Z) (cause : Str)
| RealmExited (realm : RealmId) (pid : Z) (disposition : Str) (code signal : option Z) (core_initiated : bool).

(** [kill(2)] and the [waitpid] calls, by the number of the call; and the time each
    call takes. *)
Record Kernel : Type := {
  kn_try_wait : nat -> result (option Z) unit;
  kn_wait : nat -> option Z;
  kn_kill : nat -> bool;
  kn_delay : nat -> Duration }.
(** The calls made, the clock, the calls of [kill(2)] - the process, the signal and
    whether the kernel took it - and the runtime directories removed. *)
Record Kill : Type := { kl_pid : Z; kl_signal : Z; kl_taken : bool }.
Record Os : Type := { os_calls : nat; os_clock : Instant; os_kills : list Kill; os_removed : nat }.
Definition os_signals (o : Os) : list Z := List.map kl_signal (List.filter kl_taken (os_kills o)).

Section lifecycle.
(** [D] is a clipboard's digest, [F] a descriptor, [I] the importer of device
    buffers, [B] the backend's retained frame. *)
Context {D F I B H : Type} `{!DmabufImporter F I} (scrub : B -> B * bool) (k : Kernel).

(** [RealmTeardown], with what has been recorded and the connections let go. *)
Record RealmTeardown : Type := {
  td_scene : Scene;
  td_shim : option (ShimServer F);
  td_importer : option I;
  td_router : InputRouter H;
  td_retained : option B;
  td_clipboard : @ClipboardSlot D;
  td_idle_inhibits : IdleInhibitTable;
  td_realms : RealmRegistry;
  td_recorder : list LifeEvent;
  td_hung_up : list Hangup }.

Definition St : Type := RealmLifecycle * RealmTeardown * Os.

Definition set_death (d : DeathCause) (l : RealmLifecycle) : RealmLifecycle :=
  {| li_realm_id := li_realm_id l; li_pid := li_pid l; li_child := li_child l; li_hangup := None; li_death := Some d;
     li_exit := li_exit l; li_core_signals := li_core_signals l; li_runtime_dir_removed := li_runtime_dir_removed l |}.
Definition set_child (child : bool) (exit : option ExitClass) (l : RealmLifecycle) : RealmLifecycle :=
  {| li_realm_id := li_realm_id l; li_pid := li_pid l; li_child := child; li_hangup := li_hangup l; li_death := li_death l;
     li_exit := exit; li_core_signals := li_core_signals l; li_runtime_dir_removed := li_runtime_dir_removed l |}.
Definition note_core_signal (signal : Z) (l : RealmLifecycle) : RealmLifecycle :=
  if existsb (Z.eqb signal) (li_core_signals l) then l
  else {| li_realm_id := li_realm_id l; li_pid := li_pid l; li_child := li_child l; li_hangup := li_hangup l; li_death := li_death l;
          li_exit := li_exit l; li_core_signals := li_core_signals l ++ [signal]; li_runtime_dir_removed := li_runtime_dir_removed l |}.
Definition record (e : LifeEvent) (t : RealmTeardown) : RealmTeardown :=
  {| td_scene := td_scene t; td_shim := td_shim t; td_importer := td_importer t; td_router := td_router t; td_retained := td_retained t;
     td_clipboard := td_clipboard t; td_idle_inhibits := td_idle_inhibits t; td_realms := td_realms t;
     td_recorder := td_recorder t ++ [e]; td_hung_up := td_hung_up t |}.

Definition is_alive (l : RealmLifecycle) : bool := bool_decide (li_death l = None).
Definition is_reaped (l : RealmLifecycle) : bool := negb (li_child l).
Definition core_initiated (l : RealmLifecycle) : bool :=
  match li_exit l with Some (ClassSignaled signal) => existsb (Z.eqb signal) (li_core_signals l) | _ => false end.
Definition view_is_live (scene : Scene) (l : RealmLifecycle) : bool :=
  is_alive l && bool_decide (surface_size scene <> None).

(** A call takes its time. *)
Definition syscall (o : Os) : Os :=
  {| os_calls := S (os_calls o); os_clock := os_clock o + Z.max 0 (kn_delay k (os_calls o)); os_kills := os_kills o; os_removed := os_removed o |}.
Definition sleep (d : Duration) (o : Os) : Os :=
  {| os_calls := S (os_calls o); os_clock := os_clock o + d + Z.max 0 (kn_delay k (os_calls o)); os_kills := os_kills o; os_removed := os_removed o |}.
Definition kill_process (pid signal : Z) (o : Os) : bool * Os :=
  let taken := kn_kill k (os_calls o) in
  let o := syscall o in
  (taken, {| os_calls := os_calls o; os_clock := os_clock o;
             os_kills := os_kills o ++ [{| kl_pid := pid; kl_signal := signal; kl_taken := taken |}]; os_removed := os_removed o |}).

(* ------------------------------------------------------------------------ *)
(** ** Dying *)

Definition die (cause : DeathCause) (s : St) : bool * St :=
  let '(l, t, o) := s in
  match li_death l with
  | Some _ => (false, s)
  | None =>
      let realm := li_realm_id l in
      let '(scene, importer, router) :=
        match td_shim t with
        | Some server =>
            Shim.connection_closed (X := unit) realm
              {| sh_server := server; sh_scene := td_scene t; sh_importer := td_importer t; sh_sent := []; sh_answers := [] |} (td_router t)
        | None => (clear_surface (td_scene t), td_importer t, (reset_for realm (td_router t)).2)
        end in
      let clipboard := (Clipboard.forget_realm (td_clipboard t) realm).2 in
      let idle_inhibits := (inhibit_forget realm (td_idle_inhibits t)).2 in
      let retained := (fun frame => (scrub frame).1) <$> td_retained t in
      let realms := (mark_exited (td_realms t) realm (li_pid l)).2 in
      (true,
       (set_death cause l,
        {| td_scene := scene; td_shim := None; td_importer := importer; td_router := router; td_retained := retained;
           td_clipboard := clipboard; td_idle_inhibits := idle_inhibits; td_realms := realms;
           td_recorder := td_recorder t ++ [RealmDied realm (li_pid l) (death_cause_label cause)];
           td_hung_up := td_hung_up t ++ option_list (li_hangup l) |}, o))
  end.

Definition collect_exit (status : Z) (s : St) : St :=
  let '(l, t, o) := s in
  let class := exit_class_of status in
  let '(_, (l, t, o)) := die ProcessExit (set_child false (Some class) l, t, o) in
  (l, record (RealmExited (li_realm_id l) (li_pid l) (disposition class) (class_code class) (class_signal class) (core_initiated l)) t, o).

Definition poll_exit (s : St) : bool * St :=
  let '(l, t, o) := s in
  if negb (li_child l) then (false, s)
  else
    let answer := kn_try_wait k (os_calls o) in
    let o := syscall o in
    match answer with
    | Ok (Some status) => (true, collect_exit status (l, t, o))
    | Ok None | Err _ => (false, (l, t, o))
    end.

(** [signal]; a pid that is no [pid_t] is not signalled. *)
Definition send_signal (signal : Z) (s : St) : St :=
  let '(l, t, o) := s in
  if negb (li_child l) then s
  else if 2147483647 <? li_pid l then s
  else
    let '(taken, o) := kill_process (li_pid l) signal o in
    (if taken then note_core_signal signal l else l, t, o).

Definition note_connection_closed (cause : DeathCause) (s : St) : bool * St :=
  let '(died, s) := die cause s in
  let '(_, s) := poll_exit s in
  let s := if li_child s.1.1 then send_signal SIGTERM s else s in
  (died, s).

(* ------------------------------------------------------------------------ *)
(** ** The ladder *)

Fixpoint wait_loop (fuel : nat) (deadline : Instant) (s : St) : option (bool * St) :=
  match fuel with
  | O => None
  | S fuel =>
      if negb (li_child s.1.1) then Some (true, s)
      else
        let '(exited, s) := poll_exit s in
        if exited then Some (true, s)
        else
          let '(l, t, o) := s in
          if deadline <=? os_clock o then Some (false, s)
          else wait_loop fuel deadline (l, t, sleep REAP_POLL_INTERVAL o)
  end.
Definition polls_of (budget : Duration) : nat := S (S (Z.to_nat (budget / REAP_POLL_INTERVAL))).
Definition wait_for_exit (budget : Duration) (s : St) : option (bool * St) :=
  deadline ← checked_add (os_clock s.2) budget;
  wait_loop (polls_of budget) deadline s.

Definition force_kill (s : St) : St :=
  let '(l, t, o) := s in
  if negb (li_child l) then s
  else
    let '(taken, o) := kill_process (li_pid l) SIGKILL o in
    let l := if taken then note_core_signal SIGKILL l else l in
    let answer := kn_wait k (os_calls o) in
    let o := syscall o in
    match answer with
    | Some status => collect_exit status (l, t, o)
    | None => (l, t, o)
    end.

Definition remove_runtime_dir (s : St) : St :=
  let '(l, t, o) := s in
  if li_runtime_dir_removed l then s
  else
    ({| li_realm_id := li_realm_id l; li_pid := li_pid l; li_child := li_child l; li_hangup := li_hangup l; li_death := li_death l;
        li_exit := li_exit l; li_core_signals := li_core_signals l; li_runtime_dir_removed := true |}, t,
     {| os_calls := os_calls o; os_clock := os_clock o; os_kills := os_kills o; os_removed := S (os_removed o) |}).

Definition shutdown (timing : ShutdownTiming) (s : St) : option (ShutdownRung * St) :=
  let '(_, s) := die ShutdownCause s in
  '(rung, s) ←
    (if negb (li_child s.1.1) then Some (RungAlreadyDead, s)
     else
       '(exited, s) ← wait_for_exit (hangup_grace timing) s;
       if (exited : bool) then Some (RungHangup, s)
       else
         let s := send_signal SIGTERM s in
         '(exited, s) ← wait_for_exit (term_grace timing) s;
         if (exited : bool) then Some (RungTerm, s) else Some (RungKill, force_kill s));
  Some (rung, remove_runtime_dir s).

(** [adopt], the connection placed or refused; and [drop]. *)
Definition adopt {E} (realm : RealmId) (pid : Z) (place : result Hangup E) (o : Os) : result RealmLifecycle E * Os :=
  match place with
  | Err err =>
      (Err err, syscall (kill_process pid SIGKILL o).2)
  | Ok hangup =>
      (Ok {| li_realm_id := realm; li_pid := pid; li_child := true; li_hangup := Some hangup; li_death := None; li_exit := None;
             li_core_signals := []; li_runtime_dir_removed := false |}, o)
  end.
Definition lifecycle_drop (l : RealmLifecycle) (o : Os) : Os :=
  if negb (li_child l) then o
  else syscall (kill_process (li_pid l) SIGKILL o).2.
End lifecycle.

(* ------------------------------------------------------------------------ *)
(** ** What holds of a life *)

Section invariant.
Context {D F I B H : Type} `{!DmabufImporter F I} (scrub : B -> B * bool) (k : Kernel).
Local Notation St := (@St D F I B H).
Local Notation RealmTeardown := (@RealmTeardown D F I B H).
Local Notation die := (@die D F I B H _ scrub).
Local Notation poll_exit := (@poll_exit D F I B H _ scrub k).
Local Notation collect_exit := (@collect_exit D F I B H _ scrub).
Local Notation send_signal := (@send_signal D F I B H k).
Local Notation wait_loop := (@wait_loop D F I B H _ scrub k).
Local Notation wait_for_exit := (@wait_for_exit D F I B H _ scrub k).
Local Notation force_kill := (@force_kill D F I B H _ scrub k).
Local Notation note_connection_closed := (@note_connection_closed D F I B H _ scrub k).
Local Notation shutdown := (@shutdown D F I B H _ scrub k).
Local Notation remove_runtime_dir := (@remove_runtime_dir D F I B H).

(** What the session does with a realm, one call at a time; while the realm lives
    the rest of the core may do anything to what it holds of it, but for what the
    recorder was told and the connections let go. *)
Inductive LifeOp : Type :=
| LWorld (t : RealmTeardown)
| LClosed (cause : DeathCause)
| LPoll
| LShutdown (timing : ShutdownTiming).

Definition world_of (t t' : RealmTeardown) : RealmTeardown :=
  {| td_scene := td_scene t'; td_shim := td_shim t'; td_importer := td_importer t'; td_router := td_router t'; td_retained := td_retained t';
     td_clipboard := td_clipboard t'; td_idle_inhibits := td_idle_inhibits t'; td_realms := td_realms t';
     td_recorder := td_recorder t; td_hung_up := td_hung_up t |}.

Definition life_step (op : LifeOp) (s : St) : option St :=
  match op with
  | LWorld t' => Some (let '(l, t, o) := s in if is_alive l then (l, world_of t t', o) else s)
  | LClosed cause => Some (note_connection_closed cause s).2
  | LPoll => Some (poll_exit s).2
  | LShutdown timing => '(_, s) ← shutdown timing s; Some s
  end.
Fixpoint life_run (ops : list LifeOp) (s : St) : option St :=
  match ops with [] => Some s | op :: ops => s ← life_step op s; life_run ops s end.

(** Nothing of the realm is left. *)
Record gone (realm : RealmId) (pid : Z) (t : RealmTeardown) : Prop := {
  gone_surface : sn_surface (td_scene t) = None;
  gone_shim : td_shim t = None;
  gone_seat : rt_seats (td_router t) !! realm = None /\ rt_bound (td_router t) <> Some realm;
  gone_clipboard : forall h, held (td_clipboard t) = Some h -> h_source h <> realm;
  gone_inhibit : td_idle_inhibits t !! realm = None;
  gone_registry : forall r, realms (td_realms t) !! realm = Some r -> r_state r = Exited pid }.

(** The two lines of a life in the record. *)
Definition life_lines (l : RealmLifecycle) : list LifeEvent :=
  match li_death l with Some c => [RealmDied (li_realm_id l) (li_pid l) (death_cause_label c)] | None => [] end
  ++ match li_exit l with
     | Some class => [RealmExited (li_realm_id l) (li_pid l) (disposition class) (class_code class) (class_signal class) (core_initiated l)]
     | None => []
     end.

Record life_inv (realm : RealmId) (pid : Z) (hangup : Hangup) (s : St) : Prop := {
  lv_realm : li_realm_id s.1.1 = realm /\ li_pid s.1.1 = pid;
  lv_child : li_child s.1.1 = bool_decide (li_exit s.1.1 = None);
  lv_exit : li_exit s.1.1 <> None -> li_death s.1.1 <> None;
  lv_record : td_recorder s.1.2 = life_lines s.1.1;
  lv_hangup : option_list (li_hangup s.1.1) ++ td_hung_up s.1.2 = [hangup] /\ (li_hangup s.1.1 = None <-> li_death s.1.1 <> None);
  lv_signals : forall signal, In signal (li_core_signals s.1.1) -> In signal (os_signals s.2);
  lv_gone : li_death s.1.1 <> None -> gone realm pid s.1.2;
  lv_removed : os_removed s.2 = if li_runtime_dir_removed s.1.1 then 1%nat else 0%nat }.

(** What is not the realm's is left as it was: every other realm's seat, presence,
    constraint, hold on the screen and place in the registry; the seat's binding,
    the clipboard and the promotion outstanding, unless they are the realm's own; and
    what belongs to none. *)
Record spares (realm : RealmId) (t t' : RealmTeardown) : Prop := {
  sp_seats : forall other, other <> realm -> rt_seats (td_router t') !! other = rt_seats (td_router t) !! other;
  sp_presence : forall other, other <> realm -> rt_presence (td_router t') !! other = rt_presence (td_router t) !! other;
  sp_constraints : forall other, other <> realm ->
    Constraint.ct_records (rt_constraints (td_router t')) !! other = Constraint.ct_records (rt_constraints (td_router t)) !! other;
  sp_bound : rt_bound (td_router t') = rt_bound (td_router t) \/ (rt_bound (td_router t) = Some realm /\ rt_bound (td_router t') = None);
  sp_hook : rt_hook (td_router t') = rt_hook (td_router t) /\ rt_now (td_router t') = rt_now (td_router t);
  sp_held : held (td_clipboard t') = held (td_clipboard t)
    \/ (exists h, held (td_clipboard t) = Some h /\ h_source h = realm /\ held (td_clipboard t') = None);
  sp_outstanding : slot_outstanding (td_clipboard t') = slot_outstanding (td_clipboard t)
    \/ (exists o, slot_outstanding (td_clipboard t) = Some o /\ o_realm o = realm /\ slot_outstanding (td_clipboard t') = None);
  sp_serial : next_serial (td_clipboard t') = next_serial (td_clipboard t);
  sp_inhibits : forall other, other <> realm -> td_idle_inhibits t' !! other = td_idle_inhibits t !! other;
  sp_registry : forall other, other <> realm -> realms (td_realms t') !! other = realms (td_realms t) !! other;
  sp_minting : next_instance (td_realms t') = next_instance (td_realms t) /\ picker_root (td_realms t') = picker_root (td_realms t) }.

#[export] Instance spares_preorder realm : PreOrder (spares realm).
Proof.
  split.
  - intros t. split; try done; by left.
  - intros t1 t2 t3 [Hs1 Hp1 Hc1 Hb1 [Hh1 Hn1] He1 Ho1 Hz1 Hi1 Hr1 [Hm1 Hk1]] [Hs2 Hp2 Hc2 Hb2 [Hh2 Hn2] He2 Ho2 Hz2 Hi2 Hr2 [Hm2 Hk2]].
    split; try (intros other Ho; etrans; [by first [apply Hs2|apply Hp2|apply Hc2|apply Hi2|apply Hr2]|];
      by first [apply Hs1|apply Hp1|apply Hc1|apply Hi1|apply Hr1]).
    + destruct Hb1 as [H1|[H1 H1']], Hb2 as [H2|[H2 H2']]; [left; congruence|right; split; congruence|right; split; congruence|congruence].
    + split; congruence.
    + destruct He1 as [H1|(h & H1 & H1' & H1'')], He2 as [H2|(h2 & H2 & H2' & H2'')];
        [left; congruence|right; exists h2; split_and!; congruence|right; exists h; split_and!; congruence|congruence].
    + destruct Ho1 as [H1|(h & H1 & H1' & H1'')], Ho2 as [H2|(h2 & H2 & H2' & H2'')];
        [left; congruence|right; exists h2; split_and!; congruence|right; exists h; split_and!; congruence|congruence].
    + congruence.
    + split; congruence.
Qed.

(** Letting one realm's seat go touches no other's. *)
Lemma reset_spares realm (r : InputRouter H) :
  let r' := (reset_for realm r).2 in
  (forall other, other <> realm -> rt_seats r' !! other = rt_seats r !! other /\ rt_presence r' !! other = rt_presence r !! other
     /\ Constraint.ct_records (rt_constraints r') !! other = Constraint.ct_records (rt_constraints r) !! other)
  /\ (rt_bound r' = rt_bound r \/ (rt_bound r = Some realm /\ rt_bound r' = None))
  /\ rt_hook r' = rt_hook r /\ rt_now r' = rt_now r.
Proof using.
  unfold reset_for, Constraint.c_forget. case_bool_decide as Hb; destruct (Constraint.ct_records _ !! realm); cbn; unfold Input.forget;
    (split; [intros other Ho; split_and!; by rewrite ?lookup_delete_ne by done|]); (split; [first [by left|by right]|done]).
Qed.

Lemma die_spares cause s : spares (li_realm_id s.1.1) s.1.2 (die cause s).2.1.2.
Proof using.
  destruct s as [[l t] o]. unfold Lifecycle.die. cbn [fst snd]. destruct (li_death l); [done|]. set (realm := li_realm_id l).
  pose proof (reset_spares realm (td_router t)) as (Hother & Hbound & Hhook).
  assert (forall scene importer, spares realm t {| td_scene := scene; td_shim := None; td_importer := importer;
      td_router := (reset_for realm (td_router t)).2;
      td_retained := (fun frame => (scrub frame).1) <$> td_retained t; td_clipboard := (Clipboard.forget_realm (td_clipboard t) realm).2;
      td_idle_inhibits := (inhibit_forget realm (td_idle_inhibits t)).2; td_realms := (mark_exited (td_realms t) realm (li_pid l)).2;
      td_recorder := td_recorder t ++ [RealmDied realm (li_pid l) (death_cause_label cause)];
      td_hung_up := td_hung_up t ++ option_list (li_hangup l) |}) as Hsp.
  { intros scene importer. split; cbn [td_router td_clipboard td_idle_inhibits td_realms];
      try (intros other Ho; by destruct (Hother other Ho) as (? & ? & ?)); try done.
    - cbn. destruct (held (td_clipboard t)) as [h|]; cbn; [|by left]. destruct (str_eqb (h_source h) realm) eqn:He; [|by left].
      right. exists h. apply str_eqb_eq in He. done.
    - cbn. destruct (slot_outstanding (td_clipboard t)) as [p|]; cbn; [|by left]. destruct (str_eqb (o_realm p) realm) eqn:He; [|by left].
      right. exists p. apply str_eqb_eq in He. done.
    - intros other Ho. cbn. by rewrite lookup_delete_ne.
    - intros other Ho. unfold mark_exited, mark_state. destruct (realms (td_realms t) !! realm); cbn; [by rewrite lookup_insert_ne|done].
    - unfold mark_exited, mark_state. by destruct (realms (td_realms t) !! realm). }
  destruct (td_shim t) as [server|]; cbn; apply Hsp.
Qed.

Lemma die_dead cause s : li_death s.1.1 <> None -> die cause s = (false, s).
Proof. destruct s as [[l t] o]. cbn. by destruct (li_death l). Qed.

(** [die] on the living. *)
Lemma die_spec cause s :
  li_death s.1.1 = None ->
  exists t', die cause s = (true, (set_death cause s.1.1, t', s.2))
    /\ gone (li_realm_id s.1.1) (li_pid s.1.1) t'
    /\ td_recorder t' = td_recorder s.1.2 ++ [RealmDied (li_realm_id s.1.1) (li_pid s.1.1) (death_cause_label cause)]
    /\ td_hung_up t' = td_hung_up s.1.2 ++ option_list (li_hangup s.1.1)
    /\ td_retained t' = (fun frame => (scrub frame).1) <$> td_retained s.1.2.
Proof using.
  destruct s as [[l t] o]. cbn. intros ->. set (realm := li_realm_id l).
  assert (forall scene importer router, sn_surface scene = None -> rt_seats router !! realm = None -> rt_bound router <> Some realm ->
    gone realm (li_pid l) {| td_scene := scene; td_shim := None; td_importer := importer; td_router := router;
      td_retained := (fun frame => (scrub frame).1) <$> td_retained t; td_clipboard := (Clipboard.forget_realm (td_clipboard t) realm).2;
      td_idle_inhibits := (inhibit_forget realm (td_idle_inhibits t)).2; td_realms := (mark_exited (td_realms t) realm (li_pid l)).2;
      td_recorder := td_recorder t ++ [RealmDied realm (li_pid l) (death_cause_label cause)];
      td_hung_up := td_hung_up t ++ option_list (li_hangup l) |}) as Hgone.
  { intros scene importer router Hs Hr Hb. split; cbn; try done.
    - intros h. destruct (held (td_clipboard t)) as [h0|] eqn:Hh; cbn; [|done]. unfold str_eqb. case_bool_decide; [done|]. by intros [= <-].
    - by rewrite lookup_delete_eq.
    - intros r. unfold mark_exited, mark_state. destruct (realms (td_realms t) !! realm) as [r0|] eqn:Hr0; cbn; [|by rewrite Hr0].
      rewrite lookup_insert_eq. by intros [= <-]. }
  assert (forall router : InputRouter H, rt_seats (reset_for realm router).2 !! realm = None /\ rt_bound (reset_for realm router).2 <> Some realm) as Hreset.
  { intros router. unfold reset_for. destruct (Constraint.c_forget _ realm) as [b c]. cbn. case_bool_decide; cbn; by rewrite lookup_delete_eq. }
  destruct (td_shim t) as [server|]; cbn; (eexists; split; [reflexivity|]); (split; [|done]); by apply Hgone; try apply Hreset.
Qed.

Lemma gone_record realm pid e t : gone realm pid t -> gone realm pid (record e t).
Proof using. by intros []. Qed.

Lemma die_inv realm pid h cause s :
  life_inv realm pid h s ->
  let s' := (die cause s).2 in
  life_inv realm pid h s' /\ li_death s'.1.1 <> None /\ li_child s'.1.1 = li_child s.1.1 /\ s'.2 = s.2
  /\ li_exit s'.1.1 = li_exit s.1.1.
Proof using.
  intros Hinv. cbv zeta. destruct (li_death s.1.1) as [c|] eqn:Hd.
  - rewrite die_dead by congruence. cbn [snd]. split_and!; [done|congruence|done..].
  - destruct (die_spec cause s Hd) as (t' & -> & Hgone & Hrec & Hhung & _). cbn [fst snd]. destruct Hinv as [[Hr Hp] Hc He Hre [Hh Hhd] Hs _ Hrm].
    assert (li_exit s.1.1 = None) as Hex by (destruct (li_exit s.1.1); [by destruct He|done]).
    split; [|done]. split; cbn; try done.
    + rewrite Hrec, Hre. unfold life_lines. rewrite Hd, Hex. done.
    + split; [|done]. rewrite Hhung. destruct (li_hangup s.1.1) as [g|] eqn:Hg; [|by destruct Hhd as [Hn _]; destruct (Hn eq_refl)].
      cbn in *. destruct (td_hung_up s.1.2); [done|]. simplify_eq.
    + by rewrite <- Hr, <- Hp.
Qed.

Lemma collect_inv realm pid h status s :
  life_inv realm pid h s -> li_child s.1.1 = true ->
  let s' := collect_exit status s in
  life_inv realm pid h s' /\ li_child s'.1.1 = false /\ li_exit s'.1.1 = Some (exit_class_of status) /\ s'.2 = s.2.
Proof using.
  intros Hinv Hc. pose proof Hinv as [[Hr Hp] Hce He Hre [Hh Hhd] Hs Hg Hrm]. rewrite Hc in Hce. symmetry in Hce. apply bool_decide_eq_true in Hce.
  destruct s as [[l t] o]. cbn [fst snd] in *. unfold Lifecycle.collect_exit. cbv zeta. set (l1 := set_child false _ l).
  destruct (li_death l) as [c|] eqn:Hd.
  - rewrite die_dead by (cbn; congruence). cbn [fst snd]. split; [|done]. split; cbn; try done.
    + rewrite Hd. done.
    + rewrite Hre. unfold life_lines. cbn. rewrite Hd, Hce, app_nil_r. done.
    + rewrite Hd. done.
    + intros _. apply gone_record, Hg. done.
  - destruct (die_spec ProcessExit (l1, t, o) Hd) as (t' & -> & Hgone & Hrec & Hhung & _). cbn [fst snd].
    split; [|done]. split; cbn in *; try done.
    + rewrite Hrec, Hre. unfold life_lines. rewrite Hd, Hce. done.
    + split; [|done]. rewrite Hhung. destruct (li_hangup l) as [g|] eqn:Hgh; [|by destruct Hhd as [Hn _]; destruct (Hn eq_refl)].
      cbn in *. destruct (td_hung_up t); [done|]. simplify_eq.
    + intros _. rewrite <- Hr, <- Hp. by apply gone_record.
Qed.

(** No call of the session touches another realm. *)
Definition confined (s s' : St) : Prop := li_realm_id s'.1.1 = li_realm_id s.1.1 /\ spares (li_realm_id s.1.1) s.1.2 s'.1.2.
#[export] Instance confined_preorder : PreOrder confined.
Proof.
  split; [done|]. intros s1 s2 s3 [H1 Hs1] [H2 Hs2]. split; [congruence|]. rewrite H1 in Hs2. by etrans.
Qed.
Lemma confined_same s s' : li_realm_id s'.1.1 = li_realm_id s.1.1 -> s'.1.2 = s.1.2 -> confined s s'.
Proof using. intros H1 H2. split; [done|]. by rewrite H2. Qed.

Lemma die_realm cause s : li_realm_id (die cause s).2.1.1 = li_realm_id s.1.1.
Proof using. destruct s as [[l t] o]. unfold Lifecycle.die. cbn. destruct (li_death l); [done|]. by destruct (td_shim t). Qed.
Lemma die_confined cause s : confined s (die cause s).2.
Proof using. split; [apply die_realm|apply die_spares]. Qed.
Lemma collect_confined status s : confined s (collect_exit status s).
Proof using.
  destruct s as [[l t] o]. unfold Lifecycle.collect_exit. pose proof (die_confined ProcessExit (set_child false (Some (exit_class_of status)) l, t, o)) as Hd.
  destruct (die ProcessExit _) as [died [[l1 t1] o1]]. cbn [fst snd] in *. etrans; [by apply (confined_same _ (set_child false (Some (exit_class_of status)) l, t, o))|].
  etrans; [exact Hd|]. split; [done|]. cbn. by split; try done; left.
Qed.
Lemma poll_confined s : confined s (poll_exit s).2.
Proof using.
  destruct s as [[l t] o]. unfold Lifecycle.poll_exit. destruct (negb (li_child l)); [done|]. destruct (kn_try_wait k (os_calls o)) as [[status|]|]; try done.
  cbn [snd]. etrans; [|apply collect_confined]. by apply confined_same.
Qed.
Lemma note_signal_realm signal l : li_realm_id (note_core_signal signal l) = li_realm_id l.
Proof using. unfold note_core_signal. by case_match. Qed.
Lemma signal_confined signal s : confined s (send_signal signal s).
Proof using.
  destruct s as [[l t] o]. unfold Lifecycle.send_signal. destruct (negb (li_child l)); [done|]. case_match; [done|]. cbn.
  apply confined_same; [|done]. cbn. by case_match; rewrite ?note_signal_realm.
Qed.
Lemma closed_confined cause s : confined s (note_connection_closed cause s).2.
Proof using.
  unfold Lifecycle.note_connection_closed. pose proof (die_confined cause s) as Hd. destruct (die cause s) as [died s1]. cbn [snd] in Hd.
  pose proof (poll_confined s1) as Hp. destruct (poll_exit s1) as [exited s2]. cbn [snd] in *. etrans; [exact Hd|]. etrans; [exact Hp|].
  case_match; [apply signal_confined|done].
Qed.
Lemma wait_confined fuel deadline s r : wait_loop fuel deadline s = Some r -> confined s r.2.
Proof using.
  revert s. induction fuel as [|fuel IH]; intros s; cbn [Lifecycle.wait_loop]; [done|]. destruct (negb _); [by intros [= <-]|].
  pose proof (poll_confined s) as Hp. destruct (poll_exit s) as [exited s1]. cbn [snd] in Hp. destruct exited; [by intros [= <-]|].
  destruct s1 as [[l t] o]. destruct (deadline <=? os_clock o); [by intros [= <-]|]. intros Hr%IH. etrans; [exact Hp|]. etrans; [|exact Hr].
  by apply confined_same.
Qed.
Lemma wait_for_confined budget s r : wait_for_exit budget s = Some r -> confined s r.2.
Proof using. unfold Lifecycle.wait_for_exit. intros (deadline & _ & Hw)%bind_Some. by eapply wait_confined. Qed.
Lemma force_kill_confined s : confined s (force_kill s).
Proof using.
  destruct s as [[l t] o]. unfold Lifecycle.force_kill. destruct (negb (li_child l)); [done|].
  destruct (kill_process k (li_pid l) SIGKILL o) as [taken o1]. set (l1 := if taken then _ else l).
  assert (li_realm_id l1 = li_realm_id l) as Hl by (unfold l1; by case_match; rewrite ?note_signal_realm).
  destruct (kn_wait k (os_calls o1)); [|by apply confined_same]. etrans; [|apply collect_confined]. by apply confined_same.
Qed.
Lemma remove_confined s : confined s (remove_runtime_dir s).
Proof using. destruct s as [[l t] o]. unfold Lifecycle.remove_runtime_dir. case_match; [done|]. by apply confined_same. Qed.
Lemma shutdown_confined timing s rung s' : shutdown timing s = Some (rung, s') -> confined s s'.
Proof using.
  unfold Lifecycle.shutdown. pose proof (die_confined ShutdownCause s) as Hd. destruct (die ShutdownCause s) as [died s1]. cbn [snd] in Hd.
  intros ([rung' s2] & Hl & [= <- <-])%bind_Some. etrans; [exact Hd|]. etrans; [|apply remove_confined]. revert Hl.
  destruct (negb _); [by intros [= <- <-]|]. intros ([exited sa] & Ha%wait_for_confined & Hl)%bind_Some. cbn [snd] in Ha. etrans; [exact Ha|].
  revert Hl. destruct exited; [by intros [= <- <-]|]. intros ([exited sb] & Hb%wait_for_confined & Hl)%bind_Some. cbn [snd] in Hb.
  etrans; [apply signal_confined|]. etrans; [exact Hb|]. revert Hl. destruct exited; intros [= <- <-]; [done|apply force_kill_confined].
Qed.
Lemma life_step_confined op s s' : (forall t, op <> LWorld t) -> life_step op s = Some s' -> confined s s'.
Proof using.
  intros Hop. destruct op as [t'|cause| |timing]; cbn; [by destruct (Hop t')|intros [= <-]; apply closed_confined|intros [= <-]; apply poll_confined|].
  intros ([rung s2] & Hs & [= <-])%bind_Some. by eapply shutdown_confined.
Qed.
Lemma life_step_realm op s s' : life_step op s = Some s' -> li_realm_id s'.1.1 = li_realm_id s.1.1.
Proof using.
  destruct op as [t'|cause| |timing]; [cbn; destruct s as [[l t] o]; case_match; by intros [= <-]| | |];
    (intros Hs; apply life_step_confined in Hs; [by apply Hs|done]).
Qed.
Lemma life_run_realm ops s s' : life_run ops s = Some s' -> li_realm_id s'.1.1 = li_realm_id s.1.1.
Proof using.
  revert s. induction ops as [|op ops IH]; intros s; cbn [life_run]; [by intros [= <-]|]. intros (s1 & H1%life_step_realm & Hr)%bind_Some.
  by rewrite (IH _ Hr).
Qed.

(** Only the clock and the count of calls move. *)
Definition same_os (o o' : Os) : Prop := os_kills o' = os_kills o /\ os_removed o' = os_removed o /\ os_clock o <= os_clock o'.

Lemma inv_os realm pid h l t o o' :
  life_inv realm pid h (l, t, o) -> os_kills o' = os_kills o -> os_removed o' = os_removed o -> life_inv realm pid h (l, t, o').
Proof using. intros [? ? ? ? ? Hs ? Hrm] Ho Hr. split; cbn in *; try done; [unfold os_signals in *; by rewrite Ho|by rewrite Hr]. Qed.
Lemma same_syscall o : same_os o (syscall k o).
Proof using. split_and!; [done|done|cbn; lia]. Qed.

Lemma poll_inv realm pid h s :
  life_inv realm pid h s ->
  let '(exited, s') := poll_exit s in
  life_inv realm pid h s' /\ same_os s.2 s'.2 /\ (exited = true -> li_child s.1.1 = true /\ li_child s'.1.1 = false)
  /\ (exited = false -> s'.1 = s.1).
Proof using.
  intros Hinv. destruct s as [[l t] o]. unfold Lifecycle.poll_exit. destruct (li_child l) eqn:Hc; cbn [negb].
  - pose proof (inv_os _ _ _ _ _ _ (syscall k o) Hinv eq_refl eq_refl) as Hinv'.
    destruct (kn_try_wait k (os_calls o)) as [[status|]|].
    + destruct (collect_inv realm pid h status (l, t, syscall k o) Hinv' Hc) as (Hi & Hcc & _ & Ho).
      split_and!; [done|rewrite Ho; apply same_syscall|done|done].
    + split_and!; [done|apply same_syscall|done|done].
    + split_and!; [done|apply same_syscall|done|done].
  - split_and!; [done|split_and!; [done|done|cbn; lia]|done|done].
Qed.

Lemma note_signal_fields signal l :
  li_child (note_core_signal signal l) = li_child l /\ li_death (note_core_signal signal l) = li_death l
  /\ li_pid (note_core_signal signal l) = li_pid l.
Proof using. unfold note_core_signal. by case_match. Qed.

(** A signal asked of the process: what the core notes, the kernel took. *)
Lemma kill_inv realm pid h signal l t o :
  life_inv realm pid h (l, t, o) -> li_child l = true ->
  let '(taken, o') := kill_process k (li_pid l) signal o in
  life_inv realm pid h (if taken then note_core_signal signal l else l, t, o').
Proof using.
  intros [Hr Hc He Hre Hh Hs Hg Hrm] Hch. cbn [fst snd] in *. rewrite Hch in Hc. symmetry in Hc. apply bool_decide_eq_true in Hc.
  assert (forall l', li_realm_id l' = li_realm_id l -> li_pid l' = li_pid l -> li_death l' = li_death l -> li_exit l' = None -> life_lines l' = life_lines l) as Hl
    by (intros l' H1 H2 H3 H4; unfold life_lines; by rewrite H1, H2, H3, H4, Hc).
  assert (forall g taken, In g (os_signals o) \/ (taken = true /\ g = signal) ->
    In g (List.map kl_signal (List.filter kl_taken (os_kills o ++ [{| kl_pid := li_pid l; kl_signal := signal; kl_taken := taken |}])))) as Hin.
  { intros g taken Hg'. rewrite List.filter_app, List.map_app. apply in_or_app. destruct Hg' as [Hg'|[-> ->]]; [by left|right; by left]. }
  cbn. destruct (kn_kill k (os_calls o)); [|split; cbn [fst snd]; try done; [by rewrite Hch, Hc|intros g Hg'; apply Hin; left; by apply Hs]].
  unfold note_core_signal. destruct (existsb _ _).
  - split; cbn [fst snd]; try done; [by rewrite Hch, Hc|]. intros g Hg'. apply Hin. left. by apply Hs.
  - split; cbn [fst snd li_realm_id li_pid li_child li_hangup li_death li_exit li_core_signals li_runtime_dir_removed]; try done; [by rewrite Hch, Hc|by rewrite Hl|].
    intros g [Hg'|[<-|[]]]%in_app_or; apply Hin; [left; by apply Hs|by right].
Qed.

(** Some calls of [kill(2)] more, and some time. *)
Definition later_os (sent : list Kill) (time : Duration) (o o' : Os) : Prop :=
  os_kills o' = os_kills o ++ sent /\ os_removed o' = os_removed o /\ os_clock o <= os_clock o' <= os_clock o + time.

Section time.
Context (delta : Duration) (Hdelta : forall n, kn_delay k n <= delta) (Hpos : 0 <= delta).

Lemma later_refl time o : 0 <= time -> later_os [] time o o.
Proof using. clear Hdelta Hpos. intros. split_and!; [by rewrite app_nil_r|done|lia|lia]. Qed.
Lemma later_weaken sent t1 t2 o o' : later_os sent t1 o o' -> t1 <= t2 -> later_os sent t2 o o'.
Proof using. clear Hdelta Hpos. intros (Hs & Hr & Hc) Ht. split_and!; [done|done|lia|lia]. Qed.
Lemma later_syscall o : later_os [] delta o (syscall k o).
Proof using Hdelta Hpos. specialize (Hdelta (os_calls o)). split_and!; cbn; [by rewrite app_nil_r|done|lia|lia]. Qed.
Lemma later_trans l1 l2 t1 t2 o o1 o2 : later_os l1 t1 o o1 -> later_os l2 t2 o1 o2 -> later_os (l1 ++ l2) (t1 + t2) o o2.
Proof using. intros (Hs1 & Hr1 & Hc1) (Hs2 & Hr2 & Hc2). split_and!; [by rewrite Hs2, Hs1, app_assoc|congruence|lia|lia]. Qed.

Lemma poll_later s : li_child s.1.1 = true -> forall realm pid h, life_inv realm pid h s ->
  later_os [] delta s.2 (poll_exit s).2.2.
Proof using Hdelta Hpos.
  intros Hc realm pid h Hinv. destruct s as [[l t] o]. unfold Lifecycle.poll_exit. cbn in Hc. rewrite Hc. cbn [negb].
  destruct (kn_try_wait k (os_calls o)) as [[status|]|]; try apply later_syscall. cbn [snd].
  pose proof (inv_os _ _ _ _ _ _ (syscall k o) Hinv eq_refl eq_refl) as Hinv'.
  destruct (collect_inv realm pid h status (l, t, syscall k o) Hinv' Hc) as (_ & _ & _ & ->). apply later_syscall.
Qed.

(** What asking a process comes to; a pid that is no [pid_t] is not asked. *)
Definition signalled (pid signal : Z) (taken : bool) : list Kill :=
  if 2147483647 <? pid then [] else [{| kl_pid := pid; kl_signal := signal; kl_taken := taken |}].

Lemma later_kill pid signal o :
  exists taken, later_os [{| kl_pid := pid; kl_signal := signal; kl_taken := taken |}] delta o (kill_process k pid signal o).2.
Proof using Hdelta Hpos.
  exists (kn_kill k (os_calls o)). pose proof (later_syscall o) as (Hs & Hr & Ht). split_and!; cbn in *; [done|done|lia|lia].
Qed.

Lemma signal_inv realm pid h signal s :
  life_inv realm pid h s ->
  let s' := send_signal signal s in
  life_inv realm pid h s' /\ li_child s'.1.1 = li_child s.1.1 /\ li_death s'.1.1 = li_death s.1.1
  /\ (li_child s.1.1 = true -> exists taken, later_os (signalled pid signal taken) delta s.2 s'.2)
  /\ exists sent, later_os sent delta s.2 s'.2.
Proof using Hdelta Hpos.
  intros Hinv. pose proof (lv_realm _ _ _ _ Hinv) as [_ Hpid]. destruct s as [[l t] o]. cbn in Hpid. subst pid. unfold Lifecycle.send_signal, signalled. destruct (li_child l) eqn:Hc; cbn [negb].
  - destruct (2147483647 <? li_pid l).
    + split_and!; [done|done|done|intros _; exists true; apply later_refl; lia|exists []; apply later_refl; lia].
    + pose proof (kill_inv realm (li_pid l) h signal l t o Hinv Hc) as Hk. pose proof (later_kill (li_pid l) signal o) as [taken Hl].
      destruct (kill_process k (li_pid l) signal o) as [b o'] eqn:Hkp. cbn [fst snd] in *.
      destruct (note_signal_fields signal l) as (H1 & H2 & _).
      split_and!; [done|by destruct b|by destruct b|intros _; by exists taken|by eexists].
  - split_and!; [done|done|done|cbn; congruence|exists []; apply later_refl; lia].
Qed.

Lemma wait_loop_total realm pid h fuel deadline s :
  life_inv realm pid h s -> (0 < fuel)%nat -> deadline - os_clock s.2 <= REAP_POLL_INTERVAL * (Z.of_nat fuel - 1) ->
  exists exited s', wait_loop fuel deadline s = Some (exited, s') /\ life_inv realm pid h s'
    /\ later_os [] (Z.of_nat fuel * (2 * delta + REAP_POLL_INTERVAL)) s.2 s'.2
    /\ li_child s'.1.1 = (if exited then false else true) /\ (exited = false -> s'.1 = s.1 /\ deadline <= os_clock s'.2)
    /\ (li_death s.1.1 <> None -> li_death s'.1.1 <> None).
Proof using Hdelta Hpos.
  intros Hinv Hf Hd. revert s Hinv Hd. induction fuel as [|fuel IH]; intros s Hinv Hd; [lia|]. cbn [Lifecycle.wait_loop].
  set (step := 2 * delta + REAP_POLL_INTERVAL) in *. assert (Z.of_nat (S fuel) * step = Z.of_nat fuel * step + step) as Hstep by lia.
  assert (0 <= Z.of_nat fuel * step) as Hnn by (apply Z.mul_nonneg_nonneg; unfold step, REAP_POLL_INTERVAL, from_millis; lia).
  assert (REAP_POLL_INTERVAL = 5000000) as Hreap by done. assert (2 * delta + 5000000 <= step) as Hstep' by done. clearbody step.
  destruct (li_child s.1.1) eqn:Hc; cbn [negb].
  2: { eexists _, _. split; [reflexivity|]. split_and!; try done. split_and!; [by rewrite app_nil_r|done|lia|lia]. }
  pose proof (poll_inv realm pid h s Hinv) as Hp. pose proof (poll_later s Hc realm pid h Hinv) as Hl.
  destruct (poll_exit s) as [exited s1] eqn:Hpe. destruct Hp as (Hi1 & _ & Hy & Hn). cbn [snd] in Hl. destruct Hl as (Hs1 & Hr1 & Hc1).
  destruct exited.
  - destruct (Hy eq_refl) as [_ Hc']. eexists _, _. split; [reflexivity|]. split_and!; try done.
    + split_and!; [done|done|lia|lia].
    + intros _. apply (lv_exit _ _ _ _ Hi1). pose proof (lv_child _ _ _ _ Hi1) as He. rewrite Hc' in He. symmetry in He. by apply bool_decide_eq_false in He.
  - specialize (Hn eq_refl). destruct s1 as [[l1 t1] o1]. destruct s as [[l t] o]. cbn [fst snd] in *. simplify_eq.
    destruct (Z.leb_spec deadline (os_clock o1)) as [Hle|Hgt].
    + eexists _, _. split; [reflexivity|]. split_and!; try done. split_and!; [done|done|cbn [snd] in *; lia..].
    + assert (0 <= Z.max 0 (kn_delay k (os_calls o1)) <= delta) as Hdl by (specialize (Hdelta (os_calls o1)); lia).
      destruct (IH ltac:(destruct fuel; [lia|lia]) (l, t, sleep k REAP_POLL_INTERVAL o1))
        as (exited & s' & -> & Hi' & (Hs' & Hr' & Ht') & Hc' & Hk & Hde).
      * by eapply inv_os.
      * cbn [snd os_clock sleep]. lia.
      * eexists _, _. split; [reflexivity|]. cbn [snd fst os_clock os_kills os_removed sleep] in *. split_and!; try done.
        split_and!; [rewrite Hs', Hs1; by rewrite !app_nil_r|congruence|lia|lia].
Qed.

(** How long a wait may take. *)
Definition wait_time (budget : Duration) : Duration := Z.of_nat (polls_of budget) * (2 * delta + REAP_POLL_INTERVAL).

Lemma wait_for_exit_total realm pid h budget s :
  life_inv realm pid h s -> 0 <= budget -> os_clock s.2 + budget <= instant_max ->
  exists exited s', wait_for_exit budget s = Some (exited, s') /\ life_inv realm pid h s'
    /\ later_os [] (wait_time budget) s.2 s'.2
    /\ li_child s'.1.1 = (if exited then false else true)
    /\ (li_death s.1.1 <> None -> li_death s'.1.1 <> None)
    /\ (exited = false -> os_clock s.2 + budget <= os_clock s'.2).
Proof using Hdelta Hpos.
  intros Hinv Hb Hmax. unfold Lifecycle.wait_for_exit, checked_add. rewrite (proj2 (Z.leb_le _ _)) by done. cbn [mbind option_bind].
  destruct (wait_loop_total realm pid h (polls_of budget) (os_clock s.2 + budget) s Hinv) as (exited & s' & H1 & H2 & H3 & H4 & H5 & H6).
  - unfold polls_of. lia.
  - unfold polls_of, REAP_POLL_INTERVAL, from_millis in *. pose proof (Z.div_mod budget (5 * 1000000) ltac:(lia)). pose proof (Z.mod_pos_bound budget (5 * 1000000) ltac:(lia)).
    pose proof (Z.div_pos budget (5 * 1000000) ltac:(lia) ltac:(lia)). lia.
  - exists exited, s'. split_and!; [done..|]. intros He. by apply H5.
Qed.

Lemma force_kill_inv realm pid h s :
  life_inv realm pid h s -> li_child s.1.1 = true ->
  let s' := force_kill s in
  life_inv realm pid h s' /\ (li_death s.1.1 <> None -> li_death s'.1.1 <> None)
  /\ (exists n, os_calls s'.2 = S n /\ (li_child s'.1.1 = false <-> kn_wait k n <> None))
  /\ exists taken, later_os [{| kl_pid := pid; kl_signal := SIGKILL; kl_taken := taken |}] (2 * delta) s.2 s'.2.
Proof using Hdelta Hpos.
  intros Hinv Hc. pose proof (lv_realm _ _ _ _ Hinv) as [_ Hpid]. destruct s as [[l t] o]. cbn [fst snd] in *. unfold Lifecycle.force_kill. rewrite Hc. cbn [negb].
  pose proof (kill_inv realm pid h SIGKILL l t o Hinv Hc) as Hi1. destruct (later_kill (li_pid l) SIGKILL o) as [taken Hl1]. rewrite Hpid in *.
  destruct (kill_process k pid SIGKILL o) as [b o1]. cbn [fst snd] in *.
  destruct (note_signal_fields SIGKILL l) as (H1 & H2 & _). set (l1 := if b then note_core_signal SIGKILL l else l) in *.
  assert (li_child l1 = true /\ li_death l1 = li_death l) as [Hc1 Hd1] by (unfold l1; destruct b; split; congruence).
  pose proof (inv_os _ _ _ _ _ _ (syscall k o1) Hi1 eq_refl eq_refl) as Hi2.
  assert (later_os [{| kl_pid := pid; kl_signal := SIGKILL; kl_taken := taken |}] (2 * delta) o (syscall k o1)) as Hl2.
  { replace (2 * delta) with (delta + delta) by lia. exact (later_trans _ _ _ _ _ _ _ Hl1 (later_syscall o1)). }
  destruct (kn_wait k (os_calls o1)) as [status|] eqn:Hw.
  - destruct (collect_inv realm pid h status (l1, t, syscall k o1) Hi2 Hc1) as (Hi3 & Hc3 & He3 & Ho3).
    split_and!; [done| |exists (os_calls o1); by rewrite Ho3, Hw|exists taken; by rewrite Ho3]. intros _. apply (lv_exit _ _ _ _ Hi3). by rewrite He3.
  - split_and!; [done|cbn; by rewrite Hd1|exists (os_calls o1); split; [done|cbn; rewrite Hc1, Hw; by split]|by exists taken].
Qed.

Lemma remove_inv realm pid h s :
  life_inv realm pid h s ->
  let s' := remove_runtime_dir s in
  life_inv realm pid h s' /\ li_runtime_dir_removed s'.1.1 = true /\ li_child s'.1.1 = li_child s.1.1 /\ li_death s'.1.1 = li_death s.1.1
  /\ os_kills s'.2 = os_kills s.2 /\ os_clock s'.2 = os_clock s.2 /\ os_calls s'.2 = os_calls s.2.
Proof using.
  clear Hdelta Hpos. intros Hinv. destruct s as [[l t] o]. unfold Lifecycle.remove_runtime_dir. destruct (li_runtime_dir_removed l) eqn:Hr; cbn; [done|].
  split; [|done]. destruct Hinv as [? ? ? ? ? ? ? Hrm]. split; cbn in *; try done. by rewrite Hrm, Hr.
Qed.

(** How long the ladder may take. *)
Definition ladder_time (timing : ShutdownTiming) : Duration :=
  wait_time (hangup_grace timing) + wait_time (term_grace timing) + 3 * delta.

(** What a rung says of what was asked of the process, how long it was given and
    what became of it. *)
Definition rung_says (timing : ShutdownTiming) (pid : Z) (rung : ShutdownRung) (s s' : St) (asked : list Kill) : Prop :=
  match rung with
  | RungAlreadyDead => li_child s.1.1 = false /\ li_child s'.1.1 = false /\ asked = []
  | RungHangup => li_child s.1.1 = true /\ li_child s'.1.1 = false /\ asked = []
  | RungTerm => li_child s.1.1 = true /\ li_child s'.1.1 = false /\ (exists taken, asked = signalled pid SIGTERM taken)
                /\ os_clock s.2 + hangup_grace timing <= os_clock s'.2
  | RungKill => li_child s.1.1 = true
                /\ (exists n, os_calls s'.2 = S n /\ (li_child s'.1.1 = false <-> kn_wait k n <> None))
                /\ (exists taken killed, asked = signalled pid SIGTERM taken ++ [{| kl_pid := pid; kl_signal := SIGKILL; kl_taken := killed |}])
                /\ os_clock s.2 + hangup_grace timing + term_grace timing <= os_clock s'.2
  end.

Lemma ladder_spec realm pid h timing s :
  life_inv realm pid h s -> li_death s.1.1 <> None -> 0 <= hangup_grace timing -> 0 <= term_grace timing ->
  os_clock s.2 + ladder_time timing + hangup_grace timing + term_grace timing <= instant_max ->
  exists rung s' asked,
    (if negb (li_child s.1.1) then Some (RungAlreadyDead, s)
     else
       '(exited, s) ← wait_for_exit (hangup_grace timing) s;
       if (exited : bool) then Some (RungHangup, s)
       else
         let s := send_signal SIGTERM s in
         '(exited, s) ← wait_for_exit (term_grace timing) s;
         if (exited : bool) then Some (RungTerm, s) else Some (RungKill, force_kill s)) = Some (rung, s')
    /\ life_inv realm pid h s' /\ li_death s'.1.1 <> None /\ later_os asked (ladder_time timing) s.2 s'.2 /\ rung_says timing pid rung s s' asked.
Proof using Hdelta Hpos.
  intros Hinv Hd Hg Ht Hmax. unfold ladder_time in *.
  assert (0 <= wait_time (hangup_grace timing) /\ 0 <= wait_time (term_grace timing)) as [Hw1 Hw2]
    by (split; apply Z.mul_nonneg_nonneg; unfold REAP_POLL_INTERVAL, from_millis; lia).
  destruct (li_child s.1.1) eqn:Hch; cbn [negb].
  2: { eexists _, _, []. split; [reflexivity|]. by split_and!; [done|done|apply later_refl; lia|split_and!]. }
  destruct (wait_for_exit_total realm pid h (hangup_grace timing) s Hinv Hg) as (exited & sa & -> & Hia & Hla & Hca & Hda & Hta); [lia|].
  cbn [mbind option_bind]. destruct exited.
  { eexists _, _, []. split; [reflexivity|]. split_and!; [done|by apply Hda|eapply later_weaken; [exact Hla|lia]|by split_and!]. }
  destruct (signal_inv realm pid h SIGTERM sa Hia) as (Hib & Hcb & Hdb & Hterm & _). destruct (Hterm Hca) as [taken Hlb]. cbv zeta.
  set (sb := send_signal SIGTERM sa) in *. specialize (Hta eq_refl).
  pose proof (later_trans _ _ _ _ _ _ _ Hla Hlb) as Hlab. cbn [app] in Hlab.
  destruct (wait_for_exit_total realm pid h (term_grace timing) sb Hib Ht) as (exited & sc & -> & Hic & Hlc & Hcc & Hdc & Htc); [destruct Hlab as (_ & _ & ?); lia|].
  pose proof (later_trans _ _ _ _ _ _ _ Hlab Hlc) as Hlabc. rewrite app_nil_r in Hlabc.
  assert (li_death sc.1.1 <> None) as Hdsc by (apply Hdc; rewrite Hdb; by apply Hda).
  assert (os_clock sa.2 <= os_clock sb.2 /\ os_clock sb.2 <= os_clock sc.2) as [Hab Hbc] by (split; [apply Hlb|apply Hlc]).
  cbn [mbind option_bind]. destruct exited.
  { eexists _, _, _. split; [reflexivity|]. split_and!; [done|done|eapply later_weaken; [exact Hlabc|lia]|].
    split_and!; [done|done|by exists taken|lia]. }
  specialize (Htc eq_refl). destruct (force_kill_inv realm pid h sc Hic Hcc) as (Hid & Hdd & Hcd & killed & Hld).
  pose proof (later_trans _ _ _ _ _ _ _ Hlabc Hld) as Hlast.
  eexists _, _, _. split; [reflexivity|]. split_and!; [done|by apply Hdd|eapply later_weaken; [exact Hlast|lia]|].
  assert (os_clock sc.2 <= os_clock (force_kill sc).2) by apply Hld. split_and!; [done|done|by exists taken, killed|lia].
Qed.

Lemma shutdown_spec realm pid h timing s :
  life_inv realm pid h s -> 0 <= hangup_grace timing -> 0 <= term_grace timing ->
  os_clock s.2 + ladder_time timing + hangup_grace timing + term_grace timing <= instant_max ->
  exists rung s' asked, shutdown timing s = Some (rung, s') /\ life_inv realm pid h s'
    /\ li_death s'.1.1 <> None /\ li_runtime_dir_removed s'.1.1 = true
    /\ os_kills s'.2 = os_kills s.2 ++ asked /\ os_clock s.2 <= os_clock s'.2 <= os_clock s.2 + ladder_time timing
    /\ rung_says timing pid rung s s' asked.
Proof using Hdelta Hpos.
  intros Hinv Hg Ht Hmax. unfold Lifecycle.shutdown. pose proof (die_inv realm pid h ShutdownCause s Hinv) as Hdie. cbv zeta in Hdie.
  destruct (die ShutdownCause s) as [died s1]. cbn [snd] in Hdie. destruct Hdie as (Hi1 & Hd1 & Hc1 & Ho1 & _).
  destruct (ladder_spec realm pid h timing s1 Hi1 Hd1 Hg Ht ltac:(by rewrite Ho1)) as (rung & s2 & asked & Hl & Hi2 & Hd2 & (Hs2 & _ & Hk2) & Hsays).
  set (ladder := if negb (li_child s1.1.1) then _ else _). assert (ladder = Some (rung, s2)) as -> by exact Hl.
  cbn [mbind option_bind]. destruct (remove_inv realm pid h s2 Hi2) as (Hi3 & Hr3 & Hc3 & Hd3 & Hs3 & Hk3 & Hn3).
  eexists rung, _, asked. split; [reflexivity|]. split_and!; [done|by rewrite Hd3|done|by rewrite Hs3, Hs2, Ho1|rewrite Hk3, <- Ho1; lia|rewrite Hk3, <- Ho1; lia|].
  rewrite Ho1 in Hk2. unfold rung_says in *. by destruct rung; rewrite Hc3, ?Hn3, ?Hk3, <- ?Hc1, <- ?Ho1.
Qed.
End time.

(* ------------------------------------------------------------------------ *)
(** ** Runs of a life *)

Section runs.
Context (delta : Duration) (Hdelta : forall n, kn_delay k n <= delta) (Hpos : 0 <= delta).

(** A cause names the connection's end, and a grace is a duration. *)
Definition life_op_ok (op : LifeOp) : Prop :=
  match op with
  | LClosed cause => cause = ConnectionClosed \/ cause = ConnectionFault
  | LShutdown timing => 0 <= hangup_grace timing /\ 0 <= term_grace timing
  | _ => True
  end.
Definition life_op_time (op : LifeOp) : Duration :=
  match op with LShutdown timing => ladder_time delta timing + hangup_grace timing + term_grace timing | _ => 2 * delta end.
Fixpoint run_time (ops : list LifeOp) : Duration :=
  match ops with [] => 0 | op :: ops => life_op_time op + run_time ops end.

Lemma wait_time_nonneg budget : 0 <= wait_time delta budget.
Proof using Hpos. clear Hdelta. apply Z.mul_nonneg_nonneg; unfold REAP_POLL_INTERVAL, from_millis; lia. Qed.
Lemma life_op_time_nonneg op : life_op_ok op -> 0 <= life_op_time op.
Proof using Hpos.
  clear Hdelta. destruct op as [t'|cause| |timing]; cbn; try lia. intros [Hg Ht]. unfold ladder_time.
  pose proof (wait_time_nonneg (hangup_grace timing)). pose proof (wait_time_nonneg (term_grace timing)). lia.
Qed.
Lemma run_time_nonneg ops : Forall life_op_ok ops -> 0 <= run_time ops.
Proof using Hpos. clear Hdelta. induction 1 as [|op ops Hop _ IH]; cbn; [done|]. pose proof (life_op_time_nonneg op Hop). lia. Qed.

Lemma poll_time realm pid h s : life_inv realm pid h s -> os_clock s.2 <= os_clock (poll_exit s).2.2 <= os_clock s.2 + delta.
Proof using Hdelta Hpos.
  intros Hinv. destruct (li_child s.1.1) eqn:Hc; [by destruct (poll_later delta Hdelta Hpos s Hc realm pid h Hinv) as (_ & _ & ?)|].
  destruct s as [[l t] o]. cbn in Hc. unfold Lifecycle.poll_exit. rewrite Hc. cbn. lia.
Qed.

Lemma closed_inv realm pid h cause s :
  life_inv realm pid h s ->
  let s' := (note_connection_closed cause s).2 in
  life_inv realm pid h s' /\ os_clock s.2 <= os_clock s'.2 <= os_clock s.2 + 2 * delta.
Proof using Hdelta Hpos.
  intros Hinv. unfold Lifecycle.note_connection_closed. pose proof (die_inv realm pid h cause s Hinv) as (Hi1 & _ & _ & Ho1 & _).
  destruct (die cause s) as [died s1]. cbn [snd] in *. pose proof (poll_inv realm pid h s1 Hi1) as Hp. pose proof (poll_time realm pid h s1 Hi1) as Ht.
  destruct (poll_exit s1) as [exited s2]. cbn [snd] in *. destruct Hp as (Hi2 & _). rewrite Ho1 in Ht. destruct (li_child s2.1.1).
  - destruct (signal_inv delta Hdelta Hpos realm pid h SIGTERM s2 Hi2) as (Hi3 & _ & _ & _ & sent & _ & _ & Hc). split; [done|lia].
  - split; [done|lia].
Qed.

Lemma life_step_inv realm pid h op s :
  life_inv realm pid h s -> life_op_ok op -> os_clock s.2 + life_op_time op <= instant_max ->
  exists s', life_step op s = Some s' /\ life_inv realm pid h s' /\ os_clock s'.2 <= os_clock s.2 + life_op_time op.
Proof using Hdelta Hpos.
  intros Hinv Hop Hmax. destruct op as [t'|cause| |timing]; cbn [life_step life_op_ok life_op_time] in *.
  - eexists. split; [reflexivity|]. destruct s as [[l t] o]. unfold is_alive. case_bool_decide as Ha; (split; [|cbn; lia]); [|done].
    destruct Hinv. split; cbn in *; try done.
  - destruct (closed_inv realm pid h cause s Hinv) as [Hi Hc]. eexists. split; [reflexivity|]. split; [done|lia].
  - pose proof (poll_inv realm pid h s Hinv) as Hp. pose proof (poll_time realm pid h s Hinv) as Ht. destruct (poll_exit s) as [exited s1].
    destruct Hp as (Hi & _). cbn [snd] in *. eexists. split; [reflexivity|]. split; [done|lia].
  - destruct Hop as [Hg Ht]. destruct (shutdown_spec delta Hdelta Hpos realm pid h timing s Hinv Hg Ht) as (rung & s' & sent & -> & Hi & _ & _ & _ & Hc & _); [lia|].
    cbn [mbind option_bind]. eexists. split; [reflexivity|]. split; [done|lia].
Qed.

Lemma life_run_inv realm pid h ops s :
  life_inv realm pid h s -> Forall life_op_ok ops -> os_clock s.2 + run_time ops <= instant_max ->
  exists s', life_run ops s = Some s' /\ life_inv realm pid h s'.
Proof using Hdelta Hpos.
  intros Hinv Hops. revert s Hinv. induction Hops as [|op ops Hop Hops IH]; intros s Hinv Hmax; cbn [life_run run_time] in *; [by eauto|].
  pose proof (run_time_nonneg ops Hops). destruct (life_step_inv realm pid h op s Hinv Hop ltac:(lia)) as (s1 & -> & Hi1 & Hc1).
  cbn [mbind option_bind]. apply IH; [done|lia].
Qed.

(** A shim taken in. *)
Definition adopted (realm : RealmId) (pid : Z) (hangup : Hangup) : RealmLifecycle :=
  {| li_realm_id := realm; li_pid := pid; li_child := true; li_hangup := Some hangup; li_death := None; li_exit := None;
     li_core_signals := []; li_runtime_dir_removed := false |}.


(** C22: the shutdown ladder ends, and asks before it kills. From any state of a
    life, and however long the shim ignores what it is asked, shutting it down
    returns within the two graces, a poll each and the time the kernel's calls take;
    the realm is dead and its runtime directory removed. The rung it returns says
    exactly what was asked of the process and what became of it. On the first two
    nothing was asked. On the third it was asked once, by [SIGTERM], after the first
    grace had passed; on the last by [SIGTERM] and then, after the second grace, by
    [SIGKILL], in that order and nothing else. (A pid that is no [pid_t], of which no
    process can be made, is not asked politely; the kernel may refuse any of the
    calls.) On every rung but the last the process has been reaped, and on the last
    it has been exactly when the kernel answered the wait for it, which was the last
    call made. *)
Theorem shutdown_ladder_ends (realm : RealmId) (pid : Z) (hangup : Hangup) (timing : ShutdownTiming) (s : St)
  (Hinv : life_inv realm pid hangup s) (Hgraces : 0 <= hangup_grace timing /\ 0 <= term_grace timing)
  (Hroom : os_clock s.2 + ladder_time delta timing + hangup_grace timing + term_grace timing <= instant_max) :
  let ask signal taken := {| kl_pid := pid; kl_signal := signal; kl_taken := taken |} in
  let polite taken := if 2147483647 <? pid then [] else [ask SIGTERM taken] in
  exists rung s' asked, shutdown timing s = Some (rung, s')
  /\ is_alive s'.1.1 = false /\ gone realm pid s'.1.2 /\ os_removed s'.2 = 1%nat
  /\ os_kills s'.2 = os_kills s.2 ++ asked
  /\ os_clock s'.2 <= os_clock s.2 + ladder_time delta timing
  /\ match rung with
     | RungAlreadyDead => is_reaped s.1.1 = true /\ is_reaped s'.1.1 = true /\ asked = []
     | RungHangup => is_reaped s.1.1 = false /\ is_reaped s'.1.1 = true /\ asked = []
     | RungTerm => is_reaped s.1.1 = false /\ is_reaped s'.1.1 = true /\ (exists taken, asked = polite taken)
                   /\ os_clock s.2 + hangup_grace timing <= os_clock s'.2
     | RungKill => is_reaped s.1.1 = false
                   /\ (exists n, os_calls s'.2 = S n /\ (is_reaped s'.1.1 = true <-> kn_wait k n <> None))
                   /\ (exists taken killed, asked = polite taken ++ [ask SIGKILL killed])
                   /\ os_clock s.2 + hangup_grace timing + term_grace timing <= os_clock s'.2
     end.
Proof using Hdelta Hpos.
  cbv zeta. destruct Hgraces as [Hg Ht].
  destruct (shutdown_spec delta Hdelta Hpos realm pid hangup timing s Hinv Hg Ht Hroom) as (rung & s' & asked & Hsh & Hi & Hd & Hr & Hs & Hc & Hsays).
  exists rung, s', asked. unfold is_alive, is_reaped. split_and!; [done|by apply bool_decide_eq_false|by apply (lv_gone _ _ _ _ Hi)| |done|lia|].
  - rewrite (lv_removed _ _ _ _ Hi). by rewrite Hr.
  - destruct rung; unfold rung_says in Hsays; try (destruct Hsays as (-> & -> & ?); done).
    destruct Hsays as (-> & (n & Hn & Hw) & Ha & Ht'). split_and!; [done| |done|done]. exists n. split; [done|]. rewrite <- Hw. by destruct (li_child s'.1.1).
Qed.
End runs.
End invariant.

(* ------------------------------------------------------------------------ *)
(** ** A shim that must be killed *)

#[local] Instance demo_importer : DmabufImporter unit unit :=
  {| imp_supports _ _ := true; imp_import i _ _ := (Ok tt, i); imp_clear i := i |}.

(** It ignores the polite signal and dies of the other. *)
Definition stubborn : Kernel :=
  {| kn_try_wait _ := Ok None; kn_wait _ := Some SIGKILL; kn_kill _ := true; kn_delay _ := 1000000 |}.
Definition demo_teardown : @RealmTeardown unit unit unit unit unit :=
  {| td_scene := {| sn_surface := None; sn_generation := 0; sn_pending_damage := Unbounded |}; td_shim := None; td_importer := None;
     td_router := router_new ∅ 0 tt; td_retained := Some tt; td_clipboard := Clipboard.slot_new; td_idle_inhibits := ∅;
     td_realms := {| realms := ∅; next_instance := 0; picker_root := None |}; td_recorder := []; td_hung_up := [] |}.
Definition demo_os : Os := {| os_calls := 0; os_clock := 0; os_kills := []; os_removed := 0 |}.
Definition short_grace : ShutdownTiming := {| hangup_grace := 10000000; term_grace := 20000000 |}.


Lemma shutdown_ladder_ends_witness :
  exists s', shutdown (fun f : unit => (f, true)) stubborn short_grace (adopted (str "realm-0") 42 Owned, demo_teardown, demo_os) = Some (RungKill, s')
  /\ is_alive s'.1.1 = false /\ is_reaped s'.1.1 = true
  /\ os_kills s'.2 = [{| kl_pid := 42; kl_signal := SIGTERM; kl_taken := true |}; {| kl_pid := 42; kl_signal := SIGKILL; kl_taken := true |}].
Proof.
  destruct (shutdown_ladder_ends (fun f : unit => (f, true)) stubborn 1000000 ltac:(intros; cbn; lia) ltac:(lia) (str "realm-0") 42 Owned short_grace
    (adopted (str "realm-0") 42 Owned, demo_teardown, demo_os)) as (rung & s' & asked & Hs & Hd & _ & _ & Hasked & _ & Hsays).
  - split; cbn; done.
  - cbn. lia.
  - vm_compute. done.
  - assert (rung = RungKill) as -> by (revert Hs; vm_compute; by intros [= <- _]).
    exists s'. split; [exact Hs|]. split; [exact Hd|]. destruct Hsays as (_ & (n & _ & Hw) & _). split; [by apply Hw|].
    revert Hs. clear. vm_compute. by intros [= <-].
Defined.
